(* ===== verification/_CoqProject ===== *)
-Q . S2P
Prelude.v
Conversion.v
GoStrings.v
GoNet.v
Cell.v
RelayCell.v
CellPayloads.v
Replay.v
CCParams.v
Vegas.v
FlowControl.v
FlowProtocol.v
StreamID.v
Stream.v
Polyval.v
CGO.v
Onion.v
Circuit.v
Mux.v
Circpad.v
PaddingMachines.v
ConfluxSet.v
Breaker.v
EquiX.v
OnionPoW.v
RelayCrypto.v
ConsDiff.v
ConsDiffGen.v
ConsDiffText.v
Extend2.v
Ntor.v
NtorV3.v
CircuitBuild.v
HsNtor.v
LinkCerts.v
LinkClient.v
LinkRelay.v
LinkHandshake.v
ServerCircuit.v
ExitStreams.v
ExitProtocol.v
ExitRules.v
ExitPolicy.v
Resolve.v
Relays.v
Guards.v
PathSelection.v
IntroPoint.v
DoSGuard.v
HsIntro.v
CircuitHandler.v
HsService.v
BuiltCircuit.v
CircuitTables.v
RelayInvariant.v
CircuitTeardown.v
Rendezvous.v
