(* ===== verification/Prelude.v ===== *)
(** * go-tor: a verification library for the core of a Tor implementation

    go-tor (src/) is a Tor client, relay and onion-service implementation in Go.
    This library models the part of it that moves cells, at both ends: the wire
    formats, circuits and streams, flow and congestion control, Conflux, replay
    protection and onion layers of a client; circuits, forwarding, exit streams,
    exit policies, introduction and rendezvous of a relay; the handshakes of links,
    circuits and onion services, and the building of circuits with them; proof of
    work; the choice of paths and guards, padding, and consensus diffs.

    ** The program's parts and how they interact

    A link connection carries cells ([Cell.v]) once both sides have agreed on a
    version and the relay has shown its certificates ([LinkClient.v],
    [LinkRelay.v], [LinkCerts.v]).  On a client the multiplexer
    ([Mux.v]) reads them and gives RELAY cells to their circuit:
    [Circuit.DeliverRelayCell] removes the onion layers ([Onion.v], [CGO.v]), runs
    the replay check ([Replay.v]), decodes the relay message ([RelayCell.v], with
    the bodies of [CellPayloads.v]), keeps the circuit's and the stream's windows
    ([FlowControl.v], [Stream.v]), starts the goroutines that send SENDMEs, and
    hands the message to the Conflux set the circuit belongs to ([ConfluxSet.v]) or
    to the receive queue.  [Circuit.emitRelayCell] is the way out: windows are
    reserved first, and refunded when sending fails.  A circuit with negotiated
    congestion control replaces its fixed window by the Vegas state ([Vegas.v]),
    whose parameters come from the consensus ([CCParams.v]).  The relays of a new
    circuit are chosen by [PathSelection.v] with the guards of [Guards.v]; the
    circuit is built by [CircuitBuild.v], which runs a handshake ([Ntor.v],
    [NtorV3.v]) with each relay over the messages of [Extend2.v].  To reach an
    onion service a client sends it an introduction ([HsIntro.v]), with a proof of
    work if asked for ([OnionPoW.v] over [EquiX.v]); the service answers at the
    rendezvous point and both add a hop whose keys are those of hs-ntor
    ([HsNtor.v], [HsService.v]).

    On a relay [CircuitHandler.v] takes every cell of a connection: it creates
    circuits, removes its layer ([RelayCrypto.v]), forwards, extends, joins the two
    circuits of a rendezvous, keeps introduction points ([IntroPoint.v]) and gives
    stream cells to the exit ([ExitStreams.v]), which asks the exit policy
    ([ExitPolicy.v] over [ExitRules.v] and [GoNet.v]) and looks names up
    ([Resolve.v]).

    ** Files

    - [Prelude.v]: this header; results, w-bit integers, byte strings, big-endian
      fields, readers and writers, Go's [select]; the tactics and hints.
    - [Conversion.v]: pkg/security/conversion.go.
    - [GoStrings.v], [GoNet.v]: what the source uses of Go's strings, strconv, hex
      and net packages: splitting, trimming, numbers, IP addresses, masks, networks
      and their text forms.
    - [Cell.v]: pkg/cell/cell.go, both circuit-id widths, encoding onto a writer
      that may break, decoding from a byte stream.
    - [RelayCell.v]: pkg/cell/relay.go and relay_v1.go.
    - [CellPayloads.v]: modules [Sendme], [Conflux], [Connected] for
      pkg/cell/sendme.go, conflux.go, connected.go.
    - [Replay.v]: pkg/cell/replay.go; SHA-256 is a parameter.
    - [CCParams.v], [Vegas.v]: pkg/circuit/ccparams.go, vegas.go.
    - [FlowControl.v]: pkg/circuit/sendme.go and the window functions of
      circuit.go, against the class [StreamTable] of stream tables with its laws
      [StreamTableLaws].
    - [FlowProtocol.v]: two [FlowControl] endpoints joined by channels; the senders
      of a circuit reserve, encrypt, write and record in separate steps, and the
      SENDME goroutines are tasks a scheduler picks from.
    - [StreamID.v]: the wrap-around search for a free 16-bit id, shared by
      streams and circuits.
    - [Stream.v]: pkg/stream/stream.go and backpressure.go; streams are shared
      objects on a heap, the manager's table maps (circuit, stream) to them;
      its per-circuit view is the instance of [StreamTable].  Calls on the queues
      check, queue and account in separate steps.
    - [Circuit.v]: pkg/circuit/circuit.go: circuit life cycle, stream ids,
      receive queue, the two relay-cell handlers over the stateful layers of
      [Onion.v] and [CGO.v], stream reads and writes, and the manager.
    - [Mux.v]: pkg/circuit/mux.go over shared circuits and waiter channels.
    - [Circpad.v]: pkg/circuit/circpad.go, circpad_histogram.go and
      circpad_runtime.go, the negotiated padding of onion-service circuits.
    - [PaddingMachines.v]: pkg/circuit/padding_machine.go and padding.go; the
      goroutine of the latter is a step relation.
    - [ConfluxSet.v]: pkg/circuit/conflux.go over the class [Legs] of what a set
      asks of its circuits, and a sender and a receiver joined by two legs; what
      a leg's reader does under the set's lock and its enqueueing to the owner are
      separate steps.
    - [Onion.v]: pkg/circuit/onion.go; the running hash and the key streams are
      parameters, and so is the CGO layer, which [RelayCrypto.v] instantiates.
    - [Breaker.v]: pkg/errors/breaker.go, float64 as IEEE binary64 [SpecFloat].
    - [Polyval.v], [CGO.v]: pkg/crypto/polyval.go and cgo.go over a block cipher.
    - [RelayCrypto.v]: pkg/relay/circuit_crypto.go and the key derivation of
      pkg/circuit/extension.go; a client and its relays as one system.
    - [ConsDiff.v], [ConsDiffGen.v], [ConsDiffText.v]: pkg/directory/consdiff.go
      (parsing and applying), consdiff_gen.go (generating), and the two together
      down to the text.
    - [Extend2.v]: link specifiers, EXTEND2, CREATE2, CREATED2 and EXTENDED2 of
      pkg/circuit/extension.go, pkg/relay/extension.go and pkg/onion/linkspec.go.
    - [Ntor.v], [NtorV3.v]: pkg/crypto/ntor.go, ntor_server.go, ntorv3.go,
      ntorv3_server.go and subproto.go, both sides of each handshake, over classes
      of a Diffie-Hellman group and of hashes.
    - [CircuitBuild.v]: the handshakes of pkg/circuit/extension.go and builder.go
      with what a relay answers (circuit_handler.go); [BuiltCircuit.v] joins it to
      [CircuitHandler.v] and [RelayCrypto.v].
    - [LinkCerts.v]: pkg/protocol/certs.go and pkg/relay/or_certs.go, over the class
      [LinkCrypto] of X.509 parsing, hashes and signatures; [LinkClient.v]:
      pkg/protocol/protocol.go; [LinkRelay.v]: pkg/relay/or_handler.go and
      or_auth.go; [LinkHandshake.v]: the two together.  Each side is a function of
      the bytes it receives, in a state and error monad.
    - [HsNtor.v]: pkg/crypto/hs_ntor.go and pkg/circuit/hs_hop.go; [HsIntro.v]:
      INTRODUCE1 built and INTRODUCE2 read (pkg/onion/onion.go, introduce2.go);
      [HsService.v]: HandleIntroduce2, rendezvous1.go and CompleteRendezvous.
    - [EquiX.v], [OnionPoW.v]: pkg/crypto/equix (HashX is a parameter) and
      pkg/onion/pow.go.
    - [ServerCircuit.v]: a relay's circuit object and its class [Primitives].
    - [ExitStreams.v]: pkg/relay/exit_stream.go and the gate of bandwidth.go.
    - [ExitProtocol.v]: an exit and a client joined by channels, both directions.
    - [ExitRules.v], [ExitPolicy.v]: pkg/directory/exitrules.go and exitpolicy.go;
      pkg/relay/policy.go.
    - [Resolve.v]: pkg/relay/exit_resolve.go and pkg/circuit/dns.go.
    - [Relays.v], [Guards.v], [PathSelection.v]: relay entries and families of
      pkg/directory; pkg/path/guards.go and bias.go; pkg/path/path.go.
    - [IntroPoint.v]: pkg/onion/establish_intro.go, intro_dos.go and the parser of
      INTRODUCE1, over the class [IntroCrypto].
    - [DoSGuard.v]: pkg/relay/dos.go.
    - [CircuitHandler.v]: pkg/relay/circuit_handler.go, forwarding.go,
      forwarding_extend.go, hsrend.go and hsintro.go, in a state monad over a heap
      of circuits.  [CircuitTables.v] has its tables seen from outside,
      [RelayInvariant.v] their invariant, [CircuitTeardown.v] what closing does,
      [Rendezvous.v] two clients that meet.

    Definitions keep the names of the Go functions.  A Go function that changes
    its receiver becomes a function that returns the new state; one that returns
    an error becomes a [result] or an [option error], with the partial effects it
    has before it fails.  Integers are [Z] with the wrap-around of their type
    written out ([u8], [u16], [u32], [u64], [i64]).  What runs under one lock is one
    step.  Where the code releases a lock in between (a goroutine, a wait, sending on
    a circuit, the queues of a stream, the send lock and the receive path of Conflux,
    EXTEND2 waiting for the next relay) the model has separate steps, which the
    systems of [FlowControl.v], [FlowProtocol.v], [ExitProtocol.v], [Stream.v] and
    [ConfluxSet.v] interleave, or an argument for what the rest of the program does
    meanwhile.  The relay's handlers run uninterrupted except for the extend waits.
    A theorem that needs calls not to overlap says so: a predicate on the sequence
    of steps ([alone], [orderly], [uorderly], [exclusive], [one_producer],
    [no_race]) states it, and a theorem shows what happens without.  Time,
    randomness and the choice among the ready cases of a [select] are arguments.

    ** What the theorems show

    - Formats: encoding and decoding are inverse for link cells, v0 and v1 relay
      messages, the bodies, EXTEND2 and its answers, ESTABLISH_INTRO, RESOLVED, exit
      policy summaries and consensus diffs; decoding is total and stays inside its
      input; a sequence of cells is framed unambiguously; what is on the wire when
      a write fails or a cell is refused.
    - Onion layers: a circuit of classic or CGO hops is a reliable channel between
      the client and each relay ([circuit_refines_channel]), with cipher positions
      and digests in step on both sides; POLYVAL is that of RFC 8452.
    - Circuits: ntor and ntor-v3 give both sides the same keys, and a client accepts
      only the answer to its own handshake from the relay it asked for, unless a
      hash collides ([ntor_handshake_sound], [ntor_v3_handshake_sound]); with an
      honest relay they succeed ([honest_handshake_completes]); the circuit that is built through any network
      of such relays is the channel of the onion layers
      ([built_circuit_is_channel]), and the relay's handler is such a relay
      ([handler_implements_relay]).
    - Links: a client and a relay complete the handshake with each other
      ([link_handshake_completes]); a client in strict mode has seen a chain of
      signatures to the identity it expects ([strict_handshake_identity]); a relay
      that reports an authenticated initiator has verified its signature over both
      transcripts and the TLS secret ([link_auth_sound]).
    - Onion services: the introduction the service reads is the one the client made
      ([introduce_exact]); a rendezvous gives both the same hop
      ([rendezvous_completes]) and only to the party the client meant
      ([hs_rendezvous_sound]), unless a hash collides; the Equi-X solver finds
      exactly the verified solutions without repeated branches ([solver_exact]); a
      proof of work is admitted while its seed is current or the previous one, if the
      seeds differ in their first four bytes ([pow_admission]).
    - Replay: acceptance is characterised exactly, no sequence number is accepted
      twice, duplicates inside the window are refused, memory is bounded; what a
      circuit delivers its layers have authenticated
      ([delivered_cells_authenticated]).
    - Flow control: reservations are transactional, a SENDME counts only with the
      digest of the oldest boundary cell, no peer can inflate the window of senders
      that do not overlap, a failed send restores all windows, and two honest
      endpoints never reject each other as long as cells and SENDMEs are sent one
      after the other; an exit simulates such an endpoint.
    - Congestion control: the window stays in its bounds, reacts in the direction
      it should, and the estimators cannot leave the range of their inputs.
    - Conflux: a set is linked only after both legs answered with its nonce and
      were acknowledged; whatever leg concurrent senders then choose and however
      the legs are delayed, the set releases a prefix of what was sent, and all of
      it once the legs are drained; the owner gets it in that order if the readers
      of the two legs do not overlap.
    - Streams and circuits: ids are fresh and the search for them ends, no stream
      is lost, queues neither lose nor reorder data, writes are split without
      loss, readers demultiplex the circuit's queue, closing a circuit takes its
      Conflux set along; a CREATED2 reaches whoever waits for it.
    - Relay: its tables stay consistent under any cells in any order, closing a
      circuit ends and frees what belongs to it and leaves the others alone (the slot
      of a cookie they share apart), at most eight RELAY_EARLY cells pass, a
      rendezvous joins two circuits into a channel for what is addressed to the
      point.
    - Floods: the relay counts each address's connections exactly, and a refused
      address stays refused for the period of defence, while the defence is switched
      on ([dos_guard_sound]).
    - Exit: places at the gate are neither lost nor kept; no connection is made to a
      private address; what a relay publishes of its policy is its policy; lookups
      tell the client what the resolver said.
    - Paths: hops are distinct, of different families and subnets, flagged for
      their place, and the exit accepts the target; guards are chosen and kept as
      documented.
    - Padding: how often and how long machines pad.
    - Breaker: how many requests a half-open phase admits, failing fast.

    Some theorems state behaviour that is probably not intended.  In the client: the
    unordered SENDME goroutines ([sendme_goroutine_race]), the SENDME that comes
    before its tag is recorded ([sendme_before_record]), senders that overtake each
    other ([sendme_overlapping_senders], [encryption_order_race]), the place given
    back at a boundary ([refund_race_inflates_window]), the legs that enqueue out of
    order ([conflux_enqueue_race]), the byte count that outlives its bytes
    ([receive_count_race]), the stream SENDMEs of a burst ([stream_sendme_burst_overcredits]), the honest SWITCH that tears a set
    down ([conflux_switch_back_rejected]), the idle stream that stays blocked
    ([backpressure_blocks_idle_stream]), the uncounted probe
    ([half_open_admissions]), the half-written cell ([cell_encode_refusals]), the
    length field that wraps ([created2_length_wraps]), the lost DESTROY
    ([destroy_after_created2_lost]), padding after its end ([drop_after_stop],
    [restart_is_undone], [stop_can_panic]), the state file nobody can read
    ([state_file_forgets]), the stored guards beyond the limit
    ([loaded_list_unbounded]), the relay refused after one with CGO
    ([stale_cgo_refuses_classic]), the certificates that say nothing of the TLS
    session ([certs_without_link_accepted]).  In onion services: the two ends of a
    rendezvous with different windows ([rendezvous_windows_differ]) and the
    introductions never forgotten ([served_introductions_kept]).  In the relay: [end_to_end_cells_dropped],
    [stale_cookie_evicts_stranger], [foreign_destroy_closes_circuit],
    [begin_dir_reuse_leaks], [two_pumps_break_circuit],
    [stray_data_breaks_circuit], [failed_write_breaks_circuit], [holed_mask_accepted],
    [many_addresses_unanswered], [serial_connections_unlimited].  In consensus diffs:
    [append_then_truncate_diverges].

    ** Fuel and bounds

    Loops that are not structural take fuel, and each is shown to end within it or
    is given what it can use at most: the id searches take 65535 steps, one per
    non-zero id; the emptying of the out-of-order table one more than its size; the
    write loop one more than the number of bytes; the receive loop of [Cell.v] one
    step per cell; parsing a diff one step per line, generating one per line of
    either document; POLYVAL one per block; the records of a RESOLVED body one per
    byte; the groups of an IPv6 address eight; printing a number nineteen digits;
    closing a circuit one step per circuit; the receive loops of the link handshake
    one step more than there are bytes, as each cell takes at least one
    ([receive_passes], [finish_passes]).  Equi-X trees have depth three.  The
    search for a proof of work takes the number of nonces tried before its context
    ends.  Waiting loops (window reservation,
    choice of a leg, stream reads) consume a list that says what happens at each
    wait; an exhausted list is a caller that still blocks, not a result.  Statements
    about 64-bit counters assume runs short enough for them not to wrap (below 2^32
    for the Conflux numbers, whose SWITCH offset is 32 bits).

    ** Not modelled

    Logging and statistics; the network, TLS and the timers of a connection;
    cryptographic primitives (ciphers, hashes, curves, signatures, X.509, HashX),
    which are parameters; fetching and parsing of directory documents,
    onion-service descriptors and key blinding, which are text formats over those
    primitives; the client's start-up, configuration, control port, pluggable
    transports and front ends, which are orchestration of goroutines, files and
    sockets.  Of what has logic of its own and is left out: protocol-version
    ranges, the relay's rate limits, vanguards and the parser of SOCKS
    requests. *)

From Stdlib Require Export ZArith Lia.
From stdpp Require Export base tactics numbers list gmap strings pretty.

(** ** Scope and notations *)

Declare Scope gotor_scope.
Delimit Scope gotor_scope with gotor.
Global Open Scope gotor_scope.
Global Open Scope Z_scope.

(** ** Results: a Go function returning [(T, error)] *)

Inductive result (E A : Type) : Type :=
| Ok (a : A)
| Err (e : E).
Arguments Ok {E A} a.
Arguments Err {E A} e.

Definition result_bind {E A B} (m : result E A) (k : A -> result E B) : result E B :=
  match m with
  | Ok a => k a
  | Err e => Err e
  end.

Notation "'let?' x ':=' m 'in' k" := (result_bind m (fun x => k))
  (at level 10, x pattern, m at level 100, k at level 200) : gotor_scope.

Definition is_ok {E A} (m : result E A) : bool :=
  match m with Ok _ => true | Err _ => false end.

Global Instance result_eq_dec `{EqDecision E} `{EqDecision A} : EqDecision (result E A).
Proof. solve_decision. Defined.

Lemma result_bind_ok {E A B} (m : result E A) (k : A -> result E B) b :
  result_bind m k = Ok b <-> exists a, m = Ok a /\ k a = Ok b.
Proof. destruct m; simpl; naive_solver. Qed.

(** ** Machine integers

    Go's [uintN(v)] keeps the low N bits; [int] and [int64] are 64-bit two's
    complement on the platforms the program targets, and every arithmetic
    operation on them wraps. *)

Definition u8 (v : Z) : Z := v mod 2 ^ 8.
Definition u16 (v : Z) : Z := v mod 2 ^ 16.
Definition u32 (v : Z) : Z := v mod 2 ^ 32.
Definition u64 (v : Z) : Z := v mod 2 ^ 64.
Definition i64 (v : Z) : Z := (v + 2 ^ 63) mod 2 ^ 64 - 2 ^ 63.

Definition MaxUint16 : Z := 65535.
Definition MaxUint32 : Z := 4294967295.
Definition MaxInt64 : Z := 9223372036854775807.

Definition is_u (w : Z) (v : Z) : Prop := 0 <= v < 2 ^ w.
Definition is_i64 (v : Z) : Prop := - 2 ^ 63 <= v < 2 ^ 63.
Definition is_byte (b : Z) : Prop := 0 <= b < 256.

Global Instance is_u_dec w v : Decision (is_u w v).
Proof. unfold is_u. apply _. Defined.
Global Instance is_i64_dec v : Decision (is_i64 v).
Proof. unfold is_i64. apply _. Defined.
Global Instance is_byte_dec v : Decision (is_byte v).
Proof. unfold is_byte. apply _. Defined.

(** [word] evaluates the powers of two that bound the machine integers and
    closes the linear goals that are left. *)

Ltac unfold_words :=
  unfold u8, u16, u32, u64, i64, is_u, is_i64, is_byte, MaxUint16, MaxUint32, MaxInt64 in *;
  change (2 ^ 8) with 256 in *; change (2 ^ 16) with 65536 in *;
  change (2 ^ 31) with 2147483648 in *; change (2 ^ 62) with 4611686018427387904 in *;
  change (2 ^ 32) with 4294967296 in *; change (2 ^ 63) with 9223372036854775808 in *;
  change (2 ^ 64) with 18446744073709551616 in *.

Ltac word := unfold_words; try (Z.div_mod_to_equations; lia).

(** [cases] splits every boolean test of the goal and hypotheses and turns it
    into the arithmetic fact it decides. *)

Ltac bool_to_prop :=
  repeat match goal with
  | H : (_ <? _) = true |- _ => apply Z.ltb_lt in H
  | H : (_ <? _) = false |- _ => apply Z.ltb_ge in H
  | H : (_ <=? _) = true |- _ => apply Z.leb_le in H
  | H : (_ <=? _) = false |- _ => apply Z.leb_gt in H
  | H : (_ =? _) = true |- _ => apply Z.eqb_eq in H
  | H : (_ =? _) = false |- _ => apply Z.eqb_neq in H
  | H : (_ && _) = true |- _ => apply andb_true_iff in H; destruct H
  | H : (_ || _) = false |- _ => apply orb_false_iff in H; destruct H
  | H : negb _ = true |- _ => apply negb_true_iff in H
  | H : negb _ = false |- _ => apply negb_false_iff in H
  | H : bool_decide _ = true |- _ => apply bool_decide_eq_true in H
  | H : bool_decide _ = false |- _ => apply bool_decide_eq_false in H
  end.

Ltac case_if :=
  match goal with
  | |- context [if ?b then _ else _] => let E := fresh "E" in destruct b eqn:E
  | H : context [if ?b then _ else _] |- _ => let E := fresh "E" in destruct b eqn:E
  end.

Ltac cases := repeat (case_if; simplify_eq/=); bool_to_prop; try done.

Lemma i64_range v : is_i64 (i64 v).
Proof. word. Qed.

Lemma i64_id v : is_i64 v -> i64 v = v.
Proof. intros; word. Qed.

Lemma u16_id v : is_u 16 v -> u16 v = v.
Proof. intros; word. Qed.

Lemma u32_id v : is_u 32 v -> u32 v = v.
Proof. intros; word. Qed.

Lemma u64_id v : is_u 64 v -> u64 v = v.
Proof. intros; word. Qed.

Lemma u64_range v : is_u 64 (u64 v).
Proof. word. Qed.

(** ** Byte slices *)

Abbreviation bytes := (list Z).

(** [len(l)] *)
Definition len {A} (l : list A) : Z := Z.of_nat (length l).

(** [make([]byte, n)] *)
Definition zeros (n : nat) : bytes := replicate n 0.

(** [l[i:j]] *)
Definition slice {A} (l : list A) (i j : nat) : list A := take (j - i) (drop i l).

(** [l[i]]; a Go program panics out of range, so every use below is guarded. *)
Definition at_ (l : bytes) (i : nat) : Z := default 0 (l !! i).

(** [copy(dst[off:], src)]: as many bytes as both sides have room for. *)
Definition copy_at {A} (dst : list A) (off : nat) (src : list A) : list A :=
  take off dst ++ take (length dst - off) src ++ drop (off + length src) dst.

Lemma len_nonneg {A} (l : list A) : 0 <= len l.
Proof. unfold len. lia. Qed.

Lemma len_app {A} (l k : list A) : len (l ++ k) = len l + len k.
Proof. unfold len. rewrite length_app. lia. Qed.

Lemma length_zeros n : length (zeros n) = n.
Proof. apply length_replicate. Qed.

Lemma length_slice {A} (l : list A) i j :
  (j <= length l)%nat -> length (slice l i j) = (j - i)%nat.
Proof. intros. unfold slice. rewrite length_take, length_drop. lia. Qed.

Lemma length_copy_at {A} (dst : list A) off src :
  (off <= length dst)%nat -> length (copy_at dst off src) = length dst.
Proof.
  intros. unfold copy_at. rewrite !length_app, !length_take, length_drop. lia.
Qed.

(** Filling a zeroed buffer from left to right appends to what is written. *)
Lemma copy_at_zeros (pre src : bytes) off n :
  length pre = off -> (length src <= n)%nat ->
  copy_at (pre ++ zeros n) off src = pre ++ src ++ zeros (n - length src).
Proof.
  intros <- Hn. unfold copy_at, zeros.
  rewrite take_app_length, length_app, length_replicate.
  rewrite (take_ge src) by lia.
  rewrite drop_app_ge by lia. rewrite drop_replicate. do 3 f_equal. lia.
Qed.

Lemma slice_app_skip {A} (pre l : list A) i j :
  length pre = i -> (i <= j)%nat -> slice (pre ++ l) i j = take (j - i) l.
Proof. intros <- ?. unfold slice. by rewrite drop_app_length. Qed.

Lemma slice_mid {A} (pre l post : list A) i j :
  length pre = i -> (length pre + length l)%nat = j -> slice (pre ++ l ++ post) i j = l.
Proof.
  intros Hi Hj. rewrite slice_app_skip by lia.
  replace (j - i)%nat with (length l) by lia. apply take_app_length.
Qed.

Lemma at_app_skip (pre : bytes) b post i :
  length pre = i -> at_ (pre ++ b :: post) i = b.
Proof. intros <-. unfold at_. by rewrite list_lookup_middle. Qed.

(** ** Big-endian integers: [binary.BigEndian.PutUintN] and [UintN] *)

Fixpoint be_put (n : nat) (v : Z) : bytes :=
  match n with
  | O => []
  | S n => Z.land (Z.shiftr v (8 * Z.of_nat n)) 255 :: be_put n v
  end.

Fixpoint be_get_acc (acc : Z) (l : bytes) : Z :=
  match l with
  | [] => acc
  | b :: l => be_get_acc (Z.lor (Z.shiftl acc 8) b) l
  end.

Definition be_get (l : bytes) : Z := be_get_acc 0 l.

Lemma length_be_put n v : length (be_put n v) = n.
Proof. induction n; simpl; auto. Qed.

Lemma land_255 v : Z.land v 255 = v mod 256.
Proof. change 255 with (Z.ones 8). by rewrite Z.land_ones. Qed.

Lemma lor_shift_byte acc b : is_byte b -> Z.lor (Z.shiftl acc 8) b = acc * 256 + b.
Proof.
  intros Hb. rewrite <- (Z.mod_small b (2 ^ 8)) at 1 by (word; lia).
  rewrite <- Z.land_ones by lia. rewrite Z.shiftl_mul_pow2 by lia.
  assert (Z.land (acc * 2 ^ 8) (Z.land b (Z.ones 8)) = 0) as H0.
  { apply Z.bits_inj'. intros n Hn. rewrite !Z.land_spec, Z.bits_0.
    rewrite Z.testbit_ones_nonneg by lia.
    destruct (Z.ltb_spec n 8).
    - rewrite Z.mul_pow2_bits_low by lia. done.
    - by rewrite !andb_false_r. }
  rewrite <- Z.lxor_lor by done. rewrite <- Z.add_nocarry_lxor by done.
  rewrite Z.land_ones by lia. rewrite Z.mod_small by (word; lia). word.
Qed.

Lemma be_put_bytes n v : Forall is_byte (be_put n v).
Proof.
  induction n; simpl; constructor; auto. rewrite land_255. word.
Qed.

Lemma be_get_acc_bytes l acc :
  Forall is_byte l -> be_get_acc acc l = acc * 2 ^ (8 * len l) + be_get_acc 0 l.
Proof.
  revert acc. induction l as [|b l IH]; intros acc Hl; simpl.
  - unfold len; simpl. lia.
  - apply Forall_cons in Hl as [Hb Hl].
    rewrite (IH _ Hl), (IH (Z.lor _ _) Hl), !lor_shift_byte by done.
    rewrite Z.mul_0_l, Z.add_0_l.
    replace (8 * len (b :: l)) with (8 + 8 * len l) by (unfold len; simpl; lia).
    rewrite Z.pow_add_r by (unfold len; lia). change (2 ^ 8) with 256. lia.
Qed.

Lemma be_get_cons b l :
  is_byte b -> Forall is_byte l -> be_get (b :: l) = b * 2 ^ (8 * len l) + be_get l.
Proof.
  intros Hb Hl. unfold be_get; simpl.
  rewrite be_get_acc_bytes, lor_shift_byte by done. lia.
Qed.

Lemma be_get_range l : Forall is_byte l -> 0 <= be_get l < 2 ^ (8 * len l).
Proof.
  induction l as [|b l IH]; intros Hl.
  - vm_compute; done.
  - apply Forall_cons in Hl as [Hb Hl]. rewrite be_get_cons by done.
    specialize (IH Hl). unfold is_byte in Hb.
    replace (8 * len (b :: l)) with (8 + 8 * len l) by (unfold len; simpl; lia).
    rewrite Z.pow_add_r by (unfold len; lia). change (2 ^ 8) with 256. nia.
Qed.

(** Reading back an [n]-byte big-endian field gives the value modulo its width. *)
Lemma be_get_put n v : be_get (be_put n v) = v mod 2 ^ (8 * Z.of_nat n).
Proof.
  induction n as [|n IH]; simpl be_put.
  - symmetry. apply Z.mod_1_r.
  - rewrite be_get_cons by (try apply be_put_bytes; rewrite land_255; word).
    rewrite IH, land_255, Z.shiftr_div_pow2 by lia.
    unfold len. rewrite length_be_put.
    replace (8 * Z.of_nat (S n)) with (8 * Z.of_nat n + 8) by lia.
    rewrite Z.pow_add_r by lia. rewrite Z.rem_mul_r by (try apply Z.pow_nonzero; lia).
    change (2 ^ 8) with 256. lia.
Qed.

Lemma be_get_put_id n v :
  0 <= v < 2 ^ (8 * Z.of_nat n) -> be_get (be_put n v) = v.
Proof. intros. rewrite be_get_put. by apply Z.mod_small. Qed.

(** An [n]-byte field ignores what lies above its width. *)
Lemma be_put_high n w k v :
  Z.of_nat n <= w -> be_put n (k * 2 ^ (8 * w) + v) = be_put n v.
Proof.
  induction n as [|n IH]; intros Hn; [done|]. simpl. rewrite IH by lia. f_equal.
  rewrite !land_255, !Z.shiftr_div_pow2 by lia.
  replace (8 * w) with (8 * (w - Z.of_nat n - 1) + 8 + 8 * Z.of_nat n) by lia.
  rewrite !Z.pow_add_r by lia. rewrite !Z.mul_assoc.
  rewrite Z.div_add_l by (apply Z.pow_nonzero; lia).
  change (2 ^ 8) with 256. by rewrite Z.add_comm, Z_mod_plus_full.
Qed.

(** Writing back a parsed field reproduces its bytes. *)
Lemma be_put_get l : Forall is_byte l -> be_put (length l) (be_get l) = l.
Proof.
  induction l as [|b l IH]; intros Hl; [done|].
  apply Forall_cons in Hl as [Hb Hl]. simpl.
  rewrite be_get_cons by done. pose proof (be_get_range l Hl) as Hr.
  fold (len l). f_equal.
  - rewrite land_255, Z.shiftr_div_pow2 by (unfold len; lia).
    rewrite Z.div_add_l, (Z.div_small (be_get l)) by (try apply Z.pow_nonzero; unfold len in *; lia).
    rewrite Z.add_0_r. by apply Z.mod_small.
  - rewrite be_put_high by (unfold len; lia). auto.
Qed.

Definition PutUint16 := be_put 2.
Definition PutUint32 := be_put 4.
Definition PutUint64 := be_put 8.

(** ** Byte streams

    [io.ReadFull] on the bytes a reader still holds: all [n] bytes or a
    failure that has consumed what there was. *)
Definition read_full (n : nat) (r : bytes) : option bytes * bytes :=
  if decide (n <= length r)%nat then (Some (take n r), drop n r) else (None, []).

Lemma read_full_app n (l rest : bytes) :
  length l = n -> read_full n (l ++ rest) = (Some l, rest).
Proof.
  intros <-. unfold read_full. rewrite decide_True by (rewrite length_app; lia).
  by rewrite take_app_length, drop_app_length.
Qed.

Lemma read_full_short n r : (length r < n)%nat -> read_full n r = (None, []).
Proof. intros. unfold read_full. by rewrite decide_False by lia. Qed.

(** An [io.Writer]: one call of [Write] yields the next state of the writer and
    whether it took all the bytes. *)
Class Writer (W : Type) := {
  write : W -> bytes -> W * bool;
}.

(** [bytes.Buffer]: appends and never fails. *)
Global Instance buffer_writer : Writer bytes := {
  write out p := (out ++ p, true);
}.

(** A connection that breaks after [lw_room] more bytes: a call that does not
    fit writes what fits and fails, and so does every later call. *)
Record limited := { lw_out : bytes; lw_room : nat }.

Global Instance limited_writer : Writer limited := {
  write w p :=
    if decide (length p <= lw_room w)%nat
    then ({| lw_out := lw_out w ++ p; lw_room := lw_room w - length p |}, true)
    else ({| lw_out := lw_out w ++ take (lw_room w) p; lw_room := 0 |}, false);
}.

(** ** Hints shared by the components *)

Create HintDb gotor.
#[export] Hint Rewrite @length_app @length_zeros length_be_put @length_slice @length_copy_at
  @length_take @length_drop @length_replicate : lens.
#[export] Hint Resolve len_nonneg i64_range u64_range be_put_bytes : gotor.
#[export] Hint Extern 1 (length _ = _) => autorewrite with lens; simpl; lia : gotor.

(** [lens] normalises list lengths and closes the arithmetic that is left. *)
Ltac lens := unfold len in *; unfold PutUint16, PutUint32, PutUint64 in *;
  autorewrite with lens in *; simpl length in *; try lia.

Global Arguments be_put : simpl never.
Global Arguments be_get : simpl never.
Global Arguments PutUint16 : simpl never.
Global Arguments PutUint32 : simpl never.
Global Arguments PutUint64 : simpl never.
Global Arguments zeros : simpl never.
Global Arguments slice : simpl never.
Global Arguments copy_at : simpl never.
Global Arguments at_ : simpl never.
Global Arguments len : simpl never.
Global Arguments read_full : simpl never.
Global Arguments u8 : simpl never.
Global Arguments u16 : simpl never.
Global Arguments u32 : simpl never.
Global Arguments u64 : simpl never.
Global Arguments i64 : simpl never.

Lemma read_full_some n r p r' :
  read_full n r = (Some p, r') -> r = p ++ r' /\ length p = n.
Proof.
  unfold read_full. case_decide; intros; simplify_eq.
  rewrite take_drop, length_take. split; [done | lia].
Qed.

Lemma be_get_single b : is_byte b -> be_get [b] = b.
Proof. intros. rewrite be_get_cons by (done || constructor). vm_compute (2 ^ _). vm_compute (be_get _). lia. Qed.

Lemma be_put_get_len n l : length l = n -> Forall is_byte l -> be_put n (be_get l) = l.
Proof. intros <-. apply be_put_get. Qed.

Lemma zeros_bytes n : Forall is_byte (zeros n).
Proof. apply Forall_replicate. by split. Qed.

Lemma PutUint16_bytes v : Forall is_byte (PutUint16 v).
Proof. apply be_put_bytes. Qed.
Lemma PutUint32_bytes v : Forall is_byte (PutUint32 v).
Proof. apply be_put_bytes. Qed.
Lemma PutUint64_bytes v : Forall is_byte (PutUint64 v).
Proof. apply be_put_bytes. Qed.

Lemma Forall_byte_app (l k : bytes) :
  Forall is_byte l -> Forall is_byte k -> Forall is_byte (l ++ k).
Proof. intros. by apply Forall_app. Qed.

#[export] Hint Resolve zeros_bytes PutUint16_bytes PutUint32_bytes PutUint64_bytes
  Forall_byte_app Forall_take Forall_drop Forall_cons_2 Forall_nil_2 : gotor.

(** [fill] turns a sequence of writes into a fresh zeroed buffer, in increasing
    order of offsets, into the concatenation of what was written. *)
Lemma zeros_app_nil n : zeros n = [] ++ zeros n.
Proof. done. Qed.

Ltac fill :=
  match goal with |- context [copy_at (zeros ?n) _ _] => rewrite (zeros_app_nil n) end;
  repeat first [ rewrite copy_at_zeros by lens | progress rewrite !app_assoc ];
  rewrite ?app_nil_l, <- ?app_assoc.

(** [fields] reads the fields of a byte string given as a concatenation of
    pieces of known lengths. *)
Lemma slice_skip {A} k (p q : list A) i j :
  length p = k -> (k <= i)%nat -> slice (p ++ q) i j = slice q (i - k) (j - k).
Proof.
  intros <- Hi. unfold slice. rewrite drop_app_ge by done. f_equal. lia.
Qed.

Lemma slice_here {A} (p q : list A) j : length p = j -> slice (p ++ q) 0 j = p.
Proof. intros <-. unfold slice. rewrite Nat.sub_0_r, drop_0. apply take_app_length. Qed.

Lemma slice_all {A} (p : list A) j : length p = j -> slice p 0 j = p.
Proof. intros <-. unfold slice. rewrite Nat.sub_0_r, drop_0. by apply take_ge. Qed.

Lemma at_skip k (p q : bytes) i :
  length p = k -> (k <= i)%nat -> at_ (p ++ q) i = at_ q (i - k).
Proof. intros <- ?. unfold at_. by rewrite lookup_app_r. Qed.

Lemma at_here (b : Z) q : at_ ([b] ++ q) 0 = b.
Proof. done. Qed.

Lemma length_PutUint16 v : length (PutUint16 v) = 2%nat.
Proof. apply length_be_put. Qed.
Lemma length_PutUint32 v : length (PutUint32 v) = 4%nat.
Proof. apply length_be_put. Qed.
Lemma length_PutUint64 v : length (PutUint64 v) = 8%nat.
Proof. apply length_be_put. Qed.

Ltac known_length :=
  first [ apply length_PutUint16 | apply length_PutUint32 | apply length_PutUint64
        | apply length_zeros | eassumption | reflexivity ].

Ltac fields :=
  repeat first
    [ rewrite slice_here by known_length | rewrite slice_all by known_length | rewrite at_here
    | erewrite slice_skip; [ cbn [Nat.sub] | known_length | simpl; lia ]
    | erewrite at_skip; [ cbn [Nat.sub] | known_length | simpl; lia ] ].

Lemma get_PutUint16 v : is_u 16 v -> be_get (PutUint16 v) = v.
Proof. intros. by apply (be_get_put_id 2). Qed.
Lemma get_PutUint32 v : is_u 32 v -> be_get (PutUint32 v) = v.
Proof. intros. by apply (be_get_put_id 4). Qed.
Lemma get_PutUint64 v : is_u 64 v -> be_get (PutUint64 v) = v.
Proof. intros. by apply (be_get_put_id 8). Qed.

Lemma zeros_split n m : (n <= m)%nat -> zeros m = zeros n ++ zeros (m - n).
Proof. intros. unfold zeros. rewrite <- replicate_add. f_equal. lia. Qed.

Lemma lookup_copy_at {A} (d s : list A) off i :
  (off + length s <= length d)%nat ->
  copy_at d off s !! i =
    if decide (off <= i < off + length s)%nat then s !! (i - off)%nat else d !! i.
Proof.
  intros Hl. unfold copy_at. rewrite (take_ge s) by lia.
  assert (length (take off d) = off) as Ht by (rewrite length_take; lia).
  destruct (decide (i < off)%nat).
  - rewrite lookup_app_l, lookup_take_lt, decide_False by lia. done.
  - rewrite lookup_app_r by lia. rewrite Ht. case_decide.
    + by rewrite lookup_app_l by lia.
    + rewrite lookup_app_r by lia. rewrite lookup_drop. f_equal. lia.
Qed.

(** Writes to disjoint ranges commute. *)
Lemma copy_at_comm {A} (d s1 s2 : list A) o1 o2 :
  (o1 + length s1 <= o2)%nat -> (o2 + length s2 <= length d)%nat ->
  copy_at (copy_at d o2 s2) o1 s1 = copy_at (copy_at d o1 s1) o2 s2.
Proof.
  intros H1 H2. apply list_eq. intros i.
  rewrite !lookup_copy_at by (rewrite ?length_copy_at; lia).
  repeat case_decide; done || lia.
Qed.

(** ** Channels

    [select] takes one of the ready cases; which one is up to the scheduler,
    here the argument [pick].  No ready case: the statement blocks. *)
Definition select {A} (pick : nat) (ready : list A) : option A :=
  match ready with
  | [] => None
  | _ => ready !! (pick mod length ready)%nat
  end.

Lemma select_some {A} pick (ready : list A) :
  ready <> [] -> exists x, select pick ready = Some x /\ x ∈ ready.
Proof.
  intros Hne. assert (pick mod length ready < length ready)%nat as Hlt.
  { apply Nat.mod_upper_bound. destruct ready; [done | simpl; lia]. }
  apply lookup_lt_is_Some in Hlt as [x Hx]. exists x.
  split; [by destruct ready | by eapply list_elem_of_lookup_2].
Qed.

Lemma select_elem {A} pick (ready : list A) x : select pick ready = Some x -> x ∈ ready.
Proof. unfold select. destruct ready; [done|]. apply list_elem_of_lookup_2. Qed.

Lemma select_single {A} pick (x : A) : select pick [x] = Some x.
Proof. unfold select. simpl length. by rewrite Nat.mod_1_r. Qed.

Lemma select_nil {A} pick : select pick ([] : list A) = None.
Proof. done. Qed.
