(* ===== verification/Conversion.v ===== *)
(** * Checked and saturating integer conversions (pkg/security/conversion.go)

    Every [Safe*] function returns the value unchanged or an error; every
    saturating one clamps to the target range.  A [time.Time] enters as the
    [int64] its [Unix()] method gives.  The constant-time comparison is modelled
    with the accumulator the Go standard library uses, and shown to decide
    equality. *)

From S2P Require Import Prelude.

Module Conversion.

Inductive error :=
| ErrNegative (v : Z)
| ErrTooLarge (v : Z).

Definition SafeUnixToUint64 (unix : Z) : result error Z :=
  if unix <? 0 then Err (ErrNegative unix)
  else if unix <? 0 then Err (ErrTooLarge unix)
  else Ok (u64 unix).

Definition SafeUnixToUint32 (unix : Z) : result error Z :=
  if unix <? 0 then Err (ErrNegative unix)
  else if MaxUint32 <? unix then Err (ErrTooLarge unix)
  else Ok (u32 unix).

Definition SafeIntToUint64 (val : Z) : result error Z :=
  if val <? 0 then Err (ErrNegative val) else Ok (u64 val).

Definition SafeIntToUint16 (val : Z) : result error Z :=
  if val <? 0 then Err (ErrNegative val)
  else if MaxUint16 <? val then Err (ErrTooLarge val)
  else Ok (u16 val).

Definition SafeInt64ToUint64 (val : Z) : result error Z :=
  if val <? 0 then Err (ErrNegative val) else Ok (u64 val).

Definition SafeUint64ToInt64 (val : Z) : result error Z :=
  if MaxInt64 <? val then Err (ErrTooLarge val) else Ok (i64 val).

Definition SafeIntToUint32 (val : Z) : result error Z :=
  if val <? 0 then Err (ErrNegative val)
  else if MaxUint32 <? val then Err (ErrTooLarge val)
  else Ok (u32 val).

Definition SafeLenToUint16 (data : bytes) : result error Z :=
  SafeIntToUint16 (len data).

Definition ByteLen (n : Z) : Z :=
  if n <=? 0 then 0 else if 255 <? n then 255 else u8 n.

Definition Uint16HighByte (v : Z) : Z := u8 (Z.shiftr v 8).

Definition Uint16LowByte (v : Z) : Z := u8 v.

Definition PortUint16 (port : Z) : Z :=
  if port <? 0 then 0 else if MaxUint16 <? port then MaxUint16 else u16 port.

Definition IntToUint16Sat (v : Z) : Z := PortUint16 v.

Definition Uint32ToUint16 (v : Z) : Z :=
  if MaxUint16 <? v then MaxUint16 else u16 v.

Definition IntToUint32Sat (v : Z) : Z :=
  if v <? 0 then 0 else if MaxUint32 <? v then MaxUint32 else u32 v.

Definition Uint64ToInt64Sat (v : Z) : Z :=
  if MaxInt64 <? v then MaxInt64 else i64 v.

Definition Int64ToUint64Sat (v : Z) : Z :=
  if v <? 0 then 0 else u64 v.

Definition DurationToUint64 (d : Z) : Z := Int64ToUint64Sat d.

Definition Uint64Duration (ns : Z) : Z := Uint64ToInt64Sat ns.

(** Go's integer division truncates towards zero. *)
Definition UnixHoursUint32 (unix : Z) : Z :=
  let h := Z.quot unix 3600 in
  if h <? 0 then 0 else if MaxUint32 <? h then MaxUint32 else u32 h.

(** [subtle.ConstantTimeCompare]: unequal lengths give 0; otherwise the
    differences of all positions are or-ed together. *)
Fixpoint ct_diff (v : Z) (a b : bytes) : Z :=
  match a, b with
  | x :: a, y :: b => ct_diff (Z.lor v (Z.lxor x y)) a b
  | _, _ => v
  end.

Definition ConstantTimeCompare (a b : bytes) : bool :=
  if negb (Nat.eqb (length a) (length b)) then false else ct_diff 0 a b =? 0.

Definition SecureZeroMemory (data : bytes) : bytes := map (fun _ => 0) data.

(** ** Lemmas *)

Lemma SafeLenToUint16_small data :
  len data <= MaxUint16 -> SafeLenToUint16 data = Ok (len data).
Proof.
  intros H. unfold SafeLenToUint16, SafeIntToUint16. pose proof (len_nonneg data).
  cases; try (word; lia). rewrite u16_id; [done | word].
Qed.

Lemma SafeLenToUint16_large data :
  MaxUint16 < len data -> SafeLenToUint16 data = Err (ErrTooLarge (len data)).
Proof.
  intros H. unfold SafeLenToUint16, SafeIntToUint16. pose proof (len_nonneg data).
  cases; word.
Qed.

Lemma Uint32ToUint16_id v : 0 <= v <= MaxUint16 -> Uint32ToUint16 v = v.
Proof. intros. unfold Uint32ToUint16. cases; word. Qed.

Lemma ct_diff_zero v a b :
  length a = length b -> (ct_diff v a b = 0 <-> v = 0 /\ a = b).
Proof.
  revert v b. induction a as [|x a IH]; intros v [|y b]; try done; simpl.
  - naive_solver.
  - intros [= Hl]. rewrite (IH _ _ Hl), Z.lor_eq_0_iff, Z.lxor_eq_0_iff. naive_solver.
Qed.

Lemma ConstantTimeCompare_spec a b : ConstantTimeCompare a b = true <-> a = b.
Proof.
  unfold ConstantTimeCompare. destruct (Nat.eqb_spec (length a) (length b)) as [Hl|Hl]; simpl.
  - rewrite Z.eqb_eq, ct_diff_zero by done. naive_solver.
  - split; [done | intros ->; done].
Qed.

Lemma ConstantTimeCompare_refl a : ConstantTimeCompare a a = true.
Proof. by apply ConstantTimeCompare_spec. Qed.

(** Reference meaning of a checked conversion into [lo..hi]. *)
Definition checked (lo hi v : Z) (r : result error Z) : Prop :=
  (lo <= v <= hi /\ r = Ok v) \/
  (v < lo /\ r = Err (ErrNegative v)) \/
  (hi < v /\ r = Err (ErrTooLarge v)).

(** Reference meaning of a saturating conversion into [lo..hi]. *)
Definition clamp (lo hi v : Z) : Z := Z.max lo (Z.min hi v).

(** On every 64-bit argument each checked conversion (Unix time, int,
    int64, uint64 and slice length, to 16, 32 and 64 bits) returns exactly the
    given value when it fits the target type, and otherwise the error of the
    side it falls off; no conversion ever truncates. *)
Theorem safe_conversions_exact (v : Z) (data : bytes) :
  is_i64 v -> len data <= MaxInt64 ->
  checked 0 MaxInt64 v (SafeUnixToUint64 v) /\
  checked 0 MaxUint32 v (SafeUnixToUint32 v) /\
  checked 0 MaxInt64 v (SafeIntToUint64 v) /\
  checked 0 MaxUint16 v (SafeIntToUint16 v) /\
  checked 0 MaxInt64 v (SafeInt64ToUint64 v) /\
  checked 0 MaxUint32 v (SafeIntToUint32 v) /\
  checked (- 2 ^ 63) MaxInt64 v (SafeUint64ToInt64 v) /\
  (forall w, is_u 64 w -> checked 0 MaxInt64 w (SafeUint64ToInt64 w)) /\
  checked 0 MaxUint16 (len data) (SafeLenToUint16 data).
Proof.
  intros Hv Hd. pose proof (len_nonneg data).
  unfold checked, SafeUnixToUint64, SafeUnixToUint32, SafeIntToUint64, SafeIntToUint16,
    SafeInt64ToUint64, SafeIntToUint32, SafeUint64ToInt64, SafeLenToUint16, SafeIntToUint16.
  repeat split; intros; unfold_words; cases; try lia;
    try (right; left; split; [lia | done]); try (right; right; split; [lia | done]);
    left; (split; [lia | f_equal; Z.div_mod_to_equations; lia]).
Qed.

Lemma safe_conversions_exact_witness :
  checked 0 MaxUint16 70000 (SafeIntToUint16 70000) /\ checked 0 MaxUint16 3 (SafeLenToUint16 [1; 2; 3]).
Proof.
  split.
  - apply (safe_conversions_exact 70000 []); vm_compute; by split || done.
  - apply (safe_conversions_exact 0 [1; 2; 3]); vm_compute; by split || done.
Defined.

(** Each saturating conversion is the clamp of its argument to the target
    range, for every value of the argument type; in particular a port, a
    length byte, a duration or an hour count never wraps. *)
Theorem saturating_conversions_clamp (v w : Z) :
  is_i64 v -> is_u 64 w ->
  ByteLen v = clamp 0 255 v /\
  PortUint16 v = clamp 0 MaxUint16 v /\
  IntToUint16Sat v = clamp 0 MaxUint16 v /\
  IntToUint32Sat v = clamp 0 MaxUint32 v /\
  Int64ToUint64Sat v = clamp 0 MaxInt64 v /\
  DurationToUint64 v = clamp 0 MaxInt64 v /\
  UnixHoursUint32 v = clamp 0 MaxUint32 (Z.quot v 3600) /\
  Uint64ToInt64Sat w = clamp 0 MaxInt64 w /\
  Uint64Duration w = clamp 0 MaxInt64 w /\
  (w < 2 ^ 32 -> Uint32ToUint16 w = clamp 0 MaxUint16 w).
Proof.
  intros Hv Hw.
  unfold IntToUint16Sat, DurationToUint64, Uint64Duration, ByteLen, PortUint16, IntToUint32Sat,
    Int64ToUint64Sat, UnixHoursUint32, Uint64ToInt64Sat, Uint32ToUint16, clamp.
  repeat split; intros; unfold_words; cases; Z.div_mod_to_equations; lia.
Qed.

Lemma saturating_conversions_clamp_witness : PortUint16 70000 = 65535 /\ ByteLen (-3) = 0.
Proof.
  split.
  - apply (saturating_conversions_clamp 70000 0); vm_compute; by split || done.
  - apply (saturating_conversions_clamp (-3) 0); vm_compute; by split || done.
Defined.

(** The constant-time comparison, which or-s the differences of all
    positions instead of stopping at the first, decides equality of the two
    slices; zeroing a slice keeps its length and leaves only zeros; the two
    halves of a 16-bit value put back together give the value. *)
Theorem constant_time_compare_equality (a b : bytes) (v : Z) :
  (ConstantTimeCompare a b = true <-> a = b) /\
  SecureZeroMemory a = zeros (length a) /\
  256 * Uint16HighByte (u16 v) + Uint16LowByte (u16 v) = u16 v.
Proof.
  split; [apply ConstantTimeCompare_spec|]. split.
  - unfold SecureZeroMemory, zeros. induction a; simpl; by f_equal.
  - unfold Uint16HighByte, Uint16LowByte. rewrite Z.shiftr_div_pow2 by lia. word.
Qed.

End Conversion.
