(* ===== verification/GoStrings.v ===== *)
(** * Strings (the parts of Go's strings, strconv, hex and net packages in use)

    A string is its bytes.  The functions are those of the Go standard library
    the program calls; white space is that of [unicode.IsSpace], found by
    its UTF-8 encoding, which can only occur at a character boundary. *)

From Stdlib Require Import String Ascii.
From S2P Require Import Prelude.

Module GoStrings.

(** The bytes of a literal. *)
Definition lit (s : string) : bytes := map (fun c => Z.of_nat (nat_of_ascii c)) (list_ascii_of_string s).

Definition LF : Z := 10.
Definition CR : Z := 13.

Definition string_eqb (a b : bytes) : bool := bool_decide (a = b).

Definition HasPrefix (s p : bytes) : bool := string_eqb (take (length p) s) p.

Definition HasSuffix (s p : bytes) : bool :=
  (length p <=? length s)%nat && string_eqb (drop (length s - length p) s) p.

Definition TrimPrefix (s p : bytes) : bytes := if HasPrefix s p then drop (length p) s else s.

(** The first position of [sub] at or after the start of [s], which is at [i]. *)
Fixpoint index_from (i : nat) (s sub : bytes) : option nat :=
  if HasPrefix s sub then Some i
  else match s with
       | [] => None
       | _ :: s => index_from (S i) s sub
       end.

(** [None] stands for -1. *)
Definition Index (s sub : bytes) : option nat := index_from 0 s sub.

(** [strings.ReplaceAll(s, "\r\n", "\n")] *)
Fixpoint ReplaceCRLF (s : bytes) : bytes :=
  match s with
  | [] => []
  | c :: s' =>
      match s' with
      | d :: s'' => if (c =? CR) && (d =? LF) then LF :: ReplaceCRLF s'' else c :: ReplaceCRLF s'
      | [] => [c]
      end
  end.

(** [strings.Split(s, sep)] for a one-byte separator. *)
Fixpoint Split (s : bytes) (sep : Z) : list bytes :=
  match s with
  | [] => [[]]
  | c :: s =>
      if c =? sep then [] :: Split s sep
      else match Split s sep with
           | [] => [[c]]
           | l :: ls => (c :: l) :: ls
           end
  end.

Fixpoint Join (ls : list bytes) (sep : Z) : bytes :=
  match ls with
  | [] => []
  | l :: ls => match ls with [] => l | _ => l ++ sep :: Join ls sep end
  end.

(** [strings.Cut(s, sep)] for a one-byte separator. *)
Fixpoint Cut (s : bytes) (sep : Z) : bytes * bytes * bool :=
  match s with
  | [] => ([], [], false)
  | c :: s => if c =? sep then ([], s, true) else let '(l, r, b) := Cut s sep in (c :: l, r, b)
  end.

(** The width of the white space character [s] starts with; 0 if none. *)
Definition space_width (s : bytes) : nat :=
  let c := at_ s 0 in
  let d := at_ s 1 in
  let e := at_ s 2 in
  if bool_decide (s = []) then 0%nat
  else if (c =? 32) || (9 <=? c) && (c <=? 13) then 1%nat
  else if (c =? 0xC2) && ((d =? 0x85) || (d =? 0xA0)) then 2%nat
  else if (c =? 0xE1) && (d =? 0x9A) && (e =? 0x80) then 3%nat
  else if (c =? 0xE2) && (d =? 0x80) &&
          ((0x80 <=? e) && (e <=? 0x8A) || (e =? 0xA8) || (e =? 0xA9) || (e =? 0xAF)) then 3%nat
  else if (c =? 0xE2) && (d =? 0x81) && (e =? 0x9F) then 3%nat
  else if (c =? 0xE3) && (d =? 0x80) && (e =? 0x80) then 3%nat
  else 0%nat.

Definition flush (cur : bytes) : list bytes := match cur with [] => [] | _ => [cur] end.

(** [cur] is the field being read, [skip] what is left of a white space character. *)
Fixpoint fields_go (s : bytes) (skip : nat) (cur : bytes) : list bytes :=
  match s with
  | [] => flush cur
  | c :: s' =>
      match skip with
      | S skip => fields_go s' skip cur
      | O =>
          match space_width s with
          | O => fields_go s' 0 (cur ++ [c])
          | S w => flush cur ++ fields_go s' w []
          end
      end
  end.

Definition Fields (s : bytes) : list bytes := fields_go s 0 [].

(** [strings.TrimSpace(s) == ""] *)
Definition blank (s : bytes) : bool := bool_decide (Fields s = []).

(** [strings.TrimSpace]: white space off the front, then off the back. *)
Fixpoint trim_front (s : bytes) (skip : nat) : bytes :=
  match s with
  | [] => []
  | _ :: s' =>
      match skip with
      | S skip => trim_front s' skip
      | O => match space_width s with O => s | S w => trim_front s' w end
      end
  end.
Fixpoint trim_back (s : bytes) : bytes :=
  match s with
  | [] => []
  | c :: s' => if blank s then [] else c :: trim_back s'
  end.
Definition TrimSpace (s : bytes) : bytes := trim_back (trim_front s 0).

(** [strings.TrimLeft] and [TrimRight] with a set of ASCII bytes. *)
Fixpoint TrimLeft (s : bytes) (cut : bytes) : bytes :=
  match s with
  | [] => []
  | c :: s' => if existsb (Z.eqb c) cut then TrimLeft s' cut else s
  end.
Definition TrimRight (s : bytes) (cut : bytes) : bytes := rev (TrimLeft (rev s) cut).

(** ASCII case folding. *)
Definition to_lower (c : Z) : Z := if (65 <=? c) && (c <=? 90) then c + 32 else c.
Definition to_upper (c : Z) : Z := if (97 <=? c) && (c <=? 122) then c - 32 else c.
Definition ToLower (s : bytes) : bytes := map to_lower s.
Definition ToUpper (s : bytes) : bytes := map to_upper s.
Definition EqualFold (a b : bytes) : bool := string_eqb (ToLower a) (ToLower b).

(** [strings.Compare], and [bytes.Compare]. *)
Fixpoint Compare (a b : bytes) : Z :=
  match a, b with
  | [], [] => 0
  | [], _ => -1
  | _, [] => 1
  | x :: a, y :: b => if x <? y then -1 else if y <? x then 1 else Compare a b
  end.

(** ** Numbers *)

Definition is_digit (c : Z) : bool := (48 <=? c) && (c <=? 57).

Definition digits_value (s : bytes) : Z := fold_left (fun v c => v * 10 + (c - 48)) s 0.

(** [strconv.Atoi] on a string of digits: [None] past the range of an int. *)
Definition AtoiDigits (s : bytes) : option Z :=
  let v := digits_value s in if v <=? MaxInt64 then Some v else None.

(** [%d] of a number with at most [fuel] digits. *)
Fixpoint print_digits (fuel : nat) (v : Z) : bytes :=
  match fuel with
  | O => []
  | S fuel => if v <? 10 then [48 + v] else print_digits fuel (v / 10) ++ [48 + v mod 10]
  end.

(** A non-negative 64-bit number has at most 19 digits. *)
Definition print_int (v : Z) : bytes := print_digits 19 v.

Definition hex_digit (v : Z) : Z := if v <? 10 then 48 + v else 87 + v.
Definition is_hex (c : Z) : bool := is_digit c || (97 <=? c) && (c <=? 102) || (65 <=? c) && (c <=? 70).
(** [hex.EncodeToString] *)
Definition hex_encode (b : bytes) : bytes := flat_map (fun v => [hex_digit (v / 16); hex_digit (v mod 16)]) b.
(** [hex.DecodeString] succeeds. *)
Definition hex_decodes (s : bytes) : bool := Nat.even (length s) && forallb is_hex s.

(** ** Addresses and signed numbers *)

Definition Contains (s sub : bytes) : bool := match Index s sub with Some _ => true | None => false end.

(** [strings.IndexByte] and [LastIndexByte]. *)
Fixpoint IndexByte (s : bytes) (c : Z) : option nat :=
  match s with
  | [] => None
  | x :: s => if x =? c then Some O else S <$> IndexByte s c
  end.
Definition LastIndexByte (s : bytes) (c : Z) : option nat :=
  match IndexByte (rev s) c with Some i => Some (length s - 1 - i)%nat | None => None end.

Definition Trim (s cut : bytes) : bytes := TrimRight (TrimLeft s cut) cut.

(** [strconv.Atoi]: an optional sign and at least one digit, within an int. *)
Definition Atoi (s : bytes) : option Z :=
  let '(neg, ds) := match s with
                    | c :: r => if c =? 45 then (true, r) else if c =? 43 then (false, r) else (false, s)
                    | [] => (false, s)
                    end in
  if negb (string_eqb ds []) && forallb is_digit ds then
    let v := if neg then - digits_value ds else digits_value ds in
    if (- 2 ^ 63 <=? v) && (v <=? MaxInt64) then Some v else None
  else None.

(** [net.SplitHostPort]: [None] for its errors. *)
Definition SplitHostPort (s : bytes) : option (bytes * bytes) :=
  match LastIndexByte s 58 with
  | None => None
  | Some i =>
      if at_ s 0 =? 91 then
        match IndexByte s 93 with
        | None => None
        | Some e =>
            if negb (S e =? i)%nat then None
            else if IndexByte (drop 1 s) 91 then None
            else if IndexByte (drop (S e) s) 93 then None
            else Some (slice s 1 e, drop (S i) s)
        end
      else
        let host := take i s in
        if IndexByte host 58 then None
        else if IndexByte s 91 then None
        else if IndexByte s 93 then None
        else Some (host, drop (S i) s)
  end.

(** [net.JoinHostPort] *)
Definition JoinHostPort (host port : bytes) : bytes :=
  if IndexByte host 58 then [91] ++ host ++ [93; 58] ++ port
  else host ++ [58] ++ port.

(** ** Lemmas *)

Lemma string_eqb_spec a b : string_eqb a b = true <-> a = b.
Proof. apply bool_decide_eq_true. Qed.

Lemma string_eqb_refl a : string_eqb a a = true.
Proof. by apply string_eqb_spec. Qed.

Lemma string_eqb_false a b : a <> b -> string_eqb a b = false.
Proof. apply bool_decide_eq_false. Qed.

Lemma HasPrefix_app p s : HasPrefix (p ++ s) p = true.
Proof. unfold HasPrefix. rewrite take_app_length. apply string_eqb_refl. Qed.

Lemma HasPrefix_spec s p : HasPrefix s p = true <-> exists r, s = p ++ r.
Proof.
  unfold HasPrefix. rewrite string_eqb_spec. split.
  - intros Hp. exists (drop (length p) s). rewrite <- Hp at 1. by rewrite take_drop.
  - intros [r ->]. apply take_app_length.
Qed.

Lemma HasSuffix_app s p : HasSuffix (s ++ p) p = true.
Proof.
  unfold HasSuffix. rewrite length_app. replace (length s + length p - length p)%nat with (length s) by lia.
  rewrite drop_app_length, string_eqb_refl, (proj2 (Nat.leb_le _ _)) by lia. done.
Qed.

Lemma Split_nonempty s sep : Split s sep <> [].
Proof. destruct s as [|c s]; simpl; [done|]. case_if; [done|]. by destruct (Split s sep). Qed.

Lemma Split_plain l sep : sep ∉ l -> Split l sep = [l].
Proof.
  induction l as [|c l IH]; [done|]. intros Hn. simpl. rewrite not_elem_of_cons in Hn.
  rewrite (proj2 (Z.eqb_neq _ _)) by naive_solver. by rewrite IH by naive_solver.
Qed.

Lemma Split_cons l s sep : sep ∉ l -> Split (l ++ sep :: s) sep = l :: Split s sep.
Proof.
  induction l as [|c l IH]; intros Hn; simpl.
  - by rewrite Z.eqb_refl.
  - rewrite not_elem_of_cons in Hn. rewrite (proj2 (Z.eqb_neq _ _)) by naive_solver. by rewrite IH by naive_solver.
Qed.

Lemma Split_Join ls sep : ls <> [] -> Forall (fun l => sep ∉ l) ls -> Split (Join ls sep) sep = ls.
Proof.
  induction ls as [|l ls IH]; [done|]. intros _ Hf. apply Forall_cons in Hf as [Hl Hf].
  destruct ls as [|l' ls]; [by apply Split_plain|].
  change (Join (l :: l' :: ls) sep) with (l ++ sep :: Join (l' :: ls) sep). by rewrite Split_cons, IH.
Qed.

Lemma Join_Split s sep : Join (Split s sep) sep = s.
Proof.
  induction s as [|c s IH]; [done|]. simpl. pose proof (Split_nonempty s sep). destruct (Z.eqb_spec c sep) as [->|Hc].
  - destruct (Split s sep) eqn:E; [done|]. simpl in *. by rewrite IH.
  - destruct (Split s sep) as [|l ls] eqn:E; [done|]. simpl in *. destruct ls; simpl in *; by rewrite <- IH.
Qed.

Lemma Split_no_sep s sep : Forall (fun l => sep ∉ l) (Split s sep).
Proof.
  induction s as [|c s IH]; simpl; [repeat constructor; apply not_elem_of_nil|].
  destruct (Z.eqb_spec c sep) as [->|Hc]; [constructor; [apply not_elem_of_nil|done]|].
  destruct (Split s sep) as [|l ls]; [repeat constructor|]; [set_solver|].
  apply Forall_cons in IH as [Hl Hls]. constructor; [set_solver|done].
Qed.

(** The text made of lines. *)
Definition unlines (ls : list bytes) : bytes := flat_map (fun l => l ++ [LF]) ls.

Lemma unlines_app a b : unlines (a ++ b) = unlines a ++ unlines b.
Proof. apply flat_map_app. Qed.

Lemma Join_unlines ls : ls <> [] -> Join ls LF ++ [LF] = unlines ls.
Proof.
  induction ls as [|l ls IH]; [done|]. intros _. destruct ls as [|l' ls]; [simpl; by rewrite app_nil_r|].
  change (Join (l :: l' :: ls) LF) with (l ++ LF :: Join (l' :: ls) LF).
  change (unlines (l :: l' :: ls)) with ((l ++ [LF]) ++ unlines (l' :: ls)).
  rewrite <- IH, <- !app_assoc by done. done.
Qed.

(** A line that stands for itself: no line feed, and no carriage return where one
    would meet the next line feed. *)
Definition plain_line (l : bytes) : Prop := LF ∉ l /\ last l <> Some CR.

Lemma ReplaceCRLF_line l s :
  plain_line l -> ReplaceCRLF (l ++ LF :: s) = l ++ LF :: ReplaceCRLF s.
Proof.
  intros [Hn Hl]. induction l as [|c l IH].
  - by destruct s.
  - rewrite not_elem_of_cons in Hn. destruct Hn as [Hc Hn].
    destruct l as [|d l].
    + simpl. simpl in Hl. rewrite (proj2 (Z.eqb_neq c CR)) by congruence. cbn [andb].
      f_equal. specialize (IH Hn). simpl in IH. apply IH. done.
    + change ((c :: d :: l) ++ LF :: s) with (c :: (d :: l) ++ LF :: s).
      rewrite not_elem_of_cons in Hn. destruct Hn as [Hd Hn].
      cbn [ReplaceCRLF app]. rewrite (proj2 (Z.eqb_neq d LF)), andb_false_r by congruence.
      f_equal. apply IH; [set_solver|done].
Qed.

Lemma ReplaceCRLF_unlines ls : Forall plain_line ls -> ReplaceCRLF (unlines ls) = unlines ls.
Proof.
  induction 1 as [|l ls Hl Hls IH]; [done|].
  change (unlines (l :: ls)) with ((l ++ [LF]) ++ unlines ls). rewrite <- app_assoc. simpl.
  by rewrite ReplaceCRLF_line, IH.
Qed.

Lemma digits_value_snoc s c : digits_value (s ++ [c]) = digits_value s * 10 + (c - 48).
Proof. unfold digits_value. by rewrite fold_left_app. Qed.

Lemma print_digits_spec fuel v :
  0 <= v < 10 ^ Z.of_nat fuel ->
  digits_value (print_digits fuel v) = v /\ Forall (fun c => is_digit c = true) (print_digits fuel v) /\
  (length (print_digits fuel v) <= fuel)%nat.
Proof.
  revert v. induction fuel as [|fuel IH]; intros v Hv.
  - change (10 ^ Z.of_nat 0) with 1 in Hv. simpl. split_and!; [unfold digits_value; simpl; lia | done | lia].
  - cbn [print_digits]. case_if; bool_to_prop.
    + split_and!; [unfold digits_value; simpl; lia | | simpl; lia]. constructor; [|done]. unfold is_digit.
      rewrite !(proj2 (Z.leb_le _ _)) by lia. done.
    + rewrite Nat2Z.inj_succ, Z.pow_succ_r in Hv by lia.
      destruct (IH (v / 10)) as (H1 & H2 & H3); [Z.div_mod_to_equations; lia|].
      split_and!.
      * rewrite digits_value_snoc, H1. Z.div_mod_to_equations; lia.
      * apply Forall_app. split; [done|]. constructor; [|done]. unfold is_digit.
        rewrite !(proj2 (Z.leb_le _ _)) by (Z.div_mod_to_equations; lia). done.
      * rewrite length_app. simpl. lia.
Qed.

Lemma print_digits_nonempty fuel v : (0 < fuel)%nat -> print_digits fuel v <> [].
Proof. destruct fuel; [lia|]. intros _. simpl. case_if; [done|]. by destruct (print_digits fuel (v / 10)). Qed.

Lemma print_int_spec v :
  0 <= v <= MaxInt64 ->
  AtoiDigits (print_int v) = Some v /\ forallb is_digit (print_int v) = true /\
  print_int v <> [] /\ (length (print_int v) <= 19)%nat.
Proof.
  intros Hv. destruct (print_digits_spec 19 v) as (H1 & H2 & H3); [unfold MaxInt64 in Hv; lia|].
  unfold AtoiDigits, print_int. rewrite H1, (proj2 (Z.leb_le _ _)) by lia. split_and!; [done | | | done].
  - apply forallb_forall. intros c Hc. apply list_elem_of_In in Hc. by apply (proj1 (Forall_forall _ _) H2).
  - apply print_digits_nonempty. lia.
Qed.

Lemma Cut_none s sep : sep ∉ s -> Cut s sep = (s, [], false).
Proof.
  induction s as [|c s IH]; [done|]. intros Hn. simpl. rewrite not_elem_of_cons in Hn.
  rewrite (proj2 (Z.eqb_neq _ _)) by naive_solver. by rewrite IH by naive_solver.
Qed.

Lemma Cut_some a b sep : sep ∉ a -> Cut (a ++ sep :: b) sep = (a, b, true).
Proof.
  induction a as [|c a IH]; intros Hn; simpl; [by rewrite Z.eqb_refl|]. rewrite not_elem_of_cons in Hn.
  rewrite (proj2 (Z.eqb_neq _ _)) by naive_solver. by rewrite IH by naive_solver.
Qed.

(** A field of plain ASCII, read to its end. *)
Definition ascii_word (l : bytes) : Prop := Forall (fun c => 32 < c < 128) l.

Lemma space_width_ascii c s : 32 < c < 128 -> space_width (c :: s) = 0%nat.
Proof.
  intros Hc. unfold space_width. change (at_ (c :: s) 0) with c. rewrite bool_decide_false by done.
  rewrite !(proj2 (Z.eqb_neq c _)), (proj2 (Z.leb_gt c 13)) by lia. by rewrite andb_false_r.
Qed.

Lemma fields_word l s cur :
  ascii_word l -> fields_go (l ++ s) 0 cur = fields_go s 0 (cur ++ l).
Proof.
  intros Hl. revert cur. induction Hl as [|c l Hc Hl IH]; intros cur; [by rewrite app_nil_r|].
  cbn [app fields_go]. rewrite space_width_ascii by done. by rewrite IH, <- app_assoc.
Qed.

Lemma Fields_cons l s : l <> [] -> ascii_word l -> fields_go (l ++ 32 :: s) 0 [] = l :: fields_go s 0 [].
Proof. intros Hn Hl. rewrite fields_word by done. cbn [app fields_go].
  change (space_width (32 :: s)) with 1%nat. by destruct l. Qed.

Lemma Fields_last l : l <> [] -> ascii_word l -> fields_go l 0 [] = [l].
Proof. intros Hn Hl. rewrite <- (app_nil_r l) at 1. rewrite fields_word by done. by destruct l. Qed.

Lemma ToLower_hex b : Forall is_byte b -> ToLower (hex_encode b) = hex_encode b.
Proof.
  induction 1 as [|x b Hx Hb IH]; [done|]. unfold ToLower in *. simpl. rewrite IH. unfold is_byte in Hx.
  assert (forall v, 0 <= v < 16 -> to_lower (hex_digit v) = hex_digit v) as Hd.
  { intros v Hv. unfold to_lower, hex_digit. case_if; bool_to_prop; case_if; bool_to_prop; try lia; done. }
  rewrite !Hd by (Z.div_mod_to_equations; lia). done.
Qed.

Lemma length_hex b : length (hex_encode b) = (2 * length b)%nat.
Proof. induction b as [|x b IH]; [done|]. simpl. rewrite IH. lia. Qed.

Lemma hex_digit_hex v : 0 <= v < 16 -> is_hex (hex_digit v) = true /\ 32 < hex_digit v < 128.
Proof.
  intros Hv. unfold is_hex, is_digit, hex_digit. case_if; bool_to_prop.
  - rewrite !(proj2 (Z.leb_le _ _)) by lia. split; [done|lia].
  - rewrite (proj2 (Z.leb_le 97 _)), (proj2 (Z.leb_le (87 + v) 102)) by lia.
    rewrite orb_true_r. split; [done|lia].
Qed.

Lemma hex_encode_ok b :
  Forall is_byte b -> hex_decodes (hex_encode b) = true /\ ascii_word (hex_encode b).
Proof.
  intros Hb. unfold hex_decodes. rewrite length_hex, Nat.even_mul. cbn [Nat.even orb andb].
  induction Hb as [|x b Hx Hb [IH1 IH2]]; [split; [done | constructor]|]. unfold is_byte in Hx. simpl.
  destruct (hex_digit_hex (x / 16)) as [H1 H2]; [Z.div_mod_to_equations; lia|].
  destruct (hex_digit_hex (x mod 16)) as [H3 H4]; [Z.div_mod_to_equations; lia|].
  rewrite H1, H3. split; [exact IH1|]. unfold ascii_word in *. by do 2 (constructor; [done|]).
Qed.

(** *** Trimming twice *)

Lemma space_width_app t r : (0 < space_width t)%nat -> (space_width (t ++ r) = space_width t /\ space_width t <= length t)%nat.
Proof.
  unfold space_width. destruct t as [|c t]; [cbn; lia|]. rewrite !bool_decide_false by done. cbn [app].
  change (at_ (c :: t ++ r) 0) with c. change (at_ (c :: t) 0) with c.
  destruct (_ || _ && _); [intros _; cbn; split; [done|lia]|].
  destruct t as [|d t].
  - cbn. rewrite !andb_false_r. cbn [andb orb]. lia.
  - cbn [app]. change (at_ (c :: d :: t ++ r) 1) with d. change (at_ (c :: d :: t) 1) with d.
    destruct (_ && (_ || _)); [cbn; split; [done|lia]|]. destruct t as [|e t].
    + cbn. rewrite !andb_false_r. cbn [andb orb]. lia.
    + cbn [app]. change (at_ (c :: d :: e :: t ++ r) 2) with e. change (at_ (c :: d :: e :: t) 2) with e. cbn [length]. 
      intros H. split; [done|]. repeat (destruct (_ && _); [lia|]). lia.
Qed.

(** A text that is all white space, cut into its characters. *)
Lemma blank_app_aux u r : (forall n, length u <= n -> fields_go u 0 [] = [] -> fields_go (u ++ r) 0 [] = fields_go r 0 [])%nat.
Proof.
  intros n. revert u. induction n as [|n IH]; intros u Hn Hu; (destruct u as [|c u]; [done|]); [cbn in Hn; lia|].
  cbn [app fields_go] in *. pose proof (space_width_app (c :: u) r) as Hw. cbn [app] in Hw.
  destruct (space_width (c :: u)) as [|w] eqn:Ew.
  - exfalso. clear -Hu. assert (forall u k cur, cur <> [] -> fields_go u k cur <> []) as Hne.
    { clear. intros u. induction u as [|c u IH]; intros k cur Hc; [by destruct cur|]. cbn [fields_go]. destruct k; [|by apply IH].
      destruct (space_width (c :: u)); [apply IH; by destruct cur|]. destruct cur; done. }
    by apply Hne in Hu.
  - destruct (Hw ltac:(lia)) as [-> Hle]. cbn [flush app] in *. cbn in Hn, Hle.
    assert (forall v k cur, (k <= length v)%nat -> fields_go v k cur = fields_go (drop k v) 0 cur) as Hskip.
    { clear. intros v. induction v as [|c v IH]; intros k cur Hk; [cbn in Hk; by destruct k|]. destruct k; [done|]. cbn in *. apply IH. lia. }
    rewrite Hskip in Hu by lia. rewrite Hskip by (rewrite length_app; lia). rewrite drop_app_le by lia. apply IH; [rewrite length_drop; lia | done].
Qed.

Lemma blank_app u r : blank u = true -> blank (u ++ r) = blank r.
Proof. unfold blank, Fields. intros Hu%bool_decide_eq_true. by rewrite (blank_app_aux u r (length u) ltac:(done) Hu). Qed.

(** What is cut off at the back is white space, and what is left does not end in any. *)
Lemma trim_back_split s : exists r, s = trim_back s ++ r /\ blank r = true.
Proof.
  induction s as [|c s (r & Hr & Hb)]; [by exists []|]. cbn [trim_back]. destruct (blank (c :: s)) eqn:E; [by exists (c :: s)|].
  exists r. cbn [app]. by rewrite <- Hr.
Qed.

Lemma trim_back_idem s : trim_back (trim_back s) = trim_back s.
Proof.
  induction s as [|c s IH]; [done|]. cbn [trim_back]. destruct (blank (c :: s)) eqn:E; [done|]. cbn [trim_back]. rewrite IH.
  destruct (blank (c :: trim_back s)) eqn:E2; [|done]. destruct (trim_back_split s) as (r & Hr & Hb).
  rewrite Hr in E. change (c :: trim_back s ++ r) with ((c :: trim_back s) ++ r) in E. by rewrite blank_app, Hb in E.
Qed.

Lemma trim_front_none s : space_width s = 0%nat -> trim_front s 0 = s.
Proof. destruct s as [|c s]; [done|]. cbn [trim_front]. by intros ->. Qed.

Lemma trim_front_width s k : space_width (trim_front s k) = 0%nat.
Proof. revert k. induction s as [|c s IH]; intros k; [done|]. cbn [trim_front]. destruct k; [|apply IH]. destruct (space_width (c :: s)) eqn:E; [done|apply IH]. Qed.

Lemma TrimSpace_idem s : TrimSpace (TrimSpace s) = TrimSpace s.
Proof.
  unfold TrimSpace. rewrite (trim_front_none (trim_back (trim_front s 0))); [apply trim_back_idem|].
  destruct (trim_back_split (trim_front s 0)) as (r & Hr & _). pose proof (trim_front_width s 0) as Hw.
  destruct (space_width (trim_back (trim_front s 0))) eqn:E; [done|].
  destruct (space_width_app (trim_back (trim_front s 0)) r) as [H1 _]; [lia|]. rewrite <- Hr in H1. lia.
Qed.

End GoStrings.
