(* ===== verification/GoNet.v ===== *)
(** * IP addresses (the parts of Go's net and net/netip packages in use)

    An address is its bytes: four, sixteen, or anything else for an invalid one;
    [None] is a nil slice.  [ParseIP] is the parser of net/netip, without zones. *)

From Stdlib Require Import String.
From S2P Require Import Prelude GoStrings.
Import GoStrings.

Module GoNet.

(** ** Forms of an address *)

Definition v4InV6Prefix : bytes := zeros 10 ++ [255; 255].

Definition To4 (ip : bytes) : option bytes :=
  if (length ip =? 4)%nat then Some ip
  else if (length ip =? 16)%nat && string_eqb (take 12 ip) v4InV6Prefix then Some (drop 12 ip)
  else None.

Definition To16 (ip : bytes) : option bytes :=
  if (length ip =? 4)%nat then Some (v4InV6Prefix ++ ip)
  else if (length ip =? 16)%nat then Some ip
  else None.

(** [IP.Equal]: an IPv4 address equals its IPv6 form. *)
Definition Equal (ip x : bytes) : bool :=
  if (length ip =? length x)%nat then string_eqb ip x
  else if (length ip =? 4)%nat && (length x =? 16)%nat then string_eqb (take 12 x) v4InV6Prefix && string_eqb ip (drop 12 x)
  else if (length ip =? 16)%nat && (length x =? 4)%nat then string_eqb (take 12 ip) v4InV6Prefix && string_eqb (drop 12 ip) x
  else false.

Definition IPv6unspecified : bytes := zeros 16.
Definition IPv6loopback : bytes := zeros 15 ++ [1].

(** ** Kinds of address *)

Definition IsUnspecified (ip : bytes) : bool := Equal ip (v4InV6Prefix ++ zeros 4) || Equal ip IPv6unspecified.

Definition IsLoopback (ip : bytes) : bool :=
  match To4 ip with Some v4 => at_ v4 0 =? 127 | None => Equal ip IPv6loopback end.

Definition IsPrivate (ip : bytes) : bool :=
  match To4 ip with
  | Some v4 =>
      (at_ v4 0 =? 10) || ((at_ v4 0 =? 172) && (Z.land (at_ v4 1) 0xf0 =? 16)) || ((at_ v4 0 =? 192) && (at_ v4 1 =? 168))
  | None => (length ip =? 16)%nat && (Z.land (at_ ip 0) 0xfe =? 0xfc)
  end.

Definition IsMulticast (ip : bytes) : bool :=
  match To4 ip with
  | Some v4 => Z.land (at_ v4 0) 0xf0 =? 0xe0
  | None => (length ip =? 16)%nat && (at_ ip 0 =? 0xff)
  end.

Definition IsLinkLocalMulticast (ip : bytes) : bool :=
  match To4 ip with
  | Some v4 => (at_ v4 0 =? 224) && (at_ v4 1 =? 0) && (at_ v4 2 =? 0)
  | None => (length ip =? 16)%nat && (at_ ip 0 =? 0xff) && (Z.land (at_ ip 1) 0x0f =? 0x02)
  end.

Definition IsLinkLocalUnicast (ip : bytes) : bool :=
  match To4 ip with
  | Some v4 => (at_ v4 0 =? 169) && (at_ v4 1 =? 254)
  | None => (length ip =? 16)%nat && (at_ ip 0 =? 0xfe) && (Z.land (at_ ip 1) 0xc0 =? 0x80)
  end.

(** ** Networks *)

Fixpoint mask_bytes (n : nat) (ones : Z) : bytes :=
  match n with
  | O => []
  | S n => (if 8 <=? ones then 255 else Z.lxor 255 (Z.shiftr 255 ones)) :: mask_bytes n (Z.max 0 (ones - 8))
  end.

(** [CIDRMask] for the two lengths of an address, in bits. *)
Definition CIDRMask (ones bits : Z) : option bytes :=
  if negb ((bits =? 32) || (bits =? 128)) || (ones <? 0) || (bits <? ones) then None
  else Some (mask_bytes (Z.to_nat (bits / 8)) ones).

(** [IP.Mask] *)
Definition Mask (ip mask : bytes) : option bytes :=
  let mask := if (length mask =? 16)%nat && (length ip =? 4)%nat && forallb (Z.eqb 255) (take 12 mask) then drop 12 mask else mask in
  let ip := if (length mask =? 4)%nat && (length ip =? 16)%nat && string_eqb (take 12 ip) v4InV6Prefix then drop 12 ip else ip in
  if negb (length ip =? length mask)%nat then None else Some (zip_with Z.land ip mask).

(** The length of a mask: ones followed by zeros, else [-1]. *)
Fixpoint simpleMaskLength (mask : bytes) : Z :=
  match mask with
  | [] => 0
  | v :: mask =>
      if v =? 255 then let r := simpleMaskLength mask in if r <? 0 then -1 else 8 + r
      else match list_find (fun k => v = Z.lxor 255 (Z.shiftr 255 (Z.of_nat k))) (seq 0 8) with
           | Some (_, k) => if forallb (Z.eqb 0) mask then Z.of_nat k else -1
           | None => -1
           end
  end.

(** [IPMask.Size]: it reports (0, 0) for a mask that is not ones and then zeros. *)
Definition MaskSize (mask : bytes) : Z * Z :=
  let ones := simpleMaskLength mask in if ones =? -1 then (0, 0) else (ones, 8 * len mask).

Record IPNet := mkNet { net_ip : bytes; net_mask : bytes }.

Definition networkNumberAndMask (n : IPNet) : option (bytes * bytes) :=
  let ip := match To4 (net_ip n) with Some v4 => v4 | None => net_ip n end in
  if negb (length ip =? 4)%nat && negb (length ip =? 16)%nat then None
  else if (length (net_mask n) =? 4)%nat then if (length ip =? 4)%nat then Some (ip, net_mask n) else None
  else if (length (net_mask n) =? 16)%nat then Some (ip, if (length ip =? 4)%nat then drop 12 (net_mask n) else net_mask n)
  else None.

(** [IPNet.Contains] *)
Definition ContainsIP (n : IPNet) (ip : bytes) : bool :=
  let ip := match To4 ip with Some v4 => v4 | None => ip end in
  match networkNumberAndMask n with
  | None => (length ip =? 0)%nat
  | Some (nn, m) => (length ip =? length nn)%nat && string_eqb (zip_with Z.land nn m) (zip_with Z.land ip m)
  end.

(** ** Parsing *)

(** [parseIPv4Fields]: [val] and [digLen] of the current octet, those before it. *)
Fixpoint parse_v4 (s : bytes) (val digLen : Z) (octets : bytes) : option bytes :=
  match s with
  | [] => if (length octets =? 3)%nat then Some (octets ++ [val]) else None
  | c :: s =>
      if is_digit c then
        if (digLen =? 1) && (val =? 0) then None
        else
          let val := val * 10 + (c - 48) in
          if 255 <? val then None else parse_v4 s val (digLen + 1) octets
      else if c =? 46 then
        if (digLen =? 0) || (match s with [] => true | _ => false end) then None
        else if (length octets =? 3)%nat then None
        else parse_v4 s 0 0 (octets ++ [val])
      else None
  end.

Definition parseIPv4 (s : bytes) : option bytes := parse_v4 s 0 0 [].

Definition unhex (c : Z) : option Z :=
  if is_digit c then Some (c - 48)
  else if (97 <=? c) && (c <=? 102) then Some (c - 97 + 10)
  else if (65 <=? c) && (c <=? 70) then Some (c - 65 + 10)
  else None.

(** The hexadecimal number at the front: its digits and value; [None]: more than
    four digits. *)
Fixpoint hex_group (s : bytes) (off : nat) (acc : Z) : option (nat * Z) :=
  match s with
  | [] => Some (off, acc)
  | c :: s =>
      match unhex c with
      | None => Some (off, acc)
      | Some d => if (3 <? off)%nat then None else hex_group s (S off) (Z.shiftl acc 4 + d)
      end
  end.

(** The loop of [parseIPv6], at most one round per group: the bytes so far, the
    position of the ellipsis, and what is left of the string. *)
Fixpoint v6_groups (fuel : nat) (s : bytes) (ip : bytes) (ellipsis : option nat) : option (bytes * option nat * bytes) :=
  match fuel with
  | O => Some (ip, ellipsis, s)
  | S fuel =>
      match hex_group s 0 0 with
      | None | Some (O, _) => None
      | Some (off, acc) =>
          if (off <? length s)%nat && (at_ s off =? 46) then
            if (match ellipsis with None => negb (length ip =? 12)%nat | Some _ => false end) || (16 <? length ip + 4)%nat then None
            else match parseIPv4 s with Some v4 => Some (ip ++ v4, ellipsis, []) | None => None end
          else
            let ip := ip ++ [Z.shiftr acc 8; Z.land acc 255] in
            match drop off s with
            | [] => Some (ip, ellipsis, [])
            | c :: s =>
                if negb (c =? 58) then None
                else
                  match s with
                  | [] => None
                  | c :: s' =>
                      if c =? 58 then
                        match ellipsis with
                        | Some _ => None
                        | None => match s' with [] => Some (ip, Some (length ip), []) | _ => v6_groups fuel s' ip (Some (length ip)) end
                        end
                      else v6_groups fuel s ip ellipsis
                  end
            end
      end
  end.

Definition parseIPv6 (s : bytes) : option bytes :=
  if IndexByte s 37 then None
  else
    let '(s, ellipsis) := if HasPrefix s [58; 58] then (drop 2 s, Some O) else (s, None) in
    if match ellipsis, s with Some _, [] => true | _, _ => false end then Some (zeros 16)
    else
      match v6_groups 8 s [] ellipsis with
      | None => None
      | Some (ip, ellipsis, rest) =>
          match rest with
          | _ :: _ => None
          | [] =>
              match ellipsis with
              | None => if (length ip =? 16)%nat then Some ip else None
              | Some e => if (length ip <? 16)%nat then Some (take e ip ++ zeros (16 - length ip) ++ drop e ip) else None
              end
          end
      end.

(** The first of dot, colon and percent decides the family. *)
Fixpoint family (s : bytes) : option Z :=
  match s with
  | [] => None
  | c :: s => if (c =? 46) || (c =? 58) || (c =? 37) then Some c else family s
  end.

(** [net.ParseIP]: sixteen bytes, or [None]. *)
Definition ParseIP (s : bytes) : option bytes :=
  match family s with
  | Some 46 => (fun v4 => v4InV6Prefix ++ v4) <$> parseIPv4 s
  | Some 58 => parseIPv6 s
  | _ => None
  end.

(** ** Printing *)

Definition string4 (v4 : bytes) : bytes := Join (map print_int v4) 46.

Definition appendHex (x : Z) : bytes :=
  (if 0x1000 <=? x then [hex_digit (Z.shiftr x 12)] else []) ++
  (if 0x100 <=? x then [hex_digit (Z.land (Z.shiftr x 8) 15)] else []) ++
  (if 0x10 <=? x then [hex_digit (Z.land (Z.shiftr x 4) 15)] else []) ++ [hex_digit (Z.land x 15)].

(** The eight groups of sixteen bits. *)
Definition group (ip : bytes) (i : nat) : Z := at_ ip (2 * i) * 256 + at_ ip (2 * i + 1).
Definition groups (ip : bytes) : list Z := map (group ip) (seq 0 8).

Fixpoint zero_run (gs : list Z) : nat :=
  match gs with
  | [] => 0
  | g :: gs => if g =? 0 then S (zero_run gs) else 0
  end.

(** The longest run of two zero groups or more, the first of them. *)
Definition longer (gs : list Z) (best : nat * nat) (i : nat) : nat * nat :=
  let l := zero_run (drop i gs) in if (2 <=? l)%nat && (best.2 <? l)%nat then (i, l) else best.
Definition longest_run (gs : list Z) : nat * nat := fold_left (longer gs) (seq 0 8) (0%nat, 0%nat).

Definition string6 (ip : bytes) : bytes :=
  let gs := groups ip in
  let hex gs := Join (map appendHex gs) 58 in
  let '(start, n) := longest_run gs in
  if (n =? 0)%nat then hex gs else hex (take start gs) ++ [58; 58] ++ hex (drop (start + n) gs).

(** [IP.String] *)
Definition IPString (ip : bytes) : bytes :=
  if (length ip =? 0)%nat then lit "<nil>"
  else if negb (length ip =? 4)%nat && negb (length ip =? 16)%nat then lit "?" ++ hex_encode ip
  else match To4 ip with Some v4 => string4 v4 | None => string6 ip end.

(** ** Lemmas *)

Lemma To4_length ip v4 : To4 ip = Some v4 -> length v4 = 4%nat.
Proof.
  unfold To4. destruct (Nat.eqb_spec (length ip) 4) as [Hl|Hl]; [by intros [= <-]|].
  case_if; [|done]. intros [= <-]. apply andb_true_iff in E as [E%Nat.eqb_eq _]. rewrite length_drop. lia.
Qed.

Lemma To16_length ip v6 : To16 ip = Some v6 -> length v6 = 16%nat.
Proof.
  unfold To16. destruct (Nat.eqb_spec (length ip) 4) as [Hl|Hl]; [intros [= <-]; simpl; lia|].
  destruct (Nat.eqb_spec (length ip) 16) as [Hl'|Hl']; [by intros [= <-] | done].
Qed.

Lemma To4_idem v4 : length v4 = 4%nat -> To4 v4 = Some v4.
Proof. intros Hl. unfold To4. by rewrite Hl. Qed.

Lemma To16_idem v6 : length v6 = 16%nat -> To16 v6 = Some v6.
Proof. intros Hl. unfold To16. by rewrite Hl. Qed.

Lemma To4_inv ip v4 : To4 ip = Some v4 -> length v4 = 4%nat /\ (ip = v4 \/ ip = v4InV6Prefix ++ v4).
Proof.
  intros H4. split; [by eapply To4_length|]. unfold To4 in H4. destruct (Nat.eqb_spec (length ip) 4); [injection H4 as <-; by left|].
  destruct (_ && _) eqn:E; [|done]. injection H4 as <-. apply andb_true_iff in E as [_ E%string_eqb_spec]. right. by rewrite <- E, take_drop.
Qed.

Lemma IsUnspecified_v4 ip v4 : To4 ip = Some v4 -> IsUnspecified ip = true -> v4 = zeros 4.
Proof.
  intros H4. destruct (To4_inv ip v4 H4) as [Hl [->| ->]]; unfold IsUnspecified, Equal; rewrite ?length_app, Hl.
  - cbn. intros H. apply orb_true_iff in H as [H|H]; [by apply string_eqb_spec in H | done].
  - change (length v4InV6Prefix + 4)%nat with 16%nat. cbn [length app Nat.eqb v4InV6Prefix IPv6unspecified zeros repeat andb].
    intros H. apply orb_true_iff in H as [H%string_eqb_spec|H%string_eqb_spec]; [by simplify_list_eq | by simplify_eq].
Qed.

Lemma IsUnspecified_v6 ip : To4 ip = None -> length ip = 16%nat -> IsUnspecified ip = true -> ip = zeros 16.
Proof.
  intros H4 Hl. unfold IsUnspecified, Equal. rewrite Hl. cbn [length app Nat.eqb v4InV6Prefix IPv6unspecified zeros repeat andb].
  intros H. apply orb_true_iff in H as [H%string_eqb_spec|H%string_eqb_spec]; [|done]. subst ip. done.
Qed.

Lemma To4_mapped v4 : length v4 = 4%nat -> To4 (v4InV6Prefix ++ v4) = Some v4.
Proof. intros Hl. unfold To4. rewrite length_app, Hl. cbn [length Nat.add Nat.eqb v4InV6Prefix app zeros repeat andb]. by rewrite string_eqb_refl. Qed.

(** *** What is printed is read back *)

Lemma print_small v : 0 <= v < 256 ->
  print_int v = if v <? 10 then [48 + v] else if v <? 100 then [48 + v / 10; 48 + v mod 10]
                else [48 + v / 100; 48 + v / 10 mod 10; 48 + v mod 10].
Proof.
  intros Hv. unfold print_int. cbn [print_digits]. destruct (Z.ltb_spec v 10); [done|]. destruct (Z.ltb_spec v 100).
  - rewrite (proj2 (Z.ltb_lt (v / 10) 10)) by (Z.div_mod_to_equations; lia). done.
  - rewrite (proj2 (Z.ltb_ge (v / 10) 10)) by (Z.div_mod_to_equations; lia).
    rewrite (proj2 (Z.ltb_lt (v / 10 / 10) 10)) by (Z.div_mod_to_equations; lia).
    rewrite Z.div_div by lia. done.
Qed.

Lemma digit_48 d : 0 <= d < 10 -> is_digit (48 + d) = true.
Proof. intros Hd. unfold is_digit. by rewrite !(proj2 (Z.leb_le _ _)) by lia. Qed.

Lemma parse_digit d s val digLen octets :
  0 <= d < 10 -> digLen = 0 \/ val <> 0 -> val * 10 + d <= 255 ->
  parse_v4 (48 + d :: s) val digLen octets = parse_v4 s (val * 10 + d) (digLen + 1) octets.
Proof.
  intros Hd Hz Hv. cbn [parse_v4]. rewrite digit_48 by done.
  replace ((digLen =? 1) && (val =? 0)) with false by (symmetry; apply andb_false_iff; rewrite !Z.eqb_neq; lia).
  replace (val * 10 + (48 + d - 48)) with (val * 10 + d) by lia. by rewrite (proj2 (Z.ltb_ge _ _)) by lia.
Qed.

Lemma parse_octet v s octets :
  0 <= v < 256 -> exists n, 0 < n /\ parse_v4 (print_int v ++ s) 0 0 octets = parse_v4 s v n octets.
Proof.
  intros Hv. rewrite print_small by done. destruct (Z.ltb_spec v 10); [|destruct (Z.ltb_spec v 100)]; cbn [app].
  - exists (0 + 1). rewrite parse_digit by lia. split; [lia|]. f_equal; lia.
  - exists (0 + 1 + 1). rewrite !parse_digit by (Z.div_mod_to_equations; lia). split; [lia|]. f_equal; Z.div_mod_to_equations; lia.
  - exists (0 + 1 + 1 + 1). rewrite !parse_digit by (Z.div_mod_to_equations; lia). split; [lia|]. f_equal; Z.div_mod_to_equations; lia.
Qed.

Lemma parse_dot c s v n octets :
  0 < n -> (length octets < 3)%nat -> parse_v4 (46 :: c :: s) v n octets = parse_v4 (c :: s) 0 0 (octets ++ [v]).
Proof. intros Hn Hl. cbn [parse_v4]. change (is_digit 46) with false. rewrite Z.eqb_refl, (proj2 (Z.eqb_neq n 0)) by lia. cbn [orb].
  by rewrite (proj2 (Nat.eqb_neq _ _)) by lia. Qed.

Lemma print_cons v : 0 <= v < 256 -> exists c s, print_int v = c :: s /\ is_digit c = true.
Proof.
  intros Hv. rewrite print_small by done. repeat case_match; eexists _, _; (split; [reflexivity|]); apply digit_48; bool_to_prop;
    Z.div_mod_to_equations; lia.
Qed.

Lemma family_digits v s : 0 <= v < 256 -> family (print_int v ++ 46 :: s) = Some 46.
Proof.
  intros Hv. assert (Forall (fun c => is_digit c = true) (print_int v)) as Hd
    by (apply print_digits_spec; change (10 ^ Z.of_nat 19) with 10000000000000000000; lia).
  induction Hd as [|c l Hc Hl IH]; [done|]. cbn [app family]. unfold is_digit in Hc. bool_to_prop.
  by rewrite !(proj2 (Z.eqb_neq c _)) by lia.
Qed.

Lemma parse_string4 v4 : length v4 = 4%nat -> Forall is_byte v4 -> ParseIP (string4 v4) = Some (v4InV6Prefix ++ v4).
Proof.
  intros Hl Hb. destruct v4 as [|a [|b [|c [|d [|? ?]]]]]; try done. repeat (apply Forall_cons in Hb as [? Hb]). unfold is_byte in *.
  unfold string4, ParseIP. cbn [map Join]. rewrite family_digits by lia.
  assert (parseIPv4 (print_int a ++ 46 :: print_int b ++ 46 :: print_int c ++ 46 :: print_int d) = Some [a; b; c; d]) as ->; [|done].
  unfold parseIPv4. destruct (parse_octet a (46 :: print_int b ++ 46 :: print_int c ++ 46 :: print_int d) []) as (n1 & ? & ->); [lia|].
  destruct (print_cons b) as (x & l & Hx & _); [lia|]. rewrite Hx. cbn [app]. rewrite parse_dot by (simpl; lia).
  change (x :: l ++ _) with ((x :: l) ++ 46 :: print_int c ++ 46 :: print_int d). rewrite <- Hx.
  destruct (parse_octet b (46 :: print_int c ++ 46 :: print_int d) ([] ++ [a])) as (n2 & ? & ->); [lia|].
  destruct (print_cons c) as (y & l2 & Hy & _); [lia|]. rewrite Hy. cbn [app]. rewrite parse_dot by (simpl; lia).
  change (y :: l2 ++ _) with ((y :: l2) ++ 46 :: print_int d). rewrite <- Hy.
  destruct (parse_octet c (46 :: print_int d) ([a] ++ [b])) as (n3 & ? & ->); [lia|].
  destruct (print_cons d) as (z & l3 & Hz & _); [lia|]. rewrite Hz, parse_dot, <- Hz by (simpl; lia).
  rewrite <- (app_nil_r (print_int d)). destruct (parse_octet d [] (([a] ++ [b]) ++ [c])) as (n4 & ? & ->); [lia|]. done.
Qed.

Lemma unhex_digit d : 0 <= d < 16 -> unhex (hex_digit d) = Some d.
Proof.
  intros Hd. unfold unhex, hex_digit, is_digit. destruct (Z.ltb_spec d 10).
  - rewrite !(proj2 (Z.leb_le _ _)) by lia. simpl. f_equal. lia.
  - rewrite (proj2 (Z.leb_gt (87 + d) 57)), andb_false_r, !(proj2 (Z.leb_le _ _)) by lia. cbn [andb]. f_equal. lia.
Qed.

Lemma hex_step d s off acc :
  0 <= d < 16 -> (off <= 3)%nat -> hex_group (hex_digit d :: s) off acc = hex_group s (S off) (acc * 16 + d).
Proof. intros Hd Ho. cbn [hex_group]. by rewrite unhex_digit, (proj2 (Nat.ltb_ge _ _)), Z.shiftl_mul_pow2 by lia. Qed.

(** Where a group ends. *)
Definition ends_group (s : bytes) : Prop := match s with [] => True | c :: _ => c = 58 end.

Lemma hex_group_read g s :
  0 <= g < 65536 -> ends_group s -> exists n, length (appendHex g) = S n /\ hex_group (appendHex g ++ s) 0 0 = Some (S n, g).
Proof.
  intros Hg He. assert (forall off acc, hex_group s off acc = Some (off, acc)) as Hs by (intros; destruct s as [|c s]; [done|]; by rewrite He).
  unfold appendHex. change 15 with (Z.ones 4). rewrite !Z.land_ones, !Z.shiftr_div_pow2 by lia.
  change (2 ^ 12) with 4096. change (2 ^ 8) with 256. change (2 ^ 4) with 16.
  destruct (Z.leb_spec 4096 g); [|destruct (Z.leb_spec 256 g); [|destruct (Z.leb_spec 16 g)]];
    rewrite ?(proj2 (Z.leb_le 256 g)), ?(proj2 (Z.leb_le 16 g)), ?(proj2 (Z.leb_gt 256 g)), ?(proj2 (Z.leb_gt 16 g)) by lia;
    cbn [app length]; eexists; (split; [reflexivity|]); rewrite !hex_step by (lia || (Z.div_mod_to_equations; lia));
    rewrite Hs; do 2 f_equal; Z.div_mod_to_equations; lia.
Qed.

Definition be_groups (gs : list Z) : bytes := flat_map (fun g => [Z.shiftr g 8; Z.land g 255]) gs.

Lemma v6_step fuel g s ip e :
  0 <= g < 65536 -> ends_group s ->
  v6_groups (S fuel) (appendHex g ++ s) ip e =
    let ip := ip ++ be_groups [g] in
    match s with
    | [] => Some (ip, e, [])
    | _ :: [] => None
    | _ :: c :: s' =>
        if c =? 58 then
          match e with
          | Some _ => None
          | None => match s' with [] => Some (ip, Some (length ip), []) | _ => v6_groups fuel s' ip (Some (length ip)) end
          end
        else v6_groups fuel (c :: s') ip e
    end.
Proof.
  intros Hg He. destruct (hex_group_read g s Hg He) as (n & Hn & Hr). cbn [v6_groups]. rewrite Hr.
  assert (((S n <? length (appendHex g ++ s))%nat && (at_ (appendHex g ++ s) (S n) =? 46)) = false) as ->.
  { rewrite <- Hn. unfold at_. rewrite lookup_app_r, Nat.sub_diag by lia.
    destruct s as [|c s]; simpl; [by rewrite andb_false_r | rewrite He, andb_false_r; done]. }
  rewrite <- Hn, drop_app_length. cbv zeta. destruct s as [|c s]; [done|]. simpl in He. subst c. rewrite Z.eqb_refl. cbn [negb].
  by destruct s as [|c s].
Qed.

Lemma hex_first g : 0 <= g < 65536 -> exists c s, appendHex g = c :: s /\ c <> 58.
Proof.
  intros Hg. destruct (hex_group_read g [] Hg I) as (n & Hn & Hr). destruct (appendHex g) as [|c s] eqn:Ha; [done|].
  exists c, s. split; [done|]. intros ->. by cbn in Hr.
Qed.

Definition hexes (gs : list Z) : bytes := Join (map appendHex gs) 58.

Lemma v6_last gs fuel ip e :
  gs <> [] -> Forall (fun g => 0 <= g < 65536) gs -> (length gs <= fuel)%nat ->
  v6_groups fuel (hexes gs) ip e = Some (ip ++ be_groups gs, e, []).
Proof.
  intros Hn Hg. revert fuel ip Hn. induction Hg as [|g gs Hg Hgs IH]; intros fuel ip Hn Hf; [done|]. destruct fuel as [|fuel]; [simpl in Hf; lia|].
  destruct gs as [|g' gs].
  - change (hexes [g]) with (appendHex g). rewrite <- (app_nil_r (appendHex g)), v6_step by done. done.
  - change (hexes (g :: g' :: gs)) with (appendHex g ++ 58 :: hexes (g' :: gs)). rewrite v6_step by done. cbv zeta.
    pose proof Hgs as Hg'. apply Forall_cons in Hg' as [Hg' _]. destruct (hex_first g' Hg') as (c & s & Hc & Hne).
    assert (exists s', hexes (g' :: gs) = c :: s') as [s' Hs'].
    { destruct gs; [exists s; done|]. change (hexes (g' :: z :: gs)) with (appendHex g' ++ 58 :: hexes (z :: gs)). rewrite Hc. eauto. }
    rewrite Hs', (proj2 (Z.eqb_neq _ _) Hne), <- Hs', IH by (simpl in *; lia || done). by rewrite <- app_assoc.
Qed.

Lemma v6_gap pre post fuel ip :
  pre <> [] -> Forall (fun g => 0 <= g < 65536) pre -> Forall (fun g => 0 <= g < 65536) post -> (length pre + length post <= fuel)%nat ->
  v6_groups fuel (hexes pre ++ 58 :: 58 :: hexes post) ip None =
    Some (ip ++ be_groups pre ++ be_groups post, Some (length (ip ++ be_groups pre)), []).
Proof.
  intros Hn Hg Hp. revert fuel ip Hn. induction Hg as [|g gs Hg Hgs IH]; intros fuel ip Hn Hf; [done|]. destruct fuel as [|fuel]; [simpl in Hf; lia|].
  destruct gs as [|g' gs].
  - change (hexes [g]) with (appendHex g). rewrite v6_step by done. cbv zeta. rewrite Z.eqb_refl.
    destruct post as [|q post]; [by rewrite app_nil_r|].
    assert (exists c s, hexes (q :: post) = c :: s) as (c & s & Hs).
    { apply Forall_cons in Hp as [Hq _]. destruct (hex_first q Hq) as (c & s & Hc & _). destruct post; [by exists c, s|].
      change (hexes (q :: z :: post)) with (appendHex q ++ 58 :: hexes (z :: post)). rewrite Hc. simpl. eauto. }
    rewrite Hs, <- Hs, v6_last by (done || (simpl in *; lia)). by rewrite <- app_assoc.
  - change (hexes (g :: g' :: gs)) with (appendHex g ++ 58 :: hexes (g' :: gs)). rewrite <- app_assoc. cbn [app]. rewrite v6_step by done. cbv zeta.
    pose proof Hgs as Hg'. apply Forall_cons in Hg' as [Hg' _]. destruct (hex_first g' Hg') as (c & s & Hc & Hne).
    assert (exists s', hexes (g' :: gs) = c :: s') as [s' Hs'].
    { destruct gs; [exists s; done|]. change (hexes (g' :: z :: gs)) with (appendHex g' ++ 58 :: hexes (z :: gs)). rewrite Hc. eauto. }
    rewrite Hs'. cbn [app]. rewrite (proj2 (Z.eqb_neq _ _) Hne).
    change (c :: s' ++ 58 :: 58 :: hexes post) with ((c :: s') ++ 58 :: 58 :: hexes post). rewrite <- Hs', IH by (simpl in *; lia || done).
    by rewrite <- !app_assoc.
Qed.

(** The characters of a printed IPv6 address. *)
Definition addr_char (c : Z) : Prop := c = 58 \/ 48 <= c <= 57 \/ 97 <= c <= 102.

Lemma hex_digit_char d : 0 <= d < 16 -> addr_char (hex_digit d) /\ hex_digit d <> 58.
Proof. intros Hd. unfold hex_digit, addr_char. case_match; bool_to_prop; lia. Qed.

Lemma appendHex_chars g : 0 <= g < 65536 -> Forall (fun c => addr_char c /\ c <> 58) (appendHex g).
Proof.
  intros Hg. unfold appendHex. change 15 with (Z.ones 4). rewrite !Z.land_ones, !Z.shiftr_div_pow2 by lia.
  change (2 ^ 12) with 4096. change (2 ^ 8) with 256. change (2 ^ 4) with 16.
  assert (forall d, 0 <= d < 16 -> Forall (fun c => addr_char c /\ c <> 58) [hex_digit d]) as Hd
    by (intros d Hd; constructor; [by apply hex_digit_char | constructor]).
  repeat apply Forall_app_2; repeat case_match;
    first [apply Forall_nil_2 | apply Hd; bool_to_prop; Z.div_mod_to_equations; lia].
Qed.

Lemma hexes_chars gs : Forall (fun g => 0 <= g < 65536) gs -> Forall addr_char (hexes gs).
Proof.
  assert (forall g, 0 <= g < 65536 -> Forall addr_char (appendHex g)) as Ha
    by (intros g Hg; eapply Forall_impl; [by apply appendHex_chars|]; by intros c [Hc _]).
  intros Hg. induction Hg as [|g gs Hg Hgs IH]; [constructor|]. destruct gs as [|g' gs]; [by apply Ha|].
  change (hexes (g :: g' :: gs)) with (appendHex g ++ 58 :: hexes (g' :: gs)). apply Forall_app_2; [by apply Ha|]. constructor; [by left | done].
Qed.

Lemma family_addr s : Forall addr_char s -> 58 ∈ s -> family s = Some 58.
Proof.
  induction 1 as [|c s Hc Hs IH]; intros Hin; [by apply elem_of_nil in Hin|]. cbn [family]. unfold addr_char in Hc.
  destruct (Z.eqb_spec c 58) as [->|Hne]; [done|]. rewrite !(proj2 (Z.eqb_neq c _)) by lia. apply IH. set_solver.
Qed.

Lemma no_percent s : Forall addr_char s -> IndexByte s 37 = None.
Proof.
  induction 1 as [|c s Hc Hs IH]; [done|]. cbn [IndexByte]. unfold addr_char in Hc. rewrite (proj2 (Z.eqb_neq c _)) by lia. by rewrite IH.
Qed.

Lemma zero_run_spec gs : (zero_run gs <= length gs)%nat /\ take (zero_run gs) gs = replicate (zero_run gs) 0.
Proof. induction gs as [|g gs [IH1 IH2]]; [done|]. simpl. destruct (Z.eqb_spec g 0) as [->|]; simpl; [|split; [lia|done]]. split; [lia|]. by rewrite IH2. Qed.

Lemma longest_run_spec gs start n :
  longest_run gs = (start, n) -> n = 0%nat \/ (start + n <= length gs)%nat /\ take n (drop start gs) = replicate n 0.
Proof.
  set (ok := fun r : nat * nat => r.2 = 0%nat \/ (r.1 + r.2 <= length gs)%nat /\ take r.2 (drop r.1 gs) = replicate r.2 0).
  assert (forall l acc, ok acc -> ok (fold_left (longer gs) l acc)) as Hf.
  { induction l as [|i l IH]; intros acc Hacc; [done|]. apply IH. unfold longer. destruct (_ && _) eqn:E; [|done].
    apply andb_true_iff in E as [E%Nat.leb_le _]. right. cbn [fst snd]. destruct (zero_run_spec (drop i gs)) as [H1 H2].
    rewrite length_drop in H1. split; [lia|done]. }
  intros He. pose proof (Hf (seq 0 8) (0%nat, 0%nat) (or_introl eq_refl)) as Hr. unfold longest_run in He. rewrite He in Hr. exact Hr.
Qed.

Lemma groups_range ip : length ip = 16%nat -> Forall is_byte ip -> Forall (fun g => 0 <= g < 65536) (groups ip).
Proof.
  intros Hl Hb. unfold groups. apply Forall_fmap, Forall_forall. intros i Hi. apply elem_of_seq in Hi. unfold group, at_.
  destruct (lookup_lt_is_Some_2 ip (2 * i)) as [a Ha]; [lia|]. destruct (lookup_lt_is_Some_2 ip (2 * i + 1)) as [b Hb']; [lia|].
  unfold compose. rewrite Ha, Hb'. cbn [default]. unfold id. pose proof (Forall_lookup_1 _ _ _ _ Hb Ha). pose proof (Forall_lookup_1 _ _ _ _ Hb Hb').
  unfold is_byte in *. lia.
Qed.

Lemma be_groups_of ip : length ip = 16%nat -> Forall is_byte ip -> be_groups (groups ip) = ip.
Proof.
  assert (forall a b, is_byte a -> is_byte b -> [Z.shiftr (a * 256 + b) 8; Z.land (a * 256 + b) 255] = [a; b]) as Hg.
  { intros a b Ha Hb. unfold is_byte in *. change 255 with (Z.ones 8). rewrite Z.land_ones, Z.shiftr_div_pow2 by lia.
    change (2 ^ 8) with 256. f_equal; [|f_equal]; Z.div_mod_to_equations; lia. }
  intros Hl Hb. do 16 (destruct ip as [|? ip]; [done|]). destruct ip; [|done]. repeat (apply Forall_cons in Hb as [? Hb]).
  unfold be_groups, groups, group. cbn [seq map flat_map Nat.mul Nat.add at_ lookup list_lookup default]. unfold at_. simpl.
  repeat (match goal with |- context [Z.shiftr (?a * 256 + ?b) 8 :: Z.land (?a * 256 + ?b) 255 :: ?l] =>
    change (Z.shiftr (a * 256 + b) 8 :: Z.land (a * 256 + b) 255 :: l) with ([Z.shiftr (a * 256 + b) 8; Z.land (a * 256 + b) 255] ++ l);
    rewrite (Hg a b) by done end). done.
Qed.

Lemma be_groups_app a b : be_groups (a ++ b) = be_groups a ++ be_groups b.
Proof. apply flat_map_app. Qed.

Lemma length_be gs : length (be_groups gs) = (2 * length gs)%nat.
Proof. induction gs as [|g gs IH]; [done|]. simpl in *. lia. Qed.

Lemma be_zeros n : be_groups (replicate n 0) = zeros (2 * n).
Proof. induction n as [|n IH]; [done|]. replace (2 * S n)%nat with (S (S (2 * n))) by lia. simpl in *. by rewrite IH. Qed.

Lemma hexes_no_prefix g gs s : 0 <= g < 65536 -> HasPrefix (hexes (g :: gs) ++ s) [58; 58] = false.
Proof.
  intros Hg. destruct (hex_first g Hg) as (c & l & Hc & Hne). apply string_eqb_false.
  destruct gs as [|g' gs].
  - change (hexes [g]) with (appendHex g). rewrite Hc. simpl. congruence.
  - change (hexes (g :: g' :: gs)) with (appendHex g ++ 58 :: hexes (g' :: gs)). rewrite Hc. simpl. congruence.
Qed.

Lemma parse_full gs :
  Forall (fun g => 0 <= g < 65536) gs -> length gs = 8%nat -> ParseIP (hexes gs) = Some (be_groups gs).
Proof.
  intros Hr H8. destruct gs as [|g [|g' gs]]; [done..|].
  assert (58 ∈ hexes (g :: g' :: gs)) as Hin by (change (hexes (g :: g' :: gs)) with (appendHex g ++ 58 :: hexes (g' :: gs)); set_solver).
  pose proof (hexes_chars _ Hr) as Hc. unfold ParseIP. rewrite family_addr by done. unfold parseIPv6. rewrite no_percent by done.
  pose proof Hr as Hr'. apply Forall_cons in Hr' as [Hg _]. pose proof (hexes_no_prefix g (g' :: gs) [] Hg) as Hp.
  rewrite app_nil_r in Hp. rewrite Hp, v6_last by (done || lia). cbn [app]. by rewrite length_be, H8.
Qed.

Lemma parse_gap pre n post :
  Forall (fun g => 0 <= g < 65536) pre -> Forall (fun g => 0 <= g < 65536) post -> (0 < n)%nat -> (length pre + n + length post = 8)%nat ->
  ParseIP (hexes pre ++ [58; 58] ++ hexes post) = Some (be_groups (pre ++ replicate n 0 ++ post)).
Proof.
  intros Hp Hq Hn H8. assert (Forall addr_char (hexes pre ++ [58; 58] ++ hexes post)) as Hc.
  { repeat apply Forall_app_2; [by apply hexes_chars | by repeat constructor | by apply hexes_chars]. }
  unfold ParseIP. rewrite family_addr by (done || set_solver). unfold parseIPv6. rewrite no_percent by done.
  rewrite !be_groups_app, be_zeros. destruct pre as [|g pre].
  - change (HasPrefix (hexes [] ++ [58; 58] ++ hexes post) [58; 58]) with true. cbv iota beta.
    change (drop 2 (hexes [] ++ [58; 58] ++ hexes post)) with (hexes post). destruct post as [|q post].
    + simpl in H8. replace n with 8%nat by lia. done.
    + assert (hexes (q :: post) <> []) as Hne.
      { pose proof Hq as Hq'. apply Forall_cons in Hq' as [Hq' _]. destruct (hex_first q Hq') as (c & s & Hcs & _).
        destruct post; [change (hexes [q]) with (appendHex q); by rewrite Hcs|].
        change (hexes (q :: z :: post)) with (appendHex q ++ 58 :: hexes (z :: post)). by rewrite Hcs. }
      destruct (hexes (q :: post)) as [|c s] eqn:Hs; [done|]. rewrite <- Hs, v6_last by (done || (simpl in *; lia)).
      cbn [app]. rewrite length_be, (proj2 (Nat.ltb_lt _ _)) by (simpl in *; lia). cbn [take drop app be_groups flat_map].
      do 3 f_equal. simpl in *. lia.
  - rewrite hexes_no_prefix by by apply Forall_cons in Hp as [? _]. cbv iota beta.
    change (hexes (g :: pre) ++ [58; 58] ++ hexes post) with (hexes (g :: pre) ++ 58 :: 58 :: hexes post).
    rewrite v6_gap by (done || lia). cbn [app]. rewrite length_app, !length_be, (proj2 (Nat.ltb_lt _ _)) by lia.
    rewrite <- length_be, take_app_length, drop_app_length, !length_be. do 4 f_equal. lia.
Qed.

Lemma parse_string6 ip : length ip = 16%nat -> Forall is_byte ip -> ParseIP (string6 ip) = Some ip.
Proof.
  intros Hl Hb. pose proof (groups_range ip Hl Hb) as Hr. pose proof (be_groups_of ip Hl Hb) as Hi.
  assert (length (groups ip) = 8%nat) as H8 by done. unfold string6. cbv zeta. fold (hexes (groups ip)).
  destruct (longest_run (groups ip)) as [start n] eqn:He. destruct (longest_run_spec (groups ip) start n He) as [->|[Hn Hz]].
  - cbn [Nat.eqb]. by rewrite parse_full, Hi by done.
  - destruct (Nat.eqb_spec n 0) as [->|Hnz]; [by rewrite parse_full, Hi by done|].
    fold (hexes (take start (groups ip))) (hexes (drop (start + n) (groups ip))).
    rewrite (parse_gap _ n); [|by apply Forall_take|by apply Forall_drop|lia|rewrite length_take, length_drop; lia].
    rewrite <- Hz, <- (drop_drop _ n start), take_drop, take_drop, Hi. done.
Qed.

(** What [String] prints, [ParseIP] reads back, in the sixteen-byte form. *)
Lemma parse_IPString ip : length ip = 4%nat \/ length ip = 16%nat -> Forall is_byte ip -> ParseIP (IPString ip) = To16 ip.
Proof.
  intros Hl Hb. unfold IPString, To16. destruct (To4 ip) as [v4|] eqn:H4.
  - destruct (To4_inv ip v4 H4) as [Hv Hip].
    assert (Forall is_byte v4) as Hvb by (destruct Hip as [<-|He]; [done|]; rewrite He in Hb; by apply Forall_app in Hb as [_ Hb]).
    destruct Hip as [->| ->]; [rewrite Hv|rewrite length_app, Hv; change (length v4InV6Prefix + 4)%nat with 16%nat];
      cbn [Nat.eqb negb andb]; by rewrite parse_string4.
  - unfold To4 in H4. destruct (Nat.eqb_spec (length ip) 4) as [He|He]; [done|]. destruct Hl as [Hl|Hl]; [done|]. rewrite Hl.
    cbn [Nat.eqb negb andb]. by apply parse_string6.
Qed.

(** *** Hosts and ports *)

Lemma IndexByte_none s c : c ∉ s -> IndexByte s c = None.
Proof.
  induction s as [|x s IH]; [done|]. intros Hn. apply not_elem_of_cons in Hn as [Hx Hn]. cbn [IndexByte].
  by rewrite (proj2 (Z.eqb_neq _ _)), IH by (done || congruence).
Qed.

Lemma IndexByte_first s c i : IndexByte s c = Some i -> s !! i = Some c /\ forall j, (j < i)%nat -> s !! j <> Some c.
Proof.
  revert i. induction s as [|x s IH]; intros i; [done|]. cbn [IndexByte]. destruct (Z.eqb_spec x c) as [->|Hx].
  - intros [= <-]. split; [done|lia].
  - destruct (IndexByte s c) as [k|]; [|done]. intros [= <-]. destruct (IH k eq_refl) as [H1 H2]. split; [done|].
    intros [|j] Hj; [simpl; congruence|]. apply H2. lia.
Qed.

Lemma IndexByte_some s c : c ∈ s -> exists i, IndexByte s c = Some i.
Proof.
  induction s as [|x s IH]; intros Hin; [by apply elem_of_nil in Hin|]. cbn [IndexByte]. destruct (Z.eqb_spec x c) as [->|Hx]; [by eexists|].
  apply elem_of_cons in Hin as [->|Hin]; [done|]. destruct (IH Hin) as [i ->]. by eexists.
Qed.

(** More than one colon and no brackets: there is no port. *)
Lemma SplitHostPort_colons a b : 58 ∈ b -> at_ (a ++ 58 :: b) 0 <> 91 -> SplitHostPort (a ++ 58 :: b) = None.
Proof.
  intros Hb H0. unfold SplitHostPort, LastIndexByte. set (s := a ++ 58 :: b) in *.
  destruct (IndexByte_some (rev s) 58) as [i Hi]; [unfold s; rewrite rev_app_distr; simpl; set_solver|]. rewrite Hi.
  destruct (IndexByte_first _ _ _ Hi) as [Hl Hf]. rewrite (proj2 (Z.eqb_neq _ _)) by done.
  destruct (proj1 (list_elem_of_lookup b 58) Hb) as [j Hj]. pose proof (lookup_lt_Some _ _ _ Hj) as Hjl.
  assert (length s = (length a + 1 + length b)%nat) as Hs by (unfold s; rewrite length_app; simpl; lia).
  assert (i <= length b - 1 - j)%nat as Hij.
  { destruct (decide (i <= length b - 1 - j)%nat) as [|Hgt]; [done|]. exfalso. apply (Hf (length b - 1 - j)%nat); [lia|].
    unfold s. rewrite rev_app_distr. cbn [rev]. rewrite <- app_assoc, lookup_app_l by (rewrite length_rev; lia).
    replace (rev b) with (reverse b) by (unfold reverse; symmetry; apply rev_alt). rewrite reverse_lookup by lia. replace (length b - S (length b - 1 - j))%nat with j by lia. done. }
  destruct (IndexByte_some (take (length s - 1 - i) s) 58) as [k Hk].
  { apply list_elem_of_lookup. exists (length a). rewrite lookup_take_lt by lia. unfold s. by rewrite list_lookup_middle. }
  by rewrite Hk.
Qed.

Lemma TrimLeft_id s cut : Forall (fun c => existsb (Z.eqb c) cut = false) s -> TrimLeft s cut = s.
Proof. destruct 1 as [|c s Hc Hs]; [done|]. cbn [TrimLeft]. by rewrite Hc. Qed.

Lemma Trim_id s cut : Forall (fun c => existsb (Z.eqb c) cut = false) s -> Trim s cut = s.
Proof.
  intros Hf. unfold Trim, TrimRight. rewrite (TrimLeft_id s) by done. rewrite TrimLeft_id; [apply rev_involutive|].
  apply Forall_forall. intros c Hc. apply (proj1 (Forall_forall _ _) Hf). apply list_elem_of_In, in_rev. by apply list_elem_of_In.
Qed.

Lemma string4_chars v4 : Forall is_byte v4 -> Forall (fun c => c = 46 \/ is_digit c = true) (string4 v4).
Proof.
  assert (forall v, is_byte v -> Forall (fun c => c = 46 \/ is_digit c = true) (print_int v)) as Hp.
  { intros v Hv. unfold is_byte in Hv. eapply Forall_impl; [apply print_digits_spec; change (10 ^ Z.of_nat 19) with 10000000000000000000; lia|]. by right. }
  intros Hb. unfold string4. induction Hb as [|v l Hv Hl IH]; [constructor|]. destruct l as [|w l]; [by apply Hp|].
  change (Join (map print_int (v :: w :: l)) 46) with (print_int v ++ 46 :: Join (map print_int (w :: l)) 46).
  apply Forall_app_2; [by apply Hp|]. constructor; [by left | exact IH].
Qed.

Lemma string6_shape ip : length ip = 16%nat -> Forall is_byte ip ->
  Forall addr_char (string6 ip) /\ exists a b, string6 ip = a ++ 58 :: b /\ 58 ∈ b.
Proof.
  intros Hl Hb. pose proof (groups_range ip Hl Hb) as Hr. assert (length (groups ip) = 8%nat) as H8 by done.
  assert (Forall addr_char (hexes (groups ip)) /\ exists a b, hexes (groups ip) = a ++ 58 :: b /\ 58 ∈ b) as Hf.
  { split; [by apply hexes_chars|]. destruct (groups ip) as [|g [|g' [|g2 gs]]]; try done. exists (appendHex g), (hexes (g' :: g2 :: gs)).
    split; [done|]. change (hexes (g' :: g2 :: gs)) with (appendHex g' ++ 58 :: hexes (g2 :: gs)). set_solver. }
  unfold string6. cbv zeta. fold (hexes (groups ip)). destruct (longest_run (groups ip)) as [start n]. destruct (_ =? _)%nat; [done|].
  fold (hexes (take start (groups ip))) (hexes (drop (start + n) (groups ip))). split.
  - repeat apply Forall_app_2; [by apply hexes_chars, Forall_take | by repeat constructor | by apply hexes_chars, Forall_drop].
  - eexists _, (58 :: hexes (drop (start + n) (groups ip))). split; [done|]. left.
Qed.

(** A printed address is taken for a host without a port, and survives trimming. *)
Lemma IPString_host ip : length ip = 4%nat \/ length ip = 16%nat -> Forall is_byte ip ->
  SplitHostPort (IPString ip) = None /\ Trim (IPString ip) [91; 93] = IPString ip.
Proof.
  intros Hl Hb. unfold IPString. destruct (To4 ip) as [v4|] eqn:H4.
  - destruct (To4_inv ip v4 H4) as [Hv Hip].
    assert (Forall is_byte v4) as Hvb by (destruct Hip as [<-|He]; [done|]; rewrite He in Hb; by apply Forall_app in Hb as [_ Hb]).
    assert ((length ip =? 0)%nat = false /\ negb (length ip =? 4)%nat && negb (length ip =? 16)%nat = false) as [-> ->]
      by (destruct Hl as [-> | ->]; done).
    pose proof (string4_chars v4 Hvb) as Hc. split.
    + unfold SplitHostPort, LastIndexByte. rewrite IndexByte_none; [done|]. rewrite list_elem_of_In, <- in_rev, <- list_elem_of_In.
      intros Hin. destruct (proj1 (Forall_forall _ _) Hc _ Hin) as [?|?]; done.
    + apply Trim_id. eapply Forall_impl; [exact Hc|]. intros c [->|Hd]; [done|]. unfold is_digit in Hd. bool_to_prop. cbn [existsb].
      by rewrite !(proj2 (Z.eqb_neq c _)) by lia.
  - destruct Hl as [Hl|Hl]; [by rewrite To4_idem in H4|]. rewrite Hl. cbn [Nat.eqb negb andb].
    destruct (string6_shape ip Hl Hb) as [Hc (a & b & Hs & Hin)]. split.
    + rewrite Hs. apply SplitHostPort_colons; [done|]. rewrite <- Hs. unfold at_. destruct (string6 ip !! 0%nat) as [c|] eqn:E; [|done].
      pose proof (Forall_lookup_1 _ _ _ _ Hc E) as Ha. unfold addr_char in Ha. simpl. lia.
    + apply Trim_id. eapply Forall_impl; [exact Hc|]. unfold addr_char. intros c Hd. cbn [existsb].
      by rewrite !(proj2 (Z.eqb_neq c _)) by lia.
Qed.

(** ** Samples *)

Example parse_samples :
  ParseIP (lit "192.168.0.1") = Some (v4InV6Prefix ++ [192; 168; 0; 1]) /\
  ParseIP (lit "010.0.0.1") = None /\ ParseIP (lit "1.2.3") = None /\ ParseIP (lit "1.2.3.4.") = None /\
  ParseIP (lit "::1") = Some IPv6loopback /\ ParseIP (lit "2001:db8::") = Some ([32; 1; 13; 184] ++ zeros 12) /\
  ParseIP (lit "::ffff:1.2.3.4") = Some (v4InV6Prefix ++ [1; 2; 3; 4]) /\
  ParseIP (lit "1:2:3:4:5:6:7:8:9") = None /\ ParseIP (lit "fe80::1%eth0") = None /\ ParseIP (lit "1::2::3") = None /\
  ParseIP (lit "1:2:3:4:5:6:7::") = Some [0; 1; 0; 2; 0; 3; 0; 4; 0; 5; 0; 6; 0; 7; 0; 0].
Proof. vm_compute. by split_and!. Qed.

End GoNet.
