(* ===== verification/Cell.v ===== *)
(** * Link cells (pkg/cell/cell.go)

    The fixed and variable-length cell format of the link protocol:
    [EncodeLink] on an arbitrary [io.Writer], [DecodeCellLink] on the bytes a
    reader still holds.  The wire image [wire] is the reference encoding the
    two are compared with. *)

From S2P Require Import Prelude Conversion.
Import Conversion.

Module Cell.

Definition CircIDLen : nat := 4.
Definition CmdLen : nat := 1.
Definition PayloadLen : nat := 509.
Definition CellLen : nat := CircIDLen + CmdLen + PayloadLen.
Definition CellSize : nat := CellLen.

(** ** Commands ([type Command byte]) *)

Definition CmdPadding : Z := 0.
Definition CmdCreate : Z := 1.
Definition CmdCreated : Z := 2.
Definition CmdRelay : Z := 3.
Definition CmdDestroy : Z := 4.
Definition CmdCreateFast : Z := 5.
Definition CmdCreatedFast : Z := 6.
Definition CmdVersions : Z := 7.
Definition CmdNetinfo : Z := 8.
Definition CmdRelayEarly : Z := 9.
Definition CmdCreate2 : Z := 10.
Definition CmdCreated2 : Z := 11.
Definition CmdVPadding : Z := 128.
Definition CmdCerts : Z := 129.
Definition CmdAuthChallenge : Z := 130.
Definition CmdAuthenticate : Z := 131.
Definition CmdAuthorize : Z := 132.

Definition DestroyReasonNone : Z := 0.
Definition DestroyReasonProtocol : Z := 1.
Definition DestroyReasonInternal : Z := 2.
Definition DestroyReasonRequested : Z := 3.
Definition DestroyReasonHibernating : Z := 4.
Definition DestroyReasonResourceLimit : Z := 5.
Definition DestroyReasonConnectFailed : Z := 6.
Definition DestroyReasonNoRoute : Z := 7.
Definition DestroyReasonTimeout : Z := 8.
Definition DestroyReasonDestroyed : Z := 9.
Definition DestroyReasonNosuchservice : Z := 10.

Definition IsVariableLength (c : Z) : bool := (128 <=? c) || (c =? CmdVersions).

Definition String (c : Z) : string :=
  if c =? CmdPadding then "PADDING"
  else if c =? CmdCreate then "CREATE"
  else if c =? CmdCreated then "CREATED"
  else if c =? CmdRelay then "RELAY"
  else if c =? CmdDestroy then "DESTROY"
  else if c =? CmdCreateFast then "CREATE_FAST"
  else if c =? CmdCreatedFast then "CREATED_FAST"
  else if c =? CmdVersions then "VERSIONS"
  else if c =? CmdNetinfo then "NETINFO"
  else if c =? CmdRelayEarly then "RELAY_EARLY"
  else if c =? CmdCreate2 then "CREATE2"
  else if c =? CmdCreated2 then "CREATED2"
  else if c =? CmdVPadding then "VPADDING"
  else if c =? CmdCerts then "CERTS"
  else if c =? CmdAuthChallenge then "AUTH_CHALLENGE"
  else if c =? CmdAuthenticate then "AUTHENTICATE"
  else if c =? CmdAuthorize then "AUTHORIZE"
  else "UNKNOWN(" +:+ pretty c +:+ ")".

(** ** Cells *)

Record Cell := mkCell {
  CircID : Z;
  Command : Z;
  Payload : bytes;
}.

Definition NewCell (circID cmd : Z) : Cell := mkCell circID cmd [].

Inductive error :=
| ErrInvalidCircIDLen (n : Z)
| ErrCircIDExceeds (id : Z)
| ErrWriteCircID
| ErrWriteCommand
| ErrPayloadTooLarge (e : Conversion.error)
| ErrWritePayloadLen
| ErrWritePayload
| ErrFixedTooLarge (n : Z)
| ErrWritePadding
| ErrReadCircID
| ErrReadCommand
| ErrReadPayloadLen
| ErrReadVariable
| ErrReadFixed.

(** ** Encoding: a sequence of [Write] calls that stops at the first failure *)

Definition emit `{Writer W} (e : error) (p : bytes) (w : W) : W * option error :=
  let '(w, ok) := write w p in (w, if ok then None else Some e).

Definition andThen {W} (m : W * option error) (k : W -> W * option error) : W * option error :=
  match m with
  | (w, None) => k w
  | (w, Some e) => (w, Some e)
  end.

Notation "'let!' w ':=' m 'in' k" := (andThen m (fun w => k))
  (at level 10, w name, m at level 100, k at level 200) : gotor_scope.

Definition EncodeLink `{Writer W} (c : Cell) (w : W) (circIDLen : Z) : W * option error :=
  if negb (circIDLen =? 2) && negb (circIDLen =? 4) then (w, Some (ErrInvalidCircIDLen circIDLen))
  else
  let! w :=
    if circIDLen =? 2 then
      if 65535 <? CircID c then (w, Some (ErrCircIDExceeds (CircID c)))
      else emit ErrWriteCircID (PutUint16 (Uint32ToUint16 (CircID c))) w
    else emit ErrWriteCircID (PutUint32 (CircID c)) w in
  let! w := emit ErrWriteCommand [Command c] w in
  if IsVariableLength (Command c) then
    match SafeLenToUint16 (Payload c) with
    | Err e => (w, Some (ErrPayloadTooLarge e))
    | Ok payloadLen =>
        let! w := emit ErrWritePayloadLen (PutUint16 payloadLen) w in
        emit ErrWritePayload (Payload c) w
    end
  else
    if Z.of_nat PayloadLen <? len (Payload c) then (w, Some (ErrFixedTooLarge (len (Payload c))))
    else
      let! w := emit ErrWritePayload (Payload c) w in
      let padding := (PayloadLen - length (Payload c))%nat in
      if (0 <? padding)%nat then emit ErrWritePadding (zeros padding) w else (w, None).

Definition Encode `{Writer W} (c : Cell) (w : W) : W * option error := EncodeLink c w 4.

(** ** Decoding: the outcome and the bytes left in the reader *)

Definition reading {A} (n : nat) (e : error) (r : bytes)
    (k : bytes -> bytes -> result error A * bytes) : result error A * bytes :=
  match read_full n r with
  | (Some p, r) => k p r
  | (None, r) => (Err e, r)
  end.

Definition DecodeCellLink (r : bytes) (circIDLen : Z) : result error Cell * bytes :=
  if negb (circIDLen =? 2) && negb (circIDLen =? 4) then (Err (ErrInvalidCircIDLen circIDLen), r)
  else
  reading (if circIDLen =? 2 then 2 else 4) ErrReadCircID r (fun id r =>
  reading 1 ErrReadCommand r (fun cmd r =>
  let command := be_get cmd in
  if IsVariableLength command then
    reading 2 ErrReadPayloadLen r (fun l r =>
    reading (Z.to_nat (be_get l)) ErrReadVariable r (fun payload r =>
    (Ok (mkCell (be_get id) command payload), r)))
  else
    reading PayloadLen ErrReadFixed r (fun payload r =>
    (Ok (mkCell (be_get id) command payload), r)))).

Definition DecodeCell (r : bytes) : result error Cell * bytes := DecodeCellLink r 4.

(** A receive loop on the bytes of a connection: cells until the input ends,
    [None] on the first cell that does not decode. *)
Fixpoint decode_stream (fuel : nat) (n : Z) (r : bytes) : option (list Cell) :=
  match r, fuel with
  | [], _ => Some []
  | _, O => None
  | _, S fuel =>
      match DecodeCellLink r n with
      | (Ok c, r) => cons c <$> decode_stream fuel n r
      | (Err _, _) => None
      end
  end.

(** ** Reference encoding *)

Definition width (n : Z) : nat := if n =? 2 then 2 else 4.

Definition body (c : Cell) : bytes :=
  if IsVariableLength (Command c)
  then PutUint16 (len (Payload c)) ++ Payload c
  else Payload c ++ zeros (PayloadLen - length (Payload c)).

Definition wire (n : Z) (c : Cell) : bytes :=
  be_put (width n) (CircID c) ++ [Command c] ++ body c.

(** What a receiver sees: a fixed cell arrives padded to [PayloadLen]. *)
Definition padded (c : Cell) : Cell :=
  if IsVariableLength (Command c) then c
  else mkCell (CircID c) (Command c) (Payload c ++ zeros (PayloadLen - length (Payload c))).

(** The cells the protocol can carry with circuit ids of [n] bytes. *)
Definition max_payload (c : Cell) : Z :=
  if IsVariableLength (Command c) then MaxUint16 else Z.of_nat PayloadLen.

Definition cell_wf (n : Z) (c : Cell) : Prop :=
  (n = 2 \/ n = 4) /\ is_u (8 * n) (CircID c) /\ is_byte (Command c) /\
  Forall is_byte (Payload c) /\ len (Payload c) <= max_payload c.

Global Instance cell_eq_dec : EqDecision Cell.
Proof. solve_decision. Defined.
Global Instance cell_wf_dec n c : Decision (cell_wf n c).
Proof. unfold cell_wf. apply _. Defined.

(** ** Lemmas *)

Lemma width_cases n : n = 2 \/ n = 4 -> Z.of_nat (width n) = n.
Proof. by intros [-> | ->]. Qed.

Lemma length_body c :
  len (Payload c) <= max_payload c ->
  length (body c) =
    if IsVariableLength (Command c) then (2 + length (Payload c))%nat else PayloadLen.
Proof. unfold max_payload, body. case_if; intros; lens. Qed.

Lemma emit_buffer e p (w : bytes) : emit e p w = (w ++ p, None).
Proof. done. Qed.

Lemma EncodeLink_wire n c (out : bytes) :
  cell_wf n c -> EncodeLink c out n = (out ++ wire n c, None).
Proof.
  intros (Hn & Hid & _ & _ & Hp). unfold EncodeLink, wire, body, max_payload in *.
  assert (be_put (width n) (CircID c) =
    if n =? 2 then PutUint16 (Uint32ToUint16 (CircID c)) else PutUint32 (CircID c)) as ->.
  { destruct Hn as [-> | ->]; [|done]. simpl.
    by rewrite Uint32ToUint16_id by (unfold is_u in Hid; simpl in Hid; word). }
  assert (negb (n =? 2) && negb (n =? 4) = false) as -> by (destruct Hn as [-> | ->]; done).
  assert ((n =? 2) && (65535 <? CircID c) = false) as Hex.
  { destruct Hn as [-> | ->]; [|done]. apply Z.ltb_ge. unfold is_u in Hid; simpl in Hid; lia. }
  assert ((if n =? 2 then if 65535 <? CircID c then (out, Some (ErrCircIDExceeds (CircID c)))
     else emit ErrWriteCircID (PutUint16 (Uint32ToUint16 (CircID c))) out
     else emit ErrWriteCircID (PutUint32 (CircID c)) out) =
     (out ++ (if n =? 2 then PutUint16 (Uint32ToUint16 (CircID c)) else PutUint32 (CircID c)), None))
    as -> by (destruct (n =? 2); [simpl in Hex; by rewrite Hex | done]).
  destruct (IsVariableLength (Command c)) eqn:Hv; cbn [andThen]; rewrite emit_buffer; cbn [andThen].
  - rewrite SafeLenToUint16_small, !emit_buffer by done. cbn [andThen].
    by rewrite emit_buffer, <- !app_assoc.
  - rewrite (proj2 (Z.ltb_ge _ _) Hp), emit_buffer. cbn [andThen].
    destruct (PayloadLen - length (Payload c))%nat eqn:El; cbn [Nat.ltb Nat.leb];
      rewrite ?emit_buffer, <- !app_assoc; [|done].
    by rewrite app_nil_r.
Qed.

Lemma reading_app {A} n e l rest (k : bytes -> bytes -> result error A * bytes) :
  length l = n -> reading n e (l ++ rest) k = k l rest.
Proof. intros. unfold reading. by rewrite read_full_app. Qed.

Lemma reading_ok {A} n e r (k : bytes -> bytes -> result error A * bytes) a rest :
  reading n e r k = (Ok a, rest) ->
  exists p r', r = p ++ r' /\ length p = n /\ k p r' = (Ok a, rest).
Proof.
  unfold reading. destruct (read_full n r) as [[p|] r'] eqn:E; intros; [|done].
  apply read_full_some in E as [-> ?]. eauto.
Qed.

Lemma DecodeCellLink_wire n c rest :
  cell_wf n c -> DecodeCellLink (wire n c ++ rest) n = (Ok (padded c), rest).
Proof.
  intros (Hn & Hid & Hc & Hb & Hp). unfold DecodeCellLink, wire, body, padded, max_payload in *.
  assert (negb (n =? 2) && negb (n =? 4) = false) as -> by (destruct Hn as [-> | ->]; done).
  change (if n =? 2 then 2%nat else 4%nat) with (width n).
  rewrite <- !app_assoc, reading_app by apply length_be_put.
  rewrite reading_app, be_get_single by done.
  rewrite be_get_put_id by (rewrite width_cases by done; apply Hid).
  pose proof (len_nonneg (Payload c)).
  destruct (IsVariableLength (Command c)).
  - rewrite <- !app_assoc, reading_app by apply length_be_put.
    unfold PutUint16. rewrite be_get_put_id by (vm_compute (2 ^ _); unfold MaxUint16 in Hp; lia).
    rewrite reading_app by (unfold len; lia). by destruct c.
  - rewrite reading_app by lens. done.
Qed.

Lemma IsVariableLength_range c : IsVariableLength c = false -> c < 128.
Proof. unfold IsVariableLength. intros. bool_to_prop. lia. Qed.

Lemma DecodeCellLink_inv n r c rest :
  Forall is_byte r -> DecodeCellLink r n = (Ok c, rest) ->
  cell_wf n c /\ padded c = c /\ r = wire n c ++ rest.
Proof.
  unfold DecodeCellLink. intros Hr H. case_if; [done|].
  assert (n = 2 \/ n = 4) as Hn.
  { destruct (Z.eqb_spec n 2), (Z.eqb_spec n 4); auto; done. }
  change (if n =? 2 then 2%nat else 4%nat) with (width n) in H.
  apply reading_ok in H as (id & r1 & -> & Hid & H). apply Forall_app in Hr as [Hbid Hr].
  apply reading_ok in H as (cmd & r2 & -> & Hcmd & H). apply Forall_app in Hr as [Hbc Hr].
  destruct cmd as [|b [|]]; try done. apply Forall_cons in Hbc as [Hb _].
  rewrite be_get_single in H by done.
  pose proof (be_get_range id Hbid) as Hrange. unfold len in Hrange. rewrite Hid in Hrange.
  rewrite width_cases in Hrange by done.
  destruct (IsVariableLength b) eqn:Hv.
  - apply reading_ok in H as (l & r3 & -> & Hl & H). apply Forall_app in Hr as [Hbl Hr].
    pose proof (be_get_range l Hbl) as Hlr. unfold len in Hlr. rewrite Hl in Hlr. simpl in Hlr.
    apply reading_ok in H as (p & r4 & -> & Hp & H). apply Forall_app in Hr as [Hbp Hr].
    simplify_eq. unfold cell_wf, padded, wire, body, max_payload; cbn [CircID Command Payload]; rewrite Hv.
    assert (len p = be_get l) as Hlen by (unfold len; rewrite Hp; lia).
    split; [split_and!; auto; unfold MaxUint16; lia|].
    split; [done|]. unfold PutUint16. rewrite Hlen, !be_put_get_len by done.
    by rewrite <- !app_assoc.
  - apply reading_ok in H as (p & r3 & -> & Hp & H). apply Forall_app in Hr as [Hbp Hr].
    simplify_eq. unfold cell_wf, padded, wire, body, max_payload, len; cbn [CircID Command Payload]; rewrite Hv, Hp.
    split; [split_and!; auto; lia|].
    replace (PayloadLen - PayloadLen)%nat with O by done. change (zeros 0) with (@nil Z).
    rewrite !app_nil_r. split; [done|]. rewrite be_put_get_len by done.
    by rewrite <- !app_assoc.
Qed.

(** What sending [data] through a breaking connection leaves behind. *)
Definition sent (w : limited) (data : bytes) (m : limited * option error) : Prop :=
  lw_out (fst m) = lw_out w ++ take (lw_room w) data /\
  lw_room (fst m) = (lw_room w - length data)%nat /\
  (snd m = None <-> (length data <= lw_room w)%nat).

Lemma sent_emit e p (w : limited) : sent w p (emit e p w).
Proof.
  unfold sent, emit; simpl. case_decide; simpl.
  - rewrite take_ge by lia. done.
  - split; [done|]. split; [lia|]. split; [done | lia].
Qed.

Lemma sent_nil (w : limited) : sent w [] (w, None).
Proof. unfold sent; simpl. rewrite take_nil, app_nil_r. split_and!; [done | lia | split; [lia|done]]. Qed.

Lemma sent_andThen w p q m k :
  sent w p m -> (forall w', sent w' q (k w')) -> sent w (p ++ q) (andThen m k).
Proof.
  destruct m as [w1 [e|]]; unfold sent; simpl; intros (Ho & Hr & Hok) Hk.
  - assert (lw_room w < length p)%nat by (destruct (decide (length p <= lw_room w)%nat); [naive_solver | lia]).
    rewrite take_app_le, length_app by lia. split_and!; [done | lia |]. split; [done | lia].
  - destruct (Hk w1) as (Ho' & Hr' & Hok').
    assert (length p <= lw_room w)%nat by naive_solver.
    rewrite Ho', Hr', Hok', Ho, Hr, take_app_ge, take_ge, <- app_assoc by lia.
    rewrite !length_app. split_and!; [done | lia | lia].
Qed.

Lemma EncodeLink_sent n c (w : limited) : cell_wf n c -> sent w (wire n c) (EncodeLink c w n).
Proof.
  intros (Hn & Hid & _ & _ & Hp). unfold EncodeLink, wire, max_payload in *.
  assert (negb (n =? 2) && negb (n =? 4) = false) as -> by (destruct Hn as [-> | ->]; done).
  apply sent_andThen.
  - destruct Hn as [-> | ->]; [|apply sent_emit]. simpl (2 =? 2). cbv iota.
    unfold is_u in Hid; simpl in Hid.
    rewrite (proj2 (Z.ltb_ge _ _)), Uint32ToUint16_id by (unfold MaxUint16; lia). apply sent_emit.
  - intros w1. apply sent_andThen; [apply sent_emit|]. intros w2. unfold body.
    destruct (IsVariableLength (Command c)).
    + rewrite SafeLenToUint16_small by done.
      apply sent_andThen; [apply sent_emit|]. intros w3. apply sent_emit.
    + rewrite (proj2 (Z.ltb_ge _ _) Hp). apply sent_andThen; [apply sent_emit|]. intros w3.
      destruct (PayloadLen - length (Payload c))%nat; simpl; [apply sent_nil | apply sent_emit].
Qed.

(** ** Properties *)

(** C26: Encoding a well-formed cell to a buffer succeeds and appends a byte
    string from which decoding, whatever follows it on the connection, gives
    back the cell (a fixed-size cell padded with zeros to 509 bytes) and leaves
    exactly what followed, for both circuit-id widths and both cell formats. *)
Theorem cell_roundtrip n c (out rest : bytes) :
  cell_wf n c ->
  exists image, EncodeLink c out n = (out ++ image, None) /\
    DecodeCellLink (image ++ rest) n = (Ok (padded c), rest).
Proof.
  intros Hc. exists (wire n c). split; [by apply EncodeLink_wire | by apply DecodeCellLink_wire].
Qed.

Definition sample_fixed : Cell := mkCell 77 CmdRelay [1; 2; 3].
Definition sample_var : Cell := mkCell 0 CmdVersions [0; 4; 0; 5].

Lemma cell_roundtrip_witness :
  (exists image, EncodeLink sample_fixed [9] 4 = ([9] ++ image, None) /\
     DecodeCellLink (image ++ [1]) 4 = (Ok (padded sample_fixed), [1])) /\
  (exists image, EncodeLink sample_var [] 2 = ([] ++ image, None) /\
     DecodeCellLink (image ++ []) 2 = (Ok (padded sample_var), [])).
Proof.
  split.
  - apply (cell_roundtrip 4 sample_fixed [9] [1]).
    apply (bool_decide_unpack _). vm_compute. exact I.
  - apply (cell_roundtrip 2 sample_var [] []).
    apply (bool_decide_unpack _). vm_compute. exact I.
Defined.

(** The encoding is canonical: whenever decoding any input bytes succeeds,
    the cell is well-formed, and re-encoding it reproduces exactly the bytes
    that were consumed. *)
Theorem cell_decode_canonical n r c rest :
  Forall is_byte r -> DecodeCellLink r n = (Ok c, rest) ->
  cell_wf n c /\ exists image, EncodeLink c ([] : bytes) n = (image, None) /\ r = image ++ rest.
Proof.
  intros Hr H. destruct (DecodeCellLink_inv _ _ _ _ Hr H) as (Hwf & _ & ->).
  split; [done|]. exists (wire n c). split; [by apply EncodeLink_wire | done].
Qed.

Lemma cell_decode_canonical_witness :
  cell_wf 2 sample_var /\ exists image, EncodeLink sample_var ([] : bytes) 2 = (image, None) /\
    [0; 0; 7; 0; 4; 0; 4; 0; 5; 42] = image ++ [42].
Proof.
  apply (cell_decode_canonical 2 [0; 0; 7; 0; 4; 0; 4; 0; 5; 42] sample_var [42]).
  - apply (bool_decide_unpack _). vm_compute. exact I.
  - vm_compute. reflexivity.
Defined.

(** A connection that ends inside a cell never yields a cell: every strict
    prefix of an encoded cell is rejected by the decoder. *)
Theorem cell_truncation_rejected n c r missing :
  cell_wf n c -> wire n c = r ++ missing -> missing <> [] ->
  exists e, fst (DecodeCellLink r n) = Err e.
Proof.
  intros Hc Hw Hm. destruct (DecodeCellLink r n) as [[c'|e] rest] eqn:E; [|eauto].
  exfalso. assert (Forall is_byte r) as Hr.
  { enough (Forall is_byte (r ++ missing)) by (by apply Forall_app in H as []).
    rewrite <- Hw. unfold wire, body. destruct Hc as (_ & _ & ? & ? & _).
    case_if; auto 10 with gotor. }
  destruct (DecodeCellLink_inv _ _ _ _ Hr E) as (Hwf & _ & ->).
  pose proof (DecodeCellLink_wire n c [] Hc) as H1. rewrite app_nil_r, Hw, <- app_assoc in H1.
  rewrite (DecodeCellLink_wire n c' _ Hwf) in H1. simplify_eq.
  by destruct rest.
Qed.

Lemma cell_truncation_rejected_witness :
  exists e, fst (DecodeCellLink [0; 0; 7; 0; 4; 0] 2) = Err e.
Proof.
  apply (cell_truncation_rejected 2 sample_var [0; 0; 7; 0; 4; 0] [4; 0; 5]).
  - apply (bool_decide_unpack _). vm_compute. exact I.
  - vm_compute. reflexivity.
  - discriminate.
Defined.

(** Framing: the bytes of a sequence of well-formed cells written one after
    the other are decoded by the receive loop to that same sequence, one step
    per cell, and nothing is left over. *)
Theorem cell_stream_framing n cs fuel :
  Forall (cell_wf n) cs -> (length cs <= fuel)%nat ->
  decode_stream fuel n (concat (map (wire n) cs)) = Some (map padded cs).
Proof.
  revert fuel. induction cs as [|c cs IH]; intros fuel Hcs Hf; [by destruct fuel|].
  apply Forall_cons in Hcs as [Hc Hcs]. destruct fuel as [|fuel]; [simpl in Hf; lia|].
  cbn [map concat].
  assert (exists b l, wire n c ++ concat (map (wire n) cs) = b :: l) as (b & l & Hbl).
  { unfold wire. destruct Hc as ([-> | ->] & _); simpl; eauto. }
  rewrite Hbl. cbn [decode_stream]. rewrite <- Hbl, DecodeCellLink_wire by done.
  rewrite IH by (done || simpl in Hf; lia). done.
Qed.

Lemma cell_stream_framing_witness :
  decode_stream 2 4 (concat (map (wire 4) [sample_fixed; sample_var])) = Some (map padded [sample_fixed; sample_var]).
Proof.
  apply (cell_stream_framing 4 [sample_fixed; sample_var] 2).
  - apply (bool_decide_unpack _). vm_compute. exact I.
  - simpl. lia.
Defined.

(** Encoding onto a connection that breaks after [room] more bytes puts
    exactly the first [room] bytes of the cell's image on the wire, and reports
    success precisely when the whole image fitted. *)
Theorem cell_encode_partial_write n c (w : limited) :
  cell_wf n c ->
  lw_out (fst (EncodeLink c w n)) = lw_out w ++ take (lw_room w) (wire n c) /\
  (snd (EncodeLink c w n) = None <-> (length (wire n c) <= lw_room w)%nat).
Proof. intros Hc. by destruct (EncodeLink_sent n c w Hc) as (? & _ & ?). Qed.

Lemma cell_encode_partial_write_witness :
  lw_out (fst (EncodeLink sample_var {| lw_out := [8]; lw_room := 3 |} 2)) =
    [8] ++ take 3 (wire 2 sample_var) /\
  (snd (EncodeLink sample_var {| lw_out := [8]; lw_room := 3 |} 2) = None <->
     (length (wire 2 sample_var) <= 3)%nat).
Proof.
  apply (cell_encode_partial_write 2 sample_var {| lw_out := [8]; lw_room := 3 |}).
  apply (bool_decide_unpack _). vm_compute. exact I.
Defined.

(** What encoding does with a cell it cannot carry.  A bad circuit-id width
    and a circuit id too large for two bytes are refused before anything is
    written; a payload that exceeds the limit of its format is refused only
    after the circuit id and the command have gone out, so the stream is left
    inside a cell. *)
Theorem cell_encode_refusals n c (out : bytes) :
  is_u 32 (CircID c) ->
  (n <> 2 -> n <> 4 -> EncodeLink c out n = (out, Some (ErrInvalidCircIDLen n))) /\
  (n = 2 -> MaxUint16 < CircID c -> EncodeLink c out n = (out, Some (ErrCircIDExceeds (CircID c)))) /\
  (n = 4 -> max_payload c < len (Payload c) ->
     exists e, EncodeLink c out n = (out ++ PutUint32 (CircID c) ++ [Command c], Some e)).
Proof.
  intros Hid. unfold EncodeLink. split_and!.
  - intros H2 H4. by rewrite (proj2 (Z.eqb_neq _ _) H2), (proj2 (Z.eqb_neq _ _) H4).
  - intros -> H. simpl (negb _ && _). cbv iota. simpl (2 =? 2). cbv iota.
    by rewrite (proj2 (Z.ltb_lt _ _)) by done.
  - intros -> H. simpl (negb _ && _). simpl (4 =? 2). cbv iota. unfold max_payload in H.
    rewrite emit_buffer. cbn [andThen]. rewrite emit_buffer. cbn [andThen].
    destruct (IsVariableLength (Command c)).
    + rewrite SafeLenToUint16_large by done. rewrite <- app_assoc. eauto.
    + rewrite (proj2 (Z.ltb_lt _ _) H), <- app_assoc. eauto.
Qed.

Definition sample_big : Cell := mkCell 5 CmdRelay (zeros 600).

Lemma cell_encode_refusals_witness :
  exists e, EncodeLink sample_big ([] : bytes) 4 = ([] ++ PutUint32 5 ++ [CmdRelay], Some e).
Proof.
  apply (cell_encode_refusals 4 sample_big []); [vm_compute; by split | done | vm_compute; done].
Defined.

(** The printed names of the commands are unambiguous: two command bytes
    with the same name are equal. *)
Theorem command_string_injective (a b : Z) :
  is_byte a -> is_byte b -> String a = String b -> a = b.
Proof.
  intros Ha Hb H.
  assert (NoDup (map (fun i => String (Z.of_nat i)) (seq 0 256))) as Hnd.
  { apply (bool_decide_unpack _). vm_compute. exact I. }
  assert (forall v, is_byte v -> map (fun i => String (Z.of_nat i)) (seq 0 256) !! Z.to_nat v = Some (String v)) as Hl.
  { intros v Hv. unfold is_byte in Hv. rewrite list_lookup_fmap, lookup_seq_lt by lia. simpl.
    by rewrite Z2Nat.id by lia. }
  enough (Z.to_nat a = Z.to_nat b) by (unfold is_byte in *; lia).
  eapply NoDup_lookup; [exact Hnd | by apply Hl | rewrite H; by apply Hl].
Qed.

Lemma command_string_injective_witness : CmdCerts = 129.
Proof.
  apply (command_string_injective CmdCerts 129); vm_compute; by split || done.
Defined.

End Cell.
