(* ===== verification/RelayCell.v ===== *)
(** * Relay cells (pkg/cell/relay.go, pkg/cell/relay_v1.go)

    The payload of RELAY and RELAY_EARLY cells in the two formats the program
    speaks: the classic 11-byte header (v0) and the CGO message format of
    proposal 340 (v1).  Encoders fill a zeroed 509-byte buffer with the same
    sequence of writes as the code; [v0_image] and [v1_image] are the reference
    layouts they are shown to produce. *)

From S2P Require Import Prelude Conversion Cell.
Import Conversion.

Module RelayCell.

Definition PayloadLen : nat := Cell.PayloadLen.

(** ** Relay commands *)

Definition RelayBegin : Z := 1.
Definition RelayData : Z := 2.
Definition RelayEnd : Z := 3.
Definition RelayConnected : Z := 4.
Definition RelaySendme : Z := 5.
Definition RelayExtend : Z := 6.
Definition RelayExtended : Z := 7.
Definition RelayTruncate : Z := 8.
Definition RelayTruncated : Z := 9.
Definition RelayDrop : Z := 10.
Definition RelayResolve : Z := 11.
Definition RelayResolved : Z := 12.
Definition RelayBeginDir : Z := 13.
Definition RelayExtend2 : Z := 14.
Definition RelayExtended2 : Z := 15.
Definition RelayConfluxLink : Z := 19.
Definition RelayConfluxLinked : Z := 20.
Definition RelayConfluxLinkedAck : Z := 21.
Definition RelayConfluxSwitch : Z := 22.
Definition RelayEstablishIntro : Z := 32.
Definition RelayEstablishRendezvous : Z := 33.
Definition RelayIntroduce1 : Z := 34.
Definition RelayIntroduce2 : Z := 35.
Definition RelayRendezvous1 : Z := 36.
Definition RelayRendezvous2 : Z := 37.
Definition RelayIntroEstablished : Z := 38.
Definition RelayRendezvousEstablished : Z := 39.
Definition RelayIntroduceAck : Z := 40.
Definition RelayPaddingNegotiate : Z := 41.
Definition RelayPaddingNegotiated : Z := 42.
Definition RelayXon : Z := 43.
Definition RelayXoff : Z := 44.

Definition RelayCmdString (cmd : Z) : string :=
  if cmd =? RelayBegin then "RELAY_BEGIN"
  else if cmd =? RelayData then "RELAY_DATA"
  else if cmd =? RelayEnd then "RELAY_END"
  else if cmd =? RelayConnected then "RELAY_CONNECTED"
  else if cmd =? RelaySendme then "RELAY_SENDME"
  else if cmd =? RelayExtend then "RELAY_EXTEND"
  else if cmd =? RelayExtended then "RELAY_EXTENDED"
  else if cmd =? RelayTruncate then "RELAY_TRUNCATE"
  else if cmd =? RelayTruncated then "RELAY_TRUNCATED"
  else if cmd =? RelayDrop then "RELAY_DROP"
  else if cmd =? RelayResolve then "RELAY_RESOLVE"
  else if cmd =? RelayResolved then "RELAY_RESOLVED"
  else if cmd =? RelayBeginDir then "RELAY_BEGIN_DIR"
  else if cmd =? RelayExtend2 then "RELAY_EXTEND2"
  else if cmd =? RelayExtended2 then "RELAY_EXTENDED2"
  else if cmd =? RelayConfluxLink then "RELAY_CONFLUX_LINK"
  else if cmd =? RelayConfluxLinked then "RELAY_CONFLUX_LINKED"
  else if cmd =? RelayConfluxLinkedAck then "RELAY_CONFLUX_LINKED_ACK"
  else if cmd =? RelayConfluxSwitch then "RELAY_CONFLUX_SWITCH"
  else if cmd =? RelayPaddingNegotiate then "RELAY_PADDING_NEGOTIATE"
  else if cmd =? RelayPaddingNegotiated then "RELAY_PADDING_NEGOTIATED"
  else "RELAY_UNKNOWN(" +:+ pretty cmd +:+ ")".

Definition EndReasonMisc : Z := 1.
Definition EndReasonResolveFailed : Z := 2.
Definition EndReasonConnRefused : Z := 3.
Definition EndReasonExitPolicy : Z := 4.
Definition EndReasonDestroy : Z := 5.
Definition EndReasonDone : Z := 6.
Definition EndReasonTimeout : Z := 7.
Definition EndReasonNoRoute : Z := 8.
Definition EndReasonHibernating : Z := 9.
Definition EndReasonInternal : Z := 10.
Definition EndReasonResourceLimit : Z := 11.
Definition EndReasonConnReset : Z := 12.
Definition EndReasonProtocol : Z := 13.
Definition EndReasonNotDirectory : Z := 14.

(** ** The v0 format *)

Record RelayCell := mkRelayCell {
  Command : Z;
  Recognized : Z;
  StreamID : Z;
  Digest : bytes;
  Length : Z;
  Data : bytes;
}.

Definition set_Length (rc : RelayCell) (l : Z) : RelayCell :=
  mkRelayCell (Command rc) (Recognized rc) (StreamID rc) (Digest rc) l (Data rc).

Definition RelayCellHeaderLen : nat := 11.

Inductive error :=
| ErrDataTooLarge (n : Z)
| ErrLength (e : Conversion.error)
| ErrPayloadTooShort (n : Z)
| ErrLengthExceedsMax (n : Z)
| ErrLengthExceedsPayload (n : Z)
| ErrV1NeedsStreamID (cmd : Z)
| ErrV1ForbidsStreamID (cmd : Z)
| ErrV1DoesNotFit (n : Z).

Definition maxDataLen : Z := Z.of_nat (PayloadLen - RelayCellHeaderLen).

Definition lift_conv {A} (r : result Conversion.error A) : result error A :=
  match r with Ok a => Ok a | Err e => Err (ErrLength e) end.

Definition NewRelayCell (streamID cmd : Z) (data : bytes) : result error RelayCell :=
  if maxDataLen <? len data then Err (ErrDataTooLarge (len data))
  else
    let? length := lift_conv (SafeLenToUint16 data) in
    Ok (mkRelayCell cmd 0 streamID [0; 0; 0; 0] length data).

Lemma NewRelayCell_ok streamID cmd data :
  len data <= maxDataLen ->
  NewRelayCell streamID cmd data = Ok (mkRelayCell cmd 0 streamID [0; 0; 0; 0] (len data) data).
Proof.
  intros Hl. unfold NewRelayCell. rewrite (proj2 (Z.ltb_ge _ _)) by done.
  rewrite SafeLenToUint16_small; [done|]. transitivity maxDataLen; [done | by vm_compute].
Qed.

(** [rc.Encode()]: the payload, and the receiver with its [Length] updated. *)
Definition Encode (rc : RelayCell) : result error (bytes * RelayCell) :=
  if maxDataLen <? len (Data rc) then Err (ErrDataTooLarge (len (Data rc)))
  else
    let payload := zeros PayloadLen in
    let? length := lift_conv (SafeLenToUint16 (Data rc)) in
    let rc := set_Length rc length in
    let payload := copy_at payload 0 [Command rc] in
    let payload := copy_at payload 1 (PutUint16 (Recognized rc)) in
    let payload := copy_at payload 3 (PutUint16 (StreamID rc)) in
    let payload := copy_at payload 5 (Digest rc) in
    let payload := copy_at payload 9 (PutUint16 (Length rc)) in
    let payload := copy_at payload 11 (Data rc) in
    Ok (payload, rc).

Definition DecodeRelayCell (payload : bytes) : result error RelayCell :=
  if len payload <? Z.of_nat RelayCellHeaderLen then Err (ErrPayloadTooShort (len payload))
  else
    let command := at_ payload 0 in
    let recognized := be_get (slice payload 1 3) in
    let streamID := be_get (slice payload 3 5) in
    let length := be_get (slice payload 9 11) in
    let digest := slice payload 5 9 in
    if maxDataLen <? length then Err (ErrLengthExceedsMax length)
    else if len payload - Z.of_nat RelayCellHeaderLen <? length
    then Err (ErrLengthExceedsPayload length)
    else
      let data := if 0 <? length then slice payload 11 (Z.to_nat (11 + length)) else [] in
      Ok (mkRelayCell command recognized streamID digest length data).

(** ** The v1 format *)

Definition v1CmdOffset : nat := 16.
Definition v1LenOffset : nat := 17.
Definition v1StreamIDOffset : nat := 19.
Definition v1PayloadNoStreamID : nat := 19.
Definition v1PayloadWithStreamID : nat := 21.
Definition RelayHeaderSizeV1NoStreamID : nat := 19.
Definition RelayHeaderSizeV1WithStreamID : nat := 21.

Definition RelayCmdExpectsStreamID (cmd : Z) : bool :=
  existsb (Z.eqb cmd)
    [RelayBegin; RelayData; RelayEnd; RelayConnected;
     RelayResolve; RelayResolved; RelayBeginDir; RelayXon; RelayXoff].

Definition RelayCellMaxDataV1 (cmd : Z) : Z :=
  if RelayCmdExpectsStreamID cmd
  then Z.of_nat (PayloadLen - RelayHeaderSizeV1WithStreamID)
  else Z.of_nat (PayloadLen - RelayHeaderSizeV1NoStreamID).

Definition v1_offset (cmd : Z) : nat :=
  if RelayCmdExpectsStreamID cmd then v1PayloadWithStreamID else v1PayloadNoStreamID.

Definition EncodeRelayCellV1 (rc : RelayCell) : result error (bytes * RelayCell) :=
  let payload := zeros PayloadLen in
  let? (payload, off) :=
    if RelayCmdExpectsStreamID (Command rc) then
      if StreamID rc =? 0 then Err (ErrV1NeedsStreamID (Command rc))
      else Ok (copy_at payload v1StreamIDOffset (PutUint16 (StreamID rc)), v1PayloadWithStreamID)
    else if negb (StreamID rc =? 0) then Err (ErrV1ForbidsStreamID (Command rc))
    else Ok (payload, v1PayloadNoStreamID) in
  let? length := lift_conv (SafeLenToUint16 (Data rc)) in
  if Z.of_nat PayloadLen <? Z.of_nat off + length then Err (ErrV1DoesNotFit length)
  else
    let payload := copy_at payload v1CmdOffset [Command rc] in
    let payload := copy_at payload v1LenOffset (PutUint16 length) in
    let payload := copy_at payload off (Data rc) in
    Ok (payload, set_Length rc length).

Definition DecodeRelayCellV1 (payload : bytes) : result error RelayCell :=
  if len payload <? Z.of_nat PayloadLen then Err (ErrPayloadTooShort (len payload))
  else
    let command := at_ payload v1CmdOffset in
    let length := be_get (slice payload v1LenOffset (v1LenOffset + 2)) in
    let '(streamID, off) :=
      if RelayCmdExpectsStreamID command
      then (be_get (slice payload v1StreamIDOffset (v1StreamIDOffset + 2)), v1PayloadWithStreamID)
      else (0, v1PayloadNoStreamID) in
    if len payload - Z.of_nat off <? length then Err (ErrLengthExceedsPayload length)
    else
      let data := if 0 <? length then slice payload off (off + Z.to_nat length) else [] in
      Ok (mkRelayCell command 0 streamID [0; 0; 0; 0] length data).

Definition V1MessageEnd (payload : bytes) : Z :=
  if len payload <? Z.of_nat v1PayloadNoStreamID then len payload
  else
    let cmd := at_ payload v1CmdOffset in
    let length := be_get (slice payload v1LenOffset (v1LenOffset + 2)) in
    let off := if RelayCmdExpectsStreamID cmd then v1PayloadWithStreamID else v1PayloadNoStreamID in
    let end_ := Z.of_nat off + length in
    if len payload <? end_ then len payload else end_.

(** ** Reference layouts *)

Definition v0_image (rc : RelayCell) : bytes :=
  [Command rc] ++ PutUint16 (Recognized rc) ++ PutUint16 (StreamID rc) ++ Digest rc ++
  PutUint16 (len (Data rc)) ++ Data rc ++ zeros (498 - length (Data rc)).

Definition v1_header (rc : RelayCell) : bytes :=
  zeros 16 ++ [Command rc] ++ PutUint16 (len (Data rc)) ++
  (if RelayCmdExpectsStreamID (Command rc) then PutUint16 (StreamID rc) else []).

Definition v1_image (rc : RelayCell) : bytes :=
  v1_header rc ++ Data rc ++ zeros (PayloadLen - v1_offset (Command rc) - length (Data rc)).

Definition header_wf (rc : RelayCell) : Prop :=
  is_byte (Command rc) /\ is_u 16 (Recognized rc) /\ is_u 16 (StreamID rc) /\
  length (Digest rc) = 4%nat /\ Forall is_byte (Digest rc) /\ Forall is_byte (Data rc).

Definition v0_wf (rc : RelayCell) : Prop := header_wf rc /\ len (Data rc) <= maxDataLen.

(** A v1 message carries no digest and no recognized field. *)
Definition v1_wf (rc : RelayCell) : Prop :=
  header_wf rc /\ Recognized rc = 0 /\ Digest rc = [0; 0; 0; 0] /\
  len (Data rc) <= RelayCellMaxDataV1 (Command rc) /\
  (StreamID rc <> 0 <-> RelayCmdExpectsStreamID (Command rc) = true).

Global Instance relay_cell_eq_dec : EqDecision RelayCell.
Proof. solve_decision. Defined.
Global Instance header_wf_dec rc : Decision (header_wf rc).
Proof. unfold header_wf. apply _. Defined.
Global Instance v0_wf_dec rc : Decision (v0_wf rc).
Proof. unfold v0_wf. apply _. Defined.
Global Instance v1_wf_dec rc : Decision (v1_wf rc).
Proof. unfold v1_wf. apply _. Defined.

(** ** Lemmas *)

Lemma lift_SafeLen data :
  len data <= MaxUint16 -> lift_conv (SafeLenToUint16 data) = Ok (len data).
Proof. intros. by rewrite SafeLenToUint16_small. Qed.

Lemma Encode_image rc :
  length (Digest rc) = 4%nat -> len (Data rc) <= maxDataLen ->
  Encode rc = Ok (v0_image rc, set_Length rc (len (Data rc))).
Proof.
  intros Hd Hl. unfold Encode. rewrite (proj2 (Z.ltb_ge _ _) Hl).
  unfold maxDataLen in Hl; simpl in Hl.
  rewrite lift_SafeLen by (unfold MaxUint16; lia). cbn [result_bind].
  cbn [Command Recognized StreamID Digest Length Data set_Length].
  do 2 f_equal. unfold v0_image.
  change PayloadLen with 509%nat. fill. do 7 f_equal. lens.
Qed.

Lemma len_v0_image rc :
  length (Digest rc) = 4%nat -> len (Data rc) <= maxDataLen -> length (v0_image rc) = PayloadLen.
Proof.
  intros Hd Hl. change maxDataLen with 498 in Hl. change PayloadLen with 509%nat.
  unfold v0_image. lens.
Qed.

Lemma Decode_image rc :
  v0_wf rc -> DecodeRelayCell (v0_image rc) = Ok (set_Length rc (len (Data rc))).
Proof.
  intros ((Hc & Hr & Hs & Hd & _) & Hl). unfold DecodeRelayCell.
  pose proof (len_nonneg (Data rc)). assert (len (Data rc) <= 498) by done.
  assert (is_u 16 (len (Data rc))) by word.
  assert (len (v0_image rc) = 509) as -> by (unfold len; by rewrite len_v0_image).
  assert (be_get (slice (v0_image rc) 9 11) = len (Data rc)) as ->
    by (unfold v0_image; fields; by apply get_PutUint16).
  assert (slice (v0_image rc) 11 (Z.to_nat (11 + len (Data rc))) = Data rc) as ->.
  { unfold v0_image. rewrite !app_assoc, <- (app_assoc _ (Data rc)). apply slice_mid; lens. }
  rewrite (proj2 (Z.ltb_ge _ _)) by (vm_compute; done).
  unfold v0_image. fields. rewrite !get_PutUint16 by done.
  rewrite (proj2 (Z.ltb_ge _ _) Hl), (proj2 (Z.ltb_ge _ _))
    by (change (Z.of_nat RelayCellHeaderLen) with 11; lia).
  unfold set_Length. do 2 f_equal. case_if; bool_to_prop; [done|].
  symmetry. apply nil_length_inv. unfold len in *. lia.
Qed.

Lemma length_v1_header rc : length (v1_header rc) = v1_offset (Command rc).
Proof.
  unfold v1_header, v1_offset. case_if; unfold v1PayloadWithStreamID, v1PayloadNoStreamID; lens.
Qed.

Lemma MaxDataV1_offset cmd : RelayCellMaxDataV1 cmd = 509 - Z.of_nat (v1_offset cmd).
Proof. unfold RelayCellMaxDataV1, v1_offset. by case_if. Qed.

Lemma v1_offset_range cmd : (19 <= v1_offset cmd <= 21)%nat.
Proof. unfold v1_offset, v1PayloadWithStreamID, v1PayloadNoStreamID. case_if; lia. Qed.

Lemma len_v1_image rc :
  len (Data rc) <= RelayCellMaxDataV1 (Command rc) -> len (v1_image rc) = 509.
Proof.
  rewrite MaxDataV1_offset. intros Hl. unfold v1_image, len in *.
  rewrite !length_app, length_v1_header, length_zeros.
  change PayloadLen with 509%nat. pose proof (v1_offset_range (Command rc)). lia.
Qed.

Lemma EncodeV1_image rc :
  (StreamID rc <> 0 <-> RelayCmdExpectsStreamID (Command rc) = true) ->
  len (Data rc) <= RelayCellMaxDataV1 (Command rc) ->
  EncodeRelayCellV1 rc = Ok (v1_image rc, set_Length rc (len (Data rc))).
Proof.
  intros Hs Hl. rewrite MaxDataV1_offset in Hl.
  unfold EncodeRelayCellV1, v1_image, v1_header, v1_offset in *.
  assert (len (Data rc) <= 65535) by (destruct (RelayCmdExpectsStreamID _); simpl in Hl; lia).
  change PayloadLen with 509%nat. rewrite (zeros_split 16 509) by lia. simpl Nat.sub.
  unfold v1CmdOffset, v1LenOffset, v1StreamIDOffset, v1PayloadWithStreamID, v1PayloadNoStreamID in *.
  destruct (RelayCmdExpectsStreamID (Command rc)).
  - assert (StreamID rc =? 0 = false) as -> by (apply Z.eqb_neq; by apply Hs).
    cbn [result_bind]. rewrite lift_SafeLen by done. cbn [result_bind].
    rewrite (proj2 (Z.ltb_ge _ _)) by (simpl in *; lia). do 2 f_equal.
    rewrite (copy_at_comm _ [Command rc]) by lens.
    rewrite (copy_at_comm _ (PutUint16 (len (Data rc)))) by (rewrite ?length_copy_at; lens).
    rewrite copy_at_zeros by lens. rewrite !app_assoc. do 3 rewrite copy_at_zeros, !app_assoc by lens.
    f_equal.
  - assert (negb (StreamID rc =? 0) = false) as ->.
    { apply negb_false_iff, Z.eqb_eq. destruct (decide (StreamID rc = 0)); naive_solver. }
    cbn [result_bind]. rewrite lift_SafeLen by done. cbn [result_bind].
    rewrite (proj2 (Z.ltb_ge _ _)) by (simpl in *; lia). do 2 f_equal.
    rewrite copy_at_zeros by lens. rewrite !app_assoc. do 2 rewrite copy_at_zeros, !app_assoc by lens.
    rewrite app_nil_r. f_equal.
Qed.

Lemma at_v1_command rc : at_ (v1_image rc) 16 = Command rc.
Proof. unfold v1_image, v1_header. rewrite <- !app_assoc. by fields. Qed.

Lemma v1_image_length_field rc :
  is_u 16 (len (Data rc)) -> be_get (slice (v1_image rc) 17 19) = len (Data rc).
Proof.
  intros. unfold v1_image, v1_header. rewrite <- !app_assoc. fields. by apply get_PutUint16.
Qed.

Lemma v1_image_data rc :
  slice (v1_image rc) (v1_offset (Command rc))
    (v1_offset (Command rc) + Z.to_nat (len (Data rc))) = Data rc.
Proof.
  unfold v1_image, len. rewrite Nat2Z.id.
  apply slice_mid; rewrite length_v1_header; lia.
Qed.

Lemma DecodeV1_image rc :
  v1_wf rc -> DecodeRelayCellV1 (v1_image rc) = Ok (set_Length rc (len (Data rc))).
Proof.
  intros ((Hc & _ & Hs & _) & Hr & Hd & Hl & Hsid).
  unfold DecodeRelayCellV1. rewrite len_v1_image by done. rewrite MaxDataV1_offset in Hl.
  pose proof (len_nonneg (Data rc)). pose proof (v1_offset_range (Command rc)).
  change (509 <? Z.of_nat PayloadLen) with false. cbv iota.
  change v1CmdOffset with 16%nat. rewrite at_v1_command.
  change (v1LenOffset + 2)%nat with 19%nat. change v1LenOffset with 17%nat.
  rewrite v1_image_length_field by word.
  assert ((if RelayCmdExpectsStreamID (Command rc)
     then (be_get (slice (v1_image rc) v1StreamIDOffset (v1StreamIDOffset + 2)), v1PayloadWithStreamID)
     else (0, v1PayloadNoStreamID)) = (StreamID rc, v1_offset (Command rc))) as ->.
  { unfold v1_offset, v1_image, v1_header. rewrite <- !app_assoc.
    destruct (RelayCmdExpectsStreamID (Command rc)).
    - f_equal. change (v1StreamIDOffset + 2)%nat with 21%nat. change v1StreamIDOffset with 19%nat.
      fields. by apply get_PutUint16.
    - f_equal. destruct (decide (StreamID rc = 0)); naive_solver. }
  rewrite (proj2 (Z.ltb_ge _ _)) by lia. rewrite v1_image_data.
  unfold set_Length. rewrite Hr, Hd. do 2 f_equal. case_if; bool_to_prop; [done|].
  symmetry. apply nil_length_inv. unfold len in *. lia.
Qed.

(** ** Properties *)

(** A relay cell with a well-formed header and at most 498 bytes of data
    encodes to a 509-byte payload that decodes to the same cell, with [Length]
    set to the length of the data. *)
Theorem relay_v0_roundtrip rc :
  v0_wf rc ->
  exists payload, Encode rc = Ok (payload, set_Length rc (len (Data rc))) /\
    length payload = PayloadLen /\
    DecodeRelayCell payload = Ok (set_Length rc (len (Data rc))).
Proof.
  intros Hw. exists (v0_image rc). pose proof Hw as ((_ & _ & _ & Hd & _) & Hl).
  split_and!; [by apply Encode_image | by apply len_v0_image | by apply Decode_image].
Qed.

Definition sample_relay : RelayCell := mkRelayCell RelayData 0 7 [1; 2; 3; 4] 99 [10; 20; 30].

Lemma relay_v0_roundtrip_witness :
  exists payload, Encode sample_relay = Ok (payload, set_Length sample_relay 3) /\
    length payload = PayloadLen /\ DecodeRelayCell payload = Ok (set_Length sample_relay 3).
Proof.
  apply (relay_v0_roundtrip sample_relay). apply (bool_decide_unpack _). vm_compute. exact I.
Defined.

(** Decoding is total and never reads outside its input: on any payload it
    either reports one of the three length errors, exactly when the payload is
    shorter than the header, the length field exceeds 498, or it exceeds the
    bytes after the header; or it returns a cell whose data is exactly the
    [Length] bytes that follow the header. *)
Theorem relay_decode_bounds payload :
  Forall is_byte payload ->
  match DecodeRelayCell payload with
  | Ok rc =>
      11 <= len payload /\ Length rc = be_get (slice payload 9 11) /\
      Length rc = len (Data rc) /\ Length rc <= 498 /\ 11 + Length rc <= len payload /\
      payload = take 11 payload ++ Data rc ++ drop (11 + length (Data rc)) payload
  | Err (ErrPayloadTooShort n) => n = len payload /\ n < 11
  | Err (ErrLengthExceedsMax n) => n = be_get (slice payload 9 11) /\ 498 < n
  | Err (ErrLengthExceedsPayload n) => n = be_get (slice payload 9 11) /\ len payload - 11 < n
  | Err _ => False
  end.
Proof.
  intros Hb. unfold DecodeRelayCell. change maxDataLen with 498.
  change (Z.of_nat RelayCellHeaderLen) with 11.
  assert (0 <= be_get (slice payload 9 11)) as Hn.
  { apply be_get_range. unfold slice. auto with gotor. }
  set (n := be_get (slice payload 9 11)) in *.
  repeat (case_if; bool_to_prop; [done|]). cbn [Length Data].
  assert (len (if 0 <? n then slice payload 11 (Z.to_nat (11 + n)) else []) = n) as Hlen.
  { case_if; bool_to_prop; unfold len in *; [|simpl; lia]. rewrite length_slice; lia. }
  split_and!; try lia.
  rewrite <- (take_drop 11 payload) at 1. f_equal.
  destruct (0 <? n) eqn:E3; bool_to_prop; unfold slice, len in *; rewrite <- drop_drop.
  - rewrite length_take, length_drop.
    replace (Nat.min (Z.to_nat (11 + n) - 11) (length payload - 11)) with (Z.to_nat (11 + n) - 11)%nat by lia.
    by rewrite take_drop.
  - done.
Qed.

Lemma relay_decode_bounds_witness :
  match DecodeRelayCell [2; 0; 0; 0; 7; 0; 0; 0; 0; 0; 200] with
  | Err (ErrLengthExceedsPayload n) => n = 200 /\ 11 - 11 < n
  | _ => False
  end.
Proof.
  assert (Forall is_byte [2; 0; 0; 0; 7; 0; 0; 0; 0; 0; 200]) as H.
  { apply (bool_decide_unpack _). vm_compute. exact I. }
  exact (relay_decode_bounds _ H).
Defined.

(** The v1 encoder accepts exactly the messages whose stream id agrees with
    their command (non-zero precisely for the stream commands) and whose data
    is at most [RelayCellMaxDataV1]; the payload then decodes to the same
    message, keeps the first 16 bytes zero for the CGO tag, and
    [V1MessageEnd] points just past the data. *)
Theorem relay_v1_roundtrip rc :
  v1_wf rc ->
  exists payload, EncodeRelayCellV1 rc = Ok (payload, set_Length rc (len (Data rc))) /\
    len payload = 509 /\ take 16 payload = zeros 16 /\
    DecodeRelayCellV1 payload = Ok (set_Length rc (len (Data rc))) /\
    V1MessageEnd payload = Z.of_nat (v1_offset (Command rc)) + len (Data rc).
Proof.
  intros Hw. pose proof Hw as (_ & _ & _ & Hl & Hsid). exists (v1_image rc).
  split_and!; [by apply EncodeV1_image | by apply len_v1_image | done | by apply DecodeV1_image |].
  unfold V1MessageEnd. rewrite len_v1_image by done. rewrite MaxDataV1_offset in Hl.
  pose proof (len_nonneg (Data rc)). pose proof (v1_offset_range (Command rc)).
  change (509 <? Z.of_nat v1PayloadNoStreamID) with false. cbv iota.
  change v1CmdOffset with 16%nat. rewrite at_v1_command.
  change (v1LenOffset + 2)%nat with 19%nat. change v1LenOffset with 17%nat.
  rewrite v1_image_length_field by word. fold (v1_offset (Command rc)).
  by rewrite (proj2 (Z.ltb_ge _ _)) by lia.
Qed.

Definition sample_v1 : RelayCell := mkRelayCell RelayData 0 7 [0; 0; 0; 0] 0 [10; 20; 30].

Lemma relay_v1_roundtrip_witness :
  exists payload, EncodeRelayCellV1 sample_v1 = Ok (payload, set_Length sample_v1 3) /\
    len payload = 509 /\ take 16 payload = zeros 16 /\
    DecodeRelayCellV1 payload = Ok (set_Length sample_v1 3) /\
    V1MessageEnd payload = Z.of_nat (v1_offset RelayData) + 3.
Proof.
  apply (relay_v1_roundtrip sample_v1). apply (bool_decide_unpack _). vm_compute. exact I.
Defined.

(** The v1 encoder succeeds if and only if the stream id fits the command
    and the data fits the cell, whatever the other fields hold; in particular
    the capacity [RelayCellMaxDataV1] that callers use to cut data (488 for
    DATA) is exact. *)
Theorem relay_v1_capacity rc :
  is_ok (EncodeRelayCellV1 rc) = true <->
  (StreamID rc <> 0 <-> RelayCmdExpectsStreamID (Command rc) = true) /\
  len (Data rc) <= RelayCellMaxDataV1 (Command rc).
Proof.
  split; [|intros [Hs Hl]; by rewrite EncodeV1_image].
  rewrite MaxDataV1_offset. unfold EncodeRelayCellV1, v1_offset.
  unfold v1PayloadWithStreamID, v1PayloadNoStreamID.
  assert (Z.of_nat PayloadLen = 509) as -> by done.
  destruct (RelayCmdExpectsStreamID (Command rc)); destruct (StreamID rc =? 0) eqn:Es;
    simpl negb; cbv iota; cbn [result_bind is_ok]; intros H; try done; bool_to_prop;
    (destruct (lift_conv (SafeLenToUint16 (Data rc))) as [l|] eqn:El; [|done]);
    cbn [result_bind] in H; (case_if; [done|]); bool_to_prop;
    (assert (l = len (Data rc)) as ->;
      [ destruct (Z.le_gt_cases (len (Data rc)) MaxUint16);
        [ rewrite lift_SafeLen in El by done; by simplify_eq
        | rewrite SafeLenToUint16_large in El by done; done ] |]);
    (split; [naive_solver | simpl in *; lia]).
Qed.

End RelayCell.
