(* ===== verification/CellPayloads.v ===== *)
(** * Relay message bodies (pkg/cell/sendme.go, conflux.go, connected.go)

    The authenticated SENDME body, the Conflux LINK/LINKED and SWITCH bodies,
    and the CONNECTED body with its IPv4 and IPv6 forms. *)

From S2P Require Import Prelude RelayCell GoNet.

Module Sendme.

Definition SendmeVersion0 : Z := 0.
Definition SendmeVersion1 : Z := 1.
Definition SendmeV1DigestLen : Z := 20.
Definition SendmeCGOTagLen : Z := 16.

Inductive error :=
| ErrTagLength (n : Z)
| ErrTooShort (n : Z)
| ErrDataLenExceeds (n : Z)
| ErrDataLen (n : Z)
| ErrVersion (v : Z).

Definition EncodeSendmeV1 (digest : bytes) : result error bytes :=
  if negb (len digest =? SendmeV1DigestLen) && negb (len digest =? SendmeCGOTagLen)
  then Err (ErrTagLength (len digest))
  else
    let out := zeros (3 + length digest) in
    let out := copy_at out 0 [SendmeVersion1] in
    let out := copy_at out 1 (PutUint16 (u16 (len digest))) in
    let out := copy_at out 3 digest in
    Ok out.

(** Version and digest; an absent digest is the empty slice. *)
Definition DecodeSendme (payload : bytes) : result error (Z * bytes) :=
  if len payload =? 0 then Ok (SendmeVersion0, [])
  else if len payload <? 3 then Err (ErrTooShort (len payload))
  else
    let version := at_ payload 0 in
    let dataLen := be_get (slice payload 1 3) in
    if len payload <? 3 + dataLen then Err (ErrDataLenExceeds dataLen)
    else
      let data := slice payload 3 (Z.to_nat (3 + dataLen)) in
      if version =? SendmeVersion0 then Ok (version, [])
      else if version =? SendmeVersion1 then
        if negb (dataLen =? SendmeV1DigestLen) && negb (dataLen =? SendmeCGOTagLen)
        then Err (ErrDataLen dataLen)
        else Ok (version, take (Z.to_nat dataLen) data)
      else Err (ErrVersion version).

Definition tag_wf (d : bytes) : Prop :=
  Forall is_byte d /\ (len d = SendmeV1DigestLen \/ len d = SendmeCGOTagLen).

Global Instance tag_wf_dec d : Decision (tag_wf d).
Proof. unfold tag_wf. apply _. Defined.

Definition sendme_image (d : bytes) : bytes := [SendmeVersion1] ++ PutUint16 (len d) ++ d.

Lemma EncodeSendmeV1_image d : tag_wf d -> EncodeSendmeV1 d = Ok (sendme_image d).
Proof.
  intros [_ Hl]. unfold EncodeSendmeV1, sendme_image.
  assert (negb (len d =? SendmeV1DigestLen) && negb (len d =? SendmeCGOTagLen) = false) as ->
    by (destruct Hl as [-> | ->]; done).
  rewrite u16_id by (destruct Hl as [-> | ->]; done). f_equal. fill.
  unfold zeros. replace (3 + _ - _ - _ - _)%nat with O by lens. by rewrite app_nil_r.
Qed.

Lemma tag_lengths n :
  negb (n =? SendmeV1DigestLen) && negb (n =? SendmeCGOTagLen) = false <->
  n = SendmeV1DigestLen \/ n = SendmeCGOTagLen.
Proof.
  destruct (Z.eqb_spec n SendmeV1DigestLen), (Z.eqb_spec n SendmeCGOTagLen); naive_solver.
Qed.

Lemma DecodeSendme_image d trailing :
  tag_wf d -> DecodeSendme (sendme_image d ++ trailing) = Ok (SendmeVersion1, d).
Proof.
  intros [_ Hl]. assert (0 <= len d <= 20) as Hr by (destruct Hl as [-> | ->]; done).
  assert (slice (sendme_image d ++ trailing) 3 (Z.to_nat (3 + len d)) = d) as Hslice.
  { unfold sendme_image. rewrite (app_assoc [_]), <- (app_assoc _ d). apply slice_mid; lens. }
  assert (be_get (slice (sendme_image d ++ trailing) 1 3) = len d) as Hn.
  { unfold sendme_image. rewrite <- !app_assoc. fields. apply get_PutUint16. word. }
  assert (len (sendme_image d ++ trailing) = 3 + len d + len trailing) as Htot.
  { unfold sendme_image. lens. }
  pose proof (len_nonneg trailing). unfold DecodeSendme. rewrite Htot, Hn, Hslice.
  rewrite (proj2 (Z.eqb_neq _ _)), !(proj2 (Z.ltb_ge _ _)) by lia.
  change (at_ (sendme_image d ++ trailing) 0) with SendmeVersion1.
  change (SendmeVersion1 =? SendmeVersion0) with false. rewrite Z.eqb_refl. cbv iota.
  rewrite (proj2 (tag_lengths _) Hl). f_equal. f_equal. apply take_ge. lens.
Qed.

Lemma DecodeSendme_inv payload d :
  Forall is_byte payload -> DecodeSendme payload = Ok (SendmeVersion1, d) ->
  tag_wf d /\ exists rest, payload = sendme_image d ++ rest.
Proof.
  intros Hb. unfold DecodeSendme. set (n := be_get (slice payload 1 3)).
  intros H. repeat (case_if; simplify_eq; try done);
    [bool_to_prop; unfold SendmeVersion0, SendmeVersion1 in *; lia|].
  match goal with E : negb _ && negb _ = false |- _ => apply tag_lengths in E as Hn end.
  bool_to_prop. unfold SendmeV1DigestLen, SendmeCGOTagLen in Hn.
  destruct payload as [|v [|b1 [|b2 data]]]; try (unfold len in *; simpl in *; lia).
  apply Forall_cons in Hb as [Hv Hb]. apply Forall_cons in Hb as [Hb1 Hb]. apply Forall_cons in Hb as [Hb2 Hb].
  assert (slice (v :: b1 :: b2 :: data) 3 (Z.to_nat (3 + n)) = take (Z.to_nat n) data) as ->.
  { unfold slice. simpl drop. f_equal. lia. }
  rewrite take_take, Nat.min_id.
  assert (length (take (Z.to_nat n) data) = Z.to_nat n) as Hl.
  { rewrite length_take. unfold len in *. simpl in *. lia. }
  assert (len (take (Z.to_nat n) data) = n) as Hlen by (unfold len; rewrite Hl; lia).
  split; [split; [by apply Forall_take | rewrite Hlen; exact Hn]|].
  exists (drop (Z.to_nat n) data). unfold sendme_image. rewrite Hlen.
  assert (PutUint16 n = [b1; b2]) as ->.
  { apply (be_put_get_len 2 [b1; b2]); [done|]. auto with gotor. }
  unfold at_ in *. simpl in *. rewrite take_drop. congruence.
Qed.

(** Authenticated SENDMEs round-trip.  A body built from a 20-byte tor1
    digest or a 16-byte CGO tag decodes, whatever trailing bytes the relay cell
    carries, to version 1 and that tag; and whenever decoding yields version 1
    the tag has one of these two lengths and is the data right after the
    header. *)
Theorem sendme_roundtrip d trailing payload d' :
  tag_wf d -> Forall is_byte payload -> DecodeSendme payload = Ok (SendmeVersion1, d') ->
  (exists body, EncodeSendmeV1 d = Ok body /\
     DecodeSendme (body ++ trailing) = Ok (SendmeVersion1, d)) /\
  tag_wf d' /\ exists rest, payload = sendme_image d' ++ rest.
Proof.
  intros Hd Hb Hdec. split; [|by apply DecodeSendme_inv].
  exists (sendme_image d). split; [by apply EncodeSendmeV1_image | by apply DecodeSendme_image].
Qed.

Lemma sendme_roundtrip_witness :
  (exists body, EncodeSendmeV1 (zeros 20) = Ok body /\
     DecodeSendme (body ++ [7]) = Ok (SendmeVersion1, zeros 20)) /\
  tag_wf (zeros 16) /\ exists rest, sendme_image (zeros 16) ++ [5] = sendme_image (zeros 16) ++ rest.
Proof.
  apply (sendme_roundtrip (zeros 20) [7] (sendme_image (zeros 16) ++ [5]) (zeros 16)).
  - apply (bool_decide_unpack _). vm_compute. exact I.
  - apply (bool_decide_unpack _). vm_compute. exact I.
  - vm_compute. reflexivity.
Defined.

End Sendme.

Module Conflux.

Definition ConfluxLinkVersion : Z := 1.
Definition ConfluxNonceLen : nat := 32.
Definition ConfluxLinkPayloadLen : nat := 50.
Definition ConfluxSwitchLen : nat := 4.
Definition ConfluxUXHighThroughput : Z := 3.

Record ConfluxLink := mkLink {
  Version : Z;
  Nonce : bytes;
  LastSeqSent : Z;
  LastSeqRecv : Z;
  DesiredUX : Z;
}.

Inductive error :=
| ErrLinkVersion (v : Z)
| ErrLinkLength (n : Z)
| ErrSwitchLength (n : Z).

Definition EncodeConfluxLink (l : ConfluxLink) : result error bytes :=
  if negb (Version l =? ConfluxLinkVersion) then Err (ErrLinkVersion (Version l))
  else
    let out := zeros ConfluxLinkPayloadLen in
    let out := copy_at out 0 [Version l] in
    let out := copy_at out 1 (Nonce l) in
    let out := copy_at out 33 (PutUint64 (LastSeqSent l)) in
    let out := copy_at out 41 (PutUint64 (LastSeqRecv l)) in
    let out := copy_at out 49 [DesiredUX l] in
    Ok out.

Definition DecodeConfluxLink (data : bytes) : result error ConfluxLink :=
  if len data <? Z.of_nat ConfluxLinkPayloadLen then Err (ErrLinkLength (len data))
  else if negb (at_ data 0 =? ConfluxLinkVersion) then Err (ErrLinkVersion (at_ data 0))
  else
    Ok (mkLink (at_ data 0) (slice data 1 33) (be_get (slice data 33 41))
          (be_get (slice data 41 49)) (at_ data 49)).

Definition EncodeConfluxSwitch (rel : Z) : bytes :=
  copy_at (zeros ConfluxSwitchLen) 0 (PutUint32 rel).

Definition DecodeConfluxSwitch (data : bytes) : result error Z :=
  if len data <? Z.of_nat ConfluxSwitchLen then Err (ErrSwitchLength (len data))
  else Ok (be_get (slice data 0 ConfluxSwitchLen)).

Definition ConfluxShouldMultiplex (cmd : Z) : bool :=
  existsb (Z.eqb cmd)
    [RelayCell.RelayBegin; RelayCell.RelayData; RelayCell.RelayEnd; RelayCell.RelayConnected;
     RelayCell.RelayResolve; RelayCell.RelayResolved; RelayCell.RelayBeginDir;
     RelayCell.RelayXon; RelayCell.RelayXoff].

Definition link_wf (l : ConfluxLink) : Prop :=
  Version l = ConfluxLinkVersion /\ length (Nonce l) = ConfluxNonceLen /\
  is_u 64 (LastSeqSent l) /\ is_u 64 (LastSeqRecv l) /\ is_byte (DesiredUX l).

Global Instance link_wf_dec l : Decision (link_wf l).
Proof. unfold link_wf. apply _. Defined.

Definition link_image (l : ConfluxLink) : bytes :=
  [Version l] ++ Nonce l ++ PutUint64 (LastSeqSent l) ++ PutUint64 (LastSeqRecv l) ++ [DesiredUX l].

Lemma EncodeConfluxLink_image l : link_wf l -> EncodeConfluxLink l = Ok (link_image l).
Proof.
  intros (Hv & Hn & _). unfold EncodeConfluxLink, link_image. rewrite Hv, Z.eqb_refl. simpl negb.
  cbv iota. unfold ConfluxNonceLen, ConfluxLinkPayloadLen in *. f_equal. fill.
  replace (50 - _ - _ - _ - _ - _)%nat with O by lens.
  change (zeros 0) with (@nil Z). by rewrite app_nil_r.
Qed.

Lemma DecodeConfluxLink_image l trailing :
  link_wf l -> DecodeConfluxLink (link_image l ++ trailing) = Ok l.
Proof.
  intros (Hv & Hn & Hs & Hr & Hu). unfold ConfluxNonceLen in Hn. unfold DecodeConfluxLink.
  rewrite (proj2 (Z.ltb_ge _ _)) by (unfold link_image, ConfluxLinkPayloadLen; lens).
  unfold link_image. rewrite <- !app_assoc. fields.
  rewrite !get_PutUint64, Hv, Z.eqb_refl by done. simpl negb. cbv iota. rewrite <- Hv. by destruct l.
Qed.

(** Conflux LINK/LINKED bodies of the supported version are exactly 50
    bytes long and round-trip, also when trailing bytes follow, and so do the
    4-byte SWITCH offsets. *)
Theorem conflux_link_roundtrip l trailing rel :
  link_wf l -> is_u 32 rel ->
  (exists body, EncodeConfluxLink l = Ok body /\ length body = ConfluxLinkPayloadLen /\
     DecodeConfluxLink (body ++ trailing) = Ok l) /\
  length (EncodeConfluxSwitch rel) = 4%nat /\
  DecodeConfluxSwitch (EncodeConfluxSwitch rel ++ trailing) = Ok rel.
Proof.
  intros Hl Hrel. pose proof Hl as (_ & Hn & _). unfold ConfluxNonceLen in Hn.
  assert (EncodeConfluxSwitch rel = PutUint32 rel) as ->.
  { unfold EncodeConfluxSwitch, ConfluxSwitchLen. fill.
    replace (4 - _)%nat with O by lens. by rewrite app_nil_r. }
  split_and!.
  - exists (link_image l). split_and!;
      [by apply EncodeConfluxLink_image | | by apply DecodeConfluxLink_image].
    unfold link_image, ConfluxLinkPayloadLen. lens.
  - apply length_PutUint32.
  - unfold DecodeConfluxSwitch.
    rewrite (proj2 (Z.ltb_ge _ _)) by (unfold ConfluxSwitchLen; lens).
    rewrite slice_here by known_length. by rewrite get_PutUint32.
Qed.

Definition sample_link : ConfluxLink := mkLink 1 (zeros 32) 1234567890123 42 3.

Lemma conflux_link_roundtrip_witness :
  (exists body, EncodeConfluxLink sample_link = Ok body /\ length body = ConfluxLinkPayloadLen /\
     DecodeConfluxLink (body ++ [9]) = Ok sample_link) /\
  length (EncodeConfluxSwitch 70000) = 4%nat /\
  DecodeConfluxSwitch (EncodeConfluxSwitch 70000 ++ [9]) = Ok 70000.
Proof.
  apply (conflux_link_roundtrip sample_link [9] 70000);
    apply (bool_decide_unpack _); vm_compute; exact I.
Defined.

End Conflux.

Module Connected.
Import GoNet.

Definition maxConnectedTTL : Z := 7 * 24 * 3600.

(** [net.IP]: [None] is the nil slice. *)
Record ConnectedInfo := mkInfo {
  Addr : option bytes;
  TTL : Z;
}.

Inductive error :=
| ErrTooShort (n : Z)
| ErrFamily (f : Z)
| ErrTruncatedIPv6
| ErrNilAddress
| ErrInvalidIP.

Definition bounded_ttl (ttl : Z) : Z := if ttl <=? maxConnectedTTL then ttl else -1.

Definition ParseConnectedPayload (data : bytes) : result error ConnectedInfo :=
  if len data =? 0 then Ok (mkInfo None (-1))
  else if len data <? 4 then Err (ErrTooShort (len data))
  else if (5 <=? len data) && (at_ data 0 =? 0) && (at_ data 1 =? 0) &&
          (at_ data 2 =? 0) && (at_ data 3 =? 0) then
    let family := at_ data 4 in
    if negb (family =? 6) then Err (ErrFamily family)
    else if len data <? 5 + 16 + 4 then Err ErrTruncatedIPv6
    else Ok (mkInfo (Some (slice data 5 21)) (bounded_ttl (be_get (slice data 21 25))))
  else
    Ok (mkInfo (Some (slice data 0 4))
          (if 8 <=? len data then bounded_ttl (be_get (slice data 4 8)) else -1)).

Definition FormatConnectedPayload (addr : option bytes) (ttl : Z) : result error bytes :=
  match addr with
  | None => Err ErrNilAddress
  | Some addr =>
      match To4 addr with
      | Some v4 =>
          let out := copy_at (zeros 8) 0 v4 in
          Ok (copy_at out 4 (PutUint32 ttl))
      | None =>
          match To16 addr with
          | None => Err ErrInvalidIP
          | Some v6 =>
              let out := copy_at (zeros 25) 4 [6] in
              let out := copy_at out 5 v6 in
              Ok (copy_at out 21 (PutUint32 ttl))
          end
      end
  end.

Definition v4_image (v4 : bytes) (ttl : Z) : bytes := v4 ++ PutUint32 ttl.
Definition v6_image (v6 : bytes) (ttl : Z) : bytes := zeros 4 ++ [6] ++ v6 ++ PutUint32 ttl.

Lemma Format_v4 ip v4 ttl :
  To4 ip = Some v4 -> length v4 = 4%nat ->
  FormatConnectedPayload (Some ip) ttl = Ok (v4_image v4 ttl).
Proof.
  intros H4 Hl. unfold FormatConnectedPayload, v4_image. rewrite H4. f_equal. fill.
  replace (8 - _ - _)%nat with O by lens. by rewrite app_nil_r.
Qed.

Lemma Format_v6 ip ttl :
  To4 ip = None -> length ip = 16%nat ->
  FormatConnectedPayload (Some ip) ttl = Ok (v6_image ip ttl).
Proof.
  intros H4 Hl. unfold FormatConnectedPayload, v6_image, To16. rewrite H4, Hl. simpl Nat.eqb.
  cbv iota. f_equal. rewrite (zeros_split 4 25) by lia. simpl Nat.sub.
  rewrite copy_at_zeros by lens. rewrite !app_assoc. do 2 rewrite copy_at_zeros, !app_assoc by lens.
  replace (21 - _ - _ - _)%nat with O by lens. by rewrite app_nil_r.
Qed.

Lemma Parse_v4 v4 ttl :
  length v4 = 4%nat -> v4 <> zeros 4 -> is_u 32 ttl ->
  ParseConnectedPayload (v4_image v4 ttl) = Ok (mkInfo (Some v4) (bounded_ttl ttl)).
Proof.
  intros Hl Hz Ht. unfold ParseConnectedPayload.
  assert (len (v4_image v4 ttl) = 8) as -> by (unfold v4_image; lens).
  change (8 =? 0) with false. change (8 <? 4) with false. change (8 <=? 8) with true. cbv iota.
  destruct v4 as [|a [|b [|c [|d [|]]]]]; try done.
  set (z := (5 <=? 8) && _ && _ && _ && _). assert (z = false) as ->.
  { subst z. unfold at_; simpl. apply not_true_iff_false. intros H. bool_to_prop. subst. by apply Hz. }
  unfold v4_image. fields. by rewrite get_PutUint32.
Qed.

Lemma Parse_v6 v6 ttl :
  length v6 = 16%nat -> is_u 32 ttl ->
  ParseConnectedPayload (v6_image v6 ttl) = Ok (mkInfo (Some v6) (bounded_ttl ttl)).
Proof.
  intros Hl Ht. unfold ParseConnectedPayload.
  assert (len (v6_image v6 ttl) = 25) as -> by (unfold v6_image; lens).
  simpl (25 =? 0). simpl (25 <? 4). cbv iota.
  change (at_ (v6_image v6 ttl) 0) with 0. change (at_ (v6_image v6 ttl) 1) with 0.
  change (at_ (v6_image v6 ttl) 2) with 0. change (at_ (v6_image v6 ttl) 3) with 0.
  change (at_ (v6_image v6 ttl) 4) with 6.
  simpl. unfold v6_image. fields. by rewrite get_PutUint32.
Qed.

(** A CONNECTED body carries its address and time-to-live across: for an
    IPv4 address other than 0.0.0.0 (in its 4-byte or its mapped 16-byte form)
    and for every IPv6 address, parsing the formatted body gives the address
    back, and the TTL, or -1 when it exceeds one week. *)
Theorem connected_roundtrip ip ttl :
  is_u 32 ttl -> (length ip = 16%nat \/ length ip = 4%nat) -> To4 ip <> Some (zeros 4) ->
  exists body, FormatConnectedPayload (Some ip) ttl = Ok body /\
    ParseConnectedPayload body = Ok (mkInfo (Some (default ip (To4 ip))) (bounded_ttl ttl)).
Proof.
  intros Ht Hl Hz. destruct (To4 ip) as [v4|] eqn:E; simpl.
  - pose proof (To4_length _ _ E). exists (v4_image v4 ttl).
    split; [by apply Format_v4 | apply Parse_v4; naive_solver].
  - assert (length ip = 16%nat) as H16.
    { destruct Hl as [|H4]; [done|]. unfold To4 in E. by rewrite H4 in E. }
    exists (v6_image ip ttl). split; [by apply Format_v6 | by apply Parse_v6].
Qed.

Lemma connected_roundtrip_witness :
  exists body, FormatConnectedPayload (Some [10; 0; 0; 1]) 700000 = Ok body /\
    ParseConnectedPayload body = Ok (mkInfo (Some [10; 0; 0; 1]) (-1)).
Proof.
  apply (connected_roundtrip [10; 0; 0; 1] 700000); [by split | by right | done].
Defined.

(** The address 0.0.0.0 does not survive: its formatted CONNECTED body
    starts with the four zero bytes that announce IPv6, and the parser rejects
    it for every time-to-live. *)
Theorem connected_unspecified_rejected ttl :
  is_u 32 ttl ->
  exists body e, FormatConnectedPayload (Some (zeros 4)) ttl = Ok body /\
    ParseConnectedPayload body = Err e.
Proof.
  intros Ht. exists (v4_image (zeros 4) ttl). unfold ParseConnectedPayload.
  assert (len (v4_image (zeros 4) ttl) = 8) as -> by (unfold v4_image; lens).
  change (at_ (v4_image (zeros 4) ttl) 0) with 0. change (at_ (v4_image (zeros 4) ttl) 1) with 0.
  change (at_ (v4_image (zeros 4) ttl) 2) with 0. change (at_ (v4_image (zeros 4) ttl) 3) with 0.
  change (8 =? 0) with false. change (8 <? 4) with false. change (0 =? 0) with true.
  change (8 <? 5 + 16 + 4) with true. change (5 <=? 8) with true. cbn [andb].
  case_if; eexists; (split; [by apply Format_v4 | done]).
Qed.

Lemma connected_unspecified_rejected_witness :
  exists body e, FormatConnectedPayload (Some (zeros 4)) 60 = Ok body /\
    ParseConnectedPayload body = Err e.
Proof. apply (connected_unspecified_rejected 60). by split. Defined.

End Connected.
