(* ===== verification/Replay.v ===== *)
(** * Replay protection (pkg/cell/replay.go)

    One [half] per direction holds the fields the struct keeps in duplicate
    ([forwardSeq]/[backwardSeq], ...).  SHA-256 is a parameter of the section:
    the theorems hold for any digest function; where two cells must have
    different digests that is a hypothesis.  Sequence arithmetic is on
    [uint64] and wraps as in the code.  Every exported operation holds the
    mutex for its whole body, so concurrent use is an interleaving of whole
    operations: [exec] runs such a sequence. *)

From S2P Require Import Prelude.

Module Replay.

Record half := mkHalf {
  seq : Z;
  window : gset Z;
  digests : gmap bytes Z;
  replayAttempts : Z;
  outOfOrder : Z;
}.

Record ReplayProtection := mkReplay {
  forward : half;
  backward : half;
  windowSize : Z;
}.

Inductive ReplayDirection := ReplayForward | ReplayBackward.

Global Instance direction_eq_dec : EqDecision ReplayDirection.
Proof. solve_decision. Defined.

Inductive error :=
| ErrEmptyCell
| ErrDuplicateDigest (prevSeq seqNum : Z)
| ErrDuplicateSeq (seqNum : Z)
| ErrTooOld (seqNum : Z)
| ErrTooFarAhead (seqNum : Z).

Definition DefaultWindowSize : Z := 32.

Definition empty_half : half := mkHalf 0 ∅ ∅ 0 0.

Definition NewReplayProtectionWithWindow (w : Z) : ReplayProtection :=
  mkReplay empty_half empty_half w.

Definition NewReplayProtection : ReplayProtection :=
  NewReplayProtectionWithWindow DefaultWindowSize.

Definition validateSequence (w seqNum expectedSeq : Z) (win : gset Z) : option error :=
  if bool_decide (seqNum ∈ win) then Some (ErrDuplicateSeq seqNum)
  else if (w <? expectedSeq) && (seqNum <? u64 (expectedSeq - w)) then Some (ErrTooOld seqNum)
  else
    let maxAhead := u64 (w * 2) in
    if u64 (expectedSeq + maxAhead) <? seqNum then Some (ErrTooFarAhead seqNum) else None.

Definition cleanupWindow (w : Z) (h : half) : half :=
  let minValidSeq := if w <? seq h then u64 (seq h - w) else 0 in
  mkHalf (seq h)
    (filter (fun s => minValidSeq <= s) (window h))
    (filter (fun kv => minValidSeq <= kv.2) (digests h))
    (replayAttempts h) (outOfOrder h).

Definition count_attempt (h : half) : half :=
  mkHalf (seq h) (window h) (digests h) (u64 (replayAttempts h + 1)) (outOfOrder h).

Definition set_seq (h : half) (s : Z) : half :=
  mkHalf s (window h) (digests h) (replayAttempts h) (outOfOrder h).

(** Recording an accepted cell: both maps, and the out-of-order counter. *)
Definition track (h : half) (seqNum : Z) (digest : bytes) : half :=
  mkHalf (seq h) ({[seqNum]} ∪ window h) (<[digest := seqNum]> (digests h)) (replayAttempts h)
    (if seqNum <? seq h then u64 (outOfOrder h + 1) else outOfOrder h).

(** [validateForward] / [validateBackward] on their half. *)
Definition validateDir (w : Z) (h : half) (seqNum : Z) (digest : bytes) : half * option error :=
  match digests h !! digest with
  | Some prevSeq => (count_attempt h, Some (ErrDuplicateDigest prevSeq seqNum))
  | None =>
      match validateSequence w seqNum (seq h) (window h) with
      | Some e => (count_attempt h, Some e)
      | None =>
          let h' := track h seqNum digest in
          let h' := if seq h' <=? seqNum then set_seq h' (u64 (seqNum + 1)) else h' in
          (cleanupWindow w h', None)
      end
  end.

(** [validateForwardLocked] / [validateBackwardLocked]: no update of [seq]. *)
Definition validateDirLocked (w : Z) (h : half) (seqNum : Z) (digest : bytes) : half * option error :=
  match digests h !! digest with
  | Some prevSeq => (count_attempt h, Some (ErrDuplicateDigest prevSeq seqNum))
  | None =>
      match validateSequence w seqNum (seq h) (window h) with
      | Some e => (count_attempt h, Some e)
      | None => (cleanupWindow w (track h seqNum digest), None)
      end
  end.

Definition get_half (d : ReplayDirection) (r : ReplayProtection) : half :=
  match d with ReplayForward => forward r | ReplayBackward => backward r end.

Definition set_half (d : ReplayDirection) (r : ReplayProtection) (h : half) : ReplayProtection :=
  match d with
  | ReplayForward => mkReplay h (backward r) (windowSize r)
  | ReplayBackward => mkReplay (forward r) h (windowSize r)
  end.

Definition validateForward (r : ReplayProtection) (seqNum : Z) (digest : bytes) :=
  let '(h, e) := validateDir (windowSize r) (forward r) seqNum digest in
  (set_half ReplayForward r h, e).

Definition validateBackward (r : ReplayProtection) (seqNum : Z) (digest : bytes) :=
  let '(h, e) := validateDir (windowSize r) (backward r) seqNum digest in
  (set_half ReplayBackward r h, e).

Definition validateForwardLocked (r : ReplayProtection) (seqNum : Z) (digest : bytes) :=
  let '(h, e) := validateDirLocked (windowSize r) (forward r) seqNum digest in
  (set_half ReplayForward r h, e).

Definition validateBackwardLocked (r : ReplayProtection) (seqNum : Z) (digest : bytes) :=
  let '(h, e) := validateDirLocked (windowSize r) (backward r) seqNum digest in
  (set_half ReplayBackward r h, e).

Record Stats_t := mkStats {
  ForwardSequence : Z;
  BackwardSequence : Z;
  ForwardWindowSize : Z;
  BackwardWindowSize : Z;
  ForwardDigests : Z;
  BackwardDigests : Z;
  ReplayAttemptsForward : Z;
  ReplayAttemptsBackward : Z;
  OutOfOrderForward : Z;
  OutOfOrderBackward : Z;
}.

Definition Stats (r : ReplayProtection) : Stats_t :=
  mkStats (seq (forward r)) (seq (backward r))
    (Z.of_nat (size (window (forward r)))) (Z.of_nat (size (window (backward r))))
    (Z.of_nat (size (digests (forward r)))) (Z.of_nat (size (digests (backward r))))
    (replayAttempts (forward r)) (replayAttempts (backward r))
    (outOfOrder (forward r)) (outOfOrder (backward r)).

Definition reset_half (h : half) : half := mkHalf 0 ∅ ∅ (replayAttempts h) (outOfOrder h).

Definition Reset (r : ReplayProtection) : ReplayProtection :=
  mkReplay (reset_half (forward r)) (reset_half (backward r)) (windowSize r).

Definition GetNextSequence (d : ReplayDirection) (r : ReplayProtection) : ReplayProtection * Z :=
  match d with
  | ReplayForward =>
      let seqn := seq (forward r) in
      (set_half ReplayForward r (set_seq (forward r) (u64 (seq (forward r) + 1))), seqn)
  | ReplayBackward =>
      let seqn := seq (backward r) in
      (set_half ReplayBackward r (set_seq (backward r) (u64 (seq (backward r) + 1))), seqn)
  end.

Definition TotalReplayAttempts (r : ReplayProtection) : Z :=
  u64 (replayAttempts (forward r) + replayAttempts (backward r)).

Section Digest.
Context (Sum256 : bytes -> bytes).

Definition ValidateAndTrack (r : ReplayProtection) (d : ReplayDirection) (seqNum : Z) (cellData : bytes) :
    ReplayProtection * option error :=
  if len cellData =? 0 then (r, Some ErrEmptyCell)
  else
    let digest := Sum256 cellData in
    match d with
    | ReplayForward => validateForward r seqNum digest
    | ReplayBackward => validateBackward r seqNum digest
    end.

Definition ValidateAndTrackAuto (r : ReplayProtection) (d : ReplayDirection) (cellData : bytes) :
    ReplayProtection * option error :=
  if len cellData =? 0 then (r, Some ErrEmptyCell)
  else
    let digest := Sum256 cellData in
    match d with
    | ReplayForward =>
        let seqNum := seq (forward r) in
        let '(r, e) := validateForwardLocked r seqNum digest in
        match e with
        | Some e => (r, Some e)
        | None => (set_half ReplayForward r (set_seq (forward r) (u64 (seq (forward r) + 1))), None)
        end
    | ReplayBackward =>
        let seqNum := seq (backward r) in
        let '(r, e) := validateBackwardLocked r seqNum digest in
        match e with
        | Some e => (r, Some e)
        | None => (set_half ReplayBackward r (set_seq (backward r) (u64 (seq (backward r) + 1))), None)
        end
    end.

(** ** Interleavings of operations between two resets *)

Inductive op :=
| OpValidate (d : ReplayDirection) (seqNum : Z) (cellData : bytes)
| OpAuto (d : ReplayDirection) (cellData : bytes)
| OpNext (d : ReplayDirection).

(** One operation, and the cell it accepted, if it did: direction, sequence
    number, digest. *)
Definition exec1 (r : ReplayProtection) (o : op) : ReplayProtection * option (ReplayDirection * Z * bytes) :=
  match o with
  | OpValidate d s data =>
      let '(r', e) := ValidateAndTrack r d s data in
      (r', match e with None => Some (d, s, Sum256 data) | Some _ => None end)
  | OpAuto d data =>
      let '(r', e) := ValidateAndTrackAuto r d data in
      (r', match e with None => Some (d, seq (get_half d r), Sum256 data) | Some _ => None end)
  | OpNext d => (fst (GetNextSequence d r), None)
  end.

Fixpoint exec (r : ReplayProtection) (os : list op) : ReplayProtection * list (ReplayDirection * Z * bytes) :=
  match os with
  | [] => (r, [])
  | o :: os =>
      let '(r, a) := exec1 r o in
      let '(r, log) := exec r os in
      (r, match a with Some x => x :: log | None => log end)
  end.

End Digest.

(** ** The invariant of one direction

    [past] lists what the direction has accepted since the last reset, newest
    first.  An accepted sequence number is still in the window, with its
    digest, or is older than the window reaches. *)

Record half_inv (w : Z) (h : half) (past : list (Z * bytes)) : Prop := {
  inv_window : exists e, 0 <= e <= seq h /\
    forall s, s ∈ window h -> 0 <= s /\ e - w - 1 <= s < e;
  inv_digest_window : forall d s, digests h !! d = Some s -> s ∈ window h;
  inv_digest_inj : forall d1 d2 s, digests h !! d1 = Some s -> digests h !! d2 = Some s -> d1 = d2;
  inv_past : forall s d, (s, d) ∈ past ->
    (s ∈ window h /\ digests h !! d = Some s) \/ (w < seq h /\ s < seq h - w);
  inv_nodup : NoDup (past.*1);
}.

Lemma half_inv_empty w h : 0 <= seq h -> window h = ∅ -> digests h = ∅ -> half_inv w h [].
Proof.
  intros Hs Hw Hd. constructor; rewrite ?Hw, ?Hd.
  - exists 0. split; [lia | set_solver].
  - set_solver.
  - set_solver.
  - set_solver.
  - constructor.
Qed.

Lemma half_inv_fresh w h past s :
  half_inv w h past -> seq h <= s -> s ∉ window h.
Proof. intros H Hs Hin. destruct (inv_window _ _ _ H) as (e & He & Hall). apply Hall in Hin. lia. Qed.

(** Acceptance test without wrap-around. *)
Lemma validateSequence_spec w s e win :
  0 <= w -> is_u 64 s -> 0 <= e -> e + 2 * w + 1 < 2 ^ 64 ->
  validateSequence w s e win = None <->
  s ∉ win /\ (w < e -> e - w <= s) /\ s <= e + 2 * w.
Proof.
  intros Hw Hs He Hb. unfold validateSequence.
  rewrite (u64_id (w * 2)), (u64_id (e + w * 2)) by (word; lia).
  case_bool_decide; [naive_solver|].
  destruct (Z.ltb_spec w e).
  - rewrite u64_id by (word; lia). cases; naive_solver lia.
  - cases; naive_solver lia.
Qed.

(** Recording [s] and then forgetting what is older than the window keeps the
    invariant, for any new value of [seq] that stays ahead of the window. *)
Lemma half_inv_accept w h past s d seq' :
  half_inv w h past -> 0 <= w -> 0 <= s -> 0 <= seq' < 2 ^ 64 ->
  s ∉ window h -> digests h !! d = None -> (w < seq h -> seq h - w <= s) ->
  seq h <= seq' -> s <= seq' -> (seq' = seq h \/ s < seq') ->
  half_inv w (set_seq (cleanupWindow w (set_seq (track h s d) seq')) (Z.max seq' (s + 1))) ((s, d) :: past).
Proof.
  intros [(e & He & Hwin) Hdw Hdi Hpast Hnd] Hw Hs0 Hb Hs Hd Hold Hseq Hsle Hcase.
  set (m := if w <? seq' then u64 (seq' - w) else 0).
  assert (m = Z.max 0 (seq' - w)) as Hm.
  { unfold m. destruct (Z.ltb_spec w seq'); [rewrite u64_id by (word; lia)|]; lia. }
  unfold cleanupWindow, track, set_seq; simpl. fold m.
  assert (forall x, x ∈ filter (fun s => m <= s) ({[s]} ∪ window h) <-> m <= x /\ (x = s \/ x ∈ window h)) as Hin.
  { intros x. rewrite elem_of_filter. set_solver. }
  assert (forall k x, filter (fun kv => m <= kv.2) (<[d:=s]> (digests h)) !! k = Some x <->
      m <= x /\ ((k = d /\ x = s) \/ (k <> d /\ digests h !! k = Some x))) as Hlk.
  { intros k x. rewrite map_lookup_filter_Some, lookup_insert_Some. simpl. naive_solver. }
  constructor; simpl.
  - exists (Z.max seq' (s + 1)). split; [lia|]. intros x Hx. apply Hin in Hx as [Hx [->|Hx']]; [lia|].
    apply Hwin in Hx'. lia.
  - intros k x Hk. apply Hlk in Hk as [? [[-> ->]|[? ?%Hdw]]]; apply Hin; auto.
  - intros k1 k2 x H1 H2. apply Hlk in H1 as [? [[-> ->]|[? H1]]]; apply Hlk in H2 as [? [[-> ?]|[? H2]]]; subst; eauto.
    + by apply Hdw in H2.
    + by apply Hdw in H1.
  - intros x k Hxk. apply elem_of_cons in Hxk as [[= -> ->]|Hxk].
    + destruct (decide (m <= s)); [left; split; [apply Hin | apply Hlk]; auto | right; lia].
    + destruct (Hpast x k Hxk) as [[Hx Hk]|[? ?]]; [|right; lia].
      pose proof (Hwin x Hx). destruct (decide (m <= x)); [left | right; lia]. split; [apply Hin; auto|].
      apply Hlk. split; [done|]. right. split; [|done]. intros ->. congruence.
  - constructor; [|done]. rewrite list_elem_of_fmap. intros ([x k] & ? & Hxk); simplify_eq/=.
    destruct (Hpast _ _ Hxk) as [[? ?]|[Hlt ?]]; [done|]. specialize (Hold Hlt). lia.
Qed.

(** The two validation paths, without wrap-around. *)
Lemma validateDir_accept w h past s d h' :
  half_inv w h past -> 0 <= w -> is_u 64 s -> seq h + 2 * w + 1 < 2 ^ 64 ->
  validateDir w h s d = (h', None) ->
  half_inv w h' ((s, d) :: past) /\ seq h <= seq h' <= seq h + 2 * w + 1.
Proof.
  intros Hinv Hw Hs Hb. unfold validateDir.
  destruct (inv_window _ _ _ Hinv) as (e & He & _).
  destruct (digests h !! d) eqn:Hd; [done|].
  destruct (validateSequence w s (seq h) (window h)) eqn:Hv; [done|].
  apply validateSequence_spec in Hv as (Hnin & Hold & Hahead); [|first [done | lia | word; lia]..].
  intros [= <-]. simpl (seq (track _ _ _)).
  assert (0 <= s < 2 ^ 64) as Hs' by exact Hs.
  destruct (Z.leb_spec (seq h) s) as [Hle|Hlt].
  - rewrite u64_id by (word; lia). split; [|simpl; lia].
    pose proof (half_inv_accept w h past s d (s + 1) Hinv Hw) as H.
    unfold cleanupWindow, set_seq, track in *; simpl in *.
    rewrite Z.max_id in H. apply H; auto; lia.
  - split; [|simpl; lia].
    pose proof (half_inv_accept w h past s d (seq h) Hinv Hw) as H.
    unfold cleanupWindow, set_seq, track in *; simpl in *.
    rewrite Z.max_l in H by lia. apply H; auto; lia.
Qed.

Definition validateAutoDir (w : Z) (h : half) (digest : bytes) : half * option error :=
  let '(h', e) := validateDirLocked w h (seq h) digest in
  match e with
  | Some e => (h', Some e)
  | None => (set_seq h' (u64 (seq h' + 1)), None)
  end.

Lemma validateAutoDir_accept w h past d h' :
  half_inv w h past -> 0 <= w -> seq h + 2 * w + 1 < 2 ^ 64 ->
  validateAutoDir w h d = (h', None) ->
  half_inv w h' ((seq h, d) :: past) /\ seq h' = seq h + 1.
Proof.
  intros Hinv Hw Hb. unfold validateAutoDir, validateDirLocked.
  destruct (inv_window _ _ _ Hinv) as (e & He & _).
  destruct (digests h !! d) eqn:Hd; [done|].
  destruct (validateSequence w (seq h) (seq h) (window h)) eqn:Hv; [done|].
  intros [= <-]. simpl (seq (cleanupWindow _ _)).
  rewrite u64_id by (word; lia). split; [|done].
  pose proof (half_inv_accept w h past (seq h) d (seq h) Hinv Hw) as H.
  apply validateSequence_spec in Hv as (Hnin & Hold & Hahead); [|first [done | lia | word; lia]..].
  unfold cleanupWindow, set_seq, track in *; simpl in *.
  rewrite Z.max_r in H by lia. apply H; auto; lia.
Qed.

(** The rejecting paths touch only the counter of attempts. *)
Lemma half_inv_same w h h' past :
  seq h' = seq h -> window h' = window h -> digests h' = digests h ->
  half_inv w h past -> half_inv w h' past.
Proof. intros Hs Hw Hd []. constructor; rewrite ?Hs, ?Hw, ?Hd; auto. Qed.

Lemma validateDir_reject w h s d h' e :
  validateDir w h s d = (h', Some e) -> h' = count_attempt h.
Proof. unfold validateDir. repeat case_match; intros; by simplify_eq. Qed.

Lemma validateAutoDir_reject w h d h' e :
  validateAutoDir w h d = (h', Some e) -> h' = count_attempt h.
Proof. unfold validateAutoDir, validateDirLocked. repeat case_match; intros; by simplify_eq. Qed.

(** Every operation acts on one half. *)
Lemma ValidateAndTrack_half sum r d s data :
  ValidateAndTrack sum r d s data =
    if len data =? 0 then (r, Some ErrEmptyCell)
    else let '(h, e) := validateDir (windowSize r) (get_half d r) s (sum data) in (set_half d r h, e).
Proof. unfold ValidateAndTrack. by destruct (len data =? 0), d. Qed.

Lemma ValidateAndTrackAuto_half sum r d data :
  ValidateAndTrackAuto sum r d data =
    if len data =? 0 then (r, Some ErrEmptyCell)
    else let '(h, e) := validateAutoDir (windowSize r) (get_half d r) (sum data) in (set_half d r h, e).
Proof.
  unfold ValidateAndTrackAuto, validateForwardLocked, validateBackwardLocked, validateAutoDir.
  destruct (len data =? 0), d; try done; simpl; by destruct (validateDirLocked _ _ _ _) as [? []].
Qed.

Lemma GetNextSequence_half d r :
  GetNextSequence d r =
    (set_half d r (set_seq (get_half d r) (u64 (seq (get_half d r) + 1))), seq (get_half d r)).
Proof. by destruct d. Qed.

Lemma get_set_half d d' r h :
  get_half d (set_half d' r h) = if decide (d = d') then h else get_half d r.
Proof. by destruct d, d'. Qed.

Lemma windowSize_set_half d r h : windowSize (set_half d r h) = windowSize r.
Proof. by destruct d. Qed.


(** ** Traces *)

Definition op_wf (o : op) : Prop :=
  match o with OpValidate _ s _ => is_u 64 s | _ => True end.

Global Instance op_wf_dec o : Decision (op_wf o).
Proof. destruct o; simpl; apply _. Defined.

Definition accepted_in (d : ReplayDirection) (x : ReplayDirection * Z * bytes) : option (Z * bytes) :=
  if decide (x.1.1 = d) then Some (x.1.2, x.2) else None.

Definition log_of (d : ReplayDirection) (log : list (ReplayDirection * Z * bytes)) : list (Z * bytes) :=
  omap (accepted_in d) log.

Lemma replay_exec1_inv sum w r o r' a d past :
  0 <= w -> windowSize r = w -> op_wf o -> half_inv w (get_half d r) past ->
  seq (get_half d r) + 2 * w + 1 < 2 ^ 64 ->
  exec1 sum r o = (r', a) ->
  half_inv w (get_half d r') (log_of d (option_list a) ++ past) /\
  seq (get_half d r) <= seq (get_half d r') <= seq (get_half d r) + 2 * w + 1 /\
  windowSize r' = w.
Proof.
  intros Hw <- Ho Hinv Hb. destruct (inv_window _ _ _ Hinv) as (e0 & He0 & _).
  destruct o as [d' s data|d' data|d']; simpl.
  - rewrite ValidateAndTrack_half. destruct (len data =? 0); [intros [= <- <-]; simpl; split_and!; [done|lia..|done]|].
    destruct (validateDir _ _ _ _) as [h e] eqn:E. intros [= <- <-].
    rewrite windowSize_set_half, get_set_half. unfold log_of.
    destruct e as [e|]; simpl; unfold accepted_in; simpl.
    + apply validateDir_reject in E as ->. case_decide as Hd; [subst d'|split_and!; [done|lia..|done]].
      split_and!; [by apply (half_inv_same _ (get_half d r))|simpl; lia..|done].
    + destruct (decide (d' = d)) as [->|Hne]; simpl.
      * rewrite decide_True by done.
        destruct (validateDir_accept _ _ _ _ _ _ Hinv Hw Ho Hb E). split_and!; [done|lia..|done].
      * rewrite decide_False by done. split_and!; [done|lia..|done].
  - rewrite ValidateAndTrackAuto_half. destruct (len data =? 0); [intros [= <- <-]; simpl; split_and!; [done|lia..|done]|].
    destruct (validateAutoDir _ _ _) as [h e] eqn:E. intros [= <- <-].
    rewrite windowSize_set_half, get_set_half. unfold log_of.
    destruct e as [e|]; simpl; unfold accepted_in; simpl.
    + apply validateAutoDir_reject in E as ->. case_decide as Hd; [subst d'|split_and!; [done|lia..|done]].
      split_and!; [by apply (half_inv_same _ (get_half d r))|simpl; lia..|done].
    + destruct (decide (d' = d)) as [->|Hne]; simpl.
      * rewrite decide_True by done.
        destruct (validateAutoDir_accept _ _ _ _ _ Hinv Hw Hb E). split_and!; [done|lia..|done].
      * rewrite decide_False by done. split_and!; [done|lia..|done].
  - rewrite GetNextSequence_half. intros [= <- <-]. simpl.
    rewrite windowSize_set_half, get_set_half. case_decide as Hd; [subst d'|split_and!; [done|lia..|done]].
    simpl. rewrite u64_id by (word; lia). split_and!; [|lia..|done].
    destruct Hinv as [(e & He & Hwin) Hdw Hdi Hpast Hnd]. constructor; simpl; auto.
    + exists e. split; [lia | done].
    + intros s k Hk. destruct (Hpast s k Hk) as [?|[? ?]]; [by left | right; lia].
Qed.

Lemma log_of_app d l1 l2 : log_of d (l1 ++ l2) = log_of d l1 ++ log_of d l2.
Proof. unfold log_of. apply omap_app. Qed.

Lemma replay_exec_inv sum w os r r' log d past :
  0 <= w -> windowSize r = w -> Forall op_wf os -> half_inv w (get_half d r) past ->
  seq (get_half d r) + (len os + 1) * (2 * w + 1) < 2 ^ 64 ->
  exec sum r os = (r', log) ->
  half_inv w (get_half d r') (reverse (log_of d log) ++ past) /\
  windowSize r' = w /\ seq (get_half d r') <= seq (get_half d r) + len os * (2 * w + 1).
Proof.
  revert r log past. induction os as [|o os IH]; intros r log past Hw Hws Ho Hinv Hb; simpl.
  - intros [= <- <-]. unfold len. simpl. split_and!; [done|done|lia].
  - apply Forall_cons in Ho as [Ho Hos].
    destruct (exec1 sum r o) as [r1 a] eqn:E1. destruct (exec sum r1 os) as [r2 log2] eqn:E2.
    intros [= <- <-]. assert (len (o :: os) = 1 + len os) as Hl by (unfold len; simpl; lia).
    rewrite Hl in Hb |- *. pose proof (len_nonneg os).
    destruct (replay_exec1_inv _ _ _ _ _ _ d past Hw Hws Ho Hinv ltac:(nia) E1) as (Hinv1 & Hs1 & Hw1).
    destruct (IH _ _ _ Hw Hw1 Hos Hinv1 ltac:(nia) E2) as (Hinv2 & Hw2 & Hs2).
    split_and!; [|done|nia].
    replace (match a with Some x => x :: log2 | None => log2 end) with (option_list a ++ log2) by (by destruct a).
    rewrite log_of_app, reverse_app, <- app_assoc.
    replace (reverse (log_of d (option_list a))) with (log_of d (option_list a)); [done|].
    destruct a as [[[? ?] ?]|]; [|done]. unfold log_of, accepted_in; simpl. by case_decide.
Qed.

(** A trace short enough that the 64-bit sequence counters cannot wrap. *)
Definition no_wrap (w : Z) (os : list op) : Prop := (len os + 1) * (2 * w + 1) < 2 ^ 64.

Lemma exec_new_inv sum w os r' log d :
  0 <= w -> Forall op_wf os -> no_wrap w os ->
  exec sum (NewReplayProtectionWithWindow w) os = (r', log) ->
  half_inv w (get_half d r') (reverse (log_of d log)) /\ windowSize r' = w /\
  seq (get_half d r') + 2 * w + 1 < 2 ^ 64.
Proof.
  intros Hw Ho Hb He. unfold no_wrap in Hb.
  destruct (replay_exec_inv sum w os (NewReplayProtectionWithWindow w) r' log d [] Hw eq_refl Ho)
    as (Hi & Hws & Hs); [..|done|].
  - apply half_inv_empty; by destruct d.
  - destruct d; simpl; lia.
  - rewrite app_nil_r in Hi. split_and!; [done|done|]. destruct d; simpl in *; lia.
Qed.

(** A set inside an interval is no larger than the interval. *)
Lemma size_interval (X : gset Z) a n :
  0 <= n -> (forall x, x ∈ X -> a <= x < a + n) -> Z.of_nat (size X) <= n.
Proof.
  intros Hn HX. assert (X ⊆ list_to_set (seqZ a n)) as Hsub.
  { intros x Hx. apply elem_of_list_to_set, elem_of_seqZ. auto. }
  apply subseteq_size in Hsub.
  rewrite size_list_to_set, length_seqZ in Hsub by apply NoDup_seqZ. lia.
Qed.

Lemma half_inv_size w h past :
  0 <= w -> half_inv w h past ->
  Z.of_nat (size (window h)) <= w + 1 /\ (size (digests h) <= size (window h))%nat.
Proof.
  intros Hw [(e & He & Hwin) Hdw Hdi _ _]. split.
  - apply (size_interval _ (e - w - 1)); [lia|]. intros x Hx. apply Hwin in Hx. lia.
  - set (l := (map_to_list (digests h)).*2).
    assert (NoDup l) as Hl.
    { apply NoDup_fmap_2_strong; [|apply NoDup_map_to_list].
      intros [k1 x1] [k2 x2] H1%elem_of_map_to_list H2%elem_of_map_to_list; simpl.
      intros ->. f_equal. by eapply Hdi. }
    assert (list_to_set l ⊆ window h) as Hsub.
    { intros x. rewrite elem_of_list_to_set. unfold l. rewrite list_elem_of_fmap.
      intros ([k y] & -> & Hin%elem_of_map_to_list). by eapply Hdw. }
    apply subseteq_size in Hsub. rewrite size_list_to_set in Hsub by done.
    unfold l in Hsub. by rewrite length_fmap, length_map_to_list in Hsub.
Qed.

(** ** Properties *)

Section Properties.
Context (Sum256 : bytes -> bytes).

(** C27: No sequence number is accepted twice.  In every interleaving of
    validations and sequence-number allocations on a fresh instance (of a
    length at which the 64-bit counters cannot wrap), the sequence numbers
    accepted in one direction are pairwise distinct, however the window moves. *)
Theorem replay_sequence_unique w os r' log d :
  0 <= w -> Forall op_wf os -> no_wrap w os ->
  exec Sum256 (NewReplayProtectionWithWindow w) os = (r', log) ->
  NoDup (log_of d log).*1.
Proof.
  intros Hw Ho Hb He. destruct (exec_new_inv Sum256 w os r' log d Hw Ho Hb He) as ([_ _ _ _ Hnd] & _).
  by rewrite fmap_reverse, reverse_Permutation in Hnd.
Qed.

(** A replayed cell is caught while its original is inside the window.
    After any interleaving, submitting bytes with the digest of a cell that was
    accepted with sequence number [s] is refused by both entry points as long
    as [s] is at most a window behind, under whatever sequence number it is
    replayed; the refusal changes nothing but the attempt counter. *)
Theorem replay_duplicate_rejected w os r' log d s data seqNum :
  0 <= w -> Forall op_wf os -> no_wrap w os ->
  exec Sum256 (NewReplayProtectionWithWindow w) os = (r', log) ->
  (s, Sum256 data) ∈ log_of d log -> seq (get_half d r') - w <= s ->
  len data <> 0 ->
  ValidateAndTrackAuto Sum256 r' d data =
    (set_half d r' (count_attempt (get_half d r')),
     Some (ErrDuplicateDigest s (seq (get_half d r')))) /\
  ValidateAndTrack Sum256 r' d seqNum data =
    (set_half d r' (count_attempt (get_half d r')), Some (ErrDuplicateDigest s seqNum)).
Proof.
  intros Hw Ho Hb He Hin Hs Hne.
  destruct (exec_new_inv Sum256 w os r' log d Hw Ho Hb He) as (Hinv & Hws & _).
  assert (digests (get_half d r') !! Sum256 data = Some s) as Hd.
  { destruct (inv_past _ _ _ Hinv s (Sum256 data)) as [[_ ?]|[? ?]]; [|done|lia].
    by apply elem_of_reverse. }
  rewrite ValidateAndTrackAuto_half, ValidateAndTrack_half.
  rewrite (proj2 (Z.eqb_neq _ _) Hne). unfold validateAutoDir, validateDirLocked, validateDir.
  by rewrite Hd.
Qed.

(** The acceptance test is exact.  In every reachable state the checked
    entry point accepts a non-empty cell precisely when its digest is not
    remembered, its sequence number is not in the window, not more than a
    window behind and at most two windows ahead; and the automatic entry point
    accepts precisely the non-empty cells whose digest is not remembered. *)
Theorem replay_acceptance_exact w os r' log d seqNum data :
  0 <= w -> Forall op_wf os -> no_wrap w os -> is_u 64 seqNum ->
  exec Sum256 (NewReplayProtectionWithWindow w) os = (r', log) ->
  (snd (ValidateAndTrack Sum256 r' d seqNum data) = None <->
     len data <> 0 /\ digests (get_half d r') !! Sum256 data = None /\
     seqNum ∉ window (get_half d r') /\
     (w < seq (get_half d r') -> seq (get_half d r') - w <= seqNum) /\
     seqNum <= seq (get_half d r') + 2 * w) /\
  (snd (ValidateAndTrackAuto Sum256 r' d data) = None <->
     len data <> 0 /\ digests (get_half d r') !! Sum256 data = None).
Proof.
  intros Hw Ho Hb Hs He.
  destruct (exec_new_inv Sum256 w os r' log d Hw Ho Hb He) as (Hinv & Hws & Hseq).
  destruct (inv_window _ _ _ Hinv) as (e & Hpos & _).
  rewrite ValidateAndTrackAuto_half, ValidateAndTrack_half, Hws.
  destruct (Z.eqb_spec (len data) 0); [naive_solver|].
  unfold validateAutoDir, validateDirLocked, validateDir.
  destruct (digests (get_half d r') !! Sum256 data) eqn:Hd; [naive_solver|]. split.
  - pose proof (validateSequence_spec w seqNum (seq (get_half d r')) (window (get_half d r')) Hw Hs
      ltac:(lia) Hseq) as H.
    destruct (validateSequence _ _ _ _); simpl; naive_solver.
  - destruct (validateSequence w (seq (get_half d r')) (seq (get_half d r')) _) eqn:E; [|naive_solver].
    exfalso. enough (validateSequence w (seq (get_half d r')) (seq (get_half d r'))
      (window (get_half d r')) = None) by congruence.
    apply validateSequence_spec; [lia|word; lia|lia|lia|].
    split_and!; [eapply half_inv_fresh; [done|lia]|lia..].
Qed.

(** Bounded memory.  In every reachable state each direction remembers at
    most [windowSize + 1] sequence numbers and as many digests, however many
    cells have passed and in whatever order. *)
Theorem replay_memory_bounded w os r' log :
  0 <= w -> Forall op_wf os -> no_wrap w os ->
  exec Sum256 (NewReplayProtectionWithWindow w) os = (r', log) ->
  let st := Stats r' in
  ForwardWindowSize st <= w + 1 /\ BackwardWindowSize st <= w + 1 /\
  ForwardDigests st <= w + 1 /\ BackwardDigests st <= w + 1.
Proof.
  intros Hw Ho Hb He.
  destruct (exec_new_inv Sum256 w os r' log ReplayForward Hw Ho Hb He) as (Hf & _).
  destruct (exec_new_inv Sum256 w os r' log ReplayBackward Hw Ho Hb He) as (Hbk & _).
  apply half_inv_size in Hf as []; [|done]. apply half_inv_size in Hbk as []; [|done].
  simpl in *. lia.
Qed.

End Properties.

(** Witnesses: the digest function is instantiated by the identity. *)

Definition sample_ops : list op :=
  [OpAuto ReplayBackward [1]; OpValidate ReplayForward 2 [2]; OpValidate ReplayForward 0 [3];
   OpValidate ReplayForward 2 [4]; OpNext ReplayForward; OpAuto ReplayBackward [1]; OpAuto ReplayBackward [5]].

Definition sample_run := exec id (NewReplayProtectionWithWindow 32) sample_ops.

Lemma sample_ops_wf : Forall op_wf sample_ops /\ no_wrap 32 sample_ops.
Proof. split; [apply (bool_decide_unpack _); vm_compute; exact I | vm_compute; done]. Qed.

Lemma replay_sequence_unique_witness :
  NoDup (log_of ReplayForward (snd sample_run)).*1 /\ (log_of ReplayForward (snd sample_run)).*1 = [2; 0].
Proof.
  split; [|vm_compute; reflexivity].
  apply (replay_sequence_unique id 32 sample_ops (fst sample_run) (snd sample_run) ReplayForward);
    [lia | apply sample_ops_wf | apply sample_ops_wf | vm_compute; reflexivity].
Defined.

Lemma replay_duplicate_rejected_witness :
  snd (ValidateAndTrackAuto id (fst sample_run) ReplayBackward [1]) = Some (ErrDuplicateDigest 0 2).
Proof.
  assert (seq (get_half ReplayBackward (fst sample_run)) = 2) as Hs by (vm_compute; reflexivity).
  destruct (replay_duplicate_rejected id 32 sample_ops (fst sample_run) (snd sample_run)
    ReplayBackward 0 [1] 7) as [H _];
    [lia | apply sample_ops_wf | apply sample_ops_wf | vm_compute; reflexivity
    | apply (bool_decide_unpack _); vm_compute; exact I | rewrite Hs; lia | vm_compute; done |].
  rewrite H, Hs. reflexivity.
Defined.

Lemma replay_acceptance_exact_witness :
  snd (ValidateAndTrackAuto id (fst sample_run) ReplayForward [9]) = None.
Proof.
  apply (replay_acceptance_exact id 32 sample_ops (fst sample_run) (snd sample_run) ReplayForward 5 [9]);
    [lia | apply sample_ops_wf | apply sample_ops_wf | by split | vm_compute; reflexivity
    | split; [done | vm_compute; reflexivity]].
Defined.

Lemma replay_memory_bounded_witness : ForwardWindowSize (Stats (fst sample_run)) <= 33.
Proof.
  apply (replay_memory_bounded id 32 sample_ops (fst sample_run) (snd sample_run));
    [lia | apply sample_ops_wf | apply sample_ops_wf | vm_compute; reflexivity].
Defined.

(** Digests older than the window are forgotten, so a cell replayed after more
    than a window of other cells is accepted again. *)
Example replay_after_window :
  snd (ValidateAndTrackAuto id
    (fst (exec id (NewReplayProtectionWithWindow 2) (map (fun b => OpAuto ReplayBackward [b]) [1; 2; 3; 4])))
    ReplayBackward [1]) = None.
Proof. vm_compute. reflexivity. Qed.

End Replay.
