(* ===== verification/CCParams.v ===== *)
(** * Congestion-control parameters (pkg/circuit/ccparams.go)

    The consensus parameters of proposal 324 with the defaults and the
    admissible ranges of the code.  A consensus parameter table is a
    [gmap string Z]; a nil table is [None]. *)

From S2P Require Import Prelude.

Module CCParams.

Record CCParams := mkCC {
  CwndInit : Z;
  CwndMin : Z;
  CwndMax : Z;
  CwndInc : Z;
  CwndIncRate : Z;
  CwndIncPctSS : Z;
  VegasAlpha : Z;
  VegasBeta : Z;
  VegasGamma : Z;
  VegasDelta : Z;
  SSCap : Z;
  SSMax : Z;
  CwndFullGap : Z;
  CwndFullMinPct : Z;
  CwndFullPerCwnd : Z;
  EwmaSS : Z;
  EwmaCwndPct : Z;
  EwmaMax : Z;
  RTTResetPct : Z;
}.

Definition tlsRecordMaxCells : Z := 31.
Definition sendmeIncDefault : Z := tlsRecordMaxCells.
Definition circWindowInit : Z := 4 * sendmeIncDefault.
Definition outbufCells : Z := 2 * tlsRecordMaxCells.
Definition int32Max : Z := 2 ^ 31 - 1.

Definition DefaultCCParams : CCParams := {|
  CwndInit := circWindowInit;
  CwndMin := circWindowInit;
  CwndMax := int32Max;
  CwndInc := 1;
  CwndIncRate := sendmeIncDefault;
  CwndIncPctSS := 100;
  VegasAlpha := 3 * outbufCells;
  VegasBeta := 4 * outbufCells;
  VegasGamma := 3 * outbufCells;
  VegasDelta := 5 * outbufCells;
  SSCap := 600;
  SSMax := 5000;
  CwndFullGap := 4;
  CwndFullMinPct := 25;
  CwndFullPerCwnd := 1;
  EwmaSS := 2;
  EwmaCwndPct := 50;
  EwmaMax := 10;
  RTTResetPct := 100;
|}.

Definition pickParam (params : gmap string Z) (key : string) (def min max : Z) : Z :=
  let v := match params !! key with Some p => p | None => def end in
  if v <? min then min else if max <? v then max else v.

(** The overrides both consensus readers apply; [suffix] selects the exit or
    the onion-service keys. *)
Definition overrideParams (suffix : string) (p : CCParams) (params : gmap string Z) : CCParams := {|
  CwndInit := pickParam params "cc_cwnd_init" (CwndInit p) sendmeIncDefault 10000;
  CwndMin := pickParam params "cc_cwnd_min" (CwndMin p) sendmeIncDefault 1000;
  CwndMax := pickParam params "cc_cwnd_max" (CwndMax p) 500 int32Max;
  CwndInc := pickParam params "cc_cwnd_inc" (CwndInc p) 1 1000;
  CwndIncRate := pickParam params "cc_cwnd_inc_rate" (CwndIncRate p) 1 250;
  CwndIncPctSS := pickParam params "cc_cwnd_inc_pct_ss" (CwndIncPctSS p) 1 500;
  VegasAlpha := pickParam params ("cc_vegas_alpha_" +:+ suffix) (VegasAlpha p) 0 1000;
  VegasBeta := pickParam params ("cc_vegas_beta_" +:+ suffix) (VegasBeta p) 0 1000;
  VegasGamma := pickParam params ("cc_vegas_gamma_" +:+ suffix) (VegasGamma p) 0 1000;
  VegasDelta := pickParam params ("cc_vegas_delta_" +:+ suffix) (VegasDelta p) 0 int32Max;
  SSCap := pickParam params ("cc_sscap_" +:+ suffix) (SSCap p) 100 int32Max;
  SSMax := pickParam params "cc_ss_max" (SSMax p) 500 int32Max;
  CwndFullGap := pickParam params "cc_cwnd_full_gap" (CwndFullGap p) 0 32767;
  CwndFullMinPct := pickParam params "cc_cwnd_full_minpct" (CwndFullMinPct p) 0 100;
  CwndFullPerCwnd := pickParam params "cc_cwnd_full_per_cwnd" (CwndFullPerCwnd p) 0 1;
  EwmaSS := pickParam params "cc_ewma_ss" (EwmaSS p) 1 100;
  EwmaCwndPct := pickParam params "cc_ewma_cwnd_pct" (EwmaCwndPct p) 1 100;
  EwmaMax := pickParam params "cc_ewma_max" (EwmaMax p) 2 100;
  RTTResetPct := pickParam params "cc_rtt_reset_pct" (RTTResetPct p) 0 100;
|}.

Definition CCParamsFromConsensus (params : option (gmap string Z)) : CCParams :=
  match params with
  | None => DefaultCCParams
  | Some params => overrideParams "exit" DefaultCCParams params
  end.

Definition DefaultOnionCCParams : CCParams :=
  let p := DefaultCCParams in
  {| CwndInit := CwndInit p; CwndMin := CwndMin p; CwndMax := CwndMax p; CwndInc := CwndInc p;
     CwndIncRate := CwndIncRate p; CwndIncPctSS := CwndIncPctSS p; VegasAlpha := VegasAlpha p;
     VegasBeta := 6 * outbufCells; VegasGamma := 4 * outbufCells; VegasDelta := 7 * outbufCells;
     SSCap := 475;
     SSMax := SSMax p; CwndFullGap := CwndFullGap p; CwndFullMinPct := CwndFullMinPct p;
     CwndFullPerCwnd := CwndFullPerCwnd p; EwmaSS := EwmaSS p; EwmaCwndPct := EwmaCwndPct p;
     EwmaMax := EwmaMax p; RTTResetPct := RTTResetPct p |}.

Definition CCParamsOnionFromConsensus (params : option (gmap string Z)) : CCParams :=
  match params with
  | None => DefaultOnionCCParams
  | Some params => overrideParams "onion" DefaultOnionCCParams params
  end.

(** Reading a nil map finds no key. *)
Definition ConsensusSendmeInc (params : option (gmap string Z)) : Z :=
  pickParam (default ∅ params) "cc_sendme_inc" sendmeIncDefault 1 250.

(** ** Admissible parameters *)

Definition params_wf (p : CCParams) : Prop :=
  31 <= CwndInit p <= 10000 /\ 31 <= CwndMin p <= 1000 /\ 500 <= CwndMax p <= int32Max /\
  1 <= CwndInc p <= 1000 /\ 1 <= CwndIncRate p <= 250 /\ 1 <= CwndIncPctSS p <= 500 /\
  0 <= VegasAlpha p <= 1000 /\ 0 <= VegasBeta p <= 1000 /\ 0 <= VegasGamma p <= 1000 /\
  0 <= VegasDelta p <= int32Max /\ 100 <= SSCap p <= int32Max /\ 500 <= SSMax p <= int32Max /\
  0 <= CwndFullGap p <= 32767 /\ 0 <= CwndFullMinPct p <= 100 /\ 0 <= CwndFullPerCwnd p <= 1 /\
  1 <= EwmaSS p <= 100 /\ 1 <= EwmaCwndPct p <= 100 /\ 2 <= EwmaMax p <= 100 /\
  0 <= RTTResetPct p <= 100.

Global Instance params_wf_dec p : Decision (params_wf p).
Proof. unfold params_wf. apply _. Defined.

Lemma pickParam_range params key def lo hi :
  lo <= hi -> lo <= pickParam params key def lo hi <= hi.
Proof. intros. unfold pickParam. cases; lia. Qed.

Lemma pickParam_absent params key def lo hi :
  params !! key = None -> lo <= def <= hi -> pickParam params key def lo hi = def.
Proof. intros H ?. unfold pickParam. rewrite H. cases; lia. Qed.

Lemma overrideParams_wf suffix p params : params_wf (overrideParams suffix p params).
Proof.
  unfold params_wf, overrideParams, int32Max, sendmeIncDefault, tlsRecordMaxCells; simpl.
  split_and!; apply pickParam_range; lia.
Qed.

(** Whatever numbers a consensus carries, the congestion-control parameters
    taken from it lie in the ranges of the reference implementation, for exit
    and for onion-service circuits; and a missing table and an empty table both
    give the defaults. *)
Theorem consensus_params_admissible (params : option (gmap string Z)) :
  params_wf (CCParamsFromConsensus params) /\ params_wf (CCParamsOnionFromConsensus params) /\
  1 <= ConsensusSendmeInc params <= 250 /\
  CCParamsFromConsensus (Some ∅) = DefaultCCParams /\
  CCParamsOnionFromConsensus (Some ∅) = DefaultOnionCCParams /\
  ConsensusSendmeInc None = sendmeIncDefault.
Proof.
  assert (params_wf DefaultCCParams) by (apply (bool_decide_unpack _); vm_compute; exact I).
  assert (params_wf DefaultOnionCCParams) by (apply (bool_decide_unpack _); vm_compute; exact I).
  split; [destruct params; [apply overrideParams_wf | done]|].
  split; [destruct params; [apply overrideParams_wf | done]|].
  split; [apply pickParam_range; lia|].
  split_and!; vm_compute; reflexivity.
Qed.

End CCParams.
