(* ===== verification/Vegas.v ===== *)
(** * TOR_VEGAS congestion control (pkg/circuit/vegas.go)

    The per-circuit Vegas state and every step of [processSendme].  Go's [int]
    and [int64] wrap at 64 bits: each arithmetic operation is wrapped with
    [i64], and division truncates towards zero ([Z.quot]).  The process-wide
    flag [monotimeClockBroken] is threaded through explicitly. *)

From S2P Require Import Prelude CCParams.
Import CCParams.

Module Vegas.

Record vegasState := mkVegas {
  params : CCParams;
  sendmeInc : Z;
  cwnd : Z;
  inflight : Z;
  inSlowStart : bool;
  cwndFull : bool;
  nextCCEvent : Z;
  nextCwndEvent : Z;
  minRTTUsec : Z;
  maxRTTUsec : Z;
  ewmaRTTUsec : Z;
  bdp : Z;
  blockedChan : bool;
}.

(** Field updates. *)
Definition set_cwnd (s : vegasState) (v : Z) : vegasState :=
  mkVegas (params s) (sendmeInc s) v (inflight s) (inSlowStart s) (cwndFull s) (nextCCEvent s)
    (nextCwndEvent s) (minRTTUsec s) (maxRTTUsec s) (ewmaRTTUsec s) (bdp s) (blockedChan s).
Definition set_inflight (s : vegasState) (v : Z) : vegasState :=
  mkVegas (params s) (sendmeInc s) (cwnd s) v (inSlowStart s) (cwndFull s) (nextCCEvent s)
    (nextCwndEvent s) (minRTTUsec s) (maxRTTUsec s) (ewmaRTTUsec s) (bdp s) (blockedChan s).
Definition set_inSlowStart (s : vegasState) (v : bool) : vegasState :=
  mkVegas (params s) (sendmeInc s) (cwnd s) (inflight s) v (cwndFull s) (nextCCEvent s)
    (nextCwndEvent s) (minRTTUsec s) (maxRTTUsec s) (ewmaRTTUsec s) (bdp s) (blockedChan s).
Definition set_cwndFull (s : vegasState) (v : bool) : vegasState :=
  mkVegas (params s) (sendmeInc s) (cwnd s) (inflight s) (inSlowStart s) v (nextCCEvent s)
    (nextCwndEvent s) (minRTTUsec s) (maxRTTUsec s) (ewmaRTTUsec s) (bdp s) (blockedChan s).
Definition set_events (s : vegasState) (cc cw : Z) : vegasState :=
  mkVegas (params s) (sendmeInc s) (cwnd s) (inflight s) (inSlowStart s) (cwndFull s) cc
    cw (minRTTUsec s) (maxRTTUsec s) (ewmaRTTUsec s) (bdp s) (blockedChan s).
Definition set_rtts (s : vegasState) (mn mx ew : Z) : vegasState :=
  mkVegas (params s) (sendmeInc s) (cwnd s) (inflight s) (inSlowStart s) (cwndFull s) (nextCCEvent s)
    (nextCwndEvent s) mn mx ew (bdp s) (blockedChan s).
Definition set_bdp (s : vegasState) (v : Z) : vegasState :=
  mkVegas (params s) (sendmeInc s) (cwnd s) (inflight s) (inSlowStart s) (cwndFull s) (nextCCEvent s)
    (nextCwndEvent s) (minRTTUsec s) (maxRTTUsec s) (ewmaRTTUsec s) v (blockedChan s).
Definition set_blockedChan (s : vegasState) (v : bool) : vegasState :=
  mkVegas (params s) (sendmeInc s) (cwnd s) (inflight s) (inSlowStart s) (cwndFull s) (nextCCEvent s)
    (nextCwndEvent s) (minRTTUsec s) (maxRTTUsec s) (ewmaRTTUsec s) (bdp s) v.

Definition set_CwndInit (p : CCParams) (v : Z) : CCParams :=
  {| CwndInit := v; CwndMin := CwndMin p; CwndMax := CwndMax p; CwndInc := CwndInc p;
     CwndIncRate := CwndIncRate p; CwndIncPctSS := CwndIncPctSS p; VegasAlpha := VegasAlpha p;
     VegasBeta := VegasBeta p; VegasGamma := VegasGamma p; VegasDelta := VegasDelta p;
     SSCap := SSCap p; SSMax := SSMax p; CwndFullGap := CwndFullGap p;
     CwndFullMinPct := CwndFullMinPct p; CwndFullPerCwnd := CwndFullPerCwnd p; EwmaSS := EwmaSS p;
     EwmaCwndPct := EwmaCwndPct p; EwmaMax := EwmaMax p; RTTResetPct := RTTResetPct p |}.

Definition newVegasState (p : CCParams) (inc : Z) : vegasState :=
  let inc := if inc <? 1 then sendmeIncDefault else inc in
  let p := if CwndInit p <? inc then set_CwndInit p inc else p in
  mkVegas p inc (CwndInit p) 0 true false 1 0 0 0 0 0 false.

Definition packageWindow (s : vegasState) : Z :=
  if cwnd s <=? inflight s then 0 else i64 (cwnd s - inflight s).

Definition sendmePerCwnd (cwnd sendmeInc : Z) : Z :=
  let sendmeInc := if sendmeInc <? 1 then 1 else sendmeInc in
  Z.quot (i64 (cwnd + Z.quot sendmeInc 2)) sendmeInc.

Definition cwndUpdateRate (cwnd incRate sendmeInc : Z) (inSlowStart : bool) : Z :=
  if inSlowStart then 1
  else
    let den := i64 (incRate * sendmeInc) in
    let den := if den <? 1 then 1 else den in
    Z.quot (i64 (cwnd + Z.quot den 2)) den.

Definition nCountEWMA (curr prev n : Z) : Z :=
  let n := if n <? 1 then 1 else n in
  Z.quot (i64 (i64 (curr * 2) + i64 (prev * i64 (n - 1)))) (i64 (n + 1)).

Definition percentMaxMix (a b pctMax : Z) : Z :=
  let pctMax := if pctMax <? 0 then 0 else pctMax in
  let pctMax := if 100 <? pctMax then 100 else pctMax in
  let '(maxV, minV) := if a <? b then (b, a) else (a, b) in
  Z.quot (i64 (i64 (maxV * pctMax) + i64 (minV * (100 - pctMax)))) 100.

Definition deltaDiscrepancyRatioMax : Z := 5000.

(** The verdict and the new value of [monotimeClockBroken]. *)
Definition timeDeltaStalledOrJumped (broken : bool) (inSlowStart : bool) (ewma newDelta : Z) : bool * bool :=
  if newDelta <=? 0 then (true, true)
  else if inSlowStart || (ewma =? 0) then (false, broken)
  else if i64 (ewma * deltaDiscrepancyRatioMax) <? newDelta then (true, broken)
  else if i64 (newDelta * deltaDiscrepancyRatioMax) <? ewma then (broken, broken)
  else (false, false).

Definition nEWMACount (s : vegasState) : Z :=
  let n :=
    if inSlowStart s then EwmaSS (params s)
    else
      let n := Z.quot (i64 (cwndUpdateRate (cwnd s) (CwndIncRate (params s)) (sendmeInc s) false *
                            EwmaCwndPct (params s))) 100 in
      if EwmaMax (params s) <? n then EwmaMax (params s) else n in
  if n <? 2 then 2 else n.

Definition rfc3742SSInc (s : vegasState) : Z :=
  if cwnd s <=? 0 then 1
  else if cwnd s <=? SSCap (params s)
  then Z.quot (i64 (i64 (CwndIncPctSS (params s) * sendmeInc s) + 50)) 100
  else
    let inc := Z.quot (i64 (i64 (sendmeInc s * SSCap (params s)) + cwnd s)) (i64 (2 * cwnd s)) in
    if inc <? 1 then 1 else inc.

Definition cwndBecameFull (s : vegasState) : bool :=
  cwnd s <=? i64 (inflight s + i64 (CwndFullGap (params s) * sendmeInc s)).

Definition cwndBecameNonfull (s : vegasState) : bool :=
  i64 (100 * inflight s) <? i64 (CwndFullMinPct (params s) * cwnd s).

Definition cwndFullReset (s : vegasState) : bool :=
  if CwndFullPerCwnd (params s) =? 1
  then nextCwndEvent s =? sendmePerCwnd (cwnd s) (sendmeInc s)
  else nextCCEvent s =? cwndUpdateRate (cwnd s) (CwndIncRate (params s)) (sendmeInc s) (inSlowStart s).

Definition ackInflight (s : vegasState) : vegasState :=
  let v := i64 (inflight s - sendmeInc s) in
  set_inflight s (if v <? 0 then 0 else v).

Definition updateEstimates (broken : bool) (s : vegasState) (rttUsec : Z) : bool * vegasState * bool :=
  let '(stalled, broken) := timeDeltaStalledOrJumped broken (inSlowStart s) (ewmaRTTUsec s) rttUsec in
  if stalled then (broken, s, false)
  else
    let ewma := nCountEWMA rttUsec (ewmaRTTUsec s) (nEWMACount s) in
    let mx := if maxRTTUsec s <? rttUsec then rttUsec else maxRTTUsec s in
    let mn :=
      if minRTTUsec s =? 0 then ewma
      else if (cwnd s =? CwndMin (params s)) && negb (inSlowStart s)
      then percentMaxMix ewma (minRTTUsec s) (RTTResetPct (params s))
      else if ewma <? minRTTUsec s then ewma
      else minRTTUsec s in
    let s := set_rtts s mn mx ewma in
    if ewma =? 0 then (broken, set_bdp s (cwnd s), blockedChan s)
    else (broken, set_bdp s (Z.quot (i64 (cwnd s * mn)) ewma), true).

Definition clampCwnd (s : vegasState) : vegasState :=
  let s := if CwndMax (params s) <? cwnd s then set_cwnd s (CwndMax (params s)) else s in
  if cwnd s <? 1 then set_cwnd s 1 else s.

Definition exitSlowStart (s : vegasState) : vegasState := set_inSlowStart s false.

Definition slowStart (s : vegasState) (queueUse : Z) : vegasState :=
  let s :=
    if (queueUse <? VegasGamma (params s)) && negb (blockedChan s) then
      if cwndFull s then
        let inc := rfc3742SSInc s in
        let s := set_cwnd s (i64 (cwnd s + inc)) in
        if i64 (inc * sendmePerCwnd (cwnd s) (sendmeInc s)) <=?
           i64 (CwndInc (params s) * CwndIncRate (params s))
        then exitSlowStart s else s
      else s
    else exitSlowStart (set_cwnd s (i64 (bdp s + VegasGamma (params s)))) in
  let s :=
    if SSMax (params s) <=? cwnd s
    then exitSlowStart (set_cwnd s (SSMax (params s))) else s in
  clampCwnd s.

Definition congestionAvoidance (s : vegasState) (queueUse : Z) : vegasState :=
  let s :=
    if VegasDelta (params s) <? queueUse
    then set_cwnd s (i64 (i64 (bdp s + VegasDelta (params s)) - CwndInc (params s)))
    else if (VegasBeta (params s) <? queueUse) || blockedChan s
    then set_cwnd s (i64 (cwnd s - CwndInc (params s)))
    else if cwndFull s && (queueUse <? VegasAlpha (params s))
    then set_cwnd s (i64 (cwnd s + CwndInc (params s)))
    else s in
  let s := if cwnd s <? CwndMin (params s) then set_cwnd s (CwndMin (params s)) else s in
  clampCwnd s.

Definition queueUse (s : vegasState) : Z :=
  if cwnd s <? bdp s then 0 else i64 (cwnd s - bdp s).

Definition processSendme (broken : bool) (s : vegasState) (rttUsec : Z) : bool * vegasState :=
  let s := set_events s
    (if 0 <? nextCCEvent s then nextCCEvent s - 1 else nextCCEvent s)
    (if 0 <? nextCwndEvent s then nextCwndEvent s - 1 else nextCwndEvent s) in
  let '(broken, s, ok) := updateEstimates broken s rttUsec in
  if negb ok then (broken, ackInflight s)
  else
    let queueUse := if bdp s <=? cwnd s then i64 (cwnd s - bdp s) else 0 in
    let s :=
      if cwndBecameFull s then set_cwndFull s true
      else if cwndBecameNonfull s then set_cwndFull s false
      else s in
    let s :=
      if inSlowStart s then slowStart s queueUse
      else if nextCCEvent s =? 0 then congestionAvoidance s queueUse
      else s in
    let s := if nextCwndEvent s =? 0
             then set_events s (nextCCEvent s) (sendmePerCwnd (cwnd s) (sendmeInc s)) else s in
    let s := if nextCCEvent s =? 0
             then set_events s (cwndUpdateRate (cwnd s) (CwndIncRate (params s)) (sendmeInc s) (inSlowStart s))
                    (nextCwndEvent s) else s in
    let s := if cwndFullReset s then set_cwndFull s false else s in
    (broken, ackInflight s).

(** ** Snapshot and the exported wrapper *)

Record VegasSnapshot := mkSnapshot {
  Enabled : bool;
  InSlowStart : bool;
  Cwnd : Z;
  Inflight : Z;
  BDP : Z;
  QueueUse : Z;
  SendmeInc : Z;
  BlockedChan : bool;
  MinRTT : Z;
  EWMA : Z;
}.

Definition zero_snapshot : VegasSnapshot := mkSnapshot false false 0 0 0 0 0 false 0 0.

(** Durations in nanoseconds. *)
Definition snapshot (s : option vegasState) : VegasSnapshot :=
  match s with
  | None => zero_snapshot
  | Some s =>
      mkSnapshot true (inSlowStart s) (cwnd s) (inflight s) (bdp s) (queueUse s) (sendmeInc s)
        (blockedChan s) (i64 (minRTTUsec s * 1000)) (i64 (ewmaRTTUsec s * 1000))
  end.

Definition OnDataSent (v : option vegasState) : option vegasState :=
  match v with None => None | Some s => Some (set_inflight s (i64 (inflight s + 1))) end.

Definition ShouldRecordSendme (v : option vegasState) : bool :=
  match v with
  | None => false
  | Some s => if sendmeInc s <? 1 then false else Z.rem (inflight s) (sendmeInc s) =? 0
  end.

Definition ProcessSendme (broken : bool) (v : option vegasState) (rttUsec : Z) : bool * option vegasState :=
  match v with
  | None => (broken, None)
  | Some s => let '(b, s) := processSendme broken s rttUsec in (b, Some s)
  end.

Definition SetBlockedChan (v : option vegasState) (blocked : bool) : option vegasState :=
  match v with None => None | Some s => Some (set_blockedChan s blocked) end.

Definition PackageWindow (v : option vegasState) : Z :=
  match v with None => 0 | Some s => packageWindow s end.

Definition Snapshot (v : option vegasState) : VegasSnapshot := snapshot v.

(** ** Invariant *)

Record vegas_wf (s : vegasState) : Prop := {
  wf_params : params_wf (params s);
  wf_inc : 1 <= sendmeInc s <= 250;
  wf_cwnd : 1 <= cwnd s < 2 ^ 31;
  wf_inflight : 0 <= inflight s < 2 ^ 62;
}.

Lemma wf_CwndMax s : vegas_wf s -> 500 <= CwndMax (params s) < 2 ^ 31.
Proof. intros [(_ & _ & ? & _) _ _ _]. unfold int32Max in *. lia. Qed.

Lemma newVegasState_wf p inc :
  params_wf p -> inc <= 250 -> vegas_wf (newVegasState p inc).
Proof.
  intros Hp Hi. pose proof Hp as Hp'. unfold params_wf in Hp'.
  unfold newVegasState, sendmeIncDefault, tlsRecordMaxCells. destruct (Z.ltb_spec inc 1).
  - rewrite (proj2 (Z.ltb_ge _ _)) by lia. constructor; simpl; auto; lia.
  - destruct (Z.ltb_spec (CwndInit p) inc); constructor; simpl; auto; try lia.
    unfold params_wf; simpl. lia.
Qed.

(** What one step may change. *)
Record same_config (s s' : vegasState) : Prop := {
  same_params : params s' = params s;
  same_inc : sendmeInc s' = sendmeInc s;
  same_inflight : inflight s' = inflight s;
  ss_monotone : inSlowStart s' = true -> inSlowStart s = true;
}.

Lemma same_config_refl s : same_config s s.
Proof. by constructor. Qed.

Lemma same_config_trans s1 s2 s3 : same_config s1 s2 -> same_config s2 s3 -> same_config s1 s3.
Proof. intros [] []. constructor; [congruence..|auto]. Qed.

#[local] Hint Resolve same_config_refl : gotor.

Ltac config := repeat first [ progress simpl | case_if ]; by constructor.

Lemma clampCwnd_config s : same_config s (clampCwnd s).
Proof. unfold clampCwnd. config. Qed.

Lemma clampCwnd_cwnd s : cwnd (clampCwnd s) = Z.max 1 (Z.min (CwndMax (params s)) (cwnd s)).
Proof.
  unfold clampCwnd. destruct (Z.ltb_spec (CwndMax (params s)) (cwnd s)); simpl; case_if; bool_to_prop; simpl; lia.
Qed.

Lemma slowStart_config s q : same_config s (slowStart s q).
Proof. eapply same_config_trans; [|apply clampCwnd_config]. config. Qed.

Lemma congestionAvoidance_config s q : same_config s (congestionAvoidance s q).
Proof. eapply same_config_trans; [|apply clampCwnd_config]. config. Qed.

Lemma slowStart_cwnd s q :
  500 <= CwndMax (params s) -> 1 <= cwnd (slowStart s q) <= CwndMax (params s).
Proof.
  intros H. unfold slowStart. rewrite clampCwnd_cwnd.
  match goal with |- context [CwndMax (params ?t)] => assert (params t = params s) as -> end; [|lia].
  repeat first [ progress simpl | case_if ]; done.
Qed.

Lemma congestionAvoidance_cwnd s q :
  500 <= CwndMax (params s) -> 1 <= cwnd (congestionAvoidance s q) <= CwndMax (params s).
Proof.
  intros H. unfold congestionAvoidance. rewrite clampCwnd_cwnd.
  match goal with |- context [CwndMax (params ?t)] => assert (params t = params s) as -> end; [|lia].
  repeat first [ progress simpl | case_if ]; done.
Qed.

Lemma updateEstimates_config b s rtt b' s' ok :
  updateEstimates b s rtt = (b', s', ok) -> same_config s s' /\ cwnd s' = cwnd s /\
    nextCCEvent s' = nextCCEvent s /\ cwndFull s' = cwndFull s /\ blockedChan s' = blockedChan s.
Proof.
  unfold updateEstimates. destruct (timeDeltaStalledOrJumped _ _ _ _) as [st b1].
  intros H. destruct st; simplify_eq; [by split_and!; auto with gotor|].
  case_if; simplify_eq; simpl; split_and!; try done; by constructor.
Qed.

(** The part of [processSendme] between the estimates and the final
    acknowledgement. *)
Definition vegas_round (s : vegasState) : vegasState :=
  let queueUse := if bdp s <=? cwnd s then i64 (cwnd s - bdp s) else 0 in
  let s :=
    if cwndBecameFull s then set_cwndFull s true
    else if cwndBecameNonfull s then set_cwndFull s false
    else s in
  let s :=
    if inSlowStart s then slowStart s queueUse
    else if nextCCEvent s =? 0 then congestionAvoidance s queueUse
    else s in
  let s := if nextCwndEvent s =? 0
           then set_events s (nextCCEvent s) (sendmePerCwnd (cwnd s) (sendmeInc s)) else s in
  let s := if nextCCEvent s =? 0
           then set_events s (cwndUpdateRate (cwnd s) (CwndIncRate (params s)) (sendmeInc s) (inSlowStart s))
                  (nextCwndEvent s) else s in
  if cwndFullReset s then set_cwndFull s false else s.

Definition tick_events (s : vegasState) : vegasState := set_events s
  (if 0 <? nextCCEvent s then nextCCEvent s - 1 else nextCCEvent s)
  (if 0 <? nextCwndEvent s then nextCwndEvent s - 1 else nextCwndEvent s).

Lemma processSendme_round b s rtt :
  processSendme b s rtt =
    let '(b, s, ok) := updateEstimates b (tick_events s) rtt in
    (b, ackInflight (if ok then vegas_round s else s)).
Proof.
  unfold processSendme. fold (tick_events s).
  destruct (updateEstimates b (tick_events s) rtt) as [[b1 s1] []]; done.
Qed.

Lemma vegas_round_config s : same_config s (vegas_round s).
Proof.
  unfold vegas_round.
  set (s1 := if cwndBecameFull s then _ else _).
  assert (same_config s s1) as H1 by (unfold s1; config).
  eapply same_config_trans; [exact H1|].
  set (s2 := if inSlowStart s1 then _ else _).
  assert (same_config s1 s2) as H2.
  { unfold s2. case_if; [apply slowStart_config|].
    case_if; [apply congestionAvoidance_config | apply same_config_refl]. }
  eapply same_config_trans; [exact H2|]. clearbody s2. config.
Qed.

(** Counters and flags aside, a round sets the window by one of three rules. *)
Lemma vegas_round_cwnd s :
  exists s1, params s1 = params s /\ sendmeInc s1 = sendmeInc s /\ cwnd s1 = cwnd s /\ bdp s1 = bdp s /\
    blockedChan s1 = blockedChan s /\ inSlowStart s1 = inSlowStart s /\
  cwnd (vegas_round s) =
    if inSlowStart s then cwnd (slowStart s1 (queueUse s))
    else if nextCCEvent s =? 0 then cwnd (congestionAvoidance s1 (queueUse s))
    else cwnd s.
Proof.
  set (s1 := if cwndBecameFull s then set_cwndFull s true
    else if cwndBecameNonfull s then set_cwndFull s false else s).
  exists s1. split_and!; try (unfold s1; repeat case_if; done).
  unfold vegas_round. fold s1.
  assert ((if bdp s <=? cwnd s then i64 (cwnd s - bdp s) else 0) = queueUse s) as ->.
  { unfold queueUse. destruct (Z.leb_spec (bdp s) (cwnd s)), (Z.ltb_spec (cwnd s) (bdp s)); done || lia. }
  assert (inSlowStart s1 = inSlowStart s) as -> by (unfold s1; repeat case_if; done).
  assert (nextCCEvent s1 = nextCCEvent s) as -> by (unfold s1; repeat case_if; done).
  assert (cwnd s1 = cwnd s) as Hc by (unfold s1; repeat case_if; done).
  destruct (inSlowStart s); [|destruct (nextCCEvent s =? 0)];
    repeat (case_if; simpl); done.
Qed.

Lemma vegas_round_bounds s :
  vegas_wf s -> 1 <= cwnd (vegas_round s) < 2 ^ 31 /\
  (cwnd s <= CwndMax (params s) -> cwnd (vegas_round s) <= CwndMax (params s)).
Proof.
  intros Hs. pose proof (wf_CwndMax s Hs). pose proof (wf_cwnd s Hs).
  destruct (vegas_round_cwnd s) as (s1 & Hp & _ & Hc & _ & _ & _ & ->).
  repeat case_if; [|..|lia].
  - pose proof (slowStart_cwnd s1 (queueUse s)). rewrite Hp in *. lia.
  - pose proof (congestionAvoidance_cwnd s1 (queueUse s)). rewrite Hp in *. lia.
Qed.

Lemma ackInflight_inflight s :
  vegas_wf s -> inflight (ackInflight s) = Z.max 0 (inflight s - sendmeInc s).
Proof.
  intros Hs. pose proof (wf_inflight s Hs). pose proof (wf_inc s Hs).
  unfold ackInflight; simpl. rewrite i64_id by word. case_if; bool_to_prop; lia.
Qed.

Lemma vegas_wf_config s s' :
  vegas_wf s -> same_config s s' -> 1 <= cwnd s' < 2 ^ 31 -> vegas_wf s'.
Proof. intros [] [Hp Hi Hf _] ?. constructor; rewrite ?Hp, ?Hi, ?Hf; auto. Qed.

Lemma processSendme_step b s rtt b' s' :
  vegas_wf s -> processSendme b s rtt = (b', s') ->
  vegas_wf s' /\ params s' = params s /\ sendmeInc s' = sendmeInc s /\
  inflight s' = Z.max 0 (inflight s - sendmeInc s) /\
  (cwnd s <= CwndMax (params s) -> cwnd s' <= CwndMax (params s)) /\
  (inSlowStart s' = true -> inSlowStart s = true).
Proof.
  intros Hs. rewrite processSendme_round.
  destruct (updateEstimates b (tick_events s) rtt) as [[b1 s1] ok] eqn:E. intros [= <- <-].
  apply updateEstimates_config in E as (Hc & Hcw & _).
  assert (same_config s s1) as Hc1 by (eapply same_config_trans; [|done]; by constructor).
  assert (cwnd s1 = cwnd s) as Hcw1 by (rewrite Hcw; done).
  assert (vegas_wf s1) as Hs1 by (eapply vegas_wf_config; eauto; rewrite Hcw1; apply Hs).
  set (s2 := if ok then vegas_round s1 else s1).
  assert (same_config s s2 /\ vegas_wf s2 /\ (cwnd s <= CwndMax (params s) -> cwnd s2 <= CwndMax (params s)))
    as (Hc2 & Hs2 & Hm2).
  { unfold s2. destruct ok; [|by rewrite Hcw1].
    pose proof (vegas_round_config s1). destruct (vegas_round_bounds s1 Hs1) as [Hb Hm].
    rewrite (same_params _ _ Hc1), Hcw1 in Hm.
    split_and!; [by eapply same_config_trans | by eapply vegas_wf_config | done]. }
  clearbody s2. destruct Hc2 as [Hp Hi Hf Hss]. rewrite ackInflight_inflight, Hi, Hf by done.
  split_and!; simpl; auto. destruct Hs2. constructor; simpl; auto.
  rewrite i64_id by word. case_if; bool_to_prop; lia.
Qed.

(** ** Properties *)

(** Safety of the congestion window.  From any state with admissible
    parameters, a SENDME with any round-trip time keeps the window at least one cell
    and below 2^31, never lets it pass [cc_cwnd_max] once it is within it,
    never changes the negotiated SENDME increment, and never re-enters slow
    start after leaving it; and each SENDME acknowledges exactly one increment
    of the cells in flight. *)
Theorem vegas_window_invariant b s rtt b' s' :
  vegas_wf s -> processSendme b s rtt = (b', s') ->
  vegas_wf s' /\ params s' = params s /\ sendmeInc s' = sendmeInc s /\
  inflight s' = Z.max 0 (inflight s - sendmeInc s) /\
  (cwnd s <= CwndMax (params s) -> cwnd s' <= CwndMax (params s)) /\
  (inSlowStart s = false -> inSlowStart s' = false).
Proof.
  intros Hs H. destruct (processSendme_step b s rtt b' s' Hs H) as (? & ? & ? & ? & ? & Hss).
  split_and!; auto. intros Hf. destruct (inSlowStart s'); [|done]. by rewrite Hss in Hf.
Qed.

Definition sample_vegas : vegasState := set_inflight (newVegasState DefaultCCParams 31) 93.

Lemma sample_vegas_wf : vegas_wf sample_vegas.
Proof.
  constructor; [apply (bool_decide_unpack _); vm_compute; exact I | vm_compute; by split..].
Qed.

Lemma vegas_window_invariant_witness :
  let '(_, s') := processSendme false sample_vegas 50000 in
  inflight s' = 62 /\ cwnd s' <= CwndMax DefaultCCParams.
Proof.
  destruct (processSendme false sample_vegas 50000) as [b' s'] eqn:E.
  destruct (vegas_window_invariant false sample_vegas 50000 b' s' sample_vegas_wf E)
    as (_ & _ & _ & Hi & Hm & _).
  split; [rewrite Hi; reflexivity | apply Hm; vm_compute; done].
Defined.

(** A SENDME with a stalled clock (round-trip time not positive) leaves the
    window, the slow-start phase and all estimates alone: it only marks the
    clock as broken, counts down the events and acknowledges the cells. *)
Theorem vegas_stall_neutral b s rtt :
  rtt <= 0 ->
  processSendme b s rtt = (true, ackInflight (tick_events s)) /\
  cwnd (ackInflight (tick_events s)) = cwnd s /\
  inSlowStart (ackInflight (tick_events s)) = inSlowStart s /\
  ewmaRTTUsec (ackInflight (tick_events s)) = ewmaRTTUsec s /\
  minRTTUsec (ackInflight (tick_events s)) = minRTTUsec s /\ bdp (ackInflight (tick_events s)) = bdp s.
Proof.
  intros H. split; [|done]. rewrite processSendme_round.
  unfold updateEstimates, timeDeltaStalledOrJumped. by rewrite (proj2 (Z.leb_le _ _) H).
Qed.

Lemma vegas_stall_neutral_witness :
  cwnd (snd (processSendme false sample_vegas 0)) = 124.
Proof.
  destruct (vegas_stall_neutral false sample_vegas 0) as (H & Hc & _); [lia|].
  rewrite H. simpl snd. rewrite Hc. reflexivity.
Defined.

(** Steady-state reaction.  In congestion avoidance, with [cc_cwnd_min] at
    most [cc_cwnd_max], one update keeps the window between the two, raises it
    by at most [cc_cwnd_inc] (beyond being lifted to the minimum), and lowers
    it by at least [cc_cwnd_inc], down to the minimum, whenever the estimated
    queue exceeds beta or the connection reports itself blocked. *)
Theorem vegas_congestion_avoidance s :
  vegas_wf s -> CwndMin (params s) <= CwndMax (params s) -> - 2 ^ 61 <= bdp s < 2 ^ 61 ->
  let p := params s in
  let s' := congestionAvoidance s (queueUse s) in
  CwndMin p <= cwnd s' <= CwndMax p /\
  cwnd s' <= Z.max (CwndMin p) (cwnd s + CwndInc p) /\
  (VegasBeta p < queueUse s \/ blockedChan s = true ->
   cwnd s' <= Z.max (CwndMin p) (cwnd s - CwndInc p)).
Proof.
  intros Hs Hmin Hbdp p s'. pose proof (wf_CwndMax s Hs) as Hmax. pose proof (wf_cwnd s Hs) as Hc.
  pose proof (wf_params s Hs) as Hp. unfold params_wf, int32Max in Hp. fold p in Hp, Hmin, Hmax.
  assert (queueUse s = Z.max 0 (cwnd s - bdp s)) as Hq.
  { unfold queueUse. destruct (Z.ltb_spec (cwnd s) (bdp s)); [|rewrite i64_id by word]; lia. }
  unfold s', congestionAvoidance. rewrite clampCwnd_cwnd. fold p.
  set (s1 := if VegasDelta p <? queueUse s then _ else _).
  assert (params s1 = p) as Hp1 by (unfold s1; repeat case_if; done).
  assert (cwnd s1 <= cwnd s + CwndInc p /\
    (VegasBeta p < queueUse s \/ blockedChan s = true -> cwnd s1 <= cwnd s - CwndInc p)) as [Hup Hdown].
  { unfold s1. destruct (Z.ltb_spec (VegasDelta p) (queueUse s)); simpl.
    - rewrite (i64_id (bdp s + _)), i64_id by (word; lia). lia.
    - destruct (Z.ltb_spec (VegasBeta p) (queueUse s)), (blockedChan s); simpl;
        try (rewrite i64_id by (word; lia); lia).
      split; [|intros [?|?]; [lia|done]]. case_if; simpl; [rewrite i64_id by (word; lia)|]; lia. }
  clearbody s1. clear Hq s'.
  assert (forall t, params (if cwnd s1 <? CwndMin p then set_cwnd s1 t else s1) = p) as Hpt
    by (intros; case_if; done).
  rewrite Hp1, !Hpt. destruct (Z.ltb_spec (cwnd s1) (CwndMin p)); simpl;
    (split; [lia|]; split; [lia|]; intros Hx; specialize (Hdown Hx); lia).
Qed.

Definition sample_congested : vegasState :=
  set_bdp (set_cwnd (set_inSlowStart sample_vegas false) 1000) 300.

Lemma vegas_congestion_avoidance_witness :
  cwnd (congestionAvoidance sample_congested (queueUse sample_congested)) <= 999.
Proof.
  pose proof (vegas_congestion_avoidance sample_congested) as H.
  destruct H as (_ & _ & H).
  - constructor; [apply (bool_decide_unpack _); vm_compute; exact I | vm_compute; by split..].
  - vm_compute. done.
  - by split.
  - apply H. left. vm_compute. reflexivity.
Defined.

(** The round-trip estimators stay between their inputs: the N-count EWMA
    of a new sample and the old estimate, and the max/min mix, are never below
    the smaller nor above the larger of the two, for every count and percentage
    the parameters allow; so an estimate of times below 2^50 us cannot overflow
    or become negative. *)
Theorem vegas_estimators_bounded a c n pct :
  0 <= a < 2 ^ 50 -> 0 <= c < 2 ^ 50 -> n <= 100 ->
  Z.min a c <= nCountEWMA a c n <= Z.max a c /\
  Z.min a c <= percentMaxMix a c pct <= Z.max a c.
Proof.
  intros Ha Hc Hn. change (2 ^ 50) with 1125899906842624 in *. split.
  - unfold nCountEWMA. set (m := if n <? 1 then 1 else n).
    assert (1 <= m <= 100) as Hm by (unfold m; case_if; bool_to_prop; lia). clearbody m.
    rewrite (i64_id (a * 2)), (i64_id (m - 1)) by (word; lia).
    assert (0 <= c * (m - 1) <= c * 99) by nia.
    rewrite (i64_id (c * (m - 1))), (i64_id (m + 1)), i64_id by (word; lia).
    rewrite Z.quot_div_nonneg by nia. split.
    + apply Z.div_le_lower_bound; nia.
    + apply Z.div_le_upper_bound; nia.
  - unfold percentMaxMix. set (m := if 100 <? _ then 100 else _).
    assert (0 <= m <= 100) as Hm by (unfold m; repeat (case_if; bool_to_prop); lia). clearbody m.
    destruct (Z.ltb_spec a c).
    + assert (0 <= c * m <= c * 100) by nia. assert (0 <= a * (100 - m) <= a * 100) by nia.
      rewrite (i64_id (c * m)), (i64_id (a * _)), i64_id by (word; lia).
      rewrite Z.quot_div_nonneg by nia.
      split; [apply Z.div_le_lower_bound | apply Z.div_le_upper_bound]; nia.
    + assert (0 <= a * m <= a * 100) by nia. assert (0 <= c * (100 - m) <= c * 100) by nia.
      rewrite (i64_id (a * m)), (i64_id (c * _)), i64_id by (word; lia).
      rewrite Z.quot_div_nonneg by nia.
      split; [apply Z.div_le_lower_bound | apply Z.div_le_upper_bound]; nia.
Qed.

Lemma vegas_estimators_bounded_witness :
  Z.min 50000 80000 <= nCountEWMA 50000 80000 10 <= Z.max 50000 80000.
Proof. apply (vegas_estimators_bounded 50000 80000 10 100); lia. Defined.

End Vegas.
