(* ===== verification/FlowControl.v ===== *)
(** * Circuit-level flow control (pkg/circuit/sendme.go, pkg/circuit/circuit.go)

    [Flow] holds the flow-control fields of [Circuit].  Go's [int] wraps at 64
    bits ([i64]) and [%] truncates ([Z.rem]).  The clock is an argument (in
    nanoseconds), and so is the process-wide [monotimeClockBroken] of the Vegas
    code.  The stream manager a circuit is bound to is any implementation of
    the class [StreamTable]; [Stream.v] gives the one of the program. *)

From S2P Require Import Prelude Conversion RelayCell CellPayloads CCParams Vegas.
Import CCParams.

Module FlowControl.

Definition circWindowIncrement : Z := 100.
Definition sendmeAcceptMin : Z := Sendme.SendmeVersion1.
Definition sendWakePoll : Z := 25 * 1000000.

Inductive State := StateBuilding | StateOpen | StateClosed | StateFailed.

Global Instance State_eq_dec : EqDecision State.
Proof. solve_decision. Defined.

Inductive error :=
| ErrWindowExhausted
| errDeliverExhausted
| errStreamDeliverExhausted
| errInvalidSendme (e : Sendme.error)
| errSendmeVersion (v : Z)
| errUnexpectedSendme
| errDigestMismatch
| errMissingTag (n : Z)
| errEncodeSendme (e : Sendme.error)
| errNewRelayCell (e : RelayCell.error)
| errSend (e : error)
| errConn
| errNoStreamManager
| errStreamNotFound
| errWaitState (s : State)
| errWaitOrconnDead
| errWaitTimeout
| errWaitDestroyed
| errCircuitFlow (e : error)
| errStreamFlow (e : error).

(** [errors.Is(err, ErrWindowExhausted)]: follows the wrapped errors. *)
Fixpoint isPackageWindowExhausted (e : error) : bool :=
  match e with
  | ErrWindowExhausted => true
  | errSend e | errCircuitFlow e | errStreamFlow e => isPackageWindowExhausted e
  | _ => false
  end.

(** [sentAt] is [None] for the zero [time.Time]. *)
Record sendmePending := mkPending { digest : bytes; sentAt : option Z }.

Record Flow := mkFlow {
  packageWindow : Z;
  deliverWindow : Z;
  sendmeInc : Z;
  sendmeReceived : Z;
  sendmeSent : Z;
  sendmeExpected : list sendmePending;
  ccParams : CCParams;
  vegas : option Vegas.vegasState;
  sendWake : bool;   (** a token waits in the one-slot channel *)
}.

(** Field updates. *)
Definition set_package (f : Flow) (v : Z) : Flow :=
  mkFlow v (deliverWindow f) (sendmeInc f) (sendmeReceived f) (sendmeSent f) (sendmeExpected f)
    (ccParams f) (vegas f) (sendWake f).
Definition set_deliver (f : Flow) (v recv : Z) : Flow :=
  mkFlow (packageWindow f) v (sendmeInc f) recv (sendmeSent f) (sendmeExpected f)
    (ccParams f) (vegas f) (sendWake f).
Definition set_sent (f : Flow) (v : Z) : Flow :=
  mkFlow (packageWindow f) (deliverWindow f) (sendmeInc f) (sendmeReceived f) v (sendmeExpected f)
    (ccParams f) (vegas f) (sendWake f).
Definition set_expected (f : Flow) (v : list sendmePending) : Flow :=
  mkFlow (packageWindow f) (deliverWindow f) (sendmeInc f) (sendmeReceived f) (sendmeSent f) v
    (ccParams f) (vegas f) (sendWake f).
Definition set_ccParams (f : Flow) (v : CCParams) : Flow :=
  mkFlow (packageWindow f) (deliverWindow f) (sendmeInc f) (sendmeReceived f) (sendmeSent f)
    (sendmeExpected f) v (vegas f) (sendWake f).
Definition set_vegas (f : Flow) (v : option Vegas.vegasState) : Flow :=
  mkFlow (packageWindow f) (deliverWindow f) (sendmeInc f) (sendmeReceived f) (sendmeSent f)
    (sendmeExpected f) (ccParams f) v (sendWake f).
Definition set_wake (f : Flow) (v : bool) : Flow :=
  mkFlow (packageWindow f) (deliverWindow f) (sendmeInc f) (sendmeReceived f) (sendmeSent f)
    (sendmeExpected f) (ccParams f) (vegas f) v.

(** The flow-control fields [NewCircuit] sets. *)
Definition new_flow : Flow := mkFlow 1000 1000 0 0 0 [] DefaultCCParams None false.

Definition cloneDigest (tag : bytes) : bytes := tag.

Definition sendmeAuthTag (raw : bytes) : option bytes :=
  if len raw =? Sendme.SendmeCGOTagLen then Some (cloneDigest raw)
  else if Sendme.SendmeV1DigestLen <=? len raw
  then Some (cloneDigest (slice raw 0 (Z.to_nat Sendme.SendmeV1DigestLen)))
  else None.

Definition enqueueSendmeLocked (now : Z) (f : Flow) (tag : bytes) : Flow :=
  set_expected f (sendmeExpected f ++ [mkPending (cloneDigest tag) (Some now)]).

Definition sendmeIncrementLocked (f : Flow) : Z :=
  if 0 <? sendmeInc f then sendmeInc f else circWindowIncrement.

Definition maybeRecordSendmeTag (now : Z) (f : Flow) (tag : bytes) : Flow :=
  match sendmeAuthTag tag with
  | None => f
  | Some auth =>
      match vegas f with
      | Some v =>
          if (0 <? Vegas.inflight v) && (Z.rem (Vegas.inflight v) (Vegas.sendmeInc v) =? 0)
          then enqueueSendmeLocked now f auth else f
      | None =>
          if Z.rem (packageWindow f) (sendmeIncrementLocked f) =? 0
          then enqueueSendmeLocked now f auth else f
      end
  end.

Definition SetCCParams (f : Flow) (p : CCParams) : Flow := set_ccParams f p.

Definition EnableCongestionControl (f : Flow) (inc : Z) : Flow :=
  if (inc <? 1) || (250 <? inc) then f
  else
    let p := if CwndInit (ccParams f) <? 1 then DefaultCCParams else ccParams f in
    let v := Vegas.newVegasState p inc in
    mkFlow (Vegas.cwnd v) (Vegas.cwnd v) inc 0 (sendmeSent f) [] p (Some v) (sendWake f).

Definition DisableCongestionControl (f : Flow) : Flow :=
  mkFlow 1000 1000 0 0 (sendmeSent f) [] (ccParams f) None (sendWake f).

(** [c.vegas.inflight++] and the mirror of the window in [packageWindow]. *)
Definition vegas_reserve (f : Flow) (v : Vegas.vegasState) : Flow :=
  let v := Vegas.set_inflight v (i64 (Vegas.inflight v + 1)) in
  set_package (set_vegas f (Some v)) (Vegas.packageWindow v).

Definition decrementPackageWindow (f : Flow) : Flow * option error :=
  match vegas f with
  | Some v =>
      if Vegas.cwnd v <=? Vegas.inflight v then (f, Some ErrWindowExhausted)
      else (vegas_reserve f v, None)
  | None =>
      if packageWindow f <=? 0 then (f, Some ErrWindowExhausted)
      else (set_package f (i64 (packageWindow f - 1)), None)
  end.

Definition decrementPackageWindowForSendme (f : Flow) : Flow * result error bool :=
  match vegas f with
  | Some v =>
      if Vegas.cwnd v <=? Vegas.inflight v then (f, Err ErrWindowExhausted)
      else (vegas_reserve f v,
            Ok (Z.rem (i64 (Vegas.inflight v + 1)) (Vegas.sendmeInc v) =? 0))
  | None =>
      if packageWindow f <=? 0 then (f, Err ErrWindowExhausted)
      else
        let f := set_package f (i64 (packageWindow f - 1)) in
        (f, Ok (Z.rem (packageWindow f) (sendmeIncrementLocked f) =? 0))
  end.

Definition recordSendmeTag (now : Z) (f : Flow) (tag : bytes) : Flow :=
  match sendmeAuthTag tag with
  | None => f
  | Some auth => enqueueSendmeLocked now f auth
  end.

Definition wakeSenders (f : Flow) : Flow := set_wake f true.

Definition incrementPackageWindow (f : Flow) : Flow :=
  wakeSenders (set_package f (i64 (packageWindow f + 100))).

Definition decrementDeliverWindow (f : Flow) : Flow * option error :=
  if deliverWindow f <=? 0 then (f, Some errDeliverExhausted)
  else (set_deliver f (i64 (deliverWindow f - 1)) (i64 (sendmeReceived f + 1)), None).

Definition shouldSendCircuitSendme (f : Flow) : bool := 100 <=? sendmeReceived f.

Definition decrementDeliverWindowAndTakeSendme (f : Flow) : Flow * result error bool :=
  if deliverWindow f <=? 0 then (f, Err errDeliverExhausted)
  else
    let f := set_deliver f (i64 (deliverWindow f - 1)) (i64 (sendmeReceived f + 1)) in
    let inc := sendmeIncrementLocked f in
    if inc <=? sendmeReceived f
    then (set_deliver f (deliverWindow f) (i64 (sendmeReceived f - inc)), Ok true)
    else (f, Ok false).

(** [blocked] is what the connection's [WriteBlocked] answers, [None] when the
    connection has no such method. *)
Definition sampleOrconnBlockedLocked (blocked : option bool) (f : Flow) : Flow :=
  match vegas f, blocked with
  | Some v, Some b => set_vegas f (Some (Vegas.set_blockedChan v b))
  | _, _ => f
  end.

Definition processCircuitSendme (broken : bool) (now : Z) (blocked : option bool) (f : Flow)
    (payload : bytes) : bool * Flow * option error :=
  match Sendme.DecodeSendme payload with
  | Err e => (broken, f, Some (errInvalidSendme e))
  | Ok (version, dig) =>
      if version <? sendmeAcceptMin then (broken, f, Some (errSendmeVersion version))
      else
        match sendmeExpected f with
        | [] => (broken, f, Some errUnexpectedSendme)
        | expected :: rest =>
            if negb (Conversion.ConstantTimeCompare (digest expected) dig)
            then (broken, f, Some errDigestMismatch)
            else
              let f := set_expected f rest in
              match vegas f with
              | Some _ =>
                  let rtt := match sentAt expected with
                             | Some t => Z.quot (i64 (now - t)) 1000
                             | None => 0
                             end in
                  let f := sampleOrconnBlockedLocked blocked f in
                  let '(broken, v) := Vegas.ProcessSendme broken (vegas f) rtt in
                  let f := set_vegas f v in
                  (broken, wakeSenders (set_package f (Vegas.PackageWindow v)), None)
              | None =>
                  (broken, wakeSenders (set_package f (i64 (packageWindow f + sendmeIncrementLocked f))),
                   None)
              end
        end
  end.

Definition refundPackageWindow (f : Flow) : Flow :=
  match vegas f with
  | Some v =>
      let v := if 0 <? Vegas.inflight v
               then Vegas.set_inflight v (i64 (Vegas.inflight v - 1)) else v in
      set_package (set_vegas f (Some v)) (Vegas.packageWindow v)
  | None => set_package f (i64 (packageWindow f + 1))
  end.

(** [send] stands for [SendRelayCell] on the finished cell: the SENDME is
    accounted for before it is sent, whatever [send] answers. *)
Definition sendCircuitSendme (send : RelayCell.RelayCell -> option error) (f : Flow) (tag : bytes) :
    Flow * result error RelayCell.RelayCell :=
  match sendmeAuthTag tag with
  | None => (f, Err (errMissingTag (len tag)))
  | Some auth =>
      match Sendme.EncodeSendmeV1 auth with
      | Err e => (f, Err (errEncodeSendme e))
      | Ok payload =>
          let f := set_sent f (i64 (sendmeSent f + 1)) in
          let f := set_deliver f (i64 (deliverWindow f + sendmeIncrementLocked f)) (sendmeReceived f) in
          match RelayCell.NewRelayCell 0 RelayCell.RelaySendme payload with
          | Err e => (f, Err (errNewRelayCell e))
          | Ok rc =>
              match send rc with
              | Some e => (f, Err (errSend e))
              | None => (f, Ok rc)
              end
          end
      end
  end.

Definition SendmeStats (f : Flow) : Z * Z := (sendmeSent f, len (sendmeExpected f)).

Definition SendmeIncrement (f : Flow) : Z := sendmeIncrementLocked f.

Definition CongestionControlEnabled (f : Flow) : bool :=
  match vegas f with Some _ => true | None => false end.

Definition VegasStats (f : Flow) : Vegas.VegasSnapshot := Vegas.snapshot (vegas f).

(** ** Waiting for a SENDME

    What a waiting sender observes: the circuit state, whether the mux is
    closed and the connection open ([None] when absent), the time left, whether
    the circuit was destroyed and whether a wake-up token is there; [we_pick]
    resolves the choice of [select] among the ready cases. *)
Record wait_env := mkEnv {
  we_state : State;
  we_muxClosed : option bool;
  we_connOpen : option bool;
  we_remain : Z;
  we_destroyed : bool;
  we_pick : nat;
}.

Definition orconnDead (muxClosed connOpen : option bool) : bool :=
  match muxClosed with
  | Some true => true
  | _ => match connOpen with Some false => true | _ => false end
  end.

Inductive wake_case := CaseDestroyed | CaseWake | CaseTimer.

Definition waitForSendWake (e : wait_env) (f : Flow) : Flow * option error :=
  if bool_decide (we_state e = StateClosed) || bool_decide (we_state e = StateFailed)
  then (f, Some (errWaitState (we_state e)))
  else if orconnDead (we_muxClosed e) (we_connOpen e) then (f, Some errWaitOrconnDead)
  else if we_remain e <=? 0 then (f, Some errWaitTimeout)
  else
    match select (we_pick e)
            ((if we_destroyed e then [CaseDestroyed] else []) ++
             (if sendWake f then [CaseWake] else []) ++ [CaseTimer]) with
    | Some CaseDestroyed => (f, Some errWaitDestroyed)
    | Some CaseWake => (set_wake f false, None)
    | _ => (f, None)
    end.

(** ** Streams, as the circuit sees them

    [GetStream] finds the stream object of an id; [update] is a mutation of the
    object it returned.  The operations on a stream are the methods the circuit
    asserts the object to have. *)
Class StreamTable (T St : Type) := {
  GetStream : T -> Z -> option St;
  update : T -> Z -> St -> T;
  DecrementPackageWindow : St -> St * option error;
  IncrementPackageWindow : St -> St;
  RefundPackageWindow : St -> St;
  DecrementDeliverWindow : St -> St * option error;
  ShouldSendStreamSendme : St -> bool;
  RecordStreamSendmeSent : St -> St;
}.

(** What the circuit relies on.  [table_ok] and [stream_ok] are invariants of the
    implementation; [same_object] relates two states of one stream. *)
Class StreamTableLaws (T St : Type) `{StreamTable T St} := {
  table_ok : T -> Prop;
  stream_ok : St -> Prop;
  same_object : St -> St -> Prop;
  window_of : St -> Z;
  get_ok : forall t i s, table_ok t -> GetStream t i = Some s -> stream_ok s;
  get_update : forall t i s s', table_ok t -> GetStream t i = Some s -> GetStream (update t i s') i = Some s';
  update_ok : forall t i s s', table_ok t -> GetStream t i = Some s ->
    same_object s s' -> stream_ok s' -> table_ok (update t i s');
  update_update : forall t i s s', update (update t i s) i s' = update t i s';
  update_id : forall t i s, table_ok t -> GetStream t i = Some s -> update t i s = t;
  dec_ok : forall s, stream_ok s -> 0 < window_of s ->
    exists s', DecrementPackageWindow s = (s', None) /\ stream_ok s' /\ same_object s s' /\
      window_of s' = window_of s - 1 /\ RefundPackageWindow s' = s;
  dec_exhausted : forall s, window_of s <= 0 ->
    exists e, DecrementPackageWindow s = (s, Some e) /\ isPackageWindowExhausted e = true;
}.

Section Streams.
Context `{StreamTable T St}.

(** A circuit's flow state and the stream manager it is bound to, if any. *)
Abbreviation world := (Flow * option T)%type.

Definition decrementStreamPackageWindow (mgr : option T) (streamID : Z) : option T * option error :=
  match mgr with
  | None => (mgr, None)
  | Some t =>
      match GetStream t streamID with
      | None => (mgr, None)
      | Some s => let '(s, e) := DecrementPackageWindow s in (Some (update t streamID s), e)
      end
  end.

Definition decrementStreamDeliverWindow (mgr : option T) (streamID : Z) : option T * option error :=
  match mgr with
  | None => (mgr, None)
  | Some t =>
      match GetStream t streamID with
      | None => (mgr, None)
      | Some s => let '(s, e) := DecrementDeliverWindow s in (Some (update t streamID s), e)
      end
  end.

Definition shouldSendStreamSendme (mgr : option T) (streamID : Z) : bool :=
  match mgr with
  | None => false
  | Some t =>
      match GetStream t streamID with
      | None => false
      | Some s => ShouldSendStreamSendme s
      end
  end.

Definition sendStreamSendme (send : RelayCell.RelayCell -> option error) (mgr : option T) (streamID : Z) :
    option T * result error RelayCell.RelayCell :=
  match mgr with
  | None => (mgr, Err errNoStreamManager)
  | Some t =>
      match GetStream t streamID with
      | None => (mgr, Err errStreamNotFound)
      | Some s =>
          let mgr := Some (update t streamID (RecordStreamSendmeSent s)) in
          match RelayCell.NewRelayCell streamID RelayCell.RelaySendme [] with
          | Err e => (mgr, Err (errNewRelayCell e))
          | Ok rc => match send rc with Some e => (mgr, Err e) | None => (mgr, Ok rc) end
          end
      end
  end.

Definition incrementStreamPackageWindow (w : world) (streamID : Z) : world :=
  match snd w with
  | None => w
  | Some t =>
      match GetStream t streamID with
      | None => w
      | Some s => (wakeSenders (fst w), Some (update t streamID (IncrementPackageWindow s)))
      end
  end.

Definition refundStreamPackageWindow (mgr : option T) (streamID : Z) : option T :=
  match mgr with
  | None => mgr
  | Some t =>
      match GetStream t streamID with
      | None => mgr
      | Some s => Some (update t streamID (RefundPackageWindow s))
      end
  end.

Definition refundReservedWindows (w : world) (streamID : Z) (destCGO : bool) : world :=
  let f := refundPackageWindow (fst w) in
  if negb destCGO && (0 <? streamID)
  then (f, refundStreamPackageWindow (snd w) streamID) else (f, snd w).

(** One turn of the loop of [reserveDataWindows]. *)
Inductive attempt := Reserved (record : bool) | Refused (e : error) | MustWait.

Definition reserve_attempt (w : world) (streamID : Z) (destCGO : bool) : world * attempt :=
  let '(f, r) := decrementPackageWindowForSendme (fst w) in
  match r with
  | Err e =>
      if negb (isPackageWindowExhausted e) then ((f, snd w), Refused (errCircuitFlow e))
      else ((f, snd w), MustWait)
  | Ok record =>
      if destCGO || (streamID =? 0) then ((f, snd w), Reserved record)
      else
        let '(mgr, e) := decrementStreamPackageWindow (snd w) streamID in
        match e with
        | Some e =>
            let f := refundPackageWindow f in
            if negb (isPackageWindowExhausted e) then ((f, mgr), Refused (errStreamFlow e))
            else ((f, mgr), MustWait)
        | None => ((f, mgr), Reserved record)
        end
  end.

(** The loop.  Each wait is given by what the sender observes and what the rest
    of the program did meanwhile; [None] while the sender still waits at the end
    of the list. *)
Fixpoint reserveDataWindows (waits : list (wait_env * (world -> world))) (w : world) (streamID : Z)
    (destCGO : bool) : world * option (result error bool) :=
  let '(w, a) := reserve_attempt w streamID destCGO in
  match a with
  | Reserved record => (w, Some (Ok record))
  | Refused e => (w, Some (Err e))
  | MustWait =>
      match waits with
      | [] => (w, None)
      | (env, others) :: waits =>
          let w := others w in
          let '(f, e) := waitForSendWake env (fst w) in
          match e with
          | Some e => ((f, snd w), Some (Err e))
          | None => reserveDataWindows waits (f, snd w) streamID destCGO
          end
      end
  end.

End Streams.

(** ** Invariants *)

(** The flow state of a circuit: windows far from the limits of [int]; under
    congestion control a well-formed Vegas state whose free window
    [packageWindow] mirrors. *)
Definition flow_wf (f : Flow) : Prop :=
  0 <= packageWindow f < 2 ^ 31 /\ 0 <= deliverWindow f < 2 ^ 31 /\
  0 <= sendmeReceived f < sendmeIncrementLocked f /\
  0 <= sendmeInc f <= 250 /\
  match vegas f with
  | None => sendmeInc f = 0
  | Some v => Vegas.vegas_wf v /\ Vegas.sendmeInc v = sendmeInc f /\
              packageWindow f = Vegas.packageWindow v
  end.

Lemma increment_range f : 0 <= sendmeInc f <= 250 -> 1 <= sendmeIncrementLocked f <= 250.
Proof. intros. unfold sendmeIncrementLocked, circWindowIncrement. cases; lia. Qed.

Lemma packageWindow_vegas v :
  Vegas.vegas_wf v -> Vegas.packageWindow v = Z.max 0 (Vegas.cwnd v - Vegas.inflight v).
Proof.
  intros [_ _ Hc Hi]. unfold Vegas.packageWindow. cases; [lia|].
  rewrite i64_id by (word; lia). lia.
Qed.

Lemma set_inflight_wf v n :
  Vegas.vegas_wf v -> 0 <= n < 2 ^ 62 -> Vegas.vegas_wf (Vegas.set_inflight v n).
Proof. intros [] ?. by constructor. Qed.

Lemma set_inflight_twice v a b :
  Vegas.set_inflight (Vegas.set_inflight v a) b = Vegas.set_inflight v b.
Proof. done. Qed.

Lemma set_inflight_same v : Vegas.set_inflight v (Vegas.inflight v) = v.
Proof. by destruct v. Qed.

(** A reservation taken and given back leaves the flow state as it was. *)
Lemma refund_decrement f f' b :
  flow_wf f -> decrementPackageWindowForSendme f = (f', Ok b) -> refundPackageWindow f' = f.
Proof.
  intros (Hp & _ & _ & _ & Hv) Hd. unfold decrementPackageWindowForSendme in Hd.
  destruct (vegas f) as [v|] eqn:Ev.
  - destruct Hv as (Hwf & _ & Hm). pose proof Hwf as [_ _ Hc Hi].
    cases. unfold refundPackageWindow, vegas_reserve; simpl.
    rewrite !(i64_id (_ + 1)) by (word; lia).
    rewrite (proj2 (Z.ltb_lt _ _)) by lia.
    rewrite Z.add_simpl_r, i64_id by (word; lia).
    rewrite set_inflight_twice, set_inflight_same.
    destruct f; simpl in *; by subst.
  - cases. unfold refundPackageWindow; simpl. rewrite Ev.
    rewrite !i64_id by (word; lia).
    rewrite Z.sub_add. by destruct f.
Qed.

(** What a granted reservation does to the flow state. *)
Lemma decrement_granted f f' b :
  flow_wf f -> decrementPackageWindowForSendme f = (f', Ok b) ->
  flow_wf f' /\ 0 < packageWindow f /\ packageWindow f' = packageWindow f - 1 /\
  sendmeExpected f' = sendmeExpected f /\ sendmeInc f' = sendmeInc f /\
  deliverWindow f' = deliverWindow f /\ sendmeReceived f' = sendmeReceived f /\
  match vegas f with
  | None => vegas f' = None /\ b = (Z.rem (packageWindow f - 1) (sendmeIncrementLocked f) =? 0)
  | Some v => Vegas.inflight v < Vegas.cwnd v /\
              vegas f' = Some (Vegas.set_inflight v (Vegas.inflight v + 1)) /\
              b = (Z.rem (Vegas.inflight v + 1) (Vegas.sendmeInc v) =? 0)
  end.
Proof.
  intros (Hp & Hd & Hr & Hi & Hv) H. unfold decrementPackageWindowForSendme in H.
  destruct (vegas f) as [v|] eqn:Ev.
  - destruct Hv as (Hwf & Hinc & Hm). pose proof Hwf as [_ _ Hc Hf].
    rewrite packageWindow_vegas in Hm by done. cases. unfold vegas_reserve.
    rewrite !(i64_id (_ + 1)) by (word; lia).
    assert (Vegas.vegas_wf (Vegas.set_inflight v (Vegas.inflight v + 1))) as Hwf'
      by (apply set_inflight_wf; [done | word; lia]).
    unfold flow_wf, sendmeIncrementLocked in *; simpl. rewrite packageWindow_vegas by done. simpl.
    split_and!; try done; lia.
  - cases. unfold flow_wf, sendmeIncrementLocked in *; simpl. rewrite Ev, i64_id by (word; lia).
    split_and!; try done; lia.
Qed.

Lemma decrement_refused f f' e :
  flow_wf f -> decrementPackageWindowForSendme f = (f', Err e) ->
  f' = f /\ e = ErrWindowExhausted /\ packageWindow f = 0.
Proof.
  intros (Hp & Hd & Hr & Hi & Hv) H. unfold decrementPackageWindowForSendme in H.
  destruct (vegas f) as [v|] eqn:Ev.
  - destruct Hv as (Hwf & Hinc & Hm). rewrite packageWindow_vegas in Hm by done. cases.
    split_and!; try done. lia.
  - cases. split_and!; try done. lia.
Qed.

Section Reserve.
Context `{StreamTableLaws T St}.

Definition mgr_ok (mgr : option T) : Prop := match mgr with None => True | Some t => table_ok t end.

(** The window of the stream an id names, when flow control applies to it. *)
Definition stream_window (mgr : option T) (streamID : Z) : option Z :=
  match mgr with None => None | Some t => window_of <$> GetStream t streamID end.

Lemma stream_reserve mgr sid :
  mgr_ok mgr ->
  let '(mgr', e) := decrementStreamPackageWindow mgr sid in
  match e with
  | None => refundStreamPackageWindow mgr' sid = mgr /\ mgr_ok mgr' /\
            stream_window mgr' sid = (fun w => w - 1) <$> stream_window mgr sid /\
            forall w, stream_window mgr sid = Some w -> 0 < w
  | Some e => mgr' = mgr /\ isPackageWindowExhausted e = true /\
              exists w, stream_window mgr sid = Some w /\ w <= 0
  end.
Proof.
  intros Hok. unfold decrementStreamPackageWindow, refundStreamPackageWindow, stream_window.
  destruct mgr as [t|]; [|by split_and!]. simpl in Hok.
  destruct (GetStream t sid) as [s|] eqn:Eg; [|by rewrite Eg].
  destruct (decide (0 < window_of s)) as [Hw|Hw].
  - destruct (dec_ok s) as (s' & -> & Hs' & Hsame & Hw' & Hr); [by eapply get_ok|done|].
    erewrite (get_update t sid) by done. rewrite Hr, update_update, (update_id t sid s) by done.
    split_and!; simpl; [done | by eapply update_ok | by rewrite Hw' | naive_solver].
  - destruct (dec_exhausted s) as (e & -> & He); [lia|].
    rewrite (update_id t sid s) by done.
    split_and!; [done..|]. exists (window_of s). split; [done | lia].
Qed.

(** An attempt to reserve, on every branch. *)
Lemma reserve_attempt_spec (w : Flow * option T) sid cgo :
  flow_wf (fst w) -> mgr_ok (snd w) -> 0 <= sid ->
  let '(w', a) := reserve_attempt w sid cgo in
  match a with
  | Reserved _ =>
      0 < packageWindow (fst w) /\ packageWindow (fst w') = packageWindow (fst w) - 1 /\
      flow_wf (fst w') /\ mgr_ok (snd w') /\ refundReservedWindows w' sid cgo = w /\
      (cgo = false -> 0 < sid ->
       stream_window (snd w') sid = (fun x => x - 1) <$> stream_window (snd w) sid)
  | MustWait => w' = w /\ (packageWindow (fst w) = 0 \/ exists x, stream_window (snd w) sid = Some x /\ x <= 0)
  | Refused _ => False
  end.
Proof.
  destruct w as [f mgr]; simpl. intros Hf Hm Hsid. unfold reserve_attempt; simpl.
  destruct (decrementPackageWindowForSendme f) as [f1 [b|e]] eqn:Ed.
  - destruct (decrement_granted f f1 b Hf Ed) as (Hf1 & Hpos & Hdec & _).
    pose proof (refund_decrement f f1 b Hf Ed) as Href.
    destruct (cgo || (sid =? 0)) eqn:Ec.
    + split_and!; try done; [|intros -> ?; simpl in Ec; bool_to_prop; lia].
      unfold refundReservedWindows; simpl. rewrite Href.
      assert (negb cgo && (0 <? sid) = false) as ->; [|done].
      destruct cgo; [done|]. simpl in *. bool_to_prop. by rewrite Ec.
    + pose proof (stream_reserve mgr sid Hm) as Hs.
      destruct (decrementStreamPackageWindow mgr sid) as [mgr1 [e|]].
      * destruct Hs as (-> & -> & Hw). simpl. rewrite Href. split; [done|]. by right.
      * destruct Hs as (Hr & Hok & Hw & _). split_and!; try done.
        unfold refundReservedWindows; simpl. rewrite Href, Hr.
        bool_to_prop. subst cgo. simpl. rewrite (proj2 (Z.ltb_lt 0 sid)) by lia. done.
  - destruct (decrement_refused f f1 e Hf Ed) as (-> & -> & Hz). simpl.
    split; [done | by left].
Qed.

(** A reservation for a DATA cell is transactional.  With both windows
    consistent, an attempt either takes one cell from the circuit window (and
    from the stream window, when the stream is subject to flow control), and
    then refunding it restores the exact previous state; or it must wait, leaves
    circuit and streams untouched and one of the two windows really is empty.
    It is never refused for another reason. *)
Theorem reserve_transactional (w : Flow * option T) sid cgo :
  flow_wf (fst w) -> mgr_ok (snd w) -> 0 <= sid ->
  let '(w', a) := reserve_attempt w sid cgo in
  match a with
  | Reserved _ =>
      0 < packageWindow (fst w) /\ packageWindow (fst w') = packageWindow (fst w) - 1 /\
      flow_wf (fst w') /\ mgr_ok (snd w') /\ refundReservedWindows w' sid cgo = w /\
      (cgo = false -> 0 < sid ->
       stream_window (snd w') sid = (fun x => x - 1) <$> stream_window (snd w) sid)
  | MustWait => w' = w /\ (packageWindow (fst w) = 0 \/ exists x, stream_window (snd w) sid = Some x /\ x <= 0)
  | Refused _ => False
  end.
Proof. apply reserve_attempt_spec. Qed.

End Reserve.

(** ** Authenticated SENDMEs *)

(** [payload] acknowledges the oldest outstanding digest. *)
Definition acknowledges (payload : bytes) (p : sendmePending) : Prop :=
  exists version, Sendme.DecodeSendme payload = Ok (version, digest p) /\ sendmeAcceptMin <= version.

Lemma processCircuitSendme_cases b now blocked f payload b' f' e :
  processCircuitSendme b now blocked f payload = (b', f', e) ->
  (e <> None /\ f' = f /\ b' = b /\
   forall p rest, sendmeExpected f = p :: rest -> ~ acknowledges payload p) \/
  (e = None /\ exists p rest, sendmeExpected f = p :: rest /\ acknowledges payload p /\
     sendmeExpected f' = rest /\ deliverWindow f' = deliverWindow f /\
     sendmeReceived f' = sendmeReceived f /\ sendmeInc f' = sendmeInc f /\ sendWake f' = true /\
     match vegas f with
     | None => vegas f' = None /\ packageWindow f' = i64 (packageWindow f + sendmeIncrementLocked f)
     | Some v => exists v0 v' rtt, v0 = Vegas.set_blockedChan v (default (Vegas.blockedChan v) blocked) /\
         Vegas.processSendme b v0 rtt = (b', v') /\ vegas f' = Some v' /\
         packageWindow f' = Vegas.packageWindow v'
     end).
Proof.
  unfold processCircuitSendme. intros H.
  destruct (Sendme.DecodeSendme payload) as [[ver d]|er] eqn:Ed; simplify_eq;
    [|left; split_and!; try done; intros p rest _ (v & Hv & _); congruence].
  destruct (Z.ltb_spec ver sendmeAcceptMin); simplify_eq;
    [left; split_and!; try done; intros p rest _ (v & Hv & Hm); rewrite Ed in Hv; simplify_eq; lia|].
  destruct (sendmeExpected f) as [|p rest] eqn:Ex; simplify_eq; [left; by split_and!|].
  destruct (Conversion.ConstantTimeCompare (digest p) d) eqn:Ec; simpl in H.
  2:{ simplify_eq. left. split_and!; try done. intros p' rest' [= <- <-] (v & Hv & _).
      rewrite Ed in Hv. simplify_eq.
      by rewrite Conversion.ConstantTimeCompare_refl in Ec. }
  apply Conversion.ConstantTimeCompare_spec in Ec as <-. right.
  destruct (vegas f) as [v|] eqn:Ev; simpl in H.
  - set (rtt := match sentAt p with Some _ => _ | None => _ end) in H.
    unfold sampleOrconnBlockedLocked in H. simpl in H. rewrite Ev in H.
    assert (exists v0, v0 = Vegas.set_blockedChan v (default (Vegas.blockedChan v) blocked) /\
      (let '(b, v1) := Vegas.processSendme b v0 rtt in
       let f1 := set_vegas (set_expected f rest) (Some v1) in
       (b, wakeSenders (set_package f1 (Vegas.packageWindow v1)), None)) = (b', f', e)) as (v0 & Hv0 & Hp).
    { eexists. split; [done|]. destruct blocked as [bl|]; simpl in *.
      - by destruct (Vegas.processSendme b (Vegas.set_blockedChan v bl) rtt).
      - rewrite Ev in H. simpl in H. replace (Vegas.set_blockedChan v (Vegas.blockedChan v)) with v by (by destruct v).
        by destruct (Vegas.processSendme b v rtt). }
    destruct (Vegas.processSendme b v0 rtt) as [b1 v1] eqn:Epr. clear H. cbv zeta in Hp. simplify_eq.
    split; [done|]. exists p, rest. split_and!; try done; [by exists ver|].
    by exists (Vegas.set_blockedChan v (default (Vegas.blockedChan v) blocked)), v1, rtt.
  - simplify_eq. split; [done|]. exists p, rest. split_and!; try done. by exists ver.
Qed.

(** ** What a peer can do to the send window

    [outstanding] is the number of DATA cells sent and not yet acknowledged. *)
Definition outstanding (f : Flow) : Z :=
  match vegas f with
  | None => 1000 - packageWindow f
  | Some v => Vegas.inflight v
  end.

Record sender_inv (f : Flow) : Prop := {
  si_wf : flow_wf f;
  si_out : 0 <= outstanding f;
  si_queue : len (sendmeExpected f) * sendmeIncrementLocked f <= outstanding f;
}.

(** A whole send with nothing in between: the reservation, and the tag recorded. *)
Definition send_data (f : Flow) (tag : bytes) (now : Z) : option Flow :=
  match decrementPackageWindowForSendme f with
  | (_, Err _) => None
  | (f, Ok record) => Some (if record then recordSendmeTag now f tag else f)
  end.

Lemma outstanding_step f f' b :
  flow_wf f -> decrementPackageWindowForSendme f = (f', Ok b) ->
  flow_wf f' /\ outstanding f' = outstanding f + 1 /\ sendmeExpected f' = sendmeExpected f /\
  sendmeInc f' = sendmeInc f /\
  (b = true <-> Z.rem (outstanding f + 1) (sendmeIncrementLocked f) = 0).
Proof.
  intros Hf Hd. destruct (decrement_granted f f' b Hf Hd) as (Hf' & Hpos & Hp & He & Hi & _ & _ & Hv).
  unfold outstanding, sendmeIncrementLocked in *. pose proof Hf as (_ & _ & _ & _ & Hw).
  destruct (vegas f) as [v|].
  - destruct Hv as (Hlt & Hv' & Hb). destruct Hw as ([_ Hinc _ _] & Hsi & _).
    rewrite Hv'. simpl. split_and!; auto. rewrite Hb, Hsi, Z.eqb_eq.
    rewrite (proj2 (Z.ltb_lt _ _)) by lia. done.
  - destruct Hv as (Hv' & Hb). rewrite Hv', Hp. split_and!; auto; [lia|].
    rewrite Hb, Hw, Z.eqb_eq. change (0 <? 0) with false. cbv iota. unfold circWindowIncrement.
    destruct Hf as (Hpw & _). rewrite !Z.rem_divide by lia.
    replace (1000 - packageWindow f + 1) with (1000 - (packageWindow f - 1)) by lia.
    split; intros [k Hk]; exists (10 - k); lia.
Qed.

Lemma record_expected now f tag :
  flow_wf f -> flow_wf (recordSendmeTag now f tag) /\
  outstanding (recordSendmeTag now f tag) = outstanding f /\
  sendmeInc (recordSendmeTag now f tag) = sendmeInc f /\
  len (sendmeExpected (recordSendmeTag now f tag)) <= len (sendmeExpected f) + 1.
Proof.
  intros Hf. unfold recordSendmeTag. destruct (sendmeAuthTag tag); [|split_and!; auto; lia].
  split_and!; try done. simpl. rewrite len_app. unfold len; simpl; lia.
Qed.

(** Accepting a SENDME acknowledges exactly one increment. *)
Lemma sendme_accepted b now blocked f payload b' f' :
  sender_inv f -> processCircuitSendme b now blocked f payload = (b', f', None) ->
  sender_inv f' /\ outstanding f' = outstanding f - sendmeIncrementLocked f /\
  sendmeInc f' = sendmeInc f /\ sendmeExpected f' = tail (sendmeExpected f).
Proof.
  intros [Hf Ho Hq] H. pose proof Hf as (Hp & Hd & Hr & Hi & Hv).
  pose proof (increment_range f Hi) as Hinc.
  apply processCircuitSendme_cases in H as [(? & _)|(_ & p & rest & He & _ & He' & Hd' & Hr' & Hi' & _ & H)]; [done|].
  assert (sendmeIncrementLocked f' = sendmeIncrementLocked f) as Hinc'
    by (unfold sendmeIncrementLocked; by rewrite Hi').
  rewrite He in Hq. replace (len (p :: rest)) with (len rest + 1) in Hq by (unfold len; simpl; lia).
  pose proof (len_nonneg rest). assert (sendmeIncrementLocked f <= outstanding f) as Hge by nia.
  unfold outstanding in *. destruct (vegas f) as [v|] eqn:Ev.
  - destruct H as (v0 & v' & rtt & -> & Hps & Hv' & Hpw'). destruct Hv as (Hwf & Hsi & Hm).
    assert (Vegas.vegas_wf (Vegas.set_blockedChan v (default (Vegas.blockedChan v) blocked))) as Hwf0
      by (destruct Hwf; by constructor).
    destruct (Vegas.processSendme_step _ _ _ _ _ Hwf0 Hps) as (Hwf' & _ & Hsi' & Hin & _). simpl in *.
    assert (sendmeIncrementLocked f = Vegas.sendmeInc v) as Hiv.
    { unfold sendmeIncrementLocked. rewrite <- Hsi. destruct Hwf. by rewrite (proj2 (Z.ltb_lt _ _)) by lia. }
    assert (outstanding f' = Vegas.inflight v - Vegas.sendmeInc v) as Ho'
      by (unfold outstanding; rewrite Hv', Hin; lia).
    rewrite Hv', Hin, Hiv, He'. split; [|split_and!; [lia | done | by rewrite He]].
    constructor; rewrite ?Ho', ?He', ?Hinc'; try lia.
    unfold flow_wf. rewrite Hv', Hinc', Hd', Hr', Hi', Hpw', packageWindow_vegas by done.
    pose proof (Vegas.wf_cwnd v' Hwf'). pose proof (Vegas.wf_inflight v' Hwf').
    split_and!; try done; lia.
  - destruct H as (Hv' & Hpw'). rewrite i64_id in Hpw' by (word; lia).
    rewrite Hv', Hpw', He'. split; [|split_and!; [lia | done | by rewrite He]].
    constructor; unfold outstanding; rewrite ?Hv', ?Hpw', ?He', ?Hinc'; try lia.
    unfold flow_wf. rewrite Hv', Hinc', Hd', Hr', Hi', Hpw'. split_and!; done || (word; lia).
Qed.

(** Giving a reservation back. *)
Lemma refund_step f :
  flow_wf f -> 0 < outstanding f ->
  flow_wf (refundPackageWindow f) /\ outstanding (refundPackageWindow f) = outstanding f - 1 /\
  sendmeExpected (refundPackageWindow f) = sendmeExpected f /\ sendmeInc (refundPackageWindow f) = sendmeInc f /\
  (vegas (refundPackageWindow f) = None <-> vegas f = None).
Proof.
  intros (Hp & Hd & Hr & Hi & Hv) Ho. unfold refundPackageWindow, outstanding, flow_wf in *.
  destruct (vegas f) as [v|] eqn:Ev; simpl.
  - destruct Hv as (Hwf & Hsi & Hm). pose proof Hwf as [_ _ Hc Hf]. rewrite (proj2 (Z.ltb_lt _ _)) by lia. simpl.
    rewrite i64_id by (word; lia).
    assert (Vegas.vegas_wf (Vegas.set_inflight v (Vegas.inflight v - 1))) as Hwf'
      by (apply set_inflight_wf; [done | word; lia]).
    rewrite packageWindow_vegas by done. unfold sendmeIncrementLocked in *. simpl. split_and!; try done; lia.
  - rewrite Ev, i64_id by (word; lia). unfold sendmeIncrementLocked in *. simpl. split_and!; done || (word; lia).
Qed.

(** A whole send keeps the invariant. *)
Lemma send_data_inv f tag now f' :
  sender_inv f -> send_data f tag now = Some f' ->
  sender_inv f' /\ sendmeInc f' = sendmeInc f /\ outstanding f' = outstanding f + 1.
Proof.
  intros Hs. pose proof Hs as [Hf Ho Hq]. pose proof Hf as (_ & _ & _ & Hi & _).
  pose proof (increment_range f Hi) as Hinc.
  unfold send_data. destruct (decrementPackageWindowForSendme f) as [f1 [r|e]] eqn:Ed; intros; simplify_eq.
  destruct (outstanding_step f f1 r Hf Ed) as (Hf1 & Ho1 & He1 & Hi1 & Hb).
  assert (sendmeIncrementLocked f1 = sendmeIncrementLocked f) as Hinc1
    by (unfold sendmeIncrementLocked; by rewrite Hi1).
  destruct r; [|split_and!; [constructor|..]; rewrite ?Hinc1, ?He1; done || lia].
  destruct (record_expected now f1 tag Hf1) as (Hf2 & Ho2 & Hi2 & Hl2).
  set (f2 := recordSendmeTag now f1 tag) in *. clearbody f2.
  assert (sendmeIncrementLocked f2 = sendmeIncrementLocked f) as Hinc2
    by (unfold sendmeIncrementLocked; by rewrite Hi2, Hi1).
  split_and!; [|congruence|lia]. constructor; [done|lia|]. rewrite Hinc2, Ho2, Ho1.
  rewrite He1 in Hl2. pose proof (len_nonneg (sendmeExpected f)).
  destruct Hb as [Hb _]. specialize (Hb eq_refl). apply Z.rem_divide in Hb as [k Hk]; [|lia].
  assert (len (sendmeExpected f) < k) by nia. rewrite Hk. apply Z.mul_le_mono_nonneg_r; lia.
Qed.

(** ** Concurrent senders

    A sender goes through several critical sections: it reserves a place in the
    window, and later either records the tag of the cell it has sent (when the
    reservation said so) or gives the place back.  [held] are the senders in
    between, each with what its reservation said; they may go on in any order, and
    SENDMEs with any body whatsoever may arrive at any time.  [strays] counts the
    reservations given back when the window stands at a boundary by a sender
    whose own cell was not the boundary cell. *)
Inductive op :=
| OpReserve
| OpRecord (k : nat) (tag : bytes) (now : Z)
| OpRefund (k : nat)
| OpSendme (payload : bytes) (now : Z) (blocked : option bool).

Record sending := mkSending {
  s_broken : bool;
  s_flow : Flow;
  held : list bool;
  sent : Z;
  acked : Z;
  strays : Z;
}.

Definition at_boundary (f : Flow) : bool := outstanding f mod sendmeIncrementLocked f =? 0.

Definition exec1 (st : sending) (o : op) : sending :=
  let '(mkSending b f h n a x) := st in
  match o with
  | OpReserve =>
      match decrementPackageWindowForSendme f with
      | (f, Ok record) => mkSending b f (h ++ [record]) n a x
      | (f, Err _) => mkSending b f h n a x
      end
  | OpRecord k tag now =>
      match (h !! k : option bool) with
      | None => st
      | Some record => mkSending b (if record then recordSendmeTag now f tag else f) (delete k h) (n + 1) a x
      end
  | OpRefund k =>
      match (h !! k : option bool) with
      | None => st
      | Some record =>
          mkSending b (refundPackageWindow f) (delete k h) n a
            (if negb record && at_boundary f then x + 1 else x)
      end
  | OpSendme payload now blocked =>
      match processCircuitSendme b now blocked f payload with
      | (b, f, None) => mkSending b f h n (a + 1) x
      | (b, f, Some _) => mkSending b f h n a x
      end
  end.

Definition start (b : bool) (f : Flow) : sending := mkSending b f [] 0 0 0.

(** No sender reserves while another is on its way. *)
Definition alone1 (st : sending) (o : op) : bool :=
  match o with OpReserve => bool_decide (held st = []) | _ => true end.

Fixpoint alone (st : sending) (os : list op) : bool :=
  match os with
  | [] => true
  | o :: os => alone1 st o && alone (exec1 st o) os
  end.

Definition no_refund (o : op) : Prop := match o with OpRefund _ => False | _ => True end.

(** How many of the senders on their way have a boundary cell. *)
Definition flagged (h : list bool) : Z := len (filter (fun r => r = true) h).

Lemma flagged_app h h' : flagged (h ++ h') = flagged h + flagged h'.
Proof. unfold flagged. by rewrite filter_app, len_app. Qed.

Lemma flagged_delete (h : list bool) (k : nat) (r : bool) : h !! k = Some r -> flagged (delete k h) = flagged h - (if r then 1 else 0).
Proof.
  intros Hk. rewrite <- (take_drop_middle h k r Hk) at 2. rewrite delete_take_drop, !flagged_app.
  replace (r :: drop (S k) h) with ([r] ++ drop (S k) h) by done. rewrite flagged_app.
  assert (flagged [r] = if r then 1 else 0) as -> by (by destruct r). lia.
Qed.

Lemma len_delete {A} (h : list A) k r : h !! k = Some r -> len (delete k h) = len h - 1.
Proof.
  intros Hk. pose proof (lookup_lt_Some _ _ _ Hk). unfold len.
  rewrite length_delete by (by eexists). lia.
Qed.

Lemma div_pred o inc :
  1 <= inc -> (o - 1) / inc = (if o mod inc =? 0 then o / inc - 1 else o / inc).
Proof.
  intros Hi. pose proof (Z.div_mod o inc ltac:(lia)) as Hd. pose proof (Z.mod_pos_bound o inc ltac:(lia)) as Hb.
  destruct (Z.eqb_spec (o mod inc) 0) as [Hz|Hz]; symmetry;
    [apply Z.div_unique with (r := inc - 1)|apply Z.div_unique with (r := o mod inc - 1)]; lia.
Qed.

Lemma div_next o inc :
  1 <= inc -> (o + 1) / inc = (if (o + 1) mod inc =? 0 then o / inc + 1 else o / inc).
Proof.
  intros Hi. pose proof (div_pred (o + 1) inc Hi) as Hp. replace (o + 1 - 1) with o in Hp by lia.
  rewrite Hp. destruct (_ =? 0); lia.
Qed.

(** What the accounts come to: every accepted SENDME has paid for one record, and
    records are as many as the boundaries passed, but for the strays. *)
Record accounts (inc : Z) (st : sending) : Prop := {
  ac_inc : sendmeIncrementLocked (s_flow st) = inc;
  ac_out : outstanding (s_flow st) = len (held st) + sent st - inc * acked st;
  ac_queue : len (sendmeExpected (s_flow st)) + flagged (held st) <= outstanding (s_flow st) / inc + strays st;
  ac_strays : 0 <= strays st;
}.

Lemma flagged_nonneg h : 0 <= flagged h.
Proof. apply len_nonneg. Qed.

(** Well formed as far as the accounts need it: on classic windows the upper
    bound of the window is what is to be shown. *)
Definition loose_wf (f : Flow) : Prop :=
  match vegas f with
  | None => sendmeInc f = 0 /\ 0 <= packageWindow f
  | Some _ => flow_wf f
  end.

Lemma accounts_window inc st :
  1 <= inc -> accounts inc st -> - inc * strays st <= outstanding (s_flow st).
Proof.
  intros Hi [_ _ Hq Hs]. pose proof (flagged_nonneg (held st)). pose proof (len_nonneg (sendmeExpected (s_flow st))).
  pose proof (Z.mul_div_le (outstanding (s_flow st)) inc ltac:(lia)). nia.
Qed.

(** The critical sections, on windows that are well formed in this sense. *)
Lemma reserve_loose f f' r :
  loose_wf f -> (vegas f = None -> packageWindow f < 2 ^ 62) ->
  decrementPackageWindowForSendme f = (f', Ok r) ->
  loose_wf f' /\ outstanding f' = outstanding f + 1 /\ sendmeExpected f' = sendmeExpected f /\
  sendmeInc f' = sendmeInc f /\ (vegas f' = None <-> vegas f = None) /\
  r = ((outstanding f + 1) mod sendmeIncrementLocked f =? 0).
Proof.
  intros Hf Hb Hd. unfold loose_wf in *. destruct (vegas f) as [v|] eqn:Ev.
  - destruct (outstanding_step f f' r Hf Hd) as (Hf' & Ho & He & Hi & Hr).
    destruct (decrement_granted f f' r Hf Hd) as (_ & _ & _ & _ & _ & _ & _ & Hv). rewrite Ev in Hv.
    destruct Hv as (_ & Hv & _). rewrite Hv. split_and!; try done.
    pose proof Hf as (_ & _ & _ & Hrange & Hwf). rewrite Ev in Hwf. destruct Hwf as ([_ _ _ Hin] & _).
    pose proof (increment_range f Hrange).
    apply eq_true_iff_eq. rewrite Hr, Z.eqb_eq. unfold outstanding. rewrite Ev.
    rewrite Z.rem_mod_nonneg by lia. done.
  - destruct Hf as [Hi Hp]. unfold decrementPackageWindowForSendme in Hd. rewrite Ev in Hd.
    destruct (Z.leb_spec (packageWindow f) 0); [done|]. rewrite i64_id in Hd by (word; lia). simplify_eq.
    unfold outstanding, sendmeIncrementLocked. simpl. rewrite Ev, Hi. split_and!; try done; try lia.
    change (0 <? 0) with false. cbv iota. unfold circWindowIncrement. apply eq_true_iff_eq. rewrite !Z.eqb_eq.
    rewrite Z.rem_divide, Z.mod_divide by lia.
    split; intros [k Hk]; exists (10 - k); lia.
Qed.

Lemma record_loose now f tag :
  loose_wf f -> let f' := recordSendmeTag now f tag in
  loose_wf f' /\ outstanding f' = outstanding f /\ sendmeInc f' = sendmeInc f /\ vegas f' = vegas f /\
  len (sendmeExpected f') <= len (sendmeExpected f) + 1.
Proof.
  intros Hf. unfold recordSendmeTag. destruct (sendmeAuthTag tag); [|split_and!; auto; lia].
  split_and!; try done. simpl. rewrite len_app. unfold len; simpl; lia.
Qed.

Lemma refund_loose f :
  loose_wf f -> (vegas f = None -> packageWindow f < 2 ^ 62) -> (vegas f <> None -> 0 < outstanding f) ->
  let f' := refundPackageWindow f in
  loose_wf f' /\ outstanding f' = outstanding f - 1 /\ sendmeExpected f' = sendmeExpected f /\
  sendmeInc f' = sendmeInc f /\ (vegas f' = None <-> vegas f = None).
Proof.
  intros Hf Hb Ho. cbv zeta. destruct (vegas f) as [v|] eqn:Ev.
  - unfold loose_wf in Hf. rewrite Ev in Hf. destruct (refund_step f Hf (Ho ltac:(done))) as (H1 & H2 & H3 & H4 & H5).
    rewrite Ev in H5. split_and!; try done. unfold loose_wf. by destruct (vegas (refundPackageWindow f)) eqn:E; [|destruct H5 as [H5 _]; specialize (H5 eq_refl)].
  - unfold loose_wf, refundPackageWindow, outstanding in *. rewrite Ev in *. simpl. rewrite Ev.
    specialize (Hb eq_refl). rewrite i64_id by (word; lia). split_and!; try done; lia.
Qed.

Lemma sendme_loose b now blocked f payload b' f' :
  loose_wf f -> (vegas f = None -> packageWindow f < 2 ^ 62) ->
  (vegas f <> None -> 0 <= outstanding f /\ len (sendmeExpected f) * sendmeIncrementLocked f <= outstanding f) ->
  processCircuitSendme b now blocked f payload = (b', f', None) ->
  loose_wf f' /\ outstanding f' = outstanding f - sendmeIncrementLocked f /\ sendmeInc f' = sendmeInc f /\
  len (sendmeExpected f) = len (sendmeExpected f') + 1 /\ (vegas f' = None <-> vegas f = None).
Proof.
  intros Hf Hb Hv Hp. pose proof Hp as Hp'.
  apply processCircuitSendme_cases in Hp' as [(? & _)|(_ & p & rest & He & _ & He' & _ & _ & Hi' & _ & H)]; [done|].
  assert (len (sendmeExpected f) = len (sendmeExpected f') + 1) as Hlen by (rewrite He, He'; unfold len; simpl; lia).
  unfold loose_wf in *. destruct (vegas f) as [v|] eqn:Ev.
  - destruct (Hv ltac:(done)) as [Ho Hq].
    destruct (sendme_accepted b now blocked f payload b' f' ltac:(by constructor) Hp) as ([Hwf' _ _] & Ho' & Hi & _).
    destruct H as (v0 & v' & rtt & _ & _ & Hv' & _). rewrite Hv'. by split_and!.
  - destruct H as [Hv' Hw]. rewrite Hv'. destruct Hf as [Hi Hp0]. specialize (Hb eq_refl).
    unfold outstanding, sendmeIncrementLocked in *. rewrite Ev, Hv', Hi', Hi in *.
    change (0 <? 0) with false in *. cbv iota in *. unfold circWindowIncrement in *.
    rewrite Hw, i64_id by (word; lia). split_and!; try done; lia.
Qed.

(** Every step keeps the accounts, on classic windows in any case and under
    congestion control as long as there are no strays. *)
Lemma accounts_step inc st o :
  1 <= inc <= 250 -> accounts inc st -> loose_wf (s_flow st) -> strays st < 2 ^ 32 ->
  (vegas (s_flow st) = None \/ strays (exec1 st o) = 0) ->
  accounts inc (exec1 st o) /\ loose_wf (s_flow (exec1 st o)) /\
  (vegas (s_flow (exec1 st o)) = None <-> vegas (s_flow st) = None).
Proof.
  intros Hinc Hac Hwf Hsb Hmode. pose proof (accounts_window inc st ltac:(lia) Hac) as Hlow.
  pose proof Hac as [Hi Ho Hq Hs]. pose proof (flagged_nonneg (held st)) as Hfl.
  assert (forall f : Flow, sendmeInc f = sendmeInc (s_flow st) -> sendmeIncrementLocked f = inc) as Hloc
    by (intros f Hf; unfold sendmeIncrementLocked in *; by rewrite Hf).
  assert (vegas (s_flow st) = None -> packageWindow (s_flow st) < 2 ^ 62) as Hb.
  { intros Hv. unfold outstanding in Hlow. rewrite Hv in Hlow. word. nia. }
  destruct st as [b f h n a x]. cbn [s_flow held sent acked strays] in *.
  destruct o as [|k tag now|k|payload now blocked]; cbn [exec1] in *.
  - destruct (decrementPackageWindowForSendme f) as [f' [r|e]] eqn:Ed.
    + destruct (reserve_loose f f' r Hwf Hb Ed) as (Hwf' & Ho' & He' & Hi' & Hv' & Hr).
      split_and!; [|done|apply Hv'..]. constructor; cbn [s_flow held sent acked strays]; auto.
      * rewrite len_app, Ho', Ho. change (len [r]) with 1. lia.
      * rewrite He', flagged_app, Ho', div_next by lia. rewrite Hi in Hr. rewrite <- Hr.
        assert (flagged [r] = if r then 1 else 0) as -> by (by destruct r). destruct r; lia.
    + assert (f' = f) as -> by (unfold decrementPackageWindowForSendme in Ed; repeat case_match; by simplify_eq).
      split_and!; [|done..]. by constructor.
  - destruct (h !! k) as [r|] eqn:Ek; [|split_and!; [|done..]; by constructor].
    assert (loose_wf (if r then recordSendmeTag now f tag else f) /\
      outstanding (if r then recordSendmeTag now f tag else f) = outstanding f /\
      sendmeInc (if r then recordSendmeTag now f tag else f) = sendmeInc f /\
      vegas (if r then recordSendmeTag now f tag else f) = vegas f /\
      len (sendmeExpected (if r then recordSendmeTag now f tag else f)) <=
        len (sendmeExpected f) + (if r then 1 else 0)) as (H1 & H2 & H3 & H4 & H5).
    { destruct r; [by apply record_loose|]. split_and!; auto; lia. }
    cbn [s_flow]. rewrite H4. split_and!; [|done|done..]. constructor; cbn [s_flow held sent acked strays]; auto.
    + rewrite H2, (len_delete h k r Ek). lia.
    + rewrite H2, (flagged_delete h k r Ek). lia.
  - destruct (h !! k) as [r|] eqn:Ek; [|split_and!; [|done..]; by constructor].
    cbn [s_flow strays] in *.
    assert (1 <= len h) as Hlen.
    { pose proof (lookup_lt_Some _ _ _ Ek). unfold len. lia. }
    assert (r = true -> 1 <= flagged h) as Hr1.
    { intros ->. pose proof (flagged_delete h k true Ek) as Hd. cbv iota in Hd. pose proof (flagged_nonneg (delete k h)). lia. }
    pose proof (len_nonneg (sendmeExpected f)) as Hln. unfold at_boundary in *. rewrite Hi in *.
    pose proof (Z.div_mod (outstanding f) inc ltac:(lia)) as Hdm.
    pose proof (Z.mod_pos_bound (outstanding f) inc ltac:(lia)) as Hmb.
    destruct (refund_loose f Hwf Hb) as (H1 & H2 & H3 & H4 & H5).
    { intros Hv. destruct Hmode as [|Hx]; [done|]. assert (0 <= outstanding f / inc + 0) as Hz.
      { destruct (negb r && _); lia. }
      destruct r; cbn [negb andb] in Hx.
      - specialize (Hr1 eq_refl). assert (1 <= outstanding f / inc) by lia. nia.
      - destruct (Z.eqb_spec (outstanding f mod inc) 0); [lia|]. nia. }
    split_and!; [|done|apply H5..]. constructor; cbn [s_flow held sent acked strays]; auto.
    + rewrite H2, (len_delete h k r Ek). lia.
    + rewrite H2, H3, (flagged_delete h k r Ek), div_pred by lia.
      destruct r, (Z.eqb_spec (outstanding f mod inc) 0); cbn [negb andb]; try lia.
    + destruct (_ && _); lia.
  - destruct (processCircuitSendme b now blocked f payload) as [[b' f'] [e|]] eqn:Ep.
    + apply processCircuitSendme_cases in Ep as [(_ & -> & _)|(? & _)]; [|done]. split_and!; [|done..]. by constructor.
    + destruct (fun Hq => sendme_loose b now blocked f payload b' f' Hwf Hb Hq Ep) as (H1 & H2 & H3 & H4 & H5).
      { intros Hv. destruct Hmode as [|Hx]; [done|]. simpl in Hx. subst x.
        pose proof (Z.mul_div_le (outstanding f) inc ltac:(lia)). rewrite Hi.
        pose proof (len_nonneg (sendmeExpected f)). nia. }
      split_and!; [|done|apply H5..]. constructor; cbn [s_flow held sent acked strays]; auto.
      * rewrite H2, Hi. lia.
      * rewrite H2, Hi. replace (outstanding f - inc) with (outstanding f + (-1) * inc) by lia.
        rewrite Z.div_add by lia. lia.
Qed.

Lemma strays_step st o : strays st <= strays (exec1 st o) <= strays st + 1.
Proof.
  destruct st as [b f h n a x], o as [|k tag now|k|payload now blocked]; simpl; repeat case_match; simpl; lia.
Qed.

Lemma strays_mono os st : strays st <= strays (foldl exec1 st os) <= strays st + len os.
Proof.
  revert st. induction os as [|o os IH]; intros st; cbn [foldl]; [unfold len; simpl; lia|].
  pose proof (strays_step st o). specialize (IH (exec1 st o)). unfold len in *. simpl. lia.
Qed.

Lemma accounts_run inc os st :
  1 <= inc <= 250 -> accounts inc st -> loose_wf (s_flow st) -> strays st + len os < 2 ^ 32 ->
  (vegas (s_flow st) = None \/ strays (foldl exec1 st os) = 0) ->
  accounts inc (foldl exec1 st os) /\ (vegas (s_flow (foldl exec1 st os)) = None <-> vegas (s_flow st) = None).
Proof.
  intros Hinc. revert st. induction os as [|o os IH]; intros st Hac Hwf Hb Hmode; cbn [foldl] in *; [done|].
  pose proof (strays_step st o) as Hs1. pose proof (strays_mono os (exec1 st o)) as Hs2. pose proof (ac_strays _ _ Hac).
  replace (len (o :: os)) with (len os + 1) in Hb by (unfold len; simpl; lia). pose proof (len_nonneg os).
  destruct (accounts_step inc st o Hinc Hac Hwf ltac:(lia)) as (Hac' & Hwf' & Hv); [destruct Hmode; [by left|right; lia]|].
  destruct (IH (exec1 st o) Hac' Hwf' ltac:(lia)) as [Ha Hv']; [destruct Hmode; [left; by apply Hv|by right]|].
  split; [done|]. by rewrite Hv'.
Qed.

(** A sender that is alone gives back a boundary only if it is its own. *)
Lemma alone_step inc st o :
  1 <= inc <= 250 -> accounts inc st -> loose_wf (s_flow st) -> strays st = 0 -> alone1 st o = true ->
  (held st = [] \/ held st = [at_boundary (s_flow st)]) ->
  strays (exec1 st o) = 0 /\ (held (exec1 st o) = [] \/ held (exec1 st o) = [at_boundary (s_flow (exec1 st o))]).
Proof.
  intros Hinc Hac Hwf Hs Hal Hh. pose proof (accounts_window inc st ltac:(lia) Hac) as Hlow.
  assert (vegas (s_flow st) = None -> packageWindow (s_flow st) < 2 ^ 62) as Hb.
  { intros Hv. unfold outstanding in Hlow. rewrite Hv, Hs in Hlow. word; lia. }
  assert (strays (exec1 st o) = 0) as Hs'.
  { destruct st as [b f h n a x], o as [|k tag now|k|payload now blocked]; simpl in *; repeat case_match; simpl; try done.
    destruct Hh as [-> | ->]; [done|]. destruct k; [|done]. simplify_list_eq. by destruct (at_boundary f). }
  split; [done|].
  destruct (accounts_step inc st o Hinc Hac Hwf ltac:(word; lia)) as ([Hi' _ _ _] & _ & _); [by right|].
  pose proof Hac as [Hi _ Hq _].
  destruct st as [b f h n a x], o as [|k tag now|k|payload now blocked]; cbn [exec1 s_flow held strays] in *.
  - cbn [alone1 held] in Hal. apply bool_decide_eq_true in Hal as ->.
    destruct (decrementPackageWindowForSendme f) as [f' [r|e]] eqn:Ed; [|by left].
    destruct (reserve_loose f f' r Hwf Hb Ed) as (_ & Ho' & _ & _ & _ & Hr). right. simpl in *. f_equal.
    unfold at_boundary. by rewrite Ho', Hi', Hr, Hi.
  - destruct Hh as [-> | ->]; [by left|]. destruct k; [by left|]. by right.
  - destruct Hh as [-> | ->]; [by left|]. destruct k; [by left|]. by right.
  - destruct (processCircuitSendme b now blocked f payload) as [[b' f'] [e|]] eqn:Ep; cbn [held s_flow] in *.
    + apply processCircuitSendme_cases in Ep as [(_ & -> & _)|(? & _)]; [done|done].
    + destruct Hh as [-> | ->]; [by left|right]. f_equal.
      destruct (fun Hq => sendme_loose b now blocked f payload b' f' Hwf Hb Hq Ep) as (_ & H2 & _ & _ & _).
      { intros Hv. subst x. pose proof (Z.mul_div_le (outstanding f) inc ltac:(lia)). rewrite Hi.
        pose proof (len_nonneg (sendmeExpected f)). pose proof (flagged_nonneg [at_boundary f]). nia. }
      unfold at_boundary. rewrite Hi', H2, Hi. replace (outstanding f - inc) with (outstanding f + (-1) * inc) by lia.
      by rewrite Z_mod_plus_full.
Qed.

Lemma alone_run inc os st :
  1 <= inc <= 250 -> accounts inc st -> loose_wf (s_flow st) -> strays st = 0 -> alone st os = true ->
  (held st = [] \/ held st = [at_boundary (s_flow st)]) -> strays (foldl exec1 st os) = 0.
Proof.
  intros Hinc. revert st. induction os as [|o os IH]; intros st Hac Hwf Hs Hal Hh; cbn [foldl]; [done|].
  cbn [alone] in Hal. apply andb_true_iff in Hal as [Hal1 Hal].
  destruct (alone_step inc st o Hinc Hac Hwf Hs Hal1 Hh) as [Hs' Hh'].
  destruct (accounts_step inc st o Hinc Hac Hwf ltac:(word; lia)) as (Hac' & Hwf' & _); [by right|]. by apply IH.
Qed.

Lemma no_refund_run os st : Forall no_refund os -> strays (foldl exec1 st os) = strays st.
Proof.
  revert st. induction os as [|o os IH]; intros st Hr; cbn [foldl]; [done|]. apply Forall_cons in Hr as [Ho Hr].
  rewrite IH by done. destruct st as [b f h n a x], o as [|k tag now|k|payload now blocked]; simpl; repeat case_match; done.
Qed.

Lemma start_accounts b f :
  sender_inv f -> outstanding f = 0 ->
  accounts (sendmeIncrementLocked f) (start b f) /\ loose_wf f.
Proof.
  intros [Hf _ Hq] Ho. pose proof Hf as (Hp & _ & _ & Hi & Hv). pose proof (increment_range f Hi) as Hinc.
  split.
  - rewrite Ho in Hq. pose proof (len_nonneg (sendmeExpected f)).
    constructor; simpl; try done; rewrite Ho; [unfold len; simpl; lia|].
    rewrite Z.div_0_l by lia. unfold flagged, len in *. simpl. nia.
  - unfold loose_wf. destruct (vegas f); [done|]. split; [done | lia].
Qed.

Lemma new_flow_inv : sender_inv new_flow.
Proof. constructor; [|done..]. unfold flow_wf, sendmeIncrementLocked; simpl. split_and!; done. Qed.

Lemma enable_inv f inc :
  flow_wf f -> params_wf (ccParams f) -> 1 <= inc <= 250 ->
  sender_inv (EnableCongestionControl f inc) /\ outstanding (EnableCongestionControl f inc) = 0 /\
  sendmeIncrementLocked (EnableCongestionControl f inc) = inc.
Proof.
  intros Hf Hp Hinc. unfold EnableCongestionControl.
  assert ((inc <? 1) || (250 <? inc) = false) as -> by (apply orb_false_iff; lia).
  rewrite (proj2 (Z.ltb_ge (CwndInit (ccParams f)) 1)) by (unfold params_wf in Hp; lia).
  pose proof (Vegas.newVegasState_wf (ccParams f) inc Hp) as Hwf. specialize (Hwf ltac:(lia)).
  assert (Vegas.sendmeInc (Vegas.newVegasState (ccParams f) inc) = inc) as Hvi.
  { unfold Vegas.newVegasState; simpl. rewrite (proj2 (Z.ltb_ge _ _)) by lia. done. }
  assert (sendmeIncrementLocked (mkFlow 0 0 inc 0 0 [] DefaultCCParams None false) = inc) as Hl.
  { unfold sendmeIncrementLocked; simpl. rewrite (proj2 (Z.ltb_lt _ _)) by lia. done. }
  pose proof (Vegas.wf_cwnd _ Hwf) as Hc.
  cbv zeta. set (v := Vegas.newVegasState (ccParams f) inc) in *.
  assert (Vegas.inflight v = 0) as Hin by done. clearbody v.
  split_and!; [constructor| |]; unfold flow_wf, outstanding, sendmeIncrementLocked in *; simpl in *; try done.
  - rewrite packageWindow_vegas, Hl by done. split_and!; try done; simpl; lia.
  - lia.
  - unfold len; simpl. lia.
Qed.

(** A SENDME is accepted exactly when it is well formed, of an accepted
    version and carries the digest recorded for the oldest outstanding
    boundary cell; anything else leaves the flow state untouched, and an
    accepted one consumes that one record. *)
Theorem circuit_sendme_authenticated b now blocked f payload :
  let '(b', f', e) := processCircuitSendme b now blocked f payload in
  (e = None <-> exists p rest, sendmeExpected f = p :: rest /\ acknowledges payload p) /\
  (e <> None -> f' = f /\ b' = b) /\
  (e = None -> sendmeExpected f' = tail (sendmeExpected f) /\ sendWake f' = true).
Proof.
  destruct (processCircuitSendme b now blocked f payload) as [[b' f'] e] eqn:Ep.
  apply processCircuitSendme_cases in Ep
    as [(He & Hf & Hb & Hn)|(He & p & rest & Hx & Ha & Hx' & _ & _ & _ & Hw & _)].
  - split_and!; try done. split; [done | intros (p & rest & Hp & Ha); by destruct (Hn p rest Hp)].
  - subst e. split_and!; try done; [by split; [exists p, rest|]|]. intros _. by rewrite Hx.
Qed.

(** C32: A peer cannot inflate the send window, whatever SENDME bodies it sends and
    however they interleave with the critical sections of any number of senders,
    as long as no stray reservation is given back: then the SENDMEs accepted
    acknowledge at most the cells sent or on their way, [inc] cells each, what
    remains outstanding is exactly the difference, and a classic window never
    exceeds its initial 1000 cells.  There are no strays when nothing is
    refunded, or when no sender reserves while another is between its
    reservation and the end of its send.  In any case, on classic windows,
    the window counts exactly the cells outstanding, and each stray lets it rise
    by at most one increment (which happens: [refund_race_inflates_window]). *)
Theorem sendme_window_not_inflatable os b f :
  sender_inv f -> outstanding f = 0 -> len os < 2 ^ 32 ->
  let inc := sendmeIncrementLocked f in
  let st := foldl exec1 (start b f) os in
  (strays st = 0 ->
   inc * acked st <= len (held st) + sent st /\
   outstanding (s_flow st) = len (held st) + sent st - inc * acked st /\
   (vegas f = None -> packageWindow (s_flow st) <= 1000)) /\
  (alone (start b f) os = true \/ Forall no_refund os -> strays st = 0) /\
  (vegas f = None ->
   packageWindow (s_flow st) = 1000 - (len (held st) + sent st) + inc * acked st /\
   packageWindow (s_flow st) <= 1000 + inc * strays st).
Proof.
  intros Hs Hz Hl inc st. pose proof Hs as [(_ & _ & _ & Hi & _) _ _]. pose proof (increment_range f Hi) as Hinc.
  fold inc in Hinc. destruct (start_accounts b f Hs Hz) as [Hac Hwf]. fold inc in Hac.
  assert (0 + len os < 2 ^ 32) as Hb by lia.
  assert ((vegas f = None \/ strays st = 0) -> accounts inc st /\ (vegas (s_flow st) = None <-> vegas f = None)) as Hrun
    by (intros Hm; exact (accounts_run inc os (start b f) Hinc Hac Hwf Hb Hm)).
  split_and!.
  - intros Hst. destruct (Hrun (or_intror Hst)) as [Ha Hv]. pose proof (accounts_window inc st ltac:(lia) Ha) as Hlow.
    rewrite Hst in Hlow. rewrite (ac_out _ _ Ha) in *. split_and!; [lia|done|]. intros Hn.
    pose proof (ac_out _ _ Ha) as Ho. unfold outstanding in Ho. rewrite (proj2 Hv Hn) in Ho. lia.
  - intros [Hal|Hr]; [|exact (no_refund_run os (start b f) Hr)].
    apply (alone_run inc os (start b f) Hinc Hac Hwf eq_refl Hal). by left.
  - intros Hn. destruct (Hrun (or_introl Hn)) as [Ha Hv]. pose proof (accounts_window inc st ltac:(lia) Ha) as Hlow.
    pose proof (ac_out _ _ Ha) as Ho. unfold outstanding in *. rewrite (proj2 Hv Hn) in *. split; lia.
Qed.

Definition sample_tag : bytes := zeros 20.

(** A cell sent with nothing in between. *)
Definition one_send : list op := [OpReserve; OpRecord 0 sample_tag 0].

Definition sample_sendme : op := OpSendme (Sendme.sendme_image sample_tag) 5000000 None.

(** The senders of the 100th and 101st cell overlap, the second gives its place
    back, and the peer acknowledges twice. *)
Definition sample_run : list op :=
  mjoin (replicate 99 one_send) ++
  [OpReserve; OpReserve; OpRefund 1; sample_sendme; OpRecord 0 sample_tag 0; sample_sendme; sample_sendme].

Lemma sendme_window_not_inflatable_witness :
  let st := foldl exec1 (start false new_flow) sample_run in
  100 * acked st <= len (held st) + sent st /\ packageWindow (s_flow st) <= 1000 /\ sent st = 100 /\ acked st = 1.
Proof.
  intros st.
  destruct (sendme_window_not_inflatable sample_run false new_flow new_flow_inv eq_refl) as (H1 & _ & _);
    [vm_compute; reflexivity|].
  destruct H1 as (Ha & _ & Hp); [vm_compute; reflexivity|].
  split; [exact Ha|]. split; [exact (Hp eq_refl)|]. split; vm_compute; reflexivity.
Defined.

(** The places of the window are not the sender's own.  After 98 cells X reserves
    the 99th place and A the 100th, which is a boundary, and A sends and records
    its tag.  X fails and gives a place back, so that the window stands before the
    boundary again; C reserves that place, is told to record its tag too, and
    sends.  The peer has 100 cells and the sender expects two SENDMEs: when both
    are accepted the window is 1100. *)
Theorem refund_race_inflates_window :
  let st := foldl exec1 (start false new_flow)
    (mjoin (replicate 98 one_send) ++
     [OpReserve; OpReserve; OpRecord 1 sample_tag 0; OpRefund 0; OpReserve; OpRecord 0 sample_tag 0;
      sample_sendme; sample_sendme]) in
  sent st = 100 /\ acked st = 2 /\ held st = [] /\ packageWindow (s_flow st) = 1100.
Proof. vm_compute. done. Qed.

End FlowControl.
