(* ===== verification/FlowProtocol.v ===== *)
(** * The SENDME protocol between two circuit endpoints

    A sender and a receiver, each with the flow state of [FlowControl.v], joined
    by a channel of DATA cells and a channel of SENDME bodies.  Sending a cell is
    what [sendRelayCellLocal] and [emitRelayCell] (pkg/circuit/circuit.go) do, one
    critical section at a time: the reservation, the encryption, which gives the
    k-th cell the authentication tag [tag k], the writing to the connection and the
    recording of the tag.  Several goroutines may be at it.  As in
    [DeliverRelayCell], the receiver answers a boundary cell by starting a goroutine
    that runs [sendCircuitSendme]; the goroutines that have not run yet are
    [tasks], and the scheduler decides which one runs next. *)

From S2P Require Import Prelude Conversion RelayCell CellPayloads CCParams Vegas FlowControl.
Import FlowControl.

Module FlowProtocol.

(** ** The sending side

    Where a goroutine that sends is, with what its reservation said about
    recording the tag and the number the encryption gave its cell. *)
Inductive stage :=
| Reserved (record : bool)
| Encrypted (record : bool) (n : nat)
| Sent (record : bool) (n : nat).

Record source := mkSource {
  flow : Flow;
  senders : list stage;
  nenc : nat;
  wire : list nat;
}.

Inductive sstep :=
| SReserve
| SRefund (k : nat)
| SEncrypt (k : nat)
| STransmit (k : nat)
| SRecord (k : nat) (now : Z).

(** One critical section of the [k]-th sender; [None] when it cannot run. *)
Definition source_step (tag : nat -> bytes) (x : sstep) (q : source) : option source :=
  match x with
  | SReserve =>
      match decrementPackageWindowForSendme (flow q) with
      | (_, Err _) => None
      | (f, Ok record) => Some (mkSource f (senders q ++ [Reserved record]) (nenc q) (wire q))
      end
  | SRefund k =>
      match (senders q !! k : option stage) with
      | Some (Reserved _) => Some (mkSource (refundPackageWindow (flow q)) (delete k (senders q)) (nenc q) (wire q))
      | _ => None
      end
  | SEncrypt k =>
      match (senders q !! k : option stage) with
      | Some (Reserved record) =>
          Some (mkSource (flow q) (<[k := Encrypted record (nenc q)]> (senders q)) (S (nenc q)) (wire q))
      | _ => None
      end
  | STransmit k =>
      match (senders q !! k : option stage) with
      | Some (Encrypted record n) =>
          Some (mkSource (flow q) (<[k := Sent record n]> (senders q)) (nenc q) (wire q ++ [n]))
      | _ => None
      end
  | SRecord k now =>
      match (senders q !! k : option stage) with
      | Some (Sent record n) =>
          Some (mkSource (if record then recordSendmeTag now (flow q) (tag n) else flow q) (delete k (senders q))
                  (nenc q) (wire q))
      | _ => None
      end
  end.

(** A whole send with nothing in between. *)
Definition whole_send (tag : nat -> bytes) (now : Z) (q : source) : option source :=
  let k := length (senders q) in
  q ← source_step tag SReserve q;
  q ← source_step tag (SEncrypt k) q;
  q ← source_step tag (STransmit k) q;
  source_step tag (SRecord k now) q.

Lemma whole_send_spec tag now q :
  whole_send tag now q =
    match send_data (flow q) (tag (nenc q)) now with
    | None => None
    | Some f => Some (mkSource f (senders q) (S (nenc q)) (wire q ++ [nenc q]))
    end.
Proof.
  unfold whole_send, send_data. cbn [source_step].
  destruct (decrementPackageWindowForSendme (flow q)) as [f [r|e]]; [|done]. simpl.
  rewrite (list_lookup_middle (senders q) [] _ _ eq_refl). simpl.
  rewrite insert_app_r_alt, Nat.sub_diag by done. simpl. rewrite (list_lookup_middle (senders q) [] _ _ eq_refl). simpl.
  rewrite insert_app_r_alt, Nat.sub_diag by done. simpl. rewrite (list_lookup_middle (senders q) [] _ _ eq_refl).
  do 2 f_equal. rewrite delete_middle. by rewrite app_nil_r.
Qed.

Fixpoint count_stages (p : stage -> bool) (l : list stage) : nat :=
  match l with
  | [] => O
  | st :: l => if p st then S (count_stages p l) else count_stages p l
  end.

Definition encrypted (st : stage) : bool := match st with Encrypted _ _ => true | _ => false end.
Definition holding (st : stage) : bool := match st with Sent _ _ => false | _ => true end.
Definition unrecorded (st : stage) : bool := match st with Sent true _ => true | _ => false end.

(** The number of cells on the way or beyond, of reservations whose cell is not
    out yet, and of boundary cells that are out with their tag not yet recorded. *)
Definition nsent (q : source) : nat := nenc q - count_stages encrypted (senders q).
Definition in_hand (q : source) : nat := count_stages holding (senders q).
Definition owed_tags (q : source) : nat := count_stages unrecorded (senders q).

(** ** The system *)

Record sys := mkSys {
  broken : bool;
  src : source;
  receiver : Flow;
  nrecv : nat;
  tasks : list bytes;
  back : list bytes;
}.

Definition sender (s : sys) : Flow := flow (src s).
Definition fwd (s : sys) : list nat := wire (src s).

Definition init (sf rf : Flow) : sys := mkSys false (mkSource sf [] 0 []) rf 0 [] [].

Inductive action :=
| ActSend (now : Z)
| ActStep (x : sstep)
| ActRecv
| ActTask (i : nat)
| ActAck (now : Z) (blocked : option bool).

(** [Disabled]: there is nothing to do the action on, or the sender has to wait.
    [Garbled]: a cell arrives out of the order of its encryption, so that the
    running ciphers and digests of the two ends no longer fit and it is not
    recognised.  [Failed]: one side reports an error, on which the program tears the
    circuit down or drops the cell. *)
Inductive outcome := Next (s : sys) | Disabled | Garbled (n : nat) | Failed (e : error).

Definition set_src (s : sys) (q : source) : sys := mkSys (broken s) q (receiver s) (nrecv s) (tasks s) (back s).

Section Protocol.
Context (tag : nat -> bytes).

Definition act (a : action) (s : sys) : outcome :=
  match a with
  | ActSend now => match whole_send tag now (src s) with None => Disabled | Some q => Next (set_src s q) end
  | ActStep x => match source_step tag x (src s) with None => Disabled | Some q => Next (set_src s q) end
  | ActRecv =>
      match wire (src s) with
      | [] => Disabled
      | n :: rest =>
          if negb (n =? nrecv s)%nat then Garbled n
          else
            match decrementDeliverWindowAndTakeSendme (receiver s) with
            | (_, Err e) => Failed (errCircuitFlow e)
            | (r, Ok take) =>
                Next (mkSys (broken s) (mkSource (flow (src s)) (senders (src s)) (nenc (src s)) rest) r (S (nrecv s))
                        (if take then tasks s ++ [cloneDigest (tag n)] else tasks s) (back s))
            end
      end
  | ActTask i =>
      match tasks s !! i with
      | None => Disabled
      | Some t =>
          match sendCircuitSendme (fun _ => None) (receiver s) t with
          | (_, Err e) => Failed e
          | (r, Ok rc) =>
              Next (mkSys (broken s) (src s) r (nrecv s) (delete i (tasks s)) (back s ++ [RelayCell.Data rc]))
          end
      end
  | ActAck now blocked =>
      match back s with
      | [] => Disabled
      | payload :: rest =>
          match processCircuitSendme (broken s) now blocked (sender s) payload with
          | (_, _, Some e) => Failed e
          | (b, f, None) =>
              Next (mkSys b (mkSource f (senders (src s)) (nenc (src s)) (wire (src s))) (receiver s) (nrecv s)
                      (tasks s) rest)
          end
      end
  end.

(** Disabled actions are skipped; a failure ends the run. *)
Fixpoint run (l : list action) (s : sys) : outcome :=
  match l with
  | [] => Next s
  | a :: l =>
      match act a s with
      | Next s => run l s
      | Disabled => run l s
      | r => r
      end
  end.

(** The order the protocol relies on, and nothing in the program enforces: one
    sender at a time, acknowledgement goroutines run in the order they were started,
    and a SENDME is not processed while its tag is still to be recorded. *)
Definition tags_known (q : source) : bool :=
  (owed_tags q =? 0)%nat || negb (bool_decide (sendmeExpected (flow q) = [])).

Definition orderly1 (s : sys) (a : action) : bool :=
  match a with
  | ActSend _ | ActStep SReserve => bool_decide (senders (src s) = [])
  | ActTask i => (i =? 0)%nat
  | ActAck _ _ => tags_known (src s)
  | _ => true
  end.

Fixpoint orderly (l : list action) (s : sys) : bool :=
  match l with
  | [] => true
  | a :: l =>
      orderly1 s a &&
      match act a s with
      | Next s => orderly l s
      | Disabled => orderly l s
      | _ => true
      end
  end.

(** ** Invariant *)

Context (inc W : Z) (classic : bool).

(** The k-th boundary cell is the last of the k-th group of [inc] cells. *)
Definition boundary (k : Z) : nat := Z.to_nat (inc * (k + 1) - 1).
Definition boundary_tag (k : Z) : bytes := tag (boundary k).
Definition auth_of (raw : bytes) : bytes := default [] (sendmeAuthTag raw).

(** With one sender, its number and what it was told about recording. *)
Definition stage_ok (q : source) : Prop :=
  match senders q with
  | [] => True
  | [Reserved r] => r = ((Z.of_nat (nsent q) + 1) mod inc =? 0)
  | [Encrypted r n] => n = nsent q /\ nenc q = S n /\ r = ((Z.of_nat (nsent q) + 1) mod inc =? 0)
  | [Sent r n] => S n = nsent q /\ r = (Z.of_nat (nsent q) mod inc =? 0)
  | _ => False
  end.

(** [m] cells received, [b] SENDMEs sent, [a] SENDMEs accepted. *)
Record sys_inv (s : sys) (m b a : Z) : Prop := {
  inv_stage : stage_ok (src s);
  inv_order : 0 <= a <= b /\ inc * b <= m /\ m <= Z.of_nat (nsent (src s));
  inv_acked : a + Z.of_nat (owed_tags (src s)) <= Z.of_nat (nsent (src s)) / inc;
  inv_recv : nrecv s = Z.to_nat m;
  inv_fwd : wire (src s) = seq (Z.to_nat m) (nsent (src s) - Z.to_nat m);
  inv_tasks : tasks s = boundary_tag <$> seqZ b (m / inc - b);
  inv_back : back s = (fun k => Sendme.sendme_image (auth_of (boundary_tag k))) <$> seqZ a (b - a);
  inv_expected : digest <$> sendmeExpected (sender s) =
    (fun k => auth_of (boundary_tag k)) <$>
      seqZ a (Z.of_nat (nsent (src s)) / inc - Z.of_nat (owed_tags (src s)) - a);
  inv_sender : sender_inv (sender s);
  inv_sinc : sendmeIncrementLocked (sender s) = inc;
  inv_out : outstanding (sender s) = Z.of_nat (nsent (src s)) + Z.of_nat (in_hand (src s)) - inc * a;
  inv_rinc : sendmeIncrementLocked (receiver s) = inc;
  inv_deliver : deliverWindow (receiver s) = W - m + inc * b;
  inv_nonneg : 0 <= deliverWindow (receiver s);
  inv_received : sendmeReceived (receiver s) = m mod inc;
  inv_classic : classic = true -> vegas (sender s) = None;
}.

Context (Hinc : 1 <= inc <= 250) (HW : 0 < W < 2 ^ 31).
Context (Htag : forall n, exists d, sendmeAuthTag (tag n) = Some d /\ Sendme.tag_wf d).

Lemma auth_boundary k : sendmeAuthTag (boundary_tag k) = Some (auth_of (boundary_tag k)) /\
  Sendme.tag_wf (auth_of (boundary_tag k)).
Proof. unfold auth_of, boundary_tag. destruct (Htag (boundary k)) as (d & -> & Hd). done. Qed.

Lemma div_succ m :
  0 <= m ->
  ((m + 1) mod inc = 0 /\ (m + 1) / inc = m / inc + 1 /\ m mod inc + 1 = inc /\ inc * (m / inc + 1) - 1 = m) \/
  ((m + 1) mod inc = m mod inc + 1 /\ (m + 1) / inc = m / inc /\ m mod inc + 1 < inc).
Proof.
  intros Hm. pose proof (Z.div_mod m inc ltac:(lia)) as Hd. pose proof (Z.mod_pos_bound m inc ltac:(lia)) as Hb.
  set (q := m / inc) in *. set (r := m mod inc) in *.
  destruct (decide (r + 1 = inc)).
  - left. assert (m + 1 = inc * (q + 1)) as Hm1 by lia. rewrite Hm1, Z.mul_comm.
    rewrite Z.mod_mul, Z.div_mul by lia. lia.
  - right. rewrite <- (Z.mod_unique (m + 1) inc q (r + 1)), <- (Z.div_unique (m + 1) inc q (r + 1)) by lia. lia.
Qed.

Lemma boundary_last m : 0 <= m -> inc * (m / inc + 1) - 1 = m -> boundary (m / inc) = Z.to_nat m.
Proof. intros _ H. unfold boundary. by rewrite H. Qed.

(** Extending a range by its end. *)
Lemma seqZ_snoc {A} (g : Z -> A) lo hi : lo <= hi -> g <$> seqZ lo (hi + 1 - lo) = (g <$> seqZ lo (hi - lo)) ++ [g hi].
Proof.
  intros H. replace (hi + 1 - lo) with (hi - lo + 1) by lia. rewrite seqZ_app by lia.
  rewrite fmap_app. simpl. do 3 f_equal. lia.
Qed.

(** Dropping the first element of a range. *)
Lemma seqZ_uncons {A} (g : Z -> A) lo hi x l :
  g <$> seqZ lo (hi - lo) = x :: l -> lo < hi /\ x = g lo /\ l = g <$> seqZ (lo + 1) (hi - (lo + 1)).
Proof.
  intros H. destruct (decide (lo < hi)) as [Hlt|Hge].
  - rewrite seqZ_cons in H by lia. simpl in H. simplify_eq. split_and!; [done..|].
    do 2 f_equal; lia.
  - by rewrite seqZ_nil in H by lia.
Qed.

Lemma sendCircuitSendme_sent f raw d :
  sendmeAuthTag raw = Some d -> Sendme.tag_wf d ->
  exists rc, sendCircuitSendme (fun _ => None) f raw =
    (set_deliver (set_sent f (i64 (sendmeSent f + 1))) (i64 (deliverWindow f + sendmeIncrementLocked f))
       (sendmeReceived f), Ok rc) /\ RelayCell.Data rc = Sendme.sendme_image d.
Proof.
  intros Ht Hd. unfold sendCircuitSendme. rewrite Ht, Sendme.EncodeSendmeV1_image by done.
  assert (len (Sendme.sendme_image d) <= 23) as Hl.
  { unfold Sendme.sendme_image. destruct Hd as [_ Hl]. rewrite !len_app.
    unfold Sendme.SendmeV1DigestLen, Sendme.SendmeCGOTagLen in Hl. unfold len at 1 2. simpl length. lia. }
  unfold RelayCell.NewRelayCell. rewrite (proj2 (Z.ltb_ge _ _)) by (unfold RelayCell.maxDataLen; simpl; lia).
  rewrite Conversion.SafeLenToUint16_small by (unfold MaxUint16; lia). simpl. by eexists.
Qed.

(** The length of the queue from what is in it. *)
Lemma expected_length f a hi :
  digest <$> sendmeExpected f = (fun k => auth_of (boundary_tag k)) <$> seqZ a (hi - a) ->
  len (sendmeExpected f) = Z.max 0 (hi - a).
Proof. intros H. apply (f_equal length) in H. rewrite !length_fmap, length_seqZ in H. unfold len. lia. Qed.

Lemma queue_fits f a ns u h :
  0 <= a -> 0 <= ns - inc * a -> 0 <= u -> 0 <= h ->
  digest <$> sendmeExpected f = (fun k => auth_of (boundary_tag k)) <$> seqZ a (ns / inc - u - a) ->
  sendmeIncrementLocked f = inc -> outstanding f = ns + h - inc * a -> flow_wf f -> sender_inv f.
Proof.
  intros Ha Hn Hu Hh He Hi Ho Hf. constructor; [done|lia|]. rewrite (expected_length _ _ _ He), Hi, Ho.
  pose proof (Z.mul_div_le ns inc ltac:(lia)). nia.
Qed.

(** What the fields of [sys_inv] that concern the sender come to, for a step that
    leaves the receiver and the channels back alone. *)
Lemma set_src_inv s q m b a :
  sys_inv s m b a -> stage_ok q -> Z.of_nat (nsent (src s)) <= Z.of_nat (nsent q) ->
  a + Z.of_nat (owed_tags q) <= Z.of_nat (nsent q) / inc ->
  wire q = seq (Z.to_nat m) (nsent q - Z.to_nat m) ->
  digest <$> sendmeExpected (flow q) = (fun k => auth_of (boundary_tag k)) <$>
    seqZ a (Z.of_nat (nsent q) / inc - Z.of_nat (owed_tags q) - a) ->
  flow_wf (flow q) -> sendmeInc (flow q) = sendmeInc (sender s) ->
  outstanding (flow q) = Z.of_nat (nsent q) + Z.of_nat (in_hand q) - inc * a ->
  (vegas (sender s) = None -> vegas (flow q) = None) ->
  sys_inv (set_src s q) m b a.
Proof.
  intros [Hst Ho Hac Hnr Hf Ht Hb He Hs Hsi Hout Hri Hd Hn Hr Hcl] Hst' Hle Hac' Hw He' Hwf' Hi' Hout' Hv'.
  assert (sendmeIncrementLocked (flow q) = inc) as Hsi' by (unfold sendmeIncrementLocked in *; by rewrite Hi').
  constructor; try done; unfold sender in *; cbn [src set_src]; auto; [lia|].
  eapply queue_fits; [..|exact He'|done|exact Hout'|done]; nia.
Qed.

Lemma step_reserve s m b a q :
  sys_inv s m b a -> senders (src s) = [] -> source_step tag SReserve (src s) = Some q -> sys_inv (set_src s q) m b a.
Proof.
  intros Hinv Hidle Hq. pose proof Hinv as [Hst Ho Hac Hnr Hf Ht Hb He Hs Hsi Hout Hri Hd Hn Hr Hcl].
  unfold source_step in Hq. fold (sender s) in Hq.
  destruct (decrementPackageWindowForSendme (sender s)) as [f [r|e]] eqn:Ed; [|done]. simplify_eq.
  pose proof Hs as [Hwf _ _]. destruct (outstanding_step _ _ _ Hwf Ed) as (Hwf' & Ho' & He' & Hi' & Hr').
  assert (nsent (src s) = nenc (src s)) as Hns by (unfold nsent; rewrite Hidle; simpl; lia).
  unfold in_hand, owed_tags in Hout, He, Hac. rewrite Hidle in Hout, He, Hac. simpl in Hout, He, Hac.
  apply set_src_inv; auto; unfold stage_ok, nsent, in_hand, owed_tags; simpl; rewrite ?Hidle; simpl;
    rewrite ?Nat.sub_0_r, <- ?Hns; try done; try lia.
  - assert (0 <= Z.of_nat (nsent (src s)) - inc * a) by nia.
    apply eq_true_iff_eq. rewrite Hr', Hsi, Z.eqb_eq, Hout, Z.rem_mod_nonneg by lia.
    replace (Z.of_nat (nsent (src s)) + Z.of_nat 0 - inc * a + 1) with (Z.of_nat (nsent (src s)) + 1 + (- a) * inc) by lia.
    by rewrite Z_mod_plus_full.
  - by rewrite He'.
  - intros Hv. destruct (decrement_granted _ _ _ Hwf Ed) as (_ & _ & _ & _ & _ & _ & _ & Hg).
    rewrite Hv in Hg. apply Hg.
Qed.

(** The one sender that is there. *)
Lemma only_sender s m b a k st :
  sys_inv s m b a -> senders (src s) !! k = Some st -> k = O /\ senders (src s) = [st].
Proof.
  intros [Hst _ _ _ _ _ _ _ _ _ _ _ _ _ _ _] Hk. unfold stage_ok in Hst.
  destruct (senders (src s)) as [|st' [|]]; [done| |by destruct st']. by destruct k; simplify_eq/=.
Qed.

Lemma step_refund s m b a k q :
  sys_inv s m b a -> source_step tag (SRefund k) (src s) = Some q -> sys_inv (set_src s q) m b a.
Proof.
  intros Hinv Hq. pose proof Hinv as [Hst Ho Hac Hnr Hf Ht Hb He Hs Hsi Hout Hri Hd Hn Hr Hcl].
  unfold source_step in Hq. destruct (senders (src s) !! k) as [[r| |]|] eqn:Ek; try done.
  destruct (only_sender s m b a k _ Hinv Ek) as [-> Hk]. simplify_eq. rewrite Hk in *. cbn [delete list_delete].
  unfold stage_ok, nsent, in_hand, owed_tags in *. rewrite Hk in *. simpl in *. rewrite Nat.sub_0_r in *.
  pose proof Hs as [Hwf _ _]. destruct (refund_step (sender s) Hwf) as (H1 & H2 & H3 & H4 & H5); [nia|].
  apply set_src_inv; auto; unfold stage_ok, nsent, in_hand, owed_tags; simpl; rewrite ?Nat.sub_0_r, ?Hk; simpl;
    try done; try lia; fold (sender s); [by rewrite H3 | rewrite H2; lia | apply H5].
Qed.

Lemma step_encrypt s m b a k q :
  sys_inv s m b a -> source_step tag (SEncrypt k) (src s) = Some q -> sys_inv (set_src s q) m b a.
Proof.
  intros Hinv Hq. pose proof Hinv as [Hst Ho Hac Hnr Hf Ht Hb He Hs Hsi Hout Hri Hd Hn Hr Hcl].
  unfold source_step in Hq. destruct (senders (src s) !! k) as [[r| |]|] eqn:Ek; try done.
  destruct (only_sender s m b a k _ Hinv Ek) as [-> Hk]. simplify_eq. rewrite Hk in *. cbn [insert list_insert].
  unfold stage_ok, nsent, in_hand, owed_tags in *. rewrite Hk in *. simpl in *. rewrite Nat.sub_0_r in *.
  apply set_src_inv; auto; unfold stage_ok, nsent, in_hand, owed_tags; simpl; rewrite ?Nat.sub_0_r, ?Hk; simpl;
    try done; try lia. apply Hs.
Qed.

Lemma step_transmit s m b a k q :
  sys_inv s m b a -> source_step tag (STransmit k) (src s) = Some q -> sys_inv (set_src s q) m b a.
Proof.
  intros Hinv Hq. pose proof Hinv as [Hst Ho Hac Hnr Hf Ht Hb He Hs Hsi Hout Hri Hd Hn Hr Hcl].
  unfold source_step in Hq. destruct (senders (src s) !! k) as [[|r n|]|] eqn:Ek; try done.
  destruct (only_sender s m b a k _ Hinv Ek) as [-> Hk]. simplify_eq. rewrite Hk in *. cbn [insert list_insert].
  unfold stage_ok in Hst. rewrite Hk in Hst. destruct Hst as (Hn0 & He0 & Hr0).
  assert (forall w, nsent (mkSource (flow (src s)) [Sent r n] (nenc (src s)) w) = S n) as Hns.
  { intros w. unfold nsent. simpl. lia. }
  unfold in_hand, owed_tags in Hout, He, Hac. rewrite Hk in Hout, He, Hac. simpl in Hout, He, Hac. rewrite <- Hn0 in *.
  assert (0 <= m) by nia.
  apply set_src_inv; auto; rewrite ?Hns; unfold stage_ok, in_hand, owed_tags; simpl; rewrite ?Hk, ?Hns; simpl;
    try done; try lia.
  - split; [done|]. by rewrite Hr0, Nat2Z.inj_succ, <- Z.add_1_r.
  - rewrite Nat2Z.inj_succ, <- Z.add_1_r.
    destruct (div_succ (Z.of_nat n)) as [(Hz & -> & _ & _)|(Hz & -> & Hl)]; [lia|..]; rewrite Hr0, Hz.
    + rewrite Z.eqb_refl. simpl. lia.
    + pose proof (Z.mod_pos_bound (Z.of_nat n) inc ltac:(lia)). rewrite (proj2 (Z.eqb_neq _ _)) by lia. simpl. lia.
  - rewrite Hf. replace (S n - Z.to_nat m)%nat with (S (n - Z.to_nat m)) by lia. rewrite seq_S. do 2 f_equal. lia.
  - fold (sender s). rewrite He. f_equal. rewrite Nat2Z.inj_succ, <- Z.add_1_r.
    destruct (div_succ (Z.of_nat n)) as [(Hz & -> & _ & _)|(Hz & -> & Hl)]; [lia|..]; rewrite Hr0, Hz.
    + rewrite Z.eqb_refl. simpl. f_equal. lia.
    + pose proof (Z.mod_pos_bound (Z.of_nat n) inc ltac:(lia)). rewrite (proj2 (Z.eqb_neq _ _)) by lia. done.
  - apply Hs.
  - fold (sender s). rewrite Hout. lia.
Qed.

Lemma step_record s m b a k now q :
  sys_inv s m b a -> source_step tag (SRecord k now) (src s) = Some q -> sys_inv (set_src s q) m b a.
Proof.
  intros Hinv Hq. pose proof Hinv as [Hst Ho Hac Hnr Hf Ht Hb He Hs Hsi Hout Hri Hd Hn Hr Hcl].
  unfold source_step in Hq. destruct (senders (src s) !! k) as [[| |r n]|] eqn:Ek; try done.
  destruct (only_sender s m b a k _ Hinv Ek) as [-> Hk]. simplify_eq. rewrite Hk in *. cbn [delete list_delete].
  unfold stage_ok in Hst. rewrite Hk in Hst. destruct Hst as (Hn0 & Hr0).
  assert (forall f w, nsent (mkSource f [] (nenc (src s)) w) = nsent (src s)) as Hns.
  { intros f w. unfold nsent. rewrite Hk. simpl. lia. }
  unfold in_hand, owed_tags in Hout, He, Hac. rewrite Hk in Hout, He, Hac. simpl in Hout, He, Hac.
  pose proof Hs as [Hwf _ _]. destruct (Htag n) as (d & Hd0 & _).
  apply set_src_inv; auto; rewrite ?Hns; unfold stage_ok, in_hand, owed_tags; simpl; try done; try lia.
  - fold (sender s). assert (0 <= m) by nia. destruct r; simpl in He; [|by rewrite He].
    unfold recordSendmeTag. rewrite Hd0. simpl. fold (sender s). rewrite fmap_app, He. simpl.
    symmetry in Hr0. apply Z.eqb_eq in Hr0. set (ns := Z.of_nat (nsent (src s))) in *.
    pose proof (Z.div_mod ns inc ltac:(lia)) as Hdm. rewrite Hr0 in Hdm.
    simpl in Hac.
    replace (ns / inc - Z.of_nat 0 - a) with (ns / inc - 1 + 1 - a) by lia. rewrite seqZ_snoc by lia. f_equal.
    cbn [digest fmap list_fmap]. f_equal. unfold boundary_tag, boundary, auth_of.
    replace (inc * (ns / inc - 1 + 1) - 1) with (Z.of_nat n) by lia. by rewrite Nat2Z.id, Hd0.
  - destruct r; [|apply Hwf]. by apply record_expected.
  - destruct r; [|done]. unfold recordSendmeTag. by rewrite Hd0.
  - destruct r; [|unfold sender in Hout; rewrite Hout; lia]. fold (sender s).
    destruct (record_expected now (sender s) (tag n) Hwf) as (_ & -> & _). lia.
  - fold (sender s). intros Hv. destruct r; [|done]. unfold recordSendmeTag. by rewrite Hd0.
Qed.

(** Any critical section of a sender that is alone. *)
Lemma source_step_inv s m b a x q :
  sys_inv s m b a -> (x = SReserve -> senders (src s) = []) -> source_step tag x (src s) = Some q ->
  sys_inv (set_src s q) m b a.
Proof.
  destruct x; intros Hi Hx Hq; [eapply step_reserve|eapply step_refund|eapply step_encrypt|eapply step_transmit|
    eapply step_record]; eauto.
Qed.

Lemma whole_send_inv s m b a now q :
  sys_inv s m b a -> senders (src s) = [] -> whole_send tag now (src s) = Some q -> sys_inv (set_src s q) m b a.
Proof.
  intros Hi Hidle. unfold whole_send. intros Hq.
  apply bind_Some in Hq as (q1 & H1 & Hq). apply bind_Some in Hq as (q2 & H2 & Hq). apply bind_Some in Hq as (q3 & H3 & H4).
  pose proof (source_step_inv s m b a _ _ Hi (fun _ => Hidle) H1) as I1.
  pose proof (source_step_inv (set_src s q1) m b a (SEncrypt _) q2 I1 ltac:(done) H2) as I2.
  pose proof (source_step_inv (set_src s q2) m b a (STransmit _) q3 I2 ltac:(done) H3) as I3.
  exact (source_step_inv (set_src s q3) m b a (SRecord _ _) q I3 ltac:(done) H4).
Qed.

Lemma act_recv s m b a s' :
  sys_inv s m b a -> act ActRecv s = Next s' -> sys_inv s' (m + 1) b a.
Proof.
  intros [Hst Ho Hac Hnr Hf Ht Hb He Hs Hsi Hout Hri Hd Hn Hr Hcl].
  assert (0 <= m) as Hm0 by nia. intros H. unfold act in H.
  destruct (wire (src s)) as [|n rest] eqn:Ef; [done|].
  destruct (nsent (src s) - Z.to_nat m)%nat as [|j] eqn:Ej; [done|]. simpl in Hf. simplify_eq.
  rewrite Hnr, Nat.eqb_refl in H. cbn [negb] in H.
  unfold decrementDeliverWindowAndTakeSendme in H.
  destruct (Z.leb_spec (deliverWindow (receiver s)) 0) as [|Hpos]; [done|].
  set (r1 := set_deliver (receiver s) _ _) in H.
  assert (sendmeIncrementLocked r1 = inc) as Hi1 by done. rewrite Hi1 in H.
  pose proof (Z.mod_pos_bound m inc ltac:(lia)) as Hmm.
  assert (sendmeReceived r1 = m mod inc + 1) as Hr1 by (unfold r1; simpl; rewrite Hr, i64_id by (word; lia); lia).
  assert (deliverWindow r1 = W - (m + 1) + inc * b) as Hd1
    by (unfold r1; simpl; rewrite i64_id by (word; lia); lia).
  assert (rest_eq : seq (S (Z.to_nat m)) j = seq (Z.to_nat (m + 1)) (nsent (src s) - Z.to_nat (m + 1)))
    by (f_equal; lia).
  set (q := mkSource _ _ _ _) in H.
  assert (nsent q = nsent (src s) /\ in_hand q = in_hand (src s) /\ owed_tags q = owed_tags (src s)) as (Q1 & Q2 & Q3) by done.
  assert (stage_ok q) as Hst' by exact Hst.
  rewrite Hr1 in H. destruct (div_succ m) as [(Hm1 & Hq1 & Hl & Hlast)|(Hm1 & Hq1 & Hl)]; [lia|..].
  - rewrite (proj2 (Z.leb_le _ _)) in H by lia. injection H as <-.
    constructor; cbn [src receiver nrecv tasks back]; rewrite ?Q1, ?Q2, ?Q3; try done; try lia.
    + rewrite Ht, Hq1, seqZ_snoc by (apply Z.div_le_lower_bound; lia). do 2 f_equal.
      unfold boundary_tag, cloneDigest. by rewrite boundary_last by lia.
    + simpl. rewrite i64_id by (word; lia). lia.
    + simpl. rewrite i64_id by (word; lia). lia.
  - rewrite (proj2 (Z.leb_gt _ _)) in H by lia. injection H as <-.
    constructor; cbn [src receiver nrecv tasks back]; rewrite ?Q1, ?Q2, ?Q3; try done; try lia.
    all: first [by rewrite Hq1 | by rewrite Hm1, <- Hr1 | by rewrite Hm1].
Qed.

Lemma act_task s m b a :
  sys_inv s m b a ->
  match act (ActTask 0) s with
  | Next s' => sys_inv s' m (b + 1) a
  | Disabled => True
  | Garbled _ | Failed _ => False
  end.
Proof.
  intros [Hst Ho Hac Hnr Hf Ht Hb He Hs Hsi Hout Hri Hd Hn Hr Hcl].
  assert (0 <= m) as Hm0 by nia. unfold act.
  destruct (tasks s) as [|t rest] eqn:Et; [done|]. simpl.
  symmetry in Ht. apply seqZ_uncons in Ht as (Hlt & -> & ->).
  destruct (auth_boundary b) as [Ha Hwf].
  destruct (sendCircuitSendme_sent (receiver s) _ _ Ha Hwf) as (rc & -> & Hrc).
  assert (inc * (b + 1) <= m) as Hle.
  { pose proof (Z.mul_div_le m inc ltac:(lia)). nia. }
  constructor; simpl; try done; try lia.
  - rewrite Hb, Hrc, seqZ_snoc by lia. done.
  - rewrite Hri, i64_id by (word; lia). lia.
  - rewrite Hri, i64_id by (word; lia). lia.
Qed.

Lemma act_ack s m b a now blocked :
  sys_inv s m b a -> tags_known (src s) = true ->
  match act (ActAck now blocked) s with
  | Next s' => sys_inv s' m b (a + 1)
  | Disabled => True
  | Garbled _ | Failed _ => False
  end.
Proof.
  intros [Hst Ho Hac Hnr Hf Ht Hb He Hs Hsi Hout Hri Hd Hn Hr Hcl] Hk.
  assert (0 <= m) as Hm0 by nia. unfold act.
  destruct (back s) as [|payload rest] eqn:Eb; [done|].
  symmetry in Hb. apply seqZ_uncons in Hb as (Hlt & -> & ->).
  destruct (auth_boundary a) as [_ Hwf].
  destruct (processCircuitSendme _ _ _ _ _) as [[b' f'] e] eqn:Ep.
  assert (a < Z.of_nat (nsent (src s)) / inc - Z.of_nat (owed_tags (src s))) as Hlt'.
  { unfold tags_known in Hk. apply orb_true_iff in Hk as [Hk|Hk].
    - apply Nat.eqb_eq in Hk as ->.
      enough (b <= Z.of_nat (nsent (src s)) / inc) by lia. apply Z.div_le_lower_bound; lia.
    - apply negb_true_iff, bool_decide_eq_false in Hk. fold (sender s) in Hk.
      destruct (sendmeExpected (sender s)) as [|p exp]; [done|].
      symmetry in He. by apply seqZ_uncons in He as [? _]. }
  destruct (sendmeExpected (sender s)) as [|p exp] eqn:Ex.
  { symmetry in He. rewrite seqZ_cons in He by lia. done. }
  symmetry in He. apply seqZ_uncons in He as (_ & Hp & Hexp).
  assert (acknowledges (Sendme.sendme_image (auth_of (boundary_tag a))) p) as Hack.
  { exists Sendme.SendmeVersion1. rewrite <- (app_nil_r (Sendme.sendme_image _)), Hp.
    rewrite Sendme.DecodeSendme_image by done. done. }
  destruct e as [e|].
  - apply processCircuitSendme_cases in Ep as [(_ & _ & _ & Hrej)|(? & _)]; [|done]. by eapply Hrej.
  - destruct (sendme_accepted _ _ _ _ _ _ _ Hs Ep) as (Hs' & Ho' & Hi' & Hx').
    rewrite Ex in Hx'. simpl in Hx'.
    set (q := mkSource _ _ _ _).
    assert (nsent q = nsent (src s) /\ in_hand q = in_hand (src s) /\ owed_tags q = owed_tags (src s)) as (Q1 & Q2 & Q3) by done.
    constructor; unfold sender; cbn [src receiver nrecv tasks back]; rewrite ?Q1, ?Q2, ?Q3; try done; try lia.
    + cbn [flow q]. rewrite Hx'. exact Hexp.
    + cbn [flow q]. unfold sendmeIncrementLocked in *. by rewrite Hi'.
    + cbn [flow q]. lia.
    + cbn [flow q]. intros Hc. specialize (Hcl Hc).
      apply processCircuitSendme_cases in Ep as [(? & _)|(_ & ? & ? & Hv)]; [done|].
      rewrite Hcl in Hv. naive_solver.
Qed.

(** One action taken in order keeps the invariant; the only error possible is an
    exhausted deliver window, and only when more than [W] cells may be
    outstanding. *)
Lemma act_inv s m b a x :
  sys_inv s m b a -> orderly1 s x = true ->
  match act x s with
  | Next s' => exists m' b' a', sys_inv s' m' b' a'
  | Disabled => True
  | Garbled _ => False
  | Failed e => e = errCircuitFlow errDeliverExhausted /\ (classic = true -> W < 1000)
  end.
Proof.
  intros Hs Hx. destruct x as [now|x| |i|now blocked]; cbn [orderly1] in Hx.
  - apply bool_decide_eq_true in Hx. cbn [act]. destruct (whole_send tag now (src s)) as [q|] eqn:E; [|done].
    exists m, b, a. by eapply whole_send_inv.
  - cbn [act]. destruct (source_step tag x (src s)) as [q|] eqn:E; [|done].
    exists m, b, a. eapply source_step_inv; [done| |done]. intros ->. by apply bool_decide_eq_true in Hx.
  - destruct (act ActRecv s) as [s'| |n|e] eqn:E; [by eauto using act_recv|done|..];
      destruct Hs as [Hst Ho Hac Hnr Hf _ _ _ Hsi _ Hout _ Hd Hn _ Hcl]; simpl in E;
      destruct (wire (src s)) as [|n0 rest]; try done;
      destruct (nsent (src s) - Z.to_nat m)%nat as [|j] eqn:Ej; try done; simpl in Hf; simplify_eq;
      rewrite Hnr, Nat.eqb_refl in E; cbn [negb] in E;
      unfold decrementDeliverWindowAndTakeSendme in E;
      (destruct (Z.leb_spec (deliverWindow (receiver s)) 0); [|by case_if]); simplify_eq.
    split; [done|]. intros Hc. destruct Hsi as [(Hp & _) _ _]. unfold outstanding in Hout. rewrite (Hcl Hc) in Hout. nia.
  - apply Nat.eqb_eq in Hx as ->. pose proof (act_task s m b a Hs) as Ht. destruct (act (ActTask 0) s); try done; by eauto.
  - pose proof (act_ack s m b a now blocked Hs Hx) as Ht. destruct (act (ActAck now blocked) s); try done; by eauto.
Qed.

Lemma run_inv l s m b a :
  sys_inv s m b a -> orderly l s = true ->
  match run l s with
  | Next s' => exists m' b' a', sys_inv s' m' b' a'
  | Disabled | Garbled _ => False
  | Failed e => e = errCircuitFlow errDeliverExhausted /\ (classic = true -> W < 1000)
  end.
Proof.
  revert s m b a. induction l as [|x l IH]; intros s m b a Hs Hl; [by exists m, b, a|].
  cbn [orderly] in Hl. apply andb_true_iff in Hl as [Hx Hl]. pose proof (act_inv s m b a x Hs Hx) as Ha. cbn [run].
  destruct (act x s) as [s'| |n|e]; try done.
  - destruct Ha as (m' & b' & a' & Hs'). by eapply IH.
  - by eapply IH.
Qed.

Lemma init_inv sf rf :
  sender_inv sf -> outstanding sf = 0 -> sendmeExpected sf = [] -> sendmeIncrementLocked sf = inc ->
  deliverWindow rf = W -> sendmeReceived rf = 0 -> sendmeIncrementLocked rf = inc ->
  (classic = true -> vegas sf = None) ->
  sys_inv (init sf rf) 0 0 0.
Proof.
  intros Hs Ho He Hi Hd Hr Hri Hcl. constructor; unfold sender; simpl; try done; try lia.
  - by rewrite He.
  - unfold nsent, in_hand. simpl. lia.
Qed.

Lemma inv_conservation s m b a :
  sys_inv s m b a ->
  deliverWindow (receiver s) + sendmeReceived (receiver s) + inc * len (tasks s) = W /\
  Z.of_nat (in_hand (src s)) + len (fwd s) + sendmeReceived (receiver s) + inc * (len (tasks s) + len (back s)) =
    outstanding (sender s).
Proof.
  intros [Hst Ho Hac Hnr Hf Ht Hb He Hs Hsi Hout Hri Hd Hn Hr Hcl]. assert (0 <= m) as Hm0 by nia.
  pose proof (Z.div_mod m inc ltac:(lia)) as Hdm.
  assert (b <= m / inc) by (apply Z.div_le_lower_bound; lia).
  unfold fwd. rewrite Ht, Hb, Hf, Hd, Hr, Hout. unfold len. rewrite !length_fmap, !length_seqZ, length_seq. nia.
Qed.

End Protocol.

(** ** Properties *)

(** C4: The SENDME protocol is sound when its steps are taken in order.  Both
    endpoints start fresh with the same SENDME increment.  The critical sections
    of sending (reserve or give back, encrypt, write, record the tag), the
    receipt of cells, the acknowledgement goroutines and the processing of SENDMEs
    interleave in any way in which one goroutine at a time sends, the
    acknowledgement goroutines run in the order they were started, and no SENDME
    is processed while the sender has still to record the only tag it could be
    for.  Then no SENDME is rejected and every cell is recognised; every cell is
    accounted for exactly once on each side (what the receiver may still take, has
    taken, and owes adds up to its initial window, and the places reserved, the
    cells on the wire and those not yet acknowledged add up to what the sender
    counts); and on classic windows the receiver never has to refuse a cell.  The
    program does not enforce the order: [sendme_goroutine_race],
    [sendme_before_record], [sendme_overlapping_senders] and
    [encryption_order_race] are what happens without it. *)
Theorem sendme_protocol_sound tag inc W sf rf l :
  1 <= inc <= 250 -> 0 < W < 2 ^ 31 ->
  (forall n, exists d, sendmeAuthTag (tag n) = Some d /\ Sendme.tag_wf d) ->
  sender_inv sf -> outstanding sf = 0 -> sendmeExpected sf = [] -> sendmeIncrementLocked sf = inc ->
  deliverWindow rf = W -> sendmeReceived rf = 0 -> sendmeIncrementLocked rf = inc ->
  orderly tag l (init sf rf) = true ->
  match run tag l (init sf rf) with
  | Next s =>
      deliverWindow (receiver s) + sendmeReceived (receiver s) + inc * len (tasks s) = W /\
      Z.of_nat (in_hand (src s)) + len (fwd s) + sendmeReceived (receiver s) + inc * (len (tasks s) + len (back s)) =
        outstanding (sender s)
  | Disabled | Garbled _ => False
  | Failed e => e = errCircuitFlow errDeliverExhausted /\ (vegas sf <> None \/ W < 1000)
  end.
Proof.
  intros Hinc HW Htag Hs Ho He Hi Hd Hr Hri Hl.
  set (classic := match vegas sf with None => true | Some _ => false end).
  assert (sys_inv tag inc W classic (init sf rf) 0 0 0) as H0.
  { apply init_inv; auto. unfold classic. by destruct (vegas sf). }
  pose proof (run_inv tag inc W classic Hinc HW Htag l _ _ _ _ H0 Hl) as Hrun.
  destruct (run tag l (init sf rf)) as [s| |n|e]; [|done|done|].
  - destruct Hrun as (m & b & a & Hinv). by eapply inv_conservation.
  - destruct Hrun as (-> & Hw). split; [done|]. unfold classic in Hw.
    destruct (vegas sf); [by left | right; by apply Hw].
Qed.

(** Concrete tags: a cell counter in a 20-byte string. *)
Definition sample_tag (n : nat) : bytes := PutUint32 (Z.of_nat n) ++ zeros 16.

Lemma sample_tag_ok n : exists d, sendmeAuthTag (sample_tag n) = Some d /\ Sendme.tag_wf d.
Proof.
  assert (len (sample_tag n) = 20) as Hl by (unfold sample_tag; lens).
  exists (sample_tag n). unfold sendmeAuthTag, cloneDigest. rewrite Hl.
  change (Z.to_nat Sendme.SendmeV1DigestLen) with 20%nat.
  rewrite slice_all by (unfold len in Hl; lia). split; [done|].
  split; [unfold sample_tag; auto with gotor | by left].
Qed.

(** 200 cells sent and received before either of the two goroutines runs. *)
Definition burst : list action := replicate 200 (ActSend 0) ++ replicate 200 ActRecv.

(** A 201st cell is under way in its own steps while the acknowledgements arrive. *)
Definition sample_run : list action :=
  burst ++ [ActTask 0; ActStep SReserve; ActAck 0 None; ActStep (SEncrypt 0); ActTask 0;
            ActStep (STransmit 0); ActRecv; ActAck 0 None; ActStep (SRecord 0 0)].

Lemma sendme_protocol_sound_witness :
  match run sample_tag sample_run (init new_flow new_flow) with
  | Next s => deliverWindow (receiver s) + sendmeReceived (receiver s) + 100 * len (tasks s) = 1000
  | _ => False
  end.
Proof.
  assert (1 <= 100 <= 250) as H1 by lia. assert (0 < 1000 < 2 ^ 31) as H2 by (word; lia).
  assert (orderly sample_tag sample_run (init new_flow new_flow) = true) as Hl by (vm_compute; reflexivity).
  pose proof (sendme_protocol_sound sample_tag 100 1000 new_flow new_flow sample_run
    H1 H2 sample_tag_ok new_flow_inv
    eq_refl eq_refl eq_refl eq_refl eq_refl eq_refl Hl) as H.
  destruct (run sample_tag sample_run (init new_flow new_flow)) as [s| |n|e] eqn:E.
  - exact (proj1 H).
  - exact H.
  - exact H.
  - destruct H as [_ [H|H]]; [exact (H eq_refl) | lia].
Defined.

(** The order of the acknowledgement goroutines matters.  Nothing in the
    program orders two of them; when a burst lets the second boundary's goroutine
    run first, the honest peer rejects the SENDME with a digest mismatch, on
    which it tears the circuit down. *)
Theorem sendme_goroutine_race :
  run sample_tag (burst ++ [ActTask 1; ActAck 0 None]) (init new_flow new_flow) = Failed errDigestMismatch.
Proof. vm_compute. reflexivity. Qed.

(** The tag is recorded only after the cell is written.  When the peer's SENDME for
    the 100th cell is processed before that, it is rejected as unexpected and the
    circuit is torn down. *)
Theorem sendme_before_record :
  run sample_tag
    (replicate 99 (ActSend 0) ++ [ActStep SReserve; ActStep (SEncrypt 0); ActStep (STransmit 0)] ++
     replicate 100 ActRecv ++ [ActTask 0; ActAck 0 None])
    (init new_flow new_flow) = Failed errUnexpectedSendme.
Proof. vm_compute. reflexivity. Qed.

(** Two senders may overtake each other between the reservation and the
    encryption.  The one that reserved the boundary place encrypts and sends the 99th
    cell: the tag recorded is not the one the peer will send, and the honest SENDME
    is rejected. *)
Theorem sendme_overlapping_senders :
  run sample_tag
    (replicate 98 (ActSend 0) ++ [ActStep SReserve; ActStep SReserve; ActStep (SEncrypt 1); ActStep (STransmit 1);
       ActStep (SEncrypt 0); ActStep (STransmit 0); ActStep (SRecord 1 0); ActStep (SRecord 0 0)] ++
     replicate 100 ActRecv ++ [ActTask 0; ActAck 0 None])
    (init new_flow new_flow) = Failed errDigestMismatch.
Proof. vm_compute. reflexivity. Qed.

(** Nor is a cell written under the lock it was encrypted under: when two senders
    overtake each other there, the peer gets the cells in an order its ciphers do
    not have. *)
Theorem encryption_order_race :
  run sample_tag
    [ActStep SReserve; ActStep SReserve; ActStep (SEncrypt 0); ActStep (SEncrypt 1); ActStep (STransmit 1);
     ActStep (STransmit 0); ActRecv]
    (init new_flow new_flow) = Garbled 1.
Proof. vm_compute. reflexivity. Qed.

End FlowProtocol.
