(* ===== verification/StreamID.v ===== *)
(** * Search for a free stream id

    Stream ids are 16-bit and 0 is reserved.  Both allocators of the program
    ([Circuit.AllocateStreamID] and [Manager.CreateStream]) walk the ids
    1..65535 cyclically from the last one handed out; this file has the walk and
    what it finds. *)

From S2P Require Import Prelude.

Module StreamID.

(** [next++; if next == 0 { next = 1 }] on a [uint16]. *)
Definition next_id (id : Z) : Z := let n := u16 (id + 1) in if n =? 0 then 1 else n.

(** [id] is a valid stream id. *)
Definition valid_id (id : Z) : Prop := 1 <= id <= 65535.

Global Instance valid_id_dec id : Decision (valid_id id).
Proof. unfold valid_id. apply _. Defined.

Inductive probe_result :=
| Found (id next : Z)
| Exhausted
| OutOfFuel.

(** The walk from [next]; it gives up when it is back at [start]. *)
Fixpoint probe (fuel : nat) (used : Z -> bool) (start next : Z) : probe_result :=
  match fuel with
  | O => OutOfFuel
  | S fuel =>
      let id := next in
      let next := next_id next in
      if negb (used id) then Found id next
      else if next =? start then Exhausted
      else probe fuel used start next
  end.

Definition id_space : nat := Z.to_nat 65535.

(** The [k]-th id of the walk from [start]. *)
Definition nth_id (start k : Z) : Z := (start - 1 + k) mod 65535 + 1.

Lemma nth_id_valid start k : valid_id (nth_id start k).
Proof. unfold nth_id, valid_id. pose proof (Z.mod_pos_bound (start - 1 + k) 65535). lia. Qed.

Lemma nth_id_0 start : valid_id start -> nth_id start 0 = start.
Proof. unfold nth_id, valid_id. intros. rewrite Z.mod_small; lia. Qed.

Lemma next_nth_id start k : next_id (nth_id start k) = nth_id start (k + 1).
Proof.
  unfold next_id, nth_id. set (m := start - 1 + k).
  replace (start - 1 + (k + 1)) with (m + 1) by lia.
  pose proof (Z.mod_pos_bound m 65535). pose proof (Z.mod_pos_bound (m + 1) 65535).
  unfold u16. change (2 ^ 16) with 65536. cases; Z.div_mod_to_equations; lia.
Qed.

Lemma nth_id_cycle start k : valid_id start -> 0 < k <= 65535 -> nth_id start k = start -> k = 65535.
Proof. unfold nth_id, valid_id. intros. Z.div_mod_to_equations. lia. Qed.

(** Every id is met within one turn. *)
Lemma nth_id_onto start id :
  valid_id start -> valid_id id -> exists k, 0 <= k < 65535 /\ nth_id start k = id.
Proof.
  unfold nth_id, valid_id. intros. exists ((id - start) mod 65535).
  split; [apply Z.mod_pos_bound; lia|]. Z.div_mod_to_equations. lia.
Qed.

Lemma probe_walk fuel used start k :
  valid_id start -> 0 <= k < 65535 -> Z.of_nat fuel = 65535 - k ->
  (forall j, 0 <= j < k -> used (nth_id start j) = true) ->
  match probe fuel used start (nth_id start k) with
  | Found id next => valid_id id /\ used id = false /\ next = next_id id
  | Exhausted => forall id, valid_id id -> used id = true
  | OutOfFuel => False
  end.
Proof.
  revert k. induction fuel as [|fuel IH]; intros k Hs Hk Hf Hu; [lia|]. cbn [probe].
  destruct (used (nth_id start k)) eqn:Eu; simpl.
  - rewrite next_nth_id.
    assert (forall j, 0 <= j < k + 1 -> used (nth_id start j) = true) as Hu'.
    { intros j Hj. destruct (decide (j = k)) as [->|]; [done | apply Hu; lia]. }
    destruct (Z.eqb_spec (nth_id start (k + 1)) start) as [He|He].
    + intros id Hid. destruct (nth_id_onto start id Hs Hid) as (j & Hj & <-). apply Hu'.
      apply nth_id_cycle in He; [lia | done | lia].
    + apply IH; try done; try lia. destruct (decide (k + 1 = 65535)) as [Hc|]; [|lia].
      destruct He. rewrite Hc. unfold nth_id, valid_id in *. Z.div_mod_to_equations. lia.
  - split_and!; [apply nth_id_valid | done | done].
Qed.

(** The walk over the whole id space finds a free id, or there is none. *)
Lemma probe_complete used start :
  valid_id start ->
  match probe id_space used start start with
  | Found id next => valid_id id /\ used id = false /\ next = next_id id
  | Exhausted => forall id, valid_id id -> used id = true
  | OutOfFuel => False
  end.
Proof.
  intros Hs. pose proof (probe_walk id_space used start 0 Hs) as H. rewrite nth_id_0 in H by done.
  apply H; [lia | unfold id_space; rewrite Z2Nat.id; lia | lia].
Qed.

Lemma next_id_valid id : valid_id id -> valid_id (next_id id).
Proof.
  intros Hid. rewrite <- (nth_id_0 id Hid), next_nth_id. apply nth_id_valid.
Qed.

#[export] Hint Resolve nth_id_valid next_id_valid : gotor.
Global Opaque id_space.

End StreamID.
