(* ===== verification/Stream.v ===== *)
(** * Streams (pkg/stream/stream.go, pkg/stream/backpressure.go)

    Streams are shared objects: the manager's table holds references into a
    heap, so that an operation on a stream found through the table, and the
    [Close] of a stream already removed from it, act on the same object.  A Go
    channel is a list with its capacity; a [select] over several ready channels
    is resolved by an argument ([select] of the prelude).  The methods that work
    on the queues are composed of the steps the code takes under separate locks
    ([check_push], [push], [account], [pop], [discount]), which the calls in
    flight interleave ([qstep]); every other method is one critical section. *)

From S2P Require Import Prelude StreamID RelayCell CellPayloads FlowControl.
Import StreamID.

Module Stream.

(** ** Backpressure *)

Record BackpressureState := mkBP {
  sendPaused : bool;
  recvPaused : bool;
  highWaterMark : Z;
  lowWaterMark : Z;
}.

(** The two marks of a configuration; [None] for a nil configuration. *)
Definition NewBackpressureState (cfg : option (Z * Z)) : BackpressureState :=
  match cfg with
  | None => mkBP false false 65536 16384
  | Some (high, low) =>
      mkBP false false (if 0 <? high then high else 65536) (if 0 <? low then low else 16384)
  end.

Definition CheckSendBuffer (b : BackpressureState) (bufferSize : Z) : BackpressureState * bool :=
  let isPaused := sendPaused b in
  if negb isPaused && (highWaterMark b <=? bufferSize)
  then (mkBP true (recvPaused b) (highWaterMark b) (lowWaterMark b), true)
  else if isPaused && (bufferSize <=? lowWaterMark b)
  then (mkBP false (recvPaused b) (highWaterMark b) (lowWaterMark b), false)
  else (b, isPaused).

Definition CheckRecvBuffer (b : BackpressureState) (bufferSize : Z) : BackpressureState * bool :=
  let isPaused := recvPaused b in
  if negb isPaused && (highWaterMark b <=? bufferSize)
  then (mkBP (sendPaused b) true (highWaterMark b) (lowWaterMark b), true)
  else if isPaused && (bufferSize <=? lowWaterMark b)
  then (mkBP (sendPaused b) false (highWaterMark b) (lowWaterMark b), false)
  else (b, isPaused).

Definition IsSendPaused (b : BackpressureState) : bool := sendPaused b.
Definition IsRecvPaused (b : BackpressureState) : bool := recvPaused b.

Definition Reset (b : BackpressureState) : BackpressureState :=
  mkBP false false (highWaterMark b) (lowWaterMark b).

Definition GetHighWaterMark (b : BackpressureState) : Z := highWaterMark b.
Definition GetLowWaterMark (b : BackpressureState) : Z := lowWaterMark b.

(** ** Streams *)

Inductive State := StateNew | StateConnecting | StateConnected | StateClosed | StateFailed.

Global Instance State_eq_dec : EqDecision State.
Proof. solve_decision. Defined.

Definition String (s : State) : string :=
  match s with
  | StateNew => "NEW"
  | StateConnecting => "CONNECTING"
  | StateConnected => "CONNECTED"
  | StateClosed => "CLOSED"
  | StateFailed => "FAILED"
  end.

Inductive error :=
| errNotConnected (s : State)
| errSendBackpressure
| errRecvBackpressure
| errSendQueueFull
| errRecvQueueFull
| EOF
| errContext
| errManagerClosed
| errNoFreeID (circuitID : Z)
| errReservedID
| errIDInUse (id circuitID : Z)
| errNotFound (circuitID streamID : Z).

(** The flow-control counters of a stream. *)
Record Windows := mkWindows {
  packageWindow : Z;
  deliverWindow : Z;
  sendmeReceived : Z;
  sendmeSent : Z;
}.

(** The two queues with the byte counts backpressure works on. *)
Record Queues := mkQueues {
  sendQueue : list bytes;
  recvQueue : list bytes;
  sendBufferSize : Z;
  recvBufferSize : Z;
}.

Record Stream := mkStream {
  ID : Z;
  CircuitID : Z;
  Target : string;
  Port : Z;
  StreamState : State;
  IsolationKey : option string;
  closeChan : bool;   (** closed *)
  windows : Windows;
  queues : Queues;
  backpressure : option BackpressureState;
}.

Definition queueCap : Z := 32.

Definition NewStream (id circuitID : Z) (target : string) (port : Z) : Stream :=
  mkStream id circuitID target port StateNew None false (mkWindows 500 500 0 0) (mkQueues [] [] 0 0) None.

(** Field updates. *)
Definition with_state (s : Stream) (v : State) : Stream :=
  mkStream (ID s) (CircuitID s) (Target s) (Port s) v (IsolationKey s) (closeChan s) (windows s)
    (queues s) (backpressure s).
Definition with_closed (s : Stream) : Stream :=
  mkStream (ID s) (CircuitID s) (Target s) (Port s) (StreamState s) (IsolationKey s) true (windows s)
    (queues s) (backpressure s).
Definition with_windows (s : Stream) (v : Windows) : Stream :=
  mkStream (ID s) (CircuitID s) (Target s) (Port s) (StreamState s) (IsolationKey s) (closeChan s) v
    (queues s) (backpressure s).
Definition with_queues (s : Stream) (v : Queues) : Stream :=
  mkStream (ID s) (CircuitID s) (Target s) (Port s) (StreamState s) (IsolationKey s) (closeChan s)
    (windows s) v (backpressure s).
Definition with_bp (s : Stream) (v : option BackpressureState) : Stream :=
  mkStream (ID s) (CircuitID s) (Target s) (Port s) (StreamState s) (IsolationKey s) (closeChan s)
    (windows s) (queues s) v.

Definition SetState (s : Stream) (v : State) : Stream := with_state s v.
Definition GetState (s : Stream) : State := StreamState s.

Inductive case := CaseQueue | CaseClosed | CaseCtx.

(** The two halves of a non-blocking [select] that queues data. *)
Definition push_cases (q : list bytes) (closed : bool) : list case :=
  (if len q <? queueCap then [CaseQueue] else []) ++ (if closed then [CaseClosed] else []).

(** The cases of a blocking receive. *)
Definition pop_cases (q : list bytes) (closed ctxDone : bool) : list case :=
  match q with [] => [] | _ => [CaseQueue] end ++
  (if closed then [CaseClosed] else []) ++ (if ctxDone then [CaseCtx] else []).

(** The sending and the receiving half of a stream: the queue, its byte count
    and its half of the backpressure controller. *)
Inductive side := SendSide | RecvSide.

Global Instance side_eq_dec : EqDecision side.
Proof. solve_decision. Defined.

Definition queue_of (d : side) (s : Stream) : list bytes :=
  match d with SendSide => sendQueue (queues s) | RecvSide => recvQueue (queues s) end.
Definition size_of (d : side) (s : Stream) : Z :=
  match d with SendSide => sendBufferSize (queues s) | RecvSide => recvBufferSize (queues s) end.
Definition set_queue (d : side) (s : Stream) (q : list bytes) : Stream :=
  let qs := queues s in
  with_queues s
    match d with
    | SendSide => mkQueues q (recvQueue qs) (sendBufferSize qs) (recvBufferSize qs)
    | RecvSide => mkQueues (sendQueue qs) q (sendBufferSize qs) (recvBufferSize qs)
    end.
Definition set_size (d : side) (s : Stream) (n : Z) : Stream :=
  let qs := queues s in
  with_queues s
    match d with
    | SendSide => mkQueues (sendQueue qs) (recvQueue qs) n (recvBufferSize qs)
    | RecvSide => mkQueues (sendQueue qs) (recvQueue qs) (sendBufferSize qs) n
    end.
Definition check_buffer (d : side) (b : BackpressureState) (n : Z) : BackpressureState * bool :=
  match d with SendSide => CheckSendBuffer b n | RecvSide => CheckRecvBuffer b n end.

(** [Send] and [ReceiveData] take three steps, [SendData] and [Receive] two, and
    the stream is free for other goroutines between them.  First the backpressure
    check, under the stream's lock: is the call refused? *)
Definition check_push (d : side) (s : Stream) (data : bytes) : Stream * bool :=
  match backpressure s with
  | None => (s, false)
  | Some b =>
      let potentialSize := i64 (size_of d s + len data) in
      let '(b, isPaused) := check_buffer d b potentialSize in (with_bp s (Some b), isPaused)
  end.

(** Then the [select] that queues the data: the case taken, [None] for its
    [default]. *)
Definition push (d : side) (pick : nat) (s : Stream) (data : bytes) : Stream * option case :=
  match select pick (push_cases (queue_of d s) (closeChan s)) with
  | Some CaseQueue => (set_queue d s (queue_of d s ++ [data]), Some CaseQueue)
  | c => (s, c)
  end.

(** Last the accounting, under the lock again. *)
Definition account (d : side) (s : Stream) (data : bytes) : Stream :=
  match backpressure s with
  | None => s
  | Some _ => set_size d s (i64 (size_of d s + len data))
  end.

(** [x -= n; if x < 0 { x = 0 }] *)
Definition sub_floor (x n : Z) : Z := let y := i64 (x - n) in if y <? 0 then 0 else y.

(** A read: the [select] ([None] while the caller blocks), *)
Definition pop (d : side) (pick : nat) (ctxDone : bool) (s : Stream) : Stream * option (result error bytes) :=
  match select pick (pop_cases (queue_of d s) (closeChan s) ctxDone), queue_of d s with
  | Some CaseQueue, data :: rest => (set_queue d s rest, Some (Ok data))
  | Some CaseClosed, _ => (s, Some (Err EOF))
  | Some CaseCtx, _ => (s, Some (Err errContext))
  | _, _ => (s, None)
  end.

(** and the accounting of the data taken, under the lock. *)
Definition discount (d : side) (s : Stream) (data : bytes) : Stream :=
  match backpressure s with
  | None => s
  | Some b =>
      let size := sub_floor (size_of d s) (len data) in
      let '(b, _) := check_buffer d b size in with_bp (set_size d s size) (Some b)
  end.

(** The calls, uninterrupted. *)
Definition Send (pick : nat) (s : Stream) (data : bytes) : Stream * option error :=
  if negb (bool_decide (GetState s = StateConnected)) then (s, Some (errNotConnected (GetState s)))
  else
    let '(s, isPaused) := check_push SendSide s data in
    if isPaused then (s, Some errSendBackpressure)
    else
      match push SendSide pick s data with
      | (s, Some CaseQueue) => (account SendSide s data, None)
      | (s, Some _) => (s, Some EOF)
      | (s, None) => (s, Some errSendQueueFull)
      end.

Definition ReceiveData (pick : nat) (s : Stream) (data : bytes) : Stream * option error :=
  let '(s, isPaused) := check_push RecvSide s data in
  if isPaused then (s, Some errRecvBackpressure)
  else
    match push RecvSide pick s data with
    | (s, Some CaseQueue) => (account RecvSide s data, None)
    | (s, Some _) => (s, Some EOF)
    | (s, None) => (s, Some errRecvQueueFull)
    end.

Definition Receive (pick : nat) (ctxDone : bool) (s : Stream) : Stream * option (result error bytes) :=
  match pop RecvSide pick ctxDone s with
  | (s, Some (Ok data)) => (discount RecvSide s data, Some (Ok data))
  | r => r
  end.

Definition SendData (pick : nat) (ctxDone : bool) (s : Stream) : Stream * option (result error bytes) :=
  match pop SendSide pick ctxDone s with
  | (s, Some (Ok data)) => (discount SendSide s data, Some (Ok data))
  | r => r
  end.

(** [closeOnce] runs the body the first time only, that is, while the channel is
    open. *)
Definition Close (s : Stream) : Stream :=
  if closeChan s then s else with_state (with_closed s) StateClosed.

Definition SetIsolationKey (s : Stream) (key : option string) : Stream :=
  mkStream (ID s) (CircuitID s) (Target s) (Port s) (StreamState s) key (closeChan s) (windows s)
    (queues s) (backpressure s).
Definition GetIsolationKey (s : Stream) : option string := IsolationKey s.

(** ** Stream windows *)

Definition DecrementPackageWindow (s : Stream) : Stream * option FlowControl.error :=
  let w := windows s in
  if packageWindow w <=? 0 then (s, Some FlowControl.ErrWindowExhausted)
  else (with_windows s (mkWindows (i64 (packageWindow w - 1)) (deliverWindow w) (sendmeReceived w) (sendmeSent w)), None).

Definition IncrementPackageWindow (s : Stream) : Stream :=
  let w := windows s in
  with_windows s (mkWindows (i64 (packageWindow w + 50)) (deliverWindow w) (sendmeReceived w) (i64 (sendmeSent w + 1))).

Definition RefundPackageWindow (s : Stream) : Stream :=
  let w := windows s in
  with_windows s (mkWindows (i64 (packageWindow w + 1)) (deliverWindow w) (sendmeReceived w) (sendmeSent w)).

Definition DecrementDeliverWindow (s : Stream) : Stream * option FlowControl.error :=
  let w := windows s in
  if deliverWindow w <=? 0 then (s, Some FlowControl.errStreamDeliverExhausted)
  else (with_windows s (mkWindows (packageWindow w) (i64 (deliverWindow w - 1)) (i64 (sendmeReceived w + 1)) (sendmeSent w)), None).

Definition ShouldSendStreamSendme (s : Stream) : bool := 50 <=? sendmeReceived (windows s).

Definition RecordStreamSendmeSent (s : Stream) : Stream :=
  let w := windows s in
  with_windows s (mkWindows (packageWindow w) (i64 (deliverWindow w + 50)) 0 (sendmeSent w)).

Definition GetPackageWindow (s : Stream) : Z := packageWindow (windows s).
Definition GetDeliverWindow (s : Stream) : Z := deliverWindow (windows s).
Definition SetBackpressure (s : Stream) (bp : option BackpressureState) : Stream := with_bp s bp.
Definition GetBackpressure (s : Stream) : option BackpressureState := backpressure s.
Definition GetSendBufferSize (s : Stream) : Z := sendBufferSize (queues s).
Definition GetRecvBufferSize (s : Stream) : Z := recvBufferSize (queues s).

(** ** The manager *)

(** Keys are (circuit id, stream id); values are references into the heap. *)
Record Manager := mkManager {
  streams : gmap (Z * Z) nat;
  nextID : gmap Z Z;
  mgrClosed : bool;
}.

Record world := mkWorld { heap : list Stream; mgr : Manager }.

Definition NewManager : Manager := mkManager ∅ ∅ false.
Definition new_world : world := mkWorld [] NewManager.

Definition set_mgr (w : world) (m : Manager) : world := mkWorld (heap w) m.

Definition addStreamLocked (w : world) (streamID circuitID : Z) (target : string) (port : Z) : world * nat :=
  let r := length (heap w) in
  let m := mgr w in
  (mkWorld (heap w ++ [NewStream streamID circuitID target port])
     (mkManager (<[(circuitID, streamID) := r]> (streams m)) (nextID m) (mgrClosed m)), r).

Definition set_next (m : Manager) (circuitID n : Z) : Manager :=
  mkManager (streams m) (<[circuitID := n]> (nextID m)) (mgrClosed m).

(** [m.nextID[circuitID]]: the zero value when absent. *)
Definition next_of (m : Manager) (circuitID : Z) : Z := default 0 (nextID m !! circuitID).

Definition used_on (m : Manager) (circuitID id : Z) : bool :=
  bool_decide (is_Some (streams m !! (circuitID, id))).

Definition CreateStream (w : world) (circuitID : Z) (target : string) (port : Z) :
    world * option (result error nat) :=
  if mgrClosed (mgr w) then (w, Some (Err errManagerClosed))
  else
    let next := next_of (mgr w) circuitID in
    let next := if next =? 0 then 1 else next in
    match probe id_space (used_on (mgr w) circuitID) next next with
    | OutOfFuel => (w, None)
    | Exhausted => (w, Some (Err (errNoFreeID circuitID)))
    | Found id next =>
        let w := set_mgr w (set_next (mgr w) circuitID next) in
        let '(w, r) := addStreamLocked w id circuitID target port in (w, Some (Ok r))
    end.

Definition CreateStreamWithID (w : world) (id circuitID : Z) (target : string) (port : Z) :
    world * result error nat :=
  if id =? 0 then (w, Err errReservedID)
  else if mgrClosed (mgr w) then (w, Err errManagerClosed)
  else if used_on (mgr w) circuitID id then (w, Err (errIDInUse id circuitID))
  else
    let next := next_of (mgr w) circuitID in
    let w :=
      if (next =? 0) || (next <=? id)
      then set_mgr w (set_next (mgr w) circuitID (next_id id)) else w in
    let '(w, r) := addStreamLocked w id circuitID target port in (w, Ok r).

Definition GetStream (w : world) (circuitID streamID : Z) : result error nat :=
  match streams (mgr w) !! (circuitID, streamID) with
  | None => Err (errNotFound circuitID streamID)
  | Some r => Ok r
  end.

(** A method call on the object a reference names. *)
Definition on_stream (w : world) (r : nat) (f : Stream -> Stream) : world :=
  mkWorld (alter f r (heap w)) (mgr w).

Definition RemoveStream (w : world) (circuitID streamID : Z) : world * option error :=
  match streams (mgr w) !! (circuitID, streamID) with
  | None => (w, Some (errNotFound circuitID streamID))
  | Some r =>
      let w := on_stream w r Close in
      let m := mgr w in
      (set_mgr w (mkManager (delete (circuitID, streamID) (streams m)) (nextID m) (mgrClosed m)), None)
  end.

(** A Go map is iterated in no particular order; here in that of [map_to_list]. *)
Definition GetStreamsForCircuit (w : world) (circuitID : Z) : list nat :=
  omap (fun '(key, r) => if fst key =? circuitID then Some r else None)
    (map_to_list (streams (mgr w))).

Definition CloseManager (w : world) : world :=
  if mgrClosed (mgr w) then w
  else
    let refs := (map_to_list (streams (mgr w))).*2 in
    mkWorld (foldr (fun r h => alter Close r h) (heap w) refs)
      (mkManager ∅ (nextID (mgr w)) true).

Definition Count (w : world) : Z := Z.of_nat (size (streams (mgr w))).

Record StreamSnapshot := mkSnap {
  snapID : Z;
  snapCircuitID : Z;
  snapTarget : string;
  snapPort : Z;
  snapState : State;
}.

Definition ListSnapshots (w : world) : list StreamSnapshot :=
  omap (fun '(key, r) =>
    match heap w !! r with
    | None => None
    | Some s =>
        if bool_decide (GetState s = StateClosed) then None
        else Some (mkSnap (ID s) (CircuitID s) (Target s) (Port s) (GetState s))
    end) (map_to_list (streams (mgr w))).

(** ** The view of one circuit *)

(** [CircuitBound]: the manager as the circuit [boundID] sees it. *)
Record CircuitBound := mkBound { boundWorld : world; boundID : Z }.

Definition BoundToCircuit (w : world) (circuitID : Z) : CircuitBound := mkBound w circuitID.

Definition bound_ref (b : CircuitBound) (streamID : Z) : option nat :=
  match GetStream (boundWorld b) (boundID b) streamID with Ok r => Some r | Err _ => None end.

Definition bound_GetStream (b : CircuitBound) (streamID : Z) : option Stream :=
  r ← bound_ref b streamID; heap (boundWorld b) !! r.

Definition bound_update (b : CircuitBound) (streamID : Z) (s : Stream) : CircuitBound :=
  match bound_ref b streamID with
  | None => b
  | Some r => mkBound (on_stream (boundWorld b) r (fun _ => s)) (boundID b)
  end.

#[global] Instance bound_table : FlowControl.StreamTable CircuitBound Stream := {
  FlowControl.GetStream := bound_GetStream;
  FlowControl.update := bound_update;
  FlowControl.DecrementPackageWindow := DecrementPackageWindow;
  FlowControl.IncrementPackageWindow := IncrementPackageWindow;
  FlowControl.RefundPackageWindow := RefundPackageWindow;
  FlowControl.DecrementDeliverWindow := DecrementDeliverWindow;
  FlowControl.ShouldSendStreamSendme := ShouldSendStreamSendme;
  FlowControl.RecordStreamSendmeSent := RecordStreamSendmeSent;
}.

(** ** Invariant *)

Definition key_of (s : Stream) : Z * Z := (CircuitID s, ID s).

Record world_wf (w : world) : Prop := {
  (** A table entry names a live object that carries the entry's key. *)
  wf_entry : forall k r, streams (mgr w) !! k = Some r ->
    valid_id (snd k) /\ exists s, heap w !! r = Some s /\ key_of s = k;
  (** An object that is not in the table is closed: no open stream is lost. *)
  wf_object : forall r s, heap w !! r = Some s ->
    streams (mgr w) !! key_of s = Some r \/ closeChan s = true;
  wf_next : forall c n, nextID (mgr w) !! c = Some n -> valid_id n;
  wf_closed : mgrClosed (mgr w) = true -> streams (mgr w) = ∅;
}.

(** The methods of a stream. *)
Inductive method :=
| MSetState (v : State)
| MSend (pick : nat) (data : bytes)
| MReceiveData (pick : nat) (data : bytes)
| MReceive (pick : nat) (ctxDone : bool)
| MSendData (pick : nat) (ctxDone : bool)
| MClose
| MSetIsolationKey (key : option string)
| MDecrementPackageWindow
| MIncrementPackageWindow
| MRefundPackageWindow
| MDecrementDeliverWindow
| MRecordStreamSendmeSent
| MSetBackpressure (b : option BackpressureState).

Definition call (m : method) (s : Stream) : Stream :=
  match m with
  | MSetState v => SetState s v
  | MSend pick data => fst (Send pick s data)
  | MReceiveData pick data => fst (ReceiveData pick s data)
  | MReceive pick ctx => fst (Receive pick ctx s)
  | MSendData pick ctx => fst (SendData pick ctx s)
  | MClose => Close s
  | MSetIsolationKey key => SetIsolationKey s key
  | MDecrementPackageWindow => fst (DecrementPackageWindow s)
  | MIncrementPackageWindow => IncrementPackageWindow s
  | MRefundPackageWindow => RefundPackageWindow s
  | MDecrementDeliverWindow => fst (DecrementDeliverWindow s)
  | MRecordStreamSendmeSent => RecordStreamSendmeSent s
  | MSetBackpressure b => SetBackpressure s b
  end.

(** What can happen to a manager and its streams. *)
Inductive op :=
| OpCreate (circuitID : Z) (target : string) (port : Z)
| OpCreateWithID (id circuitID : Z) (target : string) (port : Z)
| OpRemove (circuitID streamID : Z)
| OpCloseManager
| OpCall (r : nat) (m : method).

Definition exec1 (w : world) (o : op) : world :=
  match o with
  | OpCreate c t p => fst (CreateStream w c t p)
  | OpCreateWithID i c t p => fst (CreateStreamWithID w i c t p)
  | OpRemove c i => fst (RemoveStream w c i)
  | OpCloseManager => CloseManager w
  | OpCall r m => on_stream w r (call m)
  end.

(** Stream ids are 16-bit. *)
Definition op_wf (o : op) : Prop :=
  match o with OpCreateWithID i _ _ _ => is_u 16 i | _ => True end.

Global Instance op_wf_dec o : Decision (op_wf o).
Proof. destruct o; apply _. Defined.

(** A method keeps the identity of the stream and never reopens it. *)
Definition keeps (f : Stream -> Stream) : Prop :=
  forall s, key_of (f s) = key_of s /\ (closeChan s = true -> closeChan (f s) = true).

Lemma call_keeps m : keeps (call m).
Proof.
  intros s. destruct m; simpl; try done;
    unfold Send, ReceiveData, Receive, SendData, check_push, push, account, pop, discount, Close,
      DecrementPackageWindow, DecrementDeliverWindow;
    repeat (case_match; simplify_eq/=; try done).
Qed.

Lemma Close_keeps : keeps Close.
Proof. exact (call_keeps MClose). Qed.

Lemma Close_closed s : closeChan (Close s) = true.
Proof. unfold Close. by destruct (closeChan s) eqn:E. Qed.

Lemma lookup_alter_stream (h : list Stream) (f : Stream -> Stream) r i :
  alter f r h !! i = if decide (i = r) then f <$> h !! i else h !! i.
Proof.
  case_decide as Hi; [subst; apply list_lookup_alter_eq | by apply list_lookup_alter_ne].
Qed.

Lemma on_stream_wf w r f : world_wf w -> keeps f -> world_wf (on_stream w r f).
Proof.
  intros [He Ho Hn Hc] Hf. constructor; simpl; auto.
  - intros k r' Hk. destruct (He k r' Hk) as (Hv & s & Hs & <-). split; [done|].
    rewrite lookup_alter_stream, Hs. case_decide; simpl; eexists; split; try done. apply Hf.
  - intros i s. rewrite lookup_alter_stream. case_decide; [|apply Ho].
    destruct (heap w !! i) as [s0|] eqn:E; simpl; [|done]. intros [= <-].
    destruct (Hf s0) as [-> Hcl]. destruct (Ho i s0 E); auto.
Qed.

Lemma set_next_wf w c n : world_wf w -> valid_id n -> world_wf (set_mgr w (set_next (mgr w) c n)).
Proof.
  intros [He Ho Hn Hc] Hv. constructor; simpl; auto.
  intros c' n'. rewrite lookup_insert. case_decide; [by intros [= <-] | apply Hn].
Qed.

Lemma addStreamLocked_wf w i c t p :
  world_wf w -> valid_id i -> streams (mgr w) !! (c, i) = None -> mgrClosed (mgr w) = false ->
  world_wf (fst (addStreamLocked w i c t p)).
Proof.
  intros [He Ho Hn Hc] Hv Hk Hcl. constructor; simpl; auto; [..|congruence].
  - intros k r. rewrite lookup_insert. case_decide as Ek.
    + intros [= <-]. subst k. split; [done|]. exists (NewStream i c t p).
      by rewrite list_lookup_middle.
    + intros Hr. destruct (He k r Hr) as (? & s & Hs & ?). split; [done|]. exists s.
      split; [|done]. apply lookup_app_l_Some, Hs.
  - intros r s Hs. apply lookup_app_Some in Hs as [Hs|[Hge Hs]].
    + destruct (Ho r s Hs) as [Hin|]; [|by right]. left.
      rewrite lookup_insert_ne; [done | congruence].
    + apply list_lookup_singleton_Some in Hs as [Hi <-]. left. simpl.
      rewrite lookup_insert_eq. f_equal. lia.
Qed.

Lemma used_on_spec m c i : used_on m c i = false <-> streams m !! (c, i) = None.
Proof. unfold used_on. rewrite bool_decide_eq_false, eq_None_not_Some. done. Qed.

Lemma start_valid w c :
  world_wf w -> valid_id (let n := next_of (mgr w) c in if n =? 0 then 1 else n).
Proof.
  intros Hw. unfold next_of. destruct (nextID (mgr w) !! c) as [n|] eqn:E; simpl; [|done].
  pose proof (wf_next w Hw c n E). case_if; [done | done].
Qed.

(** What [CreateStream] does, on every branch. *)
Lemma CreateStream_spec w c t p :
  world_wf w ->
  let '(w', r) := CreateStream w c t p in
  world_wf w' /\
  match r with
  | None => False
  | Some (Ok ref) => exists id, valid_id id /\ streams (mgr w) !! (c, id) = None /\
      ref = length (heap w) /\ heap w' = heap w ++ [NewStream id c t p] /\
      streams (mgr w') = <[(c, id) := ref]> (streams (mgr w)) /\ mgrClosed (mgr w) = false
  | Some (Err e) => w' = w /\
      ((e = errManagerClosed /\ mgrClosed (mgr w) = true) \/
       (e = errNoFreeID c /\ forall id, valid_id id -> is_Some (streams (mgr w) !! (c, id))))
  end.
Proof.
  intros Hw. unfold CreateStream. destruct (mgrClosed (mgr w)) eqn:Ec; [by auto|].
  pose proof (start_valid w c Hw) as Hst. simpl in Hst.
  set (start := if next_of (mgr w) c =? 0 then 1 else next_of (mgr w) c) in *.
  pose proof (probe_complete (used_on (mgr w) c) start Hst) as Hp.
  destruct (probe id_space _ start start) as [id nx| |]; [|split; [done|]|done].
  - destruct Hp as (Hid & Hu & ->). apply used_on_spec in Hu. simpl. split.
    + apply (addStreamLocked_wf (set_mgr w (set_next (mgr w) c (next_id id)))); auto.
      apply set_next_wf; auto with gotor.
    + exists id. by split_and!.
  - split; [done|]. right. split; [done|]. intros id Hid. specialize (Hp id Hid).
    unfold used_on in Hp. by apply bool_decide_eq_true in Hp.
Qed.

Lemma CreateStreamWithID_wf w i c t p :
  world_wf w -> is_u 16 i -> world_wf (fst (CreateStreamWithID w i c t p)).
Proof.
  intros Hw Hi. unfold CreateStreamWithID. destruct (Z.eqb_spec i 0); [done|].
  destruct (mgrClosed (mgr w)) eqn:Ec; [done|].
  destruct (used_on (mgr w) c i) eqn:Eu; [done|]. apply used_on_spec in Eu.
  assert (valid_id i) as Hv by (unfold valid_id; word; lia).
  case_if; apply (addStreamLocked_wf (if _ : bool then _ else _)) || apply addStreamLocked_wf; auto.
  apply set_next_wf; auto with gotor.
Qed.

Lemma RemoveStream_wf w c i : world_wf w -> world_wf (fst (RemoveStream w c i)).
Proof.
  intros Hw. unfold RemoveStream. destruct (streams (mgr w) !! (c, i)) as [r|] eqn:Er; [|done].
  destruct (on_stream_wf w r Close Hw Close_keeps) as [He Ho Hn Hc]. constructor; simpl in *; auto.
  - intros k r' Hk. apply lookup_delete_Some in Hk as [_ Hk]. by apply He.
  - intros r' s Hs. destruct (Ho r' s Hs) as [Hin|]; [|by right].
    destruct (decide (key_of s = (c, i))) as [Ek|Ek]; [|left; by rewrite lookup_delete_ne].
    right. rewrite Ek in Hin. simplify_eq. rewrite lookup_alter_stream, decide_True in Hs by done.
    apply fmap_Some in Hs as (s0 & _ & ->). apply Close_closed.
  - intros Hm. rewrite Hc by done. apply delete_empty.
Qed.

Lemma close_all_lookup refs (h : list Stream) r s :
  foldr (fun r h => alter Close r h) h refs !! r = Some s ->
  exists s0, h !! r = Some s0 /\ key_of s = key_of s0 /\
    (closeChan s0 = true \/ r ∈ refs -> closeChan s = true).
Proof.
  revert s. induction refs as [|x refs IH]; intros s; cbn [foldr].
  - intros Hs. exists s. split_and!; try done. intros [|Hin]; [done|]. by apply elem_of_nil in Hin.
  - rewrite lookup_alter_stream. case_decide as Ex.
    + intros Hs. apply fmap_Some in Hs as (s1 & Hs1 & ->). destruct (IH s1 Hs1) as (s0 & H0 & Hk & Hc).
      exists s0. split_and!; try done; [by rewrite <- Hk; apply Close_keeps | intros _; apply Close_closed].
    + intros Hs. destruct (IH s Hs) as (s0 & H0 & Hk & Hc). exists s0. split_and!; try done.
      intros [?|Hin]; apply Hc; [by left|]. apply elem_of_cons in Hin as [->|]; [done | by right].
Qed.

Lemma CloseManager_wf w : world_wf w -> world_wf (CloseManager w).
Proof.
  intros Hw. pose proof Hw as [He Ho Hn Hc]. unfold CloseManager.
  destruct (mgrClosed (mgr w)) eqn:Em; [done|].
  constructor; simpl; auto; [by intros k r Hk; rewrite lookup_empty in Hk|].
  intros r s Hs. right. apply close_all_lookup in Hs as (s0 & H0 & _ & Hcl). apply Hcl.
  destruct (Ho r s0 H0) as [Hin|]; [right|by left].
  apply list_elem_of_fmap. exists (key_of s0, r). split; [done|]. by apply elem_of_map_to_list.
Qed.

Lemma new_world_wf : world_wf new_world.
Proof. by constructor. Qed.

Lemma exec1_wf w o : world_wf w -> op_wf o -> world_wf (exec1 w o).
Proof.
  intros Hw Ho. destruct o as [c t p|i c t p|c i| |r m]; simpl in *.
  - pose proof (CreateStream_spec w c t p Hw) as H. destruct (CreateStream w c t p). apply H.
  - by apply CreateStreamWithID_wf.
  - by apply RemoveStream_wf.
  - by apply CloseManager_wf.
  - apply on_stream_wf; [done | apply call_keeps].
Qed.

Lemma exec_wf os w : world_wf w -> Forall op_wf os -> world_wf (foldl exec1 w os).
Proof.
  revert w. induction os as [|o os IH]; intros w Hw Hos; [done|].
  apply Forall_cons in Hos as [Ho Hos]. cbn [foldl]. apply IH; [by apply exec1_wf | done].
Qed.

(** ** The manager as a stream table *)

(** Two descriptions of the same stream object. *)
Definition same_stream (s s' : Stream) : Prop :=
  key_of s' = key_of s /\ (closeChan s = true -> closeChan s' = true).

Definition window_ok (s : Stream) : Prop := 0 <= packageWindow (windows s) < 2 ^ 31.

Definition bound_ok (b : CircuitBound) : Prop :=
  world_wf (boundWorld b) /\ Forall window_ok (heap (boundWorld b)).

Lemma alter_const_twice (h : list Stream) r s s' :
  alter (fun _ => s') r (alter (fun _ => s) r h) = alter (fun _ => s') r h.
Proof.
  apply list_eq. intros i. rewrite !lookup_alter_stream. case_decide; [|done]. by destruct (h !! i).
Qed.

Lemma alter_const_id (h : list Stream) r s : h !! r = Some s -> alter (fun _ => s) r h = h.
Proof.
  intros Hs. apply list_eq. intros i. rewrite lookup_alter_stream. case_decide; [|done].
  subst. by rewrite Hs.
Qed.

Lemma bound_get b i s :
  bound_GetStream b i = Some s <-> exists r, bound_ref b i = Some r /\ heap (boundWorld b) !! r = Some s.
Proof. unfold bound_GetStream. rewrite bind_Some. done. Qed.

Lemma bound_update_wf b i s s' :
  bound_ok b -> bound_GetStream b i = Some s -> same_stream s s' -> window_ok s' -> bound_ok (bound_update b i s').
Proof.
  intros [Hw Hok] Hg Hs Hs'. apply bound_get in Hg as (r & Hr & Hh). unfold bound_update. rewrite Hr.
  split; simpl.
  - destruct Hw as [He Ho Hn Hc], Hs as [Hk Hcl]. constructor; simpl; auto.
    + intros k r' Hk'. destruct (He k r' Hk') as (Hv & s0 & Hs0 & Hk0). split; [done|].
      rewrite lookup_alter_stream, Hs0. case_decide; simpl; eexists; split; try done.
      subst. rewrite Hh in Hs0. congruence.
    + intros j t. rewrite lookup_alter_stream. case_decide; [|apply Ho].
      subst. rewrite Hh. intros [= <-]. rewrite Hk. destruct (Ho r s Hh); auto.
  - apply Forall_lookup. intros j t. rewrite lookup_alter_stream.
    case_decide; [|apply (Forall_lookup_1 _ _ _ _ Hok)]. subst. rewrite Hh. by intros [= <-].
Qed.

#[global] Instance bound_laws : FlowControl.StreamTableLaws CircuitBound Stream.
Proof.
  refine {| FlowControl.table_ok := bound_ok; FlowControl.stream_ok := window_ok;
            FlowControl.same_object := same_stream;
            FlowControl.window_of := fun s => packageWindow (windows s) |}; simpl.
  - intros b i s [_ Hok] Hg. apply bound_get in Hg as (r & _ & Hr). by eapply Forall_lookup_1.
  - intros b i s s' _ Hg. apply bound_get in Hg as (r & Hr & Hh). apply bound_get. exists r.
    unfold bound_update. rewrite Hr. split; [done|]. simpl.
    by rewrite lookup_alter_stream, decide_True, Hh by done.
  - intros b i s s' Hb Hg Hs Hok. by eapply bound_update_wf.
  - intros b i s s'. unfold bound_update. destruct (bound_ref b i) as [r|] eqn:Er; [|by rewrite Er].
    assert (bound_ref (mkBound (on_stream (boundWorld b) r (fun _ => s)) (boundID b)) i = Some r) as -> by done.
    unfold on_stream; simpl. by rewrite alter_const_twice.
  - intros [w c] i s _ Hg. apply bound_get in Hg as (r & Hr & Hh). unfold bound_update. rewrite Hr.
    unfold on_stream; simpl in *. rewrite alter_const_id by done. by destruct w.
  - intros s Hok Hpos. unfold DecrementPackageWindow, window_ok in *.
    rewrite (proj2 (Z.leb_gt _ _)) by lia. eexists. split_and!; try done; simpl; rewrite ?i64_id by (word; lia); try lia.
    unfold RefundPackageWindow; simpl. rewrite i64_id by (word; lia). rewrite Z.sub_add.
    by destruct s as [? ? ? ? ? ? ? []].
  - intros s Hle. exists FlowControl.ErrWindowExhausted. unfold DecrementPackageWindow.
    by rewrite (proj2 (Z.leb_le _ _)) by lia.
Defined.

(** ** Queues under backpressure *)

Definition total (q : list bytes) : Z := foldr (fun d n => len d + n) 0 q.

Lemma total_nonneg q : 0 <= total q.
Proof. induction q; simpl; [done|]. pose proof (len_nonneg a). lia. Qed.

Lemma total_snoc q d : total (q ++ [d]) = total q + len d.
Proof. induction q; simpl; lia. Qed.

(** A call in flight, by what it does next. *)
Inductive pending_call :=
| PCheck (d : side) (data : bytes)      (** [Send], [ReceiveData]: the backpressure check *)
| PPush (d : side) (data : bytes)       (** the check passed: queue the data *)
| PAccount (d : side) (data : bytes)    (** queued: add its length *)
| PDiscount (d : side) (data : bytes).  (** [Receive], [SendData]: taken, subtract its length *)

(** The stream, the calls in flight and, per side, the data accepted into the
    queue and the data taken out of it. *)
Record qsys := mkQsys {
  qstream : Stream;
  flight : list pending_call;
  accepted : side -> list bytes;
  taken : side -> list bytes;
}.

(** The start of a [Send] or [ReceiveData], the next step of the [i]-th call in
    flight, the [select] of a [SendData] or [Receive], a close and a change of
    state. *)
Inductive qact :=
| QCall (d : side) (data : bytes)
| QStep (i : nat) (pick : nat)
| QPop (d : side) (pick : nat) (ctxDone : bool)
| QClose
| QSetState (v : State).

Definition append_to (f : side -> list bytes) (d : side) (data : bytes) : side -> list bytes :=
  fun e => if decide (e = d) then f e ++ [data] else f e.

(** One step of a call: the stream and the call's next step, if any. *)
Definition call_step (pick : nat) (s : Stream) (c : pending_call) : Stream * option pending_call :=
  match c with
  | PCheck d data => let '(s, isPaused) := check_push d s data in (s, if isPaused then None else Some (PPush d data))
  | PPush d data =>
      match push d pick s data with
      | (s, Some CaseQueue) => (s, Some (PAccount d data))
      | (s, _) => (s, None)
      end
  | PAccount d data => (account d s data, None)
  | PDiscount d data => (discount d s data, None)
  end.

(** A step that leaves the call to account has queued its data. *)
Definition note_accepted (f : side -> list bytes) (c : option pending_call) : side -> list bytes :=
  match c with Some (PAccount d data) => append_to f d data | _ => f end.

Definition qstep (y : qsys) (a : qact) : qsys :=
  let s := qstream y in
  match a with
  | QCall d data =>
      if bool_decide (d = SendSide) && negb (bool_decide (GetState s = StateConnected)) then y
      else mkQsys s (PCheck d data :: flight y) (accepted y) (taken y)
  | QStep i pick =>
      match flight y !! i with
      | None => y
      | Some c =>
          let '(s, c') := call_step pick s c in
          mkQsys s (option_list c' ++ delete i (flight y)) (note_accepted (accepted y) c') (taken y)
      end
  | QPop d pick ctx =>
      match pop d pick ctx s with
      | (s, Some (Ok data)) => mkQsys s (PDiscount d data :: flight y) (accepted y) (append_to (taken y) d data)
      | (s, _) => mkQsys s (flight y) (accepted y) (taken y)
      end
  | QClose => mkQsys (Close s) (flight y) (accepted y) (taken y)
  | QSetState v => mkQsys (SetState s v) (flight y) (accepted y) (taken y)
  end.

Definition idle_qsys (s : Stream) : qsys := mkQsys s [] (fun _ => []) (fun _ => []).

(** The bytes queued but not yet added to the count, and taken but not yet
    subtracted; and the calls that put data into side [d]. *)
Definition adding (d : side) (c : pending_call) : Z :=
  match c with PAccount e data => if decide (e = d) then len data else 0 | _ => 0 end.
Definition removing (d : side) (c : pending_call) : Z :=
  match c with PDiscount e data => if decide (e = d) then len data else 0 | _ => 0 end.
Definition producing (d : side) (c : pending_call) : Z :=
  match c with PCheck e _ | PPush e _ | PAccount e _ => if decide (e = d) then 1 else 0 | _ => 0 end.
Definition sum (f : pending_call -> Z) (cs : list pending_call) : Z := foldr (fun c n => f c + n) 0 cs.

(** One producer of side [d] at a time: a [Send] (a [ReceiveData]) starts only
    when the one before has returned. *)
Fixpoint one_producer (d : side) (y : qsys) (os : list qact) : bool :=
  match os with
  | [] => true
  | o :: os =>
      match o with
      | QCall e _ => negb (bool_decide (e = d)) || (sum (producing d) (flight y) =? 0)
      | _ => true
      end && one_producer d (qstep y o) os
  end.

(** No read of side [d] subtracts while a writer has queued its data and not yet
    added its length. *)
Fixpoint no_race (d : side) (y : qsys) (os : list qact) : bool :=
  match os with
  | [] => true
  | o :: os =>
      match o with
      | QStep i _ =>
          match flight y !! i with
          | Some (PDiscount e _) => negb (bool_decide (e = d)) || (sum (adding d) (flight y) =? 0)
          | _ => true
          end
      | _ => true
      end && no_race d (qstep y o) os
  end.

Definition qact_wf (o : qact) : Prop := match o with QCall _ data => len data < 2 ^ 62 | _ => True end.

Global Instance qact_wf_dec o : Decision (qact_wf o).
Proof. destruct o; apply _. Defined.

(** A controller never lets a size at or above its high mark pass. *)
Lemma CheckSendBuffer_spec b n b' p :
  lowWaterMark b < highWaterMark b -> CheckSendBuffer b n = (b', p) ->
  highWaterMark b' = highWaterMark b /\ lowWaterMark b' = lowWaterMark b /\ p = sendPaused b' /\
  recvPaused b' = recvPaused b /\ (p = false -> n < highWaterMark b).
Proof. unfold CheckSendBuffer. intros. destruct (sendPaused b) eqn:E; cases; simplify_eq; split_and!; try done; lia. Qed.

Lemma CheckRecvBuffer_spec b n b' p :
  lowWaterMark b < highWaterMark b -> CheckRecvBuffer b n = (b', p) ->
  highWaterMark b' = highWaterMark b /\ lowWaterMark b' = lowWaterMark b /\ p = recvPaused b' /\
  sendPaused b' = sendPaused b /\ (p = false -> n < highWaterMark b).
Proof. unfold CheckRecvBuffer. intros. destruct (recvPaused b) eqn:E; cases; simplify_eq; split_and!; try done; lia. Qed.

Lemma check_buffer_spec d b n b' p :
  lowWaterMark b < highWaterMark b -> check_buffer d b n = (b', p) ->
  highWaterMark b' = highWaterMark b /\ lowWaterMark b' = lowWaterMark b /\ (p = false -> n < highWaterMark b).
Proof.
  intros Hl. destruct d; simpl; intros H.
  - by apply CheckSendBuffer_spec in H as (? & ? & _ & _ & ?).
  - by apply CheckRecvBuffer_spec in H as (? & ? & _ & _ & ?).
Qed.

(** A queue takes data only when it has room. *)
Lemma push_queue pick q c :
  select pick (push_cases q c) = Some CaseQueue -> len q + 1 <= queueCap.
Proof.
  unfold push_cases. destruct (Z.ltb_spec (len q) queueCap); [lia|]. simpl.
  destruct c; [by rewrite select_single | done].
Qed.

(** The views of the two sides are independent. *)
Lemma queue_set_queue d e s q : queue_of d (set_queue e s q) = if decide (d = e) then q else queue_of d s.
Proof. by destruct d, e. Qed.
Lemma size_set_queue d e s q : size_of d (set_queue e s q) = size_of d s.
Proof. by destruct d, e. Qed.
Lemma queue_set_size d e s n : queue_of d (set_size e s n) = queue_of d s.
Proof. by destruct d, e. Qed.
Lemma size_set_size d e s n : size_of d (set_size e s n) = if decide (d = e) then n else size_of d s.
Proof. by destruct d, e. Qed.
Lemma queue_with_bp d s b : queue_of d (with_bp s b) = queue_of d s.
Proof. by destruct d. Qed.
Lemma size_with_bp d s b : size_of d (with_bp s b) = size_of d s.
Proof. by destruct d. Qed.
Hint Rewrite queue_set_queue size_set_queue queue_set_size size_set_size queue_with_bp size_with_bp : sides.

Lemma check_push_view d s data s' p :
  check_push d s data = (s', p) -> forall e, queue_of e s' = queue_of e s /\ size_of e s' = size_of e s.
Proof.
  unfold check_push. intros H e. destruct (backpressure s) as [b|]; [|by simplify_eq].
  destruct (check_buffer d b _). simplify_eq. by autorewrite with sides.
Qed.

Lemma account_queue d s data e : queue_of e (account d s data) = queue_of e s.
Proof. unfold account. destruct (backpressure s); by autorewrite with sides. Qed.

Lemma discount_queue d s data e : queue_of e (discount d s data) = queue_of e s.
Proof.
  unfold discount. destruct (backpressure s) as [b|]; [|done]. destruct (check_buffer d b _). by autorewrite with sides.
Qed.

Lemma close_view s e : queue_of e (Close s) = queue_of e s /\ size_of e (Close s) = size_of e s.
Proof. unfold Close. by destruct (closeChan s), e. Qed.

(** ** Order and capacity, under any interleaving *)

Definition fifo (d : side) (y : qsys) : Prop :=
  taken y d ++ queue_of d (qstream y) = accepted y d /\ len (queue_of d (qstream y)) <= queueCap.

Lemma call_step_fifo d pick y c s' c' t :
  fifo d y -> call_step pick (qstream y) c = (s', c') ->
  fifo d (mkQsys s' t (note_accepted (accepted y) c') (taken y)).
Proof.
  unfold fifo. destruct y as [s fl acc tk]. cbn [qstream accepted taken]. intros Hf H.
  destruct c as [e data|e data|e data|e data]; cbn [call_step] in H.
  - destruct (check_push e s data) as [s1 p] eqn:E. apply check_push_view with (e := d) in E as [Hq _].
    simplify_eq. rewrite Hq. by destruct p.
  - unfold push in H. destruct (select pick _) as [[]|] eqn:E; simplify_eq; try done.
    apply push_queue in E. cbn [note_accepted]. unfold append_to. autorewrite with sides.
    case_decide as He; [subst e|done]. destruct Hf as [Hf _]. rewrite app_assoc, Hf. split; [done|].
    rewrite len_app. unfold len at 2. simpl. lia.
  - simplify_eq. by rewrite account_queue.
  - simplify_eq. by rewrite discount_queue.
Qed.

Lemma qstep_fifo d y o : fifo d y -> fifo d (qstep y o).
Proof.
  intros Hf. destruct o as [e data|i pick|e pick ctx| |v]; cbn [qstep].
  - by destruct (_ && _).
  - destruct (flight y !! i) as [c|]; [|done]. destruct (call_step pick _ c) as [s' c'] eqn:E. by eapply call_step_fifo.
  - unfold pop. destruct Hf as [Hf Hc]. destruct (select pick _) as [[]|]; try by split.
    destruct (queue_of e (qstream y)) as [|data rest] eqn:Eq; [by split|].
    unfold fifo; cbn [qstream accepted taken]; unfold append_to; autorewrite with sides.
    case_decide; [subst e|by split]. rewrite Eq in Hf, Hc. rewrite <- app_assoc. split; [done|].
    unfold len in *. simpl in Hc. lia.
  - destruct Hf as [Hf Hc]. unfold fifo; cbn [qstream accepted taken].
    by rewrite (proj1 (close_view _ _)).
  - by destruct d.
Qed.

Lemma run_fifo d os y : fifo d y -> fifo d (foldl qstep y os).
Proof. revert y. induction os; intros y Hy; [done|]. cbn [foldl]. by apply IHos, qstep_fifo. Qed.

(** ** The byte counts, one producer at a time *)

Lemma sum_delete f i cs c : cs !! i = Some c -> sum f cs = f c + sum f (delete i cs).
Proof.
  revert i. induction cs as [|c0 cs IH]; intros [|i] H; simplify_eq/=; [done|]. rewrite (IH i H). lia.
Qed.

Lemma sum_options f c cs : sum f (option_list c ++ cs) = from_option f 0 c + sum f cs.
Proof. by destruct c. Qed.

Lemma sum_nonneg f cs : (forall c, 0 <= f c) -> 0 <= sum f cs.
Proof. intros Hf. induction cs as [|c cs IH]; simpl; [done|]. pose proof (Hf c). lia. Qed.

Lemma adding_nonneg d c : 0 <= adding d c.
Proof. destruct c; simpl; try case_decide; try done. apply len_nonneg. Qed.
Lemma removing_nonneg d c : 0 <= removing d c.
Proof. destruct c; simpl; try case_decide; try done. apply len_nonneg. Qed.
Lemma producing_nonneg d c : 0 <= producing d c.
Proof. destruct c; simpl; by try case_decide. Qed.

(** What a call in flight on side [d] promises: past the check, its data fits
    under the high mark. *)
Definition promise (high : Z) (d : side) (size : Z) (c : pending_call) : Prop :=
  match c with
  | PCheck e data | PDiscount e data => e = d -> len data < 2 ^ 62
  | PPush e data | PAccount e data => e = d -> size + len data < high
  end.

Lemma promise_mono high d size size' c : size' <= size -> promise high d size c -> promise high d size' c.
Proof. intros Hs. destruct c; simpl; try done; intros H E; specialize (H E); lia. Qed.

(** A call of the other side, or a read, promises nothing. *)
Lemma promise_other high d size size' c : producing d c = 0 -> promise high d size c -> promise high d size' c.
Proof. destruct c; simpl; try done; case_decide; done. Qed.

Lemma none_producing d cs : sum (producing d) cs = 0 -> Forall (fun c => producing d c = 0) cs.
Proof.
  induction cs as [|c cs IH]; simpl; intros H; [done|]. pose proof (producing_nonneg d c).
  pose proof (sum_nonneg (producing d) cs (producing_nonneg d)). constructor; [lia|]. apply IH. lia.
Qed.

Lemma none_adding d cs : sum (producing d) cs = 0 -> sum (adding d) cs = 0.
Proof.
  intros H%none_producing. induction H as [|c cs Hc _ IH]; [done|]. simpl. rewrite IH.
  destruct c; simpl in *; try done. by case_decide.
Qed.

(** The counts of side [d]; [exact] while no reader has raced a writer. *)
Record counts (high low : Z) (d : side) (exact : bool) (y : qsys) : Prop := {
  cnt_bp : exists b, backpressure (qstream y) = Some b /\ highWaterMark b = high /\ lowWaterMark b = low;
  cnt_size : 0 <= size_of d (qstream y) < high;
  cnt_one : sum (producing d) (flight y) <= 1;
  cnt_promise : Forall (promise high d (size_of d (qstream y))) (flight y);
  cnt_total : total (queue_of d (qstream y)) + sum (removing d) (flight y) <= size_of d (qstream y) + sum (adding d) (flight y);
  cnt_exact : exact = true ->
    total (queue_of d (qstream y)) + sum (removing d) (flight y) = size_of d (qstream y) + sum (adding d) (flight y);
}.

(** What is queued and not yet counted fits as well. *)
Lemma adding_fits high d size cs :
  size < high -> sum (producing d) cs <= 1 -> Forall (promise high d size) cs -> size + sum (adding d) cs < high.
Proof.
  intros Hs Hone Hp. induction Hp as [|c cs Hc Hp IH]; simpl in *; [lia|].
  pose proof (producing_nonneg d c). pose proof (sum_nonneg (producing d) cs (producing_nonneg d)).
  destruct (decide (producing d c = 0)) as [Hz|Hz].
  - specialize (IH ltac:(lia)). assert (adding d c = 0) by (destruct c; simpl in *; try done; by case_decide). lia.
  - rewrite (none_adding d cs) by lia. destruct c; simpl in *; try lia. case_decide; [|lia]. specialize (Hc ltac:(done)). lia.
Qed.

Section Counts.
Context (high low : Z) (d : side) (Hlow : low < high) (Hhigh : high < 2 ^ 62).

Lemma counts_total ex y : counts high low d ex y -> total (queue_of d (qstream y)) < high.
Proof.
  intros [_ Hs Hone Hp Ht _]. pose proof (adding_fits high d _ _ (proj2 Hs) Hone Hp).
  pose proof (sum_nonneg (removing d) (flight y) (removing_nonneg d)). lia.
Qed.

(** A step that keeps the marks, the queue and the count of the side, and puts
    in flight only calls that neither produce nor account on it. *)
Lemma counts_same ex y y' :
  counts high low d ex y ->
  (exists b, backpressure (qstream y') = Some b /\ highWaterMark b = high /\ lowWaterMark b = low) ->
  size_of d (qstream y') = size_of d (qstream y) -> queue_of d (qstream y') = queue_of d (qstream y) ->
  sum (producing d) (flight y') <= 1 -> Forall (promise high d (size_of d (qstream y))) (flight y') ->
  sum (adding d) (flight y') = sum (adding d) (flight y) -> sum (removing d) (flight y') = sum (removing d) (flight y) ->
  counts high low d ex y'.
Proof. intros [_ Hs _ _ Ht He] Hb Es Eq H1 Hp Ha Hr. constructor; rewrite ?Es, ?Eq, ?Ha, ?Hr; auto. Qed.

(** Nothing but the state or the close channel changes. *)
Lemma counts_still ex s s' fl acc tk acc' tk' :
  counts high low d ex (mkQsys s fl acc tk) -> backpressure s' = backpressure s -> queues s' = queues s ->
  counts high low d ex (mkQsys s' fl acc' tk').
Proof.
  intros Hc Hb Hq. assert (size_of d s' = size_of d s /\ queue_of d s' = queue_of d s) as [Es Eq]
    by (unfold size_of, queue_of; rewrite Hq; done).
  pose proof Hc as []. cbn [qstream flight] in *. eapply counts_same; try done; cbn [qstream flight]; try done. by rewrite Hb.
Qed.

Lemma counts_perm ex s fl fl' acc tk acc' tk' :
  fl ≡ₚ fl' -> counts high low d ex (mkQsys s fl acc tk) -> counts high low d ex (mkQsys s fl' acc' tk').
Proof.
  intros Hp [Hb Hs H1 Hpr Ht He]. cbn [qstream flight] in *. assert (forall f, sum f fl' = sum f fl) as Hsum.
  { intros f. clear -Hp. induction Hp; simpl in *; lia. }
  constructor; cbn [qstream flight]; rewrite ?Hsum, <- ?Hp; done.
Qed.

Definition marks (s : Stream) : Prop :=
  exists b, backpressure s = Some b /\ highWaterMark b = high /\ lowWaterMark b = low.

Lemma check_push_marks e s data s' p :
  marks s -> check_push e s data = (s', p) ->
  marks s' /\ (0 <= size_of e s < high -> len data < 2 ^ 62 -> p = false -> size_of e s + len data < high).
Proof.
  intros (b & Hb & Hh & Hl). unfold check_push. rewrite Hb. intros H.
  destruct (check_buffer e b _) as [b' p'] eqn:E. apply check_buffer_spec in E as (Hh' & Hl' & Hp); [|lia].
  simplify_eq. split; [exists b'; split_and!; [done|congruence..]|]. intros Hs Hd ->. specialize (Hp eq_refl).
  pose proof (len_nonneg data). rewrite i64_id in Hp by (word; lia). lia.
Qed.

Lemma discount_size e s data :
  marks s -> size_of d (discount e s data) = (if decide (d = e) then sub_floor (size_of e s) (len data) else size_of d s) /\
  marks (discount e s data).
Proof.
  intros (b & Hb & Hh & Hl). unfold discount. rewrite Hb.
  destruct (check_buffer e b _) as [b' p] eqn:E. apply check_buffer_spec in E as (Hh' & Hl' & _); [|lia].
  autorewrite with sides. split; [done|]. exists b'. split_and!; [done|congruence..].
Qed.

(** The flight of a system whose next step is [c]'s. *)
Lemma counts_step_check ex s e data rest acc tk acc' s' p :
  counts high low d ex (mkQsys s (PCheck e data :: rest) acc tk) -> check_push e s data = (s', p) ->
  counts high low d ex (mkQsys s' (if p then rest else PPush e data :: rest) acc' tk).
Proof.
  intros Hc H. pose proof Hc as [Hb Hs H1 Hpr _ _]. cbn [qstream flight] in *.
  destruct (check_push_view _ _ _ _ _ H d) as [Eq Es]. destruct (check_push_marks _ _ _ _ _ Hb H) as [Hb' Hfit].
  apply Forall_cons in Hpr as [Hp Hpr]. simpl in H1, Hp.
  eapply counts_same; try done; cbn [qstream flight]; [| |by destruct p..].
  - destruct p; simpl; case_decide; lia.
  - destruct p; [done|]. constructor; [|done]. intros ->. apply Hfit; auto.
Qed.

Lemma counts_step_push ex s e data rest acc tk acc' pick s' c :
  counts high low d ex (mkQsys s (PPush e data :: rest) acc tk) -> push e pick s data = (s', c) ->
  counts high low d ex (mkQsys s' (match c with Some CaseQueue => PAccount e data :: rest | _ => rest end) acc' tk).
Proof.
  intros Hc H. pose proof Hc as [Hb Hs H1 Hpr Ht He]. cbn [qstream flight] in *.
  apply Forall_cons in Hpr as [Hp Hpr]. simpl in H1, Hp, Ht, He.
  assert (counts high low d ex (mkQsys s rest acc' tk)) as Hno.
  { constructor; cbn [qstream flight]; auto. case_decide; lia. }
  unfold push in H. destruct (select pick _) as [[]|]; simplify_eq; try exact Hno.
  constructor; cbn [qstream flight]; autorewrite with sides; [done|done|simpl; lia| |..]; cbn [sum foldr adding removing];
    fold (sum (adding d) rest) (sum (removing d) rest).
  - by constructor.
  - rewrite (decide_ext (d = e) (e = d)) by done. case_decide; subst; rewrite ?total_snoc; lia.
  - intros E. specialize (He E). rewrite (decide_ext (d = e) (e = d)) by done. case_decide; subst; rewrite ?total_snoc; lia.
Qed.

Lemma counts_step_account ex s e data rest acc tk acc' :
  counts high low d ex (mkQsys s (PAccount e data :: rest) acc tk) ->
  counts high low d ex (mkQsys (account e s data) rest acc' tk).
Proof.
  intros [Hb Hs H1 Hpr Ht He]. cbn [qstream flight] in *. destruct Hb as (b & Hb & Hh & Hl).
  apply Forall_cons in Hpr as [Hp Hpr]. simpl in H1, Hp, Ht, He. unfold account. rewrite Hb.
  pose proof (len_nonneg data). pose proof (sum_nonneg _ rest (producing_nonneg d)).
  constructor; cbn [qstream flight]; autorewrite with sides; rewrite ?(decide_ext (d = e) (e = d)) by done; [by exists b|..].
  - case_decide; [subst e|done]. specialize (Hp eq_refl). rewrite i64_id by (word; lia). lia.
  - case_decide; lia.
  - case_decide; [|done]. eapply Forall_impl; [|intros c Hc; exact Hc].
    pose proof (none_producing d rest ltac:(lia)) as Hn.
    apply Forall_forall. intros c Hc. rewrite Forall_forall in Hn, Hpr. eapply promise_other; [by apply Hn | by apply Hpr].
  - case_decide; [subst e|lia]. specialize (Hp eq_refl). rewrite i64_id by (word; lia). lia.
  - intros E. specialize (He E). case_decide; [subst e|lia]. specialize (Hp eq_refl). rewrite i64_id by (word; lia). lia.
Qed.

Lemma counts_step_discount ex s e data rest acc tk acc' :
  counts high low d ex (mkQsys s (PDiscount e data :: rest) acc tk) ->
  counts high low d (ex && (negb (bool_decide (e = d)) || (sum (adding d) rest =? 0)))
    (mkQsys (discount e s data) rest acc' tk).
Proof.
  intros [Hb Hs H1 Hpr Ht He]. cbn [qstream flight] in *. destruct (discount_size e s data Hb) as [Es Hb'].
  apply Forall_cons in Hpr as [Hp Hpr]. simpl in H1, Hp, Ht, He.
  pose proof (len_nonneg data). pose proof (sum_nonneg _ rest (removing_nonneg d)).
  pose proof (total_nonneg (queue_of d s)).
  rewrite (decide_ext (d = e) (e = d)) in Es by done.
  assert (size_of d s - (if decide (e = d) then len data else 0) <= size_of d (discount e s data) <= size_of d s /\
          0 <= size_of d (discount e s data) /\
          (e <> d \/ len data <= size_of d s -> size_of d (discount e s data) = size_of d s - (if decide (e = d) then len data else 0)))
    as (Hle & Hnn & Heq).
  { rewrite Es. case_decide; [subst e|split_and!; [lia..|]; intros; lia]. specialize (Hp eq_refl).
    unfold sub_floor. rewrite i64_id by (word; lia). case_if; bool_to_prop; split_and!; try lia; intros [?|?]; try done; lia. }
  constructor; cbn [qstream flight]; rewrite ?discount_queue; [done|lia|lia| |..].
  - eapply Forall_impl; [exact Hpr|]. intros c. apply promise_mono. lia.
  - lia.
  - intros [Hex Hr]%andb_true_iff. specialize (He Hex). rewrite Heq; [lia|].
    case_decide; [right|by left]. apply orb_true_iff in Hr as [Hr|Hr]; bool_to_prop; [done|lia].
Qed.

Lemma counts_pop ex s e pick ctx data s' fl acc tk tk' :
  counts high low d ex (mkQsys s fl acc tk) -> pop e pick ctx s = (s', Some (Ok data)) ->
  counts high low d ex (mkQsys s' (PDiscount e data :: fl) acc tk').
Proof.
  intros Hc H. pose proof (counts_total _ _ Hc) as Htot. destruct Hc as [Hb Hs H1 Hpr Ht He].
  cbn [qstream flight] in *. unfold pop in H. destruct (select pick _) as [[]|]; simplify_eq.
  destruct (queue_of e s) as [|data' q] eqn:Eq; simplify_eq. pose proof (total_nonneg q).
  constructor; cbn [qstream flight]; autorewrite with sides; [done..| | |];
    cbn [sum foldr adding removing]; fold (sum (adding d) fl) (sum (removing d) fl);
    rewrite ?(decide_ext (d = e) (e = d)) by done.
  - constructor; [|done]. intros ->. rewrite Eq in Htot. simpl in Htot. lia.
  - case_decide; subst; rewrite ?Eq in *; simpl in *; lia.
  - intros E. specialize (He E). case_decide; subst; rewrite ?Eq in *; simpl in *; lia.
Qed.

(** A read subtracts while a writer of the side has still to add. *)
Definition races (y : qsys) (o : qact) : bool :=
  match o with
  | QStep i _ =>
      match flight y !! i with
      | Some (PDiscount e _) => negb (bool_decide (e = d)) || (sum (adding d) (flight y) =? 0)
      | _ => true
      end
  | _ => true
  end.

Lemma counts_qstep ex y o :
  counts high low d ex y -> qact_wf o ->
  match o with QCall e _ => negb (bool_decide (e = d)) || (sum (producing d) (flight y) =? 0) | _ => true end = true ->
  counts high low d (ex && races y o) (qstep y o).
Proof.
  destruct y as [s fl acc tk]. intros Hc Hwf Hone. destruct o as [e data|i pick|e pick ctx| |v]; cbn [qstep races flight qstream accepted taken] in *.
  - rewrite andb_true_r. destruct (_ && _); [done|]. pose proof Hc as [Hb Hs H1 Hpr _ _]. cbn [qstream flight] in *.
    eapply counts_same; try done; cbn [flight qstream]; [simpl|constructor; [intros _; exact Hwf | done]].
    destruct (decide (e = d)); [|lia]. apply orb_true_iff in Hone as [Hone|Hone]; bool_to_prop; [done|lia].
  - destruct (fl !! i) as [c|] eqn:Ei; [|by rewrite andb_true_r].
    pose proof (counts_perm _ _ _ _ acc tk acc tk (delete_Permutation _ _ _ Ei) Hc) as Hc'.
    destruct c as [e data|e data|e data|e data]; cbn [call_step]; rewrite ?andb_true_r.
    + destruct (check_push e s data) as [s' p] eqn:E. cbn [note_accepted].
      pose proof (counts_step_check _ _ _ _ _ _ _ acc _ _ Hc' E). by destruct p.
    + destruct (push e pick s data) as [s' c] eqn:E.
      pose proof (fun acc' => counts_step_push _ _ _ _ _ _ _ acc' _ _ _ Hc' E) as H. destruct c as [[]|]; apply H.
    + by eapply counts_step_account.
    + rewrite (sum_delete (adding d) _ _ _ Ei). cbn [adding]. rewrite Z.add_0_l. by eapply counts_step_discount.
  - rewrite andb_true_r. destruct (pop e pick ctx s) as [s' [[data|er]|]] eqn:E.
    + by eapply counts_pop.
    + unfold pop in E. by repeat (case_match; simplify_eq).
    + unfold pop in E. by repeat (case_match; simplify_eq).
  - rewrite andb_true_r. eapply counts_still; [done|..]; unfold Close; by destruct (closeChan s).
  - rewrite andb_true_r. by eapply counts_still.
Qed.

Lemma run_counts os y ex :
  counts high low d ex y -> Forall qact_wf os -> one_producer d y os = true ->
  counts high low d (ex && no_race d y os) (foldl qstep y os).
Proof.
  revert y ex. induction os as [|o os IH]; intros y ex Hc Hwf Hone; cbn [foldl no_race].
  - by rewrite andb_true_r.
  - apply Forall_cons in Hwf as [Ho Hwf]. cbn [one_producer] in Hone. apply andb_true_iff in Hone as [H1 Hone].
    fold (races y o). rewrite andb_assoc. apply IH; [|done..]. by apply counts_qstep.
Qed.

End Counts.

(** ** Stream-level SENDMEs

    As in [DeliverRelayCell], a DATA cell decrements the deliver window and, when
    [ShouldSendStreamSendme] says so, starts a goroutine that will call
    [RecordStreamSendmeSent]; [pending] counts the goroutines not yet run, and
    [credited] the SENDMEs sent. *)
Inductive window_event := EvData | EvGoroutine.

Record window_sys := mkWS { ws_stream : Stream; pending : nat; credited : Z }.

Definition window_step (w : window_sys) (e : window_event) : option window_sys :=
  match e with
  | EvData =>
      match DecrementDeliverWindow (ws_stream w) with
      | (_, Some _) => None
      | (s, None) => Some (mkWS s (if ShouldSendStreamSendme s then S (pending w) else pending w) (credited w))
      end
  | EvGoroutine =>
      match pending w with
      | O => Some w
      | S n => Some (mkWS (RecordStreamSendmeSent (ws_stream w)) n (credited w + 1))
      end
  end.

Fixpoint window_run (w : window_sys) (l : list window_event) : option window_sys :=
  match l with
  | [] => Some w
  | e :: l => match window_step w e with None => None | Some w => window_run w l end
  end.

(** Every cell is followed by the goroutine it may have started. *)
Definition eager (n : nat) : list window_event := concat (replicate n [EvData; EvGoroutine]).

(** [r] cells since the last SENDME, none outstanding. *)
Definition window_inv (r : Z) (w : window_sys) : Prop :=
  0 <= r < 50 /\ pending w = O /\ sendmeReceived (windows (ws_stream w)) = r /\
  deliverWindow (windows (ws_stream w)) = 500 - r.

Lemma eager_step r w :
  window_inv r w ->
  exists w', window_run w [EvData; EvGoroutine] = Some w' /\
    window_inv ((r + 1) mod 50) w' /\ credited w' = credited w + (r + 1) / 50.
Proof.
  intros (Hr & Hp & Hs & Hd). cbn [window_run]. unfold window_step, DecrementDeliverWindow.
  rewrite Hd, Hs, Hp. rewrite (proj2 (Z.leb_gt _ _)) by lia. cbn [pending].
  unfold ShouldSendStreamSendme; cbn [windows with_windows sendmeReceived].
  rewrite !i64_id by (word; lia).
  destruct (decide (r = 49)) as [->|].
  - simpl. eexists. split; [done|]. split; [by split_and!|]. done.
  - rewrite (proj2 (Z.leb_gt _ _)) by lia. rewrite Z.mod_small, Z.div_small by lia.
    eexists. split; [done|]. split; [|simpl; lia]. split_and!; simpl; lia.
Qed.

Lemma window_run_app w l k w' :
  window_run w l = Some w' -> window_run w (l ++ k) = window_run w' k.
Proof.
  revert w. induction l as [|e l IH]; intros w; cbn [window_run app]; [by intros [= ->]|].
  destruct (window_step w e); [apply IH | done].
Qed.

Lemma eager_run n r w :
  window_inv r w ->
  exists w', window_run w (eager n) = Some w' /\ window_inv ((r + Z.of_nat n) mod 50) w' /\
    credited w' = credited w + (r + Z.of_nat n) / 50.
Proof.
  revert r w. induction n as [|n IH]; intros r w Hw.
  - exists w. split; [done|]. destruct Hw as (Hr & ?). rewrite Z.add_0_r, Z.mod_small, Z.div_small by lia.
    split; [by split | lia].
  - destruct (eager_step r w Hw) as (w1 & H1 & Hw1 & Hc1). destruct (IH _ _ Hw1) as (w2 & H2 & Hw2 & Hc2).
    exists w2. split.
    { change (eager (S n)) with ([EvData; EvGoroutine] ++ eager n). by rewrite (window_run_app _ _ _ w1). }
    replace (r + Z.of_nat (S n)) with (r + 1 + Z.of_nat n) by lia. split.
    + by rewrite Zplus_mod_idemp_l in Hw2.
    + rewrite Hc2, Hc1. Z.div_mod_to_equations. lia.
Qed.

(** ** Properties *)

(** Creating a stream always terminates with a verdict, and the verdict is
    exact.  It succeeds with an id that was free on that circuit and is not the
    reserved 0, adds exactly that entry and a fresh stream with full windows; it
    fails only when the manager is closed or all 65535 ids of the circuit are
    taken, and then changes nothing.  The invariant of the manager is kept. *)
Theorem create_stream_fresh w c t p :
  world_wf w ->
  let '(w', r) := CreateStream w c t p in
  world_wf w' /\
  match r with
  | None => False
  | Some (Ok ref) => exists id, valid_id id /\ streams (mgr w) !! (c, id) = None /\
      ref = length (heap w) /\ heap w' = heap w ++ [NewStream id c t p] /\
      streams (mgr w') = <[(c, id) := ref]> (streams (mgr w)) /\ mgrClosed (mgr w) = false
  | Some (Err e) => w' = w /\
      ((e = errManagerClosed /\ mgrClosed (mgr w) = true) \/
       (e = errNoFreeID c /\ forall id, valid_id id -> is_Some (streams (mgr w) !! (c, id))))
  end.
Proof. apply CreateStream_spec. Qed.

(** Two streams; the second circuit reuses the id of the first. *)
Definition sample_ops : list op :=
  [OpCreateWithID 65535 9 "a" 80; OpCreateWithID 65535 10 "b" 443; OpCall 0 (MSetState StateConnected)].

Definition sample_world : world := foldl exec1 new_world sample_ops.

Lemma sample_world_wf : world_wf sample_world.
Proof. apply exec_wf; [apply new_world_wf|]. apply (bool_decide_unpack _). vm_compute. exact I. Qed.

(** After the last id the search wraps around to 1. *)
Lemma create_stream_fresh_witness :
  let '(w', r) := CreateStream sample_world 9 "c" 22 in
  world_wf w' /\ r = Some (Ok 2%nat) /\ streams (mgr w') !! (9, 1) = Some 2%nat.
Proof.
  pose proof (create_stream_fresh sample_world 9 "c" 22 sample_world_wf) as H.
  destruct (CreateStream sample_world 9 "c" 22) as [w' r] eqn:E.
  split; [apply H|]. vm_compute in E. simplify_eq. by split.
Defined.

(** No stream is lost or confused.  After any sequence of creations, removals,
    calls on streams and a shutdown, every table entry names a stream that
    carries its circuit and stream id; every stream ever created is in the table
    under its own key or has been closed; and after a shutdown all of them are
    closed. *)
Theorem manager_no_leak os :
  Forall op_wf os ->
  let w := foldl exec1 new_world os in
  (forall k r, streams (mgr w) !! k = Some r -> exists s, heap w !! r = Some s /\ key_of s = k) /\
  (forall r s, heap w !! r = Some s -> streams (mgr w) !! key_of s = Some r \/ closeChan s = true) /\
  (mgrClosed (mgr w) = true -> forall r s, heap w !! r = Some s -> closeChan s = true).
Proof.
  intros Hos w. destruct (exec_wf os new_world new_world_wf Hos) as [He Ho _ Hc]. fold w in He, Ho, Hc.
  split_and!; [intros k r Hk; by apply He | done |].
  intros Hm r s Hs. destruct (Ho r s Hs) as [Hin|]; [|done]. rewrite (Hc Hm), lookup_empty in Hin. done.
Qed.

Lemma manager_no_leak_witness :
  let w := foldl exec1 new_world (sample_ops ++ [OpRemove 9 65535; OpCloseManager]) in
  (0 < length (heap w))%nat /\ (forall r s, heap w !! r = Some s -> closeChan s = true).
Proof.
  intros w. split; [vm_compute; lia|]. apply (manager_no_leak (sample_ops ++ [OpRemove 9 65535; OpCloseManager])).
  - apply (bool_decide_unpack _). vm_compute. exact I.
  - vm_compute. reflexivity.
Defined.


Definition sample_stream : Stream :=
  SetBackpressure (SetState (NewStream 1 9 "a" 80) StateConnected) (Some (NewBackpressureState (Some (100, 10)))).

(** A reader takes the first message between the queueing and the accounting of
    the second. *)
Definition sample_qacts : list qact :=
  [QCall SendSide (zeros 60); QStep 0 0; QStep 0 0; QStep 0 0;
   QCall SendSide (zeros 3); QStep 0 0; QStep 0 0; QPop SendSide 0 false; QStep 1 0; QStep 0 0].


(** The byte count can outlive the bytes.  [ReceiveData] queues a message of 60
    bytes; before it adds them, the reader it woke takes the message and
    subtracts, with the floor at 0.  The queue is empty and no call is in flight,
    yet the count says 60, for good: with a high mark of 100 the next message of
    60 bytes is refused and leaves the stream paused. *)
Theorem receive_count_race :
  let y := foldl qstep (idle_qsys sample_stream)
    [QCall RecvSide (zeros 60); QStep 0 0; QStep 0 0; QPop RecvSide 0 false; QStep 0 0; QStep 0 0] in
  flight y = [] /\ recvQueue (queues (qstream y)) = [] /\ recvBufferSize (queues (qstream y)) = 60 /\
  taken y RecvSide = accepted y RecvSide /\
  snd (ReceiveData 0 (qstream y) (zeros 60)) = Some errRecvBackpressure.
Proof. vm_compute. by split_and!. Qed.

(** Backpressure can block an idle stream.  The controller is consulted on the
    size the buffer would have, so a refused message leaves it paused although
    nothing was queued: with an empty buffer and nothing to drain, every further
    message longer than the low mark is refused, whatever its number, and no
    read can release it. *)
Theorem backpressure_blocks_idle_stream s b pick data :
  backpressure s = Some b -> sendPaused b = true -> queues s = mkQueues [] [] 0 0 ->
  StreamState s = StateConnected -> lowWaterMark b < len data < 2 ^ 62 ->
  Send pick s data = (s, Some errSendBackpressure) /\
  (closeChan s = false -> SendData pick false s = (s, None)).
Proof.
  intros Hb Hp Hq Hst Hl. split.
  - unfold Send, GetState. rewrite Hst, bool_decide_true by done. simpl. unfold check_push. rewrite Hb. simpl. rewrite Hq. simpl.
    unfold CheckSendBuffer. rewrite Hp. simpl. rewrite i64_id by (pose proof (len_nonneg data); word; lia).
    rewrite (proj2 (Z.leb_gt _ _)) by lia. destruct s; simpl in *. by subst.
  - intros Hc. unfold SendData, pop; simpl. rewrite Hq, Hc. done.
Qed.

Lemma backpressure_blocks_idle_stream_witness :
  let '(s, e) := Send 0 sample_stream (zeros 200) in
  e = Some errSendBackpressure /\ Send 7 s (zeros 20) = (s, Some errSendBackpressure).
Proof.
  destruct (Send 0 sample_stream (zeros 200)) as [s e] eqn:E. vm_compute in E. simplify_eq. split; [done|].
  refine (proj1 (backpressure_blocks_idle_stream _ (mkBP true false 100 10) 7 (zeros 20) _ _ _ _ _));
    try reflexivity; split; reflexivity.
Defined.

(** Stream-level SENDMEs credit exactly the cells received, as long as each
    SENDME goroutine runs before the next cell arrives: after [n] cells on a
    fresh stream none was refused, [n / 50] SENDMEs were sent, and the deliver
    window is 500 less the cells since the last one. *)
Theorem stream_sendme_eager_exact n s :
  windows s = mkWindows 500 500 0 0 ->
  exists w, window_run (mkWS s 0 0) (eager n) = Some w /\
    credited w = Z.of_nat n / 50 /\ deliverWindow (windows (ws_stream w)) = 500 - Z.of_nat n mod 50 /\
    pending w = O.
Proof.
  intros Hs. destruct (eager_run n 0 (mkWS s 0 0)) as (w & Hr & (_ & Hp & _ & Hd) & Hc).
  { by split_and!; simpl; rewrite ?Hs. }
  exists w. rewrite Z.add_0_l in *. done.
Qed.

Lemma stream_sendme_eager_exact_witness :
  exists w, window_run (mkWS (NewStream 1 9 "a" 80) 0 0) (eager 120) = Some w /\ credited w = 2.
Proof.
  destruct (stream_sendme_eager_exact 120 (NewStream 1 9 "a" 80) eq_refl) as (w & Hw & Hc & _).
  exists w. split; [exact Hw | exact Hc].
Defined.

(** A burst over-credits the peer.  The count of received cells is reset only
    when the goroutine runs, so each of the cells 50, 51 and 52 that arrive before
    it starts another one: three SENDMEs leave for 52 cells and the deliver
    window ends above its initial 500. *)
Theorem stream_sendme_burst_overcredits :
  match window_run (mkWS (NewStream 1 9 "a" 80) 0 0) (replicate 52 EvData ++ replicate 3 EvGoroutine) with
  | Some w => credited w = 3 /\ deliverWindow (windows (ws_stream w)) = 598
  | None => False
  end.
Proof. vm_compute. by split. Qed.

(** The circuit's reservations on a real stream table. *)
Lemma reserve_transactional_witness :
  let w : FlowControl.Flow * option CircuitBound :=
    (FlowControl.new_flow, Some (BoundToCircuit sample_world 9)) in
  let '(w', a) := FlowControl.reserve_attempt w 65535 false in
  a = FlowControl.Reserved false /\ FlowControl.packageWindow (fst w') = 999 /\
  FlowControl.refundReservedWindows w' 65535 false = w.
Proof.
  intros w. pose proof (FlowControl.reserve_transactional w 65535 false) as H.
  destruct (FlowControl.reserve_attempt w 65535 false) as [w' a] eqn:E.
  assert (a = FlowControl.Reserved false) as -> by (vm_compute in E; by simplify_eq).
  destruct H as (_ & Hp & _ & _ & Hr & _).
  - apply FlowControl.new_flow_inv.
  - split; [exact sample_world_wf|]. apply (Forall_impl (fun s => packageWindow (windows s) = 500)).
    + apply (bool_decide_unpack _). vm_compute. exact I.
    + intros s Hs. unfold window_ok. rewrite Hs. by split.
  - lia.
  - split_and!; [done | exact Hp | exact Hr].
Defined.

End Stream.
