(* ===== verification/Polyval.v ===== *)
(** * POLYVAL (pkg/crypto/polyval.go)

    The universal hash of the CGO relay encryption, computed with constant-time
    integer multiplications, and the proof that it is the multiplication of
    GF(2^128) of RFC 8452. *)

From Stdlib Require Import Btauto.
From S2P Require Import Prelude.

Module Polyval.

(** ** Definitions *)

(** [binary.LittleEndian] *)
Definition le_get (l : bytes) : Z := be_get (rev l).
Definition le_put (n : nat) (v : Z) : bytes := rev (be_put n v).

(** The integer with the bits [f 0 .. f (n-1)]. *)
Fixpoint of_bits (n : nat) (f : Z -> bool) : Z :=
  match n with
  | O => 0
  | S n => Z.lxor (of_bits n f) (if f (Z.of_nat n) then 2 ^ Z.of_nat n else 0)
  end.

(** [bits.Reverse64] *)
Definition Reverse64 (x : Z) : Z := of_bits 64 (fun i => Z.testbit x (63 - i)).

Definition polyvalBlockLen : nat := 16.

Definition bmul64 (x y : Z) : Z :=
  let x0 := Z.land x 0x1111111111111111 in
  let x1 := Z.land x 0x2222222222222222 in
  let x2 := Z.land x 0x4444444444444444 in
  let x3 := Z.land x 0x8888888888888888 in
  let y0 := Z.land y 0x1111111111111111 in
  let y1 := Z.land y 0x2222222222222222 in
  let y2 := Z.land y 0x4444444444444444 in
  let y3 := Z.land y 0x8888888888888888 in
  let z0 := Z.lxor (Z.lxor (Z.lxor (u64 (x0 * y0)) (u64 (x1 * y3))) (u64 (x2 * y2))) (u64 (x3 * y1)) in
  let z1 := Z.lxor (Z.lxor (Z.lxor (u64 (x0 * y1)) (u64 (x1 * y0))) (u64 (x2 * y3))) (u64 (x3 * y2)) in
  let z2 := Z.lxor (Z.lxor (Z.lxor (u64 (x0 * y2)) (u64 (x1 * y1))) (u64 (x2 * y0))) (u64 (x3 * y3)) in
  let z3 := Z.lxor (Z.lxor (Z.lxor (u64 (x0 * y3)) (u64 (x1 * y2))) (u64 (x2 * y1))) (u64 (x3 * y0)) in
  let z0 := Z.land z0 0x1111111111111111 in
  let z1 := Z.land z1 0x2222222222222222 in
  let z2 := Z.land z2 0x4444444444444444 in
  let z3 := Z.land z3 0x8888888888888888 in
  Z.lor (Z.lor (Z.lor z0 z1) z2) z3.

(** The reduction at the end of [polyvalMul64]; [<<] on a [uint64] keeps 64 bits. *)
Definition shl (v k : Z) : Z := u64 (Z.shiftl v k).

Definition reduce (v0 v1 v2 v3 : Z) : Z * Z :=
  let v2 := Z.lxor v2 (Z.lxor (Z.lxor (Z.lxor v0 (Z.shiftr v0 1)) (Z.shiftr v0 2)) (Z.shiftr v0 7)) in
  let v1 := Z.lxor v1 (Z.lxor (Z.lxor (shl v0 63) (shl v0 62)) (shl v0 57)) in
  let v3 := Z.lxor v3 (Z.lxor (Z.lxor (Z.lxor v1 (Z.shiftr v1 1)) (Z.shiftr v1 2)) (Z.shiftr v1 7)) in
  let v2 := Z.lxor v2 (Z.lxor (Z.lxor (shl v1 63) (shl v1 62)) (shl v1 57)) in
  (v2, v3).

Definition polyvalMul64 (y0 y1 h0 h1 : Z) : Z * Z :=
  let h0r := Reverse64 h0 in
  let h1r := Reverse64 h1 in
  let h2 := Z.lxor h0 h1 in
  let h2r := Z.lxor h0r h1r in
  let y0r := Reverse64 y0 in
  let y1r := Reverse64 y1 in
  let y2 := Z.lxor y0 y1 in
  let y2r := Z.lxor y0r y1r in
  let z0 := bmul64 y0 h0 in
  let z1 := bmul64 y1 h1 in
  let z2 := bmul64 y2 h2 in
  let z0h := bmul64 y0r h0r in
  let z1h := bmul64 y1r h1r in
  let z2h := bmul64 y2r h2r in
  let z2 := Z.lxor z2 (Z.lxor z0 z1) in
  let z2h := Z.lxor z2h (Z.lxor z0h z1h) in
  let z0h := Z.shiftr (Reverse64 z0h) 1 in
  let z1h := Z.shiftr (Reverse64 z1h) 1 in
  let z2h := Z.shiftr (Reverse64 z2h) 1 in
  reduce z0 (Z.lxor z0h z2) (Z.lxor z1 z2h) z1h.

(** One block of input, zero-padded, is absorbed per turn; the loop ends because
    each turn consumes at least one byte. *)
Fixpoint absorb (fuel : nat) (hLo hHi yLo yHi : Z) (data : bytes) : Z * Z :=
  match fuel with
  | O => (yLo, yHi)
  | S fuel =>
      match data with
      | [] => (yLo, yHi)
      | _ =>
          let blk := copy_at (zeros 16) 0 data in
          let yLo := Z.lxor yLo (le_get (slice blk 0 8)) in
          let yHi := Z.lxor yHi (le_get (slice blk 8 16)) in
          let '(yLo, yHi) := polyvalMul64 yLo yHi hLo hHi in
          absorb fuel hLo hHi yLo yHi (drop 16 data)
      end
  end.

Definition polyval (h data : bytes) : bytes :=
  if negb (length h =? polyvalBlockLen)%nat then zeros 16
  else
    let '(yLo, yHi) := absorb (length data) (le_get (slice h 0 8)) (le_get (slice h 8 16)) 0 0 data in
    le_put 8 yLo ++ le_put 8 yHi.

(** ** The reference: carry-less multiplication in GF(2)[x] and Montgomery
    reduction modulo x^128 + x^127 + x^126 + x^121 + 1, a bit at a time *)

(** Exclusive or of [f 0 .. f (n-1)]. *)
Fixpoint xsum (n : nat) (f : Z -> bool) : bool :=
  match n with O => false | S n => xorb (xsum n f) (f (Z.of_nat n)) end.

(** The product of two polynomials of degree below [n]. *)
Fixpoint clmul (n : nat) (a b : Z) : Z :=
  match n with
  | O => 0
  | S n => Z.lxor (clmul n a b) (if Z.testbit a (Z.of_nat n) then Z.shiftl b (Z.of_nat n) else 0)
  end.

Definition gf_poly : Z := 2 ^ 128 + 2 ^ 127 + 2 ^ 126 + 2 ^ 121 + 1.

(** Division by x in the field. *)
Definition div_x (v : Z) : Z := Z.shiftr (if Z.odd v then Z.lxor v gf_poly else v) 1.

(** [dot(a, b) = a * b * x^-128] of RFC 8452. *)
Definition dot (a b : Z) : Z := Nat.iter 128 div_x (clmul 128 a b).

(** The hash of RFC 8452 on 16-byte blocks given as integers. *)
Definition polyval_ref (h : Z) (blocks : list Z) : Z := foldl (fun s x => dot (Z.lxor s x) h) 0 blocks.

(** ** Bits *)

Lemma of_bits_spec n f i :
  Z.testbit (of_bits n f) i = (0 <=? i) && (i <? Z.of_nat n) && f i.
Proof.
  destruct (Z.leb_spec 0 i) as [Hi|Hi]; [|by rewrite Z.testbit_neg_r by lia]. simpl.
  induction n as [|n IH]; simpl of_bits.
  - rewrite Z.bits_0. destruct (Z.ltb_spec i (Z.of_nat 0)); [lia | done].
  - rewrite Z.lxor_spec, IH.
    assert (Z.testbit (if f (Z.of_nat n) then 2 ^ Z.of_nat n else 0) i = (i =? Z.of_nat n) && f i) as ->.
    { destruct (Z.eqb_spec i (Z.of_nat n)) as [->|Hne].
      - destruct (f (Z.of_nat n)); [by rewrite Z.pow2_bits_true by lia | apply Z.bits_0].
      - destruct (f (Z.of_nat n)); [by rewrite Z.pow2_bits_false by lia | apply Z.bits_0]. }
    destruct (Z.ltb_spec i (Z.of_nat n)), (Z.eqb_spec i (Z.of_nat n)), (Z.ltb_spec i (Z.of_nat (S n)));
      try lia; by destruct (f i).
Qed.

Lemma testbit_add_high lo d k m :
  0 <= k -> 0 <= lo < 2 ^ k -> 0 <= m ->
  Z.testbit (lo + d * 2 ^ k) m = if m <? k then Z.testbit lo m else Z.testbit d (m - k).
Proof.
  intros Hk Hlo Hm. destruct (Z.ltb_spec m k).
  - rewrite <- (Z.mod_pow2_bits_low _ k) by done. by rewrite Z.mod_add, Z.mod_small by lia.
  - replace m with (m - k + k) at 1 by lia. rewrite <- Z.div_pow2_bits by lia.
    by rewrite Z.div_add, Z.div_small by lia.
Qed.

Lemma xsum_S n f : xsum (S n) f = xorb (xsum n f) (f (Z.of_nat n)).
Proof. done. Qed.

Lemma xsum_ext n f g : (forall i, 0 <= i < Z.of_nat n -> f i = g i) -> xsum n f = xsum n g.
Proof.
  induction n as [|n IH]; intros H; [done|]. simpl. rewrite IH by (intros; apply H; lia).
  by rewrite H by lia.
Qed.

Lemma xsum_xor n f g : xsum n (fun i => xorb (f i) (g i)) = xorb (xsum n f) (xsum n g).
Proof. induction n as [|n IH]; [done|]. simpl. rewrite IH. by destruct (xsum n f), (xsum n g), (f _), (g _). Qed.

Lemma xsum_four n f :
  xsum (4 * n) f =
  xorb (xorb (xorb (xsum n (fun i => f (4 * i))) (xsum n (fun i => f (4 * i + 1))))
    (xsum n (fun i => f (4 * i + 2)))) (xsum n (fun i => f (4 * i + 3))).
Proof.
  rewrite <- !xsum_xor. induction n as [|n IH]; [done|].
  replace (4 * S n)%nat with (S (S (S (S (4 * n))))) by lia. rewrite !xsum_S, IH.
  replace (Z.of_nat (4 * n)) with (4 * Z.of_nat n) by lia.
  replace (Z.of_nat (S (4 * n))) with (4 * Z.of_nat n + 1) by lia.
  replace (Z.of_nat (S (S (4 * n)))) with (4 * Z.of_nat n + 2) by lia.
  replace (Z.of_nat (S (S (S (4 * n))))) with (4 * Z.of_nat n + 3) by lia.
  destruct (xsum n _), (f (4 * _)), (f (_ + 1)), (f (_ + 2)), (f (_ + 3)); done.
Qed.

(** ** Sums of base-16 digits *)

Fixpoint csum (n : nat) (f : Z -> Z) : Z :=
  match n with O => 0 | S n => csum n f + f (Z.of_nat n) end.

Definition dsum (n : nat) (f : Z -> Z) : Z := csum n (fun i => f i * 16 ^ i).

Lemma csum_ext n f g : (forall i, 0 <= i < Z.of_nat n -> f i = g i) -> csum n f = csum n g.
Proof.
  induction n as [|n IH]; intros H; [done|]. simpl. rewrite IH by (intros; apply H; lia).
  by rewrite H by lia.
Qed.

Lemma csum_add n f g : csum n (fun i => f i + g i) = csum n f + csum n g.
Proof. induction n as [|n IH]; [done|]. simpl. rewrite IH. lia. Qed.

Lemma csum_scale n c f : csum n (fun i => c * f i) = c * csum n f.
Proof. induction n as [|n IH]; simpl; [lia|]. rewrite IH. lia. Qed.

Lemma csum_swap n m (f : Z -> Z -> Z) :
  csum n (fun i => csum m (fun j => f i j)) = csum m (fun j => csum n (fun i => f i j)).
Proof.
  induction n as [|n IH]; simpl.
  - induction m as [|m IHm]; [done|]. simpl. lia.
  - by rewrite IH, csum_add.
Qed.

Lemma csum_odd n f : Z.odd (csum n (fun i => Z.b2z (f i))) = xsum n f.
Proof. induction n as [|n IH]; [done|]. simpl. rewrite Z.odd_add, IH. by destruct (f _). Qed.

Lemma dsum_bound n f :
  (forall i, 0 <= i < Z.of_nat n -> 0 <= f i < 16) -> 0 <= dsum n f < 2 ^ (4 * Z.of_nat n).
Proof.
  unfold dsum. induction n as [|n IH]; intros H; [done|]. simpl csum.
  destruct IH as [IH1 IH2]; [intros; apply H; lia|]. specialize (H (Z.of_nat n) ltac:(lia)).
  replace (4 * Z.of_nat (S n)) with (4 * Z.of_nat n + 4) by lia. rewrite Z.pow_add_r by lia.
  change 16 with (2 ^ 4) in *. rewrite <- Z.pow_mul_r by lia. change (2 ^ 4) with 16 in *. nia.
Qed.

Lemma pow16 i : 0 <= i -> 16 ^ i = 2 ^ (4 * i).
Proof. intros. rewrite Z.pow_mul_r by lia. done. Qed.

Lemma dsum_bits n f k r :
  (forall i, 0 <= i < Z.of_nat n -> 0 <= f i < 16) -> 0 <= k -> 0 <= r < 4 ->
  Z.testbit (dsum n f) (4 * k + r) = (k <? Z.of_nat n) && Z.testbit (f k) r.
Proof.
  intros H Hk Hr. induction n as [|n IH].
  - unfold dsum; simpl csum. rewrite Z.bits_0. by destruct (Z.ltb_spec k (Z.of_nat 0)); [lia|].
  - assert (dsum (S n) f = dsum n f + f (Z.of_nat n) * 2 ^ (4 * Z.of_nat n)) as ->
      by (unfold dsum; simpl; by rewrite pow16 by lia).
    rewrite testbit_add_high; [|lia|apply dsum_bound; intros; apply H; lia|lia].
    rewrite IH by (intros; apply H; lia).
    destruct (Z.ltb_spec (4 * k + r) (4 * Z.of_nat n)), (Z.ltb_spec k (Z.of_nat n)), (Z.ltb_spec k (Z.of_nat (S n)));
      try lia; simpl; try done.
    + assert (k = Z.of_nat n) as -> by lia. f_equal. lia.
    + rewrite Z.bits_above_log2; [done|apply H; lia|].
      destruct (H (Z.of_nat n) ltac:(lia)). destruct (decide (f (Z.of_nat n) = 0)) as [->|]; [simpl; lia|].
      apply Z.log2_lt_pow2; [lia|]. apply Z.lt_le_trans with (2 ^ 4); [done|]. apply Z.pow_le_mono_r; lia.
Qed.

(** The mask with bits [a], [a+4], ... picks a digit sum. *)
Definition digit (x a i : Z) : Z := Z.b2z (Z.testbit x (4 * i + a)).

Lemma mask_digits x a :
  0 <= a < 4 -> Z.land x (0x1111111111111111 * 2 ^ a) = dsum 16 (digit x a) * 2 ^ a.
Proof.
  intros Ha. apply Z.bits_inj'. intros m Hm. rewrite Z.land_spec, !Z.mul_pow2_bits by lia.
  destruct (Z.ltb_spec m a); [rewrite !(Z.testbit_neg_r _ (m - a)) by lia; by rewrite andb_false_r|].
  change 0x1111111111111111 with (dsum 16 (fun _ => 1)).
  pose proof (Z.div_mod (m - a) 4 ltac:(lia)) as Hdm. pose proof (Z.mod_pos_bound (m - a) 4 ltac:(lia)) as Hr.
  assert (0 <= (m - a) / 4) as Hk by (apply Z.div_pos; lia).
  set (k := (m - a) / 4) in *. set (r := (m - a) mod 4) in *. rewrite Hdm.
  rewrite !dsum_bits by (try lia; intros; unfold digit; destruct (Z.testbit _ _); simpl; lia).
  destruct (Z.ltb_spec k (Z.of_nat 16)); [|by rewrite !andb_false_l, andb_false_r]. simpl.
  unfold digit. destruct (decide (r = 0)) as [->|Hne].
  - replace (4 * k + a) with m by lia. rewrite andb_true_r. by destruct (Z.testbit x m).
  - rewrite (Z.bits_above_log2 1), (Z.bits_above_log2 (Z.b2z _)); try (destruct (Z.testbit _ _)); simpl; try lia.
    all: by rewrite andb_false_r.
Qed.

(** ** Products of digit sums *)

Lemma csum_zero n f : (forall i, 0 <= i < Z.of_nat n -> f i = 0) -> csum n f = 0.
Proof. induction n as [|n IH]; intros H; [done|]. simpl. rewrite IH, H; [done|lia|intros; apply H; lia]. Qed.

Lemma csum_split n m f : csum (n + m) f = csum n f + csum m (fun i => f (Z.of_nat n + i)).
Proof.
  induction m as [|m IH]; [rewrite Nat.add_0_r; simpl; lia|].
  rewrite Nat.add_succ_r. simpl. rewrite IH, Nat2Z.inj_add. lia.
Qed.

Lemma dsum_shift n (i : nat) g :
  (forall j, j < 0 -> g j = 0) -> dsum (i + n) (fun k => g (k - Z.of_nat i)) = 16 ^ Z.of_nat i * dsum n g.
Proof.
  intros Hg. unfold dsum. rewrite csum_split, csum_zero by (intros j ?; rewrite Hg by lia; lia).
  rewrite <- csum_scale. apply csum_ext. intros j Hj. rewrite Z.pow_add_r by lia.
  replace (Z.of_nat i + j - Z.of_nat i) with j by lia. lia.
Qed.

Lemma dsum_extend n m g : (forall j, Z.of_nat n <= j -> g j = 0) -> dsum (n + m) g = dsum n g.
Proof.
  intros Hg. unfold dsum. rewrite csum_split, (csum_zero m); [lia|]. intros j Hj. rewrite Hg by lia. lia.
Qed.

(** Both factors have [N] digits; the product is the convolution. *)
Definition bounded (N : nat) (f : Z -> Z) : Prop := forall j, j < 0 \/ Z.of_nat N <= j -> f j = 0.
Definition conv (N : nat) (f g : Z -> Z) (k : Z) : Z := csum N (fun i => f i * g (k - i)).

Lemma dsum_shifted N i g :
  bounded N g -> 0 <= i < Z.of_nat N ->
  16 ^ i * dsum N g = csum (N + N) (fun k => g (k - i) * 16 ^ k).
Proof.
  intros Hg Hi. rewrite <- (Z2Nat.id i) by lia. set (n := Z.to_nat i).
  assert (n < N)%nat as Hn by lia. clearbody n. clear Hi i.
  rewrite <- (dsum_shift N n) by (intros; apply Hg; lia).
  replace (N + N)%nat with ((n + N) + (N - n))%nat by lia.
  symmetry. apply (dsum_extend (n + N) (N - n) (fun k => g (k - Z.of_nat n))). intros j Hj. apply Hg. lia.
Qed.

Lemma dsum_mul N f g : bounded N g -> dsum N f * dsum N g = dsum (N + N) (conv N f g).
Proof.
  intros Hg. unfold dsum at 1. rewrite Z.mul_comm, <- csum_scale.
  rewrite (csum_ext N _ (fun i => csum (N + N) (fun k => f i * (g (k - i) * 16 ^ k)))).
  - rewrite csum_swap. unfold dsum. apply csum_ext. intros k Hk. unfold conv.
    rewrite Z.mul_comm, <- csum_scale. apply csum_ext. intros i Hi. lia.
  - intros i Hi. rewrite csum_scale, <- (dsum_shifted N i g) by done. lia.
Qed.

Lemma conv_bound f g k :
  (forall i, 0 <= f i <= 1) -> (forall i, 0 <= g i <= 1) -> (forall j, j < 0 -> g j = 0) -> 0 <= k ->
  0 <= conv 16 f g k <= k + 1.
Proof.
  intros Hf Hg Hn Hk. unfold conv.
  assert (forall n, 0 <= csum n (fun i => f i * g (k - i)) <= Z.min (Z.of_nat n) (k + 1)) as H; [|specialize (H 16%nat); lia].
  induction n as [|n IH]; simpl csum; [lia|].
  specialize (Hf (Z.of_nat n)). specialize (Hg (k - Z.of_nat n)).
  destruct (Z.ltb_spec k (Z.of_nat n)); [rewrite Hn by lia; lia | nia].
Qed.

Lemma product_bit f g k :
  bounded 16 g -> (forall i, 0 <= f i <= 1) -> (forall i, 0 <= g i <= 1) -> 0 <= k < 16 ->
  Z.testbit (dsum 16 f * dsum 16 g) (4 * k) = Z.odd (conv 16 f g k).
Proof.
  intros Bg Hf Hg Hk. rewrite dsum_mul by done.
  assert (forall j, 0 <= j -> 0 <= conv 16 f g j <= j + 1) as Hc by (intros; apply conv_bound; auto).
  revert Hc. generalize (conv 16 f g). intros c Hc.
  assert (exists q, dsum (16 + 16) c = dsum 15 c + (c 15 + 16 * q) * 2 ^ 60) as [q ->].
  { exists (csum 16 (fun i => c (16 + i) * 16 ^ i)). unfold dsum.
    rewrite csum_split. rewrite (csum_split 15 1).
    rewrite (csum_ext 16 (fun i => c (Z.of_nat 16 + i) * _) (fun i => 16 ^ 16 * (c (16 + i) * 16 ^ i))).
    - rewrite csum_scale. generalize (csum 16 (fun i => c (16 + i) * 16 ^ i)) (csum 15 (fun i => c i * 16 ^ i)).
      intros. cbn [csum]. change (Z.of_nat 15 + Z.of_nat 0) with 15. change (16 ^ 15) with (2 ^ 60).
      change (16 ^ 16) with (16 * 2 ^ 60). lia.
    - intros i Hi. change (Z.of_nat 16) with 16. rewrite Z.pow_add_r by lia. lia. }
  rewrite testbit_add_high; [|lia| |lia].
  2:{ apply (dsum_bound 15). intros i Hi. specialize (Hc i ltac:(lia)). lia. }
  destruct (Z.ltb_spec (4 * k) 60).
  - replace (4 * k) with (4 * k + 0) by lia.
    rewrite dsum_bits by (try lia; intros i Hi; specialize (Hc i ltac:(lia)); lia).
    rewrite Z.bit0_odd. by destruct (Z.ltb_spec k (Z.of_nat 15)); [|lia].
  - assert (k = 15) as -> by lia. rewrite Z.bit0_odd, Z.odd_add, Z.odd_mul.
    simpl (Z.odd 16). by rewrite andb_false_l, xorb_false_r.
Qed.

(** ** [bmul64] is the low half of the carry-less product *)

Lemma digit_bounded x a : is_u 64 x -> 0 <= a < 4 -> bounded 16 (digit x a).
Proof.
  intros Hx Ha j Hj. unfold digit. destruct Hj; [by rewrite Z.testbit_neg_r by lia|].
  destruct (decide (x = 0)) as [->|]; [by rewrite Z.bits_0|]. unfold is_u in Hx.
  rewrite Z.bits_above_log2; [done|lia|]. apply Z.log2_lt_pow2; [lia|].
  apply Z.lt_le_trans with (2 ^ 64); [lia|]. apply Z.pow_le_mono_r; lia.
Qed.

Lemma digit_bit x a i : 0 <= digit x a i <= 1.
Proof. unfold digit. destruct (Z.testbit _ _); simpl; lia. Qed.

(** One of the sixteen products, at a bit of the residue class it is masked to. *)
Lemma part_bit x y a b k r :
  is_u 64 x -> is_u 64 y -> 0 <= a < 4 -> 0 <= b < 4 -> 0 <= k < 16 -> 0 <= r < 4 -> (a + b = r \/ a + b = r + 4) ->
  Z.testbit (u64 (Z.land x (0x1111111111111111 * 2 ^ a) * Z.land y (0x1111111111111111 * 2 ^ b))) (4 * k + r) =
  xsum 16 (fun i => Z.testbit x (4 * i + a) && Z.testbit y (4 * k + r - (4 * i + a))).
Proof.
  intros Hx Hy Ha Hb Hk Hr Hab. rewrite !mask_digits by done.
  unfold u64. rewrite Z.mod_pow2_bits_low by lia.
  replace (dsum 16 (digit x a) * 2 ^ a * (dsum 16 (digit y b) * 2 ^ b))
    with (dsum 16 (digit x a) * dsum 16 (digit y b) * 2 ^ (a + b)) by (rewrite Z.pow_add_r by lia; lia).
  rewrite Z.mul_pow2_bits by lia.
  set (k' := k - if a + b <? 4 then 0 else 1).
  assert (4 * k + r - (a + b) = 4 * k') as -> by (subst k'; destruct (Z.ltb_spec (a + b) 4); lia).
  assert (xsum 16 (fun i => Z.testbit x (4 * i + a) && Z.testbit y (4 * k + r - (4 * i + a))) =
          Z.odd (conv 16 (digit x a) (digit y b) k')) as ->.
  { unfold conv. rewrite <- csum_odd. f_equal. apply csum_ext. intros i Hi. unfold digit.
    replace (4 * k + r - (4 * i + a)) with (4 * (k' - i) + b) by (subst k'; destruct (Z.ltb_spec (a + b) 4); lia).
    by destruct (Z.testbit x _), (Z.testbit y _). }
  destruct (Z.leb_spec 0 k').
  - apply product_bit; try (by apply digit_bounded); try apply digit_bit. subst k'. case_if; lia.
  - rewrite Z.testbit_neg_r by lia. symmetry. unfold conv. rewrite csum_zero; [done|].
    intros i Hi. rewrite (digit_bounded y b Hy Hb (k' - i)); [lia | left; lia].
Qed.

Lemma bmul64_bit x y n :
  is_u 64 x -> is_u 64 y -> 0 <= n < 64 ->
  Z.testbit (bmul64 x y) n = xsum 64 (fun i => Z.testbit x i && Z.testbit y (n - i)).
Proof.
  intros Hx Hy Hn. change 64%nat with (4 * 16)%nat. rewrite xsum_four.
  pose proof (Z.div_mod n 4 ltac:(lia)) as Hdm. pose proof (Z.mod_pos_bound n 4 ltac:(lia)) as Hr.
  assert (0 <= n / 4 < 16) as Hk by (split; [apply Z.div_pos; lia | apply Z.div_lt_upper_bound; lia]).
  set (k := n / 4) in *. set (r := n mod 4) in *. rewrite Hdm. clearbody k r. clear Hdm Hn n.
  assert (forall a, 0 <= a < 4 -> forall b, 0 <= b < 4 -> (a + b = r \/ a + b = r + 4) -> _) as Hpart
    by (intros a Ha b Hb Hab; exact (part_bit x y a b k r Hx Hy Ha Hb Hk Hr Hab)).
  assert (forall c m, Z.testbit (Z.land c m) (4 * k + r) = Z.testbit c (4 * k + r) && Z.testbit m (4 * k + r)) as Hl
    by (intros; apply Z.land_spec).
  assert (forall a, 0 <= a < 4 -> Z.testbit (0x1111111111111111 * 2 ^ a) (4 * k + r) = (a =? r)) as Hm.
  { intros a Ha. change 0x1111111111111111 with (dsum 16 (fun _ => 1)). rewrite Z.mul_pow2_bits by lia.
    destruct (Z.leb_spec a r).
    - replace (4 * k + r - a) with (4 * k + (r - a)) by lia. rewrite dsum_bits by (intros; lia).
      destruct (Z.ltb_spec k (Z.of_nat 16)); [|lia]. simpl.
      destruct (Z.eqb_spec a r); [by subst; rewrite Z.sub_diag|].
      rewrite Z.bits_above_log2; simpl; try done; lia.
    - destruct (Z.eqb_spec a r); [lia|].
      destruct (decide (k = 0)) as [->|]; [by rewrite Z.testbit_neg_r by lia|].
      replace (4 * k + r - a) with (4 * (k - 1) + (4 + r - a)) by lia. rewrite dsum_bits by (intros; lia).
      rewrite (Z.bits_above_log2 1) by (simpl; lia). by rewrite andb_false_r. }
  pose proof (Hm 0 ltac:(lia)) as M0. pose proof (Hm 1 ltac:(lia)) as M1.
  pose proof (Hm 2 ltac:(lia)) as M2. pose proof (Hm 3 ltac:(lia)) as M3.
  unfold bmul64.
  change 0x2222222222222222 with (0x1111111111111111 * 2 ^ 1).
  change 0x4444444444444444 with (0x1111111111111111 * 2 ^ 2).
  change 0x8888888888888888 with (0x1111111111111111 * 2 ^ 3).
  change (Z.land x 0x1111111111111111) with (Z.land x (0x1111111111111111 * 2 ^ 0)).
  change (Z.land y 0x1111111111111111) with (Z.land y (0x1111111111111111 * 2 ^ 0)).
  change (Z.testbit 0x1111111111111111 (4 * k + r) = (0 =? r)) in M0.
  rewrite !Z.lor_spec, !Hl, M0, M1, M2, M3, !Z.lxor_spec.
  assert (forall i, 4 * i = 4 * i + 0) as Hz by lia.
  rewrite (xsum_ext 16 (fun i => Z.testbit x (4 * i) && _)
    (fun i => Z.testbit x (4 * i + 0) && Z.testbit y (4 * k + r - (4 * i + 0)))) by (intros; by rewrite <- Hz).
  assert (r = 0 \/ r = 1 \/ r = 2 \/ r = 3) as [-> | [-> | [-> | ->]]] by lia;
    cbn [Z.eqb Pos.eqb]; rewrite ?andb_false_r, ?andb_true_r, ?orb_false_r, ?orb_false_l.
  - by rewrite (Hpart 0 ltac:(lia) 0), (Hpart 1 ltac:(lia) 3), (Hpart 2 ltac:(lia) 2), (Hpart 3 ltac:(lia) 1) by lia.
  - by rewrite (Hpart 0 ltac:(lia) 1), (Hpart 1 ltac:(lia) 0), (Hpart 2 ltac:(lia) 3), (Hpart 3 ltac:(lia) 2) by lia.
  - by rewrite (Hpart 0 ltac:(lia) 2), (Hpart 1 ltac:(lia) 1), (Hpart 2 ltac:(lia) 0), (Hpart 3 ltac:(lia) 3) by lia.
  - by rewrite (Hpart 0 ltac:(lia) 3), (Hpart 1 ltac:(lia) 2), (Hpart 2 ltac:(lia) 1), (Hpart 3 ltac:(lia) 0) by lia.
Qed.

(** ** Carry-less products *)

Lemma clmul_bit n a b m :
  0 <= m -> Z.testbit (clmul n a b) m = xsum n (fun i => Z.testbit a i && Z.testbit b (m - i)).
Proof.
  intros Hm. induction n as [|n IH]; simpl clmul; [apply Z.bits_0|]. rewrite Z.lxor_spec, IH, xsum_S. f_equal.
  destruct (Z.testbit a _); [by rewrite Z.shiftl_spec by done | apply Z.bits_0].
Qed.

Lemma testbit_high w x i : is_u w x -> 0 <= w <= i -> Z.testbit x i = false.
Proof.
  intros Hx Hi. unfold is_u in Hx. destruct (decide (x = 0)) as [->|]; [apply Z.bits_0|].
  apply Z.bits_above_log2; [lia|]. apply Z.log2_lt_pow2; [lia|].
  apply Z.lt_le_trans with (2 ^ w); [lia|]. apply Z.pow_le_mono_r; lia.
Qed.

Lemma is_u_bits w x : 0 <= w -> 0 <= x -> (forall i, w <= i -> Z.testbit x i = false) -> is_u w x.
Proof.
  intros Hw Hx Hi. split; [done|]. destruct (decide (x = 0)) as [->|]; [lia|].
  apply Z.log2_lt_pow2; [lia|]. destruct (Z.lt_ge_cases (Z.log2 x) w) as [|Hge]; [done|].
  specialize (Hi _ Hge). rewrite Z.bit_log2 in Hi by lia. done.
Qed.

Lemma is_u_lxor w a b : 0 <= w -> is_u w a -> is_u w b -> is_u w (Z.lxor a b).
Proof.
  intros Hw Ha Hb. apply is_u_bits; [done|apply Z.lxor_nonneg; unfold is_u in *; lia|].
  intros i Hi. rewrite Z.lxor_spec, (testbit_high w a), (testbit_high w b) by (done || lia). done.
Qed.

Lemma bmul64_range x y : is_u 64 (bmul64 x y).
Proof.
  apply is_u_bits; [lia| |].
  - unfold bmul64. rewrite !Z.lor_nonneg. repeat split; apply Z.land_nonneg; right; lia.
  - intros i Hi. unfold bmul64. rewrite !Z.lor_spec, !Z.land_spec.
    rewrite !(testbit_high 64 (Zpos _) i) by (split; lia || done). by rewrite !andb_false_r.
Qed.

Lemma Reverse64_bit x i : 0 <= i < 64 -> Z.testbit (Reverse64 x) i = Z.testbit x (63 - i).
Proof.
  intros Hi. unfold Reverse64. rewrite of_bits_spec.
  by destruct (Z.leb_spec 0 i), (Z.ltb_spec i (Z.of_nat 64)); try lia.
Qed.

Lemma of_bits_nonneg n f : 0 <= of_bits n f.
Proof.
  induction n as [|n IH]; simpl; [lia|]. apply Z.lxor_nonneg. split; [|done].
  intros _. destruct (f _); [apply Z.pow_nonneg|]; lia.
Qed.

Lemma Reverse64_range x : is_u 64 (Reverse64 x).
Proof.
  apply is_u_bits; [lia|apply of_bits_nonneg|]. intros i Hi. unfold Reverse64. rewrite of_bits_spec.
  destruct (Z.ltb_spec i (Z.of_nat 64)); [lia|]. by rewrite andb_false_r.
Qed.

Lemma bits_64 a b : is_u 64 a -> is_u 64 b -> (forall i, 0 <= i < 64 -> Z.testbit a i = Z.testbit b i) -> a = b.
Proof.
  intros Ha Hb H. apply Z.bits_inj'. intros i Hi. destruct (Z.lt_ge_cases i 64); [by apply H|].
  by rewrite (testbit_high 64 a), (testbit_high 64 b) by (done || lia).
Qed.

Lemma Reverse64_lxor a b : Reverse64 (Z.lxor a b) = Z.lxor (Reverse64 a) (Reverse64 b).
Proof.
  apply bits_64; [apply Reverse64_range|apply is_u_lxor; [lia|apply Reverse64_range..]|].
  intros i Hi. by rewrite Z.lxor_spec, !Reverse64_bit, Z.lxor_spec by lia.
Qed.

Lemma xsum_front n f : xsum (S n) f = xorb (f 0) (xsum n (fun i => f (i + 1))).
Proof.
  induction n as [|n IH]; [change (xorb false (f 0) = xorb (f 0) false); by destruct (f 0)|]. rewrite xsum_S, IH, xsum_S.
  replace (Z.of_nat (S n)) with (Z.of_nat n + 1) by lia. by rewrite xorb_assoc.
Qed.

Lemma xsum_reverse n f : xsum n f = xsum n (fun i => f (Z.of_nat n - 1 - i)).
Proof.
  revert f. induction n as [|n IH]; intros f; [done|]. rewrite xsum_S, xsum_front, xorb_comm.
  rewrite (IH f). f_equal; [f_equal; lia|]. apply xsum_ext. intros i Hi. f_equal. lia.
Qed.

(** The high half, by multiplying the reversed factors. *)
Definition bmul_high (z : Z) : Z := Z.shiftr (Reverse64 z) 1.

Lemma bmul_high_eq z : Z.shiftr (Reverse64 z) 1 = bmul_high z.
Proof. unfold bmul_high. reflexivity. Qed.

Lemma bmul_high_range z : is_u 64 (bmul_high z).
Proof.
  unfold bmul_high. pose proof (Reverse64_range z) as H. unfold is_u in *.
  rewrite Z.shiftr_div_pow2 by lia. split; [apply Z.div_pos; lia|].
  apply Z.div_lt_upper_bound; lia.
Qed.

Lemma bmul_high_lxor a b : bmul_high (Z.lxor a b) = Z.lxor (bmul_high a) (bmul_high b).
Proof. unfold bmul_high. by rewrite Reverse64_lxor, Z.shiftr_lxor. Qed.

Lemma clmul_halves x y :
  is_u 64 x -> is_u 64 y ->
  clmul 64 x y =
    Z.lxor (bmul64 x y) (Z.shiftl (bmul_high (bmul64 (Reverse64 x) (Reverse64 y))) 64).
Proof.
  intros Hx Hy. apply Z.bits_inj'. intros n Hn. rewrite clmul_bit, Z.lxor_spec, Z.shiftl_spec by done.
  destruct (Z.lt_ge_cases n 64) as [H|H].
  - rewrite bmul64_bit by done. rewrite (Z.testbit_neg_r _ (n - 64)) by lia. by rewrite xorb_false_r.
  - rewrite (testbit_high 64 (bmul64 x y)) by (apply bmul64_range || lia). rewrite xorb_false_l.
    unfold bmul_high. rewrite Z.shiftr_spec by lia. destruct (Z.lt_ge_cases n 127).
    + rewrite Reverse64_bit, bmul64_bit by (apply Reverse64_range || lia).
      rewrite xsum_reverse. apply xsum_ext. intros i Hi.
      rewrite Reverse64_bit by lia. f_equal.
      destruct (Z.lt_ge_cases (63 - (n - 64 + 1) - i) 0).
      * rewrite (Z.testbit_neg_r (Reverse64 y)) by lia. apply (testbit_high 64); [done|lia].
      * rewrite Reverse64_bit by lia. f_equal. lia.
    + rewrite (testbit_high 64 (Reverse64 _)) by (apply Reverse64_range || lia).
      rewrite (xsum_ext 64 _ (fun _ => false)); [done|]. intros i Hi.
      rewrite (testbit_high 64 y) by (done || lia). by rewrite andb_false_r.
Qed.

(** ** Bilinearity *)

Lemma clmul_lxor_r n a b c : clmul n a (Z.lxor b c) = Z.lxor (clmul n a b) (clmul n a c).
Proof.
  apply Z.bits_inj'. intros m Hm. rewrite Z.lxor_spec, !clmul_bit, <- xsum_xor by done.
  apply xsum_ext. intros i Hi. rewrite Z.lxor_spec. by destruct (Z.testbit a i), (Z.testbit b _), (Z.testbit c _).
Qed.

Lemma clmul_lxor_l n a b c : clmul n (Z.lxor a b) c = Z.lxor (clmul n a c) (clmul n b c).
Proof.
  apply Z.bits_inj'. intros m Hm. rewrite Z.lxor_spec, !clmul_bit, <- xsum_xor by done.
  apply xsum_ext. intros i Hi. rewrite Z.lxor_spec. by destruct (Z.testbit a i), (Z.testbit b _), (Z.testbit c _).
Qed.

Lemma clmul_shift_r n a b k : 0 <= k -> clmul n a (Z.shiftl b k) = Z.shiftl (clmul n a b) k.
Proof.
  intros Hk. apply Z.bits_inj'. intros m Hm. rewrite Z.shiftl_spec, clmul_bit by done.
  destruct (Z.lt_ge_cases m k).
  - rewrite (Z.testbit_neg_r _ (m - k)) by lia. rewrite (xsum_ext n _ (fun _ => false)).
    + clear. induction n; [done|]. by rewrite xsum_S, IHn.
    + intros i Hi. destruct (Z.lt_ge_cases (m - i) 0); [rewrite (Z.testbit_neg_r _ (m - i)) by lia; by rewrite andb_false_r|].
      rewrite Z.shiftl_spec, (Z.testbit_neg_r b) by lia. by rewrite andb_false_r.
  - rewrite clmul_bit by lia. apply xsum_ext. intros i Hi. f_equal.
    destruct (Z.lt_ge_cases (m - i) 0); [by rewrite !Z.testbit_neg_r by lia|].
    rewrite Z.shiftl_spec by lia. f_equal. lia.
Qed.

Lemma xsum_false n f : (forall i, 0 <= i < Z.of_nat n -> f i = false) -> xsum n f = false.
Proof.
  induction n as [|n IH]; intros H; [done|]. rewrite xsum_S, IH, H; [done|lia|intros; apply H; lia].
Qed.

Lemma xsum_split n m f : xsum (n + m) f = xorb (xsum n f) (xsum m (fun i => f (Z.of_nat n + i))).
Proof.
  induction m as [|m IH]; [rewrite Nat.add_0_r; simpl; by destruct (xsum n f)|].
  rewrite Nat.add_succ_r, !xsum_S, IH, Nat2Z.inj_add. by rewrite xorb_assoc.
Qed.

Lemma clmul_short n m a b : is_u (Z.of_nat n) a -> clmul (n + m) a b = clmul n a b.
Proof.
  intros Ha. apply Z.bits_inj'. intros k Hk. rewrite !clmul_bit, xsum_split by done.
  rewrite (xsum_false m), xorb_false_r; [done|]. intros i Hi. by rewrite (testbit_high _ a _ Ha) by lia.
Qed.

Lemma clmul_shift_l n m a b :
  clmul (n + m) (Z.shiftl a (Z.of_nat n)) b = Z.shiftl (clmul m a b) (Z.of_nat n).
Proof.
  apply Z.bits_inj'. intros k Hk. rewrite Z.shiftl_spec, clmul_bit, xsum_split by lia.
  rewrite (xsum_false n), xorb_false_l by (intros; rewrite Z.shiftl_spec, Z.testbit_neg_r by lia; done).
  destruct (Z.lt_ge_cases k (Z.of_nat n)).
  - rewrite (Z.testbit_neg_r _ (k - _)) by lia. apply xsum_false. intros i Hi.
    rewrite (Z.testbit_neg_r b) by lia. by rewrite andb_false_r.
  - rewrite clmul_bit by lia. apply xsum_ext. intros i Hi. rewrite Z.shiftl_spec by lia.
    f_equal; f_equal; lia.
Qed.

(** ** The four words of the product *)

Definition pack2 (lo hi : Z) : Z := Z.lxor lo (Z.shiftl hi 64).
Definition pack4 (v0 v1 v2 v3 : Z) : Z :=
  Z.lxor (Z.lxor (Z.lxor v0 (Z.shiftl v1 64)) (Z.shiftl v2 128)) (Z.shiftl v3 192).

Ltac xor_bits :=
  apply Z.bits_inj'; intros ?k ?Hk; rewrite ?Z.lxor_spec;
  repeat match goal with |- context [Z.testbit ?a k] => generalize (Z.testbit a k); intros ? end; btauto.

Lemma clmul_words y0 y1 h0 h1 :
  is_u 64 y0 -> is_u 64 y1 ->
  clmul 128 (pack2 y0 y1) (pack2 h0 h1) =
  Z.lxor (Z.lxor (clmul 64 y0 h0) (Z.shiftl (Z.lxor (clmul 64 y0 h1) (clmul 64 y1 h0)) 64))
    (Z.shiftl (clmul 64 y1 h1) 128).
Proof.
  intros H0 H1. unfold pack2. change 128%nat with (64 + 64)%nat. rewrite clmul_lxor_l.
  rewrite (clmul_short 64 64 y0) by done. change (Z.shiftl y1 64) with (Z.shiftl y1 (Z.of_nat 64)).
  rewrite (clmul_shift_l 64 64 y1). change (Z.of_nat 64) with 64.
  rewrite !clmul_lxor_r, !clmul_shift_r, !Z.shiftl_lxor, Z.shiftl_shiftl by lia.
  change (64 + 64) with 128. xor_bits.
Qed.

(** The products of [polyvalMul64] are the words of the carry-less product. *)
Lemma karatsuba y0 y1 h0 h1 :
  is_u 64 y0 -> is_u 64 y1 -> is_u 64 h0 -> is_u 64 h1 ->
  let lo a b := bmul64 a b in
  let hi a b := bmul64 (Reverse64 a) (Reverse64 b) in
  clmul 128 (pack2 y0 y1) (pack2 h0 h1) =
  pack4 (lo y0 h0)
    (Z.lxor (bmul_high (hi y0 h0)) (Z.lxor (lo (Z.lxor y0 y1) (Z.lxor h0 h1)) (Z.lxor (lo y0 h0) (lo y1 h1))))
    (Z.lxor (lo y1 h1)
       (bmul_high (Z.lxor (hi (Z.lxor y0 y1) (Z.lxor h0 h1)) (Z.lxor (hi y0 h0) (hi y1 h1)))))
    (bmul_high (hi y1 h1)).
Proof.
  intros Hy0 Hy1 Hh0 Hh1 lo hi. subst lo hi. cbv beta. rewrite clmul_words by done.
  assert (Z.lxor (clmul 64 y0 h1) (clmul 64 y1 h0) =
    Z.lxor (clmul 64 (Z.lxor y0 y1) (Z.lxor h0 h1)) (Z.lxor (clmul 64 y0 h0) (clmul 64 y1 h1))) as ->.
  { rewrite clmul_lxor_l, !clmul_lxor_r. xor_bits. }
  rewrite !clmul_halves by (done || (apply is_u_lxor; done || lia)).
  unfold pack4. rewrite !bmul_high_lxor, !Z.shiftl_lxor, !Z.shiftl_shiftl by lia.
  change (64 + 64) with 128. change (64 + 128) with 192. change (128 + 64) with 192. xor_bits.
Qed.

(** ** The reduction *)

Definition linear (f : Z -> Z) : Prop := f 0 = 0 /\ forall a b, f (Z.lxor a b) = Z.lxor (f a) (f b).

(** Linear maps that agree on the powers of x agree. *)
Lemma linear_ext f g N :
  linear f -> linear g -> (forall i, 0 <= i < Z.of_nat N -> f (2 ^ i) = g (2 ^ i)) ->
  forall v, is_u (Z.of_nat N) v -> f v = g v.
Proof.
  intros [Hf0 Hf] [Hg0 Hg]. induction N as [|N IH]; intros Hb v Hv.
  - assert (v = 0) as -> by (unfold is_u in Hv; change (2 ^ Z.of_nat 0) with 1 in Hv; lia). congruence.
  - assert (v = Z.lxor (v mod 2 ^ Z.of_nat N) (if Z.testbit v (Z.of_nat N) then 2 ^ Z.of_nat N else 0)) as ->.
    { apply Z.bits_inj'. intros i Hi. rewrite Z.lxor_spec. destruct (Z.lt_ge_cases i (Z.of_nat N)).
      - rewrite Z.mod_pow2_bits_low by lia.
        destruct (Z.testbit v (Z.of_nat N)); rewrite ?Z.pow2_bits_false, ?Z.bits_0 by lia; by rewrite xorb_false_r.
      - rewrite Z.mod_pow2_bits_high by lia. destruct (Z.eq_dec i (Z.of_nat N)) as [->|].
        + destruct (Z.testbit v _); [by rewrite Z.pow2_bits_true by lia | by rewrite Z.bits_0].
        + rewrite (testbit_high _ _ _ Hv) by lia.
          destruct (Z.testbit v (Z.of_nat N)); by rewrite ?Z.pow2_bits_false, ?Z.bits_0 by lia. }
    rewrite Hf, Hg. f_equal.
    + apply IH; [intros; apply Hb; lia|]. apply Z.mod_pos_bound. lia.
    + destruct (Z.testbit _ _); [apply Hb; lia | congruence].
Qed.

Lemma linear_comp f g : linear f -> linear g -> linear (fun v => f (g v)).
Proof. intros [Hf0 Hf] [Hg0 Hg]. split; [by rewrite Hg0 | intros; by rewrite Hg, Hf]. Qed.

Lemma div_x_linear : linear div_x.
Proof.
  split; [done|]. intros a b. unfold div_x. rewrite <- Z.shiftr_lxor. f_equal.
  rewrite <- !Z.bit0_odd, Z.lxor_spec.
  destruct (Z.testbit a 0), (Z.testbit b 0); simpl xorb; cbv match; xor_bits.
Qed.

Lemma iter_linear f n : linear f -> linear (Nat.iter n f).
Proof.
  intros Hf. induction n as [|n IH]; [done|]. simpl. by apply (linear_comp f (Nat.iter n f)).
Qed.

Definition word64 (i v : Z) : Z := Z.land (Z.shiftr v (64 * i)) (Z.ones 64).

Definition reduce_packed (v : Z) : Z :=
  let '(lo, hi) := reduce (word64 0 v) (word64 1 v) (word64 2 v) (word64 3 v) in pack2 lo hi.

Lemma word64_lxor i a b : word64 i (Z.lxor a b) = Z.lxor (word64 i a) (word64 i b).
Proof.
  unfold word64. rewrite Z.shiftr_lxor. apply Z.bits_inj'. intros k Hk. rewrite !Z.land_spec, !Z.lxor_spec, !Z.land_spec.
  by destruct (Z.testbit (Z.shiftr a _) k), (Z.testbit (Z.shiftr b _) k), (Z.testbit (Z.ones 64) k).
Qed.

Lemma shl_lxor a b k : shl (Z.lxor a b) k = Z.lxor (shl a k) (shl b k).
Proof.
  unfold shl, u64. rewrite Z.shiftl_lxor, <- !Z.land_ones by lia.
  apply Z.bits_inj'. intros i Hi. rewrite !Z.land_spec, !Z.lxor_spec, !Z.land_spec.
  by destruct (Z.testbit (Z.shiftl a k) i), (Z.testbit (Z.shiftl b k) i), (Z.testbit (Z.ones 64) i).
Qed.

Lemma reduce_linear : linear reduce_packed.
Proof.
  split; [by vm_compute|]. intros a b. unfold reduce_packed, reduce, pack2. rewrite !word64_lxor.
  rewrite ?Z.shiftr_lxor, ?shl_lxor, ?Z.shiftr_lxor, ?shl_lxor, ?Z.shiftl_lxor. xor_bits.
Qed.

Lemma reduce_spec v : is_u 256 v -> reduce_packed v = Nat.iter 128 div_x v.
Proof.
  apply (linear_ext _ _ 256); [apply reduce_linear | apply iter_linear, div_x_linear|].
  assert (forallb (fun i => reduce_packed (2 ^ i) =? Nat.iter 128 div_x (2 ^ i)) (seqZ 0 256) = true) as H
    by (vm_compute; reflexivity).
  intros i Hi. rewrite forallb_forall in H. apply Z.eqb_eq, H. apply list_elem_of_In, elem_of_seqZ. lia.
Qed.

(** ** The hash *)

Lemma word64_pack4 v0 v1 v2 v3 :
  is_u 64 v0 -> is_u 64 v1 -> is_u 64 v2 -> is_u 64 v3 ->
  word64 0 (pack4 v0 v1 v2 v3) = v0 /\ word64 1 (pack4 v0 v1 v2 v3) = v1 /\
  word64 2 (pack4 v0 v1 v2 v3) = v2 /\ word64 3 (pack4 v0 v1 v2 v3) = v3.
Proof.
  intros H0 H1 H2 H3.
  assert (forall i j v, 0 <= i -> 0 <= j -> is_u 64 v ->
    word64 i (Z.shiftl v (64 * j)) = if i =? j then v else 0) as Hw.
  { intros i j v Hi Hj Hv. unfold word64. apply Z.bits_inj'. intros k Hk.
    rewrite Z.land_spec, Z.shiftr_spec, Z.shiftl_spec, Z.testbit_ones_nonneg by lia.
    destruct (Z.ltb_spec k 64).
    - rewrite andb_true_r. destruct (Z.eqb_spec i j) as [->|]; [f_equal; lia|]. rewrite Z.bits_0.
      destruct (Z.lt_ge_cases i j); [rewrite Z.testbit_neg_r; [done|lia]|]. apply (testbit_high 64); [done|lia].
    - rewrite andb_false_r. destruct (i =? j); [|by rewrite Z.bits_0].
      symmetry. apply (testbit_high 64); [done|lia]. }
  unfold pack4. rewrite !word64_lxor.
  pose proof (fun i Hi => Hw i 0 v0 Hi ltac:(lia) H0) as W0. change (64 * 0) with 0 in W0. rewrite Z.shiftl_0_r in W0.
  pose proof (fun i Hi => Hw i 1 v1 Hi ltac:(lia) H1) as W1. change (64 * 1) with 64 in W1.
  pose proof (fun i Hi => Hw i 2 v2 Hi ltac:(lia) H2) as W2. change (64 * 2) with 128 in W2.
  pose proof (fun i Hi => Hw i 3 v3 Hi ltac:(lia) H3) as W3. change (64 * 3) with 192 in W3.
  rewrite !W0, !W1, !W2, !W3 by lia. cbn [Z.eqb Pos.eqb]. rewrite ?Z.lxor_0_r, ?Z.lxor_0_l. done.
Qed.

Lemma pack2_add lo hi : is_u 64 lo -> pack2 lo hi = lo + hi * 2 ^ 64.
Proof.
  intros Hlo. unfold pack2. rewrite <- Z.add_nocarry_lxor.
  - by rewrite Z.shiftl_mul_pow2 by lia.
  - apply Z.bits_inj'. intros k Hk. rewrite Z.land_spec, Z.bits_0, Z.shiftl_spec by done.
    destruct (Z.lt_ge_cases k 64); [rewrite (Z.testbit_neg_r hi) by lia; apply andb_false_r|].
    by rewrite (testbit_high 64 lo) by (done || lia).
Qed.

Lemma pack4_range v0 v1 v2 v3 :
  is_u 64 v0 -> is_u 64 v1 -> is_u 64 v2 -> is_u 64 v3 -> is_u 256 (pack4 v0 v1 v2 v3).
Proof.
  intros H0 H1 H2 H3. unfold pack4.
  assert (forall v k, 0 <= k <= 192 -> is_u 64 v -> is_u 256 (Z.shiftl v k)) as Hs.
  { intros v k Hk Hv. unfold is_u in *. rewrite Z.shiftl_mul_pow2 by lia.
    assert (2 ^ 256 = 2 ^ 64 * 2 ^ 192) as -> by done. pose proof (Z.pow_le_mono_r 2 k 192 ltac:(lia) ltac:(lia)).
    pose proof (Z.pow_pos_nonneg 2 k ltac:(lia) ltac:(lia)). nia. }
  repeat apply is_u_lxor; try lia; try (apply Hs; done || lia).
  unfold is_u in *. pose proof (Z.pow_le_mono_r 2 64 256 ltac:(lia) ltac:(lia)). lia.
Qed.

Lemma shiftr_range v k : 0 <= k -> is_u 64 v -> is_u 64 (Z.shiftr v k).
Proof.
  intros Hk Hv. unfold is_u in *. rewrite Z.shiftr_div_pow2 by lia.
  pose proof (Z.pow_pos_nonneg 2 k ltac:(lia) ltac:(lia)). split; [apply Z.div_pos; lia|].
  apply Z.le_lt_trans with v; [apply Z.div_le_upper_bound; nia | lia].
Qed.

Ltac range64 :=
  repeat match goal with
  | H : is_u 64 ?v |- is_u 64 ?v => exact H
  | |- is_u 64 (bmul64 _ _) => apply bmul64_range
  | |- is_u 64 (bmul_high _) => apply bmul_high_range
  | |- is_u 64 (Reverse64 _) => apply Reverse64_range
  | |- is_u 64 (u64 _) => apply u64_range
  | |- is_u 64 (Z.lxor _ _) => apply is_u_lxor; [lia|..]
  | |- is_u 64 (Z.shiftr _ _) => apply shiftr_range; [lia|]
  end.

Lemma reduce_range v0 v1 v2 v3 :
  is_u 64 v0 -> is_u 64 v1 -> is_u 64 v2 -> is_u 64 v3 ->
  is_u 64 (reduce v0 v1 v2 v3).1 /\ is_u 64 (reduce v0 v1 v2 v3).2.
Proof. intros. unfold reduce, shl. cbn [fst snd]. split; range64. Qed.

Lemma polyvalMul64_dot y0 y1 h0 h1 :
  is_u 64 y0 -> is_u 64 y1 -> is_u 64 h0 -> is_u 64 h1 ->
  let r := polyvalMul64 y0 y1 h0 h1 in
  is_u 64 r.1 /\ is_u 64 r.2 /\ pack2 r.1 r.2 = dot (pack2 y0 y1) (pack2 h0 h1).
Proof.
  intros Hy0 Hy1 Hh0 Hh1 r. subst r. unfold polyvalMul64, dot. cbv zeta. rewrite karatsuba by done.
  rewrite <- !Reverse64_lxor, !bmul_high_eq.
  match goal with |- context [reduce ?a ?b ?c ?d] => set (v1 := b); set (v2 := c); set (v3 := d); set (v0 := a) end.
  assert (is_u 64 v0) as R0 by (subst v0; range64). assert (is_u 64 v1) as R1 by (subst v1; range64).
  assert (is_u 64 v2) as R2 by (subst v2; range64). assert (is_u 64 v3) as R3 by (subst v3; range64).
  destruct (reduce_range v0 v1 v2 v3 R0 R1 R2 R3) as [H1 H2]. split_and!; [done..|].
  rewrite <- (reduce_spec (pack4 v0 v1 v2 v3)) by (by apply pack4_range). unfold reduce_packed.
  destruct (word64_pack4 v0 v1 v2 v3 R0 R1 R2 R3) as (-> & -> & -> & ->).
  by destruct (reduce v0 v1 v2 v3).
Qed.

Lemma be_get_app l k : Forall is_byte l -> Forall is_byte k -> be_get (l ++ k) = be_get l * 2 ^ (8 * len k) + be_get k.
Proof.
  intros Hl Hk. induction l as [|b l IH]; [done|]. apply Forall_cons in Hl as [Hb Hl].
  cbn [app]. rewrite !be_get_cons, IH by auto with gotor. rewrite len_app, Z.mul_add_distr_l, Z.pow_add_r by (unfold len; lia).
  lia.
Qed.

Lemma le_get_range l n : Forall is_byte l -> length l = n -> is_u (8 * Z.of_nat n) (le_get l).
Proof.
  intros Hl <-. unfold le_get. pose proof (be_get_range (rev l)) as H. unfold len in H. rewrite length_rev in H.
  apply H. by apply Forall_rev.
Qed.

Lemma le_get_16 (a b : bytes) :
  Forall is_byte a -> Forall is_byte b -> length a = 8%nat -> le_get (a ++ b) = pack2 (le_get a) (le_get b).
Proof.
  intros Ha Hb Hl. rewrite pack2_add by (by apply (le_get_range a 8)). unfold le_get. rewrite rev_app_distr.
  rewrite be_get_app by (by apply Forall_rev). unfold len. rewrite length_rev, Hl. simpl (8 * _). lia.
Qed.

Lemma le_get_put v : is_u 64 v -> le_get (le_put 8 v) = v.
Proof. intros Hv. unfold le_get, le_put. rewrite rev_involutive. by apply be_get_put_id. Qed.

(** The input as 16-byte blocks, the last one padded with zeros. *)
Fixpoint blocks (fuel : nat) (data : bytes) : list bytes :=
  match fuel, data with
  | S fuel, _ :: _ => copy_at (zeros 16) 0 data :: blocks fuel (drop 16 data)
  | _, _ => []
  end.

Lemma block_split (data : bytes) :
  Forall is_byte data ->
  let blk := copy_at (zeros 16) 0 data in
  Forall is_byte (slice blk 0 8) /\ Forall is_byte (slice blk 8 16) /\ length (slice blk 0 8) = 8%nat /\
  length (slice blk 8 16) = 8%nat /\ blk = slice blk 0 8 ++ slice blk 8 16.
Proof.
  intros Hd blk. assert (length blk = 16)%nat as Hl by (subst blk; rewrite length_copy_at; [apply length_zeros | rewrite length_zeros; lia]).
  assert (Forall is_byte blk) as Hb.
  { subst blk. unfold copy_at. simpl take at 1. rewrite app_nil_l. apply Forall_app. auto with gotor. }
  unfold slice. split_and!; auto with gotor.
  - rewrite length_take, length_drop. lia.
  - rewrite length_take, length_drop. lia.
  - rewrite drop_0. rewrite (take_ge (drop 8 blk)) by (rewrite length_drop; lia). by rewrite take_drop.
Qed.

Lemma absorb_spec fuel hLo hHi yLo yHi data :
  is_u 64 hLo -> is_u 64 hHi -> is_u 64 yLo -> is_u 64 yHi -> Forall is_byte data ->
  let r := absorb fuel hLo hHi yLo yHi data in
  is_u 64 r.1 /\ is_u 64 r.2 /\
  pack2 r.1 r.2 =
    foldl (fun s x => dot (Z.lxor s x) (pack2 hLo hHi)) (pack2 yLo yHi) (map le_get (blocks fuel data)).
Proof.
  intros Hh0 Hh1. revert yLo yHi data. induction fuel as [|fuel IH]; intros yLo yHi data Hy0 Hy1 Hd; [done|].
  destruct data as [|b data]; [done|]. cbn [absorb blocks map foldl].
  destruct (block_split (b :: data) Hd) as (B0 & B1 & L0 & L1 & Hblk).
  set (blk := copy_at (zeros 16) 0 (b :: data)) in *.
  assert (le_get blk = pack2 (le_get (slice blk 0 8)) (le_get (slice blk 8 16))) as ->
    by (rewrite Hblk at 1; by apply le_get_16).
  pose proof (le_get_range _ 8 B0 L0) as G0. pose proof (le_get_range _ 8 B1 L1) as G1.
  change (8 * Z.of_nat 8) with 64 in *. revert G0 G1.
  generalize (le_get (slice blk 0 8)) (le_get (slice blk 8 16)). intros w0 w1 G0 G1.
  destruct (polyvalMul64_dot (Z.lxor yLo w0) (Z.lxor yHi w1) hLo hHi) as (R0 & R1 & Hdot); range64.
  destruct (polyvalMul64 _ _ _ _) as [lo hi]. cbn [fst snd] in *.
  replace (Z.lxor (pack2 yLo yHi) (pack2 w0 w1)) with (pack2 (Z.lxor yLo w0) (Z.lxor yHi w1)).
  2:{ unfold pack2. rewrite Z.shiftl_lxor. xor_bits. }
  rewrite <- Hdot. apply IH; auto with gotor.
Qed.

(** C29: The hash computed with 64-bit integer multiplications on masked operands,
    bit reversals and shifts is POLYVAL of RFC 8452: the little-endian value of
    the result is the Horner sum, over the zero-padded 16-byte blocks of the
    input, of products in GF(2)[x] modulo x^128 + x^127 + x^126 + x^121 + 1,
    divided by x^128.  In particular no integer carry ever disturbs a product. *)
Theorem polyval_is_rfc8452 h data :
  length h = 16%nat -> Forall is_byte h -> Forall is_byte data ->
  length (polyval h data) = 16%nat /\ Forall is_byte (polyval h data) /\
  le_get (polyval h data) = polyval_ref (le_get h) (map le_get (blocks (length data) data)).
Proof.
  intros Hl Hh Hd. unfold polyval. rewrite Hl. cbn [negb Nat.eqb polyvalBlockLen].
  assert (length (slice h 0 8) = 8%nat /\ length (slice h 8 16) = 8%nat) as [L0 L1]
    by (unfold slice; rewrite !length_take, !length_drop; lia).
  assert (Forall is_byte (slice h 0 8) /\ Forall is_byte (slice h 8 16)) as [B0 B1]
    by (unfold slice; auto with gotor).
  assert (h = slice h 0 8 ++ slice h 8 16) as Hsplit.
  { unfold slice. rewrite drop_0, (take_ge (drop 8 h)) by (rewrite length_drop; lia). by rewrite take_drop. }
  pose proof (le_get_range _ 8 B0 L0) as G0. pose proof (le_get_range _ 8 B1 L1) as G1.
  destruct (absorb_spec (length data) (le_get (slice h 0 8)) (le_get (slice h 8 16)) 0 0 data)
    as (R0 & R1 & Hr); try done.
  destruct (absorb _ _ _ _ _ _) as [lo hi]. cbn [fst snd] in *.
  assert (Forall is_byte (le_put 8 lo) /\ Forall is_byte (le_put 8 hi)) as [P0 P1]
    by (split; apply Forall_rev, be_put_bytes).
  assert (length (le_put 8 lo) = 8%nat /\ length (le_put 8 hi) = 8%nat) as [Q0 Q1]
    by (unfold le_put; rewrite !length_rev, !length_be_put; done).
  split_and!; [rewrite length_app; lia | auto with gotor|].
  rewrite le_get_16, !le_get_put by done. rewrite Hr. unfold polyval_ref.
  assert (le_get h = pack2 (le_get (slice h 0 8)) (le_get (slice h 8 16))) as ->; [|reflexivity].
  rewrite Hsplit at 1. by apply le_get_16.
Qed.

(** The first two blocks of the test vector of RFC 8452, appendix A. *)
Lemma polyval_is_rfc8452_witness :
  let h := be_put 16 0x25629347589242761d31f826ba4b757b in
  let x := be_put 32 0x4f4f95668c83dfb6401762bb2d01a262d1a24ddd2721d006bbe45f20d3c9f362 in
  be_get (polyval h x) = 0xf7a3b47b846119fae5b7866cf5e5b77e /\
  le_get (polyval h x) = polyval_ref (le_get h) (map le_get (blocks 32 x)).
Proof.
  intros h x. split; [vm_compute; reflexivity|].
  destruct (polyval_is_rfc8452 h x) as (_ & _ & H).
  - reflexivity.
  - apply be_put_bytes.
  - apply be_put_bytes.
  - exact H.
Defined.

End Polyval.
