(* ===== verification/CGO.v ===== *)
(** * Counter Galois Onion (pkg/crypto/cgo.go)

    The relay encryption of proposal 359: a wide-block cipher built from a
    tweaked AES block and a counter-mode keystream, with key update.  Clients run
    its inverse, relays run it forwards.  The block cipher is a parameter; the
    hash is [Polyval.v].  A [cipher.Block] is the key it was made from. *)

From S2P Require Import Prelude Conversion Polyval.
Import Polyval.

Module CGO.

Definition CGOMsgLen : nat := 509.
Definition CGOBlkLen : nat := 16.
Definition CGOTagLen : nat := 16.
Definition CGOPayloadLen : nat := CGOMsgLen - CGOBlkLen.
Definition CGOHLen : nat := CGOBlkLen + 1.
Definition CGOETTweakLen : nat := CGOHLen + CGOPayloadLen.
Definition CGOETKeyLen : nat := 32.
Definition CGOPRFKeyLen : nat := 32.
Definition CGOUIVKeyLen : nat := CGOETKeyLen + CGOPRFKeyLen.
Definition CGODirKeyLen : nat := CGOUIVKeyLen + CGOBlkLen.
Definition CGOKeyMaterialLen : nat := CGODirKeyLen * 2.
Definition CGOPRFOffsetC : Z := 31.
Definition cgoPRFMask : Z := 0xC0.

(** [etBlock] and [prfBlock] are nil or made from a key. *)
Record CGODir := mkDir {
  etKB : bytes;
  etKU : bytes;
  prfK : bytes;
  prfB : bytes;
  etBlock : option bytes;
  prfBlock : option bytes;
  nonce : bytes;
  tprime : bytes;
  decrypt : bool;
}.

Record CGOPair := mkPair { Fwd : CGODir; Back : CGODir }.

Inductive error :=
| errKeyMaterial (n : Z)
| errDirKey (n : Z)
| errKeySize (n : Z)
| errCellLen (n : Z)
| errDest (i : Z)
| errNotRecognized.

Definition set_blocks (d : CGODir) (e p : option bytes) : CGODir :=
  mkDir (etKB d) (etKU d) (prfK d) (prfB d) e p (nonce d) (tprime d) (decrypt d).
Definition set_keys (d : CGODir) (a b c e : bytes) : CGODir :=
  mkDir a b c e (etBlock d) (prfBlock d) (nonce d) (tprime d) (decrypt d).
Definition set_nonce (d : CGODir) (n : bytes) : CGODir :=
  mkDir (etKB d) (etKU d) (prfK d) (prfB d) (etBlock d) (prfBlock d) n (tprime d) (decrypt d).
Definition set_tprime (d : CGODir) (t : bytes) : CGODir :=
  mkDir (etKB d) (etKU d) (prfK d) (prfB d) (etBlock d) (prfBlock d) (nonce d) t (decrypt d).

(** [aes.NewCipher] *)
Definition NewCipher (key : bytes) : result error bytes :=
  if bool_decide (length key = 16 \/ length key = 24 \/ length key = 32)%nat then Ok key
  else Err (errKeySize (len key)).

Definition ensureET (d : CGODir) : CGODir * option error :=
  match etBlock d with
  | Some _ => (d, None)
  | None =>
      match NewCipher (etKB d) with
      | Err e => (d, Some e)
      | Ok b => (set_blocks d (Some b) (prfBlock d), None)
      end
  end.

Definition ensurePRF (d : CGODir) : CGODir * option error :=
  match prfBlock d with
  | Some _ => (d, None)
  | None =>
      match NewCipher (prfK d) with
      | Err e => (d, Some e)
      | Ok b => (set_blocks d (etBlock d) (Some b), None)
      end
  end.

Definition refreshCiphers (d : CGODir) : CGODir * option error :=
  match ensureET (set_blocks d None None) with
  | (d, Some e) => (d, Some e)
  | (d, None) => ensurePRF d
  end.

Definition newCGODir (keys : bytes) (dec : bool) : result error CGODir :=
  if negb (length keys =? CGODirKeyLen)%nat then Err (errDirKey (len keys))
  else
    let d := mkDir (slice keys 0 16) (slice keys 16 32) (slice keys 32 48) (slice keys 48 64) None None
               (copy_at (zeros CGOBlkLen) 0 (slice keys 64 80)) (zeros CGOBlkLen) dec in
    match refreshCiphers d with
    | (_, Some e) => Err e
    | (d, None) => Ok d
    end.

Definition new_pair (keys : bytes) (dec : bool) : result error CGOPair :=
  if negb (length keys =? CGOKeyMaterialLen)%nat then Err (errKeyMaterial (len keys))
  else
    let? fwd := newCGODir (slice keys 0 CGODirKeyLen) dec in
    let? back := newCGODir (drop CGODirKeyLen keys) dec in
    Ok (mkPair fwd back).

Definition NewCGOPairFromKeyMaterial (keys : bytes) : result error CGOPair := new_pair keys true.
Definition NewCGORelayPairFromKeyMaterial (keys : bytes) : result error CGOPair := new_pair keys false.

Definition snapshotKeys (d : CGODir) : bytes := etKB d ++ etKU d ++ prfK d ++ prfB d.

Definition loadKeys (d : CGODir) (keys : bytes) : CGODir :=
  let d := set_keys d (copy_at (etKB d) 0 (slice keys 0 16)) (copy_at (etKU d) 0 (slice keys 16 32))
             (copy_at (prfK d) 0 (slice keys 32 48)) (copy_at (prfB d) 0 (slice keys 48 64)) in
  (refreshCiphers d).1.

(** ** The cipher *)

Definition etMask (d : CGODir) (tp : bytes) (ad : Z) (xr : bytes) : bytes :=
  let tweak := zeros CGOETTweakLen in
  let tweak := copy_at tweak 0 tp in
  let tweak := <[16%nat := ad]> tweak in
  let tweak := copy_at tweak 17 xr in
  polyval (etKU d) tweak.

Definition xor16 (a b : bytes) : bytes := zip_with Z.lxor a b.

Section Cipher.
(** AES on one 16-byte block under a key, and its inverse. *)
Context (Encrypt Decrypt : bytes -> bytes -> bytes).

Definition aesBlock (d : CGODir) (encrypt : bool) (block : bytes) : CGODir * result error bytes :=
  match ensureET d with
  | (d, Some e) => (d, Err e)
  | (d, None) =>
      let key := default [] (etBlock d) in
      (d, Ok (if encrypt then Encrypt key block else Decrypt key block))
  end.

Definition et (encrypt : bool) (d : CGODir) (tp : bytes) (ad : Z) (xr m : bytes) : CGODir * result error bytes :=
  let mask := etMask d tp ad xr in
  match aesBlock d encrypt (xor16 m mask) with
  | (d, Err e) => (d, Err e)
  | (d, Ok m) => (d, Ok (xor16 m mask))
  end.

Definition encET := et true.
Definition decET := et false.

(** [cipher.NewCTR(block, iv).XORKeyStream] on [n] zero bytes: the encryptions of
    the successive 128-bit big-endian counter values. *)
Definition ctr_stream (key iv : bytes) (n : nat) : bytes :=
  take n (concat (map (fun i => Encrypt key (be_put 16 (be_get iv + Z.of_nat i))) (seq 0 (n / 16 + 1)))).

Definition prfCTR (d : CGODir) (t : bytes) (bit : Z) (n : nat) : CGODir * result error bytes :=
  let h := polyval (prfB d) t in
  let h := <[15%nat := Z.land (at_ h 15) cgoPRFMask]> h in
  let h := if negb (bit =? 0) then <[15%nat := u8 (at_ h 15 + CGOPRFOffsetC)]> h else h in
  match ensurePRF d with
  | (d, Some e) => (d, Err e)
  | (d, None) => (d, Ok (ctr_stream (default [] (prfBlock d)) h n))
  end.

(** [xr[i] ^= ks[i]] for every [i]; [ks] is as long as the payload of a cell. *)
Definition prfXOR0 (d : CGODir) (yl xr : bytes) : CGODir * result error bytes :=
  match prfCTR d yl 0 CGOPayloadLen with
  | (d, Err e) => (d, Err e)
  | (d, Ok ks) => (d, Ok (zip_with Z.lxor xr ks))
  end.

Definition updateUIV (d : CGODir) : CGODir * option error :=
  match prfCTR d (nonce d) 1 (CGOUIVKeyLen + CGOBlkLen) with
  | (d, Err e) => (d, Some e)
  | (d, Ok ks) =>
      let d := loadKeys d (slice ks 0 CGOUIVKeyLen) in
      (set_nonce d (copy_at (nonce d) 0 (drop CGOUIVKeyLen ks)), None)
  end.

Definition encUIV (d : CGODir) (ad : Z) (cell : bytes) : CGODir * result error bytes :=
  if negb (length cell =? CGOMsgLen)%nat then (d, Err (errCellLen (len cell)))
  else
    let xl := slice cell 0 16 in
    let xr := drop 16 cell in
    match encET d (tprime d) ad xr xl with
    | (d, Err e) => (d, Err e)
    | (d, Ok xl) =>
        match prfXOR0 d xl xr with
        | (d, Err e) => (d, Err e)
        | (d, Ok xr) => (d, Ok (xl ++ xr))
        end
    end.

Definition decUIV (d : CGODir) (ad : Z) (cell : bytes) : CGODir * result error bytes :=
  if negb (length cell =? CGOMsgLen)%nat then (d, Err (errCellLen (len cell)))
  else
    let yl := slice cell 0 16 in
    let xr := drop 16 cell in
    match prfXOR0 d yl xr with
    | (d, Err e) => (d, Err e)
    | (d, Ok xr) =>
        match decET d (tprime d) ad xr yl with
        | (d, Err e) => (d, Err e)
        | (d, Ok yl) => (d, Ok (yl ++ xr))
        end
    end.

(** ** The client *)

Definition ClientForward (d : CGODir) (ad : Z) (cell : bytes) : CGODir * result error bytes :=
  let tIn := slice cell 0 CGOBlkLen in
  match decUIV d ad cell with
  | (d, Err e) => (d, Err e)
  | (d, Ok cell) => (set_tprime d tIn, Ok cell)
  end.

Definition ClientOriginate (d : CGODir) (ad : Z) (cell : bytes) : CGODir * result error (bytes * bytes) :=
  if negb (length cell =? CGOMsgLen)%nat then (d, Err (errCellLen (len cell)))
  else
    match ClientForward d ad (copy_at cell 0 (nonce d)) with
    | (d, Err e) => (d, Err e)
    | (d, Ok cell) =>
        match updateUIV d with
        | (d, Some e) => (d, Err e)
        | (d, None) => (d, Ok (cell, slice cell 0 CGOBlkLen))
        end
    end.

(** The cell, whether it is recognised, and the tag. *)
Definition ClientBackward (d : CGODir) (ad : Z) (cell : bytes) : CGODir * result error (bytes * bool * bytes) :=
  if negb (length cell =? CGOMsgLen)%nat then (d, Err (errCellLen (len cell)))
  else
    let tOrig := slice cell 0 CGOBlkLen in
    match decUIV d ad cell with
    | (d, Err e) => (d, Err e)
    | (d, Ok cell) =>
        let d := set_tprime d tOrig in
        if Conversion.ConstantTimeCompare (slice cell 0 CGOBlkLen) (nonce d) then
          match updateUIV (set_nonce d tOrig) with
          | (d, Some e) => (d, Err e)
          | (d, None) => (d, Ok (cell, true, tprime d))
          end
        else (d, Ok (cell, false, []))
    end.

(** ** The relay *)

Definition RelayForward (d : CGODir) (ad : Z) (cell : bytes) : CGODir * result error (bytes * bool * bytes) :=
  if negb (length cell =? CGOMsgLen)%nat then (d, Err (errCellLen (len cell)))
  else
    let lastTag := slice cell 0 CGOBlkLen in
    match encUIV d ad cell with
    | (d, Err e) => (d, Err e)
    | (d, Ok cell) =>
        let d := set_tprime d (slice cell 0 CGOBlkLen) in
        if Conversion.ConstantTimeCompare (slice cell 0 CGOBlkLen) (nonce d) then
          match updateUIV d with
          | (d, Some e) => (d, Err e)
          | (d, None) => (d, Ok (cell, true, lastTag))
          end
        else (d, Ok (cell, false, []))
    end.

Definition RelayBackward (d : CGODir) (ad : Z) (cell : bytes) : CGODir * result error bytes :=
  match encUIV d ad cell with
  | (d, Err e) => (d, Err e)
  | (d, Ok cell) => (set_tprime d (slice cell 0 CGOBlkLen), Ok cell)
  end.

Definition RelayOriginate (d : CGODir) (ad : Z) (cell : bytes) : CGODir * result error (bytes * bytes) :=
  if negb (length cell =? CGOMsgLen)%nat then (d, Err (errCellLen (len cell)))
  else
    match encUIV d ad (copy_at cell 0 (nonce d)) with
    | (d, Err e) => (d, Err e)
    | (d, Ok cell) =>
        let d := set_nonce (set_tprime d (slice cell 0 CGOBlkLen)) (slice cell 0 CGOBlkLen) in
        let tag := tprime d in
        match updateUIV d with
        | (d, Some e) => (d, Err e)
        | (d, None) => (d, Ok (cell, tag))
        end
    end.

(** ** Several hops at the client *)

(** [ClientForward] at the hops before the destination, the outermost last. *)
Fixpoint forward_hops (hops : list CGODir) (ad : Z) (cell : bytes) : list CGODir * result error bytes :=
  match hops with
  | [] => ([], Ok cell)
  | h :: hops =>
      match forward_hops hops ad cell with
      | (hops, Err e) => (h :: hops, Err e)
      | (hops, Ok cell) => let '(h, r) := ClientForward h ad cell in (h :: hops, r)
      end
  end.

Definition ClientOriginateHops (hops : list CGODir) (dest ad : Z) (cell : bytes) :
    list CGODir * result error (bytes * bytes) :=
  if (dest <? 0) || (len hops <=? dest) then (hops, Err (errDest dest))
  else
    let n := Z.to_nat dest in
    match hops !! n with
    | None => (hops, Err (errDest dest))
    | Some h =>
        match ClientOriginate h ad cell with
        | (h, Err e) => (<[n := h]> hops, Err e)
        | (h, Ok (cell, tag)) =>
            let '(outer, r) := forward_hops (take n hops) ad cell in
            (outer ++ h :: drop (S n) hops, match r with Ok cell => Ok (cell, tag) | Err e => Err e end)
        end
    end.

Fixpoint decrypt_hops (hops : list CGODir) (i ad : Z) (cell : bytes) : list CGODir * result error (Z * bytes * bytes) :=
  match hops with
  | [] => ([], Err errNotRecognized)
  | h :: hops =>
      match ClientBackward h ad cell with
      | (h, Err e) => (h :: hops, Err e)
      | (h, Ok (cell, true, t)) => (h :: hops, Ok (i, t, cell))
      | (h, Ok (cell, false, _)) => let '(hops, r) := decrypt_hops hops (i + 1) ad cell in (h :: hops, r)
      end
  end.

(** The cell, as decrypted in place, is returned with the hop and the tag. *)
Definition ClientDecryptHops (hops : list CGODir) (ad : Z) (cell : bytes) : list CGODir * result error (Z * bytes * bytes) :=
  decrypt_hops hops 0 ad cell.

End Cipher.

(** ** Properties of the parts *)

Lemma length_polyval h data : length (polyval h data) = 16%nat.
Proof.
  unfold polyval. case_if; [apply length_zeros|]. destruct (absorb _ _ _ _ _ _) as [lo hi].
  unfold le_put. by rewrite length_app, !length_rev, !length_be_put.
Qed.

Lemma length_etMask d tp ad xr : length (etMask d tp ad xr) = 16%nat.
Proof. apply length_polyval. Qed.

Lemma xor_twice (a b : bytes) : (length a <= length b)%nat -> zip_with Z.lxor (zip_with Z.lxor a b) b = a.
Proof.
  revert b. induction a as [|x a IH]; intros [|y b] Hl; simpl in *; try done; [lia|].
  rewrite IH by lia. by rewrite Z.lxor_assoc, Z.lxor_nilpotent, Z.lxor_0_r.
Qed.

Lemma copy_at_all (a b : bytes) : length a = length b -> copy_at a 0 b = b.
Proof.
  intros Hl. unfold copy_at. rewrite take_0, Nat.sub_0_r, Hl, take_ge by lia.
  rewrite drop_ge by lia. by rewrite app_nil_r.
Qed.

Lemma slice_slice (l : bytes) n i j : (j <= n)%nat -> slice (slice l 0 n) i j = slice l i j.
Proof.
  intros Hj. unfold slice. rewrite drop_0, Nat.sub_0_r, skipn_firstn_comm, take_take. f_equal. lia.
Qed.

Lemma slice_drop (l : bytes) i j : length l = j -> drop i l = slice l i j.
Proof. intros <-. unfold slice. symmetry. apply take_ge. rewrite length_drop. lia. Qed.

Lemma compare_neq (a b : bytes) : a <> b -> Conversion.ConstantTimeCompare a b = false.
Proof. intros Hn. apply not_true_is_false. by rewrite Conversion.ConstantTimeCompare_spec. Qed.

Lemma compare_eq (a b : bytes) : a = b -> Conversion.ConstantTimeCompare a b = true.
Proof. apply Conversion.ConstantTimeCompare_spec. Qed.

(** All keys of AES-128 and POLYVAL size, and the cached ciphers those of the
    current keys. *)
Record cgo_wf (d : CGODir) : Prop := {
  wf_etKB : length (etKB d) = 16%nat;
  wf_etKU : length (etKU d) = 16%nat;
  wf_prfK : length (prfK d) = 16%nat;
  wf_prfB : length (prfB d) = 16%nat;
  wf_etBlock : etBlock d = Some (etKB d);
  wf_prfBlock : prfBlock d = Some (prfK d);
  wf_nonce : length (nonce d) = 16%nat;
  wf_tprime : length (tprime d) = 16%nat;
}.

Section Laws.
Context (Encrypt Decrypt : bytes -> bytes -> bytes).
Context (Encrypt_length : forall k b, length k = 16%nat -> length b = 16%nat -> length (Encrypt k b) = 16%nat).
Context (Decrypt_length : forall k b, length k = 16%nat -> length b = 16%nat -> length (Decrypt k b) = 16%nat).
Context (Decrypt_Encrypt : forall k b, length k = 16%nat -> length b = 16%nat -> Decrypt k (Encrypt k b) = b).
Context (Encrypt_Decrypt : forall k b, length k = 16%nat -> length b = 16%nat -> Encrypt k (Decrypt k b) = b).

Abbreviation encUIV := (encUIV Encrypt Decrypt).
Abbreviation decUIV := (decUIV Encrypt Decrypt).
Abbreviation updateUIV := (updateUIV Encrypt).

Lemma length_ctr_stream k iv n : length k = 16%nat -> length (ctr_stream Encrypt k iv n) = n.
Proof.
  intros Hk. unfold ctr_stream. rewrite length_take.
  assert (forall m (f : nat -> Z), length (concat (map (fun i => Encrypt k (be_put 16 (f i))) m)) = (16 * length m)%nat) as Hc.
  { intros m f. induction m as [|x m IH]; [done|]. simpl. rewrite length_app, IH, Encrypt_length; [lia|done|apply length_be_put]. }
  rewrite (Hc _ (fun i => be_get iv + Z.of_nat i)), length_seq.
  pose proof (Nat.div_mod n 16 ltac:(lia)). pose proof (Nat.mod_upper_bound n 16 ltac:(lia)). lia.
Qed.

(** The initial counter of the keystream for [t]. *)
Definition prf_iv (d : CGODir) (t : bytes) (bit : Z) : bytes :=
  let h := polyval (prfB d) t in
  let h := <[15%nat := Z.land (at_ h 15) cgoPRFMask]> h in
  if negb (bit =? 0) then <[15%nat := u8 (at_ h 15 + CGOPRFOffsetC)]> h else h.

Lemma prfCTR_wf d t bit n :
  cgo_wf d -> prfCTR Encrypt d t bit n = (d, Ok (ctr_stream Encrypt (prfK d) (prf_iv d t bit) n)).
Proof. intros []. unfold prfCTR, ensurePRF. rewrite wf_prfBlock0. simpl. by rewrite wf_prfBlock0. Qed.

Lemma et_wf enc d tp ad xr m :
  cgo_wf d ->
  et Encrypt Decrypt enc d tp ad xr m =
    (d, Ok (let mask := etMask d tp ad xr in
            xor16 (if enc then Encrypt (etKB d) (xor16 m mask) else Decrypt (etKB d) (xor16 m mask)) mask)).
Proof. intros []. unfold et, aesBlock, ensureET. rewrite wf_etBlock0. simpl. by rewrite wf_etBlock0. Qed.

(** What the two directions compute. *)
Definition enc_core (d : CGODir) (ad : Z) (cell : bytes) : bytes :=
  let xr := drop 16 cell in
  let mask := etMask d (tprime d) ad xr in
  let xl := xor16 (Encrypt (etKB d) (xor16 (slice cell 0 16) mask)) mask in
  xl ++ zip_with Z.lxor xr (ctr_stream Encrypt (prfK d) (prf_iv d xl 0) CGOPayloadLen).

Definition dec_core (d : CGODir) (ad : Z) (cell : bytes) : bytes :=
  let yl := slice cell 0 16 in
  let xr := zip_with Z.lxor (drop 16 cell) (ctr_stream Encrypt (prfK d) (prf_iv d yl 0) CGOPayloadLen) in
  let mask := etMask d (tprime d) ad xr in
  xor16 (Decrypt (etKB d) (xor16 yl mask)) mask ++ xr.

Lemma encUIV_wf d ad cell :
  cgo_wf d -> length cell = CGOMsgLen -> encUIV d ad cell = (d, Ok (enc_core d ad cell)).
Proof.
  intros Hd Hl. unfold CGO.encUIV, encET, prfXOR0. rewrite Hl. cbn [negb Nat.eqb CGOMsgLen].
  rewrite et_wf by done. cbv zeta beta iota. by rewrite prfCTR_wf.
Qed.

Lemma decUIV_wf d ad cell :
  cgo_wf d -> length cell = CGOMsgLen -> decUIV d ad cell = (d, Ok (dec_core d ad cell)).
Proof.
  intros Hd Hl. unfold CGO.decUIV, decET, prfXOR0. rewrite Hl. cbn [negb Nat.eqb CGOMsgLen].
  rewrite prfCTR_wf by done. cbv zeta beta iota. by rewrite et_wf.
Qed.

Lemma length_xor (a b : bytes) n : length a = n -> (n <= length b)%nat -> length (zip_with Z.lxor a b) = n.
Proof. intros <- Hb. rewrite length_zip_with. lia. Qed.

Lemma length_enc_core d ad cell : cgo_wf d -> length cell = CGOMsgLen -> length (enc_core d ad cell) = CGOMsgLen.
Proof.
  intros [] Hl. unfold CGOMsgLen in *. unfold enc_core, xor16. cbv zeta. rewrite length_app.
  rewrite (length_xor _ (etMask _ _ _ _) 16); [|apply Encrypt_length; [done|]|by rewrite length_etMask].
  - rewrite (length_xor _ _ 493); [done|by rewrite length_drop, Hl|by rewrite length_ctr_stream].
  - apply length_xor; [rewrite length_slice; lia | by rewrite length_etMask].
Qed.

Lemma length_dec_core d ad cell : cgo_wf d -> length cell = CGOMsgLen -> length (dec_core d ad cell) = CGOMsgLen.
Proof.
  intros [] Hl. unfold CGOMsgLen in *. unfold dec_core, xor16. cbv zeta. rewrite length_app.
  rewrite (length_xor _ (etMask _ _ _ _) 16); [|apply Decrypt_length; [done|]|by rewrite length_etMask].
  - rewrite (length_xor _ _ 493); [done|by rewrite length_drop, Hl|by rewrite length_ctr_stream].
  - apply length_xor; [rewrite length_slice; lia | by rewrite length_etMask].
Qed.

Lemma enc_dec_core d ad cell : cgo_wf d -> length cell = CGOMsgLen -> enc_core d ad (dec_core d ad cell) = cell.
Proof.
  intros Hd Hl. unfold CGOMsgLen in *. unfold dec_core. cbv zeta.
  set (yl := slice cell 0 16). set (ks := ctr_stream _ _ _ _). set (xr := zip_with Z.lxor (drop 16 cell) ks).
  assert (length yl = 16%nat) as Ly by (subst yl; rewrite length_slice; lia).
  assert (length ks = 493%nat) as Lk by (subst ks; by rewrite length_ctr_stream by apply Hd).
  assert (length xr = 493%nat) as Lx by (subst xr; apply length_xor; [rewrite length_drop; lia | lia]).
  unfold enc_core. cbv zeta. set (mask := etMask d (tprime d) ad xr).
  assert (length mask = 16%nat) as Lm by apply length_etMask.
  assert (length (Decrypt (etKB d) (xor16 yl mask)) = 16%nat) as Ld
    by (apply Decrypt_length; [apply Hd | apply length_xor; lia]).
  assert (length (xor16 (Decrypt (etKB d) (xor16 yl mask)) mask) = 16%nat) as LX by (apply length_xor; lia).
  rewrite drop_app_length' by lia. fold mask. rewrite slice_here by done.
  assert (xor16 (xor16 (Decrypt (etKB d) (xor16 yl mask)) mask) mask = Decrypt (etKB d) (xor16 yl mask)) as ->
    by (apply xor_twice; lia).
  rewrite Encrypt_Decrypt by (try apply Hd; apply length_xor; lia).
  unfold xor16. rewrite !(xor_twice yl) by lia. fold ks. subst xr. rewrite xor_twice by (rewrite length_drop; lia).
  subst yl. unfold slice. rewrite drop_0, Nat.sub_0_r. apply take_drop.
Qed.

Lemma dec_enc_core d ad cell : cgo_wf d -> length cell = CGOMsgLen -> dec_core d ad (enc_core d ad cell) = cell.
Proof.
  intros Hd Hl. unfold CGOMsgLen in *. unfold enc_core. cbv zeta.
  set (xr := drop 16 cell). set (mask := etMask d (tprime d) ad xr).
  set (xl := xor16 (Encrypt _ _) mask). set (ks := ctr_stream _ _ _ _).
  assert (length mask = 16%nat) as Lm by apply length_etMask.
  assert (length (slice cell 0 16) = 16%nat) as Lc by (rewrite length_slice; lia).
  assert (length (Encrypt (etKB d) (xor16 (slice cell 0 16) mask)) = 16%nat) as Le
    by (apply Encrypt_length; [apply Hd | apply length_xor; lia]).
  assert (length xl = 16%nat) as Ly by (apply length_xor; lia).
  assert (length ks = 493%nat) as Lk by (subst ks; by rewrite length_ctr_stream by apply Hd).
  assert (length xr = 493%nat) as Lx by (subst xr; rewrite length_drop; lia).
  unfold dec_core. cbv zeta. rewrite slice_here by done. rewrite drop_app_length' by lia. fold ks.
  rewrite xor_twice by lia. fold mask. subst xl.
  assert (xor16 (xor16 (Encrypt (etKB d) (xor16 (slice cell 0 16) mask)) mask) mask =
    Encrypt (etKB d) (xor16 (slice cell 0 16) mask)) as -> by (apply xor_twice; lia).
  rewrite Decrypt_Encrypt by (try apply Hd; apply length_xor; lia).
  unfold xor16. rewrite xor_twice by lia. subst xr. unfold slice. rewrite drop_0, Nat.sub_0_r. apply take_drop.
Qed.

(** The state after a key update. *)
Definition next (d : CGODir) : CGODir :=
  let ks := ctr_stream Encrypt (prfK d) (prf_iv d (nonce d) 1) 80 in
  mkDir (slice ks 0 16) (slice ks 16 32) (slice ks 32 48) (slice ks 48 64)
    (Some (slice ks 0 16)) (Some (slice ks 32 48)) (slice ks 64 80) (tprime d) (decrypt d).

Lemma updateUIV_wf d : cgo_wf d -> updateUIV d = (next d, None) /\ cgo_wf (next d).
Proof.
  intros Hd. unfold CGO.updateUIV. rewrite prfCTR_wf by done. change (CGOUIVKeyLen + CGOBlkLen)%nat with 80%nat.
  assert (length (ctr_stream Encrypt (prfK d) (prf_iv d (nonce d) 1) 80) = 80%nat) as Hk
    by (apply length_ctr_stream, Hd).
  unfold next. revert Hk. generalize (ctr_stream Encrypt (prfK d) (prf_iv d (nonce d) 1) 80). intros ks Hk.
  destruct Hd. split.
  - unfold loadKeys. change CGOUIVKeyLen with 64%nat. rewrite !slice_slice by lia.
    rewrite !copy_at_all by (rewrite ?length_slice by lia; lia).
    unfold refreshCiphers, ensureET, ensurePRF, NewCipher. simpl.
    rewrite !bool_decide_true by (left; rewrite length_slice; lia). simpl.
    rewrite !bool_decide_true by (left; rewrite length_slice; lia). simpl.
    rewrite copy_at_all by (rewrite length_drop; lia). by rewrite (slice_drop ks 64 80).
  - constructor; simpl; rewrite ?length_slice by lia; done.
Qed.

(** ** The two ends of a hop *)

(** The same keys, nonce and chaining tag; only the role differs. *)
Definition twin (dec : bool) (d : CGODir) : CGODir :=
  mkDir (etKB d) (etKU d) (prfK d) (prfB d) (etBlock d) (prfBlock d) (nonce d) (tprime d) dec.

Definition in_sync (c r : CGODir) : Prop := cgo_wf c /\ r = twin (decrypt r) c.

Lemma twin_wf b d : cgo_wf d -> cgo_wf (twin b d).
Proof. intros []. by constructor. Qed.

Lemma sync_relay_wf c r : in_sync c r -> cgo_wf r.
Proof. intros [Hc ->]. by apply twin_wf. Qed.

Lemma set_tprime_wf d t : cgo_wf d -> length t = 16%nat -> cgo_wf (set_tprime d t).
Proof. intros [] Ht. by constructor. Qed.

Lemma set_nonce_wf d t : cgo_wf d -> length t = 16%nat -> cgo_wf (set_nonce d t).
Proof. intros [] Ht. by constructor. Qed.

Lemma length_tag (cell : bytes) : length cell = CGOMsgLen -> length (slice cell 0 CGOBlkLen) = 16%nat.
Proof. unfold CGOMsgLen, CGOBlkLen. intros Hl. rewrite length_slice; lia. Qed.

Lemma slice_copy_nonce (cell n : bytes) :
  length cell = CGOMsgLen -> length n = 16%nat -> slice (copy_at cell 0 n) 0 CGOBlkLen = n.
Proof.
  intros Hl Hn. unfold CGOMsgLen, CGOBlkLen in *. unfold copy_at.
  rewrite take_0, (take_ge n), app_nil_l by lia. by apply slice_here.
Qed.

Lemma length_copy_nonce (cell n : bytes) :
  length cell = CGOMsgLen -> length n = 16%nat -> length (copy_at cell 0 n) = CGOMsgLen.
Proof. unfold CGOMsgLen. intros Hl Hn. rewrite length_copy_at; lia. Qed.

Ltac cell_len H := rewrite ?H; cbn [negb Nat.eqb CGOMsgLen].

(** A layer the client adds comes off at the relay, which takes the cell for its
    own exactly when it starts with the nonce. *)
Lemma forward_pass c r ad cell :
  in_sync c r -> length cell = CGOMsgLen -> slice cell 0 CGOBlkLen <> nonce c ->
  exists c' r' out, ClientForward Encrypt Decrypt c ad cell = (c', Ok out) /\
    RelayForward Encrypt Decrypt r ad out = (r', Ok (cell, false, [])) /\
    length out = CGOMsgLen /\ in_sync c' r' /\ nonce c' = nonce c.
Proof.
  intros Hs Hl Hn. pose proof (sync_relay_wf _ _ Hs) as Hrw. destruct Hs as [Hc Hr]. pose proof (length_dec_core c ad cell Hc Hl) as Hl'.
  exists (set_tprime c (slice cell 0 CGOBlkLen)), (set_tprime r (slice cell 0 CGOBlkLen)), (dec_core c ad cell).
  split_and!; [unfold ClientForward; by rewrite decUIV_wf | | done | | done].
  - unfold RelayForward. cell_len Hl'. rewrite encUIV_wf by done.
    assert (enc_core r ad (dec_core c ad cell) = cell) as ->
      by (rewrite Hr; exact (enc_dec_core c ad cell Hc Hl)).
    rewrite compare_neq; [done|]. rewrite Hr. exact Hn.
  - split; [apply set_tprime_wf; [done|by apply length_tag]|]. rewrite Hr at 1. done.
Qed.

Lemma forward_originate c r ad cell :
  in_sync c r -> length cell = CGOMsgLen ->
  exists c' r' out tag, ClientOriginate Encrypt Decrypt c ad cell = (c', Ok (out, tag)) /\
    RelayForward Encrypt Decrypt r ad out = (r', Ok (copy_at cell 0 (nonce c), true, tag)) /\
    length out = CGOMsgLen /\ in_sync c' r' /\ tag = slice out 0 CGOBlkLen.
Proof.
  intros Hs Hl. pose proof (sync_relay_wf _ _ Hs) as Hrw. destruct Hs as [Hc Hr]. pose proof (wf_nonce _ Hc) as Hn. set (m := copy_at cell 0 (nonce c)).
  assert (length m = CGOMsgLen) as Hm by by apply length_copy_nonce.
  pose proof (length_dec_core c ad m Hc Hm) as Hl'.
  set (c1 := set_tprime c (slice m 0 CGOBlkLen)).
  assert (cgo_wf c1) as Hc1 by (apply set_tprime_wf; [done|by apply length_tag]).
  assert (set_tprime r (slice m 0 CGOBlkLen) = twin (decrypt r) c1) as Hr1 by (by rewrite Hr at 1).
  destruct (updateUIV_wf c1 Hc1) as [Hu1 Hw1].
  destruct (updateUIV_wf (twin (decrypt r) c1) (twin_wf _ _ Hc1)) as [Hu2 Hw2].
  eexists (next c1), (next (twin (decrypt r) c1)), (dec_core c ad m), _.
  split_and!; [| |done|split; done|done].
  - unfold ClientOriginate, ClientForward. cell_len Hl. fold m. rewrite decUIV_wf by done. fold c1. by rewrite Hu1.
  - unfold RelayForward. cell_len Hl'. rewrite encUIV_wf by done.
    assert (enc_core r ad (dec_core c ad m) = m) as -> by (rewrite Hr; exact (enc_dec_core c ad m Hc Hm)).
    rewrite Hr1. rewrite compare_eq; [by rewrite Hu2|].
    unfold m. by rewrite slice_copy_nonce.
Qed.

Lemma backward_pass c r ad cell :
  in_sync c r -> length cell = CGOMsgLen -> slice cell 0 CGOBlkLen <> nonce c ->
  exists c' r' out, RelayBackward Encrypt Decrypt r ad cell = (r', Ok out) /\
    ClientBackward Encrypt Decrypt c ad out = (c', Ok (cell, false, [])) /\
    length out = CGOMsgLen /\ in_sync c' r' /\ nonce c' = nonce c.
Proof.
  intros Hs Hl Hn. pose proof (sync_relay_wf _ _ Hs) as Hrw. destruct Hs as [Hc Hr]. pose proof (length_enc_core c ad cell Hc Hl) as Hl'. set (out := enc_core c ad cell) in *.
  exists (set_tprime c (slice out 0 CGOBlkLen)), (set_tprime r (slice out 0 CGOBlkLen)), out.
  split_and!; [| | done | | done].
  - unfold RelayBackward. rewrite encUIV_wf by done.
    assert (enc_core r ad cell = out) as -> by by rewrite Hr. done.
  - unfold ClientBackward. cell_len Hl'. rewrite decUIV_wf by done.
    assert (dec_core c ad out = cell) as -> by exact (dec_enc_core c ad cell Hc Hl).
    by rewrite compare_neq.
  - split; [apply set_tprime_wf; [done|by apply length_tag]|]. rewrite Hr at 1. done.
Qed.

Lemma backward_originate c r ad cell :
  in_sync c r -> length cell = CGOMsgLen ->
  exists c' r' out tag, RelayOriginate Encrypt Decrypt r ad cell = (r', Ok (out, tag)) /\
    ClientBackward Encrypt Decrypt c ad out = (c', Ok (copy_at cell 0 (nonce c), true, tag)) /\
    length out = CGOMsgLen /\ in_sync c' r' /\ tag = slice out 0 CGOBlkLen.
Proof.
  intros Hs Hl. pose proof (sync_relay_wf _ _ Hs) as Hrw. destruct Hs as [Hc Hr]. pose proof (wf_nonce _ Hc) as Hn. set (m := copy_at cell 0 (nonce c)).
  assert (length m = CGOMsgLen) as Hm by by apply length_copy_nonce.
  pose proof (length_enc_core c ad m Hc Hm) as Hl'.
  assert (enc_core r ad m = enc_core c ad m) as He by by rewrite Hr.
  assert (nonce r = nonce c) as Hnr by by rewrite Hr.
  set (out := enc_core c ad m) in *. set (t := slice out 0 CGOBlkLen).
  set (c1 := set_nonce (set_tprime c t) t).
  assert (cgo_wf c1) as Hc1 by (apply set_nonce_wf; [apply set_tprime_wf; [done|]|]; by apply length_tag).
  assert (set_nonce (set_tprime r t) t = twin (decrypt r) c1) as Hr1 by (by rewrite Hr at 1).
  destruct (updateUIV_wf c1 Hc1) as [Hu1 Hw1].
  destruct (updateUIV_wf (twin (decrypt r) c1) (twin_wf _ _ Hc1)) as [Hu2 Hw2].
  exists (next c1), (next (twin (decrypt r) c1)), out, t. split_and!; [| |done|split; done|done].
  - unfold RelayOriginate. cell_len Hl. rewrite Hnr. fold m.
    rewrite encUIV_wf by done. rewrite He. fold t. rewrite Hr1. by rewrite Hu2.
  - unfold ClientBackward. cell_len Hl'. rewrite decUIV_wf by done. fold t.
    assert (dec_core c ad out = m) as -> by exact (dec_enc_core c ad m Hc Hm).
    rewrite compare_eq; [|unfold m; by rewrite slice_copy_nonce].
    fold c1. by rewrite Hu1.
Qed.

End Laws.

(** ** Construction *)

(** The state of a direction made from 80 bytes of key material. *)
Definition fresh (keys : bytes) (dec : bool) : CGODir :=
  mkDir (slice keys 0 16) (slice keys 16 32) (slice keys 32 48) (slice keys 48 64)
    (Some (slice keys 0 16)) (Some (slice keys 32 48)) (slice keys 64 80) (zeros 16) dec.

Lemma newCGODir_fresh keys dec : length keys = 80%nat -> newCGODir keys dec = Ok (fresh keys dec).
Proof.
  intros Hk. unfold newCGODir. rewrite (proj2 (Nat.eqb_eq _ _)) by exact Hk. cbn [negb].
  rewrite copy_at_all by (rewrite length_slice, length_zeros; [done|lia]).
  unfold refreshCiphers, ensureET, ensurePRF, NewCipher. simpl.
  rewrite !bool_decide_true by (left; rewrite length_slice; lia). simpl.
  rewrite !bool_decide_true by (left; rewrite length_slice; lia). done.
Qed.

Lemma fresh_wf keys dec : length keys = 80%nat -> cgo_wf (fresh keys dec).
Proof. intros Hk. constructor; simpl; rewrite ?length_slice by lia; done. Qed.

Lemma new_pair_fresh keys dec :
  length keys = CGOKeyMaterialLen ->
  new_pair keys dec = Ok (mkPair (fresh (slice keys 0 80) dec) (fresh (drop 80 keys) dec)).
Proof.
  intros Hk. unfold new_pair. rewrite (proj2 (Nat.eqb_eq _ _)) by exact Hk. cbn [negb].
  change CGODirKeyLen with 80%nat. change CGOKeyMaterialLen with 160%nat in Hk.
  rewrite newCGODir_fresh by (rewrite length_slice; lia). cbn [result_bind].
  by rewrite newCGODir_fresh by (rewrite length_drop; lia).
Qed.

(** Client and relay states made from the same key material agree. *)
Lemma fresh_sync keys : length keys = 80%nat -> in_sync (fresh keys true) (fresh keys false).
Proof. intros Hk. split; [by apply fresh_wf | done]. Qed.

End CGO.
