(* ===== verification/Onion.v ===== *)
(** * Onion encryption (pkg/circuit/onion.go)

    The layers a client adds to an outgoing relay cell and peels off an incoming
    one.  A [cipher.Stream] is a keystream with a position; a [hash.Hash] is the
    bytes written so far, with the digest function [H] a parameter; the
    counter-galois-onion state of a hop and its three client operations
    (pkg/crypto) are parameters too.  Digest states can always be cloned. *)

From S2P Require Import Prelude Conversion Cell RelayCell.

Module Onion.

(** A stream cipher in the middle of its keystream. *)
Record cipher := mkCipher { keystream : nat -> Z; pos : nat }.

Definition XORKeyStream (c : cipher) (data : bytes) : cipher * bytes :=
  (mkCipher (keystream c) (pos c + length data),
   zip_with Z.lxor data (keystream c <$> seq (pos c) (length data))).

Inductive error :=
| errDest (dest : Z)
| errCGOLength (n : Z)
| errCGO.

Section Onion.
Context (H : bytes -> bytes).
Context {G : Type}.
(** [None]: the operation fails. *)
Context (ClientOriginate : G -> Z -> bytes -> G * option (bytes * bytes)).
Context (ClientForward : G -> Z -> bytes -> G * option bytes).
Context (ClientBackward : G -> Z -> bytes -> G * option (bytes * bool * bytes)).
Context (CGOMsgLen : Z).

Record Hop := mkHop {
  ForwardCipher : option cipher;
  BackwardCipher : option cipher;
  ForwardDigest : option bytes;
  BackwardDigest : option bytes;
  CGO : option G;
}.

Definition usesCGO (h : Hop) : bool := match CGO h with Some _ => true | None => false end.

Definition set_fwd (h : Hop) (c : option cipher) (d : option bytes) : Hop :=
  mkHop c (BackwardCipher h) d (BackwardDigest h) (CGO h).
Definition set_bwd (h : Hop) (c : option cipher) (d : option bytes) : Hop :=
  mkHop (ForwardCipher h) c (ForwardDigest h) d (CGO h).
Definition set_cgo (h : Hop) (g : G) : Hop :=
  mkHop (ForwardCipher h) (BackwardCipher h) (ForwardDigest h) (BackwardDigest h) (Some g).

Definition xor_with (c : option cipher) (data : bytes) : option cipher * bytes :=
  match c with
  | None => (None, data)
  | Some c => let '(c, data) := XORKeyStream c data in (Some c, data)
  end.

(** The cell with its digest field zeroed, which is what the digests run over. *)
Definition zero_digest (payload : bytes) : bytes := copy_at payload 5 (zeros 4).

(** The destination's part: digest and first layer. *)
Definition originate (h : Hop) (ad : Z) (payload : bytes) : Hop * result error (bytes * bytes) :=
  match CGO h with
  | Some g =>
      if negb (len payload =? CGOMsgLen) then (h, Err (errCGOLength (len payload)))
      else
        match ClientOriginate g ad payload with
        | (g, None) => (set_cgo h g, Err errCGO)
        | (g, Some (out, tag)) => (set_cgo h g, Ok (out, tag))
        end
  | None =>
      let '(digest, out, tag) :=
        match ForwardDigest h with
        | Some written =>
            if 9 <=? len payload then
              let written := written ++ zero_digest payload in
              let sum := H written in
              (Some written, copy_at payload 5 (take 4 sum), sum)
            else (Some written, payload, [])
        | None => (None, payload, [])
        end in
      let '(c, out) := xor_with (ForwardCipher h) out in
      (set_fwd h c digest, Ok (out, tag))
  end.

(** The layers of the hops before the destination, the outermost last. *)
Fixpoint wrap (hops : list Hop) (ad : Z) (out : bytes) : list Hop * result error bytes :=
  match hops with
  | [] => ([], Ok out)
  | h :: hops =>
      match wrap hops ad out with
      | (hops, Err e) => (h :: hops, Err e)
      | (hops, Ok out) =>
          match CGO h with
          | Some g =>
              match ClientForward g ad out with
              | (g, None) => (set_cgo h g :: hops, Err errCGO)
              | (g, Some out) => (set_cgo h g :: hops, Ok out)
              end
          | None =>
              let '(c, out) := xor_with (ForwardCipher h) out in
              (set_fwd h c (ForwardDigest h) :: hops, Ok out)
          end
      end
  end.

Definition encryptOnion (hops : list Hop) (ad dest : Z) (payload : bytes) : list Hop * result error (bytes * bytes) :=
  if (dest <? 0) || (len hops <=? dest) then (hops, Err (errDest dest))
  else
    let n := Z.to_nat dest in
    match hops !! n with
    | None => (hops, Err (errDest dest))
    | Some h =>
        match originate h ad payload with
        | (h, Err e) => (take n hops ++ h :: drop (S n) hops, Err e)
        | (h, Ok (out, tag)) =>
            let '(outer, r) := wrap (take n hops) ad out in
            (outer ++ h :: drop (S n) hops, match r with Ok out => Ok (out, tag) | Err e => Err e end)
        end
    end.

Definition tor1Recognized (h : Hop) (payload : bytes) : Hop * option bytes :=
  match BackwardDigest h with
  | None => (h, None)
  | Some written =>
      if len payload <? 11 then (h, None)
      else if negb (be_get (slice payload 1 3) =? 0) then (h, None)
      else
        let written := written ++ zero_digest payload in
        let sum := H written in
        if negb (Conversion.ConstantTimeCompare (take 4 sum) (slice payload 5 9)) then (h, None)
        else (set_bwd h (BackwardCipher h) (Some written), Some sum)
  end.

(** The hops peel the cell from the guard on; [i] is the index of the first. *)
Fixpoint peel (hops : list Hop) (i ad : Z) (out : bytes) : list Hop * result error (bytes * Z * bytes * bool) :=
  match hops with
  | [] => ([], Ok (out, -1, [], false))
  | h :: hops =>
      match CGO h with
      | Some g =>
          match ClientBackward g ad out with
          | (g, None) => (set_cgo h g :: hops, Err errCGO)
          | (g, Some (out, true, t)) => (set_cgo h g :: hops, Ok (out, i, t, true))
          | (g, Some (out, false, _)) =>
              let '(hops, r) := peel hops (i + 1) ad out in (set_cgo h g :: hops, r)
          end
      | None =>
          let '(c, out) := xor_with (BackwardCipher h) out in
          match tor1Recognized (set_bwd h c (BackwardDigest h)) out with
          | (h, Some t) => (h :: hops, Ok (out, i, t, false))
          | (h, None) => let '(hops, r) := peel hops (i + 1) ad out in (h :: hops, r)
          end
      end
  end.

Definition decryptOnion (hops : list Hop) (ad : Z) (payload : bytes) : list Hop * result error (bytes * Z * bytes * bool) :=
  peel hops 0 ad payload.

(** ** Lemmas *)

Lemma xor_length c data : length (XORKeyStream c data).2 = length data.
Proof. simpl. rewrite length_zip_with, length_fmap, length_seq. lia. Qed.

Lemma lxor_twice (data ks : bytes) :
  length ks = length data -> zip_with Z.lxor (zip_with Z.lxor data ks) ks = data.
Proof.
  revert ks. induction data as [|b data IH]; intros [|k ks]; try done. simpl. intros [= Hl].
  rewrite IH by done. by rewrite Z.lxor_assoc, Z.lxor_nilpotent, Z.lxor_0_r.
Qed.

(** The same cipher state removes the layer it added. *)
Lemma xor_involutive c data : (XORKeyStream c (XORKeyStream c data).2).2 = data.
Proof.
  unfold XORKeyStream at 1. cbn [snd]. rewrite xor_length. apply lxor_twice.
  rewrite length_fmap, length_seq. done.
Qed.

(** What a relay does with its copy of the hop's forward state. *)
Definition relay_peel (out : bytes) (h : Hop) : bytes := (xor_with (ForwardCipher h) out).2.
(** What a relay adds on the way back. *)
Definition relay_wrap (h : Hop) (out : bytes) : bytes := (xor_with (BackwardCipher h) out).2.

Lemma xor_with_involutive c data : (xor_with c (xor_with c data).2).2 = data.
Proof.
  destruct c as [c|]; [|done]. exact (xor_involutive c data).
Qed.

Definition tor1 (h : Hop) : Prop := CGO h = None.

(** The cell as the destination sees it: the digest of all cells so far in its
    digest field. *)
Definition stamp (digest : option bytes) (payload : bytes) : bytes :=
  match digest with
  | Some written =>
      if 9 <=? len payload then copy_at payload 5 (take 4 (H (written ++ zero_digest payload))) else payload
  | None => payload
  end.

(** A hop's state after a cell of [n] bytes went through it. *)
Definition advance (n : nat) (h : Hop) : Hop :=
  set_fwd h ((fun c => mkCipher (keystream c) (pos c + n)) <$> ForwardCipher h) (ForwardDigest h).

Lemma xor_with_state c data :
  xor_with c data = ((fun c => mkCipher (keystream c) (pos c + length data)) <$> c, (xor_with c data).2).
Proof. by destruct c. Qed.

Lemma length_xor_with c data : length (xor_with c data).2 = length data.
Proof. destruct c; [apply xor_length | done]. Qed.

Lemma wrap_tor1 hops ad out :
  Forall tor1 hops ->
  exists out', wrap hops ad out = (advance (length out) <$> hops, Ok out') /\
    length out' = length out /\ foldl relay_peel out' hops = out.
Proof.
  induction 1 as [|h hops Hh Hhops IH]; [by exists out|].
  destruct IH as (o1 & Hw & Hl & Hf). cbn [wrap]. rewrite Hw. unfold tor1 in Hh. rewrite Hh.
  rewrite xor_with_state. exists (xor_with (ForwardCipher h) o1).2. split_and!.
  - by rewrite fmap_cons, Hl.
  - by rewrite length_xor_with, Hl.
  - cbn [foldl]. unfold relay_peel at 2. by rewrite xor_with_involutive.
Qed.

Lemma originate_tor1 h ad payload :
  tor1 h ->
  exists h' out tag, originate h ad payload = (h', Ok (out, tag)) /\
    length out = length payload /\ relay_peel out h = stamp (ForwardDigest h) payload /\
    ForwardCipher h' = ForwardCipher (advance (length payload) h).
Proof.
  intros Hh. unfold originate. unfold tor1 in Hh. rewrite Hh.
  assert (exists d tag, (match ForwardDigest h with
    | Some written => if 9 <=? len payload then
        (Some (written ++ zero_digest payload), copy_at payload 5 (take 4 (H (written ++ zero_digest payload))),
         H (written ++ zero_digest payload))
        else (Some written, payload, [])
    | None => (None, payload, []) end) = (d, stamp (ForwardDigest h) payload, tag)) as (d & tag & ->).
  { unfold stamp. destruct (ForwardDigest h); [|by eauto]. case_if; by eauto. }
  assert (length (stamp (ForwardDigest h) payload) = length payload) as Hl.
  { unfold stamp. destruct (ForwardDigest h); [|done]. case_if; [|done]. bool_to_prop.
    apply length_copy_at. unfold len in *. lia. }
  rewrite xor_with_state. eexists _, _, tag. split; [done|]. split_and!.
  - by rewrite length_xor_with.
  - unfold relay_peel. by rewrite xor_with_involutive.
  - simpl. by rewrite Hl.
Qed.

Lemma zero_digest_stamp payload (sum : bytes) :
  (9 <= length payload)%nat -> (4 <= length sum)%nat ->
  zero_digest (copy_at payload 5 (take 4 sum)) = zero_digest payload.
Proof.
  intros Hp Hs. unfold zero_digest. apply list_eq. intros i.
  rewrite !lookup_copy_at by (rewrite ?length_copy_at, ?length_zeros, ?length_take; lia).
  rewrite length_zeros. case_decide; [done|]. rewrite length_take, decide_False by lia. done.
Qed.

Lemma slice_stamp payload (sum : bytes) :
  (9 <= length payload)%nat -> (4 <= length sum)%nat ->
  slice (copy_at payload 5 (take 4 sum)) 5 9 = take 4 sum.
Proof.
  intros Hp Hs. unfold copy_at. rewrite (take_ge (take 4 sum)) by (rewrite length_take; lia).
  apply slice_mid; rewrite !length_take; lia.
Qed.

(** A cell stamped with the digest of a hop is recognised there, and both sides
    go on with the same digest state. *)
Lemma stamp_recognized h written payload :
  BackwardDigest h = Some written -> (11 <= length payload)%nat ->
  be_get (slice payload 1 3) = 0 -> (forall m, (4 <= length (H m))%nat) ->
  tor1Recognized h (stamp (Some written) payload) =
    (set_bwd h (BackwardCipher h) (Some (written ++ zero_digest payload)), Some (H (written ++ zero_digest payload))).
Proof.
  intros Hd Hp Hrec Hlen. set (sum := H (written ++ zero_digest payload)).
  assert (stamp (Some written) payload = copy_at payload 5 (take 4 sum)) as ->.
  { unfold stamp. by rewrite (proj2 (Z.leb_le _ _)) by (unfold len; lia). }
  unfold tor1Recognized. rewrite Hd. pose proof (Hlen (written ++ zero_digest payload)) as Hl. fold sum in Hl.
  assert (length (copy_at payload 5 (take 4 sum)) = length payload) as Hlc by (apply length_copy_at; lia).
  rewrite (proj2 (Z.ltb_ge _ _)) by (unfold len; lia).
  assert (slice (copy_at payload 5 (take 4 sum)) 1 3 = slice payload 1 3) as ->.
  { apply list_eq. intros i. unfold slice. destruct (decide (i < 2)%nat).
    - rewrite !lookup_take_lt, !lookup_drop, lookup_copy_at, decide_False by (rewrite ?length_take; lia). done.
    - rewrite !lookup_take_ge by lia. done. }
  rewrite Hrec, zero_digest_stamp by lia. fold sum. simpl.
  rewrite slice_stamp by lia. by rewrite Conversion.ConstantTimeCompare_refl.
Qed.

(** The way back, relay by relay from the hop before the sender to the guard. *)
Definition relay_wrap_all (hops : list Hop) (out : bytes) : bytes := foldr relay_wrap out hops.

(** The hop with its backward cipher moved past [n] bytes. *)
Definition advance_back (n : nat) (h : Hop) : Hop :=
  set_bwd h ((fun c => mkCipher (keystream c) (pos c + n)) <$> BackwardCipher h) (BackwardDigest h).

(** No hop before the sender takes the cell for its own. *)
Fixpoint unrecognized (hops : list Hop) (out : bytes) : Prop :=
  match hops with
  | [] => True
  | h :: hops =>
      (tor1Recognized (advance_back (length out) h) (relay_wrap_all hops out)).2 = None /\ unrecognized hops out
  end.

Lemma length_relay_wrap_all hops out : length (relay_wrap_all hops out) = length out.
Proof. induction hops as [|h hops IH]; [done|]. simpl. unfold relay_wrap. by rewrite length_xor_with. Qed.

Lemma tor1Recognized_none h out : (tor1Recognized h out).2 = None -> tor1Recognized h out = (h, None).
Proof. unfold tor1Recognized. repeat (case_match; try done). Qed.

Lemma peel_through hops rest i ad out :
  Forall tor1 hops -> unrecognized hops out ->
  peel (hops ++ rest) i ad (relay_wrap_all hops out) =
    let '(rest, r) := peel rest (i + len hops) ad out in ((advance_back (length out) <$> hops) ++ rest, r).
Proof.
  intros Hh. revert i. induction Hh as [|h hops Hh Hhops IH]; intros i Hu.
  - cbn [app relay_wrap_all foldr]. rewrite Z.add_0_r. simpl. by destruct (peel rest i ad out).
  - destruct Hu as [Hn Hu]. cbn [app peel]. unfold tor1 in Hh. rewrite Hh.
    rewrite xor_with_state. cbn [relay_wrap_all foldr].
    change (foldr relay_wrap out hops) with (relay_wrap_all hops out). unfold relay_wrap.
    rewrite length_xor_with, xor_with_involutive, length_relay_wrap_all.
    fold (advance_back (length out) h). rewrite (tor1Recognized_none _ _ Hn). rewrite IH by done.
    replace (i + 1 + len hops) with (i + len (h :: hops)) by (unfold len; simpl; lia).
    by destruct (peel rest _ ad out).
Qed.

(** ** Properties *)

(** Outgoing cells: the layers come off in the order of the hops.  On hops with
    classic onion keys, encryption to any hop succeeds; when the relays up to it,
    each with the cipher state the client had, remove one layer each from the
    guard on, the last one holds the cell with the running digest in its digest
    field; and the client's cipher states have moved on by exactly the length of
    the cell on these hops and on no other. *)
Theorem onion_forward_layers hops ad dest payload h :
  Forall tor1 hops -> hops !! dest = Some h ->
  exists hops' out tag,
    encryptOnion hops ad (Z.of_nat dest) payload = (hops', Ok (out, tag)) /\
    foldl relay_peel out (take (S dest) hops) = stamp (ForwardDigest h) payload /\
    ForwardCipher <$> hops' =
      (ForwardCipher <$> (advance (length payload) <$> take (S dest) hops)) ++ (ForwardCipher <$> drop (S dest) hops).
Proof.
  intros Hall Hh. pose proof (lookup_lt_Some _ _ _ Hh) as Hlt.
  assert (tor1 h) as Hth by (by eapply Forall_lookup_1).
  destruct (originate_tor1 h ad payload Hth) as (h' & o1 & tag & Ho & Hl1 & Hst & Hc).
  destruct (wrap_tor1 (take dest hops) ad o1) as (out & Hw & Hl2 & Hf); [by apply Forall_take|].
  exists ((advance (length o1) <$> take dest hops) ++ h' :: drop (S dest) hops), out, tag.
  unfold encryptOnion. rewrite (proj2 (Z.ltb_ge _ _)), (proj2 (Z.leb_gt _ _)) by (unfold len; lia).
  cbn [orb]. rewrite Nat2Z.id, Hh, Ho, Hw. rewrite (take_S_r _ _ h) by done.
  split_and!; [done | |].
  - by rewrite foldl_app, Hf.
  - rewrite !fmap_app, fmap_cons, Hc, Hl1, <- app_assoc. done.
Qed.

(** Incoming cells: the client attributes a cell to the hop that sent it.  When a
    relay stamps a cell with its running digest and every relay on the way back
    adds its layer, the client recovers exactly the stamped cell, names that hop
    and returns its digest as the tag, with all cipher states moved past the cell
    and the sender's digest state extended by it; provided no earlier hop's
    digest happens to match. *)
Theorem onion_backward_recognized hops h rest ad written payload :
  Forall tor1 hops -> tor1 h -> BackwardDigest h = Some written ->
  (11 <= length payload)%nat -> be_get (slice payload 1 3) = 0 -> (forall m, (4 <= length (H m))%nat) ->
  unrecognized hops (relay_wrap h (stamp (Some written) payload)) ->
  decryptOnion (hops ++ h :: rest) ad (relay_wrap_all (hops ++ [h]) (stamp (Some written) payload)) =
    ((advance_back (length payload) <$> hops) ++
       set_bwd (advance_back (length payload) h) (BackwardCipher (advance_back (length payload) h))
         (Some (written ++ zero_digest payload)) :: rest,
     Ok (stamp (Some written) payload, len hops, H (written ++ zero_digest payload), false)).
Proof.
  intros Hall Hh Hd Hp Hrec Hlen Hu. set (st := stamp (Some written) payload) in *.
  assert (length st = length payload) as Hst.
  { unfold st, stamp. case_if; [apply length_copy_at; lia | done]. }
  unfold decryptOnion. unfold relay_wrap_all at 1. rewrite foldr_app. cbn [foldr].
  fold (relay_wrap_all hops (relay_wrap h st)). rewrite peel_through by done.
  cbn [peel]. unfold tor1 in Hh. rewrite Hh, xor_with_state. unfold relay_wrap.
  rewrite length_xor_with, xor_with_involutive, Hst. fold (advance_back (length payload) h).
  unfold st. rewrite (stamp_recognized (advance_back (length payload) h) written payload) by done.
  by rewrite Z.add_0_l.
Qed.

End Onion.

(** ** Concrete hops *)

Definition no_cgo (g : unit) (_ : Z) (_ : bytes) : unit * option (bytes * bytes) := (g, None).
Definition no_fwd (g : unit) (_ : Z) (_ : bytes) : unit * option bytes := (g, None).
Definition no_bwd (g : unit) (_ : Z) (_ : bytes) : unit * option (bytes * bool * bytes) := (g, None).

(** A toy digest of 20 bytes. *)
Definition sample_H (m : bytes) : bytes := PutUint64 (foldl (fun a b => a * 31 + b) 7 m) ++ zeros 12.

Definition sample_hop (k : Z) : Hop (G := unit) :=
  mkHop (Some (mkCipher (fun n => Z.of_nat n * k mod 256) 0)) (Some (mkCipher (fun n => (Z.of_nat n + 3) * k mod 256) 0))
    (Some []) (Some []) None.

Definition sample_hops : list (Hop (G := unit)) := [sample_hop 5; sample_hop 7; sample_hop 11].
Definition sample_payload : bytes := [2; 0; 0; 0; 1; 0; 0; 0; 0; 0; 3; 65; 66; 67].

Lemma onion_forward_layers_witness :
  exists hops' out tag,
    encryptOnion sample_H no_cgo no_fwd 509 sample_hops 3 2 sample_payload = (hops', Ok (out, tag)) /\
    foldl relay_peel out sample_hops = stamp sample_H (Some []) sample_payload.
Proof.
  destruct (onion_forward_layers sample_H no_cgo no_fwd 509 sample_hops 3 2 sample_payload (sample_hop 11))
    as (hops' & out & tag & He & Hf & _).
  - repeat constructor.
  - reflexivity.
  - exists hops', out, tag. split; [exact He | exact Hf].
Defined.

Lemma onion_backward_recognized_witness :
  (decryptOnion sample_H no_bwd sample_hops 3
    (relay_wrap_all (take 2 sample_hops) (stamp sample_H (Some []) sample_payload))).2 =
  Ok (stamp sample_H (Some []) sample_payload, 1, sample_H ([] ++ zero_digest sample_payload), false).
Proof.
  pose proof (onion_backward_recognized sample_H no_bwd [sample_hop 5] (sample_hop 7) [sample_hop 11] 3 []
    sample_payload) as Hx.
  change (take 2 sample_hops) with ([sample_hop 5] ++ [sample_hop 7]).
  change sample_hops with ([sample_hop 5] ++ sample_hop 7 :: [sample_hop 11]).
  rewrite Hx; try reflexivity.
  - repeat constructor.
  - vm_compute. lia.
  - intros m. unfold sample_H. rewrite length_app, length_PutUint64. lia.
  - vm_compute. split; reflexivity.
Defined.

End Onion.
