(* ===== verification/Circuit.v ===== *)
(** * Circuits (pkg/circuit/circuit.go)

    The circuit object: its life cycle, the stream ids it hands out, the receive
    queue, the handler of incoming relay cells and the sending of outgoing ones,
    with the replay check of [Replay.v] and the windows of [FlowControl.v]; and
    the manager of circuits.  The hops hold the running ciphers and digests of
    [Onion.v], which every cell in or out advances; the hash, the CGO operations,
    the connection and the random source are arguments of the operations that
    use them; the goroutines an operation starts are returned as [task]s. *)

From S2P Require Import Prelude StreamID Conversion Cell RelayCell CellPayloads Replay CCParams Vegas FlowControl Stream CGO Onion.
Import StreamID.

Module Circuit.

Abbreviation State := FlowControl.State.

Definition String (s : State) : string :=
  match s with
  | FlowControl.StateBuilding => "BUILDING"
  | FlowControl.StateOpen => "OPEN"
  | FlowControl.StateClosed => "CLOSED"
  | FlowControl.StateFailed => "FAILED"
  end.

(** [layer] holds the ciphers, digests and CGO keys of the hop. *)
Record Hop := mkHop {
  Fingerprint : string;
  Address : string;
  IsGuard : bool;
  IsExit : bool;
  layer : @Onion.Hop CGO.CGOPair;
}.

Definition NewHop (fingerprint address : string) (isGuard isExit : bool) : Hop :=
  mkHop fingerprint address isGuard isExit (Onion.mkHop None None None None None).

(** The hops with their layers replaced. *)
Definition put_layers (hops : list Hop) (layers : list (@Onion.Hop CGO.CGOPair)) : list Hop :=
  zip_with (fun h l => mkHop (Fingerprint h) (Address h) (IsGuard h) (IsExit h) l) hops layers.

Record Circuit := mkCircuit {
  ID : Z;
  CState : State;
  Hops : list Hop;
  conn : bool;   (** a connection is attached *)
  flow : FlowControl.Flow;
  nextStreamID : Z;
  usedStreamIDs : gset Z;
  relayReceiveChan : option (list RelayCell.RelayCell);   (** [None] once closed *)
  replayProtection : option Replay.ReplayProtection;
  destroyReason : option Z;   (** set when [destroyCh] is closed *)
  mux : bool;   (** a multiplexer is attached *)
  conflux : option (list Z);   (** the ids of the legs of the set it belongs to *)
}.

Inductive error :=
| errHopState (s : State)
| errNoFreeID
| errCircIDMismatch
| errOnion
| errReplay (e : Replay.error)
| errDecode (e : RelayCell.error)
| errFlow (e : FlowControl.error)
| errSendme (e : FlowControl.error)
| errConflux
| errClosed
| errChanFull
| errDestroyed (reason : Z)
| errContext
| errNotUsable (s : State)
| errNoConn
| errEncode (e : RelayCell.error)
| errRand
| errSendCell
| errManagerClosed
| errNoCircuitIDs
| errCircuitNotFound (id : Z)
| errAlreadyClosed
| errRejected (reason : option Z)
| errHopIndex (i : Z)
| errNoManager
| errNoStream (id : Z)
| errStream (e : Stream.error)
| EOF.

(** Field updates. *)
Definition with_state (c : Circuit) (v : State) : Circuit :=
  mkCircuit (ID c) v (Hops c) (conn c) (flow c) (nextStreamID c) (usedStreamIDs c) (relayReceiveChan c)
    (replayProtection c) (destroyReason c) (mux c) (conflux c).
Definition with_hops (c : Circuit) (v : list Hop) : Circuit :=
  mkCircuit (ID c) (CState c) v (conn c) (flow c) (nextStreamID c) (usedStreamIDs c) (relayReceiveChan c)
    (replayProtection c) (destroyReason c) (mux c) (conflux c).
Definition with_flow (c : Circuit) (v : FlowControl.Flow) : Circuit :=
  mkCircuit (ID c) (CState c) (Hops c) (conn c) v (nextStreamID c) (usedStreamIDs c) (relayReceiveChan c)
    (replayProtection c) (destroyReason c) (mux c) (conflux c).
Definition with_ids (c : Circuit) (next : Z) (used : gset Z) : Circuit :=
  mkCircuit (ID c) (CState c) (Hops c) (conn c) (flow c) next used (relayReceiveChan c)
    (replayProtection c) (destroyReason c) (mux c) (conflux c).
Definition with_chan (c : Circuit) (v : option (list RelayCell.RelayCell)) : Circuit :=
  mkCircuit (ID c) (CState c) (Hops c) (conn c) (flow c) (nextStreamID c) (usedStreamIDs c) v
    (replayProtection c) (destroyReason c) (mux c) (conflux c).
Definition with_replay (c : Circuit) (v : option Replay.ReplayProtection) : Circuit :=
  mkCircuit (ID c) (CState c) (Hops c) (conn c) (flow c) (nextStreamID c) (usedStreamIDs c)
    (relayReceiveChan c) v (destroyReason c) (mux c) (conflux c).
Definition with_destroyed (c : Circuit) (v : option Z) : Circuit :=
  mkCircuit (ID c) (CState c) (Hops c) (conn c) (flow c) (nextStreamID c) (usedStreamIDs c)
    (relayReceiveChan c) (replayProtection c) v (mux c) (conflux c).
Definition with_links (c : Circuit) (m : bool) (v : option (list Z)) : Circuit :=
  mkCircuit (ID c) (CState c) (Hops c) (conn c) (flow c) (nextStreamID c) (usedStreamIDs c)
    (relayReceiveChan c) (replayProtection c) (destroyReason c) m v.

Definition NewCircuit (id : Z) : Circuit :=
  mkCircuit id FlowControl.StateBuilding [] false FlowControl.new_flow 1 ∅ (Some [])
    (Some Replay.NewReplayProtection) None false None.

(** [destroyOnce]: only the first reason counts. *)
Definition NotifyDestroyed (c : Circuit) (reason : Z) : Circuit :=
  match destroyReason c with
  | Some _ => c
  | None => with_destroyed c (Some reason)
  end.

Definition AddHop (c : Circuit) (hop : Hop) : Circuit * option error :=
  if negb (bool_decide (CState c = FlowControl.StateBuilding)) then (c, Some (errHopState (CState c)))
  else (with_hops c (Hops c ++ [hop]), None).

Definition AddHSHop (c : Circuit) (hop : Hop) : Circuit * option error :=
  if negb (bool_decide (CState c = FlowControl.StateOpen)) &&
     negb (bool_decide (CState c = FlowControl.StateBuilding))
  then (c, Some (errHopState (CState c)))
  else (with_hops c (Hops c ++ [hop]), None).

Definition SetState (c : Circuit) (s : State) : Circuit := with_state c s.
Definition GetState (c : Circuit) : State := CState c.
Definition Length (c : Circuit) : Z := len (Hops c).
Definition IsReady (c : Circuit) : bool := bool_decide (GetState c = FlowControl.StateOpen).

Definition SetConnection (c : Circuit) (present : bool) : Circuit :=
  mkCircuit (ID c) (CState c) (Hops c) present (flow c) (nextStreamID c) (usedStreamIDs c)
    (relayReceiveChan c) (replayProtection c) (destroyReason c) (mux c) (conflux c).
Definition SetMux (c : Circuit) (present : bool) : Circuit := with_links c present (conflux c).

Definition attachConflux (c : Circuit) (legs : list Z) : Circuit := with_links c (mux c) (Some legs).
Definition detachConflux (c : Circuit) : Circuit := with_links c (mux c) None.

(** What [Close] asks of other objects: [set.onLegClosed(c)], then closing the
    multiplexer, or the connection when there is none. *)
Inductive closing := ClosingLeg (legs : list Z) | ClosingMux | ClosingConn.

Definition Close (c : Circuit) : Circuit * list closing :=
  if bool_decide (CState c = FlowControl.StateClosed) then (c, [])
  else
    let effects := match conflux c with Some legs => [ClosingLeg legs] | None => [] end ++
                   (if mux c then [ClosingMux] else if conn c then [ClosingConn] else []) in
    let c := with_chan (with_links (with_state c FlowControl.StateClosed) false None) None in
    let c := NotifyDestroyed c 0 in
    (with_flow c (FlowControl.wakeSenders (flow c)), effects).

(** ** Stream ids *)

(** The loop of [AllocateStreamID], with its test for id 0. *)
Fixpoint allocate (fuel : nat) (used : gset Z) (start next : Z) : probe_result :=
  match fuel with
  | O => OutOfFuel
  | S fuel =>
      let id := next in
      let next := next_id next in
      if id =? 0 then allocate fuel used start next
      else if bool_decide (id ∈ used) then
        if next =? start then Exhausted else allocate fuel used start next
      else Found id next
  end.

(** [None] would be a loop that does not end.  [nextStreamID] keeps the value the
    walk has reached, also when it fails. *)
Definition AllocateStreamID (c : Circuit) : Circuit * option (result error Z) :=
  let start := if nextStreamID c =? 0 then 1 else nextStreamID c in
  match allocate id_space (usedStreamIDs c) start start with
  | OutOfFuel => (c, None)
  | Exhausted => (with_ids c start (usedStreamIDs c), Some (Err errNoFreeID))
  | Found id next => (with_ids c next ({[id]} ∪ usedStreamIDs c), Some (Ok id))
  end.

Definition ReleaseStreamID (c : Circuit) (id : Z) : Circuit :=
  if id =? 0 then c else with_ids c (nextStreamID c) (usedStreamIDs c ∖ {[id]}).

(** ** Receiving *)

Definition relayChanCap : Z := 32.

(** A full queue that nobody reads within the timeout refuses the cell. *)
Definition enqueueRelayCell (c : Circuit) (rc : RelayCell.RelayCell) : Circuit * option error :=
  match relayReceiveChan c with
  | None => (c, Some errClosed)
  | Some q =>
      if len q <? relayChanCap then (with_chan c (Some (q ++ [rc])), None)
      else (c, Some errChanFull)
  end.

Inductive recv_case := CaseDestroyed | CaseChan | CaseCtx.

(** [None] while the caller blocks. *)
Definition ReceiveRelayCell (pick : nat) (ctxDone : bool) (c : Circuit) :
    Circuit * option (result error RelayCell.RelayCell) :=
  match select pick
          ((match destroyReason c with Some _ => [CaseDestroyed] | None => [] end) ++
           (match relayReceiveChan c with Some [] => [] | _ => [CaseChan] end) ++
           (if ctxDone then [CaseCtx] else [])) with
  | None => (c, None)
  | Some CaseDestroyed => (c, Some (Err (errDestroyed (default 0 (destroyReason c)))))
  | Some CaseCtx => (c, Some (Err errContext))
  | Some CaseChan =>
      match relayReceiveChan c with
      | Some (rc :: q) => (with_chan c (Some q), Some (Ok rc))
      | _ => (c, Some (Err errClosed))
      end
  end.

Definition snapshotBackwardDigest (Hash : bytes -> bytes) (c : Circuit) (hopIdx : Z) : bytes :=
  if (hopIdx <? 0) || (len (Hops c) <=? hopIdx) then []
  else
    match Hops c !! Z.to_nat hopIdx with
    | Some hop => match Onion.BackwardDigest (layer hop) with Some written => Hash written | None => [] end
    | None => []
    end.

Definition GetReplayAttempts (c : Circuit) : Z :=
  match replayProtection c with None => 0 | Some r => Replay.TotalReplayAttempts r end.

Definition ResetReplayProtection (c : Circuit) : Circuit :=
  match replayProtection c with None => c | Some r => with_replay c (Some (Replay.Reset r)) end.

Definition ValidateCellForReplay (Sum256 : bytes -> bytes) (c : Circuit) (d : Replay.ReplayDirection)
    (cellData : bytes) : Circuit * option Replay.error :=
  match replayProtection c with
  | None => (c, None)
  | Some r => let '(r, e) := Replay.ValidateAndTrackAuto Sum256 r d cellData in (with_replay c (Some r), e)
  end.

(** The goroutines [DeliverRelayCell] starts. *)
Inductive task :=
| TaskCircuitSendme (tag : bytes)
| TaskStreamSendme (streamID : Z).

Section Handlers.
Context `{FlowControl.StreamTable T St}.
Context (Sum256 Hash : bytes -> bytes).
(** The operations of a hop's CGO keys (pkg/crypto). *)
Context (ClientOriginate : CGO.CGOPair -> Z -> bytes -> CGO.CGOPair * option (bytes * bytes)).
Context (ClientForward : CGO.CGOPair -> Z -> bytes -> CGO.CGOPair * option bytes).
Context (ClientBackward : CGO.CGOPair -> Z -> bytes -> CGO.CGOPair * option (bytes * bool * bytes)).
Context (CGOMsgLen : Z).

(** The layers of the circuit's hops advance. *)
Definition encryptOnion (c : Circuit) (ad dest : Z) (payload : bytes) : Circuit * result Onion.error (bytes * bytes) :=
  let '(layers, r) := Onion.encryptOnion Hash ClientOriginate ClientForward CGOMsgLen (layer <$> Hops c) ad dest payload in
  (with_hops c (put_layers (Hops c) layers), r).

Definition decryptOnion (c : Circuit) (ad : Z) (payload : bytes) :
    Circuit * result Onion.error (bytes * Z * bytes * bool) :=
  let '(layers, r) := Onion.decryptOnion Hash ClientBackward (layer <$> Hops c) ad payload in
  (with_hops c (put_layers (Hops c) layers), r).

Abbreviation world := (Circuit * option T)%type.

(** The flow-control part of [DeliverRelayCell].  [Some r]: the handler is done
    with result [r]; [None]: the cell goes on to the application. *)
Definition deliver_flow (broken : bool) (now : Z) (blocked : option bool) (w : world)
    (rc : RelayCell.RelayCell) (hopIdx : Z) (onionTag : bytes) (v1 : bool) :
    bool * world * list task * option (option error) :=
  let '(c, mgr) := w in
  if RelayCell.Command rc =? RelayCell.RelayData then
    let cellTag := if len onionTag =? 0 then snapshotBackwardDigest Hash c hopIdx else onionTag in
    match FlowControl.decrementDeliverWindowAndTakeSendme (flow c) with
    | (f, Err e) => (broken, (with_flow c f, mgr), [], Some (Some (errFlow (FlowControl.errCircuitFlow e))))
    | (f, Ok sendSendme) =>
        let c := with_flow c f in
        let tasks := if sendSendme then [TaskCircuitSendme (FlowControl.cloneDigest cellTag)] else [] in
        if negb v1 && (0 <? RelayCell.StreamID rc) then
          match FlowControl.decrementStreamDeliverWindow mgr (RelayCell.StreamID rc) with
          | (mgr, Some e) => (broken, (c, mgr), tasks, Some (Some (errFlow (FlowControl.errStreamFlow e))))
          | (mgr, None) =>
              let tasks := if FlowControl.shouldSendStreamSendme mgr (RelayCell.StreamID rc)
                           then tasks ++ [TaskStreamSendme (RelayCell.StreamID rc)] else tasks in
              (broken, (c, mgr), tasks, None)
          end
        else (broken, (c, mgr), tasks, None)
    end
  else if RelayCell.Command rc =? RelayCell.RelaySendme then
    if RelayCell.StreamID rc =? 0 then
      match FlowControl.processCircuitSendme broken now blocked (flow c) (RelayCell.Data rc) with
      | (broken, f, Some e) =>
          (broken, (NotifyDestroyed (SetState (with_flow c f) FlowControl.StateFailed) 1, mgr), [],
           Some (Some (errSendme e)))
      | (broken, f, None) => (broken, (with_flow c f, mgr), [], Some None)
      end
    else
      let '(f, mgr) := FlowControl.incrementStreamPackageWindow (flow c, mgr) (RelayCell.StreamID rc) in
      (broken, (with_flow c f, mgr), [], Some None)
  else (broken, w, [], None).

(** What [DeliverRelayCell] does with a payload a hop has recognised.  [conflux] is
    the handler of the Conflux set the circuit belongs to, if any: it takes the
    cell over when it answers [Ok true]; [failAndClose] is what a failure of it
    does. *)
Definition process_payload (broken : bool) (now : Z) (blocked : option bool)
    (conflux : option (Circuit -> RelayCell.RelayCell -> Z -> Circuit * result unit bool))
    (failAndClose : Circuit -> Circuit)
    (w : world) (payload : bytes) (hopIdx : Z) (onionTag : bytes) (v1 : bool) :
    bool * world * list task * option error :=
  match (if v1 then RelayCell.DecodeRelayCellV1 payload else RelayCell.DecodeRelayCell payload) with
  | Err e => (broken, w, [], Some (errDecode e))
  | Ok rc =>
      match deliver_flow broken now blocked w rc hopIdx onionTag v1 with
      | (broken, w, tasks, Some r) => (broken, w, tasks, r)
      | (broken, (c, mgr), tasks, None) =>
          let '(c, r) := match conflux with
                         | None => (c, Ok false)
                         | Some h => h c rc hopIdx
                         end in
          match r with
          | Err _ => (broken, (NotifyDestroyed (failAndClose c) 1, mgr), tasks, Some errConflux)
          | Ok true => (broken, (c, mgr), tasks, None)
          | Ok false =>
              let '(c, e) := enqueueRelayCell c rc in (broken, (c, mgr), tasks, e)
          end
      end
  end.

(** The handler of incoming relay cells. *)
Definition DeliverRelayCell (broken : bool) (now : Z) (blocked : option bool)
    (conflux : option (Circuit -> RelayCell.RelayCell -> Z -> Circuit * result unit bool))
    (failAndClose : Circuit -> Circuit)
    (w : world) (cellData : Cell.Cell) : bool * world * list task * option error :=
  let '(c, mgr) := w in
  if negb (Cell.CircID cellData =? ID c) then (broken, w, [], Some errCircIDMismatch)
  else
    match decryptOnion c (Cell.Command cellData) (Cell.Payload cellData) with
    | (c, Err _) => (broken, (c, mgr), [], Some errOnion)
    | (c, Ok (payload, hopIdx, onionTag, v1)) =>
        let '(c, e) := ValidateCellForReplay Sum256 c Replay.ReplayBackward payload in
        match e with
        | Some e => (broken, (c, mgr), [], Some (errReplay e))
        | None =>
            if hopIdx <? 0 then (broken, (c, mgr), [], None)
            else process_payload broken now blocked conflux failAndClose (c, mgr) payload hopIdx onionTag v1
        end
    end.

(** A goroutine's body. *)
Definition run_task (send : RelayCell.RelayCell -> option FlowControl.error) (w : world) (t : task) : world :=
  let '(c, mgr) := w in
  match t with
  | TaskCircuitSendme tag =>
      match FlowControl.sendCircuitSendme send (flow c) tag with
      | (f, Ok _) => (with_flow c f, mgr)
      | (f, Err _) => (NotifyDestroyed (SetState (with_flow c f) FlowControl.StateFailed) 1, mgr)
      end
  | TaskStreamSendme streamID =>
      let '(mgr, _) := FlowControl.sendStreamSendme send mgr streamID in (c, mgr)
  end.

(** ** Sending *)

Definition destUsesCGO (c : Circuit) : bool :=
  match last (Hops c) with Some hop => Onion.usesCGO (layer hop) | None => false end.

Definition relayDataMaxLocal (c : Circuit) : Z :=
  if destUsesCGO c then RelayCell.RelayCellMaxDataV1 RelayCell.RelayData
  else Z.of_nat (Cell.PayloadLen - RelayCell.RelayCellHeaderLen).

Definition hasSendRoom (c : Circuit) : bool :=
  if negb (bool_decide (CState c = FlowControl.StateOpen)) then false
  else
    match FlowControl.vegas (flow c) with
    | Some v => 0 <? Vegas.packageWindow v
    | None => 0 <? FlowControl.packageWindow (flow c)
    end.

(** The payload with its padding randomised: [random n] is [n] random bytes, or a
    failure of the random source. *)
Definition encode_payload (random : nat -> option bytes) (destCGO : bool) (rc : RelayCell.RelayCell) :
    result error bytes :=
  if destCGO then
    match RelayCell.EncodeRelayCellV1 rc with
    | Err e => Err (errEncode e)
    | Ok (payload, _) =>
        let pad := Z.to_nat (RelayCell.V1MessageEnd payload + 4) in
        if (pad <? length payload)%nat then
          match random (length payload - pad)%nat with
          | None => Err errRand
          | Some r => Ok (copy_at payload pad r)
          end
        else Ok payload
    end
  else
    match RelayCell.Encode rc with
    | Err e => Err (errEncode e)
    | Ok (payload, rc) =>
        if RelayCell.Command rc =? RelayCell.RelayData then
          let pad := (RelayCell.RelayCellHeaderLen + Z.to_nat (RelayCell.Length rc))%nat in
          if (pad <? length payload)%nat then
            match random (length payload - pad)%nat with
            | None => Err errRand
            | Some r => Ok (copy_at payload pad r)
            end
          else Ok payload
        else Ok payload
    end.

Definition link_command (rc : RelayCell.RelayCell) : Z :=
  if (RelayCell.Command rc =? RelayCell.RelayExtend2) || (RelayCell.Command rc =? RelayCell.RelayExtend)
  then Cell.CmdRelayEarly else Cell.CmdRelay.

(** [sendCell] tells whether the connection took the cell. *)
Definition emitRelayCell (now : Z) (random : nat -> option bytes) (sendCell : Cell.Cell -> bool)
    (w : world) (rc : RelayCell.RelayCell) (recordSendme reserved : bool) : world * result error Cell.Cell :=
  let '(c, mgr) := w in
  let destCGO := destUsesCGO c in
  let refund (c : Circuit) : world :=
    if reserved
    then let '(f, mgr) := FlowControl.refundReservedWindows (flow c, mgr) (RelayCell.StreamID rc) destCGO in
         (with_flow c f, mgr)
    else (c, mgr) in
  if negb (bool_decide (CState c = FlowControl.StateOpen)) &&
     negb (bool_decide (CState c = FlowControl.StateBuilding))
  then (refund c, Err (errNotUsable (CState c)))
  else if negb (conn c) then (refund c, Err errNoConn)
  else
    match encode_payload random destCGO rc with
    | Err e => (refund c, Err e)
    | Ok payload =>
        let cmd := link_command rc in
        match (if 0 <? len (Hops c) then encryptOnion c cmd (len (Hops c) - 1) payload else (c, Ok (payload, []))) with
        | (c, Err _) => (refund c, Err errOnion)
        | (c, Ok (encrypted, forwardTag)) =>
            let cell := Cell.mkCell (ID c) cmd encrypted in
            if negb (sendCell cell) then (refund c, Err errSendCell)
            else
              let c := if recordSendme
                       then with_flow c (FlowControl.recordSendmeTag now (flow c) forwardTag) else c in
              ((c, mgr), Ok cell)
        end
    end.

(** [None] while the sender still waits for a window. *)
Definition sendRelayCellLocal (now : Z) (random : nat -> option bytes) (sendCell : Cell.Cell -> bool)
    (waits : list (FlowControl.wait_env * (FlowControl.Flow * option T -> FlowControl.Flow * option T)))
    (w : world) (rc : RelayCell.RelayCell) : world * option (result error Cell.Cell) :=
  let '(c, mgr) := w in
  if RelayCell.Command rc =? RelayCell.RelayData then
    match FlowControl.reserveDataWindows waits (flow c, mgr) (RelayCell.StreamID rc) (destUsesCGO c) with
    | ((f, mgr), None) => ((with_flow c f, mgr), None)
    | ((f, mgr), Some (Err e)) => ((with_flow c f, mgr), Some (Err (errFlow e)))
    | ((f, mgr), Some (Ok recordSendme)) =>
        let '(w, r) := emitRelayCell now random sendCell (with_flow c f, mgr) rc recordSendme true in
        (w, Some r)
    end
  else
    let '(w, r) := emitRelayCell now random sendCell w rc false false in (w, Some r).

(** The destination is any hop; the windows are not touched. *)
Definition SendRelayCellToHop (random : nat -> option bytes) (sendCell : Cell.Cell -> bool)
    (c : Circuit) (rc : RelayCell.RelayCell) (hopIndex : Z) : Circuit * result error Cell.Cell :=
  if negb (bool_decide (CState c = FlowControl.StateOpen)) &&
     negb (bool_decide (CState c = FlowControl.StateBuilding))
  then (c, Err (errNotUsable (CState c)))
  else
    match (if hopIndex <? 0 then None else Hops c !! Z.to_nat hopIndex) with
    | None => (c, Err (errHopIndex hopIndex))
    | Some hop =>
        if negb (conn c) then (c, Err errNoConn)
        else
          match (if Onion.usesCGO (layer hop) then encode_payload random true rc
                 else match RelayCell.Encode rc with Err e => Err (errEncode e) | Ok (payload, _) => Ok payload end) with
          | Err e => (c, Err e)
          | Ok payload =>
              match encryptOnion c Cell.CmdRelay hopIndex payload with
              | (c, Err _) => (c, Err errOnion)
              | (c, Ok (encrypted, _)) =>
                  let cell := Cell.mkCell (ID c) Cell.CmdRelay encrypted in
                  if negb (sendCell cell) then (c, Err errSendCell) else (c, Ok cell)
              end
          end
    end.

End Handlers.

(** [multiplexed] is [sendMultiplexed] of the set the circuit belongs to, when it
    is linked, and [local] is [sendRelayCellLocal] of the circuit. *)
Definition SendRelayCell {R} (multiplexed : option (RelayCell.RelayCell -> R)) (local : RelayCell.RelayCell -> R)
    (rc : RelayCell.RelayCell) : R :=
  if Conflux.ConfluxShouldMultiplex (RelayCell.Command rc) then
    match multiplexed with Some send => send rc | None => local rc end
  else local rc.

(** [setMax] is [relayDataMax] of the set, when it is linked. *)
Definition RelayDataMax (setMax : option Z) (c : Circuit) : Z :=
  match setMax with Some m => m | None => relayDataMaxLocal c end.

(** ** Streams over a circuit *)

(** [pick] resolves the [select] of the stream's [ReceiveData]. *)
Definition deliverToStream (pick : nat) (mgr : option Stream.CircuitBound) (rc : RelayCell.RelayCell) :
    option Stream.CircuitBound * option error :=
  match mgr with
  | None => (mgr, Some errNoManager)
  | Some b =>
      match Stream.bound_GetStream b (RelayCell.StreamID rc) with
      | None => (mgr, Some (errNoStream (RelayCell.StreamID rc)))
      | Some s =>
          let receive data :=
            let '(s, e) := Stream.ReceiveData pick s data in
            (Some (Stream.bound_update b (RelayCell.StreamID rc) s), errStream <$> e) in
          if RelayCell.Command rc =? RelayCell.RelayData then receive (RelayCell.Data rc)
          else if RelayCell.Command rc =? RelayCell.RelayEnd then receive []
          else (mgr, None)
      end
  end.

(** The loop of [WriteToStream]: [send] is [SendRelayCell] on the circuit's state.
    The cells handed to [send] are collected; [None] would be a loop that does
    not end. *)
Fixpoint write_loop {S} (fuel : nat) (send : S -> RelayCell.RelayCell -> S * option error) (max : Z)
    (streamID : Z) (s : S) (data : bytes) : S * list RelayCell.RelayCell * option (option error) :=
  match fuel with
  | O => (s, [], None)
  | Datatypes.S fuel =>
      if 0 <? len data then
        let n := if max <? len data then max else len data in
        match RelayCell.NewRelayCell streamID RelayCell.RelayData (take (Z.to_nat n) data) with
        | Err e => (s, [], Some (Some (errEncode e)))
        | Ok rc =>
            match send s rc with
            | (s, Some e) => (s, [rc], Some (Some e))
            | (s, None) =>
                let '(s, sent, r) := write_loop fuel send max streamID s (drop (Z.to_nat n) data) in
                (s, rc :: sent, r)
            end
        end
      else (s, [], Some None)
  end.

Definition WriteToStream {S} (send : S -> RelayCell.RelayCell -> S * option error) (max : Z)
    (streamID : Z) (s : S) (data : bytes) : S * list RelayCell.RelayCell * option (option error) :=
  write_loop (Datatypes.S (length data)) send max streamID s data.

Definition EndStream {S} (send : S -> RelayCell.RelayCell -> S * option error) (streamID reason : Z) (s : S) :
    S * option error :=
  match RelayCell.NewRelayCell streamID RelayCell.RelayEnd [reason] with
  | Err e => (s, Some (errEncode e))
  | Ok rc => send s rc
  end.

(** The loop of [ReadFromStream]; one [pick] per turn resolves its [select], and
    that of the stream a cell of another stream is handed to.  [None]: the caller
    blocks, or the picks given do not end the loop. *)
Fixpoint ReadFromStream (picks : list nat) (ctxDone : bool) (streamID : Z)
    (w : Circuit * option Stream.CircuitBound) :
    (Circuit * option Stream.CircuitBound) * option (result error bytes) :=
  let '(c, mgr) := w in
  match picks with
  | [] => (w, None)
  | pick :: picks =>
      match ReceiveRelayCell pick ctxDone c with
      | (c, None) => ((c, mgr), None)
      | (c, Some (Err e)) => ((c, mgr), Some (Err e))
      | (c, Some (Ok rc)) =>
          if negb (RelayCell.StreamID rc =? streamID) then
            let '(mgr, _) := deliverToStream pick mgr rc in ReadFromStream picks ctxDone streamID (c, mgr)
          else if RelayCell.Command rc =? RelayCell.RelayData then ((c, mgr), Some (Ok (RelayCell.Data rc)))
          else if RelayCell.Command rc =? RelayCell.RelayEnd then ((c, mgr), Some (Err EOF))
          else ReadFromStream picks ctxDone streamID (c, mgr)
      end
  end.

Fixpoint waitStreamConnected (picks : list nat) (ctxDone : bool) (streamID : Z)
    (w : Circuit * option Stream.CircuitBound) :
    (Circuit * option Stream.CircuitBound) * option (option error) :=
  let '(c, mgr) := w in
  match picks with
  | [] => (w, None)
  | pick :: picks =>
      match ReceiveRelayCell pick ctxDone c with
      | (c, None) => ((c, mgr), None)
      | (c, Some (Err e)) => ((c, mgr), Some (Some e))
      | (c, Some (Ok rc)) =>
          if negb (RelayCell.StreamID rc =? streamID) then
            let '(mgr, _) := deliverToStream pick mgr rc in waitStreamConnected picks ctxDone streamID (c, mgr)
          else if RelayCell.Command rc =? RelayCell.RelayEnd then
            ((c, mgr), Some (Some (errRejected (RelayCell.Data rc !! 0%nat))))
          else if RelayCell.Command rc =? RelayCell.RelayConnected then ((c, mgr), Some None)
          else waitStreamConnected picks ctxDone streamID (c, mgr)
      end
  end.

(** ** The manager *)

Record Manager := mkManager {
  circuits : gmap Z Circuit;
  nextID : Z;
  closed : bool;
}.

(** [random] is the four random bytes, [None] when the source fails. *)
Definition newClientCircID (random : option bytes) : Z :=
  match random with
  | None => 2147483649
  | Some b =>
      let id := Z.lor (be_get b) 2147483648 in
      if id =? 2147483648 then 2147483649 else id
  end.

Definition NewManager (random : option bytes) : Manager := mkManager ∅ (newClientCircID random) false.

(** The search of [CreateCircuit]; each turn draws from the random source.
    [None]: the draws given do not end it. *)
Fixpoint pick_circ_id (draws : list (option bytes)) (m : Manager) (id : Z) :
    option (result error Z * list (option bytes)) :=
  match circuits m !! id with
  | None => if negb (id =? 0) then Some (Ok id, draws) else
      match draws with
      | [] => None
      | d :: draws =>
          let id := newClientCircID d in
          if id =? nextID m then Some (Err errNoCircuitIDs, draws) else pick_circ_id draws m id
      end
  | Some _ =>
      match draws with
      | [] => None
      | d :: draws =>
          let id := newClientCircID d in
          if id =? nextID m then Some (Err errNoCircuitIDs, draws) else pick_circ_id draws m id
      end
  end.

Definition CreateCircuit (draws : list (option bytes)) (m : Manager) :
    Manager * option (result error Z) :=
  if closed m then (m, Some (Err errManagerClosed))
  else
    match pick_circ_id draws m (nextID m) with
    | None => (m, None)
    | Some (Err e, _) => (m, Some (Err e))
    | Some (Ok id, draws) =>
        match draws with
        | [] => (m, None)
        | d :: _ =>
            (mkManager (<[id := NewCircuit id]> (circuits m)) (newClientCircID d) (closed m), Some (Ok id))
        end
    end.

Definition GetCircuit (m : Manager) (id : Z) : result error Circuit :=
  match circuits m !! id with None => Err (errCircuitNotFound id) | Some c => Ok c end.

Definition sweepClosed (m : Manager) : Manager :=
  mkManager (filter (fun '(_, c) => GetState c <> FlowControl.StateClosed) (circuits m)) (nextID m) (closed m).

(** Circuits by id; [onLegClosed] of a set that is still open detaches and closes
    its other legs. *)
Definition close_leg (id : Z) (objs : gmap Z Circuit) (o : Z) : gmap Z Circuit :=
  if o =? id then objs
  else match objs !! o with None => objs | Some d => <[o := (Close (detachConflux d)).1]> objs end.

Definition close_object (objs : gmap Z Circuit) (id : Z) : gmap Z Circuit :=
  match objs !! id with
  | None => objs
  | Some c =>
      let '(c, effects) := Close c in
      foldl (fun objs e => match e with ClosingLeg legs => foldl (close_leg id) objs legs | _ => objs end)
        (<[id := c]> objs) effects
  end.

(** The closed circuit is returned beside the manager it was removed from. *)
Definition CloseCircuit (m : Manager) (id : Z) : Manager * result error (option Circuit) :=
  match circuits m !! id with
  | None => (m, Err (errCircuitNotFound id))
  | Some _ =>
      let objs := close_object (circuits m) id in
      (sweepClosed (mkManager (delete id objs) (nextID m) (closed m)), Ok (objs !! id))
  end.

Definition Count (m : Manager) : Z := Z.of_nat (size (circuits m)).

(** The circuits taken out of the map are closed one after the other. *)
Definition CloseManager (m : Manager) : Manager * result error (gmap Z Circuit) :=
  if closed m then (m, Err errAlreadyClosed)
  else (mkManager ∅ (nextID m) true, Ok (foldl close_object (circuits m) (map_to_list (circuits m)).*1)).

Definition IsClosed (m : Manager) : bool := closed m.

(** ** Lemmas *)

Lemma allocate_probe fuel used start next :
  valid_id next ->
  allocate fuel used start next = probe fuel (fun id => bool_decide (id ∈ used)) start next.
Proof.
  revert next. induction fuel as [|fuel IH]; intros next Hn; [done|]. cbn [allocate probe].
  rewrite (proj2 (Z.eqb_neq _ _)) by (unfold valid_id in Hn; lia).
  rewrite IH by auto with gotor. by destruct (bool_decide (next ∈ used)).
Qed.

(** The stream ids of a circuit are in order. *)
Definition ids_ok (c : Circuit) : Prop := 0 <= nextStreamID c <= 65535 /\ forall id, id ∈ usedStreamIDs c -> valid_id id.

(** A payload the replay check accepted is a duplicate right afterwards. *)
Lemma auto_then_duplicate sum r d data r' :
  0 <= Replay.windowSize r -> is_u 64 (Replay.seq (Replay.get_half d r)) ->
  Replay.ValidateAndTrackAuto sum r d data = (r', None) ->
  exists r'' e, Replay.ValidateAndTrackAuto sum r' d data = (r'', Some e).
Proof.
  intros Hw Hs. rewrite !Replay.ValidateAndTrackAuto_half. destruct (len data =? 0); [done|].
  destruct (Replay.validateAutoDir _ _ _) as [h e] eqn:Ev. intros [= <- ->].
  rewrite Replay.windowSize_set_half, Replay.get_set_half, decide_True by done.
  unfold Replay.validateAutoDir, Replay.validateDirLocked in Ev.
  destruct (Replay.digests _ !! _) as [x|] eqn:Ed; [done|].
  destruct (Replay.validateSequence _ _ _ _) eqn:Evs; [done|]. simplify_eq.
  unfold Replay.validateAutoDir, Replay.validateDirLocked. simpl.
  assert (filter (fun kv : bytes * Z => (if Replay.windowSize r <? Replay.seq (Replay.get_half d r)
      then u64 (Replay.seq (Replay.get_half d r) - Replay.windowSize r) else 0) <= kv.2)
    (<[sum data := Replay.seq (Replay.get_half d r)]> (Replay.digests (Replay.get_half d r))) !! sum data
    = Some (Replay.seq (Replay.get_half d r))) as ->; [|by eauto].
  apply map_lookup_filter_Some. rewrite lookup_insert_eq. split; [done|]. simpl.
  case_if; bool_to_prop; [rewrite u64_id by (word; lia)|]; word; lia.
Qed.

Section Sending.
Context `{FlowControl.StreamTableLaws T St}.
Context (Hash : bytes -> bytes).
Context (orig : CGO.CGOPair -> Z -> bytes -> CGO.CGOPair * option (bytes * bytes)).
Context (fwd : CGO.CGOPair -> Z -> bytes -> CGO.CGOPair * option bytes).
Context (cgoLen : Z).
Abbreviation emit := (emitRelayCell Hash orig fwd cgoLen).

Lemma with_hops_same c : with_hops c (Hops c) = c.
Proof. by destruct c. Qed.

(** A cell that could not be sent gives its reservation back; only the layers of
    the hops may have advanced. *)
Lemma emit_failure_refunds now random sendCell c mgr rc rec (w' : Circuit * option T) e :
  emit now random sendCell (c, mgr) rc rec true = (w', Err e) ->
  exists hops, w' = (let '(f, mgr) := FlowControl.refundReservedWindows (flow c, mgr) (RelayCell.StreamID rc) (destUsesCGO c) in
        (with_flow (with_hops c hops) f, mgr)).
Proof.
  unfold emitRelayCell, encryptOnion. intros Hem. repeat (case_match; simplify_eq; try done);
    try match goal with E : FlowControl.refundReservedWindows _ _ _ = _, E' : FlowControl.refundReservedWindows _ _ _ = _ |- _ =>
      pose proof (eq_trans (eq_sym E) E'); simplify_eq end;
    first [by eexists | match goal with |- exists hops, _ = (with_flow (with_hops ?d hops) _, _) => exists (Hops d) end;
                        by rewrite with_hops_same].
Qed.

Lemma emit_success_keeps now random sendCell c mgr rc rec (w' : Circuit * option T) cell :
  emit now random sendCell (c, mgr) rc rec true = (w', Ok cell) ->
  snd w' = mgr /\ Cell.CircID cell = ID c /\
  exists tag, flow (fst w') = if rec then FlowControl.recordSendmeTag now (flow c) tag else flow c.
Proof.
  unfold emitRelayCell, encryptOnion. intros Hem.
  repeat (case_match; simplify_eq; try done); split_and!; try done; by eexists.
Qed.

Lemma emit_failure_unreserved now random sendCell (w w' : Circuit * option T) rc rec e :
  emit now random sendCell w rc rec false = (w', Err e) -> exists hops, w' = (with_hops (fst w) hops, snd w).
Proof.
  unfold emitRelayCell, encryptOnion. intros Hem. repeat (case_match; simplify_eq; try done); simpl;
    first [by eexists | match goal with |- exists hops, _ = (with_hops ?d hops, _) => exists (Hops d) end;
                        by rewrite with_hops_same].
Qed.

Lemma recordSendmeTag_package now f tag :
  FlowControl.packageWindow (FlowControl.recordSendmeTag now f tag) = FlowControl.packageWindow f.
Proof. unfold FlowControl.recordSendmeTag. by destruct (FlowControl.sendmeAuthTag tag). Qed.

(** A failed send leaks nothing.  When sending a cell fails at any point after
    the windows were reserved (circuit not usable, no connection, encoding,
    random source, encryption or connection failure), the circuit and the
    streams are as before, but for the ciphers and digests of the hops, which
    have moved on when the failure came after the encryption; when it succeeds, a
    DATA cell has cost the circuit window exactly one. *)
Theorem failed_send_restores_windows now random sendCell (w w' : Circuit * option T) rc r :
  FlowControl.flow_wf (flow (fst w)) -> FlowControl.mgr_ok (snd w) -> 0 <= RelayCell.StreamID rc ->
  sendRelayCellLocal Hash orig fwd cgoLen now random sendCell [] w rc = (w', Some r) ->
  match r with
  | Err _ => exists hops, w' = (with_hops (fst w) hops, snd w)
  | Ok cell => Cell.CircID cell = ID (fst w) /\
      (RelayCell.Command rc = RelayCell.RelayData ->
       FlowControl.packageWindow (flow (fst w')) = FlowControl.packageWindow (flow (fst w)) - 1)
  end.
Proof.
  destruct w as [c mgr]. cbn [fst snd]. intros Hf Hm Hsid. unfold sendRelayCellLocal.
  destruct (RelayCell.Command rc =? RelayCell.RelayData) eqn:Ecmd; bool_to_prop.
  - pose proof (FlowControl.reserve_attempt_spec (flow c, mgr) (RelayCell.StreamID rc) (destUsesCGO c) Hf Hm Hsid) as Hr.
    cbn [FlowControl.reserveDataWindows].
    destruct (FlowControl.reserve_attempt (flow c, mgr) (RelayCell.StreamID rc) (destUsesCGO c)) as [[f1 mgr1] [rec|e|]];
      [|done|done].
    destruct Hr as (_ & Hdec & _ & _ & Href & _). simpl in Hdec. cbv beta iota.
    destruct (emit now random sendCell (with_flow c f1, mgr1) rc rec true) as [w1 r1] eqn:Eem. intros [= <- <-].
    destruct r1 as [cell|e].
    + apply emit_success_keeps in Eem as (_ & Hid & tag & Hfl). split; [done|]. intros _. rewrite Hfl.
      destruct rec; [rewrite recordSendmeTag_package|]; simpl; lia.
    + apply emit_failure_refunds in Eem as [hops Eem].
      change (flow (with_flow c f1)) with f1 in Eem. change (destUsesCGO (with_flow c f1)) with (destUsesCGO c) in Eem.
      rewrite Href in Eem. subst. exists hops. by destruct c.
  - destruct (emit now random sendCell (c, mgr) rc false false) as [w1 r1] eqn:Eem. intros [= <- <-].
    destruct r1 as [cell|e]; [|by apply emit_failure_unreserved in Eem].
    split; [|done]. unfold emitRelayCell, encryptOnion in Eem. repeat (case_match; simplify_eq; try done).
Qed.

End Sending.

(** ** Properties *)

(** Stream ids of one circuit: allocation always ends; it yields an id in 1..65535
    that was not in use and marks it used, or reports that all are used; and
    releasing the id makes the set of used ids what it was. *)
Theorem allocate_stream_id_exact c :
  ids_ok c ->
  let '(c', r) := AllocateStreamID c in
  ids_ok c' /\
  match r with
  | None => False
  | Some (Ok id) => valid_id id /\ id ∉ usedStreamIDs c /\ usedStreamIDs c' = {[id]} ∪ usedStreamIDs c /\
      usedStreamIDs (ReleaseStreamID c' id) = usedStreamIDs c
  | Some (Err e) => e = errNoFreeID /\ usedStreamIDs c' = usedStreamIDs c /\
      forall id, valid_id id -> id ∈ usedStreamIDs c
  end.
Proof.
  intros [Hn Hu]. unfold AllocateStreamID.
  set (start := if nextStreamID c =? 0 then 1 else nextStreamID c).
  assert (valid_id start) as Hs by (unfold start, valid_id; cases; lia).
  rewrite allocate_probe by done.
  pose proof (probe_complete (fun id => bool_decide (id ∈ usedStreamIDs c)) start Hs) as Hp.
  destruct (probe id_space _ start start) as [id nx| |]; [|split; [split; simpl; [unfold valid_id in Hs; lia|done]|]|done].
  - destruct Hp as (Hid & Hf & ->). apply bool_decide_eq_false in Hf.
    pose proof (next_id_valid id Hid) as Hv. split; [|split_and!; try done].
    + split; simpl; [unfold valid_id in Hv; lia | set_solver].
    + unfold ReleaseStreamID. rewrite (proj2 (Z.eqb_neq _ _)) by (unfold valid_id in Hid; lia). simpl. set_solver.
  - split_and!; [done..|]. intros id Hid. specialize (Hp id Hid). by apply bool_decide_eq_true in Hp.
Qed.

Lemma allocate_stream_id_exact_witness :
  let c := with_ids (NewCircuit 2147483649) 65535 {[65535; 1]} in
  let '(c', r) := AllocateStreamID c in r = Some (Ok 2) /\ ids_ok c'.
Proof.
  intros c. assert (ids_ok c) as Hc.
  { split; [by split|]. intros id Hid. simpl in Hid.
    assert (id = 65535 \/ id = 1) as [-> | ->] by set_solver; by split. }
  pose proof (allocate_stream_id_exact c Hc) as H.
  destruct (AllocateStreamID c) as [c' r] eqn:E.
  split; [|apply H]. vm_compute in E. by simplify_eq.
Defined.

(** What one call of [WriteToStream] hands to the circuit. *)
Definition chunk_ok (streamID max : Z) (rc : RelayCell.RelayCell) : Prop :=
  RelayCell.StreamID rc = streamID /\ RelayCell.Command rc = RelayCell.RelayData /\
  1 <= len (RelayCell.Data rc) <= max.

Lemma write_loop_spec {S} fuel (send : S -> RelayCell.RelayCell -> S * option error) max sid s data :
  1 <= max <= RelayCell.maxDataLen -> (length data < fuel)%nat ->
  let '(_, sent, r) := write_loop fuel send max sid s data in
  Forall (chunk_ok sid max) sent /\
  exists rest, data = concat (RelayCell.Data <$> sent) ++ rest /\
  match r with None => False | Some None => rest = [] | Some (Some _) => sent <> [] end.
Proof.
  intros Hmax. revert s data. induction fuel as [|fuel IH]; intros s data Hf; [lia|]. cbn [write_loop].
  destruct (Z.ltb_spec 0 (len data)) as [Hpos|Hz].
  2:{ destruct data; [|unfold len in Hz; simpl in Hz; lia]. split; [done|]. by exists []. }
  set (n := if max <? len data then max else len data).
  assert (1 <= n <= max /\ n <= len data) as [Hn Hnd] by (unfold n; cases; lia).
  assert (len (take (Z.to_nat n) data) = n) as Hlt by (unfold len in *; rewrite length_take; lia).
  rewrite RelayCell.NewRelayCell_ok by lia. rewrite Hlt. set (rc := RelayCell.mkRelayCell _ _ _ _ _ _).
  assert (chunk_ok sid max rc) as Hrc by (split_and!; simpl; try done; lia).
  destruct (send s rc) as [s1 [e|]].
  - split; [by constructor|]. exists (drop (Z.to_nat n) data). split; [|done].
    simpl. by rewrite app_nil_r, take_drop.
  - specialize (IH s1 (drop (Z.to_nat n) data)).
    destruct (write_loop fuel send max sid s1 (drop (Z.to_nat n) data)) as [[s2 sent] r].
    destruct IH as (Hall & rest & Hd & Hr).
    { rewrite length_drop. unfold len in *. lia. }
    split; [by constructor|]. exists rest. split.
    + rewrite <- (take_drop (Z.to_nat n) data) at 1. rewrite Hd. simpl. by rewrite app_assoc.
    + destruct r as [[e|]|]; done.
Qed.

(** Writing to a stream splits the data without loss.  For a cell capacity between
    1 and what a relay cell holds the loop ends; the cells it sends are DATA
    cells of that stream, none empty and none above the capacity, and their
    contents concatenate to a prefix of the data, to all of it when no send
    fails. *)
Theorem write_to_stream_lossless {S} (send : S -> RelayCell.RelayCell -> S * option error) max sid s data :
  1 <= max <= RelayCell.maxDataLen ->
  let '(_, sent, r) := WriteToStream send max sid s data in
  Forall (chunk_ok sid max) sent /\
  exists rest, data = concat (RelayCell.Data <$> sent) ++ rest /\
  match r with None => False | Some None => rest = [] | Some (Some _) => sent <> [] end.
Proof. intros Hmax. apply write_loop_spec; [done | lia]. Qed.

(** Two full cells and a rest; the third send fails. *)
Lemma write_to_stream_lossless_witness :
  let '(_, sent, r) :=
    WriteToStream (fun n _ => (S n, if decide (n = 2)%nat then Some errNoConn else None)) 498 7 O (zeros 1000) in
  Forall (chunk_ok 7 498) sent /\ length sent = 3%nat /\ r = Some (Some errNoConn).
Proof.
  pose proof (write_to_stream_lossless
    (fun n (_ : RelayCell.RelayCell) => (S n, if decide (n = 2)%nat then Some errNoConn else None))
    498 7 O (zeros 1000)) as Hw.
  destruct (WriteToStream _ 498 7 O (zeros 1000)) as [[s' sent] r] eqn:E.
  destruct Hw as [Hall _]; [by vm_compute|]. split; [exact Hall|].
  vm_compute in E. by simplify_eq.
Defined.

(** ** What a sequence of cells does to a circuit *)

Section Delivery.
Context `{FlowControl.StreamTable T St}.
Context (Sum256 Hash : bytes -> bytes).
Context (bwd : CGO.CGOPair -> Z -> bytes -> CGO.CGOPair * option (bytes * bool * bytes)).
Abbreviation deliver := (DeliverRelayCell Sum256 Hash bwd).
Abbreviation process := (process_payload Hash).

Record arrival := mkArrival { a_now : Z; a_blocked : option bool; a_cell : Cell.Cell }.

(** A payload a hop recognised; [e_fresh]: the replay check let it pass. *)
Record entry := mkEntry {
  e_now : Z;
  e_blocked : option bool;
  e_hop : Z;
  e_payload : bytes;
  e_tag : bytes;
  e_v1 : bool;
  e_fresh : bool;
}.

(** What the hops recognise in a cell. *)
Definition recognised (c : Circuit) (a : arrival) : list entry :=
  if negb (Cell.CircID (a_cell a) =? ID c) then []
  else
    match decryptOnion Hash bwd c (Cell.Command (a_cell a)) (Cell.Payload (a_cell a)) with
    | (c, Ok (payload, hopIdx, onionTag, v1)) =>
        if hopIdx <? 0 then []
        else [mkEntry (a_now a) (a_blocked a) hopIdx payload
                (if len onionTag =? 0 then snapshotBackwardDigest Hash c hopIdx else onionTag) v1
                (match (ValidateCellForReplay Sum256 c Replay.ReplayBackward payload).2 with None => true | Some _ => false end)]
    | (_, Err _) => []
    end.

(** The state of the circuit (with the process's broken-clock flag), the goroutines
    started and what has been recognised so far. *)
Record session := mkSession {
  ses_broken : bool;
  ses_circuit : Circuit;
  ses_streams : option T;
  ses_tasks : list task;
  ses_log : list entry;
}.

Definition arrive (st : session) (a : arrival) : session :=
  let '(b, (c, mgr), tasks, _) :=
    deliver (ses_broken st) (a_now a) (a_blocked a) None id (ses_circuit st, ses_streams st) (a_cell a) in
  mkSession b c mgr (ses_tasks st ++ tasks) (ses_log st ++ recognised (ses_circuit st) a).

(** The circuit without the layers of its hops and the counters of the replay check. *)
Definition visible (c : Circuit) : Circuit := with_replay (with_hops c []) None.

(** What an authentic channel would do: process the payload of an entry. *)
Definition apply_entry (st : bool * (Circuit * option T) * list task) (e : entry) : bool * (Circuit * option T) * list task :=
  let '(b, w, tasks) := st in
  if e_fresh e then
    let '(b, w, ts, _) := process b (e_now e) (e_blocked e) None id w (e_payload e) (e_hop e) (e_tag e) (e_v1 e) in
    (b, w, tasks ++ ts)
  else st.

(** What has been written to the backward digest of a hop. *)
Definition digest_of (c : Circuit) (i : Z) : option bytes :=
  if i <? 0 then None else Hops c !! Z.to_nat i ≫= fun h => Onion.BackwardDigest (layer h).

(** The bytes the payloads of hop [i] add to it. *)
Definition hop_bytes (log : list entry) (i : Z) : bytes :=
  concat ((fun e => Onion.zero_digest (e_payload e)) <$> filter (fun e => e_hop e = i) log).

(** The payload carries the digest over everything hop [i] recognised before, and
    itself. *)
Definition authentic (c : Circuit) (log : list entry) (e : entry) : Prop :=
  exists written, digest_of c (e_hop e) = Some written /\
    slice (e_payload e) 5 9 = take 4 (Hash (written ++ hop_bytes (log ++ [e]) (e_hop e))).

Definition classic_hops (c : Circuit) : Prop := Forall (fun h => Onion.CGO (layer h) = None) (Hops c).

Lemma hop_bytes_app log log' i : hop_bytes (log ++ log') i = hop_bytes log i ++ hop_bytes log' i.
Proof. unfold hop_bytes. by rewrite filter_app, fmap_app, concat_app. Qed.

Lemma hop_bytes_one e i :
  hop_bytes [e] i = if decide (e_hop e = i) then Onion.zero_digest (e_payload e) else [].
Proof. unfold hop_bytes. rewrite filter_cons. case_decide; simpl; by rewrite ?app_nil_r. Qed.

(** *** The hops *)

(** Whether peeling has found a hop, and what it has done to the digests. *)
Lemma peel_classic hops i0 ad out hops' r :
  Forall (fun h : Onion.Hop => Onion.CGO h = None) hops -> Onion.peel Hash bwd hops i0 ad out = (hops', r) ->
  Forall (fun h : Onion.Hop => Onion.CGO h = None) hops' /\ length hops' = length hops /\
  exists payload i tag v1, r = Ok (payload, i, tag, v1) /\
    ((i = -1 /\ Onion.BackwardDigest <$> hops' = Onion.BackwardDigest <$> hops) \/
     exists k h written, i = i0 + Z.of_nat k /\ hops !! k = Some h /\ Onion.BackwardDigest h = Some written /\
       slice payload 5 9 = take 4 (Hash (written ++ Onion.zero_digest payload)) /\
       Onion.BackwardDigest <$> hops' =
         <[k := Some (written ++ Onion.zero_digest payload)]> (Onion.BackwardDigest <$> hops)).
Proof.
  revert i0 out hops' r. induction hops as [|h hops IH]; intros i0 out hops' r Hc Hp; cbn [Onion.peel] in Hp.
  { simplify_eq. split_and!; [done..|]. do 4 eexists. split; [done|]. by left. }
  apply Forall_cons in Hc as [Hh Hc]. rewrite Hh in Hp.
  destruct (Onion.xor_with (Onion.BackwardCipher h) out) as [c out'].
  assert (forall h1 t, Onion.tor1Recognized Hash (Onion.set_bwd h c (Onion.BackwardDigest h)) out' = (h1, t) ->
    Onion.CGO h1 = None /\
    match t with
    | None => Onion.BackwardDigest h1 = Onion.BackwardDigest h
    | Some _ => exists written, Onion.BackwardDigest h = Some written /\
        slice out' 5 9 = take 4 (Hash (written ++ Onion.zero_digest out')) /\
        Onion.BackwardDigest h1 = Some (written ++ Onion.zero_digest out')
    end) as Hrec.
  { intros h1 t Ht. clear Hp IH. unfold Onion.tor1Recognized in Ht. cbn [Onion.BackwardDigest Onion.set_bwd] in Ht.
    destruct (Onion.BackwardDigest h) as [written|] eqn:Ed; [|by simplify_eq].
    repeat (case_match; simplify_eq; try done). split; [done|]. exists written. split_and!; try done.
    match goal with E : negb (Conversion.ConstantTimeCompare _ _) = false |- _ =>
      apply negb_false_iff, Conversion.ConstantTimeCompare_spec in E; by rewrite E end. }
  destruct (Onion.tor1Recognized Hash _ out') as [h1 [t|]] eqn:Et; destruct (Hrec h1 _ eq_refl) as [Hh1 Hd].
  - simplify_eq. destruct Hd as (written & Hw & Hs & Hd).
    split_and!; [by constructor|done|]. do 4 eexists. split; [done|]. right. exists O, h, written.
    split_and!; [lia|done..|]. simpl. by rewrite Hd.
  - destruct (Onion.peel Hash bwd hops (i0 + 1) ad out') as [hops1 r1] eqn:Ep. simplify_eq.
    destruct (IH _ _ _ _ Hc Ep) as (Hc1 & Hl & payload & i & tag & v1 & -> & Hcase).
    split_and!; [by constructor|simpl; lia|]. do 4 eexists. split; [done|].
    destruct Hcase as [[-> Hsame]|(k & h2 & written & -> & Hk & Hw & Hs & Hd2)].
    + left. split; [done|]. by rewrite !fmap_cons, Hd, Hsame.
    + right. exists (S k), h2, written. split_and!; try done; [lia|]. by rewrite !fmap_cons, Hd, Hd2.
Qed.

Lemma put_layers_layer hops ls : length ls = length hops -> layer <$> put_layers hops ls = ls.
Proof.
  revert ls. induction hops as [|h hops IH]; intros [|l ls] Hl; simpl in *; try done. f_equal. apply IH. lia.
Qed.

Lemma digest_of_layers c i :
  digest_of c i = if i <? 0 then None else mjoin ((Onion.BackwardDigest <$> (layer <$> Hops c)) !! Z.to_nat i).
Proof.
  unfold digest_of. case_if; [done|]. rewrite !list_lookup_fmap. by destruct (Hops c !! Z.to_nat i).
Qed.

(** Decryption on classic hops: it gives a payload; the digest of the hop that
    recognised it, if any, has grown by it, and the others are as before. *)
Lemma decrypt_classic c ad data c' r :
  classic_hops c -> decryptOnion Hash bwd c ad data = (c', r) ->
  classic_hops c' /\ visible c' = visible c /\ ID c' = ID c /\ replayProtection c' = replayProtection c /\
  exists payload i tag v1, r = Ok (payload, i, tag, v1) /\
    ((i = -1 /\ forall j, digest_of c' j = digest_of c j) \/
     0 <= i /\ exists written, digest_of c i = Some written /\
       slice payload 5 9 = take 4 (Hash (written ++ Onion.zero_digest payload)) /\
       forall j, digest_of c' j = if decide (i = j) then Some (written ++ Onion.zero_digest payload) else digest_of c j).
Proof.
  intros Hc Hd. unfold decryptOnion, Onion.decryptOnion in Hd.
  destruct (Onion.peel Hash bwd (layer <$> Hops c) 0 ad data) as [ls r'] eqn:Ep. simplify_eq.
  apply peel_classic in Ep as (Hc' & Hl & payload & i & tag & v1 & -> & Hcase); [|by apply Forall_fmap].
  rewrite length_fmap in Hl. pose proof (put_layers_layer (Hops c) ls Hl) as Hput.
  split_and!; try done; [unfold classic_hops; simpl; by rewrite <- Hput, Forall_fmap in Hc'|].
  do 4 eexists. split; [done|].
  assert (forall j, digest_of (with_hops c (put_layers (Hops c) ls)) j =
    if j <? 0 then None else mjoin ((Onion.BackwardDigest <$> ls) !! Z.to_nat j)) as Hdig.
  { intros j. rewrite digest_of_layers. simpl. by rewrite Hput. }
  destruct Hcase as [[-> Hsame]|(k & h & written & -> & Hk & Hw & Hs & Hd2)]; [left|right].
  - split; [done|]. intros j. by rewrite Hdig, Hsame, <- digest_of_layers.
  - split; [lia|]. exists written. rewrite Z.add_0_l.
    split_and!; [|done|].
    + rewrite digest_of_layers, (proj2 (Z.ltb_ge _ _)), Nat2Z.id by lia. rewrite list_lookup_fmap, Hk. simpl. by rewrite Hw.
    + intros j. rewrite Hdig, Hd2, digest_of_layers. pose proof (lookup_lt_Some _ _ _ Hk) as Hlt.
      destruct (Z.ltb_spec j 0); [by rewrite decide_False by lia|].
      case_decide as Hij; [subst j; rewrite Nat2Z.id, list_lookup_insert_eq by (rewrite length_fmap; lia); done|].
      by rewrite list_lookup_insert_ne by lia.
Qed.

(** *** The rest of the handler does not look at the layers *)

Lemma deliver_flow_visible b now blocked c mgr rc i tag v1 :
  deliver_flow Hash b now blocked (visible c, mgr) rc i
    (if len tag =? 0 then snapshotBackwardDigest Hash c i else tag) v1 =
  let '(b, (c, mgr), ts, r) := deliver_flow Hash b now blocked (c, mgr) rc i tag v1 in (b, (visible c, mgr), ts, r).
Proof.
  unfold deliver_flow.
  assert (snapshotBackwardDigest Hash (visible c) i = []) as Hnil.
  { unfold snapshotBackwardDigest. simpl. by destruct (_ || _). }
  rewrite Hnil. set (t := if len tag =? 0 then snapshotBackwardDigest Hash c i else tag).
  assert ((if len t =? 0 then [] else t) = t) as ->.
  { destruct (Z.eqb_spec (len t) 0) as [Hz|]; [|done]. symmetry. apply nil_length_inv. unfold len in Hz. lia. }
  change (flow (visible c)) with (flow c).
  repeat (case_match; simplify_eq; try done).
  unfold NotifyDestroyed. simpl. by destruct (destroyReason c).
Qed.

Lemma process_visible b now blocked c mgr p i tag v1 :
  process b now blocked None id (visible c, mgr) p i (if len tag =? 0 then snapshotBackwardDigest Hash c i else tag) v1 =
  let '(b, (c, mgr), ts, r) := process b now blocked None id (c, mgr) p i tag v1 in (b, (visible c, mgr), ts, r).
Proof.
  unfold process_payload. destruct (if v1 then _ else _) as [rc|e]; [|done].
  rewrite deliver_flow_visible. destruct (deliver_flow Hash b now blocked (c, mgr) rc i tag v1) as [[[b1 [c1 m1]] ts] [r|]]; [done|].
  unfold enqueueRelayCell. change (relayReceiveChan (visible c1)) with (relayReceiveChan c1).
  destruct (relayReceiveChan c1) as [q|]; [|done]. by destruct (len q <? relayChanCap).
Qed.

Lemma process_hops b now blocked c mgr p i tag v1 b' c' mgr' ts e :
  process b now blocked None id (c, mgr) p i tag v1 = (b', (c', mgr'), ts, e) -> Hops c' = Hops c /\ ID c' = ID c.
Proof.
  unfold process_payload, deliver_flow, enqueueRelayCell, NotifyDestroyed. intros Hp.
  repeat (case_match; simplify_eq; try done).
Qed.

Lemma replay_visible c d data c' e :
  ValidateCellForReplay Sum256 c d data = (c', e) -> visible c' = visible c /\ Hops c' = Hops c /\ ID c' = ID c.
Proof. unfold ValidateCellForReplay. intros Hv. repeat (case_match; simplify_eq; try done). Qed.

(** One cell. *)
Lemma arrive_step st a :
  classic_hops (ses_circuit st) ->
  let st' := arrive st a in
  let log := recognised (ses_circuit st) a in
  classic_hops (ses_circuit st') /\ ses_log st' = ses_log st ++ log /\
  (ses_broken st', (visible (ses_circuit st'), ses_streams st'), ses_tasks st') =
    foldl apply_entry (ses_broken st, (visible (ses_circuit st), ses_streams st), ses_tasks st) log /\
  (forall i, digest_of (ses_circuit st') i = (fun w => w ++ hop_bytes log i) <$> digest_of (ses_circuit st) i) /\
  Forall (authentic (ses_circuit st) []) log.
Proof.
  destruct st as [b c mgr tasks l]. intros Hc. cbn [ses_circuit] in Hc. unfold arrive, DeliverRelayCell, recognised.
  cbn [ses_broken ses_circuit ses_streams ses_tasks ses_log].
  assert (forall i, digest_of c i = (fun w => w ++ hop_bytes [] i) <$> digest_of c i) as Hnil.
  { intros i. unfold hop_bytes. simpl. destruct (digest_of c i); simpl; by rewrite ?app_nil_r. }
  destruct (negb _); [cbn [ses_broken ses_circuit ses_streams ses_tasks ses_log foldl]; by rewrite !app_nil_r|].
  destruct (decryptOnion Hash bwd c _ _) as [c1 r] eqn:Ed.
  apply decrypt_classic in Ed as (Hc1 & Hv1 & Hid1 & Hr1 & payload & i & tag & v1 & -> & Hcase); [|done].
  destruct (ValidateCellForReplay Sum256 c1 Replay.ReplayBackward payload) as [c2 e] eqn:Ev. cbn [snd].
  destruct (replay_visible _ _ _ _ _ Ev) as (Hv2 & Hh2 & Hid2).
  assert (classic_hops c2) as Hc2 by (unfold classic_hops; by rewrite Hh2).
  assert (forall j, digest_of c2 j = digest_of c1 j) as Hd2 by (intros j; unfold digest_of; by rewrite Hh2).
  assert (forall tg, snapshotBackwardDigest Hash c2 tg = snapshotBackwardDigest Hash c1 tg) as Hsn
    by (intros tg; unfold snapshotBackwardDigest; by rewrite Hh2).
  destruct Hcase as [[-> Hsame]|(Hi & written & Hw & Hs & Hgrow)].
  - cbn [Z.ltb Z.compare]. destruct e; cbn [ses_broken ses_circuit ses_streams ses_tasks ses_log foldl];
      rewrite !app_nil_r, Hv2, Hv1; (split_and!; [done..| |done]); intros j; rewrite Hd2, Hsame; apply Hnil.
  - rewrite (proj2 (Z.ltb_ge _ _)) by lia. set (en := mkEntry _ _ _ _ _ _ _).
    assert (Forall (authentic c []) [en]) as Hauth.
    { constructor; [|done]. exists written. split; [done|]. cbn [e_payload e_hop en app].
      by rewrite hop_bytes_one, decide_True by done. }
    assert (forall c', Hops c' = Hops c2 -> forall j, digest_of c' j = (fun w => w ++ hop_bytes [en] j) <$> digest_of c j) as Hdig.
    { intros c' Hc' j. assert (digest_of c' j = digest_of c1 j) as ->.
      { rewrite <- Hd2. unfold digest_of. by rewrite Hc'. }
      rewrite Hgrow, hop_bytes_one. cbn [e_hop e_payload en].
      case_decide; [subst j; by rewrite Hw|]. by destruct (digest_of c j); simpl; rewrite ?app_nil_r. }
    destruct e as [e|]; cbn [ses_broken ses_circuit ses_streams ses_tasks ses_log foldl].
    + assert (apply_entry (b, (visible c, mgr), tasks) en = (b, (visible c, mgr), tasks)) as -> by done.
      rewrite app_nil_r, Hv2, Hv1. split_and!; try done. by apply Hdig.
    + pose proof (process_visible b (a_now a) (a_blocked a) c2 mgr payload i tag v1) as Hp.
      rewrite Hv2, Hv1, Hsn in Hp.
      destruct (process b (a_now a) (a_blocked a) None id (c2, mgr) payload i tag v1) as [[[b3 [c3 m3]] ts] r3] eqn:E3.
      assert (apply_entry (b, (visible c, mgr), tasks) en = (b3, (visible c3, m3), tasks ++ ts)) as ->.
      { unfold apply_entry, en. cbn [e_fresh e_now e_blocked e_payload e_hop e_tag e_v1]. by rewrite Hp. }
      apply process_hops in E3 as [Hh3 _]. cbn [ses_broken ses_circuit ses_streams ses_tasks ses_log].
      split_and!; try done; [unfold classic_hops; by rewrite Hh3|]. by apply Hdig.
Qed.

(** A sequence of cells. *)
Lemma arrivals_run l : forall st,
  classic_hops (ses_circuit st) ->
  let st' := foldl arrive st l in
  exists log, ses_log st' = ses_log st ++ log /\
  (ses_broken st', (visible (ses_circuit st'), ses_streams st'), ses_tasks st') =
    foldl apply_entry (ses_broken st, (visible (ses_circuit st), ses_streams st), ses_tasks st) log /\
  (forall i, digest_of (ses_circuit st') i = (fun w => w ++ hop_bytes log i) <$> digest_of (ses_circuit st) i) /\
  (forall before e after, log = before ++ e :: after -> authentic (ses_circuit st) before e).
Proof.
  induction l as [|a l IH]; intros st Hc; cbn [foldl].
  { exists []. rewrite app_nil_r. split_and!; try done; [|by intros []].
    intros i. unfold hop_bytes. simpl. destruct (digest_of (ses_circuit st) i); simpl; by rewrite ?app_nil_r. }
  pose proof (arrive_step st a Hc) as (Hc1 & Hl1 & Hv1 & Hd1 & Ha1).
  destruct (IH (arrive st a) Hc1) as (log & Hl & Hv & Hd & Ha).
  set (new := recognised (ses_circuit st) a) in *. exists (new ++ log).
  split_and!.
  - by rewrite Hl, Hl1, <- app_assoc.
  - by rewrite Hv, Hv1, foldl_app.
  - intros i. rewrite Hd, Hd1, hop_bytes_app. destruct (digest_of (ses_circuit st) i); simpl; [|done]. by rewrite app_assoc.
  - intros before e after Hlog.
    assert (new = [] \/ exists e0, new = [e0]) as [Hn|[e0 Hn]].
    { unfold new, recognised. repeat case_match; eauto. }
    + rewrite Hn in Hlog, Hd1. simpl in Hlog. destruct (Ha before e after Hlog) as (written & Hw & Hs).
      exists written. split; [|done]. rewrite Hd1 in Hw. unfold hop_bytes in Hw at 1. simpl in Hw.
      destruct (digest_of (ses_circuit st) (e_hop e)); simpl in Hw; [|done]. by rewrite app_nil_r in Hw.
    + rewrite Hn in Hlog, Ha1, Hd1. destruct before as [|e1 before]; simplify_list_eq.
      * by apply Forall_cons in Ha1 as [? _].
      * destruct (Ha before e after eq_refl) as (written & Hw & Hs). rewrite Hd1 in Hw.
        destruct (digest_of (ses_circuit st) (e_hop e)) as [w0|] eqn:E0; [|done]. simpl in Hw. simplify_eq.
        exists w0. split; [done|]. rewrite Hs, <- app_assoc, <- hop_bytes_app. done.
Qed.

End Delivery.


(** A hop whose key stream changes with every cell, and whose digest counts the
    bytes; a DROP message for it, as the relay would send it. *)
Definition sample_hash (written : bytes) : bytes := PutUint32 (len written) ++ zeros 16.
Definition sample_layer : @Onion.Hop CGO.CGOPair :=
  Onion.mkHop None (Some (Onion.mkCipher (fun n => Z.of_nat (n / 509)) 0)) None (Some []) None.
Definition no_bwd (g : CGO.CGOPair) (_ : Z) (_ : bytes) : CGO.CGOPair * option (bytes * bool * bytes) := (g, None).
Definition sample_cell : Cell.Cell :=
  Cell.mkCell 2147483649 Cell.CmdRelay (RelayCell.RelayDrop :: zeros 4 ++ PutUint32 509 ++ zeros 500).
Definition sample_circuit : Circuit :=
  with_hops (with_state (NewCircuit 2147483649) FlowControl.StateOpen) [mkHop "guard" "198.51.100.1:9001" true false sample_layer].
Definition sample_w : Circuit * option Stream.CircuitBound :=
  (sample_circuit, Some (Stream.BoundToCircuit Stream.sample_world 9)).


(** The circuit is open but has no connection. *)
Lemma failed_send_restores_windows_witness :
  let rc := RelayCell.mkRelayCell RelayCell.RelayData 0 65535 [0; 0; 0; 0] 2 [1; 2] in
  let '(w', r) := sendRelayCellLocal sample_hash (fun g _ _ => (g, None)) (fun g _ _ => (g, None)) 509 0
    (fun n => Some (zeros n)) (fun _ => true) [] sample_w rc in
  r = Some (Err errNoConn) /\ exists hops, w' = (with_hops (fst sample_w) hops, snd sample_w).
Proof.
  intros rc. pose proof (failed_send_restores_windows sample_hash (fun g _ _ => (g, None)) (fun g _ _ => (g, None)) 509 0
    (fun n => Some (zeros n)) (fun _ => true) sample_w) as H.
  destruct (sendRelayCellLocal _ _ _ _ _ _ _ [] sample_w rc) as [w' r] eqn:E.
  assert (r = Some (Err errNoConn)) as -> by (vm_compute in E; by simplify_eq).
  split; [reflexivity|]. refine (H w' rc (Err errNoConn) _ _ _ E).
  - apply FlowControl.new_flow_inv.
  - split; [exact Stream.sample_world_wf|].
    apply (Forall_impl (fun s => Stream.packageWindow (Stream.windows s) = 500)).
    + apply (bool_decide_unpack _). vm_compute. exact I.
    + intros s Hs. unfold Stream.window_ok. rewrite Hs. by split.
  - by vm_compute.
Defined.

(** ** Closing *)

Lemma Circuit_Close_closed c : CState (Close c).1 = FlowControl.StateClosed.
Proof.
  unfold Close. case_bool_decide as Hc; [done|]. simpl.
  unfold NotifyDestroyed. by destruct (destroyReason _).
Qed.

Lemma close_leg_lookup id objs o k :
  close_leg id objs o !! k =
    if decide (k = o /\ o <> id) then (fun d => (Close (detachConflux d)).1) <$> objs !! k else objs !! k.
Proof.
  unfold close_leg. destruct (Z.eqb_spec o id) as [->|Hne]; [by rewrite decide_False by naive_solver|].
  destruct (decide (k = o)) as [->|Hk].
  - rewrite decide_True by done. destruct (objs !! o) as [d|] eqn:E; [by rewrite lookup_insert_eq|done].
  - rewrite decide_False by naive_solver. destruct (objs !! o) as [d|] eqn:E; [by rewrite lookup_insert_ne by done|done].
Qed.

Definition is_closed (c : Circuit) : Prop := CState c = FlowControl.StateClosed.

(** After the other legs have been closed. *)
Lemma close_legs_lookup id legs objs k :
  (k ∈ legs -> k <> id -> forall d, foldl (close_leg id) objs legs !! k = Some d -> is_closed d) /\
  (k ∉ legs \/ k = id -> foldl (close_leg id) objs legs !! k = objs !! k) /\
  ((forall d, objs !! k = Some d -> is_closed d) ->
   forall d, foldl (close_leg id) objs legs !! k = Some d -> is_closed d).
Proof.
  revert objs. induction legs as [|o legs IH]; intros objs; simpl; [set_solver|].
  destruct (IH (close_leg id objs o)) as (H1 & H2 & H3). split_and!.
  - intros [->|Hk]%elem_of_cons Hne; [|by apply H1]. apply H3. intros d.
    rewrite close_leg_lookup, decide_True by done.
    intros (c & _ & ->)%fmap_Some. apply Circuit_Close_closed.
  - intros Hk. rewrite H2 by set_solver. rewrite close_leg_lookup, decide_False; [done|]. set_solver.
  - intros Hc. apply H3. intros d. rewrite close_leg_lookup. case_decide; [|by apply Hc].
    intros (c & _ & ->)%fmap_Some. apply Circuit_Close_closed.
Qed.

Definition legs_of (c : Circuit) : list Z := default [] (conflux c).

Lemma close_object_spec objs id c :
  objs !! id = Some c -> ~ is_closed c ->
  close_object objs id = foldl (close_leg id) (<[id := (Close c).1]> objs) (legs_of c).
Proof.
  intros Hc Ho. unfold close_object, legs_of. rewrite Hc. unfold Close.
  rewrite bool_decide_false by done. simpl.
  destruct (conflux c), (mux c), (conn c); reflexivity.
Qed.

(** Closing a circuit of a Conflux set takes the whole set out of the manager:
    the circuit handed back is closed, neither it nor any leg of its set can be
    looked up any more, and every other open circuit stays as it was. *)
Theorem close_circuit_takes_set m id c :
  circuits m !! id = Some c -> ~ is_closed c ->
  exists m' c', CloseCircuit m id = (m', Ok (Some c')) /\ is_closed c' /\ destroyReason c' <> None /\
    relayReceiveChan c' = None /\
    (forall o, o = id \/ o ∈ legs_of c -> GetCircuit m' o = Err (errCircuitNotFound o)) /\
    (forall o d, o <> id -> o ∉ legs_of c -> circuits m !! o = Some d -> ~ is_closed d -> GetCircuit m' o = Ok d).
Proof.
  intros Hc Ho. unfold CloseCircuit. rewrite Hc, (close_object_spec _ _ _ Hc Ho).
  set (objs := foldl _ _ _).
  assert (objs !! id = Some (Close c).1) as Hid.
  { subst objs. destruct (close_legs_lookup id (legs_of c) (<[id := (Close c).1]> (circuits m)) id) as (_ & -> & _);
      [apply lookup_insert_eq | by right]. }
  rewrite Hid. eexists _, _. split; [done|]. split; [apply Circuit_Close_closed|].
  split_and!.
  - unfold Close. rewrite bool_decide_false by done. simpl. unfold NotifyDestroyed. simpl.
    by destruct (destroyReason c) eqn:E; simpl; rewrite ?E.
  - unfold Close. rewrite bool_decide_false by done. simpl. unfold NotifyDestroyed. simpl.
    by destruct (destroyReason c).
  - intros o Hin. unfold GetCircuit, sweepClosed. simpl.
    destruct (filter _ _ !! o) as [d|] eqn:E; [exfalso|done].
    apply map_lookup_filter_Some in E as [E Hd]. apply lookup_delete_Some in E as [Hne E].
    destruct Hin as [->|Hin]; [done|]. apply Hd.
    destruct (close_legs_lookup id (legs_of c) (<[id := (Close c).1]> (circuits m)) o) as (H1 & _ & _).
    by apply H1.
  - intros o d Hne Hnin Hm Hd. unfold GetCircuit, sweepClosed. simpl.
    assert (filter (fun '(_, c0) => GetState c0 <> FlowControl.StateClosed) (delete id objs) !! o = Some d) as ->; [|done].
    apply map_lookup_filter_Some. split; [|done]. rewrite lookup_delete_ne by done. subst objs.
    destruct (close_legs_lookup id (legs_of c) (<[id := (Close c).1]> (circuits m)) o) as (_ & -> & _); [|by left].
    by rewrite lookup_insert_ne by done.
Qed.

(** Circuits 1 and 2 form a set, 3 is alone. *)
Definition sample_manager : Manager :=
  mkManager {[ 1 := attachConflux (NewCircuit 1) [1; 2]; 2 := attachConflux (NewCircuit 2) [1; 2]; 3 := NewCircuit 3 ]}
    4 false.

Lemma close_circuit_takes_set_witness :
  let m' := (CloseCircuit sample_manager 1).1 in
  GetCircuit m' 2 = Err (errCircuitNotFound 2) /\ GetCircuit m' 3 = Ok (NewCircuit 3).
Proof.
  destruct (close_circuit_takes_set sample_manager 1 (attachConflux (NewCircuit 1) [1; 2]))
    as (m' & c' & E & _ & _ & _ & Hout & Hin).
  - reflexivity.
  - discriminate.
  - intros m''. subst m''. rewrite E. split.
    + apply Hout. right. apply elem_of_cons. right. apply elem_of_cons. left. reflexivity.
    + apply Hin.
      * lia.
      * intros Hx. do 2 (apply elem_of_cons in Hx as [Hx|Hx]; [discriminate Hx|]). by apply elem_of_nil in Hx.
      * reflexivity.
      * discriminate.
Defined.

(** ** Reading *)

Lemma receive_queued pick c rc q :
  destroyReason c = None -> relayReceiveChan c = Some (rc :: q) ->
  ReceiveRelayCell pick false c = (with_chan c (Some q), Some (Ok rc)).
Proof. intros Hd Hq. unfold ReceiveRelayCell. rewrite Hd, Hq. cbn [app]. by rewrite select_single. Qed.

(** The cells a reader of [sid] does not stop at: those of other streams, and its
    own that are neither DATA nor END. *)
Definition passed_over (sid : Z) (rc : RelayCell.RelayCell) : Prop :=
  RelayCell.StreamID rc = sid ->
  RelayCell.Command rc <> RelayCell.RelayData /\ RelayCell.Command rc <> RelayCell.RelayEnd.

(** What passing over a cell does to the streams. *)
Definition pass (sid : Z) (mgr : option Stream.CircuitBound) (p : nat * RelayCell.RelayCell) :
    option Stream.CircuitBound :=
  if RelayCell.StreamID p.2 =? sid then mgr else (deliverToStream p.1 mgr p.2).1.

(** Reading from a stream demultiplexes the circuit's queue.  The reader returns
    the first DATA of its stream (end of file at the first END), has taken out of
    the queue exactly the cells up to it, and has handed each cell of another
    stream before it to that stream, in order; nothing behind it is touched. *)
Theorem read_from_stream_demux picks sid c mgr q1 rc q2 :
  destroyReason c = None -> relayReceiveChan c = Some (q1 ++ rc :: q2) -> Forall (passed_over sid) q1 ->
  RelayCell.StreamID rc = sid ->
  RelayCell.Command rc = RelayCell.RelayData \/ RelayCell.Command rc = RelayCell.RelayEnd ->
  (length q1 < length picks)%nat ->
  ReadFromStream picks false sid (c, mgr) =
    ((with_chan c (Some q2), foldl (pass sid) mgr (zip picks q1)),
     Some (if RelayCell.Command rc =? RelayCell.RelayData then Ok (RelayCell.Data rc) else Err EOF)).
Proof.
  revert picks c mgr. induction q1 as [|x q1 IH]; intros picks c mgr Hd Hq Hp Hs Hc Hl;
    destruct picks as [|pick picks]; simpl in Hl; try lia; cbn [ReadFromStream].
  - rewrite (receive_queued _ _ rc q2) by done. simpl. rewrite Hs, Z.eqb_refl. simpl.
    by destruct Hc as [-> | ->].
  - apply Forall_cons in Hp as [Hx Hp]. rewrite (receive_queued _ _ x (q1 ++ rc :: q2)) by done.
    assert (forall m, ReadFromStream picks false sid (with_chan c (Some (q1 ++ rc :: q2)), m) =
      ((with_chan c (Some q2), foldl (pass sid) m (zip picks q1)),
       Some (if RelayCell.Command rc =? RelayCell.RelayData then Ok (RelayCell.Data rc) else Err EOF))) as Hrec.
    { intros m. rewrite IH by (try done; lia). done. }
    change (zip (pick :: picks) (x :: q1)) with ((pick, x) :: zip picks q1). cbn [foldl].
    unfold pass at 2. cbn [fst snd]. destruct (Z.eqb_spec (RelayCell.StreamID x) sid) as [He|He]; simpl.
    + destruct (Hx He) as [H1 H2]. rewrite !(proj2 (Z.eqb_neq _ _)) by done. apply Hrec.
    + destruct (deliverToStream pick mgr x) as [m e]. apply Hrec.
Qed.

(** A cell of stream 2 and a CONNECTED in front of the data of stream 1. *)
Definition sample_queue : list RelayCell.RelayCell :=
  [RelayCell.mkRelayCell RelayCell.RelayData 0 2 [0; 0; 0; 0] 1 [7];
   RelayCell.mkRelayCell RelayCell.RelayConnected 0 1 [0; 0; 0; 0] 0 []].

Lemma read_from_stream_demux_witness :
  let rc := RelayCell.mkRelayCell RelayCell.RelayData 0 1 [0; 0; 0; 0] 1 [9] in
  let c := with_chan (NewCircuit 5) (Some (sample_queue ++ [rc])) in
  (ReadFromStream [0; 0; 0]%nat false 1 (c, sample_w.2)).2 = Some (Ok [9]).
Proof.
  intros rc c. subst c.
  rewrite (read_from_stream_demux [0; 0; 0]%nat 1 _ sample_w.2 sample_queue rc []).
  - reflexivity.
  - reflexivity.
  - reflexivity.
  - repeat constructor; vm_compute; discriminate.
  - reflexivity.
  - left. reflexivity.
  - simpl. lia.
Defined.

End Circuit.
