(* ===== verification/Mux.v ===== *)
(** * Distribution of the cells of a connection (pkg/circuit/mux.go)

    The multiplexer of an OR connection: CREATED2 and DESTROY go to whoever waits
    for a handshake, relay cells to their circuit.  Circuits and the channels of
    the waiters are shared objects, in the store [world]; what [DeliverRelayCell]
    needs of the rest of the program is [deliver_env].  The read loop is a sequence
    of turns, between which the other operations run. *)

From S2P Require Import Prelude Conversion Cell RelayCell CellPayloads Replay FlowControl Stream CGO Onion Circuit.
Import Cell(Cell, mkCell, CircID, Command, Payload).

Module Mux.

(** [created] names the waiter's channel. *)
Record CellMux := mkMux {
  circuits : gmap Z Z;
  created : gmap Z nat;
  closed : bool;
}.

Inductive error := errTimeout | errMuxClosed | errDestroyed (circID reason : Z).

Section Mux.
Context `{FlowControl.StreamTable T St}.
Context (Sum256 Hash : bytes -> bytes).
Context (ClientBackward : CGO.CGOPair -> Z -> bytes -> CGO.CGOPair * option (bytes * bool * bytes)).

(** The multiplexer, the circuit objects with their streams, the channels (of
    capacity one), how many there are, and the broken-clock flag of the process. *)
Record world := mkWorld {
  mux : CellMux;
  objs : gmap Z (Circuit.Circuit * option T);
  chans : gmap nat (list Cell);
  nextChan : nat;
  brokenClock : bool;
}.

Definition set_mux (w : world) (m : CellMux) : world := mkWorld m (objs w) (chans w) (nextChan w) (brokenClock w).
Definition set_objs (w : world) (o : gmap Z (Circuit.Circuit * option T)) : world :=
  mkWorld (mux w) o (chans w) (nextChan w) (brokenClock w).
Definition set_chans (w : world) (c : gmap nat (list Cell)) : world := mkWorld (mux w) (objs w) c (nextChan w) (brokenClock w).

(** What one cell finds in the rest of the program. *)
Record deliver_env := mkDeliverEnv {
  now : Z;
  blocked : option bool;
  confluxHandler : option (Circuit.Circuit -> RelayCell.RelayCell -> Z -> Circuit.Circuit * result unit bool);
  failAndClose : Circuit.Circuit -> Circuit.Circuit;
}.

(** What is left to others: goroutines to run, legs of a Conflux set to close. *)
Inductive effect := Started (o : Z) (t : Circuit.task) | LegClosed (o : Z) (legs : list Z) | ConnClosed.

Definition NewCellMux : CellMux := mkMux ∅ ∅ false.

(** [c] is the circuit object, [id] its circuit id. *)
Definition RegisterCircuit (id c : Z) (w : world) : world :=
  set_mux w (mkMux (<[id := c]> (circuits (mux w))) (created (mux w)) (closed (mux w))).

(** The channel a waiter of [circID] uses, made if there is none. *)
Definition waiter (circID : Z) (w : world) : world * nat :=
  match created (mux w) !! circID with
  | Some ch => (w, ch)
  | None =>
      let ch := nextChan w in
      (mkWorld (mkMux (circuits (mux w)) (<[circID := ch]> (created (mux w))) (closed (mux w)))
         (objs w) (<[ch := []]> (chans w)) (S ch) (brokenClock w), ch)
  end.

Definition ExpectCreated2 (circID : Z) (w : world) : world := (waiter circID w).1.

Definition ForgetCreated2 (circID : Z) (w : world) : world :=
  set_mux w (mkMux (circuits (mux w)) (delete circID (created (mux w))) (closed (mux w))).

Inductive wait_case := CaseCtx | CaseClosed | CaseCell (c : Cell).

(** The wait on a channel: [None] while it blocks. *)
Definition wait_end (pick : nat) (ctxDone : bool) (circID : Z) (ch : nat) (w : world) : world * option (result error Cell) :=
  match select pick ((if ctxDone then [CaseCtx] else []) ++ (if closed (mux w) then [CaseClosed] else []) ++
                     (match chans w !! ch with Some (c :: _) => [CaseCell c] | _ => [] end)) with
  | None => (w, None)
  | Some CaseCtx => (ForgetCreated2 circID w, Some (Err errTimeout))
  | Some CaseClosed => (ForgetCreated2 circID w, Some (Err errMuxClosed))
  | Some (CaseCell c) =>
      let w := ForgetCreated2 circID (set_chans w (<[ch := drop 1 (default [] (chans w !! ch))]> (chans w))) in
      (w, Some (if Command c =? Cell.CmdDestroy then Err (errDestroyed circID (at_ (Payload c) 0)) else Ok c))
  end.

(** [WaitCreated2] from its entry to its end; [meanwhile] is what runs between. *)
Definition WaitCreated2 (meanwhile : world -> world) (pick : nat) (ctxDone : bool) (circID : Z) (w : world) :
    world * option (result error Cell) :=
  let '(w, ch) := waiter circID w in wait_end pick ctxDone circID ch (meanwhile w).

(** Once only: the second result tells whether the connection is closed now. *)
Definition Close (w : world) : world * list effect :=
  if closed (mux w) then (w, [])
  else (set_mux w (mkMux (circuits (mux w)) (created (mux w)) true), [ConnClosed]).

Definition isClosed (w : world) : bool := closed (mux w).

(** What closing a circuit asks of others: the multiplexer it belongs to is this one. *)
Definition closing_effect (o : Z) (wo : world * list effect) (e : Circuit.closing) : world * list effect :=
  let '(w, out) := wo in
  match e with
  | Circuit.ClosingLeg legs => (w, out ++ [LegClosed o legs])
  | Circuit.ClosingMux => let '(w, out') := Close w in (w, out ++ out')
  | Circuit.ClosingConn => (w, out ++ [ConnClosed])
  end.

(** [circ.NotifyDestroyed(reason); circ.Close()] *)
Definition destroy_circuit (o reason : Z) (w : world) : world * list effect :=
  match objs w !! o with
  | None => (w, [])
  | Some (c, mgr) =>
      let '(c, effects) := Circuit.Close (Circuit.NotifyDestroyed c reason) in
      foldl (closing_effect o) (set_objs w (<[o := (c, mgr)]> (objs w)), []) effects
  end.

Definition deliver (env : deliver_env) (o : Z) (c : Cell) (w : world) : world * list effect :=
  match objs w !! o with
  | None => (w, [])
  | Some ow =>
      let '(broken, ow, tasks, _) :=
        Circuit.DeliverRelayCell Sum256 Hash ClientBackward (brokenClock w) (now env) (blocked env) (confluxHandler env)
          (failAndClose env) ow c in
      (mkWorld (mux w) (<[o := ow]> (objs w)) (chans w) (nextChan w) broken, map (Started o) tasks)
  end.

Definition dispatch (env : deliver_env) (c : Cell) (w : world) : world * list effect :=
  let cmd := Command c in
  if (cmd =? Cell.CmdPadding) || (cmd =? Cell.CmdVPadding) then (w, [])
  else if (cmd =? Cell.CmdCreated2) || (cmd =? Cell.CmdDestroy) then
    match created (mux w) !! CircID c with
    | Some ch =>
        match chans w !! ch with
        | Some [] => (set_chans w (<[ch := [c]]> (chans w)), [])
        | _ => (w, [])
        end
    | None =>
        if cmd =? Cell.CmdDestroy then
          match circuits (mux w) !! CircID c with
          | None => (w, [])
          | Some o => destroy_circuit o (at_ (Payload c) 0) w
          end
        else (w, [])
    end
  else if (cmd =? Cell.CmdRelay) || (cmd =? Cell.CmdRelayEarly) then
    match circuits (mux w) !! CircID c with
    | None => (w, [])
    | Some o => deliver env o c w
    end
  else (w, []).

(** A turn of the read loop with what [ReceiveCell] yields; [false]: it ends. *)
Definition loop_turn (env : deliver_env) (received : option Cell) (w : world) : world * list effect * bool :=
  if closed (mux w) then (w, [], false)
  else match received with
       | None => let '(w, out) := Close w in (w, out, false)
       | Some c => let '(w, out) := dispatch env c w in (w, out, true)
       end.

(** ** Operations in any order *)

Inductive op :=
| ORegister (id c : Z)
| OExpect (circID : Z)
| OForget (circID : Z)
| OWait (pick : nat) (ctxDone : bool) (circID : Z) (ch : nat)
| OTurn (env : deliver_env) (received : option Cell)
| OClose
| OCircuit (o : Z) (f : Circuit.Circuit * option T -> Circuit.Circuit * option T).

(** [OWait] is the end of a wait; [OCircuit] what the rest of the program does to a
    circuit. *)
Definition run1 (w : world) (x : op) : world :=
  match x with
  | ORegister id c => RegisterCircuit id c w
  | OExpect circID => ExpectCreated2 circID w
  | OForget circID => ForgetCreated2 circID w
  | OWait pick ctxDone circID ch => (wait_end pick ctxDone circID ch w).1
  | OTurn env received => (loop_turn env received w).1.1
  | OClose => (Close w).1
  | OCircuit o f => set_objs w (alter f o (objs w))
  end.

Definition run (w : world) (l : list op) : world := foldl run1 w l.

(** *** The slot of a waiter *)

(** [circID] has the channel [ch], which holds [q]. *)
Definition slot (w : world) (circID : Z) (ch : nat) (q : list Cell) : Prop :=
  created (mux w) !! circID = Some ch /\ chans w !! ch = Some q /\ (ch < nextChan w)%nat /\
  (forall id, created (mux w) !! id = Some ch -> id = circID).

(** Operations that leave the slot of [circID] alone: they may concern any other
    waiter, any circuit, and, once the channel holds a cell ([full]), any cell. *)
Definition spares (full : bool) (circID : Z) (ch : nat) (x : op) : Prop :=
  match x with
  | OForget id => id <> circID
  | OWait _ _ id ch' => id <> circID /\ ch' <> ch
  | OTurn _ (Some c) => full = true \/ CircID c <> circID \/ (Command c <> Cell.CmdCreated2 /\ Command c <> Cell.CmdDestroy)
  | _ => True
  end.

(** The operations on circuits leave the channels alone. *)
Definition same_slots (w w' : world) : Prop :=
  created (mux w') = created (mux w) /\ chans w' = chans w /\ nextChan w' = nextChan w.

Lemma slot_same w w' id ch q : same_slots w w' -> slot w id ch q -> slot w' id ch q.
Proof. intros (H1 & H2 & H3). unfold slot. by rewrite H1, H2, H3. Qed.

Lemma same_close w : same_slots w (Close w).1.
Proof. unfold Close. by destruct (closed (mux w)). Qed.

(** Closing effects change nothing but the flag of the multiplexer. *)
Lemma closing_effects o effects w out :
  let w' := (foldl (closing_effect o) (w, out) effects).1 in same_slots w w' /\ objs w' = objs w.
Proof.
  revert w out. induction effects as [|e effects IH]; intros w out; [done|]. cbn [foldl closing_effect].
  destruct e; [apply IH| |apply IH]. unfold Close. destruct (closed (mux w)); [apply IH|].
  exact (IH (set_mux w (mkMux (circuits (mux w)) (created (mux w)) true)) (out ++ [ConnClosed])).
Qed.

Lemma same_destroy o reason w : same_slots w (destroy_circuit o reason w).1.
Proof.
  unfold destroy_circuit. destruct (objs w !! o) as [[c mgr]|]; [|done]. destruct (Circuit.Close _) as [c' effects].
  by destruct (closing_effects o effects (set_objs w (<[o := (c', mgr)]> (objs w))) []) as [Hs _].
Qed.

Lemma same_deliver env o c w : same_slots w (deliver env o c w).1.
Proof. unfold deliver. destruct (objs w !! o) as [ow|]; [|done]. by destruct (Circuit.DeliverRelayCell _ _ _ _ _ _ _ _ _) as [[[? ?] ?] ?]. Qed.

(** A cell either leaves the channels alone or goes, as the only one, into the
    empty channel of its own circuit id. *)
Lemma dispatch_slots env c w :
  same_slots w (dispatch env c w).1 \/
  exists ch, created (mux w) !! CircID c = Some ch /\ chans w !! ch = Some [] /\
    (Command c = Cell.CmdCreated2 \/ Command c = Cell.CmdDestroy) /\ dispatch env c w = (set_chans w (<[ch := [c]]> (chans w)), []).
Proof.
  unfold dispatch. destruct (_ || _); [by left|]. destruct ((Command c =? Cell.CmdCreated2) || _) eqn:Hc.
  - assert (Command c = Cell.CmdCreated2 \/ Command c = Cell.CmdDestroy) as Hcmd by (apply orb_true_iff in Hc as [Hc%Z.eqb_eq|Hc%Z.eqb_eq]; auto).
    destruct (created (mux w) !! CircID c) as [ch|] eqn:Hch.
    + destruct (chans w !! ch) as [[|x q]|] eqn:Hq; [|by left|by left]. right. exists ch. done.
    + left. destruct (Command c =? Cell.CmdDestroy); [|done]. destruct (circuits (mux w) !! CircID c); [apply same_destroy | done].
  - left. clear Hc. destruct (_ || _); [|done]. destruct (circuits (mux w) !! CircID c); [apply same_deliver | done].
Qed.

Lemma slot_run1 full id ch q w x :
  (full = true -> q <> []) -> spares full id ch x -> slot w id ch q -> slot (run1 w x) id ch q.
Proof.
  intros Hf Hx Hs. destruct x as [i c|i|i|pick ctxDone i ch'|env received| |o f]; cbn [run1].
  - apply (slot_same w); done.
  - unfold ExpectCreated2, waiter. destruct (created (mux w) !! i) as [ch'|] eqn:Hi; [done|]. cbn [fst].
    destruct Hs as (H1 & H2 & H3 & H4). assert (i <> id) as Hne by (intros ->; congruence).
    split_and!; cbn; [by rewrite lookup_insert_ne by congruence | rewrite lookup_insert_ne by lia; done | lia|].
    intros id'. destruct (decide (id' = i)) as [->|Hn]; [rewrite lookup_insert_eq; intros [= <-]; lia | rewrite lookup_insert_ne by congruence; apply H4].
  - destruct Hs as (H1 & H2 & H3 & H4). split_and!; cbn; [by rewrite lookup_delete_ne | done | done|].
    intros id' Hid. apply lookup_delete_Some in Hid as [_ Hid]. by apply H4.
  - destruct Hx as [Hi Hch]. destruct Hs as (H1 & H2 & H3 & H4).
    assert (slot (ForgetCreated2 i w) id ch q) as Hfw.
    { split_and!; cbn; [by rewrite lookup_delete_ne | done | done|]. intros id' Hid. apply lookup_delete_Some in Hid as [_ Hid]. by apply H4. }
    unfold wait_end. destruct (select _ _) as [[| |c]|]; cbn [fst]; [done|done| |done].
    destruct Hfw as (F1 & F2 & F3 & F4). split_and!; [done | cbn; by rewrite lookup_insert_ne | done | done].
  - unfold loop_turn. destruct (closed (mux w)); [done|]. destruct received as [c|].
    + pose proof (dispatch_slots env c w) as Hd. destruct (dispatch env c w) as [w' out]. cbn [fst] in *.
      destruct Hd as [Hd|(ch' & Hc & He & Hcmd & [= -> ->])]; [by apply (slot_same w)|].
      destruct Hs as (H1 & H2 & H3 & H4). destruct (decide (ch' = ch)) as [->|Hne].
      * exfalso. pose proof (H4 _ Hc) as Hid. rewrite H2 in He. injection He as ->. destruct Hx as [Hx|[Hx|Hx]]; [by apply Hf in Hx|done|naive_solver].
      * split_and!; [done | cbn; by rewrite lookup_insert_ne | done | done].
    + pose proof (same_close w) as Hc. destruct (Close w). by apply (slot_same w).
  - apply (slot_same w); [apply same_close | done].
  - apply (slot_same w); done.
Qed.

Lemma slot_run full id ch q l w :
  (full = true -> q <> []) -> Forall (spares full id ch) l -> slot w id ch q -> slot (run w l) id ch q.
Proof.
  intros Hf Hl. revert w. induction Hl as [|x l Hx Hl IH]; intros w Hs; [done|]. cbn [run foldl]. apply IH. by eapply slot_run1.
Qed.

(** The table after the start of a wait. *)
Definition wf (w : world) : Prop := forall id ch, created (mux w) !! id = Some ch -> (ch < nextChan w)%nat.

Lemma slot_waiter id w : wf w -> created (mux w) !! id = None -> slot (waiter id w).1 id (waiter id w).2 [].
Proof.
  intros Hw Hn. unfold waiter. rewrite Hn. cbn. split_and!; cbn; [by rewrite lookup_insert_eq | by rewrite lookup_insert_eq | lia|].
  intros id'. destruct (decide (id' = id)) as [->|Hne]; [done|]. rewrite lookup_insert_ne by congruence. intros Hid. apply Hw in Hid. lia.
Qed.

Lemma dispatch_into env c w ch : slot w (CircID c) ch [] -> Command c = Cell.CmdCreated2 \/ Command c = Cell.CmdDestroy ->
  slot (dispatch env c w).1 (CircID c) ch [c] /\ closed (mux (dispatch env c w).1) = closed (mux w) /\ objs (dispatch env c w).1 = objs w.
Proof.
  intros (H1 & H2 & H3 & H4) Hc. unfold dispatch. assert ((Command c =? Cell.CmdPadding) || (Command c =? Cell.CmdVPadding) = false) as -> by (by destruct Hc as [-> | ->]).
  assert ((Command c =? Cell.CmdCreated2) || (Command c =? Cell.CmdDestroy) = true) as -> by (by destruct Hc as [-> | ->]).
  rewrite H1, H2. split_and!; [split_and!; [done | cbn; by rewrite lookup_insert_eq | done | done] | done | done].
Qed.

(** What a wait makes of the first cell. *)
Definition wait_result (c : Cell) : result error Cell :=
  if Command c =? Cell.CmdDestroy then Err (errDestroyed (CircID c) (at_ (Payload c) 0)) else Ok c.

Lemma wait_takes pick w c ch : slot w (CircID c) ch [c] -> closed (mux w) = false ->
  wait_end pick false (CircID c) ch w =
    (ForgetCreated2 (CircID c) (set_chans w (<[ch := []]> (chans w))), Some (wait_result c)).
Proof. intros (_ & H2 & _) Hc. unfold wait_end. rewrite Hc, H2. cbn [app]. by rewrite select_single. Qed.

(** C38: A handshake is answered: once a waiter for a circuit id is entered, before the
    CREATE2 is sent, the first CREATED2 or DESTROY of that id is kept for it,
    whatever other cells arrive, waiters come and go, circuits are registered, used
    or closed in between.  The wait then ends: it returns that cell, unless its
    context is over or the connection is closed by then, when it may also report
    just that. *)
Theorem created2_reaches_waiter env c w l1 l2 pick ctxDone :
  wf w -> created (mux w) !! CircID c = None -> Command c = Cell.CmdCreated2 \/ Command c = Cell.CmdDestroy ->
  let w0 := (waiter (CircID c) w).1 in
  let ch := (waiter (CircID c) w).2 in
  Forall (spares false (CircID c) ch) l1 -> Forall (spares true (CircID c) ch) l2 ->
  let w3 := run (dispatch env c (run w0 l1)).1 l2 in
  let r := (wait_end pick ctxDone (CircID c) ch w3).2 in
  r = Some (wait_result c) \/
  (ctxDone = true /\ r = Some (Err errTimeout)) \/
  (closed (mux w3) = true /\ r = Some (Err errMuxClosed)).
Proof.
  intros Hw Hn Hc w0 ch Hl1 Hl2 w3 r. assert (slot w3 (CircID c) ch [c]) as (_ & Hch & _).
  { apply (slot_run true); [done|done|]. apply dispatch_into; [|done]. apply (slot_run false); [done|done|]. by apply slot_waiter. }
  unfold r, wait_end. rewrite Hch. set (cases := _ ++ _ ++ [CaseCell c]).
  destruct (select_some pick cases) as (x & -> & Es); [unfold cases; by destruct ctxDone, (closed (mux w3))|].
  unfold cases in Es.
  destruct x as [| |x]; destruct ctxDone, (closed (mux w3)); simpl in Es |- *; try (exfalso; set_solver); auto.
  all: left; assert (x = c) as -> by set_solver; done.
Qed.

(** A DESTROY right behind the CREATED2, before the waiter has run, is dropped: the
    handshake succeeds and the circuit never hears of it. *)
Theorem destroy_after_created2_lost env c d w ch pick :
  slot w (CircID c) ch [] -> Command c = Cell.CmdCreated2 -> Command d = Cell.CmdDestroy -> CircID d = CircID c -> closed (mux w) = false ->
  let w1 := (dispatch env d (dispatch env c w).1).1 in
  objs w1 = objs w /\ (wait_end pick false (CircID c) ch w1).2 = Some (Ok c).
Proof.
  intros Hs Hc Hd Hid Hcl w1. destruct (dispatch_into env c w ch Hs (or_introl Hc)) as (Hs1 & Hcl1 & Ho1).
  set (w0 := (dispatch env c w).1) in *. assert (w1 = w0) as ->.
  { unfold w1, dispatch. rewrite Hd. cbn [Z.eqb Pos.eqb orb Cell.CmdDestroy Cell.CmdPadding Cell.CmdVPadding Cell.CmdCreated2].
    destruct Hs1 as (S1 & S2 & _). by rewrite Hid, S1, S2. }
  split; [done|]. rewrite (wait_takes pick w0 c ch Hs1) by congruence. cbn [snd]. unfold wait_result. by rewrite Hc.
Qed.

(** Routing: a cell changes no circuit but the one registered under its id, and only
    a relay cell, or a DESTROY nobody waits for, changes that one. *)
Theorem dispatch_routes env c w o :
  objs (dispatch env c w).1 !! o <> objs w !! o ->
  circuits (mux w) !! CircID c = Some o /\
  (Command c = Cell.CmdRelay \/ Command c = Cell.CmdRelayEarly \/
   (Command c = Cell.CmdDestroy /\ created (mux w) !! CircID c = None)).
Proof.
  assert (forall o' reason, objs (destroy_circuit o' reason w).1 !! o <> objs w !! o -> o' = o) as Hdestroy.
  { intros o' reason. unfold destroy_circuit. destruct (objs w !! o') as [[x mgr]|]; [|done]. destruct (Circuit.Close _) as [x' effects].
    destruct (closing_effects o' effects (set_objs w (<[o' := (x', mgr)]> (objs w))) []) as [_ ->]. cbn.
    intros Hch. destruct (decide (o' = o)) as [|Hne]; [done|]. by rewrite lookup_insert_ne in Hch. }
  assert (forall o', objs (deliver env o' c w).1 !! o <> objs w !! o -> o' = o) as Hdeliver.
  { intros o'. unfold deliver. destruct (objs w !! o') as [ow|]; [|done]. destruct (Circuit.DeliverRelayCell _ _ _ _ _ _ _ _ _) as [[[? ?] ?] ?].
    cbn. intros Hch. destruct (decide (o' = o)) as [|Hne]; [done|]. by rewrite lookup_insert_ne in Hch. }
  unfold dispatch. destruct (_ || _); [done|]. destruct ((Command c =? Cell.CmdCreated2) || (Command c =? Cell.CmdDestroy)) eqn:Hc.
  - destruct (created (mux w) !! CircID c) as [ch|]; [by destruct (chans w !! ch) as [[|? ?]|]|].
    destruct (Z.eqb_spec (Command c) Cell.CmdDestroy) as [He|He]; [|done]. destruct (circuits (mux w) !! CircID c) as [o'|]; [|done].
    intros Hch. apply Hdestroy in Hch as ->. auto.
  - destruct ((Command c =? Cell.CmdRelay) || _) eqn:Hr; [|done]. destruct (circuits (mux w) !! CircID c) as [o'|]; [|done].
    intros Hch. apply Hdeliver in Hch as ->. split; [done|]. apply orb_true_iff in Hr as [Hr%Z.eqb_eq|Hr%Z.eqb_eq]; auto.
Qed.

End Mux.

(** ** A handshake *)

Definition sample_env : deliver_env := mkDeliverEnv 0 None None id.
Definition no_bwd (g : CGO.CGOPair) (_ : Z) (_ : bytes) : CGO.CGOPair * option (bytes * bool * bytes) := (g, None).
Definition empty_world : world (T := Stream.CircuitBound) :=
  mkWorld NewCellMux {[1 := (Circuit.NewCircuit 7, None)]} ∅ 0 false.
Definition created2 (id : Z) : Cell := mkCell id Cell.CmdCreated2 [0; 0].

(** Another circuit's CREATED2 and a relay cell before the answer, a DESTROY after it. *)
Lemma created2_reaches_waiter_witness :
  let l1 := [ORegister 7 1; OExpect 5; OTurn sample_env (Some (created2 5)); OTurn sample_env (Some (mkCell 7 Cell.CmdRelay []))] in
  let l2 := [OTurn sample_env (Some (mkCell 7 Cell.CmdDestroy [1])); OForget 5] in
  let w3 := run id id no_bwd (dispatch id id no_bwd sample_env (created2 7) (run id id no_bwd (ExpectCreated2 7 empty_world) l1)).1 l2 in
  let r := (wait_end 0 false 7 0 w3).2 in
  r = Some (Ok (created2 7)) \/ (false = true /\ r = Some (Err errTimeout)) \/
  (closed (mux w3) = true /\ r = Some (Err errMuxClosed)).
Proof.
  intros l1 l2. refine (created2_reaches_waiter id id no_bwd sample_env (created2 7) empty_world l1 l2 0 false _ _ _ _ _).
  - intros i ch Hi. vm_compute in Hi. discriminate Hi.
  - reflexivity.
  - left. reflexivity.
  - repeat (apply Forall_cons; split; [cbn; try exact I; try (right; left; discriminate); try (right; right; split; discriminate)|]). apply Forall_nil. exact I.
  - repeat (apply Forall_cons; split; [cbn; try (left; reflexivity); try discriminate|]). apply Forall_nil. exact I.
Defined.

End Mux.
