(* ===== verification/Circpad.v ===== *)
(** * Padding of onion service circuits (pkg/circuit/circpad.go, circpad_histogram.go, circpad_runtime.go)

    PADDING_NEGOTIATE and PADDING_NEGOTIATED, the setup machines of proposal 302,
    the sampling of delays, and the controller of a circuit with its timer; the
    answer to a request (pkg/circuit/padding_machine.go) and the start of a machine
    on a circuit (pkg/circuit/circuit.go).

    Random numbers are arguments: a draw below a bound, [None] when the source
    fails.  A timer is a number; [armed] are those that have neither fired nor been
    stopped. *)

From Stdlib Require Import String.
From S2P Require Import Prelude Conversion Cell RelayCell CellPayloads Stream Circuit.
Import Conversion.

Module Circpad.

Definition CircpadCommandStop : Z := 1.
Definition CircpadCommandStart : Z := 2.
Definition CircpadResponseOK : Z := 1.
Definition CircpadResponseErr : Z := 2.
Definition CircpadMachineCircSetup : Z := 1.
Definition IntroMachineMinPadding : Z := 7.
Definition IntroMachineMaxPadding : Z := 10.

Inductive Event := CircpadEventNonpaddingRecv | CircpadEventNonpaddingSent | CircpadEventPaddingSent | CircpadEventPaddingRecv
| CircpadEventLengthCount.
Inductive State := CircpadStateStart | CircpadStateObfuscateCircSetup | CircpadStateEnd.

Global Instance event_eq_dec : EqDecision Event.
Proof. solve_decision. Defined.

Global Instance state_eq_dec : EqDecision State.
Proof. solve_decision. Defined.

Inductive error :=
| errCommand (c : Z)
| errResponse (r : Z)
| errTooShort (n : Z)
| errEmptyHistogram
| errRand
| errDisabled
| errActive
| errNotActive
| errNoNegotiate
| errNegotiatedErr
| errNoPadding2
| errHops
| errCell (e : RelayCell.error)
| errSend.

(** ** Negotiation *)

Record CircpadNegotiate := mkNegotiate {
  Version : Z; Command : Z; MachineType : Z; Unused : Z; MachineCtr : Z;
}.

Record CircpadNegotiated := mkNegotiated {
  NVersion : Z; NCommand : Z; Response : Z; NMachineType : Z; NMachineCtr : Z;
}.

Definition EncodeCircpadNegotiate (n : CircpadNegotiate) : result error bytes :=
  if negb (Command n =? CircpadCommandStart) && negb (Command n =? CircpadCommandStop) then Err (errCommand (Command n))
  else Ok ([Version n; Command n; MachineType n; Unused n] ++ PutUint32 (MachineCtr n)).

Definition DecodeCircpadNegotiate (data : bytes) : result error CircpadNegotiate :=
  if len data <? 8 then Err (errTooShort (len data))
  else Ok (mkNegotiate (at_ data 0) (at_ data 1) (at_ data 2) (at_ data 3) (be_get (slice data 4 8))).

Definition EncodeCircpadNegotiated (n : CircpadNegotiated) : result error bytes :=
  if negb (Response n =? CircpadResponseOK) && negb (Response n =? CircpadResponseErr) then Err (errResponse (Response n))
  else Ok ([NVersion n; NCommand n; Response n; NMachineType n] ++ PutUint32 (NMachineCtr n)).

Definition DecodeCircpadNegotiated (data : bytes) : result error CircpadNegotiated :=
  if len data <? 8 then Err (errTooShort (len data))
  else Ok (mkNegotiated (at_ data 0) (at_ data 1) (at_ data 2) (at_ data 3) (be_get (slice data 4 8))).

(** The body [HandlePaddingNegotiate] answers with. *)
Definition HandlePaddingNegotiate (data : bytes) : result error bytes :=
  let? req := DecodeCircpadNegotiate data in
  let response := if negb (MachineType req =? CircpadMachineCircSetup) then CircpadResponseErr else CircpadResponseOK in
  EncodeCircpadNegotiated (mkNegotiated 0 (Command req) response (MachineType req) (MachineCtr req)).

(** ** Delays *)

(** Microseconds, and the tokens of each bin. *)
Record CircpadHistogram := mkHistogram { Edges : list Z; Bins : list Z }.

(** [randUint64]: a draw below [max]. *)
Definition randUint64 (draw : option Z) (max : Z) : option Z := if max =? 0 then Some 0 else draw.

(** The bin the weight falls into, [n] when there is none. *)
Fixpoint choose_bin (bins : list Z) (choice weight : Z) (bin : nat) : nat :=
  match bins with
  | [] => bin
  | b :: bins => 
      let weight := u64 (weight + b) in if choice <? weight then bin else choose_bin bins choice weight (S bin)
  end.

(** [Ok None] is [CircpadDelayInfinite]; nanoseconds otherwise.  [draw1] chooses the
    bin, [draw2] the place in it. *)
Definition SampleDelay (draw1 draw2 : Z -> option Z) (h : CircpadHistogram) : result error (option Z) :=
  if (len (Edges h) <? 2) || (len (Bins h) =? 0) then Err errEmptyHistogram
  else
    let nBins := Nat.min (length (Edges h) - 1) (length (Bins h)) in
    let bins := take nBins (Bins h) in
    let total := foldl (fun t b => u64 (t + b)) 0 bins in
    if total =? 0 then Ok None
    else
      match randUint64 (draw1 total) total with
      | None => Err errRand
      | Some choice =>
          let bin := choose_bin bins choice 0 0 in
          if (nBins <=? bin)%nat then Ok None
          else
            let lo := at_ (Edges h) bin in
            let hi := at_ (Edges h) (S bin) in
            if hi <=? lo then Ok (Some (Uint64ToInt64Sat lo * 1000))
            else
              match randUint64 (draw2 (hi - lo)) (hi - lo) with
              | None => Err errRand
              | Some off => Ok (Some (Uint64ToInt64Sat (lo + off) * 1000))
              end
      end.

Definition RelayIntroObfuscateHistogram : CircpadHistogram := mkHistogram [1000; 10000] [1000].
Definition ClientRendObfuscateHistogram : CircpadHistogram := mkHistogram [0; 1000] [1000].

(** ** Machines *)

Record CircpadTransition := mkTransition { From : State; On : Event; To : State }.

Record CircpadHSSetupMachine := mkMachine {
  Name : string;
  TargetHop : Z;
  AllowedPaddingCount : Z;
  Transitions : list CircpadTransition;
  OriginSide : bool;
  SendsNegotiate : bool;
  LengthUniformMin : Z;
  LengthUniformMax : Z;
  Histogram : CircpadHistogram;
  SendsPadding : bool;
}.

Definition noHistogram : CircpadHistogram := mkHistogram [] [].

Definition ClientHideIntroCircuits : CircpadHSSetupMachine :=
  mkMachine "client_hide_intro" 2 IntroMachineMaxPadding
    [mkTransition CircpadStateStart CircpadEventNonpaddingSent CircpadStateObfuscateCircSetup]
    true true 0 0 noHistogram false.

Definition RelayHideIntroCircuits : CircpadHSSetupMachine :=
  mkMachine "relay_hide_intro" 2 IntroMachineMaxPadding
    [mkTransition CircpadStateStart CircpadEventNonpaddingSent CircpadStateObfuscateCircSetup;
     mkTransition CircpadStateObfuscateCircSetup CircpadEventLengthCount CircpadStateEnd;
     mkTransition CircpadStateObfuscateCircSetup CircpadEventPaddingSent CircpadStateObfuscateCircSetup;
     mkTransition CircpadStateObfuscateCircSetup CircpadEventNonpaddingSent CircpadStateObfuscateCircSetup]
    false false IntroMachineMinPadding IntroMachineMaxPadding RelayIntroObfuscateHistogram true.

Definition ClientHideRendCircuits : CircpadHSSetupMachine :=
  mkMachine "client_hide_rend" 2 1
    [mkTransition CircpadStateStart CircpadEventNonpaddingSent CircpadStateObfuscateCircSetup;
     mkTransition CircpadStateObfuscateCircSetup CircpadEventPaddingRecv CircpadStateEnd;
     mkTransition CircpadStateObfuscateCircSetup CircpadEventLengthCount CircpadStateEnd;
     mkTransition CircpadStateObfuscateCircSetup CircpadEventPaddingSent CircpadStateObfuscateCircSetup]
    true true 1 1 ClientRendObfuscateHistogram true.

(** The zero value of a machine. *)
Definition noMachine : CircpadHSSetupMachine := mkMachine "" 0 0 [] false false 0 0 noHistogram false.

(** [None] is -1. *)
Definition NextState (m : CircpadHSSetupMachine) (from : State) (event : Event) : option State :=
  To <$> List.find (fun t => bool_decide (From t = from) && bool_decide (On t = event)) (Transitions m).

Definition CircpadPaddingDisabled (param : option Z) : bool := match param with None => false | Some v => negb (v =? 0) end.

(** ** The controller *)

Inductive HSSetupKind := HSSetupIntro | HSSetupRend.

Record CircpadConfig := mkConfig { Disabled : bool; GlobalAllowedCells : Z }.
Definition CircpadConfigFromParams (disabled : bool) (globalAllowed : Z) : CircpadConfig := mkConfig disabled globalAllowed.

(** [sender]: whether one was set.  [armed] and [timers] are the timers of the
    controller. *)
Record CircpadController := mkController {
  cfg : CircpadConfig;
  machine : CircpadHSSetupMachine;
  kind : HSSetupKind;
  state : State;
  machineCtr : Z;
  active : bool;
  negotiateSent : bool;
  paddingSent : Z;
  paddingRecv : Z;
  pendingTimer : option nat;
  sender : bool;
  armed : gset nat;
  timers : nat;
}.

Definition set_state (c : CircpadController) (s : State) (a : bool) : CircpadController :=
  mkController (cfg c) (machine c) (kind c) s (machineCtr c) a (negotiateSent c) (paddingSent c) (paddingRecv c)
    (pendingTimer c) (sender c) (armed c) (timers c).
Definition set_counts (c : CircpadController) (sent recv : Z) : CircpadController :=
  mkController (cfg c) (machine c) (kind c) (state c) (machineCtr c) (active c) (negotiateSent c) sent recv
    (pendingTimer c) (sender c) (armed c) (timers c).
Definition set_timers (c : CircpadController) (p : option nat) (a : gset nat) (n : nat) : CircpadController :=
  mkController (cfg c) (machine c) (kind c) (state c) (machineCtr c) (active c) (negotiateSent c) (paddingSent c)
    (paddingRecv c) p (sender c) a n.

Definition NewCircpadController (cfg : CircpadConfig) : CircpadController :=
  mkController cfg noMachine HSSetupIntro CircpadStateStart 1 false false 0 0 None false ∅ 0.

Definition Active (c : CircpadController) : bool := active c && negb (bool_decide (state c = CircpadStateEnd)).

Definition machine_of (k : HSSetupKind) : CircpadHSSetupMachine :=
  match k with HSSetupIntro => ClientHideIntroCircuits | HSSetupRend => ClientHideRendCircuits end.

Definition StartHSSetup (k : HSSetupKind) (c : CircpadController) : CircpadController * option error :=
  if Disabled (cfg c) then (c, Some errDisabled)
  else if active c then (c, Some errActive)
  else (mkController (cfg c) (machine_of k) k CircpadStateStart (machineCtr c) true false 0 0
          (pendingTimer c) (sender c) (armed c) (timers c), None).

Definition lift {A} (r : result RelayCell.error A) : result error A := match r with Ok a => Ok a | Err e => Err (errCell e) end.

Definition negotiate_cell (command ctr : Z) : result error RelayCell.RelayCell :=
  let? payload := EncodeCircpadNegotiate (mkNegotiate 0 command CircpadMachineCircSetup 0 ctr) in
  lift (RelayCell.NewRelayCell 0 RelayCell.RelayPaddingNegotiate payload).

Definition BuildNegotiateStart (c : CircpadController) : result error RelayCell.RelayCell :=
  if negb (active c) then Err errNotActive
  else if negb (SendsNegotiate (machine c)) then Err errNoNegotiate
  else negotiate_cell CircpadCommandStart (machineCtr c).

Definition applyEventLocked (event : Event) (c : CircpadController) : CircpadController :=
  match NextState (machine c) (state c) event with
  | None => c
  | Some next => set_state c next (if bool_decide (next = CircpadStateEnd) then false else active c)
  end.

Definition OnNonpaddingSent (c : CircpadController) : CircpadController :=
  if negb (active c) then c else applyEventLocked CircpadEventNonpaddingSent c.

Definition MarkNegotiateSent (c : CircpadController) : CircpadController :=
  applyEventLocked CircpadEventNonpaddingSent
    (mkController (cfg c) (machine c) (kind c) (state c) (machineCtr c) (active c) true (paddingSent c) (paddingRecv c)
       (pendingTimer c) (sender c) (armed c) (timers c)).

Definition OnNegotiated (n : CircpadNegotiated) (c : CircpadController) : CircpadController * option error :=
  if negb (active c) then (c, Some errNotActive)
  else if negb (NMachineCtr n =? machineCtr c) then (c, None)
  else if Response n =? CircpadResponseErr then (set_state c CircpadStateEnd false, Some errNegotiatedErr)
  else (c, None).

(** The length test behind both counts. *)
Definition length_reached (count : Z) (c : CircpadController) : CircpadController :=
  if (0 <? LengthUniformMax (machine c)) && (LengthUniformMax (machine c) <=? count)
  then applyEventLocked CircpadEventLengthCount c else c.

Definition OnPaddingRecv (c : CircpadController) : CircpadController :=
  if negb (active c) then c
  else
    let c := set_counts c (paddingSent c) (paddingRecv c + 1) in
    let c := applyEventLocked CircpadEventPaddingRecv c in
    length_reached (paddingRecv c) c.

Definition OnPaddingSent (c : CircpadController) : CircpadController :=
  if negb (active c) then c
  else
    let c := set_counts c (paddingSent c + 1) (paddingRecv c) in
    let c := applyEventLocked CircpadEventPaddingSent c in
    length_reached (paddingSent c) c.

(** [Ok None]: nothing to stop. *)
Definition Stop (c : CircpadController) : CircpadController * result error (option RelayCell.RelayCell) :=
  if negb (active c) then (c, Ok None)
  else
    match EncodeCircpadNegotiate (mkNegotiate 0 CircpadCommandStop CircpadMachineCircSetup 0 (machineCtr c)) with
    | Err e => (c, Err e)
    | Ok payload =>
        let r := lift (RelayCell.NewRelayCell 0 RelayCell.RelayPaddingNegotiate payload) in
        (mkController (cfg c) (machine c) (kind c) CircpadStateEnd (u32 (machineCtr c + 1)) false (negotiateSent c)
           (paddingSent c) (paddingRecv c) (pendingTimer c) (sender c) (armed c) (timers c),
         match r with Ok rc => Ok (Some rc) | Err e => Err e end)
    end.

Definition SetPaddingSender (c : CircpadController) : CircpadController :=
  mkController (cfg c) (machine c) (kind c) (state c) (machineCtr c) (active c) (negotiateSent c) (paddingSent c)
    (paddingRecv c) (pendingTimer c) true (armed c) (timers c).

Definition SampleNextPaddingDelay (draw1 draw2 : Z -> option Z) (c : CircpadController) : result error (option Z) :=
  if negb (active c) || negb (SendsPadding (machine c)) then Ok None
  else if len (Bins (Histogram (machine c))) =? 0 then Ok None
  else SampleDelay draw1 draw2 (Histogram (machine c)).

Definition cancel (c : CircpadController) : CircpadController :=
  match pendingTimer c with
  | None => c
  | Some t => set_timers c None (armed c ∖ {[t]}) (timers c)
  end.

Definition CancelPending (c : CircpadController) : CircpadController := cancel c.

(** The two critical sections of [SchedulePaddingAfterNegotiate]: the first yields
    the histogram, the second arms a timer when a delay was drawn. *)
Definition schedule_begin (c : CircpadController) : CircpadController * option CircpadHistogram :=
  if negb (active c) || negb (SendsPadding (machine c)) || negb (sender c) then (c, None)
  else (cancel c, Some (Histogram (machine c))).

Definition schedule_end (c : CircpadController) : CircpadController :=
  set_timers c (Some (timers c)) ({[timers c]} ∪ armed c) (S (timers c)).

Definition SchedulePaddingAfterNegotiate (draw1 draw2 : Z -> option Z) (c : CircpadController) : CircpadController :=
  match schedule_begin c with
  | (c, None) => c
  | (c, Some h) => match SampleDelay draw1 draw2 h with Ok (Some _) => schedule_end c | _ => c end
  end.

(** A timer goes off: the DROP is handed to the sender, and noted when that
    succeeded. *)
Definition fire (t : nat) (sent : bool) (c : CircpadController) : CircpadController * list RelayCell.RelayCell :=
  if decide (t ∈ armed c) then
    let c := set_timers c (pendingTimer c) (armed c ∖ {[t]}) (timers c) in
    match RelayCell.NewRelayCell 0 RelayCell.RelayDrop [] with
    | Err _ => (c, [])
    | Ok rc => if sent then (OnPaddingSent c, [rc]) else (c, [])
    end
  else (c, []).

(** [send] is [SendRelayCellToHop] on the circuit: whether it succeeds.  The result
    is the controller attached to the circuit, and the PADDING_NEGOTIATE sent. *)
Definition StartHSSetupPadding (send : RelayCell.RelayCell -> Z -> bool) (draw1 draw2 : Z -> option Z) (hops : Z) (k : HSSetupKind)
    (middleSupportsPadding2 : bool) (cfg : CircpadConfig) : result error (CircpadController * RelayCell.RelayCell) :=
  if Disabled cfg then Err errDisabled
  else if negb middleSupportsPadding2 then Err errNoPadding2
  else if hops <? 2 then Err errHops
  else
    match StartHSSetup k (NewCircpadController cfg) with
    | (_, Some e) => Err e
    | (ctrl, None) =>
        let hopIdx := (if active ctrl then TargetHop (machine ctrl) else 0) - 1 in
        let ctrl := SetPaddingSender ctrl in
        let? rc := BuildNegotiateStart ctrl in
        if negb (send rc hopIdx) then Err errSend
        else Ok (SchedulePaddingAfterNegotiate draw1 draw2 (MarkNegotiateSent ctrl), rc)
    end.

(** ** The life of a machine *)

(** What happens on a circuit after the machine was started. *)
Inductive op :=
| ONonpaddingSent
| OPaddingRecv
| ONegotiated (n : CircpadNegotiated)
| OFire (t : nat) (sent : bool)
| OCancel
| OStop.

Definition run1 (cd : CircpadController * list RelayCell.RelayCell) (x : op) : CircpadController * list RelayCell.RelayCell :=
  let '(c, drops) := cd in
  match x with
  | ONonpaddingSent => (OnNonpaddingSent c, drops)
  | OPaddingRecv => (OnPaddingRecv c, drops)
  | ONegotiated n => ((OnNegotiated n c).1, drops)
  | OFire t sent => let '(c, d) := fire t sent c in (c, drops ++ d)
  | OCancel => (CancelPending c, drops)
  | OStop => ((Stop c).1, drops)
  end.

(** The events that end a machine of a kind, besides a DROP of its own. *)
Definition ends (k : HSSetupKind) (x : op) : bool :=
  match x with
  | OPaddingRecv => match k with HSSetupRend => true | HSSetupIntro => false end
  | ONegotiated n => (NMachineCtr n =? 1) && (Response n =? CircpadResponseErr)
  | OStop => true
  | _ => false
  end.

(** The machine obfuscates until something ended it; [l] has happened. *)
Definition in_step (k : HSSetupKind) (l : list op) (c : CircpadController) (drops : list RelayCell.RelayCell) : Prop :=
  let over := existsb (ends k) l || negb (bool_decide (drops = [])) in
  machine c = machine_of k /\ state c = (if over then CircpadStateEnd else CircpadStateObfuscateCircSetup) /\
  active c = negb over /\ (over = false -> machineCtr c = 1 /\ (k = HSSetupRend -> paddingSent c = 0)) /\
  (k = HSSetupIntro -> armed c = ∅ /\ drops = []) /\ (size (armed c) + length drops <= 1)%nat.

Lemma existsb_snoc {A} (p : A -> bool) l x : existsb p (l ++ [x]) = existsb p l || p x.
Proof. rewrite existsb_app. cbn. by rewrite orb_false_r. Qed.

Lemma size_remove (a : gset nat) t : t ∈ a -> (size (a ∖ {[t]}) = size a - 1)%nat.
Proof. intros Ht. rewrite size_difference by set_solver. by rewrite size_singleton. Qed.

(** A running machine, step by step. *)
Definition running (k : HSSetupKind) (c : CircpadController) : Prop :=
  machine c = machine_of k /\ state c = CircpadStateObfuscateCircSetup /\ active c = true.

Lemma nonpadding_running k c : running k c -> OnNonpaddingSent c = c.
Proof. destruct c. unfold running. cbn. intros (-> & -> & ->). by destruct k. Qed.

Lemma recv_intro c : running HSSetupIntro c -> OnPaddingRecv c = set_counts c (paddingSent c) (paddingRecv c + 1).
Proof. destruct c. unfold running. cbn. by intros (-> & -> & ->). Qed.

Lemma recv_rend c : running HSSetupRend c ->
  OnPaddingRecv c = set_state (set_counts c (paddingSent c) (paddingRecv c + 1)) CircpadStateEnd false.
Proof. destruct c as [? ? ? ? ? ? ? ? n ? ? ? ?]. unfold running. cbn [machine state active]. intros (-> & -> & ->). unfold OnPaddingRecv, length_reached. cbn [negb active]. by destruct (_ && _). Qed.

Lemma sent_rend c : running HSSetupRend c -> paddingSent c = 0 ->
  OnPaddingSent c = set_state (set_counts c 1 (paddingRecv c)) CircpadStateEnd false.
Proof. destruct c. unfold running. cbn. by intros (-> & -> & ->) ->. Qed.

Lemma in_step_run1 k l c drops x :
  in_step k l c drops -> in_step k (l ++ [x]) (run1 (c, drops) x).1 (run1 (c, drops) x).2.
Proof.
  intros (Hm & Hs & Ha & Hc & Ht & Hz). unfold in_step. rewrite existsb_snoc.
  set (over := existsb (ends k) l || negb (bool_decide (drops = []))) in *.
  assert (forall b, existsb (ends k) l || b || negb (bool_decide (drops = [])) = over || b) as Hov
    by (intros b; unfold over; by destruct (existsb (ends k) l), b, (bool_decide (drops = []))).
  assert (over = false -> running k c) as Hrun by (intros E; rewrite E in Hs, Ha; done).
  destruct x as [| |n|t sent| |]; cbn [run1 ends fst snd].
  - rewrite Hov, orb_false_r. assert (OnNonpaddingSent c = c) as ->; [|done].
    destruct over eqn:E; [unfold OnNonpaddingSent; by rewrite Ha | by apply (nonpadding_running k), Hrun].
  - rewrite Hov. destruct over eqn:E; [unfold OnPaddingRecv; rewrite Ha; cbn [negb orb]; done|]. specialize (Hrun eq_refl).
    destruct k; [rewrite recv_intro by done | rewrite recv_rend by done]; cbn; (split_and!; try done).
  - rewrite Hov. unfold OnNegotiated. rewrite Ha. destruct over; cbn [negb orb fst]; [done|]. destruct (Hc eq_refl) as [Hctr Hps]. rewrite Hctr.
    destruct (NMachineCtr n =? 1); cbn [negb andb fst]; [|done]. destruct (Response n =? CircpadResponseErr); [|done]. cbn. split_and!; try done.
  - unfold fire. destruct (decide (t ∈ armed c)) as [Hin|Hin]; [|cbn [app]; rewrite app_nil_r, Hov, orb_false_r; done].
    assert (0 < size (armed c))%nat as Hpos by (destruct (size (armed c)) eqn:E; [apply size_empty_inv in E; set_solver | lia]).
    assert (drops = []) as -> by (destruct drops; [done | cbn in Hz; lia]). destruct k; [destruct (Ht eq_refl) as [E _]; rewrite E in Hin; set_solver|].
    pose proof (size_remove _ _ Hin) as Hsz. cbn [length] in Hz. assert (size (armed c ∖ {[t]}) = 0%nat) as H0 by lia.
    set (c' := set_timers c (pendingTimer c) (armed c ∖ {[t]}) (timers c)).
    change (RelayCell.NewRelayCell 0 RelayCell.RelayDrop []) with (Ok (E := RelayCell.error) (RelayCell.mkRelayCell RelayCell.RelayDrop 0 0 [0; 0; 0; 0] 0 [])).
    destruct sent; cbn [app fst snd].
    + rewrite orb_true_r. destruct over eqn:E.
      * unfold OnPaddingSent. cbn [set_timers active c']. rewrite Ha. cbn [negb]. unfold c'. cbn. split_and!; try done. lia.
      * destruct (Hc eq_refl) as [Hctr Hps]. rewrite sent_rend; [|exact (Hrun eq_refl)|exact (Hps eq_refl)]. unfold c'. cbn. split_and!; try done. lia.
    + rewrite Hov, orb_false_r. unfold c'. cbn. split_and!; try done. lia.
  - rewrite Hov, orb_false_r. unfold CancelPending, cancel. destruct (pendingTimer c) as [t|]; [|done].
    split_and!; try done; cbn [set_timers armed].
    + intros Hk. destruct (Ht Hk) as [-> ->]. split; [set_solver | done].
    + assert (size (armed c ∖ {[t]}) <= size (armed c))%nat by (apply subseteq_size; set_solver). lia.
  - rewrite Hov, orb_true_r. unfold Stop. rewrite Ha. destruct over; cbn [negb fst]; [done|]. cbn. split_and!; try done.
Qed.

Lemma in_step_run k l c : in_step k [] c [] -> in_step k l (foldl run1 (c, []) l).1 (foldl run1 (c, []) l).2.
Proof.
  intros Hc. induction l as [|x l IH] using rev_ind; [done|]. rewrite foldl_app. cbn [foldl].
  destruct (foldl run1 (c, []) l) as [c' drops]. by apply in_step_run1.
Qed.

(** What is attached to the circuit and sent. *)
Lemma setup_ok send draw1 draw2 hops k m cf c rc :
  StartHSSetupPadding send draw1 draw2 hops k m cf = Ok (c, rc) ->
  in_step k [] c [] /\ RelayCell.Data rc = [0; CircpadCommandStart; CircpadMachineCircSetup; 0; 0; 0; 0; 1].
Proof.
  unfold StartHSSetupPadding. destruct (Disabled cf) eqn:Hd; [done|]. destruct m; [|done]. cbn [negb]. destruct (hops <? 2); [done|].
  unfold StartHSSetup. cbn [NewCircpadController cfg active]. rewrite Hd. cbn [machine_of active machine].
  match goal with |- context [let? _ := BuildNegotiateStart ?x in _] => set (c0 := x) end.
  assert (BuildNegotiateStart c0 = Ok (RelayCell.mkRelayCell RelayCell.RelayPaddingNegotiate 0 0 [0; 0; 0; 0] 8
    [0; CircpadCommandStart; CircpadMachineCircSetup; 0; 0; 0; 0; 1])) as -> by (by destruct k).
  cbn [result_bind]. destruct (send _ _); [|done]. cbn [negb]. intros [= <- <-]. split; [|done].
  unfold SchedulePaddingAfterNegotiate. set (c1 := MarkNegotiateSent c0).
  assert (armed c1 = ∅) as He by (by destruct k).
  assert (in_step k [] c1 []) as Hc1 by (unfold in_step; split_and!; try (by destruct k); rewrite He, size_empty; cbn; lia).
  destruct k; [done|]. assert (schedule_begin c1 = (c1, Some ClientRendObfuscateHistogram)) as -> by reflexivity.
  cbv beta iota.
  destruct (SampleDelay draw1 draw2 _) as [[d|]|e]; [|done|done]. destruct Hc1 as (H1 & H2 & H3 & H4 & _ & _).
  split_and!; [done|done|done|done|done|]. cbn [schedule_end set_timers armed]. rewrite He, union_empty_r_L, size_singleton. cbn. lia.
Qed.

(** C39: A padding machine started on a circuit, whatever happens after: it obfuscates
    until it is stopped or refused or, on a rendezvous circuit, until padding was
    sent or received, and then it is over for good; it never sends more than one
    DROP, and none on an introduction circuit.  What may happen is a stop, a
    cancelled timer, the relay's answers, cells sent, padding received and timers
    that fire, not a second start.
    The answer that [HandlePaddingNegotiate] makes to the request (nothing in the
    program calls it) leaves the machine running. *)
Theorem hs_padding_life send draw1 draw2 hops k m cf c rc :
  StartHSSetupPadding send draw1 draw2 hops k m cf = Ok (c, rc) ->
  (forall l,
    let '(c', drops) := foldl run1 (c, []) l in
    let over := existsb (ends k) l || negb (bool_decide (drops = [])) in
    state c' = (if over then CircpadStateEnd else CircpadStateObfuscateCircSetup) /\ Active c' = negb over /\
    (length drops <= match k with HSSetupRend => 1 | HSSetupIntro => 0 end)%nat) /\
  (exists body n, HandlePaddingNegotiate (RelayCell.Data rc) = Ok body /\ DecodeCircpadNegotiated body = Ok n /\ OnNegotiated n c = (c, None)).
Proof.
  intros Hs. destruct (setup_ok _ _ _ _ _ _ _ _ _ Hs) as [Hin Hrc]. split.
  - intros l. pose proof (in_step_run k l c Hin) as Hl. destruct (foldl run1 (c, []) l) as [c' drops]. destruct Hl as (_ & H2 & H3 & _ & H5 & H6).
    cbn [fst snd] in *. split_and!; [done| |].
    + unfold Active. rewrite H2, H3. by destruct (existsb _ _ || _).
    + destruct k; [by destruct (H5 eq_refl) as [_ ->] | lia].
  - exists [0; 2; 1; 1; 0; 0; 0; 1], (mkNegotiated 0 2 1 1 1). rewrite Hrc. split_and!; [done|done|].
    destruct Hin as (_ & _ & Ha & Hc & _). destruct (Hc eq_refl) as [Hctr _]. unfold OnNegotiated. by rewrite Ha, Hctr.
Qed.

Lemma hs_padding_life_witness :
  exists c rc, StartHSSetupPadding (fun _ _ => true) (fun _ => Some 3) (fun _ => Some 4) 3 HSSetupRend true (mkConfig false 0) = Ok (c, rc) /\
    let '(c', drops) := foldl run1 (c, []) [ONonpaddingSent; OFire 0 true; OPaddingRecv] in
    length drops = 1%nat /\ Active c' = false.
Proof.
  eexists _, _. split; [vm_compute; reflexivity|].
  match goal with |- context [foldl run1 (?c, []) _] => destruct (hs_padding_life (fun _ _ => true) (fun _ => Some 3) (fun _ => Some 4) 3 HSSetupRend true (mkConfig false 0) c _ eq_refl) as [Hl _] end.
  specialize (Hl [ONonpaddingSent; OFire 0 true; OPaddingRecv]). 
  match goal with |- context [foldl run1 ?x ?y] => destruct (foldl run1 x y) as [c' drops] eqn:E end.
  vm_compute in E. injection E as <- <-. destruct Hl as (_ & Ha & _). split; [reflexivity | exact Ha].
Defined.

(** The timer survives the end of the machine: a DROP can follow the STOP. *)
Theorem drop_after_stop :
  exists c rc, StartHSSetupPadding (fun _ _ => true) (fun _ => Some 0) (fun _ => Some 0) 3 HSSetupRend true (mkConfig false 0) = Ok (c, rc) /\
    Active (foldl run1 (c, []) [OStop]).1 = false /\ (foldl run1 (c, []) [OStop]).2 = [] /\
    length (foldl run1 (c, []) [OStop; OFire 0 true]).2 = 1%nat.
Proof. eexists _, _. split; [vm_compute; reflexivity|]. vm_compute. done. Qed.

End Circpad.
