(* ===== verification/PaddingMachines.v ===== *)
(** * Padding machines (pkg/circuit/padding_machine.go, pkg/circuit/padding.go)

    The burst and gap machine, and the machine that sends padding at intervals with
    its background goroutine.  Times are nanoseconds; the clock and the random source
    are arguments (a draw is the number read, [None] when the source fails).  The
    goroutine of the second is a step relation: a step for each atomic operation,
    interleaved with the calls of [Start] and [Stop]. *)

From Stdlib Require Import String.
From S2P Require Import Prelude Conversion Cell RelayCell FlowControl Circuit.
Import Conversion.

Module PaddingMachines.

Definition Second : Z := 1000000000.
Definition Millisecond : Z := 1000000.
Definition Minute : Z := 60 * Second.
Definition Hour : Z := 60 * Minute.

(** ** Bursts and gaps *)

Inductive PaddingMachineType := PaddingMachineNone | PaddingMachineCircuitSetup | PaddingMachineAPE.
Inductive PaddingMachineState := MachineStateStart | MachineStateBurst | MachineStateGap | MachineStateEnd.

Definition StateString (s : PaddingMachineState) : string :=
  match s with
  | MachineStateStart => "START" | MachineStateBurst => "BURST" | MachineStateGap => "GAP" | MachineStateEnd => "END"
  end.

Record PaddingMachineParams := mkParams { BurstMin : Z; BurstMax : Z; GapMin : Z; GapMax : Z; CellDelay : Z }.

(** The zero time is [None]. *)
Record StateMachine := mkMachine {
  machineType : PaddingMachineType;
  state : PaddingMachineState;
  params : PaddingMachineParams;
  cellsInBurst : Z;
  burstTarget : Z;
  lastSentTime : option Z;
  nextEventTime : option Z;
  totalPaddingSent : Z;
  burstCount : Z;
}.

Definition DefaultAPEParams : PaddingMachineParams := mkParams 2 10 (1500 * Millisecond) (9500 * Millisecond) (20 * Millisecond).
Definition DefaultCircuitSetupParams : PaddingMachineParams := mkParams 1 5 (500 * Millisecond) (2000 * Millisecond) (50 * Millisecond).

Definition NewAPEMachineWithParams (p : PaddingMachineParams) : StateMachine :=
  mkMachine PaddingMachineAPE MachineStateStart p 0 0 None None 0 0.
Definition NewAPEMachine : StateMachine := NewAPEMachineWithParams DefaultAPEParams.
Definition NewCircuitSetupMachineWithParams (p : PaddingMachineParams) : StateMachine :=
  mkMachine PaddingMachineCircuitSetup MachineStateStart p 0 0 None None 0 0.
Definition NewCircuitSetupMachine : StateMachine := NewCircuitSetupMachineWithParams DefaultCircuitSetupParams.

(** [draw] is the 32-bit number read. *)
Definition randomRange (draw : option Z) (min max : Z) : Z :=
  if max <=? min then min
  else
    let rangeSize := IntToUint32Sat (max - min + 1) in
    match draw with None => min | Some n => min + n mod rangeSize end.

(** [draw] is the 64-bit number read. *)
Definition randomDuration (draw : option Z) (min max : Z) : Z :=
  if max <=? min then min
  else
    let rangeSize := DurationToUint64 (max - min) in
    match draw with None => min | Some n => min + Uint64Duration (n mod rangeSize) end.

(** A new burst, by [Start] and [transitionToBurst]. *)
Definition begin_burst (draw : option Z) (sm : StateMachine) : StateMachine :=
  mkMachine (machineType sm) MachineStateBurst (params sm) 0 (randomRange draw (BurstMin (params sm)) (BurstMax (params sm)))
    (lastSentTime sm) (nextEventTime sm) (totalPaddingSent sm) (u64 (burstCount sm + 1)).

(** [Some] is the state it cannot start from. *)
Definition Start (draw : option Z) (sm : StateMachine) : StateMachine * option PaddingMachineState :=
  match state sm with
  | MachineStateStart => (begin_burst draw sm, None)
  | s => (sm, Some s)
  end.

Definition transitionToGap (draw : option Z) (now : Z) (sm : StateMachine) : StateMachine :=
  mkMachine (machineType sm) MachineStateGap (params sm) (cellsInBurst sm) (burstTarget sm) (lastSentTime sm)
    (Some (now + randomDuration draw (GapMin (params sm)) (GapMax (params sm)))) (totalPaddingSent sm) (burstCount sm).

Definition transitionToBurst (draw : option Z) (sm : StateMachine) : StateMachine := begin_burst draw sm.

(** What an event finds: the clock when it starts and when it is read again, and the
    draws for the gap, the delay returned and the next burst. *)
Record event := mkEvent {
  now : Z; later : Z;
  draw_gap : option Z; draw_delay : option Z; draw_burst : option Z;
}.

Definition gap_delay (e : event) (p : PaddingMachineParams) : Z := randomDuration (draw_delay e) (GapMin p) (GapMax p).

(** The results: whether to send a padding cell, and the delay until the next call. *)
Definition ProcessEvent (e : event) (sm : StateMachine) : StateMachine * bool * Z :=
  let p := params sm in
  match state sm with
  | MachineStateStart | MachineStateEnd => (sm, false, Hour)
  | MachineStateBurst =>
      if cellsInBurst sm <? burstTarget sm then
        let timeSinceLastCell := match lastSentTime sm with None => MaxInt64 | Some t => now e - t end in
        if (CellDelay p <=? timeSinceLastCell) || (cellsInBurst sm =? 0) then
          let sm := mkMachine (machineType sm) (state sm) p (cellsInBurst sm + 1) (burstTarget sm) (Some (now e))
                      (nextEventTime sm) (u64 (totalPaddingSent sm + 1)) (burstCount sm) in
          if burstTarget sm <=? cellsInBurst sm
          then (transitionToGap (draw_gap e) (later e) sm, true, gap_delay e p)
          else (sm, true, CellDelay p)
        else (sm, false, CellDelay p - timeSinceLastCell)
      else (transitionToGap (draw_gap e) (later e) sm, false, gap_delay e p)
  | MachineStateGap =>
      match nextEventTime sm with
      | None => (transitionToBurst (draw_burst e) sm, false, CellDelay p)
      | Some t => if t <? now e then (transitionToBurst (draw_burst e) sm, false, CellDelay p) else (sm, false, t - later e)
      end
  end.

Definition StopMachine (sm : StateMachine) : StateMachine :=
  mkMachine (machineType sm) MachineStateEnd (params sm) (cellsInBurst sm) (burstTarget sm) (lastSentTime sm)
    (nextEventTime sm) (totalPaddingSent sm) (burstCount sm).

(** Events in a row; the result counts the cells. *)
Fixpoint process (es : list event) (sm : StateMachine) : StateMachine * Z :=
  match es with
  | [] => (sm, 0)
  | e :: es =>
      let '(sm, pad, _) := ProcessEvent e sm in
      let '(sm, n) := process es sm in (sm, (if pad : bool then 1 else 0) + n)
  end.

(** ** How much padding *)

(** The clock goes forward from [t], and the draws are numbers of their width. *)
Fixpoint forward (t : Z) (es : list event) : Prop :=
  match es with
  | [] => True
  | e :: es => t <= now e <= later e /\ (forall n, draw_gap e = Some n -> is_u 64 n) /\ (forall n, draw_burst e = Some n -> is_u 32 n) /\ forward (later e) es
  end.

(** The clock behind the last event. *)
Definition clock (t : Z) (es : list event) : Z := foldl (fun _ e => later e) t es.

Definition sane (p : PaddingMachineParams) : Prop := 0 <= BurstMin p <= BurstMax p /\ 0 < GapMin p <= GapMax p /\ GapMax p <= MaxInt64.

Lemma randomRange_bounds draw p : sane p -> (forall n, draw = Some n -> is_u 32 n) ->
  0 <= randomRange draw (BurstMin p) (BurstMax p) <= BurstMax p.
Proof.
  intros [Hb _] Hd. unfold randomRange. destruct (Z.leb_spec (BurstMax p) (BurstMin p)); [lia|]. destruct draw as [n|]; [|lia].
  specialize (Hd n eq_refl). unfold is_u in Hd. assert (0 < IntToUint32Sat (BurstMax p - BurstMin p + 1) <= BurstMax p - BurstMin p + 1) as Hr.
  { unfold IntToUint32Sat. unfold_words. cases; Z.div_mod_to_equations; lia. }
  pose proof (Z.mod_pos_bound n (IntToUint32Sat (BurstMax p - BurstMin p + 1)) ltac:(lia)). lia.
Qed.

Lemma randomDuration_bounds draw p : sane p -> (forall n, draw = Some n -> is_u 64 n) ->
  GapMin p <= randomDuration draw (GapMin p) (GapMax p).
Proof.
  intros [_ Hg] Hd. unfold randomDuration. destruct (Z.leb_spec (GapMax p) (GapMin p)); [lia|]. destruct draw as [n|]; [|lia].
  assert (0 < DurationToUint64 (GapMax p - GapMin p) <= MaxInt64) as Hr.
  { unfold DurationToUint64, Int64ToUint64Sat. unfold_words. cases; Z.div_mod_to_equations; lia. }
  pose proof (Z.mod_pos_bound n (DurationToUint64 (GapMax p - GapMin p)) ltac:(lia)).
  unfold Uint64Duration, Uint64ToInt64Sat. rewrite (proj2 (Z.ltb_ge _ _)), i64_id by (unfold is_i64, MaxInt64 in *; lia). lia.
Qed.

(** [n] cells in [k] bursts since [t0], by the clock [t]. *)
Definition paced (t0 t k n : Z) (sm : StateMachine) : Prop :=
  let p := params sm in
  1 <= k /\ 0 <= cellsInBurst sm <= BurstMax p /\ n <= BurstMax p * (k - 1) + cellsInBurst sm /\
  match state sm with
  | MachineStateBurst => (k - 1) * GapMin p <= t - t0 /\ 0 <= burstTarget sm <= BurstMax p
  | MachineStateGap => (k - 1) * GapMin p <= t - t0 /\ exists next, nextEventTime sm = Some next /\ k * GapMin p <= next - t0
  | _ => False
  end.

Lemma paced_event p e sm t0 t k n : sane p -> params sm = p -> t <= now e <= later e ->
  (forall x, draw_gap e = Some x -> is_u 64 x) -> (forall x, draw_burst e = Some x -> is_u 32 x) -> paced t0 t k n sm ->
  let '(sm', pad, _) := ProcessEvent e sm in
  params sm' = p /\ exists k', paced t0 (later e) k' (n + if pad then 1 else 0) sm'.
Proof.
  intros Hp Heq Ht Hg Hb (Hk & Hc & Hn & Hst). pose proof Hp as [Hb0 [Hg0 _]]. subst p.
  pose proof (randomDuration_bounds _ _ Hp Hg) as Hgap. pose proof (randomRange_bounds _ _ Hp Hb) as Hburst.
  unfold ProcessEvent. destruct (state sm) eqn:Hs; [done| | |done].
  - destruct Hst as [Htime Htarget]. destruct (Z.ltb_spec (cellsInBurst sm) (burstTarget sm)) as [Hlt|Hge].
    + destruct (_ || _); [|split; [done|]; exists k; unfold paced; rewrite Hs; repeat split; lia].
      cbn [burstTarget cellsInBurst]. destruct (_ <=? _); (split; [done|]); exists k; unfold paced; cbn; repeat split; try lia.
      eexists. split; [done|]. lia.
    + split; [done|]. exists k. unfold paced. cbn. repeat split; try lia. eexists. split; [done|]. lia.
  - destruct Hst as [Htime (next & Hnext & Hk2)]. rewrite Hnext. destruct (Z.ltb_spec next (now e)) as [Hlt|Hge].
    + split; [done|]. exists (k + 1). unfold paced. cbn. repeat split; try lia; try nia.
    + split; [done|]. exists k. unfold paced. rewrite Hs. repeat split; try lia. eexists. split; [done|]. lia.
Qed.

Lemma paced_process p es sm t0 t k n : sane p -> params sm = p -> forward t es -> paced t0 t k n sm ->
  exists k', paced t0 (clock t es) k' (n + (process es sm).2) (process es sm).1.
Proof.
  intros Hp. revert sm t k n. induction es as [|e es IH]; intros sm t k n Heq Hf Hpc; [exists k; cbn; by rewrite Z.add_0_r|].
  cbn [process forward] in *. destruct Hf as (Ht & Hg & Hb & Hf). pose proof (paced_event p e sm t0 t k n Hp Heq Ht Hg Hb Hpc) as He.
  destruct (ProcessEvent e sm) as [[sm' pad] d]. destruct He as [Heq' [k' Hpc']].
  destruct (IH sm' (later e) k' _ Heq' Hf Hpc') as [k'' Hk]. destruct (process es sm') as [sm'' m]. exists k''. cbn [fst snd] in *.
  by rewrite Z.add_assoc.
Qed.

(** The padding is bounded however often the machine is asked: in any run of a
    started machine, by any clock that does not go back, it calls for at most
    [BurstMax] cells, and [BurstMax] more for each [GapMin] that has passed. *)
Theorem padding_rate_bounded sm draw t0 es :
  state sm = MachineStateStart -> sane (params sm) -> (forall n, draw = Some n -> is_u 32 n) -> forward t0 es ->
  let p := params sm in
  (process es (Start draw sm).1).2 <= BurstMax p * (1 + (clock t0 es - t0) / GapMin p).
Proof.
  intros Hs Hp Hd Hf p. destruct (paced_process p es (Start draw sm).1 t0 t0 1 0 Hp) as [k Hk].
  - unfold Start. by rewrite Hs.
  - done.
  - unfold Start. rewrite Hs. cbn [fst]. pose proof (randomRange_bounds draw p Hp Hd) as Hr. destruct Hp as (Hb & Hg & _).
    unfold paced, begin_burst. cbn. repeat split; try lia; apply Hr.
  - assert (params (process es (Start draw sm).1).1 = p) as Heq.
    { assert (forall es sm, params (process es sm).1 = params sm) as Hpar.
      { clear. intros es. induction es as [|e es IH]; intros sm; [done|]. cbn [process].
        assert (params (ProcessEvent e sm).1.1 = params sm) as He by (unfold ProcessEvent; destruct (state sm); repeat case_match; done).
        destruct (ProcessEvent e sm) as [[sm' pad] d]. specialize (IH sm'). destruct (process es sm') as [sm'' m]. cbn in *. congruence. }
      rewrite Hpar. unfold Start. by rewrite Hs. }
    destruct Hk as (Hk1 & Hc & Hn & Hst). rewrite Heq in *. destruct Hp as (Hb & Hg & _). fold p in Hb, Hg.
    assert ((k - 1) * GapMin p <= clock t0 es - t0) as Htime by (destruct (state (process es (Start draw sm).1).1); [done|apply Hst|apply Hst|done]).
    assert (k - 1 <= (clock t0 es - t0) / GapMin p) as Hdiv by (apply Z.div_le_lower_bound; lia). nia.
Qed.

Lemma padding_rate_bounded_witness :
  let es := map (fun i => mkEvent (i * Second) (i * Second) (Some 7) None (Some 3)) [0; 1; 2; 3; 4] in
  (process es (Start (Some 5) NewAPEMachine).1).2 <= 10 * (1 + 4 * Second / (1500 * Millisecond)).
Proof.
  intros es. apply (padding_rate_bounded NewAPEMachine (Some 5) 0 es).
  - reflexivity.
  - unfold sane. vm_compute. repeat split; discriminate.
  - intros n [= <-]. unfold is_u. lia.
  - unfold es, forward, Second. cbn [map now later draw_gap draw_burst].
    repeat match goal with |- _ /\ _ => split | |- _ -> _ => intros [= <-] | |- forall _, _ => intro | |- True => exact I | |- is_u _ _ => unfold is_u | |- _ => lia end.
Defined.

(** ** Padding at intervals *)

Inductive PaddingStrategy := PaddingStrategyNone | PaddingStrategyFixed | PaddingStrategyRandom | PaddingStrategyAdaptive.

Definition StrategyString (s : PaddingStrategy) : string :=
  match s with
  | PaddingStrategyNone => "none" | PaddingStrategyFixed => "fixed" | PaddingStrategyRandom => "random"
  | PaddingStrategyAdaptive => "adaptive"
  end.

Record PaddingConfig := mkConfig {
  Strategy : PaddingStrategy;
  MinInterval : Z;
  MaxInterval : Z;
  IdleTimeout : Z;
  DummyTrafficEnabled : bool;
  BurstSize : Z;
}.

Definition DefaultPaddingConfig : PaddingConfig := mkConfig PaddingStrategyRandom (3 * Second) (10 * Second) Second false 1.

Inductive config_error := errMinInterval | errMaxInterval | errIntervals | errIdleTimeout | errBurstSize.

(** A strategy is one of the four. *)
Definition Validate (c : PaddingConfig) : option config_error :=
  if MinInterval c <? 0 then Some errMinInterval
  else if MaxInterval c <? 0 then Some errMaxInterval
  else if (MaxInterval c =? 0) && (0 <? MinInterval c) || (0 <? MaxInterval c) && (MaxInterval c <? MinInterval c) then Some errIntervals
  else if IdleTimeout c <? 0 then Some errIdleTimeout
  else if BurstSize c <? 0 then Some errBurstSize
  else None.

Record PaddingMachine := mkPadding {
  config : PaddingConfig;
  running : bool;
  stopChan : nat;
  trafficBursts : Z;
  paddingsSent : Z;
  dummyDataSent : Z;
  failedPaddings : Z;
}.

Definition set_running (pm : PaddingMachine) (b : bool) (ch : nat) : PaddingMachine :=
  mkPadding (config pm) b ch (trafficBursts pm) (paddingsSent pm) (dummyDataSent pm) (failedPaddings pm).
Definition set_stats (pm : PaddingMachine) (sent dummy failed : Z) : PaddingMachine :=
  mkPadding (config pm) (running pm) (stopChan pm) (trafficBursts pm) sent dummy failed.

(** [None]: the default configuration.  Its channel is number [ch]. *)
Definition NewPaddingMachine (c : option PaddingConfig) (ch : nat) : result config_error PaddingMachine :=
  let c := default DefaultPaddingConfig c in
  match Validate c with Some e => Err e | None => Ok (mkPadding c false ch 0 0 0 0) end.

Definition UpdateConfig (c : PaddingConfig) (pm : PaddingMachine) : PaddingMachine * option config_error :=
  match Validate c with
  | Some e => (pm, Some e)
  | None => (mkPadding c (running pm) (stopChan pm) (trafficBursts pm) (paddingsSent pm) (dummyDataSent pm) (failedPaddings pm), None)
  end.

(** The rejection loop; [None]: the draws given do not end it. *)
Fixpoint sample (draws : list (option Z)) (limit rangeSize min : Z) : option Z :=
  match draws with
  | [] => None
  | None :: _ => Some min
  | Some n :: draws => if n <? limit then Some (min + Uint64Duration (n mod rangeSize)) else sample draws limit rangeSize min
  end.

(** [^uint64(0)] *)
Definition allOnes : Z := 2 ^ 64 - 1.

Definition unbiasedDuration (draws : list (option Z)) (min max : Z) : option Z :=
  if max <=? min then Some min
  else
    let rangeSize := DurationToUint64 (max - min) in
    if rangeSize =? 0 then Some min
    else sample draws (allOnes - allOnes mod rangeSize) rangeSize min.

Definition adaptiveCap : Z := 5 * Minute.

Definition calculateNextDelay (draws : list (option Z)) (pm : PaddingMachine) : PaddingMachine * option Z :=
  let c := config pm in
  match Strategy c with
  | PaddingStrategyNone => (pm, Some Hour)
  | PaddingStrategyFixed => (pm, Some (MinInterval c))
  | PaddingStrategyRandom => (pm, unbiasedDuration draws (MinInterval c) (MaxInterval c))
  | PaddingStrategyAdaptive =>
      if 0 <? trafficBursts pm then
        let pm := mkPadding c (running pm) (stopChan pm) (trafficBursts pm - 1) (paddingsSent pm) (dummyDataSent pm) (failedPaddings pm) in
        let maxDelay := i64 (MaxInterval c * 2) in
        let maxDelay := if adaptiveCap <? maxDelay then adaptiveCap else maxDelay in
        let minDelay := if adaptiveCap <? MaxInterval c then adaptiveCap else MaxInterval c in
        (pm, unbiasedDuration draws minDelay maxDelay)
      else (pm, unbiasedDuration draws (MinInterval c) (i64 (MinInterval c * 2)))
  end.

Definition shouldSendPadding (circuitState : FlowControl.State) (idle : Z) (pm : PaddingMachine) : bool :=
  match Strategy (config pm) with
  | PaddingStrategyNone => false
  | _ => bool_decide (circuitState = FlowControl.StateOpen) && negb (idle <? IdleTimeout (config pm))
  end.

(** The loop of [sendPadding]: [ok i] is whether the [i]-th cell goes out. *)
Fixpoint send_burst (n : nat) (i : nat) (ok : nat -> bool) (pm : PaddingMachine) : PaddingMachine :=
  match n with
  | O => pm
  | S n =>
      if ok i then
        let pm := if DummyTrafficEnabled (config pm) then set_stats pm (paddingsSent pm) (u64 (dummyDataSent pm + 1)) (failedPaddings pm)
                  else set_stats pm (u64 (paddingsSent pm + 1)) (dummyDataSent pm) (failedPaddings pm) in
        send_burst n (S i) ok pm
      else set_stats pm (paddingsSent pm) (dummyDataSent pm) (u64 (failedPaddings pm + 1))
  end.

Definition sendPadding (ok : nat -> bool) (pm : PaddingMachine) : PaddingMachine :=
  let burstSize := if BurstSize (config pm) <? 1 then 1 else BurstSize (config pm) in
  send_burst (Z.to_nat burstSize) 0 ok pm.

Definition RecordTrafficBurst (pm : PaddingMachine) : PaddingMachine :=
  let n := trafficBursts pm + 1 in
  mkPadding (config pm) (running pm) (stopChan pm) (if 10 <? n then 10 else n) (paddingsSent pm) (dummyDataSent pm) (failedPaddings pm).

(** [payload] is what the random source yields, [None] when it fails. *)
Definition NewPaddingCell (circuitID : Z) (payload : option bytes) : Cell.Cell :=
  Cell.mkCell circuitID Cell.CmdPadding (default (zeros Cell.PayloadLen) payload).

(** *** Delays *)

Lemma unbiased_bounds draws min max d :
  0 <= min -> max <= MaxInt64 -> Forall (fun x => forall n, x = Some n -> is_u 64 n) draws -> unbiasedDuration draws min max = Some d ->
  min <= d /\ (d <= max \/ d = min).
Proof.
  intros Hmin Hmax Hd. unfold unbiasedDuration. destruct (Z.leb_spec max min); [intros [= <-]; lia|].
  assert (DurationToUint64 (max - min) = max - min) as ->.
  { unfold DurationToUint64, Int64ToUint64Sat. rewrite (proj2 (Z.ltb_ge _ _)) by lia. apply u64_id. unfold is_u, MaxInt64 in *. lia. }
  rewrite (proj2 (Z.eqb_neq _ _)) by lia. generalize (allOnes - allOnes mod (max - min)). intros limit.
  induction Hd as [|x draws Hx Hd IH]; [done|]. cbn [sample]. destruct x as [n|]; [|intros [= <-]; lia].
  destruct (n <? limit); [|apply IH]. intros [= <-]. pose proof (Z.mod_pos_bound n (max - min) ltac:(lia)).
  unfold Uint64Duration, Uint64ToInt64Sat. rewrite (proj2 (Z.ltb_ge _ _)), i64_id by (unfold is_i64, MaxInt64 in *; lia). lia.
Qed.

(** A delay is never below the least interval, nor, at random intervals, above the
    greatest; an adaptive one is within twice the interval in force, and a burst of
    traffic never makes it exceed five minutes. *)
Theorem padding_delay_bounds draws pm pm' d :
  Validate (config pm) = None -> MaxInterval (config pm) <= 2 ^ 62 - 1 -> MinInterval (config pm) <= 2 ^ 62 - 1 ->
  Forall (fun x => forall n, x = Some n -> is_u 64 n) draws -> calculateNextDelay draws pm = (pm', Some d) ->
  let c := config pm in
  match Strategy c with
  | PaddingStrategyNone => d = Hour
  | PaddingStrategyFixed => d = MinInterval c
  | PaddingStrategyRandom => MinInterval c <= d <= MaxInterval c
  | PaddingStrategyAdaptive =>
      if 0 <? trafficBursts pm then Z.min (MaxInterval c) adaptiveCap <= d <= Z.min (2 * MaxInterval c) adaptiveCap
      else MinInterval c <= d <= 2 * MinInterval c
  end.
Proof.
  intros Hv Hmax Hmin Hd Hc c. unfold Validate in Hv. fold c in Hv, Hmax, Hmin.
  destruct (Z.ltb_spec (MinInterval c) 0); [done|]. destruct (Z.ltb_spec (MaxInterval c) 0); [done|].
  destruct (_ || _) eqn:Hi; [done|]. clear Hv. apply orb_false_iff in Hi as [Hi1 Hi2].
  assert (MinInterval c <= MaxInterval c) as Hle.
  { destruct (Z.eqb_spec (MaxInterval c) 0) as [He|He].
    - cbn [andb] in Hi1. apply Z.ltb_ge in Hi1. lia.
    - rewrite (proj2 (Z.ltb_lt 0 _)) in Hi2 by lia. cbn [andb] in Hi2. apply Z.ltb_ge in Hi2. lia. }
  unfold calculateNextDelay in Hc. fold c in Hc. destruct (Strategy c).
  - by injection Hc as _ <-.
  - by injection Hc as _ <-.
  - injection Hc as _ Hc. apply unbiased_bounds in Hc as [H1 H2]; [lia|lia|unfold MaxInt64; lia|done].
  - destruct (0 <? trafficBursts pm); injection Hc as _ Hc; rewrite i64_id in Hc by (unfold is_i64; lia).
    + assert (0 < adaptiveCap <= MaxInt64) as Hcap by done.
      apply unbiased_bounds in Hc as [H1 H2]; [|repeat case_match; bool_to_prop; lia|unfold MaxInt64 in *; repeat case_match; bool_to_prop; lia|done].
      revert H1 H2. repeat case_match; bool_to_prop; lia.
    + apply unbiased_bounds in Hc as [H1 H2]; [lia|lia|unfold MaxInt64; lia|done].
Qed.

(** *** The goroutine *)

(** Where a goroutine of [run] is: about to look at [running], or waiting with the
    stop channel it has read. *)
Inductive place := AtCheck | AtSelect (ch : nat).

(** [starting] and [stopping]: calls past their [Swap]; [lastStart]: the last call that
    returned (true: [Start], with success); [panicked]: a closed channel was closed. *)
Record system := mkSystem {
  machine : PaddingMachine;
  closedChans : gset nat;
  nextChan : nat;
  runners : gmap nat place;
  starting : nat;
  stopping : nat;
  lastStart : bool;
  panicked : bool;
}.

Definition set_machine (s : system) (pm : PaddingMachine) : system :=
  mkSystem pm (closedChans s) (nextChan s) (runners s) (starting s) (stopping s) (lastStart s) (panicked s).
Definition set_runners (s : system) (r : gmap nat place) : system :=
  mkSystem (machine s) (closedChans s) (nextChan s) r (starting s) (stopping s) (lastStart s) (panicked s).

(** The deferred [running.Store(false)]. *)
Definition exit (g : nat) (s : system) : system :=
  set_runners (set_machine s (set_running (machine s) false (stopChan (machine s)))) (delete g (runners s)).

Inductive step : system -> system -> Prop :=
(** [Start]: the [Swap], then the new channel and the goroutine *)
| start_swap s : running (machine s) = false ->
    step s (mkSystem (set_running (machine s) true (stopChan (machine s))) (closedChans s) (nextChan s) (runners s)
              (S (starting s)) (stopping s) (lastStart s) (panicked s))
| start_go s n g : starting s = S n -> runners s !! g = None ->
    step s (mkSystem (set_running (machine s) (running (machine s)) (nextChan s)) (closedChans s) (S (nextChan s))
              (<[g := AtCheck]> (runners s)) n (stopping s) true (panicked s))
(** [Stop]: the [Swap], then closing the channel *)
| stop_swap s : running (machine s) = true ->
    step s (mkSystem (set_running (machine s) false (stopChan (machine s))) (closedChans s) (nextChan s) (runners s)
              (starting s) (S (stopping s)) (lastStart s) (panicked s))
| stop_close s n : stopping s = S n ->
    step s (mkSystem (machine s) ({[stopChan (machine s)]} ∪ closedChans s) (nextChan s) (runners s) (starting s) n false
              (panicked s || bool_decide (stopChan (machine s) ∈ closedChans s)))
(** a turn of [run] *)
| check_exit s g : runners s !! g = Some AtCheck -> running (machine s) = false -> step s (exit g s)
| check_go s g : runners s !! g = Some AtCheck -> running (machine s) = true ->
    step s (set_runners s (<[g := AtSelect (stopChan (machine s))]> (runners s)))
| select_ctx s g ch : runners s !! g = Some (AtSelect ch) -> step s (exit g s)
| select_stop s g ch : runners s !! g = Some (AtSelect ch) -> ch ∈ closedChans s -> step s (exit g s)
| select_timer s g ch pad ok draws : runners s !! g = Some (AtSelect ch) ->
    let pm := if pad : bool then sendPadding ok (machine s) else machine s in
    step s (set_runners (set_machine s (calculateNextDelay draws pm).1) (<[g := AtCheck]> (runners s))).

Definition initial (pm : PaddingMachine) : system := mkSystem pm ∅ (S (stopChan pm)) ∅ 0 0 false false.

(** The same steps as a function, to run schedules. *)
Inductive choice := CStartSwap | CStartGo (g : nat) | CStopSwap | CStopClose | CCheck (g : nat) | CStopped (g : nat)
| CTimer (g : nat) (pad : bool) (ok : nat -> bool) (draws : list (option Z)).

Definition exec (c : choice) (s : system) : option system :=
  match c with
  | CStartSwap =>
      if running (machine s) then None
      else Some (mkSystem (set_running (machine s) true (stopChan (machine s))) (closedChans s) (nextChan s) (runners s)
                   (S (starting s)) (stopping s) (lastStart s) (panicked s))
  | CStartGo g =>
      match starting s, runners s !! g with
      | S n, None => Some (mkSystem (set_running (machine s) (running (machine s)) (nextChan s)) (closedChans s) (S (nextChan s))
                             (<[g := AtCheck]> (runners s)) n (stopping s) true (panicked s))
      | _, _ => None
      end
  | CStopSwap =>
      if running (machine s) then
        Some (mkSystem (set_running (machine s) false (stopChan (machine s))) (closedChans s) (nextChan s) (runners s)
                (starting s) (S (stopping s)) (lastStart s) (panicked s))
      else None
  | CStopClose =>
      match stopping s with
      | S n => Some (mkSystem (machine s) ({[stopChan (machine s)]} ∪ closedChans s) (nextChan s) (runners s) (starting s) n false
                       (panicked s || bool_decide (stopChan (machine s) ∈ closedChans s)))
      | O => None
      end
  | CCheck g =>
      match runners s !! g with
      | Some AtCheck => Some (if running (machine s) then set_runners s (<[g := AtSelect (stopChan (machine s))]> (runners s)) else exit g s)
      | _ => None
      end
  | CStopped g =>
      match runners s !! g with
      | Some (AtSelect ch) => if decide (ch ∈ closedChans s) then Some (exit g s) else None
      | _ => None
      end
  | CTimer g pad ok draws =>
      match runners s !! g with
      | Some (AtSelect ch) =>
          let pm := if pad then sendPadding ok (machine s) else machine s in
          Some (set_runners (set_machine s (calculateNextDelay draws pm).1) (<[g := AtCheck]> (runners s)))
      | _ => None
      end
  end.

Lemma exec_step c s s' : exec c s = Some s' -> step s s'.
Proof.
  destruct c as [|g| | |g|g|g pad ok draws]; cbn [exec].
  - destruct (running (machine s)) eqn:E; [done|]. intros [= <-]. by constructor.
  - destruct (starting s) as [|n] eqn:E; [done|]. destruct (runners s !! g) eqn:E2; [done|]. intros [= <-]. by constructor.
  - destruct (running (machine s)) eqn:E; [|done]. intros [= <-]. by constructor.
  - destruct (stopping s) as [|n] eqn:E; [done|]. intros [= <-]. by constructor.
  - destruct (runners s !! g) as [[|ch]|] eqn:E; [|done|done]. destruct (running (machine s)) eqn:E2; intros [= <-]; by constructor.
  - destruct (runners s !! g) as [[|ch]|] eqn:E; [done| |done]. destruct (decide _); [|done]. intros [= <-]. by eapply select_stop.
  - destruct (runners s !! g) as [[|ch]|] eqn:E; [done| |done]. intros [= <-]. by eapply select_timer.
Qed.

Fixpoint schedule (cs : list choice) (s : system) : option system :=
  match cs with [] => Some s | c :: cs => match exec c s with Some s => schedule cs s | None => None end end.

Lemma schedule_steps cs s s' : schedule cs s = Some s' -> rtc step s s'.
Proof.
  revert s. induction cs as [|c cs IH]; intros s; cbn [schedule]; [intros [= <-]; apply rtc_refl|].
  destruct (exec c s) as [s1|] eqn:E; [|done]. intros Hs. eapply rtc_l; [by eapply exec_step | by apply IH].
Qed.

(** What a schedule leads to. *)
Lemma schedule_reaches cs s (P : system -> bool) :
  match schedule cs s with Some s' => P s' | None => false end = true -> exists s', rtc step s s' /\ P s' = true.
Proof. destruct (schedule cs s) as [s'|] eqn:E; [|done]. intros HP. exists s'. split; [by eapply schedule_steps | done]. Qed.

Definition fresh : system := initial (mkPadding DefaultPaddingConfig false 0 0 0 0 0).

(** A stop and a start in a row: the old goroutine, on its way out, clears the flag
    of the new one, which then stops too.  No call is in progress, the last one was
    a successful [Start], and no padding is ever sent. *)
Theorem restart_is_undone : exists s, rtc step fresh s /\
  lastStart s && (starting s =? 0)%nat && (stopping s =? 0)%nat && negb (running (machine s)) && bool_decide (runners s = ∅) && negb (panicked s) = true.
Proof.
  apply (schedule_reaches [CStartSwap; CStartGo 0; CCheck 0; CStopSwap; CStopClose; CStartSwap; CStartGo 1; CCheck 1; CStopped 0;
    CTimer 1 false (fun _ => true) [None]; CCheck 1]). vm_compute. reflexivity.
Qed.

(** A [Stop] between the two halves of a second [Start] closes the channel of the
    first run again, which panics. *)
Theorem stop_can_panic : exists s, rtc step fresh s /\ panicked s = true.
Proof. apply (schedule_reaches [CStartSwap; CStartGo 0; CStopSwap; CStopClose; CStartSwap; CStopSwap; CStopClose]). vm_compute. reflexivity. Qed.

End PaddingMachines.
