(* ===== verification/ConfluxSet.v ===== *)
(** * Conflux sets (pkg/circuit/conflux.go)

    Two linked circuits that carry one sequence of cells: the link handshake,
    the choice of a leg and the SWITCH bookkeeping of the sender, and the
    reordering of the receiver.  Circuits are shared objects named by a
    reference; what the set asks of them is the class [Legs]. *)

From S2P Require Import Prelude Conversion Cell RelayCell CellPayloads FlowControl.

Module ConfluxSet.

Definition confluxOOOLimit : Z := 256.
Definition confluxDefaultRTT : Z := 3600 * 1000000000.

Record confluxLeg := mkLeg {
  circ : nat;
  legSent : Z;
  legRecv : Z;
  rtt : Z;
  linkSent : option Z;   (** [None] for the zero time *)
  ackSent : bool;
  gotLinked : bool;
  linkedCh : bool;   (** a token waits in the one-slot channel *)
}.

Record ConfluxSet := mkSet {
  nonce : bytes;
  leg0 : confluxLeg;
  leg1 : confluxLeg;
  owner : nat;
  linked : bool;
  closed : bool;
  lastSent : Z;
  lastRecv : Z;
  current : option nat;
  ooo : gmap Z RelayCell.RelayCell;
}.

Inductive error :=
| errNotExitHop
| errUnexpectedCommand (cmd : Z)
| errLinkedDecode (e : Conflux.error)
| errNonceMismatch
| errSetClosed
| errUnknownCircuit
| errDuplicateLinked
| errNewCell (e : RelayCell.error)
| errLinkedAck
| errSwitchDecode (e : Conflux.error)
| errSwitchZero
| errSwitchBeforeLink
| errSwitchFromCurrent
| errSwitchBackwards
| errSwitchGap
| errOldSeq (seq : Z)
| errOOOFull
| errSeqGap
| errSlotOccupied (seq : Z)
| errEnqueue
| errNotLinked
| errCongested
| errReserve
| errSwitchOverflow
| errSwitchSend
| errEmit
| errLinkSend
| errTimeout
| errNilCircuit
| errSameCircuit
| errNoFlowCtrl
| errShortLeg
| errLegNotOpen
| errNonce
| errLegDestroyed.

(** Field updates. *)
Definition leg_sent (l : confluxLeg) (v : Z) : confluxLeg :=
  mkLeg (circ l) v (legRecv l) (rtt l) (linkSent l) (ackSent l) (gotLinked l) (linkedCh l).
Definition leg_recv (l : confluxLeg) (v : Z) : confluxLeg :=
  mkLeg (circ l) (legSent l) v (rtt l) (linkSent l) (ackSent l) (gotLinked l) (linkedCh l).
Definition leg_linking (l : confluxLeg) (t : option Z) : confluxLeg :=
  mkLeg (circ l) (legSent l) (legRecv l) (rtt l) t (ackSent l) (gotLinked l) (linkedCh l).
Definition leg_linked (l : confluxLeg) (r : Z) : confluxLeg :=
  mkLeg (circ l) (legSent l) (legRecv l) r (linkSent l) (ackSent l) true (linkedCh l).
Definition leg_acked (l : confluxLeg) : confluxLeg :=
  mkLeg (circ l) (legSent l) (legRecv l) (rtt l) (linkSent l) true (gotLinked l) true.
Definition leg_taken (l : confluxLeg) : confluxLeg :=
  mkLeg (circ l) (legSent l) (legRecv l) (rtt l) (linkSent l) (ackSent l) (gotLinked l) false.

Definition with_legs (s : ConfluxSet) (l0 l1 : confluxLeg) : ConfluxSet :=
  mkSet (nonce s) l0 l1 (owner s) (linked s) (closed s) (lastSent s) (lastRecv s) (current s) (ooo s).
Definition with_status (s : ConfluxSet) (lk cl : bool) : ConfluxSet :=
  mkSet (nonce s) (leg0 s) (leg1 s) (owner s) lk cl (lastSent s) (lastRecv s) (current s) (ooo s).
Definition with_sent (s : ConfluxSet) (n : Z) (cur : option nat) : ConfluxSet :=
  mkSet (nonce s) (leg0 s) (leg1 s) (owner s) (linked s) (closed s) n (lastRecv s) cur (ooo s).
Definition with_recv (s : ConfluxSet) (n : Z) (q : gmap Z RelayCell.RelayCell) : ConfluxSet :=
  mkSet (nonce s) (leg0 s) (leg1 s) (owner s) (linked s) (closed s) (lastSent s) n (current s) q.

(** A leg by its position, [false] for the first one. *)
Definition leg_at (s : ConfluxSet) (i : bool) : confluxLeg := if i then leg1 s else leg0 s.
Definition set_leg (s : ConfluxSet) (i : bool) (l : confluxLeg) : ConfluxSet :=
  if i then with_legs s (leg0 s) l else with_legs s l (leg1 s).

Definition legOf (s : ConfluxSet) (c : nat) : option bool :=
  if decide (circ (leg0 s) = c) then Some false
  else if decide (circ (leg1 s) = c) then Some true
  else None.

(** ** The circuits of a set *)

Record leg_view := mkView {
  lv_state : FlowControl.State;
  lv_room : bool;      (** [hasSendRoom] *)
  lv_EWMA : Z;
  lv_MinRTT : Z;
  lv_length : Z;
  lv_dataMax : Z;      (** [relayDataMaxLocal] *)
  lv_cc : bool;        (** [CongestionControlEnabled] *)
  lv_destroyed : bool; (** [destroyCh] is closed *)
}.

(** [X] is the state of the circuits.  [reserveLeg] answers [None] for a failure,
    the other sending operations [false]. *)
Class Legs (X : Type) := {
  view : X -> nat -> leg_view;
  reserveLeg : X -> nat -> RelayCell.RelayCell -> X * option bool;
  refundLeg : X -> nat -> RelayCell.RelayCell -> X;
  sendLocal : X -> nat -> RelayCell.RelayCell -> X * bool;
  emit : X -> nat -> RelayCell.RelayCell -> bool -> bool -> X * bool;
  enqueue : X -> nat -> RelayCell.RelayCell -> X * bool;
  attach : X -> nat -> X;
  detach : X -> nat -> X;
  closeLeg : X -> nat -> X;
}.

Section Ops.
Context `{Legs X}.

Definition requireExitHop (x : X) (from : nat) (hopIdx : Z) : option error :=
  let last := lv_length (view x from) - 1 in
  if (last <? 0) || negb (hopIdx =? last) then Some errNotExitHop else None.

(** ** Receiving *)

Definition handleLinked (now : Z) (x : X) (s : ConfluxSet) (from : nat) (rc : RelayCell.RelayCell) :
    X * ConfluxSet * option error :=
  match Conflux.DecodeConfluxLink (RelayCell.Data rc) with
  | Err e => (x, s, Some (errLinkedDecode e))
  | Ok link =>
      if negb (Conversion.ConstantTimeCompare (Conflux.Nonce link) (nonce s)) then (x, s, Some errNonceMismatch)
      else if closed s then (x, s, Some errSetClosed)
      else
        match legOf s from with
        | None => (x, s, Some errUnknownCircuit)
        | Some i =>
            let leg := leg_at s i in
            if gotLinked leg then (x, s, Some errDuplicateLinked)
            else
              let r := match linkSent leg with Some t => i64 (now - t) | None => rtt leg end in
              let s := set_leg s i (leg_linked leg r) in
              match RelayCell.NewRelayCell 0 RelayCell.RelayConfluxLinkedAck [] with
              | Err e => (x, s, Some (errNewCell e))
              | Ok ack =>
                  match sendLocal x from ack with
                  | (x, false) => (x, s, Some errLinkedAck)
                  | (x, true) => (x, set_leg s i (leg_acked (leg_at s i)), None)
                  end
              end
        end
  end.

(** The leg with the strictly largest receive count. *)
Definition uniqueRecvLeaderLocked (s : ConfluxSet) : option bool :=
  let '(best, bestRecv) := (false, legRecv (leg0 s)) in
  if bestRecv <? legRecv (leg1 s) then Some true
  else if legRecv (leg1 s) =? bestRecv then None
  else Some best.

Definition handleSwitch (s : ConfluxSet) (from : nat) (rc : RelayCell.RelayCell) : ConfluxSet * option error :=
  match Conflux.DecodeConfluxSwitch (RelayCell.Data rc) with
  | Err e => (s, Some (errSwitchDecode e))
  | Ok rel =>
      if rel <? 1 then (s, Some errSwitchZero)
      else if closed s || negb (linked s) then (s, Some errSwitchBeforeLink)
      else
        match legOf s from with
        | None => (s, Some errUnknownCircuit)
        | Some i =>
            let leg := leg_at s i in
            if bool_decide (uniqueRecvLeaderLocked s = Some i) then (s, Some errSwitchFromCurrent)
            else
              let next := u64 (legRecv leg + rel) in
              if next <? lastRecv s then (s, Some errSwitchBackwards)
              else if u64 (u64 (lastRecv s + confluxOOOLimit) + 1) <? next then (s, Some errSwitchGap)
              else (set_leg s i (leg_recv leg next), None)
        end
  end.

(** The loop that empties the out-of-order table from the front. *)
Fixpoint drain (fuel : nat) (s : ConfluxSet) : option (ConfluxSet * list RelayCell.RelayCell) :=
  match fuel with
  | O => None
  | S fuel =>
      let next := u64 (lastRecv s + 1) in
      match ooo s !! next with
      | None => Some (s, [])
      | Some rc =>
          match drain fuel (with_recv s next (delete next (ooo s))) with
          | None => None
          | Some (s, l) => Some (s, rc :: l)
          end
      end
  end.

(** [owner.enqueueRelayCell] on each cell, up to the first failure; the cells
    enqueued are returned. *)
Fixpoint enqueue_all (x : X) (c : nat) (l : list RelayCell.RelayCell) : X * list RelayCell.RelayCell * option error :=
  match l with
  | [] => (x, [], None)
  | rc :: l =>
      match enqueue x c rc with
      | (x, false) => (x, [], Some errEnqueue)
      | (x, true) => let '(x, done, e) := enqueue_all x c l in (x, rc :: done, e)
      end
  end.

(** What [reorder] does under [s.mu]: the cells to pass to the owner, in order.
    They are passed on by [enqueue_all] after the lock is released. *)
Definition reorder_locked (s : ConfluxSet) (from : nat) (rc : RelayCell.RelayCell) :
    ConfluxSet * result error (list RelayCell.RelayCell) :=
  if closed s then (s, Err errSetClosed)
  else
    match legOf s from with
    | None => (s, Err errUnknownCircuit)
    | Some i =>
        let seq := u64 (legRecv (leg_at s i) + 1) in
        let s := set_leg s i (leg_recv (leg_at s i) seq) in
        if seq <=? lastRecv s then (s, Err (errOldSeq seq))
        else if seq =? u64 (lastRecv s + 1) then
          match drain (S (size (ooo s))) (with_recv s seq (ooo s)) with
          | None => (s, Ok [])   (** not reached: the fuel suffices *)
          | Some (s, more) => (s, Ok (rc :: more))
          end
        else if confluxOOOLimit <=? Z.of_nat (size (ooo s)) then (s, Err errOOOFull)
        else if u64 (u64 (lastRecv s + confluxOOOLimit) + 1) <? seq then (s, Err errSeqGap)
        else if bool_decide (is_Some (ooo s !! seq)) then (s, Err (errSlotOccupied seq))
        else (with_recv s (lastRecv s) (<[seq := rc]> (ooo s)), Ok [])
    end.

(** [onRelayCell] up to the point where [reorder] has released its lock: whether
    the cell was taken over, and the cells still to be passed to the owner. *)
Definition onRelayCell_locked (now : Z) (x : X) (s : ConfluxSet) (from : nat) (rc : RelayCell.RelayCell) (hopIdx : Z) :
    X * ConfluxSet * list RelayCell.RelayCell * bool * option error :=
  let cmd := RelayCell.Command rc in
  if cmd =? RelayCell.RelayConfluxLinked then
    match requireExitHop x from hopIdx with
    | Some e => (x, s, [], true, Some e)
    | None => let '(x, s, e) := handleLinked now x s from rc in (x, s, [], true, e)
    end
  else if cmd =? RelayCell.RelayConfluxSwitch then
    match requireExitHop x from hopIdx with
    | Some e => (x, s, [], true, Some e)
    | None => let '(s, e) := handleSwitch s from rc in (x, s, [], true, e)
    end
  else if (cmd =? RelayCell.RelayConfluxLink) || (cmd =? RelayCell.RelayConfluxLinkedAck) then
    (x, s, [], true, Some (errUnexpectedCommand cmd))
  else if (linked s && negb (closed s)) && Conflux.ConfluxShouldMultiplex cmd then
    match requireExitHop x from hopIdx with
    | Some e => (x, s, [], true, Some e)
    | None =>
        match reorder_locked s from rc with
        | (s, Err e) => (x, s, [], true, Some e)
        | (s, Ok deliver) => (x, s, deliver, true, None)
        end
    end
  else (x, s, [], false, None).

(** The whole call, with [meanwhile] what the rest of the program does between the
    release of the lock and the first cell passed to the owner; the cells
    enqueued are returned. *)
Definition onRelayCell (meanwhile : X * ConfluxSet -> X * ConfluxSet) (now : Z) (x : X) (s : ConfluxSet)
    (from : nat) (rc : RelayCell.RelayCell) (hopIdx : Z) :
    X * ConfluxSet * list RelayCell.RelayCell * bool * option error :=
  match onRelayCell_locked now x s from rc hopIdx with
  | (x, s, deliver, handled, Some e) => (x, s, [], handled, Some e)
  | (x, s, deliver, handled, None) =>
      let o := owner s in
      let '(x, s) := meanwhile (x, s) in
      let '(x, done, e) := enqueue_all x o deliver in (x, s, done, handled, e)
  end.

(** ** Sending *)

Definition legRTT (x : X) (leg : confluxLeg) : Z :=
  let v := view x (circ leg) in
  if 0 <? lv_EWMA v then lv_EWMA v
  else if 0 <? lv_MinRTT v then lv_MinRTT v
  else if 0 <? rtt leg then rtt leg
  else confluxDefaultRTT.

Definition usable (x : X) (requireRoom : bool) (leg : confluxLeg) : bool :=
  let v := view x (circ leg) in
  negb (requireRoom && negb (lv_room v)) &&
  (bool_decide (lv_state v = FlowControl.StateOpen) || bool_decide (lv_state v = FlowControl.StateBuilding)).

Definition pickLowRTTFilterLocked (x : X) (s : ConfluxSet) (requireRoom : bool) : option bool :=
  let best := if usable x requireRoom (leg0 s) then Some (false, legRTT x (leg0 s)) else None in
  let best := if usable x requireRoom (leg1 s) then
                match best with
                | None => Some (true, legRTT x (leg1 s))
                | Some (_, b) => if legRTT x (leg1 s) <? b then Some (true, legRTT x (leg1 s)) else best
                end
              else best in
  fst <$> best.

Definition pickLowRTTLocked (x : X) (s : ConfluxSet) : option bool :=
  match pickLowRTTFilterLocked x s true with
  | Some i => Some i
  | None => pickLowRTTFilterLocked x s false
  end.

Definition teardown (x : X) (s : ConfluxSet) (closeLegs : bool) : X * ConfluxSet :=
  let one x c := let x := detach x c in if closeLegs then closeLeg x c else x in
  (one (one x (circ (leg0 s))) (circ (leg1 s)), with_status s false true).

Definition failAndClose (x : X) (s : ConfluxSet) : X * ConfluxSet := teardown x s true.

Definition onLegClosed (x : X) (s : ConfluxSet) (c : nat) : X * ConfluxSet :=
  if closed s then (x, s)
  else
    let one x o := if decide (o = c) then x else closeLeg (detach x o) o in
    (one (one x (circ (leg0 s))) (circ (leg1 s)), with_status s false true).

(** Whether a SWITCH is due before a cell on leg [i], and its relative number. *)
Definition switch_due (s : ConfluxSet) (i : bool) : result error (option Z) :=
  match current s with
  | Some c =>
      if decide (c = circ (leg_at s i)) then Ok None
      else
        let gap := u64 (lastSent s - legSent (leg_at s i)) in
        if MaxUint32 <? gap then Err errSwitchOverflow
        else if 1 <=? gap then Ok (Some (u32 gap)) else Ok None
  | None => Ok None
  end.

(** [s.current = circ; s.legOf(circ).lastSent = s.lastSent] *)
Definition note_sent (s : ConfluxSet) (c : nat) : ConfluxSet :=
  let s := with_sent s (lastSent s) (Some c) in
  match legOf s c with
  | Some i => set_leg s i (leg_sent (leg_at s i) (lastSent s))
  | None => s
  end.

(** The loop that waits for a usable leg.  Each of [turns] is what the rest of the
    program does during one sleep of the loop; the deadline has passed when they
    run out. *)
Fixpoint choose_leg (turns : list (X * ConfluxSet -> X * ConfluxSet)) (x : X) (s : ConfluxSet) :
    X * ConfluxSet * result error bool :=
  if closed s || negb (linked s) then (x, s, Err errNotLinked)
  else
    match pickLowRTTLocked x s with
    | Some i => (x, s, Ok i)
    | None =>
        match turns with
        | [] => (x, s, Err errCongested)
        | t :: turns => let '(x, s) := t (x, s) in choose_leg turns x s
        end
    end.

(** What is done under [sendMu]: the SWITCH when one is due, then the cell. *)
Definition transmit (x : X) (s : ConfluxSet) (i : bool) (rc : RelayCell.RelayCell) (recordSendme reserved : bool) :
    X * ConfluxSet * option error :=
  let c := circ (leg_at s i) in
  let refund x := if reserved then refundLeg x c rc else x in
  match switch_due s i with
  | Err e => (refund x, s, Some e)
  | Ok due =>
      let '(x, s, e) :=
        match due with
        | None => (x, s, None)
        | Some rel =>
            match RelayCell.NewRelayCell 0 RelayCell.RelayConfluxSwitch (Conflux.EncodeConfluxSwitch rel) with
            | Err e => (refund x, s, Some (errNewCell e))
            | Ok sw =>
                match sendLocal x c sw with
                | (x, false) => (refund x, s, Some errSwitchSend)
                | (x, true) => (x, note_sent s c, None)
                end
            end
        end in
      match e with
      | Some e => (x, s, Some e)
      | None =>
          match emit x c rc recordSendme reserved with
          | (x, false) =>
              let '(x, s) := match due with Some _ => failAndClose x s | None => (x, s) end in
              (x, s, Some errEmit)
          | (x, true) => (x, note_sent (with_sent s (u64 (lastSent s + 1)) (Some c)) c, None)
          end
      end
  end.

(** [meanwhile] is what the rest of the program does while the sender waits for
    the windows and for [sendMu]. *)
Definition sendMultiplexed (turns : list (X * ConfluxSet -> X * ConfluxSet))
    (meanwhile : X * ConfluxSet -> X * ConfluxSet) (x : X) (s : ConfluxSet) (rc : RelayCell.RelayCell) :
    X * ConfluxSet * option error :=
  match choose_leg turns x s with
  | (x, s, Err e) => (x, s, Some e)
  | (x, s, Ok i) =>
      let isData := RelayCell.Command rc =? RelayCell.RelayData in
      let '(x, reservation) := if isData then reserveLeg x (circ (leg_at s i)) rc else (x, Some false) in
      let '(x, s) := meanwhile (x, s) in
      match reservation with
      | None => (x, s, Some errReserve)
      | Some recordSendme => transmit x s i rc recordSendme isData
      end
  end.

Definition relayDataMax (x : X) (s : ConfluxSet) : Z :=
  let max := Z.of_nat Cell.PayloadLen in
  let m0 := lv_dataMax (view x (circ (leg0 s))) in
  let max := if m0 <? max then m0 else max in
  let m1 := lv_dataMax (view x (circ (leg1 s))) in
  if m1 <? max then m1 else max.

(** ** The handshake *)

Definition new_leg (c : nat) : confluxLeg := mkLeg c 0 0 0 None false false false.

(** The set [LinkConflux] creates before it sends anything. *)
Definition new_set (nonce : bytes) (primary secondary : nat) : ConfluxSet :=
  mkSet nonce (new_leg primary) (new_leg secondary) primary false false 0 0 None ∅.

Definition sendLinks (now : Z) (x : X) (s : ConfluxSet) : X * ConfluxSet * option error :=
  match Conflux.EncodeConfluxLink
          (Conflux.mkLink Conflux.ConfluxLinkVersion (nonce s) 0 0 Conflux.ConfluxUXHighThroughput) with
  | Err e => (x, s, Some (errLinkedDecode e))
  | Ok payload =>
      match RelayCell.NewRelayCell 0 RelayCell.RelayConfluxLink payload with
      | Err e => (x, s, Some (errNewCell e))
      | Ok rc =>
          let s := set_leg s false (leg_linking (leg0 s) (Some now)) in
          match sendLocal x (circ (leg0 s)) rc with
          | (x, false) => (x, s, Some errLinkSend)
          | (x, true) =>
              let s := set_leg s true (leg_linking (leg1 s) (Some now)) in
              match sendLocal x (circ (leg1 s)) rc with
              | (x, false) => (x, s, Some errLinkSend)
              | (x, true) => (x, s, None)
              end
          end
      end
  end.

(** What [LinkConflux] does once both legs are linked. *)
Definition finish_link (s : ConfluxSet) : ConfluxSet :=
  let cur := if (0 <? rtt (leg1 s)) && ((rtt (leg0 s) =? 0) || (rtt (leg1 s) <? rtt (leg0 s)))
             then circ (leg1 s) else circ (leg0 s) in
  with_sent (with_status s true (closed s)) (lastSent s) (Some cur).

(** A leg's turn of the loop of [waitLinkedBoth]; [None] while it blocks. *)
Inductive wait_case := CaseTimeout | CaseLegDestroyed | CaseLinked.

Definition wait_leg (pick : nat) (ctxDone : bool) (x : X) (s : ConfluxSet) (i : bool) :
    ConfluxSet * option (option error) :=
  match select pick ((if ctxDone then [CaseTimeout] else []) ++
                     (if lv_destroyed (view x (circ (leg_at s i))) then [CaseLegDestroyed] else []) ++
                     (if linkedCh (leg_at s i) then [CaseLinked] else [])) with
  | None => (s, None)
  | Some CaseTimeout => (s, Some (Some errTimeout))
  | Some CaseLegDestroyed => (s, Some (Some errLegDestroyed))
  | Some CaseLinked => (set_leg s i (leg_taken (leg_at s i)), Some None)
  end.

(** What happens while a leg is waited for, how the [select] is resolved, and
    whether the context is done by then. *)
Record wait_env := mkWait {
  during : X * ConfluxSet -> X * ConfluxSet;
  chosen : nat;
  expired : bool;
}.

Definition waitLinkedBoth (w0 w1 : wait_env) (x : X) (s : ConfluxSet) : X * ConfluxSet * option (option error) :=
  let '(x, s) := during w0 (x, s) in
  match wait_leg (chosen w0) (expired w0) x s false with
  | (s, Some None) =>
      let '(x, s) := during w1 (x, s) in
      let '(s, r) := wait_leg (chosen w1) (expired w1) x s true in (x, s, r)
  | (s, r) => (x, s, r)
  end.

(** A nil circuit is [None]; [random] is the nonce, [None] when the random source
    fails.  The answer is [None] while the handshake is still waited for. *)
Definition LinkConflux (random : option bytes) (now : Z) (w0 w1 : wait_env) (x : X) (primary secondary : option nat) :
    X * option (result error ConfluxSet) :=
  match primary, secondary with
  | Some p, Some q =>
      let a := view x p in
      let b := view x q in
      if decide (p = q) then (x, Some (Err errSameCircuit))
      else if negb (lv_cc a) || negb (lv_cc b) then (x, Some (Err errNoFlowCtrl))
      else if (lv_length a <? 3) || (lv_length b <? 3) then (x, Some (Err errShortLeg))
      else if negb (bool_decide (lv_state a = FlowControl.StateOpen)) ||
              negb (bool_decide (lv_state b = FlowControl.StateOpen)) then (x, Some (Err errLegNotOpen))
      else
        match random with
        | None => (x, Some (Err errNonce))
        | Some n =>
            let s := new_set n p q in
            let x := attach (attach x p) q in
            match sendLinks now x s with
            | (x, s, Some e) => let '(x, _) := teardown x s false in (x, Some (Err e))
            | (x, s, None) =>
                match waitLinkedBoth w0 w1 x s with
                | (x, _, None) => (x, None)
                | (x, s, Some (Some e)) => let '(x, _) := teardown x s false in (x, Some (Err e))
                | (x, s, Some None) => (x, Some (Ok (finish_link s)))
                end
            end
        end
  | _, _ => (x, Some (Err errNilCircuit))
  end.

End Ops.

Definition ConfluxLinked (s : option ConfluxSet) : bool :=
  match s with None => false | Some s => linked s && negb (closed s) end.

(** ** The sequence a set carries

    A sender and a receiver joined by the two legs, each a channel that keeps the
    order of its cells.  The sender's legs are the class instance below: their
    circuits always take what they are given, and [wv] is what the sender sees of
    them when it chooses a leg. *)
Record wires := mkWires { wv : nat -> leg_view; wire0 : list RelayCell.RelayCell; wire1 : list RelayCell.RelayCell }.

Definition wire_of (x : wires) (i : bool) : list RelayCell.RelayCell := if i then wire1 x else wire0 x.

Definition push (x : wires) (c : nat) (rc : RelayCell.RelayCell) : wires :=
  if decide (c = 1%nat) then mkWires (wv x) (wire0 x) (wire1 x ++ [rc])
  else mkWires (wv x) (wire0 x ++ [rc]) (wire1 x).

#[global] Instance wire_legs : Legs wires := {
  view x c := wv x c;
  reserveLeg x c rc := (x, Some false);
  refundLeg x c rc := x;
  sendLocal x c rc := (push x c rc, true);
  emit x c rc _ _ := (push x c rc, true);
  enqueue x c rc := (x, true);
  attach x c := x;
  detach x c := x;
  closeLeg x c := x;
}.

Definition ref_of (i : bool) : nat := if i then 1 else 0.

Section Protocol.
Context `{Legs X}.

Record sys := mkSys {
  ssend : ConfluxSet;
  chan : wires;
  rworld : X;
  srecv : ConfluxSet;
  sent : list RelayCell.RelayCell;
  released : list RelayCell.RelayCell;
  got : list RelayCell.RelayCell;
  hand0 : list RelayCell.RelayCell;
  hand1 : list RelayCell.RelayCell;
  failed : option error;
  waiting : list (bool * RelayCell.RelayCell);
}.

Definition hand_of (y : sys) (i : bool) : list RelayCell.RelayCell := if i then hand1 y else hand0 y.

Definition with_hand (y : sys) (i : bool) (l : list RelayCell.RelayCell) : sys :=
  if i then mkSys (ssend y) (chan y) (rworld y) (srecv y) (sent y) (released y) (got y) (hand0 y) l (failed y) (waiting y)
  else mkSys (ssend y) (chan y) (rworld y) (srecv y) (sent y) (released y) (got y) l (hand1 y) (failed y) (waiting y).

(** Senders run concurrently: [ActChoose] is the part of [sendMultiplexed] before
    the lock, with what the sender sees of the circuits at that moment, and
    [ActTransmit] the part under it, for any of the senders that wait there.  The
    receiver has one reader per leg: [ActRecv] is what the reader of a leg does
    with the next cell up to the release of [s.mu], which it does only when it has
    enqueued all cells of its previous batch, and [ActEnqueue] passes the next
    cell of its batch to the owner. *)
Inductive action :=
| ActChoose (v : nat -> leg_view) (rc : RelayCell.RelayCell)
| ActTransmit (k : nat)
| ActRecv (i : bool)
| ActEnqueue (i : bool).

Definition act_enqueue (y : sys) (i : bool) : sys :=
  match hand_of y i with
  | [] => y
  | rc :: rest =>
      match enqueue (rworld y) (owner (srecv y)) rc with
      | (rw, true) =>
          with_hand (mkSys (ssend y) (chan y) rw (srecv y) (sent y) (released y) (got y ++ [rc])
                       (hand0 y) (hand1 y) (failed y) (waiting y)) i rest
      | (rw, false) =>
          with_hand (mkSys (ssend y) (chan y) rw (srecv y) (sent y) (released y) (got y)
                       (hand0 y) (hand1 y) (Some errEnqueue) (waiting y)) i []
      end
  end.

(** A refused send leaves the cell with its caller.  The first error of the
    receiver tears the set down; all that happens after it is that the other
    reader goes on with its batch. *)
Definition act (y : sys) (a : action) : sys :=
  match failed y with
  | Some _ => match a with ActEnqueue i => act_enqueue y i | _ => y end
  | None =>
      match a with
      | ActChoose v rc =>
          match choose_leg [] (mkWires v (wire0 (chan y)) (wire1 (chan y))) (ssend y) with
          | (_, _, Ok i) => mkSys (ssend y) (chan y) (rworld y) (srecv y) (sent y) (released y) (got y)
                              (hand0 y) (hand1 y) None (waiting y ++ [(i, rc)])
          | (_, _, Err _) => y
          end
      | ActTransmit k =>
          match waiting y !! k with
          | None => y
          | Some (i, rc) =>
              let rest := delete k (waiting y) in
              match transmit (chan y) (ssend y) i rc false (RelayCell.Command rc =? RelayCell.RelayData) with
              | (x, s, None) => mkSys s x (rworld y) (srecv y) (sent y ++ [rc]) (released y) (got y)
                                  (hand0 y) (hand1 y) None rest
              | (x, s, Some _) => mkSys s x (rworld y) (srecv y) (sent y) (released y) (got y)
                                    (hand0 y) (hand1 y) None rest
              end
          end
      | ActRecv i =>
          match hand_of y i, wire_of (chan y) i with
          | [], rc :: rest =>
              let x := if i then mkWires (wv (chan y)) (wire0 (chan y)) rest
                       else mkWires (wv (chan y)) rest (wire1 (chan y)) in
              let hop := lv_length (view (rworld y) (ref_of i)) - 1 in
              let '(rw, s, l, _, e) := onRelayCell_locked 0 (rworld y) (srecv y) (ref_of i) rc hop in
              with_hand (mkSys (ssend y) x rw s (sent y) (released y ++ l) (got y) (hand0 y) (hand1 y) e (waiting y)) i l
          | _, _ => y
          end
      | ActEnqueue i => act_enqueue y i
      end
  end.

(** A freshly linked set over the circuits 0 and 1. *)
Definition fresh (s : ConfluxSet) : Prop :=
  circ (leg0 s) = 0%nat /\ circ (leg1 s) = 1%nat /\ linked s = true /\ closed s = false /\
  lastSent s = 0 /\ lastRecv s = 0 /\ legSent (leg0 s) = 0 /\ legSent (leg1 s) = 0 /\
  legRecv (leg0 s) = 0 /\ legRecv (leg1 s) = 0 /\ ooo s = ∅ /\
  (current s = Some 0%nat \/ current s = Some 1%nat).

Definition init (s r : ConfluxSet) (x : X) (v : nat -> leg_view) : sys :=
  mkSys s (mkWires v [] []) x r [] [] [] [] [] None [].

(** The application only sends commands that are multiplexed. *)
Definition act_wf (a : action) : Prop :=
  match a with ActChoose _ rc => Conflux.ConfluxShouldMultiplex (RelayCell.Command rc) = true | _ => True end.

(** ** Invariant *)

Definition switch_cell (rel : Z) (rc : RelayCell.RelayCell) : Prop :=
  RelayCell.NewRelayCell 0 RelayCell.RelayConfluxSwitch (Conflux.EncodeConfluxSwitch rel) = Ok rc.

(** Read from count [r], the cells in [w] are cells of [all] with the numbers the
    receiver will give them, and bring the count to [e]. *)
Inductive wire_ok (all : list RelayCell.RelayCell) : Z -> list RelayCell.RelayCell -> Z -> Prop :=
| wire_nil r : wire_ok all r [] r
| wire_switch r rel rc w e :
    1 <= rel < 2 ^ 32 -> switch_cell rel rc -> wire_ok all (r + rel) w e -> wire_ok all r (rc :: w) e
| wire_cell r rc w e :
    0 <= r -> all !! Z.to_nat r = Some rc -> Conflux.ConfluxShouldMultiplex (RelayCell.Command rc) = true ->
    wire_ok all (r + 1) w e -> wire_ok all r (rc :: w) e.

Lemma wire_ok_le all r w e : wire_ok all r w e -> r <= e.
Proof. induction 1; lia. Qed.

Lemma wire_ok_app all r w m w' e : wire_ok all r w m -> wire_ok all m w' e -> wire_ok all r (w ++ w') e.
Proof. induction 1; simpl; intros; [done|..]; [eapply wire_switch|eapply wire_cell]; eauto. Qed.

Lemma wire_ok_grow all rc r w e : wire_ok all r w e -> wire_ok (all ++ [rc]) r w e.
Proof.
  induction 1; [constructor|eapply wire_switch; eauto|eapply wire_cell; eauto].
  by apply lookup_app_l_Some.
Qed.

Record inv (y : sys) : Prop := {
  iv_scirc : circ (leg0 (ssend y)) = 0%nat /\ circ (leg1 (ssend y)) = 1%nat;
  iv_slink : linked (ssend y) = true /\ closed (ssend y) = false;
  iv_count : lastSent (ssend y) = len (sent y);
  iv_current : exists i, current (ssend y) = Some (ref_of i) /\ legSent (leg_at (ssend y) i) = lastSent (ssend y);
  iv_legs : forall i, 0 <= legSent (leg_at (ssend y) i) <= lastSent (ssend y);
  iv_rcirc : circ (leg0 (srecv y)) = 0%nat /\ circ (leg1 (srecv y)) = 1%nat;
  iv_wire : forall i, 0 <= legRecv (leg_at (srecv y) i) /\
    wire_ok (sent y) (legRecv (leg_at (srecv y) i)) (wire_of (chan y) i) (legSent (leg_at (ssend y) i));
  iv_ooo : forall k rc, ooo (srecv y) !! k = Some rc -> 0 < k /\ sent y !! Z.to_nat (k - 1) = Some rc;
  iv_size : Z.of_nat (size (ooo (srecv y))) <= confluxOOOLimit;
  iv_recv : 0 <= lastRecv (srecv y) <= len (sent y);
  iv_got : released y = take (Z.to_nat (lastRecv (srecv y))) (sent y);
  iv_wait : Forall (fun p => Conflux.ConfluxShouldMultiplex (RelayCell.Command p.2) = true) (waiting y);
}.

(** What holds also after an error: what was released is a prefix. *)
Definition safe (y : sys) : Prop := released y `prefix_of` sent y.

Lemma fresh_inv s r x v : fresh s -> fresh r -> inv (init s r x v).
Proof.
  intros (Hc0 & Hc1 & Hl & Hcl & Hls & _ & Hs0 & Hs1 & _ & _ & _ & Hcur)
    (Hd0 & Hd1 & _ & _ & _ & Hlr & _ & _ & Hr0 & Hr1 & Ho & _).
  constructor; simpl; auto.
  - destruct Hcur as [Hc|Hc]; [exists false | exists true]; simpl; split; congruence.
  - intros []; simpl; lia.
  - intros []; simpl; rewrite ?Hr0, ?Hr1, ?Hs0, ?Hs1; split; try lia; constructor.
  - intros k rc. by rewrite Ho, lookup_empty.
  - rewrite Ho, map_size_empty. done.
  - by rewrite Hlr.
  - by rewrite Hlr.
Qed.

(** ** The sender *)

Lemma legOf_ref s i :
  circ (leg0 s) = 0%nat -> circ (leg1 s) = 1%nat -> legOf s (ref_of i) = Some i.
Proof. intros H0 H1. unfold legOf. rewrite H0, H1. by destruct i. Qed.

Lemma circ_at s i : circ (leg0 s) = 0%nat -> circ (leg1 s) = 1%nat -> circ (leg_at s i) = ref_of i.
Proof. by destruct i. Qed.

Lemma wire_push x i j rc :
  wire_of (push x (ref_of i) rc) j = if decide (j = i) then wire_of x j ++ [rc] else wire_of x j.
Proof. by destruct i, j. Qed.

Lemma leg_at_set s i j l : leg_at (set_leg s i l) j = if decide (j = i) then l else leg_at s j.
Proof. by destruct i, j. Qed.

(** What [note_sent] records. *)
Lemma note_sent_spec s i :
  circ (leg0 s) = 0%nat -> circ (leg1 s) = 1%nat ->
  note_sent s (ref_of i) =
    with_sent (set_leg s i (leg_sent (leg_at s i) (lastSent s))) (lastSent s) (Some (ref_of i)).
Proof. intros H0 H1. unfold note_sent. rewrite legOf_ref by done. by destruct i. Qed.

Lemma switch_cell_exists rel : exists rc, switch_cell rel rc.
Proof.
  unfold switch_cell. rewrite RelayCell.NewRelayCell_ok; [by eexists|].
  unfold Conflux.EncodeConfluxSwitch, len. rewrite length_copy_at by lia.
  rewrite length_zeros. by vm_compute.
Qed.

(** The cells a successful send puts on leg [i]: a SWITCH first when the leg is
    behind. *)
Definition on_wire (s : ConfluxSet) (i : bool) (rc : RelayCell.RelayCell) (l : list RelayCell.RelayCell) : Prop :=
  (legSent (leg_at s i) = lastSent s /\ l = [rc]) \/
  (exists gap sw, 1 <= gap < 2 ^ 32 /\ legSent (leg_at s i) + gap = lastSent s /\
     switch_cell gap sw /\ l = [sw; rc]).

Record sent_on (x x' : wires) (s s' : ConfluxSet) (i : bool) (rc : RelayCell.RelayCell) : Prop := {
  so_wire : exists l, on_wire s i rc l /\
    forall j, wire_of x' j = if decide (j = i) then wire_of x j ++ l else wire_of x j;
  so_leg : forall j, legSent (leg_at s' j) = if decide (j = i) then lastSent s + 1 else legSent (leg_at s j);
  so_count : lastSent s' = lastSent s + 1;
  so_current : current s' = Some (ref_of i);
  so_circ : circ (leg0 s') = 0%nat /\ circ (leg1 s') = 1%nat;
  so_status : linked s' = true /\ closed s' = false;
}.

Lemma transmit_spec x s i rc b d x' s' e :
  circ (leg0 s) = 0%nat -> circ (leg1 s) = 1%nat -> linked s = true -> closed s = false ->
  0 <= lastSent s < 2 ^ 32 - 1 -> (forall i, 0 <= legSent (leg_at s i) <= lastSent s) ->
  (exists i, current s = Some (ref_of i) /\ legSent (leg_at s i) = lastSent s) ->
  transmit x s i rc b d = (x', s', e) ->
  match e with
  | Some _ => x' = x /\ s' = s
  | None => sent_on x x' s s' i rc
  end.
Proof.
  intros H0 H1 Hl Hc Hb Hleg (j & Hcur & Hj) Hs. unfold transmit in Hs.
  cbn [refundLeg sendLocal emit wire_legs] in Hs. rewrite (circ_at s i) in Hs by done.
  unfold switch_due in Hs. rewrite Hcur, (circ_at s i) in Hs by done.
  pose proof (Hleg i) as Hli.
  assert (u64 (lastSent s + 1) = lastSent s + 1) as Hu by (apply u64_id; word; lia).
  destruct (decide (ref_of j = ref_of i)) as [Eij|Eij].
  - assert (j = i) as -> by (by destruct i, j). simplify_eq. rewrite Hu, note_sent_spec by done.
    constructor; simpl; auto.
    + exists [rc]. split; [by left|]. intros k. apply wire_push.
    + intros k. by destruct i, k; simpl.
    + by destruct i.
    + by destruct i.
  - rewrite u64_id in Hs by (word; lia). unfold MaxUint32 in Hs.
    rewrite (proj2 (Z.ltb_ge _ _)) in Hs by (word; lia).
    destruct (Z.leb_spec 1 (lastSent s - legSent (leg_at s i))) as [Hg|Hg].
    + rewrite u32_id in Hs by (word; lia).
      destruct (switch_cell_exists (lastSent s - legSent (leg_at s i))) as [sw Hsw].
      unfold switch_cell in Hsw. rewrite Hsw in Hs. simplify_eq.
      rewrite !(note_sent_spec s i) by done.
      assert (forall t, lastSent (with_sent (set_leg s i t) (lastSent s) (Some (ref_of i))) = lastSent s) as Hls by done.
      rewrite Hls, Hu, note_sent_spec by (by destruct i).
      constructor; simpl; auto.
      * exists [sw; rc]. split; [right; exists (lastSent s - legSent (leg_at s i)), sw; split_and!; try done; word; lia|].
        intros k. rewrite !wire_push. case_decide; [by rewrite <- app_assoc|done].
      * intros k. by destruct i, k; simpl.
      * by destruct i.
      * by destruct i.
    + simplify_eq. rewrite Hu, note_sent_spec by done.
      constructor; simpl; auto.
      * exists [rc]. split; [left; split; [lia | done]|]. intros k. apply wire_push.
      * intros k. by destruct i, k; simpl.
      * by destruct i.
      * by destruct i.
Qed.

Lemma act_choose_inv y v rc :
  inv y -> Conflux.ConfluxShouldMultiplex (RelayCell.Command rc) = true -> inv (act y (ActChoose v rc)).
Proof.
  intros Hi Hm. unfold act. destruct (failed y); [done|].
  destruct (choose_leg _ _ _) as [[? ?] [i|?]]; [|done]. destruct Hi.
  constructor; simpl; auto. apply Forall_app; auto.
Qed.

Lemma act_send_inv y k :
  inv y -> failed y = None -> len (sent y) < 2 ^ 32 - 1 -> inv (act y (ActTransmit k)).
Proof.
  intros Hi Hf Hb. pose proof Hi as [[H0 H1] [Hl Hc] Hcount Hcur Hlegs Hrc Hw Hooo Hsz Hrecv Hgot Hwait].
  unfold act. rewrite Hf. destruct (waiting y !! k) as [[i rc]|] eqn:Ek; [|done].
  pose proof (Forall_lookup_1 _ _ _ _ Hwait Ek) as Hm. apply (Forall_delete _ _ k) in Hwait. simpl in Hm.
  destruct (transmit _ (ssend y) i rc _ _) as [[x' s'] e] eqn:Es.
  apply transmit_spec in Es; auto; [|rewrite Hcount; pose proof (len_nonneg (sent y)); lia].
  destruct e as [e|].
  - destruct Es as [-> ->]. constructor; simpl; auto.
  - destruct Es as [ (l & Hon & Hwire) Hleg Hls Hcu Hci Hst ].
    assert (len (sent y ++ [rc]) = len (sent y) + 1) as Hlen by (rewrite len_app; done).
    constructor; simpl; auto; rewrite ?Hlen; try lia.
    + exists i. rewrite Hleg, decide_True by done. split; [done | lia].
    + intros j. rewrite Hleg. case_decide; [lia|]. specialize (Hlegs j). lia.
    + intros j. destruct (Hw j) as [Hr Hok]. split; [done|]. rewrite Hwire, Hleg. case_decide; [|by apply wire_ok_grow].
      subst j. eapply wire_ok_app; [by apply wire_ok_grow|].
      assert ((sent y ++ [rc]) !! Z.to_nat (lastSent (ssend y)) = Some rc) as Hlook.
      { rewrite Hcount. unfold len. rewrite Nat2Z.id. by apply list_lookup_middle. }
      specialize (Hlegs i).
      destruct Hon as [[He ->]|(gap & sw & Hgap & He & Hsw & ->)].
      * rewrite He. eapply wire_cell; [lia|done|done|constructor].
      * eapply wire_switch; [done|done|]. rewrite He. eapply wire_cell; [lia|done|done|constructor].
    + intros k0 c Hk. destruct (Hooo k0 c Hk). split; [done|]. by apply lookup_app_l_Some.
    + rewrite Hgot. rewrite take_app_le; [done|]. unfold len in Hrecv. lia.
Qed.

(** ** The receiver *)

Lemma drain_total fuel s : (size (ooo s) < fuel)%nat -> exists r, drain fuel s = Some r.
Proof.
  revert s. induction fuel as [|fuel IH]; intros s Hf; [lia|]. cbn [drain].
  destruct (ooo s !! u64 (lastRecv s + 1)) as [rc|] eqn:E; [|by eauto].
  destruct (IH (with_recv s (u64 (lastRecv s + 1)) (delete (u64 (lastRecv s + 1)) (ooo s)))) as [[s' l] ->]; [|by eauto].
  simpl. rewrite map_size_delete_Some by eauto. assert (size (ooo s) <> 0)%nat; [|lia].
  intros Hz. apply map_size_empty_inv in Hz. by rewrite Hz, lookup_empty in E.
Qed.

(** The table holds cells of [all] under their numbers. *)
Definition table_ok (all : list RelayCell.RelayCell) (m : gmap Z RelayCell.RelayCell) : Prop :=
  forall k rc, m !! k = Some rc -> 0 < k /\ all !! Z.to_nat (k - 1) = Some rc.

Lemma table_ok_delete all m k : table_ok all m -> table_ok all (delete k m).
Proof. intros Hm k' rc Hk. apply lookup_delete_Some in Hk as [_ Hk]. by apply Hm. Qed.

(** What the loop passes on continues the sequence. *)
Lemma drain_spec all fuel s s' l :
  table_ok all (ooo s) -> len all < 2 ^ 63 -> 0 <= lastRecv s <= len all ->
  drain fuel s = Some (s', l) ->
  s' = with_recv s (lastRecv s + len l) (ooo s') /\ lastRecv s + len l <= len all /\
  l = take (length l) (drop (Z.to_nat (lastRecv s)) all) /\
  table_ok all (ooo s') /\ (size (ooo s') <= size (ooo s))%nat.
Proof.
  intros Ht Hb. revert s s' l Ht. induction fuel as [|fuel IH]; intros s s' l Ht Hr; [done|]. cbn [drain].
  destruct (ooo s !! u64 (lastRecv s + 1)) as [rc|] eqn:E.
  2:{ intros [= <- <-]. rewrite Z.add_0_r. split_and!; try done; [by destruct s | lia]. }
  rewrite u64_id in E by (word; lia).
  assert (u64 (lastRecv s + 1) = lastRecv s + 1) as -> by (apply u64_id; word; lia).
  destruct (Ht _ _ E) as [_ Hlook]. replace (lastRecv s + 1 - 1) with (lastRecv s) in Hlook by lia.
  pose proof (lookup_lt_Some _ _ _ Hlook) as Hlt.
  destruct (drain fuel _) as [[s1 l1]|] eqn:Ed; [|done]. intros [= <- <-].
  apply IH in Ed as (Hs1 & Hle & Hl1 & Ht1 & Hsz); [|by apply table_ok_delete|simpl; unfold len in *; lia].
  simpl in *. replace (len (rc :: l1)) with (1 + len l1) by (unfold len; simpl; lia).
  split_and!; [rewrite Hs1; simpl; f_equal; lia | lia | | done |].
  - rewrite (drop_S _ rc _ Hlook). simpl. f_equal.
    replace (S (Z.to_nat (lastRecv s))) with (Z.to_nat (lastRecv s + 1)) by lia. done.
  - rewrite map_size_delete_Some in Hsz by eauto. lia.
Qed.

(** Reordering does not change whether the set is linked or closed. *)
Lemma drain_status fuel s s' l :
  drain fuel s = Some (s', l) -> linked s' = linked s /\ closed s' = closed s /\ owner s' = owner s.
Proof.
  revert s s' l. induction fuel as [|fuel IH]; intros s s' l; cbn [drain]; [done|].
  destruct (ooo s !! u64 (lastRecv s + 1)); [|by intros [= <- <-]].
  destruct (drain fuel _) as [[s1 l1]|] eqn:E; [|done]. intros [= <- <-]. by apply IH in E.
Qed.

Lemma reorder_status s from rc s' r :
  reorder_locked s from rc = (s', r) -> linked s' = linked s /\ closed s' = closed s /\ owner s' = owner s.
Proof.
  intros Hr. unfold reorder_locked in Hr. destruct (closed s) eqn:Ec; [by simplify_eq|].
  destruct (legOf s from) as [i|]; [|by simplify_eq].
  set (s1 := set_leg s i _) in Hr.
  assert (linked s1 = linked s /\ closed s1 = false /\ owner s1 = owner s) as (Hl1 & Hc1 & Ho1) by (by destruct i).
  clearbody s1. case_if; [by simplify_eq|]. case_if.
  - destruct (drain _ _) as [[s2 more]|] eqn:Ed; [|by simplify_eq].
    simplify_eq. by apply drain_status in Ed as (-> & -> & ->).
  - repeat (case_if; [by simplify_eq|]). by simplify_eq.
Qed.

(** One cell of the sequence reaches the receiver. *)
Lemma reorder_spec all s i rc s' l :
  circ (leg0 s) = 0%nat -> circ (leg1 s) = 1%nat ->
  0 <= legRecv (leg_at s i) -> all !! Z.to_nat (legRecv (leg_at s i)) = Some rc ->
  table_ok all (ooo s) -> Z.of_nat (size (ooo s)) <= confluxOOOLimit ->
  0 <= lastRecv s <= len all -> len all < 2 ^ 62 ->
  reorder_locked s (ref_of i) rc = (s', Ok l) ->
  circ (leg0 s') = 0%nat /\ circ (leg1 s') = 1%nat /\
  (forall j, legRecv (leg_at s' j) = if decide (j = i) then legRecv (leg_at s i) + 1 else legRecv (leg_at s j)) /\
  table_ok all (ooo s') /\ Z.of_nat (size (ooo s')) <= confluxOOOLimit /\
  lastRecv s' = lastRecv s + len l /\ lastRecv s' <= len all /\
  take (Z.to_nat (lastRecv s)) all ++ l = take (Z.to_nat (lastRecv s')) all.
Proof.
  intros H0 H1 Hr Hlook Ht Hsz Hrecv Hb Hre. unfold reorder_locked in Hre.
  destruct (closed s); [done|]. rewrite legOf_ref in Hre by done.
  pose proof (lookup_lt_Some _ _ _ Hlook) as Hlt.
  assert (legRecv (leg_at s i) < len all) as Hlt' by (unfold len; lia).
  rewrite !(u64_id (legRecv (leg_at s i) + 1)) in Hre by (word; lia).
  remember (legRecv (leg_at s i) + 1) as sq eqn:Hsq. set (s1 := set_leg s i (leg_recv (leg_at s i) sq)) in *.
  assert (lastRecv s1 = lastRecv s) as Hl1 by (by destruct i).
  assert (ooo s1 = ooo s) as Ho1 by (by destruct i).
  assert (circ (leg0 s1) = 0%nat /\ circ (leg1 s1) = 1%nat) as [Hc0 Hc1] by (by destruct i).
  assert (forall j, legRecv (leg_at s1 j) = if decide (j = i) then sq else legRecv (leg_at s j)) as Hlegs
    by (intros j; by destruct i, j).
  rewrite Hl1, Ho1 in Hre. rewrite (u64_id (lastRecv s + 1)) in Hre by (word; lia).
  destruct (Z.leb_spec sq (lastRecv s)); [done|].
  destruct (Z.eqb_spec sq (lastRecv s + 1)) as [Eseq|Eseq].
  - destruct (drain_total (S (size (ooo s))) (with_recv s1 sq (ooo s))) as [[s2 more] Ed]; [simpl; lia|].
    rewrite Ed in Hre. injection Hre as <- <-.
    apply (drain_spec all) in Ed as (Hs2 & Hle & Hmore & Ht2 & Hsz2); simpl; [|done|word; lia|lia]. simpl in Hs2, Hle, Hmore, Hsz2.
    assert (legRecv (leg_at s i) = lastRecv s) as Hrr by lia. rewrite Hrr in Hlook.
    assert (rc :: more = take (length (rc :: more)) (drop (Z.to_nat (lastRecv s)) all)) as Hall.
    { rewrite (drop_S _ rc _ Hlook). simpl. f_equal. rewrite Hmore at 1.
      replace (S (Z.to_nat (lastRecv s))) with (Z.to_nat sq) by lia. done. }
    assert (len (rc :: more) = 1 + len more) as Hlm by (unfold len; simpl; lia).
    rewrite Hs2. simpl. split_and!; try done; try lia.
    rewrite Eseq.
    replace (Z.to_nat (lastRecv s + 1 + len more)) with (Z.to_nat (lastRecv s) + length (rc :: more))%nat
      by (unfold len; simpl; lia).
    by rewrite <- take_take_drop, <- Hall.
  - destruct (Z.leb_spec confluxOOOLimit (Z.of_nat (size (ooo s)))); [done|].
    case_if; [done|]. destruct (bool_decide _) eqn:Eb; [done|].
    apply bool_decide_eq_false in Eb. injection Hre as <- <-. simpl.
    rewrite app_nil_r, Z.add_0_r. split_and!; try done; try lia.
    + intros k c. rewrite lookup_insert. case_decide; [|apply Ht]. intros [= <-]. subst k. split; [lia|].
      replace (sq - 1) with (legRecv (leg_at s i)) by lia. done.
    + rewrite map_size_insert_None by (by apply eq_None_not_Some). lia.
Qed.

Lemma switch_decodes rel rc :
  is_u 32 rel -> switch_cell rel rc ->
  RelayCell.Command rc = RelayCell.RelayConfluxSwitch /\
  Conflux.DecodeConfluxSwitch (RelayCell.Data rc) = Ok rel.
Proof.
  intros Hrel Hsw. unfold switch_cell in Hsw.
  assert (Conflux.EncodeConfluxSwitch rel = PutUint32 rel) as Hen.
  { unfold Conflux.EncodeConfluxSwitch, Conflux.ConfluxSwitchLen. fill. by rewrite app_nil_r. }
  rewrite Hen, RelayCell.NewRelayCell_ok in Hsw by (unfold len; rewrite length_PutUint32; by vm_compute).
  simplify_eq. split; [done|]. cbn [RelayCell.Data]. unfold Conflux.DecodeConfluxSwitch.
  rewrite (proj2 (Z.ltb_ge _ _)) by (unfold len; rewrite length_PutUint32; by vm_compute).
  unfold Conflux.ConfluxSwitchLen. rewrite slice_all by apply length_PutUint32. by rewrite get_PutUint32.
Qed.

(** A SWITCH that is accepted advances its leg by the relative number. *)
Lemma handleSwitch_spec s i rc rel s' e :
  circ (leg0 s) = 0%nat -> circ (leg1 s) = 1%nat ->
  1 <= rel < 2 ^ 32 -> switch_cell rel rc -> 0 <= legRecv (leg_at s i) < 2 ^ 62 ->
  handleSwitch s (ref_of i) rc = (s', e) ->
  e = None -> s' = set_leg s i (leg_recv (leg_at s i) (legRecv (leg_at s i) + rel)).
Proof.
  intros H0 H1 Hrel Hsw Hr Hh ->. destruct (switch_decodes rel rc) as [_ Hd]; [word; lia|done|].
  unfold handleSwitch in Hh. rewrite Hd, legOf_ref in Hh by done.
  repeat (case_if; [done|]). injection Hh as <-. by rewrite u64_id by (word; lia).
Qed.

Lemma multiplex_dispatch now x s from rc hop :
  Conflux.ConfluxShouldMultiplex (RelayCell.Command rc) = true ->
  onRelayCell_locked now x s from rc hop =
    if linked s && negb (closed s) then
      match requireExitHop x from hop with
      | Some e => (x, s, [], true, Some e)
      | None =>
          match reorder_locked s from rc with
          | (s, Err e) => (x, s, [], true, Some e)
          | (s, Ok deliver) => (x, s, deliver, true, None)
          end
      end
    else (x, s, [], false, None).
Proof.
  intros Hm. unfold onRelayCell_locked. rewrite Hm. destruct (linked s && negb (closed s)); simpl;
  unfold Conflux.ConfluxShouldMultiplex in Hm; apply existsb_exists in Hm as (c & Hc & Heq);
  apply Z.eqb_eq in Heq; rewrite Heq; simpl in Hc;
  repeat (destruct Hc as [<-|Hc]; [reflexivity|]); done.
Qed.

(** The fields [with_hand] leaves alone. *)
Lemma with_hand_fields y i l :
  let y' := with_hand y i l in
  ssend y' = ssend y /\ chan y' = chan y /\ rworld y' = rworld y /\ srecv y' = srecv y /\ sent y' = sent y /\
  released y' = released y /\ got y' = got y /\ failed y' = failed y /\ waiting y' = waiting y.
Proof. by destruct i. Qed.

Lemma inv_with_hand y i l : inv y -> inv (with_hand y i l).
Proof. intros []. destruct i; constructor; auto. Qed.

Lemma act_recv_inv y i :
  inv y -> failed y = None -> len (sent y) < 2 ^ 32 -> linked (srecv y) = true -> closed (srecv y) = false ->
  let y' := act y (ActRecv i) in
  safe y' /\ (failed y' = None -> inv y' /\ linked (srecv y') = true /\ closed (srecv y') = false).
Proof.
  intros Hi Hf Hb Hlk Hcl. pose proof Hi as [Hs0 Hsl Hcount Hcur Hlegs [H0 H1] Hw Hooo Hsz Hrecv Hgot].
  assert (released y `prefix_of` sent y) as Hsafe by (rewrite Hgot; apply prefix_take).
  unfold act. rewrite Hf. destruct (hand_of y i); [|by split].
  destruct (wire_of (chan y) i) as [|rc rest] eqn:Ew; [by split|].
  destruct (Hw i) as [Hr Hok]. rewrite Ew in Hok.
  assert (forall j, wire_of (if i then mkWires (wv (chan y)) (wire0 (chan y)) rest
    else mkWires (wv (chan y)) rest (wire1 (chan y))) j = if decide (j = i) then rest else wire_of (chan y) j) as Hwire.
  { intros j. by destruct i, j. }
  set (x := if i then _ else _) in *. clearbody x. set (hop := _ - 1).
  pose proof (wire_ok_le _ _ _ _ Hok) as Hle. specialize (Hlegs i) as Hli.
  destruct (onRelayCell_locked _ _ _ _ _ _) as [[[[rw s'] l] h] e] eqn:Eo. cbv zeta.
  destruct (with_hand_fields (mkSys (ssend y) x rw s' (sent y) (released y ++ l) (got y) (hand0 y) (hand1 y) e
    (waiting y)) i l) as (_ & _ & _ & Er & Es & Erl & _ & Ef & _).
  unfold safe. rewrite Ef, Es, Erl, Er. clear Er Es Erl Ef. cbn [released sent failed srecv].
  inversion Hok as [|r rel rc' w e' Hrel Hsw Hrest|r rc' w e' Hr0 Hlook Hm Hrest]; subst.
  - destruct (switch_decodes rel rc) as [Hcmd _]; [word; lia|done|].
    unfold onRelayCell_locked in Eo. rewrite Hcmd in Eo. simpl (_ =? _) in Eo. cbv iota in Eo.
    destruct (requireExitHop _ _ _) eqn:Eh; [simplify_eq; rewrite app_nil_r; by split|].
    destruct (handleSwitch (srecv y) (ref_of i) rc) as [s1 e1] eqn:Esw. simplify_eq. rewrite app_nil_r.
    split; [done|]. intros ->. apply (handleSwitch_spec _ _ _ rel) in Esw; auto; [|word; lia]. subst s'.
    split; [|by destruct i]. apply inv_with_hand. constructor; simpl; auto.
    + by destruct i.
    + intros j. rewrite Hwire, leg_at_set. case_decide; [subst; simpl; split; [lia|done]|apply Hw].
    + by destruct i.
    + by destruct i.
    + by destruct i.
    + by destruct i.
  - rewrite multiplex_dispatch, Hlk, Hcl in Eo by done. cbn [andb negb] in Eo.
    destruct (requireExitHop _ _ _) eqn:Eh; [simplify_eq; rewrite app_nil_r; by split|].
    destruct (reorder_locked _ _ _) as [s1 [d|er]] eqn:Er; simplify_eq; [|rewrite app_nil_r; by split].
    destruct (reorder_status _ _ _ _ _ Er) as (Hlk' & Hcl' & _).
    apply (reorder_spec (sent y)) in Er as (Hc0 & Hc1 & Hlegs' & Ht' & Hsz' & Hlr & Hle' & Htake); auto; [|word; lia].
    rewrite Hgot at 1. rewrite Htake. split; [apply prefix_take|]. intros _.
    split; [|by rewrite Hlk', Hcl']. apply inv_with_hand.
    constructor; simpl; auto.
    + intros j. rewrite Hwire, Hlegs'. case_decide; [subst; split; [lia|done]|apply Hw].
    + pose proof (len_nonneg l). lia.
    + by rewrite Hgot.
Qed.

(** ** Completeness: nothing is lost

    The numbers of the cells in a channel read from count [r]. *)
Fixpoint wire_nums (r : Z) (w : list RelayCell.RelayCell) : list Z :=
  match w with
  | [] => []
  | rc :: w =>
      if RelayCell.Command rc =? RelayCell.RelayConfluxSwitch then
        match Conflux.DecodeConfluxSwitch (RelayCell.Data rc) with
        | Ok rel => wire_nums (r + rel) w
        | Err _ => wire_nums r w
        end
      else (r + 1) :: wire_nums (r + 1) w
  end.

Lemma wire_nums_switch rel rc r w :
  1 <= rel < 2 ^ 32 -> switch_cell rel rc -> wire_nums r (rc :: w) = wire_nums (r + rel) w.
Proof.
  intros Hrel Hsw. destruct (switch_decodes rel rc) as [Hc Hd]; [word; lia|done|].
  cbn [wire_nums]. by rewrite Hc, Z.eqb_refl, Hd.
Qed.

Lemma wire_nums_cell rc r w :
  Conflux.ConfluxShouldMultiplex (RelayCell.Command rc) = true ->
  wire_nums r (rc :: w) = (r + 1) :: wire_nums (r + 1) w.
Proof.
  intros Hm. cbn [wire_nums]. destruct (Z.eqb_spec (RelayCell.Command rc) RelayCell.RelayConfluxSwitch) as [E|]; [|done].
  by rewrite E in Hm.
Qed.

Lemma wire_nums_app all r w m w' :
  wire_ok all r w m -> wire_nums r (w ++ w') = wire_nums r w ++ wire_nums m w'.
Proof.
  induction 1 as [|r rel rc w e Hrel Hsw Hw IH|r rc w e Hr Hl Hm Hw IH]; [done|..]; rewrite <- app_comm_cons.
  - by rewrite !(wire_nums_switch rel), IH by done.
  - rewrite !wire_nums_cell, IH by done. done.
Qed.

(** Every cell sent has been released, waits in the table or is on a leg; and
    the table has no cell that could be released. *)
Record complete (y : sys) : Prop := {
  co_cover : forall k, 1 <= k <= len (sent y) ->
    k <= lastRecv (srecv y) \/ is_Some (ooo (srecv y) !! k) \/
    exists i, k ∈ wire_nums (legRecv (leg_at (srecv y) i)) (wire_of (chan y) i);
  co_next : ooo (srecv y) !! (lastRecv (srecv y) + 1) = None;
}.

Lemma drain_cover all fuel s s' l :
  table_ok all (ooo s) -> len all < 2 ^ 63 -> 0 <= lastRecv s <= len all ->
  drain fuel s = Some (s', l) ->
  (forall k, is_Some (ooo s !! k) -> k <= lastRecv s' \/ is_Some (ooo s' !! k)) /\
  ooo s' !! (lastRecv s' + 1) = None.
Proof.
  intros Ht Hb. revert s s' l Ht. induction fuel as [|fuel IH]; intros s s' l Ht Hr Hd; [done|].
  pose proof (drain_spec _ _ _ _ _ Ht Hb Hr Hd) as (Hs' & _). cbn [drain] in Hd.
  assert (u64 (lastRecv s + 1) = lastRecv s + 1) as Hu by (apply u64_id; word; lia). rewrite Hu in Hd.
  destruct (ooo s !! (lastRecv s + 1)) as [rc|] eqn:E; [|injection Hd as <- <-; split; [by right | done]].
  destruct (Ht _ _ E) as [_ Hlook]. apply lookup_lt_Some in Hlook.
  destruct (drain fuel _) as [[s1 l1]|] eqn:Ed; [|done]. injection Hd as <- <-.
  apply IH in Ed as [Hc Hn]; [|by apply table_ok_delete|simpl; unfold len in *; lia].
  split; [|done]. intros k Hk. destruct (decide (k = lastRecv s + 1)) as [->|Hne].
  - left. rewrite Hs'. simpl. unfold len. simpl. lia.
  - apply Hc. simpl. by rewrite lookup_delete_ne by done.
Qed.

Lemma reorder_cover all s i rc s' l :
  circ (leg0 s) = 0%nat -> circ (leg1 s) = 1%nat ->
  0 <= legRecv (leg_at s i) < len all -> table_ok all (ooo s) ->
  0 <= lastRecv s <= len all -> len all < 2 ^ 62 -> ooo s !! (lastRecv s + 1) = None ->
  reorder_locked s (ref_of i) rc = (s', Ok l) ->
  (forall k, is_Some (ooo s !! k) \/ k = legRecv (leg_at s i) + 1 -> k <= lastRecv s' \/ is_Some (ooo s' !! k)) /\
  lastRecv s <= lastRecv s' /\ ooo s' !! (lastRecv s' + 1) = None.
Proof.
  intros H0 H1 Hr Ht Hrecv Hb Hnx Hre. unfold reorder_locked in Hre.
  destruct (closed s); [done|]. rewrite legOf_ref in Hre by done.
  rewrite !(u64_id (legRecv (leg_at s i) + 1)) in Hre by (word; lia).
  remember (legRecv (leg_at s i) + 1) as sq eqn:Hsq. set (s1 := set_leg s i _) in Hre.
  assert (lastRecv s1 = lastRecv s) as Hl1 by (by destruct i). assert (ooo s1 = ooo s) as Ho1 by (by destruct i).
  rewrite Hl1, Ho1 in Hre. rewrite (u64_id (lastRecv s + 1)) in Hre by (word; lia).
  destruct (Z.leb_spec sq (lastRecv s)); [done|]. destruct (Z.eqb_spec sq (lastRecv s + 1)) as [Eseq|Eseq].
  - destruct (drain_total (S (size (ooo s))) (with_recv s1 sq (ooo s))) as [[s2 more] Ed]; [simpl; lia|].
    rewrite Ed in Hre. injection Hre as <- <-.
    pose proof Ed as Ed'. apply (drain_spec all) in Ed' as (Hs2 & _); simpl; [|done|word; lia|lia].
    apply (drain_cover all) in Ed as [Hc Hn]; simpl; [|done|word; lia|lia].
    assert (sq <= lastRecv s2) as Hge by (rewrite Hs2; simpl; pose proof (len_nonneg more); lia).
    split_and!; [|lia|done]. intros k [Hk | ->]; [by apply Hc | by left].
  - repeat (case_if; [done|]). injection Hre as <- <-. simpl. split_and!; [|lia|].
    + intros k Hk. right. rewrite lookup_insert. case_decide; [done|]. destruct Hk as [? | ->]; done.
    + by rewrite lookup_insert_ne by lia.
Qed.

Lemma complete_choose y v rc : complete y -> complete (act y (ActChoose v rc)).
Proof.
  intros Hco. unfold act. destruct (failed y); [done|].
  destruct (choose_leg _ _ _) as [[? ?] [i|?]]; [|done]. destruct Hco. constructor; simpl; auto.
Qed.

Lemma complete_send y k :
  inv y -> complete y -> failed y = None -> len (sent y) < 2 ^ 32 - 1 -> complete (act y (ActTransmit k)).
Proof.
  intros Hi Hcomp Hf Hb. pose proof Hcomp as [Hco Hnx].
  pose proof Hi as [[H0 H1] [Hl Hc] Hcount Hcur Hlegs _ Hw _ _ _ _ Hwait].
  unfold act. rewrite Hf. destruct (waiting y !! k) as [[i rc]|] eqn:Ek; [|done].
  pose proof (Forall_lookup_1 _ _ _ _ Hwait Ek) as Hm. simpl in Hm.
  destruct (transmit _ (ssend y) i rc _ _) as [[x' s'] e] eqn:Es.
  apply transmit_spec in Es; auto; [|rewrite Hcount; pose proof (len_nonneg (sent y)); lia].
  destruct e as [e|]; [destruct Es as [-> ->]; constructor; simpl; auto|].
  destruct Es as [ (l & Hon & Hwire) _ _ _ _ _ ]. constructor; simpl; [|done].
  intros n Hk. rewrite len_app in Hk. change (len [rc]) with 1 in Hk.
  assert (forall j, wire_nums (legRecv (leg_at (srecv y) j)) (wire_of x' j) =
    wire_nums (legRecv (leg_at (srecv y) j)) (wire_of (chan y) j) ++
    (if decide (j = i) then [len (sent y) + 1] else [])) as Hnums.
  { intros j. rewrite Hwire. case_decide; [|by rewrite app_nil_r]. subst j. destruct (Hw i) as [_ Hok].
    rewrite (wire_nums_app _ _ _ _ _ Hok). f_equal.
    destruct Hon as [[He ->]|(gap & sw & Hgap & He & Hsw & ->)].
    - by rewrite wire_nums_cell, He, Hcount by done.
    - by rewrite (wire_nums_switch gap), He, wire_nums_cell, Hcount by done. }
  destruct (decide (n = len (sent y) + 1)) as [->|].
  - right; right. exists i. rewrite Hnums, decide_True by done. set_solver.
  - destruct (Hco n) as [|[|(j & Hj)]]; [lia|by left|by right; left|]. right; right. exists j.
    rewrite Hnums. set_solver.
Qed.

Lemma complete_with_hand y i l : complete y -> complete (with_hand y i l).
Proof. intros []. destruct i; constructor; auto. Qed.

Lemma complete_recv y i :
  inv y -> complete y -> failed y = None -> len (sent y) < 2 ^ 32 -> linked (srecv y) = true -> closed (srecv y) = false ->
  failed (act y (ActRecv i)) = None -> complete (act y (ActRecv i)).
Proof.
  intros Hi Hcomp Hf Hb Hlk Hcl. pose proof Hcomp as [Hco Hnx].
  pose proof Hi as [_ _ Hcount _ Hlegs [H0 H1] Hw Hooo _ Hrecv _].
  unfold act. rewrite Hf. destruct (hand_of y i); [|done].
  destruct (wire_of (chan y) i) as [|rc rest] eqn:Ew; [done|].
  destruct (Hw i) as [Hr Hok]. rewrite Ew in Hok.
  assert (forall j, wire_of (if i then mkWires (wv (chan y)) (wire0 (chan y)) rest
    else mkWires (wv (chan y)) rest (wire1 (chan y))) j = if decide (j = i) then rest else wire_of (chan y) j) as Hwire.
  { intros j. by destruct i, j. }
  set (x := if i then _ else _) in *. clearbody x. set (hop := _ - 1).
  pose proof (wire_ok_le _ _ _ _ Hok) as Hle. specialize (Hlegs i) as Hli.
  destruct (onRelayCell_locked _ _ _ _ _ _) as [[[[rw s'] l] h] e] eqn:Eo. cbv zeta.
  intros He. apply complete_with_hand.
  assert (e = None) as -> by (revert He; by destruct i). clear He.
  inversion Hok as [|r rel rc' w e' Hrel Hsw Hrest|r rc' w e' Hr0 Hlook Hm Hrest]; subst.
  - destruct (switch_decodes rel rc) as [Hcmd _]; [word; lia|done|].
    unfold onRelayCell_locked in Eo. rewrite Hcmd in Eo. simpl (_ =? _) in Eo. cbv iota in Eo.
    destruct (requireExitHop _ _ _) eqn:Eh; [done|].
    destruct (handleSwitch (srecv y) (ref_of i) rc) as [s1 e1] eqn:Esw. simplify_eq.
    apply (handleSwitch_spec _ _ _ rel) in Esw; auto; [|word; lia]. subst s'. constructor; simpl; [|by destruct i].
    intros k Hk. destruct (Hco k Hk) as [Hz|[Hz|(j & Hj)]]; [left; by destruct i|right; left; by destruct i|].
    right; right. exists j. rewrite Hwire, leg_at_set. case_decide; [|done]. subst j. rewrite Ew in Hj.
    by rewrite (wire_nums_switch rel) in Hj by done.
  - rewrite multiplex_dispatch, Hlk, Hcl in Eo by done. cbn [andb negb] in Eo.
    destruct (requireExitHop _ _ _) eqn:Eh; [done|].
    destruct (reorder_locked _ _ _) as [s1 [d|er]] eqn:Er; simplify_eq.
    pose proof (lookup_lt_Some _ _ _ Hlook) as Hlt.
    pose proof Er as Er'. apply (reorder_cover (sent y)) in Er' as (Hc & Hmono & Hn); auto;
      [|unfold len; lia|word; lia].
    apply (reorder_spec (sent y)) in Er as (_ & _ & Hlegs' & _); auto; [|apply Hi|word; lia].
    constructor; simpl; [|done].
    intros k Hk. destruct (Hco k Hk) as [Hz|[Hs|(j & Hj)]]; [left; lia|destruct (Hc k); auto|].
    destruct (decide (j = i)) as [->|Hji].
    + rewrite Ew, wire_nums_cell in Hj by done. apply elem_of_cons in Hj as [->|Hj]; [destruct (Hc _ (or_intror eq_refl)); auto|].
      right; right. exists i. by rewrite Hwire, Hlegs', !decide_True by done.
    + right; right. exists j. by rewrite Hwire, Hlegs', !decide_False by done.
Qed.

(** Enqueueing touches neither the counts nor what was released. *)
Lemma act_enqueue_fields y i :
  let y' := act_enqueue y i in
  ssend y' = ssend y /\ chan y' = chan y /\ srecv y' = srecv y /\ sent y' = sent y /\ released y' = released y /\
  waiting y' = waiting y.
Proof.
  unfold act_enqueue. destruct (hand_of y i); [done|]. by destruct (enqueue _ _ _) as [rw []], i.
Qed.

Lemma act_enqueue_inv y i : inv y -> inv (act_enqueue y i).
Proof.
  destruct (act_enqueue_fields y i) as (E1 & E2 & E3 & E4 & E5 & E6). intros [].
  constructor; rewrite ?E1, ?E2, ?E3, ?E4, ?E5, ?E6; auto.
Qed.

Lemma act_enqueue_complete y i : complete y -> complete (act_enqueue y i).
Proof.
  destruct (act_enqueue_fields y i) as (E1 & E2 & E3 & E4 & E5 & E6). intros [].
  constructor; rewrite ?E1, ?E2, ?E3, ?E4; auto.
Qed.

(** After an error nothing more is released. *)
Lemma run_failed l y e :
  failed y = Some e ->
  released (foldl act y l) = released y /\ sent (foldl act y l) = sent y /\ is_Some (failed (foldl act y l)).
Proof.
  revert y e. induction l as [|a l IH]; intros y e Hf; cbn [foldl]; [by rewrite Hf|].
  assert (released (act y a) = released y /\ sent (act y a) = sent y /\ exists e', failed (act y a) = Some e')
    as (H1 & H2 & e' & H3).
  { unfold act. rewrite Hf. destruct a; try (by eauto). destruct (act_enqueue_fields y i) as (_ & _ & _ & E4 & E5 & _).
    split_and!; [done|done|]. unfold act_enqueue. destruct (hand_of y i); [by eauto|].
    destruct (enqueue _ _ _) as [rw []], i; simpl; eauto. }
  destruct (IH _ _ H3) as (-> & -> & ?). done.
Qed.

Lemma act_sent_le y a : len (sent (act y a)) <= len (sent y) + 1.
Proof.
  unfold act. destruct (failed y).
  { destruct a; try lia. destruct (act_enqueue_fields y i) as (_ & _ & _ & -> & _). lia. }
  destruct a as [v rc|k|i|i].
  - destruct (choose_leg _ _ _) as [[? ?] []]; simpl; lia.
  - destruct (waiting y !! k) as [[i rc]|]; [|lia].
    destruct (transmit _ _ _ _ _ _) as [[x s] []]; simpl; rewrite ?len_app; unfold len; simpl; lia.
  - destruct (hand_of y i), (wire_of (chan y) i); try lia.
    destruct (onRelayCell_locked _ _ _ _ _ _) as [[[[? ?] ?] ?] ?]. destruct i; simpl; lia.
  - destruct (act_enqueue_fields y i) as (_ & _ & _ & -> & _). lia.
Qed.

(** One step from a state in which nothing has failed. *)
Lemma act_step_inv y a :
  inv y -> complete y -> failed y = None -> linked (srecv y) = true -> closed (srecv y) = false ->
  act_wf a -> len (sent y) < 2 ^ 32 - 1 ->
  let y' := act y a in
  safe y' /\ (failed y' = None -> inv y' /\ complete y' /\ linked (srecv y') = true /\ closed (srecv y') = false).
Proof.
  intros Hi Hco Hf Hlk Hcl Ha Hb.
  assert (forall z, inv z -> safe z) as Hsafe.
  { intros z Hz. unfold safe. rewrite (iv_got z Hz). apply prefix_take. }
  destruct a as [v rc|k|i|i]; cbv zeta.
  - pose proof (act_choose_inv y v rc Hi Ha) as Hi'. pose proof (complete_choose y v rc Hco) as Hco'.
    split; [by apply Hsafe|]. intros _. split_and!; try done; unfold act; rewrite Hf;
      by destruct (choose_leg _ _ _) as [[? ?] []].
  - pose proof (act_send_inv y k Hi Hf ltac:(lia)) as Hi'.
    pose proof (complete_send y k Hi Hco Hf ltac:(lia)) as Hco'.
    split; [by apply Hsafe|]. intros _. split_and!; try done; unfold act; rewrite Hf;
      destruct (waiting y !! k) as [[i rc]|]; try done; by destruct (transmit _ _ _ _ _ _) as [[x s] []].
  - destruct (act_recv_inv y i Hi Hf ltac:(lia) Hlk Hcl) as [Hs Hn]. cbv zeta in Hs, Hn. split; [done|].
    intros Ef. destruct (Hn Ef) as (Hi' & Hlk' & Hcl'). split_and!; try done. by apply complete_recv; auto; lia.
  - assert (act y (ActEnqueue i) = act_enqueue y i) as -> by (unfold act; by rewrite Hf).
    pose proof (act_enqueue_inv y i Hi) as Hi'. split; [by apply Hsafe|]. intros _.
    destruct (act_enqueue_fields y i) as (_ & _ & Er & _).
    split_and!; [done|by apply act_enqueue_complete|by rewrite Er|by rewrite Er].
Qed.

Lemma conflux_run_inv l y :
  inv y -> complete y -> failed y = None -> linked (srecv y) = true -> closed (srecv y) = false ->
  Forall act_wf l -> len (sent y) + len l < 2 ^ 32 - 1 ->
  let y' := foldl act y l in
  safe y' /\ (failed y' = None -> inv y' /\ complete y').
Proof.
  revert y. induction l as [|a l IH]; intros y Hi Hco Hf Hlk Hcl Hwf Hb; cbn [foldl].
  { split; [|done]. unfold safe. rewrite (iv_got y Hi). apply prefix_take. }
  apply Forall_cons in Hwf as [Ha Hwf].
  replace (len (a :: l)) with (len l + 1) in Hb by (unfold len; simpl; lia). pose proof (len_nonneg l).
  destruct (act_step_inv y a Hi Hco Hf Hlk Hcl Ha ltac:(lia)) as [Hs Hn].
  pose proof (act_sent_le y a) as Hle.
  destruct (failed (act y a)) as [e|] eqn:Ef.
  - destruct (run_failed l _ e Ef) as (E1 & E2 & [e' E3]). cbv zeta. unfold safe. rewrite E1, E2, E3. by split.
  - destruct (Hn eq_refl) as (Hi' & Hco' & Hlk' & Hcl'). apply IH; auto. lia.
Qed.

(** ** From the release to the queue

    Every cell released is in the owner's queue or still in the hands of a
    reader, as long as nothing fails; no cell gets there twice in any case. *)
Definition handed (y : sys) : list RelayCell.RelayCell := got y ++ hand0 y ++ hand1 y.

Lemma act_handed y a :
  handed y ⊆+ released y -> (failed y = None -> handed y ≡ₚ released y) ->
  handed (act y a) ⊆+ released (act y a) /\ (failed (act y a) = None -> handed (act y a) ≡ₚ released (act y a)).
Proof.
  intros Hs Hp.
  assert (forall i, handed (act_enqueue y i) ⊆+ released (act_enqueue y i) /\
    (failed (act_enqueue y i) = None -> handed (act_enqueue y i) ≡ₚ released (act_enqueue y i))) as Henq.
  { intros i. unfold act_enqueue. destruct (hand_of y i) as [|rc rest] eqn:Eh; [done|].
    destruct (enqueue _ _ _) as [rw []].
    - assert (handed y ≡ₚ got y ++ [rc] ++ rest ++ hand_of y (negb i)) as Hk.
      { unfold handed. destruct i; simpl in *; rewrite Eh; solve_Permutation. }
      destruct i; unfold handed in *; simpl in *; rewrite Hk in Hs, Hp; (split; [|intros Hf; rewrite <- (Hp Hf)]).
      all: first [ rewrite <- Hs; apply Permutation_submseteq | idtac ]; solve_Permutation.
    - split; [|by destruct i]. etransitivity; [|transitivity (handed y); [reflexivity|]].
      2:{ destruct i; exact Hs. }
      unfold handed. destruct i; simpl.
      + rewrite app_nil_r. apply submseteq_skips_l, submseteq_inserts_r. done.
      + apply submseteq_skips_l, submseteq_inserts_l. done. }
  unfold act. destruct (failed y) eqn:Ef.
  { destruct a; try (split; [done|]; by rewrite Ef). apply Henq. }
  destruct a as [v rc|k|i|i].
  - destruct (choose_leg _ _ _) as [[? ?] []]; simpl; auto.
  - destruct (waiting y !! k) as [[i rc]|]; [|auto]. destruct (transmit _ _ _ _ _ _) as [[x s] []]; simpl; auto.
  - destruct (hand_of y i) eqn:Eh; [|auto]. destruct (wire_of (chan y) i); [auto|].
    destruct (onRelayCell_locked _ _ _ _ _ _) as [[[[rw s'] d] h] e].
    specialize (Hp eq_refl).
    assert (forall z, handed (with_hand z i d) ≡ₚ got z ++ d ++ hand_of z (negb i)) as Hk.
    { intros z. unfold handed. destruct i; simpl; solve_Permutation. }
    assert (handed y ≡ₚ got y ++ hand_of y (negb i)) as Hk'.
    { unfold handed. destruct i; simpl in *; rewrite Eh; [by rewrite app_nil_r | done]. }
    assert (forall z, released (with_hand z i d) = released z) as Hr by (by destruct i).
    rewrite Hr, Hk. cbn [got released hand_of]. rewrite Hk' in Hp.
    assert (got y ++ d ++ (if negb i then hand1 y else hand0 y) ≡ₚ released y ++ d) as Hfin.
    { rewrite <- Hp. unfold hand_of. solve_Permutation. }
    destruct i; simpl in *; (split; [by apply Permutation_submseteq | done]).
  - apply Henq.
Qed.

Lemma run_handed l : forall y,
  handed y ⊆+ released y -> (failed y = None -> handed y ≡ₚ released y) ->
  let y' := foldl act y l in
  handed y' ⊆+ released y' /\ (failed y' = None -> handed y' ≡ₚ released y').
Proof.
  induction l as [|a l IH]; intros y Hs Hp; cbn [foldl]; [done|].
  destruct (act_handed y a Hs Hp) as [Hs' Hp']. by apply IH.
Qed.

(** In a run of this kind no reader releases cells while the other still has
    some to enqueue. *)
Definition exclusive1 (y : sys) (a : action) : bool :=
  match a with
  | ActRecv i => bool_decide (hand_of y (negb i) = []) || bool_decide (released (act y a) = released y)
  | _ => true
  end.

Fixpoint exclusive (y : sys) (l : list action) : bool :=
  match l with
  | [] => true
  | a :: l => exclusive1 y a && exclusive (act y a) l
  end.

(** Then the queue has the order of the release. *)
Definition ordered (y : sys) : Prop :=
  (hand0 y = [] \/ hand1 y = []) /\ handed y `prefix_of` released y /\
  (failed y = None -> handed y = released y).

Lemma act_ordered y a : exclusive1 y a = true -> ordered y -> ordered (act y a).
Proof.
  intros Hx Ho. pose proof Ho as (H01 & Hpre & Heq).
  assert (forall i, ordered (act_enqueue y i)) as Henq.
  { intros i. unfold act_enqueue. destruct (hand_of y i) as [|rc rest] eqn:Eh; [done|].
    assert (hand_of y (negb i) = []) as En by (destruct i; simpl in *; destruct H01; congruence).
    unfold ordered, handed in *.
    destruct (enqueue _ _ _) as [rw []], i; simpl in *; rewrite Eh, En in *; simpl in *;
      rewrite ?app_nil_r, <- ?app_assoc in *; simpl in *; (split_and!; [by auto| |done || by auto]); try done;
      (etransitivity; [|exact Hpre]); apply prefix_app_r; done. }
  unfold act. destruct (failed y) eqn:Ef.
  { destruct a; try exact Ho. apply Henq. }
  assert (forall a b c d e f, ordered (mkSys a b c d e (released y) (got y) (hand0 y) (hand1 y) None f)) as Hfr
    by (intros; split_and!; auto).
  destruct a as [v rc|k|i|i].
  - destruct (choose_leg _ _ _) as [[? ?] []]; auto.
  - destruct (waiting y !! k) as [[i rc]|]; [|done]. destruct (transmit _ _ _ _ _ _) as [[x s] []]; auto.
  - destruct (hand_of y i) eqn:Eh; [|done]. destruct (wire_of (chan y) i) eqn:Ew; [done|].
    cbn [exclusive1] in Hx. unfold act in Hx. rewrite Ef, Eh, Ew in Hx.
    destruct (onRelayCell_locked _ _ _ _ _ _) as [[[[rw s'] d] h] e].
    specialize (Heq eq_refl). unfold ordered, handed in *.
    assert (d = [] \/ hand_of y (negb i) = []) as Hd.
    { apply orb_true_iff in Hx as [Hx|Hx]; apply bool_decide_eq_true in Hx; [by right|left].
      destruct i; simpl in Hx; apply (f_equal length) in Hx; rewrite length_app in Hx; apply nil_length_inv; lia. }
    destruct i; simpl in *; rewrite Eh in *; simpl in *; rewrite ?app_nil_r in *;
      destruct Hd as [-> | Hd]; rewrite ?Hd, ?app_nil_r, ?app_nil_l in *; rewrite ?Heq; split_and!; auto.
  - apply Henq.
Qed.

Lemma run_ordered l : forall y, exclusive y l = true -> ordered y -> ordered (foldl act y l).
Proof.
  induction l as [|a l IH]; intros y Hx Ho; cbn [foldl]; [done|]. cbn [exclusive] in Hx.
  apply andb_true_iff in Hx as [Ha Hx]. apply IH; [done | by apply act_ordered].
Qed.

(** With both legs drained everything sent has been released. *)
Lemma drained_complete y :
  inv y -> complete y -> wire0 (chan y) = [] -> wire1 (chan y) = [] -> released y = sent y.
Proof.
  intros Hi [Hco Hnx] H0 H1. rewrite (iv_got y Hi). pose proof (iv_recv y Hi) as Hr.
  assert (lastRecv (srecv y) = len (sent y)) as ->; [|apply take_ge; unfold len; lia].
  destruct (decide (lastRecv (srecv y) = len (sent y))) as [|Hne]; [done|]. exfalso.
  destruct (Hco (lastRecv (srecv y) + 1)) as [Hz|[[rc Hs]|([] & Hj)]]; [lia|lia|congruence|..]; simpl in Hj.
  - rewrite H1 in Hj. by apply elem_of_nil in Hj.
  - rewrite H0 in Hj. by apply elem_of_nil in Hj.
Qed.

End Protocol.

(** ** The handshake *)

Section Handshake.
Context `{Legs X}.

(** Cells that arrive on the legs, as [DeliverRelayCell] hands them to the set: an
    error tears the set down. *)
Definition incoming1 (w : X * ConfluxSet) (m : Z * nat * RelayCell.RelayCell * Z) : X * ConfluxSet :=
  let '(x, s) := w in
  let '(now, from, rc, hop) := m in
  match onRelayCell (fun w => w) now x s from rc hop with
  | (x, s, _, _, None) => (x, s)
  | (x, s, _, _, Some _) => failAndClose x s
  end.

(** Before the set is linked no cell is passed to the owner. *)
Lemma onRelayCell_unlinked now x s from rc hop :
  linked s = false ->
  onRelayCell (fun w => w) now x s from rc hop = onRelayCell_locked now x s from rc hop.
Proof.
  intros Hl. unfold onRelayCell.
  destruct (onRelayCell_locked now x s from rc hop) as [[[[x' s'] l] h] e] eqn:Eo.
  assert (l = []) as ->; [|by destruct e].
  unfold onRelayCell_locked in Eo. rewrite Hl in Eo. cbn [andb] in Eo.
  repeat (case_match; simplify_eq; try done).
Qed.

Definition incoming (l : list (Z * nat * RelayCell.RelayCell * Z)) (w : X * ConfluxSet) : X * ConfluxSet :=
  foldl incoming1 w l.

(** A LINKED cell that carries the nonce. *)
Definition linked_reply (n : bytes) (rc : RelayCell.RelayCell) : Prop :=
  RelayCell.Command rc = RelayCell.RelayConfluxLinked /\
  exists link, Conflux.DecodeConfluxLink (RelayCell.Data rc) = Ok link /\ Conflux.Nonce link = n.

Definition replied (n : bytes) (c : nat) (l : list (Z * nat * RelayCell.RelayCell * Z)) : Prop :=
  exists now rc hop, (now, c, rc, hop) ∈ l /\ linked_reply n rc.

Record link_inv (n : bytes) (a b : nat) (hist : list (Z * nat * RelayCell.RelayCell * Z)) (s : ConfluxSet) : Prop := {
  li_circ : circ (leg0 s) = a /\ circ (leg1 s) = b;
  li_nonce : nonce s = n;
  li_linked : linked s = false;
  li_owner : owner s = a;
  li_counts : lastSent s = 0 /\ lastRecv s = 0 /\ ooo s = ∅;
  li_legs : forall i, legSent (leg_at s i) = 0 /\ legRecv (leg_at s i) = 0;
  li_ch : forall i, linkedCh (leg_at s i) = true -> gotLinked (leg_at s i) = true /\ ackSent (leg_at s i) = true;
  li_got : forall i, gotLinked (leg_at s i) = true -> replied n (circ (leg_at s i)) hist;
}.

Lemma replied_app n c l l' : replied n c l -> replied n c (l ++ l').
Proof. intros (now & rc & hop & Hin & Hr). exists now, rc, hop. set_solver. Qed.

(** Replacing a leg by one with the same circuit and counts. *)
Lemma link_inv_leg n a b hist hist' s i l :
  link_inv n a b hist s -> (forall c, replied n c hist -> replied n c hist') ->
  circ l = circ (leg_at s i) -> legSent l = legSent (leg_at s i) -> legRecv l = legRecv (leg_at s i) ->
  (linkedCh l = true -> gotLinked l = true /\ ackSent l = true) ->
  (gotLinked l = true -> replied n (circ l) hist') ->
  link_inv n a b hist' (set_leg s i l).
Proof.
  intros [[Ha Hb] Hn Hl Ho Hc Hz Hch Hg] Hh E1 E2 E3 H1 H2. pose proof (Hz i) as Hzi.
  constructor; try (by destruct i); try (destruct i; simpl in *; split; congruence).
  - intros j. rewrite leg_at_set. case_decide; [|by apply Hz]. subst j. rewrite E2, E3. done.
  - intros j. rewrite leg_at_set. case_decide; [done | apply Hch].
  - intros j. rewrite leg_at_set. case_decide; [done|]. intros Hgj. by apply Hh, Hg.
Qed.

Lemma link_inv_mono n a b hist hist' s :
  link_inv n a b hist s -> (forall c, replied n c hist -> replied n c hist') -> link_inv n a b hist' s.
Proof. intros [] Hh. constructor; auto. Qed.

Lemma link_inv_status n a b hist s cl : link_inv n a b hist s -> link_inv n a b hist (with_status s false cl).
Proof. intros []. constructor; simpl; auto. Qed.

Lemma handleLinked_inv n a b hist now x s from rc hop x' s' e :
  RelayCell.Command rc = RelayCell.RelayConfluxLinked -> link_inv n a b hist s ->
  handleLinked now x s from rc = (x', s', e) -> link_inv n a b (hist ++ [(now, from, rc, hop)]) s'.
Proof.
  intros Hcmd Hi Hh. unfold handleLinked in Hh.
  assert (forall c, replied n c hist -> replied n c (hist ++ [(now, from, rc, hop)])) as Hmono
    by (intros; by apply replied_app).
  pose proof (link_inv_mono _ _ _ _ _ _ Hi Hmono) as Hi'.
  destruct (Conflux.DecodeConfluxLink (RelayCell.Data rc)) as [link|?] eqn:Ed; [|by simplify_eq].
  destruct (Conversion.ConstantTimeCompare (Conflux.Nonce link) (nonce s)) eqn:En; cbn [negb] in Hh; [|by simplify_eq].
  apply Conversion.ConstantTimeCompare_spec in En. rewrite (li_nonce _ _ _ _ _ Hi) in En.
  destruct (closed s); [by simplify_eq|].
  destruct (legOf s from) as [i|] eqn:Ei; [|by simplify_eq].
  destruct (gotLinked (leg_at s i)) eqn:Eg; [by simplify_eq|].
  assert (circ (leg_at s i) = from) as Hfrom.
  { unfold legOf in Ei. repeat (case_decide; simplify_eq; try done). }
  assert (replied n from (hist ++ [(now, from, rc, hop)])) as Hrep.
  { exists now, rc, hop. split; [set_solver|]. split; [done|]. by exists link. }
  set (r := match linkSent _ with Some t => _ | None => _ end) in Hh.
  assert (link_inv n a b (hist ++ [(now, from, rc, hop)]) (set_leg s i (leg_linked (leg_at s i) r))) as Hi1.
  { apply (link_inv_leg _ _ _ hist); try done.
    - simpl. intros Hlc. destruct (li_ch _ _ _ _ _ Hi i Hlc). congruence.
    - simpl. by rewrite Hfrom. }
  destruct (RelayCell.NewRelayCell _ _ _) as [ack|?]; [|by simplify_eq].
  destruct (sendLocal x from ack) as [x1 []]; simplify_eq; [|done].
  eapply link_inv_leg; [exact Hi1|done|done|done|done|..]; rewrite leg_at_set, decide_True by done; simpl; done.
Qed.

Lemma incoming1_inv n a b hist x s m :
  link_inv n a b hist s -> link_inv n a b (hist ++ [m]) (incoming1 (x, s) m).2.
Proof.
  intros Hi. destruct m as [[[now from] rc] hop]. simpl.
  assert (link_inv n a b (hist ++ [(now, from, rc, hop)]) s) as Hi'
    by (eapply link_inv_mono; [done | intros; by apply replied_app]).
  rewrite onRelayCell_unlinked by apply Hi.
  destruct (onRelayCell_locked now x s from rc hop) as [[[[x' s'] l] h] e] eqn:Eo.
  assert (link_inv n a b (hist ++ [(now, from, rc, hop)]) s') as Hs'.
  { unfold onRelayCell_locked in Eo. rewrite (li_linked _ _ _ _ _ Hi) in Eo. cbn [andb] in Eo.
    destruct (Z.eqb_spec (RelayCell.Command rc) RelayCell.RelayConfluxLinked) as [Ec|Ec].
    { destruct (requireExitHop _ _ _); [by simplify_eq|].
      destruct (handleLinked now x s from rc) as [[x1 s1] e1] eqn:Eh. simplify_eq. by eapply handleLinked_inv. }
    destruct (RelayCell.Command rc =? RelayCell.RelayConfluxSwitch).
    { destruct (requireExitHop _ _ _); [by simplify_eq|].
      destruct (handleSwitch s from rc) as [s1 e1] eqn:Eh. simplify_eq.
      unfold handleSwitch in Eh. rewrite (li_linked _ _ _ _ _ Hi), orb_true_r in Eh.
      destruct (Conflux.DecodeConfluxSwitch _); [|by simplify_eq]. case_if; by simplify_eq. }
    destruct (_ || _); by simplify_eq. }
  destruct e; [|done]. by apply link_inv_status.
Qed.

Lemma incoming_inv n a b l : forall hist x s,
  link_inv n a b hist s -> link_inv n a b (hist ++ l) (incoming l (x, s)).2.
Proof.
  induction l as [|m l IH]; intros hist x s Hi; unfold incoming; cbn [foldl]; [by rewrite app_nil_r|].
  pose proof (incoming1_inv n a b hist x s m Hi) as H1. destruct (incoming1 (x, s) m) as [x1 s1].
  replace (hist ++ m :: l) with ((hist ++ [m]) ++ l) by (by rewrite <- app_assoc). by apply IH.
Qed.

Lemma sendLinks_inv n a b now x s x' s' e :
  link_inv n a b [] s -> sendLinks now x s = (x', s', e) -> link_inv n a b [] s'.
Proof.
  intros Hi Hs. unfold sendLinks in Hs.
  assert (forall s i, link_inv n a b [] s -> link_inv n a b [] (set_leg s i (leg_linking (leg_at s i) (Some now)))) as Hset.
  { intros s0 i H0. apply (link_inv_leg _ _ _ []); try done; simpl; apply H0. }
  repeat (case_match; simplify_eq; try done); first [ exact (Hset _ true (Hset _ false Hi)) | exact (Hset _ false Hi) ].
Qed.

(** A leg that has been linked and acknowledged stays so. *)
Definition acked (s : ConfluxSet) (i : bool) : Prop :=
  gotLinked (leg_at s i) = true /\ ackSent (leg_at s i) = true.

Lemma acked_set_leg s i j l :
  acked s j -> (j = i -> acked s i -> gotLinked l = true /\ ackSent l = true) -> acked (set_leg s i l) j.
Proof. unfold acked. rewrite leg_at_set. intros Ha Hl. case_decide; [subst; by apply Hl | done]. Qed.

Lemma onRelayCell_acked now x s from rc hop x' s' l h e j :
  linked s = false -> onRelayCell_locked now x s from rc hop = (x', s', l, h, e) -> acked s j -> acked s' j.
Proof.
  intros Hl Ho Ha. unfold onRelayCell_locked in Ho. rewrite Hl in Ho. cbn [andb] in Ho.
  destruct (_ =? RelayCell.RelayConfluxLinked).
  { destruct (requireExitHop _ _ _); [by simplify_eq|].
    destruct (handleLinked now x s from rc) as [[x1 s1] e1] eqn:Eh. simplify_eq. unfold handleLinked in Eh.
    repeat (case_match; simplify_eq; try done); repeat apply acked_set_leg; auto;
      intros _ []; rewrite ?leg_at_set, ?decide_True in * by done; done. }
  destruct (_ =? RelayCell.RelayConfluxSwitch).
  { destruct (requireExitHop _ _ _); [by simplify_eq|].
    destruct (handleSwitch s from rc) as [s1 e1] eqn:Eh. simplify_eq.
    unfold handleSwitch in Eh. rewrite Hl, orb_true_r in Eh. repeat (case_match; simplify_eq; try done). }
  destruct (_ || _); by simplify_eq.
Qed.

Lemma incoming_acked n a b j l : forall hist x s,
  link_inv n a b hist s -> acked s j -> acked (incoming l (x, s)).2 j.
Proof.
  induction l as [|m l IH]; intros hist x s Hi Ha; unfold incoming; cbn [foldl]; [done|].
  pose proof (incoming1_inv n a b hist x s m Hi) as Hi1.
  assert (acked (incoming1 (x, s) m).2 j) as Ha1.
  { destruct m as [[[now from] rc] hop]. simpl.
    rewrite onRelayCell_unlinked by apply Hi.
    destruct (onRelayCell_locked now x s from rc hop) as [[[[x' s'] d] h] e] eqn:Eo.
    apply onRelayCell_acked with (j := j) in Eo; [|apply Hi|done]. by destruct e. }
  destruct (incoming1 (x, s) m) as [x1 s1]. by apply (IH (hist ++ [m])).
Qed.

(** A leg the wait was ended by has been linked and acknowledged. *)
Lemma wait_leg_inv n a b hist pick d x s i s' :
  link_inv n a b hist s -> wait_leg pick d x s i = (s', Some None) ->
  link_inv n a b hist s' /\ acked s' i /\ (acked s (negb i) -> acked s' (negb i)).
Proof.
  intros Hi. unfold wait_leg. destruct (select _ _) as [[]|] eqn:Es; try done. intros [= <-].
  apply select_elem in Es.
  assert (linkedCh (leg_at s i) = true) as Hc.
  { destruct (linkedCh (leg_at s i)); [done|]. exfalso.
    destruct d, (lv_destroyed _); simpl in Es; set_solver. }
  pose proof (li_ch _ _ _ _ _ Hi i Hc) as [Hg Ha]. unfold acked. split_and!; try (by destruct i).
  apply (link_inv_leg _ _ _ hist); try done. simpl. by apply Hi.
Qed.

Lemma waitLinkedBoth_inv n a b l0 l1 p0 p1 d0 d1 x s x' s' :
  waitLinkedBoth (mkWait (incoming l0) p0 d0) (mkWait (incoming l1) p1 d1) x s = (x', s', Some None) ->
  link_inv n a b [] s -> link_inv n a b (l0 ++ l1) s' /\ acked s' false /\ acked s' true.
Proof.
  intros Hw Hi. unfold waitLinkedBoth in Hw. cbn [during chosen expired] in Hw.
  pose proof (incoming_inv n a b l0 [] x s Hi) as Hi0. destruct (incoming l0 (x, s)) as [x0 s0].
  destruct (wait_leg p0 d0 x0 s0 false) as [s1 [[e|]|]] eqn:E0; try done.
  destruct (wait_leg_inv _ _ _ _ _ _ _ _ _ _ Hi0 E0) as (Hi1 & Ha1 & _).
  pose proof (incoming_inv n a b l1 _ x0 s1 Hi1) as Hi2.
  pose proof (incoming_acked n a b false l1 _ x0 s1 Hi1 Ha1) as Ha2. destruct (incoming l1 (x0, s1)) as [x2 s2].
  destruct (wait_leg p1 d1 x2 s2 true) as [s3 r] eqn:E1. injection Hw as _ <- ->.
  destruct (wait_leg_inv _ _ _ _ _ _ _ _ _ _ Hi2 E1) as (Hi3 & Ha3 & Hk).
  split_and!; [exact Hi3 | by apply Hk | done].
Qed.

End Handshake.

(** ** Properties *)

(** C3: Conflux releases the cells in order.  However concurrent senders choose
    between the two legs, in whatever order they then get the send lock, however
    the legs are delayed against each other and the steps of the two readers
    interleave, the cells the receiver takes out of its tables under its lock
    are, in order and without duplicates, a prefix of the cells sent, and no cell
    reaches the owner's queue twice.  As long as no error occurs, the out-of-order
    table holds at most 256 cells, every released cell is in the owner's queue
    or still to be enqueued by a reader, and when both legs are drained and the
    readers are done the queue has exactly the cells sent, in some order.  The
    queue also has them in the order sent when no reader releases cells while
    the other still has some to enqueue; the lock does not ensure that, as
    [conflux_enqueue_race] shows. *)
Theorem conflux_in_order `{Legs X} s r (x : X) v l :
  fresh s -> fresh r -> Forall act_wf l -> len l < 2 ^ 32 - 1 ->
  let y := foldl act (init s r x v) l in
  released y `prefix_of` sent y /\ got y ⊆+ released y /\
  (failed y = None ->
   Z.of_nat (size (ooo (srecv y))) <= confluxOOOLimit /\
   released y = take (Z.to_nat (lastRecv (srecv y))) (sent y) /\
   got y ++ hand0 y ++ hand1 y ≡ₚ released y /\
   (wire0 (chan y) = [] -> wire1 (chan y) = [] -> hand0 y = [] -> hand1 y = [] -> got y ≡ₚ sent y)) /\
  (exclusive (init s r x v) l = true ->
   got y `prefix_of` sent y /\
   (failed y = None -> wire0 (chan y) = [] -> wire1 (chan y) = [] -> hand0 y = [] -> hand1 y = [] -> got y = sent y)).
Proof.
  intros Hs Hr Hwf Hl y. pose proof (fresh_inv s r x v Hs Hr) as Hi.
  assert (complete (init s r x v)) as Hco.
  { constructor; simpl; [intros k; unfold len; simpl; lia|].
    destruct Hr as (_ & _ & _ & _ & _ & _ & _ & _ & _ & _ & -> & _). done. }
  destruct Hr as (_ & _ & Hlk & Hcl & _).
  destruct (conflux_run_inv l (init s r x v) Hi Hco eq_refl Hlk Hcl Hwf) as [Hsafe Hn];
    [unfold len at 1; simpl; lia|]. fold y in Hsafe, Hn.
  destruct (run_handed l (init s r x v)) as [Hsub Hperm]; [done|done|]. fold y in Hsub, Hperm. unfold handed in *.
  split_and!; [done|etransitivity; [by apply submseteq_inserts_r|exact Hsub]|..].
  - intros Hf. destruct (Hn Hf) as [Hi' Hco']. specialize (Hperm Hf).
    split_and!; [apply Hi' | apply Hi' | done |]. intros W0 W1 H0 H1. rewrite H0, H1, !app_nil_r in Hperm.
    by rewrite Hperm, (drained_complete y Hi' Hco' W0 W1).
  - intros Hx. destruct (run_ordered l _ Hx) as (_ & Hpre & Heq); [by split_and!; [left|..]|].
    fold y in Hpre, Heq. unfold handed in *. split.
    + etransitivity; [|exact Hsafe]. etransitivity; [by apply prefix_app_r|exact Hpre].
    + intros Hf W0 W1 H0 H1. destruct (Hn Hf) as [Hi' Hco']. specialize (Heq Hf).
      rewrite H0, H1, !app_nil_r in Heq. by rewrite Heq, (drained_complete y Hi' Hco' W0 W1).
Qed.

(** Both circuits open with room, three hops; the leg [c] looks faster. *)
Definition sample_view (c : nat) (d : nat) : leg_view :=
  mkView FlowControl.StateOpen true (if decide (d = c) then 10 else 20) 0 3 498 true false.

Definition sample_set : ConfluxSet := finish_link (new_set (zeros 32) 0 1).

Definition sample_data (n : Z) : RelayCell.RelayCell :=
  RelayCell.mkRelayCell RelayCell.RelayData 0 1 [0; 0; 0; 0] 1 [n].

Lemma sample_set_fresh : fresh sample_set.
Proof. unfold fresh. split_and!; try reflexivity. by left. Qed.

Definition sample_init : sys := init sample_set sample_set (mkWires (sample_view 0) [] []) (sample_view 0).

(** Cells 1 and 2 on the first leg, 3 on the second, which is read first. *)
Definition sample_run : list action :=
  [ActChoose (sample_view 0) (sample_data 1); ActTransmit 0; ActChoose (sample_view 0) (sample_data 2);
   ActChoose (sample_view 1) (sample_data 3); ActTransmit 0; ActTransmit 0;
   ActRecv true; ActRecv true; ActRecv false; ActEnqueue false; ActRecv false; ActEnqueue false; ActEnqueue false].

Lemma conflux_in_order_witness :
  let y := foldl act sample_init sample_run in
  failed y = None /\ got y = sent y /\ sent y = [sample_data 1; sample_data 2; sample_data 3].
Proof.
  intros y. assert (failed y = None) as Hf by (vm_compute; reflexivity).
  destruct (conflux_in_order sample_set sample_set (mkWires (sample_view 0) [] []) (sample_view 0) sample_run
    sample_set_fresh sample_set_fresh) as (_ & _ & _ & Hx).
  - repeat constructor.
  - vm_compute. reflexivity.
  - destruct (Hx ltac:(vm_compute; reflexivity)) as [_ Hd].
    split; [exact Hf|]. split; [apply Hd; vm_compute; reflexivity | vm_compute; reflexivity].
Defined.

(** The order can be lost after the release: [reorder] gives up its lock before it
    enqueues.  The first cell is released by the reader of the first leg, the
    second by the reader of the second leg, which is the faster to enqueue: the
    owner reads the two in the wrong order, and no error is reported. *)
Theorem conflux_enqueue_race :
  let y := foldl act sample_init
    [ActChoose (sample_view 0) (sample_data 1); ActTransmit 0; ActChoose (sample_view 1) (sample_data 2); ActTransmit 0;
     ActRecv false; ActRecv true; ActRecv true; ActEnqueue true; ActEnqueue false] in
  failed y = None /\ sent y = [sample_data 1; sample_data 2] /\ got y = [sample_data 2; sample_data 1].
Proof. vm_compute. done. Qed.

(** A legitimate change of leg can be taken for an attack.  The sender moves from
    the first leg to the second and back; the second leg is slow, so that the
    SWITCH back arrives while the first leg is still ahead of it, and the
    receiver rejects it as coming from the current receive leg, on which the
    program closes both circuits, although the peer followed the protocol. *)
Theorem conflux_switch_back_rejected :
  let y := foldl act sample_init
    [ActChoose (sample_view 0) (sample_data 1); ActTransmit 0; ActChoose (sample_view 1) (sample_data 2); ActTransmit 0;
     ActChoose (sample_view 0) (sample_data 3); ActTransmit 0; ActRecv false; ActEnqueue false; ActRecv false] in
  failed y = Some errSwitchFromCurrent /\ got y = [sample_data 1] /\
  sent y = [sample_data 1; sample_data 2; sample_data 3].
Proof. vm_compute. done. Qed.

(** A set is linked only with both peers' consent.  Whatever cells arrive on the
    legs while [LinkConflux] waits, and however its waits are resolved, when it
    returns a set then the two circuits were distinct, open, of at least three
    hops and under congestion control; on each of them a LINKED cell with the
    nonce of this set arrived and was acknowledged; and the set starts counting
    at zero on both sides, on one of its two legs. *)
Theorem conflux_link_consent `{Legs X} random now l0 l1 p0 p1 d0 d1 (x x' : X) a b s :
  LinkConflux random now (mkWait (incoming l0) p0 d0) (mkWait (incoming l1) p1 d1) x (Some a) (Some b) =
    (x', Some (Ok s)) ->
  exists n, random = Some n /\ a <> b /\
    (forall c, c = a \/ c = b ->
       lv_cc (view x c) = true /\ 3 <= lv_length (view x c) /\ lv_state (view x c) = FlowControl.StateOpen /\
       replied n c (l0 ++ l1)) /\
    (forall i, acked s i /\ legSent (leg_at s i) = 0 /\ legRecv (leg_at s i) = 0) /\
    circ (leg0 s) = a /\ circ (leg1 s) = b /\ owner s = a /\ linked s = true /\
    lastSent s = 0 /\ lastRecv s = 0 /\ ooo s = ∅ /\ (current s = Some a \/ current s = Some b).
Proof.
  unfold LinkConflux. intros Hk. destruct (decide (a = b)) as [|Hab]; [done|].
  destruct (lv_cc (view x a)) eqn:Ea, (lv_cc (view x b)) eqn:Eb; try done. cbn [negb orb] in Hk.
  destruct (Z.ltb_spec (lv_length (view x a)) 3), (Z.ltb_spec (lv_length (view x b)) 3); try done. cbn [orb] in Hk.
  case_bool_decide as Sa; [|done]. case_bool_decide as Sb; [|done]. cbn [negb orb] in Hk.
  destruct random as [n|]; [|done].
  destruct (sendLinks _ _ _) as [[x1 s1] [e|]] eqn:El; [by destruct (teardown _ _ _)|].
  assert (link_inv n a b [] s1) as Hi1.
  { eapply sendLinks_inv; [|exact El]. constructor; try done; by intros []. }
  destruct (waitLinkedBoth _ _ _ _) as [[x2 s2] [[e|]|]] eqn:Ew; [by destruct (teardown _ _ _)| |done].
  apply waitLinkedBoth_inv with (n := n) (a := a) (b := b) in Ew as (Hi2 & Hk0 & Hk1); [|done].
  injection Hk as _ <-. pose proof Hi2 as [[Hc0 Hc1] _ _ Ho (Hl1 & Hl2 & Hl3) Hz _ Hg].
  exists n. split_and!; try done.
  - pose proof (Hg false (proj1 Hk0)) as R0. pose proof (Hg true (proj1 Hk1)) as R1.
    simpl in R0, R1. rewrite Hc0 in R0. rewrite Hc1 in R1. intros c [-> | ->]; done.
  - intros []; split; [exact Hk1 | apply (Hz true) | exact Hk0 | apply (Hz false)].
  - unfold finish_link. simpl. case_if; rewrite ?Hc0, ?Hc1; auto.
Qed.

(** The LINKED answer to the nonce of 32 zeros, from the exit of circuit [c]. *)
Definition sample_linked (c : nat) : Z * nat * RelayCell.RelayCell * Z :=
  (5, c, RelayCell.mkRelayCell RelayCell.RelayConfluxLinked 0 0 [0; 0; 0; 0] 50 (1 :: zeros 49), 2).

Definition sample_wait (l : list nat) : wait_env (X := wires) :=
  mkWait (incoming (map sample_linked l)) 0 false.

(** With both answers the handshake succeeds; with one of them it still waits. *)
Lemma conflux_link_consent_witness :
  (LinkConflux (Some (zeros 32)) 3 (sample_wait [1%nat]) (sample_wait []) (mkWires (sample_view 0) [] [])
    (Some 0%nat) (Some 1%nat)).2 = None /\
  match (LinkConflux (Some (zeros 32)) 3 (sample_wait [1%nat; 0%nat]) (sample_wait [])
    (mkWires (sample_view 0) [] []) (Some 0%nat) (Some 1%nat)).2 with
  | Some (Ok s) => linked s = true /\ circ (leg1 s) = 1%nat /\ acked s true
  | _ => False
  end.
Proof.
  split; [vm_compute; reflexivity|].
  pose proof (fun x' s => conflux_link_consent (Some (zeros 32)) 3 (map sample_linked [1%nat; 0%nat])
    (map sample_linked []) 0 0 false false (mkWires (sample_view 0) [] []) x' 0%nat 1%nat s) as Hc.
  fold (sample_wait [1%nat; 0%nat]) in Hc. fold (sample_wait []) in Hc.
  assert (exists s, (LinkConflux (Some (zeros 32)) 3 (sample_wait [1%nat; 0%nat]) (sample_wait [])
    (mkWires (sample_view 0) [] []) (Some 0%nat) (Some 1%nat)).2 = Some (Ok s)) as [s0 Hs0]
    by (eexists; vm_compute; reflexivity).
  destruct (LinkConflux (Some (zeros 32)) 3 (sample_wait [1%nat; 0%nat]) _ _ _ _) as [x' r].
  cbn [snd] in *. subst r.
  destruct (Hc x' s0 eq_refl) as (n & _ & _ & _ & Hk & _ & Hl1 & _ & Hlk & _).
  split; [exact Hlk|]. split; [exact Hl1 | apply Hk].
Defined.

End ConfluxSet.
