(* ===== verification/Breaker.v ===== *)
(** * Circuit breaker (pkg/errors/breaker.go)

    The breaker as a state machine over two events: a request asks for admission
    ([beforeRequest]) and an admitted request ends ([afterRequest]); requests of
    several goroutines interleave.  The clock is an argument (nanoseconds).  A
    [float64] is a [spec_float] of the standard library's specification of
    binary64; the optional [OnStateChange] callback has no effect on the state
    and is left out. *)

From Stdlib Require Import SpecFloat.
From S2P Require Import Prelude.

Module Breaker.

Inductive CircuitState := StateClosed | StateOpen | StateHalfOpen.

Global Instance CircuitState_eq_dec : EqDecision CircuitState.
Proof. solve_decision. Defined.

Definition String (s : CircuitState) : string :=
  match s with
  | StateClosed => "closed"
  | StateOpen => "open"
  | StateHalfOpen => "half-open"
  end.

(** Binary64 operations: [float64(n)], [/] and [>=]. *)
Definition float64 := spec_float.
Definition of_int (n : Z) : float64 := binary_normalize 53 1024 n 0 false.
Definition fdiv : float64 -> float64 -> float64 := SFdiv 53 1024.
Definition fge (x y : float64) : bool := SFleb y x.

Record CircuitBreakerConfig := mkConfig {
  MaxFailures : Z;
  Timeout : Z;
  HalfOpenMaxRequests : Z;
  FailureThreshold : float64;
  MinRequests : Z;
}.

Definition half : float64 := fdiv (of_int 1) (of_int 2).

Definition DefaultCircuitBreakerConfig : CircuitBreakerConfig :=
  mkConfig 5 (30 * 1000000000) 1 half 10.

(** The zero [time.Time] is [None]. *)
Record CircuitBreaker := mkBreaker {
  config : CircuitBreakerConfig;
  state : CircuitState;
  failures : Z;
  successes : Z;
  totalRequests : Z;
  lastFailureTime : option Z;
  halfOpenRequests : Z;
  halfOpenFailures : Z;
  openedAt : option Z;
}.

Definition NewCircuitBreaker (cfg : option CircuitBreakerConfig) : CircuitBreaker :=
  mkBreaker (default DefaultCircuitBreakerConfig cfg) StateClosed 0 0 0 None 0 0 None.

Inductive refusal := errOpen | errHalfOpenFull.

(** Field updates. *)
Definition changeState (cb : CircuitBreaker) (s : CircuitState) : CircuitBreaker :=
  mkBreaker (config cb) s (failures cb) (successes cb) (totalRequests cb) (lastFailureTime cb)
    (halfOpenRequests cb) (halfOpenFailures cb) (openedAt cb).
Definition set_half (cb : CircuitBreaker) (r f : Z) : CircuitBreaker :=
  mkBreaker (config cb) (state cb) (failures cb) (successes cb) (totalRequests cb) (lastFailureTime cb)
    r f (openedAt cb).
Definition set_opened (cb : CircuitBreaker) (t : Z) : CircuitBreaker :=
  mkBreaker (config cb) (state cb) (failures cb) (successes cb) (totalRequests cb) (lastFailureTime cb)
    (halfOpenRequests cb) (halfOpenFailures cb) (Some t).
Definition set_counts (cb : CircuitBreaker) (f s t : Z) (last : option Z) : CircuitBreaker :=
  mkBreaker (config cb) (state cb) f s t last (halfOpenRequests cb) (halfOpenFailures cb) (openedAt cb).

Definition reset (cb : CircuitBreaker) : CircuitBreaker :=
  set_half (set_counts cb 0 0 0 (lastFailureTime cb)) 0 0.

(** [time.Since(cb.openedAt)]; since the zero time more than any timeout has
    passed, which is the saturated maximum. *)
Definition since (now : Z) (t : option Z) : Z :=
  match t with Some t => i64 (now - t) | None => MaxInt64 end.

Definition beforeRequest (now : Z) (cb : CircuitBreaker) : CircuitBreaker * option refusal :=
  match state cb with
  | StateClosed => (cb, None)
  | StateOpen =>
      if Timeout (config cb) <=? since now (openedAt cb)
      then (set_half (changeState cb StateHalfOpen) 0 0, None)
      else (cb, Some errOpen)
  | StateHalfOpen =>
      if HalfOpenMaxRequests (config cb) <=? halfOpenRequests cb then (cb, Some errHalfOpenFull)
      else (set_half cb (i64 (halfOpenRequests cb + 1)) (halfOpenFailures cb), None)
  end.

Definition shouldOpen (cb : CircuitBreaker) : bool :=
  if MaxFailures (config cb) <=? failures cb then true
  else if MinRequests (config cb) <=? totalRequests cb
  then fge (fdiv (of_int (failures cb)) (of_int (totalRequests cb))) (FailureThreshold (config cb))
  else false.

(** [failed]: the request returned an error. *)
Definition afterRequest (now : Z) (cb : CircuitBreaker) (failed : bool) : CircuitBreaker :=
  match state cb with
  | StateClosed =>
      let total := i64 (totalRequests cb + 1) in
      if failed then
        let cb := set_counts cb (i64 (failures cb + 1)) (successes cb) total (Some now) in
        if shouldOpen cb then set_opened (changeState cb StateOpen) now else cb
      else set_counts cb (failures cb) (i64 (successes cb + 1)) total (lastFailureTime cb)
  | StateOpen => cb
  | StateHalfOpen =>
      if failed then
        let cb := set_half cb (halfOpenRequests cb) (i64 (halfOpenFailures cb + 1)) in
        set_opened (changeState cb StateOpen) now
      else reset (changeState cb StateClosed)
  end.

(** [fn] run to its end without another request in between. *)
Definition Execute (now : Z) (cb : CircuitBreaker) (failed : bool) : CircuitBreaker * option refusal :=
  match beforeRequest now cb with
  | (cb, Some e) => (cb, Some e)
  | (cb, None) => (afterRequest now cb failed, None)
  end.

Definition State (cb : CircuitBreaker) : CircuitState := state cb.

Record CircuitBreakerStats := mkStats {
  stState : CircuitState;
  stFailures : Z;
  stSuccesses : Z;
  stTotalRequests : Z;
  stErrorRate : float64;
  stHalfOpenRequests : Z;
  stHalfOpenFailures : Z;
  stLastFailureTime : option Z;
  stOpenedAt : option Z;
}.

Definition Stats (cb : CircuitBreaker) : CircuitBreakerStats :=
  mkStats (state cb) (failures cb) (successes cb) (totalRequests cb)
    (if 0 <? totalRequests cb then fdiv (of_int (failures cb)) (of_int (totalRequests cb)) else of_int 0)
    (halfOpenRequests cb) (halfOpenFailures cb) (lastFailureTime cb) (openedAt cb).

Definition Reset (cb : CircuitBreaker) : CircuitBreaker := reset (changeState cb StateClosed).

Definition ForceOpen (now : Z) (cb : CircuitBreaker) : CircuitBreaker :=
  if bool_decide (state cb = StateOpen) then cb else set_opened (changeState cb StateOpen) now.

(** ** Interleavings *)

Inductive event :=
| EvBefore (now : Z)
| EvAfter (now : Z) (failed : bool)
| EvReset
| EvForceOpen (now : Z).

(** The breaker with the number of requests admitted since it last entered the
    half-open state (0 in the other states). *)
Definition step (st : CircuitBreaker * Z) (e : event) : CircuitBreaker * Z :=
  let '(cb, probes) := st in
  let cb' := match e with
             | EvBefore now => fst (beforeRequest now cb)
             | EvAfter now failed => afterRequest now cb failed
             | EvReset => Reset cb
             | EvForceOpen now => ForceOpen now cb
             end in
  let admitted := match e with
                  | EvBefore now => match snd (beforeRequest now cb) with None => 1 | Some _ => 0 end
                  | _ => 0
                  end in
  (cb', if bool_decide (state cb' = StateHalfOpen)
        then (if bool_decide (state cb = StateHalfOpen) then probes else 0) + admitted else 0).

Definition breaker_wf (cb : CircuitBreaker) : Prop :=
  1 <= HalfOpenMaxRequests (config cb) < 2 ^ 31 /\
  (state cb = StateHalfOpen -> 0 <= halfOpenRequests cb <= HalfOpenMaxRequests (config cb)).

(** The first probe of a half-open phase is not counted. *)
Definition probe_inv (st : CircuitBreaker * Z) : Prop :=
  breaker_wf (fst st) /\
  (state (fst st) = StateHalfOpen -> snd st = halfOpenRequests (fst st) + 1).

Lemma step_inv st e : probe_inv st -> probe_inv (step st e).
Proof.
  destruct st as [cb n]. intros [[Hm Hr] Hn]. simpl in *. unfold probe_inv, breaker_wf.
  destruct e as [now|now failed| |now]; simpl.
  - unfold beforeRequest. destruct (state cb) eqn:Es; simpl.
    + rewrite Es. by split.
    + case_if; simpl; [by split_and!; try done; lia|]. rewrite Es. by split.
    + specialize (Hr eq_refl). specialize (Hn eq_refl).
      case_if; bool_to_prop; simpl; rewrite Es; simpl; [split; [by split|lia]|].
      rewrite i64_id by (word; lia). split_and!; try done; lia.
  - unfold afterRequest. destruct (state cb) eqn:Es; simpl.
    + repeat case_if; simpl; rewrite ?Es; by split.
    + rewrite Es. by split.
    + case_if; simpl; by split.
  - by split.
  - unfold ForceOpen. case_bool_decide as Eo; simpl; rewrite ?Eo; by split.
Qed.

Lemma config_step st e : config (fst (step st e)) = config (fst st).
Proof.
  destruct st as [cb n]. destruct e as [now|now failed| |now]; simpl; try done.
  - unfold beforeRequest. repeat case_match; done.
  - unfold afterRequest. destruct (state cb); simpl; repeat case_if; done.
  - unfold ForceOpen. by case_bool_decide.
Qed.

Lemma run_probe_inv l st :
  probe_inv st -> probe_inv (foldl step st l) /\ config (fst (foldl step st l)) = config (fst st).
Proof.
  revert st. induction l as [|e l IH]; intros st Hst; [done|]. cbn [foldl].
  destruct (IH (step st e)) as [Hi Hc]; [by apply step_inv|]. split; [done|]. by rewrite Hc, config_step.
Qed.

(** ** Properties *)

(** Half-open admissions are bounded, by one more than configured.  Over any
    interleaving of admissions, completions, resets and forced openings, at most
    [HalfOpenMaxRequests + 1] requests are admitted in a half-open phase: the
    request that makes the breaker half-open is admitted without being counted. *)
Theorem half_open_admissions cfg l cb probes :
  1 <= HalfOpenMaxRequests cfg < 2 ^ 31 ->
  foldl step (NewCircuitBreaker (Some cfg), 0) l = (cb, probes) ->
  state cb = StateHalfOpen ->
  1 <= probes <= HalfOpenMaxRequests cfg + 1 /\ probes = halfOpenRequests cb + 1.
Proof.
  intros Hm Hrun Hs.
  destruct (run_probe_inv l (NewCircuitBreaker (Some cfg), 0)) as [[[_ Hr] Hn] Hc].
  - split; [split; [done|done]|done].
  - rewrite Hrun in Hr, Hn, Hc. simpl in *. specialize (Hr Hs). specialize (Hn Hs).
    rewrite Hc in Hr. simpl in Hr. lia.
Qed.

(** The default configuration allows one probe; two are admitted. *)
Definition sample_events : list event := [EvForceOpen 0; EvBefore 30000000000; EvBefore 30000000001].

Lemma half_open_admissions_witness :
  let '(cb, probes) := foldl step (NewCircuitBreaker (Some DefaultCircuitBreakerConfig), 0) sample_events in
  state cb = StateHalfOpen /\ probes = 2 /\ probes <= HalfOpenMaxRequests DefaultCircuitBreakerConfig + 1.
Proof.
  destruct (foldl step _ sample_events) as [cb probes] eqn:E.
  assert (state cb = StateHalfOpen /\ probes = 2) as [Hs Hp] by (vm_compute in E; by simplify_eq).
  split_and!; [exact Hs | exact Hp |].
  apply (half_open_admissions DefaultCircuitBreakerConfig sample_events cb probes); [by split | exact E | exact Hs].
Defined.

(** An open breaker fails fast: until the timeout has passed every request is
    refused and nothing changes, so no number of requests can shorten the pause;
    the first one after it is let through as a probe. *)
Theorem open_fails_fast now cb t failed :
  state cb = StateOpen -> openedAt cb = Some t -> is_i64 (now - t) ->
  (now - t < Timeout (config cb) -> Execute now cb failed = (cb, Some errOpen)) /\
  (Timeout (config cb) <= now - t ->
   snd (Execute now cb failed) = None /\
   state (fst (Execute now cb failed)) = if failed then StateOpen else StateClosed).
Proof.
  intros Hs Ht Hr. unfold Execute, beforeRequest, since. rewrite Hs, Ht, i64_id by done. split; intros Hlt.
  - by rewrite (proj2 (Z.leb_gt _ _)) by lia.
  - rewrite (proj2 (Z.leb_le _ _)) by lia. simpl. by destruct failed.
Qed.

Lemma open_fails_fast_witness :
  let cb := ForceOpen 0 (NewCircuitBreaker None) in
  Execute 29999999999 cb true = (cb, Some errOpen) /\ snd (Execute 30000000000 cb true) = None.
Proof.
  intros cb. split.
  - refine (proj1 (open_fails_fast 29999999999 cb 0 true eq_refl eq_refl _) _); vm_compute; done.
  - refine (proj1 (proj2 (open_fails_fast 30000000000 cb 0 true eq_refl eq_refl _) _)); vm_compute; done.
Defined.

(** In the closed state the breaker opens on the failure that brings the count of
    failures to the limit, although successes came in between: the count is not
    reset by a success. *)
Example failures_need_not_be_consecutive :
  let run := foldl (fun cb failed => fst (Execute 0 cb failed)) (NewCircuitBreaker None) in
  state (run [true; false; true; false; true; false; true; false; true]) = StateOpen.
Proof. vm_compute. reflexivity. Qed.

End Breaker.
