(* ===== verification/EquiX.v ===== *)
(** * The Equi-X puzzle (pkg/crypto/equix/equix.go, solver.go)

    Solutions and their verification, and the bucketed search for them.  The hash
    of an item (HashX, pkg/crypto/hashx) is a parameter. *)

From S2P Require Import Prelude Polyval.

Module EquiX.

Definition equihashN : Z := 60.
Definition equihashK : nat := 3.
Definition numItems : nat := 8.
Definition solutionLen : nat := 16.
Definition numBuckets : Z := 256.

Inductive error := ErrOrder | ErrHashSum | errLength.

(** A solution is eight 16-bit items. *)
Definition Solution := list Z.

Definition Bytes (s : Solution) : bytes := flat_map (Polyval.le_put 2) s.

(** ** Order *)

(** The last items decide first. *)
Fixpoint sorted_rev (l r : list Z) : bool :=
  match l, r with
  | a :: l, b :: r => if a <? b then true else if b <? a then false else sorted_rev l r
  | _, _ => true
  end.
Definition branchesSorted (left right : list Z) : bool := sorted_rev (rev left) (rev right).

(** [k] levels: [2 ^ k] items. *)
Fixpoint check_order (k : nat) (items : list Z) : bool :=
  match k with
  | O => true
  | S k =>
      let mid := (length items / 2)%nat in
      let left := take mid items in
      let right := drop mid items in
      if negb (branchesSorted left right) then false
      else if (length items =? 2)%nat then true
      else check_order k left && check_order k right
  end.
Definition checkTreeOrder (items : list Z) : bool := check_order equihashK items.

Fixpoint sort_order (k : nat) (items : list Z) : list Z :=
  match k with
  | O => items
  | S k =>
      if (length items <=? 1)%nat then items
      else
        let mid := (length items / 2)%nat in
        let sub l := if (2 <? length items)%nat then sort_order k l else l in
        let left := sub (take mid items) in
        let right := sub (drop mid items) in
        if negb (branchesSorted left right) then right ++ left else left ++ right
  end.
Definition sortTreeOrder (items : list Z) : list Z := sort_order equihashK items.

Definition SolutionFromBytes (b : bytes) : result error Solution :=
  if negb (length b =? solutionLen)%nat then Err errLength
  else
    let s := map (fun i => Polyval.le_get (slice b (2 * i) (2 * i + 2))) (seq 0 numItems) in
    if negb (checkTreeOrder s) then Err ErrOrder else Ok s.

Section Hash.
Context (itemHash : Z -> Z).

(** ** Sums *)

Fixpoint check_sums (k : nat) (items : list Z) (nBits : Z) : option Z :=
  match k with
  | O => None
  | S k =>
      let sum :=
        if (length items =? 2)%nat then Some (u64 (itemHash (nth 0 items 0) + itemHash (nth 1 items 0)))
        else
          let mid := (length items / 2)%nat in
          match check_sums k (take mid items) (nBits / 2), check_sums k (drop mid items) (nBits / 2) with
          | Some l, Some r => Some (u64 (l + r))
          | _, _ => None
          end in
      match sum with
      | None => None
      | Some sum => if negb (Z.land sum (Z.shiftl 1 nBits - 1) =? 0) then None else Some sum
      end
  end.
Definition checkTreeSums (items : list Z) (nBits : Z) : option Z := check_sums equihashK items nBits.

Definition Verify (sol : Solution) : option error :=
  if negb (checkTreeOrder sol) then Some ErrOrder
  else match checkTreeSums sol equihashN with None => Some ErrHashSum | Some _ => None end.

(** ** Search *)

(** An entry of a layer: what is left of its sum, and its items. *)
Record entry := mkEntry { hash : Z; items : list Z }.

Abbreviation buckets := (list (list entry)).
Definition empty_buckets : buckets := replicate (Z.to_nat numBuckets) [].
Definition bucket (bs : buckets) (b : Z) : list entry := default [] (bs !! Z.to_nat b).
Definition put (bs : buckets) (x : entry) : buckets := alter (fun l => l ++ [x]) (Z.to_nat (Z.land (hash x) 255)) bs.

(** The pairs the loops visit, in their order. *)
Definition partners (bs : buckets) (first : Z) (i : nat) : list entry :=
  let second := (numBuckets - first) mod numBuckets in
  drop (if first =? second then S i else 0) (bucket bs second).
Definition pairs_at (bs : buckets) (first : Z) : list (entry * entry) :=
  mjoin (imap (fun i x => map (fun y => (x, y)) (partners bs first i)) (bucket bs first)).
Definition pairs (bs : buckets) : list (entry * entry) := seqZ 0 (numBuckets / 2 + 1) ≫= pairs_at bs.

(** The first bucket sort. *)
Definition layer0 (n : Z) : buckets := foldl (fun bs i => put bs (mkEntry (itemHash i) [i])) empty_buckets (seqZ 0 n).

(** One layer from the one before. *)
Definition join (bs : buckets) (p : entry * entry) : buckets :=
  let '(x, y) := p in
  let sum := u64 (hash x + hash y) in
  if Z.land sum (Z.shiftl 1 15 - 1) =? 0 then put bs (mkEntry (Z.shiftr sum 15) (items x ++ items y)) else bs.
Definition next_layer (bs : buckets) : buckets := foldl join empty_buckets (pairs bs).

(** [seen] and the solutions found. *)
Definition finish (st : list Solution * list Solution) (p : entry * entry) : list Solution * list Solution :=
  let '(seen, out) := st in
  let '(x, y) := p in
  let sum := u64 (hash x + hash y) in
  if negb (Z.land sum (Z.shiftl 1 30 - 1) =? 0) then st
  else
    let sol := sortTreeOrder (items x ++ items y) in
    if bool_decide (sol ∈ seen) then st
    else (seen ++ [sol], match Verify sol with None => out ++ [sol] | Some _ => out end).

Definition solve_items (n : Z) : list Solution := (foldl finish ([], []) (pairs (next_layer (next_layer (layer0 n))))).2.
Definition Solve : list Solution := solve_items 65536.

(** ** Lemmas *)

Lemma mask_mod v n : 0 <= n -> Z.land v (Z.shiftl 1 n - 1) = v mod 2 ^ n.
Proof. intros Hn. rewrite Z.shiftl_1_l, Z.sub_1_r, <- Z.ones_equiv. by apply Z.land_ones. Qed.

Lemma u64_mod v n : 0 <= n <= 64 -> u64 v mod 2 ^ n = v mod 2 ^ n.
Proof.
  intros Hn. unfold u64. replace (2 ^ 64) with (2 ^ n * 2 ^ (64 - n)) by (rewrite <- Z.pow_add_r by lia; f_equal; lia).
  rewrite Z.rem_mul_r by lia. by rewrite (Z.mul_comm (2 ^ n)), Z_mod_plus_full, Z.mod_mod by lia.
Qed.

(** *** Buckets *)

Definition holds (bs : buckets) (x : entry) : Prop := x ∈ bucket bs (Z.land (hash x) 255).

Lemma land_byte v : 0 <= Z.land v 255 < 256.
Proof. rewrite land_255. apply Z.mod_pos_bound. lia. Qed.

Lemma put_holds bs x y : length bs = 256%nat -> holds (put bs y) x <-> holds bs x \/ x = y.
Proof.
  intros Hl. unfold holds, put, bucket. pose proof (land_byte (hash x)). pose proof (land_byte (hash y)).
  destruct (decide (Z.land (hash x) 255 = Z.land (hash y) 255)) as [E|E].
  - rewrite E, list_lookup_alter_eq. destruct (lookup_lt_is_Some_2 bs (Z.to_nat (Z.land (hash y) 255))) as [l Hb]; [lia|]. rewrite Hb. cbn.
    rewrite elem_of_app, list_elem_of_singleton. done.
  - rewrite list_lookup_alter_ne by lia. split; [by left|]. intros [Hx| ->]; [done|]. by destruct E.
Qed.

Lemma put_length bs y : length (put bs y) = length bs.
Proof. apply length_alter. Qed.

Lemma empty_length : length empty_buckets = 256%nat.
Proof. done. Qed.

Lemma layer0_holds n i : 0 <= i < n -> holds (layer0 n) (mkEntry (itemHash i) [i]).
Proof.
  intros Hi. unfold layer0. assert (i ∈ seqZ 0 n) as Hin by (apply elem_of_seqZ; lia). revert Hin.
  generalize (seqZ 0 n). intros l. pose proof empty_length as Hl. revert Hl. generalize empty_buckets. clear Hi.
  assert (forall l bs x, length bs = 256%nat -> holds bs x -> holds (foldl (fun bs i => put bs (mkEntry (itemHash i) [i])) bs l) x) as Hmono.
  { clear. induction l as [|j l IH]; intros bs x Hl Hx; [done|]. cbn. apply IH; [by rewrite put_length|]. apply put_holds; auto. }
  induction l as [|j l IH]; intros bs Hl Hin; [by apply not_elem_of_nil in Hin|]. cbn. apply elem_of_cons in Hin as [->|Hin].
  - apply Hmono; [by rewrite put_length|]. apply put_holds; auto.
  - apply IH; [by rewrite put_length|done].
Qed.

(** Two entries whose sum ends in eight zero bits meet. *)
Lemma pairs_in bs x y first i : 0 <= first <= 128 -> bucket bs first !! i = Some x -> y ∈ partners bs first i -> (x, y) ∈ pairs bs.
Proof.
  intros Hf Hx Hy. unfold pairs. apply list_elem_of_bind. exists first. split.
  - unfold pairs_at. apply list_elem_of_join. exists (map (fun y => (x, y)) (partners bs first i)). split.
    + by apply list_elem_of_fmap_2.
    + apply list_elem_of_lookup. exists i. by rewrite list_lookup_imap, Hx.
  - apply elem_of_seqZ. change (numBuckets / 2) with 128. lia.
Qed.

Lemma pairs_meet bs x y :
  holds bs x -> holds bs y -> x <> y -> (hash x + hash y) mod 256 = 0 -> (x, y) ∈ pairs bs \/ (y, x) ∈ pairs bs.
Proof.
  intros Hx Hy Hne Hs. unfold holds in *. rewrite land_255 in *. set (a := hash x mod 256) in *. set (b := hash y mod 256) in *.
  assert (0 <= a < 256 /\ 0 <= b < 256) as [Ha Hb] by (split; apply Z.mod_pos_bound; lia).
  assert (b = (256 - a) mod 256 /\ a = (256 - b) mod 256) as [Eb Ea].
  { rewrite Z.add_mod in Hs by lia. fold a b in Hs. destruct (decide (a + b = 0)) as [|]; [by assert (a = 0) as -> by lia; assert (b = 0) as -> by lia|].
    assert (a + b = 256); [|split; rewrite Z.mod_small; lia].
    apply Z.mod_divide in Hs as [q Hq]; [|lia]. assert (q = 1) as -> by nia. lia. }
  apply list_elem_of_lookup in Hx as [i Hi]. apply list_elem_of_lookup in Hy as [j Hj].
  assert (forall first i l, first <> (256 - first) mod 256 -> partners bs first i = l -> l = bucket bs ((256 - first) mod 256)) as Hp.
  { intros first k l Hn <-. unfold partners, numBuckets. by rewrite (proj2 (Z.eqb_neq _ _) Hn). }
  destruct (decide (a = b)) as [Eab|Eab].
  - assert (forall k, partners bs a k = drop (S k) (bucket bs a)) as Hq
      by (intros k; unfold partners, numBuckets; rewrite <- Eb, <- Eab, Z.eqb_refl; done).
    assert (0 <= a <= 128) as Ha' by (rewrite <- Eab in Eb; destruct (decide (a = 0)); [lia|]; rewrite Z.mod_small in Eb; lia).
    rewrite <- Eab in Hj. destruct (decide (i < j)%nat).
    + left. apply (pairs_in bs x y a i); [done|done|]. rewrite Hq. apply list_elem_of_lookup. exists (j - S i)%nat. rewrite lookup_drop.
      by replace (S i + (j - S i))%nat with j by lia.
    + right. assert (i <> j) by (intros ->; congruence). apply (pairs_in bs y x a j); [done|done|]. rewrite Hq. apply list_elem_of_lookup.
      exists (i - S j)%nat. rewrite lookup_drop. by replace (S j + (i - S j))%nat with i by lia.
  - destruct (decide (a <= 128)).
    + left. apply (pairs_in bs x y a i); [lia|done|]. rewrite (Hp a i _ ltac:(by rewrite <- Eb) eq_refl), <- Eb. by eapply list_elem_of_lookup_2.
    + right. assert (b <= 128) by (rewrite Z.mod_small in Eb; lia). apply (pairs_in bs y x b j); [lia|done|].
      rewrite (Hp b j _ ltac:(rewrite <- Ea; congruence) eq_refl), <- Ea. by eapply list_elem_of_lookup_2.
Qed.

(** *** Layers *)

Lemma join_length bs p : length (join bs p) = length bs.
Proof. destruct p as [x y]. unfold join. case_match; [apply put_length|done]. Qed.

Lemma next_layer_holds bs x y :
  (x, y) ∈ pairs bs -> let sum := u64 (hash x + hash y) in sum mod 2 ^ 15 = 0 ->
  holds (next_layer bs) (mkEntry (Z.shiftr sum 15) (items x ++ items y)).
Proof.
  intros Hin sum Hs. unfold next_layer. set (e := mkEntry _ _). revert Hin. generalize (pairs bs). intros l. pose proof empty_length as Hl. revert Hl.
  generalize empty_buckets.
  assert (forall ps bs, length bs = 256%nat -> holds bs e -> holds (foldl join bs ps) e) as Hmono.
  { induction ps as [|[u v] ps IH]; intros bs' Hl He; [done|]. cbn [foldl]. apply IH; [by rewrite join_length|]. unfold join.
    destruct (_ =? _); [|done]. apply put_holds; auto. }
  induction l as [|p l IH]; intros bs' Hl Hin; [by apply not_elem_of_nil in Hin|]. cbn [foldl]. apply elem_of_cons in Hin as [<-|Hin].
  - apply Hmono; [by rewrite join_length|]. unfold join. fold sum. rewrite mask_mod by lia. rewrite Hs. cbn [Z.eqb]. apply put_holds; auto.
  - apply IH; [by rewrite join_length|done].
Qed.

(** The items of an entry are those of a tree, up to exchanging branches. *)
Inductive tree : nat -> list Z -> list Z -> Prop :=
| tree_leaf a : tree 0 [a] [a]
| tree_node k l r l' r' : tree k l l' -> tree k r r' -> tree (S k) (l ++ r) (l' ++ r')
| tree_swap k l r l' r' : tree k l l' -> tree k r r' -> tree (S k) (l ++ r) (r' ++ l').

Lemma tree_length k t s : tree k t s -> length t = (2 ^ k)%nat /\ length s = (2 ^ k)%nat.
Proof. induction 1; [done| |]; rewrite !length_app; cbn [Nat.pow]; lia. Qed.

Lemma sorted_rev_antisym l r : length l = length r -> sorted_rev l r = true -> sorted_rev r l = true -> l = r.
Proof.
  revert r. induction l as [|a l IH]; intros [|b r]; [done..|]. cbn. intros [= Hl].
  destruct (Z.ltb_spec a b), (Z.ltb_spec b a); try done; try lia. intros H1 H2. f_equal; [lia|by apply IH].
Qed.

Lemma sorted_rev_total l r : sorted_rev l r = true \/ sorted_rev r l = true.
Proof.
  revert r. induction l as [|a l IH]; intros [|b r]; cbn; [by left..|]. destruct (Z.ltb_spec a b), (Z.ltb_spec b a); try lia; auto.
Qed.

Lemma branches_antisym l r : length l = length r -> branchesSorted l r = true -> branchesSorted r l = true -> l = r.
Proof.
  unfold branchesSorted. intros Hl H1 H2. rewrite <- (rev_involutive l), <- (rev_involutive r). f_equal.
  apply sorted_rev_antisym; [by rewrite !length_rev|done|done].
Qed.

Lemma halves {A} (l r : list A) : length l = length r ->
  take (length (l ++ r) / 2) (l ++ r) = l /\ drop (length (l ++ r) / 2) (l ++ r) = r.
Proof.
  intros Hl. assert (length (l ++ r) / 2 = length l)%nat as ->.
  { rewrite length_app, <- Hl. replace (length l + length l)%nat with (length l * 2)%nat by lia. apply Nat.div_mul. lia. }
  by rewrite take_app_length, drop_app_length.
Qed.

Lemma pow_pos k : (1 <= 2 ^ k)%nat.
Proof. induction k; cbn; lia. Qed.

Lemma check_order_node k l r : length l = (2 ^ k)%nat -> length r = (2 ^ k)%nat ->
  check_order (S k) (l ++ r) = true -> branchesSorted l r = true /\ check_order k l = true /\ check_order k r = true.
Proof.
  intros Hl Hr. cbn [check_order]. destruct (halves l r ltac:(lia)) as [-> ->]. destruct (branchesSorted l r); [|done]. cbn [negb].
  destruct (Nat.eqb_spec (length (l ++ r)) 2) as [H2|H2].
  - intros _. split; [done|]. rewrite length_app in H2. destruct k as [|k]; [done|]. cbn [Nat.pow] in *. pose proof (pow_pos k). lia.
  - intros [? ?]%andb_true_iff. done.
Qed.

Lemma sort_order_node k l r l' r' : length l = (2 ^ k)%nat -> length r = (2 ^ k)%nat -> sort_order k l = l' -> sort_order k r = r' ->
  sort_order (S k) (l ++ r) = if negb (branchesSorted l' r') then r' ++ l' else l' ++ r'.
Proof.
  intros Hl Hr El Er. cbn [sort_order]. destruct (halves l r ltac:(lia)) as [-> ->]. pose proof (pow_pos k).
  rewrite (proj2 (Nat.leb_gt _ _)) by (rewrite length_app; lia). destruct (Nat.ltb_spec 2 (length (l ++ r))) as [H2|H2].
  - by rewrite El, Er.
  - rewrite length_app in H2. assert (k = 0%nat) as -> by (destruct k as [|k]; [done|cbn [Nat.pow] in *; pose proof (pow_pos k); lia]).
    cbn in El, Er. by subst.
Qed.

(** Sorting finds the one arrangement that is in order. *)
Lemma tree_sorts k t s : tree k t s -> check_order k s = true -> sort_order k t = s.
Proof.
  induction 1 as [a|k l r l' r' H1 IH1 H2 IH2|k l r l' r' H1 IH1 H2 IH2]; intros Ho; [done| |];
    destruct (tree_length _ _ _ H1) as [? ?], (tree_length _ _ _ H2) as [? ?]; apply check_order_node in Ho as (Hb & Ho1 & Ho2); try done.
  - rewrite (sort_order_node k l r l' r') by auto. by rewrite Hb.
  - rewrite (sort_order_node k l r l' r') by auto. destruct (branchesSorted l' r') eqn:Hb2; cbn [negb]; [|done].
    rewrite (branches_antisym l' r'); [done|lia|done|done].
Qed.

(** What is left of the sum of a tree after each layer has dropped 15 zero bits. *)
Fixpoint partial (k : nat) (s : list Z) : option Z :=
  match k with
  | O => Some (itemHash (nth 0 s 0))
  | S k =>
      let mid := (length s / 2)%nat in
      match partial k (take mid s), partial k (drop mid s) with
      | Some x, Some y => let sum := u64 (x + y) in if sum mod 2 ^ 15 =? 0 then Some (Z.shiftr sum 15) else None
      | _, _ => None
      end
  end.

(** No branch stands twice under a node. *)
Fixpoint distinct (k : nat) (s : list Z) : bool :=
  match k with
  | O => true
  | S k => let mid := (length s / 2)%nat in
      negb (bool_decide (take mid s = drop mid s)) && distinct k (take mid s) && distinct k (drop mid s)
  end.

Definition found (n : Z) (bs : buckets) (k : nat) : Prop := forall s v,
  length s = (2 ^ k)%nat -> Forall (fun i => 0 <= i < n) s -> check_order k s = true -> distinct k s = true -> partial k s = Some v ->
  exists x, holds bs x /\ hash x = v /\ tree k (items x) s.

Lemma found_layer0 n : found n (layer0 n) 0.
Proof.
  intros s v Hl Hr _ _ [= <-]. destruct s as [|a [|b s]]; [done| |done]. apply Forall_cons in Hr as [Ha _].
  exists (mkEntry (itemHash a) [a]). split_and!; [by apply layer0_holds|done|constructor].
Qed.

(** Two trees that make a node are found as a pair. *)
Lemma found_pair n bs k l r x y :
  found n bs k -> length l = (2 ^ k)%nat -> length r = (2 ^ k)%nat -> Forall (fun i => 0 <= i < n) (l ++ r) ->
  check_order (S k) (l ++ r) = true -> distinct (S k) (l ++ r) = true -> partial k l = Some x -> partial k r = Some y ->
  u64 (x + y) mod 2 ^ 15 = 0 ->
  exists p q, (p, q) ∈ pairs bs /\ hash p + hash q = x + y /\ tree (S k) (items p ++ items q) (l ++ r).
Proof.
  intros Hf Hl Hr Hrange Ho Hd Hx Hy Hs. apply Forall_app in Hrange as [Hr1 Hr2].
  apply check_order_node in Ho as (_ & Ho1 & Ho2); [|done..]. cbn [distinct] in Hd. destruct (halves l r ltac:(lia)) as [El Er].
  rewrite El, Er in Hd. apply andb_true_iff in Hd as [[Hne%negb_true_iff Hd1]%andb_true_iff Hd2]. apply bool_decide_eq_false in Hne.
  destruct (Hf l x Hl Hr1 Ho1 Hd1 Hx) as (p & Hp & <- & Tp). destruct (Hf r y Hr Hr2 Ho2 Hd2 Hy) as (q & Hq & <- & Tq).
  assert (p <> q) as Hpq by (intros ->; destruct Hne; rewrite <- (tree_sorts _ _ _ Tp Ho1); by apply tree_sorts).
  destruct (pairs_meet bs p q Hp Hq Hpq) as [Hin|Hin].
  - rewrite u64_mod in Hs by lia. replace 256 with (2 ^ 8) by done.
    apply Z.mod_divide in Hs; [|lia]. apply Z.mod_divide; [lia|]. eapply Z.divide_trans; [|exact Hs]. by exists (2 ^ 7).
  - exists p, q. split_and!; [done|done|by constructor].
  - exists q, p. split_and!; [done|lia|by constructor].
Qed.

Lemma found_next n bs k : found n bs k -> found n (next_layer bs) (S k).
Proof.
  intros Hf s v Hl Hr Ho Hd Hv. assert (s = take (2 ^ k) s ++ drop (2 ^ k) s) as Hs by by rewrite take_drop.
  set (l := take (2 ^ k) s) in *. set (r := drop (2 ^ k) s) in *. cbn [Nat.pow] in Hl.
  assert (length l = (2 ^ k)%nat /\ length r = (2 ^ k)%nat) as [Hll Hlr] by (unfold l, r; rewrite length_take, length_drop; lia).
  rewrite Hs in *. cbn [partial] in Hv. destruct (halves l r ltac:(lia)) as [El Er]. rewrite El, Er in Hv.
  destruct (partial k l) as [x|] eqn:Hx; [|done]. destruct (partial k r) as [y|] eqn:Hy; [|done].
  destruct (Z.eqb_spec (u64 (x + y) mod 2 ^ 15) 0) as [Hz|]; [|done]. injection Hv as <-.
  destruct (found_pair n bs k l r x y) as (p & q & Hin & Hh & Ht); try done.
  exists (mkEntry (Z.shiftr (u64 (hash p + hash q)) 15) (items p ++ items q)). split_and!; [|by rewrite Hh|done].
  apply next_layer_holds; [done|]. by rewrite Hh.
Qed.

(** *** Sums *)

Lemma mod_mul_0 a n m : 0 <= n <= m -> (2 ^ n * a) mod 2 ^ m = 0 <-> a mod 2 ^ (m - n) = 0.
Proof.
  intros Hn. replace (2 ^ m) with (2 ^ n * 2 ^ (m - n)) by (rewrite <- Z.pow_add_r by lia; f_equal; lia).
  rewrite Z.mul_mod_distr_l by lia. nia.
Qed.

Lemma partial_node k l r : length l = length r ->
  partial (S k) (l ++ r) =
    match partial k l, partial k r with
    | Some x, Some y => if u64 (x + y) mod 2 ^ 15 =? 0 then Some (Z.shiftr (u64 (x + y)) 15) else None
    | _, _ => None
    end.
Proof. intros Hl. cbn [partial]. by destruct (halves l r Hl) as [-> ->]. Qed.

Lemma check_sums_node k l r n : length l = length r -> (2 <= length l)%nat ->
  check_sums (S k) (l ++ r) n =
    match check_sums k l (n / 2), check_sums k r (n / 2) with
    | Some x, Some y => if negb (Z.land (u64 (x + y)) (Z.shiftl 1 n - 1) =? 0) then None else Some (u64 (x + y))
    | _, _ => None
    end.
Proof.
  intros Hl H2. cbn [check_sums]. rewrite (proj2 (Nat.eqb_neq (length (l ++ r)) 2)) by (rewrite length_app; lia).
  destruct (halves l r Hl) as [-> ->]. by destruct (check_sums k l (n / 2)), (check_sums k r (n / 2)).
Qed.

Lemma sum_pair k a b v : check_sums (S k) [a; b] 15 = Some v ->
  exists x, partial 1 [a; b] = Some x /\ v = 2 ^ 15 * x /\ 0 <= x < 2 ^ 49.
Proof.
  cbn [check_sums length Nat.eqb nth]. rewrite mask_mod by lia. set (w := u64 _). destruct (Z.eqb_spec (w mod 2 ^ 15) 0) as [Hw|]; [|done].
  intros [= <-]. pose proof (u64_range (itemHash a + itemHash b)) as Hr. fold w in Hr. unfold is_u in Hr.
  change [a; b] with ([a] ++ [b]). rewrite (partial_node 0 [a] [b]) by done. cbn [partial nth]. fold w. rewrite Hw. cbn [Z.eqb]. exists (Z.shiftr w 15).
  rewrite Z.shiftr_div_pow2 by lia. apply Z.mod_divide in Hw as [q Hq]; [|lia].
  assert (w / 2 ^ 15 = q) as -> by (rewrite Hq; apply Z.div_mul; lia). split_and!; lia || done.
Qed.

Lemma sum_quad a b c d v : check_sums 2 ([a; b] ++ [c; d]) 30 = Some v ->
  exists x, partial 2 ([a; b] ++ [c; d]) = Some x /\ v = u64 (2 ^ 30 * x).
Proof.
  rewrite check_sums_node by (cbn; lia). change (30 / 2) with 15.
  destruct (check_sums 1 [a; b] 15) as [u|] eqn:Hu; [|done]. destruct (check_sums 1 [c; d] 15) as [w|] eqn:Hw; [|done].
  apply sum_pair in Hu as (x & Hx & -> & Hxr). apply sum_pair in Hw as (y & Hy & -> & Hyr). rewrite mask_mod by lia.
  rewrite u64_mod by lia. rewrite <- Z.mul_add_distr_l. destruct (Z.eqb_spec ((2 ^ 15 * (x + y)) mod 2 ^ 30) 0) as [Hz|]; [|done]. intros [= <-].
  apply mod_mul_0 in Hz; [|lia]. change (30 - 15) with 15 in Hz. rewrite partial_node, Hx, Hy by done. rewrite u64_id by (unfold is_u; lia).
  rewrite Hz. cbn [Z.eqb]. exists (Z.shiftr (x + y) 15). split; [done|].
  rewrite Z.shiftr_div_pow2 by lia. apply Z.mod_divide in Hz as [q Hq]; [|lia]. rewrite Hq, Z.div_mul by lia. f_equal. lia.
Qed.

(** A verified sum is found by the last loop. *)
Lemma verified_sum l r v : length l = 4%nat -> length r = 4%nat -> checkTreeSums (l ++ r) equihashN = Some v ->
  exists x y, partial 2 l = Some x /\ partial 2 r = Some y /\ u64 (x + y) mod 2 ^ 30 = 0.
Proof.
  intros Hl Hr. unfold checkTreeSums, equihashN, equihashK. rewrite check_sums_node by lia. change (60 / 2) with 30.
  do 4 (destruct l as [|? l]; [done|]). destruct l; [|done]. do 4 (destruct r as [|? r]; [done|]). destruct r; [|done].
  destruct (check_sums 2 [z; z0; z1; z2] 30) as [u|] eqn:Hu; [|done]. destruct (check_sums 2 [z3; z4; z5; z6] 30) as [w|] eqn:Hw; [|done].
  apply (sum_quad z z0 z1 z2) in Hu as (x & Hx & ->). apply (sum_quad z3 z4 z5 z6) in Hw as (y & Hy & ->). intros Hs. exists x, y.
  split_and!; [done|done|]. rewrite mask_mod, u64_mod in Hs by lia. rewrite u64_mod by lia.
  destruct (Z.eqb_spec ((u64 (2 ^ 30 * x) + u64 (2 ^ 30 * y)) mod 2 ^ 60) 0) as [Hz|]; [|done].
  rewrite Z.add_mod, !u64_mod, <- Z.add_mod, <- Z.mul_add_distr_l in Hz by lia. apply mod_mul_0 in Hz; [done|lia].
Qed.

(** *** The last loop *)

Definition accepted (p : entry * entry) : bool := u64 (hash p.1 + hash p.2) mod 2 ^ 30 =? 0.

Lemma finish_spec ps : let st := foldl finish ([], []) ps in
  NoDup st.1 /\ st.2 = filter (fun s => Verify s = None) st.1 /\
  (forall p, p ∈ ps -> accepted p = true -> sortTreeOrder (items p.1 ++ items p.2) ∈ st.1).
Proof.
  induction ps as [|[x y] ps IH] using rev_ind; [cbn; split_and!; [constructor|done|intros p Hp; by apply not_elem_of_nil in Hp]|].
  cbv zeta in *. rewrite foldl_app. cbn [foldl]. destruct (foldl finish ([], []) ps) as [seen out]. cbn [fst snd] in IH.
  destruct IH as (Hnd & Ho & Hin). unfold finish. rewrite mask_mod by lia.
  assert (forall p, p ∈ ps ++ [(x, y)] -> p ∈ ps \/ p = (x, y)) as Hsplit by (intros p; rewrite elem_of_app, list_elem_of_singleton; done).
  destruct (Z.eqb_spec (u64 (hash x + hash y) mod 2 ^ 30) 0) as [Hz|Hz]; cbn [negb].
  2: { cbn [fst snd]. split_and!; [done|done|]. intros p [Hp| ->]%Hsplit Ha; [by apply Hin|]. unfold accepted in Ha. cbn [fst snd] in Ha. by apply Z.eqb_eq in Ha. }
  set (sol := sortTreeOrder (items x ++ items y)). destruct (bool_decide (sol ∈ seen)) eqn:Hb.
  - apply bool_decide_eq_true in Hb. cbn [fst snd]. split_and!; [done|done|]. intros p [Hp| ->]%Hsplit Ha; [by apply Hin|done].
  - apply bool_decide_eq_false in Hb. cbn [fst snd]. split_and!.
    + apply NoDup_app. split_and!; [done| |apply NoDup_singleton]. intros z Hzs ->%list_elem_of_singleton. done.
    + rewrite filter_app, <- Ho. destruct (Verify sol) eqn:Hv.
      * rewrite filter_cons_False by congruence. by rewrite filter_nil, app_nil_r.
      * rewrite filter_cons_True by done. by rewrite filter_nil.
    + intros p [Hp| ->]%Hsplit Ha; apply elem_of_app; [left; by apply Hin|right]. by apply list_elem_of_singleton.
Qed.

(** Everything in the layers is made of items. *)
Definition made (n : Z) (m : nat) (s : list Z) : Prop := length s = m /\ Forall (fun i => 0 <= i < n) s.
Definition all_made (n : Z) (m : nat) (bs : buckets) : Prop := Forall (Forall (fun x => made n m (items x))) bs.

Lemma made_bucket n m bs b : all_made n m bs -> Forall (fun x => made n m (items x)) (bucket bs b).
Proof. intros Hm. unfold bucket. destruct (bs !! _) as [l|] eqn:Hl; [|constructor]. by apply (Forall_lookup_1 _ _ _ _ Hm Hl). Qed.

Lemma made_put n m bs y : all_made n m bs -> made n m (items y) -> all_made n m (put bs y).
Proof. intros Hm Hy. apply Forall_alter; [done|]. intros l _ Hl. apply Forall_app. by split; [|constructor]. Qed.

Lemma made_empty n m : all_made n m empty_buckets.
Proof. apply Forall_replicate. constructor. Qed.

Lemma made_pairs n m bs p : all_made n m bs -> p ∈ pairs bs -> made n m (items p.1) /\ made n m (items p.2).
Proof.
  intros Hm Hp. apply list_elem_of_bind in Hp as (first & Hp & _). apply list_elem_of_join in Hp as (l & Hp & Hl).
  apply list_elem_of_lookup in Hl as [i Hi]. rewrite list_lookup_imap in Hi. destruct (bucket bs first !! i) as [x|] eqn:Hx; [|done].
  cbn in Hi. injection Hi as <-. apply list_elem_of_fmap in Hp as (y & -> & Hy). cbn [fst snd].
  split; [exact (Forall_lookup_1 _ _ _ _ (made_bucket n m bs first Hm) Hx)|]. unfold partners in Hy. apply list_elem_of_lookup in Hy as [j Hj].
  rewrite lookup_drop in Hj. exact (Forall_lookup_1 _ _ _ _ (made_bucket n m bs _ Hm) Hj).
Qed.

Lemma made_app n m s t : made n m s -> made n m t -> made n (m + m) (s ++ t).
Proof. intros [? ?] [? ?]. split; [rewrite length_app; lia|by apply Forall_app]. Qed.

Lemma made_layer0 n : all_made n 1 (layer0 n).
Proof.
  unfold layer0. assert (Forall (fun i => 0 <= i < n) (seqZ 0 n)) as Hr by (apply Forall_forall; intros i Hi%elem_of_seqZ; lia).
  pose proof (made_empty n 1) as Hm. revert Hm. generalize empty_buckets. induction Hr as [|i l Hi _ IH]; intros bs Hm; [done|].
  cbn. apply IH. apply made_put; [done|]. split; [done|by constructor].
Qed.

Lemma made_next n m bs : all_made n m bs -> all_made n (m + m) (next_layer bs).
Proof.
  intros Hm. unfold next_layer. assert (Forall (fun p => made n m (items p.1) /\ made n m (items p.2)) (pairs bs)) as Hp
    by (apply Forall_forall; intros p; by apply made_pairs).
  pose proof (made_empty n (m + m)) as He. revert He. generalize empty_buckets. induction Hp as [|[x y] l [Hx Hy] _ IH]; intros bs' He; [done|].
  cbn [foldl]. apply IH. unfold join. destruct (_ =? _); [|done]. apply made_put; [done|]. by apply made_app.
Qed.

Lemma sort_order_perm k l : Permutation (sort_order k l) l.
Proof.
  revert l. induction k as [|k IH]; intros l; [done|]. cbn [sort_order]. destruct (_ <=? _)%nat; [done|].
  set (mid := (length l / 2)%nat). transitivity (take mid l ++ drop mid l); [|by rewrite take_drop].
  destruct (_ <? _)%nat; (destruct (negb _); [rewrite Permutation_app_comm|]); [| |done..]; apply Permutation_app; apply IH.
Qed.

Lemma solutions_made n ps :
  Forall (fun p => made n 4 (items p.1) /\ made n 4 (items p.2)) ps -> Forall (made n 8) (foldl finish ([], []) ps).1.
Proof.
  induction ps as [|[x y] ps IH] using rev_ind; intros Hp; [constructor|]. apply Forall_app in Hp as [Hp Hq]. apply Forall_cons in Hq as [[Hx Hy] _].
  specialize (IH Hp). rewrite foldl_app. cbn [foldl]. destruct (foldl finish ([], []) ps) as [seen out]. unfold finish.
  destruct (negb _); [done|]. destruct (bool_decide _); [done|]. cbn [fst] in *. apply Forall_app. split; [done|]. constructor; [|constructor].
  destruct (made_app _ _ _ _ Hx Hy) as [Hl Hr]. split; [|]; unfold sortTreeOrder; rewrite sort_order_perm; done.
Qed.

(** *** Encoding *)

Lemma get_item (pre post : bytes) a : is_u 16 a -> Polyval.le_get (slice (pre ++ Polyval.le_put 2 a ++ post) (length pre) (length pre + 2)) = a.
Proof.
  intros Ha. rewrite (slice_skip (length pre)) by (done || lia). rewrite Nat.sub_diag.
  replace (length pre + 2 - length pre)%nat with 2%nat by lia. rewrite slice_here; [|unfold Polyval.le_put; by rewrite length_rev, length_be_put].
  unfold Polyval.le_get, Polyval.le_put. rewrite rev_involutive. by apply be_get_put_id.
Qed.

Lemma bytes_length s : length (Bytes s) = (2 * length s)%nat.
Proof. unfold Bytes. induction s as [|a s IH]; [done|]. cbn [flat_map]. rewrite length_app, IH. unfold Polyval.le_put. rewrite length_rev, length_be_put. cbn. lia. Qed.

Lemma get_items s : Forall (is_u 16) s -> forall pre n, length pre = (2 * n)%nat ->
  map (fun i => Polyval.le_get (slice (pre ++ Bytes s) (2 * i) (2 * i + 2))) (seq n (length s)) = s.
Proof.
  induction 1 as [|a s Ha _ IH]; intros pre n Hn; [done|]. cbn [length seq map]. unfold Bytes. cbn [flat_map]. fold (Bytes s). f_equal.
  - rewrite <- Hn. by apply get_item.
  - rewrite app_assoc. apply IH. rewrite length_app. unfold Polyval.le_put. rewrite length_rev, length_be_put. lia.
Qed.

Lemma solution_roundtrip s : length s = numItems -> Forall (is_u 16) s -> checkTreeOrder s = true -> SolutionFromBytes (Bytes s) = Ok s.
Proof.
  intros Hl Hs Ho. unfold SolutionFromBytes. rewrite bytes_length, Hl. change (negb (2 * numItems =? solutionLen)%nat) with false. cbv iota.
  pose proof (get_items s Hs [] 0 eq_refl) as Hg. rewrite Hl in Hg. cbn [app] in Hg. cbv zeta. rewrite Hg. by rewrite Ho.
Qed.

(** *** Solutions *)

Lemma solve_sound s : s ∈ Solve -> Verify s = None /\ length s = numItems /\ Forall (is_u 16) s.
Proof.
  unfold Solve, solve_items. set (bs := next_layer (next_layer (layer0 65536))).
  destruct (finish_spec (pairs bs)) as (_ & Ho & _). assert (Forall (made 65536 8) (foldl finish ([], []) (pairs bs)).1) as Hmade.
  { apply solutions_made. apply Forall_forall. intros p. apply made_pairs. apply (made_next _ 2), (made_next _ 1), made_layer0. }
  rewrite Ho. intros [Hs Hin']%list_elem_of_filter. split; [done|]. by apply (proj1 (Forall_forall _ _) Hmade).
Qed.

Lemma solve_once : NoDup Solve.
Proof.
  unfold Solve, solve_items. set (bs := next_layer (next_layer (layer0 65536))).
  destruct (finish_spec (pairs bs)) as (Hnd & Ho & _). rewrite Ho. by apply NoDup_filter.
Qed.

Lemma solve_complete s :
  length s = numItems -> Forall (is_u 16) s -> distinct equihashK s = true -> Verify s = None -> s ∈ Solve.
Proof.
  intros Hl Hr Hd Hv. unfold Solve, solve_items. set (bs := next_layer (next_layer (layer0 65536))).
  destruct (finish_spec (pairs bs)) as (_ & Ho & Hin).
  set (st := foldl finish ([], []) (pairs bs)) in *. clearbody st. rewrite Ho. apply list_elem_of_filter. split; [done|]. unfold numItems, equihashK in *.
  unfold Verify in Hv. destruct (checkTreeOrder s) eqn:Hord; [|done]. cbn [negb] in Hv.
  destruct (checkTreeSums s equihashN) as [v|] eqn:Hsum; [|done].
  assert (s = take 4 s ++ drop 4 s) as Hs by by rewrite take_drop. set (l := take 4 s) in *. set (r := drop 4 s) in *.
  assert (length l = 4%nat /\ length r = 4%nat) as [Hll Hlr] by (unfold l, r; rewrite length_take, length_drop; lia).
  clearbody l r. subst s. destruct (verified_sum l r v Hll Hlr Hsum) as (x & y & Hx & Hy & Hz).
  destruct (found_pair 65536 bs 2 l r x y) as (p & q & Hpq & Hh & Ht); try done.
  - apply found_next, found_next, found_layer0.
  - rewrite u64_mod in * by lia. apply Z.mod_divide in Hz; [|lia]. apply Z.mod_divide; [lia|]. eapply Z.divide_trans; [|exact Hz]. by exists (2 ^ 15).
  - rewrite <- (tree_sorts _ _ _ Ht Hord). apply (Hin (p, q) Hpq). unfold accepted. cbn [fst snd]. rewrite Hh. by apply Z.eqb_eq.
Qed.

(** ** Properties *)

(** C15: The solver finds exactly the solutions.  Every solution it returns verifies and
    is eight 16-bit items, and it returns none twice.  Conversely every verified solution whose items are
    16-bit numbers and in which no branch of the tree stands twice beside itself is
    among them: the bucket sort with 15 bits per layer, in 64-bit arithmetic, misses
    none, whatever the hash of the items. *)
Theorem solver_exact :
  (forall s, s ∈ Solve -> Verify s = None /\ length s = numItems /\ Forall (is_u 16) s) /\ NoDup Solve /\
  (forall s, length s = numItems -> Forall (is_u 16) s -> distinct equihashK s = true -> Verify s = None -> s ∈ Solve).
Proof. split_and!; [exact solve_sound|exact solve_once|exact solve_complete]. Qed.

End Hash.

Lemma solver_exact_witness : [0; 1; 2; 3; 4; 5; 6; 7] ∈ Solve (fun _ => 0).
Proof.
  destruct (solver_exact (fun _ => 0)) as (_ & _ & Hs).
  apply Hs; [reflexivity|repeat constructor; unfold is_u; lia|reflexivity|reflexivity].
Defined.

End EquiX.
