(* ===== verification/OnionPoW.v ===== *)
(** * Proofs of work for introductions (pkg/onion/pow.go)

    The client solves an Equi-X puzzle over the service's seed, and the service
    verifies it, with the seeds it has handed out.  HashX and the four-byte BLAKE2b
    are parameters. *)

From Stdlib Require Import String.
From S2P Require Import Prelude GoStrings Polyval EquiX.
Import GoStrings(lit).

Module OnionPoW.

Definition powSchemeV1 : Z := 1.
Definition introExtPoW : Z := 2.
Definition powExtFieldLen : nat := 41.
Definition powNonceLen : nat := 16.
Definition powSeedLen : nat := 32.
Definition powSolutionLen : nat := 16.
Definition powPString : bytes := lit "Tor hs intro v1" ++ [0].
(** Times are in nanoseconds. *)
Definition powSeedLifetime : Z := 2 * 3600 * 10 ^ 9.
Definition defaultHostPoWEffort : Z := 1.

(** A zero [Expiration] is [None]. *)
Record PoWParams := mkPoWParams { Seed : bytes; SuggestedEffort : Z; Expiration : option Z }.
Record PoWProof := mkPoWProof { Nonce : bytes; Effort : Z; SeedHead : bytes; PSolution : bytes }.

Inductive error :=
| errSeedLength | errBlindedLength | errExpired | errNonce | errCancelled | errNoProof | errSeedHead | errEffort
| errProgram | errSolution (e : EquiX.error) | errVerify (e : EquiX.error) | errWork | errNoSeed | errMissing | errParse.

Definition buildPoWChallenge (blindedID seed nonce : bytes) (effort : Z) : bytes :=
  powPString ++ blindedID ++ seed ++ nonce ++ PutUint32 effort.

Fixpoint incrementNonce (n : bytes) : bytes :=
  match n with
  | [] => []
  | b :: n => let b := u8 (b + 1) in if negb (b =? 0) then b :: n else b :: incrementNonce n
  end.

Definition encodePoWExtension (p : PoWProof) : bytes :=
  [introExtPoW; Z.of_nat powExtFieldLen; powSchemeV1] ++ Nonce p ++ PutUint32 (Effort p) ++ SeedHead p ++ PSolution p.

Definition parsePoWProof (field : bytes) : option PoWProof :=
  if negb (length field =? powExtFieldLen)%nat || negb (at_ field 0 =? powSchemeV1) then None
  else Some (mkPoWProof (slice field 1 17) (be_get (slice field 17 21)) (slice field 21 25) (slice field 25 41)).

Definition expired (p : PoWParams) (now : Z) : bool := match Expiration p with None => false | Some e => e <? now end.

(** *** The service's seeds *)

Record seeds := mkSeeds { powSeed : bytes; powSeedPrev : bytes; powExpire : Z }.

(** [rnd]: what [rand.Read] gives. *)
Definition ensurePoWParams (s : seeds) (now : Z) (rnd : option bytes) : seeds * option PoWParams :=
  let params s := mkPoWParams (powSeed s) defaultHostPoWEffort (Some (powExpire s)) in
  if negb (length (powSeed s) =? powSeedLen)%nat || negb (now <? powExpire s) then
    let s := if (length (powSeed s) =? powSeedLen)%nat then mkSeeds (powSeed s) (powSeed s) (powExpire s) else s in
    match rnd with
    | None => (s, None)
    | Some seed => let s := mkSeeds seed (powSeedPrev s) (now + powSeedLifetime) in (s, Some (params s))
    end
  else (s, Some (params s)).

Definition paramsForPoWProof (s : seeds) (proof : PoWProof) : option PoWParams :=
  if (length (powSeed s) =? powSeedLen)%nat && bool_decide (SeedHead proof = take 4 (powSeed s)) then
    Some (mkPoWParams (powSeed s) defaultHostPoWEffort (Some (powExpire s)))
  else if (length (powSeedPrev s) =? powSeedLen)%nat && bool_decide (SeedHead proof = take 4 (powSeedPrev s)) then
    Some (mkPoWParams (powSeedPrev s) defaultHostPoWEffort None)
  else None.

(** ** Lemmas *)

Lemma length_incrementNonce n : length (incrementNonce n) = length n.
Proof. induction n as [|b n IH]; [done|]. cbn. destruct (negb _); cbn; [done|by rewrite IH]. Qed.

Lemma incrementNonce_bytes n : Forall is_byte n -> Forall is_byte (incrementNonce n).
Proof.
  assert (forall b, is_byte (u8 b)) as Hb by (intros b; unfold is_byte, u8; apply Z.mod_pos_bound; lia).
  induction 1 as [|b n ? ? IH]; [constructor|]. cbn. destruct (negb _); constructor; auto.
Qed.

Lemma le_get_cons b n : is_byte b -> Forall is_byte n -> Polyval.le_get (b :: n) = b + 256 * Polyval.le_get n.
Proof.
  intros Hb Hn. unfold Polyval.le_get. cbn [rev].
  assert (forall l acc, Forall is_byte l -> be_get_acc acc (l ++ [b]) = be_get_acc acc l * 256 + b) as He.
  { induction l as [|c l IH]; intros acc Hl; cbn [app be_get_acc]; [by apply lor_shift_byte|]. apply Forall_cons in Hl as [_ Hl]. by apply IH. }
  unfold be_get. rewrite He by by apply Forall_rev. lia.
Qed.

(** The nonce counts upwards, from its first byte on. *)
Lemma incrementNonce_counts n : Forall is_byte n ->
  Polyval.le_get (incrementNonce n) = (Polyval.le_get n + 1) mod 2 ^ (8 * len n).
Proof.
  induction 1 as [|b n Hb Hn IH]; [done|]. pose proof (incrementNonce_bytes n Hn) as Hi. cbn [incrementNonce].
  assert (0 <= Polyval.le_get n < 2 ^ (8 * len n)) as Hr by (apply (Polyval.le_get_range n _ Hn eq_refl)).
  unfold is_byte in Hb. rewrite (le_get_cons b n) by done.
  replace (8 * len (b :: n)) with (8 + 8 * len n) by (unfold len; cbn [length]; lia). rewrite Z.pow_add_r by (pose proof (len_nonneg n); lia).
  destruct (decide (b = 255)) as [->|Hne].
  - change (u8 (255 + 1)) with 0. cbn [Z.eqb negb]. rewrite le_get_cons, IH by (done || unfold is_byte; lia).
    replace (255 + 256 * Polyval.le_get n + 1) with (2 ^ 8 * (Polyval.le_get n + 1)) by lia. rewrite Z.mul_mod_distr_l by lia. lia.
  - assert (u8 (b + 1) = b + 1) as -> by (apply Z.mod_small; lia). rewrite (proj2 (Z.eqb_neq _ _)) by lia. cbn [negb].
    rewrite le_get_cons by (done || unfold is_byte; lia). rewrite Z.mod_small; nia.
Qed.

Definition wf_proof (p : PoWProof) : Prop :=
  length (Nonce p) = 16%nat /\ is_u 32 (Effort p) /\ length (SeedHead p) = 4%nat /\ length (PSolution p) = 16%nat.

Lemma proof_roundtrip p : wf_proof p -> parsePoWProof (drop 2 (encodePoWExtension p)) = Some p.
Proof.
  intros (Hn & He & Hh & Hs). unfold encodePoWExtension. cbn [app drop]. unfold parsePoWProof.
  assert (length (powSchemeV1 :: Nonce p ++ PutUint32 (Effort p) ++ SeedHead p ++ PSolution p) = powExtFieldLen) as ->
    by (cbn [length]; rewrite !length_app, length_PutUint32; unfold powExtFieldLen; lia).
  rewrite Nat.eqb_refl. change (at_ (powSchemeV1 :: _) 0) with powSchemeV1. rewrite Z.eqb_refl. cbn [negb orb].
  change (powSchemeV1 :: ?t) with ([powSchemeV1] ++ t).
  fields. rewrite get_PutUint32 by done. by destruct p.
Qed.

Section Work.
Context (hashx : bytes -> option (Z -> Z)) (blake2b4 : bytes -> bytes).

Definition effortSatisfied (challenge solution : bytes) (effort : Z) : bool :=
  if effort =? 0 then true else be_get (blake2b4 (challenge ++ solution)) * effort <=? MaxUint32.

(** *** The client *)

(** [turns]: how often the loop starts over before the context is cancelled. *)
Fixpoint solve_loop (turns : nat) (params : PoWParams) (blindedID nonce : bytes) (effort : Z) : result error PoWProof :=
  match turns with
  | O => Err errCancelled
  | S turns =>
      let ch := buildPoWChallenge blindedID (Seed params) nonce effort in
      match hashx ch with
      | None => solve_loop turns params blindedID (incrementNonce nonce) effort
      | Some itemHash =>
          match list_find (fun sol => effortSatisfied ch (EquiX.Bytes sol) effort = true) (EquiX.Solve itemHash) with
          | Some (_, sol) => Ok (mkPoWProof nonce effort (take 4 (Seed params)) (EquiX.Bytes sol))
          | None => solve_loop turns params blindedID (incrementNonce nonce) effort
          end
      end
  end.

Definition SolveOnionPoW (turns : nat) (now : Z) (rnd : option bytes) (params : option PoWParams) (blindedID : bytes) : result error (option PoWProof) :=
  match params with
  | None => Ok None
  | Some params =>
      if negb (length (Seed params) =? powSeedLen)%nat then Err errSeedLength
      else if negb (length blindedID =? 32)%nat then Err errBlindedLength
      else if expired params now then Err errExpired
      else if SuggestedEffort params =? 0 then Ok None
      else
        match rnd with
        | None => Err errNonce
        | Some nonce => let? p := solve_loop turns params blindedID nonce (SuggestedEffort params) in Ok (Some p)
        end
  end.

(** *** The service *)

Definition VerifyOnionPoW (now : Z) (proof : option PoWProof) (params : option PoWParams) (blindedID : bytes) : option error :=
  match proof with
  | None => Some errNoProof
  | Some proof =>
      match params with
      | None => Some errSeedLength
      | Some params =>
          if negb (length (Seed params) =? powSeedLen)%nat then Some errSeedLength
          else if negb (length blindedID =? 32)%nat then Some errBlindedLength
          else if negb (bool_decide (SeedHead proof = take 4 (Seed params))) then Some errSeedHead
          else if expired params now then Some errExpired
          else if Effort proof <? SuggestedEffort params then Some errEffort
          else
            let ch := buildPoWChallenge blindedID (Seed params) (Nonce proof) (Effort proof) in
            match hashx ch with
            | None => Some errProgram
            | Some itemHash =>
                match EquiX.SolutionFromBytes (PSolution proof) with
                | Err e => Some (errSolution e)
                | Ok sol =>
                    match EquiX.Verify itemHash sol with
                    | Some e => Some (errVerify e)
                    | None => if negb (effortSatisfied ch (PSolution proof) (Effort proof)) then Some errWork else None
                    end
                end
            end
      end
  end.

(** [now] is read by [ensurePoWParams], [now'] by [VerifyOnionPoW]. *)
Definition verifyIntroducePoW (enabled : bool) (s : seeds) (now now' : Z) (rnd : option bytes) (Extensions : gmap Z bytes) (blinded : bytes) : seeds * option error :=
  if negb enabled then (s, None)
  else
    let '(s, params) := ensurePoWParams s now rnd in
    match params with
    | None => (s, Some errNoSeed)
    | Some params =>
        let field := default [] (Extensions !! introExtPoW) in
        if (SuggestedEffort params =? 0) && (length field =? 0)%nat then (s, None)
        else if negb (SuggestedEffort params =? 0) && (length field =? 0)%nat then (s, Some errMissing)
        else
          match parsePoWProof field with
          | None => (s, Some errParse)
          | Some proof =>
              match paramsForPoWProof s proof with
              | None => (s, Some errSeedHead)
              | Some matched => (s, VerifyOnionPoW now' (Some proof) (Some matched) blinded)
              end
          end
    end.

(** *** Solving *)

(** A proof of the wanted effort, over the seed. *)
Definition proves (seed blindedID : bytes) (p : PoWProof) : Prop :=
  SeedHead p = take 4 seed /\
  let ch := buildPoWChallenge blindedID seed (Nonce p) (Effort p) in
  exists itemHash sol, hashx ch = Some itemHash /\ EquiX.Verify itemHash sol = None /\ length sol = EquiX.numItems /\ Forall (is_u 16) sol /\
    PSolution p = EquiX.Bytes sol /\ effortSatisfied ch (EquiX.Bytes sol) (Effort p) = true.

Lemma solve_loop_sound turns params blindedID nonce effort p :
  solve_loop turns params blindedID nonce effort = Ok p ->
  proves (Seed params) blindedID p /\ Effort p = effort /\ length (Nonce p) = length nonce.
Proof.
  revert nonce. induction turns as [|turns IH]; intros nonce Hp; [done|]. cbn [solve_loop] in Hp.
  assert (solve_loop turns params blindedID (incrementNonce nonce) effort = Ok p ->
    proves (Seed params) blindedID p /\ Effort p = effort /\ length (Nonce p) = length nonce) as Hnext
    by (intros Hp'; rewrite <- (length_incrementNonce nonce); by apply IH).
  destruct (hashx _) as [itemHash|] eqn:Hx; [|by apply Hnext].
  destruct (list_find _ _) as [[i sol]|] eqn:Hf; [|by apply Hnext]. injection Hp as <-.
  apply list_find_Some in Hf as (Hl & He & _). apply list_elem_of_lookup_2, EquiX.solve_sound in Hl as (Hv & Hn & Hu).
  split_and!; [split; [done|]|done|done]. exists itemHash, sol. done.
Qed.

(** The nonce of turn [j]. *)
Fixpoint nonce_at (nonce : bytes) (j : nat) : bytes :=
  match j with O => nonce | S j => incrementNonce (nonce_at nonce j) end.

Lemma nonce_at_succ nonce j : nonce_at nonce (S j) = nonce_at (incrementNonce nonce) j.
Proof. induction j as [|j IH]; [done|]. cbn [nonce_at] in *. by rewrite IH. Qed.

Lemma nonce_at_spec nonce j : Forall is_byte nonce -> length nonce = powNonceLen ->
  nonce_at nonce j = Polyval.le_put powNonceLen (Polyval.le_get nonce + Z.of_nat j).
Proof.
  intros Hb Hl. assert (Forall is_byte (nonce_at nonce j) /\ length (nonce_at nonce j) = powNonceLen /\
    Polyval.le_get (nonce_at nonce j) = (Polyval.le_get nonce + Z.of_nat j) mod 2 ^ (8 * Z.of_nat powNonceLen)) as (Hb' & Hl' & Hg).
  { induction j as [|j (Hb' & Hl' & Hg)].
    - split_and!; [done|done|]. cbn [nonce_at Z.of_nat]. rewrite Z.add_0_r, Z.mod_small; [done|]. exact (Polyval.le_get_range nonce _ Hb Hl).
    - cbn [nonce_at]. split_and!; [by apply incrementNonce_bytes|by rewrite length_incrementNonce|].
      rewrite incrementNonce_counts by done. unfold len. rewrite Hl', Hg, Zplus_mod_idemp_l. f_equal. lia. }
  assert (nonce_at nonce j = Polyval.le_put powNonceLen (Polyval.le_get (nonce_at nonce j))) as ->.
  { unfold Polyval.le_put, Polyval.le_get. rewrite be_put_get_len by (by rewrite ?length_rev || by apply Forall_rev). by rewrite rev_involutive. }
  rewrite Hg. unfold Polyval.le_put. f_equal. rewrite <- be_get_put. rewrite be_put_get_len; [done|apply length_be_put|apply be_put_bytes].
Qed.

Lemma solve_loop_complete turns params blindedID nonce effort j itemHash sol :
  (j < turns)%nat -> hashx (buildPoWChallenge blindedID (Seed params) (nonce_at nonce j) effort) = Some itemHash ->
  sol ∈ EquiX.Solve itemHash -> effortSatisfied (buildPoWChallenge blindedID (Seed params) (nonce_at nonce j) effort) (EquiX.Bytes sol) effort = true ->
  exists p, solve_loop turns params blindedID nonce effort = Ok p.
Proof.
  revert nonce j. induction turns as [|turns IH]; intros nonce j Hj Hx Hs He; [lia|]. cbn [solve_loop].
  assert (j <> 0%nat -> exists p, solve_loop turns params blindedID (incrementNonce nonce) effort = Ok p) as Hnext.
  { intros Hne. destruct j as [|j]; [done|]. rewrite nonce_at_succ in Hx, He. apply (IH _ j); [lia|done|done|done]. }
  destruct (decide (j = 0%nat)) as [->|Hne].
  - cbn [nonce_at] in Hx, He. rewrite Hx. destruct (list_find _ _) as [[i sol']|] eqn:Hf; [eauto|].
    apply list_find_None in Hf. exfalso. exact (proj1 (Forall_forall _ _) Hf sol Hs He).
  - specialize (Hnext Hne). clear Hx. destruct (hashx _) as [h|]; [|done]. destruct (list_find _ _) as [[i sol']|]; [eauto|done].
Qed.

(** *** Verifying *)

Lemma proves_verified now params blindedID p :
  proves (Seed params) blindedID p -> length (Seed params) = powSeedLen -> length blindedID = 32%nat -> expired params now = false ->
  SuggestedEffort params <= Effort p -> VerifyOnionPoW now (Some p) (Some params) blindedID = None.
Proof.
  intros (Hh & itemHash & sol & Hx & Hv & Hn & Hu & Hs & He) Hl Hb Hexp Hle. unfold VerifyOnionPoW.
  rewrite Hl, Hb, Hexp, Hx, Hs, bool_decide_eq_true_2 by done. cbn [Nat.eqb negb powSeedLen].
  rewrite (proj2 (Z.ltb_ge _ _) Hle). rewrite EquiX.solution_roundtrip; [|done|done|].
  - by rewrite Hv, He.
  - unfold EquiX.Verify in Hv. by destruct (EquiX.checkTreeOrder sol).
Qed.

Lemma accepted_work now p params blindedID : VerifyOnionPoW now (Some p) (Some params) blindedID = None ->
  let ch := buildPoWChallenge blindedID (Seed params) (Nonce p) (Effort p) in
  SuggestedEffort params <= Effort p /\ SeedHead p = take 4 (Seed params) /\ expired params now = false /\
  exists itemHash sol, hashx ch = Some itemHash /\ EquiX.SolutionFromBytes (PSolution p) = Ok sol /\ EquiX.Verify itemHash sol = None /\
    effortSatisfied ch (PSolution p) (Effort p) = true.
Proof.
  unfold VerifyOnionPoW. destruct (negb _); [done|]. destruct (negb _); [done|]. destruct (bool_decide _) eqn:Hh; [|done].
  apply bool_decide_eq_true in Hh. destruct (expired _ _); [done|]. cbn [negb]. destruct (Z.ltb_spec (Effort p) (SuggestedEffort params)); [done|].
  cbv zeta. destruct (hashx _) as [h|] eqn:Hx; [|done]. destruct (EquiX.SolutionFromBytes _) as [sol|e] eqn:Hs; [|done].
  destruct (EquiX.Verify h sol) eqn:Hv; [done|]. destruct (effortSatisfied _ _ _) eqn:He; [|done]. intros _.
  split_and!; [done|done|done|]. by exists h, sol.
Qed.

Lemma ensure_gives s now rnd s' params :
  ensurePoWParams s now rnd = (s', Some params) -> (forall r, rnd = Some r -> length r = powSeedLen) ->
  length (powSeed s') = powSeedLen /\ params = mkPoWParams (powSeed s') 1 (Some (powExpire s')).
Proof.
  unfold ensurePoWParams. intros H Hr. destruct (Nat.eqb_spec (length (powSeed s)) powSeedLen), (now <? powExpire s); cbn [negb orb] in H;
    (destruct rnd as [r|]; [specialize (Hr r eq_refl)|]); simplify_eq/=; done.
Qed.

Lemma ensure_current s now rnd : length (powSeed s) = powSeedLen -> now < powExpire s ->
  ensurePoWParams s now rnd = (s, Some (mkPoWParams (powSeed s) 1 (Some (powExpire s)))).
Proof. intros Hl Hn. unfold ensurePoWParams. by rewrite Hl, Nat.eqb_refl, (proj2 (Z.ltb_lt _ _) Hn). Qed.

Lemma ensure_rotates s now seed : length (powSeed s) = powSeedLen -> powExpire s <= now ->
  ensurePoWParams s now (Some seed) =
    (mkSeeds seed (powSeed s) (now + powSeedLifetime), Some (mkPoWParams seed 1 (Some (now + powSeedLifetime)))).
Proof. intros Hl Hn. unfold ensurePoWParams. by rewrite Hl, Nat.eqb_refl, (proj2 (Z.ltb_ge _ _) Hn). Qed.

Lemma ensure_effort s now rnd s' params : ensurePoWParams s now rnd = (s', Some params) -> SuggestedEffort params = 1.
Proof. unfold ensurePoWParams. intros H. destruct (_ || _), rnd; simplify_eq/=; done. Qed.

(** What the service does with the extension of a well-formed proof. *)
Lemma verify_extension s s' now now' rnd params p blinded :
  wf_proof p -> ensurePoWParams s now rnd = (s', Some params) -> SuggestedEffort params = 1 ->
  verifyIntroducePoW true s now now' rnd {[introExtPoW := drop 2 (encodePoWExtension p)]} blinded =
    match paramsForPoWProof s' p with
    | None => (s', Some errSeedHead)
    | Some matched => (s', VerifyOnionPoW now' (Some p) (Some matched) blinded)
    end.
Proof.
  intros Hwf He Hs. unfold verifyIntroducePoW. cbn [negb]. rewrite He, Hs, lookup_singleton_eq. cbn [from_option id Z.eqb andb negb].
  rewrite proof_roundtrip by done. assert (length (drop 2 (encodePoWExtension p)) =? 0 = false)%nat as ->; [|done].
  unfold encodePoWExtension. done.
Qed.

Lemma solved params blinded turns now nonce p :
  SolveOnionPoW turns now (Some nonce) (Some params) blinded = Ok (Some p) ->
  length nonce = powNonceLen -> SuggestedEffort params = 1 ->
  proves (Seed params) blinded p /\ wf_proof p /\ Effort p = 1 /\ length (Seed params) = powSeedLen /\ length blinded = 32%nat.
Proof.
  unfold SolveOnionPoW. intros H Hl Hs. rewrite Hs in H. destruct (Nat.eqb_spec (length (Seed params)) powSeedLen) as [Hsl|]; [|done].
  destruct (Nat.eqb_spec (length blinded) 32) as [Hb|]; [|done]. cbn [negb] in H. destruct (expired _ _); [done|]. cbn [Z.eqb] in H.
  apply result_bind_ok in H as (q & Hq & [= ->]). apply solve_loop_sound in Hq as (Hp & He & Hn). split_and!; [done| |done|done|done].
  destruct Hp as (Hh & h & sol & _ & _ & Hsol & _ & HS & _). split_and!.
  - by rewrite Hn, Hl.
  - rewrite He. unfold is_u. lia.
  - rewrite Hh, length_take, Hsl. done.
  - by rewrite HS, EquiX.bytes_length, Hsol.
Qed.

(** ** Properties *)

(** C16: Work done for a seed admits the client as long as the service knows the seed.
    With the parameters the service published, a seed, blinded key and nonce of their
    lengths and a client that starts before the seed expires: the client finds a proof within its
    turns whenever one of the nonces it comes by, counting up from the random one
    modulo [2 ^ 128], has a solution of the effort that is not degenerate (at every
    stage its two halves differ, [EquiX.distinct]; [Verify] accepts others too, the
    solver never returns them).  A proof it finds is accepted until the seed
    expires.  It is still accepted after the service has changed the seed once,
    provided the first four bytes of the new seed, by which seeds are told apart,
    differ from those of the proof's; and it is refused after the second change,
    provided the same of the third seed.  In any case an accepted extension holds a
    verified solution whose hash is below the bound of its effort. *)
Theorem pow_admission s0 t0 rnd0 s params blinded turns tc nonce :
  ensurePoWParams s0 t0 rnd0 = (s, Some params) -> (forall r, rnd0 = Some r -> length r = powSeedLen) ->
  length blinded = 32%nat -> Forall is_byte nonce -> length nonce = powNonceLen -> tc <= powExpire s ->
  let ext p := {[introExtPoW := drop 2 (encodePoWExtension p)]} in
  (forall (j : nat) itemHash sol, (j < turns)%nat ->
     let ch := buildPoWChallenge blinded (Seed params) (Polyval.le_put powNonceLen (Polyval.le_get nonce + Z.of_nat j)) 1 in
     hashx ch = Some itemHash -> length sol = EquiX.numItems -> Forall (is_u 16) sol -> EquiX.distinct EquiX.equihashK sol = true ->
     EquiX.Verify itemHash sol = None -> effortSatisfied ch (EquiX.Bytes sol) 1 = true ->
     exists p, SolveOnionPoW turns tc (Some nonce) (Some params) blinded = Ok (Some p)) /\
  (forall p, SolveOnionPoW turns tc (Some nonce) (Some params) blinded = Ok (Some p) ->
     (forall t t' rnd, t < powExpire s -> t' <= powExpire s -> verifyIntroducePoW true s t t' rnd (ext p) blinded = (s, None)) /\
     (forall t t' seed2, powExpire s <= t -> length seed2 = powSeedLen -> take 4 seed2 <> take 4 (Seed params) ->
        let s2 := mkSeeds seed2 (Seed params) (t + powSeedLifetime) in
        verifyIntroducePoW true s t t' (Some seed2) (ext p) blinded = (s2, None) /\
        (forall u u' seed3, t + powSeedLifetime <= u -> take 4 seed3 <> take 4 (Seed params) ->
           (verifyIntroducePoW true s2 u u' (Some seed3) (ext p) blinded).2 = Some errSeedHead))) /\
  (forall t t' rnd exts s', verifyIntroducePoW true s t t' rnd exts blinded = (s', None) ->
     exists p seed itemHash sol, parsePoWProof (default [] (exts !! introExtPoW)) = Some p /\ (seed = powSeed s' \/ seed = powSeedPrev s') /\
       let ch := buildPoWChallenge blinded seed (Nonce p) (Effort p) in
       hashx ch = Some itemHash /\ EquiX.SolutionFromBytes (PSolution p) = Ok sol /\ EquiX.Verify itemHash sol = None /\
       1 <= Effort p /\ be_get (blake2b4 (ch ++ PSolution p)) * Effort p <= MaxUint32).
Proof.
  intros Hens Hrnd Hb Hnb Hnl Htc ext. destruct (ensure_gives _ _ _ _ _ Hens Hrnd) as [Hsl ->]. cbn [Seed]. split_and!.
  - intros j itemHash sol Hj Hx Hl Hu Hd Hv He. unfold SolveOnionPoW. cbn [Seed SuggestedEffort]. rewrite Hsl, Hb, Nat.eqb_refl. cbn [Nat.eqb negb].
    unfold expired. cbn [Expiration]. rewrite (proj2 (Z.ltb_ge _ _) Htc). cbn [Z.eqb]. rewrite <- nonce_at_spec in Hx, He by done.
    destruct (solve_loop_complete turns (mkPoWParams (powSeed s) 1 (Some (powExpire s))) blinded nonce 1 j itemHash sol Hj Hx) as [p ->];
      [by apply EquiX.solve_complete|done|]. by exists p.
  - intros p Hp. destruct (solved _ _ _ _ _ _ Hp Hnl eq_refl) as (Hpr & Hwf & He & _ & _). cbn [Seed] in Hpr. pose proof Hpr as [Hh _]. split.
    + intros t t' rnd Ht Ht'. unfold ext. rewrite (verify_extension s s t t' rnd _ p blinded Hwf (ensure_current _ _ _ Hsl Ht) eq_refl).
      unfold paramsForPoWProof. rewrite Hsl, Nat.eqb_refl, bool_decide_eq_true_2 by done. cbn [andb]. f_equal.
      apply proves_verified; [done|done|done| |rewrite He; done]. unfold expired. cbn [Expiration]. by apply Z.ltb_ge.
    + intros t t' seed2 Ht Hl2 Hne. set (s2 := mkSeeds _ _ _). unfold ext.
      rewrite (verify_extension s s2 t t' _ _ p blinded Hwf (ensure_rotates _ _ _ Hsl Ht) eq_refl). split.
      * unfold paramsForPoWProof. cbn [powSeed powSeedPrev s2]. rewrite Hl2, Hsl, Nat.eqb_refl, bool_decide_eq_false_2 by congruence.
        rewrite bool_decide_eq_true_2 by done. cbn [andb]. f_equal. apply proves_verified; [done|done|done|done|rewrite He; done].
      * intros u u' seed3 Hu Hne3. rewrite (verify_extension s2 _ u u' _ _ p blinded Hwf (ensure_rotates s2 u seed3 Hl2 Hu) eq_refl).
        unfold paramsForPoWProof. cbn [powSeed powSeedPrev s2]. rewrite !bool_decide_eq_false_2 by congruence. by rewrite !andb_false_r.
  - intros t t' rnd exts s' Hv. unfold verifyIntroducePoW in Hv. cbn [negb] in Hv. destruct (ensurePoWParams s t rnd) as [s1 [params|]] eqn:Hs1; [|done].
    rewrite (ensure_effort _ _ _ _ _ Hs1) in Hv. cbn [Z.eqb andb negb] in Hv. destruct (_ =? _)%nat; [done|].
    destruct (parsePoWProof _) as [p|] eqn:Hp; [|done]. destruct (paramsForPoWProof s1 p) as [m|] eqn:Hm; [|done]. injection Hv as <- Hv.
    apply accepted_work in Hv as (Hle & Hh & _ & h & sol & Hx & Hs & Hv & He). exists p, (Seed m), h, sol.
    assert (SuggestedEffort m = 1 /\ (Seed m = powSeed s1 \/ Seed m = powSeedPrev s1)) as [Hm1 Hseed].
    { unfold paramsForPoWProof in Hm. destruct (_ && _); [injection Hm as <-; auto|]. destruct (_ && _); [injection Hm as <-; auto|done]. }
    rewrite Hm1 in Hle. split_and!; [done|done|done|done|done|done|]. unfold effortSatisfied in He.
    destruct (Z.eqb_spec (Effort p) 0); [lia|]. by apply Z.leb_le.
Qed.

End Work.

Lemma pow_admission_witness :
  let hx := fun _ : bytes => Some (fun _ : Z => 0) in
  let b4 := fun _ : bytes => zeros 4 in
  let s := mkSeeds (replicate 32 7) [] powSeedLifetime in
  exists p, SolveOnionPoW hx b4 1 5 (Some (zeros 16)) (Some (mkPoWParams (replicate 32 7) 1 (Some powSeedLifetime))) (zeros 32) = Ok (Some p) /\
    verifyIntroducePoW hx b4 true s 6 6 None {[introExtPoW := drop 2 (encodePoWExtension p)]} (zeros 32) = (s, None).
Proof.
  intros hx b4 s.
  destruct (pow_admission hx b4 (mkSeeds [] [] 0) 0 (Some (replicate 32 7)) s (mkPoWParams (replicate 32 7) 1 (Some powSeedLifetime)) (zeros 32) 1 5 (zeros 16))
    as (Hlive & Hacc & _).
  - reflexivity.
  - intros r [= <-]. reflexivity.
  - reflexivity.
  - apply zeros_bytes.
  - reflexivity.
  - vm_compute. discriminate.
  - destruct (Hlive 0%nat (fun _ => 0) [0; 1; 2; 3; 4; 5; 6; 7]) as [p Hp].
    + lia.
    + reflexivity.
    + reflexivity.
    + repeat constructor; unfold is_u; lia.
    + reflexivity.
    + reflexivity.
    + reflexivity.
    + exists p. split; [exact Hp|]. apply (Hacc p Hp); vm_compute; [reflexivity|discriminate].
Defined.

End OnionPoW.
