(* ===== verification/RelayCrypto.v ===== *)
(** * Relay cells at a relay, and the whole circuit
      (pkg/relay/circuit_crypto.go, pkg/circuit/extension.go)

    What one relay does with a relay cell: peel a layer and look whether the cell
    is for it, add a layer on the way back, originate a message of its own.  With
    the client's side ([Onion.v], its CGO operations now those of [CGO.v]) this
    makes a whole circuit, in which every hop uses classic or CGO encryption.
    AES and SHA-1 are parameters.  A nil receiver is not represented. *)

From Stdlib Require Import Btauto.
From S2P Require Import Prelude Conversion Cell RelayCell CGO Onion.
Import Onion.

Module RelayCrypto.
Import CGO(CGOPair, mkPair, Fwd, Back, CGODir, nonce, in_sync).

Definition cgoADRelay : Z := 3.
Definition cgoADRelayEarly : Z := 9.

Record circuitCrypto := mkCC {
  fwdCipher : option cipher;
  bwdCipher : option cipher;
  fwdDigest : option bytes;
  bwdDigest : option bytes;
  cgo : option CGOPair;
}.

Inductive error :=
| errKeyMaterial (n : Z)
| errCGO (e : CGO.error)
| errIV (n : Z)
| errInbound
| errOutbound
| errNil
| errNotRecognized
| errDigest
| errRelayCell (e : RelayCell.error).

Definition usesCGO (cc : circuitCrypto) : bool := match cgo cc with Some _ => true | None => false end.

Definition cgoAD (cmd : Z) : Z := if cmd =? Cell.CmdRelayEarly then cgoADRelayEarly else cgoADRelay.

Definition with_fwd (cc : circuitCrypto) (c : cipher) (d : option bytes) : circuitCrypto :=
  mkCC (Some c) (bwdCipher cc) d (bwdDigest cc) (cgo cc).
Definition with_bwd (cc : circuitCrypto) (c : option cipher) (d : option bytes) : circuitCrypto :=
  mkCC (fwdCipher cc) c (fwdDigest cc) d (cgo cc).
Definition with_cgo (cc : circuitCrypto) (p : CGOPair) : circuitCrypto :=
  mkCC (fwdCipher cc) (bwdCipher cc) (fwdDigest cc) (bwdDigest cc) (Some p).

Definition lift_cgo {A} (r : result CGO.error A) : result error A :=
  match r with Ok a => Ok a | Err e => Err (errCGO e) end.

Section Relay.
(** AES on a block, its inverse, and SHA-1. *)
Context (Encrypt Decrypt : bytes -> bytes -> bytes) (H : bytes -> bytes).

(** [cipher.NewCTR]: byte [i] of the keystream. *)
Definition NewCTR (key iv : bytes) : cipher :=
  mkCipher (fun i => at_ (Encrypt key (be_put 16 (be_get iv + Z.of_nat (i / 16)))) (i mod 16)) 0.

Definition NewAESCTRCipher (key iv : bytes) : result error cipher :=
  let? block := lift_cgo (CGO.NewCipher key) in
  if negb (len iv =? 16) then Err (errIV (len iv)) else Ok (NewCTR block iv).

Definition newCircuitCrypto (keyMaterial : bytes) : result error circuitCrypto :=
  if (length keyMaterial =? CGO.CGOKeyMaterialLen)%nat then
    let? keys := lift_cgo (CGO.NewCGORelayPairFromKeyMaterial keyMaterial) in
    Ok (mkCC None None None None (Some keys))
  else if (length keyMaterial =? 72)%nat then
    let df := slice keyMaterial 0 20 in
    let db := slice keyMaterial 20 40 in
    let kf := slice keyMaterial 40 56 in
    let kb := slice keyMaterial 56 72 in
    let zeroIV := zeros 16 in
    let? fwdW := NewAESCTRCipher kf zeroIV in
    let? bwdW := NewAESCTRCipher kb zeroIV in
    Ok (mkCC (Some fwdW) (Some bwdW) (Some df) (Some db) None)
  else Err (errKeyMaterial (len keyMaterial)).

Definition peelInboundLocked (cc : circuitCrypto) (payload : bytes) (ad : Z) :
    circuitCrypto * result error (bytes * bool * bytes) :=
  match cgo cc with
  | Some p =>
      let '(d, r) := CGO.RelayForward Encrypt Decrypt (Fwd p) ad payload in
      (with_cgo cc (mkPair d (Back p)), lift_cgo r)
  | None =>
      match fwdCipher cc with
      | None => (cc, Err errNil)
      | Some c =>
          let '(c, out) := XORKeyStream c payload in
          let cc := with_fwd cc c (fwdDigest cc) in
          if negb (at_ out 1 =? 0) || negb (at_ out 2 =? 0) then (cc, Ok (out, false, []))
          else
            let cellCopy := zero_digest out in
            match fwdDigest cc with
            | None => (cc, Err errNil)
            | Some written =>
                let sum := H (written ++ cellCopy) in
                if negb (at_ sum 0 =? at_ out 5) || negb (at_ sum 1 =? at_ out 6)
                   || negb (at_ sum 2 =? at_ out 7) || negb (at_ sum 3 =? at_ out 8)
                then (cc, Ok (out, false, []))
                else (with_fwd cc c (Some (written ++ cellCopy)), Ok (out, true, sum))
            end
      end
  end.

Definition peelInboundWithAD (cc : circuitCrypto) (payload : bytes) (ad : Z) :
    circuitCrypto * result error (bytes * bool * bytes) :=
  if negb (len payload =? 509) then (cc, Err errInbound) else peelInboundLocked cc payload ad.

Definition peelInbound (cc : circuitCrypto) (payload : bytes) := peelInboundWithAD cc payload cgoADRelay.

Definition decryptInboundWithAD (cc : circuitCrypto) (payload : bytes) (ad : Z) :
    circuitCrypto * result error (bytes * bytes) :=
  if negb (len payload =? 509) then (cc, Err errInbound)
  else
    match peelInboundLocked cc payload ad with
    | (cc, Err e) => (cc, Err e)
    | (cc, Ok (peeled, forUs, digest)) =>
        (cc,
         if negb forUs then
           if usesCGO cc then Err errNotRecognized
           else if negb (at_ peeled 1 =? 0) || negb (at_ peeled 2 =? 0) then Err errNotRecognized
           else Err errDigest
         else Ok (peeled, digest))
    end.

Definition decryptInbound (cc : circuitCrypto) (payload : bytes) := decryptInboundWithAD cc payload cgoADRelay.

Definition encryptOutbound (cc : circuitCrypto) (payload : bytes) : circuitCrypto * result error (bytes * bytes) :=
  if negb (len payload =? 509) then (cc, Err errOutbound)
  else
    match cgo cc with
    | Some p =>
        let '(d, r) := CGO.RelayOriginate Encrypt Decrypt (Back p) cgoADRelay payload in
        (with_cgo cc (mkPair (Fwd p) d), lift_cgo r)
    | None =>
        let out := <[2%nat := 0]> (<[1%nat := 0]> payload) in
        let out := zero_digest out in
        match bwdDigest cc with
        | None => (cc, Err errNil)
        | Some written =>
            let written := written ++ out in
            let cc := with_bwd cc (bwdCipher cc) (Some written) in
            let sum := H written in
            let out := copy_at out 5 (take 4 sum) in
            match bwdCipher cc with
            | None => (cc, Err errNil)
            | Some c =>
                let '(c, out) := XORKeyStream c out in
                (with_bwd cc (Some c) (Some written), Ok (out, sum))
            end
        end
    end.

Definition wrapOutbound (cc : circuitCrypto) (payload : bytes) (ad : Z) : circuitCrypto * result error bytes :=
  if negb (len payload =? 509) then (cc, Err errOutbound)
  else
    match cgo cc with
    | Some p =>
        let '(d, r) := CGO.RelayBackward Encrypt Decrypt (Back p) ad payload in
        (with_cgo cc (mkPair (Fwd p) d), lift_cgo r)
    | None =>
        match bwdCipher cc with
        | None => (cc, Err errNil)
        | Some c => let '(c, out) := XORKeyStream c payload in (with_bwd cc (Some c) (bwdDigest cc), Ok out)
        end
    end.

Definition decodeRelay (cc : circuitCrypto) (peeled : bytes) : result RelayCell.error RelayCell.RelayCell :=
  if usesCGO cc then RelayCell.DecodeRelayCellV1 peeled else RelayCell.DecodeRelayCell peeled.

Definition originateRelayTag (cc : circuitCrypto) (rc : RelayCell.RelayCell) :
    circuitCrypto * result error (bytes * bytes) :=
  match
    (if usesCGO cc then
       match RelayCell.EncodeRelayCellV1 rc with Ok (plain, _) => Ok plain | Err e => Err e end
     else
       match RelayCell.Encode rc with
       | Ok (plain, _) => Ok (if negb (len plain =? 509) then copy_at (zeros 509) 0 plain else plain)
       | Err e => Err e
       end)
  with
  | Err e => (cc, Err (errRelayCell e))
  | Ok plain => encryptOutbound cc plain
  end.

Definition originateRelay (cc : circuitCrypto) (rc : RelayCell.RelayCell) : circuitCrypto * result error bytes :=
  match originateRelayTag cc rc with
  | (cc, Ok (enc, _)) => (cc, Ok enc)
  | (cc, Err e) => (cc, Err e)
  end.

(** ** The client's side of a hop *)

(** [deriveHopFromKeyMaterial]; the hop's name and address carry no state. *)
Definition deriveHopFromKeyMaterial (requestCGO : bool) (keyMaterial : bytes) : result error (Hop (G := CGOPair)) :=
  if requestCGO then
    let? keys := lift_cgo (CGO.NewCGOPairFromKeyMaterial keyMaterial) in
    Ok (mkHop None None None None (Some keys))
  else if len keyMaterial <? 72 then Err (errKeyMaterial (len keyMaterial))
  else
    let dfKey := slice keyMaterial 0 20 in
    let dbKey := slice keyMaterial 20 40 in
    let kfKey := slice keyMaterial 40 56 in
    let kbKey := slice keyMaterial 56 72 in
    let zeroIV := zeros 16 in
    let? forwardCipher := NewAESCTRCipher kfKey zeroIV in
    let? backwardCipher := NewAESCTRCipher kbKey zeroIV in
    Ok (mkHop (Some forwardCipher) (Some backwardCipher) (Some dfKey) (Some dbKey) None).

Definition to_option {E A} (r : result E A) : option A := match r with Ok a => Some a | Err _ => None end.

(** The calls [encryptOnion] and [decryptOnion] make on a CGO hop. *)
Definition hop_originate (p : CGOPair) (ad : Z) (cell : bytes) : CGOPair * option (bytes * bytes) :=
  let '(d, r) := CGO.ClientOriginate Encrypt Decrypt (Fwd p) ad cell in (mkPair d (Back p), to_option r).
Definition hop_forward (p : CGOPair) (ad : Z) (cell : bytes) : CGOPair * option bytes :=
  let '(d, r) := CGO.ClientForward Encrypt Decrypt (Fwd p) ad cell in (mkPair d (Back p), to_option r).
Definition hop_backward (p : CGOPair) (ad : Z) (cell : bytes) : CGOPair * option (bytes * bool * bytes) :=
  let '(d, r) := CGO.ClientBackward Encrypt Decrypt (Back p) ad cell in (mkPair (Fwd p) d, to_option r).

Abbreviation originate := (Onion.originate H hop_originate 509).
Abbreviation wrap := (Onion.wrap hop_forward).
Abbreviation encryptOnion := (Onion.encryptOnion H hop_originate hop_forward 509).
Abbreviation peel := (Onion.peel H hop_backward).
Abbreviation decryptOnion := (Onion.decryptOnion H hop_backward).

(** ** The relays of a circuit *)

(** An outgoing cell goes from relay to relay until one takes it for its own:
    its place, what it holds, and its tag. *)
Fixpoint relays_in (ccs : list circuitCrypto) (i : nat) (ad : Z) (cell : bytes) :
    list circuitCrypto * option (nat * bytes * bytes) :=
  match ccs with
  | [] => ([], None)
  | cc :: ccs =>
      match peelInboundWithAD cc cell ad with
      | (cc, Err _) => (cc :: ccs, None)
      | (cc, Ok (plain, true, tag)) => (cc :: ccs, Some (i, plain, tag))
      | (cc, Ok (out, false, _)) => let '(ccs, r) := relays_in ccs (S i) ad out in (cc :: ccs, r)
      end
  end.

(** The relays before the sender add their layers, the guard last. *)
Fixpoint relays_wrap (ccs : list circuitCrypto) (ad : Z) (cell : bytes) : list circuitCrypto * option bytes :=
  match ccs with
  | [] => ([], Some cell)
  | cc :: ccs =>
      match relays_wrap ccs ad cell with
      | (ccs, None) => (cc :: ccs, None)
      | (ccs, Some out) =>
          match wrapOutbound cc out ad with
          | (cc, Ok out) => (cc :: ccs, Some out)
          | (cc, Err _) => (cc :: ccs, None)
          end
      end
  end.

(** The relay at [n] answers: what reaches the client, and the tag. *)
Definition relays_out (ccs : list circuitCrypto) (n : nat) (payload : bytes) : list circuitCrypto * option (bytes * bytes) :=
  match ccs !! n with
  | None => (ccs, None)
  | Some cc =>
      match encryptOutbound cc payload with
      | (cc, Err _) => (<[n := cc]> ccs, None)
      | (cc, Ok (out, tag)) =>
          let '(outer, r) := relays_wrap (take n ccs) cgoADRelay out in
          (outer ++ cc :: drop (S n) ccs, (fun out => (out, tag)) <$> r)
      end
  end.

(** ** Client and relay in step *)

(** The two ends of a hop hold the same keys, positions and digests. *)
Definition matched (h : Hop (G := CGOPair)) (cc : circuitCrypto) : Prop :=
  match CGO h, cgo cc with
  | Some p, Some q => in_sync (Fwd p) (Fwd q) /\ in_sync (Back p) (Back q)
  | None, None =>
      is_Some (ForwardCipher h) /\ is_Some (BackwardCipher h) /\
      is_Some (ForwardDigest h) /\ is_Some (BackwardDigest h) /\
      fwdCipher cc = ForwardCipher h /\ bwdCipher cc = BackwardCipher h /\
      fwdDigest cc = ForwardDigest h /\ bwdDigest cc = BackwardDigest h
  | _, _ => False
  end.

(** Whether the relay of hop [h] takes the cell for its own: with CGO the nonce,
    otherwise zeros in the recognized field and the right digest. *)
Definition claims_digest (digest : option bytes) (o : bytes) : bool :=
  match digest with
  | None => false
  | Some written =>
      let sum := H (written ++ zero_digest o) in
      (at_ o 1 =? 0) && (at_ o 2 =? 0) &&
      (at_ sum 0 =? at_ o 5) && (at_ sum 1 =? at_ o 6) && (at_ sum 2 =? at_ o 7) && (at_ sum 3 =? at_ o 8)
  end.

Definition claims (h : Hop (G := CGOPair)) (o : bytes) : bool :=
  match CGO h with
  | Some p => bool_decide (slice o 0 CGO.CGOBlkLen = nonce (Fwd p))
  | None => claims_digest (ForwardDigest h) o
  end.

(** No hop on the way out takes the cell for its own by accident. *)
Fixpoint unclaimed (hops : list (Hop (G := CGOPair))) (ad : Z) (o : bytes) : bool :=
  match hops with
  | [] => true
  | h :: hops =>
      unclaimed hops ad o && match (wrap hops ad o).2 with Ok o => negb (claims h o) | Err _ => true end
  end.

(** What the destination holds: the cell with its nonce or digest filled in. *)
Definition image (h : Hop (G := CGOPair)) (payload : bytes) : bytes :=
  match CGO h with
  | Some p => copy_at payload 0 (nonce (Fwd p))
  | None => stamp H (ForwardDigest h) payload
  end.

(** A classic cell leaves the recognized field zero. *)
Definition addressable (h : Hop (G := CGOPair)) (payload : bytes) : bool :=
  (len payload =? 509) && (Onion.usesCGO h || (at_ payload 1 =? 0) && (at_ payload 2 =? 0)).

Context (Encrypt_length : forall k b, length k = 16%nat -> length b = 16%nat -> length (Encrypt k b) = 16%nat).
Context (Decrypt_length : forall k b, length k = 16%nat -> length b = 16%nat -> length (Decrypt k b) = 16%nat).
Context (Decrypt_Encrypt : forall k b, length k = 16%nat -> length b = 16%nat -> Decrypt k (Encrypt k b) = b).
Context (Encrypt_Decrypt : forall k b, length k = 16%nat -> length b = 16%nat -> Encrypt k (Decrypt k b) = b).
Context (H_length : forall m, length (H m) = 20%nat).

Lemma XORKeyStream_back c o :
  XORKeyStream c (XORKeyStream c o).2 = (mkCipher (keystream c) (pos c + length o), o).
Proof.
  apply injective_projections; [|apply xor_involutive]. unfold XORKeyStream at 1. cbn [fst].
  by rewrite xor_length.
Qed.

Lemma claims_digest_peel written o :
  claims_digest (Some written) o =
    negb (negb (at_ o 1 =? 0) || negb (at_ o 2 =? 0)) &&
    negb (negb (at_ (H (written ++ zero_digest o)) 0 =? at_ o 5) || negb (at_ (H (written ++ zero_digest o)) 1 =? at_ o 6)
      || negb (at_ (H (written ++ zero_digest o)) 2 =? at_ o 7) || negb (at_ (H (written ++ zero_digest o)) 3 =? at_ o 8)).
Proof. unfold claims_digest. btauto. Qed.

(** Peeling a classic layer. *)
Lemma peel_tor1 cc c written o ad :
  cgo cc = None -> fwdCipher cc = Some c -> fwdDigest cc = Some written -> len o = 509 ->
  let c' := mkCipher (keystream c) (pos c + length o) in
  peelInboundWithAD cc (XORKeyStream c o).2 ad =
    if claims_digest (Some written) o
    then (with_fwd cc c' (Some (written ++ zero_digest o)), Ok (o, true, H (written ++ zero_digest o)))
    else (with_fwd cc c' (Some written), Ok (o, false, [])).
Proof.
  intros Hg Hc Hd Hl c'. unfold peelInboundWithAD, peelInboundLocked.
  assert (len (XORKeyStream c o).2 = 509) as -> by (unfold len in *; by rewrite xor_length).
  cbn [negb Z.eqb Pos.eqb]. rewrite Hg, Hc, XORKeyStream_back, claims_digest_peel. fold c'.
  change (fwdDigest (with_fwd cc c' (fwdDigest cc))) with (fwdDigest cc). rewrite Hd.
  destruct (negb (at_ o 1 =? 0) || negb (at_ o 2 =? 0)); [done|]. cbn [negb andb].
  by destruct (negb _ || _ || _ || _).
Qed.

Abbreviation Hop := (Hop (G := CGOPair)).

Lemma len_cgo (o : bytes) : len o = 509 <-> length o = CGO.CGOMsgLen.
Proof. unfold len, CGO.CGOMsgLen. lia. Qed.

Lemma len_xor c (o : bytes) : len o = 509 -> len (XORKeyStream c o).2 = 509.
Proof. unfold len. by rewrite xor_length. Qed.

Lemma matched_tor1 h cc :
  matched h cc -> CGO h = None ->
  exists f b fd bd, h = mkHop (Some f) (Some b) (Some fd) (Some bd) None /\
    cc = mkCC (Some f) (Some b) (Some fd) (Some bd) None.
Proof.
  intros Hm Hg. unfold matched in Hm. rewrite Hg in Hm. destruct h, cc. simpl in *. subst.
  destruct cgo0; [done|]. destruct Hm as ([f ->] & [b ->] & [fd ->] & [bd ->] & -> & -> & -> & ->). by eauto 10.
Qed.

Lemma matched_cgo h cc p :
  matched h cc -> CGO h = Some p ->
  exists q, cgo cc = Some q /\ in_sync (Fwd p) (Fwd q) /\ in_sync (Back p) (Back q).
Proof. intros Hm Hg. unfold matched in Hm. rewrite Hg in Hm. destruct (cgo cc) as [q|]; [|done]. naive_solver. Qed.

(** One layer: what the client adds, the relay removes, and they stay in step. *)
Lemma layer_pass h cc hops hops' ad o0 o :
  matched h cc -> len o = 509 -> wrap hops ad o0 = (hops', Ok o) -> claims h o = false ->
  exists h' cc' out, wrap (h :: hops) ad o0 = (h' :: hops', Ok out) /\
    peelInboundWithAD cc out ad = (cc', Ok (o, false, [])) /\ len out = 509 /\ matched h' cc'.
Proof.
  intros Hm Hl Hw Hc. cbn [Onion.wrap]. rewrite Hw. unfold claims in Hc. destruct (CGO h) as [p|] eqn:Hg.
  - destruct (matched_cgo _ _ _ Hm Hg) as (q & Hq & Hf & Hb). apply bool_decide_eq_false in Hc.
    destruct (CGO.forward_pass Encrypt Decrypt Encrypt_length Decrypt_length Encrypt_Decrypt _ _ ad o Hf) as
      (d & e & out & H1 & H2 & H3 & H4 & _); [by apply len_cgo | done |].
    eexists _, _, out. unfold hop_forward, peelInboundWithAD, peelInboundLocked.
    rewrite H1, (proj2 (len_cgo out)), Hq by done. cbn [negb Z.eqb Pos.eqb]. rewrite H2.
    split_and!; [done | done | done | by unfold matched].
  - destruct (matched_tor1 _ _ Hm Hg) as (f & b & fd & bd & -> & ->). simpl in Hc.
    eexists _, _, (XORKeyStream f o).2. cbn [xor_with ForwardCipher].
    rewrite (peel_tor1 _ f fd o) by done. cbn [claims_digest]. rewrite Hc.
    split_and!; [reflexivity | done | by apply len_xor |].
    unfold matched; simpl. split_and!; by eauto.
Qed.

(** All layers up to the destination. *)
Lemma layers_pass hops ccs ad o :
  Forall2 matched hops ccs -> len o = 509 -> unclaimed hops ad o = true ->
  exists hops' ccs' out, wrap hops ad o = (hops', Ok out) /\ len out = 509 /\ Forall2 matched hops' ccs' /\
    forall rest i, relays_in (ccs ++ rest) i ad out =
      let '(rest, r) := relays_in rest (i + length hops) ad o in (ccs' ++ rest, r).
Proof.
  intros Hm Hl. induction Hm as [|h cc hops ccs Hh Hm IH]; intros Hu.
  - exists [], [], o. split_and!; [done.. |]. intros rest i. cbn [length app]. rewrite Nat.add_0_r. by destruct (relays_in rest i ad o).
  - cbn [unclaimed] in Hu. apply andb_true_iff in Hu as [Hu Hc].
    destruct (IH Hu) as (hops' & ccs' & o1 & Hw & Hl1 & Hm1 & Hr). rewrite Hw in Hc. apply negb_true_iff in Hc.
    destruct (layer_pass h cc hops hops' ad o o1) as (h' & cc' & out & H1 & H2 & H3 & H4); [done..|].
    exists (h' :: hops'), (cc' :: ccs'), out. split_and!; [done | done | by constructor |].
    intros rest i. cbn [app relays_in]. rewrite H2, Hr. cbn [length]. rewrite <- Nat.add_succ_comm.
    by destruct (relays_in rest _ ad o).
Qed.

Lemma at_stamped payload (sum : bytes) i :
  (9 <= length payload)%nat -> (4 <= length sum)%nat -> (i < 4)%nat ->
  at_ (copy_at payload 5 (take 4 sum)) (5 + i) = at_ sum i.
Proof.
  intros Hp Hs Hi. unfold at_. f_equal. rewrite lookup_copy_at by (rewrite length_take; lia).
  rewrite decide_True by (rewrite length_take; lia). replace (5 + i - 5)%nat with i by lia. by apply lookup_take_lt.
Qed.

Lemma at_stamped_out payload (s : bytes) i :
  (9 <= length payload)%nat -> length s = 4%nat -> (i < 5)%nat -> at_ (copy_at payload 5 s) i = at_ payload i.
Proof.
  intros Hp Hs Hi. unfold at_. f_equal. rewrite lookup_copy_at by lia.
  by rewrite decide_False by lia.
Qed.

Lemma len_stamp written payload : len payload = 509 -> len (stamp H (Some written) payload) = 509.
Proof. intros Hl. unfold stamp. case_if; [|done]. unfold len in *. by rewrite length_copy_at by lia. Qed.

(** A stamped cell carries the digest of itself. *)
Lemma stamp_claimed written payload :
  len payload = 509 -> at_ payload 1 = 0 -> at_ payload 2 = 0 ->
  claims_digest (Some written) (stamp H (Some written) payload) = true /\
  zero_digest (stamp H (Some written) payload) = zero_digest payload.
Proof.
  intros Hl H1 H2. unfold len in Hl. pose proof (H_length (written ++ zero_digest payload)) as Hs.
  assert (stamp H (Some written) payload = copy_at payload 5 (take 4 (H (written ++ zero_digest payload)))) as ->.
  { unfold stamp. by rewrite (proj2 (Z.leb_le _ _)) by (unfold len; lia). }
  pose proof (zero_digest_stamp payload (H (written ++ zero_digest payload))) as Hz.
  split; [|apply Hz; lia]. unfold claims_digest. rewrite Hz by lia.
  rewrite !(at_stamped_out payload) by (rewrite ?length_take; lia). rewrite H1, H2.
  rewrite (at_stamped _ _ 0), (at_stamped _ _ 1), (at_stamped _ _ 2), (at_stamped _ _ 3) by lia.
  by rewrite !Z.eqb_refl.
Qed.

(** The destination's layer. *)
Lemma originate_claimed h cc ad payload :
  matched h cc -> addressable h payload = true ->
  exists h' cc' out tag, originate h ad payload = (h', Ok (out, tag)) /\
    peelInboundWithAD cc out ad = (cc', Ok (image h payload, true, tag)) /\ len out = 509 /\ matched h' cc'.
Proof.
  intros Hm Ha. unfold addressable, Onion.usesCGO in Ha. apply andb_true_iff in Ha as [Hl Ha]. apply Z.eqb_eq in Hl.
  unfold Onion.originate, image. destruct (CGO h) as [p|] eqn:Hg.
  - destruct (matched_cgo _ _ _ Hm Hg) as (q & Hq & Hf & Hb).
    destruct (CGO.forward_originate Encrypt Decrypt Encrypt_length Decrypt_length Encrypt_Decrypt _ _ ad payload Hf)
      as (d & e & out & tag & H1 & H2 & H3 & H4 & _); [by apply len_cgo|].
    eexists _, _, out, tag. unfold hop_originate, peelInboundWithAD, peelInboundLocked.
    rewrite H1, (proj2 (len_cgo out)), Hq, Hl by done. cbn [negb Z.eqb Pos.eqb]. rewrite H2.
    split_and!; [done | done | done | by unfold matched].
  - destruct (matched_tor1 _ _ Hm Hg) as (f & b & fd & bd & -> & ->). cbn [ForwardDigest ForwardCipher].
    cbn [orb] in Ha. apply andb_true_iff in Ha as [H1%Z.eqb_eq H2%Z.eqb_eq].
    destruct (stamp_claimed fd payload Hl H1 H2) as [Hs Hz].
    assert ((9 <=? len payload) = true) as H9 by (apply Z.leb_le; lia). rewrite H9.
    assert (copy_at payload 5 (take 4 (H (fd ++ zero_digest payload))) = stamp H (Some fd) payload) as ->
      by (unfold stamp; by rewrite H9).
    pose proof (len_stamp fd payload Hl) as Hls. cbn [xor_with].
    eexists _, _, (XORKeyStream f (stamp H (Some fd) payload)).2, _.
    rewrite (peel_tor1 _ f fd) by done. rewrite Hs, Hz.
    split_and!; [reflexivity | done | by apply len_xor |].
    unfold matched; simpl. split_and!; by eauto.
Qed.

(** *** The way back *)

Definition claims_back (h : Hop) (o : bytes) : bool :=
  match CGO h with
  | Some p => bool_decide (slice o 0 CGO.CGOBlkLen = nonce (Back p))
  | None => bool_decide ((tor1Recognized H h o).2 <> None)
  end.

Fixpoint unclaimed_back (hops : list Hop) (ccs : list circuitCrypto) (ad : Z) (o : bytes) : bool :=
  match hops, ccs with
  | h :: hops, cc :: ccs =>
      unclaimed_back hops ccs ad o &&
      match (relays_wrap ccs ad o).2 with Some o => negb (claims_back h o) | None => true end
  | _, _ => true
  end.

(** The fields a relay clears before it stamps a cell of its own. *)
Definition cleared (payload : bytes) : bytes := zero_digest (<[2%nat := 0]> (<[1%nat := 0]> payload)).

Definition image_back (h : Hop) (payload : bytes) : bytes :=
  match CGO h with
  | Some p => copy_at payload 0 (nonce (Back p))
  | None => stamp H (BackwardDigest h) (cleared payload)
  end.

Lemma layer_back h cc ad o :
  matched h cc -> len o = 509 -> claims_back h o = false ->
  exists h' cc' out, wrapOutbound cc o ad = (cc', Ok out) /\ len out = 509 /\ matched h' cc' /\
    forall rest i, peel (h :: rest) i ad out = let '(rest, r) := peel rest (i + 1) ad o in (h' :: rest, r).
Proof.
  intros Hm Hl Hc. unfold claims_back in Hc. unfold wrapOutbound. rewrite Hl. cbn [negb Z.eqb Pos.eqb Onion.peel].
  destruct (CGO h) as [p|] eqn:Hg.
  - destruct (matched_cgo _ _ _ Hm Hg) as (q & Hq & Hf & Hb). apply bool_decide_eq_false in Hc.
    destruct (CGO.backward_pass Encrypt Decrypt Encrypt_length Decrypt_Encrypt _ _ ad o Hb) as
      (d & e & out & H1 & H2 & H3 & H4 & _); [by apply len_cgo | done |].
    exists (set_cgo h (mkPair (Fwd p) d)). eexists _, out. rewrite Hq, H1.
    split_and!; [done | by apply len_cgo | by unfold matched |]. intros rest i. unfold hop_backward. by rewrite H2.
  - destruct (matched_tor1 _ _ Hm Hg) as (f & b & fd & bd & -> & ->). cbn [cgo bwdCipher BackwardCipher BackwardDigest].
    apply bool_decide_eq_false, dec_stable, tor1Recognized_none in Hc.
    exists (mkHop (Some f) (Some (mkCipher (keystream b) (pos b + length o))) (Some fd) (Some bd) None).
    eexists _, (XORKeyStream b o).2.
    split_and!; [reflexivity | by apply len_xor | unfold matched; simpl; split_and!; by eauto |].
    intros rest i. cbn [xor_with]. rewrite XORKeyStream_back.
    assert (tor1Recognized H (set_bwd (mkHop (Some f) (Some b) (Some fd) (Some bd) (@None CGOPair))
      (Some (mkCipher (keystream b) (pos b + length o))) (Some bd)) o =
      (mkHop (Some f) (Some (mkCipher (keystream b) (pos b + length o))) (Some fd) (Some bd) None, None)) as ->; [|done].
    apply tor1Recognized_none. apply (f_equal snd) in Hc. revert Hc. unfold tor1Recognized. simpl.
    by repeat case_if.
Qed.

Lemma layers_back hops ccs ad o :
  Forall2 matched hops ccs -> len o = 509 -> unclaimed_back hops ccs ad o = true ->
  exists hops' ccs' out, relays_wrap ccs ad o = (ccs', Some out) /\ len out = 509 /\ Forall2 matched hops' ccs' /\
    forall rest i, peel (hops ++ rest) i ad out =
      let '(rest, r) := peel rest (i + len hops) ad o in (hops' ++ rest, r).
Proof.
  intros Hm Hl. induction Hm as [|h cc hops ccs Hh Hm IH]; intros Hu.
  - exists [], [], o. split_and!; [done.. |]. intros rest i. cbn [app]. change (len []) with 0.
    rewrite Z.add_0_r. by destruct (peel rest i ad o).
  - cbn [unclaimed_back] in Hu. apply andb_true_iff in Hu as [Hu Hc].
    destruct (IH Hu) as (hops' & ccs' & o1 & Hw & Hl1 & Hm1 & Hr). rewrite Hw in Hc. apply negb_true_iff in Hc.
    destruct (layer_back h cc ad o1) as (h' & cc' & out & H1 & H2 & H3 & H4); [done..|].
    exists (h' :: hops'), (cc' :: ccs'), out. cbn [relays_wrap]. rewrite Hw, H1.
    split_and!; [done | done | by constructor |].
    intros rest i. cbn [app]. rewrite H4, Hr.
    replace (i + 1 + len hops) with (i + len (h :: hops)) by (unfold len; simpl; lia).
    by destruct (peel rest _ ad o).
Qed.

Lemma zero_digest_idem payload : (9 <= length payload)%nat -> zero_digest (zero_digest payload) = zero_digest payload.
Proof.
  intros Hp. unfold zero_digest. apply list_eq. intros i.
  rewrite !lookup_copy_at by (rewrite ?length_copy_at, ?length_zeros; lia). by case_decide.
Qed.

Lemma cleared_facts payload :
  len payload = 509 ->
  len (cleared payload) = 509 /\ be_get (slice (cleared payload) 1 3) = 0 /\ zero_digest (cleared payload) = cleared payload.
Proof.
  intros Hl. assert (length (<[2%nat:=0]> (<[1%nat:=0]> payload)) = 509%nat) as Hi
    by (rewrite !length_insert; unfold len in Hl; lia).
  unfold cleared. split_and!.
  - unfold len, zero_digest. rewrite length_copy_at by lia. lia.
  - destruct payload as [|x [|y [|z payload]]]; [done..|]. reflexivity.
  - apply zero_digest_idem. lia.
Qed.

Lemma originate_back h cc payload :
  matched h cc -> len payload = 509 ->
  exists h' cc' out tag, encryptOutbound cc payload = (cc', Ok (out, tag)) /\ len out = 509 /\ matched h' cc' /\
    forall rest i, peel (h :: rest) i cgoADRelay out =
      (h' :: rest, Ok (image_back h payload, i, tag, Onion.usesCGO h)).
Proof.
  intros Hm Hl. unfold encryptOutbound, image_back, Onion.usesCGO. rewrite Hl. cbn [negb Z.eqb Pos.eqb Onion.peel].
  destruct (CGO h) as [p|] eqn:Hg.
  - destruct (matched_cgo _ _ _ Hm Hg) as (q & Hq & Hf & Hb).
    destruct (CGO.backward_originate Encrypt Decrypt Encrypt_length Decrypt_Encrypt _ _ cgoADRelay payload Hb) as
      (d & e & out & tag & H1 & H2 & H3 & H4 & _); [by apply len_cgo |].
    exists (set_cgo h (mkPair (Fwd p) d)). eexists _, out, tag. rewrite Hq, H1.
    split_and!; [done | by apply len_cgo | by unfold matched |]. intros rest i. unfold hop_backward. by rewrite H2.
  - destruct (matched_tor1 _ _ Hm Hg) as (f & b & fd & bd & -> & ->). cbn [cgo bwdDigest bwdCipher with_bwd BackwardDigest BackwardCipher].
    fold (cleared payload). destruct (cleared_facts payload Hl) as (Hlc & Hz & Hid).
    assert (copy_at (cleared payload) 5 (take 4 (H (bd ++ cleared payload))) = stamp H (Some bd) (cleared payload)) as ->.
    { unfold stamp. by rewrite (proj2 (Z.leb_le _ _)), Hid by lia. }
    set (st := stamp H (Some bd) (cleared payload)).
    assert (len st = 509) as Hst by by apply len_stamp.
    set (b' := mkCipher (keystream b) (pos b + length st)).
    exists (mkHop (Some f) (Some b') (Some fd) (Some (bd ++ cleared payload)) None). eexists _, (XORKeyStream b st).2, _.
    split_and!; [reflexivity | by apply len_xor | unfold matched; simpl; split_and!; by eauto |].
    intros rest i. cbn [xor_with]. rewrite XORKeyStream_back. fold b'.
    unfold st. rewrite stamp_recognized with (written := bd);
      [by rewrite Hid | done | unfold len in Hlc; lia | done | intros m; rewrite H_length; lia].
Qed.

(** *** Messages *)

(** Command, stream and data of a decoded cell. *)
Definition message (r : result RelayCell.error RelayCell.RelayCell) : option (Z * Z * bytes) :=
  match r with
  | Ok rc => Some (RelayCell.Command rc, RelayCell.StreamID rc, RelayCell.Data rc)
  | Err _ => None
  end.

Definition decode (v1 : bool) (plain : bytes) : option (Z * Z * bytes) :=
  message (if v1 then RelayCell.DecodeRelayCellV1 plain else RelayCell.DecodeRelayCell plain).

Lemma slice_ext (p q : bytes) a b :
  (forall i, (a <= i < b)%nat -> p !! i = q !! i) -> slice p a b = slice q a b.
Proof.
  intros Hx. unfold slice. apply list_eq. intros i. destruct (decide (i < b - a)%nat).
  - rewrite !lookup_take_lt, !lookup_drop by lia. apply Hx. lia.
  - by rewrite !lookup_take_ge by lia.
Qed.

Lemma at_ext (p q : bytes) i : p !! i = q !! i -> at_ p i = at_ q i.
Proof. unfold at_. by intros ->. Qed.

(** The recognized and digest fields do not matter to the message. *)
Lemma decode_v0_ext p q :
  len p = 509 -> len q = 509 ->
  (forall i, i = 0%nat \/ (3 <= i < 5)%nat \/ (9 <= i)%nat -> p !! i = q !! i) -> decode false p = decode false q.
Proof.
  intros Hp Hq Hx. unfold decode, RelayCell.DecodeRelayCell. rewrite Hp, Hq.
  change (509 <? Z.of_nat RelayCell.RelayCellHeaderLen) with false. cbv iota.
  rewrite (at_ext p q 0), (slice_ext p q 3 5), (slice_ext p q 9 11) by (intros; apply Hx; lia).
  repeat case_if; try done. cbn [message]. cbn. do 2 f_equal. apply slice_ext. intros i Hi. apply Hx. lia.
Qed.

Lemma decode_v1_ext p q :
  len p = 509 -> len q = 509 -> (forall i, (16 <= i)%nat -> p !! i = q !! i) -> decode true p = decode true q.
Proof.
  intros Hp Hq Hx. unfold decode, RelayCell.DecodeRelayCellV1. rewrite Hp, Hq.
  change (509 <? Z.of_nat RelayCell.PayloadLen) with false. cbv iota.
  rewrite (at_ext p q RelayCell.v1CmdOffset), (slice_ext p q RelayCell.v1LenOffset (RelayCell.v1LenOffset + 2)),
    (slice_ext p q RelayCell.v1StreamIDOffset (RelayCell.v1StreamIDOffset + 2))
    by (unfold RelayCell.v1CmdOffset, RelayCell.v1LenOffset, RelayCell.v1StreamIDOffset; intros; apply Hx; lia).
  destruct (RelayCell.RelayCmdExpectsStreamID _); repeat case_if; try done; cbn; do 2 f_equal; apply slice_ext;
    intros i Hi; apply Hx; unfold RelayCell.v1PayloadWithStreamID, RelayCell.v1PayloadNoStreamID in Hi; lia.
Qed.

Lemma decode_image h cc payload :
  matched h cc -> addressable h payload = true ->
  decode (Onion.usesCGO h) (image h payload) = decode (Onion.usesCGO h) payload.
Proof.
  intros Hm Ha. unfold addressable in Ha. apply andb_true_iff in Ha as [Hl%Z.eqb_eq _].
  unfold Onion.usesCGO, image. destruct (CGO h) as [p|] eqn:Hg.
  - destruct (matched_cgo _ _ _ Hm Hg) as (q & _ & [Hf _] & _). pose proof (CGO.wf_nonce _ Hf).
    apply decode_v1_ext; [unfold len in *; by rewrite length_copy_at by lia | done |].
    intros i Hi. unfold len in Hl. by rewrite lookup_copy_at, decide_False by lia.
  - destruct (matched_tor1 _ _ Hm Hg) as (f & b & fd & bd & -> & _). cbn [ForwardDigest].
    apply decode_v0_ext; [by apply len_stamp | done |]. intros i Hi. unfold stamp. case_if; [|done].
    unfold len in Hl. by rewrite lookup_copy_at, decide_False by (rewrite length_take, H_length; lia).
Qed.

Lemma decode_image_back h cc payload :
  matched h cc -> len payload = 509 ->
  decode (Onion.usesCGO h) (image_back h payload) = decode (Onion.usesCGO h) payload.
Proof.
  intros Hm Hl. unfold Onion.usesCGO, image_back. destruct (CGO h) as [p|] eqn:Hg.
  - destruct (matched_cgo _ _ _ Hm Hg) as (q & _ & _ & [Hb _]). pose proof (CGO.wf_nonce _ Hb).
    apply decode_v1_ext; [unfold len in *; by rewrite length_copy_at by lia | done |].
    intros i Hi. unfold len in Hl. by rewrite lookup_copy_at, decide_False by lia.
  - destruct (matched_tor1 _ _ Hm Hg) as (f & b & fd & bd & -> & _). cbn [BackwardDigest].
    destruct (cleared_facts payload Hl) as (Hlc & _ & _).
    apply decode_v0_ext; [by apply len_stamp | done |]. intros i Hi.
    assert (stamp H (Some bd) (cleared payload) !! i = cleared payload !! i) as ->.
    { unfold stamp. case_if; [|done]. unfold len in Hlc.
      by rewrite lookup_copy_at, decide_False by (rewrite length_take, H_length; lia). }
    unfold cleared, zero_digest. unfold len in Hl.
    rewrite lookup_copy_at, length_zeros, decide_False by (rewrite ?length_insert, ?length_zeros; lia).
    by rewrite !list_lookup_insert_ne by lia.
Qed.

(** *** The circuit as a channel *)

(** The client sends to a hop, or a relay answers. *)
Inductive event :=
| Send (dest : nat) (ad : Z) (payload : bytes)
| Reply (src : nat) (payload : bytes).

Record delivery := mkDelivery {
  place : Z;
  content : option (Z * Z * bytes);
  sent_tag : bytes;
  got_tag : bytes;
}.

Definition net : Type := list Hop * list circuitCrypto.

Definition net_step (n : net) (e : event) : net * option delivery :=
  let '(hops, ccs) := n in
  match e with
  | Send dest ad payload =>
      match encryptOnion hops ad (Z.of_nat dest) payload with
      | (hops, Err _) => ((hops, ccs), None)
      | (hops, Ok (cell, tag)) =>
          match relays_in ccs 0 ad cell with
          | (ccs, None) => ((hops, ccs), None)
          | (ccs, Some (i, plain, tag')) =>
              ((hops, ccs),
               (fun cc => mkDelivery (Z.of_nat i) (message (decodeRelay cc plain)) tag tag') <$> ccs !! i)
          end
      end
  | Reply src payload =>
      match relays_out ccs src payload with
      | (ccs, None) => ((hops, ccs), None)
      | (ccs, Some (cell, tag)) =>
          match decryptOnion hops cgoADRelay cell with
          | (hops, Err _) => ((hops, ccs), None)
          | (hops, Ok (plain, i, tag', v1)) => ((hops, ccs), Some (mkDelivery i (decode v1 plain) tag tag'))
          end
      end
  end.

Fixpoint net_run (n : net) (es : list event) : net * list (option delivery) :=
  match es with
  | [] => (n, [])
  | e :: es => let '(n, d) := net_step n e in let '(n, ds) := net_run n es in (n, d :: ds)
  end.

(** No hop on the way takes the cell of an event for its own by accident. *)
Definition undisturbed (n : net) (e : event) : bool :=
  let '(hops, ccs) := n in
  match e with
  | Send dest ad payload =>
      match hops !! dest with
      | None => false
      | Some h =>
          addressable h payload &&
          match (originate h ad payload).2 with Ok (o, _) => unclaimed (take dest hops) ad o | Err _ => true end
      end
  | Reply src payload =>
      (src <? length hops)%nat && (len payload =? 509) &&
      match ccs !! src with
      | None => false
      | Some cc =>
          match (encryptOutbound cc payload).2 with
          | Ok (o, _) => unclaimed_back (take src hops) (take src ccs) cgoADRelay o
          | Err _ => true
          end
      end
  end.

Fixpoint undisturbed_run (n : net) (es : list event) : bool :=
  match es with
  | [] => true
  | e :: es => undisturbed n e && undisturbed_run (net_step n e).1 es
  end.

(** The specification: every message arrives, unchanged, where it was sent, and
    both ends know it by the same tag. *)
Definition arrives (kinds : list bool) (e : event) (d : option delivery) : Prop :=
  exists tag,
  match e with
  | Send dest _ payload => d = Some (mkDelivery (Z.of_nat dest) (decode (default false (kinds !! dest)) payload) tag tag)
  | Reply src payload => d = Some (mkDelivery (Z.of_nat src) (decode (default false (kinds !! src)) payload) tag tag)
  end.

Lemma matched_kind h cc : matched h cc -> usesCGO cc = Onion.usesCGO h.
Proof. unfold matched, usesCGO, Onion.usesCGO. by destruct (CGO h), (cgo cc). Qed.

Lemma set_cgo_kind (h : Hop) g p : CGO h = Some p -> Onion.usesCGO (set_cgo h g) = Onion.usesCGO h.
Proof. intros E. unfold Onion.usesCGO. by rewrite E. Qed.

Lemma originate_kind h ad payload : Onion.usesCGO (originate h ad payload).1 = Onion.usesCGO h.
Proof.
  unfold Onion.originate, Onion.usesCGO. destruct (CGO h) eqn:E.
  - destruct (negb _); [cbn [fst]; by rewrite E|]. by destruct (hop_originate _ ad payload) as [? [[]|]].
  - destruct (match ForwardDigest h with Some _ => _ | None => _ end) as [[d o] t].
    destruct (xor_with (ForwardCipher h) o) as [c o']. cbn [fst set_fwd CGO]. by rewrite E.
Qed.

Lemma wrap_kinds hops ad o : Onion.usesCGO <$> (wrap hops ad o).1 = Onion.usesCGO <$> hops.
Proof.
  induction hops as [|h hops IH]; [done|]. cbn [Onion.wrap]. destruct (wrap hops ad o) as [hops' [o'|e]];
    cbn [fst] in IH; [|by rewrite !fmap_cons; cbn [fst]; rewrite fmap_cons, IH].
  destruct (CGO h) eqn:E.
  - destruct (hop_forward c ad o') as [? [?|]]; cbn [fst]; by rewrite !fmap_cons, IH, (set_cgo_kind _ _ _ E).
  - destruct (xor_with (ForwardCipher h) o'). cbn [fst]. by rewrite !fmap_cons, IH.
Qed.

Lemma encryptOnion_kinds hops ad dest payload :
  Onion.usesCGO <$> (encryptOnion hops ad dest payload).1 = Onion.usesCGO <$> hops.
Proof.
  unfold Onion.encryptOnion. case_if; [done|]. destruct (hops !! Z.to_nat dest) as [h|] eqn:Hh; [|done].
  pose proof (originate_kind h ad payload) as Hk. destruct (originate h ad payload) as [h' [[o tag]|e]]; cbn [fst] in *.
  - pose proof (wrap_kinds (take (Z.to_nat dest) hops) ad o) as Hw. destruct (wrap _ ad o) as [outer r]. cbn [fst] in *.
    rewrite fmap_app, fmap_cons, Hw, Hk. rewrite <- (take_drop_middle hops _ _ Hh) at 3. by rewrite fmap_app, fmap_cons.
  - rewrite fmap_app, fmap_cons, Hk. rewrite <- (take_drop_middle hops _ _ Hh) at 3. by rewrite fmap_app, fmap_cons.
Qed.

Lemma peel_kinds hops i ad o : Onion.usesCGO <$> (peel hops i ad o).1 = Onion.usesCGO <$> hops.
Proof.
  revert i o. induction hops as [|h hops IH]; intros i o; [done|]. cbn [Onion.peel]. destruct (CGO h) eqn:E.
  - destruct (hop_backward c ad o) as [c' [[[o' b] t]|]].
    + destruct b; [cbn [fst]; by rewrite !fmap_cons, (set_cgo_kind _ _ _ E)|].
      specialize (IH (i + 1) o'). destruct (peel hops (i + 1) ad o'). cbn [fst] in *.
      by rewrite !fmap_cons, IH, (set_cgo_kind _ _ _ E).
    + cbn [fst]. by rewrite !fmap_cons, (set_cgo_kind _ _ _ E).
  - destruct (xor_with (BackwardCipher h) o) as [c' o']. set (h1 := set_bwd h c' (BackwardDigest h)).
    assert (forall h2 r, tor1Recognized H h1 o' = (h2, r) -> Onion.usesCGO h2 = Onion.usesCGO h) as Hk.
    { intros h2 r. unfold tor1Recognized. repeat (case_match; simplify_eq/=); try done; intros; simplify_eq; done. }
    destruct (tor1Recognized H h1 o') as [h2 [t|]]; cbn [fst].
    + by rewrite !fmap_cons, (Hk _ _ eq_refl).
    + specialize (IH (i + 1) o'). destruct (peel hops (i + 1) ad o'). cbn [fst] in *.
      by rewrite !fmap_cons, IH, (Hk _ _ eq_refl).
Qed.

Lemma net_step_kinds n e : Onion.usesCGO <$> (net_step n e).1.1 = Onion.usesCGO <$> n.1.
Proof.
  destruct n as [hops ccs], e as [dest ad payload|src payload]; cbn [net_step fst].
  - pose proof (encryptOnion_kinds hops ad (Z.of_nat dest) payload) as Hk.
    destruct (encryptOnion _ _ _ _) as [hops' [[cell tag]|err]]; [|done]. by destruct (relays_in _ _ _ _) as [? [[[]]|]].
  - destruct (relays_out ccs src payload) as [ccs' [[cell tag]|]]; [|done].
    pose proof (peel_kinds hops 0 cgoADRelay cell) as Hk. unfold Onion.decryptOnion.
    by destruct (peel hops 0 cgoADRelay cell) as [? [[[[]]]|]].
Qed.

Definition in_step (n : net) : Prop := Forall2 matched n.1 n.2.

(** An outgoing cell reaches its hop. *)
Lemma send_arrives n dest ad payload :
  in_step n -> undisturbed n (Send dest ad payload) = true ->
  in_step (net_step n (Send dest ad payload)).1 /\
  arrives (Onion.usesCGO <$> n.1) (Send dest ad payload) (net_step n (Send dest ad payload)).2.
Proof.
  destruct n as [hops ccs]. unfold in_step. cbn [fst snd]. intros Hm Hu. cbn [undisturbed] in Hu.
  destruct (hops !! dest) as [h|] eqn:Hh; [|done]. apply andb_true_iff in Hu as [Ha Hu].
  destruct (Forall2_lookup_l _ _ _ _ _ Hm Hh) as (cc & Hcc & Hhc). pose proof (lookup_lt_Some _ _ _ Hh) as Hlt.
  destruct (originate_claimed h cc ad payload Hhc Ha) as (h' & cc' & o & tag & Ho & Hp & Hl & Hm').
  rewrite Ho in Hu. cbn [snd] in Hu.
  destruct (layers_pass (take dest hops) (take dest ccs) ad o) as (hops' & ccs' & out & Hw & Hlo & Hm2 & Hr);
    [by apply Forall2_take | done | done |].
  assert (length (take dest hops) = dest) as Hld by (rewrite length_take; lia).
  assert (length ccs' = dest) as Hlc.
  { rewrite <- (Forall2_length _ _ _ Hm2). apply (f_equal fst), (f_equal length) in Hw.
    pose proof (f_equal length (wrap_kinds (take dest hops) ad o)) as Hk. rewrite !length_fmap in Hk. simpl in Hw. lia. }
  assert (encryptOnion hops ad (Z.of_nat dest) payload = (hops' ++ h' :: drop (S dest) hops, Ok (out, tag))) as He.
  { unfold Onion.encryptOnion. rewrite (proj2 (Z.ltb_ge _ _)), (proj2 (Z.leb_gt _ _)) by (unfold len; lia).
    cbn [orb]. by rewrite Nat2Z.id, Hh, Ho, Hw. }
  assert (relays_in ccs 0 ad out = (ccs' ++ cc' :: drop (S dest) ccs, Some (dest, image h payload, tag))) as Hin.
  { rewrite <- (take_drop_middle ccs dest cc Hcc) at 1. rewrite Hr. cbn [relays_in]. rewrite Hp, Hld. done. }
  cbn [net_step]. rewrite He, Hin. cbn [fst snd]. split.
  - apply Forall2_app; [done|]. constructor; [done|]. by apply Forall2_drop.
  - exists tag. rewrite lookup_app_r, Hlc, Nat.sub_diag by lia. cbn [lookup list_lookup fmap option_fmap option_map].
    rewrite list_lookup_fmap, Hh. cbn [fmap option_fmap option_map default]. unfold id. do 2 f_equal.
    rewrite <- (decode_image h cc payload Hhc Ha). unfold decodeRelay, decode.
    assert (usesCGO cc' = Onion.usesCGO h) as ->; [|done].
    rewrite (matched_kind _ _ Hm'). pose proof (originate_kind h ad payload) as Hk. by rewrite Ho in Hk.
Qed.

(** An answer reaches the client, attributed to the hop that sent it. *)
Lemma reply_arrives n src payload :
  in_step n -> undisturbed n (Reply src payload) = true ->
  in_step (net_step n (Reply src payload)).1 /\
  arrives (Onion.usesCGO <$> n.1) (Reply src payload) (net_step n (Reply src payload)).2.
Proof.
  destruct n as [hops ccs]. unfold in_step. cbn [fst snd]. intros Hm Hu. cbn [undisturbed] in Hu.
  apply andb_true_iff in Hu as [[_ Hl%Z.eqb_eq]%andb_true_iff Hu].
  destruct (ccs !! src) as [cc|] eqn:Hcc; [|done].
  destruct (Forall2_lookup_r _ _ _ _ _ Hm Hcc) as (h & Hh & Hhc). pose proof (lookup_lt_Some _ _ _ Hh) as Hlt.
  destruct (originate_back h cc payload Hhc Hl) as (h' & cc' & o & tag & Ho & Hlo & Hm' & Hp).
  rewrite Ho in Hu. cbn [snd] in Hu.
  destruct (layers_back (take src hops) (take src ccs) cgoADRelay o) as (hops' & ccs' & out & Hw & Hlo2 & Hm2 & Hr);
    [by apply Forall2_take | done | done |].
  assert (relays_out ccs src payload = (ccs' ++ cc' :: drop (S src) ccs, Some (out, tag))) as He.
  { unfold relays_out. by rewrite Hcc, Ho, Hw. }
  assert (decryptOnion hops cgoADRelay out =
    (hops' ++ h' :: drop (S src) hops, Ok (image_back h payload, Z.of_nat src, tag, Onion.usesCGO h))) as Hd.
  { unfold Onion.decryptOnion. rewrite <- (take_drop_middle hops src h Hh) at 1. rewrite Hr, Hp.
    do 5 f_equal. unfold len. rewrite length_take. lia. }
  cbn [net_step]. rewrite He, Hd. cbn [fst snd]. split.
  - apply Forall2_app; [done|]. constructor; [done|]. by apply Forall2_drop.
  - exists tag. rewrite list_lookup_fmap, Hh. cbn [fmap option_fmap option_map default]. unfold id.
    by rewrite (decode_image_back h cc payload Hhc Hl).
Qed.

Lemma step_arrives n e :
  in_step n -> undisturbed n e = true ->
  in_step (net_step n e).1 /\ arrives (Onion.usesCGO <$> n.1) e (net_step n e).2.
Proof. destruct e; [apply send_arrives | apply reply_arrives]. Qed.

Lemma run_arrives es n :
  in_step n -> undisturbed_run n es = true ->
  in_step (net_run n es).1 /\ Forall2 (arrives (Onion.usesCGO <$> n.1)) es (net_run n es).2.
Proof.
  revert n. induction es as [|e es IH]; intros n Hn Hu; [by split|].
  cbn [undisturbed_run] in Hu. apply andb_true_iff in Hu as [H1 H2].
  destruct (step_arrives n e Hn H1) as [Hn' Hd]. pose proof (net_step_kinds n e) as Hk. cbn [net_run].
  destruct (net_step n e) as [n' d]. cbn [fst snd] in *. destruct (IH n' Hn' H2) as [Hn2 Hds]. rewrite Hk in Hds.
  destruct (net_run n' es) as [n2 ds]. cbn [fst snd] in *. split; [done|]. by constructor.
Qed.

(** Client and relay start in step when they share the key material. *)
Lemma NewAESCTRCipher_ok key : length key = 16%nat -> NewAESCTRCipher key (zeros 16) = Ok (NewCTR key (zeros 16)).
Proof. intros Hk. unfold NewAESCTRCipher, CGO.NewCipher. rewrite bool_decide_true by by left. done. Qed.

Lemma keys_matched km h cc :
  deriveHopFromKeyMaterial (length km =? CGO.CGOKeyMaterialLen)%nat km = Ok h -> newCircuitCrypto km = Ok cc -> matched h cc.
Proof.
  unfold deriveHopFromKeyMaterial, newCircuitCrypto. destruct (Nat.eqb_spec (length km) CGO.CGOKeyMaterialLen) as [Hl|Hl].
  - unfold CGO.NewCGOPairFromKeyMaterial, CGO.NewCGORelayPairFromKeyMaterial.
    rewrite !CGO.new_pair_fresh by done. cbn [lift_cgo result_bind]. intros [= <-] [= <-].
    unfold matched. cbn [CGO cgo Fwd Back]. change CGO.CGOKeyMaterialLen with 160%nat in Hl.
    split; apply CGO.fresh_sync; rewrite ?length_slice, ?length_drop; lia.
  - destruct (Nat.eqb_spec (length km) 72) as [Hl'|Hl']; [|done]. unfold len. rewrite Hl'.
    change (Z.of_nat 72 <? 72) with false. cbv iota zeta.
    rewrite !NewAESCTRCipher_ok by (rewrite length_slice; lia). cbn [result_bind]. intros [= <-] [= <-].
    unfold matched. simpl. by eauto 10.
Qed.

(** ** Properties *)

(** C1: A circuit of relays is a channel.  The client derives each hop, and each
    relay its own state, from the same key material, classic or CGO in any
    mixture.  Then for any sequence of cells sent to any hops and answers sent
    back by any relays, every message arrives unchanged at the hop it was sent to
    (or at the client, attributed to the relay that sent it), both ends derive
    the same authentication tag for it, and all states are in step again
    afterwards; as long as no other hop on the way takes a cell for its own
    because its digest or nonce happens to match.  A cell is taken to keep its
    command (RELAY or RELAY_EARLY, which CGO authenticates) all along the path, as
    it does for the first eight RELAY_EARLY cells of a circuit; a relay passes on
    the later ones as RELAY. *)
Theorem circuit_refines_channel kms hops ccs es :
  Forall2 (fun km h => deriveHopFromKeyMaterial (length km =? CGO.CGOKeyMaterialLen)%nat km = Ok h) kms hops ->
  Forall2 (fun km cc => newCircuitCrypto km = Ok cc) kms ccs ->
  undisturbed_run (hops, ccs) es = true ->
  Forall2 (arrives (Onion.usesCGO <$> hops)) es (net_run (hops, ccs) es).2 /\ in_step (net_run (hops, ccs) es).1.
Proof.
  intros Hh Hc Hu. destruct (run_arrives es (hops, ccs)) as [H1 H2]; [|done|by split].
  unfold in_step. cbn [fst snd]. clear Hu. revert ccs Hc.
  induction Hh as [|km h kms hops Hkm Hh IH]; intros ccs Hc; inversion Hc; subst; constructor; [by eapply keys_matched|].
  by apply IH.
Qed.

End Relay.

(** ** A concrete circuit *)

(** A toy block cipher with the laws of AES. *)
Definition toy_block (k b : bytes) : bytes := zip_with Z.lxor b k.

Lemma toy_length k b : length k = 16%nat -> length b = 16%nat -> length (toy_block k b) = 16%nat.
Proof. intros Hk Hb. unfold toy_block. rewrite length_zip_with. lia. Qed.

Lemma toy_inverse k b : length k = 16%nat -> length b = 16%nat -> toy_block k (toy_block k b) = b.
Proof. intros Hk Hb. apply CGO.xor_twice. lia. Qed.

Lemma sample_H_length m : length (sample_H m) = 20%nat.
Proof. unfold sample_H. rewrite length_app, length_PutUint64, length_zeros. done. Qed.

Definition sample_keys (n : nat) : bytes := (fun i => Z.of_nat i * 7 mod 256) <$> seq 3 n.

(** A classic guard and a CGO exit. *)
Definition sample_kms : list bytes := [sample_keys 72; sample_keys 160].

Definition sample_cell (v1 : bool) : bytes :=
  if v1 then RelayCell.v1_image RelayCell.sample_v1 else RelayCell.v0_image RelayCell.sample_relay.

Definition sample_events : list event := [Reply 0 (sample_cell false); Send 1 3 (sample_cell true)].

Lemma circuit_refines_channel_witness :
  exists hops ccs,
    Onion.usesCGO <$> hops = [false; true] /\
    Forall2 (arrives [false; true]) sample_events
      (net_run toy_block toy_block sample_H (hops, ccs) sample_events).2.
Proof.
  assert (exists h1 h2 c1 c2,
    deriveHopFromKeyMaterial toy_block false (sample_keys 72) = Ok h1 /\
    deriveHopFromKeyMaterial toy_block true (sample_keys 160) = Ok h2 /\
    newCircuitCrypto toy_block (sample_keys 72) = Ok c1 /\ newCircuitCrypto toy_block (sample_keys 160) = Ok c2 /\
    Onion.usesCGO <$> [h1; h2] = [false; true] /\
    undisturbed_run toy_block toy_block sample_H ([h1; h2], [c1; c2]) sample_events = true)
    as (h1 & h2 & c1 & c2 & H1 & H2 & H3 & H4 & Hk & Hu).
  { eexists _, _, _, _. split; [reflexivity|]. split; [reflexivity|].
    split; [reflexivity|]. split; [reflexivity|]. split; [reflexivity|]. vm_compute. reflexivity. }
  exists [h1; h2], [c1; c2]. split; [exact Hk|]. rewrite <- Hk.
  apply (circuit_refines_channel toy_block toy_block sample_H toy_length toy_length toy_inverse toy_inverse
    sample_H_length sample_kms); [by repeat constructor..|exact Hu].
Defined.

End RelayCrypto.
