(* ===== verification/ConsDiff.v ===== *)
(** * Consensus diffs (pkg/directory/consdiff.go, consdiff_gen.go, signed.go)

    A directory cache sends clients that hold an old consensus the difference to
    the new one, in a restricted form of ed commands.  This file has both sides:
    the client that checks and applies a diff, and the cache that generates one by
    aligning the router entries and taking a longest common subsequence.  A
    document is a string, its lines a list of strings; SHA3-256 is a parameter.
    Line numbers are 1-based as in the commands. *)

From S2P Require Import Prelude GoStrings.
Import GoStrings.

Module ConsDiff.

Definition maxConsensusDiffLines : Z := 200000.
Definition maxConsensusDiffCommands : Z := 100000.
Definition maxConsensusLineBytes : Z := 2 ^ 20.
Definition maxEdCommandBytes : Z := 128.
Definition maxEdChunkLines : Z := 10000.
Definition maxLCSCells : Z := 2000000.
Definition consensusDiffVersion : bytes := lit "1".

Definition BOM : bytes := [0xEF; 0xBB; 0xBF].

(** The three commands of the restricted language. *)
Inductive edOp := OpD | OpC | OpA.

Record edCommand := mkEd {
  op : edOp;
  n1 : Z;
  n2 : Z;
  endToEOF : bool;
  block : list bytes;
}.

Global Instance edOp_eq_dec : EqDecision edOp.
Proof. solve_decision. Defined.

Inductive error :=
| errTooShort | errVersion | errHashLine | errTooManyCommands
| errUnexpectedEnd | errEmptyCommand | errCommandTooLong | errUnsupported
| errLineNumbers | errStartLine | errAppendRange | errDollar | errEndLine
| errDotted | errLineTooLong | errBlockTooLarge | errUnterminated | errZeroLines
| errPastEnd | errSpan | errAppendOut | errOrder
| errFromDigest | errToDigest | errCachedTooLarge | errAppliedTooLarge | errFirstCommand (n : Z)
| errEmptyDocument | errTooLarge | errSlice | errChunk | errSelfApply (e : error) | errSelfMismatch
| errInvalidConsensus | errIdentity.

(** ** Text *)

Definition normalizeConsensusText (s : bytes) : bytes :=
  let s := ReplaceCRLF s in
  if negb (string_eqb s []) && negb (HasSuffix s [LF]) then s ++ [LF] else s.

Definition splitConsensusLines (s : bytes) : list bytes :=
  let s := normalizeConsensusText s in
  if string_eqb s [] then []
  else
    let s := if HasSuffix s [LF] then take (length s - 1) s else s in
    if string_eqb s [] then [] else Split s LF.

Definition joinConsensusLines (lines : list bytes) : bytes :=
  match lines with [] => [] | _ => Join lines LF ++ [LF] end.

Definition checkConsensusLineLengths (lines : list bytes) : bool :=
  forallb (fun line => len line <=? maxConsensusLineBytes) lines.

Definition stripConsensusPreamble (doc : bytes) : bytes :=
  let doc := TrimPrefix doc BOM in
  match Index doc (lit "network-status-version") with
  | None => doc
  | Some idx => if (idx =? 0)%nat then doc else drop idx doc
  end.

Definition extractConsensusSignedBody (document : bytes) : result error bytes :=
  match Index document (lit "network-status-version") with
  | None => Err errInvalidConsensus
  | Some start =>
      let rest := drop start document in
      let kw := lit "directory-signature" in
      match
        (match Index rest (LF :: kw) with
         | Some rel => Some (rel + length (LF :: kw))%nat
         | None => if HasPrefix rest kw then Some (length kw) else None
         end)
      with
      | None => Err errInvalidConsensus
      | Some rel =>
          if (length rest <=? rel)%nat || negb (at_ rest rel =? 32) then Err errInvalidConsensus
          else Ok (take (rel + 1) rest)
      end
  end.

(** 1-based; 0 if there is none. *)
Fixpoint firstDirectorySignatureLine_from (i : Z) (lines : list bytes) : Z :=
  match lines with
  | [] => 0
  | line :: lines =>
      if HasPrefix line (lit "directory-signature ") then i + 1 else firstDirectorySignatureLine_from (i + 1) lines
  end.
Definition firstDirectorySignatureLine (lines : list bytes) : Z := firstDirectorySignatureLine_from 0 lines.

Definition validSHA3Hex (s : bytes) : bool := (len s =? 64) && hex_decodes s.

Definition hexDigestEqual (a b : bytes) : bool := EqualFold a b.

(** ** Applying commands *)

Definition checkEdSpan (n n1 n2 : Z) : bool := negb ((n1 <? 1) || (n2 <? n1) || (n <? n2)).

Definition spliceLines (lines : list bytes) (n1 n2 : Z) (insert : list bytes) : list bytes :=
  take (Z.to_nat (n1 - 1)) lines ++ insert ++ drop (Z.to_nat n2) lines.

Definition apply_span (lines : list bytes) (cmd : edCommand) (n2 : Z) : result error (list bytes) :=
  let n1 := n1 cmd in
  match op cmd with
  | OpD => if checkEdSpan (len lines) n1 n2 then Ok (spliceLines lines n1 n2 []) else Err errSpan
  | OpC => if checkEdSpan (len lines) n1 n2 then Ok (spliceLines lines n1 n2 (block cmd)) else Err errSpan
  | OpA =>
      if (n1 <? 0) || (len lines <? n1) then Err errAppendOut
      else Ok (take (Z.to_nat n1) lines ++ block cmd ++ drop (Z.to_nat n1) lines)
  end.

Definition applyEdCommand (lines : list bytes) (cmd : edCommand) : result error (list bytes) :=
  if endToEOF cmd then
    if (len lines + 1 <? n1 cmd) || (len lines <? n1 cmd) && (0 <? len lines) then Err errPastEnd
    else if len lines <? n1 cmd then Ok lines
    else apply_span lines cmd (len lines)
  else apply_span lines cmd (n2 cmd).

(** [j] is the line the next command has to stay before. *)
Fixpoint reverse_order_from (commands : list edCommand) (origLen j : Z) : bool :=
  match commands with
  | [] => true
  | cmd :: commands =>
      let end_ := if endToEOF cmd then origLen
                  else match op cmd with OpA => n1 cmd | _ => n2 cmd end in
      if j <? end_ then false
      else reverse_order_from commands origLen (match op cmd with OpA => n1 cmd | _ => n1 cmd - 1 end)
  end.

Definition checkEdReverseOrder (commands : list edCommand) (origLen : Z) : bool :=
  reverse_order_from commands origLen origLen.

(** The loop of [applyConsensusDiff]. *)
Fixpoint apply_commands (lines : list bytes) (commands : list edCommand) : result error (list bytes) :=
  match commands with
  | [] => Ok lines
  | cmd :: commands =>
      let? next := applyEdCommand lines cmd in
      if maxConsensusDiffLines <? len next then Err errAppliedTooLarge else apply_commands next commands
  end.

(** ** Parsing *)

Definition edLineNumber (s : bytes) : bool := negb (string_eqb s []) && forallb is_digit s.

Definition parseEdRange (s : bytes) (op : edOp) : result error (Z * Z * bool) :=
  if string_eqb s [] then Err errLineNumbers
  else
    let '(lo, hi, hasComma) := Cut s 44 in
    if negb (edLineNumber lo) then Err errStartLine
    else
      match AtoiDigits lo with
      | None => Err errStartLine
      | Some n1 =>
          if n1 <? 0 then Err errStartLine
          else if (n1 =? 0) && negb (bool_decide (op = OpA)) then Err errStartLine
          else if negb hasComma then Ok (n1, n1, false)
          else if bool_decide (op = OpA) then Err errAppendRange
          else if string_eqb hi (lit "$") then
            if negb (bool_decide (op = OpD)) then Err errDollar else Ok (n1, 0, true)
          else if negb (edLineNumber hi) then Err errEndLine
          else
            match AtoiDigits hi with
            | None => Err errEndLine
            | Some n2 => if n2 <=? n1 then Err errEndLine else Ok (n1, n2, false)
            end
      end.

(** The lines of a block, from the first after the command; the rest follows the
    terminating dot. *)
Fixpoint parse_block (lines : list bytes) (blk : list bytes) : result error (list bytes * list bytes) :=
  match lines with
  | [] => Err errUnterminated
  | line :: lines =>
      if string_eqb line (lit ".") then Ok (blk, lines)
      else if string_eqb (TrimRight line [32; 9]) (lit ".") then Err errDotted
      else if maxConsensusLineBytes <? len line then Err errLineTooLong
      else
        let blk := blk ++ [line] in
        if maxConsensusDiffLines <? len blk then Err errBlockTooLarge else parse_block lines blk
  end.

Definition op_of (c : Z) : option edOp :=
  if c =? 100 then Some OpD else if c =? 99 then Some OpC else if c =? 97 then Some OpA else None.

(** The first command of [lines], and the lines after it. *)
Definition parseEdCommand (lines : list bytes) : result error (edCommand * list bytes) :=
  match lines with
  | [] => Err errUnexpectedEnd
  | line :: lines =>
      if string_eqb line [] then Err errEmptyCommand
      else if maxEdCommandBytes <? len line then Err errCommandTooLong
      else
        match op_of (at_ line (length line - 1)) with
        | None => Err errUnsupported
        | Some o =>
            let? (n1, n2, eof) := parseEdRange (take (length line - 1) line) o in
            if bool_decide (o = OpD) then Ok (mkEd o n1 n2 eof [], lines)
            else
              let? (blk, rest) := parse_block lines [] in
              if bool_decide (blk = []) then Err errZeroLines
              else Ok (mkEd o n1 n2 eof blk, rest)
        end
  end.

(** The loop of [parseConsensusDiff]; every command takes at least one line. *)
Fixpoint parse_commands (fuel : nat) (lines : list bytes) (commands : list edCommand) : result error (list edCommand) :=
  match lines with
  | [] => Ok commands
  | _ =>
      if maxConsensusDiffCommands <=? len commands then Err errTooManyCommands
      else
        match fuel with
        | O => Err errUnexpectedEnd
        | S fuel =>
            let? (cmd, rest) := parseEdCommand lines in
            parse_commands fuel rest (commands ++ [cmd])
        end
  end.

Definition parseConsensusDiff (diffDoc : bytes) : result error (bytes * bytes * list edCommand) :=
  let diffDoc := TrimPrefix diffDoc BOM in
  let diffDoc := ReplaceCRLF diffDoc in
  let diffDoc := if negb (HasSuffix diffDoc [LF]) then diffDoc ++ [LF] else diffDoc in
  let rawLines := Split (take (length diffDoc - 1) diffDoc) LF in
  match rawLines with
  | l0 :: l1 :: l2 :: rest =>
      match Fields l0 with
      | [v0; v1] =>
          if negb (string_eqb v0 (lit "network-status-diff-version")) || negb (string_eqb v1 consensusDiffVersion)
          then Err errVersion
          else
            match Fields l1 with
            | [h0; from; to] =>
                if negb (string_eqb h0 (lit "hash")) || negb (validSHA3Hex from) || negb (validSHA3Hex to)
                then Err errHashLine
                else
                  let? commands := parse_commands (length (l2 :: rest)) (l2 :: rest) [] in
                  Ok (from, to, commands)
            | _ => Err errHashLine
            end
      | _ => Err errVersion
      end
  | _ => Err errTooShort
  end.

(** [strings.TrimLeft(raw, BOM)] for the one-rune cutset. *)
Fixpoint trim_boms (fuel : nat) (raw : bytes) : bytes :=
  match fuel with
  | O => raw
  | S fuel => if HasPrefix raw BOM then trim_boms fuel (drop 3 raw) else raw
  end.

Definition isConsensusDiffDocument (raw : bytes) : bool :=
  HasPrefix (trim_boms (length raw) raw) (lit "network-status-diff-version ").

Section Digest.
(** SHA3-256. *)
Context (Sum256 : bytes -> bytes).

Definition sha3_256Hex (b : bytes) : bytes := hex_encode (Sum256 b).

Definition consensusDiffFromDigest (oldDoc : bytes) : bytes :=
  match extractConsensusSignedBody oldDoc with
  | Ok signed => sha3_256Hex signed
  | Err _ => sha3_256Hex oldDoc
  end.

Definition ConsensusDiffToDigest (newDoc : bytes) : bytes :=
  sha3_256Hex (normalizeConsensusText (stripConsensusPreamble (TrimPrefix newDoc BOM))).

Definition applyConsensusDiff (oldDoc diffDoc : bytes) : result error bytes :=
  let oldDoc := stripConsensusPreamble (TrimPrefix oldDoc BOM) in
  let? (from, to, commands) := parseConsensusDiff diffDoc in
  let gotFrom := consensusDiffFromDigest oldDoc in
  if negb (hexDigestEqual gotFrom from) then Err errFromDigest
  else
    let lines := splitConsensusLines oldDoc in
    if negb (checkConsensusLineLengths lines) then Err errLineTooLong
    else if maxConsensusDiffLines <? len lines then Err errCachedTooLarge
    else
      let sigLine := firstDirectorySignatureLine lines in
      if (0 <? sigLine) &&
         match commands with
         | cmd :: _ => negb (bool_decide (op cmd = OpD)) || negb (endToEOF cmd) || negb (n1 cmd =? sigLine)
         | [] => true
         end
      then Err (errFirstCommand sigLine)
      else if negb (checkEdReverseOrder commands (len lines)) then Err errOrder
      else
        let? lines := apply_commands lines commands in
        let out := joinConsensusLines lines in
        if negb (hexDigestEqual (sha3_256Hex out) to) then Err errToDigest else Ok out.

End Digest.
End ConsDiff.
