(* ===== verification/ConsDiffGen.v ===== *)
(** * Generating consensus diffs (pkg/directory/consdiff_gen.go)

    The cache's side of [ConsDiff.v]: lines are marked as changed by aligning the
    router entries of both documents by identity and taking a longest common
    subsequence inside the parts that correspond; the runs of marked lines become
    ed commands, from the end of the file to its start. *)

From Stdlib Require Import String.
From S2P Require Import Prelude GoStrings ConsDiff.
Import GoStrings ConsDiff.

Module ConsDiffGen.

(** ** Router entries *)

(** [base64.RawStdEncoding]: the value of a character. *)
Definition b64_value (c : Z) : option Z :=
  if (65 <=? c) && (c <=? 90) then Some (c - 65)
  else if (97 <=? c) && (c <=? 122) then Some (c - 71)
  else if is_digit c then Some (c + 4)
  else if c =? 43 then Some 62
  else if c =? 47 then Some 63
  else None.

(** Four characters give three bytes; two or three at the end give one or two. *)
Fixpoint b64_groups (vs : list Z) : option bytes :=
  match vs with
  | [] => Some []
  | a :: b :: c :: d :: vs =>
      rest ← b64_groups vs;
      let v := ((a * 64 + b) * 64 + c) * 64 + d in
      Some (v / 65536 :: v / 256 mod 256 :: v mod 256 :: rest)
  | [a; b; c] => let v := (a * 64 + b) * 64 + c in Some [v / 1024; v / 4 mod 256]
  | [a; b] => Some [(a * 64 + b) / 16]
  | [_] => None
  end.

Definition RawStdDecode (s : bytes) : option bytes :=
  vs ← mapM b64_value (filter (fun c => c <> CR /\ c <> LF) s);
  b64_groups vs.

Definition decodeRouterIdentity (s : bytes) : option bytes :=
  match RawStdDecode s with
  | Some raw => if bool_decide (raw = []) then None else Some raw
  | None => None
  end.

Definition bytesCompareUnsigned (a b : bytes) : Z := Compare a b.

Definition cmpIdentityString (a b : bytes) : Z :=
  match decodeRouterIdentity a, decodeRouterIdentity b with
  | Some ra, Some rb => bytesCompareUnsigned ra rb
  | _, _ => Compare a b
  end.

Definition routerIdentityField (line : bytes) : option bytes :=
  if negb (HasPrefix line (lit "r ")) then None
  else match Fields line with
       | _ :: _ :: id :: _ => if string_eqb id [] then None else Some id
       | _ => None
       end.

Fixpoint router_lines_from (i : nat) (lines : list bytes) : list nat :=
  match lines with
  | [] => []
  | line :: lines =>
      match routerIdentityField line with
      | Some _ => i :: router_lines_from (S i) lines
      | None => router_lines_from (S i) lines
      end
  end.
Definition routerLineIndices (lines : list bytes) : list nat := router_lines_from 0 lines.

Record routerSpan := mkSpan { id : bytes; start : nat; end_ : nat }.

(** The first footer line among those from [i] on. *)
Fixpoint footer_from (i : nat) (lines : list bytes) : nat :=
  match lines with
  | [] => i
  | line :: lines =>
      if HasPrefix line (lit "directory-footer") || HasPrefix line (lit "directory-signature ") then i
      else footer_from (S i) lines
  end.
Definition findConsensusFooter (lines : list bytes) (from : nat) : nat := footer_from from (drop from lines).

Fixpoint spans_of (lines : list bytes) (idx : list nat) : list routerSpan :=
  match idx with
  | [] => []
  | ridx :: idx =>
      let fid := default [] (lines !! ridx ≫= routerIdentityField) in
      let e := match idx with next :: _ => next | [] => findConsensusFooter lines (ridx + 1) end in
      mkSpan fid ridx e :: spans_of lines idx
  end.

Definition splitRouterSpans (lines : list bytes) : nat * list routerSpan * nat :=
  match routerLineIndices lines with
  | [] => (length lines, [], length lines)
  | (first :: _) as idx =>
      let routers := spans_of lines idx in
      (first, routers, match last routers with Some s => end_ s | None => length lines end)
  end.

Fixpoint spans_sorted (prev : option bytes) (spans : list routerSpan) : bool :=
  match spans with
  | [] => true
  | s :: spans =>
      match decodeRouterIdentity (id s) with
      | None => false
      | Some raw =>
          match prev with
          | Some p => if bytesCompareUnsigned raw p <=? 0 then false else spans_sorted (Some raw) spans
          | None => spans_sorted (Some raw) spans
          end
      end
  end.
Definition routerSpansSorted (spans : list routerSpan) : bool := spans_sorted None spans.

(** ** Longest common subsequence *)

(** Row [i+1] of the table from row [i], from column [j+1] on; [prev] is the row
    from column [j] on, and [left] the entry before. *)
Fixpoint lcs_row (x : bytes) (b : list bytes) (prev : list Z) (left : Z) : list Z :=
  match b, prev with
  | y :: b, d :: prev =>
      let up := default 0 (head prev) in
      let v := if string_eqb x y then d + 1 else if up <=? left then left else up in
      v :: lcs_row x b prev v
  | _, _ => []
  end.

Fixpoint lcs_table (a b : list bytes) (row : list Z) : list (list Z) :=
  match a with
  | [] => [row]
  | x :: a => row :: lcs_table a b (0 :: lcs_row x b row 0)
  end.

Definition dp_at (dp : list (list Z)) (i j : nat) : Z := default 0 (dp !! i ≫= (.!! j)).

(** The walk back from the corner; it takes at most one step per line. *)
Fixpoint lcs_walk (fuel : nat) (a b : list bytes) (dp : list (list Z)) (i j : nat) (keepA keepB : list bool) :
    list bool * list bool :=
  match fuel, i, j with
  | S fuel, S i', S j' =>
      if string_eqb (default [] (a !! i')) (default [] (b !! j')) && (dp_at dp i j =? dp_at dp i' j' + 1)
      then lcs_walk fuel a b dp i' j' (<[i' := true]> keepA) (<[j' := true]> keepB)
      else if dp_at dp i j' <=? dp_at dp i' j then lcs_walk fuel a b dp i' j keepA keepB
      else lcs_walk fuel a b dp i j' keepA keepB
  | _, _, _ => (keepA, keepB)
  end.

Definition lcsKeep (a b : list bytes) : list bool * list bool :=
  let n := length a in
  let m := length b in
  let dp := lcs_table a b (replicate (m + 1) 0) in
  lcs_walk (n + m) a b dp n m (replicate n false) (replicate m false).

(** ** Marking changes *)

(** [changed[i] = true] for [start <= i < end]. *)
Definition markSpanChanged (changed : list bool) (start end_ : nat) : list bool :=
  imap (fun i b => if (start <=? i)%nat && (i <? end_)%nat then true else b) changed.

(** How many lines from [a0] and [b0] on agree. *)
Fixpoint common_prefix (a b : list bytes) : nat :=
  match a, b with
  | x :: a, y :: b => if string_eqb x y then S (common_prefix a b) else 0%nat
  | _, _ => 0%nat
  end.

(** [ca[a0+i] = true] wherever [keep[i]] is false. *)
Definition mark_dropped (ca : list bool) (a0 : nat) (keep : list bool) : list bool :=
  imap (fun i b => match keep !! (i - a0)%nat with
                   | Some false => if (a0 <=? i)%nat then true else b
                   | _ => b
                   end) ca.

Definition markLineChangesRange (a b : list bytes) (a0 a1 b0 b1 : nat) (ca cb : list bool) :
    result error (list bool * list bool) :=
  if (a1 <? a0)%nat || (b1 <? b0)%nat || (length a <? a1)%nat || (length b <? b1)%nat then Err errSlice
  else
    let p := common_prefix (slice a a0 a1) (slice b b0 b1) in
    let a0 := (a0 + p)%nat in
    let b0 := (b0 + p)%nat in
    let q := common_prefix (rev (slice a a0 a1)) (rev (slice b b0 b1)) in
    let a1 := (a1 - q)%nat in
    let b1 := (b1 - q)%nat in
    if (a1 <=? a0)%nat && (b1 <=? b0)%nat then Ok (ca, cb)
    else
      let subA := slice a a0 a1 in
      let subB := slice b b0 b1 in
      if (len subA <=? 1) || (len subB <=? 1) then Ok (markSpanChanged ca a0 a1, markSpanChanged cb b0 b1)
      else if (maxEdChunkLines <? len subA) || (maxEdChunkLines <? len subB) then Err errChunk
      else if maxLCSCells <? len subA * len subB then Ok (markSpanChanged ca a0 a1, markSpanChanged cb b0 b1)
      else
        let '(keepA, keepB) := lcsKeep subA subB in
        Ok (mark_dropped ca a0 keepA, mark_dropped cb b0 keepB).

(** The loop over both lists of router entries. *)
Fixpoint merge_spans (oldL newL : list bytes) (oldR : list routerSpan) :
    list routerSpan -> list bool -> list bool -> result error (list bool * list bool) :=
  fix go newR c1 c2 :=
    match oldR, newR with
    | [], [] => Ok (c1, c2)
    | o :: oldR, [] => merge_spans oldL newL oldR [] (markSpanChanged c1 (start o) (end_ o)) c2
    | [], n :: newR => go newR c1 (markSpanChanged c2 (start n) (end_ n))
    | o :: oldR, n :: newR' =>
        let cmp := cmpIdentityString (id o) (id n) in
        if cmp =? 0 then
          let? (c1, c2) := markLineChangesRange oldL newL (start o) (end_ o) (start n) (end_ n) c1 c2 in
          merge_spans oldL newL oldR newR' c1 c2
        else if cmp <? 0 then merge_spans oldL newL oldR newR (markSpanChanged c1 (start o) (end_ o)) c2
        else go newR' c1 (markSpanChanged c2 (start n) (end_ n))
    end.

Definition markConsensusChanges (oldL newL : list bytes) : result error (list bool * list bool) :=
  let c1 := replicate (length oldL) false in
  let c2 := replicate (length newL) false in
  let '(oldH, oldR, oldF) := splitRouterSpans oldL in
  let '(newH, newR, newF) := splitRouterSpans newL in
  if negb (routerSpansSorted oldR) || negb (routerSpansSorted newR) then
    markLineChangesRange oldL newL 0 (length oldL) 0 (length newL) c1 c2
  else
    let? (c1, c2) := markLineChangesRange oldL newL 0 oldH 0 newH c1 c2 in
    let? (c1, c2) := merge_spans oldL newL oldR newR c1 c2 in
    markLineChangesRange oldL newL oldF (length oldL) newF (length newL) c1 c2.

(** ** Commands *)

Definition dot_only (line : bytes) : bool :=
  string_eqb line (lit ".") || string_eqb (TrimRight line [32; 9]) (lit ".").
Definition rejectDotOnlyLines (blk : list bytes) : bool := negb (existsb dot_only blk).

Definition changed_at (c : list bool) (i : nat) : bool := default false (c !! i).

(** [k] lines are left; skip the changed ones at the end. *)
Fixpoint skip_changed (c : list bool) (k : nat) : nat :=
  match k with
  | O => O
  | S k' => if changed_at c k' then skip_changed c k' else k
  end.

(** [k1] and [k2] are [i1+1] and [i2+1], the numbers of lines left. *)
Fixpoint commands_from (fuel : nat) (oldL newL : list bytes) (c1 c2 : list bool) (k1 k2 : nat) : result error (list edCommand) :=
  match fuel with
  | O => Ok []
  | S fuel =>
      if (k1 =? 0)%nat && (k2 =? 0)%nat then Ok []
      else
        let ch1 := (0 <? k1)%nat && changed_at c1 (k1 - 1) in
        let ch2 := (0 <? k2)%nat && changed_at c2 (k2 - 1) in
        if negb ch1 && negb ch2 then commands_from fuel oldL newL c1 c2 (k1 - 1) (k2 - 1)
        else
          let s1 := skip_changed c1 k1 in
          let s2 := skip_changed c2 k2 in
          let deleted := Z.of_nat k1 - Z.of_nat s1 in
          let added := Z.of_nat k2 - Z.of_nat s2 in
          if added =? 0 then
            let? cmds := commands_from fuel oldL newL c1 c2 s1 s2 in
            Ok (mkEd OpD (Z.of_nat s1 + 1) (Z.of_nat s1 + deleted) false [] :: cmds)
          else
            let blk := slice newL s2 k2 in
            if negb (rejectDotOnlyLines blk) then Err errDotted
            else
              let? cmds := commands_from fuel oldL newL c1 c2 s1 s2 in
              if deleted =? 0 then Ok (mkEd OpA (Z.of_nat s1) (Z.of_nat s1) false blk :: cmds)
              else Ok (mkEd OpC (Z.of_nat s1 + 1) (Z.of_nat s1 + deleted) false blk :: cmds)
  end.

Definition commandsFromChanges (oldL newL : list bytes) (c1 c2 : list bool) : result error (list edCommand) :=
  commands_from (length oldL + length newL) oldL newL c1 c2 (length oldL) (length newL).

Definition genEdDiff (oldOrig newLines : list bytes) : result error (list edCommand) :=
  let sig := firstDirectorySignatureLine oldOrig in
  let '(cmds, oldLines) :=
    if 0 <? sig then ([mkEd OpD sig 0 true []], take (Z.to_nat (sig - 1)) oldOrig) else ([], oldOrig) in
  let? (changed1, changed2) := markConsensusChanges oldLines newLines in
  let? body := commandsFromChanges oldLines newLines changed1 changed2 in
  Ok (cmds ++ body).

(** ** Writing *)

Definition writeEdBlock (blk : list bytes) : result error bytes :=
  if bool_decide (blk = []) then Err errZeroLines
  else if negb (rejectDotOnlyLines blk) then Err errDotted
  else Ok (unlines blk ++ lit "." ++ [LF]).

Definition print_range (cmd : edCommand) : bytes :=
  if n1 cmd =? n2 cmd then print_int (n1 cmd) else print_int (n1 cmd) ++ lit "," ++ print_int (n2 cmd).

Definition writeEdCommand (cmd : edCommand) : result error bytes :=
  match op cmd with
  | OpD =>
      if endToEOF cmd then Ok (print_int (n1 cmd) ++ lit ",$d" ++ [LF])
      else Ok (print_range cmd ++ lit "d" ++ [LF])
  | OpC => let? blk := writeEdBlock (block cmd) in Ok (print_range cmd ++ lit "c" ++ [LF] ++ blk)
  | OpA => let? blk := writeEdBlock (block cmd) in Ok (print_int (n1 cmd) ++ lit "a" ++ [LF] ++ blk)
  end.

Fixpoint write_commands (cmds : list edCommand) : result error bytes :=
  match cmds with
  | [] => Ok []
  | cmd :: cmds =>
      let? s := writeEdCommand cmd in
      let? rest := write_commands cmds in
      Ok (s ++ rest)
  end.

(** [ParseOrDiffFromConsensusHeader]: the valid digests, each once. *)
Fixpoint dedup (seen out : list bytes) (ps : list bytes) : list bytes :=
  match ps with
  | [] => out
  | p :: ps =>
      let p := ToLower p in
      if negb (validSHA3Hex p) then dedup seen out ps
      else if bool_decide (p ∈ seen) then dedup seen out ps
      else dedup (p :: seen) (out ++ [p]) ps
  end.
Definition ParseOrDiffFromConsensusHeader (h : bytes) : list bytes :=
  dedup [] [] (Fields (map (fun c => if c =? 44 then 32 else c) h)).

Section Digest.
Context (Sum256 : bytes -> bytes).

Definition GenerateConsensusDiff (oldDoc newDoc : bytes) : result error bytes :=
  let oldDoc := stripConsensusPreamble (TrimPrefix oldDoc BOM) in
  let newDoc := stripConsensusPreamble (TrimPrefix newDoc BOM) in
  let oldNorm := normalizeConsensusText oldDoc in
  let newNorm := normalizeConsensusText newDoc in
  if blank oldNorm || blank newNorm then Err errEmptyDocument
  else
    let oldLines := splitConsensusLines oldNorm in
    let newLines := splitConsensusLines newNorm in
    if negb (checkConsensusLineLengths oldLines) then Err errLineTooLong
    else if negb (checkConsensusLineLengths newLines) then Err errLineTooLong
    else if (maxConsensusDiffLines <? len oldLines) || (maxConsensusDiffLines <? len newLines) then Err errTooLarge
    else
      let? cmds := genEdDiff oldLines newLines in
      let from := consensusDiffFromDigest Sum256 oldNorm in
      let to := sha3_256Hex Sum256 newNorm in
      let? text := write_commands cmds in
      let diff := lit "network-status-diff-version 1" ++ [LF] ++ lit "hash " ++ from ++ [32] ++ to ++ [LF] ++ text in
      match applyConsensusDiff Sum256 oldNorm diff with
      | Err e => Err (errSelfApply e)
      | Ok got => if negb (string_eqb got newNorm) then Err errSelfMismatch else Ok diff
      end.

End Digest.
(** ** Alignment *)

(** The lines not marked as changed. *)
Fixpoint unmarked (l : list bytes) (c : list bool) : list bytes :=
  match l, c with
  | x :: l, b :: c => if b then unmarked l c else x :: unmarked l c
  | _, _ => []
  end.

Lemma unmarked_app l1 l2 c1 c2 :
  length l1 = length c1 -> unmarked (l1 ++ l2) (c1 ++ c2) = unmarked l1 c1 ++ unmarked l2 c2.
Proof.
  revert c1. induction l1 as [|x l1 IH]; intros [|b c1] Hl; try done. simpl in *.
  rewrite IH by lia. by destruct b.
Qed.

Lemma unmarked_true l n : unmarked l (replicate n true) = [].
Proof. revert n. induction l as [|x l IH]; intros [|n]; try done. simpl. apply IH. Qed.

Lemma unmarked_false l n : length l = n -> unmarked l (replicate n false) = l.
Proof. intros <-. induction l as [|x l IH]; [done|]. simpl. by rewrite IH. Qed.

Lemma drop_add {A} (l : list A) p k : drop (p + k) l = drop k (drop p l).
Proof. rewrite drop_drop. done. Qed.

Section Alignment.
Context (oldL newL : list bytes).

(** Up to line [pa] of the old and [pb] of the new document, the unmarked lines are
    the same; nothing is marked yet after them. *)
Record aligned (pa pb : nat) (c1 c2 : list bool) : Prop := {
  al_len1 : length c1 = length oldL;
  al_len2 : length c2 = length newL;
  al_pa : (pa <= length oldL)%nat;
  al_pb : (pb <= length newL)%nat;
  al_eq : unmarked (take pa oldL) (take pa c1) = unmarked (take pb newL) (take pb c2);
  al_rest1 : drop pa c1 = replicate (length oldL - pa) false;
  al_rest2 : drop pb c2 = replicate (length newL - pb) false;
}.

(** [c] with [seg] written from position [p] on. *)
Definition set_mid (c : list bool) (p : nat) (seg : list bool) : list bool :=
  take p c ++ seg ++ drop (p + length seg) c.

Lemma take_set_mid l c p seg :
  length c = length l -> (p + length seg <= length l)%nat ->
  unmarked (take (p + length seg) l) (take (p + length seg) (set_mid c p seg)) =
    unmarked (take p l) (take p c) ++ unmarked (slice l p (p + length seg)) seg.
Proof.
  intros Hl Hp. unfold set_mid, slice.
  rewrite app_assoc, take_app_length' by (rewrite length_app, length_take; lia).
  replace (p + length seg - p)%nat with (length seg) by lia.
  rewrite <- (take_drop p (take (p + length seg) l)), take_take, skipn_firstn_comm.
  replace (p `min` (p + length seg))%nat with p by lia. replace (p + length seg - p)%nat with (length seg) by lia.
  apply unmarked_app. rewrite !length_take. lia.
Qed.

Lemma drop_set_mid c p seg n k :
  (p + length seg <= n)%nat -> length c = n -> drop p c = replicate (n - p) false -> k = (p + length seg)%nat ->
  drop k (set_mid c p seg) = replicate (n - k) false.
Proof.
  intros Hp Hc Hd ->. unfold set_mid. rewrite app_assoc, drop_app_length' by (rewrite length_app, length_take; lia).
  rewrite drop_add, Hd, drop_replicate. f_equal. lia.
Qed.

Lemma length_set_mid c p seg n :
  (p + length seg <= n)%nat -> length c = n -> length (set_mid c p seg) = n.
Proof. intros Hp Hc. unfold set_mid. rewrite !length_app, length_take, length_drop. lia. Qed.

Lemma aligned_extend pa pb c1 c2 segA segB :
  aligned pa pb c1 c2 -> (pa + length segA <= length oldL)%nat -> (pb + length segB <= length newL)%nat ->
  unmarked (slice oldL pa (pa + length segA)) segA = unmarked (slice newL pb (pb + length segB)) segB ->
  aligned (pa + length segA) (pb + length segB) (set_mid c1 pa segA) (set_mid c2 pb segB).
Proof.
  intros [] Ha Hb Hs. constructor; try done.
  - by apply length_set_mid.
  - by apply length_set_mid.
  - rewrite !take_set_mid by done. by rewrite al_eq0, Hs.
  - by eapply drop_set_mid.
  - by eapply drop_set_mid.
Qed.

(** Writing what is there already. *)
Lemma set_mid_false c p k n :
  (p + k <= n)%nat -> drop p c = replicate (n - p) false -> set_mid c p (replicate k false) = c.
Proof.
  intros Hp Hd. unfold set_mid. rewrite length_replicate, drop_add, Hd, drop_replicate, app_assoc, <- app_assoc, <- replicate_add.
  replace (k + (n - p - k))%nat with (n - p)%nat by lia. rewrite <- Hd. apply take_drop.
Qed.

Lemma aligned_skip pa pb c1 c2 k :
  aligned pa pb c1 c2 -> (pa + k <= length oldL)%nat -> (pb + k <= length newL)%nat ->
  slice oldL pa (pa + k) = slice newL pb (pb + k) -> aligned (pa + k) (pb + k) c1 c2.
Proof.
  intros Ha Hk1 Hk2 Hs. pose proof (aligned_extend pa pb c1 c2 (replicate k false) (replicate k false) Ha) as Hx.
  rewrite !length_replicate in Hx. destruct Ha.
  rewrite (set_mid_false c1 pa k (length oldL)), (set_mid_false c2 pb k (length newL)) in Hx by done.
  apply Hx; [done..|]. by rewrite !unmarked_false by (rewrite length_slice; lia).
Qed.

(** Both spans marked. *)
Lemma markSpanChanged_mid c p q :
  (p <= q <= length c)%nat -> markSpanChanged c p q = set_mid c p (replicate (q - p) true).
Proof.
  intros Hpq. unfold markSpanChanged, set_mid. rewrite length_replicate. apply list_eq. intros i.
  rewrite list_lookup_imap. destruct (c !! i) as [b|] eqn:E.
  - apply lookup_lt_Some in E as Hi. simpl. destruct (decide (i < p)%nat).
    + rewrite lookup_app_l, lookup_take_lt, E by (rewrite ?length_take; lia).
      by rewrite (proj2 (Nat.leb_gt _ _)) by lia.
    + rewrite lookup_app_r by (rewrite length_take; lia). rewrite length_take, Nat.min_l by lia.
      rewrite (proj2 (Nat.leb_le _ _)) by lia. destruct (decide (i < q)%nat).
      * rewrite lookup_app_l, lookup_replicate_2, (proj2 (Nat.ltb_lt _ _)) by (rewrite ?length_replicate; lia). done.
      * rewrite lookup_app_r, length_replicate, lookup_drop by (rewrite length_replicate; lia).
        replace (p + (q - p) + (i - p - (q - p)))%nat with i by lia. by rewrite E, (proj2 (Nat.ltb_ge _ _)) by lia.
  - apply lookup_ge_None in E. simpl. symmetry. apply lookup_ge_None.
    rewrite !length_app, length_take, length_replicate, length_drop. lia.
Qed.

Lemma set_mid_nil c p : set_mid c p [] = c.
Proof. unfold set_mid. simpl. rewrite Nat.add_0_r. apply take_drop. Qed.

Lemma aligned_mark_old pa pb c1 c2 e :
  aligned pa pb c1 c2 -> (pa <= e <= length oldL)%nat -> aligned e pb (markSpanChanged c1 pa e) c2.
Proof.
  intros Ha He. pose proof (aligned_extend pa pb c1 c2 (replicate (e - pa) true) [] Ha) as Hx.
  pose proof (al_len1 _ _ _ _ Ha). pose proof (al_pb _ _ _ _ Ha).
  rewrite markSpanChanged_mid by lia. rewrite length_replicate, set_mid_nil in Hx. simpl in Hx.
  replace (pa + (e - pa))%nat with e in Hx by lia. rewrite Nat.add_0_r in Hx. apply Hx; [lia..|].
  rewrite unmarked_true. by destruct (slice newL pb pb).
Qed.

Lemma aligned_mark_new pa pb c1 c2 e :
  aligned pa pb c1 c2 -> (pb <= e <= length newL)%nat -> aligned pa e c1 (markSpanChanged c2 pb e).
Proof.
  intros Ha He. pose proof (aligned_extend pa pb c1 c2 [] (replicate (e - pb) true) Ha) as Hx.
  pose proof (al_len2 _ _ _ _ Ha). pose proof (al_pa _ _ _ _ Ha).
  rewrite markSpanChanged_mid by lia. rewrite length_replicate, set_mid_nil in Hx. simpl in Hx.
  replace (pb + (e - pb))%nat with e in Hx by lia. rewrite Nat.add_0_r in Hx. apply Hx; [lia..|].
  rewrite unmarked_true. by destruct (slice oldL pa pa).
Qed.

Lemma mark_dropped_mid c p keep n :
  length c = n -> (p + length keep <= n)%nat -> drop p c = replicate (n - p) false ->
  mark_dropped c p keep = set_mid c p (negb <$> keep).
Proof.
  intros Hc Hp Hd. unfold mark_dropped, set_mid. rewrite length_fmap. apply list_eq. intros i.
  rewrite list_lookup_imap. destruct (c !! i) as [b|] eqn:E.
  - apply lookup_lt_Some in E as Hi. simpl. destruct (decide (i < p)%nat).
    + rewrite lookup_app_l, lookup_take_lt, E by (rewrite ?length_take; lia).
      rewrite (proj2 (Nat.leb_gt _ _)) by lia. by destruct (keep !! _) as [[]|].
    + assert (b = false) as ->.
      { assert (drop p c !! (i - p)%nat = Some b) as Hb by (rewrite lookup_drop; rewrite <- E; f_equal; lia).
        rewrite Hd in Hb. by apply lookup_replicate in Hb as [? _]. }
      rewrite lookup_app_r by (rewrite length_take; lia). rewrite length_take, Nat.min_l by lia.
      rewrite (proj2 (Nat.leb_le _ _)) by lia. destruct (decide (i - p < length keep)%nat) as [Hk|Hk].
      * rewrite lookup_app_l by (rewrite length_fmap; lia). rewrite list_lookup_fmap.
        destruct (lookup_lt_is_Some_2 keep (i - p) Hk) as [k ->]. by destruct k.
      * rewrite lookup_app_r, length_fmap, lookup_drop by (rewrite length_fmap; lia).
        rewrite (lookup_ge_None_2 keep) by lia. rewrite <- E. f_equal. lia.
  - apply lookup_ge_None in E. simpl. symmetry. apply lookup_ge_None.
    rewrite !length_app, length_take, length_fmap, length_drop. lia.
Qed.

End Alignment.

(** ** The subsequence that is kept *)

Definition kept (l : list bytes) (keep : list bool) : list bytes := unmarked l (negb <$> keep).

(** The flags below [i] are still unset. *)
Definition walked (l : list bytes) (i : nat) (keep : list bool) : Prop :=
  length keep = length l /\ (i <= length l)%nat /\ take i keep = replicate i false.

Lemma walked_flag l i keep : walked l (S i) keep -> drop i keep = false :: drop (S i) keep /\ walked l i keep.
Proof.
  intros (Hl & Hi & Ht). assert (keep !! i = Some false) as Hk.
  { rewrite <- (lookup_take_lt keep (S i)) by lia. rewrite Ht. apply lookup_replicate_2. lia. }
  split; [by apply drop_S|]. split_and!; [done | lia |].
  apply (f_equal (take i)) in Ht. rewrite take_take, take_replicate in Ht.
  by rewrite !Nat.min_l in Ht by lia.
Qed.

Lemma drop_line (l : list bytes) i : (i < length l)%nat -> drop i l = default [] (l !! i) :: drop (S i) l.
Proof. intros Hi. destruct (lookup_lt_is_Some_2 l i Hi) as [x Hx]. rewrite Hx. by apply drop_S. Qed.

(** Leaving a line out. *)
Lemma kept_skip l i keep :
  walked l (S i) keep -> kept (drop i l) (drop i keep) = kept (drop (S i) l) (drop (S i) keep).
Proof.
  intros Hw. destruct (walked_flag _ _ _ Hw) as [Hk _]. destruct Hw as (Hl & Hi & _).
  by rewrite Hk, drop_line by lia.
Qed.

(** Keeping a line. *)
Lemma kept_take l i keep :
  walked l (S i) keep ->
  walked l i (<[i := true]> keep) /\
  kept (drop i l) (drop i (<[i := true]> keep)) = default [] (l !! i) :: kept (drop (S i) l) (drop (S i) keep).
Proof.
  intros Hw. destruct (walked_flag _ _ _ Hw) as [_ (Hl & Hi & Ht)]. destruct Hw as (_ & Hi' & _). split.
  - split_and!; [by rewrite length_insert | lia |]. by rewrite take_insert_ge.
  - rewrite (drop_line l) by lia. rewrite (drop_S (<[i:=true]> keep) true) by (apply list_lookup_insert_eq; lia).
    rewrite drop_insert_lt by lia. done.
Qed.

Lemma kept_unset l i keep : walked l i keep -> kept l keep = kept (drop i l) (drop i keep).
Proof.
  induction i as [|i IH]; intros Hw; [done|]. rewrite <- kept_skip by done. apply IH. by apply walked_flag.
Qed.

Lemma lcs_walk_common fuel a b dp i j kA kB :
  walked a i kA -> walked b j kB -> kept (drop i a) (drop i kA) = kept (drop j b) (drop j kB) ->
  let '(kA', kB') := lcs_walk fuel a b dp i j kA kB in
  length kA' = length a /\ length kB' = length b /\ kept a kA' = kept b kB'.
Proof.
  revert i j kA kB. induction fuel as [|fuel IH]; intros i j kA kB Ha Hb Hk.
  - simpl. split_and!; [apply Ha | apply Hb |]. by rewrite (kept_unset a i), (kept_unset b j).
  - assert (length kA = length a /\ length kB = length b /\ kept a kA = kept b kB) as Hend.
    { split_and!; [apply Ha | apply Hb |]. by rewrite (kept_unset a i), (kept_unset b j). }
    destruct i as [|i]; [done|]. destruct j as [|j]; [done|]. cbn [lcs_walk]. case_if.
    + apply andb_true_iff in E as [E%string_eqb_spec _].
      destruct (kept_take a i kA Ha) as [Ha' Hka]. destruct (kept_take b j kB Hb) as [Hb' Hkb].
      apply IH; [done..|]. by rewrite Hka, Hkb, E, Hk.
    + case_if.
      * apply IH; [by apply walked_flag | done |]. by rewrite kept_skip.
      * apply IH; [done | by apply walked_flag |]. by rewrite (kept_skip b).
Qed.

Lemma walked_start l : walked l (length l) (replicate (length l) false).
Proof. split_and!; [by rewrite length_replicate | done |]. by rewrite take_ge by (rewrite length_replicate; lia). Qed.

Lemma lcsKeep_common a b :
  let '(kA, kB) := lcsKeep a b in length kA = length a /\ length kB = length b /\ kept a kA = kept b kB.
Proof. apply lcs_walk_common; [apply walked_start..|]. by rewrite !drop_all. Qed.

(** ** Marking keeps the documents aligned *)

Lemma common_prefix_spec a b :
  take (common_prefix a b) a = take (common_prefix a b) b /\
  (common_prefix a b <= length a)%nat /\ (common_prefix a b <= length b)%nat.
Proof.
  revert b. induction a as [|x a IH]; intros [|y b]; simpl; try (split_and!; by (done || lia)).
  destruct (IH b) as (H1 & H2 & H3). case_if; simpl; [|split_and!; by (done || lia)].
  apply string_eqb_spec in E as ->. rewrite H1. split_and!; [done | lia | lia].
Qed.

Lemma take_slice {A} (l : list A) i j k : (i + k <= j)%nat -> take k (slice l i j) = slice l i (i + k).
Proof. intros Hk. unfold slice. rewrite take_take. f_equal. lia. Qed.

(** Dropping from the end. *)
Lemma take_rev_slice {A} (l : list A) i j k :
  (i + k <= j <= length l)%nat -> take k (rev (slice l i j)) = rev (slice l (j - k) j).
Proof.
  intros Hk. assert (slice l i j = slice l i (j - k) ++ slice l (j - k) j) as ->.
  { unfold slice. rewrite <- (take_drop (j - k - i) (take (j - i) (drop i l))), take_take, skipn_firstn_comm, drop_drop.
    f_equal; f_equal; [lia|lia|f_equal; lia]. }
  rewrite rev_app_distr. apply take_app_length'. rewrite length_rev, length_slice; lia.
Qed.

Section Marks.
Context (oldL newL : list bytes).
Abbreviation aligned := (aligned oldL newL).

Lemma mark_range_aligned a0 a1 b0 b1 c1 c2 c1' c2' :
  aligned a0 b0 c1 c2 -> markLineChangesRange oldL newL a0 a1 b0 b1 c1 c2 = Ok (c1', c2') -> aligned a1 b1 c1' c2'.
Proof.
  intros Ha. unfold markLineChangesRange. case_if; [done|]. bool_to_prop.
  repeat match goal with H : (_ <? _)%nat = false |- _ => apply Nat.ltb_ge in H end.
  set (p := common_prefix (slice oldL a0 a1) (slice newL b0 b1)).
  destruct (common_prefix_spec (slice oldL a0 a1) (slice newL b0 b1)) as (Hp & Hp1 & Hp2). fold p in Hp, Hp1, Hp2.
  rewrite length_slice in Hp1, Hp2 by lia. rewrite !take_slice in Hp by lia.
  assert (aligned (a0 + p) (b0 + p) c1 c2) as Ha1 by (apply aligned_skip; [done | lia | lia | done]).
  set (q := common_prefix (rev _) _).
  destruct (common_prefix_spec (rev (slice oldL (a0 + p) a1)) (rev (slice newL (b0 + p) b1))) as (Hq & Hq1 & Hq2).
  fold q in Hq, Hq1, Hq2. rewrite length_rev, length_slice in Hq1, Hq2 by lia.
  rewrite !take_rev_slice in Hq by lia. apply (f_equal (@rev _)) in Hq. rewrite !rev_involutive in Hq.
  assert (forall d1 d2, aligned (a1 - q) (b1 - q) d1 d2 -> aligned a1 b1 d1 d2) as Hfin.
  { intros d1 d2 Hd. replace a1 with (a1 - q + q)%nat by lia. replace b1 with (b1 - q + q)%nat by lia.
    apply aligned_skip; [done | lia | lia |]. by replace (a1 - q + q)%nat with a1 by lia; replace (b1 - q + q)%nat with b1 by lia. }
  assert (aligned (a1 - q) (b1 - q) (markSpanChanged c1 (a0 + p) (a1 - q)) (markSpanChanged c2 (b0 + p) (b1 - q))) as Hspan.
  { apply aligned_mark_new; [apply aligned_mark_old; [done|]|]; lia. }
  case_if; [bool_to_prop; intros [= <- <-]; apply Hfin;
    repeat match goal with H : (_ <=? _)%nat = true |- _ => apply Nat.leb_le in H end;
    by replace (a1 - q)%nat with (a0 + p)%nat by lia; replace (b1 - q)%nat with (b0 + p)%nat by lia|].
  case_if; [intros [= <- <-]; by apply Hfin|]. case_if; [done|]. case_if; [intros [= <- <-]; by apply Hfin|].
  pose proof (lcsKeep_common (slice oldL (a0 + p) (a1 - q)) (slice newL (b0 + p) (b1 - q))) as Hk.
  destruct (lcsKeep _ _) as [kA kB]. destruct Hk as (Hl1 & Hl2 & Hk). rewrite length_slice in Hl1, Hl2 by lia.
  intros [= <- <-]. apply Hfin. destruct Ha1.
  rewrite (mark_dropped_mid _ _ _ (length oldL)), (mark_dropped_mid _ _ _ (length newL)) by (try done; lia).
  assert (a0 + p + length (negb <$> kA) = a1 - q)%nat as Ea by (rewrite length_fmap; lia).
  assert (b0 + p + length (negb <$> kB) = b1 - q)%nat as Eb by (rewrite length_fmap; lia).
  rewrite <- Ea, <- Eb. apply aligned_extend; [done | lia | lia |]. rewrite Ea, Eb. exact Hk.
Qed.

(** Entries that follow each other from line [p] to line [q]. *)
Fixpoint chained (p q : nat) (spans : list routerSpan) : Prop :=
  match spans with
  | [] => p = q
  | s :: spans => start s = p /\ (p <= end_ s)%nat /\ chained (end_ s) q spans
  end.

Lemma chained_le p q spans : chained p q spans -> (p <= q)%nat.
Proof. revert p. induction spans as [|s spans IH]; simpl; intros p; [lia|]. intros (<- & Hs & Hc). apply IH in Hc. lia. Qed.

Lemma merge_aligned oldR newR pa pb qa qb c1 c2 c1' c2' :
  aligned pa pb c1 c2 -> chained pa qa oldR -> chained pb qb newR ->
  (qa <= length oldL)%nat -> (qb <= length newL)%nat ->
  merge_spans oldL newL oldR newR c1 c2 = Ok (c1', c2') -> aligned qa qb c1' c2'.
Proof.
  intros Ha Ho Hn Hqa Hqb. revert newR pa pb c1 c2 Ha Ho Hn.
  induction oldR as [|o oldR IHo]; induction newR as [|n newR IHn]; intros pa pb c1 c2 Ha Ho Hn.
  - simpl in *. subst. by intros [= <- <-].
  - simpl in Ho. subst pa. destruct Hn as (Hs & He & Hn). pose proof (chained_le _ _ _ Hn).
    intros Hm. refine (IHn qa (end_ n) c1 (markSpanChanged c2 (start n) (end_ n)) _ _ _ Hm); [|done|done].
    rewrite Hs. apply aligned_mark_new; [done|lia].
  - destruct Ho as (Hs & He & Ho). pose proof (chained_le _ _ _ Ho).
    intros Hm. refine (IHo [] (end_ o) pb (markSpanChanged c1 (start o) (end_ o)) c2 _ _ _ Hm); [|done|done].
    rewrite Hs. apply aligned_mark_old; [done|lia].
  - destruct Ho as (Hs & He & Ho), Hn as (Hs' & He' & Hn).
    pose proof (chained_le _ _ _ Ho). pose proof (chained_le _ _ _ Hn).
    cbn [merge_spans]. case_if; [|case_if].
    + destruct (markLineChangesRange _ _ _ _ _ _ _ _) as [[d1 d2]|] eqn:Em; [|done]. cbn [result_bind].
      intros Hm. rewrite Hs, Hs' in Em. eapply (IHo newR); [|done|done|exact Hm]. by eapply mark_range_aligned.
    + intros Hm. eapply (IHo (n :: newR)); [|done| |exact Hm]; [|simpl; split_and!; done].
      rewrite Hs. apply aligned_mark_old; [done|lia].
    + intros Hm. refine (IHn pa (end_ n) c1 (markSpanChanged c2 (start n) (end_ n)) _ _ _ Hm); [|simpl; by split_and!|done].
      rewrite Hs'. apply aligned_mark_new; [done|lia].
Qed.
End Marks.

(** ** Router entries follow each other *)

Lemma footer_from_range i lines : (i <= footer_from i lines <= i + length lines)%nat.
Proof. revert i. induction lines as [|l lines IH]; intros i; simpl; [lia|]. case_if; [lia|]. specialize (IH (S i)). lia. Qed.

Lemma findConsensusFooter_range lines from :
  (from <= length lines)%nat -> (from <= findConsensusFooter lines from <= length lines)%nat.
Proof.
  intros Hf. unfold findConsensusFooter. pose proof (footer_from_range from (drop from lines)) as Hr.
  rewrite length_drop in Hr. lia.
Qed.

(** Increasing line numbers from [p] on, below [n]. *)
Fixpoint increasing (p n : nat) (idx : list nat) : Prop :=
  match idx with
  | [] => True
  | i :: idx => (p <= i < n)%nat /\ increasing (S i) n idx
  end.

Lemma router_lines_increasing i lines p :
  (p <= i)%nat -> increasing p (i + length lines) (router_lines_from i lines).
Proof.
  revert i p. induction lines as [|l lines IH]; intros i p Hp; [done|]. simpl.
  replace (i + S (length lines))%nat with (S i + length lines)%nat by lia.
  destruct (routerIdentityField l); [|apply IH; lia]. split; [lia|]. apply IH. lia.
Qed.

Lemma spans_chained lines p idx :
  increasing p (length lines) idx -> idx <> [] ->
  exists q, last (spans_of lines idx) = Some q /\ (end_ q <= length lines)%nat /\
    chained (default 0%nat (head idx)) (end_ q) (spans_of lines idx).
Proof.
  revert p. induction idx as [|i idx IH]; [done|]. intros p [Hi Hinc] _. destruct idx as [|i' idx].
  - cbn [spans_of]. eexists. split; [done|]. cbn [end_ chained start head default from_option].
    pose proof (findConsensusFooter_range lines (i + 1) ltac:(lia)). split_and!; [lia | done | simpl; lia | done].
  - destruct (IH (S i) Hinc) as (q & Hq & Hle & Hc); [done|]. exists q.
    change (spans_of lines (i :: i' :: idx)) with
      (mkSpan (default [] (lines !! i ≫= routerIdentityField)) i i' :: spans_of lines (i' :: idx)).
    split_and!; [|done|]; [by rewrite last_cons, Hq|]. cbn [chained start end_ head default].
    destruct Hinc as [Hi' _]. split_and!; [done | simpl; lia | exact Hc].
Qed.

Lemma splitRouterSpans_chained lines :
  let '(h, spans, f) := splitRouterSpans lines in
  chained h f spans /\ (h <= length lines)%nat /\ (f <= length lines)%nat.
Proof.
  unfold splitRouterSpans, routerLineIndices. pose proof (router_lines_increasing 0 lines 0) as Hi.
  destruct (router_lines_from 0 lines) as [|first idx] eqn:E; [done|].
  destruct (spans_chained lines 0 (first :: idx)) as (q & Hs & Hq & Hc); [apply Hi; lia | done |].
  cbv zeta. rewrite Hs.
  split_and!; [exact Hc | | done]. pose proof (chained_le _ _ _ Hc). simpl in *. lia.
Qed.

(** All marks: the unmarked lines of both documents are the same. *)
Lemma markConsensusChanges_aligned oldL newL c1 c2 :
  markConsensusChanges oldL newL = Ok (c1, c2) -> aligned oldL newL (length oldL) (length newL) c1 c2.
Proof.
  assert (aligned oldL newL 0 0 (replicate (length oldL) false) (replicate (length newL) false)) as H0.
  { constructor; rewrite ?length_replicate, ?Nat.sub_0_r; try done; try lia. }
  unfold markConsensusChanges. pose proof (splitRouterSpans_chained oldL) as Ho.
  pose proof (splitRouterSpans_chained newL) as Hn.
  destruct (splitRouterSpans oldL) as [[oldH oldR] oldF], (splitRouterSpans newL) as [[newH newR] newF].
  destruct Ho as (Ho & Ho1 & Ho2), Hn as (Hn & Hn1 & Hn2). case_if.
  - by apply mark_range_aligned.
  - destruct (markLineChangesRange oldL newL 0 oldH 0 newH _ _) as [[d1 d2]|] eqn:E1; [|done]. cbn [result_bind].
    destruct (merge_spans oldL newL oldR newR d1 d2) as [[e1 e2]|] eqn:E2; [|done]. cbn [result_bind].
    apply mark_range_aligned. eapply merge_aligned; [|exact Ho|exact Hn|done|done|exact E2].
    by eapply mark_range_aligned.
Qed.

(** ** The commands turn the old lines into the new ones *)

Lemma take_S_line (l : list bytes) i : (i < length l)%nat -> take (S i) l = take i l ++ [default [] (l !! i)].
Proof. intros Hi. destruct (lookup_lt_is_Some_2 l i Hi) as [x Hx]. rewrite Hx. by apply take_S_r. Qed.

Lemma unmarked_last l c i :
  length c = length l -> (i < length l)%nat ->
  unmarked (take (S i) l) (take (S i) c) =
    unmarked (take i l) (take i c) ++ (if changed_at c i then [] else [default [] (l !! i)]).
Proof.
  intros Hl Hi. rewrite take_S_line by lia. unfold changed_at.
  destruct (lookup_lt_is_Some_2 c i ltac:(lia)) as [b Hb]. rewrite (take_S_r c i b), Hb by done.
  rewrite unmarked_app by (rewrite !length_take; lia). by destruct b.
Qed.

Lemma skip_changed_spec l c k :
  length c = length l -> (k <= length l)%nat ->
  (skip_changed c k <= k)%nat /\
  unmarked (take k l) (take k c) = unmarked (take (skip_changed c k) l) (take (skip_changed c k) c) /\
  ((0 < k)%nat -> changed_at c (k - 1) = true -> (skip_changed c k < k)%nat).
Proof.
  intros Hl. induction k as [|k IH]; intros Hk; [simpl; split_and!; [lia | done | lia]|].
  destruct (IH ltac:(lia)) as (H1 & H2 & _). cbn [skip_changed]. destruct (changed_at c k) eqn:E.
  - rewrite unmarked_last, E, app_nil_r by lia. split_and!; [lia | done | lia].
  - split_and!; [lia | done |]. intros _. replace (S k - 1)%nat with k by lia. congruence.
Qed.

(** A command that replaces the lines between [s] and [k] by [blk]. *)
Lemma apply_change (pre old tail : list bytes) (cmd : edCommand) :
  endToEOF cmd = false ->
  match op cmd with
  | OpA => old = [] /\ n1 cmd = len pre
  | OpC => old <> [] /\ n1 cmd = len pre + 1 /\ n2 cmd = len pre + len old
  | OpD => old <> [] /\ block cmd = [] /\ n1 cmd = len pre + 1 /\ n2 cmd = len pre + len old
  end ->
  applyEdCommand (pre ++ old ++ tail) cmd = Ok (pre ++ block cmd ++ tail).
Proof.
  intros He Hc. unfold applyEdCommand, apply_span. rewrite He.
  assert (old <> [] -> n1 cmd = len pre + 1 -> n2 cmd = len pre + len old -> forall blk,
    checkEdSpan (len (pre ++ old ++ tail)) (n1 cmd) (n2 cmd) = true /\
    spliceLines (pre ++ old ++ tail) (n1 cmd) (n2 cmd) blk = pre ++ blk ++ tail) as Hspan.
  { intros Ho H1 H2 blk. assert (0 < len old) by (destruct old; [done|unfold len; simpl; lia]).
    unfold checkEdSpan, spliceLines. rewrite !len_app, H1, H2. pose proof (len_nonneg pre). pose proof (len_nonneg tail).
    rewrite !(proj2 (Z.ltb_ge _ _)) by lia. split; [done|].
    replace (Z.to_nat (len pre + 1 - 1)) with (length pre) by (unfold len; lia).
    replace (Z.to_nat (len pre + len old)) with (length (pre ++ old)) by (rewrite length_app; unfold len; lia).
    by rewrite take_app_length, (app_assoc pre old tail), drop_app_length. }
  destruct (op cmd).
  - destruct Hc as (Ho & Hb & H1 & H2). destruct (Hspan Ho H1 H2 []) as [-> ->]. by rewrite Hb.
  - destruct Hc as (Ho & H1 & H2). by destruct (Hspan Ho H1 H2 (block cmd)) as [-> ->].
  - destruct Hc as (-> & H1). rewrite H1, app_nil_l, len_app. pose proof (len_nonneg pre). pose proof (len_nonneg tail).
    rewrite !(proj2 (Z.ltb_ge _ _)) by lia. cbn [orb].
    replace (Z.to_nat (len pre)) with (length pre) by (unfold len; lia). by rewrite take_app_length, drop_app_length.
Qed.

Lemma take_slice_split {A} (l : list A) s k : (s <= k <= length l)%nat -> take k l = take s l ++ slice l s k.
Proof.
  intros Hs. unfold slice. rewrite <- (take_drop s (take k l)), take_take, skipn_firstn_comm.
  f_equal. f_equal. lia.
Qed.

Section Commands.
Context (oldL newL : list bytes) (c1 c2 : list bool).
Context (Hl1 : length c1 = length oldL) (Hl2 : length c2 = length newL).

(** What [commands_from] does at a changed line, in one piece. *)
Lemma commands_step fuel k1 k2 cmds :
  ((0 <? k1)%nat && changed_at c1 (k1 - 1)) || ((0 <? k2)%nat && changed_at c2 (k2 - 1)) = true ->
  commands_from (S fuel) oldL newL c1 c2 k1 k2 = Ok cmds ->
  (k1 <= length oldL)%nat -> (k2 <= length newL)%nat ->
  let s1 := skip_changed c1 k1 in
  let s2 := skip_changed c2 k2 in
  exists cmd rest, cmds = cmd :: rest /\ commands_from fuel oldL newL c1 c2 s1 s2 = Ok rest /\
    endToEOF cmd = false /\ block cmd = slice newL s2 k2 /\ (s1 <= k1)%nat /\ (s2 <= k2)%nat /\
    (s1 + s2 < k1 + k2)%nat /\
    match op cmd with
    | OpA => s1 = k1 /\ n1 cmd = Z.of_nat s1 /\ n2 cmd = n1 cmd
    | OpC => (s1 < k1)%nat /\ (s2 < k2)%nat /\ n1 cmd = Z.of_nat s1 + 1 /\ n2 cmd = Z.of_nat k1
    | OpD => (s1 < k1)%nat /\ block cmd = [] /\ n1 cmd = Z.of_nat s1 + 1 /\ n2 cmd = Z.of_nat k1
    end.
Proof.
  intros Hch Hc Hk1 Hk2 s1 s2.
  destruct (skip_changed_spec oldL c1 k1 Hl1 Hk1) as (H1 & _ & H1'). fold s1 in H1, H1'.
  destruct (skip_changed_spec newL c2 k2 Hl2 Hk2) as (H2 & _ & H2'). fold s2 in H2, H2'.
  assert (s1 + s2 < k1 + k2)%nat as Hlt.
  { apply orb_true_iff in Hch as [[Ha%Nat.ltb_lt Hb]%andb_true_iff|[Ha%Nat.ltb_lt Hb]%andb_true_iff].
    - specialize (H1' Ha Hb). lia.
    - specialize (H2' Ha Hb). lia. }
  assert (length (slice newL s2 k2) = k2 - s2)%nat as Hblk by (rewrite length_slice; lia).
  cbn [commands_from] in Hc.
  destruct ((k1 =? 0)%nat && (k2 =? 0)%nat) eqn:E0.
  { apply andb_true_iff in E0 as [E0%Nat.eqb_eq E1%Nat.eqb_eq]. lia. }
  rewrite <- negb_orb, Hch in Hc. cbn [negb] in Hc. fold s1 s2 in Hc.
  destruct (Z.eqb_spec (Z.of_nat k2 - Z.of_nat s2) 0) as [Ea|Ea].
  - destruct (commands_from fuel oldL newL c1 c2 s1 s2) as [rest|] eqn:Er; [|done]. injection Hc as <-.
    eexists _, rest. split_and!; try done; cbn [n1 n2 op block]; [|split_and!; (lia || done)].
    symmetry. apply nil_length_inv. lia.
  - destruct (negb (rejectDotOnlyLines _)); [done|].
    destruct (commands_from fuel oldL newL c1 c2 s1 s2) as [rest|] eqn:Er; [|done]. cbn [result_bind] in Hc.
    destruct (Z.eqb_spec (Z.of_nat k1 - Z.of_nat s1) 0) as [Ed|Ed]; injection Hc as <-.
    + eexists _, rest. split_and!; try done; cbn [n1 n2 op block]; split_and!; (lia || done).
    + eexists _, rest. split_and!; try done; cbn [n1 n2 op block]; split_and!; (lia || done).
Qed.

(** With enough fuel, the commands make the first [k1] old lines the first [k2]
    new ones, whatever follows; they come in the order the reader demands. *)
Lemma commands_apply fuel k1 k2 cmds :
  (k1 + k2 <= fuel)%nat -> (k1 <= length oldL)%nat -> (k2 <= length newL)%nat ->
  unmarked (take k1 oldL) (take k1 c1) = unmarked (take k2 newL) (take k2 c2) ->
  commands_from fuel oldL newL c1 c2 k1 k2 = Ok cmds ->
  (forall tail, Z.of_nat (k1 + k2 + length tail) <= maxConsensusDiffLines ->
     apply_commands (take k1 oldL ++ tail) cmds = Ok (take k2 newL ++ tail)) /\
  (forall n j, Z.of_nat k1 <= j -> reverse_order_from cmds n j = true).
Proof.
  revert k1 k2 cmds. induction fuel as [|fuel IH]; intros k1 k2 cmds Hf Hk1 Hk2 Hu Hc.
  { injection Hc as <-. assert (k1 = 0%nat) as -> by lia. assert (k2 = 0%nat) as -> by lia. by split. }
  destruct (((0 <? k1)%nat && changed_at c1 (k1 - 1)) || ((0 <? k2)%nat && changed_at c2 (k2 - 1))) eqn:Ech.
  - destruct (commands_step fuel k1 k2 cmds Ech Hc Hk1 Hk2) as
      (cmd & rest & -> & Hr & He & Hb & Hs1 & Hs2 & Hlt & Hop).
    destruct (skip_changed_spec oldL c1 k1 Hl1 Hk1) as (_ & Hu1 & _).
    destruct (skip_changed_spec newL c2 k2 Hl2 Hk2) as (_ & Hu2 & _).
    set (s1 := skip_changed c1 k1) in *. set (s2 := skip_changed c2 k2) in *.
    destruct (IH s1 s2 rest) as [Hap Hor]; [lia | lia | lia | by rewrite <- Hu1, <- Hu2 | done |]. split.
    + intros tail Ht. cbn [apply_commands].
      rewrite (take_slice_split oldL s1 k1), <- app_assoc by lia. rewrite apply_change; [|done|].
      * cbn [result_bind]. rewrite Hb, (proj2 (Z.ltb_ge _ _)).
        2:{ rewrite !len_app. unfold len. rewrite length_take, length_slice by lia. lia. }
        rewrite Hap by (rewrite length_app, length_slice by lia; lia).
        rewrite app_assoc. by rewrite <- (take_slice_split newL s2 k2) by lia.
      * assert (len (take s1 oldL) = Z.of_nat s1) as Hp by (unfold len; rewrite length_take; lia).
        assert (len (slice oldL s1 k1) = Z.of_nat k1 - Z.of_nat s1) as Ho by (unfold len; rewrite length_slice; lia).
        rewrite Hp, Ho. assert ((s1 < k1)%nat -> slice oldL s1 k1 <> []) as Hne.
        { intros ? Hn. rewrite Hn in Ho. change (len (A:=bytes) []) with 0 in Ho. lia. }
        destruct (op cmd).
        -- destruct Hop as (? & ? & ? & ?). split_and!; [by apply Hne | done | lia | lia].
        -- destruct Hop as (? & ? & ? & ?). split_and!; [by apply Hne | lia | lia].
        -- destruct Hop as (-> & ? & _). split; [|lia]. unfold slice. by rewrite Nat.sub_diag, take_0.
    + intros n j Hj. cbn [reverse_order_from]. rewrite He.
      destruct (op cmd); destruct Hop as (? & ? & Hop); rewrite (proj2 (Z.ltb_ge _ _)) by lia; apply Hor; lia.
  - cbn [commands_from] in Hc. destruct ((k1 =? 0)%nat && (k2 =? 0)%nat) eqn:E0.
    { apply andb_true_iff in E0 as [->%Nat.eqb_eq ->%Nat.eqb_eq]. injection Hc as <-. by split. }
    rewrite <- negb_orb, Ech in Hc. cbn [negb] in Hc. apply orb_false_iff in Ech as [Ech1 Ech2].
    apply andb_false_iff in E0.
    assert (0 < k1 /\ 0 < k2)%nat as [Hp1 Hp2].
    { destruct k1 as [|k1], k2 as [|k2]; try (exfalso; destruct E0 as [E0%Nat.eqb_neq|E0%Nat.eqb_neq]; lia); try lia; exfalso.
      - cbn [Nat.ltb Nat.leb andb Nat.sub] in Ech2. rewrite Nat.sub_0_r in Ech2. rewrite unmarked_last, Ech2 in Hu by lia.
        symmetry in Hu. by apply app_nil in Hu as [_ ?].
      - cbn [Nat.ltb Nat.leb andb Nat.sub] in Ech1. rewrite Nat.sub_0_r in Ech1. rewrite (unmarked_last oldL), Ech1 in Hu by lia.
        by apply app_nil in Hu as [_ ?]. }
    destruct k1 as [|k1]; [lia|]. destruct k2 as [|k2]; [lia|].
    cbn [Nat.ltb Nat.leb andb Nat.sub] in *. rewrite !Nat.sub_0_r in *.
    rewrite !unmarked_last, Ech1, Ech2 in Hu by lia. apply app_inj_tail in Hu as [Hu Hx].
    destruct (IH k1 k2 cmds) as [Hap Hor]; [lia | lia | lia | done | done |]. split.
    + intros tail Ht. rewrite !take_S_line, <- !app_assoc, Hx by lia. apply Hap. simpl. lia.
    + intros n j Hj. apply Hor. lia.
Qed.
End Commands.

(** Without a line that is only a dot, commands are always produced. *)
Lemma commands_ok oldL newL c1 c2 fuel k1 k2 :
  Forall (fun l => dot_only l = false) newL -> exists cmds, commands_from fuel oldL newL c1 c2 k1 k2 = Ok cmds.
Proof.
  intros Hd. revert k1 k2. induction fuel as [|fuel IH]; intros k1 k2; [by eexists|]. cbn [commands_from].
  case_if; [by eexists|]. case_if; [apply IH|].
  destruct (IH (skip_changed c1 k1) (skip_changed c2 k2)) as [cmds Hc]. case_if; [rewrite Hc; by eexists|].
  assert (rejectDotOnlyLines (slice newL (skip_changed c2 k2) k2) = true) as ->.
  { unfold rejectDotOnlyLines. apply negb_true_iff, not_true_is_false. rewrite existsb_exists.
    intros (x & Hx & Hdot). apply list_elem_of_In in Hx.
    assert (Forall (fun l => dot_only l = false) (slice newL (skip_changed c2 k2) k2)) as Hs
      by by apply Forall_take, Forall_drop.
    rewrite Forall_forall in Hs. specialize (Hs x Hx). congruence. }
  rewrite Hc. cbn [negb result_bind]. case_if; by eexists.
Qed.

(** ** Marking never fails on documents of at most 10000 lines *)

Lemma mark_range_ok a b a0 a1 b0 b1 ca cb :
  (a0 <= a1 <= length a)%nat -> (b0 <= b1 <= length b)%nat ->
  len a <= maxEdChunkLines -> len b <= maxEdChunkLines ->
  exists r, markLineChangesRange a b a0 a1 b0 b1 ca cb = Ok r.
Proof.
  intros Ha Hb Hla Hlb. unfold markLineChangesRange.
  rewrite (proj2 (Nat.ltb_ge a1 a0)), (proj2 (Nat.ltb_ge b1 b0)), (proj2 (Nat.ltb_ge (length a) a1)),
    (proj2 (Nat.ltb_ge (length b) b1)) by lia. cbn [orb].
  set (p := common_prefix (slice a a0 a1) (slice b b0 b1)). set (q := common_prefix (rev _) _).
  assert (forall (l : list bytes) i j, len l <= maxEdChunkLines -> len (slice l i j) <= maxEdChunkLines) as Hs.
  { intros l i j Hl. unfold len, slice in *. rewrite length_take, length_drop. lia. }
  case_if; [by eexists|]. case_if; [by eexists|].
  rewrite !(proj2 (Z.ltb_ge maxEdChunkLines _)) by by apply Hs. cbn [orb].
  case_if; [by eexists|]. destruct (lcsKeep _ _). by eexists.
Qed.

Lemma merge_ok oldL newL oldR newR pa pb qa qb c1 c2 :
  len oldL <= maxEdChunkLines -> len newL <= maxEdChunkLines ->
  chained pa qa oldR -> chained pb qb newR -> (qa <= length oldL)%nat -> (qb <= length newL)%nat ->
  exists r, merge_spans oldL newL oldR newR c1 c2 = Ok r.
Proof.
  intros Hlo Hln Ho Hn Hqa Hqb. revert newR pa pb c1 c2 Ho Hn.
  induction oldR as [|o oldR IHo]; induction newR as [|n newR IHn]; intros pa pb c1 c2 Ho Hn.
  - by eexists.
  - destruct Hn as (Hs & He & Hn). by eapply IHn.
  - destruct Ho as (Hs & He & Ho). by eapply (IHo []).
  - destruct Ho as (Hs & He & Ho), Hn as (Hs' & He' & Hn).
    pose proof (chained_le _ _ _ Ho). pose proof (chained_le _ _ _ Hn).
    cbn [merge_spans]. case_if; [|case_if].
    + destruct (mark_range_ok oldL newL (start o) (end_ o) (start n) (end_ n) c1 c2) as [[d1 d2] ->]; [lia|lia|done|done|].
      by eapply (IHo newR).
    + eapply (IHo (n :: newR)); [done|]. simpl. by split_and!.
    + eapply IHn; [|done]. simpl. by split_and!.
Qed.

Lemma markConsensusChanges_ok oldL newL :
  len oldL <= maxEdChunkLines -> len newL <= maxEdChunkLines -> exists r, markConsensusChanges oldL newL = Ok r.
Proof.
  intros Hlo Hln. unfold markConsensusChanges. pose proof (splitRouterSpans_chained oldL) as Ho.
  pose proof (splitRouterSpans_chained newL) as Hn.
  destruct (splitRouterSpans oldL) as [[oldH oldR] oldF], (splitRouterSpans newL) as [[newH newR] newF].
  destruct Ho as (Ho & Ho1 & Ho2), Hn as (Hn & Hn1 & Hn2). case_if; [apply mark_range_ok; by (done || lia)|].
  destruct (mark_range_ok oldL newL 0 oldH 0 newH (replicate (length oldL) false) (replicate (length newL) false))
    as [[d1 d2] ->]; [lia|lia|done|done|]. cbn [result_bind].
  destruct (merge_ok oldL newL oldR newR oldH newH oldF newF d1 d2) as [[e1 e2] ->]; [done..|]. cbn [result_bind].
  apply mark_range_ok; by (done || lia).
Qed.

(** ** Signatures *)

Lemma signature_line_from i lines :
  let s := firstDirectorySignatureLine_from i lines in
  0 <= i -> s = 0 \/ (i < s <= i + len lines).
Proof.
  revert i. induction lines as [|l lines IH]; intros i s Hi; [by left|]. subst s. cbn [firstDirectorySignatureLine_from].
  unfold len in *. cbn [length]. case_if; [right; lia|]. specialize (IH (i + 1) ltac:(lia)). simpl in IH. lia.
Qed.

Lemma signature_line_range lines :
  0 <= firstDirectorySignatureLine lines <= len lines.
Proof.
  unfold firstDirectorySignatureLine. pose proof (signature_line_from 0 lines) as Hs. simpl in Hs. pose proof (len_nonneg lines).
  destruct Hs as [->|Hs]; lia.
Qed.

(** The rule for the first command. *)
Definition first_rule (lines : list bytes) (cmds : list edCommand) : bool :=
  let sigLine := firstDirectorySignatureLine lines in
  negb ((0 <? sigLine) &&
    match cmds with
    | cmd :: _ => negb (bool_decide (op cmd = OpD)) || negb (endToEOF cmd) || negb (n1 cmd =? sigLine)
    | [] => true
    end).

(** Cutting the signatures off. *)
Lemma apply_cut lines sig :
  0 < sig <= len lines ->
  applyEdCommand lines (mkEd OpD sig 0 true []) = Ok (take (Z.to_nat (sig - 1)) lines).
Proof.
  intros Hs. unfold applyEdCommand, apply_span. cbn [endToEOF n1 op].
  rewrite (proj2 (Z.ltb_ge (len lines + 1) sig)), (proj2 (Z.ltb_ge (len lines) sig)) by lia. cbn [orb andb].
  unfold checkEdSpan. rewrite !(proj2 (Z.ltb_ge _ _)) by lia. cbn [orb negb]. unfold spliceLines.
  rewrite drop_ge, app_nil_r by (unfold len; lia). done.
Qed.

(** ** The table holds the lengths of longest common subsequences *)

Definition common (s a b : list bytes) : Prop := s `sublist_of` a /\ s `sublist_of` b.

Definition lcs_len (a b : list bytes) (n : Z) : Prop :=
  (exists s, common s a b /\ len s = n) /\ forall s, common s a b -> len s <= n.

Lemma sublist_snoc (s a : list bytes) x :
  s `sublist_of` a ++ [x] -> s `sublist_of` a \/ exists s', s = s' ++ [x] /\ s' `sublist_of` a.
Proof.
  intros (l1 & l2 & -> & H1 & H2)%sublist_app_r. inversion H2 as [|? ? ? Hn|? ? ? Hn]; subst.
  - inversion Hn. subst. right. by exists l1.
  - inversion Hn. subst. left. by rewrite app_nil_r.
Qed.

Lemma lcs_len_nil_l b : lcs_len [] b 0.
Proof.
  split; [exists []; repeat split; apply sublist_nil_l|]. intros s [Hs _]. apply sublist_nil_r in Hs as ->. done.
Qed.

Lemma lcs_len_nil_r a : lcs_len a [] 0.
Proof.
  split; [exists []; repeat split; apply sublist_nil_l|]. intros s [_ Hs]. apply sublist_nil_r in Hs as ->. done.
Qed.

Lemma lcs_len_same a b x n : lcs_len a b n -> lcs_len (a ++ [x]) (b ++ [x]) (n + 1).
Proof.
  intros [(s & [H1 H2] & Hl) Hm]. split.
  - exists (s ++ [x]). split; [split; by apply sublist_app|]. rewrite len_app, Hl. done.
  - intros s' [Ha Hb]. apply sublist_snoc in Ha, Hb.
    destruct Ha as [Ha|(sa & -> & Ha)].
    + destruct Hb as [Hb|(sb & -> & Hb)]; [specialize (Hm s' (conj Ha Hb)); lia|].
      assert (sb `sublist_of` a) as Hsa by (etrans; [exact (sublist_inserts_r [x] sb sb (reflexivity sb))|exact Ha]).
      specialize (Hm sb (conj Hsa Hb)). rewrite len_app. change (len [x]) with 1. lia.
    + assert (sa `sublist_of` b) as Hsb.
      { destruct Hb as [Hb|(sb & Hx & Hb)]; [etrans; [exact (sublist_inserts_r [x] sa sa (reflexivity sa))|exact Hb]|].
        by apply app_inj_tail in Hx as [-> _]. }
      specialize (Hm sa (conj Ha Hsb)). rewrite len_app. change (len [x]) with 1. lia.
Qed.

Lemma lcs_len_diff a b x y n1 n2 :
  x <> y -> lcs_len (a ++ [x]) b n1 -> lcs_len a (b ++ [y]) n2 ->
  lcs_len (a ++ [x]) (b ++ [y]) (if n2 <=? n1 then n1 else n2).
Proof.
  intros Hxy [(s1 & [H1 H1'] & Hl1) Hm1] [(s2 & [H2 H2'] & Hl2) Hm2]. split.
  - case_if.
    + exists s1. split; [split; [done|by apply sublist_inserts_r]|done].
    + exists s2. split; [split; [by apply sublist_inserts_r|done]|done].
  - intros s [Ha Hb]. assert (len s <= n1 \/ len s <= n2) as Hs.
    { apply sublist_snoc in Hb as Hb'. destruct Hb' as [Hb'|(sb & -> & Hb')]; [left; by apply Hm1|].
      right. apply Hm2. split; [|done]. apply sublist_snoc in Ha as [Ha|(sa & Hx & _)]; [done|].
      apply app_inj_tail in Hx as [_ ?]. congruence. }
    case_if; bool_to_prop; lia.
Qed.

Section Table.
Context (a b : list bytes).

(** The entries of a row from column [j] on. *)
Definition row_ok (i j : nat) (row : list Z) : Prop :=
  length row = S (length b - j) /\
  forall t v, row !! t = Some v -> lcs_len (take i a) (take (j + t) b) v.

Lemma lcs_row_ok i j x prev left :
  a !! i = Some x -> (j <= length b)%nat -> row_ok i j prev -> lcs_len (take (S i) a) (take j b) left ->
  length (lcs_row x (drop j b) prev left) = (length b - j)%nat /\
  forall t v, lcs_row x (drop j b) prev left !! t = Some v -> lcs_len (take (S i) a) (take (S j + t) b) v.
Proof.
  intros Hx. remember (drop j b) as bs eqn:Hbs. revert j prev left Hbs.
  induction bs as [|y bs IH]; intros j prev left Hbs Hj [Hlen Hrow] Hleft.
  - assert (length b - j = 0)%nat as -> by (apply (f_equal length) in Hbs; rewrite length_drop in Hbs; simpl in Hbs; lia).
    split; [done|]. by intros [|t] v.
  - assert (b !! j = Some y) as Hy by (rewrite <- (Nat.add_0_r j), <- lookup_drop, <- Hbs; done).
    apply lookup_lt_Some in Hy as Hjl. destruct prev as [|d prev]; [done|].
    assert (length prev = length b - j)%nat as Hlp by (simpl in Hlen; lia).
    destruct prev as [|u prev]; [simpl in Hlp; lia|]. cbn [lcs_row head default].
    set (v0 := if string_eqb x y then _ else _).
    assert (lcs_len (take (S i) a) (take (S j) b) v0) as Hv0.
    { rewrite (take_S_r a i x), (take_S_r b j y) by done. unfold v0.
      destruct (string_eqb x y) eqn:E.
      - apply string_eqb_spec in E as ->. apply lcs_len_same. specialize (Hrow 0%nat d eq_refl). by rewrite Nat.add_0_r in Hrow.
      - apply lcs_len_diff; [intros ->; by rewrite string_eqb_refl in E | by rewrite <- (take_S_r a i x) |].
        rewrite <- (take_S_r b j y) by done. specialize (Hrow 1%nat u eq_refl). by rewrite Nat.add_1_r in Hrow. }
    destruct (IH (S j) (u :: prev) v0) as [IH1 IH2].
    + by rewrite (drop_S b y j Hy) in Hbs; injection Hbs.
    + lia.
    + split; [simpl in Hlp |- *; lia|]. intros t v Hv. replace (S j + t)%nat with (j + S t)%nat by lia. by apply Hrow.
    + done.
    + split; [simpl; rewrite IH1; lia|]. intros [|t] v; cbn [lookup list_lookup].
      * intros [= <-]. by rewrite Nat.add_0_r.
      * intros Hv. replace (S j + S t)%nat with (S (S j) + t)%nat by lia. by apply IH2.
Qed.

Lemma lcs_table_ok i row k r :
  row_ok i 0 row -> lcs_table (drop i a) b row !! k = Some r -> row_ok (i + k) 0 r.
Proof.
  remember (drop i a) as rest eqn:Hr. revert i row k Hr. induction rest as [|x rest IH]; intros i row k Hr Hrow.
  - simpl. intros [-> <-]%list_lookup_singleton_Some. by rewrite Nat.add_0_r.
  - assert (a !! i = Some x) as Hx by (rewrite <- (Nat.add_0_r i), <- lookup_drop, <- Hr; done).
    destruct k as [|k]; [intros [= <-]; by rewrite Nat.add_0_r|]. cbn [lcs_table lookup list_lookup]. intros Hk.
    replace (i + S k)%nat with (S i + k)%nat by lia. eapply IH; [|clear Hk|exact Hk].
    + by rewrite (drop_S a x i Hx) in Hr; injection Hr.
    + destruct (lcs_row_ok i 0 x row 0 Hx) as [H1 H2]; [lia | done | apply lcs_len_nil_r |]. rewrite drop_0 in H1, H2.
      split; [simpl; by rewrite H1|]. intros [|t] v; cbn [lookup list_lookup].
      * intros [= <-]. apply lcs_len_nil_r.
      * intros Hv. by apply H2.
Qed.

Lemma length_lcs_table l row : length (lcs_table l b row) = S (length l).
Proof. revert row. induction l as [|x l IH]; intros row; [done|]. simpl. by rewrite IH. Qed.

Abbreviation dp := (lcs_table a b (replicate (length b + 1) 0)).

Lemma dp_lcs i j : (i <= length a)%nat -> (j <= length b)%nat -> lcs_len (take i a) (take j b) (dp_at dp i j).
Proof.
  intros Hi Hj. unfold dp_at. destruct (lookup_lt_is_Some_2 dp i) as [row Hr]; [rewrite length_lcs_table; lia|].
  rewrite Hr. cbn [mbind option_bind]. destruct (lcs_table_ok 0 (replicate (length b + 1) 0) i row) as [Hl Hv].
  - split; [rewrite length_replicate; lia|]. intros t v [-> _]%lookup_replicate. rewrite take_0. apply lcs_len_nil_l.
  - by rewrite drop_0.
  - destruct (lookup_lt_is_Some_2 row j ltac:(lia)) as [v Hv']. rewrite Hv'. by apply Hv.
Qed.

Lemma lcs_len_unique l k n m : lcs_len l k n -> lcs_len l k m -> n = m.
Proof.
  intros [(s & Hs & Hl) Hm] [(s' & Hs' & Hl') Hm']. specialize (Hm s' Hs'). specialize (Hm' s Hs). lia.
Qed.

(** The walk finds as many lines as the table promises. *)
Lemma lcs_walk_count fuel i j kA kB :
  (i + j <= fuel)%nat -> walked a i kA -> walked b j kB ->
  len (kept a (lcs_walk fuel a b dp i j kA kB).1) = dp_at dp i j + len (kept (drop i a) (drop i kA)).
Proof.
  revert i j kA kB. induction fuel as [|fuel IH]; intros i j kA kB Hf Ha Hb.
  - assert (i = 0%nat) as -> by lia. assert (j = 0%nat) as -> by lia. simpl.
    rewrite (lcs_len_unique _ _ _ 0 (dp_lcs 0 0 ltac:(lia) ltac:(lia)) (lcs_len_nil_l _)). done.
  - pose proof Ha as (_ & Hia & _). pose proof Hb as (_ & Hjb & _).
    destruct i as [|i].
    { rewrite (lcs_len_unique _ _ _ 0 (dp_lcs 0 j ltac:(lia) ltac:(lia)) (lcs_len_nil_l _)). done. }
    destruct j as [|j].
    { rewrite (lcs_len_unique _ _ _ 0 (dp_lcs (S i) 0 ltac:(lia) ltac:(lia)) (lcs_len_nil_r _)).
      cbn [lcs_walk fst]. by rewrite (kept_unset a (S i)). }
    pose proof (dp_lcs (S i) (S j) Hia Hjb) as Hd. rewrite !take_S_line in Hd by lia.
    destruct (walked_flag _ _ _ Ha) as [_ Ha']. destruct (walked_flag _ _ _ Hb) as [_ Hb'].
    cbn [lcs_walk]. destruct (string_eqb (default [] (a !! i)) (default [] (b !! j))) eqn:E.
    + apply string_eqb_spec in E as Exy. rewrite Exy in Hd.
      pose proof (lcs_len_unique _ _ _ _ Hd (lcs_len_same _ _ _ _ (dp_lcs i j ltac:(lia) ltac:(lia)))) as Heq.
      rewrite Heq, Z.eqb_refl. cbn [andb].
      destruct (kept_take a i kA Ha) as [Ha2 Hka]. destruct (kept_take b j kB Hb) as [Hb2 _].
      rewrite IH by (try done; lia). rewrite Hka. unfold len. simpl length. lia.
    + cbn [andb]. assert (default [] (a !! i) <> default [] (b !! j)) as Hne
        by (intros Hx; rewrite Hx, string_eqb_refl in E; done).
      pose proof (dp_lcs (S i) j ltac:(lia) ltac:(lia)) as D1. pose proof (dp_lcs i (S j) ltac:(lia) ltac:(lia)) as D2.
      rewrite take_S_line in D1 by lia. rewrite (take_S_line b) in D2 by lia.
      pose proof (lcs_len_unique _ _ _ _ Hd (lcs_len_diff _ _ _ _ _ _ Hne D1 D2)) as Heq. rewrite Heq.
      case_if.
      * rewrite IH, kept_skip by (try done; lia). case_if; bool_to_prop; lia.
      * rewrite IH by (try done; lia). case_if; bool_to_prop; lia.
Qed.
End Table.

Lemma kept_sublist l keep : kept l keep `sublist_of` l.
Proof.
  unfold kept. revert keep. induction l as [|x l IH]; intros [|k keep]; simpl; try apply sublist_nil_l.
  destruct k; simpl; [by apply sublist_skip | by apply sublist_cons].
Qed.

(** What [genEdDiff] returns passes the reader's checks and rebuilds the new lines. *)
Lemma gen_correct oldL newL cmds :
  genEdDiff oldL newL = Ok cmds -> len oldL + len newL <= maxConsensusDiffLines ->
  first_rule oldL cmds = true /\ checkEdReverseOrder cmds (len oldL) = true /\ apply_commands oldL cmds = Ok newL.
Proof.
  intros Hg Hlen. pose proof (signature_line_range oldL) as Hsig. unfold genEdDiff in Hg.
  assert (forall oldL' cmds', len oldL' <= len oldL ->
    (let? (c1, c2) := markConsensusChanges oldL' newL in commandsFromChanges oldL' newL c1 c2) = Ok cmds' ->
    apply_commands oldL' cmds' = Ok newL /\ forall n, reverse_order_from cmds' n (len oldL') = true) as Hbody.
  { intros oldL' cmds' Hl Hm. destruct (markConsensusChanges oldL' newL) as [[c1 c2]|] eqn:Em; [|done].
    cbn [result_bind] in Hm. destruct (markConsensusChanges_aligned _ _ _ _ Em) as [Hl1 Hl2 _ _ Hu _ _].
    destruct (commands_apply oldL' newL c1 c2 Hl1 Hl2 (length oldL' + length newL) (length oldL') (length newL) cmds')
      as [Ha Ho]; [lia | lia | lia | done | exact Hm |].
    specialize (Ha []). rewrite !app_nil_r, !take_ge in Ha by lia. split; [apply Ha|intros n; apply Ho; unfold len; lia].
    unfold len in *. simpl. lia. }
  unfold first_rule, checkEdReverseOrder. destruct (Z.ltb_spec 0 (firstDirectorySignatureLine oldL)) as [Hs|Hs].
  - set (sig := firstDirectorySignatureLine oldL) in *. set (oldL' := take (Z.to_nat (sig - 1)) oldL) in *.
    assert (len oldL' = sig - 1) as Hl' by (unfold oldL', len in *; rewrite length_take; lia).
    destruct (markConsensusChanges oldL' newL) as [[c1 c2]|] eqn:Em; [|done]. cbn [result_bind] in Hg.
    destruct (commandsFromChanges oldL' newL c1 c2) as [body|] eqn:Ec; [|done]. injection Hg as <-.
    destruct (Hbody oldL' body) as [Ha Ho]; [lia | rewrite Em; exact Ec |].
    split_and!.
    + cbn [app op endToEOF n1]. by rewrite bool_decide_true, Z.eqb_refl.
    + cbn [app reverse_order_from endToEOF op n1]. rewrite Z.ltb_irrefl, <- Hl'. apply Ho.
    + cbn [app apply_commands]. rewrite apply_cut by lia. cbn [result_bind]. fold oldL'.
      pose proof (len_nonneg newL). by rewrite (proj2 (Z.ltb_ge _ _)) by lia.
  - destruct (markConsensusChanges oldL newL) as [[c1 c2]|] eqn:Em; [|done]. cbn [result_bind] in Hg.
    destruct (commandsFromChanges oldL newL c1 c2) as [body|] eqn:Ec; [|done]. injection Hg as <-.
    destruct (Hbody oldL body) as [Ha Ho]; [lia | rewrite Em; exact Ec |]. by split_and!.
Qed.

(** ** Properties *)

(** Diffs are correct and applicable.  Whatever two documents the generator is
    given (sorted or unsorted router entries, with or without signatures), when it
    produces commands, these satisfy what the reader checks (the signature section
    is cut off first, and the commands run from the end of the file to its start),
    and applying them to the old lines yields exactly the new lines, as long as
    both together stay within the reader's size limit. *)
Theorem ed_diff_roundtrip oldL newL cmds :
  genEdDiff oldL newL = Ok cmds -> len oldL + len newL <= maxConsensusDiffLines ->
  first_rule oldL cmds = true /\ checkEdReverseOrder cmds (len oldL) = true /\ apply_commands oldL cmds = Ok newL.
Proof. apply gen_correct. Qed.

Definition sample_lines (footer : string) : list bytes :=
  [lit "network-status-version 3"; lit "r alice AAAA x"; lit "s Running"; lit "r bob BBBB x"; lit footer;
   lit "directory-signature x"].

Lemma ed_diff_roundtrip_witness :
  exists cmds, genEdDiff (sample_lines "old") (sample_lines "new") = Ok cmds /\
    apply_commands (sample_lines "old") cmds = Ok (sample_lines "new").
Proof.
  assert (exists cmds, genEdDiff (sample_lines "old") (sample_lines "new") = Ok cmds) as [cmds Hg].
  { eexists. vm_compute. reflexivity. }
  exists cmds. split; [exact Hg|]. apply (ed_diff_roundtrip (sample_lines "old") (sample_lines "new") cmds Hg).
  vm_compute. discriminate.
Defined.

(** The lines a diff keeps are as many as possible: the two flag lists select the
    same lines from both sides, which form a common subsequence, and no common
    subsequence is longer. *)
Theorem lcs_keeps_longest a b :
  let '(keepA, keepB) := lcsKeep a b in
  kept a keepA = kept b keepB /\ common (kept a keepA) a b /\
  forall s, common s a b -> len s <= len (kept a keepA).
Proof.
  pose proof (lcsKeep_common a b) as Hc. unfold lcsKeep in *.
  pose proof (lcs_walk_count a b (length a + length b) (length a) (length b) _ _ ltac:(lia) (walked_start a) (walked_start b)) as Hn.
  rewrite !drop_all in Hn. destruct (lcs_walk _ _ _ _ _ _ _ _) as [kA kB].
  destruct Hc as (_ & _ & Hk). split_and!; [done | |].
  - split; [apply kept_sublist | rewrite Hk; apply kept_sublist].
  - intros s Hs. destruct (dp_lcs a b (length a) (length b)) as [_ Hm]; [lia..|]. rewrite !take_ge in Hm by done.
    cbn [fst] in Hn. specialize (Hm s Hs). pose proof (len_nonneg (kept [] (drop (length a) (replicate (length a) false)))). lia.
Qed.

End ConsDiffGen.
