(* ===== verification/ConsDiffText.v ===== *)
(** * Consensus diffs as text

    The written form of the commands of [ConsDiffGen.v] and what the reader of
    [ConsDiff.v] makes of it; with the two, a generated diff is always accepted. *)

From S2P Require Import Prelude GoStrings ConsDiff ConsDiffGen.
Import GoStrings ConsDiff ConsDiffGen.

Module ConsDiffText.

(** ** One command *)

(** A command the generator can produce. *)
Record cmd_wf (cmd : edCommand) : Prop := {
  wf_n1 : 0 <= n1 cmd <= MaxInt64;
  wf_n2 : 0 <= n2 cmd <= MaxInt64;
  wf_op : match op cmd with
          | OpA => n2 cmd = n1 cmd /\ endToEOF cmd = false
          | OpC => 1 <= n1 cmd <= n2 cmd /\ endToEOF cmd = false
          | OpD => block cmd = [] /\ 1 <= n1 cmd /\ if endToEOF cmd then n2 cmd = 0 else n1 cmd <= n2 cmd
          end;
  wf_block : op cmd <> OpD -> block cmd <> [];
  wf_size : len (block cmd) <= maxConsensusDiffLines;
  wf_lines : Forall (fun l => plain_line l /\ dot_only l = false /\ len l <= maxConsensusLineBytes) (block cmd);
}.

Definition op_char (o : edOp) : Z := match o with OpD => 100 | OpC => 99 | OpA => 97 end.

(** The command's own line, without the line feed. *)
Definition head_range (cmd : edCommand) : bytes :=
  if endToEOF cmd then print_int (n1 cmd) ++ lit ",$"
  else match op cmd with OpA => print_int (n1 cmd) | _ => print_range cmd end.
Definition head_line (cmd : edCommand) : bytes := head_range cmd ++ [op_char (op cmd)].

Definition cmd_lines (cmd : edCommand) : list bytes :=
  head_line cmd :: match op cmd with OpD => [] | _ => block cmd ++ [lit "."] end.

Lemma writeEdCommand_lines cmd : cmd_wf cmd -> writeEdCommand cmd = Ok (unlines (cmd_lines cmd)).
Proof.
  intros Hw. unfold writeEdCommand, cmd_lines, head_line, head_range.
  assert (op cmd <> OpD -> writeEdBlock (block cmd) = Ok (unlines (block cmd ++ [lit "."]))) as Hb.
  { intros Ho. unfold writeEdBlock. rewrite bool_decide_false by by apply (wf_block _ Hw).
    assert (rejectDotOnlyLines (block cmd) = true) as ->; [|by rewrite unlines_app].
    unfold rejectDotOnlyLines. apply negb_true_iff, not_true_is_false. rewrite existsb_exists.
    intros (x & Hx & Hd). apply list_elem_of_In in Hx. pose proof (wf_lines _ Hw) as Hl. rewrite Forall_forall in Hl.
    destruct (Hl x Hx) as (_ & ? & _). congruence. }
  pose proof (wf_op _ Hw) as Ho. destruct (op cmd).
  - destruct (endToEOF cmd); unfold unlines; simpl flat_map; rewrite ?app_nil_r, <- ?app_assoc; done.
  - destruct Ho as [_ ->]. rewrite Hb by done. cbn [result_bind]. f_equal.
    change (unlines ((print_range cmd ++ [op_char OpC]) :: block cmd ++ [lit "."])) with
      (((print_range cmd ++ [op_char OpC]) ++ [LF]) ++ unlines (block cmd ++ [lit "."])).
    rewrite <- !app_assoc. done.
  - destruct Ho as [_ ->]. rewrite Hb by done. cbn [result_bind]. f_equal.
    change (unlines ((print_int (n1 cmd) ++ [op_char OpA]) :: block cmd ++ [lit "."])) with
      (((print_int (n1 cmd) ++ [op_char OpA]) ++ [LF]) ++ unlines (block cmd ++ [lit "."])).
    rewrite <- !app_assoc. done.
Qed.

Lemma digits_not s c : forallb is_digit s = true -> is_digit c = false -> c ∉ s.
Proof.
  intros Hs Hc Hin. apply list_elem_of_In in Hin. rewrite forallb_forall in Hs. specialize (Hs c Hin). congruence.
Qed.

Lemma edLineNumber_print v : 0 <= v <= MaxInt64 -> edLineNumber (print_int v) = true.
Proof.
  intros Hv. destruct (print_int_spec v Hv) as (_ & Hd & Hn & _). unfold edLineNumber. rewrite Hd, andb_true_r.
  apply negb_true_iff. by apply bool_decide_eq_false.
Qed.

Lemma parse_single v o :
  0 <= v <= MaxInt64 -> (v = 0 -> o = OpA) -> parseEdRange (print_int v) o = Ok (v, v, false).
Proof.
  intros Hv Ho. destruct (print_int_spec v Hv) as (Ha & Hd & Hn & _). unfold parseEdRange.
  rewrite string_eqb_false by done. rewrite Cut_none by by apply digits_not.
  rewrite edLineNumber_print, Ha by done. cbn [negb]. rewrite (proj2 (Z.ltb_ge _ _)) by lia.
  destruct (Z.eqb_spec v 0) as [Hz|Hz]; [|done]. by rewrite bool_decide_true by auto.
Qed.

Lemma parse_pair v w o :
  1 <= v < w -> w <= MaxInt64 -> o <> OpA -> parseEdRange (print_int v ++ lit "," ++ print_int w) o = Ok (v, w, false).
Proof.
  intros Hv Hw Ho. destruct (print_int_spec v) as (Ha & Hd & Hn & _); [lia|].
  destruct (print_int_spec w) as (Ha' & Hd' & Hn' & _); [lia|]. unfold parseEdRange.
  assert (print_int v ++ lit "," ++ print_int w <> []) as Hne by (destruct (print_int v); done).
  rewrite string_eqb_false by exact Hne.
  change (lit "," ++ print_int w) with (44 :: print_int w). rewrite Cut_some by by apply digits_not.
  rewrite !edLineNumber_print, Ha, Ha' by lia. cbn [negb]. rewrite (proj2 (Z.ltb_ge _ _)), (proj2 (Z.eqb_neq v 0)) by lia.
  cbn [andb]. rewrite (bool_decide_false (o = OpA)) by done.
  assert (string_eqb (print_int w) (lit "$") = false) as ->.
  { apply string_eqb_false. intros Hx. by rewrite Hx in Hd'. }
  by rewrite (proj2 (Z.leb_gt _ _)) by lia.
Qed.

Lemma parse_dollar v : 1 <= v <= MaxInt64 -> parseEdRange (print_int v ++ lit ",$") OpD = Ok (v, 0, true).
Proof.
  intros Hv. destruct (print_int_spec v) as (Ha & Hd & Hn & _); [lia|]. unfold parseEdRange.
  assert (print_int v ++ lit ",$" <> []) as Hne by (destruct (print_int v); done).
  rewrite string_eqb_false by exact Hne.
  change (lit ",$") with (44 :: lit "$"). rewrite Cut_some by by apply digits_not.
  rewrite edLineNumber_print, Ha by lia. cbn [negb]. by rewrite (proj2 (Z.ltb_ge _ _)), (proj2 (Z.eqb_neq v 0)) by lia.
Qed.

Lemma parse_block_ok blk rest acc :
  Forall (fun l => plain_line l /\ dot_only l = false /\ len l <= maxConsensusLineBytes) blk ->
  len acc + len blk <= maxConsensusDiffLines ->
  parse_block (blk ++ lit "." :: rest) acc = Ok (acc ++ blk, rest).
Proof.
  intros Hb. revert acc. induction Hb as [|l blk (Hp & Hd & Hl) Hb IH]; intros acc Ha; [by rewrite app_nil_r|].
  unfold dot_only in Hd. apply orb_false_iff in Hd as [Hd1 Hd2].
  cbn [app parse_block]. rewrite Hd1, Hd2, (proj2 (Z.ltb_ge _ _)) by done. pose proof (len_nonneg blk).
  assert (len (l :: blk) = 1 + len blk) as Hx by (unfold len; simpl; lia).
  rewrite (proj2 (Z.ltb_ge _ _)) by (rewrite len_app; change (len [l]) with 1; lia).
  rewrite IH by (rewrite len_app; change (len [l]) with 1; lia). by rewrite <- app_assoc.
Qed.

Lemma op_of_char o : op_of (op_char o) = Some o.
Proof. by destruct o. Qed.

(** The reader gets the command back. *)
Lemma parse_cmd cmd rest : cmd_wf cmd -> parseEdCommand (cmd_lines cmd ++ rest) = Ok (cmd, rest).
Proof.
  intros Hw. unfold cmd_lines. cbn [app parseEdCommand].
  unfold head_line. set (r := head_range cmd).
  assert (parseEdRange r (op cmd) = Ok (n1 cmd, n2 cmd, endToEOF cmd) /\ len r <= 39) as [Hr Hlr].
  { pose proof (wf_op _ Hw) as Ho. pose proof (wf_n1 _ Hw). pose proof (wf_n2 _ Hw).
    destruct (print_int_spec (n1 cmd)) as (_ & _ & _ & L1); [done|].
    destruct (print_int_spec (n2 cmd)) as (_ & _ & _ & L2); [done|].
    assert (n1 cmd <= n2 cmd -> 1 <= n1 cmd -> op cmd <> OpA ->
      parseEdRange (print_range cmd) (op cmd) = Ok (n1 cmd, n2 cmd, false) /\ len (print_range cmd) <= 39) as Hpr.
    { intros. unfold print_range. destruct (Z.eqb_spec (n1 cmd) (n2 cmd)) as [<-|].
      - rewrite parse_single by lia. split; [done|unfold len; lia].
      - rewrite parse_pair by (done || lia). split; [done|]. unfold len. rewrite !length_app. simpl length. lia. }
    unfold r, head_range. destruct (op cmd) eqn:Eo.
    - destruct Ho as (_ & Ho1 & Ho2). destruct (endToEOF cmd).
      + rewrite Ho2, parse_dollar by lia. split; [done|]. unfold len. rewrite length_app. simpl length. lia.
      + by apply Hpr.
    - destruct Ho as [Ho ->]. apply Hpr; [lia..|done].
    - destruct Ho as [Ho ->]. rewrite Ho, parse_single by done. split; [done|unfold len; lia]. }
  assert (string_eqb (r ++ [op_char (op cmd)]) [] = false) as -> by (apply string_eqb_false; by destruct r).
  rewrite (proj2 (Z.ltb_ge _ _)) by (rewrite len_app; change (len [_]) with 1; unfold maxEdCommandBytes; lia).
  rewrite length_app, Nat.add_sub, take_app_length. unfold at_. rewrite lookup_app_r, Nat.sub_diag by lia.
  cbn [lookup list_lookup default from_option Datatypes.id]. rewrite op_of_char, Hr. cbn [result_bind].
  pose proof (wf_op _ Hw) as Ho. pose proof (wf_block _ Hw) as Hb. destruct cmd as [o a b eof blk]. cbn [op block n1 n2 endToEOF] in *.
  destruct o.
  - destruct Ho as (-> & _). done.
  - rewrite bool_decide_false by done. rewrite <- app_assoc. simpl app. rewrite parse_block_ok;
      [|apply (wf_lines _ Hw)|apply (wf_size _ Hw)]. cbn [result_bind app]. by rewrite bool_decide_false by by apply Hb.
  - rewrite bool_decide_false by done. rewrite <- app_assoc. simpl app. rewrite parse_block_ok;
      [|apply (wf_lines _ Hw)|apply (wf_size _ Hw)]. cbn [result_bind app]. by rewrite bool_decide_false by by apply Hb.
Qed.

(** ** The generator's commands *)

Definition line_ok (l : bytes) : Prop := plain_line l /\ dot_only l = false /\ len l <= maxConsensusLineBytes.

Lemma commands_wf oldL newL c1 c2 fuel k1 k2 cmds :
  length c1 = length oldL -> length c2 = length newL -> (k1 <= length oldL)%nat -> (k2 <= length newL)%nat ->
  len oldL <= maxConsensusDiffLines -> len newL <= maxConsensusDiffLines -> Forall line_ok newL ->
  commands_from fuel oldL newL c1 c2 k1 k2 = Ok cmds -> Forall cmd_wf cmds /\ (length cmds <= k1 + k2)%nat.
Proof.
  intros Hl1 Hl2. revert k1 k2 cmds. induction fuel as [|fuel IH]; intros k1 k2 cmds Hk1 Hk2 Ho Hn Hf Hc.
  { injection Hc as <-. split; [constructor | simpl; lia]. }
  destruct (((0 <? k1)%nat && changed_at c1 (k1 - 1)) || ((0 <? k2)%nat && changed_at c2 (k2 - 1))) eqn:Ech.
  - destruct (commands_step oldL newL c1 c2 Hl1 Hl2 fuel k1 k2 cmds Ech Hc Hk1 Hk2) as
      (cmd & rest & -> & Hr & He & Hb & Hs1 & Hs2 & Hlt & Hop).
    destruct (IH (skip_changed c1 k1) (skip_changed c2 k2) rest) as [IH1 IH2]; [lia | lia | done.. |]. simpl length. split; [|lia].
    constructor; [|done].
    assert (maxConsensusDiffLines <= MaxInt64) by done. unfold len in Ho, Hn.
    assert (Forall line_ok (block cmd)) as Hbl by (rewrite Hb; by apply Forall_take, Forall_drop).
    assert (len (block cmd) = Z.of_nat k2 - Z.of_nat (skip_changed c2 k2)) as Hlb
      by (rewrite Hb; unfold len; rewrite length_slice; lia).
    constructor; [| | | | lia | done]; destruct (op cmd);
      destruct Hop as (Hp1 & Hp2 & Hp3); try (destruct Hp3 as (Hp3 & Hp4)); try lia; try done.
    + rewrite He. split_and!; [done | lia | lia].
    + split; [lia|done].
    + intros _ Hnil. rewrite Hnil in Hlb. change (len (A:=bytes) []) with 0 in Hlb. lia.
    + intros _ Hnil. rewrite Hnil in Hlb. change (len (A:=bytes) []) with 0 in Hlb. lia.
  - cbn [commands_from] in Hc. case_if; [injection Hc as <-; split; [constructor | simpl; lia]|].
    rewrite <- negb_orb, Ech in Hc. cbn [negb] in Hc.
    destruct (IH (k1 - 1) (k2 - 1) cmds)%nat as [IH1 IH2]; [lia | lia | done.. |]. split; [done|lia].
Qed.

Lemma gen_wf oldL newL cmds :
  genEdDiff oldL newL = Ok cmds -> Forall line_ok newL ->
  len oldL <= maxConsensusDiffLines -> len newL <= maxConsensusDiffLines ->
  Forall cmd_wf cmds /\ len cmds <= len oldL + len newL + 1.
Proof.
  intros Hg Hf Ho Hn. unfold genEdDiff in Hg. pose proof (signature_line_range oldL) as Hsig.
  assert (maxConsensusDiffLines <= MaxInt64) by done.
  destruct (Z.ltb_spec 0 (firstDirectorySignatureLine oldL)) as [Hs|Hs].
  - set (oldL' := take _ oldL) in Hg. assert (len oldL' <= len oldL) as Hl' by (unfold oldL', len; rewrite length_take; lia).
    destruct (markConsensusChanges oldL' newL) as [[c1 c2]|] eqn:Em; [|done]. cbn [result_bind] in Hg.
    destruct (commandsFromChanges oldL' newL c1 c2) as [body|] eqn:Ec; [|done]. injection Hg as <-.
    destruct (markConsensusChanges_aligned _ _ _ _ Em) as [Hl1 Hl2 _ _ _ _ _].
    destruct (commands_wf oldL' newL c1 c2 (length oldL' + length newL) (length oldL') (length newL) body) as [H1 H2];
      [done | done | lia | lia | lia | done | done | exact Ec |].
    split; [|unfold len in *; simpl; lia]. constructor; [|done].
    constructor; cbn [n1 n2 op block endToEOF]; try done; [lia|]. split_and!; [done|lia|done].
  - destruct (markConsensusChanges oldL newL) as [[c1 c2]|] eqn:Em; [|done]. cbn [result_bind] in Hg.
    destruct (commandsFromChanges oldL newL c1 c2) as [body|] eqn:Ec; [|done]. injection Hg as <-.
    destruct (markConsensusChanges_aligned _ _ _ _ Em) as [Hl1 Hl2 _ _ _ _ _].
    destruct (commands_wf oldL newL c1 c2 (length oldL + length newL) (length oldL) (length newL) body) as [H1 H2];
      [done | done | lia | lia | done | done | done | exact Ec |].
    split; [done|]. unfold len in *. lia.
Qed.

Lemma write_commands_lines cmds :
  Forall cmd_wf cmds -> write_commands cmds = Ok (unlines (flat_map cmd_lines cmds)).
Proof.
  induction 1 as [|cmd cmds Hc Hcs IH]; [done|]. cbn [write_commands flat_map].
  rewrite writeEdCommand_lines, IH by done. cbn [result_bind]. by rewrite unlines_app.
Qed.

Lemma parse_commands_lines fuel cmds acc :
  Forall cmd_wf cmds -> len acc + len cmds <= maxConsensusDiffCommands -> (length cmds <= fuel)%nat ->
  parse_commands fuel (flat_map cmd_lines cmds) acc = Ok (acc ++ cmds).
Proof.
  intros Hw. revert fuel acc. induction Hw as [|cmd cmds Hc Hcs IH]; intros fuel acc Ha Hf.
  - cbn [flat_map]. rewrite app_nil_r. by destruct fuel.
  - destruct fuel as [|fuel]; [simpl in Hf; lia|].
    assert (len (cmd :: cmds) = 1 + len cmds) as Hx by (unfold len; simpl; lia). pose proof (len_nonneg cmds).
    cbn [parse_commands flat_map]. destruct (cmd_lines cmd ++ flat_map cmd_lines cmds) eqn:El; [done|].
    rewrite <- El. rewrite (proj2 (Z.leb_gt _ _)) by lia. rewrite parse_cmd by done. cbn [result_bind].
    rewrite IH; [by rewrite <- app_assoc | rewrite len_app; change (len [cmd]) with 1; lia | simpl in Hf; lia].
Qed.

Lemma length_cmd_lines cmds : (length cmds <= length (flat_map cmd_lines cmds))%nat.
Proof. induction cmds as [|cmd cmds IH]; [done|]. simpl. rewrite length_app. lia. Qed.

Lemma not_in (c : Z) (s : bytes) : bool_decide (c ∈ s) = false -> c ∉ s.
Proof. apply bool_decide_eq_false_1. Qed.

Lemma head_line_plain cmd : cmd_wf cmd -> plain_line (head_line cmd).
Proof.
  intros Hw. unfold head_line, plain_line. rewrite last_snoc. split; [|by destruct (op cmd)].
  assert (forall v, 0 <= v <= MaxInt64 -> LF ∉ print_int v) as Hp.
  { intros v Hv. apply digits_not; [|done]. apply (print_int_spec v Hv). }
  pose proof (Hp _ (wf_n1 _ Hw)) as P1. pose proof (Hp _ (wf_n2 _ Hw)) as P2.
  assert (LF ∉ print_range cmd) as P3 
    by (unfold print_range; case_if; rewrite ?not_elem_of_app; split_and?; try done; by apply not_in).
  unfold head_range. rewrite not_elem_of_app. split; [|by destruct (op cmd); apply not_in].
  destruct (endToEOF cmd); [rewrite not_elem_of_app; split; [done|by apply not_in]|]. by destruct (op cmd).
Qed.

Lemma cmd_lines_plain cmds : Forall cmd_wf cmds -> Forall plain_line (flat_map cmd_lines cmds).
Proof.
  induction 1 as [|cmd cmds Hc Hcs IH]; [constructor|]. cbn [flat_map]. apply Forall_app. split; [|done].
  unfold cmd_lines. constructor; [by apply head_line_plain|].
  assert (Forall plain_line (block cmd ++ [lit "."])) as Hb.
  { apply Forall_app. split; [|repeat constructor; [by apply not_in|done]].
    eapply Forall_impl; [apply (wf_lines _ Hc)|]. by intros l [? _]. }
  by destruct (op cmd).
Qed.

(** ** Documents *)

Definition nsv : bytes := lit "network-status-version".

Lemma ReplaceCRLF_prefix p s : CR ∉ p -> ReplaceCRLF (p ++ s) = p ++ ReplaceCRLF s.
Proof.
  induction p as [|c p IH]; [done|]. rewrite not_elem_of_cons. intros [Hc Hp]. cbn [app ReplaceCRLF].
  specialize (IH Hp). destruct (p ++ s) as [|d r] eqn:E.
  - apply app_nil in E as [-> ->]. done.
  - rewrite (proj2 (Z.eqb_neq c CR)) by congruence. cbn [andb]. by rewrite IH.
Qed.

Lemma length_ReplaceCRLF s : (length (ReplaceCRLF s) <= length s)%nat.
Proof.
  remember (length s) as n eqn:Hn. revert s Hn. induction n as [n IH] using lt_wf_ind. intros [|c [|d s]] Hn; simpl in *; try lia.
  case_if; simpl; [specialize (IH (length s) ltac:(lia) s eq_refl); lia|].
  pose proof (IH (S (length s)) ltac:(lia) (d :: s) eq_refl) as Hd. cbn [ReplaceCRLF] in Hd. lia.
Qed.

(** A carriage return before a line feed is lost. *)
Lemma ReplaceCRLF_shrinks a b : (length (ReplaceCRLF (a ++ CR :: LF :: b)) < length (a ++ CR :: LF :: b))%nat.
Proof.
  remember (length a) as n eqn:Hn. revert a Hn. induction n as [n IH] using lt_wf_ind. intros [|c a] Hn.
  - simpl. pose proof (length_ReplaceCRLF b). lia.
  - destruct a as [|d a].
    + cbn [app ReplaceCRLF]. rewrite andb_false_r. cbn [length]. pose proof (IH 0%nat ltac:(simpl in Hn; lia) [] eq_refl) as H0.
      cbn [app ReplaceCRLF length] in H0. simpl in H0 |- *. lia.
    + simpl in Hn. cbn [app ReplaceCRLF]. case_if.
      * pose proof (IH (length a) ltac:(lia) a eq_refl). cbn [length]. lia.
      * pose proof (IH (S (length a)) ltac:(lia) (d :: a) eq_refl) as Hd. cbn [app ReplaceCRLF length] in Hd |- *. lia.
Qed.

Lemma plain_lines ls : ReplaceCRLF (unlines ls) = unlines ls -> Forall (fun l => LF ∉ l) ls -> Forall plain_line ls.
Proof.
  intros Hr Hl. induction Hl as [|l ls Hl Hls IH]; [constructor|].
  change (unlines (l :: ls)) with ((l ++ [LF]) ++ unlines ls) in Hr. rewrite <- app_assoc in Hr. cbn [app] in Hr.
  assert (plain_line l) as Hp.
  { split; [done|]. intros Hc. apply last_Some in Hc as [l' ->]. rewrite <- app_assoc in Hr. cbn [app] in Hr.
    pose proof (ReplaceCRLF_shrinks l' (unlines ls)) as Hs. rewrite Hr in Hs. lia. }
  constructor; [done|]. apply IH. rewrite ReplaceCRLF_line in Hr by done. apply app_inv_head in Hr. by injection Hr.
Qed.

Lemma HasSuffix_spec s p : HasSuffix s p = true -> exists t, s = t ++ p.
Proof.
  unfold HasSuffix. intros [Hl%Nat.leb_le He%string_eqb_spec]%andb_true_iff.
  exists (take (length s - length p) s). rewrite <- He at 2. by rewrite take_drop.
Qed.

(** A document in canonical form: it starts with its version line and has no
    carriage return before a line feed. *)
Lemma normalize_canonical s :
  HasPrefix s nsv = true ->
  exists t, normalizeConsensusText s = t ++ [LF] /\ HasPrefix t nsv = true.
Proof.
  intros [r ->]%HasPrefix_spec. unfold normalizeConsensusText. rewrite ReplaceCRLF_prefix by by apply not_in.
  set (u := ReplaceCRLF r). rewrite (string_eqb_false (nsv ++ u)) by done. cbn [negb andb].
  destruct (HasSuffix (nsv ++ u) [LF]) eqn:E; cbn [negb]; [|exists (nsv ++ u); split; [done|apply HasPrefix_app]].
  apply HasSuffix_spec in E as [t Ht]. exists t. split; [done|].
  destruct u as [|c u] using rev_ind.
  - exfalso. rewrite app_nil_r in Ht. apply (f_equal last) in Ht. rewrite last_snoc in Ht. done.
  - rewrite app_assoc in Ht. apply app_inj_tail in Ht as [<- _]. apply HasPrefix_app.
Qed.

Lemma split_canonical t :
  ReplaceCRLF (t ++ [LF]) = t ++ [LF] -> t <> [] ->
  splitConsensusLines (t ++ [LF]) = Split t LF /\ joinConsensusLines (Split t LF) = t ++ [LF] /\
  Forall plain_line (Split t LF).
Proof.
  intros Hr Ht. assert (t ++ [LF] <> []) as Hne by by destruct t.
  assert (joinConsensusLines (Split t LF) = t ++ [LF]) as Hj.
  { unfold joinConsensusLines. pose proof (Split_nonempty t LF). rewrite <- (Join_Split t LF) at 2. by destruct (Split t LF). }
  split_and!; [|done|].
  - unfold splitConsensusLines, normalizeConsensusText.
    rewrite Hr, HasSuffix_app, andb_false_r, (string_eqb_false _ _ Hne), HasSuffix_app.
    rewrite length_app, Nat.add_sub, take_app_length. by rewrite string_eqb_false.
  - apply plain_lines; [|apply Split_no_sep]. unfold joinConsensusLines in Hj. pose proof (Split_nonempty t LF).
    destruct (Split t LF) as [|l ls]; [done|]. by rewrite <- Join_unlines, Hj by done.
Qed.

Lemma fields_go_nonempty s k cur : cur <> [] -> fields_go s k cur <> [].
Proof.
  revert k cur. induction s as [|c s IH]; intros k cur Hc; [by destruct cur|]. cbn [fields_go].
  destruct k; [|by apply IH]. destruct (space_width (c :: s)); [apply IH; by destruct cur|]. by destruct cur.
Qed.

Lemma nsv_word : ascii_word nsv.
Proof. unfold ascii_word. apply (bool_decide_unpack _). vm_compute. exact I. Qed.

Lemma blank_nsv s : HasPrefix s nsv = true -> blank s = false.
Proof.
  intros [r ->]%HasPrefix_spec. unfold blank. apply bool_decide_eq_false. unfold Fields.
  rewrite fields_word by apply nsv_word. by apply fields_go_nonempty.
Qed.

Lemma no_bom s : HasPrefix s nsv = true -> TrimPrefix s BOM = s.
Proof. intros [r ->]%HasPrefix_spec. done. Qed.

Lemma strip_nsv s : HasPrefix s nsv = true -> stripConsensusPreamble s = s.
Proof.
  intros Hs. unfold stripConsensusPreamble. rewrite no_bom by done. fold nsv.
  assert (Index s nsv = Some 0%nat) as -> by (unfold Index; destruct s; cbn [index_from]; by rewrite Hs). done.
Qed.

Section Digest.
Context (Sum256 : bytes -> bytes).
Context (Sum256_spec : forall m, length (Sum256 m) = 32%nat /\ Forall is_byte (Sum256 m)).

Lemma digest_ok m : validSHA3Hex (sha3_256Hex Sum256 m) = true /\ ascii_word (sha3_256Hex Sum256 m).
Proof.
  destruct (Sum256_spec m) as [Hl Hb]. destruct (hex_encode_ok _ Hb) as [H1 H2]. unfold validSHA3Hex, sha3_256Hex.
  unfold len. rewrite length_hex, Hl, H1. by split.
Qed.

Lemma from_digest_ok m : exists m', consensusDiffFromDigest Sum256 m = sha3_256Hex Sum256 m'.
Proof. unfold consensusDiffFromDigest. destruct (extractConsensusSignedBody m); by eexists. Qed.

Lemma hexDigestEqual_refl a : hexDigestEqual a a = true.
Proof. apply string_eqb_refl. Qed.

(** The reader of a written diff. *)
Lemma parse_diff from to cmds :
  validSHA3Hex from = true -> validSHA3Hex to = true -> ascii_word from -> ascii_word to ->
  Forall cmd_wf cmds -> cmds <> [] -> len cmds <= maxConsensusDiffCommands ->
  parseConsensusDiff (lit "network-status-diff-version 1" ++ [LF] ++ lit "hash " ++ from ++ [32] ++ to ++ [LF] ++
    unlines (flat_map cmd_lines cmds)) = Ok (from, to, cmds).
Proof.
  intros Hf Ht Hwf Hwt Hw Hne Hn. set (l0 := lit "network-status-diff-version 1"). set (l1 := lit "hash " ++ from ++ [32] ++ to).
  set (ls := flat_map cmd_lines cmds). set (all := l0 :: l1 :: ls).
  replace (l0 ++ [LF] ++ lit "hash " ++ from ++ [32] ++ to ++ [LF] ++ unlines ls) with (unlines all).
  2:{ change (unlines all) with ((l0 ++ [LF]) ++ (l1 ++ [LF]) ++ unlines ls). unfold l1. rewrite <- !app_assoc. done. }
  assert (forall w, ascii_word w -> LF ∉ w /\ (w <> [] -> last w <> Some CR)) as Hword.
  { intros w Hx. unfold ascii_word in Hx. rewrite Forall_forall in Hx. split.
    - intros Hin. specialize (Hx _ Hin). unfold LF in Hx. lia.
    - intros _ Hl. apply last_Some_elem_of in Hl. specialize (Hx _ Hl). unfold CR in Hx. lia. }
  assert (forall w, validSHA3Hex w = true -> w <> []) as Hnil by (intros w Hx ->; by cbv in Hx).
  assert (Forall plain_line all) as Hplain.
  { unfold all. repeat constructor; [by apply not_in | done | | | by apply cmd_lines_plain].
    - unfold l1. rewrite !not_elem_of_app. destruct (Hword from Hwf), (Hword to Hwt). split_and!; try done; by apply not_in.
    - unfold l1. rewrite !app_assoc, last_app. destruct (last to) eqn:El; [|apply last_None in El; by apply Hnil in El].
      rewrite <- El. apply (Hword to Hwt). by apply Hnil. }
  assert (TrimPrefix (unlines all) BOM = unlines all) as Hbom by done.
  unfold parseConsensusDiff. rewrite Hbom, ReplaceCRLF_unlines by done.
  rewrite <- Join_unlines by done. rewrite HasSuffix_app. cbn [negb]. rewrite length_app, Nat.add_sub, take_app_length.
  rewrite Split_Join; [|done|eapply Forall_impl; [exact Hplain|by intros l [? _]]].
  unfold all. destruct ls as [|l2 rest] eqn:El; [by destruct cmds|].
  assert (Fields l0 = [lit "network-status-diff-version"; consensusDiffVersion]) as -> by reflexivity.
  rewrite !string_eqb_refl. cbn [negb orb].
  assert (Fields l1 = [lit "hash"; from; to]) as ->.
  { unfold Fields, l1. change (lit "hash " ++ from ++ [32] ++ to) with (lit "hash" ++ 32 :: (from ++ 32 :: to)).
    rewrite Fields_cons; [|done|apply (bool_decide_unpack _); vm_compute; exact I].
    rewrite Fields_cons by (done || by apply Hnil). by rewrite Fields_last by (done || by apply Hnil). }
  rewrite string_eqb_refl, Hf, Ht. cbn [negb orb]. rewrite <- El. unfold ls.
  rewrite parse_commands_lines; [done | done | done | apply length_cmd_lines].
Qed.

(** What is needed of the new document for a diff to exist. *)
Record diffable (oldL newL : list bytes) : Prop := {
  df_old : len oldL <= maxEdChunkLines;
  df_new : len newL <= maxEdChunkLines;
  df_old_len : checkConsensusLineLengths oldL = true;
  df_new_len : checkConsensusLineLengths newL = true;
  df_dots : Forall (fun l => dot_only l = false) newL;
  df_change : oldL <> newL \/ 0 < firstDirectorySignatureLine oldL;
}.

Lemma genEdDiff_ok oldL newL : diffable oldL newL -> exists cmds, genEdDiff oldL newL = Ok cmds.
Proof.
  intros []. unfold genEdDiff. destruct (0 <? firstDirectorySignatureLine oldL).
  - set (oldL' := take _ oldL). destruct (markConsensusChanges_ok oldL' newL) as [[c1 c2] ->]; [|done|].
    { unfold oldL', len in *. rewrite length_take. lia. }
    cbn [result_bind]. unfold commandsFromChanges.
    destruct (commands_ok oldL' newL c1 c2 (length oldL' + length newL) (length oldL') (length newL)) as [cmds ->]; [done|].
    by eexists.
  - destruct (markConsensusChanges_ok oldL newL) as [[c1 c2] ->]; [done..|].
    cbn [result_bind]. unfold commandsFromChanges.
    destruct (commands_ok oldL newL c1 c2 (length oldL + length newL) (length oldL) (length newL)) as [cmds ->]; [done|].
    by eexists.
Qed.

(** ** Properties *)

(** C28: Generating a diff always succeeds, and the diff works.  For an old and a new
    consensus that start with their version line, have at most 10000 lines each, no
    over-long line, no new line that is just a dot and no stray carriage return,
    and that differ or carry signatures, the generator returns a diff; its own
    check cannot fail; and a client that holds the old document in its normalised
    form (as [normalizeConsensusText] leaves it) and applies the text of that diff
    obtains exactly the normalised new document. *)
Theorem generated_diff_applies old new :
  HasPrefix old nsv = true -> HasPrefix new nsv = true ->
  let oldNorm := normalizeConsensusText old in
  let newNorm := normalizeConsensusText new in
  ReplaceCRLF newNorm = newNorm ->
  diffable (splitConsensusLines oldNorm) (splitConsensusLines newNorm) ->
  exists diff, GenerateConsensusDiff Sum256 old new = Ok diff /\ applyConsensusDiff Sum256 oldNorm diff = Ok newNorm.
Proof.
  intros Ho Hn oldNorm newNorm Hcr Hd.
  destruct (normalize_canonical old Ho) as (t & Et & Hpt). destruct (normalize_canonical new Hn) as (u & Eu & Hpu).
  fold oldNorm in Et. fold newNorm in Eu.
  assert (HasPrefix oldNorm nsv = true) as Hpo by (rewrite Et; apply HasPrefix_spec in Hpt as [r ->]; rewrite <- app_assoc; apply HasPrefix_app).
  assert (HasPrefix newNorm nsv = true) as Hpn by (rewrite Eu; apply HasPrefix_spec in Hpu as [r ->]; rewrite <- app_assoc; apply HasPrefix_app).
  assert (u <> []) as Hu by (intros ->; by cbv in Hpu).
  rewrite Eu in Hcr. destruct (split_canonical u Hcr Hu) as (Hsl & Hjoin & Hplain). rewrite <- Eu in Hsl, Hjoin.
  destruct (genEdDiff_ok _ _ Hd) as [cmds Hg]. destruct Hd as [D1 D2 D3 D4 D5 D6].
  assert (Forall line_ok (splitConsensusLines newNorm)) as Hok.
  { rewrite Hsl in D4, D5 |- *. unfold checkConsensusLineLengths in D4. rewrite forallb_forall in D4.
    rewrite Forall_forall in D5, Hplain |- *. intros l Hl. split_and!; [by apply Hplain | by apply D5 |].
    apply Z.leb_le, D4. by apply list_elem_of_In. }
  unfold maxEdChunkLines in D1, D2. assert (maxConsensusDiffLines = 200000) as HM by done.
  destruct (gen_wf _ _ _ Hg Hok) as [Hw Hc]; [lia..|].
  destruct (gen_correct _ _ _ Hg) as (Hfr & Hro & Hap); [lia|].
  assert (cmds <> []) as Hne.
  { intros ->. cbn [apply_commands] in Hap. injection Hap as Hap. destruct D6 as [D6|D6]; [done|].
    unfold first_rule in Hfr. by rewrite (proj2 (Z.ltb_lt _ _)) in Hfr by done. }
  destruct (from_digest_ok oldNorm) as [fm Hfm]. destruct (digest_ok fm) as [Vf Wf]. destruct (digest_ok newNorm) as [Vt Wt].
  rewrite <- Hfm in Vf, Wf.
  set (diff := lit "network-status-diff-version 1" ++ [LF] ++ lit "hash " ++ consensusDiffFromDigest Sum256 oldNorm ++ [32] ++
    sha3_256Hex Sum256 newNorm ++ [LF] ++ unlines (flat_map cmd_lines cmds)).
  assert (applyConsensusDiff Sum256 oldNorm diff = Ok newNorm) as Happly.
  { unfold applyConsensusDiff. rewrite no_bom, strip_nsv by done. unfold diff.
    rewrite parse_diff by (try done; unfold maxConsensusDiffCommands; lia). cbn [result_bind].
    rewrite hexDigestEqual_refl, D3, (proj2 (Z.ltb_ge _ _)) by lia. cbn [negb].
    unfold first_rule in Hfr. apply negb_true_iff in Hfr. rewrite Hfr, Hro, Hap. cbn [negb result_bind].
    by rewrite Hsl, Hjoin, hexDigestEqual_refl. }
  exists diff. split; [|done]. unfold GenerateConsensusDiff. rewrite !no_bom, !strip_nsv by done. fold oldNorm newNorm.
  rewrite !blank_nsv, D3, D4 by done. cbn [orb negb]. rewrite !(proj2 (Z.ltb_ge _ _)) by lia. cbn [orb].
  rewrite Hg. cbn [result_bind]. rewrite write_commands_lines by done. cbn [result_bind]. fold diff.
  by rewrite Happly, string_eqb_refl.
Qed.

End Digest.

(** ** Line numbers and the original file *)

(** The commands with every line number taken in the original file: each replaces
    its lines there, and the following ones concern what comes before. *)
Fixpoint apply_original (orig : list bytes) (cmds : list edCommand) : list bytes :=
  match cmds with
  | [] => orig
  | cmd :: cmds =>
      let last := if endToEOF cmd then len orig else n2 cmd in
      match op cmd with
      | OpA => apply_original (take (Z.to_nat (n1 cmd)) orig) cmds ++ block cmd ++ drop (Z.to_nat (n1 cmd)) orig
      | OpC => apply_original (take (Z.to_nat (n1 cmd - 1)) orig) cmds ++ block cmd ++ drop (Z.to_nat last) orig
      | OpD => apply_original (take (Z.to_nat (n1 cmd - 1)) orig) cmds ++ drop (Z.to_nat last) orig
      end
  end.

(** A command as the parser returns it, not running to the end of the file. *)
Definition cmd_span (cmd : edCommand) : bool :=
  negb (endToEOF cmd) &&
  match op cmd with OpA => 0 <=? n1 cmd | _ => (1 <=? n1 cmd) && (n1 cmd <=? n2 cmd) end.

Definition inserted (cmds : list edCommand) : Z := foldr (fun cmd n => len (block cmd) + n) 0 cmds.

Lemma inserted_nonneg cmds : 0 <= inserted cmds.
Proof. induction cmds as [|cmd cmds IH]; simpl; [lia|]. pose proof (len_nonneg (block cmd)). lia. Qed.

Lemma take_take_le {A} (l : list A) (a b : nat) : (a <= b)%nat -> take a (take b l) = take a l.
Proof. intros Ha. rewrite take_take. f_equal. lia. Qed.

Lemma sequential_original orig cmds n j tail :
  0 <= j <= len orig -> forallb cmd_span cmds = true -> reverse_order_from cmds n j = true ->
  j + len tail + inserted cmds <= maxConsensusDiffLines ->
  apply_commands (take (Z.to_nat j) orig ++ tail) cmds = Ok (apply_original (take (Z.to_nat j) orig) cmds ++ tail).
Proof.
  revert j tail. induction cmds as [|cmd cmds IH]; intros j tail Hj Hs Hr Hm; [done|].
  cbn [forallb] in Hs. apply andb_true_iff in Hs as [Hc Hs]. unfold cmd_span in Hc.
  apply andb_true_iff in Hc as [He%negb_true_iff Hc]. cbn [reverse_order_from] in Hr. rewrite He in Hr.
  cbn [inserted foldr] in Hm. change (foldr _ 0 cmds) with (inserted cmds) in Hm. pose proof (inserted_nonneg cmds).
  pose proof (len_nonneg (block cmd)). pose proof (len_nonneg tail).
  set (P := take (Z.to_nat j) orig). assert (length P = Z.to_nat j) as HP by (unfold P, len in *; rewrite length_take; lia).
  (* the lines before the command, the ones it replaces, and the rest of the prefix *)
  assert (forall s e, 0 <= s <= e -> e <= j ->
    P = take (Z.to_nat s) P ++ slice P (Z.to_nat s) (Z.to_nat e) ++ drop (Z.to_nat e) P) as Hsplit.
  { intros s e Hse Hej. rewrite app_assoc, <- take_slice_split by lia. by rewrite take_drop. }
  assert (forall s blk, 0 <= s <= j -> len blk <= len (block cmd) -> forall e, s <= e <= j ->
    reverse_order_from cmds n s = true ->
    apply_commands (take (Z.to_nat s) P ++ blk ++ drop (Z.to_nat e) P ++ tail) cmds =
    Ok (apply_original (take (Z.to_nat s) P) cmds ++ blk ++ drop (Z.to_nat e) P ++ tail)) as Hrest.
  { intros s blk Hsj Hb e Hej Hro. unfold P. rewrite take_take_le by lia. apply IH; [lia | done | done |].
    rewrite !len_app. fold P. unfold len at 2. rewrite length_drop, HP. unfold len in *. lia. }
  assert (forall s blk e, 0 <= s <= e -> e <= j -> len blk <= len (block cmd) ->
    maxConsensusDiffLines <? len (take (Z.to_nat s) P ++ blk ++ drop (Z.to_nat e) P ++ tail) = false) as Hlim.
  { intros s blk e Hse Hej Hb. apply Z.ltb_ge. rewrite !len_app. unfold len at 1 3. rewrite length_take, length_drop, HP. lia. }
  assert (forall s e, 0 <= s <= e -> e <= j -> len (take (Z.to_nat s) P) = s /\ len (slice P (Z.to_nat s) (Z.to_nat e)) = e - s) as Hlens.
  { intros s e Hse Hej. unfold len. rewrite length_take, length_slice by lia. lia. }
  cbn [apply_commands apply_original]. rewrite He. destruct (op cmd) eqn:Eo; bool_to_prop.
  - destruct (n2 cmd <=? j) eqn:Ej; [|rewrite (proj2 (Z.ltb_lt _ _)) in Hr by (bool_to_prop; lia); done].
    rewrite (proj2 (Z.ltb_ge _ _)) in Hr by (bool_to_prop; lia). bool_to_prop.
    destruct (Hlens (n1 cmd - 1) (n2 cmd)) as [L1 L2]; [lia..|].
    rewrite (Hsplit (n1 cmd - 1) (n2 cmd)) at 1 by lia. rewrite <- !app_assoc.
    unfold applyEdCommand, apply_span. rewrite He, Eo.
    pose proof (apply_change (take (Z.to_nat (n1 cmd - 1)) P) (slice P (Z.to_nat (n1 cmd - 1)) (Z.to_nat (n2 cmd)))
      (drop (Z.to_nat (n2 cmd)) P ++ tail) (mkEd OpD (n1 cmd) (n2 cmd) false [])) as Hx.
    unfold applyEdCommand, apply_span in Hx. cbn [endToEOF op n1 n2 block] in Hx. rewrite Hx; [|done|].
    2:{ rewrite L1, L2. split_and!; [|done|lia|lia]. intros Hn. rewrite Hn in L2. change (len (A:=bytes) []) with 0 in L2. lia. }
    cbn [result_bind]. rewrite Hlim by (try lia; done). rewrite Hrest by (try lia; done). done.
  - destruct (n2 cmd <=? j) eqn:Ej; [|rewrite (proj2 (Z.ltb_lt _ _)) in Hr by (bool_to_prop; lia); done].
    rewrite (proj2 (Z.ltb_ge _ _)) in Hr by (bool_to_prop; lia). bool_to_prop.
    destruct (Hlens (n1 cmd - 1) (n2 cmd)) as [L1 L2]; [lia..|].
    rewrite (Hsplit (n1 cmd - 1) (n2 cmd)) at 1 by lia. rewrite <- !app_assoc. rewrite apply_change; [|done|].
    2:{ rewrite Eo, L1, L2. split_and!; [|lia|lia]. intros Hn. rewrite Hn in L2. change (len (A:=bytes) []) with 0 in L2. lia. }
    cbn [result_bind]. rewrite Hlim by (try lia; done). rewrite Hrest by (try lia; done). done.
  - destruct (n1 cmd <=? j) eqn:Ej; [|rewrite (proj2 (Z.ltb_lt _ _)) in Hr by (bool_to_prop; lia); done].
    rewrite (proj2 (Z.ltb_ge _ _)) in Hr by (bool_to_prop; lia). bool_to_prop.
    destruct (Hlens (n1 cmd) (n1 cmd)) as [L1 L2]; [lia..|].
    rewrite (Hsplit (n1 cmd) (n1 cmd)) at 1 by lia. rewrite <- !app_assoc. rewrite apply_change; [|done|].
    2:{ rewrite Eo. split; [|lia]. apply nil_length_inv. unfold len in L2. lia. }
    cbn [result_bind]. rewrite Hlim by (try lia; done). rewrite Hrest by (try lia; done). done.
Qed.

(** The order check does what it is for: commands that pass it have the same
    effect one after the other on the changing file as all together with the line
    numbers of the original file; a leading [N,$d] included. *)
Theorem sequential_equals_original orig cmds :
  checkEdReverseOrder cmds (len orig) = true ->
  match cmds with
  | cmd :: rest =>
      forallb cmd_span rest && (cmd_span cmd || bool_decide (op cmd = OpD) && endToEOF cmd &&
        (1 <=? n1 cmd) && (n1 cmd <=? len orig))
  | [] => true
  end = true ->
  len orig + inserted cmds <= maxConsensusDiffLines ->
  apply_commands orig cmds = Ok (apply_original orig cmds).
Proof.
  intros Hr Hs Hm. unfold checkEdReverseOrder in Hr.
  assert (forall cs, forallb cmd_span cs = true -> reverse_order_from cs (len orig) (len orig) = true ->
    len orig + inserted cs <= maxConsensusDiffLines -> apply_commands orig cs = Ok (apply_original orig cs)) as Hall.
  { intros cs H1 H2 H3. pose proof (sequential_original orig cs (len orig) (len orig) []) as Hx.
    assert (take (Z.to_nat (len orig)) orig = orig) as Ht by (apply take_ge; unfold len; lia).
    rewrite Ht, !app_nil_r in Hx. change (len (A:=bytes) []) with 0 in Hx. pose proof (len_nonneg orig).
    apply Hx; by (done || lia). }
  destruct cmds as [|cmd rest]; [done|]. apply andb_true_iff in Hs as [Hrest Hs]. apply orb_true_iff in Hs as [Hs|Hs].
  { apply Hall; [|done|done]. simpl. by rewrite Hs. }
  bool_to_prop. match goal with H : op cmd = OpD |- _ => rename H into Ho end.
  match goal with H : endToEOF cmd = true |- _ => rename H into He end.
  cbn [reverse_order_from] in Hr. rewrite He, Ho, Z.ltb_irrefl in Hr. cbn [inserted foldr] in Hm.
  change (foldr _ 0 rest) with (inserted rest) in Hm. pose proof (len_nonneg (block cmd)). pose proof (len_nonneg orig).
  pose proof (inserted_nonneg rest).
  assert (applyEdCommand orig cmd = applyEdCommand orig (mkEd OpD (n1 cmd) 0 true [])) as Ha
    by (unfold applyEdCommand, apply_span; by rewrite He, Ho).
  cbn [apply_commands apply_original]. rewrite Ha, apply_cut by lia. cbn [result_bind].
  assert (len (take (Z.to_nat (n1 cmd - 1)) orig) = n1 cmd - 1) as Hl by (unfold len in *; rewrite length_take; lia).
  rewrite He, Ho, (proj2 (Z.ltb_ge _ _)) by lia. rewrite (drop_ge orig) by (unfold len; lia).
  pose proof (sequential_original orig rest (len orig) (n1 cmd - 1) []) as Hx. rewrite app_nil_r in Hx.
  change (len (A:=bytes) []) with 0 in Hx. apply Hx; by (done || lia).
Qed.

(** A later [N,$d] breaks that equivalence: after an append behind the last line,
    which the order check lets pass, it also deletes the appended lines. *)
Theorem append_then_truncate_diverges :
  let x := lit "x" in
  let y := lit "y" in
  let z := lit "z" in
  let cmds := [mkEd OpA 2 2 false [z]; mkEd OpD 2 0 true []] in
  checkEdReverseOrder cmds (len [x; y]) = true /\
  apply_commands [x; y] cmds = Ok [x] /\
  apply_original [x; y] cmds = [x; z].
Proof. vm_compute. split_and!; reflexivity. Qed.

(** ** A concrete pair of documents *)

Definition sample_old : bytes := unlines
  [lit "network-status-version 3"; lit "known-flags Exit"; lit "r alice AAAA x"; lit "s Running"; lit "r bob BBBB x";
   lit "s Exit"; lit "directory-footer"; lit "directory-signature old"].
Definition sample_new : bytes := unlines
  [lit "network-status-version 3"; lit "known-flags Guard"; lit "r alice AAAA x"; lit "s Running Guard"; lit "r carol CCCC x";
   lit "s Exit"; lit "directory-footer"; lit "directory-signature new"].

(** A toy digest of 32 bytes. *)
Definition sample_Sum256 (m : bytes) : bytes := be_put 32 (foldl (fun a b => a * 31 + b) 7 m).

Lemma sample_Sum256_spec m : length (sample_Sum256 m) = 32%nat /\ Forall is_byte (sample_Sum256 m).
Proof. split; [apply length_be_put | apply be_put_bytes]. Qed.

Lemma generated_diff_applies_witness :
  exists diff, GenerateConsensusDiff sample_Sum256 sample_old sample_new = Ok diff /\
    applyConsensusDiff sample_Sum256 (normalizeConsensusText sample_old) diff = Ok (normalizeConsensusText sample_new).
Proof.
  apply (generated_diff_applies sample_Sum256 sample_Sum256_spec sample_old sample_new);
    [vm_compute; reflexivity | vm_compute; reflexivity | vm_compute; reflexivity |].
  constructor; try (vm_compute; reflexivity).
  - vm_compute. discriminate.
  - vm_compute. discriminate.
  - apply (bool_decide_unpack _). vm_compute. exact I.
  - right. vm_compute. reflexivity.
Defined.

Definition sample_cmds : list edCommand :=
  [mkEd OpD 4 0 true []; mkEd OpC 2 3 false [lit "p"; lit "q"]; mkEd OpA 0 0 false [lit "first"]].

Lemma sequential_equals_original_witness :
  apply_commands [lit "a"; lit "b"; lit "c"; lit "d"] sample_cmds = Ok [lit "first"; lit "a"; lit "p"; lit "q"].
Proof.
  rewrite (sequential_equals_original [lit "a"; lit "b"; lit "c"; lit "d"] sample_cmds).
  - reflexivity.
  - reflexivity.
  - reflexivity.
  - vm_compute. discriminate.
Defined.

End ConsDiffText.
