(* ===== verification/Extend2.v ===== *)
(** * Extending a circuit (pkg/circuit/extension.go, pkg/relay/extension.go,
      pkg/relay/circuit_handler.go, pkg/onion/linkspec.go)

    The bodies of CREATE2, CREATED2, EXTEND2 and EXTENDED2 on both sides: what the
    client writes, what the relay reads, what it passes on, and the readers of
    link specifiers.  A [net.IP] is its bytes (4 or 16).  The target of an extension
    is given as address and port, the outcome of parsing its textual form; so is
    the address a relay connects to. *)

From S2P Require Import Prelude Conversion GoStrings GoNet.
Import GoStrings GoNet.

Module Extend2.

Definition HandshakeTypeNtorV3 : Z := 3.
Definition HandshakeTypeNTor : Z := 2.
Definition HandshakeTypeTAP : Z := 0.

(** The outcome of code that can index out of range. *)
Inductive outcome (E A : Type) : Type :=
| Done (a : A)
| Fail (e : E)
| Panic.
Arguments Done {E A} a.
Arguments Fail {E A} e.
Arguments Panic {E A}.

Inductive error :=
| errTarget | errNoRelay | errMissingKeys | errKeyLength | errZeroKeys | errNoEd | errPreviousHop
| errTooLarge (e : Conversion.error)
| errNoNspec | errTruncatedSpec (i : Z) | errTruncatedData (i : Z)
| errNoAddress | errNoIdentity | errHeader | errHandshakeData | errHandshakeType (t : Z)
| errTooShort | errIncomplete | errCommand (c : Z)
| errSpecLength (t l : Z).

(** ** The client *)

(** What the target relay offers; [None] where the value does not implement the
    interface. *)
Record Relay := mkRelay {
  ntorKeys : option (bool * bytes);           (* HasNtorKeys, GetNtorOnionKey *)
  RSAIdentityBytes : option bytes;
  GetIdentityKey : option bytes;
  extendIPv6 : option (bool * option (bytes * Z)); (* ShouldIncludeExtendIPv6, IPv6ORAddress *)
}.

Definition allZeroBytes (b : bytes) : bool := foldl Z.lor 0 b =? 0.

Definition getNtorV3Keys (relay : option Relay) : result error (bytes * bytes) :=
  match relay with
  | None => Err errNoRelay
  | Some r =>
      let? ntorKey := match ntorKeys r with
                      | Some (has, key) => if negb has then Err errMissingKeys else Ok key
                      | None => Ok []
                      end in
      let edID := default [] (GetIdentityKey r) in
      if negb (len edID =? 32) || negb (len ntorKey =? 32) then Err errKeyLength
      else if allZeroBytes edID || allZeroBytes ntorKey then Err errZeroKeys
      else Ok (edID, ntorKey)
  end.

Definition getRelayKeys (relay : option Relay) : result error (bytes * bytes) :=
  match relay with
  | None => Err errNoRelay
  | Some r =>
      let? ntorKey := match ntorKeys r with
                      | Some (has, key) => if negb has then Err errMissingKeys else Ok key
                      | None => Ok []
                      end in
      let nodeID := default [] (RSAIdentityBytes r) in
      if negb (len nodeID =? 20) || negb (len ntorKey =? 32) then Err errKeyLength
      else if allZeroBytes nodeID || allZeroBytes ntorKey then Err errZeroKeys
      else Ok (nodeID, ntorKey)
  end.

Definition getRelayIdentities (relay : option Relay) : result error (bytes * bytes) :=
  let? (rsaID, _) := getRelayKeys relay in
  let edID := match relay with Some r => default [] (GetIdentityKey r) | None => [] end in
  if negb (len edID =? 32) || allZeroBytes edID then Err errNoEd else Ok (rsaID, edID).

(** [fingerprints] are those of the circuit's hops. *)
Definition rejectExtendToPreviousHop (fingerprints : list bytes) (rsaID : bytes) : result error unit :=
  if existsb (fun f => let fp := ToUpper (TrimSpace f) in
                       negb (string_eqb fp []) && (len rsaID =? 20) && string_eqb fp (ToUpper (hex_encode rsaID)))
       fingerprints
  then Err errPreviousHop else Ok tt.

Definition encodeIPv4LinkSpec (ip : bytes) (port : Z) : bytes := [0; 6] ++ default [] (To4 ip) ++ PutUint16 port.
Definition encodeIPv6LinkSpec (ip : bytes) (port : Z) : bytes := [1; 18] ++ default [] (To16 ip) ++ PutUint16 port.

Definition extraIPv6LinkSpec (relay : option Relay) : option (bytes * Z) :=
  match relay ≫= extendIPv6 with
  | Some (true, Some (ip, port)) =>
      match To4 ip, To16 ip with
      | None, Some ip16 => if port =? 0 then None else Some (ip16, port)
      | _, _ => None
      end
  | _ => None
  end.

Definition buildExtend2Data (target : option (bytes * Z)) (relay : option Relay) (fingerprints : list bytes)
    (handshakeType : Z) (handshakeData : bytes) : result error bytes :=
  match target with
  | None => Err errTarget
  | Some (ip, port) =>
      let? (spec, haveIPv6) :=
        match To4 ip with
        | Some ipv4 => Ok (encodeIPv4LinkSpec ipv4 (u16 port), false)
        | None => match To16 ip with
                  | None => Err errTarget
                  | Some v6 => Ok (encodeIPv6LinkSpec v6 (u16 port), true)
                  end
        end in
      let? (rsaID, edID) := getRelayIdentities relay in
      let? _ := rejectExtendToPreviousHop fingerprints rsaID in
      let specs := [spec; [2; 20] ++ rsaID; [3; 32] ++ edID] in
      let specs := match extraIPv6LinkSpec relay with
                   | Some (extraIP, extraPort) =>
                       if negb haveIPv6 then specs ++ [encodeIPv6LinkSpec extraIP extraPort] else specs
                   | None => specs
                   end in
      let? hlen := match Conversion.SafeLenToUint16 handshakeData with
                   | Ok n => Ok n
                   | Err e => Err (errTooLarge e)
                   end in
      Ok ([Conversion.ByteLen (len specs)] ++ concat specs ++ PutUint16 (u16 handshakeType) ++ PutUint16 hlen ++ handshakeData)
  end.

(** The payload [CreateFirstHop] sends. *)
Definition create2_payload (handshakeType : Z) (handshakeData : bytes) : result error bytes :=
  match Conversion.SafeLenToUint16 handshakeData with
  | Ok hlen =>
      let payload := zeros (4 + length handshakeData) in
      let payload := copy_at payload 0 (PutUint16 (u16 handshakeType)) in
      let payload := copy_at payload 2 (PutUint16 hlen) in
      Ok (copy_at payload 4 handshakeData)
  | Err e => Err (errTooLarge e)
  end.

(** The handshake response in a CREATED2 or EXTENDED2 body, as [ProcessCreated2]
    and [ProcessExtended2] take it out: [2+hlen] is computed in 16 bits. *)
Definition handshake_response (payload : bytes) : outcome error bytes :=
  if len payload <? 2 then Fail errTooShort
  else
    let hlen := be_get (slice payload 0 2) in
    if len payload <? u16 (2 + hlen) then Fail errIncomplete
    else if u16 (2 + hlen) <? 2 then Panic
    else Done (slice payload 2 (Z.to_nat (u16 (2 + hlen)))).

(** ** The relay *)

Record LinkSpecifier := mkLS { Type_ : Z; Data : bytes }.

Fixpoint parse_specs (n : nat) (i : Z) (data : bytes) (offset : nat) (specs : list LinkSpecifier) :
    result error (list LinkSpecifier * nat) :=
  match n with
  | O => Ok (specs, offset)
  | S n =>
      if (length data <? offset + 2)%nat then Err (errTruncatedSpec i)
      else
        let lstype := at_ data offset in
        let lslen := Z.to_nat (at_ data (offset + 1)) in
        let offset := (offset + 2)%nat in
        if (length data <? offset + lslen)%nat then Err (errTruncatedData i)
        else parse_specs n (i + 1) data (offset + lslen) (specs ++ [mkLS lstype (slice data offset (offset + lslen))])
  end.

Definition parseLinkSpecifiers (data : bytes) : result error (list LinkSpecifier * nat) :=
  if len data <? 1 then Err errNoNspec else parse_specs (Z.to_nat (at_ data 0)) 0 data 1 [].

(** The address to connect to. *)
Inductive address := IPv4Addr (ip : bytes) (port : Z) | IPv6Addr (ip : bytes) (port : Z).

Definition extract_step (acc : option address * option address) (spec : LinkSpecifier) : option address * option address :=
  let '(v4, v6) := acc in
  if Type_ spec =? 0 then
    if negb (len (Data spec) =? 6) then acc
    else (Some (IPv4Addr (slice (Data spec) 0 4) (be_get (slice (Data spec) 4 6))), v6)
  else if Type_ spec =? 1 then
    if negb (len (Data spec) =? 18) then acc
    else (v4, Some (IPv6Addr (slice (Data spec) 0 16) (be_get (slice (Data spec) 16 18))))
  else acc.

Definition extractAddressFromLinkSpecs (specs : list LinkSpecifier) : result error address :=
  match foldl extract_step (None, None) specs with
  | (Some a, _) => Ok a
  | (None, Some a) => Ok a
  | (None, None) => Err errNoAddress
  end.

(** The RSA fingerprint is upper-case hexadecimal. *)
Record nextHopIdentity := mkIdent { rsaFingerprint : bytes; ed25519 : bytes }.

Definition hasIdentity (id : nextHopIdentity) : bool :=
  negb (string_eqb (rsaFingerprint id) []) || (len (ed25519 id) =? 32).

Definition matches (id want : nextHopIdentity) : bool :=
  if negb (string_eqb (rsaFingerprint want) []) && negb (string_eqb (rsaFingerprint id) (rsaFingerprint want)) then false
  else if (len (ed25519 want) =? 32) && negb (string_eqb (ed25519 id) (ed25519 want)) then false
  else true.

Definition identity_step (id : nextHopIdentity) (spec : LinkSpecifier) : nextHopIdentity :=
  if Type_ spec =? 2 then
    if len (Data spec) =? 20 then mkIdent (ToUpper (hex_encode (Data spec))) (ed25519 id) else id
  else if Type_ spec =? 3 then
    if len (Data spec) =? 32 then mkIdent (rsaFingerprint id) (Data spec) else id
  else id.

Definition identitiesFromLinkSpecs (specs : list LinkSpecifier) : nextHopIdentity :=
  foldl identity_step (mkIdent [] []) specs.

Record extend2_request := mkReq { r_address : address; r_ident : nextHopIdentity; r_htype : Z; r_hdata : bytes }.

(** [HandleExtend2] up to the connection to the next hop. *)
Definition parse_extend2 (data : bytes) : result error extend2_request :=
  let? (specs, offset) := parseLinkSpecifiers data in
  let? address := extractAddressFromLinkSpecs specs in
  let ident := identitiesFromLinkSpecs specs in
  if negb (hasIdentity ident) then Err errNoIdentity
  else if (length data <? offset + 4)%nat then Err errHeader
  else
    let htype := be_get (slice data offset (offset + 2)) in
    let hlen := be_get (slice data (offset + 2) (offset + 4)) in
    let offset := (offset + 4)%nat in
    if (length data <? offset + Z.to_nat hlen)%nat then Err errHandshakeData
    else
      let handshakeData := slice data offset (offset + Z.to_nat hlen) in
      if negb (htype =? 2) && negb (htype =? 3) then Err (errHandshakeType htype)
      else Ok (mkReq address ident htype handshakeData).

(** The CREATE2 payload for the next hop. *)
Definition sendCreate2_payload (htype : Z) (handshakeData : bytes) : option bytes :=
  if 0xffff <? len handshakeData then None
  else
    let payload := zeros (4 + length handshakeData) in
    let payload := copy_at payload 0 (PutUint16 htype) in
    let payload := copy_at payload 2 (PutUint16 (u16 (len handshakeData))) in
    Some (copy_at payload 4 handshakeData).

(** What [handleCreate2Auth] reads; [None]: DESTROY with reason PROTOCOL. *)
Definition parse_create2 (payload : bytes) : option (Z * bytes) :=
  if len payload <? 4 then None
  else
    let htype := Z.lor (Z.shiftl (at_ payload 0) 8) (at_ payload 1) in
    let hlen := Z.lor (Z.shiftl (at_ payload 2) 8) (at_ payload 3) in
    if len payload <? 4 + hlen then None
    else Some (htype, slice payload 4 (Z.to_nat (4 + hlen))).

(** CREATED2, as [sendCreated2] writes it. *)
Definition created2_payload (response : bytes) : option bytes :=
  if 0xFFFF <? len response then None
  else
    let hlen := u16 (len response) in
    let payload := zeros (2 + length response) in
    let payload := copy_at payload 0 [Z.shiftr hlen 8; Z.land hlen 255] in
    Some (copy_at payload 2 response).

(** The response in the next hop's CREATED2. *)
Definition relay_response (payload : bytes) : result error bytes :=
  if len payload <? 2 then Err errTooShort
  else
    let responseLen := be_get (slice payload 0 2) in
    if len payload <? 2 + responseLen then Err errIncomplete
    else Ok (slice payload 2 (Z.to_nat (u16 (2 + responseLen)))).

(** EXTENDED2 data, as [sendExtended2] writes it. *)
Definition extended2_data (handshakeResponse : bytes) : option bytes :=
  if 0xffff <? len handshakeResponse then None
  else
    let data := zeros (2 + length handshakeResponse) in
    let data := copy_at data 0 (PutUint16 (u16 (len handshakeResponse))) in
    Some (copy_at data 2 handshakeResponse).

(** ** The onion service side *)

Record ResolvedRelay := mkResolved {
  IPv4 : option bytes; IPv4Port : Z;
  IPv6 : option bytes; IPv6Port : Z;
  RSAIdentity : bytes; Ed25519ID : bytes;
}.

Definition resolve_step (out : ResolvedRelay) (lstype : Z) (payload : bytes) : result error ResolvedRelay :=
  let lslen := len payload in
  if lstype =? 0 then
    if negb (lslen =? 6) then Err (errSpecLength lstype lslen)
    else Ok (mkResolved (Some (slice payload 0 4)) (be_get (slice payload 4 6)) (IPv6 out) (IPv6Port out) (RSAIdentity out) (Ed25519ID out))
  else if lstype =? 1 then
    if negb (lslen =? 18) then Err (errSpecLength lstype lslen)
    else Ok (mkResolved (IPv4 out) (IPv4Port out) (Some (slice payload 0 16)) (be_get (slice payload 16 18)) (RSAIdentity out) (Ed25519ID out))
  else if lstype =? 2 then
    if negb (lslen =? 20) then Err (errSpecLength lstype lslen)
    else Ok (mkResolved (IPv4 out) (IPv4Port out) (IPv6 out) (IPv6Port out) payload (Ed25519ID out))
  else if lstype =? 3 then
    if negb (lslen =? 32) then Err (errSpecLength lstype lslen)
    else Ok (mkResolved (IPv4 out) (IPv4Port out) (IPv6 out) (IPv6Port out) (RSAIdentity out) payload)
  else Ok out.

Fixpoint resolve_specs (n : nat) (i : Z) (data : bytes) (offset : nat) (out : ResolvedRelay) : result error ResolvedRelay :=
  match n with
  | O => Ok out
  | S n =>
      if (length data <? offset + 2)%nat then Err (errTruncatedSpec i)
      else
        let lstype := at_ data offset in
        let lslen := Z.to_nat (at_ data (offset + 1)) in
        let offset := (offset + 2)%nat in
        if (length data <? offset + lslen)%nat then Err (errTruncatedData i)
        else
          let? out := resolve_step out lstype (slice data offset (offset + lslen)) in
          resolve_specs n (i + 1) data (offset + lslen) out
  end.

Definition ParseLinkSpecifierList (data : bytes) : result error ResolvedRelay :=
  if len data <? 1 then Err errNoNspec
  else resolve_specs (Z.to_nat (at_ data 0)) 0 data 1 (mkResolved None 0 None 0 [] []).

(** [ResolveFromIntroPoint] packs the specifiers of an introduction point again. *)
Definition pack_specs (specs : list LinkSpecifier) : bytes :=
  [Conversion.ByteLen (len specs)] ++
  flat_map (fun ls => [Type_ ls; Conversion.ByteLen (len (Data ls))] ++ Data ls) specs.

Definition ResolveFromIntroPoint (specs : list LinkSpecifier) : result error ResolvedRelay :=
  match specs with [] => Err errNoNspec | _ => ParseLinkSpecifierList (pack_specs specs) end.

(** ** The wire format of link specifiers *)

Definition spec_image (ls : LinkSpecifier) : bytes := [Type_ ls; len (Data ls)] ++ Data ls.
Definition specs_image (specs : list LinkSpecifier) : bytes := flat_map spec_image specs.

Definition small_spec (ls : LinkSpecifier) : Prop := len (Data ls) <= 255.

Lemma length_spec_image ls : length (spec_image ls) = (2 + length (Data ls))%nat.
Proof. done. Qed.

Lemma at_app_r (pre l : bytes) i n : n = length pre -> at_ (pre ++ l) (n + i) = at_ l i.
Proof. intros ->. unfold at_. rewrite lookup_app_r by lia. do 2 f_equal. lia. Qed.

Lemma slice_app_r {A} (pre l : list A) i j n : n = length pre -> slice (pre ++ l) (n + i) (n + j) = slice l i j.
Proof.
  intros ->. unfold slice. rewrite drop_app_ge by lia.
  replace (length pre + i - length pre)%nat with i by lia. f_equal. lia.
Qed.

(** One specifier at [offset]. *)
Lemma spec_at pre ls rest :
  small_spec ls ->
  at_ (pre ++ spec_image ls ++ rest) (length pre) = Type_ ls /\
  Z.to_nat (at_ (pre ++ spec_image ls ++ rest) (length pre + 1)) = length (Data ls) /\
  slice (pre ++ spec_image ls ++ rest) (length pre + 2) (length pre + 2 + length (Data ls)) = Data ls.
Proof.
  intros Hs. split_and!.
  - rewrite <- (Nat.add_0_r (length pre)). by rewrite at_app_r.
  - rewrite at_app_r by done. unfold at_. simpl. unfold len. lia.
  - rewrite <- Nat.add_assoc, slice_app_r by done. unfold slice.
    replace (2 + length (Data ls) - 2)%nat with (length (Data ls)) by lia. apply take_app_length.
Qed.

Lemma parse_specs_app specs i pre rest acc :
  Forall small_spec specs ->
  parse_specs (length specs) i (pre ++ specs_image specs ++ rest) (length pre) acc =
    Ok (acc ++ specs, length (pre ++ specs_image specs)).
Proof.
  intros Hs. revert i pre acc. induction Hs as [|ls specs Hls Hs IH]; intros i pre acc.
  - simpl. by rewrite !app_nil_r.
  - cbn [length parse_specs specs_image flat_map]. fold (specs_image specs). rewrite <- (app_assoc (spec_image ls)).
    destruct (spec_at pre ls (specs_image specs ++ rest) Hls) as (H1 & H2 & H3). rewrite H1, H2, H3.
    assert (length (pre ++ spec_image ls ++ specs_image specs ++ rest) >= length pre + 2 + length (Data ls))%nat as Hlen
      by (rewrite !length_app, length_spec_image; lia).
    rewrite !(proj2 (Nat.ltb_ge _ _)) by lia.
    rewrite (app_assoc pre (spec_image ls) (specs_image specs ++ rest)).
    replace (length pre + 2 + length (Data ls))%nat with (length (pre ++ spec_image ls)) by (rewrite length_app, length_spec_image; lia).
    rewrite IH. f_equal. f_equal; [rewrite <- app_assoc; by destruct ls|]. by rewrite app_assoc.
Qed.

Lemma parse_specs_inv n i data off acc specs' off' :
  Forall is_byte data -> (off <= length data)%nat -> parse_specs n i data off acc = Ok (specs', off') ->
  exists specs, specs' = acc ++ specs /\ length specs = n /\ (off <= off' <= length data)%nat /\
    slice data off off' = specs_image specs /\ Forall small_spec specs.
Proof.
  intros Hb. revert i off acc. induction n as [|n IH]; intros i off acc Ho; cbn [parse_specs].
  - intros [= <- <-]. exists []. rewrite app_nil_r. split_and!; try done. unfold slice. by rewrite Nat.sub_diag.
  - case_if; [done|]. case_if; [done|]. apply Nat.ltb_ge in E, E0. intros Hp.
    set (n0 := Z.to_nat (at_ data (off + 1))) in *.
    apply IH in Hp as (specs & -> & Hn & Hoff & Hsl & Hsm); [|lia].
    exists (mkLS (at_ data off) (slice data (off + 2) (off + 2 + n0)) :: specs).
    assert (is_byte (at_ data (off + 1))) as Hbyte.
    { unfold at_. destruct (lookup_lt_is_Some_2 data (off + 1) ltac:(lia)) as [x Hx]. rewrite Hx.
      by apply (Forall_lookup_1 _ _ _ _ Hb Hx). }
    assert (length (slice data (off + 2) (off + 2 + n0)) = n0) as Hls by (rewrite length_slice; lia).
    split_and!; [by rewrite <- app_assoc | simpl; lia | lia | lia | |].
    + cbn [specs_image flat_map]. fold (specs_image specs). rewrite <- Hsl. unfold spec_image. cbn [Type_ Data].
      unfold len. rewrite Hls. unfold n0 at 1. rewrite Z2Nat.id by (unfold is_byte in Hbyte; lia).
      assert (forall a b c, (a <= b <= c)%nat -> slice data a c = slice data a b ++ slice data b c) as Hsplit.
      { intros a b c Habc. unfold slice. rewrite <- (take_drop (b - a) (take (c - a) (drop a data))).
        rewrite take_take, skipn_firstn_comm, drop_drop. f_equal; [f_equal; lia|]. f_equal; [lia|f_equal; lia]. }
      rewrite (Hsplit off (off + 2) off')%nat, (Hsplit (off + 2) (off + 2 + n0) off')%nat, <- !app_assoc by lia.
      f_equal. unfold slice. replace (off + 2 - off)%nat with 2%nat by lia.
      destruct (lookup_lt_is_Some_2 data off ltac:(lia)) as [x Hx].
      destruct (lookup_lt_is_Some_2 data (off + 1) ltac:(lia)) as [y Hy].
      rewrite (drop_S data x off Hx), (drop_S data y (S off)) by (by rewrite <- Nat.add_1_r).
      unfold at_. by rewrite Hx, Hy.
    + constructor; [|done]. unfold small_spec, len. cbn [Data]. rewrite Hls. unfold n0, is_byte in *. lia.
Qed.

(** ** From the client to the next relay *)

(** The specifiers as the relay sees them. *)
Definition ip_spec (t : Z) (ip : bytes) (port : Z) : LinkSpecifier := mkLS t (ip ++ PutUint16 port).

Lemma ipv4_image v4 port : length v4 = 4%nat -> encodeIPv4LinkSpec v4 port = spec_image (ip_spec 0 v4 port).
Proof.
  intros Hl. unfold encodeIPv4LinkSpec, spec_image, ip_spec. cbn [Type_ Data]. rewrite To4_idem by done.
  unfold len. by rewrite length_app, Hl, length_PutUint16.
Qed.

Lemma ipv6_image v6 port : length v6 = 16%nat -> encodeIPv6LinkSpec v6 port = spec_image (ip_spec 1 v6 port).
Proof.
  intros Hl. unfold encodeIPv6LinkSpec, spec_image, ip_spec. cbn [Type_ Data]. rewrite To16_idem by done.
  unfold len. by rewrite length_app, Hl, length_PutUint16.
Qed.

Definition target_address (ip : bytes) (port : Z) : option address :=
  match To4 ip with
  | Some v4 => Some (IPv4Addr v4 port)
  | None => (fun v6 => IPv6Addr v6 port) <$> To16 ip
  end.

Lemma extract_v4 acc v4 port :
  length v4 = 4%nat -> is_u 16 port -> extract_step acc (ip_spec 0 v4 port) = (Some (IPv4Addr v4 port), acc.2).
Proof.
  intros Hl Hp. unfold extract_step, ip_spec. destruct acc. cbn [Type_ Data Z.eqb snd].
  rewrite len_app. unfold len. rewrite Hl, length_PutUint16. cbn [Z.add Z.eqb negb].
  change (Z.of_nat 4 + Z.of_nat 2 =? 6) with true. cbn [negb].
  rewrite slice_here by done. change (slice (v4 ++ PutUint16 port) 4 6) with (slice (v4 ++ PutUint16 port) (4 + 0) (4 + 2)).
  rewrite slice_app_r by done. rewrite slice_all by done. by rewrite get_PutUint16.
Qed.

Lemma extract_v6 acc v6 port :
  length v6 = 16%nat -> is_u 16 port -> extract_step acc (ip_spec 1 v6 port) = (acc.1, Some (IPv6Addr v6 port)).
Proof.
  intros Hl Hp. unfold extract_step, ip_spec. destruct acc. cbn [Type_ Data Z.eqb fst].
  rewrite len_app. unfold len. rewrite Hl, length_PutUint16.
  change (Z.of_nat 16 + Z.of_nat 2 =? 18) with true. cbn [negb].
  rewrite slice_here by done. change (slice (v6 ++ PutUint16 port) 16 18) with (slice (v6 ++ PutUint16 port) (16 + 0) (16 + 2)).
  rewrite slice_app_r by done. rewrite slice_all by done. by rewrite get_PutUint16.
Qed.

(** The client's specifiers: target, both identities, and perhaps a second address. *)
Lemma client_specs spec a rsa ed extra :
  (forall acc, extract_step acc spec = match a with IPv4Addr _ _ => (Some a, acc.2) | IPv6Addr _ _ => (acc.1, Some a) end) ->
  Type_ spec = 0 \/ Type_ spec = 1 ->
  length rsa = 20%nat -> length ed = 32%nat ->
  match extra with
  | None => True
  | Some (ip, port) => length ip = 16%nat /\ is_u 16 port /\ match a with IPv4Addr _ _ => True | IPv6Addr _ _ => False end
  end ->
  let specs := [spec; mkLS 2 rsa; mkLS 3 ed] ++ match extra with Some (ip, port) => [ip_spec 1 ip port] | None => [] end in
  extractAddressFromLinkSpecs specs = Ok a /\ identitiesFromLinkSpecs specs = mkIdent (ToUpper (hex_encode rsa)) ed.
Proof.
  intros Ha Ht Hr He Hx specs. subst specs. unfold extractAddressFromLinkSpecs, identitiesFromLinkSpecs.
  rewrite !foldl_app. cbn [foldl]. rewrite Ha.
  assert (forall acc i, i = 2 \/ i = 3 -> forall d, extract_step acc (mkLS i d) = acc) as Hid
    by (intros [] i [->| ->] d; done).
  rewrite !Hid by auto.
  assert (identity_step (mkIdent [] []) spec = mkIdent [] []) as -> by (unfold identity_step; by destruct Ht as [-> | ->]).
  unfold identity_step at 2 3. cbn [Type_ Data rsaFingerprint ed25519]. unfold len. rewrite Hr, He. cbn [Z.eqb Pos.eqb Pos.of_succ_nat Z.of_nat].
  split.
  - destruct extra as [[ip port]|]; [|by destruct a]. destruct Hx as (Hl & Hp & Hx). destruct a; [|done].
    cbn [foldl]. by rewrite extract_v6.
  - destruct extra as [[ip port]|]; [|done]. done.
Qed.

Lemma hex_nonempty b : b <> [] -> ToUpper (hex_encode b) <> [].
Proof. by destruct b. Qed.

(** Reading the header and the data of the handshake. *)
Lemma parse_extend2_image specs a ident htype hdata :
  Forall small_spec specs -> len specs <= 255 -> is_u 16 htype -> len hdata <= 65535 ->
  extractAddressFromLinkSpecs specs = Ok a -> identitiesFromLinkSpecs specs = ident -> hasIdentity ident = true ->
  htype = 2 \/ htype = 3 ->
  parse_extend2 ([len specs] ++ specs_image specs ++ PutUint16 htype ++ PutUint16 (len hdata) ++ hdata) =
    Ok (mkReq a ident htype hdata).
Proof.
  intros Hs Hn Hh Hd Ha Hi Hid Ht. unfold parse_extend2, parseLinkSpecifiers. pose proof (len_nonneg specs).
  set (rest := PutUint16 htype ++ PutUint16 (len hdata) ++ hdata).
  assert (len ([len specs] ++ specs_image specs ++ rest) <? 1 = false) as ->.
  { apply Z.ltb_ge. rewrite len_app. change (len [len specs]) with 1. pose proof (len_nonneg (specs_image specs ++ rest)). lia. }
  change (at_ ([len specs] ++ specs_image specs ++ rest) 0) with (len specs).
  replace (Z.to_nat (len specs)) with (length specs) by (unfold len; lia).
  change 1%nat with (length [len specs]) at 1. rewrite parse_specs_app by done. cbn [result_bind]. rewrite app_nil_l, Ha.
  cbn [result_bind]. rewrite Hi, Hid. cbn [negb]. rewrite app_assoc. set (pre := [len specs] ++ specs_image specs).
  assert (length rest = 4 + length hdata)%nat as Hr by (unfold rest; rewrite !length_app, !length_PutUint16; lia).
  rewrite length_app, Hr, (proj2 (Nat.ltb_ge _ _)) by lia.
  assert (slice (pre ++ rest) (length pre) (length pre + 2) = PutUint16 htype) as ->.
  { rewrite <- (Nat.add_0_r (length pre)) at 1. rewrite slice_app_r by done. unfold rest. by apply slice_here. }
  assert (slice (pre ++ rest) (length pre + 2) (length pre + 4) = PutUint16 (len hdata)) as ->.
  { rewrite slice_app_r by done. unfold rest. rewrite <- (Nat.add_0_r 2) at 1. change 4%nat with (2 + 2)%nat.
    rewrite slice_app_r by done. by apply slice_here. }
  pose proof (len_nonneg hdata). rewrite !get_PutUint16 by (try done; unfold is_u; lia).
  replace (Z.to_nat (len hdata)) with (length hdata) by (unfold len; lia).
  rewrite (proj2 (Nat.ltb_ge _ _)) by lia.
  assert (slice (pre ++ rest) (length pre + 4) (length pre + 4 + length hdata) = hdata) as ->.
  { rewrite <- Nat.add_assoc, slice_app_r by done. unfold rest. rewrite app_assoc.
    rewrite <- (Nat.add_0_r 4) at 1. rewrite slice_app_r by done. by apply slice_all. }
  by destruct Ht as [-> | ->].
Qed.

Lemma getRelayIdentities_ok relay rsa ed :
  getRelayIdentities relay = Ok (rsa, ed) -> length rsa = 20%nat /\ length ed = 32%nat.
Proof.
  unfold getRelayIdentities, getRelayKeys. destruct relay as [r|]; [|done].
  destruct (match ntorKeys r with Some _ => _ | None => _ end) as [key|]; [|done]. cbn [result_bind].
  case_if; [done|]. case_if; [done|]. cbn [result_bind]. case_if; [done|]. intros [= <- <-].
  apply orb_false_iff in E as [E%negb_false_iff _], E1 as [E1%negb_false_iff _]. bool_to_prop. unfold len in *. lia.
Qed.

Lemma extra_ok relay ip port :
  extraIPv6LinkSpec relay = Some (ip, port) -> length ip = 16%nat.
Proof.
  unfold extraIPv6LinkSpec. destruct (relay ≫= extendIPv6) as [[[] [[ip' port']|]]|]; try done.
  destruct (To4 ip'); [done|]. destruct (To16 ip') as [v6|] eqn:E; [|done]. case_if; [done|]. intros [= <- <-].
  by eapply To16_length.
Qed.

(** Everything an EXTEND2 body carries reaches the relay. *)
Lemma extend2_roundtrip ip port relay fps htype hdata data :
  buildExtend2Data (Some (ip, port)) relay fps htype hdata = Ok data ->
  is_u 16 port -> (forall xip xport, extraIPv6LinkSpec relay = Some (xip, xport) -> is_u 16 xport) ->
  htype = 2 \/ htype = 3 ->
  exists a rsa ed, target_address ip port = Some a /\ getRelayIdentities relay = Ok (rsa, ed) /\
    parse_extend2 data = Ok (mkReq a (mkIdent (ToUpper (hex_encode rsa)) ed) htype hdata).
Proof.
  intros Hb Hp Hx Ht. unfold buildExtend2Data in Hb. rewrite u16_id in Hb by done.
  assert (exists spec v6 a, (match To4 ip with
    | Some ipv4 => Ok (encodeIPv4LinkSpec ipv4 port, false)
    | None => match To16 ip with None => Err errTarget | Some v6 => Ok (encodeIPv6LinkSpec v6 port, true) end
    end) = @Ok error _ (spec_image spec, v6) /\ target_address ip port = Some a /\ small_spec spec /\
    (forall acc, extract_step acc spec = match a with IPv4Addr _ _ => (Some a, acc.2) | IPv6Addr _ _ => (acc.1, Some a) end) /\
    (Type_ spec = 0 \/ Type_ spec = 1) /\ (v6 = true <-> match a with IPv4Addr _ _ => False | IPv6Addr _ _ => True end))
    as (spec & v6 & a & Hspec & Ha & Hsm & Hext & Hty & Hv6).
  { unfold target_address. destruct (To4 ip) as [v4|] eqn:E4.
    - pose proof (To4_length _ _ E4) as L4. exists (ip_spec 0 v4 port), false, (IPv4Addr v4 port). rewrite ipv4_image by done.
      split_and!; [done | done | | | by left | done].
      + unfold small_spec, ip_spec, len. cbn [Data]. rewrite length_app, L4. rewrite length_PutUint16. lia.
      + intros acc. by rewrite extract_v4.
    - destruct (To16 ip) as [w|] eqn:E6; [|done]. pose proof (To16_length _ _ E6) as L6.
      exists (ip_spec 1 w port), true, (IPv6Addr w port). rewrite ipv6_image by done.
      split_and!; [done | done | | | by right | done].
      + unfold small_spec, ip_spec, len. cbn [Data]. rewrite length_app, L6. rewrite length_PutUint16. lia.
      + intros acc. by rewrite extract_v6. }
  rewrite Hspec in Hb. cbn [result_bind] in Hb.
  destruct (getRelayIdentities relay) as [[rsa ed]|] eqn:Hid; [|done]. cbn [result_bind] in Hb.
  destruct (getRelayIdentities_ok _ _ _ Hid) as [Lr Le].
  destruct (rejectExtendToPreviousHop fps rsa); [|done]. cbn [result_bind] in Hb.
  set (extra := if v6 then None else extraIPv6LinkSpec relay).
  set (specs := [spec; mkLS 2 rsa; mkLS 3 ed] ++ match extra with Some (xip, xport) => [ip_spec 1 xip xport] | None => [] end).
  assert (length specs = 3 \/ length specs = 4)%nat as Hn by (unfold specs; rewrite length_app; destruct extra as [[]|]; auto).
  assert (forall l1, l1 = [spec_image spec; [2; 20] ++ rsa; [3; 32] ++ ed] ->
    concat (match extraIPv6LinkSpec relay with
    | Some (extraIP, extraPort) => if negb v6 then l1 ++ [encodeIPv6LinkSpec extraIP extraPort] else l1
    | None => l1 end) = specs_image specs /\
    len (match extraIPv6LinkSpec relay with
    | Some (extraIP, extraPort) => if negb v6 then l1 ++ [encodeIPv6LinkSpec extraIP extraPort] else l1
    | None => l1 end) = len specs) as Hcat.
  { intros l1 ->. assert ([2; 20] ++ rsa = spec_image (mkLS 2 rsa) /\ [3; 32] ++ ed = spec_image (mkLS 3 ed)) as [-> ->]
      by (unfold spec_image, len; cbn [Type_ Data]; by rewrite Lr, Le).
    unfold specs, extra. destruct (extraIPv6LinkSpec relay) as [[xip xport]|] eqn:Ex; destruct v6; cbn [negb]; try done.
    rewrite (ipv6_image xip) by (by eapply extra_ok). done. }
  specialize (Hcat _ eq_refl) as [Hcat Hlen]. rewrite Hcat, Hlen in Hb.
  destruct (Conversion.SafeLenToUint16 hdata) as [hlen|] eqn:Eh; [|done]. cbn [result_bind] in Hb.
  match type of Hb with Ok ?X = Ok _ => assert (data = X) as -> by congruence end. clear Hb.
  assert (len hdata <= 65535) as Hd.
  { destruct (Z.le_gt_cases (len hdata) 65535); [done|]. by rewrite Conversion.SafeLenToUint16_large in Eh by (unfold MaxUint16; lia). }
  rewrite Conversion.SafeLenToUint16_small in Eh by done. injection Eh as <-.
  assert (is_u 16 htype) as Hu by (unfold is_u; destruct Ht; lia). rewrite (u16_id htype) by done.
  assert (Conversion.ByteLen (len specs) = len specs) as -> by (unfold len; by destruct Hn as [-> | ->]).
  exists a, rsa, ed. split_and!; [done|done|].
  destruct (client_specs spec a rsa ed extra Hext Hty Lr Le) as [E1 E2].
  { unfold extra. destruct v6; [done|]. destruct (extraIPv6LinkSpec relay) as [[xip xport]|] eqn:Ex; [|done].
    split_and!; [by eapply extra_ok | by eapply Hx |]. destruct a; [done|]. by discriminate (proj2 Hv6 I). }
  apply parse_extend2_image; try done.
  - unfold specs. repeat constructor; [done | unfold small_spec, len; simpl; lia | unfold small_spec, len; simpl; lia |].
    destruct extra as [[xip xport]|] eqn:Ee; [|done]. constructor; [|done]. unfold small_spec, ip_spec, len. cbn [Data].
    assert (length xip = 16%nat) as Lx.
    { unfold extra in Ee. destruct v6; [done|]. by eapply extra_ok. }
    rewrite length_app, Lx, length_PutUint16. lia.
  - unfold len. lia.
  - unfold hasIdentity. cbn [rsaFingerprint ed25519]. rewrite string_eqb_false; [done|]. apply hex_nonempty. by destruct rsa.
Qed.

(** Length-prefixed bodies. *)
Lemma copy_head (h d : bytes) n :
  length h = n -> copy_at (copy_at (zeros (n + length d)) 0 h) n d = h ++ d.
Proof.
  intros Hn. rewrite (zeros_app_nil (n + length d)). rewrite copy_at_zeros by (simpl; lia).
  rewrite app_nil_l, copy_at_zeros by lia. rewrite Hn. replace (n + length d - n - length d)%nat with 0%nat by lia.
  by rewrite app_nil_r.
Qed.

Lemma create2_image htype hdata :
  len hdata <= 65535 ->
  sendCreate2_payload htype hdata = Some (PutUint16 htype ++ PutUint16 (len hdata) ++ hdata).
Proof.
  intros Hd. unfold sendCreate2_payload. rewrite (proj2 (Z.ltb_ge _ _)) by lia. pose proof (len_nonneg hdata).
  rewrite u16_id by (unfold is_u; lia). f_equal. rewrite (zeros_app_nil (4 + length hdata)).
  rewrite copy_at_zeros by (rewrite ?length_PutUint16; simpl; lia). rewrite app_nil_l.
  rewrite copy_at_zeros by (rewrite ?length_PutUint16; simpl; lia). rewrite app_assoc.
  rewrite copy_at_zeros by (rewrite ?length_app, ?length_PutUint16; simpl; lia). rewrite !length_PutUint16.
  replace (4 + length hdata - 2 - 2 - length hdata)%nat with 0%nat by lia. by rewrite app_nil_r, <- app_assoc.
Qed.

Lemma lor_bytes v : is_u 16 v -> Z.lor (Z.shiftl (at_ (PutUint16 v) 0) 8) (at_ (PutUint16 v) 1) = v.
Proof.
  intros Hv. assert (exists a b, PutUint16 v = [a; b] /\ is_byte b) as (a & b & Hab & Hb).
  { pose proof (length_PutUint16 v) as Hl. pose proof (PutUint16_bytes v) as Hf.
    destruct (PutUint16 v) as [|a [|b [|c l]]]; try done. apply Forall_cons in Hf as [_ Hf]. apply Forall_cons in Hf as [Hf _]. by eauto. }
  pose proof (get_PutUint16 v Hv) as Hg. pose proof (PutUint16_bytes v) as Hf. rewrite Hab in *.
  change (at_ [a; b] 0) with a. change (at_ [a; b] 1) with b. rewrite lor_shift_byte by done.
  apply Forall_cons in Hf as [Hf0 Hf1]. rewrite be_get_cons in Hg by done. rewrite be_get_single in Hg by done.
  change (2 ^ (8 * len [b])) with 256 in Hg. lia.
Qed.

Lemma parse_create2_image htype hdata pad :
  is_u 16 htype -> len hdata <= 65535 ->
  parse_create2 ((PutUint16 htype ++ PutUint16 (len hdata) ++ hdata) ++ pad) = Some (htype, hdata).
Proof.
  intros Hh Hd. pose proof (len_nonneg hdata). pose proof (len_nonneg pad).
  assert (forall v w (r : bytes), at_ (PutUint16 v ++ PutUint16 w ++ r) 0 = at_ (PutUint16 v) 0 /\
    at_ (PutUint16 v ++ PutUint16 w ++ r) 1 = at_ (PutUint16 v) 1 /\
    at_ (PutUint16 v ++ PutUint16 w ++ r) 2 = at_ (PutUint16 w) 0 /\
    at_ (PutUint16 v ++ PutUint16 w ++ r) 3 = at_ (PutUint16 w) 1) as Hat by (intros; done).
  rewrite <- !app_assoc. destruct (Hat htype (len hdata) (hdata ++ pad)) as (A0 & A1 & A2 & A3).
  unfold parse_create2. rewrite A0, A1, A2, A3, !lor_bytes by (try done; unfold is_u; lia).
  assert (len (PutUint16 htype ++ PutUint16 (len hdata) ++ hdata ++ pad) = 4 + len hdata + len pad) as ->.
  { rewrite !len_app. unfold len at 1 2. rewrite !length_PutUint16. lia. }
  rewrite !(proj2 (Z.ltb_ge _ _)) by lia. do 2 f_equal.
  replace (Z.to_nat (4 + len hdata)) with (4 + length hdata)%nat by (unfold len; lia).
  rewrite app_assoc. rewrite <- (Nat.add_0_r 4) at 1. rewrite slice_app_r by done. by apply slice_here.
Qed.

Lemma slice_response (resp pad : bytes) :
  slice ((PutUint16 (len resp) ++ resp) ++ pad) 2 (2 + length resp) = resp.
Proof. rewrite <- app_assoc. rewrite <- (Nat.add_0_r 2) at 1. rewrite slice_app_r by done. by apply slice_here. Qed.

Lemma response_header (resp pad : bytes) :
  len resp <= 65533 -> be_get (slice ((PutUint16 (len resp) ++ resp) ++ pad) 0 2) = len resp.
Proof.
  intros Hr. pose proof (len_nonneg resp). rewrite <- app_assoc, slice_here by done. apply get_PutUint16. unfold is_u; lia.
Qed.

Lemma created2_image resp :
  len resp <= 65533 -> created2_payload resp = Some (PutUint16 (len resp) ++ resp).
Proof.
  intros Hr. pose proof (len_nonneg resp). unfold created2_payload. rewrite (proj2 (Z.ltb_ge _ _)) by lia.
  rewrite u16_id by (unfold is_u; lia). f_equal.
  assert ([Z.shiftr (len resp) 8; Z.land (len resp) 255] = PutUint16 (len resp)) as ->.
  { unfold PutUint16, be_put. simpl. f_equal. rewrite land_255, Z.mod_small; [done|].
    rewrite Z.shiftr_div_pow2 by lia. change (2 ^ 8) with 256. Z.div_mod_to_equations; lia. }
  by apply copy_head.
Qed.

Lemma extended2_image resp :
  len resp <= 65533 -> extended2_data resp = Some (PutUint16 (len resp) ++ resp).
Proof.
  intros Hr. pose proof (len_nonneg resp). unfold extended2_data. rewrite (proj2 (Z.ltb_ge _ _)) by lia.
  rewrite u16_id by (unfold is_u; lia). f_equal. by apply copy_head.
Qed.

Lemma len_response (resp pad : bytes) : len ((PutUint16 (len resp) ++ resp) ++ pad) = 2 + len resp + len pad.
Proof. rewrite !len_app. unfold len at 1. rewrite length_PutUint16. lia. Qed.

Lemma relay_response_image resp pad :
  len resp <= 65533 -> relay_response ((PutUint16 (len resp) ++ resp) ++ pad) = Ok resp.
Proof.
  intros Hr. pose proof (len_nonneg resp). pose proof (len_nonneg pad). unfold relay_response.
  rewrite response_header, len_response by done. rewrite !(proj2 (Z.ltb_ge _ _)) by lia.
  rewrite u16_id by (unfold is_u; lia). replace (Z.to_nat (2 + len resp)) with (2 + length resp)%nat by (unfold len; lia).
  by rewrite slice_response.
Qed.

Lemma handshake_response_image resp pad :
  len resp <= 65533 -> handshake_response ((PutUint16 (len resp) ++ resp) ++ pad) = Done resp.
Proof.
  intros Hr. pose proof (len_nonneg resp). pose proof (len_nonneg pad). unfold handshake_response.
  rewrite response_header, len_response by done. rewrite u16_id by (unfold is_u; lia).
  rewrite !(proj2 (Z.ltb_ge _ _)) by lia. replace (Z.to_nat (2 + len resp)) with (2 + length resp)%nat by (unfold len; lia).
  by rewrite slice_response.
Qed.

(** ** Properties *)

(** The relay's reader of link specifiers is exact: it accepts a byte string just
    when it starts with a count and that many complete specifiers, returns those
    and stops right behind them. *)
Theorem link_specifiers_exact data specs off :
  Forall is_byte data ->
  (parseLinkSpecifiers data = Ok (specs, off) <->
   (exists rest, data = [len specs] ++ specs_image specs ++ rest) /\
   off = length ([len specs] ++ specs_image specs) /\ Forall small_spec specs).
Proof.
  intros Hb. unfold parseLinkSpecifiers. split.
  - case_if; [done|]. bool_to_prop. destruct data as [|n data]; [done|]. intros Hp.
    change (at_ (n :: data) 0) with n in Hp.
    apply parse_specs_inv in Hp as (specs0 & Hx & Hn & Hoff & Hsl & Hsm); [|done|simpl; lia].
    simpl in Hx. subst specs0. apply Forall_cons in Hb as [Hbn _]. unfold is_byte in Hbn.
    assert (len specs = n) as Hls by (unfold len; lia). rewrite Hls.
    assert (off = length ([n] ++ specs_image specs)) as Ho.
    { apply (f_equal length) in Hsl. rewrite length_slice in Hsl by lia. rewrite length_app, <- Hsl. simpl length. lia. }
    split_and!; [|done|done]. exists (drop off (n :: data)). rewrite <- Hsl.
    rewrite app_assoc. change ([n] ++ slice (n :: data) 1 off) with (n :: slice (n :: data) 1 off).
    destruct off as [|off]; [simpl in Ho; lia|]. unfold slice. cbn [drop Nat.sub]. rewrite Nat.sub_0_r. simpl app.
    f_equal. by rewrite take_drop.
  - intros ([rest ->] & -> & Hs). assert (is_byte (len specs)) as Hbn by by apply Forall_cons in Hb as [? _].
    case_if; [bool_to_prop; rewrite !len_app in *; pose proof (len_nonneg (specs_image specs)); pose proof (len_nonneg rest);
      change (len [len specs]) with 1 in *; lia|].
    change (at_ ([len specs] ++ specs_image specs ++ rest) 0) with (len specs).
    replace (Z.to_nat (len specs)) with (length specs) by (unfold len; lia).
    change 1%nat with (length [len specs]) at 1. by rewrite parse_specs_app.
Qed.

(** The client's reader of CREATED2 and EXTENDED2 bodies computes [2+hlen] in 16
    bits.  Up to a length field of 65533 it returns the response or an error; with
    65534 or 65535 the bound wraps to 0 or 1, the length check passes and the
    slice expression panics, whatever the rest of the body. *)
Theorem created2_length_wraps payload :
  Forall is_byte payload ->
  handshake_response payload =
    if len payload <? 2 then Fail errTooShort
    else
      let hlen := be_get (slice payload 0 2) in
      if 65534 <=? hlen then Panic
      else if len payload <? 2 + hlen then Fail errIncomplete
      else Done (slice payload 2 (Z.to_nat (2 + hlen))).
Proof.
  intros Hb. unfold handshake_response. case_if; [done|]. bool_to_prop. cbv zeta.
  assert (0 <= be_get (slice payload 0 2) < 65536) as Hr.
  { assert (Forall is_byte (slice payload 0 2)) as Hs by by apply Forall_take, Forall_drop.
    pose proof (be_get_range _ Hs) as Hx. unfold len in Hx. rewrite length_slice in Hx by (unfold len in *; lia). simpl in Hx. lia. }
  set (hlen := be_get _) in *. unfold u16. change (2 ^ 16) with 65536. destruct (Z.leb_spec 65534 hlen) as [Hw|Hw].
  - assert ((2 + hlen) mod 65536 = hlen - 65534) as -> by (symmetry; apply Z.mod_unique_pos with 1; lia).
    rewrite (proj2 (Z.ltb_ge _ _)), (proj2 (Z.ltb_lt _ _)) by lia. done.
  - rewrite Z.mod_small by lia. case_if; [done|]. by rewrite (proj2 (Z.ltb_ge _ _)) by lia.
Qed.

Lemma created2_length_wraps_witness :
  handshake_response ([0xFF; 0xFE] ++ repeat 7 64) = Panic.
Proof.
  rewrite created2_length_wraps; [reflexivity|]. apply (bool_decide_unpack _). vm_compute. exact I.
Defined.

Lemma link_specifiers_exact_witness :
  parseLinkSpecifiers [2; 0; 6; 127; 0; 0; 1; 1; 187; 9; 1; 42; 0; 2] =
    Ok ([mkLS 0 [127; 0; 0; 1; 1; 187]; mkLS 9 [42]], 12%nat).
Proof.
  apply (link_specifiers_exact [2; 0; 6; 127; 0; 0; 1; 1; 187; 9; 1; 42; 0; 2]
    [mkLS 0 [127; 0; 0; 1; 1; 187]; mkLS 9 [42]] 12).
  - apply (bool_decide_unpack _). vm_compute. exact I.
  - split_and!; [exists [0; 2]; reflexivity | reflexivity |]. repeat constructor; unfold small_spec; vm_compute; discriminate.
Defined.

(** C30: Extending a circuit transports the handshake.  From the EXTEND2 body the
    client builds, the relay reads the address of the target (IPv4 if there is
    one), exactly its identities, the handshake type and data; what it sends on as
    CREATE2, padded to a full cell, the next relay reads unchanged; and the
    response goes back through CREATED2 and EXTENDED2 to the client unchanged. *)
Theorem extension_transports_handshake ip port relay fps htype hdata data :
  buildExtend2Data (Some (ip, port)) relay fps htype hdata = Ok data ->
  is_u 16 port -> (forall xip xport, extraIPv6LinkSpec relay = Some (xip, xport) -> is_u 16 xport) ->
  htype = 2 \/ htype = 3 ->
  (exists a rsa ed, target_address ip port = Some a /\ getRelayIdentities relay = Ok (rsa, ed) /\
     parse_extend2 data = Ok (mkReq a (mkIdent (ToUpper (hex_encode rsa)) ed) htype hdata)) /\
  (exists create2, sendCreate2_payload htype hdata = Some create2 /\
     forall pad, parse_create2 (create2 ++ pad) = Some (htype, hdata)) /\
  (forall response, len response <= 65533 ->
     exists created2 extended2, created2_payload response = Some created2 /\
       (forall pad, relay_response (created2 ++ pad) = Ok response) /\
       extended2_data response = Some extended2 /\
       (forall pad, handshake_response (extended2 ++ pad) = Done response)).
Proof.
  intros Hb Hp Hx Ht. destruct (extend2_roundtrip _ _ _ _ _ _ _ Hb Hp Hx Ht) as (a & rsa & ed & H1 & H2 & H3).
  assert (len hdata <= 65535) as Hd.
  { destruct (Z.le_gt_cases (len hdata) 65535) as [|Hgt]; [done|]. exfalso. unfold buildExtend2Data in Hb.
    rewrite (Conversion.SafeLenToUint16_large hdata) in Hb by (unfold MaxUint16; lia).
    destruct (match To4 ip with Some _ => _ | None => _ end) as [[]|]; [|done]. cbn [result_bind] in Hb. rewrite H2 in Hb.
    cbn [result_bind] in Hb. by destruct (rejectExtendToPreviousHop fps rsa). }
  split_and!; [by eauto 10 | |].
  - eexists. split; [by apply create2_image|]. intros pad. apply parse_create2_image; [unfold is_u; destruct Ht; lia|done].
  - intros response Hr. exists (PutUint16 (len response) ++ response), (PutUint16 (len response) ++ response).
    split_and!; [by apply created2_image | | by apply extended2_image |]; intros pad;
      [by apply relay_response_image | by apply handshake_response_image].
Qed.

Definition sample_relay : Relay :=
  mkRelay (Some (true, repeat 9 32)) (Some (repeat 5 20)) (Some (repeat 6 32)) (Some (true, Some (repeat 0x20 16, 443))).

Lemma extension_transports_handshake_witness :
  exists data, buildExtend2Data (Some ([10; 1; 2; 3], 9001)) (Some sample_relay) [lit "AB"] 3 [1; 2; 3] = Ok data /\
    parse_extend2 data = Ok (mkReq (IPv4Addr [10; 1; 2; 3] 9001)
      (mkIdent (ToUpper (hex_encode (repeat 5 20))) (repeat 6 32)) 3 [1; 2; 3]).
Proof.
  assert (exists data, buildExtend2Data (Some ([10; 1; 2; 3], 9001)) (Some sample_relay) [lit "AB"] 3 [1; 2; 3] = Ok data)
    as [data Hd] by (eexists; vm_compute; reflexivity).
  exists data. split; [exact Hd|].
  destruct (extension_transports_handshake [10; 1; 2; 3] 9001 (Some sample_relay) [lit "AB"] 3 [1; 2; 3] data Hd)
    as [(a & rsa & ed & H1 & H2 & H3) _].
  - unfold is_u. lia.
  - intros xip xport Hx. assert (xport = 443) as -> by (change (Some (repeat 0x20 16, 443) = Some (xip, xport)) in Hx; congruence).
    unfold is_u. lia.
  - by right.
  - rewrite H3. change (Some (IPv4Addr [10; 1; 2; 3] 9001) = Some a) in H1.
    change (@Ok error _ (repeat 5 20, repeat 6 32) = Ok (rsa, ed)) in H2. congruence.
Defined.

End Extend2.
