(* ===== verification/Ntor.v ===== *)
(** * The ntor handshake (pkg/crypto/ntor.go, ntor_server.go)

    The client's and the relay's side of the classic handshake of CREATE2.
    Curve25519, HMAC and HKDF are library code: the classes [Curve] and
    [NtorHash], with the laws used in [CurveLaws] and [NtorHashLaws].  A random
    key is the argument [draw] ([None]: the random source fails). *)

From Stdlib Require Import String.
From S2P Require Import Prelude Conversion GoStrings.
Import GoStrings.

Module Ntor.

(** ** Library operations *)

Class Curve := {
  ScalarMult : bytes -> bytes -> bytes;
  ScalarBaseMult : bytes -> bytes;
}.

(** Keys and points have 32 bytes; both ends of an exchange get the same secret. *)
Class CurveLaws `{Curve} := {
  mult_length x p : length x = 32%nat -> length p = 32%nat -> length (ScalarMult x p) = 32%nat;
  base_length x : length x = 32%nat -> length (ScalarBaseMult x) = 32%nat;
  exchange x y : length x = 32%nat -> length y = 32%nat ->
    ScalarMult x (ScalarBaseMult y) = ScalarMult y (ScalarBaseMult x);
}.

(** [hkdf ikm salt info n] is what reading [n] bytes yields; the reader has 255
    blocks of 32 bytes (RFC 5869). *)
Class NtorHash := {
  hmac_sha256 : bytes -> bytes -> bytes;
  hkdf_sha256 : bytes -> bytes -> bytes -> nat -> option bytes;
}.
Class NtorHashLaws `{NtorHash} := {
  hmac_length k m : length (hmac_sha256 k m) = 32%nat;
  hkdf_length s t i n out : hkdf_sha256 s t i n = Some out -> length out = n;
  hkdf_yields s t i n : (n <= 255 * 32)%nat -> is_Some (hkdf_sha256 s t i n);
}.

Definition isAllZero (b : bytes) : bool := foldl Z.lor 0 b =? 0.

Record NtorKeyPair := mkKeyPair { Private : bytes; Public : bytes }.

Inductive error :=
| errNodeIDLen (n : Z) | errOnionKeyLen (n : Z) | errZeroNodeID | errZeroOnionKey
| errRandom | errResponseLen (n : Z) | errPrivateLen (n : Z) | errIdentityPoint | errSharedZero
| errAuth | errExpand | errExpandedLen (n : Z)
| errHandshakeLen (n : Z) | errNodeID | errKeyID.

Definition ntorProtoID : bytes := lit "ntor-curve25519-sha256-1".
Definition ntorTMac : bytes := ntorProtoID ++ lit ":mac".
Definition ntorTKey : bytes := ntorProtoID ++ lit ":key_extract".
Definition ntorTVerify : bytes := ntorProtoID ++ lit ":verify".
Definition ntorMExpand : bytes := ntorProtoID ++ lit ":key_expand".
Definition ntorServerStr : bytes := lit "Server".
Definition NtorNodeIDLen : Z := 20.
Definition NtorOnionKeyLen : Z := 32.
Definition NtorHandshakeLen : Z := 84.
Definition NtorResponseLen : Z := 64.
Definition NtorKeyMaterialLen : nat := 72.
Definition NtorCircNonceLen : nat := 20.
Definition NtorExpandedLen : nat := NtorKeyMaterialLen + NtorCircNonceLen.

Section Ntor.
Context `{Curve} `{NtorHash}.

Definition GenerateNtorKeyPair (draw : option bytes) : result error NtorKeyPair :=
  match draw with None => Err errRandom | Some k => Ok (mkKeyPair k (ScalarBaseMult k)) end.

Definition ntorHMAC (key msg : bytes) : bytes := hmac_sha256 key msg.

Definition ntorExpandKeyMaterial (secretInput : bytes) : result error bytes :=
  match hkdf_sha256 secretInput ntorTKey ntorMExpand NtorExpandedLen with None => Err errExpand | Some out => Ok out end.

Definition SplitNtorExpanded (expanded : bytes) : result error (bytes * bytes) :=
  if (length expanded <? NtorExpandedLen)%nat then Err (errExpandedLen (len expanded))
  else Ok (slice expanded 0 NtorKeyMaterialLen, slice expanded NtorKeyMaterialLen NtorExpandedLen).

Definition ntorBuildSecretInput (sharedXY sharedXB nodeID serverB clientX serverY : bytes) : bytes :=
  sharedXY ++ sharedXB ++ nodeID ++ serverB ++ clientX ++ serverY ++ ntorProtoID.

(** What [ntorComputeAuth] hashes. *)
Definition auth_input (verify nodeID serverB serverY clientX : bytes) : bytes :=
  verify ++ nodeID ++ serverB ++ serverY ++ clientX ++ ntorProtoID ++ ntorServerStr.

Definition ntorComputeAuth (verify nodeID serverB serverY clientX : bytes) : bytes :=
  ntorHMAC ntorTMac (auth_input verify nodeID serverB serverY clientX).

Definition ntorDerive (secretInput : bytes) : bytes * bytes := (ntorHMAC ntorTKey secretInput, ntorHMAC ntorTVerify secretInput).

(** ** The client *)

(** The handshake data and the private key to keep. *)
Definition NtorClientHandshake (draw : option bytes) (nodeID ntorOnionKey : bytes) : result error (bytes * bytes) :=
  if negb (len nodeID =? NtorNodeIDLen) then Err (errNodeIDLen (len nodeID))
  else if negb (len ntorOnionKey =? NtorOnionKeyLen) then Err (errOnionKeyLen (len ntorOnionKey))
  else if isAllZero nodeID then Err errZeroNodeID
  else if isAllZero ntorOnionKey then Err errZeroOnionKey
  else
    let? ephemeral := GenerateNtorKeyPair draw in
    Ok (nodeID ++ ntorOnionKey ++ Public ephemeral, Private ephemeral).

Definition NtorProcessResponseWithNonce (response clientPrivate serverNtorKey serverNodeID : bytes) :
    result error (bytes * bytes) :=
  if negb (len response =? NtorResponseLen) then Err (errResponseLen (len response))
  else if negb (len clientPrivate =? 32) then Err (errPrivateLen (len clientPrivate))
  else if negb (len serverNtorKey =? NtorOnionKeyLen) then Err (errOnionKeyLen (len serverNtorKey))
  else if negb (len serverNodeID =? NtorNodeIDLen) then Err (errNodeIDLen (len serverNodeID))
  else
    let serverY := slice response 0 32 in
    let auth := slice response 32 64 in
    if isAllZero serverY then Err errIdentityPoint
    else
      let sharedXY := ScalarMult clientPrivate serverY in
      let sharedXB := ScalarMult clientPrivate serverNtorKey in
      if isAllZero sharedXY || isAllZero sharedXB then Err errSharedZero
      else
        let clientPub := ScalarBaseMult clientPrivate in
        let secretInput := ntorBuildSecretInput sharedXY sharedXB serverNodeID serverNtorKey clientPub serverY in
        let verify := (ntorDerive secretInput).2 in
        let expectedAuth := ntorComputeAuth verify serverNodeID serverNtorKey serverY clientPub in
        if negb (Conversion.ConstantTimeCompare auth expectedAuth) then Err errAuth
        else
          let? expanded := ntorExpandKeyMaterial secretInput in
          SplitNtorExpanded expanded.

Definition NtorProcessResponse (response clientPrivate serverNtorKey serverNodeID : bytes) : result error bytes :=
  let? (km, _) := NtorProcessResponseWithNonce response clientPrivate serverNtorKey serverNodeID in Ok km.

(** ** The relay *)

(** The response and the expanded key material; [ephemeralPrivate] is [None]
    outside of tests. *)
Definition ntorServerHandshakeCore (draw : option bytes) (clientHandshake serverNtorPrivate serverNodeID : bytes)
    (ephemeralPrivate : option bytes) : result error (bytes * bytes) :=
  if negb (len clientHandshake =? NtorHandshakeLen) then Err (errHandshakeLen (len clientHandshake))
  else if negb (len serverNtorPrivate =? 32) then Err (errOnionKeyLen (len serverNtorPrivate))
  else if negb (len serverNodeID =? NtorNodeIDLen) then Err (errNodeIDLen (len serverNodeID))
  else
    let clientNodeID := slice clientHandshake 0 20 in
    let clientKeyID := slice clientHandshake 20 52 in
    let clientPK := slice clientHandshake 52 84 in
    if negb (Conversion.ConstantTimeCompare clientNodeID serverNodeID) then Err errNodeID
    else
      let serverPublic := ScalarBaseMult serverNtorPrivate in
      if negb (Conversion.ConstantTimeCompare clientKeyID serverPublic) then Err errKeyID
      else
        let? serverEphemeral :=
          match ephemeralPrivate with
          | Some k => if negb (len k =? 32) then Err (errPrivateLen (len k)) else Ok (mkKeyPair k (ScalarBaseMult k))
          | None => GenerateNtorKeyPair draw
          end in
        let sharedXY := ScalarMult (Private serverEphemeral) clientPK in
        let sharedXB := ScalarMult serverNtorPrivate clientPK in
        if isAllZero sharedXY || isAllZero sharedXB then Err errSharedZero
        else
          let secretInput := ntorBuildSecretInput sharedXY sharedXB serverNodeID serverPublic clientPK (Public serverEphemeral) in
          let verify := (ntorDerive secretInput).2 in
          let auth := ntorComputeAuth verify serverNodeID serverPublic (Public serverEphemeral) clientPK in
          let? keyMaterial := ntorExpandKeyMaterial secretInput in
          Ok (Public serverEphemeral ++ auth, keyMaterial).

Definition truncateNtorKeyMaterial (expanded : bytes) : bytes :=
  if (NtorKeyMaterialLen <? length expanded)%nat then slice expanded 0 NtorKeyMaterialLen else expanded.

Definition NtorServerHandshake (draw : option bytes) (clientHandshake serverNtorPrivate serverNodeID : bytes) :
    result error (bytes * bytes) :=
  let? (resp, expanded) := ntorServerHandshakeCore draw clientHandshake serverNtorPrivate serverNodeID None in
  Ok (resp, truncateNtorKeyMaterial expanded).

Definition NtorServerHandshakeWithNonce (draw : option bytes) (clientHandshake serverNtorPrivate serverNodeID : bytes) :
    result error (bytes * bytes * bytes) :=
  let? (resp, expanded) := ntorServerHandshakeCore draw clientHandshake serverNtorPrivate serverNodeID None in
  let? (km, cn) := SplitNtorExpanded expanded in
  Ok (resp, km, cn).

(** ** Lemmas *)

Lemma expand_ok `{!NtorHashLaws} s : exists km nonce,
  ntorExpandKeyMaterial s = Ok (km ++ nonce) /\ length km = 72%nat /\ length nonce = 20%nat.
Proof.
  unfold ntorExpandKeyMaterial. destruct (hkdf_yields s ntorTKey ntorMExpand NtorExpandedLen) as [out Hout]; [vm_compute; lia|].
  pose proof (hkdf_length _ _ _ _ _ Hout) as Hl. rewrite Hout. unfold NtorExpandedLen, NtorKeyMaterialLen, NtorCircNonceLen in Hl.
  exists (take 72 out), (drop 72 out). rewrite take_drop, length_take, length_drop. split_and!; [done|lia|lia].
Qed.

Lemma split_expanded km nonce : length km = 72%nat -> length nonce = 20%nat -> SplitNtorExpanded (km ++ nonce) = Ok (km, nonce).
Proof.
  intros Hk Hn. unfold SplitNtorExpanded, NtorExpandedLen, NtorKeyMaterialLen, NtorCircNonceLen, slice.
  rewrite length_app, Hk, Hn. change (_ <? _)%nat with false. cbv iota.
  rewrite drop_0, take_app_length', drop_app_length', firstn_all2 by lia. done.
Qed.

Lemma auth_length `{!NtorHashLaws} v ID B Y X : length (ntorComputeAuth v ID B Y X) = 32%nat.
Proof. apply hmac_length. Qed.

(** A client accepts a response for its transcript, and no other: it is the relay's
    point and the MAC of the transcript. *)
Lemma client_accepts resp x B ID km nonce :
  NtorProcessResponseWithNonce resp x B ID = Ok (km, nonce) ->
  let Y := slice resp 0 32 in
  let s := ntorBuildSecretInput (ScalarMult x Y) (ScalarMult x B) ID B (ScalarBaseMult x) Y in
  resp = Y ++ ntorComputeAuth (ntorHMAC ntorTVerify s) ID B Y (ScalarBaseMult x) /\
  length Y = 32%nat /\ length x = 32%nat /\ length B = 32%nat /\ length ID = 20%nat /\
  exists expanded, ntorExpandKeyMaterial s = Ok expanded /\ SplitNtorExpanded expanded = Ok (km, nonce).
Proof.
  unfold NtorProcessResponseWithNonce, NtorResponseLen, NtorOnionKeyLen, NtorNodeIDLen. cbv zeta.
  destruct (Z.eqb_spec (len resp) 64) as [Hr|]; [|done]. destruct (Z.eqb_spec (len x) 32) as [Hx|]; [|done].
  destruct (Z.eqb_spec (len B) 32) as [HB|]; [|done]. destruct (Z.eqb_spec (len ID) 20) as [HI|]; [|done]. cbn [negb].
  destruct (isAllZero (slice resp 0 32)); [done|]. destruct (isAllZero _ || isAllZero _); [done|].
  destruct (Conversion.ConstantTimeCompare _ _) eqn:Ha; [|done]. cbn [negb]. apply Conversion.ConstantTimeCompare_spec in Ha.
  unfold len in *. intros (expanded & He & Hs)%result_bind_ok.
  split_and!; [|rewrite length_slice; lia|lia|lia|lia|by exists expanded].
  unfold ntorDerive in Ha. cbn [snd] in Ha. rewrite <- Ha. unfold slice. rewrite drop_0.
  rewrite (firstn_all2 (drop 32 resp)) by (rewrite length_drop; lia). by rewrite take_drop.
Qed.

(** What a relay answers. *)
Lemma server_answers draw h b ID eph resp expanded :
  ntorServerHandshakeCore draw h b ID eph = Ok (resp, expanded) ->
  exists y X, let B := ScalarBaseMult b in let Y := ScalarBaseMult y in
    let s := ntorBuildSecretInput (ScalarMult y X) (ScalarMult b X) ID B X Y in
    h = ID ++ B ++ X /\ length ID = 20%nat /\ length b = 32%nat /\ length X = 32%nat /\
    (draw = Some y \/ eph = Some y) /\
    resp = Y ++ ntorComputeAuth (ntorHMAC ntorTVerify s) ID B Y X /\ ntorExpandKeyMaterial s = Ok expanded.
Proof.
  unfold ntorServerHandshakeCore, NtorHandshakeLen, NtorNodeIDLen. cbv zeta.
  destruct (Z.eqb_spec (len h) 84) as [Hh|]; [|done]. destruct (Z.eqb_spec (len b) 32) as [Hb|]; [|done].
  destruct (Z.eqb_spec (len ID) 20) as [HI|]; [|done]. cbn [negb]. unfold len in *.
  destruct (Conversion.ConstantTimeCompare (slice h 0 20) ID) eqn:H1; [|done].
  destruct (Conversion.ConstantTimeCompare (slice h 20 52) _) eqn:H2; [|done]. cbn [negb].
  apply Conversion.ConstantTimeCompare_spec in H1, H2.
  intros ([y Y] & He & Hr)%result_bind_ok. cbn [Private Public] in Hr.
  assert (Y = ScalarBaseMult y /\ (draw = Some y \/ eph = Some y)) as [-> Hy].
  { destruct eph as [k|]; [destruct (negb _); [done|]; injection He as <- <-; by auto|].
    unfold GenerateNtorKeyPair in He. destruct draw; [|done]. injection He as <- <-. by auto. }
  destruct (isAllZero _ || isAllZero _); [done|]. apply result_bind_ok in Hr as (km & Hk & [= <- <-]).
  exists y, (slice h 52 84). split_and!; [| |lia|rewrite length_slice; lia|done|done|done]; [|lia].
  rewrite <- H1, <- H2. unfold slice. rewrite !drop_0.
  rewrite (firstn_all2 (drop 52 h)) by (rewrite length_drop; lia).
  change (drop 52 h) with (drop (20 + 32) h). rewrite <- drop_drop. change (52 - 20)%nat with 32%nat. by rewrite take_drop, take_drop.
Qed.

(** Client and relay agree, whatever their keys. *)
Lemma ntor_agreement `{!CurveLaws} `{!NtorHashLaws} ID b x y h priv :
  NtorClientHandshake (Some x) ID (ScalarBaseMult b) = Ok (h, priv) ->
  length x = 32%nat -> length y = 32%nat -> length b = 32%nat ->
  isAllZero (ScalarBaseMult y) = false -> isAllZero (ScalarMult x (ScalarBaseMult y)) = false ->
  isAllZero (ScalarMult x (ScalarBaseMult b)) = false ->
  exists resp km nonce, NtorServerHandshakeWithNonce (Some y) h b ID = Ok (resp, km, nonce) /\
    NtorProcessResponseWithNonce resp priv (ScalarBaseMult b) ID = Ok (km, nonce) /\
    length resp = 64%nat /\ length km = 72%nat /\ length nonce = 20%nat.
Proof.
  intros Hc Hx Hy Hb Hz1 Hz2 Hz3. unfold NtorClientHandshake, NtorNodeIDLen in Hc.
  destruct (Z.eqb_spec (len ID) 20) as [HI|]; [|done]. cbn [negb] in Hc. assert (length ID = 20%nat) as HlI by (unfold len in HI; lia).
  destruct (negb (len (ScalarBaseMult b) =? _)); [done|]. destruct (isAllZero ID); [done|]. destruct (isAllZero (ScalarBaseMult b)) eqn:HB0; [done|].
  cbn [GenerateNtorKeyPair result_bind Public Private] in Hc. injection Hc as <- <-.
  pose proof (base_length b Hb) as HlB. pose proof (base_length x Hx) as HlX. pose proof (base_length y Hy) as HlY.
  set (B := ScalarBaseMult b) in *. set (X := ScalarBaseMult x) in *. set (Y := ScalarBaseMult y) in *.
  set (s := ntorBuildSecretInput (ScalarMult x Y) (ScalarMult x B) ID B X Y).
  destruct (expand_ok s) as (km & nonce & Hexp & Hkm & Hn).
  exists (Y ++ ntorComputeAuth (ntorHMAC ntorTVerify s) ID B Y X), km, nonce. split_and!; [| | |done|done].
  - unfold NtorServerHandshakeWithNonce, ntorServerHandshakeCore, NtorHandshakeLen, NtorNodeIDLen, len.
    rewrite !length_app, HlB, HlX, Hb, HlI.
    change (negb (Z.of_nat (20 + (32 + 32)) =? 84)) with false. change (negb (Z.of_nat 32 =? 32)) with false. change (negb (Z.of_nat 20 =? 20)) with false. cbv iota.
    assert (slice (ID ++ B ++ X) 0 20 = ID /\ slice (ID ++ B ++ X) 20 52 = B /\ slice (ID ++ B ++ X) 52 84 = X) as (-> & -> & ->).
    { unfold slice. rewrite drop_0, take_app_length' by lia. rewrite drop_app_length' by lia. rewrite take_app_length' by lia.
      rewrite app_assoc, drop_app_length' by (rewrite length_app; lia). rewrite firstn_all2 by lia. done. }
    rewrite !Conversion.ConstantTimeCompare_refl. cbn [negb GenerateNtorKeyPair result_bind Public Private]. fold Y. fold B.
    rewrite (exchange y x Hy Hx : ScalarMult y X = ScalarMult x Y), (exchange b x Hb Hx : ScalarMult b X = ScalarMult x B), Hz2, Hz3. cbn [orb ntorDerive snd]. fold s.
    rewrite Hexp. cbn [result_bind]. by rewrite split_expanded.
  - unfold NtorProcessResponseWithNonce, NtorResponseLen, NtorOnionKeyLen, NtorNodeIDLen, len.
    assert (slice (Y ++ ntorComputeAuth (ntorHMAC ntorTVerify s) ID B Y X) 0 32 = Y) as HsY by (unfold slice; rewrite drop_0; apply take_app_length'; lia).
    assert (slice (Y ++ ntorComputeAuth (ntorHMAC ntorTVerify s) ID B Y X) 32 64 = ntorComputeAuth (ntorHMAC ntorTVerify s) ID B Y X) as HsA
      by (unfold slice; rewrite drop_app_length' by lia; apply firstn_all2; rewrite auth_length; lia).
    rewrite HsY, HsA, length_app, auth_length, HlY, Hx, HlB, HlI.
    change (negb (Z.of_nat (32 + 32) =? 64)) with false. change (negb (Z.of_nat 32 =? 32)) with false. change (negb (Z.of_nat 20 =? 20)) with false. cbv iota zeta.
    rewrite Hz1, Hz2, Hz3. cbn [orb ntorDerive snd]. fold X. fold s. rewrite Conversion.ConstantTimeCompare_refl. cbn [negb].
    rewrite Hexp. cbn [result_bind]. by rewrite split_expanded.
  - rewrite length_app, auth_length. lia.
Qed.

(** When both ends finish on the client's own handshake data, they have the same
    keys. *)
Lemma ntor_same `{!CurveLaws} ID B x h priv b y resp km' nonce' km nonce :
  NtorClientHandshake (Some x) ID B = Ok (h, priv) -> length y = 32%nat ->
  forall ID', NtorServerHandshakeWithNonce (Some y) h b ID' = Ok (resp, km', nonce') ->
  NtorProcessResponseWithNonce resp priv B ID = Ok (km, nonce) -> km' = km /\ nonce' = nonce.
Proof.
  intros Hc Hy ID' Hs Hp.
  assert (h = ID ++ B ++ ScalarBaseMult x /\ priv = x) as [-> ->].
  { unfold NtorClientHandshake in Hc. repeat (destruct (negb _); [done|]). do 2 (destruct (isAllZero _); [done|]).
    cbn in Hc. by injection Hc as <- <-. }
  apply result_bind_ok in Hs as ([resp' e'] & Hs & Hs2). apply result_bind_ok in Hs2 as ([km1 n1] & Hsp & [= -> -> ->]).
  apply server_answers in Hs as (y' & X' & Hh & HI' & Hb' & HX' & [[= <-]|[=]] & Hresp & Hexp).
  apply client_accepts in Hp. cbv zeta in Hp. destruct Hp as (_ & _ & Hx & HB & HI & expanded & He & Hsp').
  pose proof (base_length b Hb') as HlB. pose proof (base_length y Hy) as HlY.
  apply app_inj_1 in Hh as [<- Hh]; [|lia]. apply app_inj_1 in Hh as [EB <-]; [|lia].
  assert (slice resp 0 32 = ScalarBaseMult y) as HsY by (subst resp; unfold slice; rewrite drop_0; apply take_app_length'; lia).
  rewrite HsY, (exchange x y Hx Hy), EB, (exchange x b Hx Hb') in He. rewrite Hexp in He. injection He as <-.
  rewrite Hsp in Hsp'. by injection Hsp' as -> ->.
Qed.

(** ** Properties *)

(** Two messages with one MAC. *)
Definition clash (key m m' : bytes) : Prop := m <> m' /\ hmac_sha256 key m = hmac_sha256 key m'.

(** C8: The ntor handshake agrees, and authenticates the relay.  A relay with the
    identity and onion key the client asked for accepts the client's handshake,
    and from its answer the client gets the relay's 72 bytes of key material and
    its nonce, for any ephemeral keys whose products are not the identity.
    Conversely, when a client accepts an answer some relay gave in some handshake,
    it was this handshake with this relay and the relay has the client's keys;
    unless the two ends' transcripts, which are named, collide under HMAC. *)
Theorem ntor_handshake_sound `{!CurveLaws} `{!NtorHashLaws} ID B x h priv :
  NtorClientHandshake (Some x) ID B = Ok (h, priv) -> length x = 32%nat ->
  (forall b y, B = ScalarBaseMult b -> length b = 32%nat -> length y = 32%nat ->
     isAllZero (ScalarBaseMult y) = false -> isAllZero (ScalarMult x (ScalarBaseMult y)) = false ->
     isAllZero (ScalarMult x B) = false ->
     exists resp km nonce, NtorServerHandshakeWithNonce (Some y) h b ID = Ok (resp, km, nonce) /\
       NtorProcessResponseWithNonce resp priv B ID = Ok (km, nonce) /\ length km = 72%nat /\ length nonce = 20%nat) /\
  (forall b' ID' h' y resp km nonce km' nonce', length y = 32%nat ->
     NtorServerHandshakeWithNonce (Some y) h' b' ID' = Ok (resp, km', nonce') ->
     NtorProcessResponseWithNonce resp priv B ID = Ok (km, nonce) ->
     (h' = h /\ ID' = ID /\ ScalarBaseMult b' = B /\ km' = km /\ nonce' = nonce) \/
     let Y := ScalarBaseMult y in let X := ScalarBaseMult x in
     let X' := slice h' 52 84 in let B' := ScalarBaseMult b' in
     let s := ntorBuildSecretInput (ScalarMult x Y) (ScalarMult x B) ID B X Y in
     let s' := ntorBuildSecretInput (ScalarMult y X') (ScalarMult b' X') ID' B' X' Y in
     clash ntorTVerify s s' \/
     clash ntorTMac (auth_input (ntorHMAC ntorTVerify s) ID B Y X) (auth_input (ntorHMAC ntorTVerify s') ID' B' Y X')).
Proof.
  intros Hc Hx. split.
  - intros b y -> Hb Hy Z1 Z2 Z3. destruct (ntor_agreement ID b x y h priv) as (resp & km & nonce & Ha & Hp & _ & Hk & Hn); [done..|].
    by exists resp, km, nonce.
  - intros b' ID' h' y resp km nonce km' nonce' Hy Hs Hp.
    assert (h = ID ++ B ++ ScalarBaseMult x /\ priv = x) as [-> ->].
    { unfold NtorClientHandshake in Hc. repeat (destruct (negb _); [done|]). do 2 (destruct (isAllZero _); [done|]).
      cbn in Hc. by injection Hc as <- <-. }
    unfold NtorServerHandshakeWithNonce in Hs. apply result_bind_ok in Hs as ([resp' e'] & Hs & Hs2).
    apply result_bind_ok in Hs2 as ([km1 n1] & Hsp & [= -> -> ->]).
    apply server_answers in Hs as (y' & X' & Hh & HI' & Hb' & HX' & Hyy & Hresp & Hexp). destruct Hyy as [[= <-]|[=]].
    apply client_accepts in Hp. cbv zeta in Hp.
    set (Y := ScalarBaseMult y) in *. set (B' := ScalarBaseMult b') in *. set (X := ScalarBaseMult x) in *.
    assert (length Y = 32%nat /\ length B' = 32%nat /\ length X = 32%nat) as (HlY & HlB' & HlX) by (split_and!; by apply base_length).
    assert (slice resp 0 32 = Y) as HsY by (subst resp; unfold slice; rewrite drop_0; apply take_app_length'; lia).
    assert (slice h' 52 84 = X') as HsX.
    { rewrite Hh, app_assoc. unfold slice. rewrite drop_app_length' by (rewrite length_app; lia). apply firstn_all2. lia. }
    rewrite HsY in Hp. cbv zeta. rewrite HsX. destruct Hp as (Hr & _ & _ & HB & HI & expanded & He & Hsp').
    set (s := ntorBuildSecretInput (ScalarMult x Y) (ScalarMult x B) ID B X Y) in *.
    set (s' := ntorBuildSecretInput (ScalarMult y X') (ScalarMult b' X') ID' B' X' Y) in *.
    rewrite Hresp in Hr. apply app_inv_head in Hr. fold s' in Hr.
    destruct (decide (auth_input (ntorHMAC ntorTVerify s) ID B Y X = auth_input (ntorHMAC ntorTVerify s') ID' B' Y X')) as [Ha|Ha];
      [|right; right; by split].
    unfold auth_input in Ha. apply app_inj_1 in Ha as [Hv Ha]; [|unfold ntorHMAC; by rewrite !hmac_length].
    apply app_inj_1 in Ha as [HIe Ha]; [|lia]. apply app_inj_1 in Ha as [HBe Ha]; [|lia]. apply app_inv_head in Ha.
    apply app_inj_1 in Ha as [HXe _]; [|lia].
    destruct (decide (s = s')) as [Hse|Hse]; [|right; left; by split].
    left. rewrite Hse in He. rewrite Hexp in He. injection He as <-. rewrite Hsp in Hsp'. injection Hsp' as -> ->.
    rewrite Hh, <- HIe, <- HBe, HXe. done.
Qed.

End Ntor.

(** ** A concrete handshake *)

(** A toy curve and toy hashes with the laws. *)
#[export] Instance toy_curve : Curve := {| ScalarMult := zip_with Z.lxor; ScalarBaseMult x := x |}.
Definition toy_fit (n : nat) (m : bytes) : bytes := take n (m ++ zeros n).
#[export] Instance toy_hash : NtorHash :=
  {| hmac_sha256 k m := toy_fit 32 (drop 40 m ++ m);
     hkdf_sha256 s t i n := if (n <=? 255 * 32)%nat then Some (toy_fit n s) else None |}.

Lemma toy_fit_length n m : length (toy_fit n m) = n.
Proof. unfold toy_fit, zeros. rewrite length_take, length_app, length_replicate. lia. Qed.

#[export] Instance toy_curve_laws : CurveLaws.
Proof.
  split; cbn [ScalarMult ScalarBaseMult toy_curve].
  - intros x p Hx Hp. rewrite length_zip_with. lia.
  - done.
  - intros x y _ _. revert y. induction x as [|a x IH]; intros [|b y]; [done..|]. cbn [zip_with]. by rewrite Z.lxor_comm, IH.
Qed.

#[export] Instance toy_hash_laws : NtorHashLaws.
Proof.
  split; cbn [hmac_sha256 hkdf_sha256 toy_hash].
  - intros. apply toy_fit_length.
  - intros s t i n out. destruct (_ <=? _)%nat; [|done]. intros [= <-]. apply toy_fit_length.
  - intros s t i n Hn. rewrite (proj2 (Nat.leb_le _ _) Hn). by eexists.
Qed.

Lemma ntor_handshake_sound_witness :
  exists h priv resp km nonce,
    NtorClientHandshake (Some (repeat 3 32)) (repeat 7 20) (repeat 9 32) = Ok (h, priv) /\
    NtorServerHandshakeWithNonce (Some (repeat 5 32)) h (repeat 9 32) (repeat 7 20) = Ok (resp, km, nonce) /\
    NtorProcessResponseWithNonce resp priv (repeat 9 32) (repeat 7 20) = Ok (km, nonce).
Proof.
  assert (exists h priv, NtorClientHandshake (Some (repeat 3 32)) (repeat 7 20) (repeat 9 32) = Ok (h, priv)) as (h & priv & Hc)
    by (do 2 eexists; vm_compute; reflexivity).
  destruct (ntor_handshake_sound (repeat 7 20) (repeat 9 32) (repeat 3 32) h priv Hc eq_refl) as [Ha _].
  destruct (Ha (repeat 9 32) (repeat 5 32) eq_refl eq_refl eq_refl eq_refl eq_refl eq_refl) as (resp & km & nonce & Hs & Hp & _).
  exists h, priv, resp, km, nonce. split; [exact Hc|split; [exact Hs|exact Hp]].
Defined.

End Ntor.
