(* ===== verification/NtorV3.v ===== *)
(** * The ntor-v3 handshake (pkg/crypto/ntorv3.go, ntorv3_server.go, subproto.go)

    Both sides of the handshake with extra data: the extensions a client asks for
    and a relay answers, the capabilities they negotiate, and the key schedule.
    SHA3-256 and SHAKE-256 are the class [V3Hash]; AES-256 on a block is
    [Encrypt], in counter mode as in RelayCrypto.v; the curve is that of Ntor.v. *)

From Stdlib Require Import String.
From S2P Require Import Prelude Conversion GoStrings CGO Onion RelayCrypto Extend2 Ntor.
Import GoStrings Ntor(Curve, CurveLaws, ScalarMult, ScalarBaseMult, isAllZero, mult_length, base_length, exchange).

Module NtorV3.

Class V3Hash := { sha3_256 : bytes -> bytes; shake256 : bytes -> nat -> bytes }.
Class V3HashLaws `{V3Hash} := {
  sha3_length m : length (sha3_256 m) = 32%nat;
  shake_length m n : length (shake256 m n) = n;
}.

Inductive error :=
| errMissingCount | errTruncated (i : Z) | errTruncatedBody (typ : Z) | errTrailing (n : Z)
| errNoCaps | errCapNotAllowed | errCapDuplicate | errCapsLength (n : Z)
| errCCLength (n : Z) | errSendmeInc (inc : Z)
| errKeyLength (n : Z) | errIDLength (n : Z) | errOnionKeyLength (n : Z) | errPrivateLength (n : Z) | errZeroKeys
| errIdentityPoint | errSharedZero | errNoState | errReplyShort (n : Z) | errAuth
| errSkinShort (n : Z) | errIDMismatch | errKeyIDMismatch | errMAC | errExtensions (e : error) | errSubproto (e : error)
| errKeyPair (e : Ntor.error).

(** ** Capabilities *)

Definition ProtoRelay : Z := 2.
Definition CapRelaySubproto : Z := 5.
Definition CapRelayCGO : Z := 6.

Record SubprotoCap := mkCap { ProtocolID : Z; Cap : Z }.
#[export] Instance SubprotoCap_eq_dec : EqDecision SubprotoCap.
Proof. solve_decision. Defined.

Definition Encoding (c : SubprotoCap) : bytes := [ProtocolID c; Cap c].

Definition ProtocolName (id : Z) : bytes :=
  match (map lit ["Link"; "LinkAuth"; "Relay"; "DirCache"; "HSDir"; "HSIntro"; "HSRend"; "Desc"; "Microdesc"; "Cons"; "Padding";
                  "FlowCtrl"; "Conflux"]%string) !! Z.to_nat id with
  | Some n => n
  | None => lit "Proto" ++ print_int id
  end.

Definition NegotiableSubprotoCaps : list SubprotoCap := [mkCap ProtoRelay CapRelayCGO].
Definition capAllowed (c : SubprotoCap) : bool := existsb (fun a => bool_decide (a = c)) NegotiableSubprotoCaps.
Definition ImplementedNegotiableCaps : list SubprotoCap := [mkCap ProtoRelay CapRelayCGO].

Definition cap_less (a b : SubprotoCap) : bool :=
  if negb (ProtocolID a =? ProtocolID b) then ProtocolID a <? ProtocolID b else Cap a <? Cap b.
Fixpoint insert_cap (c : SubprotoCap) (l : list SubprotoCap) : list SubprotoCap :=
  match l with [] => [c] | a :: l => if cap_less a c then a :: insert_cap c l else c :: a :: l end.
Definition sortSubprotoCaps (caps : list SubprotoCap) : list SubprotoCap := foldr insert_cap [] caps.

(** [prev] is the element before in the sorted list. *)
Fixpoint encode_caps (prev : option SubprotoCap) (sorted : list SubprotoCap) (out : bytes) : result error bytes :=
  match sorted with
  | [] => Ok out
  | c :: sorted =>
      if negb (capAllowed c) then Err errCapNotAllowed
      else if bool_decide (prev = Some c) then Err errCapDuplicate
      else encode_caps (Some c) sorted (out ++ Encoding c)
  end.

Definition EncodeSubprotoRequest (caps : list SubprotoCap) : result error bytes :=
  match caps with [] => Err errNoCaps | _ => encode_caps None (sortSubprotoCaps caps) [] end.

(** The pairs; [out] is also the set of those seen. *)
Fixpoint parse_caps (data : bytes) (out : list SubprotoCap) : result error (list SubprotoCap) :=
  match data with
  | p :: c :: data =>
      let cap := mkCap p c in
      if negb (capAllowed cap) then Err errCapNotAllowed
      else if bool_decide (cap ∈ out) then Err errCapDuplicate
      else parse_caps data (out ++ [cap])
  | _ => Ok out
  end.

Definition ParseSubprotoRequest (data : bytes) : result error (list SubprotoCap) :=
  if (len data =? 0) || negb (len data mod 2 =? 0) then Err (errCapsLength (len data)) else parse_caps data [].

(** [supports name version]: what the peer announces; [None]: there is no peer. *)
Fixpoint select_caps (supports : bytes -> Z -> bool) (caps : list SubprotoCap) : result error (list SubprotoCap) :=
  match caps with
  | [] => Ok []
  | c :: caps =>
      if negb (capAllowed c) then Err errCapNotAllowed
      else
        let? rest := select_caps supports caps in
        Ok (if supports (ProtocolName (ProtocolID c)) (Cap c) then c :: rest else rest)
  end.

Definition SelectSubprotoRequest (peer : option (bytes -> Z -> bool)) : result error (list SubprotoCap) :=
  match peer with
  | None => Ok []
  | Some supports =>
      if negb (supports (lit "Relay") CapRelaySubproto) then Ok []
      else if negb (supports (lit "FlowCtrl") 2) then Ok []
      else let? out := select_caps supports ImplementedNegotiableCaps in Ok (sortSubprotoCaps out)
  end.

(** ** Extensions *)

Definition NtorV3ExtCCRequest : Z := 1.
Definition NtorV3ExtCCResponse : Z := 2.
Definition NtorV3ExtSubprotoRequest : Z := 3.

Record NtorV3Extension := mkExt { Type_ : Z; Data : bytes }.

Definition EncodeNtorV3Extensions (exts : list NtorV3Extension) : bytes :=
  let exts := take 255 exts in
  [Conversion.ByteLen (len exts)] ++
  flat_map (fun ext => if 255 <? len (Data ext) then [] else [Type_ ext; Conversion.ByteLen (len (Data ext))] ++ Data ext) exts.

(** Extension [i] of [i + n]; a type that was read already is passed over. *)
Fixpoint parse_exts (n : nat) (i : Z) (msg : bytes) (off : nat) (out : list NtorV3Extension) :
    result error (list NtorV3Extension * nat) :=
  match n with
  | O => Ok (out, off)
  | S n =>
      if (length msg <? off + 2)%nat then Err (errTruncated i)
      else
        let typ := at_ msg off in
        let ln := Z.to_nat (at_ msg (off + 1)) in
        let off := (off + 2)%nat in
        if (length msg <? off + ln)%nat then Err (errTruncatedBody typ)
        else
          let data := slice msg off (off + ln) in
          let off := (off + ln)%nat in
          parse_exts n (i + 1) msg off (if existsb (fun e => Type_ e =? typ) out then out else out ++ [mkExt typ data])
  end.

Definition ParseNtorV3Extensions (msg : bytes) : result error (list NtorV3Extension) :=
  if len msg <? 1 then Err errMissingCount
  else
    let? (out, off) := parse_exts (Z.to_nat (at_ msg 0)) 0 msg 1 [] in
    if negb (off =? length msg)%nat then Err (errTrailing (len msg - Z.of_nat off)) else Ok out.

Fixpoint find_cgo (exts : list NtorV3Extension) : result error bool :=
  match exts with
  | [] => Ok false
  | ext :: exts =>
      if negb (Type_ ext =? NtorV3ExtSubprotoRequest) then find_cgo exts
      else
        match ParseSubprotoRequest (Data ext) with
        | Err e => Err (errSubproto e)
        | Ok caps =>
            if existsb (fun c => (ProtocolID c =? ProtoRelay) && (Cap c =? CapRelayCGO)) caps then Ok true else find_cgo exts
        end
  end.

Definition NtorV3ClientRequestedCGO (cm : bytes) : result error bool :=
  match cm with [] => Ok false | _ => let? exts := ParseNtorV3Extensions cm in find_cgo exts end.

Definition EncodeCCRequest : bytes := EncodeNtorV3Extensions [mkExt NtorV3ExtCCRequest []].

(** [None]: not negotiated. *)
Definition ParseCCSendmeInc (serverMsg : bytes) : result error (option Z) :=
  let? exts := ParseNtorV3Extensions serverMsg in
  match List.find (fun ext => Type_ ext =? NtorV3ExtCCResponse) exts with
  | None => Ok None
  | Some ext =>
      if negb (len (Data ext) =? 1) then Err (errCCLength (len (Data ext)))
      else
        let inc := at_ (Data ext) 0 in
        if (inc <? 1) || (250 <? inc) then Err (errSendmeInc inc) else Ok (Some inc)
  end.

Definition EncodeNtorV3ClientMsg (requestCC : bool) (caps : list SubprotoCap) : result error bytes :=
  let exts := if requestCC then [mkExt NtorV3ExtCCRequest []] else [] in
  match caps with
  | [] => Ok (EncodeNtorV3Extensions exts)
  | _ =>
      let? body := EncodeSubprotoRequest caps in
      Ok (EncodeNtorV3Extensions (exts ++ [mkExt NtorV3ExtSubprotoRequest body]))
  end.

(** ** Extensions survive the wire *)

Definition ext_image (e : NtorV3Extension) : bytes := [Type_ e; len (Data e)] ++ Data e.

Lemma ByteLen_small n : 0 <= n <= 255 -> Conversion.ByteLen n = n.
Proof.
  intros Hn. unfold Conversion.ByteLen. destruct (Z.leb_spec n 0); [lia|]. rewrite (proj2 (Z.ltb_ge _ _)) by lia. unfold u8. apply Z.mod_small. lia.
Qed.

Lemma encode_exts_image exts : len exts <= 255 -> Forall (fun e => len (Data e) <= 255) exts ->
  EncodeNtorV3Extensions exts = [len exts] ++ flat_map ext_image exts.
Proof.
  intros Hn Hd. unfold EncodeNtorV3Extensions. rewrite firstn_all2 by (unfold len in Hn; lia). rewrite ByteLen_small by (unfold len in *; lia). f_equal.
  induction Hd as [|e l He Hl IH]; [done|]. cbn [flat_map]. rewrite (proj2 (Z.ltb_ge _ _)), ByteLen_small by (unfold len in *; lia).
  rewrite IH; [done|unfold len in *; cbn in Hn; lia].
Qed.

Lemma parse_exts_image l i pre out : Forall (fun e => len (Data e) <= 255) l -> NoDup ((Type_ <$> out) ++ (Type_ <$> l)) ->
  parse_exts (length l) i (pre ++ flat_map ext_image l) (length pre) out = Ok (out ++ l, length (pre ++ flat_map ext_image l)).
Proof.
  revert i pre out. induction l as [|e l IH]; intros i pre out Hd Hn; cbn [length parse_exts flat_map]; [by rewrite !app_nil_r|].
  apply Forall_cons in Hd as [He Hd]. set (rest := flat_map ext_image l) in *. set (msg := pre ++ ext_image e ++ rest).
  assert (length (ext_image e) = (2 + length (Data e))%nat) as Hl by (unfold ext_image; rewrite length_app; done).
  rewrite (proj2 (Nat.ltb_ge _ _)) by (unfold msg; rewrite !length_app; lia).
  assert (at_ msg (length pre) = Type_ e) as ->.
  { unfold msg. rewrite <- (Nat.add_0_r (length pre)). by rewrite (Extend2.at_app_r pre _ 0 (length pre) eq_refl). }
  assert (at_ msg (length pre + 1) = len (Data e)) as -> by (unfold msg; by rewrite (Extend2.at_app_r pre _ 1 (length pre) eq_refl)).
  unfold len at 1 2 3. rewrite Nat2Z.id. rewrite (proj2 (Nat.ltb_ge _ _)) by (unfold msg; rewrite !length_app; lia).
  assert (slice msg (length pre + 2) (length pre + 2 + length (Data e)) = Data e) as ->.
  { unfold msg. rewrite <- Nat.add_assoc, (Extend2.slice_app_r pre _ 2 (2 + length (Data e)) (length pre) eq_refl).
    unfold ext_image, slice. cbn [app drop]. replace (2 + length (Data e) - 2)%nat with (length (Data e)) by lia. by apply take_app_length'. }
  assert (existsb (fun e0 => Type_ e0 =? Type_ e) out = false) as ->.
  { apply not_true_iff_false. intros Hx. apply existsb_exists in Hx as (e0 & Hin & He0%Z.eqb_eq). apply NoDup_app in Hn as (_ & Hdis & _).
    apply (Hdis (Type_ e)); [|cbn; left]. rewrite <- He0. apply list_elem_of_fmap. exists e0. split; [done|]. by apply list_elem_of_In. }
  assert (length pre + 2 + length (Data e) = length (pre ++ ext_image e))%nat as -> by (rewrite length_app; lia).
  unfold msg. rewrite app_assoc. destruct e as [ty d]. cbn [Type_ Data] in *. rewrite IH; [|done|].
  - by rewrite <- !app_assoc.
  - rewrite fmap_app, <- app_assoc. done.
Qed.

Lemma exts_roundtrip exts : len exts <= 255 -> Forall (fun e => len (Data e) <= 255) exts -> NoDup (Type_ <$> exts) ->
  ParseNtorV3Extensions (EncodeNtorV3Extensions exts) = Ok exts.
Proof.
  intros Hn Hd Hu. rewrite encode_exts_image by done. unfold ParseNtorV3Extensions.
  rewrite (proj2 (Z.ltb_ge _ _)) by (unfold len; rewrite length_app; cbn; lia).
  change (at_ ([len exts] ++ flat_map ext_image exts) 0) with (len exts).
  rewrite (Nat2Z.id (length exts) : Z.to_nat (len exts) = length exts), (parse_exts_image exts 0 [len exts] [] : _ -> _ -> parse_exts _ _ _ 1 _ = _) by done. cbn [result_bind]. by rewrite Nat.eqb_refl.
Qed.

Lemma length_sort_caps caps : length (sortSubprotoCaps caps) = length caps.
Proof.
  assert (forall c l, length (insert_cap c l) = S (length l)) as Hi.
  { intros c l. induction l as [|a l IH]; [done|]. cbn. destruct (cap_less a c); cbn; congruence. }
  unfold sortSubprotoCaps. induction caps as [|c caps IH]; [done|]. cbn. by rewrite Hi, IH.
Qed.

Lemma allowed_cap c : capAllowed c = true -> c = mkCap ProtoRelay CapRelayCGO.
Proof. unfold capAllowed. cbn. rewrite orb_false_r. by intros <-%bool_decide_eq_true. Qed.

(** Only one request can be encoded. *)
Lemma encode_caps_one caps body : EncodeSubprotoRequest caps = Ok body ->
  caps = [mkCap ProtoRelay CapRelayCGO] /\ body = [ProtoRelay; CapRelayCGO].
Proof.
  unfold EncodeSubprotoRequest. destruct caps as [|c [|c' caps]]; [done| |].
  - cbn [sortSubprotoCaps foldr insert_cap encode_caps]. destruct (capAllowed c) eqn:Hc; [|done]. apply allowed_cap in Hc. subst c.
    cbn. by intros [= <-].
  - pose proof (length_sort_caps (c :: c' :: caps)) as Hl. destruct (sortSubprotoCaps (c :: c' :: caps)) as [|a [|b l]]; [done..|].
    cbn [encode_caps]. destruct (capAllowed a) eqn:Ha; [|done]. apply allowed_cap in Ha. subst a. rewrite bool_decide_eq_false_2 by done.
    cbn [negb]. destruct (capAllowed b) eqn:Hb; [|done]. apply allowed_cap in Hb. subst b. by rewrite bool_decide_eq_true_2.
Qed.

(** The relay reads from the client's message what the client asked for. *)
Lemma client_msg_requests cc caps cm : EncodeNtorV3ClientMsg cc caps = Ok cm ->
  NtorV3ClientRequestedCGO cm = Ok (existsb (fun c => (ProtocolID c =? ProtoRelay) && (Cap c =? CapRelayCGO)) caps).
Proof.
  unfold EncodeNtorV3ClientMsg. destruct caps as [|c caps]; [intros [= <-]; by destruct cc|].
  intros (body & Hb & [= <-])%result_bind_ok. apply encode_caps_one in Hb as [[= -> ->] ->]. by destruct cc.
Qed.

(** What a client asks a relay for is encodable. *)
Lemma selected_caps supports caps : SelectSubprotoRequest (Some supports) = Ok caps ->
  caps = [] \/ caps = [mkCap ProtoRelay CapRelayCGO].
Proof.
  unfold SelectSubprotoRequest. destruct (negb _); [intros [= <-]; by left|]. destruct (negb _); [intros [= <-]; by left|].
  unfold ImplementedNegotiableCaps. cbn [select_caps]. change (negb (capAllowed (mkCap ProtoRelay CapRelayCGO))) with false.
  cbn [result_bind]. destruct (supports (ProtocolName _) _); intros [= <-]; [by right|by left].
Qed.

(** ** Key schedule *)

Definition ntorV3ProtoID : bytes := lit "ntor3-curve25519-sha3_256-1".
Definition ntorV3TMsgKDF : bytes := ntorV3ProtoID ++ lit ":kdf_phase1".
Definition ntorV3TMsgMAC : bytes := ntorV3ProtoID ++ lit ":msg_mac".
Definition ntorV3TKeySeed : bytes := ntorV3ProtoID ++ lit ":key_seed".
Definition ntorV3TVerify : bytes := ntorV3ProtoID ++ lit ":verify".
Definition ntorV3TFinal : bytes := ntorV3ProtoID ++ lit ":kdf_final".
Definition ntorV3TAuth : bytes := ntorV3ProtoID ++ lit ":auth_final".
Definition ntorV3ServerStr : bytes := lit "Server".
Definition NtorV3EncKeyLen : nat := 32.
Definition NtorV3MACLen : nat := 32.
Definition NtorV3FixedClientLen : Z := 128.
Definition NtorV3FixedServerLen : Z := 64.
Definition NtorV3KeyMaterialLen : nat := 72.
Definition NtorV3CircuitVerification : bytes := lit "circuit extend".

Definition ntorV3Encap (s : bytes) : bytes := PutUint64 (u64 (len s)) ++ s.

Record NtorV3ClientState := mkState {
  x : bytes; X : bytes; B : bytes; ID : bytes; Bx : bytes; msgMAC : bytes;
  keyMaterialLen : nat;
  CircNonce : bytes;
}.

Definition SetKeyMaterialLen (n : nat) (s : NtorV3ClientState) : NtorV3ClientState :=
  mkState (x s) (X s) (B s) (ID s) (Bx s) (msgMAC s) n (CircNonce s).
Definition set_nonce (s : NtorV3ClientState) (n : bytes) : NtorV3ClientState :=
  mkState (x s) (X s) (B s) (ID s) (Bx s) (msgMAC s) (keyMaterialLen s) n.
Definition Wipe (s : NtorV3ClientState) : NtorV3ClientState :=
  mkState (map (fun _ => 0) (x s)) (X s) (B s) (ID s) (Bx s) (msgMAC s) (keyMaterialLen s) (CircNonce s).

Section NtorV3.
Context `{Curve} `{V3Hash} (Encrypt : bytes -> bytes -> bytes).

Definition ntorV3Hash (t s : bytes) : bytes := sha3_256 (ntorV3Encap t ++ s).
Definition ntorV3MAC (t key msg : bytes) : bytes := sha3_256 (ntorV3Encap t ++ ntorV3Encap key ++ msg).
Definition ntorV3KDF (t s : bytes) (n : nat) : bytes := shake256 (ntorV3Encap t ++ s) n.

Definition ntorV3AESCTR (key plaintext : bytes) : result error bytes :=
  if negb (length key =? NtorV3EncKeyLen)%nat then Err (errKeyLength (len key))
  else Ok (Onion.XORKeyStream (RelayCrypto.NewCTR Encrypt key (zeros 16)) plaintext).2.

(** The inputs of the hashes, as both sides append them. *)
Definition phase1_input (Bx edID X B verification : bytes) : bytes :=
  Bx ++ edID ++ X ++ B ++ ntorV3ProtoID ++ ntorV3Encap verification.
Definition mac_input (edID B X encrypted : bytes) : bytes := edID ++ B ++ X ++ encrypted.
Definition secret_input (Yx Bx edID B X Y verification : bytes) : bytes :=
  Yx ++ Bx ++ edID ++ B ++ X ++ Y ++ ntorV3ProtoID ++ ntorV3Encap verification.
Definition auth_input (verify edID B Y X msgMAC encSM : bytes) : bytes :=
  verify ++ edID ++ B ++ Y ++ X ++ msgMAC ++ ntorV3Encap encSM ++ ntorV3ProtoID ++ ntorV3ServerStr.

(** *** The client *)

Definition ntorV3ClientHandshakeWithKey (edID onionKey verification clientMsg priv : bytes) :
    result error (bytes * NtorV3ClientState) :=
  if negb (len edID =? 32) then Err (errIDLength (len edID))
  else if negb (len onionKey =? 32) then Err (errOnionKeyLength (len onionKey))
  else if negb (len priv =? 32) then Err (errPrivateLength (len priv))
  else if isAllZero edID || isAllZero onionKey then Err errZeroKeys
  else
    let X := ScalarBaseMult priv in
    let Bx := ScalarMult priv onionKey in
    if isAllZero Bx then Err errSharedZero
    else
      let keys := ntorV3KDF ntorV3TMsgKDF (phase1_input Bx edID X onionKey verification) (NtorV3EncKeyLen + NtorV3MACLen) in
      let encK1 := take NtorV3EncKeyLen keys in
      let macK1 := drop NtorV3EncKeyLen keys in
      let? encrypted := ntorV3AESCTR encK1 clientMsg in
      let msgMAC := ntorV3MAC ntorV3TMsgMAC macK1 (mac_input edID onionKey X encrypted) in
      Ok (edID ++ onionKey ++ X ++ encrypted ++ msgMAC, mkState priv X onionKey edID Bx msgMAC 0 []).

Definition NtorV3ClientHandshake (draw : option bytes) (edID onionKey verification clientMsg : bytes) :
    result error (bytes * NtorV3ClientState) :=
  match Ntor.GenerateNtorKeyPair draw with
  | Err e => Err (errKeyPair e)
  | Ok kp => ntorV3ClientHandshakeWithKey edID onionKey verification clientMsg (Ntor.Private kp)
  end.

(** The state with the nonce, and key material and the relay's message. *)
Definition NtorV3ProcessResponse (reply : bytes) (state : option NtorV3ClientState) (verification : bytes) :
    option NtorV3ClientState * result error (bytes * bytes) :=
  match state with
  | None => (None, Err errNoState)
  | Some st =>
      if len reply <? NtorV3FixedServerLen then (Some st, Err (errReplyShort (len reply)))
      else
        let Y := slice reply 0 32 in
        let auth := slice reply 32 64 in
        let encSM := drop 64 reply in
        if isAllZero Y then (Some st, Err errIdentityPoint)
        else
          let Yx := ScalarMult (x st) Y in
          if isAllZero Yx then (Some st, Err errSharedZero)
          else
            let secret := secret_input Yx (Bx st) (ID st) (B st) (X st) Y verification in
            let keySeed := ntorV3Hash ntorV3TKeySeed secret in
            let verify := ntorV3Hash ntorV3TVerify secret in
            let expected := ntorV3Hash ntorV3TAuth (auth_input verify (ID st) (B st) Y (X st) (msgMAC st) encSM) in
            if negb (Conversion.ConstantTimeCompare auth expected) then (Some st, Err errAuth)
            else
              let keyLen := if (0 <? keyMaterialLen st)%nat then keyMaterialLen st else NtorV3KeyMaterialLen in
              let raw := ntorV3KDF ntorV3TFinal keySeed (NtorV3EncKeyLen + keyLen + Ntor.NtorCircNonceLen) in
              let encKey := take NtorV3EncKeyLen raw in
              let full := drop NtorV3EncKeyLen raw in
              let keyMaterial := take keyLen full in
              let st := set_nonce st (slice full keyLen (keyLen + Ntor.NtorCircNonceLen)) in
              match ntorV3AESCTR encKey encSM with
              | Err e => (Some st, Err e)
              | Ok serverMsg => (Some st, Ok (keyMaterial, serverMsg))
              end
  end.

(** *** The relay *)

(** Response, key material and nonce. *)
Definition ntorV3ServerHandshakeCore (draw : option bytes) (clientSkin edID onionPriv verification : bytes)
    (serverMsgPlain : option bytes) : result error (bytes * bytes * bytes) :=
  if negb (len edID =? 32) then Err (errIDLength (len edID))
  else if negb (len onionPriv =? 32) then Err (errOnionKeyLength (len onionPriv))
  else if len clientSkin <? NtorV3FixedClientLen then Err (errSkinShort (len clientSkin))
  else
    let id := slice clientSkin 0 32 in
    let Bclaimed := slice clientSkin 32 64 in
    let X := slice clientSkin 64 96 in
    let encCM := slice clientSkin 96 (length clientSkin - NtorV3MACLen) in
    let msgMAC := drop (length clientSkin - NtorV3MACLen) clientSkin in
    if negb (Conversion.ConstantTimeCompare id edID) then Err errIDMismatch
    else
      let B := ScalarBaseMult onionPriv in
      if negb (Conversion.ConstantTimeCompare Bclaimed B) then Err errKeyIDMismatch
      else if isAllZero X then Err errIdentityPoint
      else
        let Bx := ScalarMult onionPriv X in
        if isAllZero Bx then Err errSharedZero
        else
          let keys1 := ntorV3KDF ntorV3TMsgKDF (phase1_input Bx edID X B verification) (NtorV3EncKeyLen + NtorV3MACLen) in
          let encK1 := take NtorV3EncKeyLen keys1 in
          let macK1 := drop NtorV3EncKeyLen keys1 in
          let expectedMAC := ntorV3MAC ntorV3TMsgMAC macK1 (mac_input edID B X encCM) in
          if negb (Conversion.ConstantTimeCompare msgMAC expectedMAC) then Err errMAC
          else
            let? cmPlain := ntorV3AESCTR encK1 encCM in
            match NtorV3ClientRequestedCGO cmPlain with
            | Err e => Err (errExtensions e)
            | Ok wantCGO =>
                let keyLen := if wantCGO : bool then CGO.CGOKeyMaterialLen else NtorV3KeyMaterialLen in
                match Ntor.GenerateNtorKeyPair draw with
                | Err e => Err (errKeyPair e)
                | Ok yKP =>
                    let y := Ntor.Private yKP in
                    let Y := Ntor.Public yKP in
                    let Yx := ScalarMult y X in
                    if isAllZero Yx then Err errSharedZero
                    else
                      let secret := secret_input Yx Bx edID B X Y verification in
                      let keySeed := ntorV3Hash ntorV3TKeySeed secret in
                      let verify := ntorV3Hash ntorV3TVerify secret in
                      let serverMsgPlain := default (EncodeNtorV3Extensions []) serverMsgPlain in
                      let rawFinal := ntorV3KDF ntorV3TFinal keySeed (NtorV3EncKeyLen + keyLen + Ntor.NtorCircNonceLen) in
                      let encKey := take NtorV3EncKeyLen rawFinal in
                      let keyMaterial := slice rawFinal NtorV3EncKeyLen (NtorV3EncKeyLen + keyLen) in
                      let circNonce := drop (NtorV3EncKeyLen + keyLen) rawFinal in
                      let? encSM := ntorV3AESCTR encKey serverMsgPlain in
                      let auth := ntorV3Hash ntorV3TAuth (auth_input verify edID B Y X msgMAC encSM) in
                      Ok (Y ++ auth ++ encSM, keyMaterial, circNonce)
                end
            end.

Definition NtorV3ServerHandshakeWithNonce := ntorV3ServerHandshakeCore.

Definition NtorV3ServerHandshake (draw : option bytes) (clientSkin edID onionPriv verification : bytes)
    (serverMsgPlain : option bytes) : result error (bytes * bytes) :=
  let? (resp, km, _) := ntorV3ServerHandshakeCore draw clientSkin edID onionPriv verification serverMsgPlain in Ok (resp, km).

(** *** Lemmas *)

Lemma hash_length `{!V3HashLaws} t s : length (ntorV3Hash t s) = 32%nat.
Proof. apply sha3_length. Qed.
Lemma mac_length `{!V3HashLaws} t k m : length (ntorV3MAC t k m) = 32%nat.
Proof. apply sha3_length. Qed.
Lemma kdf_length `{!V3HashLaws} t s n : length (ntorV3KDF t s n) = n.
Proof. apply shake_length. Qed.

Lemma encap_inj a b : ntorV3Encap a = ntorV3Encap b -> a = b.
Proof. unfold ntorV3Encap. intros Hab. by apply app_inj_1 in Hab as [_ ?]; [|rewrite !length_PutUint64]. Qed.

Lemma aesctr_spec k p : length k = 32%nat -> exists c, ntorV3AESCTR k p = Ok c /\ ntorV3AESCTR k c = Ok p /\ length c = length p.
Proof.
  intros Hk. unfold ntorV3AESCTR. rewrite Hk. cbn [NtorV3EncKeyLen Nat.eqb negb]. eexists. split; [done|].
  rewrite RelayCrypto.XORKeyStream_back. split; [done|]. apply Onion.xor_length.
Qed.

(** The five parts of an onion skin. *)
Lemma skin_parts (skin : bytes) : 128 <= len skin -> exists i b p c m : bytes, skin = i ++ b ++ p ++ c ++ m /\
  length i = 32%nat /\ length b = 32%nat /\ length p = 32%nat /\ length m = 32%nat.
Proof.
  unfold len. intros Hl. exists (take 32 skin), (take 32 (drop 32 skin)), (take 32 (drop 64 skin)),
    (take (length skin - 128) (drop 96 skin)), (drop (length skin - 32) skin).
  rewrite !length_take, !length_drop. split; [|lia].
  rewrite <- (take_drop 32 skin) at 1. f_equal. rewrite <- (take_drop 32 (drop 32 skin)) at 1. f_equal. rewrite drop_drop.
  rewrite <- (take_drop 32 (drop (32 + 32) skin)) at 1. f_equal. rewrite drop_drop. change (32 + 32 + 32)%nat with 96%nat.
  rewrite <- (take_drop (length skin - 128) (drop 96 skin)) at 1. f_equal. rewrite drop_drop. f_equal. lia.
Qed.

Lemma skin_slices (i b p c m : bytes) : length i = 32%nat -> length b = 32%nat -> length p = 32%nat -> length m = 32%nat ->
  let skin := i ++ b ++ p ++ c ++ m in
  slice skin 0 32 = i /\ slice skin 32 64 = b /\ slice skin 64 96 = p /\
  slice skin 96 (length skin - NtorV3MACLen) = c /\ drop (length skin - NtorV3MACLen) skin = m /\ len skin = 128 + len c.
Proof.
  intros Hi Hb Hp Hm skin. unfold NtorV3MACLen, slice, len, skin. rewrite !length_app, Hi, Hb, Hp, Hm.
  split_and!; [| | | | |lia].
  - rewrite drop_0. by apply take_app_length'.
  - rewrite drop_app_length' by done. by apply take_app_length'.
  - rewrite app_assoc, drop_app_length' by (rewrite length_app; lia). by apply take_app_length'.
  - rewrite app_assoc, (app_assoc _ p), drop_app_length' by (rewrite !length_app; lia). apply take_app_length'. lia.
  - rewrite app_assoc, (app_assoc _ p), (app_assoc _ c). apply drop_app_length'. rewrite !length_app. lia.
Qed.

Lemma reply_slices (Y auth sm : bytes) : length Y = 32%nat -> length auth = 32%nat ->
  let reply := Y ++ auth ++ sm in
  slice reply 0 32 = Y /\ slice reply 32 64 = auth /\ drop 64 reply = sm /\ len reply = 64 + len sm.
Proof.
  intros HY Ha reply. unfold slice, reply, len. rewrite !length_app, HY, Ha. split_and!; [| | |lia].
  - rewrite drop_0. by apply take_app_length'.
  - rewrite drop_app_length' by done. by apply take_app_length'.
  - rewrite app_assoc. apply drop_app_length'. rewrite length_app. lia.
Qed.

Lemma final_split (raw : bytes) n : length raw = (32 + n + 20)%nat ->
  slice raw 32 (32 + n) = take n (drop 32 raw) /\ slice (drop 32 raw) n (n + 20) = drop (32 + n) raw /\
  length (take n (drop 32 raw)) = n /\ length (drop (32 + n) raw) = 20%nat.
Proof.
  intros Hl. unfold slice. rewrite drop_drop, !length_take, !length_drop. replace (32 + n - 32)%nat with n by lia.
  split_and!; [done| |lia|lia]. apply firstn_all2. rewrite length_drop. lia.
Qed.

(** What the two ends derive and hash, as functions of the keys of either. *)
Definition phase1_keys (Bx edID X B v : bytes) : bytes := ntorV3KDF ntorV3TMsgKDF (phase1_input Bx edID X B v) 64.
Definition final_keys (s : bytes) (n : nat) : bytes := ntorV3KDF ntorV3TFinal (ntorV3Hash ntorV3TKeySeed s) (32 + n + 20).
Definition client_secret (priv B edID Y v : bytes) : bytes :=
  secret_input (ScalarMult priv Y) (ScalarMult priv B) edID B (ScalarBaseMult priv) Y v.
Definition relay_secret (y b edID X v : bytes) : bytes :=
  secret_input (ScalarMult y X) (ScalarMult b X) edID (ScalarBaseMult b) X (ScalarBaseMult y) v.
Definition msg_mac_input (Bx edID X B v enc : bytes) : bytes :=
  ntorV3Encap ntorV3TMsgMAC ++ ntorV3Encap (drop 32 (phase1_keys Bx edID X B v)) ++ mac_input edID B X enc.
Definition auth_hash_input (s edID B Y X mac encSM : bytes) : bytes :=
  ntorV3Encap ntorV3TAuth ++ auth_input (ntorV3Hash ntorV3TVerify s) edID B Y X mac encSM.

(** What a client sends and keeps. *)
Lemma client_sends edID B v cm priv skin st :
  ntorV3ClientHandshakeWithKey edID B v cm priv = Ok (skin, st) ->
  let X := ScalarBaseMult priv in let Bx := ScalarMult priv B in
  exists enc, let mac := sha3_256 (msg_mac_input Bx edID X B v enc) in
    ntorV3AESCTR (take 32 (phase1_keys Bx edID X B v)) cm = Ok enc /\ skin = edID ++ B ++ X ++ enc ++ mac /\
    st = mkState priv X B edID Bx mac 0 [] /\ isAllZero Bx = false /\
    length edID = 32%nat /\ length B = 32%nat /\ length priv = 32%nat.
Proof.
  unfold ntorV3ClientHandshakeWithKey. destruct (Z.eqb_spec (len edID) 32) as [Hi|]; [|done].
  destruct (Z.eqb_spec (len B) 32) as [Hk|]; [|done]. destruct (Z.eqb_spec (len priv) 32) as [Hp|]; [|done]. cbn [negb].
  destruct (isAllZero edID || isAllZero B); [done|]. cbv zeta. destruct (isAllZero (ScalarMult priv B)) eqn:Hz; [done|].
  intros (enc & He & [= <- <-])%result_bind_ok. unfold len in *. exists enc. split_and!; [done..|lia|lia|lia].
Qed.

(** What a client accepts: a point, the digest of its transcript, and a message. *)
Lemma v3_client_accepts reply priv B edID mac k v st' km m :
  let X := ScalarBaseMult priv in
  let st := mkState priv X B edID (ScalarMult priv B) mac k [] in
  NtorV3ProcessResponse reply (Some st) v = (st', Ok (km, m)) ->
  let Y := slice reply 0 32 in let encSM := drop 64 reply in
  let s := client_secret priv B edID Y v in
  let n := if (0 <? k)%nat then k else 72%nat in
  let raw := final_keys s n in
  slice reply 32 64 = sha3_256 (auth_hash_input s edID B Y X mac encSM) /\
  ntorV3AESCTR (take 32 raw) encSM = Ok m /\ km = take n (drop 32 raw) /\ st' = Some (set_nonce st (slice (drop 32 raw) n (n + 20))).
Proof.
  cbv zeta. unfold NtorV3ProcessResponse. destruct (len reply <? _); [done|]. cbv zeta. destruct (isAllZero (slice reply 0 32)); [done|].
  cbn [x NtorV3.X NtorV3.B ID Bx msgMAC keyMaterialLen]. destruct (isAllZero (ScalarMult priv _)); [done|].
  destruct (Conversion.ConstantTimeCompare _ _) eqn:Ha; [|done]. apply Conversion.ConstantTimeCompare_spec in Ha. cbn [negb].
  destruct (ntorV3AESCTR _ (drop 64 reply)) as [m0|] eqn:Hm; [|done]. intros [= <- <- <-]. done.
Qed.

(** What a relay answers: the parts of the skin it was sent, the message in it,
    and its reply. *)
Lemma v3_server_answers `{!V3HashLaws} draw skin edID b v sm resp km nonce :
  ntorV3ServerHandshakeCore draw skin edID b v sm = Ok (resp, km, nonce) ->
  exists y X enc cm cgo, let B := ScalarBaseMult b in let Bx := ScalarMult b X in let Y := ScalarBaseMult y in
    let mac := sha3_256 (msg_mac_input Bx edID X B v enc) in
    let s := relay_secret y b edID X v in
    let n := if cgo : bool then CGO.CGOKeyMaterialLen else 72%nat in
    let raw := final_keys s n in
    skin = edID ++ B ++ X ++ enc ++ mac /\ draw = Some y /\
    length edID = 32%nat /\ length b = 32%nat /\ length X = 32%nat /\
    ntorV3AESCTR (take 32 (phase1_keys Bx edID X B v)) enc = Ok cm /\ NtorV3ClientRequestedCGO cm = Ok cgo /\
    km = take n (drop 32 raw) /\ nonce = drop (32 + n) raw /\
    exists encSM, ntorV3AESCTR (take 32 raw) (default (EncodeNtorV3Extensions []) sm) = Ok encSM /\
      resp = Y ++ sha3_256 (auth_hash_input s edID B Y X mac encSM) ++ encSM.
Proof.
  unfold ntorV3ServerHandshakeCore, NtorV3FixedClientLen. destruct (Z.eqb_spec (len edID) 32) as [Hi|]; [|done].
  destruct (Z.eqb_spec (len b) 32) as [Hb|]; [|done]. cbn [negb]. destruct (Z.ltb_spec (len skin) 128) as [|Hs]; [done|].
  destruct (skin_parts skin Hs) as (i & B' & X & enc & m & -> & Hli & HlB & HlX & Hlm).
  destruct (skin_slices i B' X enc m Hli HlB HlX Hlm) as (-> & -> & -> & -> & -> & _). cbv zeta.
  destruct (Conversion.ConstantTimeCompare i edID) eqn:E1; [|done]. destruct (Conversion.ConstantTimeCompare B' _) eqn:E2; [|done].
  apply Conversion.ConstantTimeCompare_spec in E1, E2. subst i B'. cbn [negb]. destruct (isAllZero X); [done|].
  destruct (isAllZero (ScalarMult b X)); [done|]. destruct (Conversion.ConstantTimeCompare m _) eqn:E3; [|done].
  apply Conversion.ConstantTimeCompare_spec in E3. subst m. cbn [negb].
  intros (cm & Hcm & Hr)%result_bind_ok. destruct (NtorV3ClientRequestedCGO cm) as [cgo|] eqn:Hg; [|done].
  unfold Ntor.GenerateNtorKeyPair in Hr. destruct draw as [y|]; [|done]. cbn [Ntor.Private Ntor.Public] in Hr.
  destruct (isAllZero (ScalarMult y X)); [done|]. apply result_bind_ok in Hr as (encSM & Hsm & [= <- <- <-]).
  unfold len in *. exists y, X, enc, cm, cgo. cbv zeta. split_and!; [done|done|lia|lia|done|done|done| |done|by exists encSM].
  destruct cgo; (apply final_split; apply kdf_length).
Qed.

(** Client and relay agree, and each gets the other's message. *)
Lemma v3_agreement `{!V3HashLaws} `{!CurveLaws} edID b v cm cgo priv y sm skin st :
  ntorV3ClientHandshakeWithKey edID (ScalarBaseMult b) v cm priv = Ok (skin, st) ->
  NtorV3ClientRequestedCGO cm = Ok cgo -> length b = 32%nat -> length y = 32%nat ->
  isAllZero (ScalarBaseMult priv) = false -> isAllZero (ScalarBaseMult y) = false ->
  isAllZero (ScalarMult priv (ScalarBaseMult y)) = false ->
  let n := if cgo : bool then CGO.CGOKeyMaterialLen else 72%nat in
  let st := if cgo : bool then SetKeyMaterialLen CGO.CGOKeyMaterialLen st else st in
  exists resp km nonce, ntorV3ServerHandshakeCore (Some y) skin edID b v (Some sm) = Ok (resp, km, nonce) /\
    NtorV3ProcessResponse resp (Some st) v = (Some (set_nonce st nonce), Ok (km, sm)) /\
    length km = n /\ length nonce = 20%nat /\ len resp = 64 + len sm.
Proof.
  intros Hc Hg Hb Hy Hz1 Hz2 Hz3. apply client_sends in Hc. cbv zeta in Hc. destruct Hc as (enc & He & -> & -> & HzB & Hi & HlB & Hp).
  pose proof (base_length priv Hp) as HlX. pose proof (base_length y Hy) as HlY.
  pose proof (exchange b priv Hb Hp) as Eb. pose proof (exchange y priv Hy Hp) as Ey.
  set (X0 := ScalarBaseMult priv) in *. set (B0 := ScalarBaseMult b) in *. set (Y := ScalarBaseMult y) in *.
  set (keys := phase1_keys (ScalarMult priv B0) edID X0 B0 v) in *.
  assert (length (take 32 keys) = 32%nat) as Hk by (rewrite length_take; unfold keys, phase1_keys; rewrite kdf_length; lia).
  set (mac := sha3_256 (msg_mac_input (ScalarMult priv B0) edID X0 B0 v enc)).
  set (s := client_secret priv B0 edID Y v).
  set (n := if cgo then CGO.CGOKeyMaterialLen else 72%nat).
  set (raw := final_keys s n).
  assert (length raw = (32 + n + 20)%nat) as Hraw by apply kdf_length.
  destruct (final_split raw n Hraw) as (F1 & F2 & F3 & F4).
  destruct (aesctr_spec (take 32 raw) sm) as (encSM & HsM & HsM' & HlM); [rewrite length_take; lia|].
  set (auth := sha3_256 (auth_hash_input s edID B0 Y X0 mac encSM)).
  assert (length auth = 32%nat) as Hla by apply sha3_length.
  destruct (reply_slices Y auth encSM HlY Hla) as (R1 & R2 & R3 & R4).
  exists (Y ++ auth ++ encSM), (take n (drop 32 raw)), (drop (32 + n) raw). split_and!; [| |done|done|rewrite R4; unfold len; lia].
  - unfold ntorV3ServerHandshakeCore, NtorV3FixedClientLen. rewrite (f_equal Z.of_nat Hi : len edID = 32), (f_equal Z.of_nat Hb : len b = 32).
    change (negb (32 =? 32)) with false. cbv iota.
    destruct (skin_slices edID B0 X0 enc mac Hi HlB HlX (sha3_length _)) as (S1 & S2 & S3 & S4 & S5 & S6).
    rewrite S1, S2, S3, S4, S5, S6. rewrite (proj2 (Z.ltb_ge _ _)) by (unfold len; lia). cbv zeta. fold B0.
    rewrite !Conversion.ConstantTimeCompare_refl, Hz1, Eb, HzB. cbn [negb].
    change (ntorV3KDF ntorV3TMsgKDF (phase1_input (ScalarMult priv B0) edID X0 B0 v) (NtorV3EncKeyLen + NtorV3MACLen)) with keys.
    change NtorV3EncKeyLen with 32%nat. change (ntorV3MAC ntorV3TMsgMAC (drop 32 keys) (mac_input edID B0 X0 enc)) with mac.
    rewrite Conversion.ConstantTimeCompare_refl. cbn [negb].
    destruct (aesctr_spec (take 32 keys) cm Hk) as (enc' & He' & Hd & _). rewrite He in He'. injection He' as <-. rewrite Hd. cbn [result_bind].
    rewrite Hg. cbn [Ntor.GenerateNtorKeyPair Ntor.Private Ntor.Public]. fold Y. rewrite Ey, Hz3.
    change (secret_input (ScalarMult priv Y) (ScalarMult priv B0) edID B0 X0 Y v) with s. change NtorV3KeyMaterialLen with 72%nat. fold n.
    change (ntorV3KDF ntorV3TFinal (ntorV3Hash ntorV3TKeySeed s) (32 + n + Ntor.NtorCircNonceLen)) with raw. cbn [default from_option id].
    rewrite HsM. cbn [result_bind]. by rewrite F1.
  - assert (forall k, k = n -> k <> 0%nat -> NtorV3ProcessResponse (Y ++ auth ++ encSM) (Some (mkState priv X0 B0 edID (ScalarMult priv B0) mac (if cgo then k else 0) [])) v =
      (Some (mkState priv X0 B0 edID (ScalarMult priv B0) mac (if cgo then k else 0) (drop (32 + n) raw)), Ok (take n (drop 32 raw), sm))) as Hmain.
    { intros k Hkn Hk0. unfold NtorV3ProcessResponse, NtorV3FixedServerLen. rewrite R1, R2, R3, R4.
      rewrite (proj2 (Z.ltb_ge _ _)) by (unfold len; lia). cbv zeta. rewrite Hz2. cbn [x X B ID Bx msgMAC keyMaterialLen]. rewrite Hz3.
      change (secret_input (ScalarMult priv Y) (ScalarMult priv B0) edID B0 X0 Y v) with s.
      change (ntorV3Hash ntorV3TAuth (auth_input (ntorV3Hash ntorV3TVerify s) edID B0 Y X0 mac encSM)) with auth.
      rewrite Conversion.ConstantTimeCompare_refl. cbn [negb].
      assert ((if (0 <? (if cgo then k else 0))%nat then (if cgo then k else 0)%nat else NtorV3KeyMaterialLen) = n) as ->.
      { unfold n in *. destruct cgo; [|done]. by rewrite (proj2 (Nat.ltb_lt _ _)) by lia. }
      change NtorV3EncKeyLen with 32%nat. change Ntor.NtorCircNonceLen with 20%nat. fold (final_keys s n). fold raw. rewrite HsM', F2. done. }
    destruct cgo; exact (Hmain n eq_refl ltac:(unfold n; cbv; lia)).
Qed.

(** *** Properties *)

(** Two inputs with one digest. *)
Definition clash (m m' : bytes) : Prop := m <> m' /\ sha3_256 m = sha3_256 m'.

(** The ways a client can take the answer to another skin for its own: SHA3-256
    collides on what the two ends hash for the answer, for the secret, or for the
    client's message. *)
Definition confused (priv B edID v skin y b' edID' v' skin' encSM : bytes) : Prop :=
  let X := ScalarBaseMult priv in let Y := ScalarBaseMult y in
  let B' := ScalarBaseMult b' in let X' := slice skin' 64 96 in
  let enc s := slice s 96 (length s - 32) in
  let mac s := drop (length s - 32) s in
  let s := client_secret priv B edID Y v in
  let s' := relay_secret y b' edID' X' v' in
  clash (auth_hash_input s edID B Y X (mac skin) encSM) (auth_hash_input s' edID' B' Y X' (mac skin') encSM) \/
  clash (ntorV3Encap ntorV3TVerify ++ s) (ntorV3Encap ntorV3TVerify ++ s') \/
  clash (msg_mac_input (ScalarMult priv B) edID X B v (enc skin)) (msg_mac_input (ScalarMult b' X') edID' X' B' v' (enc skin')).

(** Without a collision the ends have the same transcript. *)
Lemma transcripts_agree `{!CurveLaws} `{!V3HashLaws} priv B edID v enc b' edID' v' X' enc' y encSM :
  let X := ScalarBaseMult priv in let Y := ScalarBaseMult y in let B' := ScalarBaseMult b' in
  let i := msg_mac_input (ScalarMult priv B) edID X B v enc in
  let i' := msg_mac_input (ScalarMult b' X') edID' X' B' v' enc' in
  let s := client_secret priv B edID Y v in
  let s' := relay_secret y b' edID' X' v' in
  let a := auth_hash_input s edID B Y X (sha3_256 i) encSM in
  let a' := auth_hash_input s' edID' B' Y X' (sha3_256 i') encSM in
  length edID = 32%nat -> length B = 32%nat -> length X = 32%nat ->
  length edID' = 32%nat -> length B' = 32%nat -> length X' = 32%nat ->
  length priv = 32%nat -> length b' = 32%nat -> length y = 32%nat -> sha3_256 a = sha3_256 a' ->
  (edID' = edID /\ B' = B /\ X' = X /\ v' = v /\ enc' = enc /\ s' = s) \/
  clash a a' \/ clash (ntorV3Encap ntorV3TVerify ++ s) (ntorV3Encap ntorV3TVerify ++ s') \/ clash i i'.
Proof.
  intros X Y B' i i' s s' a a' Hi HB HX Hi' HB' HX' Hp Hb Hy Haa.
  destruct (decide (a = a')) as [Ha|Ha]; [|right; left; by split]. unfold a, a', auth_hash_input in Ha. apply app_inv_head in Ha.
  unfold auth_input in Ha. apply app_inj_1 in Ha as [Hv Ha]; [|by rewrite !hash_length].
  apply app_inj_1 in Ha as [Ei Ha]; [|lia]. apply app_inj_1 in Ha as [EB Ha]; [|lia]. apply app_inv_head in Ha.
  apply app_inj_1 in Ha as [EX Ha]; [|lia]. apply app_inj_1 in Ha as [Em _]; [|by rewrite !sha3_length].
  destruct (decide (ntorV3Encap ntorV3TVerify ++ s = ntorV3Encap ntorV3TVerify ++ s')) as [Hs|Hs]; [|right; right; left; by split].
  apply app_inv_head in Hs. assert (v = v') as Evv.
  { unfold s, s', client_secret, relay_secret, secret_input in Hs. rewrite !app_assoc in Hs.
    apply app_inj_2 in Hs as [_ Hs]; [by apply encap_inj|]. pose proof (f_equal length Hs) as Hl. rewrite !length_app in Hl.
    fold B' X Y in Hl. rewrite (mult_length priv Y Hp (base_length y Hy)), (mult_length priv B Hp HB),
      (mult_length y X' Hy HX'), (mult_length b' X' Hb HX') in Hl. lia. }
  destruct (decide (i = i')) as [Hm|Hm]; [|right; right; right; by split]. left.
  unfold i, i', msg_mac_input in Hm. apply app_inv_head in Hm. subst edID' v'. rewrite <- EX, <- EB in Hm.
  assert (ScalarMult b' X = ScalarMult priv B) as Hdh by (rewrite EB; by apply exchange). rewrite Hdh in Hm.
  apply app_inv_head in Hm. unfold mac_input in Hm. do 3 apply app_inv_head in Hm. by rewrite Hs.
Qed.

(** When both ends finish on the client's own skin, they have the same keys and
    each has the other's message. *)
Lemma v3_same `{!CurveLaws} `{!V3HashLaws} edID B v cm cgo priv skin st b y sm reply km' nonce' st' km m :
  ntorV3ClientHandshakeWithKey edID B v cm priv = Ok (skin, st) -> NtorV3ClientRequestedCGO cm = Ok cgo -> length y = 32%nat ->
  let n := if cgo : bool then CGO.CGOKeyMaterialLen else 72%nat in
  let st := if cgo : bool then SetKeyMaterialLen CGO.CGOKeyMaterialLen st else st in
  forall edID', ntorV3ServerHandshakeCore (Some y) skin edID' b v (Some sm) = Ok (reply, km', nonce') ->
  NtorV3ProcessResponse reply (Some st) v = (st', Ok (km, m)) ->
  km' = km /\ st' = Some (set_nonce st nonce') /\ m = sm /\ length km = n /\ length nonce' = 20%nat.
Proof.
  intros Hc Hg Hy n st1 edID' Hs Hp.
  apply client_sends in Hc. cbv zeta in Hc. destruct Hc as (enc & He & Hskin & Hst & _ & Hi & HlB & Hlp).
  apply v3_server_answers in Hs. cbv zeta in Hs.
  destruct Hs as (y' & X' & enc' & cm' & cgo' & Hskin' & [= <-] & Hi' & Hb' & HlX' & Hcm' & Hg' & Hkm' & Hno' & encSM & Hsm & Hreply).
  pose proof (base_length priv Hlp) as HlX. pose proof (base_length y Hy) as HlY. pose proof (base_length b Hb') as HlB'.
  rewrite Hskin in Hskin'. apply app_inj_1 in Hskin' as [Ei Hskin']; [|lia]. apply app_inj_1 in Hskin' as [EB Hskin']; [|lia].
  apply app_inj_1 in Hskin' as [EX Hskin']; [|lia]. apply app_inj_2 in Hskin' as [Ee _]; [|by rewrite !sha3_length].
  subst edID' X' enc'. rewrite <- EB in Hcm', Hreply.
  assert (ScalarMult b (ScalarBaseMult priv) = ScalarMult priv B) as Hdh by (rewrite (exchange b priv Hb' Hlp); by f_equal).
  rewrite Hdh in Hcm', Hreply.
  assert (relay_secret y b edID (ScalarBaseMult priv) v = client_secret priv B edID (ScalarBaseMult y) v) as Es.
  { unfold relay_secret, client_secret. by rewrite Hdh, <- EB, (exchange y priv Hy Hlp). }
  rewrite Es in Hkm', Hno', Hsm, Hreply. set (s := client_secret priv B edID (ScalarBaseMult y) v) in *.
  assert (cm' = cm) as Ecm.
  { destruct (aesctr_spec (take 32 (phase1_keys (ScalarMult priv B) edID (ScalarBaseMult priv) B v)) cm) as (e & He1 & He2 & _).
    - rewrite length_take. unfold phase1_keys. rewrite kdf_length. lia.
    - rewrite He in He1. injection He1 as <-. rewrite Hcm' in He2. by injection He2. }
  rewrite Ecm, Hg in Hg'. injection Hg' as <-. cbn [default from_option id] in Hsm. fold n in Hsm, Hkm', Hno'.
  assert (st1 = mkState priv (ScalarBaseMult priv) B edID (ScalarMult priv B)
    (sha3_256 (msg_mac_input (ScalarMult priv B) edID (ScalarBaseMult priv) B v enc)) (if cgo then CGO.CGOKeyMaterialLen else 0%nat) []) as Hst1
    by (unfold st1; destruct cgo; by subst st).
  rewrite Hst1 in Hp. apply v3_client_accepts in Hp. cbv zeta in Hp. destruct Hp as (_ & Hm & Hkm & Hst').
  destruct (reply_slices (ScalarBaseMult y) (sha3_256 (auth_hash_input s edID B (ScalarBaseMult y) (ScalarBaseMult priv)
    (sha3_256 (msg_mac_input (ScalarMult priv B) edID (ScalarBaseMult priv) B v enc)) encSM)) encSM HlY (sha3_length _)) as (R1 & _ & R3 & _).
  rewrite Hreply, R1, R3 in *. fold s in Hm, Hkm, Hst'.
  assert ((if (0 <? (if cgo then CGO.CGOKeyMaterialLen else 0))%nat then (if cgo then CGO.CGOKeyMaterialLen else 0)%nat else 72%nat) = n) as Hn
    by (unfold n; by destruct cgo).
  rewrite Hn in Hm, Hkm, Hst'.
  destruct (final_split (final_keys s n) n) as (_ & F2 & F3 & F4); [apply kdf_length|].
  destruct (aesctr_spec (take 32 (final_keys s n)) sm) as (e & He1 & He2 & _).
  { rewrite length_take. unfold final_keys. rewrite kdf_length. lia. }
  rewrite Hsm in He1. injection He1 as <-. rewrite Hm in He2. injection He2 as ->.
  split_and!; [by rewrite Hkm', Hkm| |done|by rewrite Hkm|by rewrite Hno']. by rewrite Hst', Hst1, F2, Hno'.
Qed.

(** C7: The ntor-v3 handshake agrees, carries both messages, and authenticates relay
    and messages.  A relay with the identity and onion key the client asked for
    reads the client's message and decides by it on the keys' length; from the
    answer the client gets the relay's key material, nonce and message.
    Conversely, when a client accepts an answer some relay gave to some onion skin
    under some verification string, it was this client's skin to the byte, under
    its verification string, by the relay it asked for, who has the same keys and
    sent exactly that message; or SHA3-256 collides on inputs of the two ends. *)
Theorem ntor_v3_handshake_sound `{!CurveLaws} `{!V3HashLaws} edID B v cm cgo priv skin st :
  ntorV3ClientHandshakeWithKey edID B v cm priv = Ok (skin, st) -> NtorV3ClientRequestedCGO cm = Ok cgo ->
  let n := if cgo : bool then CGO.CGOKeyMaterialLen else 72%nat in
  let st := if cgo : bool then SetKeyMaterialLen CGO.CGOKeyMaterialLen st else st in
  (forall b y sm, B = ScalarBaseMult b -> length b = 32%nat -> length y = 32%nat ->
     isAllZero (ScalarBaseMult priv) = false -> isAllZero (ScalarBaseMult y) = false ->
     isAllZero (ScalarMult priv (ScalarBaseMult y)) = false ->
     exists reply km nonce, ntorV3ServerHandshakeCore (Some y) skin edID b v (Some sm) = Ok (reply, km, nonce) /\
       NtorV3ProcessResponse reply (Some st) v = (Some (set_nonce st nonce), Ok (km, sm)) /\
       length km = n /\ length nonce = 20%nat) /\
  (forall b' edID' v' skin' y sm reply km' nonce' st' km m, length y = 32%nat ->
     ntorV3ServerHandshakeCore (Some y) skin' edID' b' v' (Some sm) = Ok (reply, km', nonce') ->
     NtorV3ProcessResponse reply (Some st) v = (st', Ok (km, m)) ->
     (skin' = skin /\ edID' = edID /\ ScalarBaseMult b' = B /\ v' = v /\ km' = km /\ st' = Some (set_nonce st nonce') /\ m = sm) \/
     confused priv B edID v skin y b' edID' v' skin' (drop 64 reply)).
Proof.
  intros Hc Hg n st1. split.
  { intros b y sm -> Hb Hy Z1 Z2 Z3. destruct (v3_agreement edID b v cm cgo priv y sm skin st) as (r & km & no & ? & ? & ? & ? & _); [done..|].
    by exists r, km, no. }
  intros b' edID' v' skin' y sm reply km' nonce' st' km m Hy Hs Hp.
  pose proof Hc as Hc0. pose proof Hs as Hs0. pose proof Hp as Hp0.
  apply client_sends in Hc. cbv zeta in Hc. destruct Hc as (enc & He & Hskin & Hst & _ & Hi & HlB & Hlp).
  apply v3_server_answers in Hs. cbv zeta in Hs.
  destruct Hs as (y' & X' & enc' & cm' & cgo' & Hskin' & [= <-] & Hi' & Hb' & HlX' & Hcm' & Hg' & Hkm' & Hno' & encSM & Hsm & Hreply).
  pose proof (base_length priv Hlp) as HlX. pose proof (base_length y Hy) as HlY. pose proof (base_length b' Hb') as HlB'.
  pose proof (skin_slices _ _ _ enc _ Hi HlB HlX (sha3_length (msg_mac_input (ScalarMult priv B) edID (ScalarBaseMult priv) B v enc))) as (_ & _ & _ & S4 & S5 & _).
  pose proof (skin_slices _ _ _ enc' _ Hi' HlB' HlX' (sha3_length (msg_mac_input (ScalarMult b' X') edID' X' (ScalarBaseMult b') v' enc'))) as (_ & _ & T3 & T4 & T5 & _).
  rewrite <- Hskin in S4, S5. rewrite <- Hskin' in T3, T4, T5. change NtorV3MACLen with 32%nat in *.
  pose proof (reply_slices (ScalarBaseMult y) _ encSM HlY (sha3_length (auth_hash_input (relay_secret y b' edID' X' v') edID' (ScalarBaseMult b')
    (ScalarBaseMult y) X' (sha3_256 (msg_mac_input (ScalarMult b' X') edID' X' (ScalarBaseMult b') v' enc')) encSM))) as (R1 & R2 & R3 & _).
  rewrite <- Hreply in R1, R2, R3.
  assert (st1 = mkState priv (ScalarBaseMult priv) B edID (ScalarMult priv B)
    (sha3_256 (msg_mac_input (ScalarMult priv B) edID (ScalarBaseMult priv) B v enc)) (if cgo then CGO.CGOKeyMaterialLen else 0%nat) []) as Hst1
    by (unfold st1; destruct cgo; by subst st).
  rewrite Hst1 in Hp. apply v3_client_accepts in Hp. cbv zeta in Hp. rewrite R1, R2, R3 in Hp. destruct Hp as (Hauth & Hm & Hkm & Hst').
  unfold confused. cbv zeta. rewrite S4, S5, T3, T4, T5, R3.
  destruct (transcripts_agree priv B edID v enc b' edID' v' X' enc' y encSM Hi HlB HlX Hi' HlB' HlX' Hlp Hb' Hy (eq_sym Hauth))
    as [(Ei & EB & EX & Ev & Ee & Es)|Hcl]; [|by right].
  left. assert (skin' = skin) as Esk.
  { rewrite Hskin', Hskin, Ei, EB, EX, Ev, Ee. by rewrite (exchange b' priv Hb' Hlp), EB. }
  rewrite Esk, Ev in Hs0. destruct (v3_same _ _ _ _ _ _ _ _ _ _ _ _ _ _ _ _ _ Hc0 Hg Hy _ Hs0 Hp0) as (-> & -> & -> & _ & _). done.
Qed.

End NtorV3.

(** ** A concrete handshake *)

#[local] Existing Instances Ntor.toy_curve Ntor.toy_curve_laws.

#[export] Instance toy_v3_hash : V3Hash :=
  {| sha3_256 m := Ntor.toy_fit 32 (drop 40 m ++ m); shake256 m n := Ntor.toy_fit n (drop 40 m ++ m) |}.
#[export] Instance toy_v3_laws : V3HashLaws.
Proof. split; intros; apply Ntor.toy_fit_length. Qed.

Lemma ntor_v3_handshake_sound_witness :
  let v := NtorV3CircuitVerification in let cm := [2; 1; 0; 3; 2; 2; 6] in
  exists skin st reply km nonce,
    ntorV3ClientHandshakeWithKey RelayCrypto.toy_block (repeat 7 32) (repeat 9 32) v cm (repeat 3 32) = Ok (skin, st) /\
    ntorV3ServerHandshakeCore RelayCrypto.toy_block (Some (repeat 5 32)) skin (repeat 7 32) (repeat 9 32) v (Some [1; 2; 1; 31]) =
      Ok (reply, km, nonce) /\
    (NtorV3ProcessResponse RelayCrypto.toy_block reply (Some (SetKeyMaterialLen 160 st)) v).2 = Ok (km, [1; 2; 1; 31]) /\ length km = 160%nat.
Proof.
  intros v cm.
  assert (exists skin st, ntorV3ClientHandshakeWithKey RelayCrypto.toy_block (repeat 7 32) (repeat 9 32) v cm (repeat 3 32) = Ok (skin, st))
    as (skin & st & Hc) by (do 2 eexists; vm_compute; reflexivity).
  destruct (ntor_v3_handshake_sound RelayCrypto.toy_block (repeat 7 32) (repeat 9 32) v cm true (repeat 3 32) skin st Hc eq_refl) as [Ha _].
  destruct (Ha (repeat 9 32) (repeat 5 32) [1; 2; 1; 31] eq_refl eq_refl eq_refl eq_refl eq_refl eq_refl) as (reply & km & nonce & Hs & Hp & Hl & _).
  exists skin, st, reply, km, nonce. split; [exact Hc|split; [exact Hs|split; [|exact Hl]]].
  exact (f_equal snd Hp).
Defined.

End NtorV3.
