(* ===== verification/CircuitBuild.v ===== *)
(** * Building circuits (pkg/circuit/extension.go, builder.go, pkg/relay/circuit_handler.go)

    The client's handshakes with the relays of a path, from the choice of the
    handshake to the hop added to the circuit, and the relay's side of CREATE2;
    then the two together: a circuit grows over the circuit built so far.
    Handshakes are those of Ntor.v and NtorV3.v, bodies of cells those of
    Extend2.v, layers those of RelayCrypto.v.  Sending a cell and waiting for the
    answer to it is the argument [exchange] of the operations that do it. *)

From Stdlib Require Import String.
From S2P Require Import Prelude Conversion GoStrings Cell RelayCell FlowControl CGO Onion RelayCrypto Extend2 Ntor NtorV3.
Import GoStrings Ntor(Curve, CurveLaws, NtorHash, NtorHashLaws, ScalarMult, ScalarBaseMult, isAllZero) NtorV3(V3Hash, V3HashLaws).
Import Cell(Cell, mkCell, CircID, Command, Payload) Extend2(outcome, Done, Fail, Panic).

Module CircuitBuild.

(** ** State *)

(** The relay to extend to, by the interfaces it implements. *)
Record Target := mkTarget {
  relay : Extend2.Relay;
  useNtorV3 : option bool;
  requestCongestion : option bool;
  supports : option (bytes -> Z -> bool);
  fingerprintHex : option bytes;
}.

Record Extension := mkExtension {
  targetRelay : option Target;
  ephemeralPrivate : option bytes;
  serverIdentity : bytes;
  serverNtorKey : bytes;
  handshakeType : Z;
  ntorv3State : option NtorV3.NtorV3ClientState;
  requestCC : bool;
  requestCGO : bool;
}.

Definition NewExtension : Extension := mkExtension None None [] [] 0 None false false.
Definition SetTargetRelay (r : Target) (e : Extension) : Extension :=
  mkExtension (Some r) (ephemeralPrivate e) (serverIdentity e) (serverNtorKey e) (handshakeType e) (ntorv3State e) (requestCC e)
    (requestCGO e).
Definition set_type (e : Extension) (t : Z) : Extension :=
  mkExtension (targetRelay e) (ephemeralPrivate e) (serverIdentity e) (serverNtorKey e) t (ntorv3State e) (requestCC e) (requestCGO e).
Definition set_server (e : Extension) (id key : bytes) : Extension :=
  mkExtension (targetRelay e) (ephemeralPrivate e) id key (handshakeType e) (ntorv3State e) (requestCC e) (requestCGO e).
Definition set_requests (e : Extension) (cc cgo : bool) : Extension :=
  mkExtension (targetRelay e) (ephemeralPrivate e) (serverIdentity e) (serverNtorKey e) (handshakeType e) (ntorv3State e) cc cgo.
Definition set_secret (e : Extension) (priv : option bytes) (st : option NtorV3.NtorV3ClientState) : Extension :=
  mkExtension (targetRelay e) priv (serverIdentity e) (serverNtorKey e) (handshakeType e) st (requestCC e) (requestCGO e).

(** A hop with its keys, and what of the circuit building depends on. *)
Record hop := mkHop { keys : Onion.Hop (G := CGO.CGOPair); RendCircNonce : bytes; Fingerprint : bytes }.
Record circuit := mkCircuit { state : FlowControl.State; hops : list hop; flow : FlowControl.Flow }.

Inductive error :=
| errKeys (e : Extend2.error)
| errSubproto (e : NtorV3.error)
| errCGOWithoutCC
| errClientMsg (e : NtorV3.error)
| errNtorV3 (e : NtorV3.error)
| errNtor (e : Ntor.error)
| errRandom
| errHandshakeType (t : Z)
| errNoState
| errNoEphemeral
| errCGOKeyMaterial (n : Z)
| errKeyMaterial (n : Z)
| errDerive (e : RelayCrypto.error)
| errAddHop (s : FlowControl.State)
| errServerMsg (e : NtorV3.error)
| errNoCell
| errCommand (c : Z)
| errBody (e : Extend2.error)
| errNoConnection
| errExchange
| errRelayCell (e : RelayCell.error)
| errMissingKeys.

Definition HandshakeTypeFor (r : Target) : Z := if default false (useNtorV3 r) then Extend2.HandshakeTypeNtorV3 else Extend2.HandshakeTypeNTor.
Definition requestCCFor (r : option Target) : bool := default false (r ≫= requestCongestion).
Definition subprotoCapsFor (r : option Target) : result NtorV3.error (list NtorV3.SubprotoCap) := NtorV3.SelectSubprotoRequest (r ≫= supports).

Definition is_cgo (c : NtorV3.SubprotoCap) : bool :=
  (NtorV3.ProtocolID c =? NtorV3.ProtoRelay) && (NtorV3.Cap c =? NtorV3.CapRelayCGO).

Definition AddHop (c : circuit) (h : hop) : circuit * option error :=
  if bool_decide (state c = FlowControl.StateBuilding) then (mkCircuit (state c) (hops c ++ [h]) (flow c), None)
  else (c, Some (errAddHop (state c))).

(** A relay of the path, as the builder asks it. *)
Record node := mkNode { target : Target; HasNtorKeys : bool; HasExtendKeys : bool; address : option (bytes * Z) }.

(** Connecting to the guard with the link handshake, the ephemeral keys, and the
    answers of the relays, by the place of the hop. *)
Record build_env (W : Type) := mkBuildEnv {
  connected : bool;
  draws : nat -> option bytes;
  created : W -> bytes -> W * option Cell;
  extended : nat -> W -> circuit -> RelayCell.RelayCell -> W * circuit * option RelayCell.RelayCell;
}.
Arguments mkBuildEnv {W}.
Arguments connected {W}.
Arguments draws {W}.
Arguments created {W}.
Arguments extended {W}.

Section Build.
Context `{Curve} `{NtorHash} `{V3Hash} (Encrypt : bytes -> bytes -> bytes).

(** ** The client *)

(** [draw] is the ephemeral private key, or the random bytes of a TAP handshake. *)
Definition generateHandshakeData (draw : option bytes) (htype : Z) (e : Extension) : Extension * result error bytes :=
  let e := set_type e htype in
  if htype =? Extend2.HandshakeTypeNtorV3 then
    match Extend2.getNtorV3Keys (relay <$> targetRelay e) with
    | Err x => (e, Err (errKeys x))
    | Ok (edID, ntorKey) =>
        let e := set_server e edID ntorKey in
        let e := set_requests e (requestCCFor (targetRelay e)) (requestCGO e) in
        match subprotoCapsFor (targetRelay e) with
        | Err x => (e, Err (errSubproto x))
        | Ok caps =>
            if (0 <? length caps)%nat && negb (requestCC e) then (e, Err errCGOWithoutCC)
            else
              let e := set_requests e (requestCC e) (existsb is_cgo caps) in
              match NtorV3.EncodeNtorV3ClientMsg (requestCC e) caps with
              | Err x => (e, Err (errClientMsg x))
              | Ok cm =>
                  match NtorV3.NtorV3ClientHandshake Encrypt draw edID ntorKey NtorV3.NtorV3CircuitVerification cm with
                  | Err x => (e, Err (errNtorV3 x))
                  | Ok (skin, st) =>
                      let st := if requestCGO e then NtorV3.SetKeyMaterialLen CGO.CGOKeyMaterialLen st else st in
                      (set_secret e (ephemeralPrivate e) (Some st), Ok skin)
                  end
              end
        end
    end
  else if htype =? Extend2.HandshakeTypeNTor then
    match Extend2.getRelayKeys (relay <$> targetRelay e) with
    | Err x => (e, Err (errKeys x))
    | Ok (nodeID, ntorKey) =>
        let e := set_server e nodeID ntorKey in
        match Ntor.NtorClientHandshake draw nodeID ntorKey with
        | Err x => (e, Err (errNtor x))
        | Ok (data, priv) => (set_secret e (Some priv) (ntorv3State e), Ok data)
        end
    end
  else if htype =? Extend2.HandshakeTypeTAP then
    match draw with None => (e, Err errRandom) | Some data => (e, Ok data) end
  else (e, Err (errHandshakeType htype)).

(** The keys of the handshake: key material, the relay's message and the nonce.
    The secrets are gone afterwards, whatever the outcome. *)
Definition finish_keys (response : bytes) (e : Extension) : Extension * result error (bytes * bytes * bytes) :=
  if handshakeType e =? Extend2.HandshakeTypeNtorV3 then
    match ntorv3State e with
    | None => (e, Err errNoState)
    | Some st =>
        let e' := set_secret e (ephemeralPrivate e) None in
        match NtorV3.NtorV3ProcessResponse Encrypt response (Some st) NtorV3.NtorV3CircuitVerification with
        | (Some st, Ok (km, sm)) =>
            (e', Ok (km, sm, if (length (NtorV3.CircNonce st) =? Ntor.NtorCircNonceLen)%nat then NtorV3.CircNonce st else []))
        | (_, Ok (km, sm)) => (e', Ok (km, sm, []))
        | (_, Err x) => (e', Err (errNtorV3 x))
        end
    end
  else
    match ephemeralPrivate e with
    | None => (e, Err errNoEphemeral)
    | Some priv =>
        let e' := set_secret e None (ntorv3State e) in
        match Ntor.NtorProcessResponseWithNonce response priv (serverNtorKey e) (serverIdentity e) with
        | Err x => (e', Err (errNtor x))
        | Ok (km, nonce) => (e', Ok (km, [], nonce))
        end
    end.

Definition finishHandshake (response : bytes) (e : Extension) (c : circuit) : Extension * circuit * option error :=
  match finish_keys response e with
  | (e, Err x) => (e, c, Some x)
  | (e, Ok (km, serverMsg, circNonce)) =>
      if requestCGO e && negb (length km =? CGO.CGOKeyMaterialLen)%nat then (e, c, Some (errCGOKeyMaterial (len km)))
      else if negb (requestCGO e) && (len km <? 72) then (e, c, Some (errKeyMaterial (len km)))
      else
        match RelayCrypto.deriveHopFromKeyMaterial Encrypt (requestCGO e) km with
        | Err x => (e, c, Some (errDerive x))
        | Ok k =>
            let nonce := if (length circNonce =? Ntor.NtorCircNonceLen)%nat then circNonce else [] in
            match AddHop c (mkHop k nonce (default [] (targetRelay e ≫= fingerprintHex))) with
            | (c, Some x) => (e, c, Some x)
            | (c, None) =>
                match serverMsg with
                | [] => (e, c, None)
                | _ =>
                    match NtorV3.ParseCCSendmeInc serverMsg with
                    | Err x => (e, c, Some (errServerMsg x))
                    | Ok None => (e, c, None)
                    | Ok (Some inc) => (e, mkCircuit (state c) (hops c) (FlowControl.EnableCongestionControl (flow c) inc), None)
                    end
                end
            end
        end
  end.

(** The response in the body of a CREATED2 or EXTENDED2, and the hop it makes. *)
Definition finish_body (payload : bytes) (e : Extension) (c : circuit) : Extension * circuit * outcome error unit :=
  match Extend2.handshake_response payload with
  | Fail x => (e, c, Fail (errBody x))
  | Panic => (e, c, Panic)
  | Done response =>
      match finishHandshake response e c with
      | (e, c, Some x) => (e, c, Fail x)
      | (e, c, None) => (e, c, Done tt)
      end
  end.

Definition ProcessCreated2 (created2 : option Cell) (e : Extension) (c : circuit) : Extension * circuit * outcome error unit :=
  match created2 with
  | None => (e, c, Fail errNoCell)
  | Some cell =>
      if negb (Command cell =? Cell.CmdCreated2) then (e, c, Fail (errCommand (Command cell)))
      else finish_body (Payload cell) e c
  end.

Definition ProcessExtended2 (extended2 : option RelayCell.RelayCell) (e : Extension) (c : circuit) :
    Extension * circuit * outcome error unit :=
  match extended2 with
  | None => (e, c, Fail errNoCell)
  | Some cell =>
      if negb (RelayCell.Command cell =? RelayCell.RelayExtended2) then (e, c, Fail (errCommand (RelayCell.Command cell)))
      else
        let '(e, c, r) := finish_body (RelayCell.Data cell) e c in
        (set_secret e None (ntorv3State e), c, r)
  end.

(** Sending a cell and waiting for the answer: [W] is whatever else moves
    meanwhile.  [conn] tells whether the circuit has a connection. *)
Definition CreateFirstHop {W} (conn : bool) (draw : option bytes) (exchange : W -> bytes -> W * option Cell) (htype : Z) (w : W)
    (e : Extension) (c : circuit) : W * Extension * circuit * outcome error unit :=
  if negb conn then (w, e, c, Fail errNoConnection)
  else
    match generateHandshakeData draw htype e with
    | (e, Err x) => (w, e, c, Fail x)
    | (e, Ok data) =>
        match Extend2.create2_payload htype data with
        | Err x => (w, e, c, Fail (errBody x))
        | Ok payload =>
            match exchange w payload with
            | (w, None) => (w, e, c, Fail errExchange)
            | (w, Some cell) => let '(e, c, r) := ProcessCreated2 (Some cell) e c in (w, e, c, r)
            end
        end
    end.

(** Relay cells move the keys of the circuit's hops. *)
Definition ExtendCircuit {W} (draw : option bytes) (exchange : W -> circuit -> RelayCell.RelayCell -> W * circuit * option RelayCell.RelayCell)
    (address : option (bytes * Z)) (htype : Z) (w : W) (e : Extension) (c : circuit) : W * Extension * circuit * outcome error unit :=
  match generateHandshakeData draw htype e with
  | (e, Err x) => (w, e, c, Fail x)
  | (e, Ok data) =>
      match Extend2.buildExtend2Data address (relay <$> targetRelay e) (map Fingerprint (hops c)) htype data with
      | Err x => (w, e, c, Fail (errBody x))
      | Ok extend2Data =>
          match RelayCell.NewRelayCell 0 RelayCell.RelayExtend2 extend2Data with
          | Err x => (w, e, c, Fail (errRelayCell x))
          | Ok rc =>
              match exchange w c rc with
              | (w, c, None) => (w, e, c, Fail errExchange)
              | (w, c, Some answer) => let '(e, c, r) := ProcessExtended2 (Some answer) e c in (w, e, c, r)
              end
          end
      end
  end.

(** *** A path *)

Definition set_state (c : circuit) (s : FlowControl.State) : circuit := mkCircuit s (hops c) (flow c).

Definition handshakeAndCreateGuard {W} (env : build_env W) (guard : node) (w : W) (c : circuit) :
    W * Extension * circuit * outcome error unit :=
  if negb (connected env) then (w, NewExtension, c, Fail errNoConnection)
  else
    let e := SetTargetRelay (target guard) NewExtension in
    match CreateFirstHop true (draws env 0) (created env) (HandshakeTypeFor (target guard)) w e c with
    | (w, e, c, Fail x) => (w, e, set_state c FlowControl.StateClosed, Fail x)
    | r => r
    end.

(** The extensions to the relays that are left, the next one being hop [i]. *)
Fixpoint extend_all {W} (env : build_env W) (i : nat) (nodes : list node) (w : W) (e : Extension) (c : circuit) :
    W * circuit * outcome error unit :=
  match nodes with
  | [] => (w, c, Done tt)
  | n :: nodes =>
      match ExtendCircuit (draws env i) (extended env i) (address n) (HandshakeTypeFor (target n)) w (SetTargetRelay (target n) e) c with
      | (w, e, c, Done _) => extend_all env (S i) nodes w e c
      | (w, e, c, Fail x) => (w, set_state c FlowControl.StateClosed, Fail x)
      | (w, e, c, Panic) => (w, c, Panic)
      end
  end.

(** [c] is the new circuit of the manager. *)
Definition BuildCircuit {W} (env : build_env W) (guard middle : node) (middle2 : option node) (exit : node) (w : W) (c : circuit) :
    W * circuit * outcome error unit :=
  if negb (HasNtorKeys guard) || negb (HasExtendKeys middle) ||
     match middle2 with Some m => negb (HasExtendKeys m) | None => false end || negb (HasExtendKeys exit)
  then (w, set_state c FlowControl.StateFailed, Fail errMissingKeys)
  else
    match handshakeAndCreateGuard env guard w c with
    | (w, e, c, Fail x) => (w, set_state c FlowControl.StateClosed, Fail x)
    | (w, e, c, Panic) => (w, c, Panic)
    | (w, e, c, Done _) =>
        match extend_all env 1 (middle :: option_list middle2 ++ [exit]) w e c with
        | (w, c, Done _) => (w, set_state c FlowControl.StateOpen, Done tt)
        | r => r
        end
    end.

Definition BuildFirstHop {W} (env : build_env W) (guard : node) (w : W) (c : circuit) : W * circuit * outcome error unit :=
  if negb (HasNtorKeys guard) then (w, c, Fail errMissingKeys)
  else
    match handshakeAndCreateGuard env guard w c with
    | (w, e, c, Fail x) => (w, set_state c FlowControl.StateClosed, Fail x)
    | (w, e, c, Panic) => (w, c, Panic)
    | (w, e, c, Done _) => (w, set_state c FlowControl.StateOpen, Done tt)
    end.

(** ** The relay *)

Record RelayKeys := mkKeys { NtorOnionKey : bytes; RSANodeID : bytes; Ed25519Public : bytes }.

(** Response, key material and nonce, as [handleCreate2Auth] gets them. *)
Definition create2_handshake (draw : option bytes) (k : RelayKeys) (htype : Z) (data : bytes) : option (bytes * bytes * bytes) :=
  if htype =? 2 then RelayCrypto.to_option (Ntor.NtorServerHandshakeWithNonce draw data (NtorOnionKey k) (RSANodeID k))
  else if htype =? 3 then
    let sm := NtorV3.EncodeNtorV3Extensions [NtorV3.mkExt NtorV3.NtorV3ExtCCResponse [31]] in
    RelayCrypto.to_option (NtorV3.ntorV3ServerHandshakeCore Encrypt draw data (Ed25519Public k) (NtorOnionKey k)
                             NtorV3.NtorV3CircuitVerification (Some sm))
  else None.

(** What a relay makes of the body of a CREATE2 cell: the body of its CREATED2, and
    the keys of the new circuit. *)
Definition relay_creates (draw : option bytes) (k : RelayKeys) (payload : bytes) : option (bytes * RelayCrypto.circuitCrypto) :=
  match Extend2.parse_create2 payload with
  | None => None
  | Some (htype, data) =>
      if negb ((htype =? 2) && (len data =? 84) || (htype =? 3) && (NtorV3.NtorV3FixedClientLen <=? len data)) then None
      else
        match create2_handshake draw k htype data with
        | None => None
        | Some (response, km, _) =>
            match RelayCrypto.newCircuitCrypto Encrypt km, Extend2.created2_payload response with
            | Ok cc, Some created2 => Some (created2, cc)
            | _, _ => None
            end
        end
  end.

(** What becomes of the data of an EXTEND2 at a relay whose next hop has the keys
    [k]: the data of the EXTENDED2.  [pad1] and [pad2] fill the cells between. *)
Definition relay_extends (draw : option bytes) (k : RelayKeys) (pad1 pad2 data : bytes) : option (bytes * RelayCrypto.circuitCrypto) :=
  match Extend2.parse_extend2 data with
  | Err _ => None
  | Ok req =>
      match Extend2.sendCreate2_payload (Extend2.r_htype req) (Extend2.r_hdata req) with
      | None => None
      | Some create2 =>
          match relay_creates draw k (create2 ++ pad1) with
          | None => None
          | Some (created2, cc) =>
              match Extend2.relay_response (created2 ++ pad2) with
              | Err _ => None
              | Ok response => (fun d => (d, cc)) <$> Extend2.extended2_data response
              end
          end
      end
  end.

(** ** Lemmas *)

(** What the client keeps of the handshake data it sends. *)
Definition keeps (draw : option bytes) (e : Extension) (htype : Z) (data : bytes) : Prop :=
  handshakeType e = htype /\
  ((htype = 3 /\ exists edID B cm priv st, let v := NtorV3.NtorV3CircuitVerification in
      draw = Some priv /\ Extend2.getNtorV3Keys (relay <$> targetRelay e) = Ok (edID, B) /\
      NtorV3.ntorV3ClientHandshakeWithKey Encrypt edID B v cm priv = Ok (data, st) /\
      NtorV3.NtorV3ClientRequestedCGO cm = Ok (requestCGO e) /\ len cm <= 7 /\
      ntorv3State e = Some (if requestCGO e then NtorV3.SetKeyMaterialLen CGO.CGOKeyMaterialLen st else st)) \/
   (htype = 2 /\ exists x priv, draw = Some x /\ Extend2.getRelayKeys (relay <$> targetRelay e) = Ok (serverIdentity e, serverNtorKey e) /\
      Ntor.NtorClientHandshake (Some x) (serverIdentity e) (serverNtorKey e) = Ok (data, priv) /\
      ephemeralPrivate e = Some priv) \/ htype = 0).

Lemma client_msg_length cc caps cm : NtorV3.EncodeNtorV3ClientMsg cc caps = Ok cm -> len cm <= 7.
Proof.
  unfold NtorV3.EncodeNtorV3ClientMsg. destruct caps as [|c caps]; [intros [= <-]; destruct cc; vm_compute; discriminate|].
  intros (body & Hb & [= <-])%result_bind_ok. apply NtorV3.encode_caps_one in Hb as [_ ->]. destruct cc; vm_compute; discriminate.
Qed.

Lemma generate_keeps draw htype e e' data : generateHandshakeData draw htype e = (e', Ok data) -> keeps draw e' htype data.
Proof.
  unfold generateHandshakeData. set (e0 := set_type e htype). destruct (Z.eqb_spec htype Extend2.HandshakeTypeNtorV3) as [->|].
  { destruct (Extend2.getNtorV3Keys _) as [[edID B]|] eqn:Hkeys; [|by intros [=]]. cbv zeta.
    destruct (subprotoCapsFor _) as [caps|] eqn:Hcaps; [|by intros [=]]. destruct (_ && _); [by intros [=]|].
    destruct (NtorV3.EncodeNtorV3ClientMsg _ _) as [cm|] eqn:Hcm; [|by intros [=]].
    unfold NtorV3.NtorV3ClientHandshake, Ntor.GenerateNtorKeyPair. destruct draw as [priv|]; [|by intros [=]]. cbn [Ntor.Private].
    destruct (NtorV3.ntorV3ClientHandshakeWithKey _ _ _ _ _ _) as [[skin st]|] eqn:Hc; [|by intros [=]]. intros [= <- <-].
    split; [done|]. left. split; [done|]. exists edID, B, cm, priv, st. cbv zeta.
    split_and!; [done|done|done|by apply NtorV3.client_msg_requests in Hcm|by eapply client_msg_length|done]. }
  destruct (Z.eqb_spec htype Extend2.HandshakeTypeNTor) as [->|].
  { destruct (Extend2.getRelayKeys _) as [[ID B]|] eqn:Hkeys; [|by intros [=]]. cbv zeta.
    destruct (Ntor.NtorClientHandshake draw ID B) as [[d priv]|] eqn:Hc; [|by intros [=]]. intros [= <- <-].
    split; [done|]. right. left. split; [done|]. destruct draw as [x|].
    - by exists x, priv.
    - exfalso. unfold Ntor.NtorClientHandshake in Hc. repeat (destruct (negb _); [done|]). do 2 (destruct (isAllZero _); [done|]). done. }
  destruct (Z.eqb_spec htype Extend2.HandshakeTypeTAP) as [->|]; [|by intros [=]]. destruct draw; [|by intros [=]].
  intros [= <- <-]. split; [done|]. by right; right.
Qed.

Lemma split_lengths expanded km nonce : Ntor.SplitNtorExpanded expanded = Ok (km, nonce) -> length km = 72%nat /\ length nonce = 20%nat.
Proof.
  unfold Ntor.SplitNtorExpanded. destruct (Nat.ltb_spec (length expanded) Ntor.NtorExpandedLen) as [|Hl]; [done|].
  unfold Ntor.NtorExpandedLen, Ntor.NtorKeyMaterialLen, Ntor.NtorCircNonceLen in *. intros [= <- <-]. split; (rewrite length_slice; lia).
Qed.

(** A handshake both ends finish gives the client a hop with the relay's keys. *)
Lemma handshake_matches `{!CurveLaws} `{!V3HashLaws} draw0 draw k htype data e resp km nonce c e' c' :
  keeps draw0 e htype data -> (forall y, draw = Some y -> length y = 32%nat) ->
  create2_handshake draw k htype data = Some (resp, km, nonce) -> finishHandshake resp e c = (e', c', None) ->
  exists h, hops c' = hops c ++ [h] /\ RendCircNonce h = nonce /\ state c' = state c /\
    RelayCrypto.deriveHopFromKeyMaterial Encrypt (length km =? CGO.CGOKeyMaterialLen)%nat km = Ok (keys h) /\
    flow c' = if htype =? 3 then FlowControl.EnableCongestionControl (flow c) 31 else flow c.
Proof.
  intros [Ht Hk] Hdraw Hs Hf.
  assert (exists sm, (finish_keys resp e).2 = Ok (km, sm, nonce) /\ requestCGO (finish_keys resp e).1 = requestCGO e /\ length nonce = 20%nat /\
    (htype = 3 /\ sm = [1; 2; 1; 31] /\ requestCGO e = (length km =? CGO.CGOKeyMaterialLen)%nat \/ htype = 2 /\ sm = [] /\ length km = 72%nat)) as (sm & Hfk & Hr & Hno & Hcase).
  { unfold finishHandshake in Hf. unfold finish_keys in *. rewrite Ht in *. destruct Hk as [(-> & edID & B & cm & priv & st & _ & _ & Hc & Hg & _ & Hst)|[(-> & x & priv & _ & _ & Hc & Hp)| -> ]].
    - cbn [Z.eqb Pos.eqb] in *. rewrite Hst in *. change (3 =? Extend2.HandshakeTypeNtorV3) with true in *. cbv iota in *.
      unfold create2_handshake in Hs. cbn [Z.eqb Pos.eqb] in Hs.
      destruct (NtorV3.ntorV3ServerHandshakeCore _ _ _ _ _ _ _) as [[[resp1 km1] n1]|] eqn:Hcore; [|done]. injection Hs as -> -> ->.
      destruct (NtorV3.NtorV3ProcessResponse _ _ _ _) as [st2 [[km2 m]|x2]] eqn:Hpr; [|by destruct st2].
      assert (exists y, draw = Some y) as [y Hy].
      { pose proof (NtorV3.v3_server_answers _ _ _ _ _ _ _ _ _ _ Hcore) as (y & ? & ? & ? & ? & ? & ? & _). by exists y. }
      rewrite Hy in Hcore.
      destruct (NtorV3.v3_same Encrypt edID B _ cm (requestCGO e) priv data st (NtorOnionKey k) y _ resp km nonce st2 km2 m Hc Hg (Hdraw y Hy) _ Hcore Hpr)
        as (-> & -> & -> & Hl & Hn). cbn [snd fst requestCGO]. exists [1; 2; 1; 31].
      rewrite (proj2 (Nat.eqb_eq _ _)) by (destruct (requestCGO e); exact Hn). split_and!; [by destruct (requestCGO e)|done|done|].
      left. rewrite Hl. by destruct (requestCGO e).
    - change (2 =? Extend2.HandshakeTypeNtorV3) with false in *. cbv iota in *. rewrite Hp in *. unfold create2_handshake in Hs. cbn [Z.eqb Pos.eqb] in Hs.
      destruct (Ntor.NtorServerHandshakeWithNonce _ _ _ _) as [[[resp1 km1] n1]|] eqn:Hcore; [|done]. injection Hs as -> -> ->.
      destruct (Ntor.NtorProcessResponseWithNonce _ _ _ _) as [[km2 n2]|] eqn:Hpr; [|done].
      assert (exists y, draw = Some y) as [y Hy].
      { unfold Ntor.NtorServerHandshakeWithNonce in Hcore. apply result_bind_ok in Hcore as ([r1 e1] & Hcore & _).
        apply Ntor.server_answers in Hcore as (y & ? & _ & _ & _ & _ & [?|[=]] & _). by exists y. }
      rewrite Hy in Hcore. destruct (Ntor.ntor_same _ _ _ _ _ _ _ _ _ _ _ _ Hc (Hdraw y Hy) _ Hcore Hpr) as [-> ->].
      assert (length km2 = 72%nat /\ length n2 = 20%nat) as [Hl Hn].
      { apply Ntor.client_accepts in Hpr as (_ & _ & _ & _ & _ & ex & _ & Hsp). by apply split_lengths in Hsp. }
      exists []. cbn [snd fst]. split_and!; [done|done|done|]. by right.
    - done. }
  unfold finishHandshake in Hf. destruct (finish_keys resp e) as [e1 r]. cbn [fst snd] in Hfk, Hr. subst r. rewrite Hr in Hf.
  assert (requestCGO e = (length km =? CGO.CGOKeyMaterialLen)%nat) as Hcgo.
  { destruct Hcase as [(_ & _ & ->)|(_ & _ & Hl)]; [done|]. rewrite Hl in *. destruct (requestCGO e); [|done]. by change (72 =? CGO.CGOKeyMaterialLen)%nat with false in Hf. }
  rewrite Hcgo in Hf. destruct (_ && negb _); [done|]. destruct (negb _ && _); [done|].
  destruct (RelayCrypto.deriveHopFromKeyMaterial _ _ _) as [kk|]; [|done]. rewrite (proj2 (Nat.eqb_eq (length nonce) Ntor.NtorCircNonceLen)) in Hf by exact Hno.
  unfold AddHop in Hf. destruct (bool_decide _); [|done]. destruct Hcase as [(-> & -> & _)|(-> & -> & _)].
  - change (NtorV3.ParseCCSendmeInc [1; 2; 1; 31]) with (Ok (E := NtorV3.error) (Some 31)) in Hf. injection Hf as <- <-.
    eexists. cbn [hops state flow]. by split_and!.
  - injection Hf as <- <-. eexists. cbn [hops state flow]. by split_and!.
Qed.

(** ** Properties *)

(** C40: After a hop with CGO, a relay that only does the classic handshake cannot be
    added: the extension keeps asking for CGO key material, so the handshake with
    such a relay fails whatever it answers, and the circuit is left as it was. *)
Theorem stale_cgo_refuses_classic draw r e e1 data response c :
  requestCGO e = true -> generateHandshakeData draw Extend2.HandshakeTypeNTor (SetTargetRelay r e) = (e1, Ok data) ->
  exists e2 x, finishHandshake response e1 c = (e2, c, Some x).
Proof.
  intros Hr Hg. assert (requestCGO e1 = true /\ handshakeType e1 = Extend2.HandshakeTypeNTor) as [Hr1 Ht1].
  { unfold generateHandshakeData in Hg. change (Extend2.HandshakeTypeNTor =? Extend2.HandshakeTypeNtorV3) with false in Hg.
    change (Extend2.HandshakeTypeNTor =? Extend2.HandshakeTypeNTor) with true in Hg. cbv iota in Hg.
    destruct (Extend2.getRelayKeys _) as [[ID B]|]; [|done]. destruct (Ntor.NtorClientHandshake _ _ _) as [[d p]|]; [|done].
    by injection Hg as <- _. }
  unfold finishHandshake. destruct (finish_keys response e1) as [e2 [[[km sm] nonce]|x]] eqn:Hf; [|by eauto].
  assert (length km = 72%nat /\ requestCGO e2 = true) as [Hl ->].
  { unfold finish_keys in Hf. rewrite Ht1 in Hf. change (Extend2.HandshakeTypeNTor =? Extend2.HandshakeTypeNtorV3) with false in Hf. cbv iota in Hf.
    destruct (ephemeralPrivate e1) as [priv|]; [|done]. destruct (Ntor.NtorProcessResponseWithNonce _ _ _ _) as [[km' n']|] eqn:Hp; [|done].
    injection Hf as <- <- <- <-. apply Ntor.client_accepts in Hp as (_ & _ & _ & _ & _ & ex & _ & Hsp).
    apply split_lengths in Hsp as [? _]. by split. }
  rewrite Hl. cbn. by eauto.
Qed.

(** Where the relay's keys are those the directory gives for it. *)
Definition keys_of (r : Target) (k : RelayKeys) : Prop :=
  if HandshakeTypeFor r =? 3 then Extend2.getNtorV3Keys (Some (relay r)) = Ok (Ed25519Public k, ScalarBaseMult (NtorOnionKey k))
  else Extend2.getRelayKeys (Some (relay r)) = Ok (RSANodeID k, ScalarBaseMult (NtorOnionKey k)).

Lemma generate_target draw htype e : targetRelay (generateHandshakeData draw htype e).1 = targetRelay e.
Proof.
  unfold generateHandshakeData. repeat case_match; simplify_eq; cbn; try done;
    match goal with Heq : (_, _) = (_, _) |- _ => by injection Heq as <- _ end.
Qed.

Lemma generate_cgo draw htype e e1 data :
  htype <> 3 -> generateHandshakeData draw htype e = (e1, Ok data) -> requestCGO e1 = requestCGO e.
Proof.
  intros Ht Hg. unfold generateHandshakeData in Hg. rewrite (proj2 (Z.eqb_neq htype Extend2.HandshakeTypeNtorV3) Ht) in Hg.
  repeat case_match; simplify_eq; done.
Qed.

Lemma derive_hop km : length km = 72%nat \/ length km = CGO.CGOKeyMaterialLen ->
  exists h cc, RelayCrypto.deriveHopFromKeyMaterial Encrypt (length km =? CGO.CGOKeyMaterialLen)%nat km = Ok h /\
    RelayCrypto.newCircuitCrypto Encrypt km = Ok cc.
Proof.
  unfold RelayCrypto.deriveHopFromKeyMaterial, RelayCrypto.newCircuitCrypto. intros [Hl|Hl]; rewrite Hl.
  - change (72 =? CGO.CGOKeyMaterialLen)%nat with false. cbn [Nat.eqb]. unfold len. rewrite Hl. change (Z.of_nat 72 <? 72) with false. cbv iota zeta.
    rewrite !RelayCrypto.NewAESCTRCipher_ok by (rewrite length_slice; lia). cbn [result_bind]. by do 2 eexists.
  - rewrite Nat.eqb_refl. unfold CGO.NewCGOPairFromKeyMaterial, CGO.NewCGORelayPairFromKeyMaterial.
    rewrite !CGO.new_pair_fresh by done. cbn. by do 2 eexists.
Qed.

(** The client that has the keys adds the hop. *)
Lemma finish_adds response e c e2 km sm nonce :
  finish_keys response e = (e2, Ok (km, sm, nonce)) -> state c = FlowControl.StateBuilding ->
  length km = (if requestCGO e2 then CGO.CGOKeyMaterialLen else 72%nat) -> sm = [] \/ sm = [1; 2; 1; 31] ->
  exists cc c2 h, RelayCrypto.newCircuitCrypto Encrypt km = Ok cc /\ finishHandshake response e c = (e2, c2, None) /\
    hops c2 = hops c ++ [h] /\ state c2 = FlowControl.StateBuilding.
Proof.
  intros Hf Hst Hl Hsm. destruct (derive_hop km) as (h & cc & Hd & Hcc); [destruct (requestCGO e2); auto|].
  assert ((length km =? CGO.CGOKeyMaterialLen)%nat = requestCGO e2) as Hc by (rewrite Hl; by destruct (requestCGO e2)).
  rewrite Hc in Hd. unfold finishHandshake. rewrite Hf, Hc, Hd. cbn [negb].
  assert (negb (requestCGO e2) && (len km <? 72) = false) as -> by (unfold len; rewrite Hl; by destruct (requestCGO e2)).
  assert (requestCGO e2 && negb (requestCGO e2) = false) as -> by by destruct (requestCGO e2).
  unfold AddHop. rewrite Hst, bool_decide_true by done. exists cc.
  destruct Hsm as [-> | ->]; [|change (NtorV3.ParseCCSendmeInc [1; 2; 1; 31]) with (Ok (E := NtorV3.error) (Some 31))]; by do 2 eexists.
Qed.

(** C17: The handshake with a relay completes.  The client asks the relay whose keys
    the directory lists, classic or new, and the relay answers with a key of its
    own; where no secret is the zero point, the relay has keys for the circuit, and
    the client accepts its answer and has added the hop.  A classic handshake needs
    an extension that does not ask for CGO. *)
Theorem honest_handshake_completes `{!CurveLaws} `{!NtorHashLaws} `{!V3HashLaws} r k x y e e1 data c :
  generateHandshakeData (Some x) (HandshakeTypeFor r) (SetTargetRelay r e) = (e1, Ok data) ->
  keys_of r k -> (HandshakeTypeFor r = 2 -> requestCGO e = false) -> state c = FlowControl.StateBuilding ->
  length x = 32%nat -> length y = 32%nat -> length (NtorOnionKey k) = 32%nat ->
  Forall (fun p => isAllZero p = false)
    [ScalarBaseMult x; ScalarBaseMult y; ScalarMult x (ScalarBaseMult y); ScalarMult x (ScalarBaseMult (NtorOnionKey k))] ->
  exists resp km nonce cc e2 c2 h,
    create2_handshake (Some y) k (HandshakeTypeFor r) data = Some (resp, km, nonce) /\ RelayCrypto.newCircuitCrypto Encrypt km = Ok cc /\
    finishHandshake resp e1 c = (e2, c2, None) /\ hops c2 = hops c ++ [h] /\ state c2 = FlowControl.StateBuilding.
Proof.
  intros Hg Hk Hcgo Hst Hx Hy Hb Hz. rewrite !Forall_cons in Hz. destruct Hz as (Hz1 & Hz2 & Hz3 & Hz4 & _).
  pose proof (generate_keeps _ _ _ _ _ Hg) as [Ht Hkeep]. pose proof (generate_target (Some x) (HandshakeTypeFor r) (SetTargetRelay r e)) as Htg.
  rewrite Hg in Htg. cbn [fst SetTargetRelay targetRelay] in Htg. rewrite Htg in Hkeep. cbn [fmap option_fmap option_map] in Hkeep. unfold keys_of in Hk.
  destruct Hkeep as [(Hv3 & edID & B & cm & priv & st & Hd & Hks & Hc & Hrq & _ & Hs)|[(Hv2 & x' & priv & Hd & Hks & Hc & Hp)|Hv0]].
  - rewrite Hv3 in *. cbn [Z.eqb Pos.eqb] in Hk. rewrite Hk in Hks. injection Hks as <- <-. injection Hd as <-.
    destruct (NtorV3.v3_agreement Encrypt _ _ _ _ _ _ y [1; 2; 1; 31] _ _ Hc Hrq Hb Hy Hz1 Hz2 Hz3) as (resp & km & nonce & Hr & Hpr & Hl & Hn & _).
    destruct (finish_adds resp e1 c (set_secret e1 (ephemeralPrivate e1) None) km [1; 2; 1; 31] nonce) as (cc & c2 & h & ? & ? & ? & ?);
      [|done|exact Hl|by right|].
    { unfold finish_keys. rewrite Ht. change (3 =? Extend2.HandshakeTypeNtorV3) with true. cbv iota. rewrite Hs, Hpr.
      change (NtorV3.CircNonce (NtorV3.set_nonce _ nonce)) with nonce. by rewrite Hn. }
    exists resp, km, nonce, cc, (set_secret e1 (ephemeralPrivate e1) None), c2, h. split; [|done]. unfold create2_handshake. cbn [Z.eqb Pos.eqb].
    change (NtorV3.EncodeNtorV3Extensions [NtorV3.mkExt NtorV3.NtorV3ExtCCResponse [31]]) with [1; 2; 1; 31]. by rewrite Hr.
  - rewrite Hv2 in *. cbn [Z.eqb Pos.eqb] in Hk. rewrite Hk in Hks. injection Hks as HI HB. rewrite <- HI, <- HB in Hc. injection Hd as <-.
    destruct (Ntor.ntor_agreement _ _ _ y _ _ Hc Hx Hy Hb Hz2 Hz3 Hz4) as (resp & km & nonce & Hr & Hpr & _ & Hl & Hn).
    assert (requestCGO e1 = false) as Hq by (rewrite (generate_cgo _ 2 _ _ _ ltac:(done) Hg); by apply Hcgo).
    destruct (finish_adds resp e1 c (set_secret e1 None (ntorv3State e1)) km [] nonce) as (cc & c2 & h & ? & ? & ? & ?);
      [|done|cbn [set_secret requestCGO]; by rewrite Hq|by left|].
    { unfold finish_keys. rewrite Ht. change (2 =? Extend2.HandshakeTypeNtorV3) with false. cbv iota. by rewrite Hp, <- HI, <- HB, Hpr. }
    exists resp, km, nonce, cc, (set_secret e1 None (ntorv3State e1)), c2, h. split; [|done]. unfold create2_handshake. cbn [Z.eqb Pos.eqb]. by rewrite Hr.
  - exfalso. unfold HandshakeTypeFor in Hv0. by destruct (default false _).
Qed.

End Build.

(** ** Concrete handshakes *)

#[local] Existing Instances Ntor.toy_curve Ntor.toy_curve_laws Ntor.toy_hash Ntor.toy_hash_laws NtorV3.toy_v3_hash NtorV3.toy_v3_laws.

Definition sample_draw (z : Z) : bytes := (fun i => (z + 7 * Z.of_nat i) mod 256) <$> seq 1 32.

(** Relay number [z], as it is, and as the directory lists it. *)
Definition sample_relay_keys (z : Z) : RelayKeys := mkKeys (repeat (100 + z) 32) (repeat (5 + z) 20) (repeat (40 + z) 32).
Definition sample_target (z : Z) (v3 : bool) : Target :=
  mkTarget (Extend2.mkRelay (Some (true, repeat (100 + z) 32)) (Some (repeat (5 + z) 20)) (Some (repeat (40 + z) 32)) None)
    (Some v3) (Some true) None (Some (ToUpper (hex_encode (repeat (5 + z) 20)))).

Definition new_circuit : circuit := mkCircuit FlowControl.StateBuilding [] FlowControl.new_flow.

Lemma stale_cgo_refuses_classic_witness :
  let e := set_requests NewExtension true true in
  exists e1 data, generateHandshakeData RelayCrypto.toy_block (Some (sample_draw 3)) 2 (SetTargetRelay (sample_target 1 false) e) = (e1, Ok data) /\
    exists e2 x, finishHandshake RelayCrypto.toy_block (zeros 64) e1 new_circuit = (e2, new_circuit, Some x).
Proof.
  intros e.
  assert (exists e1 data, generateHandshakeData RelayCrypto.toy_block (Some (sample_draw 3)) 2 (SetTargetRelay (sample_target 1 false) e) = (e1, Ok data))
    as (e1 & data & Hg) by (do 2 eexists; vm_compute; reflexivity).
  exists e1, data. split; [exact Hg|].
  exact (stale_cgo_refuses_classic RelayCrypto.toy_block (Some (sample_draw 3)) (sample_target 1 false) e e1 data (zeros 64) new_circuit eq_refl Hg).
Defined.

Lemma honest_handshake_completes_witness :
  exists e1 data resp km nonce e2 c2 h,
    generateHandshakeData RelayCrypto.toy_block (Some (sample_draw 3)) 3 (SetTargetRelay (sample_target 1 true) NewExtension) = (e1, Ok data) /\
    create2_handshake RelayCrypto.toy_block (Some (sample_draw 50)) (sample_relay_keys 1) 3 data = Some (resp, km, nonce) /\
    finishHandshake RelayCrypto.toy_block resp e1 new_circuit = (e2, c2, None) /\ hops c2 = [h].
Proof.
  assert (exists e1 data, generateHandshakeData RelayCrypto.toy_block (Some (sample_draw 3)) 3 (SetTargetRelay (sample_target 1 true) NewExtension) = (e1, Ok data))
    as (e1 & data & Hg) by (do 2 eexists; vm_compute; reflexivity).
  destruct (honest_handshake_completes RelayCrypto.toy_block (sample_target 1 true) (sample_relay_keys 1) (sample_draw 3) (sample_draw 50) NewExtension e1 data
    new_circuit Hg ltac:(vm_compute; reflexivity) ltac:(discriminate) eq_refl eq_refl eq_refl eq_refl ltac:(repeat constructor))
    as (resp & km & nonce & cc & e2 & c2 & h & Hc & _ & Hf & Hh & _).
  exists e1, data, resp, km, nonce, e2, c2, h. split; [exact Hg|]. split; [exact Hc|]. split; [exact Hf|exact Hh].
Defined.

End CircuitBuild.
