(* ===== verification/HsNtor.v ===== *)
(** * The onion-service handshake (pkg/crypto/hs_ntor.go, pkg/circuit/hs_hop.go)

    The keys of an introduction and of a rendezvous, on the client's and on the
    service's side, and the hop each end puts at the end of its circuit.  The curve
    is the class of Ntor.v, the hashes are that of NtorV3.v. *)

From Stdlib Require Import String.
From S2P Require Import Prelude Conversion GoStrings Onion CGO RelayCrypto Ntor NtorV3.
Import GoStrings Ntor(Curve, CurveLaws, ScalarMult, ScalarBaseMult, isAllZero) NtorV3(V3Hash, V3HashLaws, sha3_256, shake256).

Module HsNtor.

Definition hsNtorProtoID : bytes := lit "tor-hs-ntor-curve25519-sha3-256-1".
Definition hsNtorTHsEnc : bytes := hsNtorProtoID ++ lit ":hs_key_extract".
Definition hsNtorTHsVerify : bytes := hsNtorProtoID ++ lit ":hs_verify".
Definition hsNtorTHsMac : bytes := hsNtorProtoID ++ lit ":hs_mac".
Definition hsNtorMExpand : bytes := hsNtorProtoID ++ lit ":hs_key_expand".
Definition hsNtorServerStr : bytes := lit "Server".
Definition HsNtorEncKeyLen : nat := 32.
Definition HsNtorMacKeyLen : nat := 32.
Definition HsNtorAuthMacLen : nat := 32.
Definition HsNtorKeySeedLen : nat := 32.
Definition HsNtorSubcredLen : nat := 32.
Definition HsNtorAuthKeyLen : nat := 32.
Definition HsNtorResponseLen : nat := 64.
Definition HsNtorCircuitKeyLen : nat := 32 + 32 + 32 + 32.

Inductive error := errKeyLength | errDegenerate | errLengths | errMAC | errSeedLength | errRandom | errKeyMaterial (n : Z) | errCipher (e : RelayCrypto.error).

(** What [HsMAC] hashes. *)
Definition mac_input (key msg : bytes) : bytes := PutUint64 (u64 (len key)) ++ key ++ msg.

Section Handshake.
Context `{Curve} `{V3Hash}.

Definition HsMAC (key msg : bytes) : bytes := sha3_256 (mac_input key msg).
Definition hsShake (n : nat) (input : bytes) : bytes := shake256 input n.

(** X25519 refuses a product that is zero; so does the check after it. *)
Definition curve25519Shared (priv pub : bytes) : result error bytes :=
  if negb (length priv =? 32)%nat || negb (length pub =? 32)%nat then Err errKeyLength
  else let out := ScalarMult priv pub in if isAllZero out then Err errDegenerate else Ok out.

(** *** Introduction *)

Definition intro_input (dh authKey X B subcred : bytes) : bytes :=
  (dh ++ authKey ++ X ++ B ++ hsNtorProtoID) ++ hsNtorTHsEnc ++ hsNtorMExpand ++ subcred.

Definition HsNtorClientIntroKeys (xPriv B authKey subcred : bytes) : result error (bytes * bytes * bytes) :=
  if negb (length xPriv =? 32)%nat || negb (length B =? 32)%nat || negb (length authKey =? HsNtorAuthKeyLen)%nat ||
     negb (length subcred =? HsNtorSubcredLen)%nat then Err errLengths
  else
    let X := ScalarBaseMult xPriv in
    let? bx := curve25519Shared xPriv B in
    let keys := hsShake (HsNtorEncKeyLen + HsNtorMacKeyLen) (intro_input bx authKey X B subcred) in
    Ok (take HsNtorEncKeyLen keys, drop HsNtorEncKeyLen keys, X).

Definition HsNtorServiceIntroKeys (bPriv X authKey subcred : bytes) : result error (bytes * bytes * bytes) :=
  if negb (length bPriv =? 32)%nat || negb (length X =? 32)%nat || negb (length authKey =? HsNtorAuthKeyLen)%nat ||
     negb (length subcred =? HsNtorSubcredLen)%nat then Err errLengths
  else
    let B := ScalarBaseMult bPriv in
    let? xb := curve25519Shared bPriv X in
    let keys := hsShake (HsNtorEncKeyLen + HsNtorMacKeyLen) (intro_input xb authKey X B subcred) in
    Ok (take HsNtorEncKeyLen keys, drop HsNtorEncKeyLen keys, B).

(** *** Rendezvous *)

Definition rend_secret (dh1 dh2 authKey B X Y : bytes) : bytes := dh1 ++ dh2 ++ authKey ++ B ++ X ++ Y ++ hsNtorProtoID.
Definition rend_auth_input (verify authKey B Y X : bytes) : bytes :=
  verify ++ authKey ++ B ++ Y ++ X ++ hsNtorProtoID ++ hsNtorServerStr.

(** The key seed, and the MAC over the transcript. *)
Definition hsNtorRendFinish (dh1 dh2 authKey B X Y : bytes) : bytes * bytes :=
  let secret := rend_secret dh1 dh2 authKey B X Y in
  let ntorKeySeed := HsMAC secret hsNtorTHsEnc in
  let verify := HsMAC secret hsNtorTHsVerify in
  (ntorKeySeed, HsMAC (rend_auth_input verify authKey B Y X) hsNtorTHsMac).

Definition HsNtorServiceRend (yPriv bPriv X authKey : bytes) : result error (bytes * bytes) :=
  if negb (length yPriv =? 32)%nat || negb (length bPriv =? 32)%nat || negb (length X =? 32)%nat ||
     negb (length authKey =? HsNtorAuthKeyLen)%nat then Err errLengths
  else
    let Y := ScalarBaseMult yPriv in
    let B := ScalarBaseMult bPriv in
    let? xy := curve25519Shared yPriv X in
    let? xb := curve25519Shared bPriv X in
    let '(seed, authMAC) := hsNtorRendFinish xy xb authKey B X Y in
    let resp := zeros HsNtorResponseLen in
    let resp := copy_at resp 0 (take 32 Y) in
    Ok (copy_at resp 32 authMAC, seed).

Definition HsNtorClientRend (xPriv B authKey response : bytes) : result error bytes :=
  if negb (length xPriv =? 32)%nat || negb (length B =? 32)%nat || negb (length authKey =? HsNtorAuthKeyLen)%nat ||
     negb (length response =? HsNtorResponseLen)%nat then Err errLengths
  else
    let Y := slice response 0 32 in
    let gotAuth := drop 32 response in
    let X := ScalarBaseMult xPriv in
    let? yx := curve25519Shared xPriv Y in
    let? bx := curve25519Shared xPriv B in
    let '(seed, authMAC) := hsNtorRendFinish yx bx authKey B X Y in
    if negb (Conversion.ConstantTimeCompare authMAC gotAuth) then Err errMAC else Ok seed.

Definition HsNtorExpandCircuitKeys (ntorKeySeed : bytes) : result error bytes :=
  if negb (length ntorKeySeed =? HsNtorKeySeedLen)%nat then Err errSeedLength
  else Ok (hsShake HsNtorCircuitKeyLen (ntorKeySeed ++ hsNtorMExpand)).

(** [draw] is what the random source gives. *)
Definition GenerateCurve25519PrivateKey (draw : option bytes) : result error bytes :=
  match draw with
  | None => Err errRandom
  | Some priv =>
      let priv := <[0%nat := Z.land (at_ priv 0) 248]> priv in
      let priv := <[31%nat := Z.land (at_ priv 31) 127]> priv in
      Ok (<[31%nat := Z.lor (at_ priv 31) 64]> priv)
  end.

(** ** The hop at the end of the circuit *)

Context (Encrypt : bytes -> bytes -> bytes).

(** Its digests are SHA3-256 and its ciphers AES-256. *)
Definition NewHopFromHSKeyMaterial (keyMaterial : bytes) : result error (Onion.Hop (G := CGO.CGOPair)) :=
  if (length keyMaterial <? HsNtorCircuitKeyLen)%nat then Err (errKeyMaterial (len keyMaterial))
  else
    let df := slice keyMaterial 0 32 in
    let db := slice keyMaterial 32 64 in
    let kf := slice keyMaterial 64 96 in
    let kb := slice keyMaterial 96 128 in
    match RelayCrypto.NewAESCTRCipher Encrypt kf (zeros 16), RelayCrypto.NewAESCTRCipher Encrypt kb (zeros 16) with
    | Ok fwd, Ok bwd => Ok (Onion.mkHop (Some fwd) (Some bwd) (Some df) (Some db) None)
    | Err e, _ => Err (errCipher e)
    | _, Err e => Err (errCipher e)
    end.

Definition NewHopFromHSKeyMaterialResponder (keyMaterial : bytes) : result error (Onion.Hop (G := CGO.CGOPair)) :=
  let? hop := NewHopFromHSKeyMaterial keyMaterial in
  Ok (Onion.mkHop (Onion.BackwardCipher hop) (Onion.ForwardCipher hop) (Onion.BackwardDigest hop) (Onion.ForwardDigest hop) (Onion.CGO hop)).

(** ** Lemmas *)

Lemma shared_ok priv pub out :
  curve25519Shared priv pub = Ok out <->
  length priv = 32%nat /\ length pub = 32%nat /\ out = ScalarMult priv pub /\ isAllZero out = false.
Proof.
  unfold curve25519Shared. destruct (Nat.eqb_spec (length priv) 32), (Nat.eqb_spec (length pub) 32); cbn [negb orb];
    try (split; [done|]; intros (? & ? & _); done).
  destruct (isAllZero _) eqn:Hz; (split; [intros [= <-]|intros (_ & _ & -> & Hz')]; [..|congruence]; done).
Qed.

Lemma client_intro_ok x B a s enc mac X :
  HsNtorClientIntroKeys x B a s = Ok (enc, mac, X) ->
  length x = 32%nat /\ length B = 32%nat /\ length a = 32%nat /\ length s = 32%nat /\ X = ScalarBaseMult x /\
  isAllZero (ScalarMult x B) = false /\ enc ++ mac = hsShake 64 (intro_input (ScalarMult x B) a X B s) /\ enc = take 32 (enc ++ mac).
Proof.
  unfold HsNtorClientIntroKeys, HsNtorAuthKeyLen, HsNtorSubcredLen.
  destruct (Nat.eqb_spec (length x) 32), (Nat.eqb_spec (length B) 32), (Nat.eqb_spec (length a) 32), (Nat.eqb_spec (length s) 32); try done.
  cbn [negb orb]. intros (bx & (_ & _ & -> & Hz)%shared_ok & [= <- <- <-])%result_bind_ok.
  split_and!; [done..| |]; by rewrite take_drop.
Qed.

(** Client and service derive the same keys for an introduction. *)
Lemma intro_agree `{!CurveLaws} x b a s enc mac X :
  length b = 32%nat -> HsNtorClientIntroKeys x (ScalarBaseMult b) a s = Ok (enc, mac, X) ->
  HsNtorServiceIntroKeys b X a s = Ok (enc, mac, ScalarBaseMult b).
Proof.
  intros Hb (Hx & HB & Ha & Hs & -> & Hz & Hk & He)%client_intro_ok. unfold HsNtorServiceIntroKeys, HsNtorAuthKeyLen, HsNtorSubcredLen.
  rewrite Hb, Ha, Hs, Ntor.base_length by done. cbn [Nat.eqb negb orb].
  rewrite (proj2 (shared_ok b (ScalarBaseMult x) (ScalarMult b (ScalarBaseMult x)))).
  - cbn [result_bind]. rewrite <- (Ntor.exchange x b) by done. change (HsNtorEncKeyLen + HsNtorMacKeyLen)%nat with 64%nat. rewrite <- Hk.
    change HsNtorEncKeyLen with 32%nat. assert (drop 32 (enc ++ mac) = mac) as ->; [|by rewrite <- He].
    apply (app_inv_head (take 32 (enc ++ mac))). rewrite take_drop. by rewrite <- He.
  - split_and!; [done|by apply Ntor.base_length|done|]. by rewrite <- (Ntor.exchange x b).
Qed.

Lemma intro_key_lengths `{!V3HashLaws} x B a s enc mac X :
  HsNtorClientIntroKeys x B a s = Ok (enc, mac, X) -> length enc = 32%nat /\ length mac = 32%nat.
Proof.
  intros (_ & _ & _ & _ & _ & _ & Hk & He)%client_intro_ok. apply (f_equal length) in Hk, He.
  unfold hsShake in Hk. rewrite NtorV3.shake_length, length_app in Hk. rewrite length_take, length_app in He. lia.
Qed.

Lemma hs_mac_length `{!V3HashLaws} k m : length (HsMAC k m) = 32%nat.
Proof. apply NtorV3.sha3_length. Qed.

Lemma service_rend_ok `{!CurveLaws} `{!V3HashLaws} y b X a resp seed :
  HsNtorServiceRend y b X a = Ok (resp, seed) <->
  let Y := ScalarBaseMult y in let r := hsNtorRendFinish (ScalarMult y X) (ScalarMult b X) a (ScalarBaseMult b) X Y in
  length y = 32%nat /\ length b = 32%nat /\ length X = 32%nat /\ length a = 32%nat /\
  isAllZero (ScalarMult y X) = false /\ isAllZero (ScalarMult b X) = false /\ resp = Y ++ r.2 /\ seed = r.1.
Proof.
  cbv zeta. unfold HsNtorServiceRend, HsNtorAuthKeyLen, HsNtorResponseLen.
  destruct (Nat.eqb_spec (length y) 32) as [Hy|], (Nat.eqb_spec (length b) 32) as [Hb|], (Nat.eqb_spec (length X) 32) as [HX|],
    (Nat.eqb_spec (length a) 32) as [Ha|]; cbn [negb orb]; try (split; [done|intros (? & ? & ? & ? & _); done]).
  set (r := hsNtorRendFinish _ _ _ _ _ _).
  assert (copy_at (copy_at (zeros 64) 0 (take 32 (ScalarBaseMult y))) 32 r.2 = ScalarBaseMult y ++ r.2) as Hc.
  { assert (length (ScalarBaseMult y) = 32%nat) as Hl by by apply Ntor.base_length.
    rewrite (firstn_all2 (ScalarBaseMult y)) by lia. rewrite (zeros_app_nil 64).
    rewrite copy_at_zeros by (cbn [length app]; lia). rewrite app_nil_l.
    rewrite copy_at_zeros by (rewrite ?Hl; unfold r, hsNtorRendFinish; cbn [snd]; rewrite ?hs_mac_length; lia).
    unfold r, hsNtorRendFinish. cbn [snd]. rewrite Hl, hs_mac_length. cbn. by rewrite app_nil_r. }
  split.
  - intros (xy & (_ & _ & -> & Hz1)%shared_ok & Hr)%result_bind_ok. apply result_bind_ok in Hr as (xb & (_ & _ & -> & Hz2)%shared_ok & Hr).
    fold r in Hr. destruct r as [sd m]. cbn [fst snd] in *. rewrite Hc in Hr. injection Hr as <- <-. by split_and!.
  - intros (_ & _ & _ & _ & Hz1 & Hz2 & -> & ->). rewrite (proj2 (shared_ok y X _)) by by split_and!. cbn [result_bind].
    rewrite (proj2 (shared_ok b X _)) by by split_and!. cbn [result_bind]. fold r. destruct r as [sd m]. cbn [fst snd] in *. by rewrite Hc.
Qed.

Lemma client_rend_ok `{!V3HashLaws} x B a resp seed :
  HsNtorClientRend x B a resp = Ok seed <->
  let Y := slice resp 0 32 in let r := hsNtorRendFinish (ScalarMult x Y) (ScalarMult x B) a B (ScalarBaseMult x) Y in
  length x = 32%nat /\ length B = 32%nat /\ length a = 32%nat /\ length Y = 32%nat /\
  isAllZero (ScalarMult x Y) = false /\ isAllZero (ScalarMult x B) = false /\ resp = Y ++ r.2 /\ seed = r.1.
Proof.
  cbv zeta. unfold HsNtorClientRend, HsNtorAuthKeyLen, HsNtorResponseLen. set (Y := slice resp 0 32). set (r := hsNtorRendFinish _ _ _ _ _ _).
  assert (length r.2 = 32%nat) as Hm by (unfold r, hsNtorRendFinish; apply hs_mac_length).
  destruct (Nat.eqb_spec (length x) 32) as [Hx|], (Nat.eqb_spec (length B) 32) as [HB|], (Nat.eqb_spec (length a) 32) as [Ha|];
    cbn [negb orb]; try (split; [done|intros (? & ? & ? & _); done]).
  destruct (Nat.eqb_spec (length resp) 64) as [Hr|Hr]; cbn [negb];
    [|split; [done|intros (_ & _ & _ & HY & _ & _ & Hrs & _); apply (f_equal length) in Hrs; rewrite length_app in Hrs; lia]].
  assert (length Y = 32%nat) as HY by (unfold Y; rewrite length_slice; lia).
  assert (resp = Y ++ drop 32 resp) as Hsplit by (unfold Y, slice; by rewrite drop_0, take_drop).
  split.
  - intros (yx & (_ & _ & -> & Hz1)%shared_ok & He)%result_bind_ok. apply result_bind_ok in He as (bx & (_ & _ & -> & Hz2)%shared_ok & He).
    fold r in He. destruct r as [sd m]. cbn [fst snd] in *. destruct (Conversion.ConstantTimeCompare m (drop 32 resp)) eqn:Hct; [|done].
    apply Conversion.ConstantTimeCompare_spec in Hct. subst m. cbn [negb] in He. injection He as <-. by split_and!.
  - intros (_ & _ & _ & _ & Hz1 & Hz2 & Hrs & ->). rewrite (proj2 (shared_ok x Y _)) by by split_and!. cbn [result_bind].
    rewrite (proj2 (shared_ok x B _)) by by split_and!. cbn [result_bind]. fold r. destruct r as [sd m]. cbn [fst snd] in *.
    assert (drop 32 resp = m) as -> by (rewrite Hsplit in Hrs at 1; by apply app_inv_head in Hrs).
    by rewrite (proj2 (Conversion.ConstantTimeCompare_spec m m)).
Qed.

(** The two ends' hops: what one sends the other receives. *)
Definition mirrored (c s : Onion.Hop (G := CGO.CGOPair)) : Prop :=
  Onion.ForwardCipher c = Onion.BackwardCipher s /\ Onion.BackwardCipher c = Onion.ForwardCipher s /\
  Onion.ForwardDigest c = Onion.BackwardDigest s /\ Onion.BackwardDigest c = Onion.ForwardDigest s /\
  is_Some (Onion.ForwardCipher c) /\ is_Some (Onion.BackwardCipher c).

Lemma hops_mirrored km : length km = HsNtorCircuitKeyLen ->
  exists c s, NewHopFromHSKeyMaterial km = Ok c /\ NewHopFromHSKeyMaterialResponder km = Ok s /\ mirrored c s.
Proof.
  intros Hl. unfold NewHopFromHSKeyMaterialResponder, NewHopFromHSKeyMaterial. rewrite Hl, Nat.ltb_irrefl. cbv zeta.
  unfold HsNtorCircuitKeyLen in Hl. assert (forall k, length k = 32%nat -> exists c, RelayCrypto.NewAESCTRCipher Encrypt k (zeros 16) = Ok c) as Hc.
  { intros k Hk. unfold RelayCrypto.NewAESCTRCipher, CGO.NewCipher. rewrite bool_decide_true by (rewrite Hk; by right; right). by eexists. }
  destruct (Hc (slice km 64 96)) as [f ->]; [rewrite length_slice; lia|]. destruct (Hc (slice km 96 128)) as [g ->]; [rewrite length_slice; lia|].
  do 2 eexists. split; [reflexivity|]. split; [reflexivity|]. split_and!; by try eexists.
Qed.

(** Both ends of an honest rendezvous have the same seed, and hops that fit. *)
Lemma rend_agrees `{!CurveLaws} `{!V3HashLaws} x a b y :
  length x = 32%nat -> length a = 32%nat -> length b = 32%nat -> length y = 32%nat ->
  isAllZero (ScalarMult x (ScalarBaseMult b)) = false -> isAllZero (ScalarMult x (ScalarBaseMult y)) = false ->
  exists resp seed km c s, HsNtorServiceRend y b (ScalarBaseMult x) a = Ok (resp, seed) /\ HsNtorClientRend x (ScalarBaseMult b) a resp = Ok seed /\
    HsNtorExpandCircuitKeys seed = Ok km /\ NewHopFromHSKeyMaterial km = Ok c /\ NewHopFromHSKeyMaterialResponder km = Ok s /\ mirrored c s /\
    length resp = HsNtorResponseLen.
Proof.
  intros Hx Ha Hb Hy Hz1 Hz2. set (X := ScalarBaseMult x) in *. assert (length X = 32%nat) as HX by by apply Ntor.base_length.
  assert (ScalarMult y X = ScalarMult x (ScalarBaseMult y)) as Ey by by rewrite (Ntor.exchange x y).
  assert (ScalarMult b X = ScalarMult x (ScalarBaseMult b)) as Eb by by rewrite (Ntor.exchange x b).
  set (r := hsNtorRendFinish (ScalarMult y X) (ScalarMult b X) a (ScalarBaseMult b) X (ScalarBaseMult y)).
  assert (length r.1 = 32%nat) as Hr by (unfold r, hsNtorRendFinish; apply hs_mac_length).
  destruct (hops_mirrored (hsShake HsNtorCircuitKeyLen (r.1 ++ hsNtorMExpand))) as (c & s & Hc & Hs & Hm); [apply NtorV3.shake_length|].
  exists (ScalarBaseMult y ++ r.2), r.1, (hsShake HsNtorCircuitKeyLen (r.1 ++ hsNtorMExpand)), c, s.
  split_and!; [apply service_rend_ok| apply client_rend_ok| |done|done|done|].
  - cbv zeta. fold r. split_and!; try done; [by rewrite Ey|by rewrite Eb].
  - assert (length (ScalarBaseMult y) = 32%nat) as HY by by apply Ntor.base_length.
    assert (slice (ScalarBaseMult y ++ r.2) 0 32 = ScalarBaseMult y) as -> by (unfold slice; rewrite drop_0; by apply take_app_length').
    cbv zeta. fold X. rewrite <- Ey, <- Eb. split_and!; try done; [by apply Ntor.base_length|by rewrite Ey|by rewrite Eb].
  - unfold HsNtorExpandCircuitKeys, HsNtorKeySeedLen. by rewrite Hr.
  - rewrite length_app, Ntor.base_length by done. unfold r, hsNtorRendFinish. cbn [snd]. by rewrite hs_mac_length.
Qed.

(** ** Properties *)

(** C13: The rendezvous handshake agrees, and authenticates the service.  A service
    with the introduction key the client used answers the client's point, and the
    client derives the service's seed from the answer; the hops both ends then put
    at the end of their circuits are mirror images: each sends with the cipher and
    digest the other receives with.  Conversely, when a client accepts the answer
    some service gave to some point with some keys, it was this client's point, this
    introduction point and this service key, and the service has the client's seed;
    unless the two named transcripts collide under SHA3-256. *)
Theorem hs_rendezvous_sound `{!CurveLaws} `{!V3HashLaws} x B a :
  length x = 32%nat -> length a = 32%nat ->
  (forall b y, B = ScalarBaseMult b -> length b = 32%nat -> length y = 32%nat ->
     isAllZero (ScalarMult x B) = false -> isAllZero (ScalarMult x (ScalarBaseMult y)) = false ->
     exists resp seed km c s, HsNtorServiceRend y b (ScalarBaseMult x) a = Ok (resp, seed) /\ HsNtorClientRend x B a resp = Ok seed /\
       HsNtorExpandCircuitKeys seed = Ok km /\ NewHopFromHSKeyMaterial km = Ok c /\ NewHopFromHSKeyMaterialResponder km = Ok s /\ mirrored c s) /\
  (forall b' y X' a' resp seed seed',
     HsNtorServiceRend y b' X' a' = Ok (resp, seed') -> HsNtorClientRend x B a resp = Ok seed ->
     (X' = ScalarBaseMult x /\ ScalarBaseMult b' = B /\ a' = a /\ seed' = seed) \/
     let Y := ScalarBaseMult y in let X := ScalarBaseMult x in let B' := ScalarBaseMult b' in
     let v := HsMAC (rend_secret (ScalarMult x Y) (ScalarMult x B) a B X Y) hsNtorTHsVerify in
     let v' := HsMAC (rend_secret (ScalarMult y X') (ScalarMult b' X') a' B' X' Y) hsNtorTHsVerify in
     NtorV3.clash (mac_input (rend_auth_input v a B Y X) hsNtorTHsMac) (mac_input (rend_auth_input v' a' B' Y X') hsNtorTHsMac)).
Proof.
  intros Hx Ha. split.
  - intros b y -> Hb Hy Hz1 Hz2. destruct (rend_agrees x a b y) as (resp & seed & km & c & s & R1 & R2 & R3 & R4 & R5 & R6 & _); try done.
    by exists resp, seed, km, c, s.
  - intros b' y X' a' resp seed seed' Hs Hc. apply service_rend_ok in Hs. apply client_rend_ok in Hc. cbv zeta in *.
    destruct Hs as (Hy & Hb' & HX' & Ha' & _ & _ & Hresp & ->).
    assert (length (ScalarBaseMult y) = 32%nat) as HY by by apply Ntor.base_length.
    assert (slice resp 0 32 = ScalarBaseMult y) as HsY by (subst resp; unfold slice; rewrite drop_0; by apply take_app_length').
    rewrite HsY in Hc. destruct Hc as (_ & HB & _ & _ & _ & _ & Hresp2 & ->). rewrite Hresp in Hresp2. apply app_inv_head in Hresp2.
    unfold hsNtorRendFinish in Hresp2. cbn [snd] in Hresp2. unfold HsMAC at 1 3 in Hresp2.
    match type of Hresp2 with sha3_256 ?m' = sha3_256 ?m => destruct (decide (m = m')) as [Heq|Hne]; [|by right] end. left.
    unfold mac_input, rend_auth_input in Heq. apply app_inj_1 in Heq as [_ Heq]; [|by rewrite !length_PutUint64].
    assert (length (ScalarBaseMult b') = 32%nat /\ length (ScalarBaseMult x) = 32%nat) as [HlB HlX] by (split; by apply Ntor.base_length).
    rewrite <- !app_assoc in Heq. do 2 (apply app_inj_1 in Heq as [? Heq]; [|rewrite ?hs_mac_length; lia]).
    apply app_inj_1 in Heq as [HBB Heq]; [|lia]. apply app_inv_head in Heq. apply app_inj_1 in Heq as [HXX _]; [|lia].
    subst a' X'. rewrite HBB. split_and!; [done..|]. unfold hsNtorRendFinish. cbn [fst].
    by rewrite (Ntor.exchange x y), (Ntor.exchange x b').
Qed.

End Handshake.
(** ** A concrete rendezvous *)

#[local] Existing Instances Ntor.toy_curve Ntor.toy_curve_laws NtorV3.toy_v3_hash NtorV3.toy_v3_laws.

Lemma hs_rendezvous_sound_witness :
  exists resp seed, HsNtorServiceRend (repeat 5 32) (repeat 9 32) (repeat 3 32) (repeat 7 32) = Ok (resp, seed) /\
    HsNtorClientRend (repeat 3 32) (repeat 9 32) (repeat 7 32) resp = Ok seed.
Proof.
  destruct (hs_rendezvous_sound RelayCrypto.toy_block (repeat 3 32) (repeat 9 32) (repeat 7 32) eq_refl eq_refl) as [Ha _].
  destruct (Ha (repeat 9 32) (repeat 5 32) eq_refl eq_refl eq_refl eq_refl eq_refl) as (resp & seed & _ & _ & _ & Hs & Hc & _).
  exists resp, seed. split; [exact Hs|exact Hc].
Defined.

End HsNtor.
