(* ===== verification/LinkCerts.v ===== *)
(** * Certificates of the link handshake (pkg/protocol/certs.go, pkg/relay/or_certs.go)

    CERTS cells: their format, the Ed25519 certificates and the RSA cross-certificate
    in them, how a relay makes them, and what is checked of those received.  X.509,
    the hashes and the signature schemes are the operations of [LinkCrypto]. *)

From Stdlib Require Import String.
From S2P Require Import Prelude Conversion GoStrings Cell.
Import GoStrings(lit, hex_encode, ToUpper).

Module LinkCerts.

(** An RSA public key is given by its PKCS#1 encoding. *)
Record X509 := mkX509 { NotBefore : Z; NotAfter : Z; PublicKey : option bytes }.

Class LinkCrypto := {
  ParseCertificate : bytes -> option X509;
  sha1 : bytes -> bytes;
  sha256 : bytes -> bytes;
  edPublic : bytes -> bytes;
  edSign : bytes -> bytes -> bytes;
  edVerify : bytes -> bytes -> bytes -> bool;
  rsaPublic : bytes -> bytes;
  rsaSize : bytes -> Z;
  rsaSign : bytes -> bytes -> option bytes;
  rsaVerify : bytes -> bytes -> bytes -> bool;
}.

Class LinkCryptoLaws (C : LinkCrypto) := {
  sha256_length m : length (sha256 m) = 32%nat;
  ed_public_length k : length k = 64%nat -> length (edPublic k) = 32%nat;
  ed_sign_length k m : length (edSign k m) = 64%nat;
  ed_verify_sign k m : edVerify (edPublic k) m (edSign k m) = true;
  rsa_verify_sign k d s : rsaSign k d = Some s -> rsaVerify (rsaPublic k) d s = true;
  sha256_bytes m : Forall is_byte (sha256 m);
  ed_public_bytes k : Forall is_byte (edPublic k);
  ed_sign_bytes k m : Forall is_byte (edSign k m);
  rsa_sign_bytes k d s : rsaSign k d = Some s -> Forall is_byte s;
}.

(** Times are in nanoseconds since 1970. *)
Definition Second : Z := 10 ^ 9.
Definition Unix (t : Z) : Z := t / Second.
Definition of_hours (h : Z) : Z := h * 3600 * Second.

Definition rsaEd25519CrossCertPrefix : bytes := lit "Tor TLS RSA/Ed25519 cross-certificate".
Definition rsaEd25519CrossCertSignedLen : nat := 36.
Definition ExtTypeSignedWithEd25519Key : Z := 4.
Definition CertKeyTypeEd25519 : Z := 1.
Definition CertKeyTypeSHA256OfX509 : Z := 3.

Definition CertTypeTLSLink : Z := 1.
Definition CertTypeRSAID : Z := 2.
Definition CertTypeRSAAuth : Z := 3.
Definition CertTypeEd25519Signing : Z := 4.
Definition CertTypeEd25519TLSLink : Z := 5.
Definition CertTypeEd25519Auth : Z := 6.
Definition CertTypeEd25519Identity : Z := 7.

Record Ed25519Extension := mkExtension { ExtType : Z; Flags : Z; ExtData : bytes }.
Record Ed25519Certificate := mkEdCert {
  Version : Z;
  EdCertType : Z;
  ExpiresAt : Z;
  CertKeyType : Z;
  CertifiedKey : bytes;
  Extensions : list Ed25519Extension;
  Signature : bytes;
  SignedBytes : bytes;
}.
Record Certificate := mkCert { CertType : Z; CertBody : bytes; X509Cert : option X509; Ed25519Cert : option Ed25519Certificate }.

(** A CERTS cell is its certificates. *)
Abbreviation CERTSCell := (list Certificate).

Inductive error :=
| errNotCerts (cmd : Z) | errPayloadShort | errHeader (off : nat) | errBody (off : nat) | errEntry (i : Z) (e : error)
| errX509 | errUnknownType (t : Z) | errCrossShort | errCrossTruncated | errCertShort | errVersion (v : Z)
| errExtHeader | errExtData | errSigTruncated | errTrailing (n : Z)
| errMissingRSA | errNotRSA | errFingerprint | errIdentityLen | errIdentity | errMissingIdentity | errKeyLen
| errExpired (t : Z) | errNotYetValid (t : Z)
| errSigningKeyLen | errSigLen | errExtMismatch | errVerify
| errCrossUnparsed | errCrossNeedsRSA | errRSAShort | errFieldsLen | errRSAVerify
| errUnparsed (t : Z) | errNeedsIdentity | errNeedsSigning (t : Z) | errSignature (t : Z) (e : error)
| errRSAKey | errRSASize | errRSASign | errEntryCount | errTooLarge (e : Conversion.error) | errKeys | errTLSCert | errGenerate.

(** ** Parsing *)

Definition parseRSAEd25519CrossCert (data : bytes) : result error Ed25519Certificate :=
  if (length data <? 37)%nat then Err errCrossShort
  else
    let sigLen := Z.to_nat (at_ data 36) in
    if (length data <? 37 + sigLen)%nat then Err errCrossTruncated
    else
      let hours := be_get (slice data 32 36) in
      Ok (mkEdCert 0 7 (of_hours hours) 0 (slice data 0 32) [] (slice data 37 (37 + sigLen)) (take rsaEd25519CrossCertSignedLen data)).

Fixpoint parse_extensions (n : nat) (data : bytes) (offset : nat) (acc : list Ed25519Extension) : result error (list Ed25519Extension * nat) :=
  match n with
  | O => Ok (acc, offset)
  | S n =>
      if (length data <? offset + 4)%nat then Err errExtHeader
      else
        let extLen := Z.to_nat (be_get (slice data offset (offset + 2))) in
        let offset := (offset + 2)%nat in
        if (length data <? offset + 2 + extLen)%nat then Err errExtData
        else
          let ext := mkExtension (at_ data offset) (at_ data (offset + 1)) (slice data (offset + 2) (offset + 2 + extLen)) in
          parse_extensions n data (offset + (2 + extLen)) (acc ++ [ext])
  end.

Definition parseEd25519Certificate (data : bytes) : result error Ed25519Certificate :=
  if (length data <? 40)%nat then Err errCertShort
  else if negb (at_ data 0 =? 1) then Err (errVersion (at_ data 0))
  else
    let? r := parse_extensions (Z.to_nat (at_ data 39)) data 40 [] in
    let '(exts, offset) := r in
    if (length data <? offset + 64)%nat then Err errSigTruncated
    else if negb (offset + 64 =? length data)%nat then Err (errTrailing (len data - Z.of_nat offset - 64))
    else
      Ok (mkEdCert (at_ data 0) (at_ data 1) (of_hours (be_get (slice data 2 6))) (at_ data 6) (slice data 7 39) exts
            (slice data offset (offset + 64)) (take offset data)).

Definition SignedWithEd25519Key (e : Ed25519Certificate) : option bytes :=
  ExtData <$> List.find (fun ext => (ExtType ext =? ExtTypeSignedWithEd25519Key) && (length (ExtData ext) =? 32)%nat) (Extensions e).

Definition FindCertificate (c : CERTSCell) (t : Z) : option Certificate := List.find (fun cert => CertType cert =? t) c.

Definition is_ed_type (t : Z) : bool :=
  (t =? CertTypeEd25519Signing) || (t =? CertTypeEd25519TLSLink) || (t =? CertTypeEd25519Auth).

Section Certs.
Context `{LinkCrypto}.

Definition parseCertificateBody (t : Z) (body : bytes) : result error Certificate :=
  if (t =? CertTypeTLSLink) || (t =? CertTypeRSAID) || (t =? CertTypeRSAAuth) then
    match ParseCertificate body with None => Err errX509 | Some x => Ok (mkCert t body (Some x) None) end
  else if t =? CertTypeEd25519Identity then
    let? cross := parseRSAEd25519CrossCert body in Ok (mkCert t body None (Some cross))
  else if is_ed_type t then
    let? cert := parseEd25519Certificate body in Ok (mkCert t body None (Some cert))
  else Err (errUnknownType t).

Fixpoint parse_certs (n : nat) (i : Z) (payload : bytes) (offset : nat) (acc : CERTSCell) : result error CERTSCell :=
  match n with
  | O => Ok acc
  | S n =>
      if (length payload <? offset + 3)%nat then Err (errHeader offset)
      else
        let t := at_ payload offset in
        let certLen := Z.to_nat (be_get (slice payload (offset + 1) (offset + 3))) in
        let offset := (offset + 3)%nat in
        if (length payload <? offset + certLen)%nat then Err (errBody offset)
        else
          let body := slice payload offset (offset + certLen) in
          match parseCertificateBody t body with
          | Ok cert => parse_certs n (i + 1) payload (offset + certLen) (acc ++ [cert])
          | Err e =>
              if is_ed_type t || (t =? CertTypeEd25519Identity) then Err (errEntry i e)
              else parse_certs n (i + 1) payload (offset + certLen) (acc ++ [mkCert t body None None])
          end
  end.

Definition ParseCERTSCell (c : Cell.Cell) : result error CERTSCell :=
  if negb (Cell.Command c =? Cell.CmdCerts) then Err (errNotCerts (Cell.Command c))
  else
    let payload := Cell.Payload c in
    if (length payload <? 1)%nat then Err errPayloadShort
    else parse_certs (Z.to_nat (at_ payload 0)) 0 payload 1 [].

(** ** Checking *)

Definition rsa_key (c : CERTSCell) : option (option bytes) :=
  match FindCertificate c CertTypeRSAID with
  | Some cert => match X509Cert cert with Some x => Some (PublicKey x) | None => None end
  | None => None
  end.

Definition Ed25519IdentityKey (c : CERTSCell) : result error bytes :=
  match FindCertificate c CertTypeEd25519Identity ≫= Ed25519Cert with
  | Some type7 => if negb (length (CertifiedKey type7) =? 32)%nat then Err errKeyLen else Ok (CertifiedKey type7)
  | None =>
      match FindCertificate c CertTypeEd25519Signing ≫= Ed25519Cert with
      | Some type4 => match SignedWithEd25519Key type4 with
                      | Some key => if (length key =? 32)%nat then Ok key else Err errMissingIdentity
                      | None => Err errMissingIdentity
                      end
      | None => Err errMissingIdentity
      end
  end.

(** An expected fingerprint or identity that is empty is not checked. *)
Definition ValidateRelayIdentity (c : CERTSCell) (expectedRSAFingerprint expectedEd25519Identity : bytes) : option error :=
  let rsa :=
    if (length expectedRSAFingerprint =? 0)%nat then None
    else match rsa_key c with
         | None => Some errMissingRSA
         | Some None => Some errNotRSA
         | Some (Some der) =>
             if negb (bool_decide (ToUpper (hex_encode (sha1 der)) = expectedRSAFingerprint)) then Some errFingerprint else None
         end in
  match rsa with
  | Some e => Some e
  | None =>
      if (length expectedEd25519Identity =? 0)%nat then None
      else if negb (length expectedEd25519Identity =? 32)%nat then Some errIdentityLen
      else match Ed25519IdentityKey c with
           | Err e => Some e
           | Ok key => if negb (bool_decide (key = expectedEd25519Identity)) then Some errIdentity else None
           end
  end.

Definition cert_expiration (now : Z) (cert : Certificate) : option error :=
  match (match X509Cert cert with
         | Some x => if NotAfter x <? now then Some (errExpired (CertType cert))
                     else if now <? NotBefore x then Some (errNotYetValid (CertType cert)) else None
         | None => None
         end) with
  | Some e => Some e
  | None => match Ed25519Cert cert with
            | Some e => if ExpiresAt e <? now then Some (errExpired (CertType cert)) else None
            | None => None
            end
  end.
Definition ValidateExpiration (c : CERTSCell) (now : Z) : option error := head (omap (cert_expiration now) c).

Definition reconstructSignedBytes (e : Ed25519Certificate) : bytes :=
  [Version e; EdCertType e] ++ PutUint32 (Conversion.UnixHoursUint32 (Unix (ExpiresAt e))) ++ [CertKeyType e] ++ CertifiedKey e ++
  [Conversion.ByteLen (len (Extensions e))] ++
  flat_map (fun ext => PutUint16 (Conversion.IntToUint16Sat (len (ExtData ext))) ++ [ExtType ext; Flags ext] ++ ExtData ext) (Extensions e).

Definition signedMessage (e : Ed25519Certificate) : bytes :=
  if (0 <? length (SignedBytes e))%nat then SignedBytes e else reconstructSignedBytes e.

Definition VerifySignature (e : Ed25519Certificate) (signingKey : bytes) : option error :=
  if negb (length signingKey =? 32)%nat then Some errSigningKeyLen
  else if negb (length (Signature e) =? 64)%nat then Some errSigLen
  else if match SignedWithEd25519Key e with Some k => negb (bool_decide (k = signingKey)) | None => false end then Some errExtMismatch
  else if negb (edVerify signingKey (signedMessage e) (Signature e)) then Some errVerify
  else None.

Definition reconstructRSAEd25519CrossCertFields (cross : Ed25519Certificate) : bytes :=
  if negb (length (CertifiedKey cross) =? 32)%nat then []
  else CertifiedKey cross ++ PutUint32 (Conversion.UnixHoursUint32 (Unix (ExpiresAt cross))).

Definition verifyRSAEd25519CrossCert (cross : Ed25519Certificate) (rsaPub : bytes) : option error :=
  if negb (length (CertifiedKey cross) =? 32)%nat then Some errKeyLen
  else if (length (Signature cross) <? 128)%nat then Some errRSAShort
  else
    let fields := if (length (SignedBytes cross) =? 0)%nat then reconstructRSAEd25519CrossCertFields cross else SignedBytes cross in
    if negb (length fields =? rsaEd25519CrossCertSignedLen)%nat then Some errFieldsLen
    else if negb (rsaVerify rsaPub (sha256 (rsaEd25519CrossCertPrefix ++ fields)) (Signature cross)) then Some errRSAVerify else None.

Definition verifyType7RSACrossCert (c : CERTSCell) : option error :=
  match FindCertificate c CertTypeEd25519Identity with
  | None => None
  | Some type7 =>
      match Ed25519Cert type7 with
      | None => Some errCrossUnparsed
      | Some cross =>
          match rsa_key c with
          | None => Some errCrossNeedsRSA
          | Some None => Some errNotRSA
          | Some (Some rsaPub) => verifyRSAEd25519CrossCert cross rsaPub
          end
      end
  end.

(** One certificate of the loop of [ValidateSignatures]. *)
Definition check_cert (c : CERTSCell) (cert : Certificate) : option error :=
  match Ed25519Cert cert with
  | None => if is_ed_type (CertType cert) then Some (errUnparsed (CertType cert)) else None
  | Some e =>
      let signed_by key := match VerifySignature e key with Some err => Some (errSignature (CertType cert) err) | None => None end in
      if CertType cert =? CertTypeEd25519Signing then
        match FindCertificate c CertTypeEd25519Identity ≫= Ed25519Cert with
        | None => Some errNeedsIdentity
        | Some identity => if negb (length (CertifiedKey identity) =? 32)%nat then Some errKeyLen else signed_by (CertifiedKey identity)
        end
      else if (CertType cert =? CertTypeEd25519TLSLink) || (CertType cert =? CertTypeEd25519Auth) then
        match FindCertificate c CertTypeEd25519Signing ≫= Ed25519Cert with
        | None => Some (errNeedsSigning (CertType cert))
        | Some signing => signed_by (CertifiedKey signing)
        end
      else None
  end.

Definition ValidateSignatures (c : CERTSCell) : option error :=
  match verifyType7RSACrossCert c with Some e => Some e | None => head (omap (check_cert c) c) end.

(** ** Making certificates *)

Definition set_signature (e : Ed25519Certificate) (signed sig : bytes) : Ed25519Certificate :=
  mkEdCert (Version e) (EdCertType e) (ExpiresAt e) (CertKeyType e) (CertifiedKey e) (Extensions e) sig signed.

Definition PrepareSignedBytes (e : Ed25519Certificate) : Ed25519Certificate := set_signature e (reconstructSignedBytes e) (Signature e).
Definition SignEd25519Certificate (e : Ed25519Certificate) (priv : bytes) : Ed25519Certificate :=
  let e := PrepareSignedBytes e in set_signature e (SignedBytes e) (edSign priv (SignedBytes e)).
Definition EncodeEd25519Certificate (e : Ed25519Certificate) : bytes := signedMessage e ++ Signature e.

Definition EncodeRSAEd25519CrossCert (edID : bytes) (rsaPriv : option bytes) (expires : Z) : result error bytes :=
  if negb (length edID =? 32)%nat then Err errIdentityLen
  else match rsaPriv with
       | None => Err errRSAKey
       | Some rsaPriv =>
           if 255 <? rsaSize rsaPriv then Err errRSASize
           else
             let hours := Z.quot (Unix expires) 3600 in
             let hours := if hours <? 0 then 0 else hours in
             let hours := if MaxUint32 <? hours then MaxUint32 else hours in
             let fields := edID ++ PutUint32 (u32 hours) in
             match rsaSign rsaPriv (sha256 (rsaEd25519CrossCertPrefix ++ fields)) with
             | None => Err errRSASign
             | Some sig => if negb (len sig =? rsaSize rsaPriv) then Err errRSASize else Ok (fields ++ [u8 (len sig)] ++ sig)
             end
       end.

Definition ed_cert (t expires keyType : Z) (key signer : bytes) : Ed25519Certificate :=
  mkEdCert 1 t expires keyType key [mkExtension ExtTypeSignedWithEd25519Key 0 signer] [] [].

Definition buildIdentitySigningCert (idPriv signPub : bytes) (expires : Z) : result error bytes :=
  if negb (length idPriv =? 64)%nat || negb (length (edPublic idPriv) =? 32)%nat || negb (length signPub =? 32)%nat then Err errKeys
  else Ok (EncodeEd25519Certificate
             (SignEd25519Certificate (ed_cert CertTypeEd25519Signing expires CertKeyTypeEd25519 signPub (edPublic idPriv)) idPriv)).

Definition buildTLSLinkCert (tlsDER signPriv : bytes) (expires : Z) : result error bytes :=
  if (length tlsDER =? 0)%nat then Err errTLSCert
  else if negb (length signPriv =? 64)%nat || negb (length (edPublic signPriv) =? 32)%nat then Err errKeys
  else Ok (EncodeEd25519Certificate
             (SignEd25519Certificate (ed_cert CertTypeEd25519TLSLink expires CertKeyTypeSHA256OfX509 (sha256 tlsDER) (edPublic signPriv)) signPriv)).

Definition buildLinkAuthCert (signPriv authPub : bytes) (expires : Z) : result error bytes :=
  if negb (length signPriv =? 64)%nat || negb (length authPub =? 32)%nat || negb (length (edPublic signPriv) =? 32)%nat then Err errKeys
  else Ok (EncodeEd25519Certificate
             (SignEd25519Certificate (ed_cert CertTypeEd25519Auth expires CertKeyTypeEd25519 authPub (edPublic signPriv)) signPriv)).

Record RelayKeys := mkKeys { TLSCert : bytes; RSAPrivate : option bytes; Ed25519Private : bytes; Ed25519Public : bytes }.

Fixpoint encode_entries (entries : list (Z * bytes)) : result error bytes :=
  match entries with
  | [] => Ok []
  | (t, body) :: entries =>
      match Conversion.SafeLenToUint16 body with
      | Err e => Err (errTooLarge e)
      | Ok clen => let? rest := encode_entries entries in Ok ([t] ++ PutUint16 clen ++ body ++ rest)
      end
  end.
Definition encodeCERTSPayload (entries : list (Z * bytes)) : result error bytes :=
  if (length entries =? 0)%nat || (255 <? len entries) then Err errEntryCount
  else let? body := encode_entries entries in Ok ([u8 (len entries)] ++ body).

(** [signPriv]: the new signing key. *)
Definition buildCERTSPayload (keys : option RelayKeys) (now : Z) (signPriv : option bytes) : result error bytes :=
  match keys with
  | None => Err errKeys
  | Some k =>
      if (length (TLSCert k) =? 0)%nat || negb (bool_decide (is_Some (RSAPrivate k))) then Err errKeys
      else if negb (length (Ed25519Private k) =? 64)%nat || negb (length (Ed25519Public k) =? 32)%nat then Err errKeys
      else match ParseCertificate (TLSCert k) with
           | None => Err errX509
           | Some _ =>
               let expires := now + 30 * 24 * 3600 * Second in
               match signPriv with
               | None => Err errGenerate
               | Some signPriv =>
                   let? type4 := buildIdentitySigningCert (Ed25519Private k) (edPublic signPriv) expires in
                   let? type5 := buildTLSLinkCert (TLSCert k) signPriv expires in
                   let? type7 := EncodeRSAEd25519CrossCert (Ed25519Public k) (RSAPrivate k) expires in
                   encodeCERTSPayload [(CertTypeTLSLink, TLSCert k); (CertTypeRSAID, TLSCert k); (CertTypeEd25519Signing, type4);
                                       (CertTypeEd25519TLSLink, type5); (CertTypeEd25519Identity, type7)]
               end
           end
  end.

(** ** Lemmas *)

(** *** What was parsed *)

(** The certified key of a parsed certificate is among the bytes its signature covers. *)
Definition covers (cert : Certificate) : Prop :=
  (CertType cert = CertTypeEd25519Identity -> exists e exp, Ed25519Cert cert = Some e /\ SignedBytes e = CertifiedKey e ++ exp /\
     length (CertifiedKey e) = 32%nat /\ length exp = 4%nat /\ ExpiresAt e = of_hours (be_get exp)) /\
  (is_ed_type (CertType cert) = true -> exists e pre post, Ed25519Cert cert = Some e /\ SignedBytes e = pre ++ CertifiedKey e ++ post /\
     length (CertifiedKey e) = 32%nat /\ length pre = 7%nat /\ ExpiresAt e = of_hours (be_get (slice pre 2 6)) /\ post <> []).

Lemma parse_extensions_bound n data off acc exts off' :
  parse_extensions n data off acc = Ok (exts, off') -> (off <= off')%nat /\ ((0 < n)%nat -> (off' <= length data)%nat).
Proof.
  revert off acc. induction n as [|n IH]; intros off acc Hp; cbn [parse_extensions] in Hp; [injection Hp as _ <-; lia|].
  destruct (Nat.ltb_spec (length data) (off + 4)); [done|]. destruct (Nat.ltb_spec (length data) (off + 2 + 2 + Z.to_nat (be_get (slice data off (off + 2))))); [done|].
  destruct n as [|n]; [cbn in Hp; injection Hp as _ <-; lia|]. apply IH in Hp as [? Hb]. specialize (Hb ltac:(lia)). lia.
Qed.

Lemma split_slice (d : bytes) i j : (i <= j)%nat -> take j d = take i d ++ slice d i j.
Proof. intros Hij. unfold slice. rewrite <- (take_drop i (take j d)), take_take, Nat.min_l by lia. f_equal. by rewrite skipn_firstn_comm. Qed.

Lemma cross_covers data e : parseRSAEd25519CrossCert data = Ok e -> exists exp, SignedBytes e = CertifiedKey e ++ exp /\
  length (CertifiedKey e) = 32%nat /\ length exp = 4%nat /\ ExpiresAt e = of_hours (be_get exp).
Proof.
  unfold parseRSAEd25519CrossCert. destruct (Nat.ltb_spec (length data) 37); [done|]. destruct (_ <? _)%nat; [done|]. intros [= <-].
  cbn [SignedBytes CertifiedKey ExpiresAt]. exists (slice data 32 36). unfold rsaEd25519CrossCertSignedLen. rewrite (split_slice data 32 36) by lia.
  split_and!; [done|rewrite length_slice; lia|rewrite length_slice; lia|done].
Qed.

Lemma cert_covers data e : parseEd25519Certificate data = Ok e -> exists pre post, SignedBytes e = pre ++ CertifiedKey e ++ post /\
  length (CertifiedKey e) = 32%nat /\ length pre = 7%nat /\ ExpiresAt e = of_hours (be_get (slice pre 2 6)) /\ post <> [].
Proof.
  unfold parseEd25519Certificate. destruct (Nat.ltb_spec (length data) 40); [done|]. destruct (negb _); [done|].
  intros ([exts off] & Hp & He)%result_bind_ok. apply parse_extensions_bound in Hp as [Hoff _].
  destruct (Nat.ltb_spec (length data) (off + 64)); [done|]. destruct (negb _); [done|]. injection He as <-. cbn [SignedBytes CertifiedKey ExpiresAt].
  exists (take 7 data), (slice data 39 off). rewrite (split_slice data 39 off), (split_slice data 7 39), <- app_assoc by lia.
  split_and!; [done|rewrite length_slice; lia|rewrite length_take; lia| |].
  - f_equal. f_equal. unfold slice. rewrite skipn_firstn_comm, take_take. done.
  - intros Hnil. apply (f_equal length) in Hnil. rewrite length_slice in Hnil by lia. cbn in Hnil. lia.
Qed.

Lemma body_covers t body cert : parseCertificateBody t body = Ok cert -> CertType cert = t /\ covers cert.
Proof.
  unfold parseCertificateBody, covers, is_ed_type. intros Hp.
  destruct (Z.eqb_spec t CertTypeTLSLink) as [->|]; [destruct (ParseCertificate _); [|done]; injection Hp as <-; done|].
  destruct (Z.eqb_spec t CertTypeRSAID) as [->|]; [destruct (ParseCertificate _); [|done]; injection Hp as <-; done|].
  destruct (Z.eqb_spec t CertTypeRSAAuth) as [->|]; [destruct (ParseCertificate _); [|done]; injection Hp as <-; done|]. cbn [orb] in Hp.
  destruct (Z.eqb_spec t CertTypeEd25519Identity) as [->|Hne].
  - apply result_bind_ok in Hp as (e & (exp & Hx)%cross_covers & [= <-]). split; [done|]. cbn [CertType Ed25519Cert]. split; [|done].
    intros _. by exists e, exp.
  - destruct (_ || _); [|done]. apply result_bind_ok in Hp as (e & (pre & post & Hx)%cert_covers & [= <-]). split; [done|]. cbn [CertType Ed25519Cert].
    split; [done|]. intros _. by exists e, pre, post.
Qed.

Lemma certs_cover n i payload off acc c : parse_certs n i payload off acc = Ok c -> Forall covers acc -> Forall covers c.
Proof.
  revert i off acc. induction n as [|n IH]; intros i off acc Hp Ha; cbn [parse_certs] in Hp; [by injection Hp as <-|].
  destruct (_ <? _)%nat; [done|]. destruct (_ <? _)%nat; [done|]. destruct (parseCertificateBody _ _) as [cert|e] eqn:Hb.
  - apply IH in Hp; [done|]. apply Forall_app. split; [done|]. constructor; [|constructor]. by eapply body_covers.
  - destruct (is_ed_type _ || _) eqn:Hed; [done|]. apply orb_false_iff in Hed as [Hed Hid%Z.eqb_neq]. apply IH in Hp; [done|]. apply Forall_app. split; [done|].
    constructor; [|constructor]. split; cbn [CertType]; congruence.
Qed.

Lemma parsed_covers cell c : ParseCERTSCell cell = Ok c -> Forall covers c.
Proof. unfold ParseCERTSCell. destruct (negb _); [done|]. destruct (_ <? _)%nat; [done|]. intros Hp. by apply certs_cover in Hp. Qed.

(** *** What was checked *)

Lemma head_omap_none {A B} (f : A -> option B) l : head (omap f l) = None -> forall x, x ∈ l -> f x = None.
Proof.
  induction l as [|y l IH]; intros Hh x Hx; [by apply not_elem_of_nil in Hx|]. cbn in Hh. destruct (f y) eqn:Hy; [done|].
  apply elem_of_cons in Hx as [->|Hx]; [done|]. by apply IH.
Qed.

Lemma find_type c t cert : FindCertificate c t = Some cert -> CertType cert = t /\ cert ∈ c.
Proof. intros [Hin Ht]%find_some. split; [by apply Z.eqb_eq|by apply list_elem_of_In]. Qed.

Lemma verified e key : VerifySignature e key = None -> edVerify key (signedMessage e) (Signature e) = true /\ length key = 32%nat.
Proof.
  unfold VerifySignature. destruct (Nat.eqb_spec (length key) 32); [|done]. cbn [negb]. destruct (length (Signature e) =? 64)%nat; [|done]. cbn [negb]. destruct (match _ with Some _ => _ | None => _ end); [done|].
  destruct (edVerify _ _ _); done.
Qed.

Lemma signed_message_covers e pre post : SignedBytes e = pre ++ CertifiedKey e ++ post -> length (CertifiedKey e) = 32%nat -> signedMessage e = SignedBytes e.
Proof. intros Hs Hk. unfold signedMessage. destruct (Nat.ltb_spec 0 (length (SignedBytes e))) as [|Hz]; [done|]. rewrite Hs, !length_app in Hz. lia. Qed.

(** The identity [id] as certified: the RSA key vouches for it, it vouches for the
    signing keys, and the first signing key for link and authentication keys. *)
Record chain (c : CERTSCell) (der id : bytes) : Prop := mkChain {
  chain_rsa : rsa_key c = Some (Some der);
  chain_cross : exists exp sig, length exp = 4%nat /\ rsaVerify der (sha256 (rsaEd25519CrossCertPrefix ++ id ++ exp)) sig = true;
  chain_signing : forall cert, cert ∈ c -> CertType cert = CertTypeEd25519Signing ->
    exists pre key post sig, length pre = 7%nat /\ length key = 32%nat /\ CertifiedKey <$> Ed25519Cert cert = Some key /\
      edVerify id (pre ++ key ++ post) sig = true;
  chain_others : forall cert, cert ∈ c -> CertType cert = CertTypeEd25519TLSLink \/ CertType cert = CertTypeEd25519Auth ->
    exists signer pre key post sig, CertifiedKey <$> (FindCertificate c CertTypeEd25519Signing ≫= Ed25519Cert) = Some signer /\
      length pre = 7%nat /\ length key = 32%nat /\ CertifiedKey <$> Ed25519Cert cert = Some key /\ edVerify signer (pre ++ key ++ post) sig = true;
}.

(** Checked signatures make a chain from whatever identity the cell names, provided
    it is there: type 7, or a type 4 certificate, which then needs type 7. *)
Lemma signatures_chain c id :
  Forall covers c -> ValidateSignatures c = None -> Ed25519IdentityKey c = Ok id -> exists der, chain c der id.
Proof.
  intros Hcov Hv Hid. unfold ValidateSignatures in Hv. destruct (verifyType7RSACrossCert c) eqn:H7; [done|].
  pose proof (head_omap_none _ _ Hv) as Hall. clear Hv.
  assert (exists t7 cross, FindCertificate c CertTypeEd25519Identity = Some t7 /\ Ed25519Cert t7 = Some cross /\ CertifiedKey cross = id) as (t7 & cross & Hf & Hc & Hk).
  { unfold Ed25519IdentityKey in Hid. destruct (FindCertificate c CertTypeEd25519Identity) as [t7|] eqn:Hf; cbn [mbind option_bind] in Hid.
    - unfold verifyType7RSACrossCert in H7. rewrite Hf in H7. destruct (Ed25519Cert t7) as [cross|] eqn:Hc; [|done]. destruct (negb _); [done|].
      injection Hid as <-. by exists t7, cross.
    - exfalso. destruct (FindCertificate c CertTypeEd25519Signing) as [t4|] eqn:H4; [|done]. cbn [mbind option_bind] in Hid.
      destruct (Ed25519Cert t4) as [e4|] eqn:He4; [|done]. apply find_type in H4 as [Ht4 Hin]. specialize (Hall t4 Hin). unfold check_cert in Hall.
      rewrite He4, Ht4, Hf in Hall. done. }
  unfold verifyType7RSACrossCert in H7. rewrite Hf, Hc in H7. destruct (rsa_key c) as [[der|]|] eqn:Hr; [|done|done]. exists der. split; [done| | |].
  - apply find_type in Hf as [Ht Hin]. destruct (proj1 (proj1 (Forall_forall _ _) Hcov t7 Hin) Ht) as (cross' & exp & Hc' & Hs & Hlk & Hle & _).
    rewrite Hc in Hc'. injection Hc' as <-. unfold verifyRSAEd25519CrossCert in H7. destruct (negb _); [done|]. destruct (_ <? _)%nat; [done|].
    rewrite Hs, length_app, Hlk in H7. cbn [Nat.eqb Nat.add] in H7. destruct (negb _); [done|]. destruct (rsaVerify _ _ _) eqn:Hver; [|done].
    exists exp, (Signature cross). split; [done|]. by rewrite <- Hk.
  - intros cert Hin Ht. specialize (Hall cert Hin). destruct (proj2 (proj1 (Forall_forall _ _) Hcov cert Hin)) as (e & pre & post & He & Hs & Hlk & Hlp & _); [by rewrite Ht|].
    unfold check_cert in Hall. rewrite He, Ht, Hf in Hall. cbn [Z.eqb mbind option_bind] in Hall. rewrite Hc in Hall.
    change (CertTypeEd25519Signing =? CertTypeEd25519Signing) with true in Hall. cbv iota in Hall. destruct (negb _); [done|].
    destruct (VerifySignature e (CertifiedKey cross)) eqn:Hver; [done|]. apply verified in Hver as [Hver _].
    exists pre, (CertifiedKey e), post, (Signature e). rewrite He. split_and!; [done|done|done|].
    rewrite (signed_message_covers _ _ _ Hs Hlk), Hs, Hk in Hver. done.
  - intros cert Hin Ht. specialize (Hall cert Hin).
    destruct (proj2 (proj1 (Forall_forall _ _) Hcov cert Hin)) as (e & pre & post & He & Hs & Hlk & Hlp & _); [by destruct Ht as [-> | ->]|].
    unfold check_cert in Hall. rewrite He in Hall.
    assert ((CertType cert =? CertTypeEd25519Signing) = false /\ (CertType cert =? CertTypeEd25519TLSLink) || (CertType cert =? CertTypeEd25519Auth) = true) as [E1 E2]
      by (by destruct Ht as [-> | ->]).
    rewrite E1, E2 in Hall. destruct (FindCertificate c CertTypeEd25519Signing ≫= Ed25519Cert) as [signing|]; [|done].
    destruct (VerifySignature e (CertifiedKey signing)) eqn:Hver; [done|]. apply verified in Hver as [Hver _].
    exists (CertifiedKey signing), pre, (CertifiedKey e), post, (Signature e). rewrite He. split_and!; [done|done|done|done|].
    by rewrite (signed_message_covers _ _ _ Hs Hlk), Hs in Hver.
Qed.

(** *** What a relay makes *)

Lemma slice_off {A} (pre l : list A) i j : slice (pre ++ l) (length pre + i) (length pre + j) = slice l i j.
Proof. rewrite (slice_skip (length pre)) by lia. f_equal; lia. Qed.

Lemma at_off (pre l : bytes) i : at_ (pre ++ l) (length pre + i) = at_ l i.
Proof. rewrite (at_skip (length pre)) by lia. f_equal. lia. Qed.

Definition ext_image (ext : Ed25519Extension) : bytes := PutUint16 (len (ExtData ext)) ++ [ExtType ext; Flags ext] ++ ExtData ext.
Definition small_ext (ext : Ed25519Extension) : Prop := len (ExtData ext) <= MaxUint16.

Lemma parse_extensions_app exts pre rest acc : Forall small_ext exts ->
  parse_extensions (length exts) (pre ++ flat_map ext_image exts ++ rest) (length pre) acc = Ok (acc ++ exts, length (pre ++ flat_map ext_image exts)).
Proof.
  intros Hs. revert pre acc. induction Hs as [|e exts He Hs IH]; intros pre acc; [cbn; by rewrite !app_nil_r|].
  cbn [length parse_extensions flat_map]. rewrite <- (app_assoc (ext_image e)). set (data := pre ++ _).
  assert (length (ext_image e) = 4 + length (ExtData e))%nat as Hl by (unfold ext_image; rewrite !length_app, length_PutUint16; cbn; lia).
  assert (length data = length pre + (4 + length (ExtData e)) + length (flat_map ext_image exts ++ rest))%nat as Hd by (unfold data; rewrite !length_app; lia).
  pose proof (len_nonneg (ExtData e)).
  assert (be_get (slice data (length pre) (length pre + 2)) = len (ExtData e)) as ->.
  { unfold data, ext_image. rewrite <- (Nat.add_0_r (length pre)) at 1. rewrite slice_off, <- !app_assoc.
    rewrite slice_here by apply length_PutUint16. apply get_PutUint16. unfold small_ext, MaxUint16 in He. unfold is_u. lia. }
  replace (Z.to_nat (len (ExtData e))) with (length (ExtData e)) by (unfold len; lia). rewrite !(proj2 (Nat.ltb_ge (length data) _)) by lia.
  assert (mkExtension (at_ data (length pre + 2)) (at_ data (length pre + 2 + 1)) (slice data (length pre + 2 + 2) (length pre + 2 + 2 + length (ExtData e))) = e) as ->.
  { destruct e as [t f d]. cbn [ExtData] in *. unfold data, ext_image. cbn [ExtType Flags ExtData]. rewrite <- !Nat.add_assoc.
    rewrite !at_off, slice_off. f_equal. rewrite <- !app_assoc. rewrite (slice_skip 2) by (apply length_PutUint16 || lia).
    rewrite (slice_skip 2 [t; f]) by (done || lia). cbn [Nat.sub]. rewrite slice_here; [done|lia]. }
  replace (length pre + 2 + (2 + length (ExtData e)))%nat with (length (pre ++ ext_image e)) by (rewrite length_app; lia).
  unfold data. rewrite (app_assoc pre (ext_image e)). rewrite IH. by rewrite <- !app_assoc.
Qed.

Definition wf_cert (e : Ed25519Certificate) : Prop :=
  Version e = 1 /\ length (CertifiedKey e) = 32%nat /\ len (Extensions e) <= 255 /\ Forall small_ext (Extensions e).

Lemma hours_range t : is_u 32 (Conversion.UnixHoursUint32 t).
Proof.
  unfold Conversion.UnixHoursUint32. destruct (_ <? _); [unfold is_u; lia|]. destruct (_ <? _); [unfold is_u, MaxUint32; lia|].
  unfold is_u, u32. apply Z.mod_pos_bound. lia.
Qed.

Lemma reconstruct_image e : wf_cert e ->
  reconstructSignedBytes e = ([1; EdCertType e] ++ PutUint32 (Conversion.UnixHoursUint32 (Unix (ExpiresAt e))) ++ [CertKeyType e] ++ CertifiedKey e ++
    [len (Extensions e)]) ++ flat_map ext_image (Extensions e).
Proof.
  intros (Hv & Hk & Hn & Hs). unfold reconstructSignedBytes. rewrite Hv. rewrite <- !app_assoc. do 5 f_equal.
  assert (Conversion.ByteLen (len (Extensions e)) = len (Extensions e)) as ->.
  { unfold Conversion.ByteLen. pose proof (len_nonneg (Extensions e)). destruct (Z.leb_spec (len (Extensions e)) 0); [lia|].
    destruct (Z.ltb_spec 255 (len (Extensions e))); [lia|]. unfold u8. apply Z.mod_small. lia. }
  f_equal. induction Hs as [|x l Hx _ IH]; [done|]. cbn [flat_map]. unfold ext_image at 1. rewrite IH. 2: { unfold len in *. cbn in Hn. lia. }
  do 2 f_equal. unfold Conversion.IntToUint16Sat, Conversion.PortUint16. pose proof (len_nonneg (ExtData x)). unfold small_ext in Hx.
  repeat match goal with |- context [if ?b then _ else _] => destruct b eqn:? end; bool_to_prop; try lia; try done. unfold u16. f_equal. apply Z.mod_small. unfold MaxUint16 in *. lia.
Qed.

Lemma cert_roundtrip e priv `{!LinkCryptoLaws _} : wf_cert e ->
  parseEd25519Certificate (EncodeEd25519Certificate (SignEd25519Certificate e priv)) =
    Ok (mkEdCert 1 (EdCertType e) (of_hours (Conversion.UnixHoursUint32 (Unix (ExpiresAt e)))) (CertKeyType e) (CertifiedKey e) (Extensions e)
          (edSign priv (reconstructSignedBytes e)) (reconstructSignedBytes e)).
Proof.
  intros Hw. pose proof (reconstruct_image e Hw) as Hr. destruct Hw as (Hv & Hk & Hn & Hs).
  unfold EncodeEd25519Certificate, SignEd25519Certificate, PrepareSignedBytes, set_signature, signedMessage. cbn [SignedBytes Signature].
  set (signed := reconstructSignedBytes e) in *. set (sig := edSign priv signed). assert (length sig = 64%nat) as Hsig by apply ed_sign_length.
  set (hours := Conversion.UnixHoursUint32 _) in *. set (pre := [1; EdCertType e] ++ _) in Hr.
  assert (length pre = 40%nat) as Hpre by (unfold pre; rewrite !length_app, length_PutUint32, Hk; done).
  assert (40 <= length signed)%nat as Hls by (rewrite Hr, length_app; lia).
  destruct (Nat.ltb_spec 0 (length signed)); [|lia]. set (data := signed ++ sig).
  assert (data = pre ++ flat_map ext_image (Extensions e) ++ sig) as Hd by (unfold data; rewrite Hr, <- app_assoc; done).
  assert (length data = length signed + 64)%nat as Hld by (unfold data; rewrite length_app; lia).
  assert (data = [1] ++ [EdCertType e] ++ PutUint32 hours ++ [CertKeyType e] ++ CertifiedKey e ++ [len (Extensions e)] ++ flat_map ext_image (Extensions e) ++ sig) as Hf
    by (rewrite Hd; unfold pre; rewrite <- !app_assoc; done).
  unfold parseEd25519Certificate. rewrite (proj2 (Nat.ltb_ge (length data) 40)) by lia.
  assert (at_ data 0 = 1 /\ at_ data 1 = EdCertType e /\ slice data 2 6 = PutUint32 hours /\ at_ data 6 = CertKeyType e /\ slice data 7 39 = CertifiedKey e /\ at_ data 39 = len (Extensions e))
    as (E0 & E1 & E2 & E6 & E7 & E39) by (rewrite Hf; split_and!; fields; done).
  rewrite E0, E1, E2, E6, E7, E39. cbn [Z.eqb Pos.eqb negb]. replace (Z.to_nat (len (Extensions e))) with (length (Extensions e)) by (unfold len; lia).
  rewrite Hd at 1. rewrite <- Hpre at 1. rewrite parse_extensions_app by done. cbn [result_bind app]. rewrite <- Hr.
  rewrite (proj2 (Nat.ltb_ge (length data) _)) by lia. rewrite (proj2 (Nat.eqb_eq _ (length data))) by lia. cbn [negb].
  rewrite get_PutUint32 by apply hours_range. unfold data. rewrite take_app_length. rewrite <- (Nat.add_0_r (length signed)) at 1. rewrite slice_off, slice_all by done. done.
Qed.

Lemma made_verifies e priv `{!LinkCryptoLaws _} : length priv = 64%nat ->
  let e' := mkEdCert 1 (EdCertType e) (of_hours (Conversion.UnixHoursUint32 (Unix (ExpiresAt e)))) (CertKeyType e) (CertifiedKey e)
              [mkExtension ExtTypeSignedWithEd25519Key 0 (edPublic priv)] (edSign priv (reconstructSignedBytes e)) (reconstructSignedBytes e) in
  VerifySignature e' (edPublic priv) = None.
Proof.
  intros Hp e'. pose proof (ed_public_length priv Hp) as Hl. unfold VerifySignature. rewrite Hl. cbn [Nat.eqb negb Signature e'].
  rewrite ed_sign_length. cbn [Nat.eqb negb]. unfold SignedWithEd25519Key. cbn [Extensions e' List.find ExtType ExtData]. rewrite Hl. cbn [Z.eqb Pos.eqb ExtTypeSignedWithEd25519Key Nat.eqb andb fmap option_fmap option_map ExtData].
  rewrite bool_decide_true by done. cbn [negb]. assert (signedMessage e' = reconstructSignedBytes e) as ->; [|by rewrite ed_verify_sign].
  unfold signedMessage. cbn [SignedBytes e']. by rewrite (proj2 (Nat.ltb_lt 0 _)) by (cbn; lia).
Qed.

(** *** The cell *)

Definition entry_image (e : Z * bytes) : bytes := [e.1] ++ PutUint16 (len e.2) ++ e.2.

Lemma encode_entries_image l out : encode_entries l = Ok out -> out = flat_map entry_image l /\ Forall (fun e => len e.2 <= MaxUint16) l.
Proof.
  revert out. induction l as [|[t b] l IH]; intros out; cbn [encode_entries]; [by intros [= <-]|].
  destruct (decide (len b <= MaxUint16)) as [Hb|Hb]; [|rewrite Conversion.SafeLenToUint16_large by lia; done].
  rewrite Conversion.SafeLenToUint16_small by done. intros (rest & [-> Hf]%IH & [= <-])%result_bind_ok.
  split; [|by constructor]. cbn [flat_map]. unfold entry_image at 2. cbn [fst snd]. by rewrite <- !app_assoc.
Qed.

Lemma parse_certs_app l certs i pre acc : Forall (fun e => len e.2 <= MaxUint16) l ->
  Forall2 (fun e c => parseCertificateBody e.1 e.2 = Ok c) l certs ->
  parse_certs (length l) i (pre ++ flat_map entry_image l) (length pre) acc = Ok (acc ++ certs).
Proof.
  intros Hl Hc. revert i pre acc Hl. induction Hc as [|[t b] c l certs Hb _ IH]; intros i pre acc Hl; [cbn; by rewrite app_nil_r|].
  apply Forall_cons in Hl as [Hlb Hl]. cbn [fst snd] in *. cbn [length parse_certs flat_map]. set (p := pre ++ _). pose proof (len_nonneg b).
  assert (length (entry_image (t, b)) = 3 + length b)%nat as Hle by (unfold entry_image; rewrite !length_app, length_PutUint16; cbn; lia).
  assert (length p = length pre + (3 + length b) + length (flat_map entry_image l))%nat as Hp by (unfold p; rewrite !length_app; lia).
  rewrite (proj2 (Nat.ltb_ge (length p) (length pre + 3))) by lia.
  assert (at_ p (length pre) = t /\ be_get (slice p (length pre + 1) (length pre + 3)) = len b /\ slice p (length pre + 3) (length pre + 3 + length b) = b)
    as (-> & -> & Hsl).
  { unfold p, entry_image. cbn [fst snd]. rewrite <- !app_assoc. split_and!.
    - rewrite <- (Nat.add_0_r (length pre)). by rewrite at_off.
    - rewrite slice_off. rewrite (slice_skip 1) by (done || lia). cbn [Nat.sub]. rewrite slice_here by apply length_PutUint16.
      apply get_PutUint16. unfold is_u, MaxUint16 in *. lia.
    - rewrite <- Nat.add_assoc, slice_off. rewrite (slice_skip 1) by (done || lia). rewrite (slice_skip 2) by (apply length_PutUint16 || lia). cbn [Nat.sub].
      apply slice_here. lia. }
  replace (Z.to_nat (len b)) with (length b) by (unfold len; lia). rewrite (proj2 (Nat.ltb_ge (length p) _)) by lia. rewrite Hsl, Hb.
  unfold p. rewrite app_assoc. replace (length pre + 3 + length b)%nat with (length (pre ++ entry_image (t, b))) by (rewrite length_app; lia).
  rewrite IH by done. by rewrite <- app_assoc.
Qed.

(** Keys that belong together. *)
Record good_keys (k : RelayKeys) (r : bytes) (x : X509) : Prop := mkGood {
  good_rsa : RSAPrivate k = Some r;
  good_x509 : ParseCertificate (TLSCert k) = Some x;
  good_pub : PublicKey x = Some (rsaPublic r);
  good_tls : 1 <= len (TLSCert k) <= 32000;
  good_bytes : Forall is_byte (TLSCert k);
  good_priv : length (Ed25519Private k) = 64%nat;
  good_ed : Ed25519Public k = edPublic (Ed25519Private k);
  good_size : 128 <= rsaSize r <= 255;
  good_sign : forall d, exists s, rsaSign r d = Some s /\ len s = rsaSize r;
}.

Lemma cross_hours t : (let h := Z.quot (Unix t) 3600 in let h := if h <? 0 then 0 else h in u32 (if MaxUint32 <? h then MaxUint32 else h)) = Conversion.UnixHoursUint32 (Unix t).
Proof. unfold Conversion.UnixHoursUint32. set (h := Z.quot _ _). cbv zeta. destruct (Z.ltb_spec h 0); [done|]. destruct (MaxUint32 <? h); done. Qed.

Lemma cross_made edID r expires : length edID = 32%nat -> 128 <= rsaSize r <= 255 -> (forall d, exists s, rsaSign r d = Some s /\ len s = rsaSize r) ->
  let fields := edID ++ PutUint32 (Conversion.UnixHoursUint32 (Unix expires)) in
  exists sig out, EncodeRSAEd25519CrossCert edID (Some r) expires = Ok out /\ len out = 37 + rsaSize r /\
    rsaSign r (sha256 (rsaEd25519CrossCertPrefix ++ fields)) = Some sig /\ len sig = rsaSize r /\
    parseRSAEd25519CrossCert out = Ok (mkEdCert 0 7 (of_hours (Conversion.UnixHoursUint32 (Unix expires))) 0 edID [] sig fields).
Proof.
  intros Hid Hr Hs fields. destruct (Hs (sha256 (rsaEd25519CrossCertPrefix ++ fields))) as (sig & Hsig & Hl).
  exists sig, (fields ++ [u8 (len sig)] ++ sig). pose proof (cross_hours expires) as Hh. cbv zeta in Hh.
  unfold EncodeRSAEd25519CrossCert. rewrite Hid. cbn [Nat.eqb negb]. rewrite (proj2 (Z.ltb_ge 255 (rsaSize r))) by lia. cbv zeta. rewrite Hh.
  fold fields. rewrite Hsig, Hl, Z.eqb_refl. cbn [negb]. rewrite <- Hl.
  assert (length fields = 36%nat) as Hf by (unfold fields; rewrite length_app, length_PutUint32; lia).
  assert (u8 (len sig) = len sig) as Hu by (unfold u8; apply Z.mod_small; lia). rewrite Hu. split_and!; [done| |done|done|].
  - unfold len. rewrite !length_app, Hf. cbn [length]. lia.
  - unfold parseRSAEd25519CrossCert. set (out := fields ++ [len sig] ++ sig).
    assert (length out = 37 + length sig)%nat as Hlo by (unfold out; rewrite !length_app, Hf; cbn [length]; lia).
    rewrite (proj2 (Nat.ltb_ge (length out) 37)) by lia.
    assert (at_ out 36 = len sig) as -> by (unfold out; rewrite (at_skip 36) by (done || lia); done).
    replace (Z.to_nat (len sig)) with (length sig) by (unfold len; lia). rewrite (proj2 (Nat.ltb_ge (length out) _)) by lia. unfold rsaEd25519CrossCertSignedLen.
    assert (take 36 out = fields) as -> by (unfold out; by apply take_app_length').
    assert (slice out 37 (37 + length sig) = sig) as ->.
    { unfold out. rewrite (slice_skip 36) by (done || lia). rewrite (slice_skip 1) by (done || lia). apply slice_all. lia. }
    assert (slice out 0 32 = edID /\ slice out 32 36 = PutUint32 (Conversion.UnixHoursUint32 (Unix expires))) as [-> ->]
      by (unfold out, fields; rewrite <- !app_assoc; split; fields; done).
    rewrite get_PutUint32 by apply hours_range. done.
Qed.

Definition lifetime : Z := 30 * 24 * 3600 * Second.

(** The certificates of a relay, as its peer has them after parsing. *)
Definition made_certs (k : RelayKeys) (x : X509) (signPriv type4 type5 type7 sig : bytes) (expires : Z) : CERTSCell :=
  let until := of_hours (Conversion.UnixHoursUint32 (Unix expires)) in
  let ed t kt key signer :=
    let e := ed_cert t expires kt key (edPublic signer) in
    mkEdCert 1 t until kt key (Extensions e) (edSign signer (reconstructSignedBytes e)) (reconstructSignedBytes e) in
  [mkCert CertTypeTLSLink (TLSCert k) (Some x) None; mkCert CertTypeRSAID (TLSCert k) (Some x) None;
   mkCert CertTypeEd25519Signing type4 None (Some (ed CertTypeEd25519Signing CertKeyTypeEd25519 (edPublic signPriv) (Ed25519Private k)));
   mkCert CertTypeEd25519TLSLink type5 None (Some (ed CertTypeEd25519TLSLink CertKeyTypeSHA256OfX509 (sha256 (TLSCert k)) signPriv));
   mkCert CertTypeEd25519Identity type7 None
     (Some (mkEdCert 0 7 until 0 (Ed25519Public k) [] sig (Ed25519Public k ++ PutUint32 (Conversion.UnixHoursUint32 (Unix expires)))))].

Lemma ed_cert_wf t expires kt key signer : length key = 32%nat -> length signer = 32%nat -> wf_cert (ed_cert t expires kt key signer).
Proof.
  intros Hk Hs. split_and!; [done|done|done|]. constructor; [|constructor]. unfold small_ext. cbn [ExtData]. unfold len. rewrite Hs. done.
Qed.

Lemma ed_cert_small t expires kt key signer priv `{!LinkCryptoLaws _} : length key = 32%nat -> length signer = 32%nat ->
  len (EncodeEd25519Certificate (SignEd25519Certificate (ed_cert t expires kt key signer) priv)) <= 140.
Proof.
  intros Hk Hs. pose proof (reconstruct_image _ (ed_cert_wf t expires kt key signer Hk Hs)) as Hr.
  assert (EncodeEd25519Certificate (SignEd25519Certificate (ed_cert t expires kt key signer) priv) =
    reconstructSignedBytes (ed_cert t expires kt key signer) ++ edSign priv (reconstructSignedBytes (ed_cert t expires kt key signer))) as -> by done.
  unfold len. rewrite length_app, ed_sign_length, Hr. cbn [flat_map Extensions ed_cert CertifiedKey]. unfold ext_image. cbn [ExtData ExtType Flags].
  rewrite !length_app, length_PutUint32, length_PutUint16, Hk, Hs. cbn [length]. lia.
Qed.

Lemma ed_cert_bytes t expires kt key signer priv `{!LinkCryptoLaws _} : length key = 32%nat -> length signer = 32%nat ->
  is_byte t -> is_byte kt -> Forall is_byte key -> Forall is_byte signer ->
  Forall is_byte (EncodeEd25519Certificate (SignEd25519Certificate (ed_cert t expires kt key signer) priv)).
Proof.
  intros Hk Hs Ht Hkt Hbk Hbs. pose proof (reconstruct_image _ (ed_cert_wf t expires kt key signer Hk Hs)) as Hr.
  assert (EncodeEd25519Certificate (SignEd25519Certificate (ed_cert t expires kt key signer) priv) =
    reconstructSignedBytes (ed_cert t expires kt key signer) ++ edSign priv (reconstructSignedBytes (ed_cert t expires kt key signer))) as -> by done.
  apply Forall_app. split; [|apply ed_sign_bytes]. rewrite Hr. cbn [flat_map Extensions ed_cert CertifiedKey EdCertType CertKeyType]. unfold ext_image.
  cbn [ExtData ExtType Flags]. rewrite !Forall_app, !Forall_cons, !Forall_nil.
  split_and!; first [done|apply be_put_bytes].
Qed.

Lemma cross_bytes edID r expires out `{!LinkCryptoLaws _} : Forall is_byte edID -> EncodeRSAEd25519CrossCert edID (Some r) expires = Ok out -> Forall is_byte out.
Proof.
  unfold EncodeRSAEd25519CrossCert. intros Hb He. destruct (negb _); [done|]. destruct (255 <? _); [done|]. destruct (rsaSign _ _) as [sig|] eqn:Hs; [|done].
  destruct (negb _); [done|]. injection He as <-. rewrite !Forall_app, Forall_cons.
  split_and!; [done|apply be_put_bytes|apply Z.mod_pos_bound; lia|by eapply rsa_sign_bytes].
Qed.

Lemma certs_built k r x now signPriv `{!LinkCryptoLaws _} : good_keys k r x -> length signPriv = 64%nat ->
  exists payload type4 type5 type7 sig, buildCERTSPayload (Some k) now (Some signPriv) = Ok payload /\ Forall is_byte payload /\ len payload <= MaxUint16 /\
    let expires := now + lifetime in
    rsaSign r (sha256 (rsaEd25519CrossCertPrefix ++ Ed25519Public k ++ PutUint32 (Conversion.UnixHoursUint32 (Unix expires)))) = Some sig /\ len sig = rsaSize r /\
    ParseCERTSCell (Cell.mkCell 0 Cell.CmdCerts payload) = Ok (made_certs k x signPriv type4 type5 type7 sig expires).
Proof.
  intros [Hrsa Hx Hpub Htls Hbytes Hpriv Hed Hsize Hsign] Hsp. pose proof (ed_public_length _ Hpriv) as Hlid. pose proof (ed_public_length _ Hsp) as Hlsp.
  set (expires := now + lifetime).
  destruct (cross_made (Ed25519Public k) r expires) as (sig & type7 & Henc & Hl7 & Hsig & Hlsig & Hp7); [by rewrite Hed|done|done|].
  set (e4 := ed_cert CertTypeEd25519Signing expires CertKeyTypeEd25519 (edPublic signPriv) (edPublic (Ed25519Private k))).
  set (e5 := ed_cert CertTypeEd25519TLSLink expires CertKeyTypeSHA256OfX509 (sha256 (TLSCert k)) (edPublic signPriv)).
  set (type4 := EncodeEd25519Certificate (SignEd25519Certificate e4 (Ed25519Private k))).
  set (type5 := EncodeEd25519Certificate (SignEd25519Certificate e5 signPriv)).
  set (entries := [(CertTypeTLSLink, TLSCert k); (CertTypeRSAID, TLSCert k); (CertTypeEd25519Signing, type4); (CertTypeEd25519TLSLink, type5); (CertTypeEd25519Identity, type7)]).
  assert (Forall (fun e => len e.2 <= MaxUint16) entries) as Hsmall.
  { unfold entries. rewrite !Forall_cons, Forall_nil. cbn [snd]. split_and!; [unfold MaxUint16; lia|unfold MaxUint16; lia|eapply Z.le_trans; [by apply ed_cert_small|done]|eapply Z.le_trans; [apply ed_cert_small; [done|apply sha256_length|done]|done]|unfold MaxUint16; lia|done]. }
  assert (exists out, encode_entries entries = Ok out) as [out Hout].
  { unfold entries in *. clear -Hsmall. revert Hsmall. generalize [(CertTypeTLSLink, TLSCert k); (CertTypeRSAID, TLSCert k); (CertTypeEd25519Signing, type4); (CertTypeEd25519TLSLink, type5); (CertTypeEd25519Identity, type7)].
    induction 1 as [|[t b] l Hb _ [out IH]]; [by eexists|]. cbn [encode_entries fst snd] in *. rewrite Conversion.SafeLenToUint16_small by done. rewrite IH. by eexists. }
  exists ([u8 (len entries)] ++ out), type4, type5, type7, sig. cbv zeta. fold expires. split_and!; [| | |done|done|].
  - unfold buildCERTSPayload. rewrite Hrsa, Hx, Hpriv. rewrite (proj2 (Nat.eqb_neq (length (TLSCert k)) 0)) by (unfold len in Htls; lia).
    rewrite bool_decide_true by done. rewrite Hed, Hlid. cbn [Nat.eqb negb orb]. change (now + 30 * 24 * 3600 * Second) with expires.
    unfold buildIdentitySigningCert. rewrite Hpriv, Hlid, Hlsp. cbn [Nat.eqb negb orb result_bind]. unfold buildTLSLinkCert.
    rewrite (proj2 (Nat.eqb_neq (length (TLSCert k)) 0)) by (unfold len in Htls; lia). rewrite Hsp, Hlsp. cbn [Nat.eqb negb orb result_bind].
    pose proof Henc as Henc'. rewrite Hed in Henc'. rewrite Henc'. cbn [result_bind]. fold e4 e5 type4 type5 entries. unfold encodeCERTSPayload. change (length entries =? 0)%nat with false.
    change (255 <? len entries) with false. cbn [orb]. by rewrite Hout.
  - apply encode_entries_image in Hout as [-> _]. unfold entries. cbn [flat_map]. unfold entry_image. cbn [fst snd].
    rewrite !Forall_app, !Forall_cons, !Forall_nil. split_and!; try done; try apply be_put_bytes.
    + apply ed_cert_bytes; try done; apply ed_public_bytes.
    + apply ed_cert_bytes; try done; [apply sha256_length|apply sha256_bytes|apply ed_public_bytes].
    + apply (cross_bytes (Ed25519Public k) r expires); [done|rewrite Hed; apply ed_public_bytes|done].
  - apply encode_entries_image in Hout as [-> _]. unfold entries. cbn [flat_map]. unfold entry_image. cbn [fst snd].
    assert (len type4 <= 140) by by apply ed_cert_small. assert (len type5 <= 140) by (apply ed_cert_small; [done|apply sha256_length|done]).
    unfold len in *. rewrite !length_app, !length_PutUint16. cbn [length]. unfold MaxUint16. lia.
  - apply encode_entries_image in Hout as [-> _]. unfold ParseCERTSCell. cbn [Cell.Command Cell.Payload]. rewrite Z.eqb_refl. cbn [negb app length Nat.ltb Nat.leb].
    change (at_ (u8 (len entries) :: _) 0) with 5. change (Z.to_nat 5) with (length entries).
    apply (parse_certs_app entries (made_certs k x signPriv type4 type5 type7 sig expires) 0 [u8 (len entries)] []); [done|]. unfold entries, made_certs.
    rewrite !Forall2_cons, Forall2_nil. cbn [fst snd]. unfold parseCertificateBody. split_and!; [| | | | |done].
    + cbn [Z.eqb Pos.eqb CertTypeTLSLink CertTypeRSAID CertTypeRSAAuth orb]. by rewrite Hx.
    + cbn [Z.eqb Pos.eqb CertTypeTLSLink CertTypeRSAID CertTypeRSAAuth orb]. by rewrite Hx.
    + change (is_ed_type CertTypeEd25519Signing) with true. cbn [Z.eqb Pos.eqb CertTypeTLSLink CertTypeRSAID CertTypeRSAAuth CertTypeEd25519Signing CertTypeEd25519Identity orb].
      unfold type4. rewrite (cert_roundtrip e4) by first [assumption|by apply ed_cert_wf]. done.
    + change (is_ed_type CertTypeEd25519TLSLink) with true. cbn [Z.eqb Pos.eqb CertTypeTLSLink CertTypeRSAID CertTypeRSAAuth CertTypeEd25519TLSLink CertTypeEd25519Identity orb].
      unfold type5. rewrite (cert_roundtrip e5) by first [assumption|apply ed_cert_wf; [apply sha256_length|done]]. done.
    + cbn [Z.eqb Pos.eqb CertTypeTLSLink CertTypeRSAID CertTypeRSAAuth CertTypeEd25519Identity orb]. by rewrite Hp7.
Qed.

(** The peer finds in them the relay's keys, signed. *)
Lemma made_keys k r x signPriv t4 t5 t7 sig expires : good_keys k r x ->
  rsa_key (made_certs k x signPriv t4 t5 t7 sig expires) = Some (Some (rsaPublic r)).
Proof. intros Hg. unfold rsa_key. cbn. by rewrite (good_pub _ _ _ Hg). Qed.

Lemma made_identity k r x signPriv t4 t5 t7 sig expires `{!LinkCryptoLaws _} : good_keys k r x ->
  Ed25519IdentityKey (made_certs k x signPriv t4 t5 t7 sig expires) = Ok (Ed25519Public k).
Proof.
  intros Hg. unfold Ed25519IdentityKey. cbn [FindCertificate List.find made_certs CertType Z.eqb Pos.eqb CertTypeTLSLink CertTypeRSAID CertTypeEd25519Signing
    CertTypeEd25519TLSLink CertTypeEd25519Identity mbind option_bind Ed25519Cert CertifiedKey].
  rewrite (good_ed _ _ _ Hg), ed_public_length by apply Hg. done.
Qed.

Lemma cross_verifies id r sig hours `{!LinkCryptoLaws _} : length id = 32%nat -> 128 <= rsaSize r -> len sig = rsaSize r ->
  let fields := id ++ PutUint32 hours in rsaSign r (sha256 (rsaEd25519CrossCertPrefix ++ fields)) = Some sig ->
  forall until, verifyRSAEd25519CrossCert (mkEdCert 0 7 until 0 id [] sig fields) (rsaPublic r) = None.
Proof.
  intros Hid Hr Hl fields Hs until. unfold verifyRSAEd25519CrossCert. cbn [CertifiedKey Signature SignedBytes]. rewrite Hid. cbn [Nat.eqb negb].
  rewrite (proj2 (Nat.ltb_ge _ 128)) by (unfold len in Hl; lia).
  assert (length fields = 36%nat) as Hf by (unfold fields; rewrite length_app, length_PutUint32; lia). rewrite Hf. cbn [Nat.eqb negb rsaEd25519CrossCertSignedLen].
  rewrite Hf. cbn [Nat.eqb negb rsaEd25519CrossCertSignedLen]. by rewrite (rsa_verify_sign _ _ _ Hs).
Qed.

Lemma made_signatures k r x signPriv t4 t5 t7 sig expires `{!LinkCryptoLaws _} : good_keys k r x -> length signPriv = 64%nat ->
  rsaSign r (sha256 (rsaEd25519CrossCertPrefix ++ Ed25519Public k ++ PutUint32 (Conversion.UnixHoursUint32 (Unix expires)))) = Some sig -> len sig = rsaSize r ->
  ValidateSignatures (made_certs k x signPriv t4 t5 t7 sig expires) = None.
Proof.
  intros Hg Hsp Hsig Hl. pose proof (ed_public_length _ (good_priv _ _ _ Hg)) as Hlid. set (c := made_certs _ _ _ _ _ _ _ _).
  assert (FindCertificate c CertTypeEd25519Identity = c !! 4%nat /\ FindCertificate c CertTypeEd25519Signing = c !! 2%nat) as [E7 E4] by done.
  unfold ValidateSignatures, verifyType7RSACrossCert. rewrite E7. unfold c at 2. rewrite (made_keys _ r) by done. unfold c at 1. cbn [lookup list_lookup made_certs Ed25519Cert].
  rewrite cross_verifies; [|done|by rewrite (good_ed _ _ _ Hg)|by destruct (good_size _ _ _ Hg)|done|done].
  assert (omap (check_cert c) c = []) as ->; [|done]. unfold omap, list_omap. unfold c at 2. cbn [made_certs]. unfold check_cert. rewrite E7, E4. unfold c.
  cbn [lookup list_lookup made_certs mbind option_bind Ed25519Cert CertType Z.eqb Pos.eqb CertTypeTLSLink CertTypeRSAID CertTypeEd25519Signing CertTypeEd25519Identity
    CertTypeEd25519TLSLink CertTypeEd25519Auth is_ed_type orb CertifiedKey].
  rewrite (good_ed _ _ _ Hg), Hlid. cbn [Nat.eqb negb].
  pose proof (made_verifies (ed_cert CertTypeEd25519Signing expires CertKeyTypeEd25519 (edPublic signPriv) (edPublic (Ed25519Private k))) _ (good_priv _ _ _ Hg)) as V4.
  pose proof (made_verifies (ed_cert CertTypeEd25519TLSLink expires CertKeyTypeSHA256OfX509 (sha256 (TLSCert k)) (edPublic signPriv)) _ Hsp) as V5.
  cbv zeta in V4, V5. cbn [EdCertType ed_cert ExpiresAt CertKeyType CertifiedKey] in V4, V5. cbn [Extensions ed_cert]. rewrite V4, V5. done.
Qed.

Lemma made_unexpired k r x signPriv t4 t5 t7 sig expires now : good_keys k r x -> NotBefore x <= now <= NotAfter x ->
  now <= of_hours (Conversion.UnixHoursUint32 (Unix expires)) -> ValidateExpiration (made_certs k x signPriv t4 t5 t7 sig expires) now = None.
Proof.
  intros Hg Hx Hn. unfold ValidateExpiration, made_certs. unfold omap. cbn [list_omap]. unfold cert_expiration. cbn [X509Cert Ed25519Cert ExpiresAt].
  rewrite (proj2 (Z.ltb_ge _ _)) by lia. rewrite (proj2 (Z.ltb_ge now _)) by lia. rewrite (proj2 (Z.ltb_ge (of_hours _) now)) by lia. done.
Qed.

(** The strict check of an expected relay. *)
Lemma identity_checked c fp id : fp <> [] -> length id = 32%nat -> ValidateRelayIdentity c fp id = None ->
  Ed25519IdentityKey c = Ok id /\ exists der, rsa_key c = Some (Some der) /\ ToUpper (hex_encode (sha1 der)) = fp.
Proof.
  intros Hfp Hid. unfold ValidateRelayIdentity. rewrite Hid. cbn [Nat.eqb negb]. rewrite (proj2 (Nat.eqb_neq (length fp) 0)) by (by destruct fp).
  destruct (rsa_key c) as [[der|]|] eqn:Hr; [|done|done]. destruct (bool_decide_reflect (ToUpper (hex_encode (sha1 der)) = fp)) as [Hf|]; [|done]. cbn [negb].
  destruct (Ed25519IdentityKey c) as [key|]; [|done]. destruct (bool_decide_reflect (key = id)) as [->|]; [|done]. intros _. split; [done|]. by exists der.
Qed.

(** Only the RSA identity and its cross-certificate are needed to pass every check, so
    the certificates shown need not be about the keys of the TLS session: two that a
    relay sends to whoever connects to it are accepted from anyone. *)
Theorem certs_without_link_accepted k r x expires type7 payload `{!LinkCryptoLaws _} : good_keys k r x ->
  EncodeRSAEd25519CrossCert (Ed25519Public k) (Some r) expires = Ok type7 ->
  encodeCERTSPayload [(CertTypeRSAID, TLSCert k); (CertTypeEd25519Identity, type7)] = Ok payload ->
  exists c, ParseCERTSCell (Cell.mkCell 0 Cell.CmdCerts payload) = Ok c /\ ValidateSignatures c = None /\
    ValidateRelayIdentity c (ToUpper (hex_encode (sha1 (rsaPublic r)))) (Ed25519Public k) = None /\
    (forall now, NotBefore x <= now <= NotAfter x -> now <= of_hours (Conversion.UnixHoursUint32 (Unix expires)) -> ValidateExpiration c now = None).
Proof.
  intros Hg H7 Hp. pose proof (ed_public_length _ (good_priv _ _ _ Hg)) as Hlid. rewrite <- (good_ed _ _ _ Hg) in Hlid.
  destruct (cross_made (Ed25519Public k) r expires Hlid (good_size _ _ _ Hg) (good_sign _ _ _ Hg)) as (sig & out & Henc & Hl7 & Hsig & Hls & Hp7).
  rewrite H7 in Henc. injection Henc as <-. set (e7 := mkEdCert _ _ _ _ _ _ _ _) in Hp7.
  unfold encodeCERTSPayload in Hp. cbn [length Nat.eqb orb] in Hp. change (255 <? len _) with false in Hp. apply result_bind_ok in Hp as (out & [-> Hs]%encode_entries_image & [= <-]).
  set (c := [mkCert CertTypeRSAID (TLSCert k) (Some x) None; mkCert CertTypeEd25519Identity type7 None (Some e7)]). exists c.
  assert (rsa_key c = Some (Some (rsaPublic r))) as Hk by (unfold rsa_key; cbn; by rewrite (good_pub _ _ _ Hg)).
  assert (Ed25519IdentityKey c = Ok (Ed25519Public k)) as Hid.
  { unfold Ed25519IdentityKey, c. cbn [FindCertificate List.find CertType Z.eqb Pos.eqb CertTypeRSAID CertTypeEd25519Identity mbind option_bind Ed25519Cert].
    unfold e7. cbn [CertifiedKey]. by rewrite Hlid. }
  split_and!.
  - unfold ParseCERTSCell. cbn [Cell.Command Cell.Payload]. rewrite Z.eqb_refl. cbn [negb length Nat.ltb Nat.leb].
    change (Z.to_nat (at_ _ 0)) with 2%nat. refine (parse_certs_app [(CertTypeRSAID, TLSCert k); (CertTypeEd25519Identity, type7)] c 0 [u8 2] [] Hs _).
    unfold c. rewrite !Forall2_cons, Forall2_nil. cbn [fst snd]. unfold parseCertificateBody. split_and!; [| |done].
    + cbn [Z.eqb Pos.eqb CertTypeTLSLink CertTypeRSAID CertTypeRSAAuth orb]. by rewrite (good_x509 _ _ _ Hg).
    + cbn [Z.eqb Pos.eqb CertTypeTLSLink CertTypeRSAID CertTypeRSAAuth CertTypeEd25519Identity orb]. by rewrite Hp7.
  - unfold ValidateSignatures, verifyType7RSACrossCert. rewrite Hk. unfold c at 1. cbn [FindCertificate List.find CertType Z.eqb Pos.eqb CertTypeRSAID CertTypeEd25519Identity Ed25519Cert].
    unfold e7. rewrite cross_verifies; [done|done|done|by destruct (good_size _ _ _ Hg)|done|done].
  - unfold ValidateRelayIdentity. rewrite Hk, Hid, Hlid. cbn [Nat.eqb negb]. rewrite !bool_decide_true by done. cbn [negb]. by destruct (_ =? 0)%nat.
  - intros now Hx Hn. unfold ValidateExpiration, c. unfold omap. cbn [list_omap]. unfold cert_expiration. cbn [X509Cert Ed25519Cert ExpiresAt e7].
    rewrite (proj2 (Z.ltb_ge _ _)) by lia. rewrite (proj2 (Z.ltb_ge now _)) by lia. cbn [ExpiresAt]. unfold e7; cbn [ExpiresAt]. by rewrite (proj2 (Z.ltb_ge (of_hours _) now)) by lia.
Qed.

End Certs.
End LinkCerts.
