(* ===== verification/LinkClient.v ===== *)
(** * The initiator of the link handshake (pkg/protocol/protocol.go)

    [PerformHandshake] over a connection given by the bytes the peer has sent and
    the bytes sent to it: VERSIONS both ways with circuit ids of two bytes, then, in
    the width of the version, the relay's CERTS and NETINFO both ways.  A receive
    beyond the end of the input fails, as one does whose time is over or whose peer
    has gone; what was sent before that is what the peer has to answer. *)

From S2P Require Import Prelude Conversion Cell LinkCerts.

Module LinkClient.
Import LinkCerts.

Inductive error :=
| errSend (e : Cell.error)
| errReceive (e : Cell.error)
| errExpected (want got : Z)
| errVersionsLen (n : Z)
| errNoVersion
| errParse (e : LinkCerts.error)
| errExpiration (e : LinkCerts.error)
| errSignatures (e : LinkCerts.error)
| errRelayIdentity (e : LinkCerts.error)
| errTimeoutShort
| errTimeoutLong
| errBuildCerts (e : LinkCerts.error)
| errInitiatorCerts (e : LinkCerts.error)
| errAuthenticateFirst
| errAuthenticate
| errExporter
| errPasses.

(** ** State and errors *)

Definition M (S A : Type) : Type := S -> S * result error A.
Definition ret {S A} (a : A) : M S A := fun s => (s, Ok a).
Definition fail {S A} (e : error) : M S A := fun s => (s, Err e).
Definition bind {S A B} (m : M S A) (k : A -> M S B) : M S B := fun s =>
  match m s with (s, Ok a) => k a s | (s, Err e) => (s, Err e) end.
Definition get {S A} (f : S -> A) : M S A := fun s => (s, Ok (f s)).
Definition modify {S} (f : S -> S) : M S unit := fun s => (f s, Ok tt).
Definition try {S A} (m : M S A) : M S (result error A) := fun s => let '(s, r) := m s in (s, Ok r).

Notation "'let*' x ':=' m 'in' k" := (bind m (fun x => k)) (at level 200, x pattern, m at level 100, k at level 200) : gotor_scope.

(** ** The connection *)

Record Config := mkConfig { ExpectedIdentity : option bytes; ExpectedFingerprint : bytes; RequireCERTS : bool }.

(** The handshake on its open connection: [rd] is what the peer sent and was not read
    yet, [wr] what was sent. *)
Record Handshake := mkHandshake { rd : bytes; wr : bytes; circIDLen : Z; negotiatedVersion : Z; timeout : Z }.

Definition set_rd (r : bytes) (h : Handshake) := mkHandshake r (wr h) (circIDLen h) (negotiatedVersion h) (timeout h).
Definition set_wr (w : bytes) (h : Handshake) := mkHandshake (rd h) w (circIDLen h) (negotiatedVersion h) (timeout h).
Definition set_version (v : Z) (h : Handshake) := mkHandshake (rd h) (wr h) (circIDLen h) v (timeout h).

Definition MinLinkProtocolVersion : Z := 3.
Definition MaxLinkProtocolVersion : Z := 5.
Definition PreferredVersion : Z := 4.
Definition DefaultHandshakeTimeout : Z := 10 * Second.
Definition MinHandshakeTimeout : Z := 5 * Second.
Definition MaxHandshakeTimeout : Z := 60 * Second.

Definition circIDWidth (h : Handshake) : Z := if circIDLen h =? 0 then 2 else circIDLen h.
Definition SetCircIDLen (n : Z) (h : Handshake) : Handshake :=
  if (n =? 2) || (n =? 4) then mkHandshake (rd h) (wr h) n (negotiatedVersion h) (timeout h) else h.

(** A new connection, on the bytes its peer will have sent. *)
Definition NewHandshake (input : bytes) : Handshake := mkHandshake input [] 2 0 DefaultHandshakeTimeout.

Definition SetTimeout (t : Z) : M Handshake unit :=
  if t <? MinHandshakeTimeout then fail errTimeoutShort
  else if MaxHandshakeTimeout <? t then fail errTimeoutLong
  else modify (fun h => mkHandshake (rd h) (wr h) (circIDLen h) (negotiatedVersion h) t).

Definition SendCell (c : Cell.Cell) : M Handshake unit := fun h =>
  let '(w, e) := Cell.EncodeLink c (wr h) (circIDWidth h) in
  (set_wr w h, match e with Some e => Err (errSend e) | None => Ok tt end).

Definition ReceiveCell : M Handshake Cell.Cell := fun h =>
  let '(r, rest) := Cell.DecodeCellLink (rd h) (circIDWidth h) in
  (set_rd rest h, match r with Ok c => Ok c | Err e => Err (errReceive e) end).

(** Receives until a cell that is not skipped. *)
Fixpoint receive_loop (n : nat) (skip : Z -> bool) : M Handshake Cell.Cell :=
  match n with
  | O => fail errPasses
  | S n => let* c := ReceiveCell in if skip (Cell.Command c) then receive_loop n skip else ret c
  end.
Definition receive (skip : Z -> bool) : M Handshake Cell.Cell := fun h => receive_loop (S (length (rd h))) skip h.

(** ** VERSIONS *)

Definition versions_payload (versions : list Z) : bytes := flat_map (fun v => [Conversion.Uint16HighByte v; Conversion.Uint16LowByte v]) versions.

Definition sendVersions : M Handshake unit :=
  SendCell (Cell.mkCell 0 Cell.CmdVersions (versions_payload [MinLinkProtocolVersion; PreferredVersion; MaxLinkProtocolVersion])).

Fixpoint parse_versions (payload : bytes) : list Z :=
  match payload with
  | a :: b :: rest => Z.lor (Z.shiftl a 8) b :: parse_versions rest
  | _ => []
  end.

Fixpoint select_from (supported remote : list Z) : Z :=
  match supported with
  | [] => 0
  | v :: supported => if existsb (Z.eqb v) remote then v else select_from supported remote
  end.
Definition selectVersion (remoteVersions : list Z) : Z := select_from [5; 4; 3] remoteVersions.

Definition receiveVersions : M Handshake unit :=
  let* c := ReceiveCell in
  if negb (Cell.Command c =? Cell.CmdVersions) then fail (errExpected Cell.CmdVersions (Cell.Command c))
  else if negb (len (Cell.Payload c) mod 2 =? 0) then fail (errVersionsLen (len (Cell.Payload c)))
  else
    let v := selectVersion (parse_versions (Cell.Payload c)) in
    let* _ := modify (set_version v) in
    if v =? 0 then fail errNoVersion else ret tt.

(** ** NETINFO *)

Definition netinfo_time (now : Z) : Z := match Conversion.SafeUnixToUint32 (Unix now) with Ok t => t | Err _ => 0 end.

Definition sendNetinfo (now : Z) : M Handshake unit :=
  SendCell (Cell.mkCell 0 Cell.CmdNetinfo (PutUint32 (netinfo_time now) ++ [4; 4] ++ zeros 4 ++ [0])).

Definition receiveNetinfo : M Handshake unit :=
  let* c := receive (fun cmd => (cmd =? Cell.CmdAuthChallenge) || (cmd =? Cell.CmdPadding) || (cmd =? Cell.CmdVPadding)) in
  if negb (Cell.Command c =? Cell.CmdNetinfo) then fail (errExpected Cell.CmdNetinfo (Cell.Command c)) else ret tt.

(** ** CERTS *)

Section Handshaking.
Context `{LinkCrypto} (cfg : Config) (now : Z).

(** A failed check fails the handshake in strict mode and is only logged otherwise. *)
Definition enforce (e : option LinkCerts.error) (wrap : LinkCerts.error -> error) : M Handshake unit :=
  match e with Some e => if RequireCERTS cfg then fail (wrap e) else ret tt | None => ret tt end.

Definition receiveCERTS : M Handshake unit :=
  let* c := receive (fun cmd => cmd =? Cell.CmdPadding) in
  if negb (Cell.Command c =? Cell.CmdCerts) then fail (errExpected Cell.CmdCerts (Cell.Command c))
  else match ParseCERTSCell c with
       | Err e => fail (errParse e)
       | Ok certs =>
           let* _ := enforce (ValidateExpiration certs now) errExpiration in
           let* _ := enforce (ValidateSignatures certs) errSignatures in
           if bool_decide (is_Some (ExpectedIdentity cfg)) || negb (length (ExpectedFingerprint cfg) =? 0)%nat
           then enforce (ValidateRelayIdentity certs (ExpectedFingerprint cfg) (default [] (ExpectedIdentity cfg))) errRelayIdentity
           else ret tt
       end.

Definition PerformHandshake : M Handshake unit :=
  let* _ := sendVersions in
  let* _ := receiveVersions in
  let* v := get negotiatedVersion in
  let* _ := modify (SetCircIDLen (if 4 <=? v then 4 else 2)) in
  let* r := try receiveCERTS in
  match r with
  | Err e => if (3 <=? v) || RequireCERTS cfg then fail e else let* _ := sendNetinfo now in receiveNetinfo
  | Ok _ => let* _ := sendNetinfo now in receiveNetinfo
  end.

End Handshaking.

End LinkClient.
