(* ===== verification/LinkRelay.v ===== *)
(** * The responder of the link handshake (pkg/relay/or_handler.go, pkg/relay/or_auth.go)

    A relay's side: VERSIONS, CERTS, AUTH_CHALLENGE and NETINFO, the transcripts
    kept of what was sent and received, and the authentication of an initiator that
    is itself a relay by CERTS and AUTHENTICATE. *)

From Stdlib Require Import String.
From S2P Require Import Prelude Conversion GoStrings GoNet Cell LinkCerts LinkClient.
Import GoStrings(lit, hex_encode, ToUpper).

Module LinkRelay.
Import LinkCerts LinkClient(error(..), M, ret, fail, bind, get, modify, parse_versions, select_from, netinfo_time).
Import (notations) LinkClient.

Record ServerORConnection := mkServerConn { serverVersion : Z; authenticated : bool; rsaFP : bytes; edID : bytes; serverCircIDLen : Z }.

(** The logs are the bytes the running hashes were given. *)
Record LinkProtocolHandler := mkHandler { rd : bytes; wr : bytes; circIDLen : Z; outLog : bytes; inLog : bytes; slog : bytes }.

Definition authMethodEd25519SHA256RFC5705 : Z := 3.
Definition authType3Tag : bytes := lit "AUTH0003".
Definition authType3AuthLen : nat := 8 + 32 * 8 + 24 + 64.
Definition authType3SignedLen : nat := authType3AuthLen - 64.
Definition authTLSExporterLabel : bytes := lit "EXPORTER FOR TOR TLS CLIENT BINDING AUTH0003".
Definition authType3AuthDataOff : nat := 4.

Definition NewLinkProtocolHandler (input : bytes) : LinkProtocolHandler := mkHandler input [] 2 [] [] [].

Definition circIDWidth (h : LinkProtocolHandler) : Z := if circIDLen h =? 4 then 4 else 2.
Definition setCircIDLen (n : Z) (h : LinkProtocolHandler) : LinkProtocolHandler :=
  if (n =? 2) || (n =? 4) then mkHandler (rd h) (wr h) n (outLog h) (inLog h) (slog h) else h.

(** The width of the connection once it is handed over. *)
Definition connWidth (s : ServerORConnection) : Z := if serverCircIDLen s =? 2 then 2 else 4.

Definition encodeCellBytes (c : Cell.Cell) (n : Z) : result error bytes :=
  let '(buf, e) := Cell.EncodeLink c ([] : bytes) n in match e with Some e => Err (errSend e) | None => Ok buf end.

Definition writeCell (c : Cell.Cell) : M LinkProtocolHandler unit := fun h =>
  match encodeCellBytes c (circIDWidth h) with
  | Err e => (h, Err e)
  | Ok buf => (mkHandler (rd h) (wr h ++ buf) (circIDLen h) (outLog h ++ buf) (inLog h) (slog h), Ok tt)
  end.

Definition readCell : M LinkProtocolHandler Cell.Cell := fun h =>
  let '(r, rest) := Cell.DecodeCellLink (rd h) (circIDWidth h) in
  (mkHandler rest (wr h) (circIDLen h) (outLog h) (inLog h) (slog h), match r with Ok c => Ok c | Err e => Err (errReceive e) end).

Definition noteInbound (c : Cell.Cell) : M LinkProtocolHandler unit := fun h =>
  match encodeCellBytes c (circIDWidth h) with
  | Err _ => (h, Ok tt)
  | Ok raw => (mkHandler (rd h) (wr h) (circIDLen h) (outLog h) (inLog h ++ raw) (slog h), Ok tt)
  end.

(** ** VERSIONS *)

Definition receiveVersions : M LinkProtocolHandler (list Z) :=
  let* c := readCell in
  if negb (Cell.Command c =? Cell.CmdVersions) then fail (errExpected Cell.CmdVersions (Cell.Command c))
  else if negb (len (Cell.Payload c) mod 2 =? 0) then fail (errVersionsLen (len (Cell.Payload c)))
  else let* _ := noteInbound c in ret (parse_versions (Cell.Payload c)).

Definition selectVersion (clientVersions : list Z) : Z := select_from [5; 4; 3] clientVersions.

Definition sendVersions : M LinkProtocolHandler unit := writeCell (Cell.mkCell 0 Cell.CmdVersions (flat_map PutUint16 [3; 4; 5])).

(** ** NETINFO *)

Definition usableIP (ip : option bytes) : option bytes :=
  match ip with
  | Some ip => if GoNet.IsUnspecified ip || GoNet.IsMulticast ip || GoNet.IsLoopback ip then None else Some ip
  | None => None
  end.

Definition encodeLinkAddress (ip : option bytes) : bytes :=
  match ip ≫= GoNet.To4 with
  | Some v4 => [4; 4] ++ v4
  | None => match ip ≫= GoNet.To16 with Some v6 => [6; 16] ++ v6 | None => [4; 4; 0; 0; 0; 0] end
  end.

(** The addresses of the two ends, where they are TCP addresses. *)
Definition sendNetinfo (now : Z) (remote local : option bytes) : M LinkProtocolHandler unit :=
  let my := match usableIP local with Some ip => [encodeLinkAddress (Some ip)] | None => [] end in
  writeCell (Cell.mkCell 0 Cell.CmdNetinfo (PutUint32 (netinfo_time now) ++ encodeLinkAddress remote ++ [u8 (len my)] ++ concat my)).

(** [challenge]: fresh random bytes. *)
Definition sendAuthChallenge (challenge : bytes) : M LinkProtocolHandler unit :=
  writeCell (Cell.mkCell 0 Cell.CmdAuthChallenge (challenge ++ PutUint16 1 ++ PutUint16 authMethodEd25519SHA256RFC5705)).

Section Handler.
Context `{LinkCrypto}.

Definition sendCerts (keys : option RelayKeys) (now : Z) (signPriv : option bytes) : M LinkProtocolHandler unit :=
  match buildCERTSPayload keys now signPriv with
  | Err e => fail (errBuildCerts e)
  | Ok payload => writeCell (Cell.mkCell 0 Cell.CmdCerts payload)
  end.

(** ** AUTHENTICATE *)

Definition rsaIdentitySHA256 (der : bytes) : bytes := sha256 der.

Definition initiatorCIDFromCERTS (c : CERTSCell) : option bytes :=
  match rsa_key c with Some (Some der) => Some (rsaIdentitySHA256 der) | _ => None end.

(** [exporter]: the TLS connection's [ExportKeyingMaterial], if it is one. *)
Definition exportLinkAuthTLSSecrets (exporter : option (bytes -> bytes -> Z -> option bytes)) (cid : bytes) : option bytes :=
  match exporter with
  | None => None
  | Some export =>
      match export authTLSExporterLabel cid 32 with
      | Some sec => if negb (length sec =? 32)%nat then None else Some sec
      | None => None
      end
  end.

Definition initiatorIdentities (c : CERTSCell) : bytes * bytes :=
  let id := match Ed25519IdentityKey c with Ok id => if (length id =? 32)%nat then id else [] | Err _ => [] end in
  match rsa_key c with
  | Some (Some der) => (ToUpper (hex_encode (sha1 der)), id)
  | _ => ([], id)
  end.

(** Each comparison of the code, in its order; [true] when all hold. *)
Definition verifyAuthenticateType3 (auth : bytes) (c : CERTSCell) (keys : option RelayKeys) (slog clog tlsSecrets : bytes) : bool :=
  if (length auth <? authType3AuthLen)%nat then false
  else match keys with
  | None => false
  | Some k =>
  match RSAPrivate k with
  | None => false
  | Some r =>
  if negb (length (Ed25519Public k) =? 32)%nat || (length (TLSCert k) =? 0)%nat then false
  else match ValidateSignatures c with
  | Some _ => false
  | None =>
  match FindCertificate c CertTypeEd25519Auth ≫= Ed25519Cert with
  | None => false
  | Some type6 =>
  if negb (length (CertifiedKey type6) =? 32)%nat then false
  else match Ed25519IdentityKey c with
  | Err _ => false
  | Ok cidED =>
  if negb (length cidED =? 32)%nat then false
  else match rsa_key c with
  | Some (Some der) =>
      bool_decide (slice auth 0 8 = authType3Tag) && bool_decide (slice auth 8 40 = rsaIdentitySHA256 der) &&
      bool_decide (slice auth 40 72 = rsaIdentitySHA256 (rsaPublic r)) && bool_decide (slice auth 72 104 = cidED) &&
      bool_decide (slice auth 104 136 = Ed25519Public k) && bool_decide (slice auth 136 168 = slog) &&
      bool_decide (slice auth 168 200 = clog) && bool_decide (slice auth 200 232 = sha256 (TLSCert k)) &&
      bool_decide (slice auth 232 264 = tlsSecrets) &&
      edVerify (CertifiedKey type6) (take authType3SignedLen auth) (slice auth authType3SignedLen authType3AuthLen)
  | _ => false
  end end end end end end.

Definition verifyAuthenticateCell (payload : bytes) (c : CERTSCell) (keys : option RelayKeys) (slog clog tlsSecrets : bytes) : bool :=
  if (length payload <? authType3AuthDataOff)%nat then false
  else
    let authType := be_get (slice payload 0 2) in
    let authLen := Z.to_nat (be_get (slice payload 2 4)) in
    if negb (authType =? authMethodEd25519SHA256RFC5705) then false
    else if (authLen <? authType3AuthLen)%nat then false
    else if (length payload <? authType3AuthDataOff + authLen)%nat then false
    else verifyAuthenticateType3 (slice payload authType3AuthDataOff (authType3AuthDataOff + authLen)) c keys slog clog tlsSecrets.

Section Finish.
Context (keys : option RelayKeys) (exporter : option (bytes -> bytes -> Z -> option bytes)).

Definition authenticate (payload : bytes) (initiator : option CERTSCell) (o : ServerORConnection) : M LinkProtocolHandler ServerORConnection := fun h =>
  let clog := sha256 (inLog h) in
  match initiator with
  | None => (h, Err errAuthenticateFirst)
  | Some c =>
      match initiatorCIDFromCERTS c ≫= exportLinkAuthTLSSecrets exporter with
      | None => (h, Err errExporter)
      | Some secrets =>
          if verifyAuthenticateCell payload c keys (slog h) clog secrets then
            let '(fp, id) := initiatorIdentities c in (h, Ok (mkServerConn (serverVersion o) true fp id (serverCircIDLen o)))
          else (h, Err errAuthenticate)
      end
  end.

Fixpoint finish_loop (n : nat) (initiator : option CERTSCell) (o : ServerORConnection) : M LinkProtocolHandler ServerORConnection :=
  match n with
  | O => fail errPasses
  | S n =>
      let* c := readCell in
      if Cell.Command c =? Cell.CmdNetinfo then ret o
      else if (Cell.Command c =? Cell.CmdPadding) || (Cell.Command c =? Cell.CmdVPadding) then
        let* _ := noteInbound c in finish_loop n initiator o
      else if Cell.Command c =? Cell.CmdCerts then
        let* _ := noteInbound c in
        match ParseCERTSCell c with Err e => fail (errInitiatorCerts e) | Ok parsed => finish_loop n (Some parsed) o end
      else if Cell.Command c =? Cell.CmdAuthenticate then
        let* o := authenticate (Cell.Payload c) initiator o in finish_loop n initiator o
      else fail (errExpected Cell.CmdNetinfo (Cell.Command c))
  end.
Definition receiveInitiatorFinish (o : ServerORConnection) : M LinkProtocolHandler ServerORConnection := fun h =>
  finish_loop (S (length (rd h))) None o h.

Definition HandleConnection (now : Z) (signPriv : option bytes) (challenge : bytes) (remote local : option bytes) : M LinkProtocolHandler ServerORConnection :=
  let* _ := modify (setCircIDLen 2) in
  let* clientVersions := receiveVersions in
  let version := selectVersion clientVersions in
  if version =? 0 then fail errNoVersion
  else
    let* _ := sendVersions in
    let* _ := modify (setCircIDLen (if 4 <=? version then 4 else 2)) in
    let* n := get circIDWidth in
    let* _ := sendCerts keys now signPriv in
    let* _ := sendAuthChallenge challenge in
    let* _ := modify (fun h => mkHandler (rd h) (wr h) (circIDLen h) (outLog h) (inLog h) (sha256 (outLog h))) in
    let* _ := sendNetinfo now remote local in
    receiveInitiatorFinish (mkServerConn version false [] [] n).

End Finish.
End Handler.

End LinkRelay.
