(* ===== verification/LinkHandshake.v ===== *)
(** * The link handshake

    [LinkClient] and [LinkRelay] put together: what each side knows of the other when
    its part of the handshake succeeds, and that the two complete it with each other. *)

From Stdlib Require Import String.
From S2P Require Import Prelude Conversion GoStrings GoNet Cell LinkCerts LinkClient LinkRelay.
Import GoStrings(lit, hex_encode, ToUpper).

Module LinkHandshake.
Import LinkCerts.
Import LinkClient(error(..), M, ret, fail, bind, get, modify, try).
Import (notations) LinkClient.

(** ** Lemmas *)

Lemma bind_ok {S A B} (m : M S A) (k : A -> M S B) s s' a : m s = (s', Ok a) -> bind m k s = k a s'.
Proof. intros Hm. unfold bind. by rewrite Hm. Qed.

Lemma bind_inv {S A B} (m : M S A) (k : A -> M S B) s s' b :
  bind m k s = (s', Ok b) -> exists s1 a, m s = (s1, Ok a) /\ k a s1 = (s', Ok b).
Proof. unfold bind. destruct (m s) as [s1 [a|e]]; [|done]. eauto. Qed.

(** Decoding consumes input. *)
Lemma decode_shorter r n c rest : Cell.DecodeCellLink r n = (Ok c, rest) -> (length rest < length r)%nat.
Proof.
  unfold Cell.DecodeCellLink. destruct (_ && _); [done|]. intros (p & r1 & -> & Hp & H)%Cell.reading_ok.
  apply Cell.reading_ok in H as (q & r2 & -> & Hq & H). rewrite !length_app, Hq. destruct (Cell.IsVariableLength _).
  - apply Cell.reading_ok in H as (p' & r3 & -> & _ & H). apply Cell.reading_ok in H as (p'' & r4 & -> & _ & [= _ ->]). rewrite !length_app. lia.
  - apply Cell.reading_ok in H as (p' & r3 & -> & _ & [= _ ->]). rewrite !length_app. lia.
Qed.

(** *** The client *)

Definition client_wf (h : LinkClient.Handshake) : Prop := LinkClient.circIDLen h = 2 \/ LinkClient.circIDLen h = 4.

Lemma client_width h : client_wf h -> LinkClient.circIDWidth h = LinkClient.circIDLen h.
Proof. unfold client_wf, LinkClient.circIDWidth. by intros [-> | ->]. Qed.

Lemma send_ok h c : Cell.cell_wf (LinkClient.circIDWidth h) c ->
  LinkClient.SendCell c h = (LinkClient.set_wr (LinkClient.wr h ++ Cell.wire (LinkClient.circIDWidth h) c) h, Ok tt).
Proof. intros Hc. unfold LinkClient.SendCell. by rewrite Cell.EncodeLink_wire. Qed.

Lemma receive_ok h c rest : Cell.cell_wf (LinkClient.circIDWidth h) c -> LinkClient.rd h = Cell.wire (LinkClient.circIDWidth h) c ++ rest ->
  LinkClient.ReceiveCell h = (LinkClient.set_rd rest h, Ok (Cell.padded c)).
Proof. intros Hc Hr. unfold LinkClient.ReceiveCell. rewrite Hr. by rewrite Cell.DecodeCellLink_wire. Qed.

Lemma receive_inv h h' c : Forall is_byte (LinkClient.rd h) -> LinkClient.ReceiveCell h = (h', Ok c) ->
  exists rest, LinkClient.rd h = Cell.wire (LinkClient.circIDWidth h) c ++ rest /\ Cell.cell_wf (LinkClient.circIDWidth h) c /\ h' = LinkClient.set_rd rest h.
Proof.
  unfold LinkClient.ReceiveCell. intros Hb Hr. destruct (Cell.DecodeCellLink _ _) as [[c'|e] rest] eqn:Hd; [|done]. injection Hr as <- <-.
  apply Cell.DecodeCellLink_inv in Hd as (Hw & _ & Heq); [|done]. eauto.
Qed.

Lemma receive_loop_fuel skip n m h : (length (LinkClient.rd h) < n)%nat -> (length (LinkClient.rd h) < m)%nat ->
  LinkClient.receive_loop n skip h = LinkClient.receive_loop m skip h.
Proof.
  revert m h. induction n as [|n IH]; intros [|m] h Hn Hm; [lia|lia|lia|]. cbn [LinkClient.receive_loop]. unfold bind.
  destruct (LinkClient.ReceiveCell h) as [h1 [c|e]] eqn:Hr; [|done]. destruct (skip _); [|done].
  unfold LinkClient.ReceiveCell in Hr. destruct (Cell.DecodeCellLink _ _) as [[c'|e] rest] eqn:Hd; [|done]. injection Hr as <- <-.
  apply decode_shorter in Hd. apply IH; cbn [LinkClient.rd LinkClient.set_rd]; lia.
Qed.

(** The passes allowed are enough. *)
Lemma receive_passes skip h h' r : LinkClient.receive skip h = (h', r) -> r <> Err errPasses.
Proof.
  unfold LinkClient.receive. remember (S (length (LinkClient.rd h))) as n eqn:En. assert (length (LinkClient.rd h) < n)%nat as Hn by lia. clear En.
  revert h Hn. induction n as [|n IH]; intros h Hn; [lia|]. cbn [LinkClient.receive_loop]. unfold bind.
  destruct (LinkClient.ReceiveCell h) as [h1 [c|e]] eqn:Hr; unfold LinkClient.ReceiveCell in Hr; destruct (Cell.DecodeCellLink _ _) as [[c'|e'] rest] eqn:Hd; try done.
  - injection Hr as <- <-. apply decode_shorter in Hd. destruct (skip _); [apply IH; cbn [LinkClient.rd LinkClient.set_rd]; lia|by intros [= _ <-]].
  - injection Hr as <- <-. by intros [= _ <-].
Qed.

Lemma receive_stop skip h c rest : Cell.cell_wf (LinkClient.circIDWidth h) c -> LinkClient.rd h = Cell.wire (LinkClient.circIDWidth h) c ++ rest ->
  skip (Cell.Command (Cell.padded c)) = false -> LinkClient.receive skip h = (LinkClient.set_rd rest h, Ok (Cell.padded c)).
Proof. intros Hc Hr Hs. unfold LinkClient.receive. cbn [LinkClient.receive_loop]. by rewrite (bind_ok _ _ _ _ _ (receive_ok h c rest Hc Hr)), Hs. Qed.

Lemma receive_pass skip h c rest : Cell.cell_wf (LinkClient.circIDWidth h) c -> LinkClient.rd h = Cell.wire (LinkClient.circIDWidth h) c ++ rest ->
  skip (Cell.Command (Cell.padded c)) = true -> LinkClient.receive skip h = LinkClient.receive skip (LinkClient.set_rd rest h).
Proof.
  intros Hc Hr Hs. unfold LinkClient.receive at 1. cbn [LinkClient.receive_loop]. rewrite (bind_ok _ _ _ _ _ (receive_ok h c rest Hc Hr)), Hs.
  unfold LinkClient.receive. apply receive_loop_fuel; cbn [LinkClient.rd LinkClient.set_rd]; [|lia]. rewrite Hr, length_app. unfold Cell.wire. rewrite !length_app. cbn [length]. lia.
Qed.

(** What a loop returned had been sent. *)
Lemma receive_sent skip h h' c : Forall is_byte (LinkClient.rd h) -> LinkClient.receive skip h = (h', Ok c) ->
  exists before rest, LinkClient.rd h = before ++ Cell.wire (LinkClient.circIDWidth h) c ++ rest /\ h' = LinkClient.set_rd rest h.
Proof.
  unfold LinkClient.receive. generalize (S (length (LinkClient.rd h))) as n. intros n. revert h. induction n as [|n IH]; intros h Hb; [done|].
  cbn [LinkClient.receive_loop]. intros (h1 & c1 & Hr & Hk)%bind_inv. apply receive_inv in Hr as (rest & Hrd & _ & ->); [|done].
  destruct (skip _).
  - apply IH in Hk as (before & rest' & Hr' & ->); [|cbn; rewrite Hrd in Hb; by apply Forall_app in Hb as [_ ?]].
    exists (Cell.wire (LinkClient.circIDWidth h) c1 ++ before), rest'. split; [|done]. rewrite Hrd, <- app_assoc. f_equal. exact Hr'.
  - injection Hk as <- <-. by exists [], rest.
Qed.

(** *** The relay *)

Lemma encode_ok n c : Cell.cell_wf n c -> LinkRelay.encodeCellBytes c n = Ok (Cell.wire n c).
Proof. intros Hc. unfold LinkRelay.encodeCellBytes. rewrite Cell.EncodeLink_wire by done. done. Qed.

Definition appended (buf : bytes) (h : LinkRelay.LinkProtocolHandler) : LinkRelay.LinkProtocolHandler :=
  LinkRelay.mkHandler (LinkRelay.rd h) (LinkRelay.wr h ++ buf) (LinkRelay.circIDLen h) (LinkRelay.outLog h ++ buf) (LinkRelay.inLog h) (LinkRelay.slog h).
Definition taken (rest : bytes) (h : LinkRelay.LinkProtocolHandler) : LinkRelay.LinkProtocolHandler :=
  LinkRelay.mkHandler rest (LinkRelay.wr h) (LinkRelay.circIDLen h) (LinkRelay.outLog h) (LinkRelay.inLog h) (LinkRelay.slog h).
Definition noted (raw : bytes) (h : LinkRelay.LinkProtocolHandler) : LinkRelay.LinkProtocolHandler :=
  LinkRelay.mkHandler (LinkRelay.rd h) (LinkRelay.wr h) (LinkRelay.circIDLen h) (LinkRelay.outLog h) (LinkRelay.inLog h ++ raw) (LinkRelay.slog h).

Lemma relay_write_ok h c : Cell.cell_wf (LinkRelay.circIDWidth h) c -> LinkRelay.writeCell c h = (appended (Cell.wire (LinkRelay.circIDWidth h) c) h, Ok tt).
Proof. intros Hc. unfold LinkRelay.writeCell. by rewrite encode_ok. Qed.

Lemma write_inv h h' c u : LinkRelay.writeCell c h = (h', Ok u) -> exists buf, h' = appended buf h.
Proof. unfold LinkRelay.writeCell. destruct (LinkRelay.encodeCellBytes _ _) as [buf|]; [|done]. intros [= <- _]. by exists buf. Qed.

Lemma read_ok h c rest : Cell.cell_wf (LinkRelay.circIDWidth h) c -> LinkRelay.rd h = Cell.wire (LinkRelay.circIDWidth h) c ++ rest ->
  LinkRelay.readCell h = (taken rest h, Ok (Cell.padded c)).
Proof. intros Hc Hr. unfold LinkRelay.readCell. rewrite Hr. by rewrite Cell.DecodeCellLink_wire. Qed.

Lemma read_inv h h' c : Forall is_byte (LinkRelay.rd h) -> LinkRelay.readCell h = (h', Ok c) ->
  exists rest, LinkRelay.rd h = Cell.wire (LinkRelay.circIDWidth h) c ++ rest /\ Cell.cell_wf (LinkRelay.circIDWidth h) c /\ h' = taken rest h.
Proof.
  unfold LinkRelay.readCell. intros Hb Hr. destruct (Cell.DecodeCellLink _ _) as [[c'|e] rest] eqn:Hd; [|done]. injection Hr as <- <-.
  apply Cell.DecodeCellLink_inv in Hd as (Hw & _ & Heq); [|done]. eauto.
Qed.

Lemma note_ok h c : Cell.cell_wf (LinkRelay.circIDWidth h) c -> LinkRelay.noteInbound c h = (noted (Cell.wire (LinkRelay.circIDWidth h) c) h, Ok tt).
Proof. intros Hc. unfold LinkRelay.noteInbound. by rewrite encode_ok. Qed.

Lemma relay_width_cases h : LinkRelay.circIDWidth h = 2 \/ LinkRelay.circIDWidth h = 4.
Proof. unfold LinkRelay.circIDWidth. destruct (_ =? 4); auto. Qed.

(** The relay's loop ends: each pass reads a cell. *)
Lemma finish_passes `{LinkCrypto} keys exporter n init o h h' r : (length (LinkRelay.rd h) < n)%nat ->
  LinkRelay.finish_loop keys exporter n init o h = (h', r) -> r <> Err errPasses.
Proof.
  revert init o h. induction n as [|n IH]; intros init o h Hn; [lia|]. cbn [LinkRelay.finish_loop]. unfold bind at 1.
  destruct (LinkRelay.readCell h) as [h1 [c|e]] eqn:Hr; unfold LinkRelay.readCell in Hr; destruct (Cell.DecodeCellLink _ _) as [[c'|e'] rest] eqn:Hd; try done.
  2: { injection Hr as <- <-. by intros [= _ <-]. }
  injection Hr as <- <-. apply decode_shorter in Hd. change (LinkRelay.mkHandler rest _ _ _ _ _) with (taken rest h).
  assert (forall raw, length (LinkRelay.rd (noted raw (taken rest h))) < n)%nat as Hnoted by (intros; cbn; lia).
  assert (exists h2, LinkRelay.noteInbound c' (taken rest h) = (h2, Ok tt) /\ (length (LinkRelay.rd h2) < n)%nat) as (h2 & Hn2 & Hl2).
  { unfold LinkRelay.noteInbound. destruct (LinkRelay.encodeCellBytes _ _); eexists; (split; [done|]); cbn; lia. }
  destruct (_ =? Cell.CmdNetinfo); [by intros [= _ <-]|]. destruct (_ || _); [rewrite (bind_ok _ _ _ _ _ Hn2); by apply IH|].
  destruct (_ =? Cell.CmdCerts).
  { rewrite (bind_ok _ _ _ _ _ Hn2). destruct (ParseCERTSCell c') as [parsed|e]; [by apply IH|by intros [= _ <-]]. }
  destruct (_ =? Cell.CmdAuthenticate); [|by intros [= _ <-]]. unfold bind, LinkRelay.authenticate. destruct init as [certs|]; [|by intros [= _ <-]].
  destruct (_ ≫= _) as [secrets|]; [|by intros [= _ <-]]. destruct (LinkRelay.verifyAuthenticateCell _ _ _ _ _ _); [|by intros [= _ <-]].
  destruct (LinkRelay.initiatorIdentities _) as [fp id]. apply IH. cbn. lia.
Qed.

(** ** What the relay knows of an authenticated initiator *)

Section Auth.
Context `{LinkCrypto} (k : RelayKeys) (export : bytes -> bytes -> Z -> option bytes).

(** What the initiator signs: both identities, both transcripts, the relay's TLS
    certificate, the secret exported from the TLS session, and random bytes. *)
Definition auth_statement (r der id sent received secrets random : bytes) : bytes :=
  LinkRelay.authType3Tag ++ sha256 der ++ sha256 (rsaPublic r) ++ id ++ Ed25519Public k ++ sha256 sent ++ sha256 received ++
  sha256 (TLSCert k) ++ secrets ++ random.

(** A key certified, through the signing key, by [id], which [der] vouches for. *)
Record certified_key (c : CERTSCell) (der id key : bytes) : Prop := mkCertified {
  certified_chain : chain c der id;
  certified_auth : CertifiedKey <$> (FindCertificate c CertTypeEd25519Auth ≫= Ed25519Cert) = Some key;
}.

Lemma type3_sound auth c slog clog secrets : Forall covers c ->
  LinkRelay.verifyAuthenticateType3 auth c (Some k) slog clog secrets = true ->
  exists r der id key random sig, RSAPrivate k = Some r /\ rsa_key c = Some (Some der) /\ Ed25519IdentityKey c = Ok id /\ length id = 32%nat /\
    certified_key c der id key /\ length random = 24%nat /\
    edVerify key (LinkRelay.authType3Tag ++ sha256 der ++ sha256 (rsaPublic r) ++ id ++ Ed25519Public k ++ slog ++ clog ++ sha256 (TLSCert k) ++ secrets ++ random) sig = true.
Proof.
  intros Hcov. unfold LinkRelay.verifyAuthenticateType3. destruct (Nat.ltb_spec (length auth) LinkRelay.authType3AuthLen) as [|Hl]; [done|].
  destruct (RSAPrivate k) as [r|] eqn:Hr; [|done]. destruct (_ || _); [done|]. destruct (ValidateSignatures c) eqn:Hv; [done|].
  destruct (FindCertificate c CertTypeEd25519Auth ≫= Ed25519Cert) as [type6|] eqn:H6; [|done]. destruct (negb _); [done|].
  destruct (Ed25519IdentityKey c) as [id|] eqn:Hid; [|done]. destruct (Nat.eqb_spec (length id) 32) as [Hlid|]; [|done]. cbn [negb].
  destruct (rsa_key c) as [[der|]|] eqn:Hk; [|done|done]. rewrite !andb_true_iff, !bool_decide_eq_true.
  intros (((((((((E0 & E1) & E2) & E3) & E4) & E5) & E6) & E7) & E8) & Hver).
  destruct (signatures_chain c id Hcov Hv Hid) as [der' Hch]. pose proof (chain_rsa _ _ _ Hch) as Hk'. rewrite Hk in Hk'. injection Hk' as <-.
  exists r, der, id, (CertifiedKey type6), (slice auth 264 288), (slice auth 288 352). split_and!; [done|done|done|done| |rewrite length_slice; [done|unfold LinkRelay.authType3AuthLen in Hl; lia]|].
  - split; [done|]. by rewrite H6.
  - unfold LinkRelay.authType3SignedLen, LinkRelay.authType3AuthLen in Hver. cbn [Nat.add Nat.mul Nat.sub] in Hver.
    assert (take 288 auth = slice auth 0 8 ++ slice auth 8 40 ++ slice auth 40 72 ++ slice auth 72 104 ++ slice auth 104 136 ++ slice auth 136 168 ++ slice auth 168 200 ++
      slice auth 200 232 ++ slice auth 232 264 ++ slice auth 264 288) as Ht.
    { rewrite (split_slice auth 264 288), (split_slice auth 232 264), (split_slice auth 200 232), (split_slice auth 168 200), (split_slice auth 136 168),
        (split_slice auth 104 136), (split_slice auth 72 104), (split_slice auth 40 72), (split_slice auth 8 40) by lia. rewrite <- !app_assoc. done. }
    rewrite Ht, E0, E1, E2, E3, E4, E5, E6, E7, E8 in Hver. exact Hver.
Qed.

(** The initiator of [o] proved its identity on the input [input] to a relay that had
    sent [sent]. *)
Definition not_auth (c : Cell.Cell) : bool := negb (Cell.Command c =? Cell.CmdAuthenticate).
Definition received_log (n : Z) (v : Cell.Cell) (before : list Cell.Cell) : bytes :=
  Cell.wire 2 v ++ flat_map (Cell.wire n) (List.filter not_auth before).

Definition proved (input sent : bytes) (o : LinkRelay.ServerORConnection) : Prop :=
  exists r der id key random sig secrets c v certs before n rest,
    RSAPrivate k = Some r /\
    input = Cell.wire 2 v ++ flat_map (Cell.wire n) before ++ rest /\ certs ∈ before /\ ParseCERTSCell certs = Ok c /\
    certified_key c der id key /\
    export LinkRelay.authTLSExporterLabel (sha256 der) 32 = Some secrets /\ length random = 24%nat /\
    edVerify key (auth_statement r der id sent (received_log n v before) secrets random) sig = true /\
    LinkRelay.rsaFP o = ToUpper (hex_encode (sha1 der)) /\ LinkRelay.edID o = id.

(** The log is what was received, less AUTHENTICATE cells. *)
Definition logged (input : bytes) (n : Z) (v : Cell.Cell) (cs : list Cell.Cell) (h : LinkRelay.LinkProtocolHandler) : Prop :=
  input = Cell.wire 2 v ++ flat_map (Cell.wire n) cs ++ LinkRelay.rd h /\ LinkRelay.inLog h = received_log n v cs /\ LinkRelay.circIDWidth h = n.

Lemma logged_step input n v cs h c rest : logged input n v cs h -> LinkRelay.rd h = Cell.wire n c ++ rest ->
  logged input n v (cs ++ [c]) (if not_auth c then noted (Cell.wire n c) (taken rest h) else taken rest h).
Proof.
  intros (Hi & Hl & Hw) Hr. unfold logged, received_log in *. rewrite flat_map_app, List.filter_app. cbn [flat_map List.filter]. rewrite app_nil_r.
  rewrite Hi, Hr. destruct (not_auth c); cbn; rewrite Hl, ?flat_map_app; cbn [flat_map]; rewrite ?app_nil_r, <- !app_assoc; done.
Qed.

Lemma authenticate_sound payload c o o' h h' input sent n v before rest certs : LinkRelay.authenticate (Some k) (Some export) payload (Some c) o h = (h', Ok o') ->
  ParseCERTSCell certs = Ok c -> certs ∈ before -> input = Cell.wire 2 v ++ flat_map (Cell.wire n) before ++ rest ->
  LinkRelay.inLog h = received_log n v before -> LinkRelay.slog h = sha256 sent -> h' = h /\ proved input sent o'.
Proof.
  intros Ha Hp Hin Hi Hl Hs. unfold LinkRelay.authenticate in Ha. destruct (LinkRelay.initiatorCIDFromCERTS c ≫= _) as [secrets|] eqn:He; [|done].
  destruct (LinkRelay.verifyAuthenticateCell _ _ _ _ _ _) eqn:Hv; [|done]. unfold LinkRelay.verifyAuthenticateCell in Hv.
  destruct (_ <? _)%nat; [done|]. destruct (negb _); [done|]. destruct (_ <? _)%nat; [done|]. destruct (_ <? _)%nat; [done|].
  apply type3_sound in Hv as (r & der & id & key & random & sig & Hr & Hk & Hid & Hlid & Hc & Hlr & Hver); [|by eapply parsed_covers].
  unfold LinkRelay.initiatorIdentities in Ha. rewrite Hk, Hid, Hlid in Ha. cbn [Nat.eqb] in Ha. injection Ha as <- <-. split; [done|].
  unfold LinkRelay.initiatorCIDFromCERTS in He. rewrite Hk in He. cbn [mbind option_bind LinkRelay.exportLinkAuthTLSSecrets] in He.
  destruct (export _ _ _) as [sec|] eqn:Hx; [|done]. destruct (negb _); [done|]. injection He as ->.
  exists r, der, id, key, random, sig, secrets, c, v, certs, before, n, rest. split_and!; try done. by rewrite Hl, Hs in Hver.
Qed.

Lemma finish_sound input sent n v passes cs init o o' h h' : Forall is_byte (LinkRelay.rd h) ->
  LinkRelay.finish_loop (Some k) (Some export) passes init o h = (h', Ok o') -> logged input n v cs h -> LinkRelay.slog h = sha256 sent ->
  (forall c, init = Some c -> exists certs, certs ∈ cs /\ ParseCERTSCell certs = Ok c) ->
  (LinkRelay.authenticated o = true -> proved input sent o) -> LinkRelay.authenticated o' = true -> proved input sent o'.
Proof.
  revert cs init o h. induction passes as [|passes IH]; intros cs init o h Hb Hf Hlog Hs Hinit Ho Ho'; [done|]. cbn [LinkRelay.finish_loop] in Hf.
  apply bind_inv in Hf as (h1 & c & Hr & Hf). apply read_inv in Hr as (rest & Hrd & Hwf & ->); [|done].
  assert (Forall is_byte rest) as Hbr by (rewrite Hrd in Hb; by apply Forall_app in Hb as [_ ?]).
  pose proof (proj2 (proj2 Hlog)) as Hw. rewrite Hw in Hrd, Hwf. pose proof (logged_step _ _ _ _ _ _ _ Hlog Hrd) as Hstep.
  assert (LinkRelay.noteInbound c (taken rest h) = (noted (Cell.wire n c) (taken rest h), Ok tt)) as Hnote.
  { rewrite note_ok; [f_equal; f_equal; f_equal; exact Hw|]. change (LinkRelay.circIDWidth (taken rest h)) with (LinkRelay.circIDWidth h). by rewrite Hw. }
  assert (forall x, (forall c0, x = Some c0 -> exists certs, certs ∈ cs /\ ParseCERTSCell certs = Ok c0) -> forall c0, x = Some c0 -> exists certs, certs ∈ cs ++ [c] /\ ParseCERTSCell certs = Ok c0) as Hmono.
  { intros x Hx c0 Hc0. destruct (Hx c0 Hc0) as (certs & Hin & Hp). exists certs. split; [apply elem_of_app; by left|done]. }
  unfold not_auth in Hstep. destruct (Z.eqb_spec (Cell.Command c) Cell.CmdNetinfo); [by injection Hf as <- <-; apply Ho|].
  destruct (_ || _) eqn:Hpad.
  { assert (Cell.Command c =? Cell.CmdAuthenticate = false) as Hna by (apply orb_true_iff in Hpad as [Hc|Hc]; apply Z.eqb_eq in Hc; by rewrite Hc). rewrite Hna in Hstep. cbn [negb] in Hstep.
    rewrite (bind_ok _ _ _ _ _ Hnote) in Hf. by apply (IH (cs ++ [c]) init o (noted (Cell.wire n c) (taken rest h)) Hbr Hf Hstep Hs (Hmono _ Hinit) Ho). }
  destruct (Z.eqb_spec (Cell.Command c) Cell.CmdCerts) as [Hc|].
  { rewrite Hc in Hstep. change (Cell.CmdCerts =? Cell.CmdAuthenticate) with false in Hstep. cbn [negb] in Hstep.
    rewrite (bind_ok _ _ _ _ _ Hnote) in Hf. destruct (ParseCERTSCell c) as [parsed|] eqn:Hp; [|done]. apply (IH (cs ++ [c]) (Some parsed) o (noted (Cell.wire n c) (taken rest h)) Hbr Hf Hstep Hs); [|done|done].
    intros c0 [= <-]. exists c. split; [apply elem_of_app; right; by apply list_elem_of_singleton|done]. }
  destruct (Z.eqb_spec (Cell.Command c) Cell.CmdAuthenticate) as [Hc|]; [|done]. cbn [negb] in Hstep.
  apply bind_inv in Hf as (h2 & o2 & Ha & Hf). destruct init as [certs|]; [|done]. destruct (Hinit certs eq_refl) as (cell & Hin & Hp).
  destruct Hlog as (Hi & Hl & _). rewrite Hrd in Hi.
  destruct (authenticate_sound _ _ _ _ _ _ input sent n v cs (Cell.wire n c ++ rest) cell Ha Hp Hin Hi Hl Hs) as [-> Hpr].
  by apply (IH (cs ++ [c]) (Some certs) o2 (taken rest h) Hbr Hf Hstep Hs (Hmono _ Hinit) (fun _ => Hpr)).
Qed.

Lemma finish_wr keys exporter passes init o h h' r : LinkRelay.finish_loop keys exporter passes init o h = (h', r) -> LinkRelay.wr h' = LinkRelay.wr h.
Proof.
  revert init o h. induction passes as [|passes IH]; intros init o h Hf; cbn [LinkRelay.finish_loop] in Hf; [by injection Hf as <- _|].
  unfold bind at 1, LinkRelay.readCell in Hf. destruct (Cell.DecodeCellLink _ _) as [[c|e] rest]; [|by injection Hf as <- _].
  change (LinkRelay.mkHandler rest _ _ _ _ _) with (taken rest h) in Hf.
  assert (exists h2, LinkRelay.noteInbound c (taken rest h) = (h2, Ok tt) /\ LinkRelay.wr h2 = LinkRelay.wr h) as (h2 & Hn2 & Hw2).
  { unfold LinkRelay.noteInbound. destruct (LinkRelay.encodeCellBytes _ _); by eexists. }
  destruct (_ =? Cell.CmdNetinfo); [by injection Hf as <- _|]. destruct (_ || _); [rewrite (bind_ok _ _ _ _ _ Hn2) in Hf; by rewrite (IH _ _ _ Hf)|].
  destruct (_ =? Cell.CmdCerts).
  { rewrite (bind_ok _ _ _ _ _ Hn2) in Hf. destruct (ParseCERTSCell c); [by rewrite (IH _ _ _ Hf)|by injection Hf as <- _]. }
  destruct (_ =? Cell.CmdAuthenticate); [|by injection Hf as <- _]. unfold bind, LinkRelay.authenticate in Hf. destruct init as [certs|]; [|by injection Hf as <- _].
  destruct (_ ≫= _); [|by injection Hf as <- _]. destruct (LinkRelay.verifyAuthenticateCell _ _ _ _ _ _); [|by injection Hf as <- _].
  destruct (LinkRelay.initiatorIdentities _). by rewrite (IH _ _ _ Hf).
Qed.

(** VERSIONS as the relay has it. *)
Lemma relay_versions input h' versions : Forall is_byte input ->
  LinkRelay.receiveVersions (LinkRelay.NewLinkProtocolHandler input) = (h', Ok versions) ->
  exists v rest, Cell.cell_wf 2 v /\ Cell.Command v = Cell.CmdVersions /\ input = Cell.wire 2 v ++ rest /\ versions = LinkClient.parse_versions (Cell.Payload v) /\
    h' = LinkRelay.mkHandler rest [] 2 [] (Cell.wire 2 v) [].
Proof.
  intros Hb (h1 & v & Hr & Hf)%bind_inv. apply read_inv in Hr as (rest & Hrd & Hwf & ->); [|done].
  change (LinkRelay.circIDWidth _) with 2 in Hrd, Hwf. destruct (Z.eqb_spec (Cell.Command v) Cell.CmdVersions) as [Hc|]; [|done]. cbn [negb] in Hf.
  destruct (negb _); [done|]. rewrite (bind_ok _ _ _ _ _ (note_ok (taken rest (LinkRelay.NewLinkProtocolHandler input)) v Hwf)) in Hf. injection Hf as <- <-. by exists v, rest.
Qed.

Definition challenge_cell (challenge : bytes) : Cell.Cell := Cell.mkCell 0 Cell.CmdAuthChallenge (challenge ++ PutUint16 1 ++ PutUint16 3).

Lemma challenge_wf n challenge : n = 2 \/ n = 4 -> length challenge = 32%nat -> Forall is_byte challenge -> Cell.cell_wf n (challenge_cell challenge).
Proof.
  intros Hn Hl Hb. split_and!; [done|destruct Hn as [-> | ->]; done|done| |].
  - cbn [Cell.Payload challenge_cell]. rewrite !Forall_app. split_and!; [done|apply be_put_bytes|apply be_put_bytes].
  - cbn [Cell.Payload challenge_cell]. unfold len. rewrite !length_app, !length_PutUint16, Hl. done.
Qed.

End Auth.

(** ** What the client knows of a relay it expected *)

Lemma select_from_spec supported remote v : LinkClient.select_from supported remote = v -> v <> 0 ->
  v ∈ supported /\ v ∈ remote.
Proof.
  induction supported as [|s l IH]; cbn [LinkClient.select_from]; [by intros <-|]. destruct (existsb (Z.eqb s) remote) eqn:He.
  - intros <- _. apply existsb_exists in He as (u & Hin & Hu). apply Z.eqb_eq in Hu as <-. split; [apply elem_of_cons; by left|by apply list_elem_of_In].
  - intros Hv Hn. destruct (IH Hv Hn). split; [apply elem_of_cons; by right|done].
Qed.

Lemma select_highest remote u : u ∈ remote -> 3 <= u <= 5 -> u <= LinkClient.selectVersion remote.
Proof.
  intros Hu Hr. unfold LinkClient.selectVersion. cbn [LinkClient.select_from].
  assert (existsb (Z.eqb u) remote = true) as He by (apply existsb_exists; exists u; split; [by apply list_elem_of_In|apply Z.eqb_refl]).
  assert (u = 3 \/ u = 4 \/ u = 5) as [-> | [-> | ->]] by lia; rewrite He; repeat (destruct (existsb _ _); try lia).
Qed.

Section Client.
Context `{LinkCrypto} (cfg : LinkClient.Config) (now : Z).

Lemma enforce_inv e wrap h h' u : LinkClient.RequireCERTS cfg = true -> LinkClient.enforce cfg e wrap h = (h', Ok u) -> e = None /\ h' = h.
Proof. unfold LinkClient.enforce. intros ->. destruct e; [done|]. by intros [= <- _]. Qed.

Lemma certs_inv h h' u id : Forall is_byte (LinkClient.rd h) -> LinkClient.RequireCERTS cfg = true ->
  LinkClient.ExpectedFingerprint cfg <> [] -> LinkClient.ExpectedIdentity cfg = Some id -> length id = 32%nat ->
  LinkClient.receiveCERTS cfg now h = (h', Ok u) ->
  exists before certs rest c der, LinkClient.rd h = before ++ Cell.wire (LinkClient.circIDWidth h) certs ++ rest /\ h' = LinkClient.set_rd rest h /\
    ParseCERTSCell certs = Ok c /\ chain c der id /\ ToUpper (hex_encode (sha1 der)) = LinkClient.ExpectedFingerprint cfg /\ ValidateExpiration c now = None.
Proof.
  intros Hb Hreq Hfp Hid Hlid (h1 & certs & Hr & Hf)%bind_inv. apply receive_sent in Hr as (before & rest & Hrd & ->); [|done].
  destruct (negb _); [done|]. destruct (ParseCERTSCell certs) as [c|] eqn:Hp; [|done].
  apply bind_inv in Hf as (h2 & [] & He & Hf). apply enforce_inv in He as [Hexp ->]; [|done].
  apply bind_inv in Hf as (h3 & [] & He & Hf). apply enforce_inv in He as [Hsig ->]; [|done].
  rewrite Hid in Hf. rewrite bool_decide_true in Hf by by eexists. cbn [orb default] in Hf. apply enforce_inv in Hf as [Hrel ->]; [|done].
  apply identity_checked in Hrel as [Hik (der & Hk & Hfpr)]; [|done|done].
  destruct (signatures_chain c id (parsed_covers _ _ Hp) Hsig Hik) as [der' Hch]. pose proof (chain_rsa _ _ _ Hch) as Hk'. rewrite Hk in Hk'. injection Hk' as <-.
  by exists before, certs, rest, c, der.
Qed.

Lemma client_versions input h h' u : Forall is_byte input -> LinkClient.rd h = input -> LinkClient.circIDWidth h = 2 ->
  LinkClient.receiveVersions h = (h', Ok u) ->
  exists v rest, input = Cell.wire 2 v ++ rest /\ let ver := LinkClient.selectVersion (LinkClient.parse_versions (Cell.Payload v)) in
    ver <> 0 /\ h' = LinkClient.set_version ver (LinkClient.set_rd rest h).
Proof.
  intros Hb Hi Hw (h1 & v & Hr & Hf)%bind_inv. apply receive_inv in Hr as (rest & Hrd & _ & ->); [|by rewrite Hi]. rewrite Hw, Hi in Hrd.
  destruct (negb _); [done|]. destruct (negb _); [done|]. apply bind_inv in Hf as (h2 & [] & [= <-] & Hf). destruct (Z.eqb_spec (LinkClient.selectVersion (LinkClient.parse_versions (Cell.Payload v))) 0); [done|].
  injection Hf as <- _. by exists v, rest.
Qed.

Lemma netinfo_version h h' u : Forall is_byte (LinkClient.rd h) -> (let* _ := LinkClient.sendNetinfo now in LinkClient.receiveNetinfo) h = (h', Ok u) ->
  LinkClient.negotiatedVersion h' = LinkClient.negotiatedVersion h.
Proof.
  intros Hb (h1 & [] & Hs & (h2 & c & Hr & Hf)%bind_inv)%bind_inv. unfold LinkClient.sendNetinfo, LinkClient.SendCell in Hs.
  destruct (Cell.EncodeLink _ _ _) as [w e]. injection Hs as <- He. apply receive_sent in Hr as (before & rest & _ & ->); [|done].
  destruct (negb _); [done|]. by injection Hf as <- _.
Qed.

End Client.

(** ** The two sides together *)

Definition versions_cell : Cell.Cell := Cell.mkCell 0 Cell.CmdVersions [0; 3; 0; 4; 0; 5].
Definition netinfo_cell (payload : bytes) : Cell.Cell := Cell.mkCell 0 Cell.CmdNetinfo payload.
Definition client_netinfo (now : Z) : bytes := PutUint32 (LinkClient.netinfo_time now) ++ [4; 4] ++ zeros 4 ++ [0].
Definition relay_netinfo (now : Z) (remote local : option bytes) : bytes :=
  let my := match LinkRelay.usableIP local with Some ip => [LinkRelay.encodeLinkAddress (Some ip)] | None => [] end in
  PutUint32 (LinkClient.netinfo_time now) ++ LinkRelay.encodeLinkAddress remote ++ [u8 (len my)] ++ concat my.

(** Addresses are made of bytes. *)
Definition addr_ok (ip : option bytes) : Prop := Forall is_byte (default [] ip).

Lemma encode_addr ip : addr_ok ip -> Forall is_byte (LinkRelay.encodeLinkAddress ip) /\ (length (LinkRelay.encodeLinkAddress ip) <= 18)%nat.
Proof.
  unfold addr_ok, LinkRelay.encodeLinkAddress. destruct ip as [ip|]; cbn [default mbind option_bind]; intros Hb.
  2: { split; [|cbn; lia]. by repeat constructor. }
  unfold GoNet.To4, GoNet.To16. destruct (Nat.eqb_spec (length ip) 4) as [H4|H4].
  { split; [|cbn; lia]. rewrite Forall_app. split; [by repeat constructor|done]. }
  destruct (Nat.eqb_spec (length ip) 16) as [H16|H16]; cbn [andb].
  - destruct (GoStrings.string_eqb _ _).
    + split; [|rewrite length_app, length_drop; cbn; lia]. rewrite Forall_app. split; [by repeat constructor|by apply Forall_drop].
    + split; [|rewrite length_app; cbn; lia]. rewrite Forall_app. split; [by repeat constructor|done].
  - split; [|cbn; lia]. by repeat constructor.
Qed.

Lemma client_netinfo_wf now : Cell.cell_wf 4 (netinfo_cell (client_netinfo now)).
Proof.
  split_and!; [by right|done|done| |]; cbn [Cell.Payload netinfo_cell]; unfold client_netinfo.
  - rewrite !Forall_app. split_and!; [apply be_put_bytes|by repeat constructor|by repeat constructor|by repeat constructor].
  - unfold len. rewrite !length_app, length_PutUint32. done.
Qed.

Lemma relay_netinfo_wf now remote local : addr_ok remote -> addr_ok local -> Cell.cell_wf 4 (netinfo_cell (relay_netinfo now remote local)).
Proof.
  intros [Hbr Hlr]%encode_addr Hl. unfold netinfo_cell, relay_netinfo.
  set (my := match LinkRelay.usableIP local with Some _ => _ | None => _ end).
  assert (Forall is_byte (concat my) /\ (length (concat my) <= 18)%nat) as [Hbm Hlm].
  { unfold my, LinkRelay.usableIP. destruct local as [ip|]; [|cbn; split; [done|lia]]. destruct (_ || _); [cbn; split; [done|lia]|].
    cbn [concat]. rewrite app_nil_r. by apply encode_addr. }
  split_and!; [by right|done|done| |]; cbn [Cell.Payload].
  - rewrite !Forall_app, Forall_singleton. split_and!; [apply be_put_bytes|done|apply Z.mod_pos_bound; lia|done].
  - change (Cell.max_payload _) with 509. generalize (u8 (len my)). intros b. unfold len. rewrite !length_app, length_PutUint32. cbn [length]. lia.
Qed.

Lemma versions_wf : Cell.cell_wf 2 versions_cell.
Proof. split_and!; [by left|done|done|by repeat constructor|done]. Qed.

Section Together.
Context `{LinkCrypto, !LinkCryptoLaws _}.
Context (k : RelayKeys) (r : bytes) (x : X509) (signPriv challenge : bytes) (remote local : option bytes) (exporter : option (bytes -> bytes -> Z -> option bytes)).
Context (relayNow clientNow : Z) (cfg : LinkClient.Config).
Context (Hgood : good_keys k r x) (Hsp : length signPriv = 64%nat) (Hlc : length challenge = 32%nat) (Hbc : Forall is_byte challenge).
Context (Hremote : addr_ok remote) (Hlocal : addr_ok local).
Context (Hvalid : NotBefore x <= clientNow <= NotAfter x) (Hsoon : clientNow <= of_hours (Conversion.UnixHoursUint32 (Unix (relayNow + lifetime)))).
Context (Hfp : LinkClient.ExpectedFingerprint cfg = [] \/ LinkClient.ExpectedFingerprint cfg = ToUpper (hex_encode (sha1 (rsaPublic r)))).
Context (Hid : LinkClient.ExpectedIdentity cfg = None \/ LinkClient.ExpectedIdentity cfg = Some (Ed25519Public k)).

Definition hello : bytes := Cell.wire 2 versions_cell.
Definition answer (certs : bytes) : bytes :=
  Cell.wire 2 versions_cell ++ Cell.wire 4 (Cell.mkCell 0 Cell.CmdCerts certs) ++ Cell.wire 4 (challenge_cell challenge) ++
  Cell.wire 4 (netinfo_cell (relay_netinfo relayNow remote local)).
Definition finish : bytes := Cell.wire 4 (netinfo_cell (client_netinfo clientNow)).

Definition client (input : bytes) := LinkClient.PerformHandshake cfg clientNow (LinkClient.NewHandshake input).
Definition relay (input : bytes) :=
  LinkRelay.HandleConnection (Some k) exporter relayNow (Some signPriv) challenge remote local (LinkRelay.NewLinkProtocolHandler input).

Lemma client_start input : LinkClient.sendVersions (LinkClient.NewHandshake input) = (LinkClient.set_wr hello (LinkClient.NewHandshake input), Ok tt).
Proof. unfold LinkClient.sendVersions. change (Cell.mkCell 0 Cell.CmdVersions _) with versions_cell. rewrite send_ok by apply versions_wf. done. Qed.

Lemma client_first : exists h, client [] = (h, Err (errReceive Cell.ErrReadCircID)) /\ LinkClient.wr h = hello.
Proof. unfold client, LinkClient.PerformHandshake. rewrite (bind_ok _ _ _ _ _ (client_start [])). by eexists. Qed.

Lemma relay_answers : exists certs logs, buildCERTSPayload (Some k) relayNow (Some signPriv) = Ok certs /\ forall tail,
  relay (hello ++ tail) = LinkRelay.receiveInitiatorFinish (Some k) exporter (LinkRelay.mkServerConn 5 false [] [] 4)
    (LinkRelay.mkHandler tail (answer certs) 4 (answer certs) hello logs).
Proof.
  destruct (certs_built k r x relayNow signPriv Hgood Hsp) as (certs & t4 & t5 & t7 & sig & Hb & Hbytes & Hlen & _).
  exists certs, (sha256 (Cell.wire 2 versions_cell ++ Cell.wire 4 (Cell.mkCell 0 Cell.CmdCerts certs) ++ Cell.wire 4 (challenge_cell challenge))). split; [done|]. intros tail.
  assert (Cell.cell_wf 4 (Cell.mkCell 0 Cell.CmdCerts certs)) as Hcw by (split_and!; [by right|done|done|done|done]).
  pose proof (challenge_wf 4 challenge ltac:(by right) Hlc Hbc) as Hch. pose proof (relay_netinfo_wf relayNow remote local Hremote Hlocal) as Hni.
  unfold relay, LinkRelay.HandleConnection. erewrite bind_ok by done. unfold LinkRelay.receiveVersions.
  rewrite (bind_ok _ _ _ (LinkRelay.mkHandler tail [] 2 [] hello []) [3; 4; 5]).
  2: { erewrite bind_ok by (apply (read_ok _ versions_cell tail); [apply versions_wf|done]). cbn [Cell.padded Cell.Command versions_cell]. change (Cell.padded versions_cell) with versions_cell.
    cbn [Cell.Command versions_cell Cell.Payload]. change (negb (Cell.CmdVersions =? Cell.CmdVersions)) with false. change (negb (len _ mod 2 =? 0)) with false. cbv iota.
    erewrite bind_ok by (apply note_ok, versions_wf). done. }
  change (LinkRelay.selectVersion [3; 4; 5]) with 5. change (5 =? 0) with false. cbv iota zeta.
  erewrite bind_ok by (unfold LinkRelay.sendVersions; change (flat_map PutUint16 [3; 4; 5]) with [0; 3; 0; 4; 0; 5]; apply relay_write_ok, versions_wf).
  erewrite bind_ok by done. erewrite bind_ok by done.
  erewrite bind_ok by (unfold LinkRelay.sendCerts; rewrite Hb; by apply relay_write_ok).
  erewrite bind_ok by (by apply (relay_write_ok _ (challenge_cell challenge))). erewrite bind_ok by done.
  erewrite bind_ok by (by apply (relay_write_ok _ (netinfo_cell (relay_netinfo relayNow remote local)))).
  f_equal. unfold answer, appended. cbn [LinkRelay.rd LinkRelay.wr LinkRelay.outLog LinkRelay.inLog LinkRelay.slog LinkRelay.circIDLen]. f_equal; rewrite <- ?app_assoc; done.
Qed.

Lemma made_relay_identity t4 t5 t7 sig expires :
  ValidateRelayIdentity (made_certs k x signPriv t4 t5 t7 sig expires) (LinkClient.ExpectedFingerprint cfg) (default [] (LinkClient.ExpectedIdentity cfg)) = None.
Proof.
  unfold ValidateRelayIdentity. rewrite (made_keys k r x), (made_identity k r x) by done.
  assert (forall fp : bytes, (if (length fp =? 0)%nat then None else if negb (bool_decide (fp = fp)) then Some errFingerprint else None) = (None : option LinkCerts.error)) as Hrefl.
  { intros fp. rewrite bool_decide_true by done. by destruct (_ =? 0)%nat. }
  assert ((if (length (LinkClient.ExpectedFingerprint cfg) =? 0)%nat then None
    else if negb (bool_decide (ToUpper (hex_encode (sha1 (rsaPublic r))) = LinkClient.ExpectedFingerprint cfg)) then Some errFingerprint else None) = (None : option LinkCerts.error)) as ->.
  { destruct Hfp as [-> | ->]; [done|apply Hrefl]. }
  destruct Hid as [-> | ->]; cbn [from_option id]; [done|]. rewrite (good_ed _ _ _ Hgood), (ed_public_length _ (good_priv _ _ _ Hgood)). cbn [Nat.eqb negb]. by rewrite bool_decide_true.
Qed.

Lemma client_completes certs : buildCERTSPayload (Some k) relayNow (Some signPriv) = Ok certs ->
  client (answer certs) = (LinkClient.mkHandshake [] (hello ++ finish) 4 5 LinkClient.DefaultHandshakeTimeout, Ok tt).
Proof.
  intros Hb. destruct (certs_built k r x relayNow signPriv Hgood Hsp) as (certs' & t4 & t5 & t7 & sig & Hb' & Hbytes & Hlen & Hsig & Hls & Hparse).
  rewrite Hb in Hb'. injection Hb' as <-. unfold client, LinkClient.PerformHandshake. rewrite (bind_ok _ _ _ _ _ (client_start _)).
  assert (Cell.cell_wf 4 (Cell.mkCell 0 Cell.CmdCerts certs)) as Hcw by (split_and!; [by right|done|done|done|done]).
  pose proof (challenge_wf 4 challenge ltac:(by right) Hlc Hbc) as Hch. pose proof (relay_netinfo_wf relayNow remote local Hremote Hlocal) as Hni.
  set (rest := Cell.wire 4 (Cell.mkCell 0 Cell.CmdCerts certs) ++ Cell.wire 4 (challenge_cell challenge) ++ Cell.wire 4 (netinfo_cell (relay_netinfo relayNow remote local))).
  rewrite (bind_ok _ _ _ (LinkClient.mkHandshake rest hello 2 5 LinkClient.DefaultHandshakeTimeout) tt).
  2: { unfold LinkClient.receiveVersions. erewrite bind_ok by (apply (receive_ok _ versions_cell rest); [apply versions_wf|done]). done. }
  erewrite bind_ok by done. erewrite bind_ok by done. cbn [LinkClient.negotiatedVersion Z.leb Z.compare Pos.compare Pos.compare_cont LinkClient.SetCircIDLen Z.eqb Pos.eqb orb LinkClient.rd LinkClient.wr LinkClient.timeout].
  set (h := LinkClient.mkHandshake rest hello 4 5 _). set (ni := Cell.wire 4 (challenge_cell challenge) ++ Cell.wire 4 (netinfo_cell (relay_netinfo relayNow remote local))).
  assert (LinkClient.receiveCERTS cfg clientNow h = (LinkClient.set_rd ni h, Ok tt)) as Hcerts.
  { unfold LinkClient.receiveCERTS. erewrite bind_ok by (by apply (receive_stop _ _ (Cell.mkCell 0 Cell.CmdCerts certs) ni)).
    change (Cell.padded (Cell.mkCell 0 Cell.CmdCerts certs)) with (Cell.mkCell 0 Cell.CmdCerts certs). cbn [Cell.Command]. change (negb (Cell.CmdCerts =? Cell.CmdCerts)) with false. cbv iota.
    rewrite Hparse, (made_unexpired k r x), (made_signatures k r x), made_relay_identity by done. erewrite !bind_ok by done. by destruct (_ || _). }
  rewrite (bind_ok _ _ _ (LinkClient.set_rd ni h) (Ok tt)) by (unfold try; by rewrite Hcerts).
  erewrite bind_ok by (apply (send_ok (LinkClient.set_rd ni h) (netinfo_cell (client_netinfo clientNow))), client_netinfo_wf).
  unfold LinkClient.receiveNetinfo, bind at 1. erewrite (receive_pass _ _ (challenge_cell challenge)) by done.
  erewrite (receive_stop _ _ (netinfo_cell (relay_netinfo relayNow remote local)) []) by first [done|by rewrite app_nil_r]. done.
Qed.

Lemma relay_completes certs logs : LinkRelay.receiveInitiatorFinish (Some k) exporter (LinkRelay.mkServerConn 5 false [] [] 4)
    (LinkRelay.mkHandler finish (answer certs) 4 (answer certs) hello logs) =
  (LinkRelay.mkHandler [] (answer certs) 4 (answer certs) hello logs, Ok (LinkRelay.mkServerConn 5 false [] [] 4)).
Proof.
  unfold LinkRelay.receiveInitiatorFinish. cbn [LinkRelay.finish_loop]. erewrite bind_ok by (apply (read_ok _ (netinfo_cell (client_netinfo clientNow)) []); [apply client_netinfo_wf|by rewrite app_nil_r]).
  done.
Qed.

End Together.

(** ** Properties *)

(** C9: A relay's handshake that ends with an authenticated initiator has verified the
    initiator's signature: under a key certified by the Ed25519 identity and, through
    it, by the RSA key reported for the connection, over both identities, the relay's
    TLS certificate, the secret exported from this TLS session, and both transcripts,
    which are the bytes the relay sent up to its fresh challenge and the bytes it
    received from VERSIONS to AUTHENTICATE. *)
Theorem link_auth_sound `{LinkCrypto} (k : RelayKeys) export now signPriv challenge remote local input h' o :
  Forall is_byte input -> length challenge = 32%nat -> Forall is_byte challenge ->
  LinkRelay.HandleConnection (Some k) (Some export) now signPriv challenge remote local (LinkRelay.NewLinkProtocolHandler input) = (h', Ok o) ->
  LinkRelay.authenticated o = true ->
  exists before n after, let sent := before ++ Cell.wire n (challenge_cell challenge) in
    LinkRelay.wr h' = sent ++ after /\ proved k export input sent o.
Proof.
  intros Hb Hlc Hbc Hh Ho. unfold LinkRelay.HandleConnection in Hh. apply bind_inv in Hh as (h0 & [] & [= <-] & Hh).
  apply bind_inv in Hh as (h1 & versions & Hv & Hh). apply (relay_versions input) in Hv as (v & rest & Hwf & _ & Hi & _ & ->); [|done].
  assert (Forall is_byte rest) as Hbr by (rewrite Hi in Hb; by apply Forall_app in Hb as [_ ?]).
  destruct (LinkRelay.selectVersion versions =? 0); [done|]. apply bind_inv in Hh as (h2 & [] & Hs & Hh). apply write_inv in Hs as [b1 ->].
  set (w := if 4 <=? _ then 4 else 2) in Hh. assert (w = 2 \/ w = 4) as Hw by (unfold w; destruct (_ <=? _); auto).
  apply bind_inv in Hh as (h3 & [] & [= <-] & Hh). set (h3 := LinkRelay.setCircIDLen _ _) in Hh.
  assert (h3 = LinkRelay.mkHandler rest b1 w b1 (Cell.wire 2 v) []) as -> by (unfold h3, LinkRelay.setCircIDLen; by destruct Hw as [-> | ->]).
  assert (LinkRelay.circIDWidth (LinkRelay.mkHandler rest b1 w b1 (Cell.wire 2 v) []) = w) as Hcw by (by destruct Hw as [-> | ->]).
  apply bind_inv in Hh as (h4 & n & [= <- <-] & Hh). apply bind_inv in Hh as (h5 & [] & Hs & Hh). unfold LinkRelay.sendCerts in Hs.
  destruct (buildCERTSPayload _ _ _) as [certs|]; [|done]. apply write_inv in Hs as [b2 ->]. apply bind_inv in Hh as (h6 & [] & Hs & Hh).
  unfold LinkRelay.sendAuthChallenge in Hs. change (Cell.mkCell 0 Cell.CmdAuthChallenge _) with (challenge_cell challenge) in Hs.
  rewrite relay_write_ok in Hs by (apply challenge_wf; [apply relay_width_cases|done|done]). injection Hs as <-.
  apply bind_inv in Hh as (h7 & [] & [= <-] & Hh). apply bind_inv in Hh as (h8 & [] & Hs & Hh). apply write_inv in Hs as [b3 ->].
  unfold LinkRelay.receiveInitiatorFinish in Hh. pose proof (finish_wr _ _ _ _ _ _ _ _ Hh) as Hwr.
  cbn [appended LinkRelay.rd LinkRelay.wr LinkRelay.outLog LinkRelay.inLog LinkRelay.slog LinkRelay.circIDLen] in Hh, Hwr.
  change (LinkRelay.circIDWidth (appended _ _)) with (LinkRelay.circIDWidth (LinkRelay.mkHandler rest b1 w b1 (Cell.wire 2 v) [])) in Hh, Hwr. rewrite Hcw in Hh, Hwr.
  exists (b1 ++ b2), w, b3. cbv zeta. split; [by rewrite Hwr|].
  refine (finish_sound k export input _ w v _ [] None _ _ _ _ _ Hh _ eq_refl _ _ Ho); [exact Hbr| |done|done].
  split_and!; [done|unfold received_log; cbn; by rewrite app_nil_r|by destruct Hw as [-> | ->]].
Qed.

(** C11: When the expected fingerprint and Ed25519 identity of a relay are enforced, a
    handshake that succeeds has received a CERTS cell whose certificates, none of them
    expired, make a chain of verified signatures from the RSA key of that fingerprint
    to that identity; and the version is the highest of 3 to 5 in the peer's VERSIONS
    cell, whose circuit-id width the CERTS cell is read with. *)
Theorem strict_handshake_identity `{LinkCrypto} cfg now input h' u id :
  Forall is_byte input -> LinkClient.RequireCERTS cfg = true ->
  LinkClient.ExpectedFingerprint cfg <> [] -> LinkClient.ExpectedIdentity cfg = Some id -> length id = 32%nat ->
  LinkClient.PerformHandshake cfg now (LinkClient.NewHandshake input) = (h', Ok u) ->
  let ver := LinkClient.negotiatedVersion h' in
  exists v before certs rest c der,
    input = Cell.wire 2 v ++ before ++ Cell.wire (if 4 <=? ver then 4 else 2) certs ++ rest /\
    ver ∈ [3; 4; 5] /\ ver ∈ LinkClient.parse_versions (Cell.Payload v) /\
    (forall w, w ∈ LinkClient.parse_versions (Cell.Payload v) -> 3 <= w <= 5 -> w <= ver) /\
    ParseCERTSCell certs = Ok c /\ chain c der id /\ ToUpper (hex_encode (sha1 der)) = LinkClient.ExpectedFingerprint cfg /\ ValidateExpiration c now = None.
Proof.
  intros Hb Hreq Hfp Hid Hlid Hh ver. unfold LinkClient.PerformHandshake in Hh. apply bind_inv in Hh as (h1 & [] & Hs & Hh).
  unfold LinkClient.sendVersions, LinkClient.SendCell in Hs. destruct (Cell.EncodeLink _ _ _) as [w e]. injection Hs as <- He.
  apply bind_inv in Hh as (h2 & [] & Hv & Hh). apply (client_versions input) in Hv as (v & rest & Hi & Hne & ->); [|done|done|done].
  set (vs := LinkClient.parse_versions _) in *. assert (Forall is_byte rest) as Hbr by (rewrite Hi in Hb; by apply Forall_app in Hb as [_ ?]).
  apply bind_inv in Hh as (h3 & n & [= <- <-] & Hh). apply bind_inv in Hh as (h4 & [] & [= <-] & Hh). cbn [LinkClient.negotiatedVersion LinkClient.set_version] in Hh.
  set (wd := if 4 <=? _ then 4 else 2) in Hh. assert (wd = 2 \/ wd = 4) as Hw by (unfold wd; destruct (_ <=? _); auto). set (h4 := LinkClient.SetCircIDLen _ _) in Hh.
  assert (LinkClient.rd h4 = rest /\ LinkClient.circIDWidth h4 = wd /\ LinkClient.negotiatedVersion h4 = LinkClient.selectVersion vs) as (Hrd & Hcw & Hver)
    by (unfold h4, LinkClient.SetCircIDLen, LinkClient.circIDWidth; by destruct Hw as [-> | ->]).
  apply bind_inv in Hh as (h5 & r & Ht & Hh). unfold try in Ht. destruct (LinkClient.receiveCERTS cfg now h4) as [h6 r'] eqn:Hc. injection Ht as <- <-.
  destruct r' as [u'|e']; [|rewrite Hreq, orb_true_r in Hh; done]. apply (certs_inv _ _ _ _ _ id) in Hc; [|by rewrite Hrd|done|done|done|done].
  destruct Hc as (before & certs & rest' & c & der & Hr & -> & Hp & Hch & Hf & Hx). rewrite Hrd, Hcw in Hr.
  assert (Forall is_byte rest') as Hbr' by (rewrite Hr in Hbr; by apply Forall_app in Hbr as [_ [_ ?]%Forall_app]).
  apply netinfo_version in Hh; [|done]. cbn [LinkClient.negotiatedVersion LinkClient.set_rd] in Hh. rewrite Hver in Hh. unfold ver. rewrite Hh.
  exists v, before, certs, rest', c, der. rewrite Hi, Hr. destruct (select_from_spec _ _ _ (eq_refl (LinkClient.selectVersion vs)) Hne) as [H1 H2].
  split_and!; try done; [|by intros w' Hw' Hrange; apply select_highest]. clear -H1. rewrite !elem_of_cons in *. tauto.
Qed.

(** C10: A client and a relay of this program complete the handshake, in four turns: the
    client's VERSIONS; the relay's VERSIONS, CERTS, AUTH_CHALLENGE and NETINFO, made
    with no more than that; the client's NETINFO, after it has checked the
    certificates against whatever it expects of the relay; and the relay is done.
    Both have version 5 and four-byte circuit ids, and nothing is left unread.  The
    two clocks may differ as long as the certificates are valid on the client's. *)
Theorem link_handshake_completes `{LinkCrypto, !LinkCryptoLaws _} k r x signPriv challenge remote local exporter relayNow clientNow cfg :
  good_keys k r x -> length signPriv = 64%nat -> length challenge = 32%nat -> Forall is_byte challenge -> addr_ok remote -> addr_ok local ->
  NotBefore x <= clientNow <= NotAfter x -> clientNow <= of_hours (Conversion.UnixHoursUint32 (Unix (relayNow + lifetime))) ->
  LinkClient.ExpectedFingerprint cfg = [] \/ LinkClient.ExpectedFingerprint cfg = ToUpper (hex_encode (sha1 (rsaPublic r))) ->
  LinkClient.ExpectedIdentity cfg = None \/ LinkClient.ExpectedIdentity cfg = Some (Ed25519Public k) ->
  let client := client clientNow cfg in
  let relay := relay k signPriv challenge remote local exporter relayNow in
  exists answer,
    (exists h, client [] = (h, Err (errReceive Cell.ErrReadCircID)) /\ LinkClient.wr h = hello) /\
    (exists h, relay hello = (h, Err (errReceive Cell.ErrReadCircID)) /\ LinkRelay.wr h = answer) /\
    (exists h, client answer = (h, Ok tt) /\ LinkClient.wr h = hello ++ finish clientNow /\ LinkClient.rd h = [] /\
       LinkClient.negotiatedVersion h = 5 /\ LinkClient.circIDWidth h = 4) /\
    (exists h o, relay (hello ++ finish clientNow) = (h, Ok o) /\ LinkRelay.wr h = answer /\ LinkRelay.rd h = [] /\
       LinkRelay.serverVersion o = 5 /\ LinkRelay.connWidth o = 4 /\ LinkRelay.authenticated o = false).
Proof.
  intros Hg Hsp Hlc Hbc Hr Hl Hv Hs Hfp Hid cl rl.
  destruct (relay_answers k r x signPriv challenge remote local exporter relayNow Hg Hsp Hlc Hbc Hr Hl) as (certs & logs & Hb & Hrel).
  exists (answer challenge remote local relayNow certs). split_and!.
  - apply client_first.
  - pose proof (Hrel []) as Hrel0. rewrite app_nil_r in Hrel0. unfold rl. rewrite Hrel0. by eexists.
  - unfold cl. rewrite (client_completes k r x signPriv challenge remote local relayNow clientNow cfg) by done. by eexists.
  - unfold rl. rewrite Hrel, relay_completes. by do 2 eexists.
Qed.

(** *** A sample *)

Definition pad (n : nat) (l : bytes) : bytes := map u8 (take n (l ++ zeros n)).
Definition checksum (l : bytes) : Z := fold_right Z.add 0 l.

(** Signatures that show the key and a checksum of the message. *)
Global Instance sample_crypto : LinkCrypto := {
  ParseCertificate der := match der with [48; key] => Some (mkX509 0 (10 ^ 20) (Some [key])) | _ => None end;
  sha1 m := pad 20 [checksum m];
  sha256 m := pad 32 [checksum m];
  edPublic key := pad 32 key;
  edSign key m := pad 64 (pad 32 key ++ [checksum m]);
  edVerify pub m sig := bool_decide (sig = pad 64 (pub ++ [checksum m]));
  rsaPublic key := key;
  rsaSize _ := 128;
  rsaSign key d := Some (pad 128 (key ++ [checksum d]));
  rsaVerify pub d sig := bool_decide (sig = pad 128 (pub ++ [checksum d]));
}.

Lemma length_pad n l : length (pad n l) = n.
Proof. unfold pad. rewrite length_map, length_take, length_app. change (zeros n) with (replicate n 0). rewrite length_replicate. lia. Qed.

Lemma pad_bytes n l : Forall is_byte (pad n l).
Proof. apply Forall_map. apply Forall_true. intros b. apply Z.mod_pos_bound. lia. Qed.

Global Instance sample_laws : LinkCryptoLaws sample_crypto.
Proof.
  split; intros; try apply length_pad; try apply pad_bytes.
  - by apply bool_decide_true.
  - unfold rsaSign in *. cbn [sample_crypto] in *. simplify_eq. by apply bool_decide_true.
  - unfold rsaSign in *. cbn [sample_crypto] in *. simplify_eq. apply pad_bytes.
Qed.

Definition sample_keys (n : Z) : RelayKeys := mkKeys [48; n] (Some [n]) (pad 64 [n + 1]) (pad 32 (pad 64 [n + 1])).
Definition sample_x509 (n : Z) : X509 := mkX509 0 (10 ^ 20) (Some [n]).

Lemma sample_good n : is_byte n -> good_keys (sample_keys n) [n] (sample_x509 n).
Proof.
  intros Hn. split; try done.
  - cbn [TLSCert sample_keys]. by rewrite !Forall_cons, Forall_nil.
  - intros d. eexists. split; [done|]. unfold len. by rewrite length_pad.
Qed.

Definition sample_config : LinkClient.Config :=
  LinkClient.mkConfig (Some (Ed25519Public (sample_keys 7))) (ToUpper (hex_encode (sha1 [7]))) true.
Definition sample_challenge : bytes := pad 32 [1; 2; 3].
Definition sample_signing : bytes := pad 64 [8; 8].

Lemma link_handshake_completes_witness :
  exists answer h, client 1000 sample_config answer = (h, Ok tt) /\
    LinkRelay.wr (fst (relay (sample_keys 7) sample_signing sample_challenge None (Some [192; 0; 2; 1]) None 500 hello)) = answer.
Proof.
  destruct (link_handshake_completes (sample_keys 7) [7] (sample_x509 7) sample_signing sample_challenge None (Some [192; 0; 2; 1]) None 500 1000 sample_config)
    as (a & _ & (h1 & E1 & Ha) & (h2 & E2 & _) & _).
  - by apply sample_good.
  - apply length_pad.
  - apply length_pad.
  - apply pad_bytes.
  - apply Forall_nil; done.
  - by repeat constructor.
  - split; apply Z.leb_le; vm_compute; reflexivity.
  - apply Z.leb_le; vm_compute; reflexivity.
  - right. reflexivity.
  - right. reflexivity.
  - exists a, h2. split; [exact E2|]. rewrite E1. exact Ha.
Defined.

Definition sample_answer : bytes :=
  answer sample_challenge None (Some [192; 0; 2; 1]) 500
    (match buildCERTSPayload (Some (sample_keys 7)) 500 (Some sample_signing) with Ok c => c | Err _ => [] end).

Lemma strict_handshake_identity_witness :
  exists c der, chain c der (pad 32 [8]) /\ ToUpper (hex_encode (sha1 der)) = ToUpper (hex_encode (sha1 [7])).
Proof.
  assert (Ed25519Public (sample_keys 7) = pad 32 [8]) as Hk by (vm_compute; reflexivity).
  destruct (LinkClient.PerformHandshake sample_config 1000 (LinkClient.NewHandshake sample_answer)) as [h r] eqn:E.
  assert (r = Ok tt) as -> by (change r with (snd (h, r)); rewrite <- E; vm_compute; reflexivity).
  destruct (strict_handshake_identity sample_config 1000 sample_answer h tt (pad 32 [8])) as (v & before & certs & rest & c & der & _ & _ & _ & _ & _ & Hc & Hf & _).
  - apply (bool_decide_unpack _). vm_compute. exact I.
  - reflexivity.
  - vm_compute. discriminate.
  - vm_compute. reflexivity.
  - apply length_pad.
  - exact E.
  - exists c, der. split; [exact Hc|exact Hf].
Defined.

(** An initiator with the keys of relay 9: its certificates, and what it signs. *)
Definition sample_auth_key : bytes := pad 64 [3; 3].
Definition sample_initiator : bytes :=
  let ok (m : result LinkCerts.error bytes) := match m with Ok b => b | Err _ => [] end in
  ok (encodeCERTSPayload [(CertTypeRSAID, [48; 9]); (CertTypeEd25519Signing, ok (buildIdentitySigningCert (pad 64 [10]) (edPublic sample_signing) lifetime));
    (CertTypeEd25519Auth, ok (buildLinkAuthCert sample_signing (edPublic sample_auth_key) lifetime));
    (CertTypeEd25519Identity, ok (EncodeRSAEd25519CrossCert (pad 32 [10]) (Some [9]) lifetime))]).
Definition sample_export (label context : bytes) (n : Z) : option bytes := Some (pad 32 [checksum label + checksum context + n]).

Definition sample_sent : bytes :=
  LinkRelay.wr (fst ((let* _ := LinkRelay.receiveVersions in let* _ := LinkRelay.sendVersions in let* _ := modify (LinkRelay.setCircIDLen 4) in
    let* _ := LinkRelay.sendCerts (Some (sample_keys 7)) 500 (Some sample_signing) in LinkRelay.sendAuthChallenge sample_challenge) (LinkRelay.NewLinkProtocolHandler hello))).
Definition sample_input : bytes :=
  let certs := Cell.wire 4 (Cell.mkCell 0 Cell.CmdCerts sample_initiator) in
  let signed := auth_statement (sample_keys 7) [7] [9] (pad 32 [10]) sample_sent (hello ++ certs)
    (pad 32 [checksum LinkRelay.authTLSExporterLabel + checksum (sha256 [9]) + 32]) (zeros 24) in
  hello ++ certs ++ Cell.wire 4 (Cell.mkCell 0 Cell.CmdAuthenticate (PutUint16 3 ++ PutUint16 352 ++ signed ++ edSign sample_auth_key signed)) ++ finish 1000.

Lemma link_auth_sound_witness :
  exists o sent, proved (sample_keys 7) sample_export sample_input sent o /\ LinkRelay.edID o = pad 32 [10] /\ LinkRelay.rsaFP o = ToUpper (hex_encode (sha1 [9])).
Proof.
  destruct (LinkRelay.HandleConnection (Some (sample_keys 7)) (Some sample_export) 500 (Some sample_signing) sample_challenge None None
    (LinkRelay.NewLinkProtocolHandler sample_input)) as [h r] eqn:E.
  set (o := LinkRelay.mkServerConn 5 true (ToUpper (hex_encode (sha1 [9]))) (pad 32 [10]) 4).
  assert (r = Ok o) as -> by (change r with (snd (h, r)); rewrite <- E; vm_compute; reflexivity).
  destruct (link_auth_sound (sample_keys 7) sample_export 500 (Some sample_signing) sample_challenge None None sample_input h o) as (before & n & after & _ & Hp).
  - apply (bool_decide_unpack _). vm_compute. exact I.
  - apply length_pad.
  - apply pad_bytes.
  - exact E.
  - reflexivity.
  - exists o. eexists. split; [exact Hp|split; reflexivity].
Defined.

End LinkHandshake.
