(* ===== verification/ServerCircuit.v ===== *)
(** * Circuits at a relay (pkg/relay/circuit_handler.go, pkg/relay/hsintro.go)

    The record a relay keeps for a circuit, and the two ways a handler answers on
    the connection a cell came from: a relay message of its own, encrypted with
    the circuit's keys, and a DESTROY cell.  A connection is a number; [sends] says
    whether writing a cell to it succeeds.  What is written is the list of cells in
    the result.  AES and SHA-1 are the operations of the class [Primitives]. *)

From S2P Require Import Prelude Conversion Cell RelayCell CGO Onion RelayCrypto.
Import Cell(Cell, mkCell, CircID, Command, Payload).

Module ServerCircuit.

Class Primitives := {
  aesEncrypt : bytes -> bytes -> bytes;
  aesDecrypt : bytes -> bytes -> bytes;
  sha1 : bytes -> bytes;
}.

(** Timestamps and the cancellation function are left out: nothing reads the
    former, and [closed] is what the context of the circuit reports.  The pointer
    to a joined circuit is the number of an object. *)
Record ServerCircuit := mkCircuit {
  CircuitID : Z;
  KeyMaterial : bytes;
  crypto : option RelayCrypto.circuitCrypto;
  closed : bool;
  ccEnabled : bool;
  sendmeInc : Z;
  circNonce : bytes;
  introAuth : bytes;
  rendCookie : bytes;
  didExtend : bool;
  linkAuthed : bool;
  peerRSA : bytes;
  peerEd : bytes;
  joinedCirc : option nat;
  joinedConn : option Z;
}.

Definition set_crypto (c : ServerCircuit) (cc : RelayCrypto.circuitCrypto) : ServerCircuit :=
  mkCircuit (CircuitID c) (KeyMaterial c) (Some cc) (closed c) (ccEnabled c) (sendmeInc c) (circNonce c) (introAuth c)
    (rendCookie c) (didExtend c) (linkAuthed c) (peerRSA c) (peerEd c) (joinedCirc c) (joinedConn c).
Definition set_closed (c : ServerCircuit) : ServerCircuit :=
  mkCircuit (CircuitID c) (KeyMaterial c) (crypto c) true (ccEnabled c) (sendmeInc c) (circNonce c) (introAuth c)
    (rendCookie c) (didExtend c) (linkAuthed c) (peerRSA c) (peerEd c) (joinedCirc c) (joinedConn c).
Definition set_introAuth (c : ServerCircuit) (a : bytes) : ServerCircuit :=
  mkCircuit (CircuitID c) (KeyMaterial c) (crypto c) (closed c) (ccEnabled c) (sendmeInc c) (circNonce c) a
    (rendCookie c) (didExtend c) (linkAuthed c) (peerRSA c) (peerEd c) (joinedCirc c) (joinedConn c).
Definition set_rendCookie (c : ServerCircuit) (k : bytes) : ServerCircuit :=
  mkCircuit (CircuitID c) (KeyMaterial c) (crypto c) (closed c) (ccEnabled c) (sendmeInc c) (circNonce c) (introAuth c)
    k (didExtend c) (linkAuthed c) (peerRSA c) (peerEd c) (joinedCirc c) (joinedConn c).
Definition set_didExtend (c : ServerCircuit) : ServerCircuit :=
  mkCircuit (CircuitID c) (KeyMaterial c) (crypto c) (closed c) (ccEnabled c) (sendmeInc c) (circNonce c) (introAuth c)
    (rendCookie c) true (linkAuthed c) (peerRSA c) (peerEd c) (joinedCirc c) (joinedConn c).
Definition set_joined (c : ServerCircuit) (j : option nat) (k : option Z) : ServerCircuit :=
  mkCircuit (CircuitID c) (KeyMaterial c) (crypto c) (closed c) (ccEnabled c) (sendmeInc c) (circNonce c) (introAuth c)
    (rendCookie c) (didExtend c) (linkAuthed c) (peerRSA c) (peerEd c) j k.

(** [circ.crypto.usesCGO()], with its nil guard. *)
Definition speaksCGO (c : ServerCircuit) : bool :=
  match crypto c with Some cc => RelayCrypto.usesCGO cc | None => false end.

Inductive error :=
| errNoReply
| errNewCell (e : RelayCell.error)
| errCryptoGone
| errOriginate (e : RelayCrypto.error)
| errWrite.

(** What a handler writes: cells with the connection they go to. *)
Abbreviation output := (list (Z * Cell)).

Section Replies.
Context `{Primitives}.
Context (sends : Z -> Cell -> bool).

(** [c.Encode(conn)]; a fixed-size cell whose payload is too long is refused. *)
Definition write_cell (conn : Z) (c : Cell) : output * option error :=
  if (Cell.Encode c []).2 then ([], Some errWrite)
  else if sends conn c then ([(conn, c)], None) else ([], Some errWrite).

Definition sendDestroyCell (conn : Z) (circuitID reason : Z) : output * option error :=
  write_cell conn (mkCell circuitID Cell.CmdDestroy [reason]).

(** The body shared by [sendRelayToClient], [sendStreamDoSEnd] and
    [rejectExitAttempt]. *)
Definition originate_reply (circ : ServerCircuit) (conn : Z) (cc : RelayCrypto.circuitCrypto) (streamID cmd : Z)
    (data : bytes) : ServerCircuit * output * option error :=
  match RelayCell.NewRelayCell streamID cmd data with
  | Err e => (circ, [], Some (errNewCell e))
  | Ok rc =>
      match RelayCrypto.originateRelay aesEncrypt aesDecrypt sha1 cc rc with
      | (cc, Err e) => (set_crypto circ cc, [], Some (errOriginate e))
      | (cc, Ok enc) =>
          let '(out, e) := write_cell conn (mkCell (CircuitID circ) Cell.CmdRelay enc) in
          (set_crypto circ cc, out, e)
      end
  end.

Definition sendRelayToClient (circ : ServerCircuit) (clientConn : option Z) (streamID cmd : Z) (data : bytes) :
    ServerCircuit * output * option error :=
  match clientConn, crypto circ with
  | Some conn, Some cc => originate_reply circ conn cc streamID cmd data
  | _, _ => (circ, [], Some errNoReply)
  end.

End Replies.

End ServerCircuit.
