(* ===== verification/ExitStreams.v ===== *)
(** * Exit streams (pkg/relay/exit_stream.go, pkg/relay/bandwidth.go)

    The exit side of a relay: streams to remote hosts, their windows, the circuit
    windows and SENDMEs in both directions, and the gate that limits the number of
    connections.  Streams are objects; the table maps (circuit, stream id) to them.
    A handler runs with the circuit it belongs to and returns the cells it writes.
    Where it lets go of the lock for the network (a dial, a write to the remote
    host), what the rest of the program does meanwhile is an argument.  Name
    resolution, dialling, the rate limiter and the exit policy's verdict are
    arguments too; statistics are left out.  Windows and counters are ints far from
    their limits. *)

From Stdlib Require Import String.
From S2P Require Import Prelude Conversion Cell RelayCell CellPayloads CCParams Vegas Onion RelayCrypto GoStrings GoNet ServerCircuit.
Import GoStrings.
Import Cell(Cell, mkCell).
Import ServerCircuit(ServerCircuit, CircuitID, crypto, closed, ccEnabled, set_crypto, speaksCGO, Primitives,
  aesEncrypt, aesDecrypt, sha1, write_cell).

Module ExitStreams.

Definition exitCircWindowInit : Z := 1000.
Definition exitStreamWindowInit : Z := 500.
Definition exitCircSendmeInc : Z := 100.
Definition exitStreamSendmeInc : Z := 50.
Definition exitMaxStreamsPerCirc : Z := 100.
Definition exitMaxStreamOutWindow : Z := 1000.
Definition beginFlagIPv6OK : Z := 1.
Definition beginFlagIPv4NotOK : Z := 2.
Definition beginFlagIPv6Preferred : Z := 4.
Definition ccSendmeIncDefault : Z := 31.
(** in nanoseconds *)
Definition exitOrconnSlowWrite : Z := 100 * 1000000.

Record circFlow := mkCircFlow { cc : bool; sendmeInc : Z; vegas : option Vegas.vegasState }.

Record exitSendmePending := mkPending { digest : bytes; sentAt : option Z }.

Record orconnWriteStats := mkWrites { waiters : Z; lastNs : Z }.

Definition begin (s : orconnWriteStats) : orconnWriteStats := mkWrites (waiters s + 1) (lastNs s).
Definition end_ (s : orconnWriteStats) (d : Z) : orconnWriteStats := mkWrites (waiters s - 1) d.
Definition WriteBlocked (s : orconnWriteStats) : orconnWriteStats * bool :=
  if 1 <? waiters s then (s, true)
  else (mkWrites (waiters s) 0, exitOrconnSlowWrite <=? lastNs s).

(** [conn] is the connection to the remote host. *)
Record exitStream := mkStream {
  conn : Z;
  packageWindow : Z;
  deliverWindow : Z;
  deliverCount : Z;
  halfClosed : bool;
  held : bool;
  exitPort : Z;
}.

(** ** The gate (pkg/relay/bandwidth.go) *)

Record exitConnGate := mkGate { cur : Z; max : Z }.

Definition newExitConnGate (max : Z) : exitConnGate := mkGate 0 (if max <=? 0 then 1024 else max).

Definition acquire (g : exitConnGate) : exitConnGate * bool :=
  if max g <=? cur g then (g, false) else (mkGate (cur g + 1) (max g), true).

Definition release (g : exitConnGate) : exitConnGate :=
  if 0 <? cur g then mkGate (cur g - 1) (max g) else g.

(** ** The manager *)

Record ExitStreamManager := mkManager {
  objs : gmap nat exitStream;       (** the stream objects, [nextObj] the next free number *)
  nextObj : nat;
  streams : gmap (Z * Z) nat;
  circOutWindow : gmap Z Z;
  circInCount : gmap Z Z;
  circStreams : gmap Z Z;
  circCC : gmap Z circFlow;
  lastFwdDigest : gmap Z bytes;
  circExpectedSendme : gmap Z (list exitSendmePending);
  orWrites : gmap Z orconnWriteStats;
  ccParams : CCParams.CCParams;
  gate : exitConnGate;
}.

Definition NewExitStreamManager : ExitStreamManager :=
  mkManager ∅ 0 ∅ ∅ ∅ ∅ ∅ ∅ ∅ ∅ CCParams.DefaultCCParams (newExitConnGate 1024).

(** Field updates. *)
Definition set_objs (m : ExitStreamManager) (o : gmap nat exitStream) : ExitStreamManager :=
  mkManager o (nextObj m) (streams m) (circOutWindow m) (circInCount m) (circStreams m) (circCC m) (lastFwdDigest m)
    (circExpectedSendme m) (orWrites m) (ccParams m) (gate m).
Definition set_streams (m : ExitStreamManager) (s : gmap (Z * Z) nat) (n : gmap Z Z) : ExitStreamManager :=
  mkManager (objs m) (nextObj m) s (circOutWindow m) (circInCount m) n (circCC m) (lastFwdDigest m)
    (circExpectedSendme m) (orWrites m) (ccParams m) (gate m).
Definition set_out (m : ExitStreamManager) (c : Z) (w : Z) : ExitStreamManager :=
  mkManager (objs m) (nextObj m) (streams m) (<[c := w]> (circOutWindow m)) (circInCount m) (circStreams m) (circCC m)
    (lastFwdDigest m) (circExpectedSendme m) (orWrites m) (ccParams m) (gate m).
Definition set_in (m : ExitStreamManager) (c : Z) (n : Z) : ExitStreamManager :=
  mkManager (objs m) (nextObj m) (streams m) (circOutWindow m) (<[c := n]> (circInCount m)) (circStreams m) (circCC m)
    (lastFwdDigest m) (circExpectedSendme m) (orWrites m) (ccParams m) (gate m).
Definition set_cc (m : ExitStreamManager) (c : Z) (f : circFlow) : ExitStreamManager :=
  mkManager (objs m) (nextObj m) (streams m) (circOutWindow m) (circInCount m) (circStreams m) (<[c := f]> (circCC m))
    (lastFwdDigest m) (circExpectedSendme m) (orWrites m) (ccParams m) (gate m).
Definition set_digest (m : ExitStreamManager) (c : Z) (d : bytes) : ExitStreamManager :=
  mkManager (objs m) (nextObj m) (streams m) (circOutWindow m) (circInCount m) (circStreams m) (circCC m)
    (<[c := d]> (lastFwdDigest m)) (circExpectedSendme m) (orWrites m) (ccParams m) (gate m).
Definition set_expected (m : ExitStreamManager) (c : Z) (q : list exitSendmePending) : ExitStreamManager :=
  mkManager (objs m) (nextObj m) (streams m) (circOutWindow m) (circInCount m) (circStreams m) (circCC m)
    (lastFwdDigest m) (<[c := q]> (circExpectedSendme m)) (orWrites m) (ccParams m) (gate m).
Definition set_writes (m : ExitStreamManager) (c : Z) (s : orconnWriteStats) : ExitStreamManager :=
  mkManager (objs m) (nextObj m) (streams m) (circOutWindow m) (circInCount m) (circStreams m) (circCC m)
    (lastFwdDigest m) (circExpectedSendme m) (<[c := s]> (orWrites m)) (ccParams m) (gate m).
Definition set_params (m : ExitStreamManager) (p : CCParams.CCParams) : ExitStreamManager :=
  mkManager (objs m) (nextObj m) (streams m) (circOutWindow m) (circInCount m) (circStreams m) (circCC m)
    (lastFwdDigest m) (circExpectedSendme m) (orWrites m) p (gate m).
Definition set_gate (m : ExitStreamManager) (g : exitConnGate) : ExitStreamManager :=
  mkManager (objs m) (nextObj m) (streams m) (circOutWindow m) (circInCount m) (circStreams m) (circCC m)
    (lastFwdDigest m) (circExpectedSendme m) (orWrites m) (ccParams m) g.

(** A Go map read gives 0 for a missing key. *)
Definition count (m : gmap Z Z) (c : Z) : Z := default 0 (m !! c).

(** The stream object of a key, and a change of it. *)
Definition lookup_stream (m : ExitStreamManager) (key : Z * Z) : option (nat * exitStream) :=
  match streams m !! key with
  | Some o => match objs m !! o with Some es => Some (o, es) | None => None end
  | None => None
  end.
Definition update_stream (m : ExitStreamManager) (o : nat) (es : exitStream) : ExitStreamManager :=
  set_objs m (<[o := es]> (objs m)).

Definition SetMaxExitConns (m : ExitStreamManager) (n : Z) : ExitStreamManager := set_gate m (newExitConnGate n).
Definition SetCCParams (m : ExitStreamManager) (p : CCParams.CCParams) : ExitStreamManager := set_params m p.

Definition NoteFwdDigest (m : ExitStreamManager) (circID : Z) (digest : bytes) : ExitStreamManager :=
  if negb (len digest =? Sendme.SendmeV1DigestLen) && negb (len digest =? Sendme.SendmeCGOTagLen) then m
  else set_digest m circID digest.

Definition ensureCCLocked (m : ExitStreamManager) (circID inc : Z) : ExitStreamManager :=
  let inc := if inc <=? 0 then ccSendmeIncDefault else inc in
  if match circCC m !! circID with Some f => match vegas f with Some _ => true | None => false end | None => false end
  then m
  else
    let v := Vegas.newVegasState (ccParams m) inc in
    let m := set_cc m circID (mkCircFlow true inc (Some v)) in
    match circOutWindow m !! circID with
    | Some _ => m
    | None => set_out m circID (Vegas.PackageWindow (Some v))
    end.

Definition NoteCircuitFlow (m : ExitStreamManager) (circID : Z) (cc : bool) (inc : Z) : ExitStreamManager :=
  if cc then ensureCCLocked m circID inc
  else set_cc m circID (mkCircFlow false (if inc <=? 0 then exitCircSendmeInc else inc) None).

Definition flowOf (m : ExitStreamManager) (circID : Z) : circFlow :=
  default (mkCircFlow false exitCircSendmeInc None) (circCC m !! circID).

Definition orWriteLocked (m : ExitStreamManager) (circID : Z) : ExitStreamManager * orconnWriteStats :=
  match orWrites m !! circID with
  | Some s => (m, s)
  | None => let s := mkWrites 0 0 in (set_writes m circID s, s)
  end.
Definition orWriteOf := orWriteLocked.

(** Releases the object's place at the gate once; cancels its pump and closes its
    connection. *)
Definition teardown (m : ExitStreamManager) (o : nat) : ExitStreamManager :=
  match objs m !! o with
  | None => m
  | Some es =>
      if held es then
        set_gate (update_stream m o
          (mkStream (conn es) (packageWindow es) (deliverWindow es) (deliverCount es) (halfClosed es) false (exitPort es)))
          (release (gate m))
      else m
  end.

Definition CloseCircuit (m : ExitStreamManager) (circID : Z) : ExitStreamManager :=
  let toClose := (map_to_list (filter (fun kv => kv.1.1 = circID) (streams m))).*2 in
  let m := mkManager (objs m) (nextObj m) (filter (fun kv => kv.1.1 <> circID) (streams m))
             (delete circID (circOutWindow m)) (delete circID (circInCount m)) (delete circID (circStreams m))
             (delete circID (circCC m)) (delete circID (lastFwdDigest m)) (delete circID (circExpectedSendme m))
             (delete circID (orWrites m)) (ccParams m) (gate m) in
  foldl teardown m toClose.

Definition CloseAll (m : ExitStreamManager) : ExitStreamManager :=
  let all := (map_to_list (streams m)).*2 in
  let m := mkManager (objs m) (nextObj m) ∅ ∅ ∅ ∅ ∅ ∅ ∅ ∅ (ccParams m) (gate m) in
  foldl teardown m all.

(** [m.circStreams[circID]--] when it is positive. *)
Definition drop_count (m : ExitStreamManager) (circID : Z) : gmap Z Z :=
  if 0 <? count (circStreams m) circID then <[circID := count (circStreams m) circID - 1]> (circStreams m)
  else circStreams m.

Definition removeStream (m : ExitStreamManager) (circID streamID : Z) : ExitStreamManager * option nat :=
  match streams m !! (circID, streamID) with
  | None => (m, None)
  | Some o => (set_streams m (delete (circID, streamID) (streams m)) (drop_count m circID), Some o)
  end.

(** The object is created and entered into the table. *)
Definition add_stream (m : ExitStreamManager) (key : Z * Z) (es : exitStream) : ExitStreamManager :=
  mkManager (<[nextObj m := es]> (objs m)) (S (nextObj m)) (<[key := nextObj m]> (streams m)) (circOutWindow m)
    (circInCount m) (circStreams m) (circCC m) (lastFwdDigest m) (circExpectedSendme m) (orWrites m) (ccParams m) (gate m).

(** ** SENDMEs for what the exit sends *)

Definition tag_ok (tag : bytes) : bool := (len tag =? Sendme.SendmeV1DigestLen) || (len tag =? Sendme.SendmeCGOTagLen).

Definition expect (m : ExitStreamManager) (circID : Z) (tag : bytes) (now : Z) : ExitStreamManager :=
  set_expected m circID (default [] (circExpectedSendme m !! circID) ++ [mkPending tag (Some now)]).

Definition afterOutboundDATA (m : ExitStreamManager) (circID streamID : Z) (tag : bytes) (now : Z) : ExitStreamManager :=
  let flow := flowOf m circID in
  match vegas flow with
  | Some _ =>
      let v := Vegas.OnDataSent (vegas flow) in
      let m := set_cc m circID (mkCircFlow (cc flow) (sendmeInc flow) v) in
      let m := set_out m circID (Vegas.PackageWindow v) in
      if tag_ok tag && Vegas.ShouldRecordSendme v then expect m circID tag now else m
  | None =>
      let m := if 0 <? count (circOutWindow m) circID then set_out m circID (count (circOutWindow m) circID - 1) else m in
      let m := match lookup_stream m (circID, streamID) with
               | Some (o, es) =>
                   if 0 <? packageWindow es
                   then update_stream m o (mkStream (conn es) (packageWindow es - 1) (deliverWindow es) (deliverCount es)
                                             (halfClosed es) (held es) (exitPort es))
                   else m
               | None => m
               end in
      let inc := if sendmeInc flow <=? 0 then exitCircSendmeInc else sendmeInc flow in
      let sent := exitCircWindowInit - count (circOutWindow m) circID in
      if (0 <? sent) && (0 <? inc) && (Z.rem sent inc =? 0) && tag_ok tag then expect m circID tag now else m
  end.

Inductive error :=
| errUnknownStream
| errLimiter
| errSendme (e : Sendme.error)
| errSendmeV0
| errUnexpectedSendme
| errSendmeDigest
| errNewCell (e : RelayCell.error)
| errCryptoGone
| errOriginate (e : RelayCrypto.error)
| errWrite.

(** [broken] is the process-wide flag of the Vegas code.  [sentAt] is never the
    zero time, but the code asks. *)
Definition HandleSendme (broken : bool) (m : ExitStreamManager) (circID streamID : Z) (payload : bytes) (now : Z) :
    bool * ExitStreamManager * option error :=
  if negb (streamID =? 0) then
    match vegas (flowOf m circID) with
    | Some _ => (broken, m, None)
    | None =>
        match lookup_stream m (circID, streamID) with
        | None => (broken, m, None)
        | Some (o, es) =>
            if exitStreamWindowInit <=? packageWindow es then (broken, m, None)
            else
              let w := Z.min exitStreamWindowInit (packageWindow es + exitStreamSendmeInc) in
              (broken, update_stream m o (mkStream (conn es) w (deliverWindow es) (deliverCount es)
                                            (halfClosed es) (held es) (exitPort es)), None)
        end
    end
  else
    match Sendme.DecodeSendme payload with
    | Err e => (broken, m, Some (errSendme e))
    | Ok (version, dig) =>
        if version <? Sendme.SendmeVersion1 then (broken, m, Some errSendmeV0)
        else
          match default [] (circExpectedSendme m !! circID) with
          | [] => (broken, m, Some errUnexpectedSendme)
          | pending :: rest =>
              if negb (len (digest pending) =? len dig) || negb (Conversion.ConstantTimeCompare (digest pending) dig)
              then (broken, m, Some errSendmeDigest)
              else
                let m := set_expected m circID rest in
                let flow := flowOf m circID in
                match vegas flow with
                | Some _ =>
                    let rtt := match sentAt pending with Some t => Z.quot (i64 (now - t)) 1000 | None => 0 end in
                    let '(m, ws) := orWriteLocked m circID in
                    let '(ws, blocked) := WriteBlocked ws in
                    let m := set_writes m circID ws in
                    let v := Vegas.SetBlockedChan (vegas flow) blocked in
                    let '(broken, v) := Vegas.ProcessSendme broken v rtt in
                    let m := set_cc m circID (mkCircFlow (cc flow) (sendmeInc flow) v) in
                    (broken, set_out m circID (Vegas.PackageWindow v), None)
                | None =>
                    let w := count (circOutWindow m) circID in
                    if exitCircWindowInit <=? w then (broken, m, None)
                    else
                      let inc := if sendmeInc flow <=? 0 then exitCircSendmeInc else sendmeInc flow in
                      (broken, set_out m circID (Z.min exitCircWindowInit (w + inc)), None)
                end
          end
    end.

Definition exitRelayDataChunk (circ : ServerCircuit) : Z :=
  if speaksCGO circ then RelayCell.RelayCellMaxDataV1 RelayCell.RelayData
  else Z.of_nat (RelayCell.PayloadLen - RelayCell.RelayCellHeaderLen).

(** One look of [waitOutWindow]: [None] when the stream is gone, otherwise whether
    a cell may be sent now; if not, it looks again after 50 ms. *)
Definition waitOutWindow (m : ExitStreamManager) (circID streamID : Z) : option bool :=
  match lookup_stream m (circID, streamID) with
  | None => None
  | Some (_, es) =>
      Some match vegas (flowOf m circID) with
           | Some _ => 0 <? Vegas.PackageWindow (vegas (flowOf m circID))
           | None => (0 <? count (circOutWindow m) circID) && (0 <? packageWindow es)
           end
  end.

Section Handlers.
Context `{Primitives}.
(** Whether a cell can be written to a connection, and how long that takes. *)
Context (sends : Z -> Cell -> bool) (took : Z -> Cell -> Z).

Abbreviation output := (list (Z * Cell)).
Abbreviation world := (ExitStreamManager * ServerCircuit)%type.

(** The part of [sendRelay] under the circuit's lock. *)
Definition sendRelay_originate (circ : ServerCircuit) (streamID cmd : Z) (data : bytes) :
    ServerCircuit * result error (Cell * bytes) :=
  match RelayCell.NewRelayCell streamID cmd data with
  | Err e => (circ, Err (errNewCell e))
  | Ok rc =>
      match crypto circ with
      | None => (circ, Err errCryptoGone)
      | Some cc =>
          match RelayCrypto.originateRelayTag aesEncrypt aesDecrypt sha1 cc rc with
          | (cc, Err e) => (set_crypto circ cc, Err (errOriginate e))
          | (cc, Ok (enc, tag)) => (set_crypto circ cc, Ok (mkCell (CircuitID circ) Cell.CmdRelay enc, tag))
          end
      end
  end.

(** The part after it: writing, and the accounts of a DATA cell. *)
Definition sendRelay_write (m : ExitStreamManager) (circID : Z) (clientConn : Z) (streamID cmd : Z) (c : Cell)
    (tag : bytes) (now : Z) : ExitStreamManager * output * option error :=
  let '(m, ws) := orWriteOf m circID in
  let m := set_writes m circID (end_ (begin ws) (took clientConn c)) in
  match write_cell sends clientConn c with
  | (out, Some _) => (m, out, Some errWrite)
  | (out, None) =>
      ((if cmd =? RelayCell.RelayData then afterOutboundDATA m circID streamID tag now else m), out, None)
  end.

Definition sendRelay (w : world) (clientConn : Z) (streamID cmd : Z) (data : bytes) (now : Z) :
    world * output * option error :=
  let '(m, circ) := w in
  match sendRelay_originate circ streamID cmd data with
  | (circ, Err e) => ((m, circ), [], Some e)
  | (circ, Ok (c, tag)) =>
      let '(m, out, e) := sendRelay_write m (CircuitID circ) clientConn streamID cmd c tag now in
      ((m, circ), out, e)
  end.

Definition sendEnd (w : world) (clientConn streamID reason now : Z) : world * output * option error :=
  sendRelay w clientConn streamID RelayCell.RelayEnd [reason] now.

(** The bookkeeping of [HandleData] once the bytes are with the remote host:
    which SENDMEs are due. *)
Definition data_delivered (m : ExitStreamManager) (circ : ServerCircuit) (streamID : Z) :
    ExitStreamManager * option bytes * bool :=
  let circID := CircuitID circ in
  let flow := flowOf m circID in
  let inc := if sendmeInc flow <=? 0 then exitCircSendmeInc else sendmeInc flow in
  let n := count (circInCount m) circID + 1 in
  let due := inc <=? n in
  let m := set_in m circID (if due then 0 else n) in
  let circDigest := if due then Some (default [] (lastFwdDigest m !! circID)) else None in
  match lookup_stream m (circID, streamID) with
  | None => (m, circDigest, false)
  | Some (o, es) =>
      if negb (cc flow) && negb (speaksCGO circ) then
        let dc := deliverCount es + 1 in
        if exitStreamSendmeInc <=? dc then
          (update_stream m o (mkStream (conn es) (packageWindow es)
             (Z.min exitMaxStreamOutWindow (deliverWindow es + exitStreamSendmeInc)) 0 (halfClosed es) (held es) (exitPort es)),
           circDigest, true)
        else
          (update_stream m o (mkStream (conn es) (packageWindow es) (deliverWindow es) dc (halfClosed es) (held es) (exitPort es)),
           circDigest, false)
      else
        (update_stream m o (mkStream (conn es) (packageWindow es) (Z.min exitMaxStreamOutWindow (deliverWindow es + 1))
           (deliverCount es) (halfClosed es) (held es) (exitPort es)), circDigest, false)
  end.

(** [bwOK]: the rate limiter lets the bytes pass; [wrote]: the remote host took
    them; [meanwhile]: what happens between the two critical sections. *)
Definition HandleData (meanwhile : ExitStreamManager -> ExitStreamManager) (bwOK wrote : bool) (w : world)
    (clientConn streamID : Z) (data : bytes) (now : Z) : world * output * option error :=
  let '(m, circ) := w in
  match lookup_stream m (CircuitID circ, streamID) with
  | None => (w, [], Some errUnknownStream)
  | Some (o, es) =>
      if deliverWindow es <=? 0 then sendEnd w clientConn streamID RelayCell.EndReasonMisc now
      else
        let m := update_stream m o (mkStream (conn es) (packageWindow es) (deliverWindow es - 1) (deliverCount es)
                                      (halfClosed es) (held es) (exitPort es)) in
        let m := meanwhile m in
        if negb bwOK then ((m, circ), [], Some errLimiter)
        else if negb wrote then sendEnd (m, circ) clientConn streamID RelayCell.EndReasonConnReset now
        else
          let '(m, circDigest, sendStream) := data_delivered m circ streamID in
          let '(w, out) :=
            match circDigest with
            | Some d =>
                if tag_ok d then
                  match Sendme.EncodeSendmeV1 d with
                  | Ok payload =>
                      let '(w, out, _) := sendRelay (m, circ) clientConn 0 RelayCell.RelaySendme payload now in (w, out)
                  | Err _ => ((m, circ), [])
                  end
                else ((m, circ), [])
            | None => ((m, circ), [])
            end in
          if sendStream then
            let '(w, out', _) := sendRelay w clientConn streamID RelayCell.RelaySendme [] now in (w, out ++ out', None)
          else (w, out, None)
  end.

(** [tcp]: the remote connection can be half closed. *)
Definition HandleEnd (meanwhile : ExitStreamManager -> ExitStreamManager) (tcp : bool) (m : ExitStreamManager)
    (circID streamID : Z) : ExitStreamManager :=
  match lookup_stream m (circID, streamID) with
  | None => m
  | Some (o, es) =>
      if halfClosed es then
        teardown (set_streams m (delete (circID, streamID) (streams m)) (drop_count m circID)) o
      else
        let m := update_stream m o (mkStream (conn es) (packageWindow es) (deliverWindow es) (deliverCount es) true
                                      (held es) (exitPort es)) in
        if tcp then m
        else
          let m := meanwhile m in
          teardown (set_streams m (delete (circID, streamID) (streams m)) (drop_count m circID)) o
  end.

(** [circ.ccEnabled] decides how the circuit's window starts. *)
Definition open_windows (m : ExitStreamManager) (circ : ServerCircuit) : ExitStreamManager :=
  if ccEnabled circ then ensureCCLocked m (CircuitID circ) (ServerCircuit.sendmeInc circ)
  else match circOutWindow m !! CircuitID circ with
       | Some _ => m
       | None => set_out m (CircuitID circ) exitCircWindowInit
       end.

(** ** Opening streams *)

(** [parseBeginAddr]: host, port, flags, and whether the flags are there. *)
Definition parseBeginAddr (data : bytes) : option (bytes * Z * Z * bool) :=
  let '(s, rest) := match IndexByte data 0 with
                    | Some nul => (take nul data, drop (S nul) data)
                    | None => (data, [])
                    end in
  let flagsPresent := 4 <=? len rest in
  let flags := if flagsPresent then be_get (take 4 rest) else 0 in
  let s := TrimSpace s in
  if string_eqb s [] then None
  else
    let s := match IndexByte s 32 with Some i => take i s | None => s end in
    match SplitHostPort s with
    | None => None
    | Some (h, pstr) =>
        match Atoi pstr with
        | Some p => if (p <? 1) || (65535 <? p) then None else Some (h, p, flags, flagsPresent)
        | None => None
        end
    end.

(** [strings.ToLower], as far as it can yield the letters of "onion": besides
    A-Z, U+0130 becomes an i. *)
Fixpoint lower_letters (s : bytes) : bytes :=
  match s with
  | [] => []
  | c :: s' =>
      match s' with
      | d :: s'' => if (c =? 0xC4) && (d =? 0xB0) then 105 :: lower_letters s'' else to_lower c :: lower_letters s'
      | [] => [to_lower c]
      end
  end.

Definition isOnionHost (host : bytes) : bool :=
  let h := lower_letters (Trim host (lit ".")) in
  string_eqb h (lit "onion") || HasSuffix h (lit ".onion").

Definition filterBeginIPs (ips : list bytes) (flags : Z) (flagsPresent : bool) : list bytes :=
  let ipv6OK := negb flagsPresent || negb (Z.land flags beginFlagIPv6OK =? 0) in
  let ipv4OK := Z.land flags beginFlagIPv4NotOK =? 0 in
  let prefer6 := negb (Z.land flags beginFlagIPv6Preferred =? 0) in
  let is4 ip := match GoNet.To4 ip with Some _ => true | None => false end in
  let v4 := filter (fun ip => is4 ip && ipv4OK = true) ips in
  let v6 := filter (fun ip => negb (is4 ip) && ipv6OK = true) ips in
  if prefer6 then v6 ++ v4 else v4 ++ v6.

Record net_error := mkNetError { timeout : bool; text : bytes }.

Definition dialEndReason (e : net_error) : Z :=
  if timeout e then RelayCell.EndReasonTimeout
  else if Contains (text e) (lit "refused") then RelayCell.EndReasonConnRefused
  else if Contains (text e) (lit "reset") then RelayCell.EndReasonConnReset
  else if Contains (text e) (lit "no route") || Contains (text e) (lit "unreachable") then RelayCell.EndReasonNoRoute
  else RelayCell.EndReasonConnRefused.

(** What the exit policy answers (pkg/relay/policy.go). *)
Record Policy := mkPolicy { AllowExit : bool; ipv6OK : bool; CheckExitAllowed : bytes -> Z -> bool * Z }.

(** The network as a BEGIN finds it: addresses of a name ([None]: no answer), the
    outcome of a dial (a connection and, if it can be told, the address it ended
    up at), and what the rest of the program does until then. *)
Record begin_env := mkBeginEnv {
  lookupIP : bytes -> option (list bytes);
  dialTCP : bytes -> Z -> result net_error (Z * option bytes);
  meanwhile : ExitStreamManager -> ExitStreamManager;
}.

(** The first critical section of [HandleBegin]: an old stream with the id is
    torn down; [false] when the circuit has too many. *)
Definition begin_check (m : ExitStreamManager) (circID streamID : Z) : ExitStreamManager * bool :=
  let m := match streams m !! (circID, streamID) with
           | Some old =>
               teardown (set_streams m (delete (circID, streamID) (streams m))
                           (<[circID := count (circStreams m) circID - 1]> (circStreams m))) old
           | None => m
           end in
  (m, count (circStreams m) circID <? exitMaxStreamsPerCirc).

Definition new_stream (c port : Z) : exitStream := mkStream c exitStreamWindowInit exitStreamWindowInit 0 false true port.

(** The last critical section: the stream is entered and counted. *)
Definition begin_register (m : ExitStreamManager) (circ : ServerCircuit) (streamID c port : Z) : ExitStreamManager :=
  let circID := CircuitID circ in
  let m := add_stream m (circID, streamID) (new_stream c port) in
  open_windows (set_streams m (streams m) (<[circID := count (circStreams m) circID + 1]> (circStreams m))) circ.

(** Between the two: choose an address the policy allows, dial it, check where the
    connection ended up, and prepare CONNECTED.  [Err] is the reason for END. *)
Definition begin_connect (env : begin_env) (policy : Policy) (addr : bytes) (port flags : Z) (flagsPresent : bool) :
    result Z (Z * bytes) :=
  match lookupIP env addr with
  | None | Some [] => Err RelayCell.EndReasonResolveFailed
  | Some ips =>
      match List.find (fun ip => (CheckExitAllowed policy ip port).1) (filterBeginIPs ips flags flagsPresent) with
      | None => Err RelayCell.EndReasonExitPolicy
      | Some dialIP =>
          match dialTCP env dialIP port with
          | Err e => Err (dialEndReason e)
          | Ok (_, None) => Err RelayCell.EndReasonInternal
          | Ok (c, Some remoteIP) =>
              let '(ok, reason) := CheckExitAllowed policy remoteIP port in
              if negb ok then Err reason
              else match Connected.FormatConnectedPayload (Some remoteIP) 3600 with
                   | Err _ => Err RelayCell.EndReasonInternal
                   | Ok payload => Ok (c, payload)
                   end
          end
      end
  end.

Definition HandleBegin (env : begin_env) (policy : option Policy) (w : world) (clientConn streamID : Z) (data : bytes)
    (now : Z) : world * output * option error :=
  let '(m, circ) := w in
  match policy with
  | None => sendEnd w clientConn streamID RelayCell.EndReasonExitPolicy now
  | Some policy =>
      if negb (AllowExit policy) then sendEnd w clientConn streamID RelayCell.EndReasonExitPolicy now
      else
        match parseBeginAddr data with
        | None => sendEnd w clientConn streamID RelayCell.EndReasonMisc now
        | Some (addr, port, flags, flagsPresent) =>
            if isOnionHost addr then sendEnd w clientConn streamID RelayCell.EndReasonExitPolicy now
            else
              let '(m, room) := begin_check m (CircuitID circ) streamID in
              if negb room then sendEnd (m, circ) clientConn streamID RelayCell.EndReasonResourceLimit now
              else
                let '(g, got) := acquire (gate m) in
                if negb got then sendEnd (m, circ) clientConn streamID RelayCell.EndReasonResourceLimit now
                else
                  let m := meanwhile env (set_gate m g) in
                  let give_back w := (set_gate w.1 (release (gate w.1)), w.2) : world in
                  match begin_connect env policy addr port flags flagsPresent with
                  | Err reason =>
                      let '(w, out, e) := sendEnd (m, circ) clientConn streamID reason now in (give_back w, out, e)
                  | Ok (c, payload) =>
                      match sendRelay (m, circ) clientConn streamID RelayCell.RelayConnected payload now with
                      | (w, out, Some e) => (give_back w, out, Some e)
                      | ((m, circ), out, None) => ((begin_register m circ streamID c port, circ), out, None)
                      end
                  end
        end
  end.

(** [dirDial]: [None] when there is no directory cache, else what dialling it
    yields ([None] inside: it failed). *)
Definition HandleBeginDir (meanwhile : ExitStreamManager -> ExitStreamManager) (dirDial : option (option Z)) (w : world)
    (clientConn streamID : Z) (now : Z) : world * output * option error :=
  let '(m, circ) := w in
  let circID := CircuitID circ in
  match dirDial with
  | None => sendEnd w clientConn streamID RelayCell.EndReasonNotDirectory now
  | Some dial =>
      if exitMaxStreamsPerCirc <=? count (circStreams m) circID
      then sendEnd w clientConn streamID RelayCell.EndReasonResourceLimit now
      else
        let m := set_streams m (streams m) (<[circID := count (circStreams m) circID + 1]> (circStreams m)) in
        let releaseSlot m := set_streams m (streams m) (drop_count m circID) in
        let '(g, got) := acquire (gate m) in
        if negb got then sendEnd (releaseSlot m, circ) clientConn streamID RelayCell.EndReasonResourceLimit now
        else
          let m := meanwhile (set_gate m g) in
          match dial with
          | None =>
              sendEnd (releaseSlot (set_gate m (release (gate m))), circ) clientConn streamID
                RelayCell.EndReasonNotDirectory now
          | Some c =>
              let m := open_windows (add_stream m (circID, streamID) (new_stream c 0)) circ in
              match sendRelay (m, circ) clientConn streamID RelayCell.RelayConnected [] now with
              | ((m, circ), out, Some e) =>
                  let '(m, es) := removeStream m circID streamID in
                  ((match es with Some o => teardown m o | None => m end, circ), out, Some e)
              | (w, out, None) => (w, out, None)
              end
          end
  end.

(** ** The pump from the remote host to the client *)

Inductive read_error := EOF | ReadTimeout | UseOfClosed | ReadFailed.

Definition read_reason (e : read_error) : Z :=
  match e with
  | EOF | UseOfClosed => RelayCell.EndReasonDone
  | ReadTimeout => RelayCell.EndReasonTimeout
  | ReadFailed => RelayCell.EndReasonConnReset
  end.

(** The deferred clean-up when the pump ends: it removes whatever stream has the
    id by then. *)
Definition pump_exit (m : ExitStreamManager) (circID streamID : Z) : ExitStreamManager :=
  let '(m, es) := removeStream m circID streamID in
  match es with Some o => teardown m o | None => m end.

(** One turn of the loop, after [waitOutWindow] has granted it: [data] and [err]
    are what [Read] returns; [true] when the loop goes on. *)
Definition pump_turn (bwOK : bool) (w : world) (clientConn streamID : Z) (data : bytes) (err : option read_error)
    (now : Z) : world * output * bool :=
  let '(w, out, failed) :=
    if 0 <? len data then
      if negb bwOK then (w, [], true)
      else
        match sendRelay w clientConn streamID RelayCell.RelayData data now with
        | (w, out, Some _) => (w, out, true)
        | (w, out, None) => (w, out, false)
        end
    else (w, [], false) in
  if failed then ((pump_exit w.1 (CircuitID w.2) streamID, w.2), out, false)
  else
    match err with
    | None => (w, out, true)
    | Some e =>
        let '(w, out', _) := sendEnd w clientConn streamID (read_reason e) now in
        ((pump_exit w.1 (CircuitID w.2) streamID, w.2), out ++ out', false)
    end.

End Handlers.

(** ** Places at the gate

    What the accounting depends on: the numbers of the objects, the table, the
    gate, and which objects hold a place. *)
Record places := mkPlaces { p_next : nat; p_table : gmap (Z * Z) nat; p_gate : exitConnGate; p_held : gmap nat bool }.

Definition view (m : ExitStreamManager) : places := mkPlaces (nextObj m) (streams m) (gate m) (held <$> objs m).

Definition held_count (h : gmap nat bool) : Z := Z.of_nat (size (filter (fun kv => kv.2 = true) h)).

(** [k] places are held by handlers that have not registered their stream yet. *)
Record places_ok (k : Z) (p : places) : Prop := {
  ok_fresh : forall o, (p_next p <= o)%nat -> p_held p !! o = None;
  ok_table : forall key o, p_table p !! key = Some o -> p_held p !! o = Some true;
  ok_inj : forall key1 key2 o, p_table p !! key1 = Some o -> p_table p !! key2 = Some o -> key1 = key2;
  ok_gate : cur (p_gate p) = held_count (p_held p) + k;
  ok_max : cur (p_gate p) <= max (p_gate p);
  ok_inflight : 0 <= k;
}.

(** Every object that holds a place is in the table. *)
Definition no_leak (p : places) : Prop := forall o, p_held p !! o = Some true -> exists key, p_table p !! key = Some o.

Lemma held_fresh h i : h !! i = None -> held_count (<[i := true]> h) = held_count h + 1.
Proof.
  intros Hi. unfold held_count. rewrite map_filter_insert_True by done. rewrite map_size_insert_None; [lia|].
  apply map_lookup_filter_None. by left.
Qed.

Lemma held_drop h i : h !! i = Some true -> held_count (<[i := false]> h) = held_count h - 1.
Proof.
  intros Hi. unfold held_count. rewrite map_filter_insert_False by done. rewrite map_filter_delete.
  assert (filter (fun kv => kv.2 = true) h !! i = Some true) as Hx by by apply map_lookup_filter_Some.
  rewrite map_size_delete_Some by eauto. assert (0 < size (filter (fun kv : nat * bool => kv.2 = true) h))%nat; [|lia].
  destruct (size _) eqn:E; [|lia]. apply map_size_empty_inv in E. by rewrite E in Hx.
Qed.

(** *** Operations that leave the places alone *)

Lemma view_update m o es es' : objs m !! o = Some es -> held es' = held es -> view (update_stream m o es') = view m.
Proof.
  intros Ho Hh. unfold view, update_stream. simpl. f_equal. rewrite fmap_insert, Hh. apply insert_id.
  by rewrite lookup_fmap, Ho.
Qed.

Lemma lookup_stream_Some m key o es : lookup_stream m key = Some (o, es) -> streams m !! key = Some o /\ objs m !! o = Some es.
Proof. unfold lookup_stream. destruct (streams m !! key) as [o'|]; [|done]. destruct (objs m !! o') eqn:E; naive_solver. Qed.

Lemma view_expect m c tag now : view (expect m c tag now) = view m.
Proof. done. Qed.

Lemma view_after m c sid tag now : view (afterOutboundDATA m c sid tag now) = view m.
Proof.
  unfold afterOutboundDATA. destruct (vegas (flowOf m c)); [by case_if|].
  set (m1 := if 0 <? _ then _ else m). assert (view m1 = view m) as H1 by (unfold m1; by case_if).
  set (m2 := match lookup_stream m1 _ with Some _ => _ | None => _ end).
  assert (view m2 = view m1) as H2.
  { unfold m2. destruct (lookup_stream m1 _) as [[o es]|] eqn:E; [|done]. apply lookup_stream_Some in E as [_ E].
    case_if; [by eapply view_update | done]. }
  case_if; [rewrite view_expect|]; congruence.
Qed.

Lemma view_writes m c m' ws : orWriteLocked m c = (m', ws) -> view m' = view m.
Proof. unfold orWriteLocked. destruct (orWrites m !! c); intros; by simplify_eq. Qed.

Lemma view_sendme b m c sid payload now b' m' e : HandleSendme b m c sid payload now = (b', m', e) -> view m' = view m.
Proof.
  unfold HandleSendme. intros Hx. destruct (negb (sid =? 0)).
  - destruct (vegas _); [by simplify_eq|]. destruct (lookup_stream m _) as [[o es]|] eqn:E; [|by simplify_eq].
    apply lookup_stream_Some in E as [_ E]. case_if; simplify_eq; [done|]. by eapply view_update.
  - destruct (Sendme.DecodeSendme payload) as [[v d]|]; [|by simplify_eq]. case_if; [by simplify_eq|].
    destruct (default [] _) as [|p rest]; [by simplify_eq|]. case_if; [by simplify_eq|].
    destruct (vegas _).
    + destruct (orWriteLocked _ c) as [m1 ws] eqn:Ew. apply view_writes in Ew. destruct (WriteBlocked ws).
      destruct (Vegas.ProcessSendme _ _ _). revert Ew. simplify_eq. intros Ew. exact Ew.
    + case_if; by simplify_eq.
Qed.

Lemma view_ensureCC m c inc : view (ensureCCLocked m c inc) = view m.
Proof. unfold ensureCCLocked. case_if; [done|]. simpl. by destruct (circOutWindow m !! c). Qed.

Lemma view_open_windows m circ : view (open_windows m circ) = view m.
Proof. unfold open_windows. case_if; [apply view_ensureCC | by destruct (circOutWindow m !! _)]. Qed.

Lemma view_delivered m circ sid m' d s : data_delivered m circ sid = (m', d, s) -> view m' = view m.
Proof.
  unfold data_delivered. set (m1 := set_in m _ _). change (view m) with (view m1).
  destruct (lookup_stream m1 _) as [[o es]|] eqn:E; [|intros; by simplify_eq].
  apply lookup_stream_Some in E as [_ E]. repeat case_if; intros; simplify_eq; by eapply view_update.
Qed.

(** *** Taking and giving places *)

Lemma ok_acquire k m g : places_ok k (view m) -> acquire (gate m) = (g, true) -> places_ok (k + 1) (view (set_gate m g)).
Proof.
  intros [H1 H2 H3 H4 H5 H6] Ha. unfold acquire in Ha. case_if; simplify_eq. bool_to_prop.
  constructor; simpl in *; try done; lia.
Qed.

Lemma release_cur g : 0 < cur g -> release g = mkGate (cur g - 1) (max g).
Proof. intros H. unfold release. by rewrite (proj2 (Z.ltb_lt _ _)). Qed.

Lemma held_count_nonneg h : 0 <= held_count h.
Proof. unfold held_count. lia. Qed.

Lemma ok_release k m : places_ok (k + 1) (view m) -> 0 <= k -> places_ok k (view (set_gate m (release (gate m)))).
Proof.
  intros [H1 H2 H3 H4 H5 H6] Hk. simpl in *. pose proof (held_count_nonneg (held <$> objs m)).
  rewrite release_cur by lia. constructor; simpl; try done; lia.
Qed.

Lemma ok_add k m key es :
  places_ok (k + 1) (view m) -> 0 <= k -> held es = true -> places_ok k (view (add_stream m key es)).
Proof.
  intros [H1 H2 H3 H4 H5 H6] Hk Hh. assert ((held <$> objs m) !! nextObj m = None) as Hn by by apply H1.
  constructor; simpl in *; rewrite ?fmap_insert, ?Hh; try done.
  - intros o Ho. rewrite lookup_insert_ne by lia. apply H1. lia.
  - intros key' o Ho. destruct (decide (key' = key)) as [->|Hne].
    + rewrite lookup_insert_eq in Ho. simplify_eq. by rewrite lookup_insert_eq.
    + rewrite lookup_insert_ne in Ho by done. specialize (H2 _ _ Ho). rewrite lookup_insert_ne; [done|]. congruence.
  - intros key1 key2 o Ho1 Ho2. apply lookup_insert_Some in Ho1 as [[-> <-]|[Hn1 Ho1]], Ho2 as [[-> Hx]|[Hn2 Ho2]]; try done; simplify_eq.
    + apply H2 in Ho2. congruence.
    + apply H2 in Ho1. congruence.
    + by eapply H3.
  - rewrite held_fresh by done. lia.
Qed.

(** Entries taken out of the table. *)
Lemma ok_shrink k m t n : places_ok k (view m) -> t ⊆ streams m -> places_ok k (view (set_streams m t n)).
Proof.
  intros [H1 H2 H3 H4 H5 H6] Ht. rewrite map_subseteq_spec in Ht. constructor; simpl in *; try done.
  - intros key o Ho. eapply H2. by apply Ht.
  - intros key1 key2 o Ha Hb. eapply H3; by apply Ht.
Qed.

Lemma view_teardown m o :
  view (teardown m o) =
    match (held <$> objs m) !! o with
    | Some true => mkPlaces (nextObj m) (streams m) (release (gate m)) (<[o := false]> (held <$> objs m))
    | _ => view m
    end.
Proof.
  unfold teardown. rewrite lookup_fmap. destruct (objs m !! o) as [es|]; [|done]. simpl.
  destruct (held es); [|done]. unfold view. simpl. by rewrite fmap_insert.
Qed.

(** Tearing down an object that is not in the table. *)
Lemma ok_teardown k m o :
  places_ok k (view m) -> (forall key, streams m !! key <> Some o) -> places_ok k (view (teardown m o)).
Proof.
  intros Hok Hn. rewrite view_teardown. destruct ((held <$> objs m) !! o) as [[|]|] eqn:Hx; try done.
  destruct Hok as [H1 H2 H3 H4 H5 H6]. pose proof (held_drop _ _ Hx) as Hd.
  pose proof (held_count_nonneg (<[o:=false]> (held <$> objs m))). constructor; simpl in *; try done.
  - intros o' Ho'. rewrite lookup_insert_ne; [by apply H1|]. intros <-. specialize (H1 _ Ho'). congruence.
  - intros key o' Ho'. rewrite lookup_insert_ne; [by eapply H2|]. intros <-. by eapply Hn.
  - rewrite release_cur by lia. simpl. lia.
  - rewrite release_cur by lia. simpl. lia.
Qed.

Lemma held_teardown m o o' :
  p_held (view (teardown m o)) !! o' = Some true <-> p_held (view m) !! o' = Some true /\ o' <> o.
Proof.
  rewrite view_teardown. simpl. destruct ((held <$> objs m) !! o) as [[|]|] eqn:E; simpl.
  - rewrite lookup_insert_Some. naive_solver.
  - split; [|naive_solver]. intros Hx. split; [done|]. congruence.
  - split; [|naive_solver]. intros Hx. split; [done|]. congruence.
Qed.

Lemma table_teardown m o : streams (teardown m o) = streams m /\ nextObj (teardown m o) = nextObj m.
Proof. unfold teardown. destruct (objs m !! o); [|done]. by case_if. Qed.

Lemma teardown_all k l m :
  places_ok k (view m) -> (forall key o, o ∈ l -> streams m !! key <> Some o) ->
  places_ok k (view (foldl teardown m l)) /\ streams (foldl teardown m l) = streams m /\
  nextObj (foldl teardown m l) = nextObj m /\
  forall o, p_held (view (foldl teardown m l)) !! o = Some true <-> p_held (view m) !! o = Some true /\ o ∉ l.
Proof.
  revert m. induction l as [|x l IH]; intros m Hok Hn; cbn [foldl].
  { split_and!; try done. intros o. rewrite elem_of_nil. naive_solver. }
  destruct (table_teardown m x) as [Ht Hx].
  destruct (IH (teardown m x)) as (A & B & C & D).
  - apply ok_teardown; [done|]. intros key. apply Hn. by left.
  - intros key o Ho. rewrite Ht. apply Hn. by right.
  - split_and!; [done | by rewrite B | by rewrite C |]. intros o. rewrite D, held_teardown, elem_of_cons. naive_solver.
Qed.

(** What an operation may do to the table: entries for objects that existed
    before are not moved to another id. *)
Definition stable (p p' : places) : Prop :=
  (p_next p <= p_next p')%nat /\
  forall key o, (o < p_next p)%nat -> p_table p' !! key = Some o -> p_table p !! key = Some o.

Lemma stable_refl p : stable p p.
Proof. done. Qed.

Lemma stable_trans p q r : stable p q -> stable q r -> stable p r.
Proof.
  intros [H1 H2] [H3 H4]. split; [lia|]. intros key o Ho Hr. apply H2; [done|]. apply H4; [lia|done].
Qed.

Lemma stable_shrink p p' : p_next p' = p_next p -> p_table p' ⊆ p_table p -> stable p p'.
Proof. intros Hn Ht. rewrite map_subseteq_spec in Ht. split; [lia|]. intros. by apply Ht. Qed.

(** Removing the entry of a key, then tearing its object down. *)
Lemma ok_removed k m key o n :
  places_ok k (view m) -> (forall key', streams m !! key' = Some o -> key' = key) ->
  let m' := teardown (set_streams m (delete key (streams m)) n) o in
  places_ok k (view m') /\ stable (view m) (view m') /\ streams m' = delete key (streams m) /\
  (no_leak (view m) -> (forall o', streams m !! key = Some o' -> o' = o) -> no_leak (view m')).
Proof.
  intros Hok Ho m'. set (m1 := set_streams m (delete key (streams m)) n) in *.
  assert (places_ok k (view m1)) as Hok1 by (apply ok_shrink; [done|apply delete_subseteq]).
  assert (forall key', streams m1 !! key' <> Some o) as Hn.
  { intros key'. simpl. intros Hx. apply lookup_delete_Some in Hx as [Hne Hx]. by apply Hne, symmetry, Ho. }
  destruct (table_teardown m1 o) as [Ht Hnx]. fold m' in Ht, Hnx. split_and!.
  - by apply ok_teardown.
  - apply stable_shrink; [exact Hnx|]. simpl. rewrite Ht. apply delete_subseteq.
  - done.
  - intros Hl Hk o' Ho'. apply held_teardown in Ho' as [Ho' Hne]. destruct (Hl o' Ho') as [key' Hx]. exists key'.
    simpl. rewrite Ht. simpl in *. rewrite lookup_delete_ne; [done|]. intros ->. naive_solver.
Qed.

Lemma ok_inj_key k m key o key' : places_ok k (view m) -> streams m !! key = Some o -> streams m !! key' = Some o -> key' = key.
Proof. intros Hok H1 H2. by apply (ok_inj _ _ Hok key' key o). Qed.

(** The effect of an operation on the places. *)
Record step_ok (k : Z) (opens : bool) (m m' : ExitStreamManager) : Prop := {
  st_ok : places_ok k (view m');
  st_stable : stable (view m) (view m');
  st_table : opens = false -> streams m' ⊆ streams m;
}.

Lemma step_quiet k b m m' : places_ok k (view m) -> view m' = view m -> step_ok k b m m'.
Proof.
  intros Hok Hv. constructor; rewrite ?Hv; [done|apply stable_refl|]. intros _.
  apply (f_equal p_table) in Hv. simpl in Hv. by rewrite Hv.
Qed.

Lemma step_trans k b m1 m2 m3 : step_ok k b m1 m2 -> step_ok k b m2 m3 -> step_ok k b m1 m3.
Proof.
  intros [A1 A2 A3] [B1 B2 B3]. constructor; [done|by eapply stable_trans|]. intros H. etrans; [by apply B3|by apply A3].
Qed.

Lemma remove_step k b m key o n :
  places_ok k (view m) -> streams m !! key = Some o ->
  let m' := teardown (set_streams m (delete key (streams m)) n) o in
  step_ok k b m m' /\ streams m' !! key = None /\ (no_leak (view m) -> no_leak (view m')).
Proof.
  intros Hok Ho m'. destruct (ok_removed k m key o n Hok) as (H1 & H2 & H3 & H4).
  { intros key' Hk. by eapply ok_inj_key. }
  fold m' in H1, H2, H3, H4. split_and!.
  - constructor; [done..|]. intros _. rewrite H3. apply delete_subseteq.
  - rewrite H3. apply lookup_delete_eq.
  - intros Hl. apply H4; [done|]. intros. congruence.
Qed.

Lemma step_pump_exit k b m c sid :
  places_ok k (view m) -> step_ok k b m (pump_exit m c sid) /\ (no_leak (view m) -> no_leak (view (pump_exit m c sid))).
Proof.
  intros Hok. unfold pump_exit, removeStream. destruct (streams m !! (c, sid)) as [o|] eqn:Eo.
  - destruct (remove_step k b m (c, sid) o (drop_count m c) Hok Eo) as (H1 & _ & H2). done.
  - split; [by apply step_quiet|done].
Qed.

Lemma step_close_circuit k b m c :
  places_ok k (view m) -> step_ok k b m (CloseCircuit m c) /\ (no_leak (view m) -> no_leak (view (CloseCircuit m c))).
Proof.
  intros Hok. unfold CloseCircuit. set (gone := map_to_list _). set (m1 := mkManager _ _ _ _ _ _ _ _ _ _ _ _).
  assert (view m1 = view (set_streams m (filter (fun kv => kv.1.1 <> c) (streams m)) (circStreams m))) as Hv by done.
  assert (streams m1 ⊆ streams m) as Hsub by (simpl; apply map_filter_subseteq).
  assert (forall o, o ∈ gone.*2 <-> exists key, streams m !! key = Some o /\ key.1 = c) as Hgone.
  { intros o. rewrite list_elem_of_fmap. unfold gone. split.
    - intros ([key o'] & -> & Hx). apply elem_of_map_to_list, map_lookup_filter_Some in Hx. naive_solver.
    - intros (key & Hk & Hc). exists (key, o). split; [done|]. by apply elem_of_map_to_list, map_lookup_filter_Some. }
  destruct (teardown_all k (gone.*2) m1) as (H1 & H2 & H3 & H4).
  { rewrite Hv. by apply ok_shrink. }
  { intros key o Ho Hx. apply Hgone in Ho as (key' & Hk & Hc). simpl in Hx. apply map_lookup_filter_Some in Hx as [Hx Hne].
    apply Hne. simpl. by rewrite (ok_inj_key _ _ _ _ _ Hok Hk Hx). }
  split; [constructor; [done| |]|].
  - apply stable_shrink; [exact H3|]. simpl. by rewrite H2.
  - intros _. by rewrite H2.
  - intros Hl o Ho. apply H4 in Ho as [Ho Hn]. destruct (Hl o Ho) as [key Hk]. exists key. simpl in *. rewrite H2.
    apply map_lookup_filter_Some. split; [done|]. simpl. intros Hc. apply Hn, Hgone. eauto.
Qed.

Lemma step_close_all k b m : places_ok k (view m) -> step_ok k b m (CloseAll m) /\ (no_leak (view m) -> no_leak (view (CloseAll m))).
Proof.
  intros Hok. unfold CloseAll. set (m1 := mkManager _ _ _ _ _ _ _ _ _ _ _ _).
  assert (view m1 = view (set_streams m ∅ (circStreams m))) as Hv by done.
  destruct (teardown_all k ((map_to_list (streams m)).*2) m1) as (H1 & H2 & H3 & H4).
  { rewrite Hv. apply ok_shrink; [done|apply map_empty_subseteq]. }
  { intros key o _. simpl. by rewrite lookup_empty. }
  split; [constructor; [done| |]|].
  - apply stable_shrink; [exact H3|]. simpl. rewrite H2. apply map_empty_subseteq.
  - intros _. rewrite H2. apply map_empty_subseteq.
  - intros Hl o Ho. apply H4 in Ho as [Ho Hn]. exfalso. apply Hn. destruct (Hl o Ho) as [key Hk].
    apply list_elem_of_fmap. exists (key, o). split; [done|]. by apply elem_of_map_to_list.
Qed.

(** The second half of [HandleEnd], after the gap. *)
Lemma step_end k b m m' key o n :
  streams m !! key = Some o -> (o < nextObj m)%nat -> step_ok k b m m' -> (forall key', streams m !! key' = Some o -> key' = key) ->
  step_ok k b m (teardown (set_streams m' (delete key (streams m')) n) o) /\
  (b = false -> no_leak (view m') -> no_leak (view (teardown (set_streams m' (delete key (streams m')) n) o))).
Proof.
  intros Ho Hlt [H1 [H2 H3] H4] Hk. destruct (ok_removed k m' key o n H1) as (A & B & C & D).
  { intros key' Hx. apply Hk. by apply (H3 key' o). }
  split; [constructor|].
  - done.
  - eapply stable_trans; [split; eassumption|done].
  - intros Hb. rewrite C. etrans; [apply delete_subseteq|by apply H4].
  - intros Hb Hl. apply D; [done|]. intros o' Ho'. specialize (H4 Hb). rewrite map_subseteq_spec in H4.
    specialize (H4 _ _ Ho'). congruence.
Qed.

(** Without leaks, the objects that hold a place are those of the table. *)
Lemma held_table p :
  (forall key o, p_table p !! key = Some o -> p_held p !! o = Some true) ->
  (forall key1 key2 o, p_table p !! key1 = Some o -> p_table p !! key2 = Some o -> key1 = key2) ->
  no_leak p -> held_count (p_held p) = Z.of_nat (size (p_table p)).
Proof.
  intros Ht Hi Hl. unfold held_count. f_equal.
  assert (dom (filter (fun kv => kv.2 = true) (p_held p)) = list_to_set (map_to_list (p_table p)).*2) as Hd.
  { apply set_eq. intros o. rewrite elem_of_dom, elem_of_list_to_set, list_elem_of_fmap. split.
    - intros [b Hx]. apply map_lookup_filter_Some in Hx as [Hx Hb]. simpl in Hb. subst b. destruct (Hl o Hx) as [key Hk].
      exists (key, o). split; [done|]. by apply elem_of_map_to_list.
    - intros ([key o'] & -> & Hx). apply elem_of_map_to_list in Hx. exists true. apply map_lookup_filter_Some. split; [|done]. by eapply Ht. }
  rewrite <- size_dom, Hd, size_list_to_set, length_fmap; [apply length_map_to_list|].
  apply NoDup_fmap_2_strong; [|apply NoDup_map_to_list]. intros [k1 o1] [k2 o2] H1 H2 Ho. simpl in Ho. subst o2.
  apply elem_of_map_to_list in H1, H2. by rewrite (Hi _ _ _ H1 H2).
Qed.

(** *** Runs *)

Section Runs.
Context `{Primitives}.
Context (sends : Z -> Cell -> bool) (took : Z -> Cell -> Z).

(** An operation of the manager, with the operations other goroutines carry out
    in the gaps it leaves. *)
Inductive op :=
| OpBegin (between : list op) (look : bytes -> option (list bytes)) (dial : bytes -> Z -> result net_error (Z * option bytes))
    (policy : option Policy) (circ : ServerCircuit) (clientConn streamID : Z) (data : bytes) (now : Z)
| OpBeginDir (between : list op) (dial : option (option Z)) (circ : ServerCircuit) (clientConn streamID now : Z)
| OpData (between : list op) (bwOK wrote : bool) (circ : ServerCircuit) (clientConn streamID : Z) (data : bytes) (now : Z)
| OpEnd (between : list op) (tcp : bool) (circID streamID : Z)
| OpSendme (broken : bool) (circID streamID : Z) (payload : bytes) (now : Z)
| OpPump (bwOK : bool) (circ : ServerCircuit) (clientConn streamID : Z) (data : bytes) (err : option read_error) (now : Z)
| OpNoteDigest (circID : Z) (digest : bytes)
| OpNoteFlow (circID : Z) (cc : bool) (inc : Z)
| OpParams (p : CCParams.CCParams)
| OpCloseCircuit (circID : Z)
| OpCloseAll.

Fixpoint exec (o : op) (m : ExitStreamManager) : ExitStreamManager :=
  match o with
  | OpBegin between look dial policy circ cc sid data now =>
      (HandleBegin sends took (mkBeginEnv look dial (fun m => fold_left (fun m o => exec o m) between m)) policy
         (m, circ) cc sid data now).1.1.1
  | OpBeginDir between dial circ cc sid now =>
      (HandleBeginDir sends took (fun m => fold_left (fun m o => exec o m) between m) dial (m, circ) cc sid now).1.1.1
  | OpData between bwOK wrote circ cc sid data now =>
      (HandleData sends took (fun m => fold_left (fun m o => exec o m) between m) bwOK wrote (m, circ) cc sid data now).1.1.1
  | OpEnd between tcp c sid => HandleEnd (fun m => fold_left (fun m o => exec o m) between m) tcp m c sid
  | OpSendme broken c sid payload now => (HandleSendme broken m c sid payload now).1.2
  | OpPump bwOK circ cc sid data err now => (pump_turn sends took bwOK (m, circ) cc sid data err now).1.1.1
  | OpNoteDigest c d => NoteFwdDigest m c d
  | OpNoteFlow c b inc => NoteCircuitFlow m c b inc
  | OpParams p => SetCCParams m p
  | OpCloseCircuit c => CloseCircuit m c
  | OpCloseAll => CloseAll m
  end.

(** Whether an operation may enter a stream into the table. *)
Fixpoint opens (o : op) : bool :=
  match o with
  | OpBegin _ _ _ _ _ _ _ _ _ | OpBeginDir _ _ _ _ _ _ => true
  | OpData between _ _ _ _ _ _ _ | OpEnd between _ _ _ => existsb opens between
  | _ => false
  end.

(** No BEGIN_DIR, and nothing is opened in the gaps of a BEGIN or an END. *)
Fixpoint tidy (o : op) : bool :=
  match o with
  | OpBegin between _ _ _ _ _ _ _ _ | OpEnd between _ _ _ => forallb tidy between && negb (existsb opens between)
  | OpBeginDir _ _ _ _ _ _ => false
  | OpData between _ _ _ _ _ _ _ => forallb tidy between
  | _ => true
  end.

(** Induction with the operations in the gaps. *)
Lemma op_nested_ind (P : op -> Prop) :
  (forall b l d p c cc sid data now, Forall P b -> P (OpBegin b l d p c cc sid data now)) ->
  (forall b d c cc sid now, Forall P b -> P (OpBeginDir b d c cc sid now)) ->
  (forall b x y c cc sid data now, Forall P b -> P (OpData b x y c cc sid data now)) ->
  (forall b t c sid, Forall P b -> P (OpEnd b t c sid)) ->
  (forall o, match o with OpBegin _ _ _ _ _ _ _ _ _ | OpBeginDir _ _ _ _ _ _ | OpData _ _ _ _ _ _ _ _ | OpEnd _ _ _ _ => False | _ => True end -> P o) ->
  forall o, P o.
Proof.
  intros H1 H2 H3 H4 H5. fix IH 1. intros o.
  pose (go := fix go (l : list op) : Forall P l := match l with [] => Forall_nil_2 P | x :: l => Forall_cons_2 P x l (IH x) (go l) end).
  destruct o; first [by apply H1, go | by apply H2, go | by apply H3, go | by apply H4, go | by apply H5].
Qed.

(** *** The handlers *)

Lemma view_send_write m c cc sid cmd x tag now m' out e :
  sendRelay_write sends took m c cc sid cmd x tag now = (m', out, e) -> view m' = view m.
Proof.
  unfold sendRelay_write. destruct (orWriteOf m c) as [m1 ws] eqn:Ew. apply view_writes in Ew.
  destruct (write_cell sends cc x) as [o [?|]]; intros [= <- <- <-]; [exact Ew|].
  destruct (cmd =? RelayCell.RelayData); [rewrite view_after|]; exact Ew.
Qed.

Lemma view_sendRelay (w : ExitStreamManager * ServerCircuit) cc sid cmd data now : view (sendRelay sends took w cc sid cmd data now).1.1.1 = view w.1.
Proof.
  destruct w as [m circ]. unfold sendRelay. destruct (sendRelay_originate circ sid cmd data) as [c' [[x tag]|e]]; [|done].
  destruct (sendRelay_write _ _ _ _ _ _ _ _ _ _) as [[m' out] e] eqn:E. by apply view_send_write in E.
Qed.

Lemma view_sendEnd (w : ExitStreamManager * ServerCircuit) cc sid r now : view (sendEnd sends took w cc sid r now).1.1.1 = view w.1.
Proof. apply view_sendRelay. Qed.

Lemma sendRelay_id m circ cc sid cmd data now : CircuitID (sendRelay sends took (m, circ) cc sid cmd data now).1.1.2 = CircuitID circ.
Proof.
  unfold sendRelay, sendRelay_originate. destruct (RelayCell.NewRelayCell _ _ _); [|done].
  destruct (crypto circ); [|done]. destruct (RelayCrypto.originateRelayTag _ _ _ _ _) as [? [[? ?]|]]; [|done].
  by destruct (sendRelay_write _ _ _ _ _ _ _ _ _ _) as [[? ?] ?].
Qed.

Definition gap (between : list op) (m : ExitStreamManager) : ExitStreamManager := fold_left (fun m o => exec o m) between m.

(** What holds of every operation. *)
Definition behaves (o : op) : Prop := forall k m, places_ok k (view m) ->
  step_ok k (opens o) m (exec o m) /\ (tidy o = true -> no_leak (view m) -> no_leak (view (exec o m))).

Lemma gap_behaves between : Forall behaves between -> forall k m, places_ok k (view m) ->
  step_ok k (existsb opens between) m (gap between m) /\
  (forallb tidy between = true -> no_leak (view m) -> no_leak (view (gap between m))).
Proof.
  induction 1 as [|o l Ho Hl IH]; intros k m Hok; [by split; [apply step_quiet|]|].
  destruct (Ho k m Hok) as [S1 L1]. destruct (IH k (exec o m) (st_ok _ _ _ _ S1)) as [S2 L2]. cbn [gap fold_left existsb forallb].
  split.
  - destruct S1 as [A1 A2 A3], S2 as [B1 B2 B3]. constructor; [done|by eapply stable_trans|].
    intros Hn. apply orb_false_iff in Hn as [H1 H2]. etrans; [by apply B3|by apply A3].
  - intros Ht Hm. apply andb_true_iff in Ht as [H1 H2]. by apply L2, L1.
Qed.

Lemma data_behaves b x y circ cc sid data now : Forall behaves b -> behaves (OpData b x y circ cc sid data now).
Proof.
  intros Hb k m Hok. cbn [exec opens tidy]. unfold HandleData.
  destruct (lookup_stream m (CircuitID circ, sid)) as [[o es]|] eqn:E; [|by split; [apply step_quiet|]].
  apply lookup_stream_Some in E as [_ E]. case_if.
  { split; [apply step_quiet; [done|]|]; by rewrite view_sendEnd. }
  set (m1 := update_stream m o _). assert (view m1 = view m) as H1 by by eapply view_update.
  destruct (gap_behaves b Hb k m1) as [[S1 S2 S3] L]; [by rewrite H1|]. change (fold_left _ b m1) with (gap b m1).
  set (m2 := gap b m1) in *. assert (streams m1 = streams m) as Hs by done. rewrite H1 in L, S2. rewrite Hs in S3.
  assert (forall m', view m' = view m2 -> step_ok k (existsb opens b) m m' /\ (forallb tidy b = true -> no_leak (view m) -> no_leak (view m'))) as Hq.
  { intros m' Hv. split; [|by rewrite Hv]. constructor; rewrite ?Hv; [done..|]. intros Hx. apply (f_equal p_table) in Hv. simpl in Hv.
    rewrite Hv. by apply S3. }
  case_if; [by apply Hq|]. case_if; [apply Hq; by rewrite view_sendEnd|].
  destruct (data_delivered m2 circ sid) as [[m3 d] s] eqn:Ed. apply view_delivered in Ed.
  set (r := match d with Some _ => _ | None => _ end). assert (view r.1.1 = view m2) as Hr.
  { unfold r. destruct d as [d|]; [|done]. case_if; [|done]. destruct (Sendme.EncodeSendmeV1 d); [|done].
    pose proof (view_sendRelay (m3, circ) cc 0 RelayCell.RelaySendme a now) as Hx.
    destruct (sendRelay _ _ _ _ _ _ _ _) as [[w out] e]. simpl in *. congruence. }
  destruct r as [w out]. apply Hq. case_if; [|done].
  pose proof (view_sendRelay w cc sid RelayCell.RelaySendme [] now) as Hx. destruct (sendRelay _ _ w _ _ _ _ _) as [[w' out'] e].
  simpl in *. congruence.
Qed.

Lemma end_behaves b t c sid : Forall behaves b -> behaves (OpEnd b t c sid).
Proof.
  intros Hb k m Hok. cbn [exec opens tidy]. unfold HandleEnd.
  destruct (lookup_stream m (c, sid)) as [[o es]|] eqn:E; [|by split; [apply step_quiet|]].
  apply lookup_stream_Some in E as [Es E]. case_if.
  { destruct (remove_step k (existsb opens b) m (c, sid) o (drop_count m c) Hok Es) as (H1 & _ & H2). by split. }
  set (m1 := update_stream m o _). assert (view m1 = view m) as H1 by by eapply view_update.
  case_if; [by split; [apply step_quiet|rewrite H1]|]. change (fold_left _ b m1) with (gap b m1).
  destruct (gap_behaves b Hb k m1) as [S1 L]; [by rewrite H1|]. rewrite H1 in L.
  assert (step_ok k (existsb opens b) m (gap b m1)) as S2.
  { destruct S1 as [A1 A2 A3]. rewrite H1 in A2. by constructor. }
  assert (o < nextObj m)%nat as Hlt.
  { destruct (decide (o < nextObj m)%nat) as [|Hge]; [done|]. pose proof (ok_fresh _ _ Hok o ltac:(simpl; lia)) as Hx.
    simpl in Hx. by rewrite lookup_fmap, E in Hx. }
  destruct (step_end k (existsb opens b) m (gap b m1) (c, sid) o (drop_count (gap b m1) c) Es Hlt S2) as [A B].
  { intros key' Hk. by eapply ok_inj_key. }
  split; [done|]. intros Ht Hl. apply andb_true_iff in Ht as [Ht Ho]. apply negb_true_iff in Ho. apply B; [done|]. by apply L.
Qed.

Lemma add_no_leak m key es : no_leak (view m) -> streams m !! key = None -> no_leak (view (add_stream m key es)).
Proof.
  intros Hl Hk o Ho. simpl in *. rewrite fmap_insert in Ho. apply lookup_insert_Some in Ho as [[<- _]|[_ Ho]].
  - exists key. by rewrite lookup_insert_eq.
  - destruct (Hl o Ho) as [key' Hx]. exists key'. simpl in Hx. rewrite lookup_insert_ne; [done|]. congruence.
Qed.

Lemma add_stable m key es : stable (view m) (view (add_stream m key es)).
Proof.
  split; [simpl; lia|]. intros key' o Ho Hx. simpl in *. apply lookup_insert_Some in Hx as [[_ <-]|[_ Hx]]; [lia|done].
Qed.

Lemma view_register m circ sid c port :
  view (begin_register m circ sid c port) = view (add_stream m (CircuitID circ, sid) (new_stream c port)).
Proof. unfold begin_register. by rewrite view_open_windows. Qed.

Lemma check_step k b m c sid m' room :
  places_ok k (view m) -> begin_check m c sid = (m', room) ->
  step_ok k b m m' /\ streams m' !! (c, sid) = None /\ (no_leak (view m) -> no_leak (view m')).
Proof.
  intros Hok. unfold begin_check. intros [= <- _]. destruct (streams m !! (c, sid)) as [o|] eqn:Eo.
  - by apply remove_step.
  - split_and!; [by apply step_quiet | done..].
Qed.

(** From taking a place to registering the stream or giving the place back. *)
Lemma begin_tail k b m g m' :
  places_ok k (view m) -> acquire (gate m) = (g, true) -> Forall behaves b ->
  let m2 := gap b (set_gate m g) in
  (view m' = view (set_gate m2 (release (gate m2))) \/
   exists key es, held es = true /\ streams m !! key = None /\ view m' = view (add_stream m2 key es)) ->
  step_ok k true m m' /\ (forallb tidy b = true -> existsb opens b = false -> no_leak (view m) -> no_leak (view m')).
Proof.
  intros Hok Ha Hb m2 Hm'. pose proof (ok_acquire _ _ _ Hok Ha) as Hok1. pose proof (ok_inflight _ _ Hok) as Hk.
  destruct (gap_behaves b Hb _ _ Hok1) as [[S1 S2 S3] L]. fold m2 in S1, S2, S3, L.
  assert (stable (view m) (view m2)) as St by exact S2. destruct Hm' as [Hv|(key & es & He & Hn & Hv)]; rewrite Hv.
  - split; [constructor; rewrite ?Hv; [by apply ok_release|exact St|done]|]. intros Ht _ Hl. by apply L.
  - split; [constructor; rewrite ?Hv; [by apply ok_add| |done]|].
    + eapply stable_trans; [exact St|apply add_stable].
    + intros Ht Ho Hl. apply add_no_leak; [by apply L|]. specialize (S3 Ho). rewrite map_subseteq_spec in S3.
      destruct (streams m2 !! key) as [o|] eqn:E; [|done]. apply S3 in E. simpl in E. congruence.
Qed.

Lemma begin_behaves b look dial policy circ cc sid data now :
  Forall behaves b -> behaves (OpBegin b look dial policy circ cc sid data now).
Proof.
  intros Hb k m Hok. cbn [exec opens tidy]. unfold HandleBegin.
  assert (forall r, step_ok k true m (sendEnd sends took (m, circ) cc sid r now).1.1.1 /\
    (forallb tidy b && negb (existsb opens b) = true -> no_leak (view m) ->
     no_leak (view (sendEnd sends took (m, circ) cc sid r now).1.1.1))) as Hq.
  { intros r. split; [apply step_quiet; [done|]|]; by rewrite view_sendEnd. }
  destruct policy as [policy|]; [|apply Hq]. destruct (negb (AllowExit policy)); [apply Hq|].
  destruct (parseBeginAddr data) as [[[[addr port] flags] fp]|]; [|apply Hq]. destruct (isOnionHost addr); [apply Hq|].
  destruct (begin_check m (CircuitID circ) sid) as [m1 room] eqn:Ec.
  destruct (check_step k true _ _ _ _ _ Hok Ec) as (S1 & Hn & L1). pose proof (st_ok _ _ _ _ S1) as Hok1.
  assert (forall r, step_ok k true m (sendEnd sends took (m1, circ) cc sid r now).1.1.1 /\
    (forallb tidy b && negb (existsb opens b) = true -> no_leak (view m) ->
     no_leak (view (sendEnd sends took (m1, circ) cc sid r now).1.1.1))) as Hq1.
  { intros r. split; [eapply step_trans; [exact S1|apply step_quiet; [done|apply view_sendEnd]] | rewrite view_sendEnd; intros _; exact L1]. }
  destruct (negb room); [apply Hq1|]. destruct (acquire (gate m1)) as [g [|]] eqn:Ea; [|apply Hq1]. cbn [negb].
  cbn [meanwhile]. change (fold_left _ b (set_gate m1 g)) with (gap b (set_gate m1 g)).
  match goal with |- step_ok _ _ _ ?m' /\ _ => destruct (begin_tail k b m1 g m' Hok1 Ea Hb) as [S2 L2] end.
  - set (m2 := gap b (set_gate m1 g)). destruct (begin_connect _ _ _ _ _ _) as [[c payload]|reason].
    + pose proof (view_sendRelay (m2, circ) cc sid RelayCell.RelayConnected payload now) as Hv.
      pose proof (sendRelay_id m2 circ cc sid RelayCell.RelayConnected payload now) as Hid.
      destruct (sendRelay _ _ _ _ _ _ _ _) as [[[m3 circ3] out] [e|]]; cbn [fst snd] in *.
      * left. unfold view in *. simpl. congruence.
      * right. exists (CircuitID circ, sid), (new_stream c port). rewrite view_register, Hid.
        split_and!; [done..|]. unfold view, add_stream in *. simpl in *. rewrite !fmap_insert. congruence.
    + left. pose proof (view_sendEnd (m2, circ) cc sid reason now) as Hv.
      destruct (sendEnd _ _ _ _ _ _ _) as [[w out] e]. unfold view in *. simpl in *. congruence.
  - split; [by eapply step_trans|]. intros Ht Hl. apply andb_true_iff in Ht as [Ht Ho]. apply negb_true_iff in Ho. by apply L2, L1.
Qed.

Lemma dir_behaves b dial circ cc sid now : Forall behaves b -> behaves (OpBeginDir b dial circ cc sid now).
Proof.
  intros Hb k m Hok. split; [|done]. cbn [exec opens]. unfold HandleBeginDir.
  assert (forall m' r, view m' = view m -> step_ok k true m (sendEnd sends took (m', circ) cc sid r now).1.1.1) as Hq.
  { intros m' r Hv. apply step_quiet; [done|]. by rewrite view_sendEnd. }
  destruct dial as [dial|]; [|by apply Hq]. case_if; [by apply Hq|].
  set (m1 := set_streams m _ _). assert (view m1 = view m) as H1 by done.
  destruct (acquire (gate m1)) as [g [|]] eqn:Ea; [|by apply Hq]. cbn [negb].
  change (fold_left _ b (set_gate m1 g)) with (gap b (set_gate m1 g)). pose proof (ok_acquire k m1 g Hok Ea) as Hok1.
  destruct (gap_behaves b Hb _ _ Hok1) as [[S1 S2 S3] _]. set (m2 := gap b (set_gate m1 g)) in *.
  pose proof (ok_inflight _ _ Hok) as Hk. destruct dial as [c|].
  - set (m3 := open_windows (add_stream m2 (CircuitID circ, sid) (new_stream c 0)) circ).
    assert (view m3 = view (add_stream m2 (CircuitID circ, sid) (new_stream c 0))) as H3 by apply view_open_windows.
    assert (step_ok k true m m3) as St.
    { constructor; rewrite ?H3; [by apply ok_add| |done]. eapply stable_trans; [exact S2|apply add_stable]. }
    pose proof (view_sendRelay (m3, circ) cc sid RelayCell.RelayConnected [] now) as Hv.
    destruct (sendRelay _ _ _ _ _ _ _ _) as [[[m4 c4] out] [e|]]; cbn [fst snd] in *.
    + assert (places_ok k (view m4)) as Hok4 by (rewrite Hv; apply St).
      eapply step_trans; [exact St|]. eapply step_trans; [by apply (step_quiet k true m3 m4); [apply St|]|].
      destruct (step_pump_exit k true m4 (CircuitID circ) sid Hok4) as [Hp _]. unfold pump_exit in Hp.
      by destruct (removeStream m4 (CircuitID circ) sid) as [m5 [o|]].
    + eapply step_trans; [exact St|]. apply step_quiet; [apply St|done].
  - constructor; rewrite ?view_sendEnd; [by apply (ok_release k m2)|exact S2|done].
Qed.

Lemma pump_behaves x circ cc sid data err now : behaves (OpPump x circ cc sid data err now).
Proof.
  intros k m Hok. cbn [exec opens tidy]. unfold pump_turn.
  set (r := if 0 <? len data then _ else _). assert (view r.1.1.1 = view m) as Hr.
  { unfold r. case_if; [|done]. case_if; [done|]. pose proof (view_sendRelay (m, circ) cc sid RelayCell.RelayData data now) as Hv.
    by destruct (sendRelay _ _ _ _ _ _ _ _) as [[w out] [e|]]. }
  destruct r as [[w out] failed]. cbn [fst snd] in Hr.
  assert (forall m', view m' = view m -> step_ok k false m (pump_exit m' (CircuitID w.2) sid) /\
    (no_leak (view m) -> no_leak (view (pump_exit m' (CircuitID w.2) sid)))) as Hp.
  { intros m' Hv. destruct (step_pump_exit k false m' (CircuitID w.2) sid) as [S L]; [by rewrite Hv|].
    split; [eapply step_trans; [by apply step_quiet|done] | by rewrite <- Hv]. }
  assert (forall A B : Prop, A /\ B -> A /\ (true = true -> B)) as Hw by naive_solver.
  apply Hw. destruct failed; [by apply Hp|]. destruct err as [e|]; cbn [fst snd]; [|by split; [apply step_quiet|rewrite Hr]].
  pose proof (view_sendEnd w cc sid (read_reason e) now) as Hv.
  assert (CircuitID (sendEnd sends took w cc sid (read_reason e) now).1.1.2 = CircuitID w.2) as Hid.
  { destruct w as [mw cw]. apply sendRelay_id. }
  destruct (sendEnd _ _ _ _ _ _ _) as [[w' out'] e']. cbn [fst snd] in *. rewrite Hid. apply Hp. congruence.
Qed.

Lemma all_behave o : behaves o.
Proof.
  induction o using op_nested_ind; auto using begin_behaves, dir_behaves, data_behaves, end_behaves.
  assert (forall A B : Prop, A /\ B -> A /\ (true = true -> B)) as Hw by naive_solver.
  destruct o; try done; try apply pump_behaves; intros k m Hok; apply Hw; cbn [exec opens].
  - destruct (HandleSendme _ _ _ _ _ _) as [[b m'] e] eqn:E. apply view_sendme in E. cbn [fst snd]. split; [by apply step_quiet|by rewrite E].
  - assert (view (NoteFwdDigest m circID digest0) = view m) as Hv by (unfold NoteFwdDigest; by case_if).
    split; [by apply step_quiet|by rewrite Hv].
  - assert (view (NoteCircuitFlow m circID cc0 inc) = view m) as Hv
      by (unfold NoteCircuitFlow; case_if; [apply view_ensureCC|done]).
    split; [by apply step_quiet|by rewrite Hv].
  - by apply step_close_circuit.
  - by apply step_close_all.
Qed.

End Runs.

(** ** Properties *)

(** C35: Places at the gate are accounted for exactly.  Whatever BEGIN, BEGIN_DIR,
    DATA, SENDME and END cells arrive, pumps run and circuits close, and whatever
    other goroutines do while a handler waits for the network: the number of
    places taken is the number of stream objects that hold one, it stays within
    the limit, and every stream in the table holds one.  Without BEGIN_DIR, and
    when nothing is opened while a BEGIN dials or an END closes, it is the number
    of streams in the table, so every place comes back. *)
Theorem exit_gate_exact `{Primitives} sends took max ops :
  let m := fold_left (fun m o => exec sends took o m) ops (SetMaxExitConns NewExitStreamManager max) in
  cur (gate m) = held_count (held <$> objs m) /\ 0 <= cur (gate m) <= ExitStreams.max (gate m) /\
  (forall key o, streams m !! key = Some o -> (held <$> objs m) !! o = Some true) /\
  (forallb tidy ops = true -> cur (gate m) = Z.of_nat (size (streams m))).
Proof.
  cbv zeta. set (m0 := SetMaxExitConns NewExitStreamManager max).
  assert (places_ok 0 (view m0)) as H0.
  { constructor; simpl; try done. unfold newExitConnGate. simpl. case_if; bool_to_prop; lia. }
  assert (no_leak (view m0)) as L0 by by intros o Ho.
  destruct (gap_behaves sends took ops) with (k := 0) (m := m0) as [[S1 _ _] L]; [|done|].
  { apply Forall_forall. intros o _. apply all_behave. }
  change (fold_left _ ops m0) with (gap sends took ops m0). set (m := gap sends took ops m0) in *.
  destruct S1 as [A B C D E F]. simpl in *. pose proof (held_count_nonneg (held <$> objs m)).
  split_and!; [lia | lia | done | done |]. intros Ht. rewrite D, Z.add_0_r. apply (held_table (view m)); auto.
Qed.

(** A classic circuit with toy primitives. *)
Definition toy_primitives : Primitives :=
  ServerCircuit.Build_Primitives RelayCrypto.toy_block RelayCrypto.toy_block Onion.sample_H.

Definition sample_circ : ServerCircuit :=
  ServerCircuit.mkCircuit 3 []
    (RelayCrypto.to_option (RelayCrypto.newCircuitCrypto RelayCrypto.toy_block (RelayCrypto.sample_keys 72)))
    false false 0 [] [] [] false false [] [] None None.

Definition sends_all (conn : Z) (c : Cell) : bool := true.
Definition in_no_time (conn : Z) (c : Cell) : Z := 0.

(** A BEGIN for an address the policy allows; the stream is half closed, then its
    pump ends. *)
Definition sample_policy : Policy := mkPolicy true true (fun _ _ => (true, 0)).
Definition sample_ops : list op :=
  [OpBegin [] (fun _ => Some [[1; 2; 3; 4]]) (fun _ _ => Ok (7, Some [1; 2; 3; 4])) (Some sample_policy) sample_circ 1 5
     (lit "a.b:80" ++ [0]) 0;
   OpEnd [] true 3 5; OpPump true sample_circ 1 5 [] (Some EOF) 0].

Lemma exit_gate_exact_witness :
  let m := fold_left (fun m o => exec (H := toy_primitives) sends_all in_no_time o m) sample_ops
             (SetMaxExitConns NewExitStreamManager 2) in
  cur (gate m) = Z.of_nat (size (streams m)).
Proof.
  pose proof (exit_gate_exact (H := toy_primitives) sends_all in_no_time 2 sample_ops) as Hx.
  destruct Hx as (_ & _ & _ & Hx). apply Hx. reflexivity.
Defined.

(** BEGIN_DIR does not look whether its stream id is in use.  A second one with
    the same id overwrites the first stream; whichever pump ends first removes the
    second stream, the other finds nothing, and the first stream's place is never
    given back, not even when the circuit and the whole manager are closed. *)
Theorem begin_dir_reuse_leaks :
  let dir := OpBeginDir [] (Some (Some 7)) sample_circ 1 5 0 in
  let done_ := OpPump true sample_circ 1 5 [] (Some EOF) 0 in
  let m := fold_left (fun m o => exec (H := toy_primitives) sends_all in_no_time o m)
             [dir; dir; done_; done_; OpCloseCircuit 3; OpCloseAll] NewExitStreamManager in
  size (streams m) = 0%nat /\ cur (gate m) = 1.
Proof. vm_compute. split; reflexivity. Qed.

End ExitStreams.
