(* ===== verification/ExitProtocol.v ===== *)
(** * Flow control between an exit and a client

    The exit keeps the accounts of a circuit in the tables of [ExitStreams.v], the
    client in the flow state of [FlowControl.v].  Here the two are joined, in both
    directions, in the way [FlowProtocol.v] joins two clients: what the exit does
    is shown to be simulated by a [FlowControl] endpoint.  As there, the program
    gives the k-th DATA cell the authentication tag [tag k]. *)

From S2P Require Import Prelude Conversion Cell RelayCell CellPayloads CCParams Vegas FlowControl FlowProtocol Onion RelayCrypto ServerCircuit ExitStreams.
Import FlowControl(Flow, sendmeAuthTag, sendmeIncrementLocked, sender_inv, outstanding, send_data, processCircuitSendme).
Import FlowProtocol(sys_inv).
Import ExitStreams.

Module ExitProtocol.

(** ** The exit as a sender *)

Definition as_pending (p : exitSendmePending) : FlowControl.sendmePending := FlowControl.mkPending (digest p) (sentAt p).

Definition increment (flow : circFlow) : Z := if sendmeInc flow <=? 0 then exitCircSendmeInc else sendmeInc flow.

Definition expected (m : ExitStreamManager) (c : Z) : list exitSendmePending := default [] (circExpectedSendme m !! c).

(** The exit's accounts of circuit [c] are those of [f]. *)
Record sender_sim (c : Z) (m : ExitStreamManager) (f : Flow) : Prop := {
  sim_vegas : vegas (flowOf m c) = FlowControl.vegas f;
  sim_expected : as_pending <$> expected m c = FlowControl.sendmeExpected f;
  sim_inc : increment (flowOf m c) = sendmeIncrementLocked f;
  sim_window : count (circOutWindow m) c = FlowControl.packageWindow f;
}.

Lemma tag_ok_auth tag : tag_ok tag = true -> sendmeAuthTag tag = Some tag.
Proof.
  unfold tag_ok, sendmeAuthTag, FlowControl.cloneDigest. intros H. apply orb_true_iff in H. case_if; [done|]. bool_to_prop.
  destruct H as [H|H]; bool_to_prop; [|done]. rewrite (proj2 (Z.leb_le _ _)) by lia. rewrite slice_all; [done|].
  unfold len in H. lia.
Qed.

Lemma count_set_out m c w : count (circOutWindow (set_out m c w)) c = w.
Proof. unfold count. simpl. by rewrite lookup_insert_eq. Qed.

Lemma flowOf_set_cc m c f : flowOf (set_cc m c f) c = f.
Proof. unfold flowOf. simpl. by rewrite lookup_insert_eq. Qed.

Lemma flowOf_set_out m c w c' : flowOf (set_out m c w) c' = flowOf m c'.
Proof. done. Qed.

Lemma expected_expect m c tag now : expected (expect m c tag now) c = expected m c ++ [mkPending tag (Some now)].
Proof. unfold expected at 1. simpl. by rewrite lookup_insert_eq. Qed.

Lemma sim_open c m f sid es o :
  sender_sim c m f -> FlowControl.flow_wf f -> lookup_stream m (c, sid) = Some (o, es) -> waitOutWindow m c sid = Some true ->
  exists r, FlowControl.decrementPackageWindowForSendme f =
    (match FlowControl.vegas f with
     | Some v => FlowControl.vegas_reserve f v
     | None => FlowControl.set_package f (FlowControl.packageWindow f - 1)
     end, Ok r) /\
    r = match FlowControl.vegas f with
        | Some v => Z.rem (i64 (Vegas.inflight v + 1)) (Vegas.sendmeInc v) =? 0
        | None => Z.rem (FlowControl.packageWindow f - 1) (sendmeIncrementLocked f) =? 0
        end.
Proof.
  intros [Hv He Hi Hw] Hf Hl Hwait. unfold waitOutWindow in Hwait. rewrite Hl in Hwait. rewrite Hv in Hwait.
  destruct Hf as (Hp & _ & _ & _ & Hx). unfold FlowControl.decrementPackageWindowForSendme.
  destruct (FlowControl.vegas f) as [v|] eqn:Ev.
  - simpl in Hwait. simplify_eq. bool_to_prop. destruct Hx as (Hwf & _ & _). rewrite (FlowControl.packageWindow_vegas v Hwf) in *.
    rewrite (proj2 (Z.leb_gt _ _)) by lia. eauto.
  - simplify_eq. bool_to_prop. rewrite Hw in *. rewrite (proj2 (Z.leb_gt _ _)) by lia. rewrite i64_id by (word; lia).
    simpl. eauto.
Qed.

Ltac sim_fields :=
  constructor; unfold increment, flowOf, expected, count in *; simpl; rewrite ?lookup_insert_eq; simpl; rewrite ?fmap_app; simpl.

(** Sending a DATA cell when the window allows it. *)
Lemma sim_send c m f sid tag now :
  sender_sim c m f -> sender_inv f -> tag_ok tag = true -> waitOutWindow m c sid = Some true ->
  exists f', send_data f tag now = Some f' /\ sender_sim c (afterOutboundDATA m c sid tag now) f'.
Proof.
  intros Hs [Hf Ho Hq] Ht Hwait. pose proof Hwait as Hwait'. unfold waitOutWindow in Hwait.
  destruct (lookup_stream m (c, sid)) as [[o es]|] eqn:El; [|done].
  destruct (sim_open c m f sid es o Hs Hf El Hwait') as (r & Hd & Hr).
  destruct Hs as [Hv He Hi Hw]. unfold send_data. rewrite Hd. eexists. split; [done|].
  unfold FlowControl.recordSendmeTag. rewrite (tag_ok_auth _ Ht). unfold afterOutboundDATA. rewrite Hv in Hwait |- *. rewrite Ht.
  destruct Hf as (Hp & _ & _ & Hinc & Hx). destruct (FlowControl.vegas f) as [v|] eqn:Ev.
  - destruct Hx as ([_ Hvi _ _] & Hsi & _). unfold Vegas.OnDataSent. cbv zeta. unfold Vegas.ShouldRecordSendme.
    cbn [Vegas.sendmeInc Vegas.set_inflight Vegas.inflight]. rewrite (proj2 (Z.ltb_ge (Vegas.sendmeInc v) 1)) by lia.
    rewrite <- Hr. cbn [andb]. destruct r; sim_fields; rewrite <- ?He; done.
  - cbv zeta. injection Hwait as Hwait. apply andb_true_iff in Hwait as [Hwc Hwe]. apply Z.ltb_lt in Hwc, Hwe. rewrite Hw in *. rewrite (proj2 (Z.ltb_lt 0 (FlowControl.packageWindow f))) by lia.
    assert (lookup_stream (set_out m c (FlowControl.packageWindow f - 1)) (c, sid) = Some (o, es)) as -> by exact El.
    rewrite (proj2 (Z.ltb_lt 0 (packageWindow es))) by lia. set (m1 := update_stream _ o _).
    assert (count (circOutWindow m1) c = FlowControl.packageWindow f - 1) as Hw1 by (unfold m1; apply count_set_out).
    rewrite Hw1. fold (increment (flowOf m c)). rewrite Hi.
    assert (sendmeIncrementLocked f = 100) as H100 by (unfold sendmeIncrementLocked; rewrite Hx; done). rewrite H100 in *.
    assert (outstanding f = 1000 - FlowControl.packageWindow f) as Hout by (unfold outstanding; by rewrite Ev).
    assert (r = (Z.rem (exitCircWindowInit - (FlowControl.packageWindow f - 1)) 100 =? 0)) as Hr'.
    { rewrite Hr. apply eq_true_iff_eq. rewrite !Z.eqb_eq, !Z.rem_divide by lia. unfold exitCircWindowInit.
      split; intros [k Hk]; exists (10 - k); lia. }
    rewrite <- Hr'. rewrite (proj2 (Z.ltb_lt 0 _)) by (unfold exitCircWindowInit; lia). cbn [andb Z.ltb Z.compare].
    assert (expected m1 c = expected m c) as He1 by done.
    assert (sendmeIncrementLocked (FlowControl.set_package f (FlowControl.packageWindow f - 1)) = 100) as H101 by exact H100.
    destruct r; cbn [andb]; constructor; rewrite ?expected_expect, ?fmap_app, ?He1, ?He; try done.
    all: first [exact (eq_trans Hv (eq_sym Ev)) | exact (eq_trans Hi (eq_sym H101))].
Qed.

Ltac refuse := do 3 eexists; split; [reflexivity|].

(** A circuit SENDME is accepted just when the simulating endpoint accepts it. *)
Lemma sim_sendme b c m f payload now b' m' e :
  sender_sim c m f -> sender_inv f -> HandleSendme b m c 0 payload now = (b', m', e) ->
  exists blocked b'' f' e', processCircuitSendme b now blocked f payload = (b'', f', e') /\
    match e, e' with
    | None, None => b' = b'' /\ sender_sim c m' f'
    | Some _, Some _ => True
    | _, _ => False
    end.
Proof.
  intros [Hv He Hi Hw] [Hf Ho Hq] Hh. unfold HandleSendme in Hh. cbn [negb Z.eqb] in Hh.
  unfold processCircuitSendme. destruct (Sendme.DecodeSendme payload) as [[ver dig]|]; [|simplify_eq; exists None; by refuse].
  unfold FlowControl.sendmeAcceptMin. destruct (ver <? Sendme.SendmeVersion1); [simplify_eq; exists None; by refuse|].
  fold (expected m c) in Hh. rewrite <- He. destruct (expected m c) as [|p rest] eqn:Ex; cbn [fmap list_fmap].
  { simplify_eq. exists None; by refuse. }
  change (FlowControl.digest (as_pending p)) with (digest p). change (FlowControl.sentAt (as_pending p)) with (sentAt p).
  destruct (Conversion.ConstantTimeCompare (digest p) dig) eqn:Ec; cbn [negb] in *.
  2:{ rewrite orb_true_r in Hh. simplify_eq. exists None; by refuse. }
  apply Conversion.ConstantTimeCompare_spec in Ec as <-. rewrite Z.eqb_refl in Hh. cbn [negb orb] in Hh.
  set (m1 := set_expected m c rest) in Hh. change (flowOf m1 c) with (flowOf m c) in Hh.
  assert (as_pending <$> expected m1 c = as_pending <$> rest) as He1 by (unfold expected; simpl; by rewrite lookup_insert_eq).
  cbn [FlowControl.vegas FlowControl.set_expected]. rewrite Hv in Hh. pose proof Hf as (Hp & _ & _ & Hinc & Hx).
  destruct (FlowControl.vegas f) as [v|] eqn:Ev.
  - destruct (orWriteLocked m1 c) as [m2 ws] eqn:Ew. destruct (WriteBlocked ws) as [ws' bl].
    assert (circExpectedSendme m2 = circExpectedSendme m1) as H2.
    { unfold orWriteLocked in Ew. destruct (orWrites m1 !! c); by simplify_eq. }
    exists (Some bl). unfold FlowControl.sampleOrconnBlockedLocked. cbn [FlowControl.vegas FlowControl.set_expected FlowControl.set_vegas].
    rewrite Ev. cbn [Vegas.SetBlockedChan FlowControl.vegas FlowControl.set_vegas] in *.
    destruct (Vegas.ProcessSendme _ _ _) as [b2 v2]. do 3 eexists. split; [done|].
    revert H2. simplify_eq. intros H2. split; [done|]. constructor.
    + by rewrite flowOf_set_out, flowOf_set_cc.
    + unfold expected in *. simpl. rewrite H2. exact He1.
    + rewrite flowOf_set_out, flowOf_set_cc. unfold increment in *. exact Hi.
    + apply count_set_out.
  - assert (sendmeIncrementLocked f = 100) as H100 by (unfold sendmeIncrementLocked; rewrite Hx; done).
    assert (1 <= len (FlowControl.sendmeExpected f)) as Hl.
    { rewrite <- He. unfold len. simpl. lia. }
    assert (FlowControl.packageWindow f <= 900) as Hle by (unfold outstanding in *; rewrite Ev in *; nia).
    change (count (circOutWindow m1) c) with (count (circOutWindow m) c) in Hh. rewrite Hw in Hh.
    unfold exitCircWindowInit in Hh. rewrite (proj2 (Z.leb_gt _ _)) in Hh by lia. fold (increment (flowOf m c)) in Hh.
    rewrite Hi, H100 in Hh. rewrite Z.min_r in Hh by lia. exists None. do 3 eexists. split; [done|]. simplify_eq. split; [done|].
    constructor; rewrite ?count_set_out; try done.
    + exact (eq_trans Hv (eq_sym Ev)).
    + simpl. change (sendmeIncrementLocked (FlowControl.set_expected f _)) with (sendmeIncrementLocked f).
      rewrite H100, i64_id by (word; lia). done.
Qed.

(** ** Download: the exit sends DATA

    [DTurn] is a pump that looks at the windows and sends before any other pump
    looks; [DLook] and [DPut] are the two halves, as the goroutines may interleave
    them. *)
Record dsys := mkD {
  d_broken : bool;
  d_exit : ExitStreamManager;
  d_client : Flow;
  d_sent : nat;
  d_fwd : list nat;
  d_tasks : list bytes;
  d_back : list bytes;
  d_ready : list Z;
}.

Inductive daction :=
| DTurn (sid now : Z)
| DLook (sid : Z)
| DPut (i : nat) (now : Z)
| DRecv
| DTask (i : nat)
| DAck (now : Z)
| DStreamAck (sid now : Z).

Inductive doutcome := DNext (d : dsys) | DDisabled | DExit (e : error) | DClient (e : FlowControl.error).

Definition dinit (m : ExitStreamManager) (f : Flow) : dsys := mkD false m f 0 [] [] [] [].

Section Download.
Context (tag : nat -> bytes) (c : Z).

Definition put (d : dsys) (ready : list Z) (sid now : Z) : dsys :=
  mkD (d_broken d) (afterOutboundDATA (d_exit d) c sid (tag (d_sent d)) now) (d_client d) (S (d_sent d))
    (d_fwd d ++ [d_sent d]) (d_tasks d) (d_back d) ready.

Definition dact (x : daction) (d : dsys) : doutcome :=
  match x with
  | DTurn sid now =>
      match waitOutWindow (d_exit d) c sid with Some true => DNext (put d (d_ready d) sid now) | _ => DDisabled end
  | DLook sid =>
      match waitOutWindow (d_exit d) c sid with
      | Some true => DNext (mkD (d_broken d) (d_exit d) (d_client d) (d_sent d) (d_fwd d) (d_tasks d) (d_back d) (d_ready d ++ [sid]))
      | _ => DDisabled
      end
  | DPut i now =>
      match d_ready d !! i with Some sid => DNext (put d (delete i (d_ready d)) sid now) | None => DDisabled end
  | DRecv =>
      match d_fwd d with
      | [] => DDisabled
      | n :: rest =>
          match FlowControl.decrementDeliverWindowAndTakeSendme (d_client d) with
          | (_, Err e) => DClient (FlowControl.errCircuitFlow e)
          | (r, Ok take) =>
              DNext (mkD (d_broken d) (d_exit d) r (d_sent d) rest
                       (if take then d_tasks d ++ [FlowControl.cloneDigest (tag n)] else d_tasks d) (d_back d) (d_ready d))
          end
      end
  | DTask i =>
      match d_tasks d !! i with
      | None => DDisabled
      | Some t =>
          match FlowControl.sendCircuitSendme (fun _ => None) (d_client d) t with
          | (_, Err e) => DClient e
          | (r, Ok rc) =>
              DNext (mkD (d_broken d) (d_exit d) r (d_sent d) (d_fwd d) (delete i (d_tasks d))
                       (d_back d ++ [RelayCell.Data rc]) (d_ready d))
          end
      end
  | DAck now =>
      match d_back d with
      | [] => DDisabled
      | payload :: rest =>
          match HandleSendme (d_broken d) (d_exit d) c 0 payload now with
          | (_, _, Some e) => DExit e
          | (b, m, None) => DNext (mkD b m (d_client d) (d_sent d) (d_fwd d) (d_tasks d) rest (d_ready d))
          end
      end
  | DStreamAck sid now =>
      if sid =? 0 then DDisabled
      else
        match HandleSendme (d_broken d) (d_exit d) c sid [] now with
        | (_, _, Some e) => DExit e
        | (b, m, None) => DNext (mkD b m (d_client d) (d_sent d) (d_fwd d) (d_tasks d) (d_back d) (d_ready d))
        end
  end.

Fixpoint drun (l : list daction) (d : dsys) : doutcome :=
  match l with
  | [] => DNext d
  | x :: l => match dact x d with DNext d => drun l d | DDisabled => drun l d | r => r end
  end.

(** Pumps take turns, and the client's goroutines run in the order they started. *)
Definition serial (x : daction) : Prop :=
  match x with DLook _ | DPut _ _ => False | DTask i => i = O | _ => True end.

Global Instance serial_dec x : Decision (serial x).
Proof. destruct x; apply _. Defined.

(** The simulating pair of [FlowControl] endpoints. *)
Record dsim (d : dsys) (s : FlowProtocol.sys) : Prop := {
  ds_broken : FlowProtocol.broken s = d_broken d;
  ds_client : FlowProtocol.receiver s = d_client d;
  ds_idle : FlowProtocol.senders (FlowProtocol.src s) = [];
  ds_sent : FlowProtocol.nenc (FlowProtocol.src s) = d_sent d;
  ds_fwd : FlowProtocol.wire (FlowProtocol.src s) = d_fwd d;
  ds_tasks : FlowProtocol.tasks s = d_tasks d;
  ds_back : FlowProtocol.back s = d_back d;
  ds_exit : sender_sim c (d_exit d) (FlowProtocol.sender s);
}.

Context (inc W : Z) (classic : bool).
Context (Hinc : 1 <= inc <= 250) (HW : 0 < W < 2 ^ 31).
Context (Htag : forall n, tag_ok (tag n) = true /\ Forall is_byte (tag n)).

Lemma tags_auth n : exists d, sendmeAuthTag (tag n) = Some d /\ Sendme.tag_wf d.
Proof.
  destruct (Htag n) as [H1 H2]. exists (tag n). split; [by apply tag_ok_auth|]. split; [done|].
  unfold tag_ok in H1. apply orb_true_iff in H1. destruct H1; bool_to_prop; auto.
Qed.

(** The outcome of a step of the pair that simulates one of the system. *)
Definition simulates (r : doutcome) (s : FlowProtocol.sys) : Prop :=
  match r with
  | DNext d' => dsim d' s \/
      exists a s', FlowProtocol.orderly1 s a = true /\ FlowProtocol.act tag a s = FlowProtocol.Next s' /\ dsim d' s'
  | DDisabled => True
  | DExit _ => exists a e, FlowProtocol.orderly1 s a = true /\ FlowProtocol.act tag a s = FlowProtocol.Failed e /\
      e <> FlowControl.errCircuitFlow FlowControl.errDeliverExhausted
  | DClient e => exists a, FlowProtocol.orderly1 s a = true /\ FlowProtocol.act tag a s = FlowProtocol.Failed e
  end.

Lemma simulate_turn d s sid now :
  dsim d s -> sender_inv (FlowProtocol.sender s) -> simulates (dact (DTurn sid now) d) s.
Proof.
  intros [H1 H2 H0 H3 H4 H5 H6 H7] Hs. simpl. destruct (waitOutWindow (d_exit d) c sid) as [[|]|] eqn:Ew; try done. simpl. right.
  destruct (sim_send c _ _ sid (tag (d_sent d)) now H7 Hs (proj1 (Htag _)) Ew) as (f' & Hsend & Hsim).
  exists (FlowProtocol.ActSend now). cbn [FlowProtocol.act]. unfold FlowProtocol.sender in Hsend.
  rewrite FlowProtocol.whole_send_spec, H3, Hsend. eexists. split_and!; [simpl; by rewrite H0|done|].
  constructor; simpl; try done; congruence.
Qed.

Lemma sim_stream b m sid payload now :
  sid <> 0 -> exists m', HandleSendme b m c sid payload now = (b, m', None) /\ forall f, sender_sim c m f -> sender_sim c m' f.
Proof.
  intros Hs. unfold HandleSendme. rewrite (proj2 (Z.eqb_neq _ _)) by done. cbn [negb].
  destruct (vegas (flowOf m c)); [by eauto|]. destruct (lookup_stream m (c, sid)) as [[o es]|]; [|by eauto].
  case_if; [by eauto|]. eexists. split; [done|]. intros f [S1 S2 S3 S4]. by constructor.
Qed.

Lemma simulate_stream_ack d s sid now : dsim d s -> simulates (dact (DStreamAck sid now) d) s.
Proof.
  intros [H1 H2 H0 H3 H4 H5 H6 H7]. unfold dact. destruct (Z.eqb_spec sid 0) as [|Hne]; [done|].
  destruct (sim_stream (d_broken d) (d_exit d) sid [] now Hne) as (m' & -> & Hsim). left. constructor; try done. by apply Hsim.
Qed.

Lemma simulate_ack d s now : dsim d s -> sender_inv (FlowProtocol.sender s) -> simulates (dact (DAck now) d) s.
Proof.
  intros [H1 H2 H0 H3 H4 H5 H6 H7] Hs. simpl. destruct (d_back d) as [|payload rest] eqn:Eb; [done|].
  destruct (HandleSendme _ _ _ _ _ _) as [[b' m'] e] eqn:Eh.
  destruct (sim_sendme _ _ _ _ _ _ _ _ _ H7 Hs Eh) as (blocked & b'' & f' & e' & Hp & Hr).
  assert (FlowProtocol.tags_known (FlowProtocol.src s) = true) as Hk.
  { unfold FlowProtocol.tags_known, FlowProtocol.owed_tags. by rewrite H0. }
  destruct e as [e|], e' as [e'|]; try done; simpl.
  - exists (FlowProtocol.ActAck now blocked), e'. simpl. rewrite H6, H1, Hp. split_and!; [done..|].
    intros ->. unfold processCircuitSendme in Hp. destruct (Sendme.DecodeSendme payload) as [[ver dig]|]; [|done].
    repeat (case_if; [done|]). destruct (FlowControl.sendmeExpected _); [done|]. case_if; [done|].
    simpl in Hp. destruct (FlowControl.vegas _); [|done]. by destruct (Vegas.ProcessSendme _ _ _).
  - right. exists (FlowProtocol.ActAck now blocked). simpl. rewrite H6, H1, Hp. eexists. split_and!; [done..|].
    destruct Hr as [<- Hsim]. by constructor.
Qed.

Lemma simulate_step d s m b a x :
  dsim d s -> sys_inv tag inc W classic s m b a -> serial x -> simulates (dact x d) s.
Proof.
  intros Hd Hi Hx. pose proof (FlowProtocol.inv_sender _ _ _ _ _ _ _ _ Hi) as Hs. pose proof Hd as [H1 H2 H0 H3 H4 H5 H6 H7].
  destruct x as [sid now|sid|i now| |i|now|sid now]; try done.
  - by apply simulate_turn.
  - simpl. destruct (d_fwd d) as [|n rest] eqn:Ef; [done|].
    assert (n = FlowProtocol.nrecv s) as Hnr.
    { pose proof (FlowProtocol.inv_fwd _ _ _ _ _ _ _ _ Hi) as Hf. rewrite H4, <- (FlowProtocol.inv_recv _ _ _ _ _ _ _ _ Hi) in Hf.
      by destruct (_ - _)%nat; simplify_eq/=. }
    destruct (FlowControl.decrementDeliverWindowAndTakeSendme (d_client d)) as [r [take|e]] eqn:Ed; simpl.
    + right. exists FlowProtocol.ActRecv. simpl. rewrite H4, <- Hnr, Nat.eqb_refl, H2. cbn [negb]. rewrite Ed.
      eexists. split_and!; [done..|]. constructor; simpl; try done. by rewrite H5.
    + exists FlowProtocol.ActRecv. simpl. rewrite H4, <- Hnr, Nat.eqb_refl, H2. cbn [negb]. by rewrite Ed.
  - simpl in Hx. subst i. simpl. destruct (d_tasks d !! 0%nat) as [t|] eqn:Et; [|done].
    destruct (FlowControl.sendCircuitSendme _ (d_client d) t) as [r [rc|e]] eqn:Ec; simpl.
    + right. exists (FlowProtocol.ActTask 0). simpl. rewrite H5, Et, H2, Ec. eexists. split_and!; [done..|].
      constructor; simpl; try done. by rewrite H6.
    + exists (FlowProtocol.ActTask 0). simpl. by rewrite H5, Et, H2, Ec.
  - by apply simulate_ack.
  - by apply simulate_stream_ack.
Qed.

Lemma drun_inv l d s m b a :
  dsim d s -> sys_inv tag inc W classic s m b a -> Forall serial l ->
  match drun l d with
  | DNext d' => exists s' m' b' a', dsim d' s' /\ sys_inv tag inc W classic s' m' b' a'
  | DDisabled => False
  | DExit _ => False
  | DClient e => e = FlowControl.errCircuitFlow FlowControl.errDeliverExhausted /\ (classic = true -> W < 1000)
  end.
Proof.
  revert d s m b a. induction l as [|x l IH]; intros d s m b a Hd Hi Hl; [by exists s, m, b, a|].
  apply Forall_cons in Hl as [Hx Hl]. pose proof (simulate_step d s m b a x Hd Hi Hx) as Hsim. cbn [drun].
  pose proof (fun y => FlowProtocol.act_inv tag inc W classic Hinc HW tags_auth s m b a y Hi) as Hact.
  destruct (dact x d) as [d'| |e|e]; simpl in Hsim.
  - destruct Hsim as [Hs|(y & s' & Hy & Ha & Hs)]; [by eapply IH|]. specialize (Hact y Hy). rewrite Ha in Hact.
    destruct Hact as (m' & b' & a' & Hi'). by eapply IH.
  - by eapply IH.
  - destruct Hsim as (y & e' & Hy & Ha & Hne). specialize (Hact y Hy). rewrite Ha in Hact. by destruct Hact.
  - destruct Hsim as (y & Hy & Ha). specialize (Hact y Hy). by rewrite Ha in Hact.
Qed.

End Download.

(** A circuit the exit has opened and not yet sent on, with fixed windows or with
    congestion control under parameters [p] and increment [inc]. *)
Definition fresh_circuit (m : ExitStreamManager) (c : Z) (cc : option (CCParams.CCParams * Z)) : Prop :=
  circExpectedSendme m !! c = None /\
  match cc with
  | None => circCC m !! c = None /\ circOutWindow m !! c = Some exitCircWindowInit
  | Some (p, inc) =>
      let v := Some (Vegas.newVegasState p inc) in
      CCParams.params_wf p /\ 1 <= inc <= 250 /\
      circCC m !! c = Some (mkCircFlow true inc v) /\ circOutWindow m !! c = Some (Vegas.PackageWindow v)
  end.

Definition cc_increment (cc : option (CCParams.CCParams * Z)) : Z :=
  match cc with None => exitCircSendmeInc | Some (_, inc) => inc end.

(** That is what the handlers establish. *)
Lemma register_fresh m circ sid k port :
  let c := ServerCircuit.CircuitID circ in
  circExpectedSendme m !! c = None -> circCC m !! c = None -> circOutWindow m !! c = None ->
  ServerCircuit.ccEnabled circ = false -> fresh_circuit (begin_register m circ sid k port) c None.
Proof.
  intros c. unfold c. clear c. intros H1 H2 H3 Hc. unfold begin_register, open_windows. rewrite Hc. simpl. rewrite H3.
  split; [done|]. split; [done|]. simpl. by rewrite lookup_insert_eq.
Qed.

Lemma note_fresh m c inc :
  circExpectedSendme m !! c = None -> circCC m !! c = None -> circOutWindow m !! c = None ->
  CCParams.params_wf (ccParams m) -> 1 <= inc <= 250 -> fresh_circuit (NoteCircuitFlow m c true inc) c (Some (ccParams m, inc)).
Proof.
  intros H1 H2 H3 Hp Hi. unfold NoteCircuitFlow, ensureCCLocked. rewrite (proj2 (Z.leb_gt inc 0)) by lia. rewrite H2. simpl. rewrite H3.
  split; [done|]. split_and!; [done|lia|lia|..]; simpl; by rewrite lookup_insert_eq.
Qed.

Lemma fresh_sim m c cc :
  fresh_circuit m c cc ->
  exists f, sender_sim c m f /\ sender_inv f /\ outstanding f = 0 /\ FlowControl.sendmeExpected f = [] /\
    sendmeIncrementLocked f = cc_increment cc /\ (cc = None -> FlowControl.vegas f = None) /\ (FlowControl.vegas f = None -> cc = None).
Proof.
  intros [He Hc]. destruct cc as [[p inc]|].
  - destruct Hc as (Hp & Hi & Hc & Hw). set (f := FlowControl.EnableCongestionControl (FlowControl.SetCCParams FlowControl.new_flow p) inc).
    destruct (FlowControl.enable_inv (FlowControl.SetCCParams FlowControl.new_flow p) inc) as (H1 & H2 & H3).
    { by apply FlowControl.new_flow_inv. } { done. } { done. }
    assert (FlowControl.vegas f = Some (Vegas.newVegasState p inc) /\ FlowControl.packageWindow f = Vegas.cwnd (Vegas.newVegasState p inc) /\
      FlowControl.sendmeExpected f = []) as (Hv & Hpw & Hx).
    { unfold f, FlowControl.EnableCongestionControl. assert ((inc <? 1) || (250 <? inc) = false) as -> by (apply orb_false_iff; lia).
      simpl. rewrite (proj2 (Z.ltb_ge (CCParams.CwndInit p) 1)) by (unfold CCParams.params_wf in Hp; lia). done. }
    fold f in H1, H2, H3. exists f. split_and!; try done; [|by rewrite Hv]. constructor.
    + unfold flowOf. rewrite Hc. by rewrite Hv.
    + unfold expected. by rewrite He, Hx.
    + unfold flowOf. rewrite Hc. rewrite H3. unfold increment. simpl. by rewrite (proj2 (Z.leb_gt inc 0)) by lia.
    + unfold count. rewrite Hw. destruct H1 as [(_ & _ & _ & _ & Hm) _ _]. rewrite Hv in Hm. destruct Hm as (_ & _ & Hm). exact (eq_sym Hm).
  - destruct Hc as [Hc Hw]. exists FlowControl.new_flow. split_and!; try done; try apply FlowControl.new_flow_inv.
    constructor; unfold flowOf, expected, count; by rewrite ?Hc, ?He, ?Hw.
Qed.


(** ** Upload: the client sends DATA

    The client sends in the steps of [FlowProtocol.source].  A cell for a stream the
    exit does not have, or has no window for, is not counted there, nor is one that
    the bandwidth limiter or the remote host does not take; [u_lost] counts these. *)
Record usys := mkU {
  u_broken : bool;
  u_src : FlowProtocol.source;
  u_exit : ExitStreamManager;
  u_recv : nat;
  u_back : list bytes;
  u_lost : nat;
}.

Definition u_client (u : usys) : Flow := FlowProtocol.flow (u_src u).

(** [UCell]: the next cell reaches the exit, for stream [sid]; [bwOK] and [wrote]
    are the answers of the limiter and of the remote host. *)
Inductive uaction :=
| USend (now : Z)
| UStep (x : FlowProtocol.sstep)
| UCell (sid : Z) (bwOK wrote : bool)
| UAck (now : Z) (blocked : option bool).

(** [UGarbled]: the cell is not recognised, as in [FlowProtocol.outcome]. *)
Inductive uoutcome := UNext (u : usys) | UDisabled | UGarbled (lost : nat) | URejected (e : FlowControl.error) (lost : nat).

Definition uinit (f : Flow) (m : ExitStreamManager) : usys := mkU false (FlowProtocol.mkSource f [] 0 []) m 0 [] 0.

Section Upload.
Context (tag : nat -> bytes) (circ : ServerCircuit.ServerCircuit).
Notation c := (ServerCircuit.CircuitID circ).

(** The SENDME body [HandleData] sends when a digest is due. *)
Definition sendme_body (d : option bytes) : list bytes :=
  match d with
  | Some d => if tag_ok d then match Sendme.EncodeSendmeV1 d with Ok p => [p] | Err _ => [] end else []
  | None => []
  end.

(** A DATA cell at the exit: [NoteFwdDigest], then what [HandleData] does to the
    accounts of the circuit; whether the cell was counted. *)
Definition upload_cell (m : ExitStreamManager) (sid : Z) (digest : bytes) (bwOK wrote : bool) :
    ExitStreamManager * list bytes * bool :=
  let m := NoteFwdDigest m c digest in
  match lookup_stream m (c, sid) with
  | None => (m, [], false)
  | Some (o, es) =>
      if deliverWindow es <=? 0 then (m, [], false)
      else
        let m := update_stream m o (mkStream (conn es) (packageWindow es) (deliverWindow es - 1) (deliverCount es)
                                      (halfClosed es) (held es) (exitPort es)) in
        if negb bwOK then (m, [], false)
        else if negb wrote then (m, [], false)
        else let '(m, d, _) := data_delivered m circ sid in (m, sendme_body d, true)
  end.

Definition set_usrc (u : usys) (q : FlowProtocol.source) : usys :=
  mkU (u_broken u) q (u_exit u) (u_recv u) (u_back u) (u_lost u).

Definition uact (x : uaction) (u : usys) : uoutcome :=
  match x with
  | USend now =>
      match FlowProtocol.whole_send tag now (u_src u) with None => UDisabled | Some q => UNext (set_usrc u q) end
  | UStep x =>
      match FlowProtocol.source_step tag x (u_src u) with None => UDisabled | Some q => UNext (set_usrc u q) end
  | UCell sid bwOK wrote =>
      match FlowProtocol.wire (u_src u) with
      | [] => UDisabled
      | n :: rest =>
          if negb (n =? u_recv u)%nat then UGarbled (u_lost u)
          else
            let q := u_src u in
            let '(m, bodies, counted) := upload_cell (u_exit u) sid (tag n) bwOK wrote in
            UNext (mkU (u_broken u) (FlowProtocol.mkSource (FlowProtocol.flow q) (FlowProtocol.senders q) (FlowProtocol.nenc q) rest)
                     m (S (u_recv u)) (u_back u ++ bodies) (if counted then u_lost u else S (u_lost u)))
      end
  | UAck now blocked =>
      match u_back u with
      | [] => UDisabled
      | payload :: rest =>
          let q := u_src u in
          match processCircuitSendme (u_broken u) now blocked (FlowProtocol.flow q) payload with
          | (_, _, Some e) => URejected e (u_lost u)
          | (b, f, None) =>
              UNext (mkU b (FlowProtocol.mkSource f (FlowProtocol.senders q) (FlowProtocol.nenc q) (FlowProtocol.wire q))
                       (u_exit u) (u_recv u) rest (u_lost u))
          end
      end
  end.

Fixpoint urun (l : list uaction) (u : usys) : uoutcome :=
  match l with
  | [] => UNext u
  | x :: l => match uact x u with UNext u => urun l u | UDisabled => urun l u | r => r end
  end.

(** One sender at a time, and no SENDME processed before its tag is recorded. *)
Definition uorderly1 (u : usys) (x : uaction) : bool :=
  match x with
  | USend _ | UStep FlowProtocol.SReserve => bool_decide (FlowProtocol.senders (u_src u) = [])
  | UAck _ _ => FlowProtocol.tags_known (u_src u)
  | _ => true
  end.

Fixpoint uorderly (l : list uaction) (u : usys) : bool :=
  match l with
  | [] => true
  | x :: l => uorderly1 u x && match uact x u with UNext u => uorderly l u | UDisabled => uorderly l u | _ => true end
  end.

Context (inc : Z) (Hinc : 1 <= inc <= 250).
Context (Htag : forall n, tag_ok (tag n) = true /\ Forall is_byte (tag n)).

Record usim (u : usys) (s : FlowProtocol.sys) : Prop := {
  us_broken : FlowProtocol.broken s = u_broken u;
  us_src : FlowProtocol.src s = u_src u;
  us_recv : FlowProtocol.nrecv s = u_recv u;
  us_tasks : FlowProtocol.tasks s = [];
  us_back : FlowProtocol.back s = u_back u;
  us_count : FlowControl.sendmeReceived (FlowProtocol.receiver s) = count (circInCount (u_exit u)) c;
  us_inc : increment (flowOf (u_exit u) c) = inc;
  us_lost : u_lost u = O;
}.

(** What a counted cell does to the exit. *)
Lemma upload_counted m sid n bw wr m' bodies :
  upload_cell m sid (tag n) bw wr = (m', bodies, true) ->
  let k := count (circInCount m) c + 1 in
  let due := increment (flowOf m c) <=? k in
  flowOf m' c = flowOf m c /\ count (circInCount m') c = (if due then 0 else k) /\
  bodies = if due then [Sendme.sendme_image (tag n)] else [].
Proof.
  destruct (Htag n) as [Ht Hb]. unfold upload_cell.
  assert (NoteFwdDigest m c (tag n) = set_digest m c (tag n)) as ->.
  { unfold NoteFwdDigest, tag_ok in *. apply orb_true_iff in Ht. case_if; [|done]. bool_to_prop. destruct Ht; bool_to_prop; done. }
  destruct (lookup_stream _ (c, sid)) as [[o es]|]; [|done]. case_if; [done|]. set (m1 := update_stream _ o _).
  assert (flowOf m1 c = flowOf m c /\ circInCount m1 = circInCount m /\ lastFwdDigest m1 !! c = Some (tag n)) as (Hf & Hc & Hd).
  { unfold m1. simpl. by rewrite lookup_insert_eq. }
  clearbody m1. destruct (negb bw); [done|]. destruct (negb wr); [done|].
  unfold data_delivered. rewrite Hf, Hc. cbv zeta. fold (increment (flowOf m c)).
  set (due := increment _ <=? _).
  assert (sendme_body (if due then Some (default [] (lastFwdDigest (set_in m1 c (if due then 0 else count (circInCount m) c + 1)) !! c)) else None)
    = if due then [Sendme.sendme_image (tag n)] else []) as Hbody.
  { simpl. rewrite Hd. simpl. unfold sendme_body. destruct due; [|done]. rewrite Ht.
    rewrite Sendme.EncodeSendmeV1_image; [done|]. split; [done|]. unfold tag_ok in Ht. apply orb_true_iff in Ht. destruct Ht; bool_to_prop; auto. }
  intros Hx. destruct (lookup_stream (set_in m1 c _) (c, sid)) as [[o' es']|]; repeat case_if; simplify_eq;
    (split_and!; [exact Hf | unfold count; simpl; by rewrite lookup_insert_eq | by rewrite <- Hbody]).
Qed.

Notation inv := (sys_inv tag inc 1000 false).

(** With no SENDME pending, the simulating receiver can take a cell. *)
Lemma recv_possible s m b a n rest :
  inv s m b a -> FlowProtocol.tasks s = [] -> FlowProtocol.wire (FlowProtocol.src s) = n :: rest ->
  let due := inc <=? FlowControl.sendmeReceived (FlowProtocol.receiver s) + 1 in
  let q := FlowProtocol.src s in
  n = FlowProtocol.nrecv s /\
  exists s', FlowProtocol.act tag FlowProtocol.ActRecv s = FlowProtocol.Next s' /\
    FlowProtocol.broken s' = FlowProtocol.broken s /\
    FlowProtocol.src s' = FlowProtocol.mkSource (FlowProtocol.flow q) (FlowProtocol.senders q) (FlowProtocol.nenc q) rest /\
    FlowProtocol.nrecv s' = S (FlowProtocol.nrecv s) /\ FlowProtocol.back s' = FlowProtocol.back s /\
    FlowProtocol.tasks s' = (if due then [tag n] else []) /\
    FlowControl.sendmeReceived (FlowProtocol.receiver s') =
      (if due then 0 else FlowControl.sendmeReceived (FlowProtocol.receiver s) + 1) /\
    sendmeIncrementLocked (FlowProtocol.receiver s') = inc.
Proof.
  intros Hi Ht Hf due q. destruct Hi as [Hst Ho Hac Hnr Hfw Hts Hb He Hs Hsi Hout Hri Hd Hn Hr Hcl].
  assert (0 <= m) as Hm by nia. pose proof (Z.mod_pos_bound m inc ltac:(lia)) as Hmm. pose proof (Z.div_mod m inc ltac:(lia)) as Hdm.
  assert (b = m / inc) as ->.
  { rewrite Ht in Hts. symmetry in Hts. apply fmap_nil_inv, (f_equal length) in Hts. rewrite length_seqZ in Hts. simpl in Hts.
    assert (b <= m / inc) by (apply Z.div_le_lower_bound; lia). lia. }
  assert (n = FlowProtocol.nrecv s) as Hnn.
  { rewrite Hf, <- Hnr in Hfw. by destruct (_ - _)%nat; simplify_eq/=. }
  split; [done|].
  unfold FlowProtocol.act. rewrite Hf, <- Hnn, Nat.eqb_refl. cbn [negb]. unfold FlowControl.decrementDeliverWindowAndTakeSendme.
  rewrite (proj2 (Z.leb_gt _ _)) by lia. cbv zeta.
  set (r := FlowControl.set_deliver _ _ _). assert (sendmeIncrementLocked r = inc) as Hir by exact Hri. rewrite Hir.
  assert (FlowControl.sendmeReceived r = FlowControl.sendmeReceived (FlowProtocol.receiver s) + 1) as Hrr
    by (unfold r; simpl; rewrite i64_id by (word; lia); done).
  rewrite Hrr. fold due. destruct due eqn:Edue; (eexists; split; [done|]); simpl; rewrite ?Ht, ?Hnn; split_and!; try done.
  unfold due in Edue. bool_to_prop. rewrite i64_id by (word; lia). lia.
Qed.

Lemma simulate_cell u s m b a sid bw wr m' bodies n rest :
  usim u s -> inv s m b a -> FlowProtocol.wire (u_src u) = n :: rest ->
  upload_cell (u_exit u) sid (tag n) bw wr = (m', bodies, true) ->
  let q := u_src u in
  exists s' m1 b1 a1, inv s' m1 b1 a1 /\
    usim (mkU (u_broken u) (FlowProtocol.mkSource (FlowProtocol.flow q) (FlowProtocol.senders q) (FlowProtocol.nenc q) rest)
            m' (S (u_recv u)) (u_back u ++ bodies) (u_lost u)) s'.
Proof.
  intros [U1 U2 U3 U5 U6 U7 U8 U9] Hi Hf Hu q. apply upload_counted in Hu as (Hfl & Hc & ->). rewrite U8, <- U7 in *.
  assert (0 < 1000 < 2 ^ 31) as HW by (word; lia). unfold q. rewrite <- U2 in *.
  destruct (recv_possible s m b a n rest Hi U5 Hf) as (Hnn & s1 & Ha & R1 & R2 & R3 & R5 & R6 & R7 & R8).
  pose proof (FlowProtocol.act_recv _ _ _ _ Hinc HW _ _ _ _ _ Hi Ha) as Hi1. destruct (inc <=? _) eqn:Edue.
  - pose proof (FlowProtocol.act_task _ _ _ _ Hinc HW (tags_auth tag Htag) _ _ _ _ Hi1) as Hi2.
    unfold FlowProtocol.act in Hi2. rewrite R6 in Hi2. cbn [lookup list_lookup] in Hi2.
    destruct (Htag n) as [Ht Hb]. assert (Sendme.tag_wf (tag n)) as Hwf.
    { split; [done|]. unfold tag_ok in Ht. apply orb_true_iff in Ht. destruct Ht; bool_to_prop; auto. }
    destruct (FlowProtocol.sendCircuitSendme_sent (FlowProtocol.receiver s1) _ _ (tag_ok_auth _ Ht) Hwf) as (rc & Hsent & Hrc).
    rewrite Hsent in Hi2. do 4 eexists. split; [exact Hi2|]. constructor; simpl; congruence.
  - do 4 eexists. split; [exact Hi1|]. constructor; simpl; rewrite ?app_nil_r; congruence.
Qed.

(** One step, as long as no cell was lost. *)
Lemma uact_inv u s m b a x :
  usim u s -> inv s m b a -> uorderly1 u x = true ->
  match uact x u with
  | UNext u' => u_lost u' = O -> exists s' m' b' a', usim u' s' /\ inv s' m' b' a'
  | UDisabled => True
  | UGarbled _ | URejected _ _ => False
  end.
Proof.
  assert (0 < 1000 < 2 ^ 31) as HW by (word; lia).
  assert (forall n, exists d, sendmeAuthTag (tag n) = Some d /\ Sendme.tag_wf d) as Ha by by apply tags_auth.
  intros Hu Hi Hx. pose proof Hu as [U1 U2 U3 U5 U6 U7 U8 U9].
  destruct x as [now|x|sid bw wr|now blocked]; cbn [uact uorderly1] in *; rewrite <- U2 in *.
  - destruct (FlowProtocol.whole_send tag now _) as [q|] eqn:E; [|done]. intros _. apply bool_decide_eq_true in Hx.
    exists (FlowProtocol.set_src s q), m, b, a. split; [by constructor|]. by eapply FlowProtocol.whole_send_inv.
  - destruct (FlowProtocol.source_step tag x _) as [q|] eqn:E; [|done]. intros _.
    exists (FlowProtocol.set_src s q), m, b, a. split; [by constructor|].
    eapply FlowProtocol.source_step_inv; [exact Hinc|exact Ha|exact Hi| |exact E].
    intros ->. by apply bool_decide_eq_true in Hx.
  - destruct (FlowProtocol.wire (FlowProtocol.src s)) as [|n rest] eqn:Ef; [done|].
    destruct (recv_possible s m b a n rest Hi U5 Ef) as (-> & _). rewrite U3, Nat.eqb_refl. cbn [negb].
    destruct (upload_cell (u_exit u) sid (tag (u_recv u)) bw wr) as [[m' bodies] counted] eqn:Ec.
    destruct counted; [|done]. intros _. rewrite U2 in *.
    destruct (simulate_cell u s m b a sid bw wr m' bodies (u_recv u) rest Hu Hi) as (s' & m1 & b1 & a1 & Hi' & Hus');
      [by rewrite <- U3|done|]. by exists s', m1, b1, a1.
  - destruct (u_back u) as [|payload rest] eqn:Eb; [done|].
    pose proof (FlowProtocol.act_ack _ _ _ _ Hinc Ha s m b a now blocked Hi Hx) as Hk. cbn [FlowProtocol.act] in Hk.
    rewrite U6, ?Eb, U1 in Hk. unfold FlowProtocol.sender in Hk.
    destruct (processCircuitSendme _ _ _ _ _) as [[b' f] [e|]]; [done|]. intros _.
    do 4 eexists. split; [|exact Hk]. by constructor.
Qed.

Lemma lost_step u x : match uact x u with
  | UNext u' => (u_lost u <= u_lost u')%nat
  | UDisabled => True
  | UGarbled lost | URejected _ lost => lost = u_lost u
  end.
Proof.
  destruct x as [now|x|sid bw wr|now blocked]; cbn [uact].
  - by destruct (FlowProtocol.whole_send _ _ _).
  - by destruct (FlowProtocol.source_step _ _ _).
  - destruct (FlowProtocol.wire (u_src u)); [done|]. case_if; [done|].
    destruct (upload_cell _ _ _ _ _) as [[m' bodies] []]; simpl; lia.
  - destruct (u_back u); [done|]. by destruct (processCircuitSendme _ _ _ _ _) as [[b' f] [e|]].
Qed.

Lemma urun_inv l u s m b a :
  (u_lost u = O -> usim u s /\ inv s m b a) -> uorderly l u = true ->
  match urun l u with
  | UNext u' => u_lost u' = O -> exists s' m' b' a', usim u' s' /\ inv s' m' b' a'
  | UDisabled => False
  | UGarbled lost | URejected _ lost => (0 < lost)%nat
  end.
Proof.
  revert u s m b a. induction l as [|x l IH]; intros u s m b a Hu Ho; cbn [urun]; [intros H0; exists s, m, b, a; by apply Hu|].
  cbn [uorderly] in Ho. apply andb_true_iff in Ho as [Hx Ho]. pose proof (lost_step u x) as Hl.
  assert (u_lost u = O -> match uact x u with
    | UNext u' => u_lost u' = O -> exists s' m' b' a', usim u' s' /\ inv s' m' b' a'
    | UDisabled => True
    | UGarbled _ | URejected _ _ => False
    end) as Hs by (intros H0; destruct (Hu H0) as [Hus Hi]; by eapply uact_inv).
  destruct (uact x u) as [u'| |lost|e lost].
  - destruct (decide (u_lost u' = O)) as [H0|H0].
    + destruct (Hs ltac:(lia) H0) as (s' & m' & b' & a' & Hus & Hi). by eapply (IH u' s' m' b' a').
    + by eapply (IH u' s m b a).
  - by eapply IH.
  - subst lost. destruct (u_lost u); [by destruct (Hs eq_refl)|lia].
  - subst lost. destruct (u_lost u); [by destruct (Hs eq_refl)|lia].
Qed.

End Upload.

(** The two halves are what the handlers do: [HandleData] and the sending of a
    DATA cell change the accounts as [upload_cell] and [put] do, and otherwise only
    the statistics of writing. *)
Definition no_writes (m : ExitStreamManager) : ExitStreamManager :=
  mkManager (objs m) (nextObj m) (streams m) (circOutWindow m) (circInCount m) (circStreams m) (circCC m)
    (lastFwdDigest m) (circExpectedSendme m) ∅ (ccParams m) (gate m).

Lemma orWriteOf_keeps m c : no_writes (orWriteOf m c).1 = no_writes m.
Proof. unfold orWriteOf, orWriteLocked. by destruct (orWrites m !! c). Qed.

Lemma afterOutboundDATA_writes m c s c' sid tag now :
  afterOutboundDATA (set_writes m c s) c' sid tag now = set_writes (afterOutboundDATA m c' sid tag now) c s.
Proof.
  unfold afterOutboundDATA. change (flowOf (set_writes m c s) c') with (flowOf m c'). generalize (flowOf m c'). intros flow.
  destruct (vegas flow); cbv zeta.
  { destruct (tag_ok tag && _); reflexivity. }
  change (count (circOutWindow (set_writes m c s)) c') with (count (circOutWindow m) c').
  set (w := count (circOutWindow m) c').
  assert ((if 0 <? w then set_out (set_writes m c s) c' (w - 1) else set_writes m c s) =
    set_writes (if 0 <? w then set_out m c' (w - 1) else m) c s) as -> by (destruct (0 <? w); reflexivity).
  generalize (if 0 <? w then set_out m c' (w - 1) else m). clear m w. intros m.
  change (lookup_stream (set_writes m c s) (c', sid)) with (lookup_stream m (c', sid)).
  assert (forall P, match P with
    | Some (o, es) => if 0 <? packageWindow es then update_stream (set_writes m c s) o (mkStream (conn es) (packageWindow es - 1)
        (deliverWindow es) (deliverCount es) (halfClosed es) (held es) (exitPort es)) else set_writes m c s
    | None => set_writes m c s end = set_writes (match P with
    | Some (o, es) => if 0 <? packageWindow es then update_stream m o (mkStream (conn es) (packageWindow es - 1)
        (deliverWindow es) (deliverCount es) (halfClosed es) (held es) (exitPort es)) else m
    | None => m end) c s) as ->.
  { intros [[o es]|]; [destruct (0 <? packageWindow es)|]; reflexivity. }
  set (m1 := match lookup_stream m (c', sid) with None => m | _ => _ end). clearbody m1.
  change (circOutWindow (set_writes m1 c s)) with (circOutWindow m1). destruct (_ && tag_ok tag); reflexivity.
Qed.

Section Handlers.
Context `{ServerCircuit.Primitives} (sends : Z -> Cell.Cell -> bool) (took : Z -> Cell.Cell -> Z).

Lemma sendRelay_accounts w conn sid cmd data now :
  let r := sendRelay sends took w conn sid cmd data now in
  no_writes r.1.1.1 = no_writes w.1 \/
  cmd = RelayCell.RelayData /\ r.2 = None /\ exists circ c tag,
    sendRelay_originate w.2 sid cmd data = (circ, Ok (c, tag)) /\
    no_writes r.1.1.1 = no_writes (afterOutboundDATA w.1 (ServerCircuit.CircuitID circ) sid tag now).
Proof.
  destruct w as [m circ]. cbv zeta. unfold sendRelay. cbn [fst snd].
  destruct (sendRelay_originate circ sid cmd data) as [circ' [[c tag]|e]]; [|by left]. unfold sendRelay_write.
  assert (exists ws, orWriteOf m (ServerCircuit.CircuitID circ') = (fst (orWriteOf m (ServerCircuit.CircuitID circ')), ws)) as [ws ->]
    by (eexists; apply surjective_pairing).
  pose proof (orWriteOf_keeps m (ServerCircuit.CircuitID circ')) as Hk. set (m1 := fst _) in *.
  destruct (ServerCircuit.write_cell _ _ _) as [out [e|]]; cbn [fst snd]; [by left|].
  destruct (Z.eqb_spec cmd RelayCell.RelayData) as [->|]; cbn [fst snd]; [|by left].
  right. split_and!; [done..|]. exists circ', c, tag. split; [done|]. rewrite afterOutboundDATA_writes.
  unfold m1, orWriteOf, orWriteLocked. destruct (orWrites m !! _); cbn [fst]; [done|]. by rewrite afterOutboundDATA_writes.
Qed.

Lemma sendRelay_other w conn sid cmd data now :
  cmd <> RelayCell.RelayData -> no_writes (sendRelay sends took w conn sid cmd data now).1.1.1 = no_writes w.1.
Proof. intros Hc. by destruct (sendRelay_accounts w conn sid cmd data now) as [H'|[H' _]]. Qed.

Lemma HandleData_upload m circ conn sid digest bwOK wrote data now :
  no_writes (HandleData sends took id bwOK wrote (NoteFwdDigest m (ServerCircuit.CircuitID circ) digest, circ) conn sid data now).1.1.1 =
  no_writes (upload_cell circ m sid digest bwOK wrote).1.1.
Proof.
  unfold HandleData, upload_cell. set (m1 := NoteFwdDigest _ _ _). clearbody m1.
  destruct (lookup_stream _ _) as [[o es]|]; [|done]. case_if; [by apply sendRelay_other|]. unfold id.
  destruct (negb bwOK); [done|]. destruct (negb wrote); [by apply sendRelay_other|].
  destruct (data_delivered _ _ _) as [[m2 d] ss]. cbn [fst snd].
  assert (forall w, no_writes (let '(w, out', _) := sendRelay sends took w conn sid RelayCell.RelaySendme [] now in (w, out', @None error)).1.1.1
    = no_writes w.1) as Hs.
  { intros w. rewrite <- (sendRelay_other w conn sid RelayCell.RelaySendme [] now) by done. by destruct (sendRelay _ _ _ _ _ _ _ _) as [[w' o'] e]. }
  assert (forall w out, no_writes (if ss then let '(w, out', _) := sendRelay sends took w conn sid RelayCell.RelaySendme [] now in
    (w, out ++ out', @None error) else (w, out, @None error)).1.1.1 = no_writes w.1) as Hss.
  { intros w out. destruct ss; [|done]. specialize (Hs w). by destruct (sendRelay _ _ _ _ _ _ _ _) as [[w' o'] e]. }
  destruct d as [d|]; [|by apply (Hss (m2, circ) [])]. destruct (tag_ok d); [|by apply (Hss (m2, circ) [])].
  destruct (Sendme.EncodeSendmeV1 d) as [payload|]; [|by apply (Hss (m2, circ) [])].
  pose proof (sendRelay_other (m2, circ) conn 0 RelayCell.RelaySendme payload now ltac:(done)) as Hx.
  destruct (sendRelay _ _ _ _ 0 _ _ _) as [[w' o'] e]. rewrite Hss. exact Hx.
Qed.

End Handlers.

(** C20: The same when data flows up, with one goroutine at a time sending at the
    client and no SENDME processed before its tag is recorded.  As long as every DATA
    cell that arrives is counted (it belongs to a stream the exit has, with room in
    the stream's window, and the bandwidth limiter and the remote host take its
    bytes), the client accepts every SENDME of the exit, and the cells it counts
    as outstanding are those it has reserved for, those under way, those the exit
    has counted and those a SENDME under way acknowledges.  A cell that is not
    counted breaks this: [stray_data_breaks_circuit], [failed_write_breaks_circuit]. *)
Theorem exit_upload_sound tag circ f m inc l :
  let c := ServerCircuit.CircuitID circ in
  1 <= inc <= 250 -> (forall n, tag_ok (tag n) = true /\ Forall is_byte (tag n)) ->
  sender_inv f -> outstanding f = 0 -> FlowControl.sendmeExpected f = [] -> sendmeIncrementLocked f = inc ->
  increment (flowOf m c) = inc -> count (circInCount m) c = 0 ->
  uorderly tag circ l (uinit f m) = true ->
  match urun tag circ l (uinit f m) with
  | UNext u =>
      u_lost u = O ->
      Z.of_nat (FlowProtocol.in_hand (u_src u)) + len (FlowProtocol.wire (u_src u)) +
        count (circInCount (u_exit u)) c + inc * len (u_back u) = outstanding (u_client u)
  | UDisabled => False
  | UGarbled lost | URejected _ lost => (0 < lost)%nat
  end.
Proof.
  intros c Hinc Ht Hf Ho He Hi Hm Hc Hl. assert (0 < 1000 < 2 ^ 31) as HW by (word; lia).
  set (r := FlowControl.mkFlow 0 1000 inc 0 0 [] CCParams.DefaultCCParams None false).
  assert (sendmeIncrementLocked r = inc) as Hr.
  { unfold sendmeIncrementLocked. simpl. rewrite (proj2 (Z.ltb_lt 0 inc)) by lia. done. }
  assert (sys_inv tag inc 1000 false (FlowProtocol.init f r) 0 0 0) as H0 by (apply FlowProtocol.init_inv; auto; done).
  pose proof (urun_inv tag circ inc Hinc Ht l (uinit f m) (FlowProtocol.init f r) 0 0 0) as Hrun.
  specialize (Hrun ltac:(intros _; split; [by constructor|done]) Hl). destruct (urun tag circ l _) as [u| |lost|e lost]; [|done..].
  intros Hlost. destruct (Hrun Hlost) as (s & m' & b & a & [U1 U2 U3 U5 U6 U7 U8 U9] & Hinv).
  pose proof (FlowProtocol.inv_conservation _ _ _ _ Hinc HW s m' b a Hinv) as [_ C].
  unfold FlowProtocol.fwd, FlowProtocol.sender in C. rewrite U2, U5, U6, U7 in C. unfold len in *. simpl in C.
  unfold c, u_client. lia.
Qed.

(** ** Concrete runs *)

(** An exit with streams 1, 2 and 3 on a classic circuit. *)
Definition sample_exit : ExitStreamManager :=
  fold_left (fun m sid => begin_register m sample_circ sid 7 80) [1; 2; 3] NewExitStreamManager.

Lemma sample_tag_bytes n : tag_ok (FlowProtocol.sample_tag n) = true /\ Forall is_byte (FlowProtocol.sample_tag n).
Proof.
  split; [|unfold FlowProtocol.sample_tag; auto with gotor].
  unfold tag_ok. assert (len (FlowProtocol.sample_tag n) = 20) as -> by (unfold FlowProtocol.sample_tag; lens). done.
Qed.

(** 100 cells down, and their acknowledgement. *)
Definition download_run : list daction :=
  replicate 100 (DTurn 1 0) ++ replicate 100 DRecv ++ [DTask 0; DAck 0].


(** 100 cells up, and their acknowledgement. *)
Definition upload_run : list uaction :=
  replicate 100 (USend 0) ++ replicate 100 (UCell 1 true true) ++ [UAck 0 None].

Lemma exit_upload_sound_witness :
  match urun FlowProtocol.sample_tag sample_circ upload_run (uinit FlowControl.new_flow sample_exit) with
  | UNext u => u_lost u = O ->
      Z.of_nat (FlowProtocol.in_hand (u_src u)) + len (FlowProtocol.wire (u_src u)) +
        count (circInCount (u_exit u)) 3 + 100 * len (u_back u) = outstanding (u_client u)
  | UDisabled => False
  | UGarbled lost | URejected _ lost => (0 < lost)%nat
  end.
Proof.
  assert (1 <= 100 <= 250) as H1 by lia.
  assert (uorderly FlowProtocol.sample_tag sample_circ upload_run (uinit FlowControl.new_flow sample_exit) = true) as H2
    by (vm_compute; reflexivity).
  exact (exit_upload_sound FlowProtocol.sample_tag sample_circ FlowControl.new_flow sample_exit 100 upload_run H1
    sample_tag_bytes FlowControl.new_flow_inv eq_refl eq_refl eq_refl eq_refl eq_refl H2).
Defined.

(** A DATA cell for a stream the exit has just closed is not counted at the exit,
    but it is at the client: one such cell, and the exit's next honest SENDME
    carries the tag of the 101st cell where the client expects that of the 100th.
    The client then tears the circuit down. *)
Theorem stray_data_breaks_circuit :
  urun FlowProtocol.sample_tag sample_circ
    (replicate 101 (USend 0) ++ [UCell 9 true true] ++ replicate 100 (UCell 1 true true) ++ [UAck 0 None])
    (uinit FlowControl.new_flow sample_exit) = URejected FlowControl.errDigestMismatch 1.
Proof. vm_compute. reflexivity. Qed.

(** The same happens when the stream is known and has room, but the remote host does
    not take the bytes of one cell (or the limiter refuses them): [HandleData]
    returns before it counts the cell. *)
Theorem failed_write_breaks_circuit :
  urun FlowProtocol.sample_tag sample_circ
    (replicate 101 (USend 0) ++ [UCell 1 true false] ++ replicate 100 (UCell 2 true true) ++ [UAck 0 None])
    (uinit FlowControl.new_flow sample_exit) = URejected FlowControl.errDigestMismatch 1.
Proof. vm_compute. reflexivity. Qed.

(** 999 cells on three streams, then two pumps that look before either sends, then
    the client's acknowledgements and 99 more cells. *)
Definition overshoot_run : list daction :=
  replicate 400 (DTurn 1 0) ++ replicate 400 (DTurn 2 0) ++ replicate 199 (DTurn 3 0) ++
  [DLook 1; DLook 2; DPut 0 0; DPut 0 0] ++
  mjoin (replicate 10 (replicate 100 DRecv ++ [DTask 0; DAck 0])) ++
  DRecv :: replicate 99 (DTurn 3 0) ++ replicate 99 DRecv ++ [DTask 0; DAck 0].

(** Two pumps may both see the last place in the circuit's window and both send.
    The window cannot fall below zero, so the exit counts the second cell for
    nothing, but records its tag as one to be acknowledged.  The client, which
    counts 1001 cells, will never send that tag, and the exit rejects its next
    SENDME. *)
Theorem two_pumps_break_circuit :
  drun FlowProtocol.sample_tag 3 overshoot_run (dinit sample_exit FlowControl.new_flow) = DExit errSendmeDigest.
Proof. vm_compute. reflexivity. Qed.

End ExitProtocol.
