(* ===== verification/ExitRules.v ===== *)
(** * Exit policies in directory documents (pkg/directory/exitrules.go, pkg/directory/exitpolicy.go)

    The full accept/reject rules of a server descriptor, the port summaries of a
    consensus or microdescriptor, their parsers, and what they answer for an
    address and port.  Of a relay entry, the fields these answers depend on. *)

From Stdlib Require Import String.
From S2P Require Import Prelude GoStrings GoNet.
Import GoStrings GoNet.

Module ExitRules.

Inductive error :=
| errEmpty
| errInvalid
| errVerb (w : bytes)
| errUnclosed
| errNoPort
| errPort (s : bytes)
| errRange (s : bytes)
| errAddress (s : bytes)
| errPrefix (s : bytes)
| errMask (s : bytes)
| errLine (l : bytes)
| errNoRules.

(** ** Port summaries *)

Abbreviation portRange := (Z * Z)%type.

Record ExitPolicySummary := mkSummary { acceptList : bool; ranges : list portRange }.

Definition parsePort (s : bytes) : result error Z :=
  match Atoi s with
  | None => Err (errPort s)
  | Some n => if (n <? 1) || (65535 <? n) then Err (errPort s) else Ok n
  end.

(** The shape shared by [parsePortOrRange] and [parsePortSpec]. *)
Definition parse_range (port : bytes -> result error Z) (s : bytes) : result error portRange :=
  let '(lo, hi, ok) := Cut s 45 in
  if ok : bool then
    let? a := port lo in
    let? b := port hi in
    if b <? a then Err (errRange s) else Ok (a, b)
  else
    let? p := port s in Ok (p, p).

Definition parsePortOrRange (s : bytes) : result error portRange := parse_range parsePort s.

(** The loop over the parts of a list; blank parts are skipped. *)
Fixpoint parse_parts (parts : list bytes) : result error (list portRange) :=
  match parts with
  | [] => Ok []
  | part :: parts =>
      let part := TrimSpace part in
      if string_eqb part [] then parse_parts parts
      else
        let? r := parsePortOrRange part in
        let? rs := parse_parts parts in
        Ok (r :: rs)
  end.

Definition parsePortList (s : bytes) : result error (list portRange) :=
  if string_eqb s [] then Err errEmpty
  else
    let? ranges := parse_parts (Split s 44) in
    match ranges with [] => Err errEmpty | _ => Ok ranges end.

(** Two fields at least, behind an optional keyword. *)
Definition summary_fields (fields : list bytes) : option (bytes * list bytes) :=
  match fields with
  | first :: rest =>
      let fields := if existsb (string_eqb first) [lit "p"; lit "p6"; lit "ipv6-policy"] then rest else fields in
      match rest, fields with
      | _ :: _, verb :: ((_ :: _) as rest) => Some (verb, rest)
      | _, _ => None
      end
  | [] => None
  end.

Definition ParseExitPolicySummary (line : bytes) : result error ExitPolicySummary :=
  let line := TrimSpace line in
  if string_eqb line [] then Err errEmpty
  else
    match summary_fields (Fields line) with
    | None => Err errInvalid
    | Some (verb, rest) =>
        let? acceptList :=
          if string_eqb verb (lit "accept") then Ok true
          else if string_eqb verb (lit "reject") then Ok false
          else Err (errVerb verb) in
        let? ranges := parsePortList (concat rest) in
        Ok (mkSummary acceptList ranges)
    end.

Definition format_range (r : portRange) : bytes :=
  if r.1 =? r.2 then print_int r.1 else print_int r.1 ++ [45] ++ print_int r.2.

Definition ControlLine (p : option ExitPolicySummary) (prefix : bytes) : bytes :=
  match p with
  | None => []
  | Some p =>
      match ranges p with
      | [] => []
      | rs =>
          (if string_eqb prefix [] then lit "p" else prefix) ++ [32] ++
          (if acceptList p then lit "accept" else lit "reject") ++ [32] ++ Join (map format_range rs) 44
      end
  end.

(** [ExitPolicySummary.Allows] *)
Definition summary_allows (p : option ExitPolicySummary) (port : Z) : bool :=
  match p with
  | None => false
  | Some p =>
      if (port <? 1) || (65535 <? port) then false
      else
        let listed := existsb (fun r => (r.1 <=? port) && (port <=? r.2)) (ranges p) in
        if acceptList p then listed else negb listed
  end.

(** ** Full rules *)

Record exitRule := mkRule {
  accept : bool;
  allV4 : bool;
  allV6 : bool;
  net : option IPNet;
  lo : Z;
  hi : Z;
}.

Record ExitPolicy := mkPolicy { rules : list exitRule }.

(** Port 0 is allowed here. *)
Definition parsePolicyPort (s : bytes) : result error Z :=
  match Atoi s with
  | None => Err (errPort s)
  | Some n => if (n <? 0) || (65535 <? n) then Err (errPort s) else Ok n
  end.

Definition parsePortSpec (s : bytes) : result error (Z * Z) :=
  if string_eqb s [42] then Ok (1, 65535) else parse_range parsePolicyPort s.

(** The address part and the text behind the colon. *)
Definition split_pattern (pattern : bytes) : result error (bytes * bytes) :=
  if string_eqb pattern [] then Err errEmpty
  else if HasPrefix pattern [91] then
    match IndexByte pattern 93 with
    | None => Err errUnclosed
    | Some e =>
        let addr := take (S e) pattern in
        let rest := drop (S e) pattern in
        let? (addr, rest) :=
          if HasPrefix rest [47] then
            match IndexByte rest 58 with
            | None => Err errNoPort
            | Some c => Ok (addr ++ take c rest, drop c rest)
            end
          else Ok (addr, rest) in
        if negb (HasPrefix rest [58]) then Err errNoPort else Ok (addr, drop 1 rest)
    end
  else
    match LastIndexByte pattern 58 with
    | None => Err errNoPort
    | Some c => Ok (take c pattern, drop (S c) pattern)
    end.

Definition parseExitPattern (pattern : bytes) : result error (bytes * Z * Z) :=
  let? (addr, portspec) := split_pattern pattern in
  let? (lo, hi) := parsePortSpec portspec in
  Ok (addr, lo, hi).

(** A network of the [bits] leading bits. *)
Definition cidr (ip : bytes) (bits size : Z) (e : error) : result error IPNet :=
  match CIDRMask bits size with
  | None => Err e
  | Some mask => match Mask ip mask with Some ip => Ok (mkNet ip mask) | None => Err e end
  end.

Definition parseIPv6AddrSpec (addr : bytes) : result error IPNet :=
  match IndexByte addr 93 with
  | None => Err (errAddress addr)
  | Some e =>
      if negb (HasPrefix addr [91]) then Err (errAddress addr)
      else
        let ipStr := slice addr 1 e in
        let rest := drop (S e) addr in
        let? bits :=
          if string_eqb rest [] then Ok 128
          else if negb (HasPrefix rest [47]) then Err (errAddress addr)
          else match Atoi (drop 1 rest) with
               | None => Err (errPrefix rest)
               | Some n => if (n <? 0) || (128 <? n) then Err (errPrefix rest) else Ok n
               end in
        match ParseIP ipStr with
        | None => Err (errAddress ipStr)
        | Some ip => match To4 ip with Some _ => Err (errAddress ipStr) | None => cidr ip bits 128 (errPrefix rest) end
        end
  end.

Definition parseIPv4AddrSpec (addr : bytes) : result error IPNet :=
  let '(host, maskPart, hasMask) := Cut addr 47 in
  match ParseIP host with
  | None => Err (errAddress host)
  | Some ip =>
      match To4 ip with
      | None => Err (errAddress addr)
      | Some ip4 =>
          if negb hasMask then cidr ip4 32 32 (errPrefix maskPart)
          else
            match ParseIP maskPart with
            | Some dotted =>
                match To4 dotted with
                | None => Err (errMask maskPart)
                | Some mask =>
                    if (MaskSize mask).1 <? 0 then Err (errMask maskPart)
                    else match Mask ip4 mask with Some ip => Ok (mkNet ip mask) | None => Err (errMask maskPart) end
                end
            | None =>
                match Atoi maskPart with
                | None => Err (errPrefix maskPart)
                | Some n => if (n <? 0) || (32 <? n) then Err (errPrefix maskPart) else cidr ip4 n 32 (errPrefix maskPart)
                end
            end
      end
  end.

Definition parseAddrSpec (addr : bytes) : result error IPNet :=
  if HasPrefix addr [91] then parseIPv6AddrSpec addr else parseIPv4AddrSpec addr.

Definition parseExitRule (fields : list bytes) : result error exitRule :=
  match fields with
  | verb :: pattern :: _ =>
      let? accept :=
        if string_eqb verb (lit "accept") then Ok true
        else if string_eqb verb (lit "reject") then Ok false
        else Err (errVerb verb) in
      let? (addr, lo, hi) := parseExitPattern pattern in
      if string_eqb addr (lit "*") || string_eqb addr (lit "*4") then Ok (mkRule accept true false None lo hi)
      else if string_eqb addr (lit "*6") then Ok (mkRule accept false true None lo hi)
      else let? n := parseAddrSpec addr in Ok (mkRule accept false false (Some n) lo hi)
  | _ => Err errInvalid
  end.

(** The loop over the lines. *)
Fixpoint parse_lines (lines : list bytes) (rules : list exitRule) (ipv6 : option ExitPolicySummary) :
    result error (list exitRule * option ExitPolicySummary) :=
  match lines with
  | [] => Ok (rules, ipv6)
  | raw :: lines =>
      let line := TrimSpace raw in
      if string_eqb line [] || HasPrefix line [35] then parse_lines lines rules ipv6
      else
        match Fields line with
        | [] => parse_lines lines rules ipv6
        | (word :: _) as fields =>
            if string_eqb word (lit "accept") || string_eqb word (lit "reject") then
              let? rule := parseExitRule fields in parse_lines lines (rules ++ [rule]) ipv6
            else if string_eqb word (lit "ipv6-policy") then
              let? pol := ParseExitPolicySummary line in parse_lines lines rules (Some pol)
            else Err (errLine line)
        end
  end.

Definition ParseExitPolicyLines (lines : list bytes) : result error (option ExitPolicy * option ExitPolicySummary) :=
  let? (rules, ipv6) := parse_lines lines [] None in
  match rules, ipv6 with
  | [], None => Err errNoRules
  | [], _ => Ok (None, ipv6)
  | _, _ => Ok (Some (mkPolicy rules), ipv6)
  end.

Definition is_v4 (ip : bytes) : bool := match To4 ip with Some _ => true | None => false end.

Definition hasIPv6Rule (p : option ExitPolicy) : bool :=
  match p with
  | None => false
  | Some p => existsb (fun r => allV6 r || match net r with Some n => negb (is_v4 (net_ip n)) | None => false end) (rules p)
  end.

(** [None] is the nil address. *)
Definition matchesFamily (r : exitRule) (ip : option bytes) : bool :=
  match ip with
  | None => false
  | Some ip =>
      match To4 ip with
      | Some v4 => allV4 r || match net r with Some n => is_v4 (net_ip n) && ContainsIP n v4 | None => false end
      | None => allV6 r || match net r with Some n => negb (is_v4 (net_ip n)) && ContainsIP n ip | None => false end
      end
  end.

Definition matchesPort (r : exitRule) (port : Z) : bool := (lo r <=? port) && (port <=? hi r).

(** The first rule that matches decides; none: accepted. *)
Fixpoint first_match (rules : list exitRule) (ip : option bytes) (port : Z) : bool :=
  match rules with
  | [] => true
  | r :: rules => if matchesFamily r ip && matchesPort r port then accept r else first_match rules ip port
  end.

Definition Allows (p : option ExitPolicy) (ip : option bytes) (port : Z) : bool :=
  match p, ip with
  | Some p, Some _ => if (port <? 1) || (65535 <? port) then false else first_match (rules p) ip port
  | _, _ => false
  end.

(** The loop of [AllowsUnknown]. *)
Fixpoint unknown_match (rules : list exitRule) (port : Z) (maybeAccept maybeReject : bool) : bool :=
  match rules with
  | [] => if maybeAccept then true else if maybeReject then false else true
  | r :: rules =>
      if negb (matchesPort r port) then unknown_match rules port maybeAccept maybeReject
      else if allV4 r then accept r
      else match net r with
           | Some n =>
               if is_v4 (net_ip n) then
                 if accept r then unknown_match rules port true maybeReject else unknown_match rules port maybeAccept true
               else unknown_match rules port maybeAccept maybeReject
           | None => unknown_match rules port maybeAccept maybeReject
           end
  end.

Definition AllowsUnknown (p : option ExitPolicy) (port : Z) : bool :=
  match p with
  | None => false
  | Some p => if (port <? 1) || (65535 <? port) then false else unknown_match (rules p) port false false
  end.

(** ** A relay entry *)

(** The fields of [Relay] the answers depend on. *)
Record Relay := mkRelay {
  ExitRules : option ExitPolicy;
  ExitPolicy4 : option ExitPolicySummary;
  ExitPolicyIPv6 : option ExitPolicySummary;
  IsExit : bool;
}.

Definition HasParsedPolicy (r : option Relay) : bool :=
  match r with
  | None => false
  | Some r => bool_decide (is_Some (ExitPolicy4 r)) || bool_decide (is_Some (ExitPolicyIPv6 r)) || bool_decide (is_Some (ExitRules r))
  end.

Definition HasParsedIPv6Policy (r : option Relay) : bool :=
  match r with None => false | Some r => bool_decide (is_Some (ExitPolicyIPv6 r)) end.

Definition CanExitToPort (r : option Relay) (port : Z) : bool :=
  match r with
  | None => false
  | Some r =>
      match ExitRules r with
      | Some _ => AllowsUnknown (ExitRules r) port
      | None => match ExitPolicy4 r with Some _ => summary_allows (ExitPolicy4 r) port | None => IsExit r end
      end
  end.

Definition CanExitTo (r : option Relay) (ip : option bytes) (port : Z) : bool :=
  match r with
  | None => false
  | Some e =>
      match ip with
      | None => CanExitToPort r port
      | Some ip =>
          if (port <? 1) || (65535 <? port) then false
          else
            match To4 ip with
            | Some v4 =>
                match ExitRules e with
                | Some _ => Allows (ExitRules e) (Some v4) port
                | None => match ExitPolicy4 e with Some _ => summary_allows (ExitPolicy4 e) port | None => IsExit e end
                end
            | None =>
                match To16 ip with
                | None => false
                | Some _ =>
                    if hasIPv6Rule (ExitRules e) then Allows (ExitRules e) (Some ip) port
                    else match ExitPolicyIPv6 e with Some _ => summary_allows (ExitPolicyIPv6 e) port | None => false end
                end
            end
      end
  end.

Definition AllowsExit (r : option Relay) (ip : option bytes) (port : Z) : bool := CanExitTo r ip port.
Definition AllowsExitTarget (r : option Relay) (port : Z) (ip : option bytes) : bool := CanExitTo r ip port.

(** ** Round trip of the summaries *)

Lemma space_width_le c s : 0 <= c < 128 -> (space_width (c :: s) <= 1)%nat.
Proof.
  intros Hc. unfold space_width. change (at_ (c :: s) 0) with c. rewrite bool_decide_false by done. destruct (_ || _); [lia|].
  rewrite !(proj2 (Z.eqb_neq c _)) by lia. cbn [andb]. lia.
Qed.

Lemma fields_go_last s c cur : Forall (fun c => 0 <= c < 128) s -> 32 < c < 128 -> fields_go (s ++ [c]) 0 cur <> [].
Proof.
  intros Hs Hc. revert cur. induction Hs as [|d s Hd Hs IH]; intros cur; cbn [app fields_go].
  - rewrite space_width_ascii by done. by destruct cur.
  - pose proof (space_width_le d (s ++ [c]) Hd) as Hw. destruct (space_width (d :: s ++ [c])) as [|w]; [apply IH|].
    assert (w = 0%nat) as -> by lia. intros H. apply app_eq_nil in H as [_ H]. by apply IH in H.
Qed.

(** A line of ASCII text that neither starts nor ends in white space. *)
Lemma TrimSpace_ascii c s d : 32 < c < 128 -> Forall (fun c => 0 <= c < 128) s -> 32 < d < 128 -> TrimSpace (c :: s ++ [d]) = c :: s ++ [d].
Proof.
  intros Hc Hs Hd. unfold TrimSpace. cbn [trim_front]. rewrite space_width_ascii by done.
  assert (forall s, Forall (fun c => 0 <= c < 128) s -> trim_back (s ++ [d]) = s ++ [d]) as Hback.
  { clear s Hs. intros s Hs. induction Hs as [|e s He Hs IH]; cbn [app trim_back].
    - unfold blank, Fields. rewrite bool_decide_false; [done|]. exact (fields_go_last [] d [] (Forall_nil_2 _) Hd).
    - unfold blank, Fields. rewrite bool_decide_false; [by rewrite IH|]. apply (fields_go_last (e :: s)); [by constructor | done]. }
  apply (Hback (c :: s)). constructor; [lia | done].
Qed.

Lemma TrimSpace_word w : ascii_word w -> TrimSpace w = w.
Proof.
  intros Hw. destruct w as [|c w]; [done|]. apply Forall_cons in Hw as [Hc Hw].
  destruct w as [|d w _] using rev_ind; [|apply Forall_app in Hw as [Hw Hd]; apply Forall_cons in Hd as [Hd _]; apply TrimSpace_ascii; [done| |done]].
  - unfold TrimSpace. cbn [trim_front]. rewrite space_width_ascii by done. cbn [trim_back]. unfold blank, Fields.
    by rewrite bool_decide_false by exact (fields_go_last [] c [] (Forall_nil_2 _) Hc).
  - eapply Forall_impl; [exact Hw|]. cbn. lia.
Qed.

Definition valid_range (r : portRange) : Prop := 1 <= r.1 <= r.2 /\ r.2 <= 65535.

Lemma print_port v : 0 <= v <= 65535 ->
  Atoi (print_int v) = Some v /\ Forall (fun c => 48 <= c <= 57) (print_int v) /\ print_int v <> [].
Proof.
  intros Hv. destruct (print_int_spec v) as (Ha & Hd & Hn & _); [unfold MaxInt64; lia|].
  assert (Forall (fun c => 48 <= c <= 57) (print_int v)) as Hc.
  { apply Forall_forall. intros c Hc. rewrite forallb_forall in Hd. specialize (Hd c (proj1 (list_elem_of_In _ _) Hc)).
    unfold is_digit in Hd. apply andb_true_iff in Hd as [H1%Z.leb_le H2%Z.leb_le]. lia. }
  split_and!; [|done|done]. unfold AtoiDigits in Ha. destruct (digits_value (print_int v) <=? MaxInt64) eqn:Hm; [|done].
  injection Ha as Hval. unfold Atoi. destruct (print_int v) as [|c ds] eqn:Hp; [done|].
  apply Forall_cons in Hc as [Hc _]. rewrite !(proj2 (Z.eqb_neq c _)) by lia. rewrite Hd. cbn [andb negb string_eqb].
  rewrite string_eqb_false by done. cbn [negb andb]. rewrite Hval, (proj2 (Z.leb_le (- 2 ^ 63) v)), (proj2 (Z.leb_le v MaxInt64)) by (unfold MaxInt64; lia).
  done.
Qed.

Lemma parsePort_print v : 1 <= v <= 65535 -> parsePort (print_int v) = Ok v.
Proof. intros Hv. unfold parsePort. destruct (print_port v) as [-> _]; [lia|]. by rewrite !(proj2 (Z.ltb_ge _ _)) by lia. Qed.

Lemma format_range_ok r : valid_range r ->
  parsePortOrRange (format_range r) = Ok r /\ Forall (fun c => 48 <= c <= 57 \/ c = 45) (format_range r) /\ format_range r <> [].
Proof.
  destruct r as [a b]. intros [[H1 H2] H3]. cbn [fst snd] in *. unfold format_range, parsePortOrRange, parse_range. cbn [fst snd].
  destruct (print_port a) as (_ & Ca & Na); [lia|]. destruct (print_port b) as (_ & Cb & Nb); [lia|].
  assert (45 ∉ print_int a) as Ha by (intros Hin; eapply Forall_forall in Hin; [|exact Ca]; cbn in Hin; lia).
  destruct (Z.eqb_spec a b) as [->|Hne].
  - rewrite Cut_none by done. rewrite parsePort_print by lia. split_and!; [done| |done].
    eapply Forall_impl; [exact Cb|]. cbn. lia.
  - cbn [app]. rewrite Cut_some by done. rewrite !parsePort_print by lia. cbn [result_bind]. rewrite (proj2 (Z.ltb_ge _ _)) by lia.
    split_and!; [done| |by destruct (print_int a)].
    apply Forall_app. split; [|constructor; [by right|]]; eapply Forall_impl; [exact Ca| |exact Cb|]; cbn; lia.
Qed.

Lemma Join_chars (P : Z -> Prop) ls sep : P sep -> Forall (Forall P) ls -> Forall P (Join ls sep).
Proof.
  intros Hsep Hls. induction Hls as [|l ls Hl Hls IH]; [constructor|]. cbn [Join]. destruct ls; [done|]. apply Forall_app. split; [done|]. by constructor.
Qed.

Lemma parse_parts_format rs : Forall valid_range rs -> parse_parts (map format_range rs) = Ok rs.
Proof.
  intros H. induction H as [|r rs Hr Hrs IH]; [done|]. cbn [map parse_parts]. destruct (format_range_ok r Hr) as (Hp & Hc & Hn).
  rewrite TrimSpace_word by (eapply Forall_impl; [exact Hc|]; cbn; lia). rewrite string_eqb_false by done. by rewrite Hp, IH.
Qed.

Lemma parsePortList_format rs : rs <> [] -> Forall valid_range rs ->
  parsePortList (Join (map format_range rs) 44) = Ok rs /\ ascii_word (Join (map format_range rs) 44) /\ Join (map format_range rs) 44 <> [].
Proof.
  intros Hn Hrs. assert (Forall (Forall (fun c => 48 <= c <= 57 \/ c = 45)) (map format_range rs)) as Hc.
  { apply Forall_map. eapply Forall_impl; [exact Hrs|]. intros r Hr. apply (format_range_ok r Hr). }
  assert (Join (map format_range rs) 44 <> []) as Hj.
  { destruct rs as [|r rs]; [done|]. apply Forall_cons in Hrs as [Hr _]. destruct (format_range_ok r Hr) as (_ & _ & Hf).
    cbn [map Join]. destruct (map format_range rs); [done|]. by destruct (format_range r). }
  split_and!; [|apply Join_chars; [lia|]; eapply Forall_impl; [exact Hc|]; intros l Hl; eapply Forall_impl; [exact Hl|]; cbn; lia | done].
  unfold parsePortList. rewrite string_eqb_false by done. rewrite Split_Join.
  - rewrite parse_parts_format by done. cbn [result_bind]. by destruct rs.
  - by destruct rs.
  - eapply Forall_impl; [exact Hc|]. intros l Hl Hin. eapply Forall_forall in Hin; [|exact Hl]. cbn in Hin. lia.
Qed.

Definition keywords : list bytes := [lit "p"; lit "p6"; lit "ipv6-policy"].

Lemma keyword_word kw : kw ∈ keywords -> ascii_word kw /\ kw <> [] /\ existsb (string_eqb kw) [lit "p"; lit "p6"; lit "ipv6-policy"] = true.
Proof.
  intros Hk. repeat (apply elem_of_cons in Hk as [->|Hk]; [split_and!; [|done|done]; apply (bool_decide_unpack _); vm_compute; exact I|]).
  by apply elem_of_nil in Hk.
Qed.

Lemma verb_word (b : bool) : ascii_word (if b then lit "accept" else lit "reject") /\ (if b : bool then lit "accept" else lit "reject") <> [].
Proof. destruct b; (split; [|done]); apply (bool_decide_unpack _); vm_compute; exact I. Qed.

(** A line of three words, none empty: what [TrimSpace] and [Fields] make of it. *)
Lemma three_words a b c : ascii_word a -> ascii_word b -> ascii_word c -> a <> [] -> b <> [] -> c <> [] ->
  TrimSpace (a ++ [32] ++ b ++ [32] ++ c) = a ++ [32] ++ b ++ [32] ++ c /\ Fields (a ++ [32] ++ b ++ [32] ++ c) = [a; b; c].
Proof.
  intros Ha Hb Hc Na Nb Nc. split; [|unfold Fields; cbn [app]; by rewrite !Fields_cons, Fields_last].
  destruct a as [|x a]; [done|]. destruct c as [|y c _] using rev_ind; [done|].
  apply Forall_cons in Ha as [Hx Ha]. apply Forall_app in Hc as [Hc Hy]. apply Forall_cons in Hy as [Hy _].
  replace ((x :: a) ++ [32] ++ b ++ [32] ++ c ++ [y]) with (x :: (a ++ [32] ++ b ++ [32] ++ c) ++ [y]) by (cbn; by rewrite <- !app_assoc; cbn; rewrite <- !app_assoc).
  apply TrimSpace_ascii; [done| |done]. rewrite !Forall_app. split_and!; try (repeat constructor; lia);
    (eapply Forall_impl; [eassumption|]; cbn; lia).
Qed.

Lemma parse_summary_line kw (b : bool) rs : kw ∈ keywords -> rs <> [] -> Forall valid_range rs ->
  ParseExitPolicySummary (kw ++ [32] ++ (if b : bool then lit "accept" else lit "reject") ++ [32] ++ Join (map format_range rs) 44) =
    Ok (mkSummary b rs).
Proof.
  intros Hk Hn Hrs. destruct (keyword_word kw Hk) as (Kw & Kn & Ke). destruct (verb_word b) as [Vw Vn].
  destruct (parsePortList_format rs Hn Hrs) as (Hp & Pw & Pn). unfold ParseExitPolicySummary.
  destruct (three_words kw _ _ Kw Vw Pw Kn Vn Pn) as [-> ->]. rewrite string_eqb_false by (by destruct kw).
  unfold summary_fields. rewrite Ke. cbn [concat]. rewrite app_nil_r, Hp. by destruct b.
Qed.

(** What a relay writes of a summary is what the parser reads, under each of the
    keywords: the verb and the ranges, in order. *)
Theorem summary_roundtrip s prefix :
  ranges s <> [] -> Forall valid_range (ranges s) -> prefix ∈ [] :: keywords ->
  ParseExitPolicySummary (ControlLine (Some s) prefix) = Ok s.
Proof.
  intros Hn Hv Hk. destruct s as [b rs]. cbn [ranges] in *. unfold ControlLine. cbn [ranges acceptList].
  destruct rs as [|r rs]; [done|]. apply parse_summary_line; [|done|done].
  apply elem_of_cons in Hk as [->|Hk]; [by left|]. destruct (keyword_word prefix Hk) as (_ & Kn & _). by rewrite string_eqb_false.
Qed.

Lemma summary_roundtrip_witness :
  let s := mkSummary true [(22, 22); (80, 443); (65535, 65535)] in
  ControlLine (Some s) [] = lit "p accept 22,80-443,65535" /\ ParseExitPolicySummary (lit "p accept 22,80-443,65535") = Ok s.
Proof.
  intros s. split; [reflexivity|]. apply (summary_roundtrip s []); [done| |left].
  repeat (apply Forall_cons; split; [split; cbn; lia|]). apply Forall_nil. exact I.
Defined.

End ExitRules.
