(* ===== verification/ExitPolicy.v ===== *)
(** * The exit policy of a relay (pkg/relay/policy.go)

    How a relay puts its policy together (private networks, its own addresses, the
    operator's lines, the default or reduced policy, the IPv6 mirror), what it
    answers a BEGIN, and what it publishes.  The addresses of the machine's
    interfaces are an argument, as lines; the logger is left out, and a policy is
    never nil. *)

From Stdlib Require Import String.
From S2P Require Import Prelude GoStrings GoNet RelayCell CellPayloads ExitStreams ExitRules.
Import GoStrings GoNet.

Module ExitPolicy.

(** ** Lines *)

Definition privateRejectLines : list bytes := map lit [
  "reject 0.0.0.0/8:*"; "reject 127.0.0.0/8:*"; "reject 10.0.0.0/8:*"; "reject 172.16.0.0/12:*";
  "reject 192.168.0.0/16:*"; "reject 169.254.0.0/16:*"; "reject 100.64.0.0/10:*"; "reject 192.0.2.0/24:*";
  "reject 198.51.100.0/24:*"; "reject 203.0.113.0/24:*"; "reject 224.0.0.0/4:*"; "reject 240.0.0.0/4:*";
  "reject 255.255.255.255/32:*"; "reject [::]/128:*"; "reject [::1]/128:*"; "reject [fe80::]/10:*";
  "reject [fc00::]/7:*"; "reject [2001:db8::]/32:*"; "reject [ff00::]/8:*"]%string.

Definition defaultExitPolicyLines : list bytes := map lit [
  "reject *:25"; "reject *:119"; "reject *:135-139"; "reject *:445"; "reject *:563"; "reject *:1214";
  "reject *:4661-4666"; "reject *:6346-6429"; "reject *:6699"; "reject *:6881-6999"; "accept *:*"]%string.

Definition reducedExitPolicyLines : list bytes := map lit [
  "accept *:20-23"; "accept *:43"; "accept *:53"; "accept *:79-81"; "accept *:88"; "accept *:110"; "accept *:143";
  "accept *:194"; "accept *:220"; "accept *:389"; "accept *:443"; "accept *:464"; "accept *:465"; "accept *:531";
  "accept *:543-544"; "accept *:554"; "accept *:563"; "accept *:587"; "accept *:636"; "accept *:706"; "accept *:749";
  "accept *:873"; "accept *:902-904"; "accept *:981"; "accept *:989-995"; "accept *:1194"; "accept *:1220";
  "accept *:1293"; "accept *:1500"; "accept *:1533"; "accept *:1677"; "accept *:1723"; "accept *:1755";
  "accept *:1863"; "accept *:2082-2083"; "accept *:2086-2087"; "accept *:2095-2096"; "accept *:2102-2104";
  "accept *:3128"; "accept *:3389"; "accept *:3690"; "accept *:4321"; "accept *:4643"; "accept *:5050";
  "accept *:5190"; "accept *:5222-5223"; "accept *:5228"; "accept *:5900"; "accept *:6660-6669"; "accept *:6679";
  "accept *:6697"; "accept *:8000"; "accept *:8008"; "accept *:8074"; "accept *:8080"; "accept *:8082";
  "accept *:8087-8088"; "accept *:8232-8233"; "accept *:8332-8333"; "accept *:8443"; "accept *:8888";
  "accept *:9418"; "accept *:9999"; "accept *:10000"; "accept *:11371"; "accept *:18080-18081"; "accept *:18089";
  "accept *:19294"; "accept *:19638"; "accept *:50002"; "accept *:64738"; "reject *:*"]%string.

Definition defaultRejectAll : list bytes := map lit [
  "reject *:*"; "reject *6:*"]%string.

Definition exitFlagProbePorts : list Z := [80; 443; 6667].

Record ExitPolicyOptions := mkOptions {
  ExitRelay : bool;
  Lines : list bytes;
  Reduce : bool;
  IPv6Exit : bool;
  RejectPrivate : bool;
  RejectLocalInterfaces : bool;
}.

Record ExitPolicy := mkExitPolicy {
  AllowExit : bool;
  rules : option ExitRules.ExitPolicy;
  ipv6OK : bool;
  descLines : list bytes;
  ipv6Line : bytes;
  rejectedConnections : Z;
}.

(** ** Building *)

Definition NewExitPolicy : ExitPolicy :=
  mkExitPolicy false (match ExitRules.ParseExitPolicyLines defaultRejectAll with Ok (pol, _) => pol | Err _ => None end)
    false [lit "reject *:*"] [] 0.

Definition normalizePolicyLines (lines : list bytes) : list bytes :=
  List.filter (fun s => negb (string_eqb s [] || HasPrefix s [35])) (map TrimSpace lines).

(** The last line with at least two fields; [rev]: from the back. *)
Fixpoint absolute_from (rlines : list bytes) : bool :=
  match rlines with
  | [] => false
  | l :: rlines =>
      match Fields l with
      | _ :: pat :: _ => string_eqb pat (lit "*:*") || string_eqb pat (lit "*4:*")
      | _ => absolute_from rlines
      end
  end.

Definition endsWithAbsolutePolicy (lines : list bytes) : bool := absolute_from (rev lines).

Definition starIPv6Mirror (l : bytes) : bytes :=
  match Fields l with
  | verb :: pat :: _ =>
      if HasPrefix pat (lit "*:") && negb (HasPrefix pat (lit "*4:")) && negb (HasPrefix pat (lit "*6:"))
      then verb ++ lit " *6:" ++ drop 2 pat
      else []
  | _ => []
  end.

Definition interleaveStarIPv6 (lines : list bytes) : list bytes :=
  flat_map (fun l => let m := starIPv6Mirror l in if string_eqb m [] then [l] else [l; m]) lines.

(** The lines for the descriptor: trimmed, without the IPv6 wildcard ones, each
    once. *)
Fixpoint publish_lines (lines seen : list bytes) : list bytes :=
  match lines with
  | [] => []
  | l :: lines =>
      let l := TrimSpace l in
      if string_eqb l [] then publish_lines lines seen
      else if match Fields l with _ :: pat :: _ => HasPrefix pat (lit "*6:") | _ => false end then publish_lines lines seen
      else if existsb (string_eqb l) seen then publish_lines lines seen
      else l :: publish_lines lines (l :: seen)
  end.

Definition descriptorPublishLines (lines : list bytes) : list bytes :=
  match publish_lines lines [] with [] => [lit "reject *:*"] | out => out end.

Definition formatPolicyPortRange (lo hi : Z) : bytes :=
  if lo =? hi then print_int lo else print_int lo ++ lit "-" ++ print_int hi.

(** The scan of [n] ports from [p] on; [start] is where the open range began, 0 if
    none is open. *)
Fixpoint scan_ports (ok : Z -> bool) (n : nat) (p start : Z) (parts : list bytes) : list bytes * Z :=
  match n with
  | O => (parts, start)
  | S n =>
      let ok_p := ok p in
      let start := if ok_p && (start =? 0) then p else start in
      if negb ok_p && negb (start =? 0)
      then scan_ports ok n (p + 1) 0 (parts ++ [formatPolicyPortRange start (p - 1)])
      else scan_ports ok n (p + 1) start parts
  end.

Definition probe6 : option bytes := ParseIP (lit "2001:4860:4860::8888").

Definition ipv6PolicySummaryLine (pol : option ExitRules.ExitPolicy) : bytes :=
  match pol with
  | None => lit "ipv6-policy reject 1-65535"
  | Some _ =>
      let '(parts, start) := scan_ports (ExitRules.Allows pol probe6) (Z.to_nat 65535) 1 0 [] in
      let parts := if negb (start =? 0) then parts ++ [formatPolicyPortRange start 65535] else parts in
      match parts with
      | [] => lit "ipv6-policy reject 1-65535"
      | _ => lit "ipv6-policy accept " ++ Join parts 44
      end
  end.

Definition wouldAnnounceExit (p : ExitPolicy) : bool :=
  match rules p with
  | None => false
  | Some _ => existsb (fun port => ExitRules.Allows (rules p) (ParseIP (lit "1.1.1.1")) port) exitFlagProbePorts
  end.

(** The lines in force, in order; [local] is what [localInterfaceRejectLines] yields. *)
Definition policy_lines (opt : ExitPolicyOptions) (local : list bytes) : list bytes :=
  let use := if RejectPrivate opt then privateRejectLines else [] in
  let use := use ++ (if RejectLocalInterfaces opt then local else []) in
  let user := normalizePolicyLines (Lines opt) in
  let use := use ++ user in
  let use := if negb (endsWithAbsolutePolicy user)
             then use ++ (if Reduce opt then reducedExitPolicyLines else defaultExitPolicyLines) else use in
  if IPv6Exit opt then interleaveStarIPv6 use else use ++ [lit "reject *6:*"].

Definition NewExitPolicyFromOptions (opt : ExitPolicyOptions) (local : list bytes) : ExitPolicy :=
  let p := NewExitPolicy in
  if negb (ExitRelay opt) then mkExitPolicy (AllowExit p) (rules p) (IPv6Exit opt) (descLines p) (ipv6Line p) 0
  else
    let use := policy_lines opt local in
    match ExitRules.ParseExitPolicyLines use with
    | Err _ => NewExitPolicy
    | Ok (pol, _) =>
        mkExitPolicy true pol (IPv6Exit opt) (descriptorPublishLines use)
          (if IPv6Exit opt then ipv6PolicySummaryLine pol else lit "ipv6-policy reject 1-65535") 0
    end.

Definition NewExitPolicyFromConfig (exitRelay : bool) (lines : list bytes) (reduce ipv6Exit : bool) (local : list bytes) : ExitPolicy :=
  NewExitPolicyFromOptions (mkOptions exitRelay lines reduce ipv6Exit true true) local.

(** ** Answers *)

(** Addresses an exit must not reach by default. *)
Definition dangerousExitIP (ip : option bytes) : bool :=
  match ip with
  | None => true
  | Some ip =>
      if IsUnspecified ip || IsLoopback ip || IsLinkLocalUnicast ip || IsLinkLocalMulticast ip || IsMulticast ip || IsPrivate ip then true
      else
        match To4 ip with
        | Some v4 =>
            let b i := at_ v4 i in
            if (b 0%nat =? 100) && (Z.land (b 1%nat) 0xc0 =? 64) then true
            else if (b 0%nat =? 192) && (b 1%nat =? 0) && (b 2%nat =? 2) then true
            else if (b 0%nat =? 198) && (b 1%nat =? 51) && (b 2%nat =? 100) then true
            else if (b 0%nat =? 203) && (b 1%nat =? 0) && (b 2%nat =? 113) then true
            else 240 <=? b 0%nat
        | None =>
            (length ip =? 16)%nat && (at_ ip 0 =? 0x20) && (at_ ip 1 =? 0x01) && (at_ ip 2 =? 0x0d) && (at_ ip 3 =? 0xb8)
        end
  end.

Definition count_rejected (p : ExitPolicy) : ExitPolicy :=
  mkExitPolicy (AllowExit p) (rules p) (ipv6OK p) (descLines p) (ipv6Line p) (u64 (rejectedConnections p + 1)).

(** The answer depends on the policy alone; a refusal is counted. *)
Definition exit_allowed (p : ExitPolicy) (address : bytes) (port : Z) : bool :=
  if negb (AllowExit p) || (port =? 0) then false
  else
    let host := match SplitHostPort address with Some (h, _) => h | None => address end in
    match ParseIP (Trim host (lit "[]")) with
    | None => ExitRules.AllowsUnknown (rules p) port
    | Some ip =>
        match To4 ip with
        | None => if negb (ipv6OK p) then false else ExitRules.Allows (rules p) (Some ip) port
        | Some _ => ExitRules.Allows (rules p) (Some ip) port
        end
    end.

Definition CheckExitAllowed (p : ExitPolicy) (address : bytes) (port : Z) : ExitPolicy * bool * Z :=
  if exit_allowed p address port then (p, true, 0) else (count_rejected p, false, RelayCell.EndReasonExitPolicy).

Definition GetRejectedCount (p : ExitPolicy) : Z := rejectedConnections p.

Definition GetExitPolicyString (p : ExitPolicy) : bytes :=
  if negb (AllowExit p) then lit "reject *:*"
  else match descLines p with
       | [] => lit "accept (configured ExitPolicy)"
       | l :: ls => l ++ flat_map (fun l => lit ", " ++ l) ls
       end.

Definition DescriptorLines (p : ExitPolicy) : list bytes :=
  match descLines p with [] => [lit "reject *:*"] | ls => ls end.

Definition IPv6PolicyLine (p : ExitPolicy) : bytes := ipv6Line p.

Definition WouldAnnounceExit (p : ExitPolicy) : bool := AllowExit p && wouldAnnounceExit p.

(** [None]: the attempt may go on; [Some]: refused, with the reason. *)
Definition ValidateExitAttempt (p : ExitPolicy) (command : Z) (address : bytes) (port : Z) : ExitPolicy * option Z :=
  if command =? RelayCell.RelayBeginDir then (p, None)
  else if negb (command =? RelayCell.RelayBegin) then (p, None)
  else
    let '(p, allowed, reason) := CheckExitAllowed p address port in
    (p, if negb allowed then Some reason else None).

(** ** The rules in force *)

Lemma parse_lines_app a b rs s :
  ExitRules.parse_lines (a ++ b) rs s =
    match ExitRules.parse_lines a rs s with Ok (rs, s) => ExitRules.parse_lines b rs s | Err e => Err e end.
Proof.
  revert rs s. induction a as [|l a IH]; intros rs s; [done|]. cbn [app ExitRules.parse_lines].
  destruct (_ || _); [apply IH|]. destruct (Fields (TrimSpace l)) as [|w fs]; [apply IH|]. destruct (_ || _).
  - destruct (ExitRules.parseExitRule (w :: fs)) as [r|e]; [apply IH | done].
  - destruct (string_eqb _ _); [|done]. destruct (ExitRules.ParseExitPolicySummary _) as [p|e]; [apply IH | done].
Qed.

(** Parsing only adds rules behind those there are. *)
Lemma parse_lines_prefix lines rs s rs' s' :
  ExitRules.parse_lines lines rs s = Ok (rs', s') -> exists more, rs' = rs ++ more.
Proof.
  revert rs s. induction lines as [|l lines IH]; intros rs s Hp; [injection Hp as <- <-; exists []; by rewrite app_nil_r|].
  cbn [ExitRules.parse_lines] in Hp. destruct (_ || _); [by eapply IH|]. destruct (Fields (TrimSpace l)) as [|w fs]; [by eapply IH|].
  destruct (_ || _).
  - destruct (ExitRules.parseExitRule (w :: fs)) as [r|e]; [|done]. destruct (IH _ _ Hp) as [more ->]. exists (r :: more). by rewrite <- app_assoc.
  - destruct (string_eqb _ _); [|done]. destruct (ExitRules.ParseExitPolicySummary _) as [p|e]; [by eapply IH | done].
Qed.

(** What the private lines are parsed to, evaluated. *)
Definition private_rules : list ExitRules.exitRule := Eval vm_compute in
  match ExitRules.parse_lines privateRejectLines [] None with Ok (rs, _) => rs | Err _ => [] end.

Lemma private_parsed : ExitRules.parse_lines privateRejectLines [] None = Ok (private_rules, None).
Proof. vm_compute. reflexivity. Qed.

Lemma interleave_private : interleaveStarIPv6 privateRejectLines = privateRejectLines.
Proof. vm_compute. reflexivity. Qed.

Lemma interleave_app a b : interleaveStarIPv6 (a ++ b) = interleaveStarIPv6 a ++ interleaveStarIPv6 b.
Proof. apply flat_map_app. Qed.

Lemma policy_lines_private opt local :
  RejectPrivate opt = true -> exists rest, policy_lines opt local = privateRejectLines ++ rest.
Proof.
  intros Hp. unfold policy_lines. rewrite Hp. cbv zeta.
  destruct (IPv6Exit opt), (negb _); rewrite <- ?app_assoc, ?interleave_app, ?interleave_private; by eexists.
Qed.

(** The private networks are refused before any other rule is looked at. *)
Lemma rules_private opt local :
  RejectPrivate opt = true -> AllowExit (NewExitPolicyFromOptions opt local) = true ->
  exists more, rules (NewExitPolicyFromOptions opt local) = Some (ExitRules.mkPolicy (private_rules ++ more)).
Proof.
  intros Hp. unfold NewExitPolicyFromOptions. destruct (ExitRelay opt); [|done]. cbn [negb].
  destruct (policy_lines_private opt local Hp) as [rest ->].
  destruct (ExitRules.ParseExitPolicyLines _) as [[pol sum]|e] eqn:He; [|done]. intros _. cbn [rules].
  unfold ExitRules.ParseExitPolicyLines in He. rewrite parse_lines_app, private_parsed in He.
  destruct (ExitRules.parse_lines rest private_rules None) as [[rs s]|e] eqn:Hr; [|done].
  destruct (parse_lines_prefix _ _ _ _ _ Hr) as [more ->]. exists more. cbn [result_bind] in He.
  destruct (private_rules ++ more) as [|r rs] eqn:Hn; [|by injection He as <- _].
  apply app_eq_nil in Hn as [Hn _]. by vm_compute in Hn.
Qed.

Lemma first_match_refused pre rest ip port :
  Forall (fun r => ExitRules.accept r = false) pre ->
  Exists (fun r => ExitRules.matchesFamily r ip = true /\ ExitRules.matchesPort r port = true) pre ->
  ExitRules.first_match (pre ++ rest) ip port = false.
Proof.
  intros Hf He. induction Hf as [|r pre Ha Hf IH]; [by apply Exists_nil in He|]. cbn [app ExitRules.first_match].
  destruct (_ && _) eqn:E; [done|]. apply IH. apply Exists_cons in He as [[H1 H2]|He]; [by rewrite H1, H2 in E | done].
Qed.

Lemma private_all_reject :
  Forall (fun r => ExitRules.accept r = false /\ ExitRules.lo r = 1 /\ ExitRules.hi r = 65535) private_rules.
Proof. apply (bool_decide_unpack _). vm_compute. exact I. Qed.

(** *** Dangerous addresses are covered *)

Lemma private_hit k r ip port :
  private_rules !! k = Some r -> ExitRules.matchesFamily r ip = true -> 1 <= port <= 65535 ->
  Exists (fun r => ExitRules.matchesFamily r ip = true /\ ExitRules.matchesPort r port = true) private_rules.
Proof.
  intros Hk Hm Hp. apply Exists_exists. exists r. split; [by eapply list_elem_of_lookup_2|]. split; [done|].
  destruct (Forall_lookup_1 _ _ _ _ private_all_reject Hk) as (_ & H1 & H2). unfold ExitRules.matchesPort.
  rewrite H1, H2, !(proj2 (Z.leb_le _ _)) by lia. done.
Qed.

(** The network of a private rule, and whether it holds an address. *)
Definition holds (k : nat) (ip : bytes) : bool :=
  match private_rules !! k with Some r => ExitRules.matchesFamily r (Some ip) | None => false end.

Lemma holds_hit k ip port :
  holds k ip = true -> 1 <= port <= 65535 ->
  Exists (fun r => ExitRules.matchesFamily r (Some ip) = true /\ ExitRules.matchesPort r port = true) private_rules.
Proof. unfold holds. destruct (private_rules !! k) as [r|] eqn:Hk; [|done]. intros. by eapply private_hit. Qed.

(** Their networks. *)
Definition private_nets : list (option IPNet) := map ExitRules.net private_rules.

Lemma private_net k n : private_nets !! k = Some n -> exists r, private_rules !! k = Some r /\ ExitRules.net r = n.
Proof.
  unfold private_nets. rewrite list_lookup_fmap.
  intros (r & Hr & Hn)%fmap_Some. exists r. split; [exact Hr | symmetry; exact Hn].
Qed.

Lemma holds_v4 k ip a b c d n0 n1 n2 n3 m0 m1 m2 m3 :
  To4 ip = Some [a; b; c; d] ->
  private_nets !! k = Some (Some (mkNet [n0; n1; n2; n3] [m0; m1; m2; m3])) ->
  Z.land a m0 = Z.land n0 m0 -> Z.land b m1 = Z.land n1 m1 -> Z.land c m2 = Z.land n2 m2 -> Z.land d m3 = Z.land n3 m3 ->
  holds k ip = true.
Proof.
  intros H4 Hk Ha Hb Hc Hd. unfold holds. destruct (private_net _ _ Hk) as (r & -> & Hr).
  unfold ExitRules.matchesFamily. rewrite H4, Hr. unfold ContainsIP. cbn. rewrite Ha, Hb, Hc, Hd.
  unfold string_eqb. rewrite bool_decide_true by done. apply orb_true_r.
Qed.

Lemma holds_v6 k ip nn m :
  To4 ip = None -> length ip = 16%nat -> private_nets !! k = Some (Some (mkNet nn m)) ->
  length nn = 16%nat -> length m = 16%nat -> To4 nn = None -> zip_with Z.land nn m = zip_with Z.land ip m -> holds k ip = true.
Proof.
  intros H4 Hl Hk Hn Hm Hn4 Hz. unfold holds. destruct (private_net _ _ Hk) as (r & -> & Hr).
  unfold ExitRules.matchesFamily, ExitRules.is_v4. rewrite H4, Hr. cbn [net_ip]. rewrite Hn4. unfold ContainsIP, networkNumberAndMask.
  rewrite H4. cbn [net_ip net_mask]. rewrite Hn4, Hn, Hm. cbn [Nat.eqb negb andb]. rewrite Hl, Hn, Hz. cbn [Nat.eqb andb].
  rewrite string_eqb_refl. apply orb_true_r.
Qed.

Lemma high_byte a : 240 <= a <= 255 -> Z.land a 240 = 240.
Proof.
  intros Ha. assert (Forall (fun a => Z.land a 240 = 240) (seqZ 240 16)) as Hf by by repeat constructor.
  apply (proj1 (Forall_forall _ _) Hf). apply elem_of_seqZ. lia.
Qed.

Ltac in_net k := apply (ex_intro _ k); eapply holds_v4; [eassumption | reflexivity | rewrite ?Z.land_0_r; done ..].
Ltac in_net6 k := apply (ex_intro _ k); eapply holds_v6;
  [eassumption | assumption | reflexivity | reflexivity | reflexivity | reflexivity | cbn; rewrite ?Z.land_0_r; try done].

Lemma dangerous_v4 ip a b c d :
  To4 ip = Some [a; b; c; d] -> a <= 255 -> dangerousExitIP (Some ip) = true -> exists k, holds k ip = true.
Proof.
  intros H4 Ha Hd. unfold dangerousExitIP in Hd.
  destruct (IsUnspecified ip) eqn:E1; [apply (IsUnspecified_v4 _ _ H4) in E1; injection E1 as -> -> -> ->; in_net 0%nat|].
  unfold IsLoopback, IsLinkLocalUnicast, IsLinkLocalMulticast, IsMulticast, IsPrivate in Hd. rewrite H4 in Hd.
  change (at_ [a; b; c; d] 0) with a in Hd. change (at_ [a; b; c; d] 1) with b in Hd. change (at_ [a; b; c; d] 2) with c in Hd.
  cbn [orb] in Hd.
  destruct (Z.eqb_spec (Z.land a 240) 224) as [Em|_]; [in_net 10%nat|].
  destruct (Z.eqb_spec a 127) as [->|_]; [in_net 1%nat|]. destruct (Z.eqb_spec a 10) as [->|_]; [in_net 2%nat|].
  destruct (Z.eqb_spec a 224) as [->|_]; [in_net 10%nat|].
  destruct (Z.leb_spec 240 a) as [Hh|_]; [pose proof (high_byte a ltac:(lia)); in_net 11%nat|].
  destruct (Z.eqb_spec a 169) as [->|_]; [destruct (Z.eqb_spec b 254) as [->|_]; [in_net 5%nat | done]|].
  destruct (Z.eqb_spec a 172) as [->|_]; [destruct (Z.eqb_spec (Z.land b 240) 16); [in_net 3%nat | done]|].
  destruct (Z.eqb_spec a 192) as [->|_].
  { destruct (Z.eqb_spec b 168) as [->|_]; [in_net 4%nat|]. destruct (Z.eqb_spec b 0) as [->|_]; [|done].
    destruct (Z.eqb_spec c 2) as [->|_]; [in_net 7%nat | done]. }
  destruct (Z.eqb_spec a 100) as [->|_]; [destruct (Z.eqb_spec (Z.land b 192) 64); [in_net 6%nat | done]|].
  destruct (Z.eqb_spec a 198) as [->|_].
  { destruct (Z.eqb_spec b 51) as [->|_]; [|done]. destruct (Z.eqb_spec c 100) as [->|_]; [in_net 8%nat | done]. }
  destruct (Z.eqb_spec a 203) as [->|_]; [|done].
  destruct (Z.eqb_spec b 0) as [->|_]; [|done]. destruct (Z.eqb_spec c 113) as [->|_]; [in_net 9%nat | done].
Qed.

Lemma dangerous_v6 ip :
  To4 ip = None -> length ip = 16%nat -> dangerousExitIP (Some ip) = true -> exists k, holds k ip = true.
Proof.
  intros H4 Hl Hd. unfold dangerousExitIP in Hd.
  destruct (IsUnspecified ip) eqn:E1; [apply (IsUnspecified_v6 _ H4 Hl) in E1; subst ip; in_net6 13%nat|].
  destruct (IsLoopback ip) eqn:E2.
  { unfold IsLoopback, Equal in E2. rewrite H4, Hl in E2. cbn [length app Nat.eqb IPv6loopback zeros repeat] in E2.
    apply string_eqb_spec in E2. subst ip. in_net6 14%nat. }
  unfold IsLinkLocalUnicast, IsLinkLocalMulticast, IsMulticast, IsPrivate in Hd. rewrite H4, Hl in Hd. cbn [Nat.eqb andb orb] in Hd.
  do 16 (destruct ip as [|? ip]; [done|]). destruct ip; [|done]. cbn [at_] in Hd. unfold at_ in Hd. cbn in Hd.
  destruct (Z.eqb_spec z 255) as [->|_]; [in_net6 18%nat|].
  destruct (Z.eqb_spec (Z.land z 254) 252) as [E|_]; [in_net6 16%nat; rewrite E; done|].
  destruct (Z.eqb_spec z 254) as [->|_].
  { destruct (Z.eqb_spec (Z.land z0 192) 128) as [E|_]; [in_net6 15%nat; rewrite E; done | done]. }
  destruct (Z.eqb_spec z 32) as [->|_]; [|done]. destruct (Z.eqb_spec z0 1) as [->|_]; [|done].
  destruct (Z.eqb_spec z1 13) as [->|_]; [|done]. destruct (Z.eqb_spec z2 184) as [->|_]; [in_net6 17%nat | done].
Qed.

Lemma dangerous_covered ip :
  length ip = 4%nat \/ length ip = 16%nat -> Forall is_byte ip -> dangerousExitIP (Some ip) = true -> exists k, holds k ip = true.
Proof.
  intros Hl Hb Hd. destruct (To4 ip) as [v4|] eqn:H4.
  - destruct (To4_inv ip v4 H4) as [Hv Hip].
    assert (Forall is_byte v4) as Hvb by (destruct Hip as [<-|He]; [done|]; rewrite He in Hb; by apply Forall_app in Hb as [_ Hb]).
    destruct v4 as [|a [|b [|c [|d [|? ?]]]]]; try done. apply Forall_cons in Hvb as [Ha _]. unfold is_byte in Ha.
    eapply dangerous_v4; [exact H4 | lia | exact Hd].
  - destruct Hl as [Hl|Hl]; [by rewrite To4_idem in H4|]. by apply dangerous_v6.
Qed.

(** What the policy answers for an address, in the form [CheckExitAllowed] has parsed. *)
Definition address_allowed (p : ExitPolicy) (ip : bytes) (port : Z) : bool :=
  AllowExit p && negb (port =? 0) &&
  match To4 ip with
  | None => ipv6OK p && ExitRules.Allows (rules p) (Some ip) port
  | Some _ => ExitRules.Allows (rules p) (Some ip) port
  end.

Lemma dangerous_refused opt local ip port :
  RejectPrivate opt = true -> length ip = 4%nat \/ length ip = 16%nat -> Forall is_byte ip -> dangerousExitIP (Some ip) = true ->
  address_allowed (NewExitPolicyFromOptions opt local) ip port = false.
Proof.
  intros Hp Hl Hb Hd. unfold address_allowed. destruct (AllowExit (NewExitPolicyFromOptions opt local)) eqn:Ha; [|done].
  destruct (rules_private opt local Hp Ha) as [more Hr]. rewrite Hr.
  assert (ExitRules.Allows (Some (ExitRules.mkPolicy (private_rules ++ more))) (Some ip) port = false) as ->.
  { unfold ExitRules.Allows. destruct (_ || _) eqn:E; [done|]. apply orb_false_iff in E as [E1%Z.ltb_ge E2%Z.ltb_ge].
    destruct (dangerous_covered ip Hl Hb Hd) as [k Hk]. apply first_match_refused; [|apply (holds_hit k); [exact Hk | lia]].
    eapply Forall_impl; [apply private_all_reject|]. by intros r [? _]. }
  rewrite andb_false_r. destruct (To4 ip); by rewrite andb_false_r.
Qed.

(** An address of a family. *)
Definition valid_ip (ip : bytes) : Prop := (length ip = 4%nat \/ length ip = 16%nat) /\ Forall is_byte ip.

Lemma To16_valid ip : valid_ip ip -> exists ip16, To16 ip = Some ip16 /\ valid_ip ip16 /\ To4 ip16 = To4 ip /\
  (dangerousExitIP (Some ip16) = dangerousExitIP (Some ip)).
Proof.
  intros [Hl Hb]. destruct Hl as [Hl|Hl]; [|exists ip; rewrite To16_idem by done; split_and!; try done; split; auto].
  exists (v4InV6Prefix ++ ip). assert (To4 (v4InV6Prefix ++ ip) = To4 ip) as H4 by by rewrite To4_mapped, To4_idem.
  split_and!; [unfold To16; by rewrite Hl | | done |].
  - split; [right; rewrite length_app, Hl; done|]. apply Forall_app. split; [|done]. by repeat constructor.
  - unfold dangerousExitIP, IsLoopback, IsLinkLocalUnicast, IsLinkLocalMulticast, IsMulticast, IsPrivate. rewrite H4, To4_idem by done.
    assert (IsUnspecified (v4InV6Prefix ++ ip) = IsUnspecified ip) as ->; [|done].
    apply eq_true_iff_eq. split; intros H.
    + rewrite (IsUnspecified_v4 _ ip ltac:(rewrite H4; by apply To4_idem) H). reflexivity.
    + rewrite (IsUnspecified_v4 _ ip ltac:(by apply To4_idem) H). reflexivity.
Qed.

(** The policy as the exit streams see it: they ask with [ip.String()]. *)
Definition exit_view (p : ExitPolicy) : ExitStreams.Policy :=
  ExitStreams.mkPolicy (AllowExit p) (ipv6OK p) (fun ip port => let '(_, ok, reason) := CheckExitAllowed p (IPString ip) port in (ok, reason)).

Lemma exit_allowed_string p ip port :
  valid_ip ip -> exists ip16, To16 ip = Some ip16 /\ exit_allowed p (IPString ip) port = address_allowed p ip16 port.
Proof.
  intros Hv. destruct (To16_valid ip Hv) as (ip16 & H16 & _ & H4 & _). exists ip16. split; [done|]. destruct Hv as [Hl Hb].
  unfold exit_allowed, address_allowed. destruct (IPString_host ip Hl Hb) as [Hs Ht]. rewrite Hs. change (lit "[]") with [91; 93]. rewrite Ht.
  rewrite parse_IPString, H16 by done. destruct (AllowExit p), (port =? 0); cbn [negb orb andb]; try done.
  destruct (To4 ip16); [done|]. by destruct (ipv6OK p).
Qed.

Lemma view_allows p ip port : (ExitStreams.CheckExitAllowed (exit_view p) ip port).1 = exit_allowed p (IPString ip) port.
Proof. unfold exit_view, CheckExitAllowed. cbn. by destruct (exit_allowed p (IPString ip) port). Qed.

(** What an allowed address is: not one an exit must not reach, IPv4 unless the
    relay exits to IPv6, and accepted by the rules. *)
Definition reachable (opt : ExitPolicyOptions) (pol : ExitPolicy) (ip : bytes) (port : Z) : Prop :=
  dangerousExitIP (Some ip) = false /\ (To4 ip = None -> IPv6Exit opt = true) /\ port <> 0 /\
  ExitRules.Allows (rules pol) (To16 ip) port = true.

Lemma allowed_reachable opt local ip port :
  RejectPrivate opt = true -> valid_ip ip ->
  (ExitStreams.CheckExitAllowed (exit_view (NewExitPolicyFromOptions opt local)) ip port).1 = true ->
  reachable opt (NewExitPolicyFromOptions opt local) ip port.
Proof.
  intros Hp Hv. rewrite view_allows. destruct (exit_allowed_string (NewExitPolicyFromOptions opt local) ip port Hv) as (ip16 & H16 & ->).
  destruct (To16_valid ip Hv) as (ip16' & H16' & Hv16 & H4 & Hd). rewrite H16 in H16'. injection H16' as <-. intros Ha.
  unfold reachable. rewrite H16, <- H4, <- Hd. pose proof Ha as Ha'. unfold address_allowed in Ha.
  apply andb_true_iff in Ha as [Ha Hr]. apply andb_true_iff in Ha as [Hx Hz]. split_and!.
  - apply not_true_iff_false. intros Hdd. destruct Hv16 as [Hl Hb]. by rewrite (dangerous_refused opt local ip16 port Hp Hl Hb Hdd) in Ha'.
  - intros Hn. rewrite Hn in Hr. apply andb_true_iff in Hr as [Hr _]. rewrite <- Hr. unfold NewExitPolicyFromOptions in Hx |- *.
    destruct (negb (ExitRelay opt)); [done|]. by destruct (ExitRules.ParseExitPolicyLines _) as [[? ?]|].
  - intros ->. by vm_compute in Hz.
  - destruct (To4 ip16); [done|]. by apply andb_true_iff in Hr as [_ Hr].
Qed.

Lemma filterBeginIPs_elem ip ips flags flagsPresent : ip ∈ ExitStreams.filterBeginIPs ips flags flagsPresent -> ip ∈ ips.
Proof. unfold ExitStreams.filterBeginIPs. cbv zeta. destruct (negb (Z.land flags _ =? 0)); intros [H|H]%elem_of_app; by apply list_elem_of_filter in H as [_ H]. Qed.

(** C19: An exit that refuses private networks, whatever lines the operator wrote: a
    connection a BEGIN ends in was dialled to, and arrived at, an address the rules
    accept, none of the private, local, multicast or reserved ones, and an IPv4
    one unless the relay exits to IPv6; and what a BEGIN is answered does not
    depend on what dialling any other address would have done, so no other is
    dialled.  The resolver yields addresses of either family, and so does the far
    end of a connection. *)
Theorem exit_never_private opt local env addr port flags flagsPresent :
  RejectPrivate opt = true ->
  (forall ips, ExitStreams.lookupIP env addr = Some ips -> Forall valid_ip ips) ->
  (forall ip c remote, ExitStreams.dialTCP env ip port = Ok (c, Some remote) -> valid_ip remote) ->
  let pol := NewExitPolicyFromOptions opt local in
  let connect env := ExitStreams.begin_connect env (exit_view pol) addr port flags flagsPresent in
  (forall c payload, connect env = Ok (c, payload) ->
    exists ips ip remote, ExitStreams.lookupIP env addr = Some ips /\ ip ∈ ips /\
      ExitStreams.dialTCP env ip port = Ok (c, Some remote) /\
      reachable opt pol ip port /\ reachable opt pol remote port) /\
  (forall env', ExitStreams.lookupIP env' addr = ExitStreams.lookupIP env addr ->
    (forall ip, reachable opt pol ip port -> ExitStreams.dialTCP env' ip port = ExitStreams.dialTCP env ip port) ->
    connect env' = connect env).
Proof.
  intros Hp Hlook Hdial pol connect.
  assert (forall ips ip, ExitStreams.lookupIP env addr = Some ips ->
    List.find (fun ip => (ExitStreams.CheckExitAllowed (exit_view pol) ip port).1) (ExitStreams.filterBeginIPs ips flags flagsPresent) = Some ip ->
    ip ∈ ips /\ reachable opt pol ip port) as Hfound.
  { intros ips ip Hl Hf. apply find_some in Hf as [Hin Hok]. assert (ip ∈ ips) as Hi by by eapply filterBeginIPs_elem, list_elem_of_In.
    split; [done|]. apply allowed_reachable; [done| |done]. by eapply Forall_forall in Hi; [|by apply Hlook]. }
  unfold connect, ExitStreams.begin_connect. split.
  - intros c payload. destruct (ExitStreams.lookupIP env addr) as [[|i ips]|] eqn:Hl; [done| |done].
    destruct (List.find _ _) as [ip|] eqn:Hf; [|done]. destruct (Hfound _ _ eq_refl Hf) as [Hin Hr].
    destruct (ExitStreams.dialTCP env ip port) as [[c' [remote|]]|e] eqn:Hd; [|done|done].
    destruct (ExitStreams.CheckExitAllowed (exit_view pol) remote port) as [ok reason] eqn:Hok.
    destruct ok; [|done]. cbn [negb]. destruct (Connected.FormatConnectedPayload (Some remote) 3600) as [pl|e]; [|done].
    intros [= -> _]. exists (i :: ips), ip, remote. split_and!; [done|done|done|done|].
    apply allowed_reachable; [done|by eapply Hdial|]. exact (f_equal fst Hok).
  - intros env' Hl' Hd'. rewrite Hl'. destruct (ExitStreams.lookupIP env addr) as [[|i ips]|] eqn:Hl; [done| |done].
    destruct (List.find _ _) as [ip|] eqn:Hf; [|done]. destruct (Hfound _ _ eq_refl Hf) as [_ Hr]. by rewrite Hd'.
Qed.

(** An operator who accepts 10/8, and a name with an address there and another. *)
Definition lenient : ExitPolicyOptions := mkOptions true [lit "accept 10.0.0.0/8:*"; lit "accept *:80"; lit "reject *:*"] false false true true.

Definition two_addresses : ExitStreams.begin_env :=
  ExitStreams.mkBeginEnv (fun _ => Some [[10; 0; 0; 1]; [93; 184; 216; 34]]) (fun ip _ => Ok (7, Some ip)) (fun m => m).

Lemma exit_never_private_witness :
  let pol := NewExitPolicyFromOptions lenient [] in
  ExitStreams.begin_connect two_addresses (exit_view pol) (lit "host") 80 0 false = Ok (7, [93; 184; 216; 34; 0; 0; 14; 16]) /\
  reachable lenient pol [93; 184; 216; 34] 80.
Proof.
  intros pol.
  assert (ExitStreams.begin_connect two_addresses (exit_view pol) (lit "host") 80 0 false = Ok (7, [93; 184; 216; 34; 0; 0; 14; 16])) as H
    by (vm_compute; reflexivity).
  split; [exact H|].
  assert (forall ip, ip ∈ [[10; 0; 0; 1]; [93; 184; 216; 34]] -> valid_ip ip) as Hv.
  { intros ip Hip. repeat (apply elem_of_cons in Hip as [->|Hip]; [split; [left; reflexivity | repeat (apply Forall_cons; split; [unfold is_byte; lia|]); apply Forall_nil; exact I]|]). exact (False_ind _ (not_elem_of_nil _ Hip)). }
  destruct (exit_never_private lenient [] (ExitStreams.mkBeginEnv (fun _ => Some [[10; 0; 0; 1]; [93; 184; 216; 34]])
    (fun ip _ => if decide (ip ∈ [[10; 0; 0; 1]; [93; 184; 216; 34]]) then Ok (7, Some ip) else Err (ExitStreams.mkNetError true []))
    (fun m => m)) (lit "host") 80 0 false eq_refl) as [Hok _].
  - intros ips [= <-]. apply Forall_forall. exact Hv.
  - intros ip c remote Hd. cbn in Hd. destruct (decide _) as [Hi|Hi]; [|discriminate Hd]. injection Hd as _ <-. exact (Hv _ Hi).
  - destruct (Hok 7 [93; 184; 216; 34; 0; 0; 14; 16] ltac:(vm_compute; reflexivity)) as (ips & ip & remote & [= <-] & Hin & Hd & Hr & _).
    repeat (apply elem_of_cons in Hin as [->|Hin]); [|exact Hr|exact (False_ind _ (not_elem_of_nil _ Hin))].
    destruct Hr as [Hr _]. vm_compute in Hr. discriminate Hr.
Defined.

(** ** The published summary *)

Definition listed (rs : list ExitRules.portRange) (q : Z) : Prop := exists r, r ∈ rs /\ r.1 <= q <= r.2.

Lemma listed_snoc rs r q : listed (rs ++ [r]) q <-> listed rs q \/ r.1 <= q <= r.2.
Proof. unfold listed. set_solver. Qed.

(** The ranges closed so far and the open one hold the accepted ports below [p]. *)
Definition scanned (ok : Z -> bool) (p start : Z) (rs : list ExitRules.portRange) : Prop :=
  (start = 0 \/ 1 <= start < p) /\ Forall (fun r => 1 <= r.1 <= r.2 /\ r.2 < p) rs /\
  forall q, 1 <= q < p -> ok q = true <-> listed rs q \/ (start <> 0 /\ start <= q).

Lemma scan_ports_spec ok n p start rs :
  1 <= p -> scanned ok p start rs ->
  exists rs' start', scan_ports ok n p start (map ExitRules.format_range rs) = (map ExitRules.format_range rs', start') /\
    scanned ok (p + Z.of_nat n) start' rs'.
Proof.
  revert p start rs. induction n as [|n IH]; intros p start rs Hp (Hs & Hv & Hq); cbn [scan_ports].
  - exists rs, start. rewrite Z.add_0_r. done.
  - replace (p + Z.of_nat (S n)) with (p + 1 + Z.of_nat n) by lia.
    assert (forall rs : list ExitRules.portRange, Forall (fun r => 1 <= r.1 <= r.2 /\ r.2 < p) rs -> ~ listed rs p) as Hno.
    { intros l Hl (r & Hr & Hin). eapply Forall_forall in Hr; [|exact Hl]. cbn in Hr. lia. }
    assert (Forall (fun r => 1 <= r.1 <= r.2 /\ r.2 < p + 1) rs) as Hv' by (eapply Forall_impl; [exact Hv|]; cbn; lia).
    destruct (ok p) eqn:Hok; cbn [andb negb].
    + destruct (Z.eqb_spec start 0) as [H0|H0]; (apply IH; [lia|]); split_and!; [lia|done| |lia|done|]; intros q Hr;
        (destruct (decide (q = p)) as [->|Hne]; [rewrite Hok; split; [intros _; right; lia | done]|]); rewrite Hq by lia; split;
        (intros [H|H]; [by left|]); right; lia.
    + destruct (Z.eqb_spec start 0) as [H0|H0]; cbn [negb andb].
      * apply IH; [lia|]. split_and!; [lia|done|]. intros q Hr. destruct (decide (q = p)) as [->|Hne]; [|apply Hq; lia].
        rewrite Hok. split; [done|]. intros [H|H]; [by apply Hno in H|lia].
      * change (map ExitRules.format_range rs ++ [formatPolicyPortRange start (p - 1)]) with
          (map ExitRules.format_range rs ++ map ExitRules.format_range [(start, p - 1)]). rewrite <- map_app.
        apply IH; [lia|]. split_and!; [by left|apply Forall_app; split; [done|]; constructor; [cbn; lia|done]|].
        intros q Hr. rewrite listed_snoc. cbn [fst snd]. destruct (decide (q = p)) as [->|Hne].
        -- rewrite Hok. split; [done|]. intros [[H|H]|H]; [by apply Hno in H|lia|lia].
        -- rewrite Hq by lia. split; intros [H|H]; [left; by left|left; right; lia| |lia]. destruct H as [H|H]; [by left|right; lia].
Qed.

(** The ranges of the summary line. *)
Lemma scan_all ok :
  exists rs, (let '(parts, start) := scan_ports ok (Z.to_nat 65535) 1 0 [] in
              if negb (start =? 0) then parts ++ [formatPolicyPortRange start 65535] else parts) = map ExitRules.format_range rs /\
    Forall ExitRules.valid_range rs /\ forall q, 1 <= q <= 65535 -> ok q = true <-> listed rs q.
Proof.
  destruct (scan_ports_spec ok (Z.to_nat 65535) 1 0 []) as (rs & start & Hs & (Hst & Hv & Hq)); [lia|split_and!; [by left|done|lia]|].
  cbn [map] in Hs. rewrite Hs. rewrite Z2Nat.id in * by lia.
  assert (Forall ExitRules.valid_range rs) as Hvr by (eapply Forall_impl; [exact Hv|]; unfold ExitRules.valid_range; cbn; lia).
  destruct (Z.eqb_spec start 0) as [H0|H0]; cbn [negb].
  - exists rs. split_and!; [done|done|]. intros q Hr. rewrite Hq by lia. split; [intros [H|H]; [done|lia]|by left].
  - exists (rs ++ [(start, 65535)]). rewrite map_app. split_and!; [done|apply Forall_app; split; [done|]; constructor; [split; cbn; lia|done]|].
    intros q Hr. rewrite listed_snoc, Hq by lia. cbn [fst snd]. split; (intros [H|H]; [by left|right; lia]).
Qed.

Lemma listed_existsb rs q : existsb (fun r => (r.1 <=? q) && (q <=? r.2)) rs = true <-> listed rs q.
Proof.
  rewrite existsb_exists. split; intros (r & Hr & H); exists r; (split; [by apply list_elem_of_In|]).
  - apply andb_true_iff in H as [H1%Z.leb_le H2%Z.leb_le]. lia.
  - apply andb_true_iff. split; apply Z.leb_le; lia.
Qed.

(** The line a relay publishes for IPv6, read by a client, allows exactly the ports
    the rules allow for the address the line was made with. *)
Theorem ipv6_summary_exact pol :
  exists s, ExitRules.ParseExitPolicySummary (ipv6PolicySummaryLine (Some pol)) = Ok s /\
    forall port, ExitRules.summary_allows (Some s) port = ExitRules.Allows (Some pol) probe6 port.
Proof.
  unfold ipv6PolicySummaryLine. destruct (scan_all (ExitRules.Allows (Some pol) probe6)) as (rs & Hrs & Hv & Hq).
  destruct (scan_ports _ _ _ _ _) as [parts start]. rewrite Hrs. clear parts start Hrs.
  assert (forall port, (port <? 1) || (65535 <? port) = true -> ExitRules.Allows (Some pol) probe6 port = false) as Hout
    by (intros port Ho; unfold ExitRules.Allows; rewrite Ho; by destruct probe6).
  destruct rs as [|r rs]; cbn [map].
  - exists (ExitRules.mkSummary false [(1, 65535)]). split; [vm_compute; reflexivity|]. intros port. unfold ExitRules.summary_allows.
    destruct (_ || _) eqn:E; [by rewrite Hout|]. apply orb_false_iff in E as [E1%Z.ltb_ge E2%Z.ltb_ge]. cbn [ExitRules.ranges ExitRules.acceptList existsb fst snd].
    rewrite !(proj2 (Z.leb_le _ _)) by lia. cbn [andb orb negb]. symmetry. apply not_true_iff_false. rewrite Hq by lia. intros (x & Hx & _). by apply elem_of_nil in Hx.
  - exists (ExitRules.mkSummary true (r :: rs)). split.
    + apply (ExitRules.parse_summary_line (lit "ipv6-policy") true (r :: rs)); [|done|done].
      right; right; left.
    + intros port. unfold ExitRules.summary_allows. destruct (_ || _) eqn:E; [by rewrite Hout|].
      apply orb_false_iff in E as [E1%Z.ltb_ge E2%Z.ltb_ge]. cbn [ExitRules.ranges ExitRules.acceptList].
      apply eq_true_iff_eq. rewrite listed_existsb, Hq by lia. done.
Qed.

(** A mask with a hole in it is taken for a network mask. *)
Theorem holed_mask_accepted :
  ExitRules.parseIPv4AddrSpec (lit "10.0.1.0/255.0.255.0") = Ok (mkNet [10; 0; 1; 0] [255; 0; 255; 0]).
Proof. vm_compute. reflexivity. Qed.

End ExitPolicy.
