(* ===== verification/Resolve.v ===== *)
(** * Remote host name lookup (pkg/circuit/dns.go, pkg/relay/exit_resolve.go)

    RELAY_RESOLVE and RELAY_RESOLVED: what a client asks, what an exit answers, and
    what the client reads of the answer.  The resolver of the exit's system is an
    argument; so is what the circuit's reader puts in the queue while the client
    waits. *)

From Stdlib Require Import String.
From S2P Require Import Prelude GoStrings GoNet Cell RelayCell CellPayloads Stream Circuit RelayCrypto ServerCircuit ExitStreams ExitRules ExitPolicy.
Import GoStrings GoNet ExitPolicy.
Import Cell(Cell).
Import ServerCircuit(ServerCircuit, Primitives, output).

Module Resolve.

Definition DNSTypeHostname : Z := 0x00.
Definition DNSTypeIPv4 : Z := 0x04.
Definition DNSTypeIPv6 : Z := 0x06.
Definition DNSTypeError : Z := 0xF0.
Definition DNSTypeErrorTTL : Z := 0xF1.

Definition exitResolveTTL : Z := 60.
Definition exitMaxDNSName : Z := 253.

(** ** The exit *)

Definition parseResolveName (data : bytes) : bytes :=
  TrimSpace (match IndexByte data 0 with Some i => take i data | None => data end).

Definition in_addr_arpa : bytes := lit ".in-addr.arpa".
Definition ip6_arpa : bytes := lit ".ip6.arpa".

(** [strings.ToLower(strings.Trim(name, "."))], as far as it can yield these
    suffixes and hexadecimal digits. *)
Definition arpa_name (name : bytes) : bytes := ExitStreams.lower_letters (Trim name (lit ".")).

Definition isPTRName (name : bytes) : bool :=
  let n := arpa_name name in HasSuffix n in_addr_arpa || HasSuffix n ip6_arpa.

Definition unhexNibble (s : bytes) : option Z :=
  match s with
  | [c] =>
      if (48 <=? c) && (c <=? 57) then Some (c - 48)
      else if (97 <=? c) && (c <=? 102) then Some (c - 97 + 10)
      else if (65 <=? c) && (c <=? 70) then Some (c - 65 + 10)
      else None
  | _ => None
  end.

(** The loop over the 16 bytes; the labels come last first. *)
Fixpoint arpa_bytes (labels : list bytes) : option bytes :=
  match labels with
  | hi :: lo :: labels =>
      match unhexNibble hi, unhexNibble lo with
      | Some hi, Some lo => cons (Z.lor (Z.shiftl hi 4) lo) <$> arpa_bytes labels
      | _, _ => None
      end
  | _ => Some []
  end.

(** [strings.TrimSuffix] of a suffix that is there. *)
Definition cut_suffix (s suffix : bytes) : bytes := take (length s - length suffix) s.

Definition parseARPAName (name : bytes) : option bytes :=
  let n := arpa_name name in
  if HasSuffix n in_addr_arpa then
    match Split (cut_suffix n in_addr_arpa) 46 with
    | [p0; p1; p2; p3] =>
        match ParseIP (p3 ++ [46] ++ p2 ++ [46] ++ p1 ++ [46] ++ p0) with
        | None => None
        | Some ip => match To4 ip with None => None | Some _ => Some ip end
        end
    | _ => None
    end
  else if HasSuffix n ip6_arpa then
    let parts := Split (cut_suffix n ip6_arpa) 46 in
    if negb (length parts =? 32)%nat then None else arpa_bytes (rev parts)
  else None.

Definition lookup_failed : bytes := lit "Error resolving hostname".

Definition encodeResolvedError (transient : bool) (msg : bytes) : bytes :=
  let msg := if string_eqb msg [] then lookup_failed else msg in
  let msg := if 255 <? len msg then take 255 msg else msg in
  [if transient then DNSTypeError else DNSTypeErrorTTL; len msg] ++ msg ++ PutUint32 0.

(** One record; nothing for an address of neither family. *)
Definition address_record (ttl : Z) (ip : bytes) : bytes :=
  match To4 ip with
  | Some v4 => [DNSTypeIPv4; 4] ++ v4 ++ PutUint32 ttl
  | None => match To16 ip with None => [] | Some v6 => [DNSTypeIPv6; 16] ++ v6 ++ PutUint32 ttl end
  end.

Definition encodeResolvedAddresses (ips : list bytes) (ttl : Z) : bytes :=
  match flat_map (address_record ttl) ips with
  | [] => encodeResolvedError false lookup_failed
  | buf => buf
  end.

Definition encodeResolvedHostname (host : bytes) (ttl : Z) : bytes :=
  let host := TrimRight host (lit ".") in
  let host := if 255 <? len host then take 255 host else host in
  [DNSTypeHostname; len host] ++ host ++ PutUint32 ttl.

(** The system's resolver: the addresses of a name, the names of an address;
    [None] when it fails. *)
Record resolver := mkResolver {
  lookupIP : bytes -> option (list bytes);
  lookupPTR : bytes -> option (list bytes);
}.

(** The addresses the exit passes on; a nil address is the empty one. *)
Definition passed_on (allowV6 : bool) (ip : bytes) : bool :=
  negb (string_eqb ip []) && negb (negb (ExitRules.is_v4 ip) && negb allowV6) && negb (dangerousExitIP (Some ip)).

(** The body of the answer to a request. *)
Definition resolve_body (policy : option ExitStreams.Policy) (r : resolver) (data : bytes) : bytes :=
  let failed := encodeResolvedError false lookup_failed in
  match policy with
  | None => failed
  | Some p =>
      if negb (ExitStreams.AllowExit p) then failed
      else
        let name := parseResolveName data in
        if string_eqb name [] || (exitMaxDNSName <? len name) then failed
        else if ExitStreams.isOnionHost name then failed
        else if isPTRName name then
          match parseARPAName name with
          | None => failed
          | Some ip =>
              if dangerousExitIP (Some ip) then failed
              else
                match lookupPTR r (IPString ip) with
                | None | Some [] => failed
                | Some (host :: _) => encodeResolvedHostname host exitResolveTTL
                end
          end
        else
          match lookupIP r name with
          | None | Some [] => failed
          | Some ips =>
              match List.filter (passed_on (ExitStreams.ipv6OK p)) ips with
              | [] => failed
              | ips => encodeResolvedAddresses ips exitResolveTTL
              end
          end
  end.

Section Exit.
Context `{Primitives}.
Context (sends : Z -> Cell -> bool) (took : Z -> Cell -> Z).

(** Stream 0 is ignored. *)
Definition HandleResolve (policy : option ExitStreams.Policy) (r : resolver) (w : ExitStreams.ExitStreamManager * ServerCircuit) (clientConn streamID : Z)
    (data : bytes) (now : Z) : (ExitStreams.ExitStreamManager * ServerCircuit) * output * option ExitStreams.error :=
  if streamID =? 0 then (w, [], None)
  else ExitStreams.sendRelay sends took w clientConn streamID RelayCell.RelayResolved (resolve_body policy r data) now.

End Exit.

(** ** The client *)

Inductive error :=
| errEmptyName
| errNulName
| errOnionName
| errInvalidIP
| errEmptyData
| errIncomplete
| errLength (n : Z)
| errNoRecords
| errCircuit (e : Circuit.error)
| errCell (e : RelayCell.error)
| errEnded (reason : option Z)
| errFailed (type : Z) (msg : bytes)
| errNoAnswers.

Record DNSResult := mkDNSResult {
  Type_ : Z;
  TTL : Z;
  Addresses : list bytes;
  Hostname : bytes;
  Error : Z;
  ErrorMessage : bytes;
}.

Definition normalizeResolveName (hostname : bytes) : result error bytes :=
  let hostname := TrimSpace hostname in
  if string_eqb hostname [] then Err errEmptyName
  else if IndexByte hostname 0 then Err errNulName
  else if HasSuffix (ExitStreams.lower_letters hostname) (lit ".onion") then Err errOnionName
  else Ok hostname.

Definition buildResolvePayload (name : bytes) : bytes := name ++ [0].

Definition nibble_labels (b : Z) : bytes := [hex_digit (Z.land b 15); 46; hex_digit (Z.shiftr b 4); 46].

Definition PTRHostname (ipAddr : option bytes) : result error bytes :=
  match ipAddr with
  | None => Err errInvalidIP
  | Some ip =>
      match To4 ip with
      | Some v4 =>
          Ok (print_int (at_ v4 3) ++ [46] ++ print_int (at_ v4 2) ++ [46] ++ print_int (at_ v4 1) ++ [46] ++
              print_int (at_ v4 0) ++ in_addr_arpa)
      | None =>
          match To16 ip with
          | None => Err errInvalidIP
          | Some v6 => Ok (flat_map nibble_labels (rev v6) ++ lit "ip6.arpa")
          end
      end
  end.

(** The variables of [parseResolvedCell]. *)
Record found := mkFound {
  host : bytes; hostTTL : Z;
  v4 : list bytes; v4TTL : Z;
  v6 : list bytes; v6TTL : Z;
  sawErr : Z; errTTL : Z; errMsg : bytes;
}.

Definition nothing : found := mkFound [] 0 [] 0 [] 0 0 0 [].

(** One record. *)
Definition take_record (f : found) (recordType : Z) (value : bytes) (ttl : Z) : result error found :=
  if recordType =? DNSTypeHostname then
    let hostname := TrimRight value [0] in
    Ok (if string_eqb hostname [] then f
        else if string_eqb (host f) [] then
          mkFound hostname ttl (v4 f) (v4TTL f) (v6 f) (v6TTL f) (sawErr f) (errTTL f) (errMsg f)
        else f)
  else if recordType =? DNSTypeIPv4 then
    if negb (len value =? 4) then Err (errLength (len value))
    else Ok (mkFound (host f) (hostTTL f) (v4 f ++ [v4InV6Prefix ++ value]) (match v4 f with [] => ttl | _ => v4TTL f end)
               (v6 f) (v6TTL f) (sawErr f) (errTTL f) (errMsg f))
  else if recordType =? DNSTypeIPv6 then
    if negb (len value =? 16) then Err (errLength (len value))
    else Ok (mkFound (host f) (hostTTL f) (v4 f) (v4TTL f) (v6 f ++ [value]) (match v6 f with [] => ttl | _ => v6TTL f end)
               (sawErr f) (errTTL f) (errMsg f))
  else if (recordType =? DNSTypeError) || (recordType =? DNSTypeErrorTTL) then
    Ok (if sawErr f =? 0 then
          mkFound (host f) (hostTTL f) (v4 f) (v4TTL f) (v6 f) (v6TTL f) recordType ttl (TrimRight value [0])
        else f)
  else Ok f.

(** The loop over the records; [None] would be one that does not end. *)
Fixpoint take_records (fuel : nat) (f : found) (data : bytes) : option (result error found) :=
  match fuel with
  | O => None
  | S fuel =>
      match data with
      | recordType :: length :: rest =>
          if len rest <? length + 4 then Some (Err errIncomplete)
          else
            let value := take (Z.to_nat length) rest in
            let ttl := be_get (slice rest (Z.to_nat length) (Z.to_nat length + 4)) in
            match take_record f recordType value ttl with
            | Err e => Some (Err e)
            | Ok f => take_records fuel f (drop (Z.to_nat length + 4) rest)
            end
      | _ => Some (Ok f)
      end
  end.

Definition summarize (f : found) : result error DNSResult :=
  let addresses := v4 f ++ v6 f in
  match v4 f, v6 f with
  | _ :: _, _ => Ok (mkDNSResult DNSTypeIPv4 (v4TTL f) addresses (host f) 0 [])
  | [], _ :: _ => Ok (mkDNSResult DNSTypeIPv6 (v6TTL f) addresses (host f) 0 [])
  | [], [] =>
      if negb (string_eqb (host f) []) then Ok (mkDNSResult DNSTypeHostname (hostTTL f) addresses (host f) 0 [])
      else if negb (sawErr f =? 0) then Ok (mkDNSResult (sawErr f) (errTTL f) addresses (host f) (sawErr f) (errMsg f))
      else Err errNoRecords
  end.

(** A record takes at least six bytes: the fuel is enough. *)
Definition parseResolvedCell (data : bytes) : option (result error DNSResult) :=
  match data with
  | [] => Some (Err errEmptyData)
  | _ =>
      match take_records (S (length data)) nothing data with
      | None => None
      | Some (Err e) => Some (Err e)
      | Some (Ok f) => Some (summarize f)
      end
  end.

(** The loop that waits for the answer, as that of [Circuit.waitStreamConnected]. *)
Fixpoint waitResolved (picks : list nat) (ctxDone : bool) (streamID : Z) (w : Circuit.Circuit * option Stream.CircuitBound) :
    (Circuit.Circuit * option Stream.CircuitBound) * option (result error RelayCell.RelayCell) :=
  let '(c, mgr) := w in
  match picks with
  | [] => (w, None)
  | pick :: picks =>
      match Circuit.ReceiveRelayCell pick ctxDone c with
      | (c, None) => ((c, mgr), None)
      | (c, Some (Err e)) => ((c, mgr), Some (Err (errCircuit e)))
      | (c, Some (Ok rc)) =>
          if negb (RelayCell.StreamID rc =? streamID) then
            let '(mgr, _) := Circuit.deliverToStream pick mgr rc in waitResolved picks ctxDone streamID (c, mgr)
          else if RelayCell.Command rc =? RelayCell.RelayResolved then ((c, mgr), Some (Ok rc))
          else if RelayCell.Command rc =? RelayCell.RelayEnd then ((c, mgr), Some (Err (errEnded (RelayCell.Data rc !! 0%nat))))
          else waitResolved picks ctxDone streamID (c, mgr)
      end
  end.

(** What the caller gets of a RESOLVED body: the result, and the error returned
    beside it. *)
Definition resolved_result (data : bytes) : option (option DNSResult * option error) :=
  match parseResolvedCell data with
  | None => None
  | Some (Err e) => Some (None, Some e)
  | Some (Ok r) =>
      Some (Some r,
        match Addresses r with
        | [] =>
            if string_eqb (Hostname r) [] then
              Some (if (Type_ r =? DNSTypeError) || (Type_ r =? DNSTypeErrorTTL) then errFailed (Type_ r) (ErrorMessage r) else errNoAnswers)
            else None
        | _ => None
        end)
  end.

(** [send] is [SendRelayCell], [arrive] what reaches the circuit until the wait
    ends.  The stream id is given back on every path. *)
Definition sendResolve (send : Circuit.Circuit -> RelayCell.RelayCell -> Circuit.Circuit * option Circuit.error)
    (arrive : Circuit.Circuit -> Circuit.Circuit) (picks : list nat) (ctxDone : bool)
    (w : Circuit.Circuit * option Stream.CircuitBound) (name : bytes) :
    (Circuit.Circuit * option Stream.CircuitBound) * option (option DNSResult * option error) :=
  let '(c, mgr) := w in
  match Circuit.AllocateStreamID c with
  | (c, None) => ((c, mgr), None)
  | (c, Some (Err e)) => ((c, mgr), Some (None, Some (errCircuit e)))
  | (c, Some (Ok streamID)) =>
      let release (w : Circuit.Circuit * option Stream.CircuitBound) := (Circuit.ReleaseStreamID w.1 streamID, w.2) in
      match RelayCell.NewRelayCell streamID RelayCell.RelayResolve (buildResolvePayload name) with
      | Err e => (release (c, mgr), Some (None, Some (errCell e)))
      | Ok rc =>
          match send c rc with
          | (c, Some e) => (release (c, mgr), Some (None, Some (errCircuit e)))
          | (c, None) =>
              match waitResolved picks ctxDone streamID (arrive c, mgr) with
              | (w, None) => (w, None)
              | (w, Some (Err e)) => (release w, Some (None, Some e))
              | (w, Some (Ok rc)) => (release w, resolved_result (RelayCell.Data rc))
              end
          end
      end
  end.

Definition ResolveHostname send arrive picks ctxDone w (hostname : bytes) :=
  match normalizeResolveName hostname with
  | Err e => (w, Some (None, Some e))
  | Ok name => sendResolve send arrive picks ctxDone w name
  end.

Definition ResolveIP send arrive picks ctxDone w (ipAddr : option bytes) :=
  match PTRHostname ipAddr with
  | Err e => (w, Some (None, Some e))
  | Ok name => sendResolve send arrive picks ctxDone w name
  end.

(** ** The request *)

Lemma IndexByte_snoc s c : c ∉ s -> IndexByte (s ++ [c]) c = Some (length s).
Proof.
  induction s as [|x s IH]; intros Hn; cbn [app IndexByte]; [by rewrite Z.eqb_refl|].
  apply not_elem_of_cons in Hn as [Hx Hn]. rewrite (proj2 (Z.eqb_neq x c)) by congruence. by rewrite IH.
Qed.

Lemma normalized hostname name : normalizeResolveName hostname = Ok name -> TrimSpace name = name /\ name <> [] /\ 0 ∉ name.
Proof.
  unfold normalizeResolveName. destruct (string_eqb (TrimSpace hostname) []) eqn:He; [done|].
  destruct (IndexByte (TrimSpace hostname) 0) as [i|] eqn:Hi; [done|]. destruct (HasSuffix _ _); [done|]. intros [= <-].
  split_and!; [apply TrimSpace_idem| |].
  - intros Hn. by rewrite Hn in He.
  - intros Hin. destruct (IndexByte_some _ _ Hin) as [i Hi']. congruence.
Qed.

(** The exit reads the name the client wrote. *)
Lemma parse_payload name : TrimSpace name = name -> 0 ∉ name -> parseResolveName (buildResolvePayload name) = name.
Proof. intros Ht Hn. unfold parseResolveName, buildResolvePayload. by rewrite IndexByte_snoc, take_app_length, Ht. Qed.

(** ** Reverse names *)

(** Lower-case ASCII. *)
Definition lower_ascii (c : Z) : Prop := 32 < c < 128 /\ ~ 65 <= c <= 90.

Lemma lower_letters_id s : Forall lower_ascii s -> ExitStreams.lower_letters s = s.
Proof.
  assert (forall c, lower_ascii c -> to_lower c = c) as Hl.
  { intros c [_ Hc]. unfold to_lower. destruct (_ && _) eqn:E; [|done]. apply andb_true_iff in E as [E1%Z.leb_le E2%Z.leb_le]. lia. }
  intros Hs. induction Hs as [|c s Hc Hs IH]; [done|]. cbn [ExitStreams.lower_letters]. destruct s as [|d s]; [by rewrite Hl|].
  rewrite (proj2 (Z.eqb_neq c 0xC4)) by (destruct Hc; lia). cbn [andb]. by rewrite Hl, IH.
Qed.

Lemma Trim_ends s c t pre d cut :
  s = c :: t -> s = pre ++ [d] -> existsb (Z.eqb c) cut = false -> existsb (Z.eqb d) cut = false -> Trim s cut = s.
Proof.
  intros Hs Hp Hc Hd. unfold Trim, TrimRight. assert (TrimLeft s cut = s) as -> by (rewrite Hs; cbn [TrimLeft]; by rewrite Hc).
  assert (TrimLeft (rev s) cut = rev s) as -> by (rewrite Hp, rev_app_distr; cbn [rev app TrimLeft]; by rewrite Hd). apply rev_involutive.
Qed.

Lemma cut_suffix_app s suffix : cut_suffix (s ++ suffix) suffix = s.
Proof. unfold cut_suffix. rewrite length_app. replace (length s + length suffix - length suffix)%nat with (length s) by lia. apply take_app_length. Qed.

(** A name in lower case that neither starts nor ends in a dot is taken as it is. *)
Lemma arpa_name_id s c t pre d : Forall lower_ascii s -> s = c :: t -> s = pre ++ [d] -> c <> 46 -> d <> 46 -> arpa_name s = s.
Proof.
  intros Hl Hs Hp Hc Hd. unfold arpa_name. rewrite (Trim_ends s c t pre d); [by apply lower_letters_id|done|done| |].
  - change (lit ".") with [46]. cbn [existsb]. by rewrite (proj2 (Z.eqb_neq c 46)).
  - change (lit ".") with [46]. cbn [existsb]. by rewrite (proj2 (Z.eqb_neq d 46)).
Qed.

Lemma digits_lower v : is_byte v -> Forall lower_ascii (print_int v) /\ 46 ∉ print_int v /\ (length (print_int v) <= 19)%nat /\ exists c s, print_int v = c :: s /\ c <> 46.
Proof.
  intros Hv. destruct (ExitRules.print_port v) as (_ & Hd & Hn); [unfold is_byte in Hv; lia|]. split_and!.
  - eapply Forall_impl; [exact Hd|]. unfold lower_ascii. cbn. lia.
  - intros Hin. eapply Forall_forall in Hin; [|exact Hd]. cbn in Hin. lia.
  - apply (print_int_spec v). unfold MaxInt64. unfold is_byte in Hv. lia.
  - destruct (print_int v) as [|c s]; [done|]. apply Forall_cons in Hd as [Hc _]. exists c, s. split; [done|lia].
Qed.

Lemma suffix_lower : Forall lower_ascii in_addr_arpa /\ Forall lower_ascii (lit "ip6.arpa").
Proof. unfold lower_ascii. split; apply (bool_decide_unpack _); vm_compute; exact I. Qed.

Lemma reverse_name_v4 a b c d : Forall is_byte [a; b; c; d] ->
  let name := print_int d ++ [46] ++ print_int c ++ [46] ++ print_int b ++ [46] ++ print_int a ++ in_addr_arpa in
  arpa_name name = name /\ parseARPAName name = Some (v4InV6Prefix ++ [a; b; c; d]) /\ Forall lower_ascii name /\ len name <= 253.
Proof.
  intros Hv name. pose proof Hv as Hbs. rewrite !Forall_cons in Hv. destruct Hv as (Ha & Hb & Hc & Hd & _).
  destruct (digits_lower a Ha) as (La & Da & Na & _), (digits_lower b Hb) as (Lb & Db & Nb & _), (digits_lower c Hc) as (Lc & Dc & Nc & _).
  destruct (digits_lower d Hd) as (Ld & Dd & Nd & x & s & Hx & Hx46).
  assert (Forall lower_ascii name) as Hl.
  { unfold name. rewrite !Forall_app. split_and!; try done; try apply suffix_lower; (constructor; [unfold lower_ascii; lia|done]). }
  assert (arpa_name name = name) as Hn.
  { eapply (arpa_name_id name x _ _ 97 Hl); [unfold name; rewrite Hx; reflexivity| |done|lia].
    unfold name. change in_addr_arpa with (lit ".in-addr.arp" ++ [97]). rewrite !app_assoc. reflexivity. }
  assert (HasSuffix name in_addr_arpa = true) as Hs by (unfold name; rewrite !app_assoc; apply HasSuffix_app).
  split_and!; [done| |done|unfold name, len; rewrite !length_app; change (length in_addr_arpa) with 13%nat; cbn [length]; lia].
  unfold parseARPAName. rewrite Hn, Hs.
  assert (cut_suffix name in_addr_arpa = print_int d ++ 46 :: print_int c ++ 46 :: print_int b ++ 46 :: print_int a) as ->.
  { unfold name. rewrite !app_assoc, cut_suffix_app, <- !app_assoc. done. }
  rewrite !Split_cons, Split_plain by done. pose proof (parse_IPString [a; b; c; d] ltac:(by left) Hbs) as Hp.
  change (IPString [a; b; c; d]) with (print_int a ++ [46] ++ print_int b ++ [46] ++ print_int c ++ [46] ++ print_int d) in Hp.
  rewrite Hp. change (To16 [a; b; c; d]) with (Some (v4InV6Prefix ++ [a; b; c; d])). cbv iota. by rewrite To4_mapped.
Qed.

(** The labels of some bytes, low nibble first, and high nibble first. *)
Definition labels_low (l : bytes) : list bytes := flat_map (fun b => [[hex_digit (Z.land b 15)]; [hex_digit (Z.shiftr b 4)]]) l.
Definition labels_high (l : bytes) : list bytes := flat_map (fun b => [[hex_digit (Z.shiftr b 4)]; [hex_digit (Z.land b 15)]]) l.

Lemma nibble_join l : l <> [] -> flat_map nibble_labels l = Join (labels_low l) 46 ++ [46].
Proof.
  induction l as [|b l IH]; [done|]. intros _. cbn [flat_map labels_low]. destruct l as [|b' l]; [done|].
  rewrite (IH ltac:(done)). unfold nibble_labels. change (flat_map _ (b' :: l)) with (labels_low (b' :: l)).
  assert (exists x y, labels_low (b' :: l) = x :: y) as (x & y & ->) by (do 2 eexists; reflexivity). reflexivity.
Qed.

Lemma labels_rev l : rev (labels_low (rev l)) = labels_high l.
Proof.
  induction l as [|b l IH]; [done|]. cbn [rev labels_high flat_map]. unfold labels_low in *. rewrite flat_map_app, rev_app_distr, IH. done.
Qed.

Lemma nibbles b : is_byte b -> 0 <= Z.land b 15 < 16 /\ 0 <= Z.shiftr b 4 < 16 /\ Z.lor (Z.shiftl (Z.shiftr b 4) 4) (Z.land b 15) = b.
Proof.
  intros Hb. unfold is_byte in Hb. change 15 with (Z.ones 4).
  split_and!; try (rewrite ?Z.land_ones, ?Z.shiftr_div_pow2 by lia; change (2 ^ 4) with 16; Z.div_mod_to_equations; lia).
  apply Z.bits_inj'. intros i Hi. rewrite Z.lor_spec, Z.land_spec. destruct (Z.ltb_spec i 4) as [Hl|Hl].
  - rewrite Z.shiftl_spec_low, Z.ones_spec_low by lia. by rewrite andb_true_r.
  - rewrite Z.shiftl_spec_high, Z.shiftr_spec, Z.ones_spec_high by lia. rewrite andb_false_r, orb_false_r. f_equal. lia.
Qed.

Lemma unhexNibble_digit v : 0 <= v < 16 -> unhexNibble [hex_digit v] = Some v.
Proof.
  intros Hv. unfold unhexNibble, hex_digit. destruct (Z.ltb_spec v 10).
  - rewrite !(proj2 (Z.leb_le _ _)) by lia. cbn [andb]. f_equal. lia.
  - rewrite (proj2 (Z.leb_gt _ 57)), andb_false_r by lia. rewrite !(proj2 (Z.leb_le _ _)) by lia. cbn [andb]. f_equal. lia.
Qed.

Lemma arpa_bytes_labels l : Forall is_byte l -> arpa_bytes (labels_high l) = Some l.
Proof.
  intros Hl. induction Hl as [|b l Hb Hl IH]; [done|]. cbn [labels_high flat_map app arpa_bytes]. change (flat_map _ l) with (labels_high l).
  destruct (nibbles b Hb) as (H1 & H2 & H3). rewrite !unhexNibble_digit, IH by done. cbn. by rewrite H3.
Qed.

Lemma hex_digit_lower v : 0 <= v < 16 -> lower_ascii (hex_digit v) /\ hex_digit v <> 46.
Proof. intros Hv. unfold lower_ascii, hex_digit. destruct (Z.ltb_spec v 10); lia. Qed.

Lemma labels_low_chars l : Forall is_byte l -> Forall (fun w => Forall lower_ascii w /\ 46 ∉ w) (labels_low l) /\ length (labels_low l) = (2 * length l)%nat.
Proof.
  intros Hl. induction Hl as [|b l Hb Hl (IH & IHl)]; [done|]. cbn [labels_low flat_map app]. change (flat_map _ l) with (labels_low l).
  destruct (nibbles b Hb) as (H1 & H2 & _). destruct (hex_digit_lower _ H1), (hex_digit_lower _ H2).
  split; [|cbn [length]; lia]. repeat (constructor; [split; [constructor; [done | constructor] | set_solver]|]). done.
Qed.

Lemma reverse_name_v6 ip : length ip = 16%nat -> Forall is_byte ip ->
  let name := flat_map nibble_labels (rev ip) ++ lit "ip6.arpa" in
  arpa_name name = name /\ parseARPAName name = Some ip /\ Forall lower_ascii name /\ len name <= 253.
Proof.
  intros Hlen Hb name. assert (Forall is_byte (rev ip)) as Hr by (by apply Forall_rev).
  assert (rev ip <> []) as Hne by (intros E; apply (f_equal length) in E; rewrite length_rev, Hlen in E; done).
  destruct (labels_low_chars (rev ip) Hr) as [Hc Hcl]. rewrite length_rev, Hlen in Hcl.
  assert (name = Join (labels_low (rev ip)) 46 ++ ip6_arpa) as Hname by (unfold name; rewrite nibble_join by done; by rewrite <- app_assoc).
  assert (Forall lower_ascii name) as Hl.
  { unfold name. rewrite nibble_join, <- app_assoc by done. rewrite !Forall_app. split_and!; [|constructor; [unfold lower_ascii; lia|done]|apply suffix_lower].
    apply ExitRules.Join_chars; [unfold lower_ascii; lia|]. eapply Forall_impl; [exact Hc|]. by intros w [? _]. }
  assert (exists c t, name = c :: t /\ c <> 46) as (c & t & Hct & Hc46).
  { unfold name. destruct (rev ip) as [|b l]; [done|]. cbn [flat_map nibble_labels app]. do 2 eexists. split; [reflexivity|].
    apply Forall_cons in Hr as [Hb' _]. destruct (nibbles b Hb') as (H1 & _). by apply hex_digit_lower. }
  assert (arpa_name name = name) as Hn.
  { eapply (arpa_name_id name c t _ 97 Hl Hct); [|done|lia]. rewrite Hname. change ip6_arpa with (lit ".ip6.arp" ++ [97]). rewrite app_assoc. reflexivity. }
  split_and!; [done| |done|].
  - unfold parseARPAName. rewrite Hn. assert (HasSuffix name in_addr_arpa = false) as ->.
    { apply not_true_iff_false. unfold HasSuffix. intros [_ E%string_eqb_spec]%andb_true_iff.
      pose proof (take_drop (length name - length in_addr_arpa) name) as Hd. rewrite E, Hname in Hd. apply (f_equal (@rev Z)) in Hd.
      rewrite !rev_app_distr in Hd. apply (f_equal (fun l => l !! 5%nat)) in Hd. discriminate Hd. }
    rewrite Hname, HasSuffix_app, cut_suffix_app. rewrite Split_Join.
    + rewrite Hcl, labels_rev. cbn [Nat.eqb negb Nat.mul Nat.add]. by apply arpa_bytes_labels.
    + intros E. by rewrite E in Hcl.
    + eapply Forall_impl; [exact Hc|]. by intros w [_ ?].
  - assert (forall l, length (flat_map nibble_labels l) = (4 * length l)%nat) as Hf
      by (intros l; induction l as [|b l IH]; [done|]; cbn [flat_map nibble_labels app length]; rewrite IH; lia).
    unfold name, len. rewrite length_app, Hf, length_rev, Hlen. cbn. lia.
Qed.

(** ** The answer *)

Definition record (recordType : Z) (value : bytes) (ttl : Z) : bytes := [recordType; len value] ++ value ++ PutUint32 ttl.

Lemma take_records_cons fuel f t value ttl rest : is_u 32 ttl ->
  take_records (S fuel) f (record t value ttl ++ rest) =
    match take_record f t value ttl with Err e => Some (Err e) | Ok f => take_records fuel f rest end.
Proof.
  intros Ht. unfold record. cbn [app take_records]. rewrite <- app_assoc.
  assert (length (PutUint32 ttl) = 4%nat) as H4 by apply length_be_put.
  rewrite (proj2 (Z.ltb_ge _ _)) by (unfold len; rewrite !length_app, H4; lia). unfold len. rewrite Nat2Z.id, take_app_length.
  assert (slice (value ++ PutUint32 ttl ++ rest) (length value) (length value + 4) = PutUint32 ttl) as ->.
  { unfold slice. rewrite drop_app_length. replace (length value + 4 - length value)%nat with (length (PutUint32 ttl)) by lia. apply take_app_length. }
  rewrite get_PutUint32 by done. replace (drop (length value + 4) (value ++ PutUint32 ttl ++ rest)) with rest; [done|].
  rewrite <- H4, <- length_app, app_assoc. symmetry. apply drop_app_length.
Qed.

(** The loop ends on every body. *)
Lemma take_records_total fuel f data : (length data < fuel)%nat -> is_Some (take_records fuel f data).
Proof.
  revert f data. induction fuel as [|fuel IH]; intros f data Hf; [lia|]. cbn [take_records].
  destruct data as [|t [|n rest]]; [by eexists|by eexists|]. destruct (_ <? _); [by eexists|].
  destruct (take_record _ _ _ _); [|by eexists]. apply IH. rewrite length_drop. cbn in Hf. lia.
Qed.

(** More fuel changes nothing. *)
Lemma take_records_more fuel n f data x : take_records fuel f data = Some x -> take_records (fuel + n) f data = Some x.
Proof.
  revert f data. induction fuel as [|fuel IH]; intros f data Hx; [done|]. cbn [take_records Nat.add] in *.
  destruct data as [|t [|k rest]]; [done|done|]. destruct (_ <? _); [done|]. destruct (take_record _ _ _ _); [by apply IH|done].
Qed.

(** The 16-byte form of an address, and the order in which they are handed out. *)
Definition long (ip : bytes) : bytes := default [] (To16 ip).
Definition v4_first (ips : list bytes) : list bytes :=
  map long (List.filter ExitRules.is_v4 ips ++ List.filter (fun ip => negb (ExitRules.is_v4 ip)) ips).

Definition add_address (ttl : Z) (f : found) (ip : bytes) : found :=
  if ExitRules.is_v4 ip
  then mkFound (host f) (hostTTL f) (v4 f ++ [long ip]) (match v4 f with [] => ttl | _ => v4TTL f end) (v6 f) (v6TTL f) (sawErr f) (errTTL f) (errMsg f)
  else mkFound (host f) (hostTTL f) (v4 f) (v4TTL f) (v6 f ++ [long ip]) (match v6 f with [] => ttl | _ => v6TTL f end) (sawErr f) (errTTL f) (errMsg f).

Lemma take_address fuel f ip ttl rest : valid_ip ip -> is_u 32 ttl ->
  take_records (S fuel) f (address_record ttl ip ++ rest) = take_records fuel (add_address ttl f ip) rest.
Proof.
  intros [Hl Hb] Ht. unfold address_record, add_address, ExitRules.is_v4, long. destruct (To4 ip) as [w|] eqn:H4.
  - destruct (To4_inv ip w H4) as [Hw Hip]. assert (To16 ip = Some (v4InV6Prefix ++ w)) as ->
      by (destruct Hip as [->| ->]; [unfold To16; by rewrite Hw | apply To16_idem; by rewrite length_app, Hw]).
    replace ([DNSTypeIPv4; 4] ++ w ++ PutUint32 ttl) with (record DNSTypeIPv4 w ttl) by (unfold record, len; by rewrite Hw).
    rewrite take_records_cons by done. unfold take_record. cbn [Z.eqb DNSTypeIPv4 DNSTypeHostname]. unfold len. by rewrite Hw.
  - assert (length ip = 16%nat) as H16 by (destruct Hl as [Hl|Hl]; [by rewrite To4_idem in H4|done]). rewrite To16_idem by done.
    replace ([DNSTypeIPv6; 16] ++ ip ++ PutUint32 ttl) with (record DNSTypeIPv6 ip ttl) by (unfold record, len; by rewrite H16).
    rewrite take_records_cons by done. unfold take_record. cbn [Z.eqb DNSTypeIPv6 DNSTypeIPv4 DNSTypeHostname]. unfold len. by rewrite H16.
Qed.

Lemma take_addresses ttl ips f : Forall valid_ip ips -> is_u 32 ttl ->
  take_records (S (length ips)) f (flat_map (address_record ttl) ips) = Some (Ok (foldl (add_address ttl) f ips)).
Proof.
  intros Hv Ht. revert f. induction Hv as [|ip ips Hip Hv IH]; intros f; [done|]. cbn [length flat_map foldl]. by rewrite take_address, IH.
Qed.

(** The variables after all addresses. *)
Definition gathered (ttl : Z) (ips : list bytes) : found :=
  let a := List.filter ExitRules.is_v4 ips in
  let b := List.filter (fun ip => negb (ExitRules.is_v4 ip)) ips in
  mkFound [] 0 (map long a) (match a with [] => 0 | _ => ttl end) (map long b) (match b with [] => 0 | _ => ttl end) 0 0 [].

Lemma foldl_addresses ttl ips : foldl (add_address ttl) nothing ips = gathered ttl ips.
Proof.
  induction ips as [|ip ips IH] using rev_ind; [done|]. rewrite foldl_app, IH. cbn [foldl]. unfold gathered. rewrite !List.filter_app, !map_app.
  unfold add_address. cbn [List.filter v4 v6 v4TTL v6TTL host hostTTL sawErr errTTL errMsg].
  destruct (ExitRules.is_v4 ip); cbn [negb map]; rewrite !app_nil_r; f_equal.
  - destruct (List.filter _ ips); done.
  - destruct (List.filter (fun _ => _) ips); done.
Qed.

(** What the client is to be told of the addresses an exit passes on. *)
Definition told (ips : list bytes) : option DNSResult * option error :=
  match ips with
  | [] => (Some (mkDNSResult DNSTypeErrorTTL 0 [] [] DNSTypeErrorTTL lookup_failed), Some (errFailed DNSTypeErrorTTL lookup_failed))
  | _ => (Some (mkDNSResult (if existsb ExitRules.is_v4 ips then DNSTypeIPv4 else DNSTypeIPv6) exitResolveTTL (v4_first ips) [] 0 []), None)
  end.

Lemma failure_told : resolved_result (encodeResolvedError false lookup_failed) = Some (told []).
Proof. vm_compute. reflexivity. Qed.

Lemma existsb_filter {A} (p : A -> bool) l : existsb p l = match List.filter p l with [] => false | _ => true end.
Proof. induction l as [|x l IH]; [done|]. cbn. by destruct (p x). Qed.

Lemma address_record_length ttl ip : valid_ip ip -> (10 <= length (address_record ttl ip))%nat.
Proof.
  intros [Hl _]. unfold address_record. destruct (To4 ip) as [w|] eqn:H4.
  - rewrite !length_app, (To4_length ip w H4), length_PutUint32. cbn. lia.
  - destruct Hl as [Hl|Hl]; [by rewrite To4_idem in H4|]. rewrite To16_idem, !length_app, Hl by done. cbn. lia.
Qed.

Lemma addresses_told ips : ips <> [] -> Forall valid_ip ips ->
  resolved_result (encodeResolvedAddresses ips exitResolveTTL) = Some (told ips).
Proof.
  intros Hn Hv. unfold encodeResolvedAddresses. set (buf := flat_map (address_record exitResolveTTL) ips).
  assert (length ips <= length buf)%nat as Hlen.
  { unfold buf. clear Hn buf. induction Hv as [|ip l Hip Hv IH]; [done|]. cbn [flat_map]. rewrite length_app. pose proof (address_record_length exitResolveTTL ip Hip). cbn [length]. lia. }
  assert (take_records (S (length buf)) nothing buf = Some (Ok (gathered exitResolveTTL ips))) as Hrec.
  { replace (S (length buf)) with (S (length ips) + (length buf - length ips))%nat by lia. apply take_records_more.
    unfold buf. rewrite take_addresses, foldl_addresses by (done || (unfold is_u, exitResolveTTL; lia)). done. }
  destruct buf as [|x xs]; [destruct ips; [done | cbn in Hlen; lia]|].
  unfold resolved_result, parseResolvedCell. rewrite Hrec. unfold summarize, gathered, told, v4_first.
  cbn [v4 v6 v4TTL v6TTL host hostTTL sawErr errTTL errMsg]. rewrite (existsb_filter ExitRules.is_v4 ips), map_app.
  destruct ips as [|i ips]; [done|]. destruct (List.filter ExitRules.is_v4 (i :: ips)) as [|p ps] eqn:E4; cbn [map app]; [|done].
  destruct (List.filter (fun ip => negb (ExitRules.is_v4 ip)) (i :: ips)) as [|q qs] eqn:E6; cbn [map app]; [|done].
  cbn [List.filter] in E4, E6. by destruct (ExitRules.is_v4 i).
Qed.

(** A lookup, from the name the client's user gave to the answer its user gets: it
    is exactly what the exit's resolver says, less the addresses that are private,
    local or reserved and those of a family the exit does not serve, IPv4 first;
    when none is left, or the resolver fails, an error. *)
Theorem forward_lookup_exact p r hostname name :
  normalizeResolveName hostname = Ok name -> len name <= exitMaxDNSName -> ExitStreams.isOnionHost name = false -> isPTRName name = false ->
  ExitStreams.AllowExit p = true -> (forall ips, lookupIP r name = Some ips -> Forall valid_ip ips) ->
  resolved_result (resolve_body (Some p) r (buildResolvePayload name)) =
    Some (told (List.filter (passed_on (ExitStreams.ipv6OK p)) (default [] (lookupIP r name)))).
Proof.
  intros Hn Hlen Ho Hp Ha Hv. destruct (normalized hostname name Hn) as (Ht & Hne & Hz). unfold resolve_body.
  rewrite Ha, parse_payload, string_eqb_false, (proj2 (Z.ltb_ge _ _)), Ho, Hp by done. cbn [negb orb].
  destruct (lookupIP r name) as [[|i ips]|] eqn:Hl; cbn [default from_option id]; [apply failure_told| |apply failure_told].
  assert (Forall valid_ip (List.filter (passed_on (ExitStreams.ipv6OK p)) (i :: ips))) as Hg.
  { apply Forall_forall. intros ip Hin. apply list_elem_of_In, filter_In in Hin as [Hin _]. eapply Forall_forall; [by apply Hv | by apply list_elem_of_In]. }
  destruct (List.filter _ (i :: ips)) as [|j js]; [apply failure_told | by apply addresses_told].
Qed.

Lemma valid_v4 ip : ip = [93; 184; 216; 34] \/ ip = [10; 0; 0; 1] -> valid_ip ip.
Proof. intros [->| ->]; (split; [by left|]); repeat (apply Forall_cons; split; [unfold is_byte; lia|]); by apply Forall_nil. Qed.

Definition any_policy : ExitStreams.Policy := ExitStreams.mkPolicy true false (fun _ _ => (true, 0)).

Lemma forward_lookup_exact_witness :
  let r := mkResolver (fun _ => Some [[10; 0; 0; 1]; [93; 184; 216; 34]]) (fun _ => None) in
  resolved_result (resolve_body (Some any_policy) r (buildResolvePayload (lit "example.com"))) =
    Some (Some (mkDNSResult DNSTypeIPv4 60 [v4InV6Prefix ++ [93; 184; 216; 34]] [] 0 []), None).
Proof.
  intros r. rewrite (forward_lookup_exact any_policy r (lit " example.com") (lit "example.com"));
    [vm_compute; reflexivity|vm_compute; reflexivity|vm_compute; discriminate|vm_compute; reflexivity|vm_compute; reflexivity|reflexivity|].
  intros ips [= <-]. repeat (apply Forall_cons; split; [apply valid_v4; auto|]). by apply Forall_nil.
Defined.

Lemma HasSuffix_last n s c : HasSuffix n (s ++ [c]) = true -> last n = Some c.
Proof.
  unfold HasSuffix. intros [_ E%string_eqb_spec]%andb_true_iff.
  rewrite <- (take_drop (length n - length (s ++ [c])) n), E, app_assoc. apply last_snoc.
Qed.

(** A reverse name is one, and not an onion name. *)
Lemma parsed_reverse_name name ip : parseARPAName name = Some ip -> isPTRName name = true /\ ExitStreams.isOnionHost name = false.
Proof.
  intros Hp. assert (isPTRName name = true) as Hi.
  { unfold parseARPAName in Hp. unfold isPTRName. destruct (HasSuffix _ in_addr_arpa); [done|]. by destruct (HasSuffix _ ip6_arpa). }
  split; [done|]. unfold isPTRName in Hi. unfold ExitStreams.isOnionHost. fold (arpa_name name).
  assert (last (arpa_name name) = Some 97) as Hl.
  { apply orb_true_iff in Hi as [Hi|Hi]; [apply (HasSuffix_last _ (lit ".in-addr.arp")) | apply (HasSuffix_last _ (lit ".ip6.arp"))]; exact Hi. }
  apply orb_false_iff. split; apply not_true_iff_false; intros E.
  - apply string_eqb_spec in E. by rewrite E in Hl.
  - apply (HasSuffix_last _ (lit ".onio")) in E. rewrite Hl in E. discriminate E.
Qed.

(** What the client is to be told of the name of an address. *)
Definition told_host (host : bytes) : option DNSResult * option error :=
  let h := TrimRight (take 255 (TrimRight host (lit "."))) [0] in
  if string_eqb h [] then (None, Some errNoRecords)
  else (Some (mkDNSResult DNSTypeHostname exitResolveTTL [] h 0 []), None).

Lemma host_told h : resolved_result (encodeResolvedHostname h exitResolveTTL) = Some (told_host h).
Proof.
  unfold encodeResolvedHostname, told_host. set (t := TrimRight h (lit ".")).
  assert ((if 255 <? len t then take 255 t else t) = take 255 t) as ->.
  { destruct (Z.ltb_spec 255 (len t)) as [Hl|Hl]; [done|]. symmetry. apply take_ge. unfold len in Hl. lia. }
  set (v := take 255 t). change ([DNSTypeHostname; len v] ++ v ++ PutUint32 exitResolveTTL) with (record DNSTypeHostname v exitResolveTTL).
  set (name := TrimRight v [0]). set (g := if string_eqb name [] then nothing else mkFound name exitResolveTTL [] 0 [] 0 0 0 []).
  assert (take_records (S (length (record DNSTypeHostname v exitResolveTTL))) nothing (record DNSTypeHostname v exitResolveTTL) = Some (Ok g)) as Hrec.
  { rewrite <- (app_nil_r (record _ _ _)) at 2. rewrite take_records_cons by (unfold is_u, exitResolveTTL; lia).
    assert (exists n, length (record DNSTypeHostname v exitResolveTTL) = S n) as [n ->] by (eexists; reflexivity).
    change (take_record nothing DNSTypeHostname v exitResolveTTL) with (Ok (E := error) g). reflexivity. }
  unfold resolved_result, parseResolvedCell. rewrite Hrec. unfold record, g. cbn [app].
  destruct (string_eqb name []) eqn:E; [reflexivity|]. unfold summarize. cbn [v4 v6 host app hostTTL]. rewrite E. cbn [negb Addresses Hostname].
  by rewrite E.
Qed.

Lemma IPString_long ip : valid_ip ip -> IPString (long ip) = IPString ip.
Proof.
  intros Hv. destruct (To16_valid ip Hv) as (ip16 & H16 & [Hl16 _] & H4 & _). unfold long. rewrite H16. cbn [default from_option id].
  destruct Hv as [Hl _]. unfold IPString. rewrite H4. destruct (To4 ip) eqn:E4.
  - destruct Hl as [-> | ->], Hl16 as [-> | ->]; done.
  - destruct Hl as [Hl|Hl]; [by rewrite To4_idem in E4|]. rewrite To16_idem in H16 by done. by injection H16 as <-.
Qed.

Lemma reverse_name ip : valid_ip ip -> exists name, PTRHostname (Some ip) = Ok name /\ parseARPAName name = Some (long ip) /\
  Forall lower_ascii name /\ len name <= exitMaxDNSName.
Proof.
  intros [Hl Hb]. unfold PTRHostname, long. destruct (To4 ip) as [w|] eqn:H4.
  - destruct (To4_inv ip w H4) as [Hw Hip].
    assert (Forall is_byte w) as Hwb by (destruct Hip as [<-|He]; [done|]; rewrite He in Hb; by apply Forall_app in Hb as [_ Hb]).
    assert (To16 ip = Some (v4InV6Prefix ++ w)) as ->
      by (destruct Hip as [->| ->]; [unfold To16; by rewrite Hw | apply To16_idem; by rewrite length_app, Hw]).
    destruct w as [|a [|b [|c [|d [|? ?]]]]]; try done. destruct (reverse_name_v4 a b c d Hwb) as (_ & H1 & H2 & H3).
    eexists. split; [reflexivity|]. done.
  - assert (length ip = 16%nat) as H16 by (destruct Hl as [Hl|Hl]; [by rewrite To4_idem in H4|done]). rewrite To16_idem by done.
    destruct (reverse_name_v6 ip H16 Hb) as (_ & H1 & H2 & H3). eexists. split; [reflexivity|]. done.
Qed.

(** C25: A reverse lookup of any IPv4 or IPv6 address: the name the client makes of it is
    read back by the exit as that address, the resolver is asked for it, and the
    client is told the first name the resolver has, without its trailing dots, cut
    at 255 bytes and without trailing NUL bytes; an address that is private,
    local or reserved is not looked up. *)
Theorem reverse_lookup_exact p r ip : valid_ip ip -> ExitStreams.AllowExit p = true ->
  exists name, PTRHostname (Some ip) = Ok name /\
    resolved_result (resolve_body (Some p) r (buildResolvePayload name)) =
      Some (if dangerousExitIP (Some ip) then told []
            else match lookupPTR r (IPString ip) with Some (host :: _) => told_host host | _ => told [] end).
Proof.
  intros Hv Ha. destruct (reverse_name ip Hv) as (name & Hn & Hp & Hl & Hlen). exists name. split; [done|].
  destruct (parsed_reverse_name name _ Hp) as [Hi Ho]. unfold resolve_body. rewrite Ha.
  assert (name <> []) as Hne by (intros ->; by vm_compute in Hp).
  rewrite parse_payload, string_eqb_false, (proj2 (Z.ltb_ge _ _)), Ho, Hi, Hp; [|done|done| |].
  - cbn [negb orb]. rewrite IPString_long by done. destruct (To16_valid ip Hv) as (ip16 & H16 & _ & _ & Hd). unfold long. rewrite H16.
    cbn [default from_option id]. rewrite Hd. destruct (dangerousExitIP (Some ip)); [apply failure_told|].
    destruct (lookupPTR r (IPString ip)) as [[|h hs]|]; [apply failure_told|apply host_told|apply failure_told].
  - apply ExitRules.TrimSpace_word. eapply Forall_impl; [exact Hl|]. unfold lower_ascii. cbn. lia.
  - intros Hin. eapply Forall_forall in Hin; [|exact Hl]. destruct Hin as [Hin _]. lia.
Qed.

Lemma reverse_lookup_exact_witness :
  let r := mkResolver (fun _ => None) (fun a => if string_eqb a (lit "93.184.216.34") then Some [lit "example.com."] else None) in
  PTRHostname (Some [93; 184; 216; 34]) = Ok (lit "34.216.184.93.in-addr.arpa") /\
  resolved_result (resolve_body (Some any_policy) r (buildResolvePayload (lit "34.216.184.93.in-addr.arpa"))) =
    Some (Some (mkDNSResult DNSTypeHostname 60 [] (lit "example.com") 0 []), None).
Proof.
  intros r. destruct (reverse_lookup_exact any_policy r [93; 184; 216; 34]) as (name & Hn & Hr).
  - apply valid_v4. by left.
  - reflexivity.
  - assert (name = lit "34.216.184.93.in-addr.arpa") as -> by (vm_compute in Hn; injection Hn as <-; vm_compute; reflexivity).
    split; [exact Hn|]. rewrite Hr. vm_compute. reflexivity.
Defined.

(** An answer that does not fit a cell is not sent, cut short or not: the client
    gets nothing.  Fifty IPv4 addresses are enough. *)
Section Exit.
Context `{Primitives}.
Context (sends : Z -> Cell -> bool) (took : Z -> Cell -> Z).

Theorem many_addresses_unanswered p r w clientConn streamID hostname name ips now :
  streamID <> 0 -> normalizeResolveName hostname = Ok name -> len name <= exitMaxDNSName -> ExitStreams.isOnionHost name = false ->
  isPTRName name = false -> ExitStreams.AllowExit p = true -> lookupIP r name = Some ips ->
  Forall (fun ip => length ip = 4%nat /\ passed_on (ExitStreams.ipv6OK p) ip = true) ips -> (50 <= length ips)%nat ->
  exists e, HandleResolve sends took (Some p) r w clientConn streamID (buildResolvePayload name) now = (w, [], Some e).
Proof.
  intros Hs Hn Hlen Ho Hp Ha Hl Hips H50. destruct (normalized hostname name Hn) as (Ht & Hne & Hz).
  assert (List.filter (passed_on (ExitStreams.ipv6OK p)) ips = ips) as Hf.
  { clear Hl H50. induction Hips as [|ip l [_ Hip] Hips IH]; [done|]. cbn [List.filter]. by rewrite Hip, IH. }
  assert (length (flat_map (address_record exitResolveTTL) ips) = 10 * length ips)%nat as Hb.
  { clear Hl H50 Hf. induction Hips as [|ip l [Hip _] Hips IH]; [done|]. cbn [flat_map length]. rewrite length_app, IH.
    unfold address_record. rewrite To4_idem by done. rewrite !length_app, Hip, length_PutUint32. cbn. lia. }
  unfold HandleResolve. rewrite (proj2 (Z.eqb_neq _ _)) by done. unfold resolve_body.
  rewrite Ha, parse_payload, string_eqb_false, (proj2 (Z.ltb_ge _ _)), Ho, Hp, Hl by done. cbn [negb orb].
  destruct ips as [|i ips]; [cbn in H50; lia|]. rewrite Hf. unfold encodeResolvedAddresses.
  destruct (flat_map (address_record exitResolveTTL) (i :: ips)) as [|x xs]; [cbn in Hb, H50; lia|].
  destruct w as [m circ]. unfold ExitStreams.sendRelay, ExitStreams.sendRelay_originate, RelayCell.NewRelayCell.
  rewrite (proj2 (Z.ltb_lt _ _)) by (unfold len; rewrite Hb; change RelayCell.maxDataLen with 498; lia). by eexists.
Qed.

End Exit.

End Resolve.
