(* ===== verification/Relays.v ===== *)
(** * Relays of the consensus, as path selection sees them (pkg/directory/directory.go, family.go)

    The fields of a relay entry that selection depends on, its flags, families and
    subnet.  A relay is a shared object: [obj] tells two of them apart.  Case
    folding is that of ASCII. *)

From Stdlib Require Import String.
From S2P Require Import Prelude GoStrings GoNet ExitRules.
Import GoStrings GoNet.

Module Relays.

Record Relay := mkRelay {
  obj : nat;
  Nickname : bytes;
  Fingerprint : bytes;
  Address : bytes;
  Flags : list bytes;
  RSAIdentity : bytes;
  FingerprintHex : bytes;
  IdentityKey : bytes;
  Family : list bytes;
  FamilyIDs : list bytes;
  Bandwidth : Z;
  ExitPolicy : option ExitRules.ExitPolicySummary;
  ExitPolicyIPv6 : option ExitRules.ExitPolicySummary;
  Rules : option ExitRules.ExitPolicy;
}.


(** ** Flags *)

Definition HasFlag (r : Relay) (flag : bytes) : bool := existsb (fun f => string_eqb f flag) (Flags r).

Definition IsGuard (r : Relay) : bool := HasFlag r (lit "Guard").
Definition IsExit (r : Relay) : bool := HasFlag r (lit "Exit").
Definition IsStable (r : Relay) : bool := HasFlag r (lit "Stable").
Definition IsRunning (r : Relay) : bool := HasFlag r (lit "Running").
Definition IsValid (r : Relay) : bool := HasFlag r (lit "Valid").
Definition IsFast (r : Relay) : bool := HasFlag r (lit "Fast").
Definition IsMiddleOnly (r : Relay) : bool := HasFlag r (lit "MiddleOnly").
Definition IsBadExit (r : Relay) : bool := HasFlag r (lit "BadExit").

Definition UsableAsCircuitHop (r : Relay) : bool := IsRunning r && IsValid r && IsFast r.
Definition UsableAsGuard (r : Relay) : bool := UsableAsCircuitHop r && IsGuard r && IsStable r && negb (IsMiddleOnly r).
Definition UsableAsExit (r : Relay) : bool := UsableAsCircuitHop r && negb (IsMiddleOnly r) && negb (IsBadExit r).

(** ** Exit policy *)

Definition policy_view (r : Relay) : ExitRules.Relay := ExitRules.mkRelay (Rules r) (ExitPolicy r) (ExitPolicyIPv6 r) (IsExit r).

Definition AllowsExitTarget (r : Relay) (port : Z) (ip : option bytes) : bool :=
  ExitRules.AllowsExitTarget (Some (policy_view r)) port ip.

(** ** Subnets *)

Definition getSubnet16 (address : bytes) : bytes :=
  match Split address 46 with
  | a :: b :: _ => a ++ [46] ++ b
  | _ => address
  end.

Definition InSameSubnet (r other : Relay) : bool := string_eqb (getSubnet16 (Address r)) (getSubnet16 (Address other)).

(** ** Families *)

Definition fingerprintHex (id : bytes) : bytes := ToUpper (hex_encode id).

Definition GetFingerprintHex (r : Relay) : bytes :=
  if negb (string_eqb (FingerprintHex r) []) then FingerprintHex r
  else if (length (RSAIdentity r) =? 20)%nat then fingerprintHex (RSAIdentity r)
  else Fingerprint r.

(** The consensus parameters use-family-ids and use-family-lists; [None]: not there. *)
Definition FamilyPolicyFromParams (ids lists : option Z) : bool * bool :=
  (match ids with None => true | Some v => negb (v =? 0) end, match lists with None => true | Some v => negb (v =? 0) end).

Definition sameRelayIdentity (a b : Relay) : bool :=
  if (obj a =? obj b)%nat then true
  else if negb (string_eqb (GetFingerprintHex a) []) && string_eqb (GetFingerprintHex a) (GetFingerprintHex b) then true
  else if negb (string_eqb (Fingerprint a) []) && string_eqb (Fingerprint a) (Fingerprint b) then true
  else if (length (RSAIdentity a) =? 20)%nat && (length (RSAIdentity b) =? 20)%nat && string_eqb (RSAIdentity a) (RSAIdentity b) then true
  else (length (IdentityKey a) =? 32)%nat && (length (IdentityKey b) =? 32)%nat && string_eqb (IdentityKey a) (IdentityKey b).

Definition shareFamilyID (a b : list bytes) : bool :=
  match a, b with
  | [], _ | _, [] => false
  | _, _ =>
      let seen := List.filter (fun id => negb (string_eqb id [])) (map TrimSpace a) in
      match seen with
      | [] => false
      | _ => existsb (fun id => negb (string_eqb id []) && existsb (string_eqb id) seen) (map TrimSpace b)
      end
  end.

(** [strings.IndexAny(m, "=~")] *)
Fixpoint until_name (m : bytes) : bytes :=
  match m with
  | [] => []
  | c :: m => if (c =? 61) || (c =? 126) then [] else c :: until_name m
  end.

Definition familyListToken (m : bytes) : bytes :=
  let m := TrimSpace m in
  let m := if HasPrefix m [36] then drop 1 m else m in
  ToUpper (until_name m).

Definition familyListContains (list : list bytes) (other : Relay) : bool :=
  let hex := ToUpper (TrimPrefix (GetFingerprintHex other) [36]) in
  let fp := Fingerprint other in
  let fpUpper := ToUpper (TrimPrefix fp [36]) in
  let nick := ToLower (Nickname other) in
  let there s := negb (string_eqb s []) in
  existsb (fun raw =>
    let m := TrimSpace raw in
    if string_eqb m [] then false
    else if there fp && string_eqb m fp then true
    else if there (FingerprintHex other) && string_eqb m (FingerprintHex other) then true
    else if there nick && string_eqb (ToLower m) nick then true
    else
      let token := familyListToken m in
      if string_eqb token [] then false
      else there hex && string_eqb token hex || there fpUpper && string_eqb token fpUpper) list.

Definition familyListsBidirectional (a b : Relay) : bool := familyListContains (Family a) b && familyListContains (Family b) a.

Definition InSameFamilyPolicy (r other : Relay) (useIDs useLists : bool) : bool :=
  if sameRelayIdentity r other then true
  else if useIDs && shareFamilyID (FamilyIDs r) (FamilyIDs other) then true
  else useLists && familyListsBidirectional r other.

Definition InSameFamily (r other : Relay) : bool := InSameFamilyPolicy r other true true.

(** ** Both relations are symmetric *)

Lemma string_eqb_sym a b : string_eqb a b = string_eqb b a.
Proof. apply bool_decide_ext. split; congruence. Qed.

(** A non-empty string equal to another: from either side. *)
Lemma nonempty_eqb_sym a b : negb (string_eqb a []) && string_eqb a b = negb (string_eqb b []) && string_eqb b a.
Proof.
  rewrite (string_eqb_sym b a). destruct (string_eqb a b) eqn:E; [|by rewrite !andb_false_r].
  apply string_eqb_spec in E as ->. done.
Qed.

Lemma sameRelayIdentity_sym a b : sameRelayIdentity a b = sameRelayIdentity b a.
Proof.
  unfold sameRelayIdentity. rewrite (Nat.eqb_sym (obj a)), (nonempty_eqb_sym (GetFingerprintHex a)), (nonempty_eqb_sym (Fingerprint a)).
  rewrite (string_eqb_sym (RSAIdentity a)), (string_eqb_sym (IdentityKey a)).
  rewrite (andb_comm (length (RSAIdentity a) =? 20)%nat), (andb_comm (length (IdentityKey a) =? 32)%nat). done.
Qed.

(** Two lists of ids share one. *)
Lemma shareFamilyID_spec a b : shareFamilyID a b = true <-> exists x y, x ∈ a /\ y ∈ b /\ TrimSpace x = TrimSpace y /\ TrimSpace x <> [].
Proof.
  assert (forall l id, existsb (string_eqb id) (List.filter (fun id => negb (string_eqb id [])) (map TrimSpace l)) = true <->
    exists x, x ∈ l /\ TrimSpace x = id /\ id <> []) as Hin.
  { intros l id. rewrite existsb_exists. split.
    - intros (z & [Hz Hne]%filter_In & <-%string_eqb_spec). apply in_map_iff in Hz as (x & Hx & Hxl). exists x.
      split_and!; [by apply list_elem_of_In | done|]. intros ->. done.
    - intros (x & Hx & <- & Hne). exists (TrimSpace x). split; [|apply string_eqb_refl]. apply filter_In. split.
      + apply in_map, list_elem_of_In, Hx.
      + by rewrite string_eqb_false. }
  unfold shareFamilyID. destruct a as [|x0 a0]; [split; [done|]; intros (x & y & Hx & _); by apply elem_of_nil in Hx|].
  destruct b as [|y0 b0]; [split; [done|]; intros (x & y & _ & Hy & _); by apply elem_of_nil in Hy|].
  set (a := x0 :: a0) in *. set (b := y0 :: b0) in *.
  set (seen := List.filter (fun id => negb (string_eqb id [])) (map TrimSpace a)).
  assert ((match seen with [] => false | _ => existsb (fun id => negb (string_eqb id []) && existsb (string_eqb id) seen) (map TrimSpace b) end) =
    existsb (fun id => negb (string_eqb id []) && existsb (string_eqb id) seen) (map TrimSpace b)) as ->.
  { destruct seen; [|done]. symmetry. induction (map TrimSpace b) as [|z l IH]; [done|]. cbn. by rewrite andb_false_r. }
  rewrite existsb_exists. split.
  - intros (id & Hid & [Hne He]%andb_true_iff). apply in_map_iff in Hid as (y & <- & Hy). apply Hin in He as (x & Hx & Hxy & Hne').
    exists x, y. rewrite Hxy. split_and!; [done | by apply list_elem_of_In | done | done].
  - intros (x & y & Hx & Hy & Hxy & Hne). exists (TrimSpace y). split; [apply in_map, list_elem_of_In, Hy|].
    rewrite string_eqb_false by congruence. apply Hin. exists x. split_and!; [done|done|congruence].
Qed.

Lemma shareFamilyID_sym a b : shareFamilyID a b = shareFamilyID b a.
Proof.
  apply eq_true_iff_eq. rewrite !shareFamilyID_spec. split; intros (x & y & Hx & Hy & Hxy & Hne); exists y, x; (split_and!; [done|done|done|congruence]).
Qed.

Lemma InSameFamilyPolicy_sym a b useIDs useLists : InSameFamilyPolicy a b useIDs useLists = InSameFamilyPolicy b a useIDs useLists.
Proof.
  unfold InSameFamilyPolicy, familyListsBidirectional. rewrite (sameRelayIdentity_sym a b), (shareFamilyID_sym (FamilyIDs a)).
  by rewrite (andb_comm (familyListContains (Family a) b)).
Qed.

Lemma InSameSubnet_sym a b : InSameSubnet a b = InSameSubnet b a.
Proof. apply string_eqb_sym. Qed.

End Relays.
