(* ===== verification/Guards.v ===== *)
(** * Guards and path bias (pkg/path/guards.go, pkg/path/bias.go)

    The guard manager's list of guards, its exchange with the state file of the data
    directory, and the statistics that mark a guard as biased.  The clock is an
    argument (nanoseconds); writing and locking files is left out, the records of
    the state file are data. *)

From Stdlib Require Import String SpecFloat.
From S2P Require Import Prelude GoStrings Breaker ExitRules Relays.
Import GoStrings.

Module Guards.

(** ** The list of guards *)

Record GuardEntry := mkEntry {
  Fingerprint : bytes;
  Nickname : bytes;
  Address : bytes;
  FirstUsed : Z;
  LastUsed : Z;
  Confirmed : bool;
}.

Record GuardState := mkState { Guards : list GuardEntry; LastUpdated : Z }.

Record GuardManager := mkManager {
  state : GuardState;
  maxGuards : Z;
  guardExpiry : Z;
}.

Inductive error := errNotFound (fingerprint : bytes).

Definition set_guards (gm : GuardManager) (gs : list GuardEntry) : GuardManager :=
  mkManager (mkState gs (LastUpdated (state gm))) (maxGuards gm) (guardExpiry gm).

Definition Day : Z := 24 * 3600 * 1000000000.
Definition fresh (gm : GuardManager) (now : Z) (g : GuardEntry) : bool := now - LastUsed g <? guardExpiry gm.

Definition GetGuards (now : Z) (gm : GuardManager) : list GuardEntry := List.filter (fresh gm now) (Guards (state gm)).

(** The first entry with the fingerprint is marked as used and confirmed; [None]:
    there is none. *)
Fixpoint touch (now : Z) (fp : bytes) (gs : list GuardEntry) : option (list GuardEntry) :=
  match gs with
  | [] => None
  | g :: gs =>
      if string_eqb (Fingerprint g) fp
      then Some (mkEntry (Fingerprint g) (Nickname g) (Address g) (FirstUsed g) now true :: gs)
      else cons g <$> touch now fp gs
  end.

(** Without the first entry that is not confirmed; [None]: all are. *)
Fixpoint evict (gs : list GuardEntry) : option (list GuardEntry) :=
  match gs with
  | [] => None
  | g :: gs => if negb (Confirmed g) then Some gs else cons g <$> evict gs
  end.

Definition AddGuard (now : Z) (relay : Relays.Relay) (gm : GuardManager) : GuardManager :=
  match touch now (Relays.Fingerprint relay) (Guards (state gm)) with
  | Some gs => set_guards gm gs
  | None =>
      let entry := mkEntry (Relays.Fingerprint relay) (Relays.Nickname relay) (Relays.Address relay) now now false in
      if maxGuards gm <=? len (Guards (state gm)) then
        match evict (Guards (state gm)) with
        | None => gm
        | Some gs => set_guards gm (gs ++ [entry])
        end
      else set_guards gm (Guards (state gm) ++ [entry])
  end.

Definition ConfirmGuard (now : Z) (fp : bytes) (gm : GuardManager) : GuardManager * option error :=
  match touch now fp (Guards (state gm)) with
  | Some gs => (set_guards gm gs, None)
  | None => (gm, Some (errNotFound fp))
  end.

(** Without the first entry with the fingerprint. *)
Fixpoint remove (fp : bytes) (gs : list GuardEntry) : option (list GuardEntry) :=
  match gs with
  | [] => None
  | g :: gs => if string_eqb (Fingerprint g) fp then Some gs else cons g <$> remove fp gs
  end.

Definition RemoveGuard (fp : bytes) (gm : GuardManager) : GuardManager * option error :=
  match remove fp (Guards (state gm)) with
  | Some gs => (set_guards gm gs, None)
  | None => (gm, Some (errNotFound fp))
  end.

Definition CleanupExpired (now : Z) (gm : GuardManager) : GuardManager := set_guards gm (GetGuards now gm).

Record GuardStats := mkGuardStats { TotalGuards : Z; ConfirmedGuards : Z; StatsUpdated : Z }.
Definition GetStats (gm : GuardManager) : GuardStats :=
  mkGuardStats (len (Guards (state gm))) (len (List.filter Confirmed (Guards (state gm)))) (LastUpdated (state gm)).

(** *** The state file *)

(** A Guard line; of its fields, the two that are looked at. *)
Record GuardRecord := mkRecord { RSAID : bytes; RNickname : bytes; confirmed_on : bytes; confirmed_idx : bytes }.

Definition ValidRSAFingerprint (id : bytes) : bool :=
  let id := List.filter (fun c => negb (c =? 32)) id in
  (length id =? 40)%nat && forallb is_hex id.

(** The records written; [format] prints a time. *)
Definition saveTorState (format : Z -> bytes) (gm : GuardManager) : list GuardRecord :=
  map (fun g => mkRecord (GoStrings.ToUpper (Fingerprint g)) (Nickname g)
                  (if Confirmed g then format (LastUsed g) else []) (if Confirmed g then lit "0" else [])) (Guards (state gm)).

(** The records read back; [None]: nothing was loaded. *)
Definition loadTorState (now : Z) (records : list GuardRecord) (gm : GuardManager) : option GuardManager :=
  let guards := map (fun r => mkEntry (RSAID r) (RNickname r) [] now now
                        (negb (string_eqb (confirmed_on r) []) || negb (string_eqb (confirmed_idx r) [])))
                  (List.filter (fun r => ValidRSAFingerprint (RSAID r)) records) in
  match guards with
  | [] => None
  | _ => Some (mkManager (mkState guards now) (maxGuards gm) (guardExpiry gm))
  end.

(** *** Construction *)

Record GuardManagerConfig := mkConfig { MaxGuards : Z; GuardExpiry : Z; BackupCount : Z; SnapshotInterval : Z }.

Definition DefaultGuardManagerConfig : GuardManagerConfig := mkConfig 3 (90 * Day) 3 (5 * 60 * 1000000000).

(** What the files hold: the Guard lines of the state file (none when it cannot be
    read), and the guards of guard_state.json with its time ([None]: it cannot be
    read).  With backups or snapshots the latter comes from [Persistence.Load] and
    the time is set anew.  Whatever list is found is taken as it is. *)
Definition load (now : Z) (enhanced : bool) (records : list GuardRecord) (stored : option GuardState) (gm : GuardManager) : GuardManager :=
  match loadTorState now records gm with
  | Some gm => gm
  | None =>
      match stored with
      | None => gm
      | Some st => mkManager (if enhanced then mkState (Guards st) now else st) (maxGuards gm) (guardExpiry gm)
      end
  end.

Definition NewGuardManagerWithConfig (now : Z) (cfg : GuardManagerConfig) (records : list GuardRecord) (stored : option GuardState) : GuardManager :=
  load now ((0 <? BackupCount cfg) || (0 <? SnapshotInterval cfg)) records stored (mkManager (mkState [] 0) (MaxGuards cfg) (GuardExpiry cfg)).

Definition NewGuardManager (now : Z) (records : list GuardRecord) (stored : option GuardState) : GuardManager :=
  let cfg := DefaultGuardManagerConfig in
  NewGuardManagerWithConfig now (mkConfig (MaxGuards cfg) (GuardExpiry cfg) 0 0) records stored.

(** ** Path bias *)

Record BiasThresholds := mkThresholds {
  UseSuccessMin : Z;
  UseSuccessRate : Breaker.float64;
  BuildTimeoutCount : Z;
  SuccessCount : Z;
}.

(** 0.7 is the quotient of 7 and 10, both correctly rounded. *)
Definition DefaultThresholds : BiasThresholds :=
  mkThresholds 20 (Breaker.fdiv (Breaker.of_int 7) (Breaker.of_int 10)) 3 20.

Inductive CircuitOutcome := OutcomeBuildSuccess | OutcomeBuildTimeout | OutcomeBuildFailed | OutcomeUseSuccess | OutcomeUseFailed.

Record CircuitRecord := mkCircuitRecord { Timestamp : Z; Outcome : CircuitOutcome; RecordFingerprint : bytes; CircuitID : Z }.

Record BiasGuardStats := mkBiasStats {
  BFingerprint : bytes;
  TotalBuilds : Z;
  BuildSuccesses : Z;
  BuildTimeouts : Z;
  BuildFailures : Z;
  TotalUses : Z;
  UseSuccesses : Z;
  UseFailures : Z;
  ConsecutiveTimeouts : Z;
  LastSeen : Z;
}.

Inductive AlertType := CONSECUTIVE_TIMEOUTS | LOW_USE_SUCCESS | LOW_BUILD_SUCCESS.
Record BiasAlert := mkAlert { AlertTime : Z; AType : AlertType; AFingerprint : bytes; Stats : BiasGuardStats }.

Record BiasDetector := mkDetector {
  thresholds : BiasThresholds;
  records : list CircuitRecord;
  guardStats : gmap bytes BiasGuardStats;
  alerts : list BiasAlert;
}.

Definition maxAlerts : Z := 100.
Definition NewBiasDetector (t : BiasThresholds) : BiasDetector := mkDetector t [] ∅ [].

(** The last [n] at most, with one more. *)
Definition ring {A} (n : Z) (l : list A) (x : A) : list A := (if n <=? len l then drop 1 l else l) ++ [x].

Definition getOrCreateGuardStats (now : Z) (fp : bytes) (bd : BiasDetector) : BiasGuardStats :=
  let s := default (mkBiasStats fp 0 0 0 0 0 0 0 0 now) (guardStats bd !! fp) in
  mkBiasStats (BFingerprint s) (TotalBuilds s) (BuildSuccesses s) (BuildTimeouts s) (BuildFailures s) (TotalUses s)
    (UseSuccesses s) (UseFailures s) (ConsecutiveTimeouts s) now.

Definition updateGuardStats (s : BiasGuardStats) (o : CircuitOutcome) : BiasGuardStats :=
  let b ok timeout failed consecutive :=
    mkBiasStats (BFingerprint s) (TotalBuilds s + 1) (BuildSuccesses s + ok) (BuildTimeouts s + timeout) (BuildFailures s + failed)
      (TotalUses s) (UseSuccesses s) (UseFailures s) consecutive (LastSeen s) in
  let u ok failed :=
    mkBiasStats (BFingerprint s) (TotalBuilds s) (BuildSuccesses s) (BuildTimeouts s) (BuildFailures s)
      (TotalUses s + 1) (UseSuccesses s + ok) (UseFailures s + failed) (ConsecutiveTimeouts s) (LastSeen s) in
  match o with
  | OutcomeBuildSuccess => b 1 0 0 0
  | OutcomeBuildTimeout => b 0 1 0 (ConsecutiveTimeouts s + 1)
  | OutcomeBuildFailed => b 0 0 1 0
  | OutcomeUseSuccess => u 1 0
  | OutcomeUseFailed => u 0 1
  end.

(** [float64(a) / float64(b) < rate] *)
Definition below (a b : Z) (rate : Breaker.float64) : bool := SFltb (Breaker.fdiv (Breaker.of_int a) (Breaker.of_int b)) rate.

(** The three tests. *)
Definition too_many_timeouts (t : BiasThresholds) (s : BiasGuardStats) : bool := BuildTimeoutCount t <=? ConsecutiveTimeouts s.
Definition low_use (t : BiasThresholds) (s : BiasGuardStats) : bool :=
  (UseSuccessMin t <=? TotalUses s) && below (UseSuccesses s) (TotalUses s) (UseSuccessRate t).
Definition low_build (t : BiasThresholds) (s : BiasGuardStats) : bool :=
  (UseSuccessMin t <=? TotalBuilds s) && below (BuildSuccesses s) (TotalBuilds s) (UseSuccessRate t).

Definition checkBias (now : Z) (s : BiasGuardStats) (t : BiasThresholds) : list BiasAlert :=
  let alert ty := mkAlert now ty (BFingerprint s) s in
  (if too_many_timeouts t s then [alert CONSECUTIVE_TIMEOUTS] else []) ++
  (if low_use t s then [alert LOW_USE_SUCCESS] else []) ++
  (if low_build t s then [alert LOW_BUILD_SUCCESS] else []).

Definition RecordOutcome (now circuitID : Z) (fp : bytes) (o : CircuitOutcome) (bd : BiasDetector) : BiasDetector * list BiasAlert :=
  let recs := ring (SuccessCount (thresholds bd)) (records bd) (mkCircuitRecord now o fp circuitID) in
  let stats := updateGuardStats (getOrCreateGuardStats now fp bd) o in
  let new := checkBias now stats (thresholds bd) in
  (mkDetector (thresholds bd) recs (<[fp := stats]> (guardStats bd)) (foldl (ring maxAlerts) (alerts bd) new), new).

Definition GetGuardStats (fp : bytes) (bd : BiasDetector) : option BiasGuardStats := guardStats bd !! fp.

Definition GetAlerts (limit : Z) (bd : BiasDetector) : list BiasAlert :=
  let limit := if (limit <=? 0) || (len (alerts bd) <? limit) then len (alerts bd) else limit in
  drop (Z.to_nat (len (alerts bd) - limit)) (alerts bd).

Definition ClearGuard (fp : bytes) (bd : BiasDetector) : BiasDetector :=
  mkDetector (thresholds bd) (records bd) (delete fp (guardStats bd)) (alerts bd).

Definition Reset (bd : BiasDetector) : BiasDetector := mkDetector (thresholds bd) [] ∅ [].

Definition IsBiased (fp : bytes) (bd : BiasDetector) : bool :=
  match guardStats bd !! fp with
  | None => false
  | Some s => too_many_timeouts (thresholds bd) s || low_use (thresholds bd) s || low_build (thresholds bd) s
  end.

(** ** Lemmas *)

Definition fps (gm : GuardManager) : list bytes := map Fingerprint (Guards (state gm)).

Lemma touch_fps now fp gs gs' : touch now fp gs = Some gs' -> map Fingerprint gs' = map Fingerprint gs /\ fp ∈ map Fingerprint gs.
Proof.
  revert gs'. induction gs as [|g gs IH]; intros gs'; [done|]. cbn [touch]. destruct (string_eqb (Fingerprint g) fp) eqn:E.
  - intros [= <-]. apply string_eqb_spec in E. cbn. rewrite E. split; [done | left].
  - destruct (touch now fp gs) as [gs1|]; [|done]. intros [= <-]. destruct (IH gs1 eq_refl) as [H1 H2]. cbn. rewrite H1. split; [done | by right].
Qed.

Lemma touch_none now fp gs : touch now fp gs = None -> fp ∉ map Fingerprint gs.
Proof.
  induction gs as [|g gs IH]; [intros _; apply not_elem_of_nil|]. cbn [touch map]. destruct (string_eqb (Fingerprint g) fp) eqn:E; [done|].
  destruct (touch now fp gs); [done|]. intros _. apply not_elem_of_cons. split; [|by apply IH].
  intros ->. by rewrite string_eqb_refl in E.
Qed.

(** A touched list keeps its confirmed guards. *)
Lemma touch_confirmed now fp gs gs' g : touch now fp gs = Some gs' -> g ∈ gs -> Confirmed g = true ->
  exists g', g' ∈ gs' /\ Fingerprint g' = Fingerprint g /\ Confirmed g' = true.
Proof.
  revert gs'. induction gs as [|h gs IH]; intros gs' Ht Hg Hc; [done|]. cbn [touch] in Ht. destruct (string_eqb (Fingerprint h) fp) eqn:E.
  - injection Ht as <-. apply elem_of_cons in Hg as [->|Hg]; [eexists; split; [left|done] | exists g; split; [by right | done]].
  - destruct (touch now fp gs) as [gs1|]; [|done]. injection Ht as <-. apply elem_of_cons in Hg as [->|Hg]; [exists h; split; [left|done]|].
    destruct (IH gs1 eq_refl Hg Hc) as (g' & Hg' & H1 & H2). exists g'. split; [by right | done].
Qed.

Lemma evict_split gs gs' : evict gs = Some gs' -> exists a g b, gs = a ++ g :: b /\ gs' = a ++ b /\ Confirmed g = false.
Proof.
  revert gs'. induction gs as [|g gs IH]; intros gs'; [done|]. cbn [evict]. destruct (Confirmed g) eqn:E; cbn [negb].
  - destruct (evict gs) as [gs1|]; [|done]. intros [= <-]. destruct (IH gs1 eq_refl) as (a & x & b & -> & -> & Hx). by exists (g :: a), x, b.
  - intros [= <-]. by exists [], g, gs.
Qed.

Lemma remove_split fp gs gs' : remove fp gs = Some gs' -> exists a g b, gs = a ++ g :: b /\ gs' = a ++ b /\ Fingerprint g = fp.
Proof.
  revert gs'. induction gs as [|g gs IH]; intros gs'; [done|]. cbn [remove]. destruct (string_eqb (Fingerprint g) fp) eqn:E.
  - intros [= <-]. apply string_eqb_spec in E. by exists [], g, gs.
  - destruct (remove fp gs) as [gs1|]; [|done]. intros [= <-]. destruct (IH gs1 eq_refl) as (a & x & b & -> & -> & Hx). by exists (g :: a), x, b.
Qed.

(** An alert is raised exactly when the guard counts as biased from then on. *)
Lemma alert_iff_biased now id fp o bd :
  let '(bd', new) := RecordOutcome now id fp o bd in IsBiased fp bd' = negb (bool_decide (new = [])).
Proof.
  unfold RecordOutcome, IsBiased. cbn [guardStats thresholds]. rewrite lookup_insert_eq. unfold checkBias.
  destruct (too_many_timeouts _ _), (low_use _ _), (low_build _ _); done.
Qed.

(** ** The guards kept *)

Inductive op :=
| OAdd (now : Z) (relay : Relays.Relay)
| OConfirm (now : Z) (fp : bytes)
| ORemove (fp : bytes)
| OCleanup (now : Z).

Definition run1 (gm : GuardManager) (x : op) : GuardManager :=
  match x with
  | OAdd now relay => AddGuard now relay gm
  | OConfirm now fp => (ConfirmGuard now fp gm).1
  | ORemove fp => (RemoveGuard fp gm).1
  | OCleanup now => CleanupExpired now gm
  end.

(** How often a fingerprint is listed. *)
Definition occ (fp : bytes) (l : list bytes) : Z := len (List.filter (fun f => string_eqb f fp) l).

Lemma occ_app fp a b : occ fp (a ++ b) = occ fp a + occ fp b.
Proof. unfold occ. by rewrite List.filter_app, len_app. Qed.

Lemma occ_nonneg fp l : 0 <= occ fp l.
Proof. apply len_nonneg. Qed.

Lemma occ_cons fp f l : occ fp (f :: l) = occ fp [f] + occ fp l.
Proof. exact (occ_app fp [f] l). Qed.

Lemma occ_one fp f : occ fp [f] = if string_eqb f fp then 1 else 0.
Proof. unfold occ. cbn. by destruct (string_eqb f fp). Qed.

Lemma occ_absent fp l : fp ∉ l -> occ fp l = 0.
Proof.
  induction l as [|f l IH]; intros Hn; [done|]. apply not_elem_of_cons in Hn as [Hf Hn]. rewrite occ_cons, occ_one, IH by done.
  destruct (string_eqb f fp) eqn:E; [|done]. apply string_eqb_spec in E. congruence.
Qed.

Lemma occ_filter fp (p : GuardEntry -> bool) gs : occ fp (map Fingerprint (List.filter p gs)) <= occ fp (map Fingerprint gs).
Proof.
  induction gs as [|g gs IH]; [done|]. cbn [List.filter map]. rewrite (occ_cons _ (Fingerprint g) (map Fingerprint gs)).
  pose proof (occ_nonneg fp [Fingerprint g]). destruct (p g); [|lia]. cbn [map]. rewrite occ_cons. lia.
Qed.

(** The list grows up to the limit only, and a fingerprint is added only when it is
    not listed. *)
Definition bounded (gm gm' : GuardManager) : Prop :=
  len (Guards (state gm')) <= Z.max (maxGuards gm) (len (Guards (state gm))) /\
  (forall fp, occ fp (fps gm') <= Z.max 1 (occ fp (fps gm))) /\ maxGuards gm' = maxGuards gm.

Lemma bounded_trans a b c : bounded a b -> bounded b c -> bounded a c.
Proof.
  intros (H1 & H2 & H3) (K1 & K2 & K3). split_and!; [rewrite H3 in K1; lia| |congruence].
  intros fp. specialize (H2 fp). specialize (K2 fp). lia.
Qed.

(** The same fingerprints, in the same order. *)
Lemma bounded_same gm gs : map Fingerprint gs = fps gm -> bounded gm (set_guards gm gs).
Proof.
  intros Hf. unfold bounded, fps at 1. cbn. rewrite Hf. split_and!; [|lia|done].
  assert (len gs = len (Guards (state gm))) as ->; [|lia]. unfold len. by rewrite <- (length_map Fingerprint gs), Hf; unfold fps; rewrite length_map.
Qed.

(** One of them gone. *)
Lemma bounded_less gm a g b : Guards (state gm) = a ++ g :: b -> bounded gm (set_guards gm (a ++ b)).
Proof.
  intros Hg. unfold bounded, fps. cbn. rewrite Hg, !map_app, !len_app. cbn [map]. split_and!; [unfold len; cbn; lia| |done].
  intros fp. rewrite !occ_app, (occ_cons _ (Fingerprint g)). pose proof (occ_nonneg fp [Fingerprint g]). lia.
Qed.

(** One of them more, that was not there. *)
Lemma bounded_more gm gm' e :
  bounded gm gm' -> Fingerprint e ∉ fps gm' -> len (Guards (state gm')) + 1 <= Z.max (maxGuards gm) (len (Guards (state gm))) ->
  bounded gm (set_guards gm' (Guards (state gm') ++ [e])).
Proof.
  intros (_ & H2 & H3) Hn Hl. unfold bounded, fps at 1. cbn. rewrite map_app, len_app. cbn [map]. split_and!; [done| |done].
  intros fp. rewrite occ_app, (occ_one fp (Fingerprint e)). specialize (H2 fp). fold (fps gm'). destruct (string_eqb _ fp) eqn:E; [|lia].
  apply string_eqb_spec in E. subst fp. rewrite (occ_absent _ (fps gm')) by done. lia.
Qed.

Lemma bounded_refl gm : bounded gm gm.
Proof. split_and!; [lia|intros; lia|done]. Qed.

Lemma bounded_run1 gm x : bounded gm (run1 gm x).
Proof.
  destruct x as [now relay|now fp|fp|now]; cbn [run1].
  - unfold AddGuard. destruct (touch now _ _) as [gs|] eqn:Ht; [by apply bounded_same, (touch_fps _ _ _ _ Ht)|].
    apply touch_none in Ht. set (e := mkEntry _ _ _ _ _ _). destruct (Z.leb_spec (maxGuards gm) (len (Guards (state gm)))) as [Hm|Hm].
    + destruct (evict _) as [gs|] eqn:He; [|apply bounded_refl]. apply evict_split in He as (a & g & b & Hg & -> & _).
      pose proof (bounded_less gm a g b Hg) as Hl. apply (bounded_more gm _ e Hl).
      * unfold fps. cbn. rewrite Hg in Ht. rewrite map_app in *. cbn [map] in Ht. set_solver.
      * cbn. rewrite Hg in *. rewrite !len_app in *. unfold len in *. cbn in *. lia.
    + apply (bounded_more gm gm e (bounded_refl gm)); [done | lia].
  - unfold ConfirmGuard. destruct (touch now fp _) as [gs|] eqn:Ht; [by apply bounded_same, (touch_fps _ _ _ _ Ht) | apply bounded_refl].
  - unfold RemoveGuard. destruct (remove fp _) as [gs|] eqn:Ht; [|apply bounded_refl]. apply remove_split in Ht as (a & g & b & Hg & -> & _).
    by eapply bounded_less.
  - unfold bounded, fps, CleanupExpired, GetGuards. cbn. pose proof (filter_length_le (fresh gm now) (Guards (state gm))) as Hle.
    split_and!; [unfold len in *; lia| |done]. intros fp. pose proof (occ_filter fp (fresh gm now) (Guards (state gm))). lia.
Qed.

(** Operations that may drop the guard [g]: its removal, and a clean-up when it has
    expired. *)
Definition drops (gm : GuardManager) (g : GuardEntry) (x : op) : Prop :=
  match x with
  | ORemove fp => fp = Fingerprint g
  | OCleanup now => fresh gm now g = false
  | _ => False
  end.

Lemma confirmed_run1 gm g x : g ∈ Guards (state gm) -> Confirmed g = true -> ~ drops gm g x ->
  exists g', g' ∈ Guards (state (run1 gm x)) /\ Fingerprint g' = Fingerprint g /\ Confirmed g' = true.
Proof.
  intros Hg Hc Hd. destruct x as [now relay|now fp|fp|now]; cbn [run1 drops] in *.
  - unfold AddGuard. destruct (touch now _ _) as [gs|] eqn:Ht; [by eapply touch_confirmed|].
    destruct (_ <=? _); [|exists g; cbn; split; [apply elem_of_app; by left | done]].
    destruct (evict _) as [gs|] eqn:He; [|by exists g]. apply evict_split in He as (a & h & b & Hh & -> & Hf). rewrite Hh in Hg.
    exists g. cbn. split; [|done]. rewrite !elem_of_app, elem_of_cons in *. destruct Hg as [Hg|[->|Hg]]; [tauto|congruence|tauto].
  - unfold ConfirmGuard. destruct (touch now fp _) as [gs|] eqn:Ht; [by eapply touch_confirmed | by exists g].
  - unfold RemoveGuard. destruct (remove fp _) as [gs|] eqn:Ht; [|by exists g]. apply remove_split in Ht as (a & h & b & Hh & -> & Hf).
    rewrite Hh in Hg. exists g. cbn. split; [|done]. rewrite !elem_of_app, elem_of_cons in *. destruct Hg as [Hg|[->|Hg]]; [tauto|congruence|tauto].
  - exists g. cbn. split; [|done]. apply list_elem_of_In, filter_In. split; [by apply list_elem_of_In|]. by destruct (fresh gm now g).
Qed.

(** C37: The list of guards of a manager with any configured limit, that found any
    Guard lines in the state file and any stored list in guard_state.json, through
    any sequence of additions, confirmations, removals and clean-ups: the list never
    grows beyond its limit, or beyond the length it was loaded with if that was more
    (loading itself keeps to no limit); no guard is listed more than once, or more
    often than in the loaded list; and a confirmed guard stays, confirmed, until it
    is removed or, expired, cleaned up: a new guard never pushes it out. *)
Theorem confirmed_guards_stay now cfg records stored l x :
  let gm0 := NewGuardManagerWithConfig now cfg records stored in
  let gm := foldl run1 gm0 l in
  len (Guards (state gm)) <= Z.max (MaxGuards cfg) (len (Guards (state gm0))) /\
  (forall fp, occ fp (fps gm) <= Z.max 1 (occ fp (fps gm0))) /\
  forall g, g ∈ Guards (state gm) -> Confirmed g = true -> ~ drops gm g x ->
    exists g', g' ∈ Guards (state (run1 gm x)) /\ Fingerprint g' = Fingerprint g /\ Confirmed g' = true.
Proof.
  intros gm0 gm. assert (bounded gm0 gm) as (H1 & H2 & _).
  { subst gm. induction l as [|y l IH] using rev_ind; [apply bounded_refl|]. rewrite foldl_app. cbn [foldl].
    by eapply bounded_trans, bounded_run1. }
  assert (maxGuards gm0 = MaxGuards cfg) as Hm.
  { unfold gm0, NewGuardManagerWithConfig, load, loadTorState. by repeat case_match; simplify_eq/=. }
  rewrite Hm in H1. split_and!; [done|done|]. intros g. apply confirmed_run1.
Qed.

(** Loading keeps to no limit and removes no duplicates: four lines of one guard in
    the state file give a list of four entries in a manager limited to three. *)
Theorem loaded_list_unbounded :
  let fp := repeat 65 40 in
  let gm := NewGuardManager 0 (repeat (mkRecord fp [] [] []) 4) None in
  len (Guards (state gm)) = 4 /\ maxGuards gm = 3 /\ occ fp (fps gm) = 4.
Proof. vm_compute. by split_and!. Qed.

(** A relay's fingerprint, as the consensus gives it, is 27 characters of base64:
    what is written to the state file is never read back. *)
Theorem state_file_forgets format now gm :
  Forall (fun g => length (Fingerprint g) = 27%nat) (Guards (state gm)) -> loadTorState now (saveTorState format gm) gm = None.
Proof.
  intros Hf. unfold loadTorState, saveTorState.
  assert (List.filter (fun r => ValidRSAFingerprint (RSAID r))
    (map (fun g => mkRecord (GoStrings.ToUpper (Fingerprint g)) (Nickname g) (if Confirmed g then format (LastUsed g) else [])
      (if Confirmed g then lit "0" else [])) (Guards (state gm))) = []) as ->; [|done].
  induction Hf as [|g gs Hg Hf IH]; [done|]. cbn [map List.filter RSAID].
  assert (ValidRSAFingerprint (GoStrings.ToUpper (Fingerprint g)) = false) as ->; [|done].
  unfold ValidRSAFingerprint. apply andb_false_iff. left. apply Nat.eqb_neq. intros H40.
  pose proof (filter_length_le (fun c => negb (c =? 32)) (GoStrings.ToUpper (Fingerprint g))) as Hle.
  unfold GoStrings.ToUpper in *. rewrite length_map in Hle. lia.
Qed.

End Guards.
