(* ===== verification/PathSelection.v ===== *)
(** * Path selection (pkg/path/path.go)

    The selector over a consensus: the guard, exit and middle relay of a path, the
    attempts for a diverse one, and the family checks made after the microdescriptors
    are there.  Random numbers are an argument ([rand i n]: the [i]-th draw, below
    [n]; [None] when the source fails), and so is the score the diversity analyzer
    (pkg/path/diversity.go) gives a path; the clock is one too.  A guard manager and
    a bias detector are always there. *)

From Stdlib Require Import String SpecFloat.
From S2P Require Import Prelude GoStrings GoNet ExitRules Breaker Relays Guards.
Import GoStrings Relays.

Module PathSelection.

Record ExitTarget := mkTarget { Port : Z; IP : option bytes }.

Record Path := mkPath { Guard : Relay; Middle : Relay; Middle2 : option Relay; Exit : Relay }.

Record Selector := mkSelector {
  guardManager : Guards.GuardManager;
  biasDetector : Guards.BiasDetector;
  guards : list Relay;
  relays : list Relay;
  (** the consensus parameters of the families *)
  useFamilyIDs : option Z;
  useFamilyLists : option Z;
}.

Inductive error :=
| errNoRelays
| errNoGuards
| errEmptyList
| errRand
| errNoExit
| errNoMiddle
| errFlags
(** an index or a bound is out of range *)
| errPanic.

Definition set_manager (s : Selector) (gm : Guards.GuardManager) : Selector :=
  mkSelector gm (biasDetector s) (guards s) (relays s) (useFamilyIDs s) (useFamilyLists s).

Definition hopsMeetFlagConstraints (p : Path) : bool :=
  UsableAsGuard (Guard p) && UsableAsCircuitHop (Middle p) && UsableAsExit (Exit p) &&
  match Middle2 p with None => true | Some m => UsableAsCircuitHop m end.

Definition sameFamily (s : Selector) (a b : Relay) : bool :=
  let '(useIDs, useLists) := FamilyPolicyFromParams (useFamilyIDs s) (useFamilyLists s) in
  InSameFamilyPolicy a b useIDs useLists.

(** Some two of the relays are of one family. *)
Fixpoint some_pair (f : Relay -> Relay -> bool) (l : list Relay) : bool :=
  match l with [] => false | a :: l => existsb (f a) l || some_pair f l end.

Definition hops (p : Path) : list Relay :=
  match Middle2 p with None => [Guard p; Middle p; Exit p] | Some m => [Guard p; Middle p; m; Exit p] end.

Definition PathHopsShareFamily (s : Selector) (p : Path) : bool := some_pair (sameFamily s) (hops p).

Definition ConfluxLegsShareFamily (s : Selector) (first second : Path) : bool :=
  existsb (fun a => existsb (fun b => sameFamily s a b) [Guard first; Middle first]) [Guard second; Middle second].

(** What [UpdateConsensus] makes of the relays it fetched. *)
Definition UpdateConsensus (fetched : list Relay) (s : Selector) : Selector :=
  let allRelays := List.filter (fun r => IsRunning r && IsValid r) fetched in
  mkSelector (guardManager s) (biasDetector s) (List.filter UsableAsGuard allRelays) allRelays (useFamilyIDs s) (useFamilyLists s).

Definition HasMinimumDirInfo (s : Selector) : bool := (0 <? len (guards s)) && (0 <? len (relays s)).

(** ** Random choice *)

Definition randomIndex (rand : Z -> option Z) (max : Z) : result error Z :=
  if max <=? 0 then Err errPanic else match rand max with None => Err errRand | Some n => Ok n end.

Fixpoint by_weight (relays : list Relay) (target cumulative : Z) (i : Z) : option Z :=
  match relays with
  | [] => None
  | r :: relays =>
      let cumulative := u64 (cumulative + Bandwidth r) in
      if target <? cumulative then Some i else by_weight relays target cumulative (i + 1)
  end.

Definition weightedRandomIndex (rand : Z -> option Z) (relays : list Relay) : result error Z :=
  match relays with
  | [] => Err errEmptyList
  | _ =>
      let total := foldl (fun t r => u64 (t + Bandwidth r)) 0 relays in
      if total =? 0 then randomIndex rand (len relays)
      else if i64 total <=? 0 then Err errPanic
      else match rand (i64 total) with
           | None => Err errRand
           | Some target => Ok (default (len relays - 1) (by_weight relays target 0 0))
           end
  end.

(** [relays[idx]] for the index chosen. *)
Definition choose (rand : Z -> option Z) (relays : list Relay) : result error Relay :=
  let? idx := weightedRandomIndex rand relays in
  match (if idx <? 0 then None else relays !! Z.to_nat idx) with Some r => Ok r | None => Err errPanic end.

(** ** The three hops *)

(** The first relay of the consensus with the fingerprint of a persistent guard, in
    the order of the guards, that may be used. *)
Definition persistent_guard (now : Z) (s : Selector) : option Relay :=
  let ok r := UsableAsGuard r && negb (Guards.IsBiased (Fingerprint r) (biasDetector s)) in
  List.find ok (flat_map (fun g => List.filter (fun r => string_eqb (Fingerprint r) (Guards.Fingerprint g)) (guards s))
                  (Guards.GetGuards now (guardManager s))).

Definition selectGuard (rand : Z -> option Z) (now : Z) (s : Selector) : Selector * result error Relay :=
  match guards s with
  | [] => (s, Err errNoGuards)
  | _ =>
      match persistent_guard now s with
      | Some r => (s, Ok r)
      | None =>
          match List.filter UsableAsGuard (guards s) with
          | [] => (s, Err errNoGuards)
          | available =>
              let filtered := List.filter (fun g => negb (Guards.IsBiased (Fingerprint g) (biasDetector s))) available in
              let available := match filtered with [] => available | _ => filtered end in
              match choose rand available with
              | Err e => (s, Err e)
              | Ok guard => (set_manager s (Guards.AddGuard now guard (guardManager s)), Ok guard)
              end
          end
      end
  end.

Definition ConfirmGuard (now : Z) (fp : bytes) (s : Selector) : Selector :=
  set_manager s (Guards.ConfirmGuard now fp (guardManager s)).1.

(** [None] when the log line for a relay of the guard's subnet cannot be made: it
    cuts the address at its last dot. *)
Fixpoint exit_candidates (s : Selector) (target : ExitTarget) (avoid : option Relay) (relays : list Relay) : option (list Relay) :=
  match relays with
  | [] => Some []
  | relay :: relays =>
      let rest := exit_candidates s target avoid relays in
      let allowed := if AllowsExitTarget relay (Port target) (IP target) then cons relay <$> rest else rest in
      if negb (UsableAsExit relay) then rest
      else
        match avoid with
        | None => allowed
        | Some a =>
            if string_eqb (Fingerprint relay) (Fingerprint a) then rest
            else if sameFamily s relay a then rest
            else if InSameSubnet relay a then if LastIndexByte (Address relay) 46 then rest else None
            else allowed
        end
  end.

Definition selectExitFor (rand : Z -> option Z) (s : Selector) (target : ExitTarget) (avoid : option Relay) : result error Relay :=
  match exit_candidates s target avoid (relays s) with
  | None => Err errPanic
  | Some [] => Err errNoExit
  | Some exits => choose rand exits
  end.

Definition middle_ok (s : Selector) (guard exit relay : Relay) : bool :=
  UsableAsCircuitHop relay &&
  negb (string_eqb (Fingerprint relay) (Fingerprint guard)) && negb (string_eqb (Fingerprint relay) (Fingerprint exit)) &&
  negb (sameFamily s relay guard) && negb (sameFamily s relay exit) &&
  negb (InSameSubnet relay guard) && negb (InSameSubnet relay exit).

Definition selectMiddle (rand : Z -> option Z) (s : Selector) (guard exit : Relay) : result error Relay :=
  match List.filter (middle_ok s guard exit) (relays s) with
  | [] => Err errNoMiddle
  | candidates => choose rand candidates
  end.

(** ** A path *)

Inductive DiversityLevel := DiversityUnknown | DiversityLow | DiversityMedium | DiversityHigh | DiversityExcellent.
Definition level_rank (l : DiversityLevel) : Z :=
  match l with DiversityUnknown => 0 | DiversityLow => 1 | DiversityMedium => 2 | DiversityHigh => 3 | DiversityExcellent => 4 end.

Record PathScore := mkScore { Overall : Breaker.float64; Level : DiversityLevel }.

Definition maxAttempts : nat := 5.

(** One attempt: the draws [rand 0], [rand 1] and [rand 2]. *)
Definition attempt_path (rand : nat -> Z -> option Z) (now : Z) (target : ExitTarget) (s : Selector) : Selector * result error Path :=
  match selectGuard (rand 0%nat) now s with
  | (s, Err e) => (s, Err e)
  | (s, Ok guard) =>
      (s, let? exit := selectExitFor (rand 1%nat) s target (Some guard) in
          let? middle := selectMiddle (rand 2%nat) s guard exit in
          let path := mkPath guard middle None exit in
          if negb (hopsMeetFlagConstraints path) then Err errFlags else Ok path)
  end.

(** The attempts that are left, and the best path so far. *)
Fixpoint attempts (n : nat) (rand : nat -> Z -> option Z) (now : Z) (analyze : Path -> PathScore) (target : ExitTarget)
    (best : option (Path * PathScore)) (s : Selector) : Selector * result error Path :=
  match n with
  | O => (s, match best with Some (p, _) => Ok p | None => Err errPanic end)
  | S n =>
      match attempt_path rand now target s with
      | (s, Err e) => (s, Err e)
      | (s, Ok path) =>
          let score := analyze path in
          let best := match best with
                      | None => Some (path, score)
                      | Some (_, b) => if SpecFloat.SFltb (Overall b) (Overall score) then Some (path, score) else best
                      end in
          if 2 <=? level_rank (Level score) then (s, Ok path)
          else attempts n (fun i => rand (i + 3)%nat) now analyze target best s
      end
  end.

Definition SelectPathFor (rand : nat -> Z -> option Z) (now : Z) (analyze : Path -> PathScore) (target : ExitTarget) (s : Selector) :
    Selector * result error Path :=
  if (len (guards s) =? 0) || (len (relays s) =? 0) then (s, Err errNoRelays)
  else attempts maxAttempts rand now analyze target None s.

Definition SelectPath rand now analyze (exitPort : Z) (s : Selector) := SelectPathFor rand now analyze (mkTarget exitPort None) s.

Definition RecordCircuitOutcome (now circuitID : Z) (fp : bytes) (o : Guards.CircuitOutcome) (s : Selector) : Selector * list Guards.BiasAlert :=
  let '(bd, alerts) := Guards.RecordOutcome now circuitID fp o (biasDetector s) in
  (mkSelector (guardManager s) bd (guards s) (relays s) (useFamilyIDs s) (useFamilyLists s), alerts).

(** ** What a selected path is *)

Lemma choose_elem rand l r : choose rand l = Ok r -> r ∈ l.
Proof.
  unfold choose. destruct (weightedRandomIndex rand l) as [idx|e]; [|done]. cbn [result_bind]. destruct (idx <? 0); [done|].
  destruct (l !! Z.to_nat idx) as [x|] eqn:E; [|done]. intros [= <-]. by eapply list_elem_of_lookup_2.
Qed.

(** The consensus of a selector, and its family policy. *)
Definition same_consensus (s s' : Selector) : Prop :=
  guards s' = guards s /\ relays s' = relays s /\ biasDetector s' = biasDetector s /\
  useFamilyIDs s' = useFamilyIDs s /\ useFamilyLists s' = useFamilyLists s.

Lemma same_family s s' a b : same_consensus s s' -> sameFamily s' a b = sameFamily s a b.
Proof. intros (_ & _ & _ & H1 & H2). unfold sameFamily. by rewrite H1, H2. Qed.

Lemma sameFamily_sym s a b : sameFamily s a b = sameFamily s b a.
Proof. unfold sameFamily. destruct (FamilyPolicyFromParams _ _). apply InSameFamilyPolicy_sym. Qed.

Definition unbiased (s : Selector) (r : Relay) : bool := negb (Guards.IsBiased (Fingerprint r) (biasDetector s)).

(** The guard: the first persistent one that is usable and not biased; without
    one, any usable guard, not a biased one unless all are, and it is remembered. *)
Lemma selectGuard_spec rand now s s' r :
  selectGuard rand now s = (s', Ok r) ->
  same_consensus s s' /\ r ∈ guards s /\ UsableAsGuard r = true /\
  match persistent_guard now s with
  | Some g => r = g /\ s' = s /\ unbiased s r = true
  | None => guardManager s' = Guards.AddGuard now r (guardManager s) /\
            (unbiased s r = false -> forall g, g ∈ guards s -> UsableAsGuard g = true -> unbiased s g = false)
  end.
Proof.
  unfold selectGuard. destruct (guards s) as [|g0 gs] eqn:Hg; [done|]. rewrite <- Hg. destruct (persistent_guard now s) as [g|] eqn:Hp.
  - intros [= <- <-]. unfold persistent_guard in Hp. apply find_some in Hp as [Hin [Hu Hb]%andb_true_iff].
    apply in_flat_map in Hin as (e & _ & [Hin _]%filter_In). split_and!; try done. by apply list_elem_of_In.
  - destruct (List.filter UsableAsGuard (guards s)) as [|a0 al] eqn:Ha; [done|]. rewrite <- Ha.
    set (filtered := List.filter _ (List.filter UsableAsGuard (guards s))).
    destruct (choose rand _) as [x|e] eqn:Hc; [|done]. intros [= <- <-]. apply choose_elem in Hc.
    assert (x ∈ List.filter UsableAsGuard (guards s)) as Hx.
    { destruct filtered as [|f0 fl] eqn:Hf; [done|]. rewrite <- Hf in Hc. apply list_elem_of_In, filter_In in Hc as [Hc _]. by apply list_elem_of_In. }
    apply list_elem_of_In, filter_In in Hx as [Hin Hu]. split_and!; try done; [by apply list_elem_of_In|].
    intros Hb g Hgin Hgu. destruct filtered as [|f0 fl] eqn:Hf.
    + apply not_true_iff_false. intros Hub. assert (In g filtered) as Hgf.
      { apply filter_In. split; [apply filter_In; split; [by apply list_elem_of_In | done] | exact Hub]. }
      by rewrite Hf in Hgf.
    + rewrite <- Hf in Hc. apply list_elem_of_In, filter_In in Hc as [_ Hub]. unfold unbiased in Hb. congruence.
Qed.

Lemma exit_candidates_spec s target a l l' r : exit_candidates s target (Some a) l = Some l' -> r ∈ l' ->
  r ∈ l /\ UsableAsExit r = true /\ Fingerprint r <> Fingerprint a /\ sameFamily s r a = false /\ InSameSubnet r a = false /\
  AllowsExitTarget r (Port target) (IP target) = true.
Proof.
  revert l'. induction l as [|x l IH]; intros l' Hl Hr; cbn [exit_candidates] in Hl; [injection Hl as <-; by apply elem_of_nil in Hr|].
  assert (exit_candidates s target (Some a) l = Some l' -> r ∈ x :: l /\ UsableAsExit r = true /\ Fingerprint r <> Fingerprint a /\
    sameFamily s r a = false /\ InSameSubnet r a = false /\ AllowsExitTarget r (Port target) (IP target) = true) as Hrest.
  { intros E. destruct (IH _ E Hr) as [Hin H]. split; [by right | done]. }
  destruct (UsableAsExit x) eqn:Hu; cbn [negb] in Hl; [|by apply Hrest]. destruct (string_eqb (Fingerprint x) _) eqn:Hf; [by apply Hrest|].
  destruct (sameFamily s x a) eqn:Hfam; [by apply Hrest|]. destruct (InSameSubnet x a) eqn:Hsub; [destruct (LastIndexByte _ _); [by apply Hrest | done]|].
  destruct (AllowsExitTarget x _ _) eqn:Hal; [|by apply Hrest]. destruct (exit_candidates s target (Some a) l) as [l1|] eqn:E; [|done].
  injection Hl as <-. apply elem_of_cons in Hr as [->|Hr].
  - split_and!; try done; [left|]. intros E'. rewrite E', string_eqb_refl in Hf. done.
  - destruct (IH _ eq_refl Hr) as [Hin H]. split; [by right | done].
Qed.

(** A path over the consensus of [s] that may be used for the target. *)
Record path_ok (s : Selector) (target : ExitTarget) (p : Path) : Prop := mkPathOk {
  ok_hops : Guard p ∈ guards s /\ Middle p ∈ relays s /\ Exit p ∈ relays s /\ Middle2 p = None;
  ok_flags : hopsMeetFlagConstraints p = true;
  ok_distinct : NoDup [Fingerprint (Guard p); Fingerprint (Middle p); Fingerprint (Exit p)];
  ok_families : PathHopsShareFamily s p = false;
  ok_subnets : some_pair InSameSubnet (hops p) = false;
  ok_target : AllowsExitTarget (Exit p) (Port target) (IP target) = true;
}.

Lemma path_ok_consensus s s' target p : same_consensus s s' -> path_ok s' target p -> path_ok s target p.
Proof.
  intros Hs [H1 H2 H3 H4 H5 H6]. pose proof Hs as (Hg & Hr & _). rewrite Hg, Hr in H1. constructor; try done.
  rewrite <- H4. unfold PathHopsShareFamily. generalize (hops p). intros l. induction l as [|a l IH]; [done|]. cbn [some_pair]. rewrite IH. f_equal.
  clear IH. induction l as [|b l IH]; [done|]. cbn [existsb]. by rewrite IH, (same_family s s' a b Hs).
Qed.

Lemma attempt_path_ok rand now target s s' p :
  attempt_path rand now target s = (s', Ok p) ->
  same_consensus s s' /\ path_ok s target p /\
  selectGuard (rand 0%nat) now s = (s', Ok (Guard p)).
Proof.
  unfold attempt_path. destruct (selectGuard (rand 0%nat) now s) as [s1 [guard|e]] eqn:Hg; [|done].
  pose proof (selectGuard_spec _ _ _ _ _ Hg) as (Hs & Hgin & Hgu & _).
  destruct (selectExitFor (rand 1%nat) s1 target (Some guard)) as [exit|e] eqn:He; [|done]. cbn [result_bind].
  destruct (selectMiddle (rand 2%nat) s1 guard exit) as [middle|e] eqn:Hm; [|done]. cbn [result_bind].
  destruct (hopsMeetFlagConstraints _) eqn:Hf; [|done]. cbn [negb]. intros [= <- <-]. split_and!; [done| |done]. apply (path_ok_consensus s s1); [done|].
  assert (r_exit : exit ∈ relays s1 /\ Fingerprint exit <> Fingerprint guard /\ sameFamily s1 exit guard = false /\
    InSameSubnet exit guard = false /\ AllowsExitTarget exit (Port target) (IP target) = true).
  { unfold selectExitFor in He. destruct (exit_candidates s1 target (Some guard) (relays s1)) as [[|x0 xl]|] eqn:Hx; [done| |done].
    apply choose_elem in He. destruct (exit_candidates_spec _ _ _ _ _ _ Hx He) as (H1 & _ & H3 & H4 & H5 & H6). done. }
  destruct r_exit as (Ein & Efp & Efam & Esub & Eal).
  assert (middle ∈ relays s1 /\ middle_ok s1 guard exit middle = true) as [Min Mok].
  { unfold selectMiddle in Hm. destruct (List.filter _ _) as [|m0 ml] eqn:Hx; [done|]. apply choose_elem in Hm. rewrite <- Hx in Hm.
    apply list_elem_of_In, filter_In in Hm as [Hm1 Hm2]. split; [by apply list_elem_of_In | done]. }
  unfold middle_ok in Mok. rewrite !andb_true_iff, !negb_true_iff in Mok. destruct Mok as ((((((_ & M1) & M2) & M3) & M4) & M5) & M6).
  destruct Hs as (Hgs & _). rewrite <- Hgs in Hgin.
  assert (forall a b, string_eqb a b = false -> a <> b) as Hneq by (intros a b E ->; by rewrite string_eqb_refl in E).
  constructor; cbn [Guard Middle Exit Middle2]; try done.
  - apply Hneq in M1, M2. repeat (apply NoDup_cons; split); [set_solver | set_solver | apply not_elem_of_nil | apply NoDup_nil_2].
  - unfold PathHopsShareFamily, hops. cbn [some_pair existsb Middle2 Guard Middle Exit]. rewrite (sameFamily_sym s1 guard middle), (sameFamily_sym s1 guard exit), M3, M4, Efam. done.
  - unfold hops. cbn [some_pair existsb Middle2 Guard Middle Exit]. rewrite (InSameSubnet_sym guard middle), (InSameSubnet_sym guard exit), M5, M6, Esub. done.
Qed.

(** Every attempt starts from the same consensus. *)
Lemma attempts_ok n rand now analyze target best s s' p :
  (forall q sc, best = Some (q, sc) -> path_ok s target q) ->
  attempts n rand now analyze target best s = (s', Ok p) -> same_consensus s s' /\ path_ok s target p.
Proof.
  revert rand best s. induction n as [|n IH]; intros rand best s Hb; cbn [attempts].
  - destruct best as [[q sc]|]; [|done]. intros [= <- <-]. split; [done | by eapply Hb].
  - destruct (attempt_path rand now target s) as [s1 [path|e]] eqn:Ha; [|done]. apply attempt_path_ok in Ha as (Hs & Hok & _).
    destruct (2 <=? _); [by intros [= <- <-]|]. intros Hrec.
    assert (same_consensus s1 s) as Hback by (destruct Hs as (? & ? & ? & ? & ?); repeat split; congruence).
    apply IH in Hrec as [Hs' Hok'].
    + split; [|by apply (path_ok_consensus s s1)]. destruct Hs as (a1 & a2 & a3 & a4 & a5), Hs' as (b1 & b2 & b3 & b4 & b5). repeat split; congruence.
    + intros q sc Hq. apply (path_ok_consensus s1 s); [done|]. destruct best as [[q0 b]|]; [|injection Hq as <- _; done].
      destruct (SpecFloat.SFltb _ _); [injection Hq as <- _; done|]. injection Hq as <- <-. by eapply Hb.
Qed.

(** C6: A selected path, for any random numbers and however paths are scored: its relays
    are of the consensus and have the flags their places call for; they are three
    different ones, no two of one family, nor in one /16; the exit's policy allows
    the target. *)
Theorem selected_path_ok rand now analyze target s s' p :
  SelectPathFor rand now analyze target s = (s', Ok p) -> path_ok s target p.
Proof. unfold SelectPathFor. destruct (_ || _); [done|]. intros Ha. apply attempts_ok in Ha as [_ Hok]; [done | by intros q sc [=]]. Qed.

(** The guard of a path: while a guard of the list is in the consensus, usable and
    not biased, the first such one is the guard of every path, whatever is drawn, and
    the list stays as it is; a biased guard is used only if all are. *)
Theorem guard_choice rand now analyze target s s' p :
  SelectPathFor rand now analyze target s = (s', Ok p) ->
  (forall g, persistent_guard now s = Some g -> Guard p = g /\ s' = s) /\
  (unbiased s (Guard p) = false -> forall g, g ∈ guards s -> UsableAsGuard g = true -> unbiased s g = false).
Proof.
  intros Hsel. split.
  - intros g Hg. revert Hsel. unfold SelectPathFor. destruct (_ || _); [done|]. generalize maxAttempts.
    assert (forall q sc, @None (Path * PathScore) = Some (q, sc) -> Guard q = g) as Hbest by done. revert Hbest. generalize (@None (Path * PathScore)).
    intros best Hbest n. revert rand best Hbest. induction n as [|n IH]; intros rand best Hbest; cbn [attempts].
    + destruct best as [[q sc]|]; [|done]. intros [= <- <-]. split; [by eapply Hbest | done].
    + destruct (attempt_path rand now target s) as [s1 [path|e]] eqn:Ha; [|done]. apply attempt_path_ok in Ha as (_ & _ & Hgu).
      apply selectGuard_spec in Hgu as (_ & _ & _ & Hch). rewrite Hg in Hch. destruct Hch as (Hpg & -> & _).
      destruct (2 <=? _); [by intros [= <- <-]|]. apply IH. intros q sc. destruct best as [[q0 b]|]; [|by intros [= <- _]].
      destruct (SpecFloat.SFltb _ _); [by intros [= <- _]|]. intros [= <- <-]. by eapply Hbest.
  - revert Hsel. unfold SelectPathFor. destruct (_ || _); [done|]. generalize maxAttempts.
    set (fair := fun (s0 : Selector) q => unbiased s0 (Guard q) = false -> forall g, g ∈ guards s0 -> UsableAsGuard g = true -> unbiased s0 g = false).
    change (forall n, attempts n rand now analyze target None s = (s', Ok p) -> fair s p).
    assert (forall q sc, @None (Path * PathScore) = Some (q, sc) -> fair s q) as Hbest by done. revert Hbest. generalize (@None (Path * PathScore)).
    intros best Hbest n. revert rand best s Hbest. induction n as [|n IH]; intros rand best s Hbest; cbn [attempts].
    + destruct best as [[q sc]|]; [|done]. intros [= <- <-]. by eapply Hbest.
    + destruct (attempt_path rand now target s) as [s1 [path|e]] eqn:Ha; [|done]. apply attempt_path_ok in Ha as (Hs & _ & Hgu).
      apply selectGuard_spec in Hgu as (_ & _ & _ & Hch).
      assert (fair s path) as Hf.
      { unfold fair. destruct (persistent_guard now s); [|apply Hch]. destruct Hch as (_ & _ & Hu). congruence. }
      assert (forall q, fair s1 q <-> fair s q) as Hiff.
      { intros q. destruct Hs as (H1 & _ & H3 & _). unfold fair, unbiased. by rewrite H1, H3. }
      destruct (2 <=? _); [by intros [= <- <-]|]. intros Hrec. apply Hiff. eapply IH; [|exact Hrec]. intros q sc.
      destruct best as [[q0 b]|]; [|by intros [= <- _]; apply Hiff].
      destruct (SpecFloat.SFltb _ _); [by intros [= <- _]; apply Hiff|]. intros [= <- <-]. apply Hiff. by eapply Hbest.
Qed.

(** Four relays: two of them share a /16, and one of those is the guard. *)
Definition relay (n : nat) (address : string) (bandwidth : Z) : Relay :=
  mkRelay n [65 + Z.of_nat n] [97 + Z.of_nat n] (lit address) (map lit ["Running"; "Valid"; "Fast"; "Guard"; "Stable"; "Exit"]%string)
    [] [] [] [] [] bandwidth None None None.

Definition sample_selector : Selector :=
  UpdateConsensus [relay 1 "1.2.3.4" 10; relay 2 "1.2.9.9" 1000; relay 3 "5.6.7.8" 10; relay 4 "9.8.7.6" 10]
    (mkSelector (Guards.NewGuardManager 0 [] None) (Guards.NewBiasDetector Guards.DefaultThresholds) [] [] None None).

Definition draw_zero (_ : nat) (_ : Z) : option Z := Some 0.
Definition flat_score (_ : Path) : PathScore := mkScore (Breaker.of_int 0) DiversityLow.

Lemma selected_path_ok_witness :
  exists s' p, SelectPathFor draw_zero 0 flat_score (mkTarget 443 None) sample_selector = (s', Ok p) /\
    path_ok sample_selector (mkTarget 443 None) p /\ InSameSubnet (relay 1 "1.2.3.4" 10) (relay 2 "1.2.9.9" 1000) = true /\
    map obj (hops p) = [1; 4; 3]%nat.
Proof.
  eexists _, _. split; [vm_compute; reflexivity|]. split; [|split; vm_compute; reflexivity].
  eapply (selected_path_ok draw_zero 0 flat_score (mkTarget 443 None) sample_selector). vm_compute. reflexivity.
Defined.

Lemma guard_choice_witness :
  exists s' p, SelectPathFor draw_zero 0 flat_score (mkTarget 443 None) sample_selector = (s', Ok p) /\
    exists s'' p', SelectPathFor (fun _ _ => Some 1000) 5 flat_score (mkTarget 80 None) s' = (s'', Ok p') /\ obj (Guard p') = 1%nat /\ s'' = s'.
Proof.
  eexists _, _. split; [vm_compute; reflexivity|]. eexists _, _. split; [vm_compute; reflexivity|].
  match goal with |- obj (Guard ?q) = _ /\ ?y = ?x =>
    destruct (guard_choice (fun _ _ => Some 1000) 5 flat_score (mkTarget 80 None) x y q ltac:(vm_compute; reflexivity)) as [Hg _] end.
  destruct (Hg _ ltac:(vm_compute; reflexivity)) as [-> Hs]. split; [vm_compute; reflexivity | exact Hs].
Defined.

End PathSelection.
