(* ===== verification/IntroPoint.v ===== *)
(** * Introduction points (pkg/onion/establish_intro.go, pkg/onion/intro_dos.go, pkg/relay/hsintro.go)

    What an onion service sends to a relay to make it an introduction point
    (ESTABLISH_INTRO, with the optional parameters of the INTRODUCE2 limiter), how
    the relay checks and reads it, the limiter itself in IEEE binary64 arithmetic,
    and the head of an INTRODUCE1 cell.  SHA3-256 and Ed25519 are the operations of
    the class [IntroCrypto]; [IntroCryptoLaws] says what is known of them. *)

From Stdlib Require Import SpecFloat.
From S2P Require Import Prelude Conversion GoStrings Breaker.
Import GoStrings.
Import Breaker(float64, of_int, fdiv).

Module IntroPoint.

Class IntroCrypto := {
  sha3_256 : bytes -> bytes;
  edSign : bytes -> bytes -> bytes;
  edVerify : bytes -> bytes -> bytes -> bool;
}.

(** [key_pair pub priv]: the two belong together. *)
Class IntroCryptoLaws (C : IntroCrypto) (key_pair : bytes -> bytes -> Prop) := {
  sha3_length m : length (sha3_256 m) = 32%nat;
  sign_length priv m : length (edSign priv m) = 64%nat;
  verify_sign pub priv m : key_pair pub priv -> edVerify pub m (edSign priv m) = true;
}.

Inductive error :=
| errPublicLen
| errPrivateLen
| errNonceLen
| errTooShort
| errKeyType
| errKeyLen
| errExtensions
| errTruncatedMAC
| errMAC
| errTruncatedSigLen
| errSigLen
| errSignature.

(** ** Parameters of the limiter *)

Definition introDoSExtType : Z := 1.
Definition introDoSParamRate : Z := 1.
Definition introDoSParamBurst : Z := 2.
Definition introDoSParamValLen : nat := 8.
Definition introDoSMax : Z := 0x7fffffff.
Definition introDoSDefaultRate : Z := 25.
Definition introDoSDefaultBurst : Z := 200.

Record IntroDoSParams := mkDoS { Defense : bool; Rate : Z; Burst : Z }.
Record IntroDoSExtension := mkExt { Present : bool; extRate : Z; extBurst : Z }.

Definition no_extension : IntroDoSExtension := mkExt false 0 0.

Definition clampIntroDoSValue (v : Z) : Z := if v <? 0 then 0 else if introDoSMax <? v then introDoSMax else v.
Definition clampIntroDoSUint (v : Z) : Z := if introDoSMax <? v then introDoSMax else v.

Definition IntroDoSParamsFromConsensus (params : option (gmap string Z)) : IntroDoSParams :=
  match params with
  | None => mkDoS false introDoSDefaultRate introDoSDefaultBurst
  | Some params =>
      mkDoS (default 0 (params !! "HiddenServiceEnableIntroDoSDefense"%string) =? 1)
        (match params !! "HiddenServiceEnableIntroDoSRatePerSec"%string with
         | Some v => clampIntroDoSValue v | None => introDoSDefaultRate end)
        (match params !! "HiddenServiceEnableIntroDoSBurstPerSec"%string with
         | Some v => clampIntroDoSValue v | None => introDoSDefaultBurst end)
  end.

Definition Effective (p : IntroDoSParams) : bool * Z * Z :=
  if negb (Defense p) || (Rate p =? 0) || (Burst p =? 0) || (Burst p <? Rate p) then (false, 0, 0)
  else (true, Rate p, Burst p).

Definition ResolveIntroDoS (ext : IntroDoSExtension) (cons : IntroDoSParams) : IntroDoSParams :=
  if negb (Present ext) then cons
  else if extBurst ext <? extRate ext then cons
  else if (extRate ext =? 0) || (extBurst ext =? 0) then mkDoS false (extRate ext) (extBurst ext)
  else mkDoS true (extRate ext) (extBurst ext).

Definition encodeIntroDoSField (rate burst : Z) : bytes :=
  [2; introDoSParamRate] ++ PutUint64 (clampIntroDoSUint rate) ++
  [introDoSParamBurst] ++ PutUint64 (clampIntroDoSUint burst).

(** The loop over [n] parameters. *)
Fixpoint dos_params (n : nat) (field : bytes) (off : nat) (rate burst : option Z) : option (option Z * option Z) :=
  match n with
  | O => Some (rate, burst)
  | S n =>
      if (length field <? off + 1 + introDoSParamValLen)%nat then None
      else
        let ptype := at_ field off in
        let off := S off in
        let val := clampIntroDoSUint (be_get (slice field off (off + introDoSParamValLen))) in
        let off := (off + introDoSParamValLen)%nat in
        let keep (o : option Z) := match o with Some _ => o | None => Some val end in
        if ptype =? introDoSParamRate then dos_params n field off (keep rate) burst
        else if ptype =? introDoSParamBurst then dos_params n field off rate (keep burst)
        else dos_params n field off rate burst
  end.

Definition parseIntroDoSField (field : bytes) : IntroDoSExtension :=
  if len field <? 1 then no_extension
  else
    match dos_params (Z.to_nat (at_ field 0)) field 1 None None with
    | Some (Some rate, Some burst) => mkExt true rate burst
    | _ => no_extension
    end.

(** The loop over [n] extensions; the first usable one is kept. *)
Fixpoint dos_extensions (n : nat) (payload : bytes) (off : nat) (out : IntroDoSExtension) : IntroDoSExtension :=
  match n with
  | O => out
  | S n =>
      if (length payload <? off + 2)%nat then no_extension
      else
        let typ := at_ payload off in
        let elen := Z.to_nat (at_ payload (off + 1)) in
        let off := (off + 2)%nat in
        if (length payload <? off + elen)%nat then no_extension
        else
          let field := slice payload off (off + elen) in
          dos_extensions n payload (off + elen)
            (if (typ =? introDoSExtType) && negb (Present out) then parseIntroDoSField field else out)
  end.

Definition introAuthKeyTypeEd : Z := 2.
Definition introMACLen : nat := 32.

Definition ParseEstablishIntroDoSExtension (payload : bytes) : IntroDoSExtension :=
  if (len payload <? 36) || negb (at_ payload 0 =? introAuthKeyTypeEd) then no_extension
  else if negb (be_get (slice payload 1 3) =? 32) then no_extension
  else dos_extensions (Z.to_nat (at_ payload 35)) payload 36 no_extension.

(** ** ESTABLISH_INTRO *)

Definition establishIntroPrefix : bytes := lit "Tor establish-intro cell v1".

Section Establish.
Context `{IntroCrypto}.

Definition sha3MacSHA256Ctor (key msg : bytes) : bytes := sha3_256 (PutUint64 (len key) ++ key ++ msg).
Definition sha3MAC (key msg : bytes) : bytes := sha3MacSHA256Ctor key msg.

Definition signEstablishIntro (body authPriv circNonce : bytes) : bytes :=
  let body := body ++ sha3MAC circNonce body in
  let sig := edSign authPriv (establishIntroPrefix ++ body) in
  body ++ PutUint16 (Conversion.IntToUint16Sat (len sig)) ++ sig.

Definition check_keys (authPub authPriv circNonce : bytes) : option error :=
  if negb (len authPub =? 32) then Some errPublicLen
  else if negb (len authPriv =? 64) then Some errPrivateLen
  else if negb (len circNonce =? 20) then Some errNonceLen
  else None.

Definition BuildEstablishIntroPayload (authPub authPriv circNonce : bytes) : result error bytes :=
  match check_keys authPub authPriv circNonce with
  | Some e => Err e
  | None => Ok (signEstablishIntro ([introAuthKeyTypeEd] ++ PutUint16 32 ++ authPub ++ [0]) authPriv circNonce)
  end.

Definition BuildEstablishIntroPayloadWithDoS (authPub authPriv circNonce : bytes) (rate burst : Z) : result error bytes :=
  match check_keys authPub authPriv circNonce with
  | Some e => Err e
  | None =>
      let field := encodeIntroDoSField rate burst in
      Ok (signEstablishIntro ([introAuthKeyTypeEd] ++ PutUint16 32 ++ authPub ++ [1] ++
            [introDoSExtType; Conversion.ByteLen (len field)] ++ field) authPriv circNonce)
  end.

(** The offset behind [n] extensions. *)
Fixpoint skip_extensions (n : nat) (payload : bytes) (off : nat) : option nat :=
  match n with
  | O => Some off
  | S n =>
      if (length payload <? off + 2)%nat then None
      else skip_extensions n payload (off + (2 + Z.to_nat (at_ payload (off + 1))))
  end.

(** [None]: the payload is genuine. *)
Definition VerifyEstablishIntroPayload (payload circNonce : bytes) : option error :=
  if (length payload <? 1 + 2 + 32 + 1 + introMACLen + 2 + 64)%nat then Some errTooShort
  else if negb (at_ payload 0 =? introAuthKeyTypeEd) then Some errKeyType
  else if negb (be_get (slice payload 1 3) =? 32) then Some errKeyLen
  else
    let authPub := slice payload 3 35 in
    match skip_extensions (Z.to_nat (at_ payload 35)) payload 36 with
    | None => Some errExtensions
    | Some macStart =>
        let macEnd := (macStart + introMACLen)%nat in
        if (length payload <? macEnd)%nat then Some errTruncatedMAC
        else if negb (Conversion.ConstantTimeCompare (sha3MAC circNonce (take macStart payload)) (slice payload macStart macEnd))
        then Some errMAC
        else if (length payload <? macEnd + 2)%nat then Some errTruncatedSigLen
        else
          let sigLen := Z.to_nat (be_get (slice payload macEnd (macEnd + 2))) in
          let sigOff := (macEnd + 2)%nat in
          if (length payload <? sigOff + sigLen)%nat || negb (sigLen =? 64)%nat then Some errSigLen
          else if negb (edVerify authPub (establishIntroPrefix ++ take macEnd payload) (slice payload sigOff (sigOff + sigLen)))
          then Some errSignature
          else None
    end.

End Establish.

(** ** The limiter *)

(** [d.Seconds()] of a duration in nanoseconds. *)
Definition fadd : float64 -> float64 -> float64 := SFadd 53 1024.
Definition fsub : float64 -> float64 -> float64 := SFsub 53 1024.
Definition fmul : float64 -> float64 -> float64 := SFmul 53 1024.
Definition flt (x y : float64) : bool := SFltb x y.
Definition seconds (d : Z) : float64 :=
  fadd (of_int (Z.quot d 1000000000)) (fdiv (of_int (Z.rem d 1000000000)) (of_int 1000000000)).

Record introDoSBucket := mkBucket { rate : float64; burst : float64; tokens : float64; last : Z }.

Definition newIntroDoSBucket (p : IntroDoSParams) (now : Z) : option introDoSBucket :=
  let '(ok, r, b) := Effective p in
  if ok then Some (mkBucket (of_int r) (of_int b) (of_int b) now) else None.

(** The limiter's state after the call, and its answer. *)
Definition allowIntro2 (b : option introDoSBucket) (now : Z) : option introDoSBucket * bool :=
  match b with
  | None => (None, true)
  | Some b =>
      let elapsed := seconds (now - last b) in
      let b :=
        if flt (of_int 0) elapsed then
          let t := fadd (tokens b) (fmul elapsed (rate b)) in
          mkBucket (rate b) (burst b) (if flt (burst b) t then burst b else t) now
        else b in
      if flt (tokens b) (of_int 1) then (Some b, false)
      else (Some (mkBucket (rate b) (burst b) (fsub (tokens b) (of_int 1)) (last b)), true)
  end.

(** ** INTRODUCE1 *)

Definition maxIntroduce1Len : Z := 490.
Definition introAckSuccess : Z := 0.
Definition introAckNotRecognized : Z := 1.
Definition introAckBadFormat : Z := 2.
Definition introAckCantRelay : Z := 3.
Definition introduce1LegacyKeyLen : nat := 20.
Definition introduce1AuthKeyTypeV3 : Z := 2.
Definition ed25519AuthKeyLen : nat := 32.

(** Whether [n] extensions fit behind [off]. *)
Fixpoint extensions_fit (n : nat) (p : bytes) (off : nat) : bool :=
  match n with
  | O => true
  | S n =>
      if (length p <? off + 2)%nat then false
      else
        let off := (off + (2 + Z.to_nat (at_ p (off + 1))))%nat in
        if (length p <? off)%nat then false else extensions_fit n p off
  end.

Definition parseIntroduce1AuthKey (p : bytes) : option bytes :=
  if (length p <? introduce1LegacyKeyLen + 3 + ed25519AuthKeyLen + 1)%nat || (maxIntroduce1Len <? len p) then None
  else if negb (forallb (Z.eqb 0) (take introduce1LegacyKeyLen p)) then None
  else if negb (at_ p introduce1LegacyKeyLen =? introduce1AuthKeyTypeV3) then None
  else
    let alen := Z.to_nat (be_get (slice p (introduce1LegacyKeyLen + 1) (introduce1LegacyKeyLen + 3))) in
    let off := (introduce1LegacyKeyLen + 3)%nat in
    if negb (alen =? ed25519AuthKeyLen)%nat || (length p <=? off + alen)%nat then None
    else
      let auth := slice p off (off + alen) in
      let off := (off + alen)%nat in
      if extensions_fit (Z.to_nat (at_ p off)) p (S off) then Some auth else None.

Definition introAckPayload (status : Z) : bytes := PutUint16 status ++ [0].

(** ** Lemmas *)

Definition intro_body (authPub exts : bytes) (n : Z) : bytes := [introAuthKeyTypeEd] ++ PutUint16 32 ++ authPub ++ [n] ++ exts.

Lemma skip_extensions_one payload off typ field rest :
  drop off payload = [typ; len field] ++ field ++ rest ->
  skip_extensions 1 payload off = Some (off + (2 + length field))%nat /\
  (forall out, dos_extensions 1 payload off out =
     if (typ =? introDoSExtType) && negb (Present out) then parseIntroDoSField field else out).
Proof.
  intros Hd. assert (length payload = off + (2 + length field + length rest))%nat as Hl.
  { apply (f_equal length) in Hd. rewrite length_drop, !length_app in Hd. simpl in Hd. lia. }
  assert (at_ payload off = typ /\ at_ payload (off + 1) = len field /\
    slice payload (off + 2) (off + 2 + length field) = field) as (H1 & H2 & H3).
  { unfold at_. rewrite <- (Nat.add_0_r off) at 1. rewrite <- !lookup_drop, Hd. split_and!; [done..|].
    unfold slice. rewrite <- drop_drop, Hd. replace (off + 2 + length field - (off + 2))%nat with (length field) by lia.
    change (drop 2 ([typ; len field] ++ field ++ rest)) with (drop 0 (field ++ rest)). rewrite drop_0. by rewrite take_app_length. }
  simpl. rewrite H1, H2. unfold len. rewrite Nat2Z.id. rewrite H3.
  rewrite (proj2 (Nat.ltb_ge (length payload) (off + 2))) by lia.
  rewrite (proj2 (Nat.ltb_ge (length payload) (off + 2 + length field))) by lia. split; [done|]. done.
Qed.

Section Bodies.
Context `{C : IntroCrypto} {key_pair} `{!IntroCryptoLaws C key_pair}.
Context (authPub authPriv circNonce : bytes) (Hpub : length authPub = 32%nat).

Lemma length_intro_body exts n : length (intro_body authPub exts n) = (36 + length exts)%nat.
Proof using Hpub. unfold intro_body. rewrite !length_app, length_PutUint16. simpl. lia. Qed.

(** A signed body has the fields the readers look at. *)
Lemma body_fields exts n rest :
  let payload := intro_body authPub exts n ++ rest in
  at_ payload 0 = introAuthKeyTypeEd /\ be_get (slice payload 1 3) = 32 /\ slice payload 3 35 = authPub /\ at_ payload 35 = n /\
  drop 36 payload = exts ++ rest.
Proof using Hpub.
  cbv zeta. unfold intro_body. rewrite <- !app_assoc. set (tl := [n] ++ exts ++ rest).
  assert (forall k, drop (S (S (S k))) ([introAuthKeyTypeEd] ++ PutUint16 32 ++ authPub ++ tl) = drop k (authPub ++ tl)) as Hd by done.
  split_and!; [done..| | |].
  - unfold slice. rewrite (Hd 0%nat), drop_0. by rewrite take_app_length'.
  - unfold at_. rewrite <- (Nat.add_0_r 35), <- lookup_drop, (Hd 32%nat), drop_app_length' by done. done.
  - rewrite (Hd 33%nat), drop_app_ge by lia. by rewrite Hpub.
Qed.

(** A genuine signature over a body whose extensions parse is accepted. *)
Lemma signed_verifies exts n :
  key_pair authPub authPriv ->
  let payload := signEstablishIntro (intro_body authPub exts n) authPriv circNonce in
  skip_extensions (Z.to_nat n) payload 36 = Some (36 + length exts)%nat ->
  VerifyEstablishIntroPayload payload circNonce = None.
Proof using All.
  intros Hk payload Hskip. set (body := intro_body authPub exts n).
  assert (length body = 36 + length exts)%nat as Hb by apply length_intro_body.
  set (mac := sha3MAC circNonce body). assert (length mac = 32%nat) as Hm by apply sha3_length.
  set (sig := edSign authPriv (establishIntroPrefix ++ body ++ mac)). assert (length sig = 64%nat) as Hs by apply sign_length.
  assert (payload = body ++ mac ++ PutUint16 64 ++ sig) as Hp.
  { unfold payload, signEstablishIntro. fold body mac sig. unfold len. rewrite Hs. by rewrite <- app_assoc. }
  assert (length payload = 36 + length exts + 98)%nat as Hl by (rewrite Hp, !length_app, length_PutUint16; lia).
  destruct (body_fields exts n (mac ++ PutUint16 64 ++ sig)) as (F1 & F2 & F3 & F4 & _). fold body in F1, F2, F3, F4.
  rewrite <- Hp in F1, F2, F3, F4.
  unfold VerifyEstablishIntroPayload. rewrite F1, F2, F3, F4, Hskip. rewrite (proj2 (Nat.ltb_ge _ _)) by (unfold introMACLen; lia).
  cbn [negb Z.eqb Pos.eqb introAuthKeyTypeEd].
  assert (take (36 + length exts) payload = body) as -> by (rewrite Hp, <- Hb; apply take_app_length).
  assert (slice payload (36 + length exts) (36 + length exts + introMACLen) = mac) as ->.
  { unfold slice. rewrite Hp, <- Hb, drop_app_length. unfold introMACLen. rewrite take_app_length' by lia. done. }
  fold mac. rewrite Conversion.ConstantTimeCompare_refl. cbn [negb]. unfold introMACLen in *.
  rewrite !(proj2 (Nat.ltb_ge _ _)) by lia.
  assert (slice payload (36 + length exts + 32) (36 + length exts + 32 + 2) = PutUint16 64) as ->.
  { unfold slice. rewrite Hp, app_assoc, <- Hb. rewrite drop_app_length' by (rewrite length_app; lia).
    rewrite take_app_length' by (rewrite length_PutUint16; lia). done. }
  change (Z.to_nat (be_get (PutUint16 64))) with 64%nat. rewrite !(proj2 (Nat.ltb_ge _ _)) by lia. cbn [orb negb Nat.eqb].
  assert (take (36 + length exts + 32) payload = body ++ mac) as ->.
  { rewrite Hp, app_assoc. rewrite take_app_length' by (rewrite length_app; lia). done. }
  assert (slice payload (36 + length exts + 32 + 2) (36 + length exts + 32 + 2 + 64) = sig) as ->.
  { unfold slice. rewrite Hp, !app_assoc. rewrite drop_app_length' by (rewrite !length_app, length_PutUint16; lia).
    apply take_ge. lia. }
  unfold sig. by rewrite verify_sign.
Qed.

End Bodies.

Lemma clampIntroDoSUint_range v : 0 <= v -> 0 <= clampIntroDoSUint v <= introDoSMax.
Proof. intros Hv. unfold clampIntroDoSUint. case_if; bool_to_prop; unfold introDoSMax in *; lia. Qed.

Lemma clampIntroDoSUint_idem v : clampIntroDoSUint (clampIntroDoSUint v) = clampIntroDoSUint v.
Proof. unfold clampIntroDoSUint. repeat case_if; bool_to_prop; unfold introDoSMax in *; try lia; done. Qed.

Lemma dos_field_roundtrip r b :
  0 <= r -> 0 <= b -> parseIntroDoSField (encodeIntroDoSField r b) = mkExt true (clampIntroDoSUint r) (clampIntroDoSUint b).
Proof.
  intros Hr Hb. pose proof (clampIntroDoSUint_range r Hr). pose proof (clampIntroDoSUint_range b Hb).
  unfold introDoSMax in *. unfold encodeIntroDoSField.
  set (x := PutUint64 (clampIntroDoSUint r)). set (y := PutUint64 (clampIntroDoSUint b)).
  assert (length x = 8%nat /\ length y = 8%nat) as [Hx Hy] by (split; apply length_PutUint64).
  assert (be_get x = clampIntroDoSUint r /\ be_get y = clampIntroDoSUint b) as [Gx Gy]
    by (split; apply get_PutUint64; word; lia).
  destruct x as [|x0 [|x1 [|x2 [|x3 [|x4 [|x5 [|x6 [|x7 [|]]]]]]]]]; try discriminate Hx.
  destruct y as [|y0 [|y1 [|y2 [|y3 [|y4 [|y5 [|y6 [|y7 [|]]]]]]]]]; try discriminate Hy.
  cbn [app]. unfold parseIntroDoSField. set (f := 2 :: _).
  assert (len f <? 1 = false) as -> by done. change (Z.to_nat (at_ f 0)) with 2%nat. cbn [dos_params].
  change (slice f 2 (2 + introDoSParamValLen)) with [x0; x1; x2; x3; x4; x5; x6; x7].
  change (slice f (S (2 + introDoSParamValLen)) (S (2 + introDoSParamValLen) + introDoSParamValLen)) with [y0; y1; y2; y3; y4; y5; y6; y7].
  rewrite Gx, Gy, !clampIntroDoSUint_idem. reflexivity.
Qed.

(** C31: What a service builds, with or without limiter parameters, the relay accepts
    as genuine on the same circuit; it reads back the service's key and exactly
    the parameters, clamped to the admissible range. *)
Theorem establish_intro_accepted {C : IntroCrypto} {key_pair} {L : IntroCryptoLaws C key_pair} authPub authPriv circNonce dos :
  length authPub = 32%nat -> length authPriv = 64%nat -> length circNonce = 20%nat -> key_pair authPub authPriv ->
  match dos with Some (r, b) => 0 <= r /\ 0 <= b | None => True end ->
  exists payload,
    match dos with
    | Some (r, b) => BuildEstablishIntroPayloadWithDoS authPub authPriv circNonce r b
    | None => BuildEstablishIntroPayload authPub authPriv circNonce
    end = Ok payload /\
    VerifyEstablishIntroPayload payload circNonce = None /\ slice payload 3 35 = authPub /\
    ParseEstablishIntroDoSExtension payload =
      match dos with
      | Some (r, b) => mkExt true (clampIntroDoSUint r) (clampIntroDoSUint b)
      | None => no_extension
      end.
Proof.
  intros H1 H2 H3 Hk Hd. assert (check_keys authPub authPriv circNonce = None) as Hc.
  { unfold check_keys, len. by rewrite H1, H2, H3. }
  set (exts := match dos with Some (r, b) => [introDoSExtType; len (encodeIntroDoSField r b)] ++ encodeIntroDoSField r b | None => [] end).
  set (n := match dos with Some _ => 1 | None => 0 end). set (payload := signEstablishIntro (intro_body authPub exts n) authPriv circNonce).
  exists payload. split.
  { unfold payload, exts, n. destruct dos as [[r b]|]; [unfold BuildEstablishIntroPayloadWithDoS | unfold BuildEstablishIntroPayload];
      rewrite Hc; done. }
  assert (exists rest, payload = intro_body authPub exts n ++ rest) as [rest Hp]
    by (eexists; unfold payload, signEstablishIntro; rewrite <- app_assoc; done).
  destruct (body_fields authPub H1 exts n rest) as (F1 & F2 & F3 & F4 & F5). rewrite <- Hp in F1, F2, F3, F4, F5.
  assert (36 <= len payload) as Hl by (rewrite Hp; unfold len; rewrite length_app, length_intro_body by done; lia).
  assert (skip_extensions (Z.to_nat n) payload 36 = Some (36 + length exts)%nat /\
    dos_extensions (Z.to_nat n) payload 36 no_extension =
      match dos with Some (r, b) => mkExt true (clampIntroDoSUint r) (clampIntroDoSUint b) | None => no_extension end) as [Hs He].
  { unfold n, exts in *. destruct dos as [[r b]|]; [|done]. destruct Hd as [Hr Hb]. rewrite <- app_assoc in F5.
    destruct (skip_extensions_one payload 36 _ _ _ F5) as [Hs He].
    change (Z.to_nat 1) with 1%nat. rewrite Hs, He. cbn [Z.eqb Pos.eqb introDoSExtType negb Present no_extension andb].
    rewrite dos_field_roundtrip by done. by rewrite length_app. }
  split_and!; [by apply signed_verifies|done|]. unfold ParseEstablishIntroDoSExtension. rewrite F1, F2, F4.
  rewrite (proj2 (Z.ltb_ge _ _)) by lia. exact He.
Qed.

(** A stand-in for the cryptography: the hash is a constant, and a signature is
    accepted when it is 64 bytes long. *)
Definition sample_crypto : IntroCrypto :=
  {| sha3_256 := fun _ => zeros 32; edSign := fun _ _ => zeros 64; edVerify := fun _ _ s => (length s =? 64)%nat |}.

Lemma sample_crypto_laws : IntroCryptoLaws sample_crypto (fun _ _ => True).
Proof. by constructor. Qed.

Lemma establish_intro_accepted_witness :
  exists payload, BuildEstablishIntroPayloadWithDoS (H := sample_crypto) (zeros 32) (zeros 64) (zeros 20) 5 (2 ^ 40) = Ok payload /\
    ParseEstablishIntroDoSExtension payload = mkExt true 5 introDoSMax.
Proof.
  destruct (establish_intro_accepted (L := sample_crypto_laws) (zeros 32) (zeros 64) (zeros 20) (Some (5, 2 ^ 40))
    eq_refl eq_refl eq_refl I ltac:(split; discriminate)) as (payload & H1 & _ & _ & H2).
  exists payload. split; [exact H1 | exact H2].
Defined.

(** The limiter lets a full burst pass at once, refuses the next request, and
    after 40 milliseconds at 25 per second allows exactly one more. *)
Example limiter_burst :
  let b := newIntroDoSBucket (mkDoS true introDoSDefaultRate introDoSDefaultBurst) 0 in
  let after := Nat.iter 200 (fun '(b, n) => let '(b, ok) := allowIntro2 b 0 in (b, if ok : bool then S n else n)) (b, O) in
  after.2 = 200%nat /\ (allowIntro2 after.1 0).2 = false /\
  (allowIntro2 after.1 40000000).2 = true /\ (allowIntro2 (allowIntro2 after.1 40000000).1 40000000).2 = false.
Proof. vm_compute. repeat split; reflexivity. Qed.

End IntroPoint.
