(* ===== verification/DoSGuard.v ===== *)
(** * The relay's defence against floods (pkg/relay/dos.go)

    Connections and circuits are limited per address, streams per circuit: counts and
    token buckets, and a period of defence after a bucket ran empty.  Token counts are
    float64, as in [IntroPoint.v]; times are nanoseconds since 1970. *)

From Stdlib Require Import String SpecFloat.
From S2P Require Import Prelude GoStrings Breaker IntroPoint.
Import GoStrings(lit, hex_encode, ToUpper, TrimSpace).

Module DoSGuard.
Import Breaker(float64, of_int) IntroPoint(fadd, fsub, fmul, flt, seconds).

Inductive error := errDoSConnection | errDoSConnectRate | errDoSCircuit | errDoSStreamRefuse | errDoSStreamClose.

Definition Second : Z := 10 ^ 9.
Definition Hour : Z := 3600 * Second.
(** [time.Time{}], the first of January of year 1. *)
Definition zeroTime : Z := -62135596800 * Second.

Definition dosConnConnectRateDefault : Z := 20.
Definition dosConnConnectBurstDefault : Z := 40.
Definition dosConnConnectDefenseDefault : Z := 24 * Hour.
Definition dosParamMax : Z := 2 ^ 31 - 1.
Definition dosConnDefenseMinSec : Z := 10.
Definition dosStreamRateDefault : Z := 100.
Definition dosStreamBurstDefault : Z := 300.
Definition dosStreamDefenseNone : Z := 1.
Definition dosStreamDefenseRefuse : Z := 2.
Definition dosStreamDefenseClose : Z := 3.
Definition dosCircDefenseNone : Z := 1.
Definition dosCircDefenseRefuse : Z := 2.
Definition DoSEnabledAuto : Z := -1.
Definition DoSEnabledOff : Z := 0.
Definition DoSEnabledOn : Z := 1.

Record DoSConfig := mkDoSConfig {
  CircuitEnabled : bool; ConnEnabled : bool; StreamEnabled : bool; RefuseSingleHop : bool;
  MinConnections : Z; Rate : Z; Burst : Z; Defense : Z; CircDefense : Z; MaxConcurrent : Z;
  StreamRate : Z; StreamBurst : Z; StreamDefense : Z;
}.

(** The options of the relay's configuration file. *)
Record Options := mkOptions {
  DoSCircuitCreationEnabled : Z; DoSConnectionEnabled : Z; DoSStreamCreationEnabled : Z; DoSRefuseSingleHopClient : bool;
  DoSCircuitCreationMinConnections : Z; DoSCircuitCreationRate : Z; DoSCircuitCreationBurst : Z; DoSCircuitCreationDefenseTime : Z;
  DoSConnectionMaxConcurrentCount : Z; DoSStreamCreationRate : Z; DoSStreamCreationBurst : Z; DoSStreamCreationDefenseType : Z;
  DoSCircuitCreationDefenseType : Z; DoSConnectionConnectRate : Z; DoSConnectionConnectBurst : Z; DoSConnectionConnectDefenseTime : Z;
}.

Record dosIP := mkIP { conns : Z; tokens : float64; lastRefill : Z; markedUntil : Z; connTokens : float64; connLast : Z; connMarked : Z }.
Record dosCircStream := mkCircStream { sTokens : float64; sLast : Z }.

(** The limits in force, the configured ones among them, apart from what is counted. *)
Record limits := mkLimits {
  circOn : bool; connOn : bool; streamOn : bool; refuseHop : bool; circMode : Z; connMode : Z; streamMode : Z;
  minConns : Z; rate : float64; burst : float64; defense : Z; maxConns : Z;
  connRate : float64; connBurst : float64; connDef : Z; connRateCfg : Z; connBurstCfg : Z; connDefCfg : Z;
  streamRate : float64; streamBurst : float64; streamDef : Z; streamRateCfg : Z; streamBurstCfg : Z; streamDefCfg : Z;
  circDef : Z; circDefCfg : Z;
}.
Record guard := mkGuard {
  lim : limits; ips : gmap bytes dosIP; circStreams : gmap Z dosCircStream;
  knownRSA : gset bytes; knownEd : gset bytes; lastPurge : Z;
}.

Definition set_lim (l : limits) (g : guard) := mkGuard l (ips g) (circStreams g) (knownRSA g) (knownEd g) (lastPurge g).
Definition set_ips (m : gmap bytes dosIP) (g : guard) := mkGuard (lim g) m (circStreams g) (knownRSA g) (knownEd g) (lastPurge g).
Definition set_circStreams (m : gmap Z dosCircStream) (g : guard) := mkGuard (lim g) (ips g) m (knownRSA g) (knownEd g) (lastPurge g).
Definition put_ip (ip : bytes) (st : dosIP) (g : guard) := set_ips (<[ip := st]> (ips g)) g.

(** ** Settings *)

Definition at_least_1 (v def : Z) : Z := if v <? 1 then def else v.
Definition in_range (v lo hi def : Z) : Z := if (v <? lo) || (hi <? v) then def else v.
Definition mode_of (b : bool) : Z := if b then DoSEnabledOn else DoSEnabledOff.

Definition NewDoSGuard (cfg : DoSConfig) (now : Z) : guard :=
  mkGuard
    (mkLimits (CircuitEnabled cfg) (ConnEnabled cfg) (StreamEnabled cfg) (RefuseSingleHop cfg)
       (mode_of (CircuitEnabled cfg)) (mode_of (ConnEnabled cfg)) (mode_of (StreamEnabled cfg))
       (at_least_1 (MinConnections cfg) 3) (of_int (at_least_1 (Rate cfg) 3)) (of_int (at_least_1 (Burst cfg) 90))
       (if Defense cfg <=? 0 then Hour else Defense cfg) (at_least_1 (MaxConcurrent cfg) 100)
       (of_int dosConnConnectRateDefault) (of_int dosConnConnectBurstDefault) dosConnConnectDefenseDefault 0 0 0
       (of_int (at_least_1 (StreamRate cfg) dosStreamRateDefault)) (of_int (at_least_1 (StreamBurst cfg) dosStreamBurstDefault))
       (in_range (StreamDefense cfg) dosStreamDefenseNone dosStreamDefenseClose dosStreamDefenseRefuse) 0 0 0
       (in_range (CircDefense cfg) dosCircDefenseNone dosCircDefenseRefuse dosCircDefenseRefuse) 0)
    ∅ ∅ ∅ ∅ now.

Definition NewDoSGuardFromConfig (o : Options) (now : Z) : guard :=
  let g := NewDoSGuard (mkDoSConfig (DoSCircuitCreationEnabled o =? DoSEnabledOn) (DoSConnectionEnabled o =? DoSEnabledOn)
    (DoSStreamCreationEnabled o =? DoSEnabledOn) (DoSRefuseSingleHopClient o) (DoSCircuitCreationMinConnections o) (DoSCircuitCreationRate o)
    (DoSCircuitCreationBurst o) (DoSCircuitCreationDefenseTime o) (DoSCircuitCreationDefenseType o) (DoSConnectionMaxConcurrentCount o)
    (DoSStreamCreationRate o) (DoSStreamCreationBurst o) (DoSStreamCreationDefenseType o)) now in
  let l := lim g in
  let pick v def := if 0 <? v then of_int v else of_int def in
  set_lim
    (mkLimits (circOn l) (connOn l) (streamOn l) (refuseHop l)
       (DoSCircuitCreationEnabled o) (DoSConnectionEnabled o) (DoSStreamCreationEnabled o)
       (minConns l) (rate l) (burst l) (defense l) (maxConns l)
       (pick (DoSConnectionConnectRate o) dosConnConnectRateDefault) (pick (DoSConnectionConnectBurst o) dosConnConnectBurstDefault)
       (if 0 <? DoSConnectionConnectDefenseTime o then DoSConnectionConnectDefenseTime o else dosConnConnectDefenseDefault)
       (DoSConnectionConnectRate o) (DoSConnectionConnectBurst o) (DoSConnectionConnectDefenseTime o)
       (pick (DoSStreamCreationRate o) dosStreamRateDefault) (pick (DoSStreamCreationBurst o) dosStreamBurstDefault)
       (in_range (DoSStreamCreationDefenseType o) dosStreamDefenseNone dosStreamDefenseClose dosStreamDefenseRefuse)
       (DoSStreamCreationRate o) (DoSStreamCreationBurst o) (DoSStreamCreationDefenseType o)
       (in_range (DoSCircuitCreationDefenseType o) dosCircDefenseNone dosCircDefenseRefuse dosCircDefenseRefuse)
       (DoSCircuitCreationDefenseType o)) g.

Definition clampDoSParam (params : option (gmap string Z)) (key : string) (def min max : Z) : Z :=
  match params with
  | None => def
  | Some params =>
      match params !! key with
      | None => def
      | Some v => if v <? min then min else if max <? v then max else v
      end
  end.

Definition dosModeEnabled (mode : Z) (params : option (gmap string Z)) (key : string) : bool :=
  if mode =? DoSEnabledOn then true
  else if mode =? DoSEnabledOff then false
  else clampDoSParam params key 0 0 1 =? 1.

Definition ApplyConsensus (g : guard) (params : option (gmap string Z)) : guard :=
  let l := lim g in
  let follow cfg key def := if 0 <? cfg then cfg else clampDoSParam params key def 1 dosParamMax in
  let choice cfg key def lo hi := if (lo <=? cfg) && (cfg <=? hi) then cfg else clampDoSParam params key def lo hi in
  set_lim
    (mkLimits (dosModeEnabled (circMode l) params "DoSCircuitCreationEnabled") (dosModeEnabled (connMode l) params "DoSConnectionEnabled")
       (dosModeEnabled (streamMode l) params "DoSStreamCreationEnabled") (refuseHop l) (circMode l) (connMode l) (streamMode l)
       (minConns l) (rate l) (burst l) (defense l) (maxConns l)
       (of_int (follow (connRateCfg l) "DoSConnectionConnectRate" dosConnConnectRateDefault))
       (of_int (follow (connBurstCfg l) "DoSConnectionConnectBurst" dosConnConnectBurstDefault))
       (if 0 <? connDefCfg l then connDefCfg l
        else clampDoSParam params "DoSConnectionConnectDefenseTimePeriod" (Z.quot dosConnConnectDefenseDefault Second) dosConnDefenseMinSec dosParamMax * Second)
       (connRateCfg l) (connBurstCfg l) (connDefCfg l)
       (of_int (follow (streamRateCfg l) "DoSStreamCreationRate" dosStreamRateDefault))
       (of_int (follow (streamBurstCfg l) "DoSStreamCreationBurst" dosStreamBurstDefault))
       (choice (streamDefCfg l) "DoSStreamCreationDefenseType" dosStreamDefenseRefuse dosStreamDefenseNone dosStreamDefenseClose)
       (streamRateCfg l) (streamBurstCfg l) (streamDefCfg l)
       (choice (circDefCfg l) "DoSCircuitCreationDefenseType" dosCircDefenseRefuse dosCircDefenseNone dosCircDefenseRefuse)
       (circDefCfg l)) g.

(** ** Known relays *)

Definition rsa_name (fp : bytes) : option bytes := let fp := ToUpper (TrimSpace fp) in if (length fp =? 40)%nat then Some fp else None.
Definition ed_name (key : bytes) : option bytes := if (length key =? 32)%nat then Some (ToUpper (hex_encode key)) else None.

Definition SetKnownRelayIDs (g : guard) (rsaHex edKeys : list bytes) : guard :=
  let rsa : gset bytes := list_to_set (omap rsa_name rsaHex) in
  let ed : gset bytes := list_to_set (omap ed_name edKeys) in
  if bool_decide (rsa = ∅) && bool_decide (ed = ∅) then g
  else mkGuard (lim g) (ips g) (circStreams g) rsa ed (lastPurge g).

Definition KnownRelay (g : guard) (rsaHex edID : bytes) : bool :=
  if bool_decide (knownRSA g = ∅) && bool_decide (knownEd g = ∅) then true
  else match rsa_name rsaHex with Some fp => bool_decide (fp ∈ knownRSA g) | None => false end ||
       match ed_name edID with Some key => bool_decide (key ∈ knownEd g) | None => false end.

(** ** Buckets *)

Definition refill (last : Z) (t r b : float64) (now : Z) : float64 * Z :=
  let elapsed := seconds (now - last) in
  if flt (of_int 0) elapsed then
    let t := fadd t (fmul elapsed r) in (if flt b t then b else t, now)
  else (t, last).

Definition refillLocked (l : limits) (st : dosIP) (now : Z) : dosIP :=
  let '(t, last) := refill (lastRefill st) (tokens st) (rate l) (burst l) now in
  mkIP (conns st) t last (markedUntil st) (connTokens st) (connLast st) (connMarked st).
Definition refillConnLocked (l : limits) (st : dosIP) (now : Z) : dosIP :=
  let '(t, last) := refill (connLast st) (connTokens st) (connRate l) (connBurst l) now in
  mkIP (conns st) (tokens st) (lastRefill st) (markedUntil st) t last (connMarked st).

Definition getLocked (g : guard) (ip : bytes) (now : Z) : dosIP :=
  match ips g !! ip with Some st => st | None => mkIP 0 (burst (lim g)) now zeroTime (connBurst (lim g)) now zeroTime end.

Definition stale (l : limits) (now : Z) (st : dosIP) : bool :=
  (conns st =? 0) && (markedUntil st <? now) && (connMarked st <? now) && (defense l <? now - lastRefill st).
Definition maybePurgeLocked (g : guard) (now : Z) : guard :=
  if now - lastPurge g <? 10 * 60 * Second then g
  else mkGuard (lim g) (filter (fun '(_, st) => stale (lim g) now st = false) (ips g)) (circStreams g) (knownRSA g) (knownEd g) now.

(** ** Events *)

Definition set_conns (n : Z) (st : dosIP) := mkIP n (tokens st) (lastRefill st) (markedUntil st) (connTokens st) (connLast st) (connMarked st).

Definition OnConnect (g : guard) (ip : bytes) (now : Z) : guard * option error :=
  if (length ip =? 0)%nat then (g, None)
  else
    let g := maybePurgeLocked g now in
    let st := getLocked g ip now in
    let l := lim g in
    if connOn l then
      if maxConns l <=? conns st then (put_ip ip st g, Some errDoSConnection)
      else if now <? connMarked st then (put_ip ip st g, Some errDoSConnectRate)
      else
        let st := refillConnLocked l st now in
        if flt (connTokens st) (of_int 1) then
          (put_ip ip (mkIP (conns st) (tokens st) (lastRefill st) (markedUntil st) (connTokens st) (connLast st) (now + connDef l)) g, Some errDoSConnectRate)
        else
          (put_ip ip (mkIP (conns st + 1) (tokens st) (lastRefill st) (markedUntil st) (fsub (connTokens st) (of_int 1)) (connLast st) (connMarked st)) g, None)
    else (put_ip ip (set_conns (conns st + 1) st) g, None).

Definition OnDisconnect (g : guard) (ip : bytes) (now : Z) : guard :=
  if (length ip =? 0)%nat then g
  else match ips g !! ip with
       | None => g
       | Some st =>
           let n := conns st - 1 in
           let st := set_conns (if n <? 0 then 0 else n) st in
           if (conns st =? 0) && (markedUntil st <? now) && (connMarked st <? now) then set_ips (delete ip (ips g)) g
           else put_ip ip st g
       end.

Definition AllowCreate2 (g : guard) (ip : bytes) (now : Z) : guard * option error :=
  if negb (circOn (lim g)) || (length ip =? 0)%nat then (g, None)
  else
    let st := getLocked g ip now in
    let l := lim g in
    if negb (circDef l =? dosCircDefenseNone) && (now <? markedUntil st) then (put_ip ip st g, Some errDoSCircuit)
    else if conns st <? minConns l then (put_ip ip st g, None)
    else
      let st := refillLocked l st now in
      if SFleb (of_int 1) (tokens st) then
        (put_ip ip (mkIP (conns st) (fsub (tokens st) (of_int 1)) (lastRefill st) (markedUntil st) (connTokens st) (connLast st) (connMarked st)) g, None)
      else if circDef l =? dosCircDefenseNone then (put_ip ip st g, None)
      else (put_ip ip (mkIP (conns st) (tokens st) (lastRefill st) (now + defense l) (connTokens st) (connLast st) (connMarked st)) g, Some errDoSCircuit).

Definition getCircStreamLocked (g : guard) (circID now : Z) : dosCircStream :=
  match circStreams g !! circID with Some st => st | None => mkCircStream (streamBurst (lim g)) now end.

Definition AllowBeginOrResolve (g : guard) (circID now : Z) : guard * option error :=
  if negb (streamOn (lim g)) || (circID =? 0) then (g, None)
  else
    let l := lim g in
    let st := getCircStreamLocked g circID now in
    let '(t, last) := refill (sLast st) (sTokens st) (streamRate l) (streamBurst l) now in
    let put st := set_circStreams (<[circID := st]> (circStreams g)) g in
    if SFleb (of_int 1) t then (put (mkCircStream (fsub t (of_int 1)) last), None)
    else (put (mkCircStream t last),
          if streamDef l =? dosStreamDefenseNone then None
          else if streamDef l =? dosStreamDefenseClose then Some errDoSStreamClose else Some errDoSStreamRefuse).

Definition OnCircuitClose (g : guard) (circID : Z) : guard :=
  if circID =? 0 then g else set_circStreams (delete circID (circStreams g)) g.

(** ** Lemmas *)

Definition count (g : guard) (ip : bytes) : Z := from_option conns 0 (ips g !! ip).

Lemma getLocked_conns g ip now : conns (getLocked g ip now) = count g ip.
Proof. unfold getLocked, count. by destruct (ips g !! ip). Qed.

Lemma count_put g ip st ip' : count (put_ip ip st g) ip' = if bool_decide (ip = ip') then conns st else count g ip'.
Proof.
  unfold count, put_ip, set_ips. cbn [ips]. case_bool_decide as Heq; [subst; by rewrite lookup_insert_eq|by rewrite lookup_insert_ne].
Qed.

Lemma refillConn_conns l st now : conns (refillConnLocked l st now) = conns st /\ connMarked (refillConnLocked l st now) = connMarked st /\ markedUntil (refillConnLocked l st now) = markedUntil st.
Proof. unfold refillConnLocked. by destruct (refill _ _ _ _ _). Qed.

Lemma refill_conns l st now : conns (refillLocked l st now) = conns st /\ connMarked (refillLocked l st now) = connMarked st /\ markedUntil (refillLocked l st now) = markedUntil st.
Proof. unfold refillLocked. by destruct (refill _ _ _ _ _). Qed.

Lemma purge_lookup g now ip : ips (maybePurgeLocked g now) !! ip = ips g !! ip \/
  exists st, ips g !! ip = Some st /\ stale (lim g) now st = true /\ ips (maybePurgeLocked g now) !! ip = None.
Proof.
  unfold maybePurgeLocked. destruct (_ <? _); [by left|]. cbn [ips]. destruct (ips g !! ip) as [st|] eqn:E.
  - destruct (stale (lim g) now st) eqn:Hs; [right|left].
    + exists st. split_and!; [done|done|]. apply map_lookup_filter_None. right. intros st' Hst. rewrite E in Hst. injection Hst as <-. by rewrite Hs.
    + by apply map_lookup_filter_Some.
  - left. apply map_lookup_filter_None. by left.
Qed.

Lemma purge_lim g now : lim (maybePurgeLocked g now) = lim g.
Proof. unfold maybePurgeLocked. by destruct (_ <? _). Qed.

Lemma purge_count g now ip : count (maybePurgeLocked g now) ip = count g ip.
Proof.
  unfold count. destruct (purge_lookup g now ip) as [-> | (st & -> & Hs & ->)]; [done|]. unfold stale in Hs. rewrite !andb_true_iff, Z.eqb_eq in Hs. cbn. lia.
Qed.

(** *** Events *)

Inductive event :=
| Connect (ip : bytes) | Disconnect (ip : bytes) | Create2 (ip : bytes) | BeginOrResolve (circID : Z) | CircuitClosed (circID : Z)
| Consensus (params : option (gmap string Z)) | Relays (rsa ed : list bytes).

Definition handle (g : guard) (e : event) (now : Z) : guard * option error :=
  match e with
  | Connect ip => OnConnect g ip now
  | Disconnect ip => (OnDisconnect g ip now, None)
  | Create2 ip => AllowCreate2 g ip now
  | BeginOrResolve c => AllowBeginOrResolve g c now
  | CircuitClosed c => (OnCircuitClose g c, None)
  | Consensus p => (ApplyConsensus g p, None)
  | Relays rsa ed => (SetKnownRelayIDs g rsa ed, None)
  end.

(** The connections that are open: those accepted and not yet closed. *)
Definition bump (o : bytes -> Z) (ip : bytes) (n : Z) : bytes -> Z := fun ip' => if bool_decide (ip = ip') then o ip' + n else o ip'.
Definition opened (e : event) (r : option error) (o : bytes -> Z) : bytes -> Z :=
  match e with
  | Connect ip => match r with None => bump o ip 1 | Some _ => o end
  | Disconnect ip => bump o ip (-1)
  | _ => o
  end.
(** Addresses are known, and only open connections close. *)
Definition legal (e : event) (o : bytes -> Z) : Prop :=
  match e with Connect ip => ip <> [] | Disconnect ip => ip <> [] /\ 0 < o ip | _ => True end.

(** Events before the time [m], in any order. *)
Inductive run (m : Z) : guard -> (bytes -> Z) -> guard -> (bytes -> Z) -> Prop :=
| run_nil g o : run m g o g o
| run_step g o e now g1 r g2 o2 : now < m -> legal e o -> handle g e now = (g1, r) -> run m g1 (opened e r o) g2 o2 -> run m g o g2 o2.

Lemma empty_false {A} (l : list A) : l <> [] -> (length l =? 0)%nat = false.
Proof. by destruct l. Qed.

Lemma connect_count g ip now g' r ip' : ip <> [] -> OnConnect g ip now = (g', r) ->
  count g' ip' = opened (Connect ip) r (count g) ip'.
Proof.
  intros Hip. unfold OnConnect. rewrite (empty_false _ Hip). set (p := maybePurgeLocked g now). set (st := getLocked p ip now).
  assert (conns st = count g ip) as Hc by (unfold st, p; by rewrite getLocked_conns, purge_count).
  pose proof (purge_count g now ip') as Hp. fold p in Hp. destruct (refillConn_conns (lim p) st now) as (Hrc & _ & _).
  assert (forall st', conns st' = conns st -> count (put_ip ip st' p) ip' = count g ip') as Hsame.
  { intros st' He. rewrite count_put. case_bool_decide as Heq; [subst ip'; by rewrite He|done]. }
  assert (forall st', conns st' = conns st + 1 -> count (put_ip ip st' p) ip' = bump (count g) ip 1 ip') as Hmore.
  { intros st' He. rewrite count_put. unfold bump. case_bool_decide as Heq; [subst ip'; lia|done]. }
  destruct (connOn _); [|intros [= <- <-]; by apply Hmore]. destruct (_ <=? _); [intros [= <- <-]; by apply Hsame|].
  destruct (_ <? _); [intros [= <- <-]; by apply Hsame|]. destruct (flt _ _); intros [= <- <-]; [by apply Hsame|apply Hmore; cbn; lia].
Qed.

Lemma disconnect_count g ip now ip' : ip <> [] -> 0 < count g ip -> count (OnDisconnect g ip now) ip' = bump (count g) ip (-1) ip'.
Proof.
  intros Hip Ho. unfold OnDisconnect. rewrite (empty_false _ Hip). unfold count in Ho. destruct (ips g !! ip) as [st|] eqn:E; [|done]. cbn [from_option] in Ho.
  rewrite (proj2 (Z.ltb_ge (conns st - 1) 0)) by lia. cbn [conns set_conns markedUntil connMarked].
  assert (count g ip = conns st) as Hc by (unfold count; by rewrite E).
  destruct (Z.eqb_spec (conns st - 1) 0) as [Hz|Hz]; cbn [andb].
  2: { rewrite count_put. unfold bump. case_bool_decide as Heq; [subst ip'; cbn; lia|done]. }
  destruct (_ && _); [|rewrite count_put; unfold bump; case_bool_decide as Heq; [subst ip'; cbn; lia|done]].
  unfold bump, count, set_ips. cbn [ips]. case_bool_decide as Heq; [subst ip'; rewrite lookup_delete_eq, E; cbn; lia|by rewrite lookup_delete_ne].
Qed.

Lemma create2_count g ip now g' r ip' : AllowCreate2 g ip now = (g', r) -> count g' ip' = count g ip'.
Proof.
  unfold AllowCreate2. destruct (_ || _); [by intros [= <- _]|]. set (st := getLocked g ip now). assert (conns st = count g ip) as Hc by apply getLocked_conns.
  assert (forall st', conns st' = conns st -> count (put_ip ip st' g) ip' = count g ip') as Hsame.
  { intros st' He. rewrite count_put. case_bool_decide as Heq; [subst ip'; by rewrite He|done]. }
  destruct (refill_conns (lim g) st now) as (Hr & _ & _).
  destruct (_ && _); [intros [= <- _]; by apply Hsame|]. destruct (_ <? _); [intros [= <- _]; by apply Hsame|].
  destruct (SFleb _ _); [intros [= <- _]; by apply Hsame|]. destruct (_ =? _); intros [= <- _]; by apply Hsame.
Qed.

Definition per_address (e : event) : bool := match e with Connect _ | Disconnect _ | Create2 _ => true | _ => false end.

Lemma other_ips g e now g' r : per_address e = false -> handle g e now = (g', r) -> ips g' = ips g.
Proof.
  intros He Hh. destruct e; try discriminate He; cbn [handle] in Hh.
  - unfold AllowBeginOrResolve in Hh. destruct (_ || _); [by injection Hh as <- _|]. destruct (refill _ _ _ _ _). by destruct (SFleb _ _); injection Hh as <- _.
  - injection Hh as <- _. unfold OnCircuitClose. by destruct (_ =? 0).
  - by injection Hh as <- _.
  - injection Hh as <- _. unfold SetKnownRelayIDs. by destruct (_ && _).
Qed.

Lemma handle_count g e now g' r ip : legal e (count g) -> handle g e now = (g', r) -> count g' ip = opened e r (count g) ip.
Proof.
  intros Hl Hh. destruct (per_address e) eqn:He; [|unfold count; rewrite (other_ips _ _ _ _ _ He Hh); by destruct e].
  destruct e as [ip'|ip'|ip'| | | |]; try discriminate He; cbn [legal handle] in *.
  - by apply (connect_count g ip' now g' r ip).
  - destruct Hl as [Hne Ho]. injection Hh as <- <-. by apply disconnect_count.
  - by apply (create2_count g ip' now g' r).
Qed.

Lemma opened_ext e r o o' : (forall ip, o ip = o' ip) -> forall ip, opened e r o ip = opened e r o' ip.
Proof. intros Ho ip. unfold opened, bump. destruct e; try apply Ho; [destruct r; [apply Ho|]|]; case_bool_decide; by rewrite Ho. Qed.

Lemma legal_ext e o o' : (forall ip, o ip = o' ip) -> legal e o -> legal e o'.
Proof. intros Ho. destruct e; cbn; [done| |done..]. by rewrite Ho. Qed.

Lemma run_count m g o g' o' : run m g o g' o' -> (forall ip, count g ip = o ip) -> forall ip, count g' ip = o' ip.
Proof.
  induction 1 as [|g o e now g1 r g2 o2 _ Hl Hh _ IH]; intros Hc; [done|]. apply IH. intros ip. rewrite (handle_count g e now g1 r).
  - by apply opened_ext.
  - by apply (legal_ext e o).
  - done.
Qed.

(** *** Marks *)

(** The mark of an address in one of the two defences. *)
Definition mark (sel : dosIP -> Z) (g : guard) (ip : bytes) : option Z := sel <$> ips g !! ip.
Definition is_mark (sel : dosIP -> Z) : Prop := sel = connMarked \/ sel = markedUntil.

(** A mark that is still ahead stays where it is, or is moved ahead. *)
Definition keeps (sel : dosIP -> Z) (g g' : guard) (ip : bytes) (m : Z) : Prop :=
  (exists k, m <= k /\ mark sel g ip = Some k) -> exists k, m <= k /\ mark sel g' ip = Some k.

Lemma mark_put sel g ip st ip' : mark sel (put_ip ip st g) ip' = if bool_decide (ip = ip') then Some (sel st) else mark sel g ip'.
Proof. unfold mark, put_ip, set_ips. cbn [ips]. case_bool_decide as Heq; [subst; by rewrite lookup_insert_eq|by rewrite lookup_insert_ne]. Qed.

Lemma keeps_put sel g ip st ip' m : (mark sel g ip = None \/ forall k, mark sel g ip = Some k -> m <= k -> m <= sel st) -> keeps sel g (put_ip ip st g) ip' m.
Proof.
  intros Hs (k & Hk & Hm). rewrite mark_put. case_bool_decide as Heq; [subst ip'|by exists k]. destruct Hs as [Hn|Hs]; [congruence|]. exists (sel st). split; [by apply (Hs k)|done].
Qed.

Lemma getLocked_mark sel g ip now k : mark sel g ip = Some k -> sel (getLocked g ip now) = k.
Proof. unfold mark, getLocked. destruct (ips g !! ip); [|done]. by intros [= <-]. Qed.

Lemma purge_keeps sel g now ip m : is_mark sel -> now < m -> keeps sel g (maybePurgeLocked g now) ip m.
Proof.
  intros Hsel Hn (k & Hk & Hm). exists k. split; [done|]. unfold mark in *. destruct (purge_lookup g now ip) as [-> | (st & E & Hs & _)]; [done|].
  rewrite E in Hm. injection Hm as <-. unfold stale in Hs. rewrite !andb_true_iff, !Z.ltb_lt in Hs. destruct Hsel as [-> | ->]; lia.
Qed.

Lemma connect_keeps sel g ip0 now g' r ip m : is_mark sel -> now < m -> OnConnect g ip0 now = (g', r) -> keeps sel g g' ip m.
Proof.
  intros Hsel Hn Hc Hpre. unfold OnConnect in Hc. destruct (length ip0 =? 0)%nat; [by injection Hc as <- _|].
  apply (purge_keeps sel g now ip m Hsel Hn) in Hpre. set (p := maybePurgeLocked g now) in *. set (st := getLocked p ip0 now) in Hc.
  destruct (refillConn_conns (lim p) st now) as (_ & Hr1 & Hr2). revert Hpre. change (keeps sel p g' ip m).
  assert (forall st', connMarked st' = connMarked st -> markedUntil st' = markedUntil st -> keeps sel p (put_ip ip0 st' p) ip m) as Hsame.
  { intros st' E1 E2. apply keeps_put. right. intros k Hk Hm. rewrite <- (getLocked_mark sel p ip0 now k Hk) in Hm. destruct Hsel as [-> | ->]; fold st in Hm; lia. }
  destruct (connOn _); [|injection Hc as <- _; by apply Hsame]. destruct (_ <=? _); [injection Hc as <- _; by apply Hsame|].
  destruct (Z.ltb_spec now (connMarked st)) as [|Hge]; [injection Hc as <- _; by apply Hsame|]. destruct (flt _ _); injection Hc as <- _; [|by apply Hsame].
  apply keeps_put. right. intros k Hk Hm. rewrite <- (getLocked_mark sel p ip0 now k Hk) in Hm. fold st in Hm. destruct Hsel as [-> | ->]; cbn [connMarked markedUntil]; lia.
Qed.

Lemma disconnect_keeps sel g ip0 now ip m : is_mark sel -> now < m -> keeps sel g (OnDisconnect g ip0 now) ip m.
Proof.
  intros Hsel Hn. unfold OnDisconnect. destruct (_ =? 0)%nat; [by intros ?|]. destruct (ips g !! ip0) as [st|] eqn:E; [|by intros ?].
  cbn [conns set_conns markedUntil connMarked]. set (st' := set_conns _ st).
  assert (mark sel g ip0 = Some (sel st)) as Hm0 by (unfold mark; by rewrite E).
  destruct (_ && _) eqn:Hd.
  - rewrite !andb_true_iff, !Z.ltb_lt in Hd. intros (k & Hk & Hm). exists k. split; [done|]. unfold mark, set_ips in *. cbn [ips].
    destruct (decide (ip0 = ip)) as [->|]; [|by rewrite lookup_delete_ne]. rewrite E in Hm. injection Hm as <-. destruct Hsel as [-> | ->]; lia.
  - apply keeps_put. right. intros k Hk Hm. rewrite Hm0 in Hk. injection Hk as <-. destruct Hsel as [-> | ->]; exact Hm.
Qed.

Lemma create2_keeps sel g ip0 now g' r ip m : is_mark sel -> now < m -> AllowCreate2 g ip0 now = (g', r) -> keeps sel g g' ip m.
Proof.
  intros Hsel Hn Hc. unfold AllowCreate2 in Hc. destruct (_ || _); [by injection Hc as <- _; intros ?|]. set (st := getLocked g ip0 now) in Hc.
  destruct (refill_conns (lim g) st now) as (_ & Hr1 & Hr2).
  assert (forall st', connMarked st' = connMarked st -> markedUntil st <= markedUntil st' \/ ~ m <= markedUntil st -> keeps sel g (put_ip ip0 st' g) ip m) as Hsame.
  { intros st' E1 E2. apply keeps_put. right. intros k Hk Hm. rewrite <- (getLocked_mark sel g ip0 now k Hk) in Hm. destruct Hsel as [-> | ->]; fold st in Hm; lia. }
  destruct (_ && _) eqn:Hmk; [injection Hc as <- _; apply Hsame; [done|lia]|]. destruct (_ <? minConns _); [injection Hc as <- _; apply Hsame; [done|lia]|].
  destruct (SFleb _ _); [injection Hc as <- _; apply Hsame; cbn [connMarked markedUntil]; [done|lia]|]. destruct (_ =? dosCircDefenseNone); injection Hc as <- _; [apply Hsame; [done|lia]|].
  apply Hsame; cbn [connMarked markedUntil]; [done|]. cbn [negb andb] in Hmk. apply Z.ltb_ge in Hmk. lia.
Qed.

Lemma handle_keeps sel g e now g' r ip m : is_mark sel -> now < m -> handle g e now = (g', r) -> keeps sel g g' ip m.
Proof.
  intros Hsel Hn Hh. destruct (per_address e) eqn:He; [|intros Hk; unfold keeps, mark in *; by rewrite (other_ips _ _ _ _ _ He Hh)].
  destruct e as [ip'|ip'|ip'| | | |]; try discriminate He; cbn [handle] in Hh.
  - by apply (connect_keeps sel g ip' now g' r).
  - injection Hh as <- <-. by apply disconnect_keeps.
  - by apply (create2_keeps sel g ip' now g' r).
Qed.

Lemma run_keeps sel m g o g' o' ip : is_mark sel -> run m g o g' o' -> keeps sel g g' ip m.
Proof.
  intros Hsel. induction 1 as [|g o e now g1 r g2 o2 Hn _ Hh _ IH]; [by intros ?|]. intros Hk. apply IH. by apply (handle_keeps sel g e now g1 r).
Qed.

Lemma marked_refused g ip now m : ip <> [] -> now < m -> (exists k, m <= k /\ mark connMarked g ip = Some k) -> connOn (lim g) = true ->
  exists e, snd (OnConnect g ip now) = Some e.
Proof.
  intros Hip Hn Hk Hon. unfold OnConnect. rewrite (empty_false _ Hip), purge_lim, Hon.
  destruct (purge_keeps connMarked g now ip m ltac:(by left) Hn Hk) as (k & Hmk & Hm). rewrite (getLocked_mark connMarked _ _ now k Hm).
  destruct (_ <=? _); [by eexists|]. rewrite (proj2 (Z.ltb_lt now k)) by lia. by eexists.
Qed.

Lemma marked_refused_create g ip now m : ip <> [] -> now < m -> (exists k, m <= k /\ mark markedUntil g ip = Some k) -> circOn (lim g) = true ->
  circDef (lim g) <> dosCircDefenseNone -> snd (AllowCreate2 g ip now) = Some errDoSCircuit.
Proof.
  intros Hip Hn (k & Hmk & Hm) Hon Hd. unfold AllowCreate2. rewrite (empty_false _ Hip), Hon. cbn [negb orb].
  rewrite (getLocked_mark markedUntil _ _ now k Hm), (proj2 (Z.eqb_neq _ _) Hd), (proj2 (Z.ltb_lt now k)) by lia. done.
Qed.

(** A refusal for the rate leaves a mark, new or already there. *)
Lemma rate_refusal_marks g ip t g1 : 0 <= t -> 0 < connDef (lim g) -> OnConnect g ip t = (g1, Some errDoSConnectRate) ->
  exists m, t < m /\ mark connMarked g1 ip = Some m /\ (m = t + connDef (lim g) \/ mark connMarked g ip = Some m).
Proof.
  intros Ht Hd. unfold OnConnect. destruct (_ =? 0)%nat; [done|]. rewrite purge_lim. set (p := maybePurgeLocked g t). destruct (connOn _); [|done].
  destruct (_ <=? _); [done|]. destruct (Z.ltb_spec t (connMarked (getLocked p ip t))) as [Hlt|_].
  - intros [= <-]. exists (connMarked (getLocked p ip t)). rewrite mark_put, bool_decide_true by done. split_and!; [done|done|right].
    unfold getLocked in *. destruct (ips p !! ip) as [st|] eqn:E; [|cbn [connMarked] in Hlt; unfold zeroTime, Second in Hlt; lia].
    unfold mark. destruct (purge_lookup g t ip) as [Heq | (st' & _ & _ & Hnone)]; unfold p in E; [by rewrite <- Heq, E|congruence].
  - destruct (flt _ _); [|done]. intros [= <-]. exists (t + connDef (lim g)). rewrite mark_put, bool_decide_true by done. split_and!; [lia|done|by left].
Qed.

Lemma create_refusal_marks g ip t g1 : 0 <= t -> 0 < defense (lim g) -> AllowCreate2 g ip t = (g1, Some errDoSCircuit) ->
  exists m, t < m /\ mark markedUntil g1 ip = Some m /\ (m = t + defense (lim g) \/ mark markedUntil g ip = Some m).
Proof.
  intros Ht Hd. unfold AllowCreate2. destruct (_ || _); [done|]. destruct (_ && _) eqn:Hm.
  - intros [= <-]. apply andb_true_iff in Hm as [_ Hlt%Z.ltb_lt]. exists (markedUntil (getLocked g ip t)). rewrite mark_put, bool_decide_true by done. split_and!; [done|done|right].
    unfold getLocked, mark in *. destruct (ips g !! ip); [done|]. cbn [markedUntil] in Hlt. unfold zeroTime, Second in Hlt. lia.
  - destruct (_ <? minConns _); [done|]. destruct (SFleb _ _); [done|]. destruct (_ =? dosCircDefenseNone); [done|]. intros [= <-].
    exists (t + defense (lim g)). rewrite mark_put, bool_decide_true by done. split_and!; [lia|done|by left].
Qed.

(** ** Properties *)

(** C36: After any events in any order, of a listener that reports each accepted
    connection's end once (addresses not empty, times not before the epoch), the
    guard's counts are the numbers of open connections of each address, and while
    connections are limited none is accepted beyond the limit.  A connection refused
    for its rate leaves the address marked, for the period of defence counted from
    now or for what an earlier mark leaves, if that period is positive; whatever
    events happen before the mark is over, a connection from the address in that
    time is refused, provided the defence against connections is switched on when it
    comes (a new consensus can switch it off).  Likewise for a circuit refused,
    provided the defence against circuits is switched on and its type is not
    [dosCircDefenseNone] when the next CREATE2 comes. *)
Theorem dos_guard_sound m0 g0 g o ip : ips g0 = ∅ -> run m0 g0 (fun _ => 0) g o -> ip <> [] ->
  count g ip = o ip /\
  (forall now g', connOn (lim g) = true -> OnConnect g ip now = (g', None) -> o ip + 1 <= maxConns (lim g)) /\
  (forall t g1, 0 <= t -> 0 < connDef (lim g) -> OnConnect g ip t = (g1, Some errDoSConnectRate) ->
     exists m, t < m /\ (m = t + connDef (lim g) \/ mark connMarked g ip = Some m) /\
       forall g2 o2 now, run m g1 o g2 o2 -> now < m -> connOn (lim g2) = true -> exists e, snd (OnConnect g2 ip now) = Some e) /\
  (forall t g1, 0 <= t -> 0 < defense (lim g) -> AllowCreate2 g ip t = (g1, Some errDoSCircuit) ->
     exists m, t < m /\ (m = t + defense (lim g) \/ mark markedUntil g ip = Some m) /\
       forall g2 o2 now, run m g1 o g2 o2 -> now < m -> circOn (lim g2) = true -> circDef (lim g2) <> dosCircDefenseNone ->
         snd (AllowCreate2 g2 ip now) = Some errDoSCircuit).
Proof.
  intros H0 Hrun Hip. assert (count g ip = o ip) as Hc by (apply (run_count m0 g0 _ g o Hrun); intros ip'; unfold count; by rewrite H0).
  split_and!; [done| | |].
  - intros now g' Hon. unfold OnConnect. rewrite (empty_false _ Hip), purge_lim, Hon, getLocked_conns, purge_count, Hc.
    destruct (Z.leb_spec (maxConns (lim g)) (o ip)); [done|]. lia.
  - intros t g1 Ht Hd Href. destruct (rate_refusal_marks g ip t g1 Ht Hd Href) as (m & Htm & Hm & Hor). exists m. split_and!; [done|done|].
    intros g2 o2 now Hr Hn Hon. apply (marked_refused g2 ip now m Hip Hn); [|done]. apply (run_keeps connMarked m g1 o g2 o2 ip ltac:(by left) Hr). by exists m.
  - intros t g1 Ht Hd Href. destruct (create_refusal_marks g ip t g1 Ht Hd Href) as (m & Htm & Hm & Hor). exists m. split_and!; [done|done|].
    intros g2 o2 now Hr Hn Hon Hdef. apply (marked_refused_create g2 ip now m Hip Hn); [|done|done]. apply (run_keeps markedUntil m g1 o g2 o2 ip ltac:(by right) Hr). by exists m.
Qed.

Lemma serial_step g ip t : ip <> [] -> ips g !! ip = None -> connOn (lim g) = true -> 1 <= maxConns (lim g) ->
  flt (connBurst (lim g)) (of_int 1) = false -> 0 <= t ->
  exists g1, OnConnect g ip t = (g1, None) /\ ips (OnDisconnect g1 ip t) !! ip = None /\ lim (OnDisconnect g1 ip t) = lim g.
Proof.
  intros Hip Hn Hon Hmax Hb Ht. unfold OnConnect. rewrite (empty_false _ Hip), purge_lim, Hon. set (p := maybePurgeLocked g t).
  assert (ips p !! ip = None) as Hp by (destruct (purge_lookup g t ip) as [Heq | (st & Hs & _)]; [unfold p; by rewrite Heq|congruence]).
  assert (lim p = lim g) as Hl by apply purge_lim.
  unfold getLocked. rewrite Hp. cbn [conns connMarked]. rewrite (proj2 (Z.leb_gt _ 0)) by lia.
  rewrite (proj2 (Z.ltb_ge t zeroTime)) by (unfold zeroTime, Second; lia). unfold refillConnLocked, refill. cbn [connLast connTokens conns tokens lastRefill markedUntil connMarked].
  rewrite Z.sub_diag. change (flt (of_int 0) (seconds 0)) with false. cbn [connTokens conns tokens lastRefill markedUntil connMarked connLast]. rewrite Hl, Hb.
  eexists. split; [done|]. unfold OnDisconnect. rewrite (empty_false _ Hip). unfold put_ip, set_ips. cbn [ips]. rewrite lookup_insert_eq.
  cbn [conns set_conns markedUntil connMarked]. change (0 + 1 - 1) with 0. change (0 <? 0) with false. cbv iota. rewrite Z.eqb_refl.
  rewrite (proj2 (Z.ltb_lt zeroTime t)) by (unfold zeroTime, Second; lia). cbn [andb ips lim]. split; [apply lookup_delete_eq|done].
Qed.

(** Connections made one after the other are never refused, at whatever rate: the end
    of an address's last connection removes its entry and with it the bucket, so the
    next one finds a full bucket. *)
Theorem serial_connections_unlimited g ip times : ip <> [] -> ips g !! ip = None -> connOn (lim g) = true -> 1 <= maxConns (lim g) ->
  flt (connBurst (lim g)) (of_int 1) = false -> Forall (fun t => 0 <= t) times ->
  snd (fold_left (fun '(g, ok) t => let '(g, r) := OnConnect g ip t in (OnDisconnect g ip t, ok && bool_decide (r = None))) times (g, true)) = true.
Proof.
  intros Hip Hn Hon Hmax Hb Ht. revert g Hn Hon Hmax Hb. induction Ht as [|t times Ht _ IH]; intros g Hn Hon Hmax Hb; [done|]. cbn [fold_left].
  destruct (serial_step g ip t) as (g1 & E & Hn1 & Hl1); [done..|]. rewrite E, bool_decide_true by done. apply IH; rewrite ?Hl1; done.
Qed.

Definition sample_options : Options := mkOptions 1 1 1 false 1 1 1 (60 * Second) 5 0 0 0 2 1 1 (30 * Second).
Definition sample_guard : guard := NewDoSGuardFromConfig sample_options 0.
Definition sample_ip : bytes := lit "192.0.2.7".

Lemma dos_guard_sound_witness :
  let g := fst (OnConnect sample_guard sample_ip 5) in
  count g sample_ip = 1 /\ exists m, 6 < m /\ snd (OnConnect (fst (OnConnect g sample_ip 6)) sample_ip 6) <> None.
Proof.
  assert (run 6 sample_guard (fun _ => 0) (fst (OnConnect sample_guard sample_ip 5)) (bump (fun _ => 0) sample_ip 1)) as Hrun.
  { apply (run_step 6 _ _ (Connect sample_ip) 5 (fst (OnConnect sample_guard sample_ip 5)) None); [reflexivity|discriminate| |apply run_nil].
    cbn [handle]. rewrite (surjective_pairing (OnConnect sample_guard sample_ip 5)). f_equal; vm_compute; reflexivity. }
  destruct (dos_guard_sound 6 sample_guard _ _ sample_ip eq_refl Hrun) as (Hc & _ & Hrate & _); [discriminate|].
  split; [rewrite Hc; reflexivity|].
  destruct (Hrate 6 (fst (OnConnect (fst (OnConnect sample_guard sample_ip 5)) sample_ip 6))) as (m & Hm & _ & Href).
  - discriminate.
  - reflexivity.
  - rewrite (surjective_pairing (OnConnect (fst _) sample_ip 6)) at 1. f_equal; vm_compute; reflexivity.
  - exists m. split; [exact Hm|].
    destruct (Href _ _ 6 (run_nil m _ _) Hm) as [e He]; [vm_compute; reflexivity|]. rewrite He. discriminate.
Defined.

End DoSGuard.
