(* ===== verification/HsIntro.v ===== *)
(** * INTRODUCE cells (pkg/onion/introduce2.go, pkg/onion/onion.go)

    How a client builds an INTRODUCE1 cell for an introduction point, and how the
    service decrypts and reads the INTRODUCE2 cell the point makes of it. *)

From Stdlib Require Import String.
From S2P Require Import Prelude Conversion GoStrings Extend2 IntroPoint Onion CGO RelayCrypto Ntor NtorV3 HsNtor EquiX OnionPoW.
Import GoStrings Ntor(Curve, CurveLaws, ScalarMult, ScalarBaseMult, isAllZero) NtorV3(V3Hash, V3HashLaws, sha3_256, shake256).

Module HsIntro.

Definition introExtCCRequest : Z := 1.

Record Introduce2Request := mkRequest {
  RendezvousCookie : bytes;
  LinkSpecifiers : list Extend2.LinkSpecifier;
  ClientOnionKey : bytes;
  IntroAuthKey : bytes;
  Extensions : gmap Z bytes;
}.

Inductive error :=
| errCellShort (n : Z) | errEncPrivLen | errSubcredLen | errAuthKeyType (t : Z) | errAuthKeyLen (n : Z) | errTruncatedAuthKey | errTruncatedNExt
| errTruncatedExtHeader | errTruncatedExtData | errEncryptedShort (n : Z) | errKeys (e : HsNtor.error) | errMAC | errKeySize (n : Z)
| errCipher (e : RelayCrypto.error) | errPlaintextShort (n : Z) | errMissingKeyType | errKeyType (t : Z) | errTruncatedKeyLen | errTruncatedKey
| errMissingNspec | errSpec (e : Extend2.error)
| errNoRequest | errNoIntroPoint | errCookieLen (n : Z) | errKeyTooLarge (e : Conversion.error) | errAuthKeyRequired | errEncKeyLen (n : Z)
| errOnionKeyLen | errNoSpecs | errTooManyExts | errTooManySpecs | errSpecTooLong.

(** ** Reading the decrypted part *)

Definition parseIntroCellLinkSpecs (plaintext : bytes) (offset nspec : nat) : result error (list Extend2.LinkSpecifier) :=
  match Extend2.parse_specs nspec 0 plaintext offset [] with Ok (specs, _) => Ok specs | Err e => Err (errSpec e) end.

(** The loop over [n] extensions. *)
Fixpoint read_exts (n : nat) (p : bytes) (offset : nat) (exts : gmap Z bytes) : result error (gmap Z bytes * nat) :=
  match n with
  | O => Ok (exts, offset)
  | S n =>
      if (length p <? offset + 2)%nat then Err errTruncatedExtHeader
      else
        let extType := at_ p offset in
        let extLen := Z.to_nat (at_ p (offset + 1)) in
        let offset := (offset + 2)%nat in
        if (length p <? offset + extLen)%nat then Err errTruncatedExtData
        else read_exts n p (offset + extLen) (<[extType := slice p offset (offset + extLen)]> exts)
  end.

Definition parseIntroduce2InnerRendSpec (p : bytes) : result error Introduce2Request :=
  if len p <? 24 then Err (errPlaintextShort (len p))
  else
    let cookie := take 20 p in
    let? eo := read_exts (Z.to_nat (at_ p 20)) p 21 ∅ in
    let '(exts, offset) := eo in
    if (length p <=? offset)%nat then Err errMissingKeyType
    else if negb (at_ p offset =? 1) then Err (errKeyType (at_ p offset))
    else
      let offset := S offset in
      if (length p <? offset + 2)%nat then Err errTruncatedKeyLen
      else
        let onionKeyLen := Z.to_nat (be_get (slice p offset (offset + 2))) in
        let offset := (offset + 2)%nat in
        if (length p <? offset + onionKeyLen)%nat then Err errTruncatedKey
        else
          let offset := (offset + onionKeyLen)%nat in
          if (length p <=? offset)%nat then Err errMissingNspec
          else
            let? specs := parseIntroCellLinkSpecs p (S offset) (Z.to_nat (at_ p offset)) in
            Ok (mkRequest cookie specs [] [] exts).

(** Stops, without an error, at the first extension that is cut off. *)
Fixpoint read_legacy_exts (n : nat) (p : bytes) (offset : nat) (exts : gmap Z bytes) : gmap Z bytes :=
  match n with
  | O => exts
  | S n =>
      if (length p <? offset + 3)%nat then exts
      else
        let extType := at_ p offset in
        let extLen := Z.to_nat (be_get (slice p (offset + 1) (offset + 3))) in
        let offset := (offset + 3)%nat in
        if (length p <? offset + extLen)%nat then exts
        else read_legacy_exts n p (offset + extLen) (<[extType := slice p offset (offset + extLen)]> exts)
  end.

Definition parseIntroduce2InnerLegacy (p : bytes) : result error Introduce2Request :=
  if len p <? 21 then Err (errPlaintextShort (len p))
  else
    let cookie := take 20 p in
    let? specs := parseIntroCellLinkSpecs p 21 (Z.to_nat (at_ p 20)) in
    let offset := foldl (fun n ls => n + (2 + length (Extend2.Data ls)))%nat 21%nat specs in
    let offset :=
      if (offset + 3 <=? length p)%nat && (at_ p offset =? 0) then
        let onionKeyLen := Z.to_nat (be_get (slice p (offset + 1) (offset + 3))) in
        let offset := (offset + 3)%nat in
        if (offset + onionKeyLen <=? length p)%nat then (offset + onionKeyLen)%nat else offset
      else offset in
    let exts := if (offset <? length p)%nat then read_legacy_exts (Z.to_nat (at_ p offset)) p (S offset) ∅ else ∅ in
    Ok (mkRequest cookie specs [] [] exts).

Definition parseIntroduce2Inner (p : bytes) : result error Introduce2Request :=
  match parseIntroduce2InnerRendSpec p with Ok req => Ok req | Err _ => parseIntroduce2InnerLegacy p end.

(** Where [n] extensions of the head end. *)
Fixpoint skip_exts (n : nat) (cell : bytes) (offset : nat) : result error nat :=
  match n with
  | O => Ok offset
  | S n =>
      if (length cell <? offset + 2)%nat then Err errTruncatedExtHeader
      else
        let extLen := Z.to_nat (at_ cell (offset + 1)) in
        let offset := (offset + 2)%nat in
        if (length cell <? offset + extLen)%nat then Err errTruncatedExtData else skip_exts n cell (offset + extLen)
  end.

Definition LinkSpecifierToAddress (specs : list Extend2.LinkSpecifier) : option bytes :=
  let hexes d := Join (map (fun i => hex_encode (slice d (2 * i) (2 * i + 2))) (seq 0 8)) 58 in
  let address (ls : Extend2.LinkSpecifier) :=
    let d := Extend2.Data ls in
    if Extend2.Type_ ls =? 0 then
      if (length d =? 6)%nat then Some (Join (map print_int (take 4 d)) 46 ++ lit ":" ++ print_int (be_get (slice d 4 6))) else None
    else if Extend2.Type_ ls =? 1 then
      if (length d =? 18)%nat then Some (lit "[" ++ hexes d ++ lit "]:" ++ print_int (be_get (slice d 16 18))) else None
    else None in
  head (omap address specs).

Section Cells.
Context `{Curve} `{V3Hash} (Encrypt : bytes -> bytes -> bytes).

(** *** AES-256 in counter mode *)

Definition EncryptAES256CTR (plaintext key iv : bytes) : result error bytes :=
  if negb (length key =? 32)%nat then Err (errKeySize (len key))
  else match RelayCrypto.NewAESCTRCipher Encrypt key iv with
       | Err e => Err (errCipher e)
       | Ok c => Ok (Onion.XORKeyStream c plaintext).2
       end.
Definition DecryptAES256CTR (ciphertext key iv : bytes) : result error bytes :=
  if negb (length key =? 32)%nat then Err (errKeySize (len key))
  else match RelayCrypto.NewAESCTRCipher Encrypt key iv with
       | Err e => Err (errCipher e)
       | Ok c => Ok (Onion.XORKeyStream c ciphertext).2
       end.

(** *** The service *)

(** The head of the cell, up to the encrypted part, and the authentication key. *)
Definition parse_head (cell : bytes) : result error (bytes * nat) :=
  let offset := if (at_ cell 0 =? 0) && (23 <? length cell)%nat && (at_ cell 20 =? 2) then 20%nat else 0%nat in
  let authKeyType := at_ cell offset in
  let offset := S offset in
  if negb (authKeyType =? 2) then Err (errAuthKeyType authKeyType)
  else
    let authKeyLen := be_get (slice cell offset (offset + 2)) in
    let offset := (offset + 2)%nat in
    if negb (authKeyLen =? 32) then Err (errAuthKeyLen authKeyLen)
    else if (length cell <? offset + 32)%nat then Err errTruncatedAuthKey
    else
      let authKey := slice cell offset (offset + 32) in
      let offset := (offset + 32)%nat in
      if (length cell <=? offset)%nat then Err errTruncatedNExt
      else
        let? offset := skip_exts (Z.to_nat (at_ cell offset)) cell (S offset) in
        Ok (authKey, offset).

Definition ParseIntroduce2 (cell introEncPriv subcred : bytes) : result error Introduce2Request :=
  if len cell <? 120 then Err (errCellShort (len cell))
  else if negb (length introEncPriv =? 32)%nat then Err errEncPrivLen
  else if negb (length subcred =? 32)%nat then Err errSubcredLen
  else
    let? ho := parse_head cell in
    let '(authKey, offset) := ho in
    let header := take offset cell in
    let rest := drop offset cell in
    if (length rest <? 64)%nat then Err (errEncryptedShort (len rest))
    else
      let X := take 32 rest in
      let mac := drop (length rest - 32) rest in
      let ciphertext := slice rest 32 (length rest - 32) in
      match HsNtor.HsNtorServiceIntroKeys introEncPriv X authKey subcred with
      | Err e => Err (errKeys e)
      | Ok (encKey, macKey, _) =>
          let expectedMAC := HsNtor.HsMAC macKey (header ++ X ++ ciphertext) in
          if negb (Conversion.ConstantTimeCompare mac expectedMAC) then Err errMAC
          else
            let? plaintext := DecryptAES256CTR ciphertext encKey (zeros 16) in
            let? req := parseIntroduce2Inner plaintext in
            Ok (mkRequest (RendezvousCookie req) (LinkSpecifiers req) X authKey (Extensions req))
      end.

(** *** The client *)

Definition BuildIntroduce1Encrypted (header plaintext xPriv B authKey subcred : bytes) : result error bytes :=
  match HsNtor.HsNtorClientIntroKeys xPriv B authKey subcred with
  | Err e => Err (errKeys e)
  | Ok (encKey, macKey, X) =>
      let? ciphertext := EncryptAES256CTR plaintext encKey (zeros 16) in
      let mac := HsNtor.HsMAC macKey (header ++ X ++ ciphertext) in
      Ok (X ++ ciphertext ++ mac)
  end.

Record IntroductionPoint := mkIntroPoint { AuthKey : bytes; EncKey : bytes }.
Record IntroduceRequest := mkIntroduce {
  IntroPoint : option IntroductionPoint;
  Cookie : bytes;
  RendezvousOnionKey : bytes;
  RendezvousLinkSpecs : list Extend2.LinkSpecifier;
  EphemeralPrivate : bytes;
  EphemeralPublic : bytes;
  Subcredential : bytes;
  PoW : option OnionPoW.PoWProof;
  RequestCC : bool;
}.

Definition set_private (r : IntroduceRequest) (x : bytes) : IntroduceRequest :=
  mkIntroduce (IntroPoint r) (Cookie r) (RendezvousOnionKey r) (RendezvousLinkSpecs r) x (EphemeralPublic r) (Subcredential r) (PoW r) (RequestCC r).
Definition set_public (r : IntroduceRequest) (X : bytes) : IntroduceRequest :=
  mkIntroduce (IntroPoint r) (Cookie r) (RendezvousOnionKey r) (RendezvousLinkSpecs r) (EphemeralPrivate r) X (Subcredential r) (PoW r) (RequestCC r).

Definition encodeCCRequestExtension : bytes := [introExtCCRequest; 0].

Definition intro_exts (r : IntroduceRequest) : list bytes :=
  (if RequestCC r then [encodeCCRequestExtension] else []) ++
  match PoW r with Some p => [OnionPoW.encodePoWExtension p] | None => [] end.

Definition encode_spec (ls : Extend2.LinkSpecifier) : bytes :=
  [Extend2.Type_ ls; Conversion.ByteLen (len (Extend2.Data ls))] ++ Extend2.Data ls.

(** What is encrypted, padded to 246 bytes. *)
Definition intro_plaintext (r : IntroduceRequest) : bytes :=
  let exts := intro_exts r in
  let specs := RendezvousLinkSpecs r in
  let p := Cookie r ++ [u8 (len exts)] ++ concat exts ++ [1] ++ [0; 32] ++ RendezvousOnionKey r ++
           [Conversion.ByteLen (len specs)] ++ flat_map encode_spec specs in
  p ++ zeros (246 - length p).

Definition intro_header (authKey : bytes) : bytes := zeros 20 ++ [2] ++ [0; 32] ++ authKey ++ [0].

(** [draw]: what the random source gives for the ephemeral key. *)
Definition buildEncryptedData (r : IntroduceRequest) (draw : option bytes) : IntroduceRequest * result error bytes :=
  match IntroPoint r with
  | None => (r, Err errNoIntroPoint)
  | Some ip =>
      if negb (length (EncKey ip) =? 32)%nat then (r, Err (errEncKeyLen (len (EncKey ip))))
      else if negb (length (AuthKey ip) =? 32)%nat then (r, Err (errAuthKeyLen (len (AuthKey ip))))
      else if negb (length (Subcredential r) =? 32)%nat then (r, Err errSubcredLen)
      else if negb (length (RendezvousOnionKey r) =? 32)%nat then (r, Err errOnionKeyLen)
      else if (length (RendezvousLinkSpecs r) =? 0)%nat then (r, Err errNoSpecs)
      else
        match HsNtor.GenerateCurve25519PrivateKey draw with
        | Err e => (r, Err (errKeys e))
        | Ok xPriv =>
            let r := set_private r xPriv in
            if 255 <? len (intro_exts r) then (r, Err errTooManyExts)
            else if 255 <? len (RendezvousLinkSpecs r) then (r, Err errTooManySpecs)
            else if existsb (fun ls => 255 <? len (Extend2.Data ls)) (RendezvousLinkSpecs r) then (r, Err errSpecTooLong)
            else
              match BuildIntroduce1Encrypted (intro_header (AuthKey ip)) (intro_plaintext r) xPriv (EncKey ip) (AuthKey ip) (Subcredential r) with
              | Err e => (r, Err e)
              | Ok encrypted => (set_public r (take 32 encrypted), Ok encrypted)
              end
        end
  end.

Definition BuildIntroduce1Cell (req : option IntroduceRequest) (draw : option bytes) : option IntroduceRequest * result error bytes :=
  match req with
  | None => (None, Err errNoRequest)
  | Some r =>
      match IntroPoint r with
      | None => (Some r, Err errNoIntroPoint)
      | Some ip =>
          if negb (length (Cookie r) =? 20)%nat then (Some r, Err (errCookieLen (len (Cookie r))))
          else
            match (if 0 <? len (AuthKey ip) then Conversion.SafeLenToUint16 (AuthKey ip) else Ok 32) with
            | Err e => (Some r, Err (errKeyTooLarge e))
            | Ok authKeyLen =>
                if (length (AuthKey ip) =? 0)%nat then (Some r, Err errAuthKeyRequired)
                else
                  let head := zeros 20 ++ [2] ++ PutUint16 authKeyLen ++ AuthKey ip ++ [0] in
                  match buildEncryptedData r draw with
                  | (r, Err e) => (Some r, Err e)
                  | (r, Ok encrypted) => (Some r, Ok (head ++ encrypted))
                  end
            end
      end
  end.

(** ** Lemmas *)

Lemma ctr_cipher key : length key = 32%nat -> exists c, RelayCrypto.NewAESCTRCipher Encrypt key (zeros 16) = Ok c.
Proof.
  intros Hk. unfold RelayCrypto.NewAESCTRCipher, CGO.NewCipher. rewrite bool_decide_true by (rewrite Hk; by right; right). by eexists.
Qed.

Lemma ctr_roundtrip key p : length key = 32%nat ->
  exists c, EncryptAES256CTR p key (zeros 16) = Ok c /\ DecryptAES256CTR c key (zeros 16) = Ok p /\ length c = length p.
Proof.
  intros Hk. unfold EncryptAES256CTR, DecryptAES256CTR. destruct (ctr_cipher key Hk) as [c ->]. rewrite Hk. cbn [Nat.eqb negb].
  eexists. split; [reflexivity|]. rewrite RelayCrypto.XORKeyStream_back. split; [done|]. apply Onion.xor_length.
Qed.

(** *** The decrypted part *)

(** The extensions of a request have the format of link specifiers. *)
Definition ext_list (r : IntroduceRequest) : list Extend2.LinkSpecifier :=
  (if RequestCC r then [Extend2.mkLS introExtCCRequest []] else []) ++
  match PoW r with Some p => [Extend2.mkLS OnionPoW.introExtPoW (drop 2 (OnionPoW.encodePoWExtension p))] | None => [] end.

Definition ext_map (r : IntroduceRequest) : gmap Z bytes :=
  foldl (fun m e => <[Extend2.Type_ e := Extend2.Data e]> m) ∅ (ext_list r).

Definition pow_wf (r : IntroduceRequest) : Prop := forall p, PoW r = Some p -> OnionPoW.wf_proof p.

Lemma encode_proof_length p : OnionPoW.wf_proof p -> length (OnionPoW.encodePoWExtension p) = 43%nat.
Proof.
  intros (Hn & _ & Hh & Hs). unfold OnionPoW.encodePoWExtension. rewrite !length_app, length_PutUint32, Hn, Hh, Hs. done.
Qed.

Lemma exts_image r : pow_wf r ->
  concat (intro_exts r) = Extend2.specs_image (ext_list r) /\ length (intro_exts r) = length (ext_list r) /\
  Forall Extend2.small_spec (ext_list r) /\ (length (ext_list r) <= 2)%nat.
Proof.
  intros Hw. unfold intro_exts, ext_list. destruct (PoW r) as [p|] eqn:Hp.
  - pose proof (encode_proof_length p (Hw p Hp)) as Hl.
    assert (OnionPoW.encodePoWExtension p = [OnionPoW.introExtPoW; 41] ++ drop 2 (OnionPoW.encodePoWExtension p)) as He by done.
    assert (len (drop 2 (OnionPoW.encodePoWExtension p)) = 41) as Hd by (unfold len; rewrite length_drop, Hl; done).
    assert (Extend2.small_spec (Extend2.mkLS OnionPoW.introExtPoW (drop 2 (OnionPoW.encodePoWExtension p)))) as Hsm
      by (unfold Extend2.small_spec; cbn [Extend2.Data]; lia).
    unfold Extend2.specs_image. destruct (RequestCC r); cbn [app concat flat_map length]; unfold Extend2.spec_image; cbn [Extend2.Type_ Extend2.Data];
      rewrite Hd, !app_nil_r; rewrite He at 1; split_and!; try done; repeat constructor; done || lia.
  - destruct (RequestCC r); cbn; split_and!; try done; try lia; repeat constructor; by unfold Extend2.small_spec.
Qed.

Lemma read_exts_app exts pre rest acc : Forall Extend2.small_spec exts ->
  read_exts (length exts) (pre ++ Extend2.specs_image exts ++ rest) (length pre) acc =
    Ok (foldl (fun m e => <[Extend2.Type_ e := Extend2.Data e]> m) acc exts, length (pre ++ Extend2.specs_image exts)).
Proof.
  intros Hs. revert pre acc. induction Hs as [|e exts He Hs IH]; intros pre acc; [cbn; by rewrite app_nil_r|].
  cbn [length read_exts Extend2.specs_image flat_map foldl]. fold (Extend2.specs_image exts). rewrite <- (app_assoc (Extend2.spec_image e)).
  destruct (Extend2.spec_at pre e (Extend2.specs_image exts ++ rest) He) as (H1 & H2 & H3). rewrite H1, H2, H3.
  assert (length (pre ++ Extend2.spec_image e ++ Extend2.specs_image exts ++ rest) >= length pre + 2 + length (Extend2.Data e))%nat as Hlen
    by (rewrite !length_app, Extend2.length_spec_image; lia).
  rewrite !(proj2 (Nat.ltb_ge _ _)) by lia. rewrite (app_assoc pre (Extend2.spec_image e) (Extend2.specs_image exts ++ rest)).
  replace (length pre + 2 + length (Extend2.Data e))%nat with (length (pre ++ Extend2.spec_image e)) by (rewrite length_app, Extend2.length_spec_image; lia).
  rewrite IH. by rewrite app_assoc.
Qed.

Lemma specs_encoded specs : existsb (fun ls => 255 <? len (Extend2.Data ls)) specs = false ->
  flat_map encode_spec specs = Extend2.specs_image specs /\ Forall Extend2.small_spec specs.
Proof.
  induction specs as [|ls specs IH]; [done|]. cbn [existsb flat_map]. intros [Hl%Z.ltb_ge Hs]%orb_false_iff. destruct (IH Hs) as [-> Hf].
  split; [|by constructor]. cbn [Extend2.specs_image flat_map]. f_equal. unfold encode_spec.
  pose proof (len_nonneg (Extend2.Data ls)). by rewrite NtorV3.ByteLen_small by lia.
Qed.

Lemma at_next (pre l : bytes) b n : n = length pre -> at_ (pre ++ b :: l) n = b.
Proof. intros ->. rewrite <- (Nat.add_0_r (length pre)). by rewrite Extend2.at_app_r. Qed.

Lemma inner_roundtrip r :
  length (Cookie r) = 20%nat -> length (RendezvousOnionKey r) = 32%nat -> pow_wf r -> len (RendezvousLinkSpecs r) <= 255 ->
  existsb (fun ls => 255 <? len (Extend2.Data ls)) (RendezvousLinkSpecs r) = false ->
  parseIntroduce2Inner (intro_plaintext r) = Ok (mkRequest (Cookie r) (RendezvousLinkSpecs r) [] [] (ext_map r)).
Proof.
  intros Hc Hk Hw Hn Hs. destruct (exts_image r Hw) as (He & Hel & Hes & He2). destruct (specs_encoded _ Hs) as [Hse Hss].
  unfold parseIntroduce2Inner, intro_plaintext. rewrite He, Hse.
  assert (u8 (len (intro_exts r)) = len (ext_list r)) as -> by (unfold len, u8; rewrite Hel, Z.mod_small; lia).
  assert (Conversion.ByteLen (len (RendezvousLinkSpecs r)) = len (RendezvousLinkSpecs r)) as ->
    by (pose proof (len_nonneg (RendezvousLinkSpecs r)); by apply NtorV3.ByteLen_small).
  set (exts := ext_list r) in *. set (specs := RendezvousLinkSpecs r) in *. set (ei := Extend2.specs_image exts) in *.
  set (si := Extend2.specs_image specs) in *. set (p0 := Cookie r ++ _). set (pad := zeros _).
  assert (p0 ++ pad = (Cookie r ++ [len exts]) ++ ei ++ [1] ++ [0; 32] ++ RendezvousOnionKey r ++ [len specs] ++ si ++ pad) as ->
    by (unfold p0; rewrite <- !app_assoc; done).
  assert (length (Cookie r ++ [len exts]) = 21%nat) as H21 by (rewrite length_app, Hc; done).
  set (key := RendezvousOnionKey r) in *. clearbody pad. clear p0.
  set (p := (Cookie r ++ [len exts]) ++ ei ++ [1] ++ [0; 32] ++ key ++ [len specs] ++ si ++ pad).
  assert (length p = (57 + length ei + length si + length pad)%nat) as Hlp by (unfold p; rewrite !length_app, Hc, Hk; cbn [length]; lia).
  assert (parseIntroduce2InnerRendSpec p = Ok (mkRequest (Cookie r) specs [] [] (ext_map r))) as ->; [|done].
  unfold parseIntroduce2InnerRendSpec. rewrite (proj2 (Z.ltb_ge (len p) 24)) by (unfold len; lia).
  assert (at_ p 20 = len exts) as -> by (unfold p; rewrite <- app_assoc; by apply at_next).
  replace (Z.to_nat (len exts)) with (length exts) by (unfold len; lia). change 21%nat with (length (Cookie r ++ [len exts])) at 1 || rewrite <- H21.
  unfold p at 1. unfold ei at 1. rewrite (read_exts_app exts (Cookie r ++ [len exts])) by done. fold ei. cbn [result_bind].
  set (q := (Cookie r ++ [len exts]) ++ ei). assert (p = q ++ 1 :: [0; 32] ++ key ++ [len specs] ++ si ++ pad) as Hp1
    by (unfold p, q; rewrite <- !app_assoc; done).
  assert (length q = (21 + length ei)%nat) as Hlq by (unfold q; rewrite length_app; lia).
  rewrite (proj2 (Nat.leb_gt (length p) _)) by lia.
  assert (at_ p (length q) = 1) as -> by (rewrite Hp1; by apply at_next). cbn [Z.eqb negb].
  rewrite (proj2 (Nat.ltb_ge (length p) _)) by lia.
  assert (slice p (S (length q)) (S (length q) + 2) = [0; 32]) as ->.
  { rewrite Hp1. change (1 :: ?l) with ([1] ++ l). rewrite app_assoc. replace (S (length q)) with (length (q ++ [1%Z]) + 0)%nat by (rewrite length_app; cbn; lia).
    rewrite <- Nat.add_assoc, Extend2.slice_app_r by done. done. }
  change (Z.to_nat (be_get [0; 32])) with 32%nat. rewrite (proj2 (Nat.ltb_ge (length p) _)) by lia. rewrite (proj2 (Nat.leb_gt (length p) _)) by lia.
  set (q2 := q ++ [1; 0; 32] ++ key). assert (length q2 = S (length q) + 2 + 32)%nat as Hlq2 by (unfold q2; rewrite !length_app, Hk; cbn [length]; lia).
  assert (p = q2 ++ len specs :: si ++ pad) as Hp2 by (rewrite Hp1; unfold q2; rewrite <- !app_assoc; done).
  rewrite <- Hlq2. assert (at_ p (length q2) = len specs) as -> by (rewrite Hp2; by apply at_next).
  replace (Z.to_nat (len specs)) with (length specs) by (unfold len; lia). unfold parseIntroCellLinkSpecs.
  assert (p = (q2 ++ [len specs]) ++ si ++ pad) as -> by (rewrite Hp2, <- app_assoc; done).
  replace (S (length q2)) with (length (q2 ++ [len specs])) by (rewrite length_app; cbn; lia).
  unfold si. rewrite Extend2.parse_specs_app by done. cbn [result_bind app]. f_equal. f_equal.
  unfold q2, q. rewrite <- !app_assoc. by rewrite take_app_length'.
Qed.

(** *** The whole cell *)

Lemma parse_head_built a enc : length a = 32%nat -> parse_head (intro_header a ++ enc) = Ok (a, 56%nat).
Proof.
  intros Ha. assert (intro_header a ++ enc = zeros 20 ++ [2] ++ [0; 32] ++ a ++ [0] ++ enc) as -> by (unfold intro_header; by rewrite <- !app_assoc).
  unfold parse_head. set (cell := zeros 20 ++ _). assert (length cell = (56 + length enc)%nat) as Hl by (unfold cell; rewrite !length_app, Ha, length_zeros; cbn [length]; lia).
  assert (at_ cell 0 = 0 /\ at_ cell 20 = 2) as [-> ->] by done. rewrite (proj2 (Nat.ltb_lt 23 (length cell))) by lia. cbn [Z.eqb Pos.eqb andb].
  change (at_ cell 20) with 2. cbn [Z.eqb Pos.eqb negb]. change (slice cell 21 (21 + 2)) with [0; 32]. change (be_get [0; 32]) with 32. cbn [Z.eqb Pos.eqb negb].
  rewrite (proj2 (Nat.ltb_ge (length cell) _)) by lia. rewrite (proj2 (Nat.leb_gt (length cell) _)) by lia.
  change (21 + 2 + 32)%nat with 55%nat. change (21 + 2)%nat with 23%nat.
  assert (slice cell 23 55 = a) as -> by (unfold cell; fields; done).
  assert (at_ cell 55 = 0) as -> by (unfold cell; fields; done). done.
Qed.

Lemma built r draw r' cell :
  BuildIntroduce1Cell (Some r) draw = (r', Ok cell) ->
  exists ip x encKey macKey X c, IntroPoint r = Some ip /\ length (Cookie r) = 20%nat /\ length (AuthKey ip) = 32%nat /\
    length (RendezvousOnionKey r) = 32%nat /\ len (RendezvousLinkSpecs r) <= 255 /\
    existsb (fun ls => 255 <? len (Extend2.Data ls)) (RendezvousLinkSpecs r) = false /\
    HsNtor.GenerateCurve25519PrivateKey draw = Ok x /\
    HsNtor.HsNtorClientIntroKeys x (EncKey ip) (AuthKey ip) (Subcredential r) = Ok (encKey, macKey, X) /\
    EncryptAES256CTR (intro_plaintext r) encKey (zeros 16) = Ok c /\
    let tag := HsNtor.HsMAC macKey (intro_header (AuthKey ip) ++ X ++ c) in
    cell = intro_header (AuthKey ip) ++ X ++ c ++ tag /\ r' = Some (set_public (set_private r x) (take 32 (X ++ c ++ tag))).
Proof.
  unfold BuildIntroduce1Cell. destruct (IntroPoint r) as [ip|] eqn:Hip; [|done]. destruct (Nat.eqb_spec (length (Cookie r)) 20) as [Hc|]; [|done]. cbn [negb].
  destruct (if _ : bool then _ else _) as [n|e] eqn:Hn; [|done]. destruct (length (AuthKey ip) =? 0)%nat; [done|].
  destruct (buildEncryptedData r draw) as [r1 [enc|e]] eqn:Hb; [|done]. intros [= <- <-]. unfold buildEncryptedData in Hb. rewrite Hip in Hb.
  destruct (_ =? 32)%nat; [|done]. destruct (Nat.eqb_spec (length (AuthKey ip)) 32) as [Ha|]; [|done]. destruct (_ =? 32)%nat; [|done].
  destruct (Nat.eqb_spec (length (RendezvousOnionKey r)) 32) as [Hk|]; [|done]. cbn [negb] in Hb. destruct (_ =? 0)%nat; [done|].
  destruct (HsNtor.GenerateCurve25519PrivateKey draw) as [x|e] eqn:Hx; [|done]. destruct (255 <? len (intro_exts _)); [done|].
  cbn [RendezvousLinkSpecs set_private] in Hb. destruct (Z.ltb_spec 255 (len (RendezvousLinkSpecs r))) as [|Hs]; [done|].
  destruct (existsb _ _) eqn:Hex; [done|]. change (intro_plaintext (set_private r x)) with (intro_plaintext r) in Hb.
  destruct (BuildIntroduce1Encrypted _ _ _ _ _ _) as [e|e] eqn:He; [|done]. injection Hb as <- <-. unfold BuildIntroduce1Encrypted in He.
  cbn [Subcredential set_private] in He. destruct (HsNtor.HsNtorClientIntroKeys _ _ _ _) as [[[encKey macKey] X]|] eqn:Hkeys; [|done].
  apply result_bind_ok in He as (c & Hcc & [= <-]). exists ip, x, encKey, macKey, X, c. split_and!; try done.
  assert (0 < len (AuthKey ip)) as Hpos by (unfold len; lia). rewrite (proj2 (Z.ltb_lt _ _) Hpos) in Hn.
  rewrite Conversion.SafeLenToUint16_small in Hn by (unfold len, MaxUint16; lia). injection Hn as <-. unfold len. rewrite Ha.
  change (PutUint16 (Z.of_nat 32)) with [0; 32]. unfold intro_header. by rewrite <- !app_assoc.
Qed.

(** What the service computes the tag of a cell over. *)
Definition tag_input (cell introEncPriv subcred : bytes) : option bytes :=
  match parse_head cell with
  | Ok (authKey, offset) =>
      match HsNtor.HsNtorServiceIntroKeys introEncPriv (slice cell offset (offset + 32)) authKey subcred with
      | Ok (_, macKey, _) => Some (HsNtor.mac_input macKey (take (length cell - 32) cell))
      | Err _ => None
      end
  | Err _ => None
  end.

Lemma service_keys_length `{!V3HashLaws} b X a s e m B : HsNtor.HsNtorServiceIntroKeys b X a s = Ok (e, m, B) -> length m = 32%nat.
Proof.
  unfold HsNtor.HsNtorServiceIntroKeys. destruct (_ || _); [done|]. intros (xb & _ & [= <- <- <-])%result_bind_ok.
  unfold HsNtor.hsShake. by rewrite length_drop, NtorV3.shake_length.
Qed.

Lemma accepted `{!V3HashLaws} cell b s req : ParseIntroduce2 cell b s = Ok req ->
  exists m k, tag_input cell b s = Some m /\ m = HsNtor.mac_input k (take (length cell - 32) cell) /\ length k = 32%nat /\
    (32 <= length cell)%nat /\ drop (length cell - 32) cell = sha3_256 m.
Proof.
  unfold ParseIntroduce2, tag_input. destruct (_ <? _); [done|]. destruct (negb _); [done|]. destruct (negb _); [done|].
  intros ([a off] & -> & Hp)%result_bind_ok. destruct (Nat.ltb_spec (length (drop off cell)) 64) as [|Hl]; [done|]. rewrite length_drop in Hl.
  change (take 32 (drop off cell)) with (take 32 (drop off cell)) in Hp. unfold slice at 1. replace (off + 32 - off)%nat with 32%nat by lia.
  destruct (HsNtor.HsNtorServiceIntroKeys _ _ _ _) as [[[e k] B]|] eqn:Hk; [|done].
  destruct (Conversion.ConstantTimeCompare _ _) eqn:Hct; [|done]. apply Conversion.ConstantTimeCompare_spec in Hct.
  exists (HsNtor.mac_input k (take (length cell - 32) cell)), k. split_and!; [done|done|by eapply service_keys_length|lia|].
  rewrite length_drop, drop_drop in Hct. replace (off + (length cell - off - 32))%nat with (length cell - 32)%nat in Hct by lia. rewrite Hct.
  unfold HsNtor.HsMAC. f_equal. f_equal. unfold slice. rewrite <- (take_drop off (take (length cell - 32) cell)) at 1.
  rewrite take_take, Nat.min_l by lia. f_equal. rewrite skipn_firstn_comm, <- (take_drop 32 (take (length cell - 32 - off) (drop off cell))), take_take, Nat.min_l by lia.
  f_equal. rewrite skipn_firstn_comm. f_equal. lia.
Qed.

Lemma introduce_parsed `{!CurveLaws} `{!V3HashLaws} r draw r' cell ip b :
  BuildIntroduce1Cell (Some r) draw = (Some r', Ok cell) -> IntroPoint r = Some ip -> EncKey ip = ScalarBaseMult b -> length b = 32%nat -> pow_wf r ->
  ParseIntroduce2 cell b (Subcredential r) =
    Ok (mkRequest (Cookie r) (RendezvousLinkSpecs r) (EphemeralPublic r') (AuthKey ip) (ext_map r)) /\
  EphemeralPublic r' = ScalarBaseMult (EphemeralPrivate r') /\ length (EphemeralPrivate r') = 32%nat /\ length (AuthKey ip) = 32%nat /\
  isAllZero (ScalarMult (EphemeralPrivate r') (EncKey ip)) = false.
Proof.
  intros Hbuilt Hip HB Hb Hw. apply built in Hbuilt as (ip' & x & ek & mk & X & c & Hip' & Hc & Ha & Hk & Hn & Hs & _ & Hkeys & Henc & Hcell & [= ->]).
  rewrite Hip in Hip'. injection Hip' as <-. set (tag := HsNtor.HsMAC _ _) in *. set (head := intro_header (AuthKey ip)) in *.
  destruct (HsNtor.intro_key_lengths _ _ _ _ _ _ _ Hkeys) as [Hek Hmk]. pose proof Hkeys as (Hx & _ & _ & Hsub & HX & Hz & _)%HsNtor.client_intro_ok.
  assert (length X = 32%nat) as HlX by (rewrite HX; by apply Ntor.base_length).
  assert (length tag = 32%nat) as Htag by apply HsNtor.hs_mac_length. assert (length head = 56%nat) as Hhead by (unfold head, intro_header; rewrite !length_app, Ha; done).
  cbn [EphemeralPublic EphemeralPrivate set_public set_private]. rewrite take_app_length' by lia. split_and!; [|done..].
  destruct (ctr_roundtrip ek (intro_plaintext r) Hek) as (c' & Henc' & Hdec & Hlc). rewrite Henc in Henc'. injection Henc' as <-.
  assert (length cell = 56 + (64 + length c))%nat as Hlen by (rewrite Hcell, !length_app; lia).
  unfold ParseIntroduce2. rewrite (proj2 (Z.ltb_ge (len cell) 120)) by (unfold len; lia). rewrite Hb, Hsub. cbn [Nat.eqb negb].
  assert (parse_head cell = Ok (AuthKey ip, 56%nat)) as -> by (rewrite Hcell; by apply parse_head_built). cbn [result_bind].
  assert (take 56 cell = head /\ drop 56 cell = X ++ c ++ tag) as [-> ->].
  { rewrite Hcell. by rewrite take_app_length', drop_app_length'. }
  assert (length (X ++ c ++ tag) = 64 + length c)%nat as -> by (rewrite !length_app; lia).
  rewrite (proj2 (Nat.ltb_ge _ _)) by lia. rewrite take_app_length' by lia.
  assert (drop (64 + length c - 32) (X ++ c ++ tag) = tag) as -> by (rewrite app_assoc; apply drop_app_length'; rewrite length_app; lia).
  assert (slice (X ++ c ++ tag) 32 (64 + length c - 32) = c) as ->
    by (unfold slice; rewrite drop_app_length' by lia; apply take_app_length'; lia).
  rewrite HB in Hkeys. rewrite (HsNtor.intro_agree x b _ _ _ _ _ Hb Hkeys). fold tag.
  rewrite (proj2 (Conversion.ConstantTimeCompare_spec tag tag)) by done. cbn [negb]. rewrite Hdec. cbn [result_bind].
  rewrite inner_roundtrip by done. done.
Qed.

Lemma introduce_built `{!CurveLaws} `{!V3HashLaws} r draw ip x :
  IntroPoint r = Some ip -> length (Cookie r) = 20%nat -> length (AuthKey ip) = 32%nat -> length (EncKey ip) = 32%nat ->
  length (Subcredential r) = 32%nat -> length (RendezvousOnionKey r) = 32%nat -> 1 <= len (RendezvousLinkSpecs r) <= 255 ->
  Forall Extend2.small_spec (RendezvousLinkSpecs r) -> HsNtor.GenerateCurve25519PrivateKey draw = Ok x -> length x = 32%nat ->
  isAllZero (ScalarMult x (EncKey ip)) = false ->
  exists r' cell, BuildIntroduce1Cell (Some r) draw = (Some r', Ok cell) /\ EphemeralPrivate r' = x.
Proof.
  intros Hip Hc Ha HB Hsub Hk Hn Hs Hx Hlx Hz. unfold BuildIntroduce1Cell. rewrite Hip, Hc. cbn [Nat.eqb negb].
  assert (0 < len (AuthKey ip)) as Hpos by (unfold len; lia). rewrite (proj2 (Z.ltb_lt _ _) Hpos).
  rewrite Conversion.SafeLenToUint16_small by (unfold len, MaxUint16; lia). rewrite Ha. cbn [Nat.eqb]. unfold buildEncryptedData.
  rewrite Hip, HB, Ha, Hsub, Hk. cbn [Nat.eqb negb]. rewrite (proj2 (Nat.eqb_neq _ _)) by (unfold len in Hn; lia). rewrite Hx.
  assert (len (intro_exts (set_private r x)) <= 2) as He by (unfold intro_exts, set_private, len; destruct (RequestCC _), (PoW _); cbn; lia).
  rewrite (proj2 (Z.ltb_ge 255 (len (intro_exts (set_private r x))))) by lia. cbn [RendezvousLinkSpecs set_private Subcredential].
  rewrite (proj2 (Z.ltb_ge 255 (len (RendezvousLinkSpecs r)))) by lia.
  assert (existsb (fun ls => 255 <? len (Extend2.Data ls)) (RendezvousLinkSpecs r) = false) as ->.
  { clear -Hs. induction Hs as [|ls l Hl _ IH]; [done|]. cbn [existsb]. rewrite IH, orb_false_r. by apply Z.ltb_ge. }
  unfold BuildIntroduce1Encrypted, HsNtor.HsNtorClientIntroKeys, HsNtor.HsNtorAuthKeyLen, HsNtor.HsNtorSubcredLen. rewrite Hlx, HB, Ha, Hsub. cbn [Nat.eqb negb orb].
  rewrite (proj2 (HsNtor.shared_ok x (EncKey ip) _)) by by split_and!. cbn [result_bind].
  match goal with |- context [EncryptAES256CTR ?p ?k _] => destruct (ctr_roundtrip k p) as (c & -> & _) end.
  - unfold HsNtor.hsShake. rewrite length_take, NtorV3.shake_length. done.
  - cbn [result_bind]. by do 2 eexists.
Qed.

(** ** Properties *)

(** C14: An introduction arrives as it was built.  With valid keys the client builds a
    cell; the introduction point finds the service's authentication key in it, if
    it is short enough to be passed on; and the service reads the cookie, the
    rendezvous point and the extensions the client put in, and the point of the
    client's ephemeral key.  Whatever a service accepts, with whatever keys, carries
    a tag over all that precedes it: two accepted cells that end in the same tag are
    the same cell, unless the two inputs of the tags collide under SHA3-256. *)
Theorem introduce_exact `{!CurveLaws} `{!V3HashLaws} r draw ip b x :
  IntroPoint r = Some ip -> EncKey ip = ScalarBaseMult b -> length b = 32%nat -> length (Cookie r) = 20%nat -> length (AuthKey ip) = 32%nat ->
  length (Subcredential r) = 32%nat -> length (RendezvousOnionKey r) = 32%nat -> 1 <= len (RendezvousLinkSpecs r) <= 255 ->
  Forall Extend2.small_spec (RendezvousLinkSpecs r) -> pow_wf r ->
  HsNtor.GenerateCurve25519PrivateKey draw = Ok x -> length x = 32%nat -> isAllZero (ScalarMult x (EncKey ip)) = false ->
  (exists r' cell, BuildIntroduce1Cell (Some r) draw = (Some r', Ok cell) /\
     (len cell <= IntroPoint.maxIntroduce1Len -> IntroPoint.parseIntroduce1AuthKey cell = Some (AuthKey ip)) /\
     ParseIntroduce2 cell b (Subcredential r) =
       Ok (mkRequest (Cookie r) (RendezvousLinkSpecs r) (ScalarBaseMult x) (AuthKey ip) (ext_map r))) /\
  (forall cell1 b1 s1 req1 cell2 b2 s2 req2,
     ParseIntroduce2 cell1 b1 s1 = Ok req1 -> ParseIntroduce2 cell2 b2 s2 = Ok req2 ->
     drop (length cell1 - 32) cell1 = drop (length cell2 - 32) cell2 ->
     cell1 = cell2 \/ exists m1 m2, tag_input cell1 b1 s1 = Some m1 /\ tag_input cell2 b2 s2 = Some m2 /\ NtorV3.clash m1 m2).
Proof.
  intros Hip HB Hb Hc Ha Hsub Hk Hn Hs Hw Hx Hlx Hz. split.
  - assert (length (EncKey ip) = 32%nat) as HlB by (rewrite HB; by apply Ntor.base_length).
    destruct (introduce_built r draw ip x) as (r' & cell & Hcell & Hx'); try done. exists r', cell.
    destruct (introduce_parsed r draw r' cell ip b) as (Hparse & Hpub & _); try done. rewrite Hpub, Hx' in Hparse. split_and!; [done| |done].
    intros Hlen. apply built in Hcell as (ip' & x' & ek & mk & X & c & Hip' & _ & _ & _ & _ & _ & _ & _ & _ & Hcell & _).
    rewrite Hip in Hip'. injection Hip' as <-. set (tag := HsNtor.HsMAC _ _) in *. clearbody tag.
    assert (cell = zeros 20 ++ [2] ++ [0; 32] ++ AuthKey ip ++ [0] ++ X ++ c ++ tag) as -> by (rewrite Hcell; unfold intro_header; by rewrite <- !app_assoc).
    unfold IntroPoint.parseIntroduce1AuthKey, IntroPoint.introduce1LegacyKeyLen, IntroPoint.ed25519AuthKeyLen.
    set (cell := zeros 20 ++ _) in *. assert (56 <= length cell)%nat as Hl by (unfold cell; rewrite !length_app, Ha, length_zeros; cbn [length]; lia).
    rewrite (proj2 (Nat.ltb_ge (length cell) _)) by lia. rewrite (proj2 (Z.ltb_ge _ _) Hlen). cbn [orb].
    change (forallb (Z.eqb 0) (take 20 cell)) with true. change (at_ cell 20) with 2. cbn [negb Z.eqb IntroPoint.introduce1AuthKeyTypeV3 Pos.eqb].
    change (slice cell (20 + 1) (20 + 3)) with [0; 32]. change (Z.to_nat (be_get [0; 32])) with 32%nat. cbn [Nat.eqb negb orb].
    change (20 + 3 + 32)%nat with 55%nat. change (20 + 3)%nat with 23%nat.
    rewrite (proj2 (Nat.leb_gt (length cell) _)) by lia. assert (at_ cell 55 = 0) as -> by (unfold cell; fields; done).
    assert (slice cell 23 55 = AuthKey ip) as -> by (unfold cell; fields; done). done.
  - intros cell1 b1 s1 req1 cell2 b2 s2 req2 (m1 & k1 & T1 & -> & L1 & G1 & D1)%accepted (m2 & k2 & T2 & -> & L2 & G2 & D2)%accepted Htag.
    rewrite D1, D2 in Htag.
    destruct (decide (HsNtor.mac_input k1 (take (length cell1 - 32) cell1) = HsNtor.mac_input k2 (take (length cell2 - 32) cell2))) as [E|E].
    + left. unfold HsNtor.mac_input in E. apply app_inj_1 in E as [_ E]; [|by rewrite !length_PutUint64]. apply app_inj_1 in E as [_ E]; [|lia].
      rewrite <- (take_drop (length cell1 - 32) cell1), <- (take_drop (length cell2 - 32) cell2), E, D1, D2. by rewrite Htag.
    + right. do 2 eexists. split_and!; [done|done|]. done.
Qed.

End Cells.

(** ** A concrete introduction *)

#[local] Existing Instances Ntor.toy_curve Ntor.toy_curve_laws NtorV3.toy_v3_hash NtorV3.toy_v3_laws.

Definition sample_point : IntroductionPoint := mkIntroPoint (repeat 7 32) (repeat 9 32).
Definition sample_request : IntroduceRequest :=
  mkIntroduce (Some sample_point) (repeat 1 20) (repeat 4 32) [Extend2.mkLS 0 [10; 0; 0; 1; 35; 41]] [] [] (repeat 6 32) None true.

Lemma introduce_exact_witness : exists r' cell,
  BuildIntroduce1Cell RelayCrypto.toy_block (Some sample_request) (Some (repeat 64 32)) = (Some r', Ok cell) /\
  ParseIntroduce2 RelayCrypto.toy_block cell (repeat 9 32) (repeat 6 32) =
    Ok (mkRequest (repeat 1 20) [Extend2.mkLS 0 [10; 0; 0; 1; 35; 41]] (repeat 64 32) (repeat 7 32) (ext_map sample_request)).
Proof.
  destruct (introduce_exact RelayCrypto.toy_block sample_request (Some (repeat 64 32)) sample_point (repeat 9 32) (repeat 64 32)) as [Hb _].
  - reflexivity.
  - reflexivity.
  - reflexivity.
  - reflexivity.
  - reflexivity.
  - reflexivity.
  - reflexivity.
  - vm_compute. split; discriminate.
  - apply Forall_cons. split; [|apply Forall_nil; exact I]. vm_compute. discriminate.
  - intros p. discriminate.
  - reflexivity.
  - reflexivity.
  - reflexivity.
  - destruct Hb as (r' & cell & Hbuild & _ & Hparse). exists r', cell. split; [exact Hbuild|exact Hparse].
Defined.

End HsIntro.
