(* ===== verification/CircuitHandler.v ===== *)
(** * The circuits of a relay (pkg/relay/circuit_handler.go, forwarding.go, forwarding_extend.go, hsrend.go, hsintro.go)

    What a relay does with a cell that arrives on an OR connection or from the
    next hop: it opens a circuit, answers for itself, forwards along an extension,
    splices two circuits at a rendezvous, or tears down.  Circuit objects live in a
    heap, because tables, rendezvous slots and joined circuits share them.  A
    handler is a computation that passes the state along and collects the cells it
    writes; each runs without interruption, except where it waits for the network
    ([meanwhile]).

    A connection is a number and never nil.  Of the rest of the program the
    handlers see what [cell_env] and [dos_env] give: the guard's answers
    (pkg/relay/dos.go), handshakes, DNS, dialling. *)

From S2P Require Import Prelude Conversion Cell RelayCell CellPayloads CGO Onion RelayCrypto GoStrings Extend2 IntroPoint ServerCircuit ExitStreams Resolve.
Import Cell(Cell, mkCell, CircID, Command, Payload).
Import ServerCircuit(ServerCircuit, Primitives, aesEncrypt, aesDecrypt, sha1, CircuitID, crypto, set_crypto, output).
Import ExitStreams(ExitStreamManager).
Import GoStrings(hex_encode).

Module CircuitHandler.

Abbreviation world := (ExitStreamManager * ServerCircuit)%type.

(** ** State *)

Global Instance address_eq_dec : EqDecision Extend2.address.
Proof. solve_decision. Defined.

Record ExtendedCircuit := mkExtended {
  ClientCircuitID : Z;
  NextHopCircuitID : Z;
  NextHopAddress : Extend2.address;
  NextHopOR : option Z;
  NextHopConn : option Z;
  ClientConn : option Z;
  RelayEarlyCount : Z;
}.

Definition set_early (e : ExtendedCircuit) (n : Z) : ExtendedCircuit :=
  mkExtended (ClientCircuitID e) (NextHopCircuitID e) (NextHopAddress e) (NextHopOR e) (NextHopConn e) (ClientConn e) n.
Definition set_client (e : ExtendedCircuit) (c : Z) : ExtendedCircuit :=
  mkExtended (ClientCircuitID e) (NextHopCircuitID e) (NextHopAddress e) (NextHopOR e) (NextHopConn e) (Some c) (RelayEarlyCount e).

(** A slot refers to a circuit object. *)
Record hsRoleSlot := mkSlot {
  circ : nat;
  conn : Z;
  introDoS : option IntroPoint.introDoSBucket;
  created : Z;
}.

Record HSRelayStats := mkStats { EstIntro : Z; EstRend : Z; RendJoined : Z; RendExpired : Z }.

(** [CircuitHandler] with its [ForwardingHandler], the connections
    [ExtensionHandler] remembers, and the exit streams. *)
Record CircuitHandler := mkHandler {
  heap : gmap nat ServerCircuit;
  fresh : nat;
  circuits : gmap Z nat;
  extended : gmap Z ExtendedCircuit;
  introByAuth : gmap bytes hsRoleSlot;
  rendByCookie : gmap bytes hsRoleSlot;
  introDoSCons : IntroPoint.IntroDoSParams;
  hsStats : HSRelayStats;
  clientConns : gmap Z Z;
  exits : ExitStreamManager;
  brokenClock : bool;
}.

Definition NewCircuitHandler : CircuitHandler :=
  mkHandler ∅ 0 ∅ ∅ ∅ ∅ (IntroPoint.mkDoS false 0 0) (mkStats 0 0 0 0) ∅ ExitStreams.NewExitStreamManager false.

(** Field updates. *)
Definition set_heap (h : CircuitHandler) (x : gmap nat ServerCircuit) : CircuitHandler :=
  mkHandler x (fresh h) (circuits h) (extended h) (introByAuth h) (rendByCookie h) (introDoSCons h) (hsStats h)
    (clientConns h) (exits h) (brokenClock h).
Definition set_circuits (h : CircuitHandler) (x : gmap Z nat) : CircuitHandler :=
  mkHandler (heap h) (fresh h) x (extended h) (introByAuth h) (rendByCookie h) (introDoSCons h) (hsStats h)
    (clientConns h) (exits h) (brokenClock h).
Definition set_extended (h : CircuitHandler) (x : gmap Z ExtendedCircuit) : CircuitHandler :=
  mkHandler (heap h) (fresh h) (circuits h) x (introByAuth h) (rendByCookie h) (introDoSCons h) (hsStats h)
    (clientConns h) (exits h) (brokenClock h).
Definition set_intro (h : CircuitHandler) (x : gmap bytes hsRoleSlot) : CircuitHandler :=
  mkHandler (heap h) (fresh h) (circuits h) (extended h) x (rendByCookie h) (introDoSCons h) (hsStats h)
    (clientConns h) (exits h) (brokenClock h).
Definition set_rend (h : CircuitHandler) (x : gmap bytes hsRoleSlot) : CircuitHandler :=
  mkHandler (heap h) (fresh h) (circuits h) (extended h) (introByAuth h) x (introDoSCons h) (hsStats h)
    (clientConns h) (exits h) (brokenClock h).
Definition set_stats (h : CircuitHandler) (x : HSRelayStats) : CircuitHandler :=
  mkHandler (heap h) (fresh h) (circuits h) (extended h) (introByAuth h) (rendByCookie h) (introDoSCons h) x
    (clientConns h) (exits h) (brokenClock h).
Definition set_clients (h : CircuitHandler) (x : gmap Z Z) : CircuitHandler :=
  mkHandler (heap h) (fresh h) (circuits h) (extended h) (introByAuth h) (rendByCookie h) (introDoSCons h) (hsStats h)
    x (exits h) (brokenClock h).
Definition set_exits (h : CircuitHandler) (x : ExitStreamManager) (b : bool) : CircuitHandler :=
  mkHandler (heap h) (fresh h) (circuits h) (extended h) (introByAuth h) (rendByCookie h) (introDoSCons h) (hsStats h)
    (clientConns h) x b.
Definition SetIntroDoSParams (h : CircuitHandler) (p : IntroPoint.IntroDoSParams) : CircuitHandler :=
  mkHandler (heap h) (fresh h) (circuits h) (extended h) (introByAuth h) (rendByCookie h) p (hsStats h)
    (clientConns h) (exits h) (brokenClock h).

(** ** Handlers *)

Inductive error :=
| errServer (e : ServerCircuit.error)
| errExit (e : ExitStreams.error)
| errCrypto (e : RelayCrypto.error)
| errRelayCell (e : RelayCell.error)
| errExtend (e : Extend2.error)
| errCryptoUnavailable
| errSingleHop
| errDoSStreamClose
| errDoSStreamRefuse
| errNoNextHop
| errAlreadyExtended
| errPayloadLen
| errNoClient
| errHS
| errConnect
| errCreate2
| errCreated2
| errNotFound
| errTooLong
| errCookie
| errCookieInUse
| errTooMany
| errRole.

Definition M (A : Type) : Type := CircuitHandler -> CircuitHandler * output * A.

Definition ret {A} (a : A) : M A := fun h => (h, [], a).
Definition bind {A B} (m : M A) (k : A -> M B) : M B := fun h =>
  let '(h, out, a) := m h in let '(h, out', b) := k a h in (h, out ++ out', b).
Definition get {A} (f : CircuitHandler -> A) : M A := fun h => (h, [], f h).
Definition modify (f : CircuitHandler -> CircuitHandler) : M unit := fun h => (f h, [], tt).

Notation "'let*' x ':=' m 'in' k" := (bind m (fun x => k)) (at level 200, x pattern, m at level 100, k at level 200) : gotor_scope.
Notation "m ;; k" := (bind m (fun _ => k)) (at level 100, right associativity) : gotor_scope.

(** A guard that ends the handler with an error. *)
Definition unless (m : M (option error)) (k : M (option error)) : M (option error) :=
  let* e := m in match e with Some e => ret (Some e) | None => k end.

Definition GetCircuit (circuitID : Z) : M (option (nat * ServerCircuit)) := get (fun h =>
  match circuits h !! circuitID with
  | Some o => match heap h !! o with Some c => Some (o, c) | None => None end
  | None => None
  end).

Definition GetCircuitCount : M Z := get (fun h => Z.of_nat (size (circuits h))).

Definition circ_at (o : nat) : M (option ServerCircuit) := get (fun h => heap h !! o).
Definition update_circ (o : nat) (f : ServerCircuit -> ServerCircuit) : M unit :=
  modify (fun h => set_heap h (alter f o (heap h))).

(** What the guard answers: whether a CREATE2 and a BEGIN may pass, whether clients
    without a path are refused, and whether a peer is a known relay. *)
Inductive stream_verdict := StreamOK | StreamRefuse | StreamClose.
Record dos_env := mkDosEnv {
  AllowCreate2 : bool;
  RefuseSingleHop : bool;
  KnownRelay : bytes -> bytes -> bool;
  AllowBeginOrResolve : stream_verdict;
}.

(** What handling one cell finds outside. *)
Record cell_env := mkEnv {
  now : Z;
  dos : option dos_env;
  (** response, key material and nonce of a handshake of the given type *)
  handshake : Z -> bytes -> option (bytes * bytes * bytes);
  policy : option ExitStreams.Policy;
  network : ExitStreams.begin_env;
  dirDial : option (option Z);
  bwOK : bool;
  wrote : bool;
  tcp : bool;
  (** the names of an address *)
  lookupPTR : bytes -> option (list bytes);
  (** connecting to the next hop, the circuit id chosen there, and the CREATED2 it sends *)
  connectToNextHop : Extend2.address -> Extend2.nextHopIdentity -> option Z;
  newOutboundCircID : Z;
  created2 : option bytes;
  (** the rest of the relay while [HandleExtend2] waits *)
  meanwhile : M unit;
}.

Section Handlers.
Context `{Primitives} `{IntroPoint.IntroCrypto}.
Context (sends : Z -> Cell -> bool) (took : Z -> Cell -> Z).

Definition write (k : Z) (c : Cell) : M (option error) := fun h =>
  let '(out, e) := ServerCircuit.write_cell sends k c in (h, out, errServer <$> e).

Definition sendDestroyCell (k circuitID reason : Z) : M (option error) := fun h =>
  let '(out, e) := ServerCircuit.sendDestroyCell sends k circuitID reason in (h, out, errServer <$> e).

Definition sendRelayToClient (o : nat) (k streamID cmd : Z) (data : bytes) : M (option error) := fun h =>
  match heap h !! o with
  | None => (h, [], Some (errServer ServerCircuit.errNoReply))
  | Some c =>
      let '(c, out, e) := ServerCircuit.sendRelayToClient sends c (Some k) streamID cmd data in
      (set_heap h (<[o := c]> (heap h)), out, errServer <$> e)
  end.

(** A call into the exit streams on behalf of circuit object [o]. *)
Definition on_exits (o : nat) (f : world -> world * output * option ExitStreams.error) : M (option error) := fun h =>
  match heap h !! o with
  | None => (h, [], Some errCryptoUnavailable)
  | Some c =>
      let '((m, c), out, e) := f (exits h, c) in
      (set_exits (set_heap h (<[o := c]> (heap h))) m (brokenClock h), out, errExit <$> e)
  end.

Definition sendToNextHop (ext : ExtendedCircuit) (c : Cell) : M (option error) :=
  match NextHopOR ext with
  | Some k => write k c
  | None => match NextHopConn ext with Some k => write k c | None => ret (Some errNoNextHop) end
  end.

(** ** Teardown *)

Definition take_extended (circuitID : Z) : M (option ExtendedCircuit) := fun h =>
  (set_extended h (delete circuitID (extended h)), [], extended h !! circuitID).

(** The body of [handleTruncate] and [HandleDestroy]. *)
Definition destroy_next_hop (circuitID : Z) : M unit :=
  let* ext := take_extended circuitID in
  match ext with
  | None => ret tt
  | Some ext =>
      sendToNextHop ext (mkCell (NextHopCircuitID ext) Cell.CmdDestroy [Cell.DestroyReasonDestroyed]) ;; ret tt
  end.

Definition HandleDestroy (circuitID : Z) : M unit := destroy_next_hop circuitID.
Definition handleTruncate (circuitID : Z) : M (option error) := destroy_next_hop circuitID ;; ret None.

Definition rendCookieLen : nat := 20.
Definition unjoinedRendTTL : Z := 600 * 1000000000.
Definition maxUnjoinedRend : nat := 128.

(** [forgetHS]; [close] is [CircuitHandler.CloseCircuit]. *)
Definition forgetHS (close : Z -> M unit) (o : nat) : M unit :=
  let* c := circ_at o in
  match c with
  | None => ret tt
  | Some c =>
      let auth := ServerCircuit.introAuth c in
      let cookie := ServerCircuit.rendCookie c in
      modify (fun h => if (length auth =? IntroPoint.ed25519AuthKeyLen)%nat
                       then set_intro h (delete (hex_encode auth) (introByAuth h)) else h) ;;
      modify (fun h => if (length cookie =? rendCookieLen)%nat
                       then set_rend h (delete (hex_encode cookie) (rendByCookie h)) else h) ;;
      update_circ o (fun c => ServerCircuit.set_joined c None None) ;;
      match ServerCircuit.joinedCirc c with
      | None => ret tt
      | Some p =>
          update_circ p (fun c => ServerCircuit.set_joined c None None) ;;
          let* peer := circ_at p in
          match peer with
          | None => ret tt
          | Some peer =>
              match ServerCircuit.joinedConn c with
              | Some k => sendDestroyCell k (CircuitID peer) Cell.DestroyReasonDestroyed ;; ret tt
              | None => ret tt
              end ;;
              close (CircuitID peer)
          end
      end
  end.

(** The body of [CloseCircuit], with the recursive call as an argument. *)
Definition close_body (close : Z -> M unit) (circuitID : Z) : M unit :=
  let* o := get (fun h => circuits h !! circuitID) in
  modify (fun h => set_circuits h (delete circuitID (circuits h))) ;;
  match o with Some o => update_circ o ServerCircuit.set_closed | None => ret tt end ;;
  modify (fun h => set_exits h (ExitStreams.CloseCircuit (exits h) circuitID) (brokenClock h)) ;;
  match o with Some o => forgetHS close o | None => ret tt end ;;
  HandleDestroy circuitID.

Fixpoint close_circuit (fuel : nat) (circuitID : Z) : M unit :=
  match fuel with
  | O => ret tt
  | S fuel => close_body (close_circuit fuel) circuitID
  end.

(** Every nested call has one circuit less in the table. *)
Definition CloseCircuit (circuitID : Z) : M unit := fun h => close_circuit (S (size (circuits h))) circuitID h.

Definition handleDestroy (circuitID : Z) : M (option error) := CloseCircuit circuitID ;; ret None.

(** [ForwardingHandler.CloseAll]. *)
Fixpoint destroy_all (l : list ExtendedCircuit) : M unit :=
  match l with
  | [] => ret tt
  | ext :: l =>
      sendToNextHop ext (mkCell (NextHopCircuitID ext) Cell.CmdDestroy [Cell.DestroyReasonDestroyed]) ;; destroy_all l
  end.

Definition CloseAllExtended : M unit :=
  let* l := get (fun h => (map_to_list (extended h)).*2) in
  destroy_all l ;;
  modify (fun h => set_rend (set_intro (set_extended h ∅) ∅) ∅).

Definition CloseAll : M unit :=
  modify (fun h => set_circuits (set_heap h (foldr (fun o hp => alter ServerCircuit.set_closed o hp) (heap h)
                                               (map_to_list (circuits h)).*2)) ∅) ;;
  CloseAllExtended ;;
  modify (fun h => set_exits h (ExitStreams.CloseAll (exits h)) (brokenClock h)).

(** Refuse and tear down. *)
Definition closeHSCircuit (o : nat) (k reason : Z) : M (option error) :=
  let* c := circ_at o in
  match c with
  | None => ret (Some errHS)
  | Some c => sendDestroyCell k (CircuitID c) reason ;; CloseCircuit (CircuitID c) ;; ret (Some errHS)
  end.

Definition destroyHSCircuit (o : nat) (k : Z) : M (option error) := closeHSCircuit o k Cell.DestroyReasonProtocol.

Definition destroy_and_close (k circuitID reason : Z) (e : error) : M (option error) :=
  sendDestroyCell k circuitID reason ;; CloseCircuit circuitID ;; ret (Some e).

(** ** Opening a circuit *)

Definition sendCreated2 (k circuitID : Z) (response : bytes) : M (option error) :=
  match Extend2.created2_payload response with
  | None => ret (Some errTooLong)
  | Some payload => write k (mkCell circuitID Cell.CmdCreated2 payload)
  end.

Definition NtorV3FixedClientLen : Z := 128.

Definition add_circuit (c : ServerCircuit) : M unit := modify (fun h =>
  mkHandler (<[fresh h := c]> (heap h)) (S (fresh h)) (<[CircuitID c := fresh h]> (circuits h)) (extended h) (introByAuth h)
    (rendByCookie h) (introDoSCons h) (hsStats h) (clientConns h) (exits h) (brokenClock h)).

Definition handleCreate2Auth (env : cell_env) (k : Z) (c : Cell) (linkAuthed : bool) (rsaFP edID : bytes) : M (option error) :=
  let refuse reason := sendDestroyCell k (CircID c) reason in
  if match dos env with Some g => negb (AllowCreate2 g) | None => false end then refuse Cell.DestroyReasonResourceLimit
  else
    let* exists_ := get (fun h => circuits h !! CircID c) in
    match exists_ with
    | Some _ => refuse Cell.DestroyReasonProtocol
    | None =>
        match Extend2.parse_create2 (Payload c) with
        | None => refuse Cell.DestroyReasonProtocol
        | Some (htype, handshakeData) =>
            if negb ((htype =? 2) && (len handshakeData =? 84) || (htype =? 3) && (NtorV3FixedClientLen <=? len handshakeData))
            then refuse Cell.DestroyReasonProtocol
            else
              match handshake env htype handshakeData with
              | None => refuse Cell.DestroyReasonInternal
              | Some (response, keyMaterial, circNonce) =>
                  match RelayCrypto.newCircuitCrypto aesEncrypt keyMaterial with
                  | Err _ => refuse Cell.DestroyReasonInternal
                  | Ok cc =>
                      let ccOn := htype =? 3 in
                      let inc := if ccOn then 31 else 0 in
                      add_circuit (ServerCircuit.mkCircuit (CircID c) keyMaterial (Some cc) false ccOn inc circNonce [] []
                                     false linkAuthed rsaFP edID None None) ;;
                      (if ccOn then modify (fun h => set_exits h (ExitStreams.NoteCircuitFlow (exits h) (CircID c) true inc)
                                                       (brokenClock h)) else ret tt) ;;
                      sendCreated2 k (CircID c) response
                  end
              end
        end
    end.

(** ** Introduction and rendezvous *)

Definition addHSStat (f : HSRelayStats -> HSRelayStats) : M unit := modify (fun h => set_stats h (f (hsStats h))).

Definition rejectIfExtended (o : nat) (k : Z) : M (option error) :=
  let* c := circ_at o in
  match c with
  | Some c => if ServerCircuit.didExtend c then destroyHSCircuit o k else ret None
  | None => ret None
  end.

Definition registerIntro (o : nat) (k : Z) (auth : bytes) (ext : IntroPoint.IntroDoSExtension) (t : Z) : M (option error) := fun h =>
  match heap h !! o with
  | None => (h, [], Some errCryptoUnavailable)
  | Some c =>
      let key := hex_encode auth in
      if negb (length auth =? IntroPoint.ed25519AuthKeyLen)%nat then (h, [], Some errCookie)
      else if (0 <? len (ServerCircuit.rendCookie c)) then (h, [], Some errRole)
      else if match introByAuth h !! key with
              | Some s => match heap h !! circ s with Some c' => negb (CircuitID c' =? CircuitID c) | None => false end
              | None => false
              end then (h, [], Some errCookieInUse)
      else if (0 <? len (ServerCircuit.introAuth c)) then (h, [], Some errRole)
      else
        let p := IntroPoint.ResolveIntroDoS ext (introDoSCons h) in
        (set_intro (set_heap h (<[o := ServerCircuit.set_introAuth c auth]> (heap h)))
           (<[key := mkSlot o k (IntroPoint.newIntroDoSBucket p t) t]> (introByAuth h)), [], None)
  end.

Definition handleEstablishIntro (env : cell_env) (o : nat) (k : Z) (payload : bytes) : M (option error) :=
  unless (rejectIfExtended o k)
    (let* c := circ_at o in
     match c with
     | None => ret (Some errCryptoUnavailable)
     | Some c =>
         if (0 <? len (ServerCircuit.introAuth c)) then destroyHSCircuit o k
         else if negb (len (ServerCircuit.circNonce c) =? 20) then destroyHSCircuit o k
         else match IntroPoint.VerifyEstablishIntroPayload payload (ServerCircuit.circNonce c) with
              | Some _ => destroyHSCircuit o k
              | None =>
                  if len payload <? 35 then destroyHSCircuit o k
                  else
                    let* e := registerIntro o k (slice payload 3 35) (IntroPoint.ParseEstablishIntroDoSExtension payload) (now env) in
                    match e with
                    | Some _ => destroyHSCircuit o k
                    | None =>
                        addHSStat (fun s => mkStats (u64 (EstIntro s + 1)) (EstRend s) (RendJoined s) (RendExpired s)) ;;
                        sendRelayToClient o k 0 RelayCell.RelayIntroEstablished []
                    end
              end
     end).

Definition handleIntroduce1 (env : cell_env) (o : nat) (k : Z) (payload : bytes) : M (option error) :=
  unless (rejectIfExtended o k)
    (let ack status := sendRelayToClient o k 0 RelayCell.RelayIntroduceAck (IntroPoint.introAckPayload status) in
     match IntroPoint.parseIntroduce1AuthKey payload with
     | None => ack IntroPoint.introAckBadFormat
     | Some auth =>
         let key := hex_encode auth in
         let* slot := get (fun h => introByAuth h !! key) in
         match slot with
         | None => ack IntroPoint.introAckNotRecognized
         | Some s =>
             let '(b, allowed) := IntroPoint.allowIntro2 (introDoS s) (now env) in
             modify (fun h => set_intro h (<[key := mkSlot (circ s) (conn s) b (created s)]> (introByAuth h))) ;;
             if negb allowed then ack IntroPoint.introAckNotRecognized
             else
               let* e := sendRelayToClient (circ s) (conn s) 0 RelayCell.RelayIntroduce2 payload in
               match e with
               | Some _ => ack IntroPoint.introAckCantRelay
               | None => ack IntroPoint.introAckSuccess
               end
         end
     end).

(** The circuits whose slots have expired; the code takes them in the order in
    which Go happens to walk the map. *)
Fixpoint close_expired (l : list hsRoleSlot) : M unit :=
  match l with
  | [] => ret tt
  | s :: l => closeHSCircuit (circ s) (conn s) Cell.DestroyReasonTimeout ;; close_expired l
  end.

Definition reapExpiredRend (t : Z) : M unit :=
  let* dead := get (fun h => (map_to_list (filter (fun kv => unjoinedRendTTL <= t - created kv.2) (rendByCookie h))).*2) in
  modify (fun h => set_rend h (filter (fun kv => ~ unjoinedRendTTL <= t - created kv.2) (rendByCookie h))) ;;
  addHSStat (fun s => mkStats (EstIntro s) (EstRend s) (RendJoined s) (u64 (RendExpired s + len dead))) ;;
  close_expired dead.

Definition registerRend (o : nat) (k : Z) (cookie : bytes) (t : Z) : M (option error) := fun h =>
  match heap h !! o with
  | None => (h, [], Some errCryptoUnavailable)
  | Some c =>
      let key := hex_encode cookie in
      if negb (length cookie =? rendCookieLen)%nat then (h, [], Some errCookie)
      else if (0 <? len (ServerCircuit.introAuth c)) then (h, [], Some errRole)
      else if (0 <? len (ServerCircuit.rendCookie c)) then (h, [], Some errRole)
      else if match rendByCookie h !! key with
              | Some s => match heap h !! circ s with Some c' => negb (CircuitID c' =? CircuitID c) | None => false end
              | None => false
              end then (set_heap h (<[o := ServerCircuit.set_rendCookie c []]> (heap h)), [], Some errCookieInUse)
      else if (maxUnjoinedRend <=? size (rendByCookie h))%nat
      then (set_heap h (<[o := ServerCircuit.set_rendCookie c []]> (heap h)), [], Some errTooMany)
      else
        (set_rend (set_heap h (<[o := ServerCircuit.set_rendCookie c cookie]> (heap h)))
           (<[key := mkSlot o k None t]> (rendByCookie h)), [], None)
  end.

Definition handleEstablishRendezvous (env : cell_env) (o : nat) (k : Z) (payload : bytes) : M (option error) :=
  unless (rejectIfExtended o k)
    (reapExpiredRend (now env) ;;
     if (length payload <? rendCookieLen)%nat then destroyHSCircuit o k
     else
       let* e := registerRend o k (take rendCookieLen payload) (now env) in
       match e with
       | Some _ => destroyHSCircuit o k
       | None =>
           addHSStat (fun s => mkStats (EstIntro s) (u64 (EstRend s + 1)) (RendJoined s) (RendExpired s)) ;;
           sendRelayToClient o k 0 RelayCell.RelayRendezvousEstablished []
       end).

Definition restoreRend (key : bytes) (s : hsRoleSlot) : M unit := modify (fun h =>
  match rendByCookie h !! key with None => set_rend h (<[key := s]> (rendByCookie h)) | Some _ => h end).

Definition joinHSCircuits (a : nat) (aConn : Z) (b : nat) (bConn : Z) : M unit :=
  update_circ a (fun c => ServerCircuit.set_joined c (Some b) (Some bConn)) ;;
  update_circ b (fun c => ServerCircuit.set_joined c (Some a) (Some aConn)).

Definition handleRendezvous1 (env : cell_env) (o : nat) (k : Z) (payload : bytes) : M (option error) :=
  unless (rejectIfExtended o k)
    (reapExpiredRend (now env) ;;
     if (length payload <? rendCookieLen)%nat then destroyHSCircuit o k
     else
       let key := hex_encode (take rendCookieLen payload) in
       let* slot := get (fun h => rendByCookie h !! key) in
       modify (fun h => set_rend h (delete key (rendByCookie h))) ;;
       let* c := circ_at o in
       match slot, c with
       | Some s, Some c =>
           let* r := circ_at (circ s) in
           if match r with Some r => CircuitID r =? CircuitID c | None => true end then destroyHSCircuit o k
           else if match ServerCircuit.joinedCirc c with Some _ => true | None => false end
                   || (0 <? len (ServerCircuit.introAuth c)) || (0 <? len (ServerCircuit.rendCookie c))
           then restoreRend key s ;; destroyHSCircuit o k
           else
             let* e := sendRelayToClient (circ s) (conn s) 0 RelayCell.RelayRendezvous2 (drop rendCookieLen payload) in
             match e with
             | Some _ => restoreRend key s ;; destroyHSCircuit o k
             | None =>
                 joinHSCircuits o k (circ s) (conn s) ;;
                 addHSStat (fun s => mkStats (EstIntro s) (EstRend s) (u64 (RendJoined s + 1)) (RendExpired s)) ;;
                 ret None
             end
       | _, _ => destroyHSCircuit o k
       end).

(** ** Extending *)

Definition registerExtended (clientCircID nextHopCircID : Z) (nextHopAddr : Extend2.address) (nextOR nextNet clientConn : option Z) :
    M (option error) := fun h =>
  match extended h !! clientCircID with
  | Some _ => (h, [], Some errAlreadyExtended)
  | None =>
      (set_extended h (<[clientCircID := mkExtended clientCircID nextHopCircID nextHopAddr nextOR nextNet clientConn 0]> (extended h)),
       [], None)
  end.

Definition registerExtendedCircuit (incomingCircID outgoingCircID : Z) (nextHop : Extend2.address) (nextConn clientConn : Z) :
    M (option error) :=
  let* c := GetCircuit incomingCircID in
  match c with
  | None => ret (Some errNotFound)
  | Some _ => registerExtended incomingCircID outgoingCircID nextHop (Some nextConn) None (Some clientConn)
  end.

Definition sendExtended2 (circuitID : Z) (handshakeResponse : bytes) : M (option error) :=
  match Extend2.extended2_data handshakeResponse with
  | None => ret (Some errTooLong)
  | Some data =>
      let relayCell := RelayCell.mkRelayCell RelayCell.RelayExtended2 0 0 [0; 0; 0; 0] 0 data in
      let* c := GetCircuit circuitID in
      match c with
      | Some (o, c) =>
          match crypto c with
          | Some cc =>
              match RelayCrypto.originateRelay aesEncrypt aesDecrypt sha1 cc relayCell with
              | (cc, Err e) => update_circ o (fun c => set_crypto c cc) ;; ret (Some (errCrypto e))
              | (cc, Ok enc) =>
                  update_circ o (fun c => set_crypto c cc) ;;
                  let* k := get (fun h => clientConns h !! circuitID) in
                  match k with
                  | None => ret (Some errNoClient)
                  | Some k => write k (mkCell circuitID Cell.CmdRelay enc)
                  end
              end
          | None => match RelayCell.Encode relayCell with Ok _ => ret None | Err e => ret (Some (errRelayCell e)) end
          end
      | None => match RelayCell.Encode relayCell with Ok _ => ret None | Err e => ret (Some (errRelayCell e)) end
      end
  end.

Definition HandleExtend2 (env : cell_env) (circuitID : Z) (data : bytes) (clientConn : Z) : M (option error) :=
  match Extend2.parse_extend2 data with
  | Err e => ret (Some (errExtend e))
  | Ok req =>
      match connectToNextHop env (Extend2.r_address req) (Extend2.r_ident req) with
      | None => ret (Some errConnect)
      | Some nextConn =>
          match Extend2.sendCreate2_payload (Extend2.r_htype req) (Extend2.r_hdata req) with
          | None => ret (Some errTooLong)
          | Some payload =>
              unless (write nextConn (mkCell (newOutboundCircID env) Cell.CmdCreate2 payload))
                (meanwhile env ;;
                 match created2 env with
                 | None => ret (Some errCreated2)
                 | Some payload =>
                     match Extend2.relay_response payload with
                     | Err e => ret (Some (errExtend e))
                     | Ok handshakeResponse =>
                         unless (registerExtendedCircuit circuitID (newOutboundCircID env) (Extend2.r_address req) nextConn clientConn)
                           (let* c := GetCircuit circuitID in
                            match c with Some (o, _) => update_circ o ServerCircuit.set_didExtend | None => ret tt end ;;
                            modify (fun h => set_clients h (<[circuitID := clientConn]> (clientConns h))) ;;
                            sendExtended2 circuitID handshakeResponse)
                     end
                 end)
          end
      end
  end.

(** ** Cells for this relay *)

Definition refuseSingleHopIfNeeded (env : cell_env) (o : nat) (k : Z) : M (option error) :=
  match dos env with
  | None => ret None
  | Some g =>
      if negb (RefuseSingleHop g) then ret None
      else
        let* c := circ_at o in
        match c with
        | None => ret None
        | Some c =>
            if ServerCircuit.didExtend c then ret None
            else if ServerCircuit.linkAuthed c && KnownRelay g (ServerCircuit.peerRSA c) (ServerCircuit.peerEd c) then ret None
            else destroy_and_close k (CircuitID c) Cell.DestroyReasonProtocol errSingleHop
        end
  end.

(** [END] with a reason, as [sendStreamDoSEnd] and [rejectExitAttempt] send it. *)
Definition sendStreamDoSEnd (o : nat) (k streamID : Z) : M (option error) := fun h =>
  match heap h !! o with
  | Some c =>
      match crypto c with
      | Some cc =>
          let '(c, out, e) := ServerCircuit.originate_reply sends c k cc streamID RelayCell.RelayEnd [RelayCell.EndReasonMisc] in
          (set_heap h (<[o := c]> (heap h)), out, errServer <$> e)
      | None => (h, [], None)
      end
  | None => (h, [], None)
  end.

Definition applyStreamDoS (env : cell_env) (o : nat) (k streamID : Z) : M (option error) :=
  match dos env with
  | None => ret None
  | Some g =>
      let* c := circ_at o in
      match c with
      | None => ret None
      | Some c =>
          match AllowBeginOrResolve g with
          | StreamOK => ret None
          | StreamClose => destroy_and_close k (CircuitID c) Cell.DestroyReasonResourceLimit errDoSStreamClose
          | StreamRefuse => unless (sendStreamDoSEnd o k streamID) (ret (Some errDoSStreamRefuse))
          end
      end
  end.

(** BEGIN, BEGIN_DIR and RESOLVE pass both guards first. *)
Definition guarded (env : cell_env) (o : nat) (k streamID : Z) (m : M (option error)) : M (option error) :=
  unless (refuseSingleHopIfNeeded env o k) (unless (applyStreamDoS env o k streamID) m).

Definition handle_sendme (env : cell_env) (circuitID k streamID : Z) (data : bytes) : M (option error) :=
  let* e := (fun h =>
    let '(b, m, e) := ExitStreams.HandleSendme (brokenClock h) (exits h) circuitID streamID data (now env) in
    (set_exits h m b, [], e)) in
  match e with
  | Some e => destroy_and_close k circuitID Cell.DestroyReasonProtocol (errExit e)
  | None => ret None
  end.

(** The switch over the relay command. *)
Definition local_command (env : cell_env) (o : nat) (circuitID k : Z) (rc : RelayCell.RelayCell) : M (option error) :=
  let sid := RelayCell.StreamID rc in
  let data := RelayCell.Data rc in
  let cmd := RelayCell.Command rc in
  let control (m : M (option error)) := if negb (sid =? 0) then destroyHSCircuit o k else m in
  if cmd =? RelayCell.RelayBegin then
    guarded env o k sid (on_exits o (fun w => ExitStreams.HandleBegin sends took (network env) (policy env) w k sid data (now env)))
  else if cmd =? RelayCell.RelayBeginDir then
    guarded env o k sid (on_exits o (fun w =>
      ExitStreams.HandleBeginDir sends took (ExitStreams.meanwhile (network env)) (dirDial env) w k sid (now env)))
  else if cmd =? RelayCell.RelayResolve then
    guarded env o k sid (on_exits o (fun w =>
      Resolve.HandleResolve sends took (policy env) (Resolve.mkResolver (ExitStreams.lookupIP (network env)) (lookupPTR env)) w k sid data (now env)))
  else if cmd =? RelayCell.RelayData then
    on_exits o (fun w => ExitStreams.HandleData sends took (ExitStreams.meanwhile (network env)) (bwOK env) (wrote env) w k sid data (now env))
  else if cmd =? RelayCell.RelaySendme then handle_sendme env circuitID k sid data
  else if cmd =? RelayCell.RelayEnd then
    modify (fun h => set_exits h (ExitStreams.HandleEnd (ExitStreams.meanwhile (network env)) (tcp env) (exits h) circuitID sid)
                       (brokenClock h)) ;; ret None
  else if cmd =? RelayCell.RelayExtend2 then HandleExtend2 env circuitID data k
  else if cmd =? RelayCell.RelayTruncate then handleTruncate circuitID
  else if cmd =? RelayCell.RelayEstablishIntro then control (handleEstablishIntro env o k data)
  else if cmd =? RelayCell.RelayEstablishRendezvous then control (handleEstablishRendezvous env o k data)
  else if cmd =? RelayCell.RelayIntroduce1 then control (handleIntroduce1 env o k data)
  else if cmd =? RelayCell.RelayRendezvous1 then control (handleRendezvous1 env o k data)
  else ret None.

Definition handleLocalRelayCell (env : cell_env) (circuitID : Z) (c : Cell) (k : Z) : M (option error) :=
  let* circ := GetCircuit circuitID in
  match circ with
  | None => ret (Some errCryptoUnavailable)
  | Some (o, circ) =>
      match crypto circ with
      | None => ret (Some errCryptoUnavailable)
      | Some cc =>
          let '(cc, r) := RelayCrypto.decryptInboundWithAD aesEncrypt aesDecrypt sha1 cc (Payload c) (RelayCrypto.cgoAD (Command c)) in
          update_circ o (fun c => set_crypto c cc) ;;
          match r with
          | Err RelayCrypto.errDigest =>
              destroy_and_close k circuitID Cell.DestroyReasonProtocol (errCrypto RelayCrypto.errDigest)
          | Err _ => ret None
          | Ok (plain, digest) =>
              modify (fun h => set_exits h (ExitStreams.NoteFwdDigest (exits h) circuitID digest) (brokenClock h)) ;;
              match RelayCrypto.decodeRelay cc plain with
              | Err e => ret (Some (errRelayCell e))
              | Ok rc =>
                  match ServerCircuit.joinedCirc circ, ServerCircuit.joinedConn circ with
                  | Some p, Some pk =>
                      sendRelayToClient p pk (RelayCell.StreamID rc) (RelayCell.Command rc) (RelayCell.Data rc)
                  | _, _ => local_command env o circuitID k rc
                  end
              end
          end
      end
  end.

(** ** Forwarding *)

(** RELAY_EARLY passes eight times, then becomes RELAY. *)
Definition forward_to_next (circuitID : Z) (ext : ExtendedCircuit) (cmd : Z) (payload : bytes) : M (option error) :=
  if cmd =? Cell.CmdRelayEarly then
    if 8 <=? RelayEarlyCount ext then sendToNextHop ext (mkCell (NextHopCircuitID ext) Cell.CmdRelay payload)
    else
      let ext := set_early ext (RelayEarlyCount ext + 1) in
      modify (fun h => set_extended h (<[circuitID := ext]> (extended h))) ;;
      sendToNextHop ext (mkCell (NextHopCircuitID ext) cmd payload)
  else sendToNextHop ext (mkCell (NextHopCircuitID ext) cmd payload).

Definition forwardOpaqueToNextHop (circuitID : Z) (ext : ExtendedCircuit) (c : Cell) : M (option error) :=
  forward_to_next circuitID ext (Command c) (Payload c).

Definition forwardExtendedFromClient (env : cell_env) (circuitID : Z) (ext : ExtendedCircuit) (c : Cell) (k : Z) : M (option error) :=
  let* circ := GetCircuit circuitID in
  match circ with
  | None => forwardOpaqueToNextHop circuitID ext c
  | Some (o, circ) =>
      match crypto circ with
      | None => forwardOpaqueToNextHop circuitID ext c
      | Some cc =>
          let '(cc, r) := RelayCrypto.peelInboundWithAD aesEncrypt aesDecrypt sha1 cc (Payload c) (RelayCrypto.cgoAD (Command c)) in
          update_circ o (fun c => set_crypto c cc) ;;
          match r with
          | Err e => ret (Some (errCrypto e))
          | Ok (peeled, forUs, digest) =>
              if forUs then
                modify (fun h => set_exits h (ExitStreams.NoteFwdDigest (exits h) circuitID digest) (brokenClock h)) ;;
                match RelayCrypto.decodeRelay cc peeled with
                | Err e => ret (Some (errRelayCell e))
                | Ok rc =>
                    if RelayCell.Command rc =? RelayCell.RelaySendme
                    then handle_sendme env circuitID k (RelayCell.StreamID rc) (RelayCell.Data rc)
                    else if RelayCell.Command rc =? RelayCell.RelayTruncate then handleTruncate circuitID
                    else if RelayCell.Command rc =? RelayCell.RelayExtend2 then ret (Some errAlreadyExtended)
                    else ret None
                end
              else forward_to_next circuitID ext (Command c) peeled
          end
      end
  end.

Definition forwardCellToClient (ext : ExtendedCircuit) (c : Cell) : M (option error) :=
  match ClientConn ext with
  | None => ret (Some errNoClient)
  | Some k =>
      if (Command c =? Cell.CmdRelay) || (Command c =? Cell.CmdRelayEarly) then
        let* circ := GetCircuit (ClientCircuitID ext) in
        match circ with
        | None => ret (Some errCryptoUnavailable)
        | Some (o, circ) =>
            match crypto circ with
            | None => ret (Some errCryptoUnavailable)
            | Some cc =>
                if negb (len (Payload c) =? 509) then ret (Some errPayloadLen)
                else
                  let '(cc, r) := RelayCrypto.wrapOutbound aesEncrypt aesDecrypt cc (Payload c) (RelayCrypto.cgoAD (Command c)) in
                  update_circ o (fun c => set_crypto c cc) ;;
                  match r with
                  | Err e => ret (Some (errCrypto e))
                  | Ok enc => write k (mkCell (ClientCircuitID ext) Cell.CmdRelay enc)
                  end
            end
        end
      else write k (mkCell (ClientCircuitID ext) (Command c) (Payload c))
  end.

Definition ForwardRelayCell (env : cell_env) (fromClient : bool) (circuitID : Z) (c : Cell) (k : Z) : M (option error) :=
  let* ext := get (fun h => extended h !! circuitID) in
  match ext with
  | None => handleLocalRelayCell env circuitID c k
  | Some ext =>
      if fromClient then
        let ext := match ClientConn ext with None => set_client ext k | Some _ => ext end in
        modify (fun h => set_extended h (<[circuitID := ext]> (extended h))) ;;
        forwardExtendedFromClient env circuitID ext c k
      else forwardCellToClient ext c
  end.

(** The extension a cell from the next hop belongs to: Go looks through the map in
    no particular order, [pick] being the order it happens to take. *)
Definition find_extended (pick : list (Z * ExtendedCircuit) -> list (Z * ExtendedCircuit)) (nextHopAddr : Extend2.address)
    (circID : Z) (h : CircuitHandler) : option (Z * ExtendedCircuit) :=
  List.find (fun kv => bool_decide (NextHopAddress kv.2 = nextHopAddr) && (NextHopCircuitID kv.2 =? circID))
    (pick (map_to_list (extended h))).

Definition DeliverFromNextHop (pick : list (Z * ExtendedCircuit) -> list (Z * ExtendedCircuit)) (nextHopAddr : Extend2.address)
    (c : Cell) : M unit :=
  let* ext := get (find_extended pick nextHopAddr (CircID c)) in
  match ext with
  | None => ret tt
  | Some (_, ext) =>
      forwardCellToClient ext c ;;
      if Command c =? Cell.CmdDestroy then
        modify (fun h => set_extended h (delete (ClientCircuitID ext) (extended h))) ;;
        CloseCircuit (ClientCircuitID ext)
      else ret tt
  end.

Definition handleRelay (env : cell_env) (k : Z) (c : Cell) : M (option error) :=
  let* circ := GetCircuit (CircID c) in
  match circ with
  | None => sendDestroyCell k (CircID c) Cell.DestroyReasonProtocol
  | Some _ => ForwardRelayCell env true (CircID c) c k
  end.

Definition handleIncomingCell (env : cell_env) (k : Z) (c : Cell) (linkAuthed : bool) (rsaFP edID : bytes) : M (option error) :=
  if Command c =? Cell.CmdCreate2 then handleCreate2Auth env k c linkAuthed rsaFP edID
  else if (Command c =? Cell.CmdRelay) || (Command c =? Cell.CmdRelayEarly) then handleRelay env k c
  else if Command c =? Cell.CmdDestroy then handleDestroy (CircID c)
  else ret None.

End Handlers.

End CircuitHandler.
