(* ===== verification/HsService.v ===== *)
(** * Rendezvous, from the introduction to the shared hop (pkg/onion/service.go, rendezvous1.go, onion.go, circuit_adapter.go)

    The service's handler of INTRODUCE2 with the task that builds the circuit to the
    rendezvous point and answers, and the client's completion of the rendezvous.
    Building the circuit is [CircuitBuild.v]; its result is an argument here. *)

From Stdlib Require Import String.
From S2P Require Import Prelude Conversion GoStrings RelayCell Extend2 IntroPoint CCParams Vegas FlowControl Onion CGO RelayCrypto Ntor NtorV3 CircuitBuild HsNtor EquiX OnionPoW HsIntro CircuitHandler.
Import GoStrings Ntor(Curve, CurveLaws, ScalarMult, ScalarBaseMult, isAllZero) NtorV3(V3Hash, V3HashLaws, sha3_256, shake256).
Import CircuitBuild(circuit, mkCircuit, hop, mkHop, state, hops, flow, keys).

Module HsService.

Record ServiceIntroPoint := mkServiceIntro { CircuitID : Z; EncPriv : bytes; AuthPublic : bytes }.

Record PendingIntro := mkPending {
  Cookie : bytes;
  RendezvousPoint : bytes;
  ClientOnionKey : bytes;
  IntroAuthKey : bytes;
  ReceivedAt : Z;
}.

(** The part of the service that handles introductions; [rendezvousBuilder] tells
    whether there is one. *)
Record Service := mkService {
  introPoints : list ServiceIntroPoint;
  PoWDefensesEnabled : bool;
  powSeeds : OnionPoW.seeds;
  pendingIntros : gmap bytes PendingIntro;
  rendezvousCircuits : gmap bytes Z;
  rendezvousBuilder : bool;
}.

Definition set_seeds (s : Service) (x : OnionPoW.seeds) : Service :=
  mkService (introPoints s) (PoWDefensesEnabled s) x (pendingIntros s) (rendezvousCircuits s) (rendezvousBuilder s).
Definition set_pending (s : Service) (x : gmap bytes PendingIntro) : Service :=
  mkService (introPoints s) (PoWDefensesEnabled s) (powSeeds s) x (rendezvousCircuits s) (rendezvousBuilder s).
Definition set_circuits (s : Service) (x : gmap bytes Z) : Service :=
  mkService (introPoints s) (PoWDefensesEnabled s) (powSeeds s) (pendingIntros s) x (rendezvousBuilder s).

Inductive error :=
| errNoIntroPoint | errParse (e : HsIntro.error) | errPoW (e : OnionPoW.error)
| errCookieLen | errXLen | errNtorKeyLen | errAuthKeyLen | errYLen | errRend (e : HsNtor.error) | errSend
| errNoState | errReceive | errEmptyRendezvous2 | errShortRendezvous2 (n : Z) | errExpand (e : HsNtor.error)
| errNoCircuit | errInstall (e : HsNtor.error) | errHopState (s : FlowControl.State).

(** [AddHSHop] on a circuit with its keys. *)
Definition AddHSHop (c : circuit) (h : hop) : circuit * option error :=
  if negb (bool_decide (state c = FlowControl.StateOpen)) && negb (bool_decide (state c = FlowControl.StateBuilding))
  then (c, Some (errHopState (state c))) else (mkCircuit (state c) (hops c ++ [h]) (flow c), None).

Definition hs_hop (k : Onion.Hop (G := CGO.CGOPair)) : hop := mkHop k [] (lit "hs-rendezvous").

Section Rendezvous.
Context `{Curve} `{V3Hash} (Encrypt : bytes -> bytes -> bytes) (hashx : bytes -> option (Z -> Z)) (blake2b4 : bytes -> bytes).

(** ** The service *)

(** What the task that builds the rendezvous circuit works on. *)
Record task := mkTask { request : HsIntro.Introduce2Request; bPriv : bytes; authPub : bytes }.
Definition cookieStr (t : task) : bytes := hex_encode (HsIntro.RendezvousCookie (request t)).

(** The clock, read three times, the random bytes for a seed, and the blinded key
    and subcredential of the time period. *)
Record intro_env := mkIntroEnv { now : Z; now' : Z; now'' : Z; rnd : option bytes; blinded : bytes; subcred : bytes }.

Definition HandleIntroduce2 (s : Service) (introCircuitID : Z) (introduce2Data : bytes) (e : intro_env) : Service * result error (option task) :=
  match List.find (fun ip => CircuitID ip =? introCircuitID) (introPoints s) with
  | None => (s, Err errNoIntroPoint)
  | Some introPoint =>
      match HsIntro.ParseIntroduce2 Encrypt introduce2Data (EncPriv introPoint) (subcred e) with
      | Err err => (s, Err (errParse err))
      | Ok req =>
          let '(seeds, err) :=
            OnionPoW.verifyIntroducePoW hashx blake2b4 (PoWDefensesEnabled s) (powSeeds s) (now e) (now' e) (rnd e) (HsIntro.Extensions req) (blinded e) in
          let s := set_seeds s seeds in
          match err with
          | Some err => (s, Err (errPoW err))
          | None =>
              let rendezvousAddr := default (lit "unknown") (HsIntro.LinkSpecifierToAddress (HsIntro.LinkSpecifiers req)) in
              let t := mkTask req (EncPriv introPoint) (AuthPublic introPoint) in
              let pending := mkPending (HsIntro.RendezvousCookie req) rendezvousAddr (HsIntro.ClientOnionKey req) (HsIntro.IntroAuthKey req) (now'' e) in
              let s := set_pending s (<[cookieStr t := pending]> (pendingIntros s)) in
              (s, Ok (if rendezvousBuilder s then Some t else None))
          end
      end
  end.

(** [y]: the random bytes of the ephemeral key. *)
Definition BuildRendezvous1Cell (cookie X bPriv authKey : bytes) (serviceEphemeralYPriv y : option bytes) (streamID : Z) :
    result error (RelayCell.RelayCell * bytes) :=
  if negb (length cookie =? 20)%nat then Err errCookieLen
  else if negb (length X =? 32)%nat then Err errXLen
  else if negb (length bPriv =? 32)%nat then Err errNtorKeyLen
  else if negb (length authKey =? 32)%nat then Err errAuthKeyLen
  else
    match match serviceEphemeralYPriv with Some y => Ok y | None => HsNtor.GenerateCurve25519PrivateKey y end with
    | Err e => Err (errRend e)
    | Ok yPriv =>
        if negb (length yPriv =? 32)%nat then Err errYLen
        else
          match HsNtor.HsNtorServiceRend yPriv bPriv X authKey with
          | Err e => Err (errRend e)
          | Ok (handshakeResponse, keySeed) =>
              let payload := zeros 84 in
              let payload := copy_at payload 0 cookie in
              let payload := copy_at payload 20 handshakeResponse in
              Ok (RelayCell.mkRelayCell RelayCell.RelayRendezvous1 0 streamID [0; 0; 0; 0] 0 payload, keySeed)
          end
    end.

(** [sent]: whether the circuit took the cell. *)
Definition SendRendezvous1 (sent : bool) (cookie X bPriv authKey : bytes) (y : option bytes) : option RelayCell.RelayCell * result error bytes :=
  match BuildRendezvous1Cell cookie X bPriv authKey None y 0 with
  | Err e => (None, Err e)
  | Ok (c, keySeed) => if sent then (Some c, Ok keySeed) else (None, Err errSend)
  end.

Definition forget (s : Service) (k : bytes) : Service :=
  set_circuits (set_pending s (delete k (pendingIntros s))) (delete k (rendezvousCircuits s)).

(** The task: the cell it sent, and the circuit whose streams it then serves. *)
Definition rendezvous_task (s : Service) (t : task) (built : option (Z * circuit)) (y : option bytes) (sent : bool) :
    Service * option RelayCell.RelayCell * option circuit :=
  let k := cookieStr t in
  match built with
  | None => (set_pending s (delete k (pendingIntros s)), None, None)
  | Some (id, circ) =>
      let s := set_circuits s (<[k := id]> (rendezvousCircuits s)) in
      let introAuth := from_option IntroAuthKey [] (pendingIntros s !! k) in
      let clientX := from_option ClientOnionKey [] (pendingIntros s !! k) in
      let introAuth := if negb (length introAuth =? 32)%nat then authPub t else introAuth in
      if negb (length introAuth =? 32)%nat || negb (length clientX =? 32)%nat || negb (length (bPriv t) =? 32)%nat then (forget s k, None, None)
      else
        match SendRendezvous1 sent (HsIntro.RendezvousCookie (request t)) clientX (bPriv t) introAuth y with
        | (c, Err _) => (forget s k, c, None)
        | (c, Ok keySeed) =>
            match HsNtor.HsNtorExpandCircuitKeys keySeed with
            | Err _ => (forget s k, c, None)
            | Ok km =>
                match HsNtor.NewHopFromHSKeyMaterialResponder Encrypt km with
                | Err _ => (forget s k, c, None)
                | Ok h =>
                    match AddHSHop circ (hs_hop h) with
                    | (circ, Some _) => (forget s k, c, None)
                    | (circ, None) => (s, c, Some circ)
                    end
                end
            end
        end
  end.

(** ** The client *)

Record RendezvousState := mkState {
  EphemeralPrivate : bytes;
  IntroEncKeyB : bytes;
  StateAuthKey : bytes;
  NegotiateCC : bool;
  SendmeInc : Z;
}.

(** The state the client keeps of a request it has built. *)
Definition state_of (r : HsIntro.IntroduceRequest) (ip : HsIntro.IntroductionPoint) (wantCC : bool) (sendmeInc : Z) : RendezvousState :=
  mkState (HsIntro.EphemeralPrivate r) (HsIntro.EncKey ip) (HsIntro.AuthKey ip) wantCC sendmeInc.

Definition ParseRendezvous2Cell (data : bytes) : result error bytes := if (length data =? 0)%nat then Err errEmptyRendezvous2 else Ok data.

Definition candidates (handshakeData : bytes) : list bytes :=
  let n := HsNtor.HsNtorResponseLen in
  if (length handshakeData =? n)%nat then [handshakeData]
  else [take n handshakeData] ++ (if (n <? length handshakeData)%nat then [drop (length handshakeData - n) handshakeData] else []).

(** The first candidate that verifies; the last error otherwise. *)
Fixpoint try_candidates (st : RendezvousState) (l : list bytes) (last : result error bytes) : result error bytes :=
  match l with
  | [] => last
  | resp :: l =>
      match HsNtor.HsNtorClientRend (EphemeralPrivate st) (IntroEncKeyB st) (StateAuthKey st) resp with
      | Ok seed => Ok seed
      | Err e => try_candidates st l (Err (errRend e))
      end
  end.

Definition rendezvous_keys (st : RendezvousState) (received : option bytes) : result error bytes :=
  match received with
  | None => Err errReceive
  | Some data =>
      let? handshakeData := ParseRendezvous2Cell data in
      if (length handshakeData <? HsNtor.HsNtorResponseLen)%nat then Err (errShortRendezvous2 (len handshakeData))
      else
        let? seed := try_candidates st (candidates handshakeData) (Ok []) in
        match HsNtor.HsNtorExpandCircuitKeys seed with Ok km => Ok km | Err e => Err (errExpand e) end
  end.

Definition applyOnionFlowControl (c : option circuit) (st : RendezvousState) (onionCCParams : CCParams.CCParams) : option circuit :=
  (fun c =>
    if NegotiateCC st && (1 <=? SendmeInc st) then
      mkCircuit (state c) (hops c) (FlowControl.EnableCongestionControl (FlowControl.SetCCParams (flow c) onionCCParams) (SendmeInc st))
    else if FlowControl.CongestionControlEnabled (flow c) then mkCircuit (state c) (hops c) (FlowControl.DisableCongestionControl (flow c))
    else c) <$> c.

Definition InstallHSHop (c : option circuit) (keyMaterial : bytes) : option circuit * option error :=
  match c with
  | None => (None, Some errNoCircuit)
  | Some circ =>
      match HsNtor.NewHopFromHSKeyMaterial Encrypt keyMaterial with
      | Err e => (c, Some (errInstall e))
      | Ok h => let '(circ, e) := AddHSHop circ (hs_hop h) in (Some circ, e)
      end
  end.

(** [received]: the RENDEZVOUS2 cell, if it came in time. *)
Definition CompleteRendezvous (states : gmap Z RendezvousState) (id : Z) (received : option bytes) (c : option circuit) (onionCCParams : CCParams.CCParams) :
    gmap Z RendezvousState * option circuit * option error :=
  match states !! id with
  | None => (states, c, Some errNoState)
  | Some st =>
      match rendezvous_keys st received with
      | Err e => (delete id states, c, Some e)
      | Ok km =>
          let c := applyOnionFlowControl c st onionCCParams in
          let '(c, e) := InstallHSHop c km in
          (delete id states, c, e)
      end
  end.

(** ** Lemmas *)

Lemma pow_lookup r p : HsIntro.PoW r = Some p -> HsIntro.ext_map r !! OnionPoW.introExtPoW = Some (drop 2 (OnionPoW.encodePoWExtension p)).
Proof.
  intros Hp. unfold HsIntro.ext_map, HsIntro.ext_list. rewrite Hp. destruct (HsIntro.RequestCC r); cbn [app foldl Extend2.Type_ Extend2.Data];
    apply lookup_insert_eq.
Qed.

(** The proof in the request opens the gate while its seed is current. *)
Definition admits (s : Service) (e : intro_env) (r : HsIntro.IntroduceRequest) : Prop :=
  PoWDefensesEnabled s = true ->
  exists p, HsIntro.PoW r = Some p /\ OnionPoW.proves hashx blake2b4 (OnionPoW.powSeed (powSeeds s)) (blinded e) p /\ 1 <= OnionPoW.Effort p /\
    length (OnionPoW.powSeed (powSeeds s)) = OnionPoW.powSeedLen /\ length (blinded e) = 32%nat /\
    now e < OnionPoW.powExpire (powSeeds s) /\ now' e <= OnionPoW.powExpire (powSeeds s).

Lemma admitted s e r : HsIntro.pow_wf r -> admits s e r ->
  OnionPoW.verifyIntroducePoW hashx blake2b4 (PoWDefensesEnabled s) (powSeeds s) (now e) (now' e) (rnd e) (HsIntro.ext_map r) (blinded e) =
    (powSeeds s, None).
Proof.
  intros Hw Ha. unfold OnionPoW.verifyIntroducePoW. destruct (PoWDefensesEnabled s) eqn:Hen; [|done]. cbn [negb].
  destruct (Ha Hen) as (p & Hp & Hpr & He & Hl & Hb & Ht & Ht'). rewrite (OnionPoW.ensure_current _ _ _ Hl Ht). cbn [OnionPoW.SuggestedEffort Z.eqb negb andb].
  rewrite (pow_lookup r p Hp). cbn [from_option id]. rewrite OnionPoW.proof_roundtrip by by apply Hw.
  assert (length (drop 2 (OnionPoW.encodePoWExtension p)) =? 0 = false)%nat as -> by by unfold OnionPoW.encodePoWExtension.
  pose proof Hpr as [Hh _]. unfold OnionPoW.paramsForPoWProof. rewrite Hl, Nat.eqb_refl, bool_decide_eq_true_2 by done. cbn [andb]. f_equal.
  apply OnionPoW.proves_verified; [done|done|done| |done]. unfold OnionPoW.expired. cbn [OnionPoW.Expiration]. by apply Z.ltb_ge.
Qed.

Lemma rendezvous1_built cookie X b a y yr resp seed :
  length cookie = 20%nat -> length X = 32%nat -> length b = 32%nat -> length a = 32%nat -> length y = 32%nat ->
  HsNtor.GenerateCurve25519PrivateKey yr = Ok y -> HsNtor.HsNtorServiceRend y b X a = Ok (resp, seed) -> length resp = 64%nat ->
  BuildRendezvous1Cell cookie X b a None yr 0 =
    Ok (RelayCell.mkRelayCell RelayCell.RelayRendezvous1 0 0 [0; 0; 0; 0] 0 (cookie ++ resp), seed).
Proof.
  intros Hc HX Hb Ha Hy Hg Hr Hl. unfold BuildRendezvous1Cell. rewrite Hc, HX, Hb, Ha, Hg, Hy, Hr. cbn [Nat.eqb negb]. do 3 f_equal.
  rewrite (zeros_app_nil 84). rewrite copy_at_zeros by (cbn [length app]; lia). rewrite app_nil_l, copy_at_zeros by lia. rewrite Hc, Hl. cbn. by rewrite app_nil_r.
Qed.

Lemma add_open c h : state c = FlowControl.StateOpen -> AddHSHop c h = (mkCircuit (state c) (hops c ++ [h]) (flow c), None).
Proof. intros Hs. unfold AddHSHop. by rewrite Hs, bool_decide_true. Qed.

Lemma flow_applied st params c : exists f, applyOnionFlowControl (Some c) st params = Some (mkCircuit (state c) (hops c) f).
Proof. unfold applyOnionFlowControl. cbn [fmap option_fmap option_map]. destruct (_ && _); [by eexists|]. destruct (FlowControl.CongestionControlEnabled _); [by eexists|]. exists (flow c). by destruct c. Qed.

(** ** Properties *)

(** C12: The client and the service meet.  A client that introduces itself with valid
    keys at a point of the service (and, where the service asks for it, with a proof
    of work over the current seed) is accepted; the service's task answers with a
    RENDEZVOUS1 cell that starts with the client's cookie; from the rest, which the
    rendezvous point passes on, the client completes the rendezvous.  Both end up
    with one more hop on their circuits, and the two hops mirror each other: what
    one end sends with, the other receives with. *)
Theorem rendezvous_completes `{!CurveLaws} `{!V3HashLaws} s iid sip e r draw ip b x yr y id circ states cid c wantCC inc params :
  HsIntro.IntroPoint r = Some ip -> HsIntro.EncKey ip = ScalarBaseMult b -> length b = 32%nat -> length (HsIntro.Cookie r) = 20%nat ->
  length (HsIntro.AuthKey ip) = 32%nat -> length (HsIntro.Subcredential r) = 32%nat -> length (HsIntro.RendezvousOnionKey r) = 32%nat ->
  1 <= len (HsIntro.RendezvousLinkSpecs r) <= 255 -> Forall Extend2.small_spec (HsIntro.RendezvousLinkSpecs r) -> HsIntro.pow_wf r ->
  HsNtor.GenerateCurve25519PrivateKey draw = Ok x -> length x = 32%nat -> isAllZero (ScalarMult x (HsIntro.EncKey ip)) = false ->
  List.find (fun ip => CircuitID ip =? iid) (introPoints s) = Some sip -> EncPriv sip = b -> subcred e = HsIntro.Subcredential r ->
  rendezvousBuilder s = true -> admits s e r ->
  HsNtor.GenerateCurve25519PrivateKey yr = Ok y -> length y = 32%nat -> isAllZero (ScalarMult x (ScalarBaseMult y)) = false ->
  state circ = FlowControl.StateOpen -> state c = FlowControl.StateOpen ->
  exists r' cell t s1 s2 rc circ' c' hc hs,
    HsIntro.BuildIntroduce1Cell Encrypt (Some r) draw = (Some r', Ok cell) /\
    HandleIntroduce2 s iid cell e = (s1, Ok (Some t)) /\
    rendezvous_task s1 t (Some (id, circ)) yr true = (s2, Some rc, Some circ') /\
    take CircuitHandler.rendCookieLen (RelayCell.Data rc) = HsIntro.Cookie r /\
    CompleteRendezvous (<[cid := state_of r' ip wantCC inc]> states) cid (Some (drop CircuitHandler.rendCookieLen (RelayCell.Data rc))) (Some c) params =
      (delete cid states, Some c', None) /\
    hops circ' = hops circ ++ [hs_hop hs] /\ hops c' = hops c ++ [hs_hop hc] /\ HsNtor.mirrored hc hs.
Proof.
  intros Hip HB Hb Hc Ha Hsub Hk Hn Hs Hw Hx Hlx Hz Hfind Hpriv Hsc Hbuild Hadm Hy Hly Hzy Hopen Hopenc.
  assert (length (HsIntro.EncKey ip) = 32%nat) as HlB by (rewrite HB; by apply Ntor.base_length).
  destruct (HsIntro.introduce_built Encrypt r draw ip x) as (r' & cell & Hcell & Hx'); try done.
  destruct (HsIntro.introduce_parsed Encrypt r draw r' cell ip b) as (Hparse & Hpub & _); try done. rewrite Hpub, Hx' in Hparse.
  rewrite HB in Hz. destruct (HsNtor.rend_agrees Encrypt x (HsIntro.AuthKey ip) b y) as (resp & seed & km & hc & hs & Hserv & Hcl & Hkm & Hhc & Hhs & Hmir & Hresp); try done.
  set (req := HsIntro.mkRequest _ _ _ _ _) in Hparse. set (t := mkTask req b (AuthPublic sip)). unfold HsNtor.HsNtorResponseLen in Hresp.
  assert (exists s1, HandleIntroduce2 s iid cell e = (s1, Ok (Some t)) /\
    exists pending, pendingIntros s1 !! cookieStr t = Some pending /\ IntroAuthKey pending = HsIntro.AuthKey ip /\ ClientOnionKey pending = ScalarBaseMult x)
    as (s1 & Hh & pending & Hpend & Hpa & Hpx).
  { unfold HandleIntroduce2. rewrite Hfind, Hpriv, Hsc, Hparse. cbn [HsIntro.Extensions req]. rewrite admitted by done. cbn [rendezvousBuilder set_pending set_seeds]. rewrite Hbuild. eexists. split; [done|].
    eexists. cbn [pendingIntros set_pending]. rewrite lookup_insert_eq. split; [done|]. done. }
  exists r', cell, t, s1, (set_circuits s1 (<[cookieStr t := id]> (rendezvousCircuits s1))).
  exists (RelayCell.mkRelayCell RelayCell.RelayRendezvous1 0 0 [0; 0; 0; 0] 0 (HsIntro.Cookie r ++ resp)), (mkCircuit (state circ) (hops circ ++ [hs_hop hs]) (flow circ)).
  destruct (flow_applied (state_of r' ip wantCC inc) params c) as [f Hf].
  exists (mkCircuit (state c) (hops c ++ [hs_hop hc]) f), hc, hs. split_and!; try done.
  - unfold rendezvous_task. cbn [pendingIntros set_circuits]. rewrite Hpend. cbn [from_option]. rewrite Hpa, Hpx, Ha. cbn [Nat.eqb negb orb].
    rewrite Ntor.base_length by done. change (bPriv t) with b. rewrite Hb. cbn [Nat.eqb negb orb]. unfold SendRendezvous1. change (HsIntro.RendezvousCookie (request t)) with (HsIntro.Cookie r).
    rewrite (rendezvous1_built _ _ _ _ y yr resp seed); try done; [|by apply Ntor.base_length]. rewrite Hkm, Hhs, add_open by done. by rewrite Ha.
  - cbn [RelayCell.Data]. by apply take_app_length'.
  - cbn [RelayCell.Data]. rewrite drop_app_length' by done. unfold CompleteRendezvous. rewrite lookup_insert_eq. unfold rendezvous_keys, ParseRendezvous2Cell.
    rewrite Hresp. cbn [Nat.eqb result_bind]. rewrite Hresp. cbn [HsNtor.HsNtorResponseLen Nat.ltb Nat.leb]. unfold candidates. rewrite Hresp. cbn [HsNtor.HsNtorResponseLen Nat.eqb].
    cbn [try_candidates]. cbn [EphemeralPrivate IntroEncKeyB StateAuthKey state_of]. rewrite Hx', HB, Hcl. cbn [result_bind]. rewrite Hkm. cbn [result_bind].
    rewrite Hf. cbn [InstallHSHop]. rewrite Hhc, add_open by done. by rewrite delete_insert_eq.
Qed.

(** What a task leaves behind when it has served its client. *)
Lemma task_served s t id circ y sent s' rc circ' :
  rendezvous_task s t (Some (id, circ)) y sent = (s', rc, Some circ') ->
  flow circ' = flow circ /\ pendingIntros s' = pendingIntros s /\ rendezvousCircuits s' = <[cookieStr t := id]> (rendezvousCircuits s).
Proof.
  unfold rendezvous_task. destruct (_ || _); [done|]. destruct (SendRendezvous1 _ _ _ _ _ _) as [c [seed|]]; [|done].
  destruct (HsNtor.HsNtorExpandCircuitKeys seed) as [km|]; [|done]. destruct (HsNtor.NewHopFromHSKeyMaterialResponder _ km) as [h|]; [|done].
  destruct (AddHSHop circ (hs_hop h)) as [c' [|]] eqn:Hadd; [done|]. intros [= <- <- <-]. unfold AddHSHop in Hadd. destruct (_ && _); [done|].
  injection Hadd as <-. done.
Qed.

(** The two ends of a rendezvous may count cells differently.  Without congestion
    control negotiated in the introduction, the client's circuit is on classic
    windows once the rendezvous is complete; the service's circuit stays on whatever
    the hops of its own path negotiated. *)
Theorem rendezvous_windows_differ s t id circ y sent s' rc circ' states cid st received c params states' c' :
  rendezvous_task s t (Some (id, circ)) y sent = (s', rc, Some circ') -> FlowControl.CongestionControlEnabled (flow circ) = true ->
  states !! cid = Some st -> NegotiateCC st = false -> CompleteRendezvous states cid received (Some c) params = (states', Some c', None) ->
  FlowControl.CongestionControlEnabled (flow circ') = true /\ FlowControl.CongestionControlEnabled (flow c') = false.
Proof.
  intros (Hfl & _)%task_served Hen Hst Hcc Hcomp. split; [by rewrite Hfl|]. unfold CompleteRendezvous in Hcomp. rewrite Hst in Hcomp.
  destruct (rendezvous_keys st received) as [km|]; [|done]. unfold applyOnionFlowControl in Hcomp. rewrite Hcc in Hcomp. cbn [fmap option_fmap option_map andb] in Hcomp.
  set (c1 := if FlowControl.CongestionControlEnabled (flow c) then _ else _) in Hcomp.
  assert (FlowControl.CongestionControlEnabled (flow c1) = false) as H1 by (unfold c1; by destruct (FlowControl.CongestionControlEnabled (flow c)) eqn:Hc).
  clearbody c1. unfold InstallHSHop in Hcomp. destruct (HsNtor.NewHopFromHSKeyMaterial _ km) as [h|]; [|done].
  unfold AddHSHop in Hcomp. destruct (_ && _); [done|]. injection Hcomp as _ <-. done.
Qed.

(** An introduction that was served is never forgotten: the tables keep its cookie. *)
Theorem served_introductions_kept s t id circ y sent s' rc circ' pending :
  rendezvous_task s t (Some (id, circ)) y sent = (s', rc, Some circ') -> pendingIntros s !! cookieStr t = Some pending ->
  pendingIntros s' !! cookieStr t = Some pending /\ rendezvousCircuits s' !! cookieStr t = Some id.
Proof. intros (_ & -> & ->)%task_served Hp. split; [done|]. apply lookup_insert_eq. Qed.

End Rendezvous.

(** ** A concrete rendezvous *)

#[local] Existing Instances Ntor.toy_curve Ntor.toy_curve_laws NtorV3.toy_v3_hash NtorV3.toy_v3_laws.

Lemma rendezvous_completes_witness :
  let s := mkService [mkServiceIntro 4 (repeat 9 32) (repeat 7 32)] false (OnionPoW.mkSeeds [] [] 0) ∅ ∅ true in
  let open := mkCircuit FlowControl.StateOpen [] FlowControl.new_flow in
  exists r' cell t s1 s2 rc circ' c',
    HsIntro.BuildIntroduce1Cell RelayCrypto.toy_block (Some HsIntro.sample_request) (Some (repeat 64 32)) = (Some r', Ok cell) /\
    HandleIntroduce2 RelayCrypto.toy_block (fun _ => None) (fun _ => []) s 4 cell (mkIntroEnv 0 0 0 None (zeros 32) (repeat 6 32)) = (s1, Ok (Some t)) /\
    rendezvous_task RelayCrypto.toy_block s1 t (Some (8, open)) (Some (repeat 72 32)) true = (s2, Some rc, Some circ') /\
    CompleteRendezvous RelayCrypto.toy_block {[2 := state_of r' HsIntro.sample_point false 0]} 2 (Some (drop 20 (RelayCell.Data rc))) (Some open)
      CCParams.DefaultCCParams = (∅, Some c', None).
Proof.
  intros s open.
  destruct (rendezvous_completes RelayCrypto.toy_block (fun _ => None) (fun _ => []) s 4 (mkServiceIntro 4 (repeat 9 32) (repeat 7 32))
    (mkIntroEnv 0 0 0 None (zeros 32) (repeat 6 32)) HsIntro.sample_request (Some (repeat 64 32)) HsIntro.sample_point (repeat 9 32) (repeat 64 32)
    (Some (repeat 72 32)) (repeat 72 32) 8 open ∅ 2 open false 0 CCParams.DefaultCCParams)
    as (r' & cell & t & s1 & s2 & rc & circ' & c' & hc & hs & W1 & W2 & W3 & _ & W4 & _); try reflexivity.
  - vm_compute. split; discriminate.
  - apply Forall_cons. split; [|apply Forall_nil; exact I]. vm_compute. discriminate.
  - intros p. discriminate.
  - intros Hen. discriminate.
  - exists r', cell, t, s1, s2, rc, circ', c'. split; [exact W1|split; [exact W2|split; [exact W3|exact W4]]].
Defined.

End HsService.
