(* ===== verification/BuiltCircuit.v ===== *)
(** * A built circuit is a channel (pkg/circuit/builder.go with pkg/relay)

    The client's building of a circuit, joined with the relays it is built over:
    CREATE2 reaches the guard, EXTEND2 travels over the circuit built so far, the
    last relay passes the handshake on, and the answer comes back.  What the two
    ends hold afterwards is a circuit in step. *)

From S2P Require Import Prelude Conversion GoStrings Cell RelayCell FlowControl CGO Onion RelayCrypto Extend2 Ntor NtorV3 CircuitBuild ServerCircuit ExitStreams CircuitHandler.
Import GoStrings Ntor(Curve, CurveLaws, NtorHash, NtorHashLaws, ScalarMult, ScalarBaseMult, isAllZero) NtorV3(V3Hash, V3HashLaws).
Import Cell(Cell, mkCell, CircID, Command, Payload) Extend2(outcome, Done, Fail, Panic) RelayCrypto(event, Send, Reply, net, mkDelivery).
Import CircuitBuild.

Module BuiltCircuit.

(** ** The network *)

(** A relay that answers: its keys, the ephemeral key it draws, what fills the
    link cells, and how the relay cells of the exchange are laid out. *)
Record peer := mkPeer {
  relay_keys : RelayKeys;
  relay_draw : bytes;
  pad1 : bytes;
  pad2 : bytes;
  encode : bool -> RelayCell.RelayCell -> bytes;
}.

Definition set_keys (c : circuit) (ks : list (Onion.Hop (G := CGO.CGOPair))) : circuit :=
  mkCircuit (state c) (zip_with (fun h k => mkHop k (RendCircNonce h) (Fingerprint h)) (hops c) ks) (flow c).

Definition net_of (w : list RelayCrypto.circuitCrypto) (c : circuit) : net := (keys <$> hops c, w).

Definition kind (n : net) (i : nat) : bool := default false ((Onion.usesCGO <$> n.1) !! i).

Definition message_of (rc : RelayCell.RelayCell) : Z * Z * bytes := (RelayCell.Command rc, RelayCell.StreamID rc, RelayCell.Data rc).

Section Net.
Context (Encrypt Decrypt : bytes -> bytes -> bytes) (H : bytes -> bytes) `{Curve} `{NtorHash} `{V3Hash}.

(** The guard answers a CREATE2, and has the keys of the circuit. *)
Definition answer_created (p : peer) (w : list RelayCrypto.circuitCrypto) (payload : bytes) :
    list RelayCrypto.circuitCrypto * option Cell :=
  match relay_creates Encrypt (Some (relay_draw p)) (relay_keys p) (payload ++ pad1 p) with
  | None => (w, None)
  | Some (created2, cc) => (w ++ [cc], Some (mkCell 0 Cell.CmdCreated2 (created2 ++ pad2 p)))
  end.

(** A relay cell crosses the circuit; one that is not laid out as its message
    says, or that another hop takes for its own, is lost. *)
Definition cross (n : net) (ev : bytes -> event) (i : nat) (p : peer) (rc : RelayCell.RelayCell) : net * option (Z * (Z * Z * bytes)) :=
  let payload := encode p (kind n i) rc in
  if bool_decide (RelayCrypto.decode (kind n i) payload = Some (message_of rc)) &&
     RelayCrypto.undisturbed Encrypt Decrypt H n (ev payload)
  then
    match RelayCrypto.net_step Encrypt Decrypt H n (ev payload) with
    | (n, Some (mkDelivery place (Some m) _ _)) => (n, Some (place, m))
    | (n, _) => (n, None)
    end
  else (n, None).

(** EXTEND2 to the last hop in a RELAY_EARLY cell, and its EXTENDED2. *)
Definition answer_extended (p : peer) (w : list RelayCrypto.circuitCrypto) (c : circuit) (rc : RelayCell.RelayCell) :
    list RelayCrypto.circuitCrypto * circuit * option RelayCell.RelayCell :=
  let last := pred (length (hops c)) in
  match cross (net_of w c) (Send last RelayCrypto.cgoADRelayEarly) last p rc with
  | (n, None) => (n.2, set_keys c n.1, None)
  | (n, Some (place, (cmd, _, data))) =>
      match (if cmd =? RelayCell.RelayExtend2 then relay_extends Encrypt (Some (relay_draw p)) (relay_keys p) (pad1 p) (pad2 p) data else None) with
      | None => (n.2, set_keys c n.1, None)
      | Some (extended2, cc) =>
          match cross n (Reply (Z.to_nat place)) (Z.to_nat place) p
                  (RelayCell.mkRelayCell RelayCell.RelayExtended2 0 0 [0; 0; 0; 0] 0 extended2) with
          | (n, None) => (n.2, set_keys c n.1, None)
          | (n, Some (_, (cmd, sid, data))) =>
              (n.2 ++ [cc], set_keys c n.1, Some (RelayCell.mkRelayCell cmd 0 sid [0; 0; 0; 0] (len data) data))
          end
      end
  end.

(** The network the builder works over: [peers i] is where hop [i] leads. *)
Definition network (draws : nat -> option bytes) (peers : nat -> peer) : build_env (list RelayCrypto.circuitCrypto) :=
  mkBuildEnv true draws (answer_created (peers 0%nat)) (fun i => answer_extended (peers i)).

(** ** Lemmas *)

Context `{!CurveLaws} `{!NtorHashLaws} `{!V3HashLaws}.
Context (Encrypt_length : forall k b, length k = 16%nat -> length b = 16%nat -> length (Encrypt k b) = 16%nat).
Context (Decrypt_length : forall k b, length k = 16%nat -> length b = 16%nat -> length (Decrypt k b) = 16%nat).
Context (Decrypt_Encrypt : forall k b, length k = 16%nat -> length b = 16%nat -> Decrypt k (Encrypt k b) = b).
Context (Encrypt_Decrypt : forall k b, length k = 16%nat -> length b = 16%nat -> Encrypt k (Decrypt k b) = b).
Context (H_length : forall m, length (H m) = 20%nat).

Lemma net_of_set_keys w c ks : length ks = length (hops c) -> net_of w (set_keys c ks) = (ks, w).
Proof.
  intros Hl. unfold net_of, set_keys. cbn [hops]. f_equal. revert ks Hl.
  induction (hops c) as [|h hs IH]; intros [|k ks] Hl; [done..|]. cbn. f_equal. apply IH. by injection Hl.
Qed.

Lemma set_keys_length c ks : length ks = length (hops c) -> length (hops (set_keys c ks)) = length (hops c).
Proof. intros Hl. unfold set_keys. cbn [hops]. rewrite length_zip_with. lia. Qed.

Lemma htype_cases r : HandshakeTypeFor r = 2 \/ HandshakeTypeFor r = 3.
Proof. unfold HandshakeTypeFor. destruct (default false _); [by right | by left]. Qed.

Lemma create2_payload_inv htype data payload :
  htype = 2 \/ htype = 3 -> Extend2.create2_payload htype data = Ok payload ->
  len data <= 65535 /\ payload = PutUint16 htype ++ PutUint16 (len data) ++ data.
Proof.
  intros Ht Hc. unfold Extend2.create2_payload in Hc. destruct (Z.le_gt_cases (len data) MaxUint16) as [Hl|Hl];
    [|by rewrite Conversion.SafeLenToUint16_large in Hc by lia].
  rewrite Conversion.SafeLenToUint16_small in Hc by done. unfold MaxUint16 in Hl. split; [lia|].
  pose proof (Extend2.create2_image htype data ltac:(lia)) as Hi. unfold Extend2.sendCreate2_payload in Hi.
  rewrite (proj2 (Z.ltb_ge _ _)) in Hi by lia. pose proof (len_nonneg data).
  rewrite u16_id in Hi by (unfold is_u; lia). rewrite u16_id in Hc by (unfold is_u; lia). congruence.
Qed.

Lemma response_short draw k htype data resp km nonce :
  (forall y, draw = Some y -> length y = 32%nat) ->
  create2_handshake Encrypt draw k htype data = Some (resp, km, nonce) -> len resp <= 68.
Proof.
  intros Hy. unfold create2_handshake. destruct (htype =? 2).
  - destruct (Ntor.NtorServerHandshakeWithNonce _ _ _ _) as [[[r1 k1] n1]|] eqn:Hs; [|done]. intros [= -> -> ->].
    unfold Ntor.NtorServerHandshakeWithNonce in Hs. apply result_bind_ok in Hs as ([r1 e1] & Hs & Hr).
    apply Ntor.server_answers in Hs as (y & X & _ & _ & _ & _ & [Hd|[=]] & -> & _).
    apply result_bind_ok in Hr as ([k1 n1] & _ & [= <- <- <-]).
    unfold len. rewrite length_app, Ntor.auth_length, Ntor.base_length by by apply Hy. lia.
  - destruct (htype =? 3); [|done]. cbv zeta.
    destruct (NtorV3.ntorV3ServerHandshakeCore _ _ _ _ _ _ _) as [[[r1 k1] n1]|] eqn:Hs; [|done]. intros [= -> -> ->].
    apply NtorV3.v3_server_answers in Hs. cbv zeta in Hs.
    destruct Hs as (y & X & enc & cm & cgo & _ & Hd & _ & _ & _ & _ & _ & _ & _ & encSM & He & ->).
    cbn [default] in He. match type of He with NtorV3.ntorV3AESCTR _ ?k ?m = _ => destruct (NtorV3.aesctr_spec Encrypt k m) as (c' & Hc & _ & Hl) end.
    + unfold NtorV3.final_keys. rewrite length_take, NtorV3.kdf_length. lia.
    + rewrite Hc in He. injection He as <-. unfold id in *. change (length (NtorV3.EncodeNtorV3Extensions _)) with 4%nat in Hl.
      unfold len. rewrite !length_app, NtorV3.sha3_length, Hl, Ntor.base_length by by apply Hy. lia.
    + apply _.
Qed.

(** What the relay makes of a CREATE2, and of an EXTEND2, is the handshake. *)
Lemma relay_creates_inv draw k htype data pad created2 cc :
  htype = 2 \/ htype = 3 -> len data <= 65535 -> (forall y, draw = Some y -> length y = 32%nat) ->
  relay_creates Encrypt draw k ((PutUint16 htype ++ PutUint16 (len data) ++ data) ++ pad) = Some (created2, cc) ->
  exists resp km nonce, create2_handshake Encrypt draw k htype data = Some (resp, km, nonce) /\
    RelayCrypto.newCircuitCrypto Encrypt km = Ok cc /\ created2 = PutUint16 (len resp) ++ resp /\ len resp <= 68.
Proof.
  intros Ht Hl Hy Hr. unfold relay_creates in Hr. rewrite Extend2.parse_create2_image in Hr by (try done; unfold is_u; lia).
  destruct (negb _); [done|]. destruct (create2_handshake _ _ _ _ _) as [[[resp km] nonce]|] eqn:Hc; [|done].
  pose proof (response_short _ _ _ _ _ _ _ Hy Hc) as Hs. rewrite Extend2.created2_image in Hr by lia.
  destruct (RelayCrypto.newCircuitCrypto Encrypt km) as [cc'|] eqn:Hn; [|done]. injection Hr as <- <-. by exists resp, km, nonce.
Qed.

Lemma relay_extends_inv draw k pad1 pad2 x2 a ident htype data extended2 cc :
  Extend2.parse_extend2 x2 = Ok (Extend2.mkReq a ident htype data) ->
  htype = 2 \/ htype = 3 -> len data <= 65535 -> (forall y, draw = Some y -> length y = 32%nat) ->
  relay_extends Encrypt draw k pad1 pad2 x2 = Some (extended2, cc) ->
  exists resp km nonce, create2_handshake Encrypt draw k htype data = Some (resp, km, nonce) /\
    RelayCrypto.newCircuitCrypto Encrypt km = Ok cc /\ extended2 = PutUint16 (len resp) ++ resp /\ len resp <= 68.
Proof.
  intros Hp Ht Hl Hy Hr. unfold relay_extends in Hr. rewrite Hp in Hr. cbn [Extend2.r_htype Extend2.r_hdata] in Hr.
  rewrite Extend2.create2_image in Hr by done. destruct (relay_creates _ _ _ _) as [[created2 cc']|] eqn:Hc; [|done].
  destruct (relay_creates_inv _ _ _ _ _ _ _ Ht Hl Hy Hc) as (resp & km & nonce & Hh & Hn & -> & Hs).
  rewrite Extend2.relay_response_image in Hr by lia. rewrite Extend2.extended2_image in Hr by lia. cbn in Hr.
  injection Hr as <- <-. by exists resp, km, nonce.
Qed.

(** The hop the client adds when it finishes the handshake is in step with the relay. *)
Lemma finish_in_step draw0 e htype data draw k resp km nonce cc pad c w e' c' :
  keeps Encrypt draw0 e htype data -> (forall y, draw = Some y -> length y = 32%nat) ->
  create2_handshake Encrypt draw k htype data = Some (resp, km, nonce) -> RelayCrypto.newCircuitCrypto Encrypt km = Ok cc ->
  len resp <= 68 -> RelayCrypto.in_step (net_of w c) ->
  finish_body Encrypt ((PutUint16 (len resp) ++ resp) ++ pad) e c = (e', c', Done tt) ->
  RelayCrypto.in_step (net_of (w ++ [cc]) c') /\ length (hops c') = S (length (hops c)).
Proof.
  intros Hk Hy Hc Hn Hl Hi Hf. unfold finish_body in Hf. rewrite Extend2.handshake_response_image in Hf by lia.
  destruct (finishHandshake Encrypt resp e c) as [[e1 c1] [x|]] eqn:Hfin; [done|]. injection Hf as <- <-.
  destruct (handshake_matches Encrypt _ _ _ _ _ _ _ _ _ _ _ _ Hk Hy Hc Hfin) as (h & Hh & _ & _ & Hd & _).
  unfold RelayCrypto.in_step, net_of in *. cbn [fst snd] in *. rewrite Hh, fmap_app, length_app. split; [|cbn; lia].
  apply Forall2_app; [done|]. constructor; [|done]. by eapply RelayCrypto.keys_matched.
Qed.

(** What crosses the circuit arrives. *)
Lemma cross_arrives n ev i p rc n' place m :
  (ev = Send i RelayCrypto.cgoADRelayEarly \/ ev = Reply i) -> RelayCrypto.in_step n -> cross n ev i p rc = (n', Some (place, m)) ->
  RelayCrypto.in_step n' /\ place = Z.of_nat i /\ m = message_of rc /\ Onion.usesCGO <$> n'.1 = Onion.usesCGO <$> n.1.
Proof.
  intros Hev Hi Hc. unfold cross in Hc. set (payload := encode p (kind n i) rc) in Hc.
  destruct (bool_decide _ && _) eqn:Hb; [|done]. apply andb_true_iff in Hb as [Hd%bool_decide_eq_true Hu].
  pose proof (RelayCrypto.net_step_kinds Encrypt Decrypt H n (ev payload)) as Hkind.
  destruct (RelayCrypto.step_arrives Encrypt Decrypt H Encrypt_length Decrypt_length Decrypt_Encrypt Encrypt_Decrypt H_length n (ev payload) Hi Hu) as [Hi' Ha].
  destruct (RelayCrypto.net_step Encrypt Decrypt H n (ev payload)) as [n1 d]. cbn [fst snd] in *.
  assert (exists tag, d = Some (mkDelivery (Z.of_nat i) (Some (message_of rc)) tag tag)) as [tag ->].
  { destruct Ha as [tag Ha]. exists tag. unfold kind in Hd. destruct Hev as [-> | ->]; rewrite Ha; by rewrite Hd. }
  injection Hc as <- <- <-. by split_and!.
Qed.

Lemma generate_keeps' draw r e e' data :
  generateHandshakeData Encrypt draw (HandshakeTypeFor r) (SetTargetRelay r e) = (e', Ok data) ->
  keeps Encrypt draw e' (HandshakeTypeFor r) data /\ targetRelay e' = Some r.
Proof.
  intros Hg. split; [by eapply generate_keeps|]. pose proof (generate_target Encrypt draw (HandshakeTypeFor r) (SetTargetRelay r e)) as Ht.
  by rewrite Hg in Ht.
Qed.

(** The first hop. *)
Lemma first_hop_in_step draw p r w w' e e' c c' :
  length (relay_draw p) = 32%nat -> RelayCrypto.in_step (net_of w c) ->
  CreateFirstHop Encrypt true draw (answer_created p) (HandshakeTypeFor r) w (SetTargetRelay r e) c = (w', e', c', Done tt) ->
  RelayCrypto.in_step (net_of w' c') /\ length (hops c') = S (length (hops c)).
Proof.
  intros Hy Hi Hc. unfold CreateFirstHop in Hc. cbn [negb] in Hc.
  destruct (generateHandshakeData Encrypt draw _ _) as [e1 [data|]] eqn:Hg; [|done].
  apply generate_keeps' in Hg as [Hk _]. pose proof (htype_cases r) as Ht.
  destruct (Extend2.create2_payload _ data) as [payload|] eqn:Hp; [|done]. apply create2_payload_inv in Hp as [Hl ->]; [|done].
  unfold answer_created in Hc. destruct (relay_creates _ _ _ _) as [[created2 cc]|] eqn:Hr; [|done].
  assert (forall y, Some (relay_draw p) = Some y -> length y = 32%nat) as Hy' by by intros y [= <-].
  destruct (relay_creates_inv _ _ _ _ _ _ _ Ht Hl Hy' Hr) as (resp & km & nonce & Hh & Hn & -> & Hs).
  cbn [ProcessCreated2 Command Payload] in Hc. change (negb (Cell.CmdCreated2 =? Cell.CmdCreated2)) with false in Hc. cbv iota in Hc.
  destruct (finish_body _ _ _ _) as [[e2 c2] r2] eqn:Hf. injection Hc as <- <- <- ->.
  by eapply finish_in_step.
Qed.

(** An extension. *)
Definition ports_ok (n : node) : Prop :=
  (forall ip port, address n = Some (ip, port) -> is_u 16 port) /\
  (forall ip port, Extend2.extraIPv6LinkSpec (Some (relay (target n))) = Some (ip, port) -> is_u 16 port).

Lemma answer_extended_inv p w w' c c' rc answer :
  RelayCrypto.in_step (net_of w c) -> RelayCell.Command rc = RelayCell.RelayExtend2 ->
  answer_extended p w c rc = (w', c', Some answer) ->
  exists w2 ks cc, w' = w2 ++ [cc] /\ c' = set_keys c ks /\ length ks = length (hops c) /\ RelayCrypto.in_step (net_of w2 c') /\
    RelayCell.Command answer = RelayCell.RelayExtended2 /\
    relay_extends Encrypt (Some (relay_draw p)) (relay_keys p) (pad1 p) (pad2 p) (RelayCell.Data rc) = Some (RelayCell.Data answer, cc).
Proof.
  intros Hi Hcmd Ha. unfold answer_extended in Ha.
  destruct (cross _ _ _ _ _) as [n1 [[place m]|]] eqn:Hx; [|done].
  apply cross_arrives in Hx as (Hi1 & -> & -> & Hk1); [|by left|done]. rewrite Nat2Z.id in Ha. cbn [message_of] in Ha. rewrite Hcmd in Ha.
  change (RelayCell.RelayExtend2 =? RelayCell.RelayExtend2) with true in Ha. cbv iota in Ha.
  destruct (relay_extends _ _ _ _ _ _) as [[x cc]|] eqn:Hr; [|done].
  destruct (cross n1 _ _ _ _) as [n2 [[place m]|]] eqn:Hx; [|done].
  apply cross_arrives in Hx as (Hi2 & _ & -> & Hk2); [|by right|done]. cbn [message_of RelayCell.Command RelayCell.Data RelayCell.StreamID] in Ha.
  injection Ha as <- <- <-. assert (length n2.1 = length (hops c)) as Hl.
  { apply (f_equal length) in Hk1, Hk2. rewrite !length_fmap in Hk1, Hk2. unfold net_of in Hk1. cbn [fst] in Hk1. rewrite length_fmap in Hk1. lia. }
  exists n2.2, n2.1, cc. rewrite net_of_set_keys by done. split_and!; done.
Qed.

Lemma extension_in_step draw p n w w' e e' c c' :
  length (relay_draw p) = 32%nat -> ports_ok n -> RelayCrypto.in_step (net_of w c) ->
  ExtendCircuit Encrypt draw (answer_extended p) (address n) (HandshakeTypeFor (target n)) w (SetTargetRelay (target n) e) c =
    (w', e', c', Done tt) ->
  RelayCrypto.in_step (net_of w' c') /\ length (hops c') = S (length (hops c)).
Proof.
  intros Hy [Hpt Hpx] Hi He. unfold ExtendCircuit in He.
  destruct (generateHandshakeData Encrypt draw _ _) as [e1 [data|]] eqn:Hg; [|done].
  apply generate_keeps' in Hg as [Hk Htg]. pose proof (htype_cases (target n)) as Ht. rewrite Htg in He. cbn [fmap option_fmap option_map] in He.
  destruct (Extend2.buildExtend2Data _ _ _ _ _) as [x2|] eqn:Hb; [|done].
  destruct (address n) as [[ip port]|] eqn:Had; [|done].
  destruct (Extend2.extend2_roundtrip _ _ _ _ _ _ _ Hb (Hpt _ _ eq_refl) Hpx Ht) as (a & rsa & ed & _ & _ & Hparse).
  assert (len data <= 65535) as Hl.
  { unfold Extend2.buildExtend2Data in Hb. apply result_bind_ok in Hb as ([spec v6] & _ & Hb).
    apply result_bind_ok in Hb as ([r2 e2] & _ & Hb). apply result_bind_ok in Hb as (u & _ & Hb). cbv zeta in Hb.
    apply result_bind_ok in Hb as (hl & Hs & _). destruct (Z.le_gt_cases (len data) MaxUint16) as [Hd|Hd]; [exact Hd|].
    by rewrite Conversion.SafeLenToUint16_large in Hs by lia. }
  destruct (RelayCell.NewRelayCell _ _ _) as [rc|] eqn:Hn; [|done].
  assert (RelayCell.Command rc = RelayCell.RelayExtend2 /\ RelayCell.Data rc = x2) as [Hcmd Hdata].
  { unfold RelayCell.NewRelayCell in Hn. repeat case_match; try done. apply result_bind_ok in Hn as (? & _ & [= <-]). done. }
  destruct (answer_extended p w c rc) as [[w1 c1] [answer|]] eqn:Ha; [|done].
  destruct (answer_extended_inv _ _ _ _ _ _ _ Hi Hcmd Ha) as (w2 & ks & cc & -> & -> & Hlk & Hi2 & Hac & Hr). rewrite Hdata in Hr.
  assert (forall y, Some (relay_draw p) = Some y -> length y = 32%nat) as Hy' by by intros y [= <-].
  destruct (relay_extends_inv _ _ _ _ _ _ _ _ _ _ _ Hparse Ht Hl Hy' Hr) as (resp & km & nonce & Hh & Hcc & Hd & Hs).
  unfold ProcessExtended2 in He. rewrite Hac in He. change (negb (RelayCell.RelayExtended2 =? RelayCell.RelayExtended2)) with false in He. cbv iota in He.
  rewrite Hd in He. rewrite <- (app_nil_r (_ ++ resp)) in He.
  destruct (finish_body _ _ _ _) as [[e2 c2] r2] eqn:Hf. injection He as <- <- <- ->.
  rewrite <- (set_keys_length c ks Hlk). by eapply finish_in_step.
Qed.

Lemma extensions_in_step draws peers nodes i w w' e c c' :
  (forall j, length (relay_draw (peers j)) = 32%nat) -> Forall ports_ok nodes -> RelayCrypto.in_step (net_of w c) ->
  extend_all Encrypt (network draws peers) i nodes w e c = (w', c', Done tt) ->
  RelayCrypto.in_step (net_of w' c') /\ length (hops c') = (length nodes + length (hops c))%nat.
Proof.
  intros Hy Hp. revert i w e c. induction Hp as [|n nodes Hn Hp IH]; intros i w e c Hi He; [by injection He as <- <-|].
  cbn [extend_all] in He. destruct (ExtendCircuit _ _ _ _ _ _ _ _) as [[[w1 e1] c1] [[]|x|]] eqn:Hx; [|done..].
  apply extension_in_step in Hx as [Hi1 Hl1]; [|done..]. destruct (IH _ _ _ _ Hi1 He) as [Hi2 Hl2]. split; [done|]. cbn. lia.
Qed.

(** ** Properties *)

(** C2: A circuit the builder reports built is a channel to every one of its
    relays.  The guard and every relay of the path do its CREATE2 and EXTEND2
    handshake with its own keys, classic ntor or ntor-v3, with or without CGO, each
    extension over the circuit built so far.  Whenever [BuildCircuit] succeeds the
    circuit is open, has one hop for each relay of the path, each hop holds the
    keys of its relay at the same position of the key stream, and any sequence of
    cells sent and answered afterwards arrives unchanged where it was sent, under
    the same tag at both ends; as long as no other hop takes a cell for its own. *)
Theorem built_circuit_is_channel draws peers guard middle middle2 exit c ccs c' :
  hops c = [] -> (forall j, length (relay_draw (peers j)) = 32%nat) -> Forall ports_ok (middle :: option_list middle2 ++ [exit]) ->
  BuildCircuit Encrypt (network draws peers) guard middle middle2 exit [] c = (ccs, c', Done tt) ->
  state c' = FlowControl.StateOpen /\ length (hops c') = (3 + length (option_list middle2))%nat /\
  RelayCrypto.in_step (net_of ccs c') /\
  (forall es, RelayCrypto.undisturbed_run Encrypt Decrypt H (net_of ccs c') es = true ->
     Forall2 (RelayCrypto.arrives (Onion.usesCGO <$> (keys <$> hops c'))) es (RelayCrypto.net_run Encrypt Decrypt H (net_of ccs c') es).2).
Proof.
  intros Hc Hy Hp Hb. unfold BuildCircuit, handshakeAndCreateGuard in Hb. cbn [connected network CircuitBuild.draws created negb] in Hb. cbv zeta in Hb.
  destruct (_ || _); [done|]. destruct (CreateFirstHop _ _ _ _ _ _ _ _) as [[[w1 e1] c1] [[]|x|]] eqn:Hf; [|done..].
  apply first_hop_in_step in Hf as [Hi1 Hl1]; [|done|unfold net_of; rewrite Hc; constructor].
  destruct (extend_all _ _ _ _ _ _ _) as [[w2 c2] [[]|x|]] eqn:He; [|done..]. injection Hb as <- <-.
  apply extensions_in_step in He as [Hi2 Hl2]; [|done..].
  split_and!; [done| |done|].
  - cbn [set_state hops]. rewrite Hl2, Hl1, Hc. cbn. rewrite length_app. cbn. lia.
  - intros es Hu. by apply (RelayCrypto.run_arrives Encrypt Decrypt H Encrypt_length Decrypt_length Decrypt_Encrypt Encrypt_Decrypt H_length es (net_of w2 c2)).
Qed.

End Net.
(** The relays of the network are the relay's handler: *)
Section Handler.
Context `{Curve} `{NtorHash} `{V3Hash} `{ServerCircuit.Primitives} (sends : Z -> Cell -> bool).

(** C18: [relay_creates] is what the handler of CREATE2 does.  When the relay
    handshakes with its keys, a CREATE2 that [relay_creates] answers, on a free
    circuit number and within the limits of the flood protection, opens a circuit
    under that number with exactly those keys, and the CREATED2 written to the
    connection has exactly that body. *)
Theorem handler_implements_relay env conn c auth fp ed draw k h body cc :
  (forall htype data, CircuitHandler.handshake env htype data = create2_handshake ServerCircuit.aesEncrypt draw k htype data) ->
  (forall g, CircuitHandler.dos env = Some g -> CircuitHandler.AllowCreate2 g = true) ->
  CircuitHandler.circuits h !! CircID c = None ->
  relay_creates ServerCircuit.aesEncrypt draw k (Payload c) = Some (body, cc) ->
  exists h' sc, (CircuitHandler.handleCreate2Auth sends env conn c auth fp ed h).1.1 = h' /\
    (CircuitHandler.handleCreate2Auth sends env conn c auth fp ed h).1.2 =
      (ServerCircuit.write_cell sends conn (mkCell (CircID c) Cell.CmdCreated2 body)).1 /\
    CircuitHandler.circuits h' !! CircID c = Some (CircuitHandler.fresh h) /\
    CircuitHandler.heap h' !! CircuitHandler.fresh h = Some sc /\
    ServerCircuit.CircuitID sc = CircID c /\ ServerCircuit.crypto sc = Some cc.
Proof.
  intros Hh Hd Hc Hr. unfold relay_creates in Hr. unfold CircuitHandler.handleCreate2Auth.
  assert (match CircuitHandler.dos env with Some g => negb (CircuitHandler.AllowCreate2 g) | None => false end = false) as ->
    by (destruct (CircuitHandler.dos env) as [g|]; [by rewrite Hd|done]).
  unfold CircuitHandler.bind, CircuitHandler.get. rewrite Hc. destruct (Extend2.parse_create2 _) as [[htype data]|]; [|done].
  change CircuitHandler.NtorV3FixedClientLen with NtorV3.NtorV3FixedClientLen. destruct (negb _); [done|]. rewrite Hh.
  destruct (create2_handshake _ _ _ _ _) as [[[response km] nonce]|]; [|done].
  destruct (RelayCrypto.newCircuitCrypto _ _) as [cc'|]; [|done].
  unfold CircuitHandler.sendCreated2. destruct (Extend2.created2_payload response) as [body'|]; [|done]. injection Hr as -> ->.
  unfold CircuitHandler.add_circuit, CircuitHandler.write, CircuitHandler.modify, CircuitHandler.ret.
  destruct (ServerCircuit.write_cell _ _ _) as [out e]. destruct (htype =? 3); do 2 eexists;
    (split_and!; [reflexivity|reflexivity|apply lookup_insert_eq|apply lookup_insert_eq|done|done]).
Qed.

End Handler.

(** ** A concrete network *)

#[local] Existing Instances Ntor.toy_curve Ntor.toy_curve_laws Ntor.toy_hash Ntor.toy_hash_laws NtorV3.toy_v3_hash NtorV3.toy_v3_laws.

Definition small_H (m : bytes) : bytes := PutUint64 (foldl (fun a b => Z.land (Z.lxor (Z.shiftl a 1) b) 65535) 7 m) ++ zeros 12.

Definition sample_encode (v1 : bool) (rc : RelayCell.RelayCell) : bytes :=
  match (if v1 then RelayCell.EncodeRelayCellV1 rc else RelayCell.Encode rc) with Ok (payload, _) => payload | Err _ => [] end.

Definition sample_peer (i : nat) : peer :=
  mkPeer (sample_relay_keys (Z.of_nat i)) (sample_draw (50 + 3 * Z.of_nat i)) [0; 0] [7] sample_encode.

Definition sample_node (i : nat) (v3 : bool) : node :=
  mkNode (sample_target (Z.of_nat i) v3) true true (Some ([10; 0; 0; Z.of_nat i], 9001)).

Definition sample_network : build_env (list RelayCrypto.circuitCrypto) :=
  network RelayCrypto.toy_block RelayCrypto.toy_block small_H (fun i => Some (sample_draw (11 * Z.of_nat i))) sample_peer.

Lemma sample_ports_ok i v3 : ports_ok (sample_node i v3).
Proof. split; cbn; intros ? ? [=]; subst; unfold is_u; lia. Qed.

(** A new-style guard, a classic middle and a new-style exit. *)
Lemma built_circuit_is_channel_witness :
  exists ccs c', BuildCircuit RelayCrypto.toy_block sample_network (sample_node 0 true) (sample_node 1 false) None (sample_node 2 true) []
      new_circuit = (ccs, c', Done tt) /\
    length (hops c') = 3%nat /\ RelayCrypto.in_step (net_of ccs c').
Proof.
  assert (Hd : (BuildCircuit RelayCrypto.toy_block sample_network (sample_node 0 true) (sample_node 1 false) None (sample_node 2 true) []
      new_circuit).2 = Done tt) by (vm_compute; reflexivity).
  destruct (BuildCircuit _ _ _ _ _ _ _ _) as [[ccs c'] r] eqn:Hb. cbn [snd] in Hd. subst r. exists ccs, c'. split; [reflexivity|].
  destruct (built_circuit_is_channel RelayCrypto.toy_block RelayCrypto.toy_block small_H RelayCrypto.toy_length RelayCrypto.toy_length
    RelayCrypto.toy_inverse RelayCrypto.toy_inverse ltac:(intros; unfold small_H; rewrite length_app, length_PutUint64; reflexivity)
    (fun i => Some (sample_draw (11 * Z.of_nat i))) sample_peer (sample_node 0 true) (sample_node 1 false) None (sample_node 2 true)
    new_circuit ccs c' eq_refl ltac:(intros; reflexivity)
    
    (Forall_cons_2 _ _ _ (sample_ports_ok 1 false) (Forall_cons_2 _ _ _ (sample_ports_ok 2 true) (Forall_nil_2 _))) Hb) as (_ & Hl & Hi & _).
  split; [exact Hl|exact Hi].
Defined.

#[local] Existing Instance ExitStreams.toy_primitives.

(** A relay that handshakes with its keys. *)
Definition sample_handler_env : CircuitHandler.cell_env :=
  CircuitHandler.mkEnv 0 None (create2_handshake ServerCircuit.aesEncrypt (Some (sample_draw 50)) (sample_relay_keys 1)) None
    (ExitStreams.mkBeginEnv (fun _ => None) (fun _ _ => Err (ExitStreams.mkNetError false [])) id) None true true true (fun _ => None) (fun _ _ => None) 0 None
    (CircuitHandler.ret tt).

Lemma handler_implements_relay_witness :
  exists data body cc, let c := mkCell 3 Cell.CmdCreate2 (PutUint16 2 ++ PutUint16 84 ++ data) in
    relay_creates ServerCircuit.aesEncrypt (Some (sample_draw 50)) (sample_relay_keys 1) (Payload c) = Some (body, cc) /\
    (CircuitHandler.handleCreate2Auth ExitStreams.sends_all sample_handler_env 7 c false [] [] CircuitHandler.NewCircuitHandler).1.2 =
      (ServerCircuit.write_cell ExitStreams.sends_all 7 (mkCell 3 Cell.CmdCreated2 body)).1.
Proof.
  set (data := repeat 6 20 ++ repeat 101 32 ++ repeat 77 32). exists data.
  assert (exists body cc, relay_creates ServerCircuit.aesEncrypt (Some (sample_draw 50)) (sample_relay_keys 1) (PutUint16 2 ++ PutUint16 84 ++ data) = Some (body, cc))
    as (body & cc & Hr) by (do 2 eexists; vm_compute; reflexivity).
  exists body, cc. split; [exact Hr|].
  destruct (handler_implements_relay ExitStreams.sends_all sample_handler_env 7 (mkCell 3 Cell.CmdCreate2 (PutUint16 2 ++ PutUint16 84 ++ data)) false [] [] (Some (sample_draw 50)) (sample_relay_keys 1)
    CircuitHandler.NewCircuitHandler body cc (fun _ _ => eq_refl) ltac:(discriminate) eq_refl Hr) as (h' & sc & _ & Hw & _).
  exact Hw.
Defined.

End BuiltCircuit.
