(* ===== verification/CircuitTables.v ===== *)
(** * The tables of a relay stay consistent

    The invariant of [CircuitHandler.v]: what every table entry refers to is there,
    joined circuits are joined to each other, slots belong to living circuits.
    Closing a circuit is shown to be the removal of that circuit, and of the one it
    is joined to, from everything; the recursion behind it always ends. *)

From S2P Require Import Prelude Conversion Cell RelayCell CellPayloads CGO Onion RelayCrypto GoStrings Extend2 IntroPoint ServerCircuit ExitStreams CircuitHandler.
Import Cell(Cell, mkCell, CircID, Command, Payload).
Import ServerCircuit(ServerCircuit, Primitives, CircuitID, introAuth, rendCookie, joinedCirc, joinedConn, set_joined, set_closed, output).
Import GoStrings(hex_encode).
Import CircuitHandler.

Module CircuitTables.

(** ** Reasoning about handlers *)

Definition spec {A} (P : CircuitHandler -> Prop) (m : M A) (Q : A -> CircuitHandler -> Prop) : Prop :=
  forall h, P h -> Q (m h).2 (m h).1.1.

Lemma spec_ret {A} (a : A) (P : CircuitHandler -> Prop) (Q : A -> CircuitHandler -> Prop) :
  (forall h, P h -> Q a h) -> spec P (ret a) Q.
Proof. intros H h Hp. by apply H. Qed.

Lemma spec_get {A} (f : CircuitHandler -> A) (P : CircuitHandler -> Prop) (Q : A -> CircuitHandler -> Prop) :
  (forall h, P h -> Q (f h) h) -> spec P (get f) Q.
Proof. intros H h Hp. by apply H. Qed.

Lemma spec_modify f (P : CircuitHandler -> Prop) (Q : unit -> CircuitHandler -> Prop) :
  (forall h, P h -> Q tt (f h)) -> spec P (modify f) Q.
Proof. intros H h Hp. by apply H. Qed.

Lemma spec_bind {A B} (m : M A) (k : A -> M B) P Q R :
  spec P m Q -> (forall a, spec (Q a) (k a) R) -> spec P (bind m k) R.
Proof.
  intros Hm Hk h Hp. specialize (Hm h Hp). unfold bind. destruct (m h) as [[h1 o1] a]. specialize (Hk a h1 Hm).
  by destruct (k a h1) as [[h2 o2] b].
Qed.

Lemma spec_weaken {A} (m : M A) (P P' : CircuitHandler -> Prop) (Q Q' : A -> CircuitHandler -> Prop) :
  spec P m Q -> (forall h, P' h -> P h) -> (forall a h, Q a h -> Q' a h) -> spec P' m Q'.
Proof. intros Hm Hp Hq h H. apply Hq, Hm, Hp, H. Qed.

(** A test of a value the state determines. *)
Lemma spec_unless m k P Q :
  spec P m (fun e h => match e with Some _ => Q e h | None => P h end) -> spec P k Q -> spec P (unless m k) Q.
Proof.
  intros Hm Hk. eapply spec_bind; [exact Hm|]. intros [e|]; [by apply spec_ret | exact Hk].
Qed.

(** [m] leaves the state as it is. *)
Definition pure {A} (m : M A) : Prop := forall h, (m h).1.1 = h.

Lemma pure_spec {A} (m : M A) (P : CircuitHandler -> Prop) : pure m -> spec P m (fun _ h => P h).
Proof. intros Hm h Hp. by rewrite Hm. Qed.

Lemma pure_bind {A B} (m : M A) (k : A -> M B) : pure m -> (forall a, pure (k a)) -> pure (bind m k).
Proof.
  intros Hm Hk h. specialize (Hm h). unfold bind. destruct (m h) as [[h1 o1] a]. simpl in Hm. subst h1.
  specialize (Hk a h). by destruct (k a h) as [[h2 o2] b].
Qed.

(** ** Closing a circuit ends *)

Section Close.
Context (sends : Z -> Cell -> bool).

Ltac run := unfold update_circ, circ_at, bind, get, modify, ret; cbn beta iota zeta.

(** [forgetHS] calls [close] at most once, with the table of circuits unchanged. *)
Lemma forgetHS_ext close1 close2 o h :
  (forall id h', circuits h' = circuits h -> close1 id h' = close2 id h') ->
  forgetHS sends close1 o h = forgetHS sends close2 o h.
Proof.
  intros Hc. unfold forgetHS. run. destruct (heap h !! o) as [c|]; [|done]. cbn beta iota zeta.
  destruct (joinedCirc c) as [p|]; [|done]. cbn beta iota zeta.
  match goal with |- context [set_heap ?h2 (alter _ o _)] => set (h3 := h2) end.
  assert (circuits h3 = circuits h) as H3 by (unfold h3; by repeat case_match).
  clearbody h3. destruct (heap _ !! p) as [d|]; [|done].
  destruct (joinedConn c) as [k|]; cbn beta iota zeta.
  - unfold sendDestroyCell. destruct (ServerCircuit.sendDestroyCell _ _ _ _) as [out e]. cbn beta iota zeta. by rewrite Hc.
  - by rewrite Hc.
Qed.

Lemma close_body_ext close1 close2 id h :
  (forall id' h', (size (circuits h') < size (circuits h))%nat -> close1 id' h' = close2 id' h') ->
  close_body sends close1 id h = close_body sends close2 id h.
Proof.
  intros Hc. unfold close_body. run. destruct (circuits h !! id) as [o|] eqn:E; [|done]. cbn beta iota zeta.
  match goal with |- context [forgetHS sends close1 o ?h1] => set (hh := h1) end.
  rewrite (forgetHS_ext close1 close2 o hh); [done|]. intros id' h' Hh. apply Hc. rewrite Hh. unfold hh. simpl.
  rewrite map_size_delete_Some by eauto. assert (size (circuits h) <> 0%nat); [|lia].
  intros H0. apply map_size_empty_inv in H0. by rewrite H0 in E.
Qed.

Lemma close_circuit_fuel n m id h :
  (size (circuits h) < n)%nat -> (size (circuits h) < m)%nat -> close_circuit sends n id h = close_circuit sends m id h.
Proof.
  revert m id h. induction n as [|n IH]; intros m id h Hn Hm; [lia|]. destruct m as [|m]; [lia|]. cbn [close_circuit].
  apply close_body_ext. intros id' h' Hs. apply IH; lia.
Qed.

Lemma close_circuit_unfold id h : CloseCircuit sends id h = close_body sends (CloseCircuit sends) id h.
Proof.
  unfold CloseCircuit at 1. cbn [close_circuit]. apply close_body_ext. intros id' h' Hs. unfold CloseCircuit.
  apply close_circuit_fuel; lia.
Qed.

(** [close] is a solution of the recursive equation that is the source. *)
Definition solves (close : Z -> M unit) : Prop := forall id h, close id h = close_body sends close id h.

(** Closing a circuit always ends.  The source's [CloseCircuit] recurses through
    the circuit it is joined to; [CloseCircuit] here, which is a structural
    recursion on fuel, solves the source's equation, and it is the only solution;
    any fuel above the number of circuits gives the same result. *)
Theorem close_circuit_terminates :
  solves (CloseCircuit sends) /\
  (forall close, solves close -> forall id h, close id h = CloseCircuit sends id h) /\
  (forall fuel id h, (size (circuits h) < fuel)%nat -> close_circuit sends fuel id h = CloseCircuit sends id h).
Proof.
  split_and!; [exact close_circuit_unfold | |intros fuel id h Hf; unfold CloseCircuit; apply close_circuit_fuel; lia].
  intros close Hs id h. remember (size (circuits h)) as n eqn:Hn. revert id h Hn.
  induction n as [n IH] using lt_wf_ind. intros id h ->. rewrite Hs, close_circuit_unfold.
  apply close_body_ext. intros id' h' Hlt. by eapply IH.
Qed.

End Close.

(** ** The tables *)

(** What the tables depend on in a circuit. *)
Record role := mkRole {
  r_id : Z;
  r_auth : bytes;
  r_cookie : bytes;
  r_joined : option nat;
  r_conn : option Z;
}.

Definition role_of (c : ServerCircuit) : role := mkRole (CircuitID c) (introAuth c) (rendCookie c) (joinedCirc c) (joinedConn c).
Definition unjoin (r : role) : role := mkRole (r_id r) (r_auth r) (r_cookie r) None None.

Record tables := mkTables {
  t_heap : gmap nat role;
  t_fresh : nat;
  t_circuits : gmap Z nat;
  t_extended : gmap Z (Z * Z);
  t_intro : gmap bytes nat;
  t_rend : gmap bytes nat;
}.

Definition view (h : CircuitHandler) : tables :=
  mkTables (role_of <$> heap h) (fresh h) (circuits h) ((fun e => (ClientCircuitID e, RelayEarlyCount e)) <$> extended h)
    (circ <$> introByAuth h) (circ <$> rendByCookie h).

Definition live (t : tables) (o : nat) (r : role) : Prop := t_heap t !! o = Some r /\ t_circuits t !! r_id r = Some o.

Record consistent (t : tables) : Prop := {
  c_table id o : t_circuits t !! id = Some o -> exists r, t_heap t !! o = Some r /\ r_id r = id;
  c_fresh o : (t_fresh t <= o)%nat -> t_heap t !! o = None;
  c_join o r p : live t o r -> r_joined r = Some p -> exists r', live t p r' /\ r_joined r' = Some o /\ o <> p;
  c_conn o r : live t o r -> (r_conn r = None <-> r_joined r = None);
  c_intro key o : t_intro t !! key = Some o -> exists r, live t o r /\ hex_encode (r_auth r) = key /\
    length (r_auth r) = IntroPoint.ed25519AuthKeyLen;
  c_rend key o : t_rend t !! key = Some o -> exists r, live t o r /\ hex_encode (r_cookie r) = key /\
    length (r_cookie r) = rendCookieLen /\ r_joined r = None;
  c_extended id e : t_extended t !! id = Some e -> is_Some (t_circuits t !! id) /\ e.1 = id /\ 0 <= e.2 <= 8;
}.

Lemma live_circuit t id o : consistent t -> t_circuits t !! id = Some o -> exists r, live t o r /\ r_id r = id.
Proof. intros Ht Hi. destruct (c_table t Ht id o Hi) as (r & Hr & <-). by exists r. Qed.

Lemma live_inj t o o' r r' : live t o r -> live t o' r' -> r_id r = r_id r' -> o = o'.
Proof. intros [_ H1] [_ H2] He. rewrite He in H1. congruence. Qed.

Definition drop_key {A} (n : nat) (key : bytes) (m : gmap bytes A) : gmap bytes A :=
  if (length key =? n)%nat then delete (hex_encode key) m else m.

(** One circuit is removed. *)
Definition drop1 (t : tables) (o : nat) (r : role) : tables :=
  mkTables (alter unjoin o (t_heap t)) (t_fresh t) (delete (r_id r) (t_circuits t)) (delete (r_id r) (t_extended t))
    (drop_key IntroPoint.ed25519AuthKeyLen (r_auth r) (t_intro t)) (drop_key rendCookieLen (r_cookie r) (t_rend t)).

(** Two joined circuits are separated. *)
Definition split (t : tables) (o p : nat) : tables :=
  mkTables (alter unjoin p (alter unjoin o (t_heap t))) (t_fresh t) (t_circuits t) (t_extended t) (t_intro t) (t_rend t).

Lemma drop_key_lookup {A} (n : nat) (key : bytes) (m : gmap bytes A) (k : bytes) (o : A) :
  drop_key n key m !! k = Some o -> m !! k = Some o /\ (length key = n -> k <> hex_encode key).
Proof.
  unfold drop_key. destruct (Nat.eqb_spec (length key) n) as [He|He]; [intros H; apply lookup_delete_Some in H as [? ?]; auto|].
  intros Hm. by split.
Qed.

Lemma consistent_drop1 t o r : consistent t -> live t o r -> r_joined r = None -> consistent (drop1 t o r).
Proof.
  intros [T F J N I R E] [Hr Ho] Hj.
  assert (forall q x, live (drop1 t o r) q x -> q <> o /\ live t q x /\ r_id x <> r_id r) as Hl.
  { intros q x [Hx Hq]. simpl in *. apply lookup_delete_Some in Hq as [Hne Hq]. destruct (decide (q = o)) as [->|Hqo].
    - exfalso. rewrite lookup_alter_eq, Hr in Hx. simpl in Hx. injection Hx as <-. by simpl in Hne.
    - rewrite lookup_alter_ne in Hx by done. split_and!; try done. }
  assert (forall q x, live t q x -> q <> o -> live (drop1 t o r) q x) as Hk.
  { intros q x [Hx Hq] Hne. split; simpl; [by rewrite lookup_alter_ne|]. rewrite lookup_delete_ne; [done|].
    intros He. rewrite <- He in Hq. congruence. }
  constructor; simpl.
  - intros id q H'. apply lookup_delete_Some in H' as [Hne H']. destruct (T id q H') as (x & Hx & Hxi).
    exists x. split; [|done]. rewrite lookup_alter_ne; [done|]. intros ->. congruence.
  - intros q Hq. rewrite lookup_alter_None. by apply F.
  - intros q x p Hq Hp. destruct (Hl q x Hq) as (Hne & Hq' & _). destruct (J q x p Hq' Hp) as (y & Hy & Hyj & Hqp).
    exists y. split; [|done]. apply Hk; [done|]. intros ->. destruct Hy as [Hy _]. rewrite Hr in Hy. injection Hy as <-. congruence.
  - intros q x Hq. destruct (Hl q x Hq) as (_ & Hq' & _). by apply (N q).
  - intros key q H'. apply drop_key_lookup in H' as [H' Hne]. destruct (I key q H') as (x & Hx & Hxk & Hxl).
    exists x. split; [|done]. apply Hk; [done|]. intros ->. destruct Hx as [Hx _]. rewrite Hr in Hx. injection Hx as <-. by destruct (Hne Hxl).
  - intros key q H'. apply drop_key_lookup in H' as [H' Hne]. destruct (R key q H') as (x & Hx & Hxk & Hxl & Hxj).
    exists x. split; [|done]. apply Hk; [done|]. intros ->. destruct Hx as [Hx _]. rewrite Hr in Hx. injection Hx as <-. by destruct (Hne Hxl).
  - intros id e H'. apply lookup_delete_Some in H' as [Hne H']. destruct (E id e H') as (H1 & H2 & H3).
    split; [by rewrite lookup_delete_ne | done].
Qed.

Lemma consistent_split t o p r : consistent t -> live t o r -> r_joined r = Some p -> consistent (split t o p).
Proof.
  intros [T F J N I R E] Ho Hp. destruct (J o r p Ho Hp) as (d & Hd & Hdj & Hop).
  assert (forall q x, t_heap (split t o p) !! q = Some x ->
    exists y, t_heap t !! q = Some y /\ ((q = o \/ q = p) /\ x = unjoin y \/ q <> o /\ q <> p /\ x = y)) as Hh.
  { intros q x. simpl. destruct (decide (q = p)) as [->|Hqp].
    - rewrite lookup_alter_eq, lookup_alter_ne by done. destruct (t_heap t !! p) as [y|]; [|done]. simpl. intros [= <-]. exists y. auto.
    - rewrite lookup_alter_ne by done. destruct (decide (q = o)) as [->|Hqo].
      + rewrite lookup_alter_eq. destruct (t_heap t !! o) as [y|]; [|done]. simpl. intros [= <-]. exists y. auto.
      + rewrite lookup_alter_ne by done. intros Hx. exists x. auto. }
  assert (forall q x, live t q x -> exists y, live (split t o p) q y /\ r_auth y = r_auth x /\ r_cookie y = r_cookie x /\
    r_id y = r_id x /\ (r_joined x = None -> r_joined y = None) /\ (q <> o -> q <> p -> y = x)) as Hk.
  { intros q x [Hx Hq]. destruct (t_heap (split t o p) !! q) as [y|] eqn:Hy.
    - destruct (Hh q y Hy) as (x' & Hx' & H'). rewrite Hx in Hx'. injection Hx' as <-. exists y. unfold live. rewrite Hy. simpl.
      destruct H' as [[H' ->]|(H1 & H2 & ->)]; simpl; split_and!; try done. intros ? ?. by destruct H'.
    - exfalso. simpl in Hy. rewrite !lookup_alter_None in Hy. congruence. }
  constructor; simpl.
  - intros id q H'. destruct (T id q H') as (x & Hx & Hxi). assert (live t q x) as Hq by (split; [done|by rewrite Hxi]).
    destruct (Hk q x Hq) as (y & [Hy _] & _ & _ & Hi & _). exists y. split; [done | congruence].
  - intros q Hq. rewrite !lookup_alter_None. by apply F.
  - intros q x k [Hx Hq] Hj. destruct (Hh q x Hx) as (y & Hy & [[H' ->]|(H1 & H2 & ->)]); [done|].
    assert (live t q y) as Hqy by by split. destruct (J q y k Hqy Hj) as (z & Hz & Hzj & Hqk).
    destruct (Hk k z Hz) as (z' & Hz' & _ & _ & _ & _ & He). exists z'.
    assert (k <> o /\ k <> p) as [Hko Hkp].
    { split; intros ->.
      - destruct Hz as [Hz _], Ho as [Ho _]. congruence.
      - destruct Hz as [Hz _], Hd as [Hd _]. congruence. }
    by rewrite (He Hko Hkp) in *.
  - intros q x [Hx Hq]. destruct (Hh q x Hx) as (y & Hy & [[H' ->]|(H1 & H2 & ->)]); [done|]. apply (N q). by split.
  - intros key q H'. destruct (I key q H') as (x & Hx & <- & Hxl). destruct (Hk q x Hx) as (y & Hy & Ha & _). exists y. rewrite Ha. auto.
  - intros key q H'. destruct (R key q H') as (x & Hx & <- & Hxl & Hxj). destruct (Hk q x Hx) as (y & Hy & _ & Hc & _ & Hj & _).
    exists y. rewrite Hc. auto.
  - done.
Qed.

(** ** Closing, on the tables *)

Lemma view_circ_update h o f (g : role -> role) :
  (forall c, role_of (f c) = g (role_of c)) ->
  view (set_heap h (alter f o (heap h))) = mkTables (alter g o (t_heap (view h))) (t_fresh (view h)) (t_circuits (view h))
    (t_extended (view h)) (t_intro (view h)) (t_rend (view h)).
Proof.
  intros Hf. unfold view. simpl. f_equal. apply map_eq. intros q. rewrite lookup_fmap. destruct (decide (q = o)) as [->|Hq].
  - rewrite !lookup_alter_eq, lookup_fmap. destruct (heap h !! o); simpl; [by rewrite Hf | done].
  - by rewrite !lookup_alter_ne, lookup_fmap.
Qed.

Lemma alter_id_role (m : gmap nat role) o : alter (fun r => r) o m = m.
Proof. apply map_eq. intros q. destruct (decide (q = o)) as [->|]; [rewrite lookup_alter_eq; by destruct (m !! o) | by rewrite lookup_alter_ne]. Qed.

(** A change that leaves the role alone leaves the tables alone. *)
Lemma view_same h o f : (forall c, role_of (f c) = role_of c) -> view (set_heap h (alter f o (heap h))) = view h.
Proof. intros Hf. rewrite (view_circ_update h o f (fun r => r) Hf). rewrite alter_id_role. by destruct h. Qed.

Lemma view_insert h o c c' : heap h !! o = Some c -> role_of c' = role_of c -> view (set_heap h (<[o := c']> (heap h))) = view h.
Proof.
  intros Hc Hr. unfold view. simpl. f_equal. rewrite fmap_insert, Hr. apply insert_id. by rewrite lookup_fmap, Hc.
Qed.

Lemma view_heap h o : t_heap (view h) !! o = role_of <$> heap h !! o.
Proof. simpl. by rewrite lookup_fmap. Qed.

Section Closing.
Context (sends : Z -> Cell -> bool).

Lemma pure_write k c : pure (write sends k c).
Proof. intros h. unfold write. by destruct (ServerCircuit.write_cell sends k c). Qed.

Lemma pure_destroy k id reason : pure (sendDestroyCell sends k id reason).
Proof. intros h. unfold sendDestroyCell. by destruct (ServerCircuit.sendDestroyCell sends k id reason). Qed.

Lemma pure_next ext c : pure (sendToNextHop sends ext c).
Proof. unfold sendToNextHop. destruct (NextHopOR ext); [apply pure_write|]. by destruct (NextHopConn ext); [apply pure_write|]. Qed.

Definition no_extension (t : tables) (id : Z) : tables :=
  mkTables (t_heap t) (t_fresh t) (t_circuits t) (delete id (t_extended t)) (t_intro t) (t_rend t).

Lemma destroy_next_state id h : (destroy_next_hop sends id h).1.1 = set_extended h (delete id (extended h)).
Proof.
  unfold destroy_next_hop, take_extended, bind. destruct (extended h !! id) as [ext|]; [|done].
  pose proof (pure_next ext (mkCell (NextHopCircuitID ext) Cell.CmdDestroy [Cell.DestroyReasonDestroyed])
    (set_extended h (delete id (extended h)))) as Hp.
  destruct (sendToNextHop sends ext _ _) as [[h1 o1] e]. simpl in *. done.
Qed.

Lemma view_set_extended h id : view (set_extended h (delete id (extended h))) = no_extension (view h) id.
Proof. unfold view, no_extension. simpl. by rewrite fmap_delete. Qed.

(** The state of [m ;; k]. *)
Lemma bind_state {A B} (m : M A) (k : A -> M B) h : (bind m k h).1.1 = (k (m h).2 (m h).1.1).1.1.
Proof. unfold bind. destruct (m h) as [[h1 o1] a]. simpl. by destruct (k a h1) as [[h2 o2] b]. Qed.

Definition forget_keys (h : CircuitHandler) (r : role) : CircuitHandler :=
  let h := if (length (r_auth r) =? IntroPoint.ed25519AuthKeyLen)%nat
           then set_intro h (delete (hex_encode (r_auth r)) (introByAuth h)) else h in
  if (length (r_cookie r) =? rendCookieLen)%nat then set_rend h (delete (hex_encode (r_cookie r)) (rendByCookie h)) else h.

Lemma view_forget_keys h r :
  view (forget_keys h r) = mkTables (t_heap (view h)) (t_fresh (view h)) (t_circuits (view h)) (t_extended (view h))
    (drop_key IntroPoint.ed25519AuthKeyLen (r_auth r) (t_intro (view h))) (drop_key rendCookieLen (r_cookie r) (t_rend (view h))).
Proof. unfold forget_keys, drop_key, view. destruct (_ =? _)%nat, (_ =? _)%nat; simpl; by rewrite ?fmap_delete. Qed.

Lemma forget_keys_heap h r : heap (forget_keys h r) = heap h.
Proof. unfold forget_keys. by destruct (_ =? _)%nat, (_ =? _)%nat. Qed.

(** [forgetHS] separates the circuit from its peer and closes that. *)
Lemma forgetHS_state close o c h :
  heap h !! o = Some c ->
  (forgetHS sends close o h).1.1 =
    let h1 := forget_keys h (role_of c) in
    let h2 := set_heap h1 (alter (fun c => set_joined c None None) o (heap h1)) in
    match joinedCirc c with
    | None => h2
    | Some p =>
        let h3 := set_heap h2 (alter (fun c => set_joined c None None) p (heap h2)) in
        match heap h3 !! p with
        | None => h3
        | Some d => (close (CircuitID d) h3).1.1
        end
    end.
Proof.
  intros Hc. unfold forgetHS. rewrite bind_state. unfold circ_at, get. cbn [fst snd]. rewrite Hc.
  rewrite !bind_state. unfold modify, update_circ. cbn [fst snd].
  change (if (length (rendCookie c) =? rendCookieLen)%nat then _ else _) with (forget_keys h (role_of c)). cbv zeta.
  destruct (joinedCirc c) as [p|]; [|done]. rewrite !bind_state. unfold modify. cbn [fst snd].
  set (h3 := set_heap _ (alter _ p _)). destruct (heap h3 !! p) as [d|]; [|done]. rewrite bind_state.
  assert (forall (m : M unit), pure m -> (m h3).1.1 = h3) as Hp by by intros m Hm; apply Hm.
  rewrite Hp; [done|]. destruct (joinedConn c); [|done]. by apply pure_bind; [apply pure_destroy|].
Qed.

Lemma close_state id h :
  (CloseCircuit sends id h).1.1 =
    let h1 := set_circuits h (delete id (circuits h)) in
    match circuits h !! id with
    | None =>
        let h2 := set_exits h1 (ExitStreams.CloseCircuit (exits h1) id) (brokenClock h1) in
        set_extended h2 (delete id (extended h2))
    | Some o =>
        let h2 := set_heap h1 (alter set_closed o (heap h1)) in
        let h3 := set_exits h2 (ExitStreams.CloseCircuit (exits h2) id) (brokenClock h2) in
        let h4 := (forgetHS sends (CloseCircuit sends) o h3).1.1 in
        set_extended h4 (delete id (extended h4))
    end.
Proof.
  rewrite close_circuit_unfold. unfold close_body. rewrite bind_state. unfold get. cbn [fst snd].
  destruct (circuits h !! id) as [o|]; rewrite !bind_state; unfold HandleDestroy; rewrite destroy_next_state; done.
Qed.

Lemma role_closed c : role_of (set_closed c) = role_of c.
Proof. done. Qed.
Lemma role_unjoined c : role_of (set_joined c None None) = unjoin (role_of c).
Proof. done. Qed.

Lemma tables_eq t t' :
  t_heap t = t_heap t' -> t_fresh t = t_fresh t' -> t_circuits t = t_circuits t' -> t_extended t = t_extended t' ->
  t_intro t = t_intro t' -> t_rend t = t_rend t' -> t = t'.
Proof. destruct t, t'. simpl. congruence. Qed.

(** Up to [forgetHS], the circuit leaves the table of circuits. *)
Definition unlisted (t : tables) (id : Z) : tables :=
  mkTables (t_heap t) (t_fresh t) (delete id (t_circuits t)) (t_extended t) (t_intro t) (t_rend t).

Lemma view_unlisted h id o :
  let h1 := set_circuits h (delete id (circuits h)) in
  let h2 := set_heap h1 (alter set_closed o (heap h1)) in
  view (set_exits h2 (ExitStreams.CloseCircuit (exits h2) id) (brokenClock h2)) = unlisted (view h) id.
Proof. cbv zeta. change (view (set_exits ?h2 _ _)) with (view h2). by rewrite view_same. Qed.

Lemma view_close_lone id o c h :
  circuits h !! id = Some o -> heap h !! o = Some c -> CircuitID c = id -> joinedCirc c = None ->
  view (CloseCircuit sends id h).1.1 = drop1 (view h) o (role_of c).
Proof.
  intros Ho Hc Hi Hj. rewrite close_state, Ho. cbv zeta. set (h3 := set_exits _ _ _).
  assert (heap h3 !! o = Some (set_closed c)) as H3 by (simpl; by rewrite lookup_alter_eq, Hc).
  assert (view h3 = unlisted (view h) id) as V3 by apply view_unlisted. clearbody h3.
  rewrite view_set_extended, (forgetHS_state _ _ _ _ H3). cbv zeta. change (joinedCirc (set_closed c)) with (joinedCirc c). rewrite Hj.
  rewrite (view_circ_update _ _ _ unjoin role_unjoined), view_forget_keys, V3. unfold drop1, no_extension. simpl. by rewrite Hi.
Qed.

Lemma view_close_joined id o c p d h :
  circuits h !! id = Some o -> heap h !! o = Some c -> CircuitID c = id -> joinedCirc c = Some p ->
  heap h !! p = Some d -> circuits h !! CircuitID d = Some p -> o <> p ->
  view (CloseCircuit sends id h).1.1 = drop1 (drop1 (split (view h) o p) o (unjoin (role_of c))) p (unjoin (role_of d)).
Proof.
  intros Ho Hc Hi Hj Hd Hp Hop. rewrite close_state, Ho. cbv zeta. set (h3 := set_exits _ _ _).
  assert (heap h3 !! o = Some (set_closed c)) as H3 by (simpl; by rewrite lookup_alter_eq, Hc).
  assert (heap h3 !! p = Some d) as H3p by (simpl; by rewrite lookup_alter_ne).
  assert (view h3 = unlisted (view h) id) as V3 by apply view_unlisted. clearbody h3.
  rewrite view_set_extended, (forgetHS_state _ _ _ _ H3). cbv zeta. change (joinedCirc (set_closed c)) with (joinedCirc c). rewrite Hj.
  set (h5 := set_heap _ (alter _ p _)).
  assert (heap h5 !! p = Some (set_joined d None None)) as H5.
  { unfold h5. simpl. rewrite lookup_alter_eq, lookup_alter_ne by done. rewrite forget_keys_heap, H3p. done. }
  assert (view h5 = mkTables (alter unjoin p (alter unjoin o (t_heap (view h)))) (fresh h) (delete id (circuits h)) (t_extended (view h))
    (drop_key IntroPoint.ed25519AuthKeyLen (introAuth c) (t_intro (view h))) (drop_key rendCookieLen (rendCookie c) (t_rend (view h)))) as V5.
  { unfold h5. rewrite (view_circ_update _ _ _ unjoin role_unjoined), (view_circ_update _ _ _ unjoin role_unjoined), view_forget_keys, V3. done. }
  clearbody h5. rewrite H5. change (CircuitID (set_joined d None None)) with (CircuitID d).
  assert (CircuitID d <> id) as Hne by (intros He; rewrite He, Ho in Hp; congruence).
  assert (circuits h5 !! CircuitID d = Some p) as Hp5.
  { change (circuits h5) with (t_circuits (view h5)). rewrite V5. simpl. by rewrite lookup_delete_ne. }
  rewrite (view_close_lone _ _ _ _ Hp5 H5 eq_refl eq_refl), V5. apply tables_eq; simpl; rewrite ?Hi; try done.
  - apply map_eq. intros q. destruct (decide (q = p)) as [->|Hqp]; [|destruct (decide (q = o)) as [->|Hqo]];
      repeat (rewrite lookup_alter_eq || (rewrite lookup_alter_ne by done)); rewrite ?lookup_fmap;
      [by destruct (heap h !! p) | by destruct (heap h !! o) | done].
  - apply delete_delete.
Qed.

(** Closing keeps the tables consistent; what it removes is exactly the circuit and
    the one joined to it. *)
Lemma consistent_no_extension t id : consistent t -> consistent (no_extension t id).
Proof.
  intros [T F J N I R E]. constructor; simpl; try done. intros id' e H'. apply lookup_delete_Some in H' as [_ H']. by apply E.
Qed.

Lemma view_live h o r : live (view h) o r -> exists c, heap h !! o = Some c /\ role_of c = r /\ circuits h !! r_id r = Some o.
Proof.
  intros [Hr Ho]. simpl in *. rewrite lookup_fmap in Hr. destruct (heap h !! o) as [c|]; [|done]. simpl in Hr.
  injection Hr as <-. by exists c.
Qed.

Lemma close_cases id h :
  consistent (view h) ->
  let t := view (CloseCircuit sends id h).1.1 in
  circuits h !! id = None /\ t = no_extension (view h) id \/
  exists o r, circuits h !! id = Some o /\ live (view h) o r /\ r_id r = id /\
    (r_joined r = None /\ t = drop1 (view h) o r \/
     exists p d, r_joined r = Some p /\ live (view h) p d /\ r_joined d = Some o /\ o <> p /\
       t = drop1 (drop1 (split (view h) o p) o (unjoin r)) p (unjoin d)).
Proof.
  intros Ht t. destruct (circuits h !! id) as [o|] eqn:Ho.
  - right. destruct (live_circuit _ _ _ Ht Ho) as (r & Hr & Hi). exists o, r. split_and!; try done.
    destruct (view_live _ _ _ Hr) as (c & Hc & <- & _). simpl in Hi. destruct (r_joined (role_of c)) as [p|] eqn:Hj.
    + right. destruct (c_join _ Ht _ _ _ Hr Hj) as (d & Hd & Hdj & Hop). exists p, d. split_and!; try done.
      destruct (view_live _ _ _ Hd) as (e & He & <- & Hp). by apply (view_close_joined id o c p e h).
    + left. split; [done|]. by apply (view_close_lone id o c h).
  - left. split; [done|]. unfold t. rewrite close_state, Ho. cbv zeta. rewrite view_set_extended.
    unfold no_extension. change (view (set_exits ?a _ _)) with (view a). simpl. by rewrite delete_id.
Qed.

Lemma split_live t o p q r :
  live t q r -> o <> p -> live (split t o p) q (if decide (q = o \/ q = p) then unjoin r else r).
Proof.
  intros [Hr Hq] Hop. split; simpl.
  - case_decide as Hd; [|by rewrite !lookup_alter_ne by naive_solver]. destruct Hd as [->| ->].
    + rewrite lookup_alter_ne, lookup_alter_eq, Hr by done. done.
    + rewrite lookup_alter_eq, lookup_alter_ne, Hr by done. done.
  - by case_decide.
Qed.

Lemma drop1_live t o q r r' : live t q r -> live t o r' -> q <> o -> live (drop1 t o r') q r.
Proof.
  intros [Hr Hq] [Ho1 Ho] Hne. split; simpl; [by rewrite lookup_alter_ne|]. rewrite lookup_delete_ne; [done|]. congruence.
Qed.

Lemma consistent_close id h : consistent (view h) -> consistent (view (CloseCircuit sends id h).1.1).
Proof.
  intros Ht. destruct (close_cases id h Ht) as [[_ ->]|(o & r & Ho & Hr & Hi & [[Hj ->]|(p & d & Hj & Hd & Hdj & Hop & ->)])].
  - by apply consistent_no_extension.
  - by apply consistent_drop1.
  - pose proof (consistent_split _ _ _ _ Ht Hr Hj) as Hs.
    pose proof (split_live _ o p _ _ Hr Hop) as Ho'. rewrite decide_True in Ho' by auto.
    pose proof (split_live _ o p _ _ Hd Hop) as Hp'. rewrite decide_True in Hp' by auto.
    pose proof (consistent_drop1 _ _ _ Hs Ho' eq_refl) as Hs2. apply consistent_drop1; [done| |done].
    by apply drop1_live.
Qed.

End Closing.

(** ** The other changes of the tables *)

Definition with_role (t : tables) (o : nat) (r : role) : tables :=
  mkTables (<[o := r]> (t_heap t)) (t_fresh t) (t_circuits t) (t_extended t) (t_intro t) (t_rend t).
Definition with_extended (t : tables) (x : gmap Z (Z * Z)) : tables :=
  mkTables (t_heap t) (t_fresh t) (t_circuits t) x (t_intro t) (t_rend t).
Definition with_intro (t : tables) (x : gmap bytes nat) : tables :=
  mkTables (t_heap t) (t_fresh t) (t_circuits t) (t_extended t) x (t_rend t).
Definition with_rend (t : tables) (x : gmap bytes nat) : tables :=
  mkTables (t_heap t) (t_fresh t) (t_circuits t) (t_extended t) (t_intro t) x.

Lemma consistent_with_extended t id e :
  consistent t -> is_Some (t_circuits t !! id) -> e.1 = id -> 0 <= e.2 <= 8 ->
  consistent (with_extended t (<[id := e]> (t_extended t))).
Proof.
  intros [T F J N I R E] H1 H2 H3. constructor; simpl; try done. intros id' e' H'.
  apply lookup_insert_Some in H' as [[<- <-]|[_ H']]; [done | by apply E].
Qed.

Lemma consistent_rend_shrink t x : consistent t -> x ⊆ t_rend t -> consistent (with_rend t x).
Proof.
  intros [T F J N I R E] Hx. constructor; simpl; try done. intros key o H'. apply (R key). by eapply lookup_weaken.
Qed.

Lemma consistent_rend_insert t key o r :
  consistent t -> live t o r -> hex_encode (r_cookie r) = key -> length (r_cookie r) = rendCookieLen -> r_joined r = None ->
  consistent (with_rend t (<[key := o]> (t_rend t))).
Proof.
  intros [T F J N I R E] Hr H1 H2 H3. constructor; simpl; try done. intros key' o' H'.
  apply lookup_insert_Some in H' as [[<- <-]|[_ H']]; [by exists r | by apply R].
Qed.

(** A new circuit. *)
Definition with_circuit (t : tables) (r : role) : tables :=
  mkTables (<[t_fresh t := r]> (t_heap t)) (S (t_fresh t)) (<[r_id r := t_fresh t]> (t_circuits t)) (t_extended t) (t_intro t) (t_rend t).

Lemma consistent_with_circuit t r :
  consistent t -> t_circuits t !! r_id r = None -> r_joined r = None -> r_conn r = None -> consistent (with_circuit t r).
Proof.
  intros [T F J N I R E] Hn Hj Hc. set (f := t_fresh t). assert (t_heap t !! f = None) as Hf by by apply F.
  assert (forall o x, live t o x -> live (with_circuit t r) o x) as Hk.
  { intros o x [Hx Ho]. split; simpl; rewrite lookup_insert_ne; try done; fold f; congruence. }
  assert (forall o x, live (with_circuit t r) o x -> o = f /\ x = r \/ live t o x) as Hl.
  { intros o x [Hx Ho]. simpl in *. apply lookup_insert_Some in Hx as [[<- <-]|[Hne Hx]]; [by left|]. right. split; [done|].
    apply lookup_insert_Some in Ho as [[_ Ho]|[_ Ho]]; [|done]. by destruct Hne. }
  constructor; simpl.
  - intros id o H'. apply lookup_insert_Some in H' as [[<- <-]|[Hne H']]; [exists r; by rewrite lookup_insert_eq|].
    destruct (T id o H') as (x & Hx & Hi). exists x. rewrite lookup_insert_ne; [done|]. fold f. congruence.
  - intros o Ho. rewrite lookup_insert_ne by lia. apply F. lia.
  - intros o x p Hx Hp. destruct (Hl o x Hx) as [[-> ->]|Hx']; [congruence|]. destruct (J o x p Hx' Hp) as (y & Hy & ?). eauto.
  - intros o x Hx. destruct (Hl o x Hx) as [[-> ->]|Hx']; [by rewrite Hj, Hc | by apply (N o)].
  - intros key o H'. destruct (I key o H') as (x & Hx & ?). eauto.
  - intros key o H'. destruct (R key o H') as (x & Hx & ?). eauto.
  - intros id e H'. destruct (E id e H') as (Hi & ?). split; [|done]. by apply lookup_insert_is_Some'; right.
Qed.

(** Changing the keys of a living circuit. *)
Lemma live_with_role t o r r' q x :
  live t o r -> r_id r' = r_id r -> live (with_role t o r') q x <-> (q = o /\ x = r' \/ q <> o /\ live t q x).
Proof.
  intros [Hr Ho] Hi. unfold live. simpl. split.
  - intros [Hx Hq]. apply lookup_insert_Some in Hx as [[<- <-]|[Hne Hx]]; [by left | right; auto].
  - intros [[-> ->]|(Hne & Hx & Hq)]; [rewrite lookup_insert_eq; by rewrite Hi | by rewrite lookup_insert_ne].
Qed.

Lemma consistent_with_role t o r r' :
  consistent t -> live t o r -> r_id r' = r_id r -> r_joined r' = r_joined r -> r_conn r' = r_conn r ->
  (r_auth r' = r_auth r \/ length (r_auth r) <> IntroPoint.ed25519AuthKeyLen) ->
  (r_cookie r' = r_cookie r \/ length (r_cookie r) <> rendCookieLen) ->
  consistent (with_role t o r').
Proof.
  intros [T F J N I R E] Hr Hi Hj Hc Ha Hk. pose proof (fun q x => live_with_role t o r r' q x Hr Hi) as Hl.
  assert (forall q x, live t q x -> exists y, live (with_role t o r') q y /\ r_id y = r_id x /\ r_joined y = r_joined x /\
    (length (r_auth x) = IntroPoint.ed25519AuthKeyLen -> r_auth y = r_auth x) /\
    (length (r_cookie x) = rendCookieLen -> r_cookie y = r_cookie x)) as Hx.
  { intros q x Hx. destruct (decide (q = o)) as [->|Hne]; [|exists x; rewrite Hl; split_and!; auto].
    exists r'. destruct Hr as [Hr Ho], Hx as [Hx _]. rewrite Hr in Hx. injection Hx as <-. rewrite Hl. naive_solver. }
  constructor; simpl.
  - intros id q H'. destruct (T id q H') as (x & Hq & Hqi). destruct (Hx q x) as (y & [Hy _] & Hyi & _); [by split; rewrite ?Hqi|].
    exists y. split; [done | congruence].
  - intros q Hq. rewrite lookup_insert_ne; [by apply F|]. intros <-. destruct Hr as [Hr _]. rewrite F in Hr; done.
  - intros q x p Hq Hp. assert (exists x0, live t q x0 /\ r_joined x0 = Some p) as (x0 & Hq0 & Hp0).
    { apply Hl in Hq as [[-> ->]|[_ Hq]]; [exists r | exists x]; split; congruence || done. }
    destruct (J q x0 p Hq0 Hp0) as (y & Hy & Hyj & Hne). destruct (Hx p y Hy) as (z & Hz & _ & Hzj & _). exists z. split_and!; congruence || done.
  - intros q x Hq. apply Hl in Hq as [[-> ->]|[_ Hq]]; [rewrite Hj, Hc; by apply (N o) | by apply (N q)].
  - intros key q H'. destruct (I key q H') as (x & Hq & <- & Hlen). destruct (Hx q x Hq) as (y & Hy & _ & _ & Hya & _).
    exists y. rewrite (Hya Hlen). auto.
  - intros key q H'. destruct (R key q H') as (x & Hq & <- & Hlen & Hjx). destruct (Hx q x Hq) as (y & Hy & _ & Hyj & _ & Hyc).
    exists y. rewrite (Hyc Hlen), Hyj. auto.
  - done.
Qed.

Lemma consistent_intro_insert t key o r :
  consistent t -> live t o r -> hex_encode (r_auth r) = key -> length (r_auth r) = IntroPoint.ed25519AuthKeyLen ->
  consistent (with_intro t (<[key := o]> (t_intro t))).
Proof.
  intros [T F J N I R E] Hr H1 H2. constructor; simpl; try done. intros key' o' H'.
  apply lookup_insert_Some in H' as [[<- <-]|[_ H']]; [by exists r | by apply I].
Qed.

(** Joining two circuits, neither of which waits in a rendezvous slot. *)
Definition joined_to (r : role) (p : nat) (k : Z) : role := mkRole (r_id r) (r_auth r) (r_cookie r) (Some p) (Some k).

Lemma consistent_join t o r k p d k' :
  consistent t -> live t o r -> live t p d -> o <> p -> r_joined r = None -> r_joined d = None ->
  (forall key q, t_rend t !! key = Some q -> q <> o /\ q <> p) ->
  consistent (with_role (with_role t o (joined_to r p k)) p (joined_to d o k')).
Proof.
  intros [T F J N I R E] Ho Hp Hne Hjo Hjp Hs.
  assert (live (with_role t o (joined_to r p k)) p d) as Hp1 by (apply (live_with_role t o r); auto).
  set (t2 := with_role _ p _).
  assert (forall q x, live t2 q x <-> (q = p /\ x = joined_to d o k' \/ q = o /\ x = joined_to r p k \/ q <> p /\ q <> o /\ live t q x)) as Hl.
  { intros q x. unfold t2. rewrite (live_with_role _ p d _ q x Hp1) by done. rewrite (live_with_role t o r _ q x Ho) by done. naive_solver. }
  assert (forall q x, live t q x -> exists y, live t2 q y /\ r_id y = r_id x /\ r_auth y = r_auth x /\ r_cookie y = r_cookie x /\
    (q <> o -> q <> p -> y = x)) as Hx.
  { intros q x Hx. destruct (decide (q = p)) as [->|Hqp]; [|destruct (decide (q = o)) as [->|Hqo]; [|exists x; rewrite Hl; naive_solver]].
    - exists (joined_to d o k'). rewrite Hl. destruct Hp as [Hp _], Hx as [Hx _]. rewrite Hp in Hx. injection Hx as <-. naive_solver.
    - exists (joined_to r p k). rewrite Hl. destruct Ho as [Ho _], Hx as [Hx _]. rewrite Ho in Hx. injection Hx as <-. naive_solver. }
  constructor.
  - intros id q H'. destruct (T id q H') as (x & Hq & Hqi). destruct (Hx q x) as (y & [Hy _] & Hyi & _); [by split; rewrite ?Hqi|].
    exists y. split; [done | congruence].
  - intros q Hq. simpl. simpl in Hq. destruct Ho as [Ho _], Hp as [Hp _].
    rewrite !lookup_insert_ne; [by apply F|intros <-; rewrite F in Ho; done|intros <-; rewrite F in Hp; done].
  - intros q x z Hq Hz. apply Hl in Hq as [[-> ->]|[[-> ->]|(Hqp & Hqo & Hq)]]; simpl in Hz.
    + injection Hz as <-. exists (joined_to r p k). rewrite Hl. naive_solver.
    + injection Hz as <-. exists (joined_to d o k'). rewrite Hl. naive_solver.
    + destruct (J q x z Hq Hz) as (y & Hy & Hyj & Hqz). exists y. rewrite Hl.
      assert (z <> o /\ z <> p) as [Hzo Hzp].
      { destruct Hy as [Hy _], Ho as [Ho _], Hp as [Hp _]. split; intros ->; congruence. }
      naive_solver.
  - intros q x Hq. apply Hl in Hq as [[-> ->]|[[-> ->]|(Hqp & Hqo & Hq)]]; [done|done|by apply (N q)].
  - intros key q H'. destruct (I key q H') as (x & Hq & <- & Hlen). destruct (Hx q x Hq) as (y & Hy & _ & Ha & _). exists y. rewrite Ha. auto.
  - intros key q H'. destruct (R key q H') as (x & Hq & <- & Hlen & Hj). destruct (Hs _ _ H') as [H1 H2].
    destruct (Hx q x Hq) as (y & Hy & _ & _ & _ & He). rewrite (He H1 H2) in Hy. by exists x.
  - exact E.
Qed.

End CircuitTables.
