(* ===== verification/RelayInvariant.v ===== *)
(** * Every handler of a relay keeps its tables consistent

    The invariant of [CircuitTables.v] holds after any sequence of cells, from
    clients and from next hops, with any interleaving while an extension waits. *)

From S2P Require Import Prelude Conversion Cell RelayCell CellPayloads CGO Onion RelayCrypto GoStrings Extend2 IntroPoint ServerCircuit ExitStreams Resolve CircuitHandler CircuitTables.
Import Cell(Cell, mkCell, CircID, Command, Payload).
Import ServerCircuit(ServerCircuit, Primitives, CircuitID, introAuth, rendCookie, joinedCirc, joinedConn, set_joined, set_closed, output).
Import GoStrings(hex_encode).
Import CircuitHandler CircuitTables.

Module RelayInvariant.

(** ** Handlers keep the tables consistent *)

Definition preserves {A} (m : M A) : Prop := spec (fun h => consistent (view h)) m (fun _ h => consistent (view h)).

(** [m] does not touch the tables. *)
Definition quiet {A} (m : M A) : Prop := forall h, view (m h).1.1 = view h.

Lemma quiet_preserves {A} (m : M A) : quiet m -> preserves m.
Proof. intros Hm h Ht. by rewrite Hm. Qed.

Lemma pure_quiet {A} (m : M A) : pure m -> quiet m.
Proof. intros Hm h. by rewrite Hm. Qed.

Lemma quiet_ret {A} (a : A) : quiet (ret a).
Proof. done. Qed.

Lemma quiet_get {A} (f : CircuitHandler -> A) : quiet (get f).
Proof. done. Qed.

Lemma quiet_bind {A B} (m : M A) (k : A -> M B) : quiet m -> (forall a, quiet (k a)) -> quiet (bind m k).
Proof. intros Hm Hk h. rewrite bind_state. by rewrite Hk, Hm. Qed.

Lemma quiet_update o f : (forall c, role_of (f c) = role_of c) -> quiet (update_circ o f).
Proof. intros Hf h. unfold update_circ, modify. by apply view_same. Qed.

Lemma quiet_stat f : quiet (addHSStat f).
Proof. done. Qed.

Lemma pres_ret {A} (a : A) : preserves (ret a).
Proof. by intros h. Qed.

Lemma pres_bind {A B} (m : M A) (k : A -> M B) : preserves m -> (forall a, preserves (k a)) -> preserves (bind m k).
Proof. intros Hm Hk. eapply spec_bind; [exact Hm | exact Hk]. Qed.

Lemma pres_unless m k : preserves m -> preserves k -> preserves (unless m k).
Proof. intros Hm Hk. apply pres_bind; [done|]. intros [e|]; [apply pres_ret | done]. Qed.

Section Roles.
Context `{Primitives}.
Context (sends : Z -> Cell -> bool) (took : Z -> Cell -> Z).

Lemma role_originate c k cc sid cmd data : role_of (ServerCircuit.originate_reply sends c k cc sid cmd data).1.1 = role_of c.
Proof.
  unfold ServerCircuit.originate_reply. destruct (RelayCell.NewRelayCell _ _ _); [|done].
  destruct (RelayCrypto.originateRelay _ _ _ _ _) as [? [?|]]; [|done]. by destruct (ServerCircuit.write_cell _ _ _).
Qed.

Lemma role_send c k sid cmd data : role_of (ServerCircuit.sendRelayToClient sends c k sid cmd data).1.1 = role_of c.
Proof. unfold ServerCircuit.sendRelayToClient. destruct k; [|done]. destruct (ServerCircuit.crypto c); [|done]. apply role_originate. Qed.

Lemma quiet_send o k sid cmd data : quiet (sendRelayToClient sends o k sid cmd data).
Proof.
  intros h. unfold sendRelayToClient. destruct (heap h !! o) as [c|] eqn:Hc; [|done].
  pose proof (role_send c (Some k) sid cmd data) as Hr. destruct (ServerCircuit.sendRelayToClient _ _ _ _ _ _) as [[c' out] e].
  simpl in *. by apply (view_insert _ _ c).
Qed.

Lemma quiet_dos_end o k sid : quiet (sendStreamDoSEnd sends o k sid).
Proof.
  intros h. unfold sendStreamDoSEnd. destruct (heap h !! o) as [c|] eqn:Hc; [|done]. destruct (ServerCircuit.crypto c) as [cc|]; [|done].
  pose proof (role_originate c k cc sid RelayCell.RelayEnd [RelayCell.EndReasonMisc]) as Hr.
  destruct (ServerCircuit.originate_reply _ _ _ _ _ _ _) as [[c' out] e]. simpl in *. by apply (view_insert _ _ c).
Qed.

(** Calls into the exit streams leave the role of the circuit alone. *)
Definition role_safe (f : world -> world * output * option ExitStreams.error) : Prop :=
  forall w, role_of (f w).1.1.2 = role_of w.2.

Lemma quiet_on_exits o f : role_safe f -> quiet (on_exits o f).
Proof.
  intros Hf h. unfold on_exits. destruct (heap h !! o) as [c|] eqn:Hc; [|done]. specialize (Hf (exits h, c)).
  destruct (f (exits h, c)) as [[[m c'] out] e]. simpl in *. by apply (view_insert _ _ c).
Qed.

Lemma role_sendRelay w k sid cmd data now : role_of (ExitStreams.sendRelay sends took w k sid cmd data now).1.1.2 = role_of w.2.
Proof.
  destruct w as [m c]. unfold ExitStreams.sendRelay, ExitStreams.sendRelay_originate. destruct (RelayCell.NewRelayCell _ _ _); [|done].
  destruct (ServerCircuit.crypto c); [|done]. destruct (RelayCrypto.originateRelayTag _ _ _ _ _) as [? [[? ?]|]]; [|done].
  by destruct (ExitStreams.sendRelay_write _ _ _ _ _ _ _ _ _ _) as [[? ?] ?].
Qed.

Ltac relay_step :=
  match goal with
  | |- context [ExitStreams.sendRelay sends took ?w ?k ?sid ?cmd ?data ?now] =>
      let Hr := fresh "Hr" in
      pose proof (role_sendRelay w k sid cmd data now) as Hr;
      destruct (ExitStreams.sendRelay sends took w k sid cmd data now) as [[[? ?] ?] [?|]]; cbn [fst snd] in *
  end.

Lemma role_data meanwhile bwOK wrote k sid data now :
  role_safe (fun w => ExitStreams.HandleData sends took meanwhile bwOK wrote w k sid data now).
Proof.
  intros [m c]. unfold ExitStreams.HandleData, ExitStreams.sendEnd. destruct (ExitStreams.lookup_stream _ _) as [[o es]|]; [|done].
  destruct (_ <=? 0); [by rewrite role_sendRelay|]. destruct bwOK; [|done]. cbn [negb]; destruct wrote; [|by (cbn [negb]; rewrite role_sendRelay)]. cbn [negb].
  destruct (ExitStreams.data_delivered _ _ _) as [[m2 d] ss].
  assert (forall w out, role_of (if ss : bool then let '(w, out', _) := ExitStreams.sendRelay sends took w k sid RelayCell.RelaySendme [] now in
    (w, out ++ out', @None ExitStreams.error) else (w, out, @None ExitStreams.error)).1.1.2 = role_of w.2) as Hs.
  { intros w out. destruct ss; [|done]. by relay_step. }
  destruct d as [d|]; [|apply (Hs (m2, c))]. destruct (ExitStreams.tag_ok d); [|apply (Hs (m2, c))].
  destruct (Sendme.EncodeSendmeV1 d); [|apply (Hs (m2, c))]. relay_step; rewrite Hs; done.
Qed.

Lemma role_begin env policy k sid data now : role_safe (fun w => ExitStreams.HandleBegin sends took env policy w k sid data now).
Proof.
  intros [m c]. unfold ExitStreams.HandleBegin, ExitStreams.sendEnd. destruct policy as [p|]; [|by (cbn [negb]; rewrite role_sendRelay)].
  destruct (ExitStreams.AllowExit p); [|by (cbn [negb]; rewrite role_sendRelay)]. cbn [negb].
  destruct (ExitStreams.parseBeginAddr data) as [[[[addr port] flags] present]|]; [|by (cbn [negb]; rewrite role_sendRelay)].
  destruct (ExitStreams.isOnionHost addr); [by rewrite role_sendRelay|].
  destruct (ExitStreams.begin_check _ _ _) as [m1 room]. destruct room; [|by (cbn [negb]; rewrite role_sendRelay)]. cbn [negb].
  destruct (ExitStreams.acquire _) as [g got]. destruct got; [|by (cbn [negb]; rewrite role_sendRelay)]. cbn [negb].
  destruct (ExitStreams.begin_connect _ _ _ _ _ _) as [[c1 payload]|reason]; by relay_step.
Qed.

Lemma role_begin_dir meanwhile dial k sid now : role_safe (fun w => ExitStreams.HandleBeginDir sends took meanwhile dial w k sid now).
Proof.
  intros [m c]. unfold ExitStreams.HandleBeginDir, ExitStreams.sendEnd. destruct dial as [d|]; [|by (cbn [negb]; rewrite role_sendRelay)].
  destruct (_ <=? _); [by rewrite role_sendRelay|]. destruct (ExitStreams.acquire _) as [g got]. destruct got; [|by (cbn [negb]; rewrite role_sendRelay)].
  cbn [negb]. destruct d as [c1|]; [|by (cbn [negb]; rewrite role_sendRelay)]. relay_step; [|done]. by destruct (ExitStreams.removeStream _ _ _) as [? [?|]].
Qed.

Lemma role_resolve p r k sid data now : role_safe (fun w => Resolve.HandleResolve sends took p r w k sid data now).
Proof. intros w. unfold Resolve.HandleResolve. destruct (sid =? 0); [done | apply role_sendRelay]. Qed.

End Roles.

Section Preserve.
Context `{Primitives} `{IntroPoint.IntroCrypto}.
Context (sends : Z -> Cell -> bool) (took : Z -> Cell -> Z).

Lemma pres_close id : preserves (CloseCircuit sends id).
Proof. intros h. apply consistent_close. Qed.

Lemma quiet_destroy k id reason : quiet (sendDestroyCell sends k id reason).
Proof. apply pure_quiet, pure_destroy. Qed.

Lemma quiet_write k c : quiet (write sends k c).
Proof. apply pure_quiet, pure_write. Qed.

Lemma pres_destroy_close k id reason e : preserves (destroy_and_close sends k id reason e).
Proof. apply pres_bind; [apply quiet_preserves, quiet_destroy|]. intros _. apply pres_bind; [apply pres_close|]. intros _. apply pres_ret. Qed.

Lemma pres_closeHS o k reason : preserves (closeHSCircuit sends o k reason).
Proof.
  apply pres_bind; [by apply quiet_preserves|]. intros [c|]; [|apply pres_ret].
  apply pres_bind; [apply quiet_preserves, quiet_destroy|]. intros _. apply pres_bind; [apply pres_close|]. intros _. apply pres_ret.
Qed.

Lemma pres_next_hop id : preserves (destroy_next_hop sends id).
Proof. intros h Ht. rewrite destroy_next_state, view_set_extended. by apply consistent_no_extension. Qed.

Lemma pres_truncate id : preserves (handleTruncate sends id).
Proof. apply pres_bind; [apply pres_next_hop|]. intros _. apply pres_ret. Qed.

(** The exits and the statistics are no part of the tables. *)
Lemma quiet_exits f : quiet (modify (fun h => set_exits h (f h) (brokenClock h))).
Proof. done. Qed.

Lemma pres_sendme env id k sid data : preserves (handle_sendme sends env id k sid data).
Proof.
  apply pres_bind; [|intros [e|]; [apply pres_destroy_close | apply pres_ret]].
  apply quiet_preserves. intros h. by destruct (ExitStreams.HandleSendme _ _ _ _ _ _) as [[b m] e].
Qed.

Lemma view_add_circuit h c : view (add_circuit c h).1.1 = with_circuit (view h) (role_of c).
Proof. unfold add_circuit, modify, view. simpl. by rewrite fmap_insert. Qed.

Lemma pres_create2 env k c la rsa ed : preserves (handleCreate2Auth sends env k c la rsa ed).
Proof.
  unfold handleCreate2Auth. destruct (match dos env with Some g => _ | None => _ end); [apply quiet_preserves, quiet_destroy|].
  intros h Ht. rewrite bind_state. unfold get. cbn [fst snd].
  destruct (circuits h !! CircID c) as [o|] eqn:Hc; [by rewrite quiet_destroy|].
  destruct (Extend2.parse_create2 _) as [[htype hs]|]; [|by rewrite quiet_destroy]. destruct (negb _); [by rewrite quiet_destroy|].
  destruct (handshake env htype hs) as [[[resp km] nonce]|]; [|by rewrite quiet_destroy].
  destruct (RelayCrypto.newCircuitCrypto _ km) as [cc|]; [|by rewrite quiet_destroy]. rewrite !bind_state.
  set (circ0 := ServerCircuit.mkCircuit _ _ _ _ _ _ _ _ _ _ _ _ _ _ _).
  assert (forall (m : M unit) (k : M (option error)) h1, quiet m -> quiet k -> consistent (view h1) -> consistent (view (k (m h1).1.1).1.1)) as Hq.
  { intros m k' h1 Hm Hk H1. by rewrite Hk, Hm. }
  apply Hq.
  - by destruct (htype =? 3).
  - unfold sendCreated2. destruct (Extend2.created2_payload resp); [apply quiet_write | done].
  - rewrite view_add_circuit. by apply consistent_with_circuit.
Qed.

(** ** Extending *)

Lemma pres_register_extended id next addr k c : preserves (registerExtendedCircuit id next addr k c).
Proof.
  intros h Ht. unfold registerExtendedCircuit. rewrite bind_state. unfold GetCircuit, get. cbn [fst snd].
  destruct (circuits h !! id) as [o|] eqn:Ho; [|done]. destruct (heap h !! o) as [c0|]; [|done].
  unfold registerExtended. destruct (extended h !! id) as [ext|] eqn:He; [done|]. cbn [fst snd].
  unfold view. simpl. rewrite fmap_insert. simpl.
  apply (consistent_with_extended (view h) id (id, 0)); [done | by exists o | done | simpl; lia].
Qed.

Lemma quiet_originate id resp : quiet (sendExtended2 sends id resp).
Proof.
  unfold sendExtended2. destruct (Extend2.extended2_data resp) as [data|]; [|done]. apply quiet_bind; [done|].
  intros [[o c]|]; [|by destruct (RelayCell.Encode _)]. destruct (ServerCircuit.crypto c) as [cc|]; [|by destruct (RelayCell.Encode _)].
  destruct (RelayCrypto.originateRelay _ _ _ cc _) as [cc' [enc|e]]; (apply quiet_bind; [by apply quiet_update|]; intros _); [|done].
  apply quiet_bind; [done|]. intros [k|]; [apply quiet_write | done].
Qed.

Lemma pres_extend2 env id data k :
  preserves (meanwhile env) -> preserves (HandleExtend2 sends env id data k).
Proof.
  intros Hm. unfold HandleExtend2. destruct (Extend2.parse_extend2 data) as [req|]; [|apply pres_ret].
  destruct (connectToNextHop _ _ _) as [nc|]; [|apply pres_ret]. destruct (Extend2.sendCreate2_payload _ _) as [p|]; [|apply pres_ret].
  apply pres_unless; [apply quiet_preserves, quiet_write|]. apply pres_bind; [done|]. intros _.
  destruct (created2 env) as [p2|]; [|apply pres_ret]. destruct (Extend2.relay_response p2) as [resp|]; [|apply pres_ret].
  apply pres_unless; [apply pres_register_extended|]. apply pres_bind; [by apply quiet_preserves|]. intros c. apply quiet_preserves.
  apply quiet_bind; [destruct c as [[o c]|]; [by apply quiet_update | done]|]. intros _. apply quiet_bind; [done|]. intros _.
  apply quiet_originate.
Qed.

(** ** Introduction points *)

(** [o] is the object of a living circuit in a consistent state. *)
Definition alive (o : nat) (h : CircuitHandler) : Prop := consistent (view h) /\ exists r, live (view h) o r.

Lemma spec_consistent {A} (P : CircuitHandler -> Prop) (m : M A) :
  (forall h, P h -> consistent (view h)) -> preserves m -> spec P m (fun _ h => consistent (view h)).
Proof. intros HP Hm h Hp. by apply Hm, HP. Qed.

Lemma spec_quiet {A} (P : tables -> Prop) (m : M A) : quiet m -> spec (fun h => P (view h)) m (fun _ h => P (view h)).
Proof. intros Hm h Hp. by rewrite Hm. Qed.

(** [rejectIfExtended] either ends the handler or changes nothing. *)
Lemma spec_reject o k (P : CircuitHandler -> Prop) (Q : option error -> CircuitHandler -> Prop) (m : M (option error)) :
  (forall h, P h -> consistent (view h)) -> (forall e h, consistent (view h) -> Q e h) -> spec P m Q ->
  spec P (unless (rejectIfExtended sends o k) m) Q.
Proof.
  intros HP HQ Hm. apply spec_unless; [|done]. intros h Hp. unfold rejectIfExtended. unfold bind, circ_at, get.
  destruct (heap h !! o) as [c|]; [|done]. destruct (ServerCircuit.didExtend c); [|done].
  assert (consistent (view (destroyHSCircuit sends o k h).1.1)) as Hc by (apply pres_closeHS; by apply HP).
  assert ((destroyHSCircuit sends o k h).2 <> None) as He.
  { unfold destroyHSCircuit, closeHSCircuit, bind, circ_at, get. destruct (heap h !! o); [|done].
    destruct (sendDestroyCell _ _ _ _ _) as [[h1 o1] e1]. destruct (CloseCircuit _ _ _) as [[h2 o2] e2]. done. }
  destruct (destroyHSCircuit sends o k h) as [[h2 o2] [e|]]; simpl in *; [by apply HQ | done].
Qed.

Lemma live_view h o r : live (view h) o r -> exists c, heap h !! o = Some c /\ role_of c = r.
Proof. intros Hr. destruct (view_live h o r Hr) as (c & Hc & Hr' & _). eauto. Qed.

Lemma view_set_role h o c : view (set_heap h (<[o := c]> (heap h))) = with_role (view h) o (role_of c).
Proof. unfold view, with_role. simpl. by rewrite fmap_insert. Qed.

Lemma pres_registerIntro o k auth ext t :
  spec (alive o) (registerIntro o k auth ext t) (fun _ h => consistent (view h)).
Proof.
  intros h [Ht [r Hr]]. unfold registerIntro. destruct (live_view h o r Hr) as (c & Hc & <-). rewrite Hc.
  destruct (Nat.eqb_spec (length auth) IntroPoint.ed25519AuthKeyLen) as [Hl|]; [|done]. cbn [negb].
  case_if; [done|]. case_if; [done|]. destruct (0 <? len (introAuth c)) eqn:Ea; [done|]. cbn [fst snd].
  set (c' := ServerCircuit.set_introAuth c auth).
  assert (consistent (with_role (view h) o (role_of c'))) as H1.
  { apply (consistent_with_role _ o (role_of c)); try done; [|by left]. right. simpl. bool_to_prop. unfold len in Ea.
    unfold IntroPoint.ed25519AuthKeyLen. lia. }
  assert (live (with_role (view h) o (role_of c')) o (role_of c')) as H2 by (apply (live_with_role _ _ _ _ _ _ Hr); auto).
  pose proof (consistent_intro_insert _ (hex_encode auth) o (role_of c') H1 H2 eq_refl Hl) as H3.
  change (consistent (view (set_intro (set_heap h (<[o := c']> (heap h)))
    (<[hex_encode auth := mkSlot o k (IntroPoint.newIntroDoSBucket (IntroPoint.ResolveIntroDoS ext (introDoSCons h)) t) t]> (introByAuth h))))).
  unfold view, with_intro, with_role in *. simpl in *. by rewrite !fmap_insert.
Qed.

Lemma pres_establish_intro env o k payload :
  spec (alive o) (handleEstablishIntro sends env o k payload) (fun _ h => consistent (view h)).
Proof.
  apply spec_reject; [by intros h [? _] | done |]. eapply spec_bind; [apply (spec_get _ (alive o) (fun _ => alive o)); done|].
  intros [c|]; [|by apply spec_ret; intros h [? _]].
  assert (spec (alive o) (destroyHSCircuit sends o k) (fun _ h => consistent (view h))) as Hd
    by (apply spec_consistent; [by intros h [? _] | apply pres_closeHS]).
  case_if; [done|]. case_if; [done|]. destruct (IntroPoint.VerifyEstablishIntroPayload _ _); [done|]. case_if; [done|].
  eapply spec_bind; [apply pres_registerIntro|]. intros [e|]; [apply pres_closeHS|].
  apply (quiet_preserves (addHSStat _ ;; _)). apply quiet_bind; [apply quiet_stat|]. intros _. apply quiet_send.
Qed.

Lemma pres_introduce1 env o k payload :
  spec (alive o) (handleIntroduce1 sends env o k payload) (fun _ h => consistent (view h)).
Proof.
  apply spec_reject; [by intros h [? _] | done |]. apply spec_consistent; [by intros h [? _]|].
  destruct (IntroPoint.parseIntroduce1AuthKey payload) as [auth|]; [|apply quiet_preserves, quiet_send].
  intros h Ht. rewrite bind_state. unfold get. cbn [fst snd].
  destruct (introByAuth h !! hex_encode auth) as [s|] eqn:Es; [|by rewrite quiet_send].
  destruct (IntroPoint.allowIntro2 _ _) as [b allowed]. rewrite bind_state. unfold modify. cbn [fst snd].
  set (h1 := set_intro h _). assert (view h1 = view h) as Hv.
  { unfold h1, view. simpl. rewrite fmap_insert. simpl. f_equal. apply insert_id. by rewrite lookup_fmap, Es. }
  assert (consistent (view h1)) as H1 by by rewrite Hv. clearbody h1. destruct (negb allowed); [by rewrite quiet_send|].
  rewrite bind_state. set (h2 := (sendRelayToClient sends _ _ _ _ _ h1).1.1).
  assert (consistent (view h2)) as H2 by (unfold h2; by rewrite quiet_send). clearbody h2.
  match goal with |- context [match ?e with Some _ => _ | None => _ end] => destruct e end; by rewrite quiet_send.
Qed.

(** ** Rendezvous *)

(** [o] is a living circuit that is not joined, or one that has (or had) a cookie. *)
Definition pending (o : nat) (h : CircuitHandler) : Prop :=
  consistent (view h) /\ exists r, t_heap (view h) !! o = Some r /\ (r_cookie r <> [] \/ live (view h) o r /\ r_joined r = None).

(** A slot taken out of the table: its circuit is still there, or closed. *)
Definition expiring (h : CircuitHandler) (s : hsRoleSlot) : Prop :=
  exists r, t_heap (view h) !! circ s = Some r /\ r_cookie r <> [] /\ r_joined r = None /\
    (t_circuits (view h) !! r_id r = Some (circ s) \/ t_circuits (view h) !! r_id r = None).

Lemma heap_alter_unjoin t o q r :
  t_heap t !! q = Some r -> exists r', alter unjoin o (t_heap t) !! q = Some r' /\ r_id r' = r_id r /\ r_cookie r' = r_cookie r /\
    (r_joined r = None -> r_joined r' = None) /\ (q <> o -> r' = r).
Proof.
  intros Hr. destruct (decide (q = o)) as [->|Hne].
  - exists (unjoin r). rewrite lookup_alter_eq, Hr. naive_solver.
  - exists r. rewrite lookup_alter_ne by done. naive_solver.
Qed.

Lemma close_expiring o s l h :
  pending o h -> Forall (expiring h) (s :: l) ->
  let h' := (closeHSCircuit sends (circ s) (conn s) Cell.DestroyReasonTimeout h).1.1 in
  pending o h' /\ Forall (expiring h') l.
Proof.
  intros [Ht (ro & Hro & Ho)] Hl h'. apply Forall_cons in Hl as [(r & Hr & Hck & Hj & Hin) Hl].
  rewrite view_heap in Hr. destruct (heap h !! circ s) as [c|] eqn:Hc; [|done]. simpl in Hr. injection Hr as <-.
  assert (h' = (CloseCircuit sends (CircuitID c) h).1.1) as ->.
  { unfold h', closeHSCircuit. rewrite bind_state. unfold circ_at, get. cbn [fst snd]. rewrite Hc, bind_state, pure_destroy. by rewrite bind_state. }
  pose proof (consistent_close sends (CircuitID c) h Ht) as Ht'.
  destruct (close_cases sends (CircuitID c) h Ht) as [[Hn Hv]|(o1 & r1 & Ho1 & Hr1 & Hi & Hv)].
  - assert (forall s, expiring h s -> expiring (CloseCircuit sends (CircuitID c) h).1.1 s) as He by (intros s'; unfold expiring; by rewrite Hv).
    split; [|eapply Forall_impl; [exact Hl | exact He]]. split; [done|]. rewrite Hv. by exists ro.
  - assert (o1 = circ s /\ r1 = role_of c) as [-> ->].
    { simpl in Hin. destruct Hin as [Hin|Hin]; [|congruence]. rewrite Ho1 in Hin. injection Hin as ->. split; [done|].
      destruct Hr1 as [Hr1 _]. rewrite view_heap, Hc in Hr1. simpl in Hr1. by injection Hr1 as <-. }
    destruct Hv as [[_ Hv]|(p & d & Hjp & _)]; [|simpl in Hjp; simpl in Hj; congruence].
    assert (forall s, expiring h s -> expiring (CloseCircuit sends (CircuitID c) h).1.1 s) as He.
    { intros s' (x & Hx & Hxc & Hxj & Hxt). destruct (heap_alter_unjoin _ (circ s) _ _ Hx) as (y & Hy & Hyi & Hyc & Hyj & _).
      exists y. rewrite Hv. split; [exact Hy|]. rewrite Hyc, Hyi. split; [done|]. split; [auto|]. simpl.
      destruct (decide (r_id x = CircuitID c)) as [->|Hne]; [right; by rewrite lookup_delete_eq | by rewrite lookup_delete_ne]. }
    split; [|eapply Forall_impl; [exact Hl | exact He]]. split; [done|]. rewrite Hv.
    destruct (heap_alter_unjoin _ (circ s) _ _ Hro) as (y & Hy & Hyi & Hyc & Hyj & Hye). exists y. split; [exact Hy|].
    destruct (decide (o = circ s)) as [->|Hne].
    + left. rewrite Hyc. rewrite view_heap, Hc in Hro. simpl in Hro. injection Hro as <-. done.
    + rewrite (Hye Hne). destruct Ho as [Ho|[Ho Hoj]]; [by left|]. right. split; [|done]. by apply drop1_live.
Qed.

Lemma spec_expired o l : spec (fun h => pending o h /\ Forall (expiring h) l) (close_expired sends l) (fun _ => pending o).
Proof.
  induction l as [|s l IH]; [apply spec_ret; by intros h [? _]|]. cbn [close_expired].
  eapply spec_bind; [|intros a; exact IH]. intros h [Hp Hl]. by apply close_expiring.
Qed.

Lemma map_subseteq_fmap_filter (P : bytes * hsRoleSlot -> Prop) `{!forall x, Decision (P x)} (m : gmap bytes hsRoleSlot) :
  circ <$> filter P m ⊆ circ <$> m.
Proof. apply map_fmap_mono, map_filter_subseteq. Qed.

Lemma spec_reap o t : spec (pending o) (reapExpiredRend sends t) (fun _ => pending o).
Proof.
  intros h [Ht Ho]. unfold reapExpiredRend. rewrite bind_state. unfold get. cbn [fst snd]. rewrite bind_state. unfold modify. cbn [fst snd].
  rewrite bind_state. set (dead := (map_to_list _).*2). set (h2 := (addHSStat _ _).1.1).
  assert (view h2 = with_rend (view h) (circ <$> filter (fun kv => ~ unjoinedRendTTL <= t - created kv.2) (rendByCookie h))) as Hv by done.
  assert (pending o h2) as Hp.
  { split; [|by rewrite Hv]. rewrite Hv. apply consistent_rend_shrink; [done|]. apply map_subseteq_fmap_filter. }
  apply spec_expired. split; [exact Hp|]. apply Forall_forall. intros s Hs. apply list_elem_of_fmap in Hs as ([key s'] & -> & Hs).
  apply elem_of_map_to_list, map_lookup_filter_Some in Hs as [Hs _].
  destruct (c_rend _ Ht key (circ s')) as (r & [Hr Hrt] & Hk & Hlen & Hj); [simpl; by rewrite lookup_fmap, Hs|].
  exists r. rewrite Hv. simpl in *. split_and!; [done| |done|by left]. intros He. rewrite He in Hlen. done.
Qed.

Lemma pres_registerRend o k cookie t :
  spec (pending o) (registerRend o k cookie t) (fun _ h => consistent (view h)).
Proof.
  intros h [Ht (r & Hr & Ho)]. unfold registerRend. rewrite view_heap in Hr. destruct (heap h !! o) as [c|] eqn:Hc; [|done].
  simpl in Hr. injection Hr as <-. destruct (Nat.eqb_spec (length cookie) rendCookieLen) as [Hl|]; [|done]. cbn [negb].
  case_if; [done|]. destruct (0 <? len (rendCookie c)) eqn:Ek; [done|]. bool_to_prop.
  assert (rendCookie c = []) as Hk by (destruct (rendCookie c); [done|]; unfold len in Ek; simpl in Ek; lia).
  assert (view (set_heap h (<[o := ServerCircuit.set_rendCookie c []]> (heap h))) = view h) as Hsame.
  { apply (view_insert _ _ c); [done|]. unfold role_of. simpl. by rewrite Hk. }
  case_if; [cbn [fst snd]; by rewrite Hsame|]. case_if; [cbn [fst snd]; by rewrite Hsame|]. cbn [fst snd].
  destruct Ho as [Ho|[Ho Hj]]; [done|]. set (c' := ServerCircuit.set_rendCookie c cookie).
  assert (consistent (with_role (view h) o (role_of c'))) as H1.
  { apply (consistent_with_role _ o (role_of c)); try done; [by left|]. right. simpl. by rewrite Hk. }
  assert (live (with_role (view h) o (role_of c')) o (role_of c')) as H2 by (apply (live_with_role _ _ _ _ _ _ Ho); auto).
  pose proof (consistent_rend_insert _ (hex_encode cookie) o (role_of c') H1 H2 eq_refl Hl Hj) as H3.
  change (consistent (view (set_rend (set_heap h (<[o := c']> (heap h))) (<[hex_encode cookie := mkSlot o k None t]> (rendByCookie h))))).
  unfold view, with_rend, with_role in *. simpl in *. by rewrite !fmap_insert.
Qed.

Lemma pending_consistent {A} o (m : M A) : preserves m -> spec (pending o) m (fun _ h => consistent (view h)).
Proof. intros Hm. apply spec_consistent; [by intros h [? _] | done]. Qed.

Lemma pres_establish_rend env o k payload :
  spec (pending o) (handleEstablishRendezvous sends env o k payload) (fun _ h => consistent (view h)).
Proof.
  apply spec_reject; [by intros h [? _] | done |]. eapply spec_bind; [apply spec_reap|]. intros []. cbn beta.
  case_if; [apply pending_consistent, pres_closeHS|]. eapply spec_bind; [apply pres_registerRend|].
  intros [e|]; [apply pres_closeHS|].
  apply (quiet_preserves (addHSStat _ ;; _)). apply quiet_bind; [apply quiet_stat|]. intros _. apply quiet_send.
Qed.

Lemma alter_is_insert (m : gmap nat role) o f x : m !! o = Some x -> alter f o m = <[o := f x]> m.
Proof.
  intros Hx. apply map_eq. intros q. destruct (decide (q = o)) as [->|Hne].
  - by rewrite lookup_alter_eq, lookup_insert_eq, Hx.
  - by rewrite lookup_alter_ne, lookup_insert_ne.
Qed.

Lemma view_join h a aConn b bConn ra rb :
  t_heap (view h) !! a = Some ra -> t_heap (view h) !! b = Some rb -> a <> b ->
  view (joinHSCircuits a aConn b bConn h).1.1 =
  with_role (with_role (view h) a (joined_to ra b bConn)) b (joined_to rb a aConn).
Proof.
  intros Ha Hb Hne. unfold joinHSCircuits. rewrite bind_state. unfold update_circ, modify. cbn [fst snd].
  rewrite (view_circ_update _ b _ (fun r => joined_to r a aConn)), (view_circ_update h a _ (fun r => joined_to r b bConn)) by done.
  cbn [t_heap t_fresh t_circuits t_extended t_intro t_rend].
  rewrite (alter_is_insert _ a _ ra Ha). rewrite (alter_is_insert _ b _ rb); [done|]. by rewrite lookup_insert_ne.
Qed.

(** Taking a slot out and putting it back. *)
Lemma view_take_slot h key : view (set_rend h (delete key (rendByCookie h))) = with_rend (view h) (delete key (t_rend (view h))).
Proof. unfold view, with_rend. simpl. by rewrite fmap_delete. Qed.

Lemma view_restore h h1 key s :
  rendByCookie h !! key = Some s -> view h1 = with_rend (view h) (delete key (t_rend (view h))) ->
  view (restoreRend key s h1).1.1 = view h.
Proof.
  intros Hs Hv. unfold restoreRend, modify. cbn [fst snd].
  assert (rendByCookie h1 !! key = None) as Hn.
  { assert (t_rend (view h1) !! key = None) as Hx by (rewrite Hv; simpl; apply lookup_delete_eq). simpl in Hx.
    rewrite lookup_fmap in Hx. by destruct (rendByCookie h1 !! key). }
  rewrite Hn. transitivity (with_rend (view h1) (<[key := circ s]> (t_rend (view h1)))); [unfold view, with_rend; simpl; by rewrite fmap_insert|].
  rewrite Hv. apply tables_eq; try done. simpl. rewrite insert_delete_eq. apply insert_id. by rewrite lookup_fmap, Hs.
Qed.

Lemma pres_rendezvous1 env o k payload :
  spec (pending o) (handleRendezvous1 sends env o k payload) (fun _ h => consistent (view h)).
Proof.
  apply spec_reject; [by intros h [? _] | done |]. eapply spec_bind; [apply spec_reap|]. intros []. cbn beta.
  case_if; [apply pending_consistent, pres_closeHS|]. set (key := hex_encode (take rendCookieLen payload)).
  intros h [Ht (ro & Hro & Ho)]. rewrite bind_state. unfold get. cbn [fst snd]. rewrite bind_state. unfold modify. cbn [fst snd].
  set (h1 := set_rend h _). assert (view h1 = with_rend (view h) (delete key (t_rend (view h)))) as Hv by apply view_take_slot.
  assert (consistent (view h1)) as Ht1 by (rewrite Hv; apply consistent_rend_shrink; [done | apply delete_subseteq]).
  assert (heap h1 = heap h) as Hh1 by done. clearbody h1. rewrite bind_state. unfold circ_at, get. cbn [fst snd]. rewrite Hh1.
  destruct (rendByCookie h !! key) as [s|] eqn:Es; [|by apply pres_closeHS].
  rewrite view_heap in Hro. destruct (heap h !! o) as [c|] eqn:Hc; [|done]. simpl in Hro. injection Hro as <-.
  destruct (c_rend _ Ht key (circ s)) as (rs & Hrs & Hkey & Hlen & Hjs); [simpl; by rewrite lookup_fmap, Es|].
  destruct (live_view h _ _ Hrs) as (d & Hd & <-). rewrite bind_state. cbn [fst snd]. rewrite Hh1, Hd.
  destruct (Z.eqb_spec (CircuitID d) (CircuitID c)) as [|Hid]; [by apply pres_closeHS|].
  assert (forall h2 : CircuitHandler, view h2 = view h1 -> consistent (view (destroyHSCircuit sends o k (restoreRend key s h2).1.1).1.1)) as Hrestore.
  { intros h2 H2. apply pres_closeHS. by rewrite (view_restore h h2 key s Es) by congruence. }
  destruct (_ || _ || _) eqn:Eocc; [rewrite bind_state; by apply Hrestore|].
  apply orb_false_iff in Eocc as [Eocc E3]. apply orb_false_iff in Eocc as [E1 E2].
  rewrite bind_state. pose proof (quiet_send sends (circ s) (conn s) 0 RelayCell.RelayRendezvous2 (drop rendCookieLen payload) h1) as H2.
  set (h2 := (sendRelayToClient sends _ _ _ _ _ h1).1.1) in *. clearbody h2.
  match goal with |- context [match ?e with Some _ => _ | None => _ end] => destruct e end; [rewrite bind_state; by apply Hrestore|].
  rewrite !bind_state. change (consistent (view (joinHSCircuits o k (circ s) (conn s) h2).1.1)).
  destruct Ho as [Ho|[Ho Hj]]; [exfalso; apply Ho; simpl; bool_to_prop; destruct (rendCookie c); [done|]; unfold len in E3; simpl in E3; lia|].
  assert (o <> circ s) as Hne by (intros ->; rewrite Hd in Hc; congruence).
  assert (t_heap (view h2) = t_heap (view h) /\ t_circuits (view h2) = t_circuits (view h)) as [Hh2 Hc2] by (by rewrite H2, Hv).
  rewrite (view_join h2 o k (circ s) (conn s) (role_of c) (role_of d)); try done; [|by rewrite Hh2; apply Ho|by rewrite Hh2; apply Hrs].
  apply consistent_join; try done.
  - by rewrite H2.
  - split; [by rewrite Hh2; apply Ho | by rewrite Hc2; apply Ho].
  - split; [by rewrite Hh2; apply Hrs | by rewrite Hc2; apply Hrs].
  - intros key' q Hq. rewrite H2, Hv in Hq. simpl in Hq. apply lookup_delete_Some in Hq as [Hkk Hq].
    destruct (c_rend _ Ht key' q Hq) as (x & [Hx _] & Hxk & Hxl & _). rewrite view_heap in Hx. split; intros ->.
    + rewrite Hc in Hx. simpl in Hx. injection Hx as <-. simpl in Hxl. bool_to_prop. unfold len in E3. unfold rendCookieLen in Hxl. lia.
    + rewrite Hd in Hx. simpl in Hx. injection Hx as <-. congruence.
Qed.

(** ** Relay cells *)

(** A living circuit that is not joined. *)
Definition settled (o : nat) (h : CircuitHandler) : Prop := consistent (view h) /\ exists r, live (view h) o r /\ r_joined r = None.

Lemma settled_alive o h : settled o h -> alive o h.
Proof. intros [Ht (r & Hr & _)]. split; eauto. Qed.

Lemma settled_pending o h : settled o h -> pending o h.
Proof. intros [Ht (r & Hr & Hj)]. split; [done|]. exists r. split; [apply Hr | by right]. Qed.

Lemma settled_consistent {A} o (m : M A) : preserves m -> spec (settled o) m (fun _ h => consistent (view h)).
Proof. intros Hm. apply spec_consistent; [by intros h [? _] | done]. Qed.

Lemma pres_single_hop env o k : preserves (refuseSingleHopIfNeeded sends env o k).
Proof.
  unfold refuseSingleHopIfNeeded. destruct (dos env) as [g|]; [|apply pres_ret]. destruct (RefuseSingleHop g); [|apply pres_ret].
  apply pres_bind; [by apply quiet_preserves|]. intros [c|]; [|apply pres_ret]. case_if; [apply pres_ret|]. case_if; [apply pres_ret|].
  apply pres_destroy_close.
Qed.

Lemma pres_stream_dos env o k sid : preserves (applyStreamDoS sends env o k sid).
Proof.
  unfold applyStreamDoS. destruct (dos env) as [g|]; [|apply pres_ret]. apply pres_bind; [by apply quiet_preserves|].
  intros [c|]; [|apply pres_ret]. destruct (AllowBeginOrResolve g); [apply pres_ret| |apply pres_destroy_close].
  apply pres_unless; [apply quiet_preserves, quiet_dos_end | apply pres_ret].
Qed.

Lemma pres_guarded env o k sid m : preserves m -> preserves (guarded sends env o k sid m).
Proof. intros Hm. apply pres_unless; [apply pres_single_hop|]. apply pres_unless; [apply pres_stream_dos | done]. Qed.

Section Environment.
Context (env : cell_env) (Hm : preserves (meanwhile env)).

Lemma pres_local_command o id k rc : spec (settled o) (local_command sends took env o id k rc) (fun _ h => consistent (view h)).
Proof using Hm.
  unfold local_command. cbv zeta.
  assert (forall f, role_safe f -> preserves (on_exits o f)) as Hx by (intros f Hf; by apply quiet_preserves, quiet_on_exits).
  assert (forall m, spec (settled o) m (fun _ h => consistent (view h)) ->
    spec (settled o) (if negb (RelayCell.StreamID rc =? 0) then destroyHSCircuit sends o k else m) (fun _ h => consistent (view h))) as Hc.
  { intros m Hsm. case_if; [apply settled_consistent, pres_closeHS | done]. }
  destruct (RelayCell.Command rc =? RelayCell.RelayBegin); [apply settled_consistent, pres_guarded, Hx, role_begin|].
  destruct (RelayCell.Command rc =? RelayCell.RelayBeginDir); [apply settled_consistent, pres_guarded, Hx, role_begin_dir|].
  destruct (RelayCell.Command rc =? RelayCell.RelayResolve); [apply settled_consistent, pres_guarded, Hx, role_resolve|].
  destruct (RelayCell.Command rc =? RelayCell.RelayData); [apply settled_consistent, Hx, role_data|].
  destruct (RelayCell.Command rc =? RelayCell.RelaySendme); [apply settled_consistent, pres_sendme|].
  destruct (RelayCell.Command rc =? RelayCell.RelayEnd); [by apply settled_consistent, quiet_preserves, quiet_bind|].
  destruct (RelayCell.Command rc =? RelayCell.RelayExtend2); [by apply settled_consistent, pres_extend2|].
  destruct (RelayCell.Command rc =? RelayCell.RelayTruncate); [apply settled_consistent, pres_truncate|].
  destruct (RelayCell.Command rc =? RelayCell.RelayEstablishIntro).
  { apply Hc. eapply spec_weaken; [apply pres_establish_intro | apply settled_alive | done]. }
  destruct (RelayCell.Command rc =? RelayCell.RelayEstablishRendezvous).
  { apply Hc. eapply spec_weaken; [apply pres_establish_rend | apply settled_pending | done]. }
  destruct (RelayCell.Command rc =? RelayCell.RelayIntroduce1).
  { apply Hc. eapply spec_weaken; [apply pres_introduce1 | apply settled_alive | done]. }
  destruct (RelayCell.Command rc =? RelayCell.RelayRendezvous1).
  { apply Hc. eapply spec_weaken; [apply pres_rendezvous1 | apply settled_pending | done]. }
  apply settled_consistent, pres_ret.
Qed.

Lemma pres_local id c k : preserves (handleLocalRelayCell sends took env id c k).
Proof using Hm.
  intros h Ht. unfold handleLocalRelayCell. rewrite bind_state. unfold GetCircuit, get. cbn [fst snd].
  destruct (circuits h !! id) as [o|] eqn:Ho; [|done]. destruct (heap h !! o) as [c0|] eqn:Hc0; [|done].
  destruct (ServerCircuit.crypto c0) as [cc|]; [|done].
  destruct (RelayCrypto.decryptInboundWithAD _ _ _ cc _ _) as [cc' r]. rewrite bind_state.
  set (h1 := (update_circ o _ h).1.1). assert (view h1 = view h) as H1 by by apply quiet_update. clearbody h1.
  assert (consistent (view h1)) as Ht1 by by rewrite H1.
  destruct r as [[plain digest]|e]; [|destruct e; try done; by apply pres_destroy_close].
  rewrite bind_state. set (h2 := (modify _ h1).1.1). assert (view h2 = view h1) as H2 by done. clearbody h2.
  assert (consistent (view h2)) as Ht2 by by rewrite H2.
  destruct (RelayCrypto.decodeRelay cc' plain) as [rc|]; [|done].
  destruct (c_table _ Ht id o Ho) as (r & Hr & Hri). rewrite view_heap, Hc0 in Hr. simpl in Hr. injection Hr as <-.
  assert (live (view h) o (role_of c0)) as Hlive by (split; [by rewrite view_heap, Hc0 | by rewrite Hri]).
  pose proof (c_conn _ Ht o _ Hlive) as Hconn. simpl in Hconn.
  destruct (joinedCirc c0) as [p|] eqn:Hj, (joinedConn c0) as [pk|]; try (by destruct Hconn as [H' H'']; first [specialize (H' eq_refl) | specialize (H'' eq_refl)]).
  - by rewrite quiet_send.
  - apply pres_local_command. split; [done|]. rewrite H2, H1. by exists (role_of c0).
Qed.

Lemma spec_forward id ext cmd payload :
  ClientCircuitID ext = id -> 0 <= RelayEarlyCount ext <= 8 ->
  spec (fun h => consistent (view h) /\ is_Some (t_circuits (view h) !! id)) (forward_to_next sends id ext cmd payload) (fun _ h => consistent (view h)).
Proof.
  intros Hi He h [Ht Hs]. unfold forward_to_next.
  destruct (cmd =? _); [|by rewrite pure_next]. destruct (Z.leb_spec 8 (RelayEarlyCount ext)); [by rewrite pure_next|].
  rewrite bind_state, pure_next. unfold modify. cbn [fst snd]. unfold view. simpl. rewrite fmap_insert. simpl. rewrite Hi.
  apply (consistent_with_extended (view h) id (id, RelayEarlyCount ext + 1)); try done. simpl. lia.
Qed.

Lemma spec_from_client id ext c k :
  ClientCircuitID ext = id -> 0 <= RelayEarlyCount ext <= 8 ->
  spec (fun h => consistent (view h) /\ is_Some (t_circuits (view h) !! id))
    (forwardExtendedFromClient sends env id ext c k) (fun _ h => consistent (view h)).
Proof.
  intros Hi He h [Ht Hs]. unfold forwardExtendedFromClient. rewrite bind_state. unfold GetCircuit, get. cbn [fst snd].
  destruct (circuits h !! id) as [o|] eqn:Ho; [|by apply (spec_forward id ext)].
  destruct (heap h !! o) as [c0|]; [|by apply (spec_forward id ext)].
  destruct (ServerCircuit.crypto c0) as [cc|]; [|by apply (spec_forward id ext)].
  destruct (RelayCrypto.peelInboundWithAD _ _ _ cc _ _) as [cc' r]. rewrite bind_state.
  set (h1 := (update_circ o _ h).1.1). assert (view h1 = view h) as H1 by by apply quiet_update. clearbody h1.
  assert (consistent (view h1)) as Ht1 by by rewrite H1.
  destruct r as [[[peeled forUs] digest]|e]; [|done]. destruct forUs; [|by apply (spec_forward id ext); rewrite ?H1].
  rewrite bind_state. set (h2 := (modify _ h1).1.1). assert (consistent (view h2)) as Ht2 by exact Ht1. clearbody h2.
  destruct (RelayCrypto.decodeRelay cc' peeled) as [rc|]; [|done].
  repeat case_if; [by apply pres_sendme | by apply pres_truncate | done | done].
Qed.

Lemma pres_relay k c : preserves (handleRelay sends took env k c).
Proof using Hm.
  unfold handleRelay. apply pres_bind; [by apply quiet_preserves|]. intros [_|]; [|apply quiet_preserves, quiet_destroy].
  intros h Ht. unfold ForwardRelayCell. rewrite bind_state. unfold get. cbn [fst snd].
  destruct (extended h !! CircID c) as [ext|] eqn:He; [|by apply pres_local]. rewrite bind_state. unfold modify. cbn [fst snd].
  destruct (c_extended _ Ht (CircID c) (ClientCircuitID ext, RelayEarlyCount ext)) as (Hs & Hi & Hec); [simpl; by rewrite lookup_fmap, He|].
  simpl in Hs, Hi, Hec. set (ext' := match ClientConn ext with None => _ | Some _ => _ end).
  assert (ClientCircuitID ext' = CircID c /\ RelayEarlyCount ext' = RelayEarlyCount ext) as [Hi' He']
    by (unfold ext'; by destruct (ClientConn ext)).
  apply spec_from_client; [done | lia |]. split; [|done]. unfold view. simpl. rewrite fmap_insert. simpl. rewrite Hi', He'.
  apply (consistent_with_extended (view h) (CircID c)); try done.
Qed.

Lemma pres_cell k c la rsa ed : preserves (handleIncomingCell sends took env k c la rsa ed).
Proof using Hm.
  unfold handleIncomingCell. destruct (_ =? _); [apply pres_create2|]. destruct (_ || _); [apply pres_relay|].
  destruct (_ =? _); [|apply pres_ret]. apply pres_bind; [apply pres_close|]. intros _. apply pres_ret.
Qed.

End Environment.

Lemma quiet_to_client ext c : quiet (forwardCellToClient sends ext c).
Proof.
  unfold forwardCellToClient. destruct (ClientConn ext) as [k|]; [|done]. destruct (_ || _); [|apply quiet_write].
  apply quiet_bind; [done|]. intros [[o c0]|]; [|done]. destruct (ServerCircuit.crypto c0) as [cc|]; [|done].
  destruct (negb _); [done|]. destruct (RelayCrypto.wrapOutbound _ _ cc _ _) as [cc' r].
  apply quiet_bind; [by apply quiet_update|]. intros _. destruct r; [apply quiet_write | done].
Qed.

Lemma pres_deliver pick addr c : preserves (DeliverFromNextHop sends pick addr c).
Proof.
  apply pres_bind; [by apply quiet_preserves|]. intros [[id ext]|]; [|apply pres_ret].
  apply pres_bind; [apply quiet_preserves, quiet_to_client|]. intros _. destruct (_ =? _); [|apply pres_ret].
  apply pres_bind; [|intros _; apply pres_close]. intros h Ht. unfold modify. cbn [fst snd]. rewrite view_set_extended.
  by apply consistent_no_extension.
Qed.

Lemma pure_destroy_all l : pure (destroy_all sends l).
Proof. induction l as [|e l IH]; [done|]. apply pure_bind; [apply pure_next|]. by intros _. Qed.

Lemma role_close_all (l : list nat) (hp : gmap nat ServerCircuit) :
  role_of <$> foldr (fun o hp => alter set_closed o hp) hp l = role_of <$> hp.
Proof.
  induction l as [|o l IH]; [done|]. simpl. rewrite <- IH. set (m := foldr _ hp l). apply map_eq. intros q. rewrite !lookup_fmap.
  destruct (decide (q = o)) as [->|]; [rewrite lookup_alter_eq; by destruct (m !! o) | by rewrite lookup_alter_ne].
Qed.

Lemma pres_close_all : preserves (CloseAll sends).
Proof.
  intros h Ht. unfold CloseAll, CloseAllExtended. rewrite bind_state, bind_state, bind_state. unfold get, modify. cbn [fst snd].
  rewrite bind_state. rewrite pure_destroy_all. cbn [fst snd]. unfold view. simpl. rewrite role_close_all.
  constructor; simpl; try (by intros); try apply (c_fresh _ Ht).
  - by intros o r p [_ Hl].
  - by intros o r [_ Hl].
Qed.

End Preserve.

(** ** Runs *)

Definition with_meanwhile (env : cell_env) (m : M unit) : cell_env :=
  mkEnv (now env) (dos env) (handshake env) (policy env) (network env) (dirDial env) (bwOK env) (wrote env) (tcp env)
    (lookupPTR env) (connectToNextHop env) (newOutboundCircID env) (created2 env) m.

(** A cell on an OR connection, with what happens while its handler waits; a cell
    from a next hop; and the calls of the rest of the program. *)
Inductive op :=
| OpCell (between : list op) (env : cell_env) (k : Z) (c : Cell) (linkAuthed : bool) (rsaFP edID : bytes)
| OpDeliver (pick : list (Z * ExtendedCircuit) -> list (Z * ExtendedCircuit)) (addr : Extend2.address) (c : Cell)
| OpClose (circuitID : Z)
| OpCloseAll
| OpIntroParams (p : IntroPoint.IntroDoSParams).

Section Runs.
Context `{Primitives} `{IntroPoint.IntroCrypto}.
Context (sends : Z -> Cell -> bool) (took : Z -> Cell -> Z).

Fixpoint exec (o : op) : M unit :=
  match o with
  | OpCell between env k c la rsa ed =>
      handleIncomingCell sends took (with_meanwhile env (foldr (fun o m => exec o ;; m) (ret tt) between)) k c la rsa ed ;; ret tt
  | OpDeliver pick addr c => DeliverFromNextHop sends pick addr c
  | OpClose id => CloseCircuit sends id
  | OpCloseAll => CloseAll sends
  | OpIntroParams p => modify (fun h => SetIntroDoSParams h p)
  end.

Definition run (ops : list op) : M unit := foldr (fun o m => exec o ;; m) (ret tt) ops.

(** Induction with the operations in the gaps. *)
Lemma cell_op_ind (P : op -> Prop) :
  (forall b env k c la rsa ed, Forall P b -> P (OpCell b env k c la rsa ed)) ->
  (forall pick addr c, P (OpDeliver pick addr c)) -> (forall id, P (OpClose id)) -> P OpCloseAll ->
  (forall p, P (OpIntroParams p)) -> forall o, P o.
Proof.
  intros H1 H2 H3 H4 H5. fix IH 1. intros [b env k c la rsa ed|pick addr c|id| |p]; [|apply H2|apply H3|apply H4|apply H5].
  apply H1. induction b as [|o b IHb]; constructor; [apply IH | apply IHb].
Qed.

Lemma pres_run ops : Forall (fun o => preserves (exec o)) ops -> preserves (run ops).
Proof. induction 1 as [|o ops Ho _ IH]; [apply pres_ret|]. apply pres_bind; [done|]. by intros _. Qed.

Lemma pres_exec o : preserves (exec o).
Proof.
  induction o as [b env k c la rsa ed Hb|pick addr c|id| |p] using cell_op_ind; cbn [exec].
  - apply pres_bind; [|intros _; apply pres_ret]. apply pres_cell. by apply (pres_run b).
  - apply pres_deliver.
  - apply pres_close.
  - apply pres_close_all.
  - by apply quiet_preserves.
Qed.

(** C21: The tables of a relay are consistent after any sequence of cells and calls,
    however they interleave with extensions that wait: every listed circuit
    exists under its own id, joined circuits are joined to each other, every
    introduction and rendezvous slot belongs to a living circuit with that key
    (and no rendezvous slot to a joined one), and only listed circuits are
    extended. *)
Theorem relay_tables_consistent ops : consistent (view (run ops NewCircuitHandler).1.1).
Proof.
  apply (pres_run ops); [apply Forall_forall; intros o _; apply pres_exec|].
  constructor; simpl; try (by intros); by intros o r [_ Hl] || intros o r p [_ Hl].
Qed.

End Runs.

End RelayInvariant.
