(* ===== verification/CircuitTeardown.v ===== *)
(** * Tearing down and the RELAY_EARLY budget

    What closing a circuit removes and whom it tells, and how many RELAY_EARLY
    cells a relay can be made to send. *)

From S2P Require Import Prelude Conversion Cell RelayCell CellPayloads CGO Onion RelayCrypto GoStrings Extend2 IntroPoint ServerCircuit ExitStreams Resolve CircuitHandler CircuitTables RelayInvariant.
Import Cell(Cell, mkCell, CircID, Command, Payload).
Import ServerCircuit(ServerCircuit, Primitives, CircuitID, introAuth, rendCookie, joinedCirc, joinedConn, set_joined, set_closed, output).
Import GoStrings(hex_encode).
Import CircuitHandler CircuitTables RelayInvariant.

Module CircuitTeardown.

(** ** What closing removes and sends *)

Lemma bind_out {A B} (m : M A) (k : A -> M B) h : (bind m k h).1.2 = (m h).1.2 ++ (k (m h).2 (m h).1.1).1.2.
Proof. unfold bind. destruct (m h) as [[h1 o1] a]. simpl. by destruct (k a h1) as [[h2 o2] b]. Qed.

Section Teardown.
Context (sends : Z -> Cell -> bool).

Definition sent (k : Z) (c : Cell) : output := (ServerCircuit.write_cell sends k c).1.

Definition destroy_cell (id : Z) : Cell := mkCell id Cell.CmdDestroy [Cell.DestroyReasonDestroyed].

(** The DESTROY for the next hop of an extension. *)
Definition next_destroy (ext : ExtendedCircuit) : output :=
  let c := destroy_cell (NextHopCircuitID ext) in
  match NextHopOR ext with
  | Some k => sent k c
  | None => match NextHopConn ext with Some k => sent k c | None => [] end
  end.

Definition next_destroys (h : CircuitHandler) (id : Z) : output :=
  match extended h !! id with Some ext => next_destroy ext | None => [] end.

(** The circuit joined to circuit [id], with the connection to it. *)
Definition peer (h : CircuitHandler) (id : Z) : option (Z * option Z) :=
  match circuits h !! id with
  | Some o =>
      match heap h !! o with
      | Some c =>
          match joinedCirc c with
          | Some p => match heap h !! p with Some d => Some (CircuitID d, joinedConn c) | None => None end
          | None => None
          end
      | None => None
      end
  | None => None
  end.

Lemma destroy_next_out id h : (destroy_next_hop sends id h).1.2 = next_destroys h id.
Proof.
  unfold destroy_next_hop, next_destroys, next_destroy. rewrite bind_out. unfold take_extended. cbn [fst snd].
  destruct (extended h !! id) as [ext|]; [|done]. rewrite bind_out. unfold sendToNextHop, write, sent, destroy_cell.
  destruct (NextHopOR ext) as [k|]; [|destruct (NextHopConn ext) as [k|]; [|done]];
    destruct (ServerCircuit.write_cell sends k _) as [out e]; simpl; by rewrite !app_nil_r.
Qed.

Lemma forgetHS_out close o c h :
  heap h !! o = Some c ->
  (forgetHS sends close o h).1.2 =
    let h1 := forget_keys h (role_of c) in
    let h2 := set_heap h1 (alter (fun c => set_joined c None None) o (heap h1)) in
    match joinedCirc c with
    | None => []
    | Some p =>
        let h3 := set_heap h2 (alter (fun c => set_joined c None None) p (heap h2)) in
        match heap h3 !! p with
        | None => []
        | Some d =>
            match joinedConn c with Some k => sent k (destroy_cell (CircuitID d)) | None => [] end ++ (close (CircuitID d) h3).1.2
        end
    end.
Proof.
  intros Hc. unfold forgetHS. rewrite bind_out. unfold circ_at, get. cbn [fst snd]. rewrite Hc.
  rewrite !bind_out. unfold modify, update_circ. cbn [fst snd].
  change (if (length (rendCookie c) =? rendCookieLen)%nat then _ else _) with (forget_keys h (role_of c)). cbv zeta.
  destruct (joinedCirc c) as [p|]; [|done]. rewrite !bind_out. unfold modify. cbn [fst snd app].
  set (h3 := set_heap _ (alter _ p _)). destruct (heap h3 !! p) as [d|]; [|done]. rewrite bind_out.
  destruct (joinedConn c) as [k|]; [|done]. rewrite bind_out, bind_state, pure_destroy. cbn [fst snd ret]. rewrite app_nil_r. f_equal.
  unfold sendDestroyCell, ServerCircuit.sendDestroyCell, sent, destroy_cell. by destruct (ServerCircuit.write_cell _ _ _).
Qed.

Lemma close_out id h :
  (CloseCircuit sends id h).1.2 =
    let h1 := set_circuits h (delete id (circuits h)) in
    match circuits h !! id with
    | None => next_destroys h id
    | Some o =>
        let h2 := set_heap h1 (alter set_closed o (heap h1)) in
        let h3 := set_exits h2 (ExitStreams.CloseCircuit (exits h2) id) (brokenClock h2) in
        (forgetHS sends (CloseCircuit sends) o h3).1.2 ++ next_destroys (forgetHS sends (CloseCircuit sends) o h3).1.1 id
    end.
Proof.
  rewrite close_circuit_unfold. unfold close_body. rewrite bind_out. unfold get. cbn [fst snd].
  destruct (circuits h !! id) as [o|]; rewrite !bind_out, ?bind_state; unfold HandleDestroy; rewrite destroy_next_out; done.
Qed.

(** Everything of a handler that closing a circuit can change. *)
Record parts := mkParts {
  p_circuits : gmap Z nat;
  p_extended : gmap Z ExtendedCircuit;
  p_intro : gmap bytes hsRoleSlot;
  p_rend : gmap bytes hsRoleSlot;
  p_exits : ExitStreams.ExitStreamManager;
  p_heap : gmap nat ServerCircuit;
}.

Definition parts_of (h : CircuitHandler) : parts :=
  mkParts (circuits h) (extended h) (introByAuth h) (rendByCookie h) (exits h) (heap h).

(** The slot of a circuit's authentication key, and of its cookie, whoever holds
    it. *)
Definition drop_intro (c : ServerCircuit) (m : gmap bytes hsRoleSlot) : gmap bytes hsRoleSlot :=
  drop_key IntroPoint.ed25519AuthKeyLen (introAuth c) m.
Definition drop_rend (c : ServerCircuit) (m : gmap bytes hsRoleSlot) : gmap bytes hsRoleSlot :=
  drop_key rendCookieLen (rendCookie c) m.

Lemma drop_key_comm {A} (n : nat) (k l : bytes) (m : gmap bytes A) : drop_key n k (drop_key n l m) = drop_key n l (drop_key n k m).
Proof. unfold drop_key. destruct (_ =? _)%nat, (_ =? _)%nat; try done. apply delete_delete. Qed.

Lemma forget_keys_parts h c :
  parts_of (forget_keys h (role_of c)) =
    mkParts (circuits h) (extended h) (drop_intro c (introByAuth h)) (drop_rend c (rendByCookie h)) (exits h) (heap h).
Proof. unfold forget_keys, drop_intro, drop_rend, drop_key, parts_of. by destruct (_ =? _)%nat, (_ =? _)%nat. Qed.

Lemma alter_at {A} (f : A -> A) (o : nat) (c : A) (m : gmap nat A) : m !! o = Some c -> alter f o m = <[o := f c]> m.
Proof. intros H. rewrite <- (insert_id m o c H) at 1. by rewrite alter_insert_eq. Qed.

(** Closed and separated. *)
Definition shut (c : ServerCircuit) : ServerCircuit := set_joined (set_closed c) None None.

Lemma close_none id h :
  circuits h !! id = None ->
  parts_of (CloseCircuit sends id h).1.1 =
    mkParts (delete id (circuits h)) (delete id (extended h)) (introByAuth h) (rendByCookie h) (ExitStreams.CloseCircuit (exits h) id) (heap h) /\
  (CloseCircuit sends id h).1.2 = next_destroys h id.
Proof. intros Hn. by rewrite close_state, close_out, Hn. Qed.

Lemma close_lone id o c h :
  circuits h !! id = Some o -> heap h !! o = Some c -> joinedCirc c = None ->
  parts_of (CloseCircuit sends id h).1.1 =
    mkParts (delete id (circuits h)) (delete id (extended h)) (drop_intro c (introByAuth h)) (drop_rend c (rendByCookie h))
      (ExitStreams.CloseCircuit (exits h) id) (<[o := shut c]> (heap h)) /\
  (CloseCircuit sends id h).1.2 = next_destroys h id.
Proof.
  intros Ho Hc Hj. rewrite close_state, close_out, Ho. cbv zeta. set (h3 := set_exits _ _ _).
  assert (heap h3 !! o = Some (set_closed c)) as H3 by (simpl; by rewrite lookup_alter_eq, Hc).
  assert (parts_of h3 = mkParts (delete id (circuits h)) (extended h) (introByAuth h) (rendByCookie h)
    (ExitStreams.CloseCircuit (exits h) id) (alter set_closed o (heap h))) as F3 by done. clearbody h3.
  rewrite (forgetHS_state _ _ _ _ _ H3), (forgetHS_out _ _ _ _ H3). cbv zeta. change (joinedCirc (set_closed c)) with (joinedCirc c). rewrite Hj.
  pose proof (forget_keys_parts h3 (set_closed c)) as F4. unfold parts_of in *. injection F3 as Fa Fb Fc Fd Fe Ff.
  rewrite Fa, Fb, Fc, Fd, Fe, Ff in F4. injection F4 as Ga Gb Gc Gd Ge Gf.
  split; [|unfold next_destroys; simpl; by rewrite Gb]. simpl. rewrite Ga, Gb, Gc, Gd, Ge, Gf. f_equal.
  rewrite (alter_at _ o c (heap h)) by done. by rewrite alter_insert_eq.
Qed.

Lemma close_joined id o c p d h :
  circuits h !! id = Some o -> heap h !! o = Some c -> joinedCirc c = Some p ->
  heap h !! p = Some d -> circuits h !! CircuitID d = Some p -> o <> p -> CircuitID d <> id ->
  let pid := CircuitID d in
  parts_of (CloseCircuit sends id h).1.1 =
    mkParts (delete id (delete pid (circuits h))) (delete id (delete pid (extended h)))
      (drop_intro c (drop_intro d (introByAuth h))) (drop_rend c (drop_rend d (rendByCookie h)))
      (ExitStreams.CloseCircuit (ExitStreams.CloseCircuit (exits h) id) pid)
      (<[o := shut c]> (<[p := shut d]> (heap h))) /\
  (CloseCircuit sends id h).1.2 =
    match joinedConn c with Some k => sent k (destroy_cell pid) | None => [] end ++ next_destroys h pid ++ next_destroys h id.
Proof.
  intros Ho Hc Hj Hd Hp Hop Hne pid. rewrite close_state, close_out, Ho. cbv zeta. set (h3 := set_exits _ _ _).
  assert (heap h3 !! o = Some (set_closed c)) as H3 by (simpl; by rewrite lookup_alter_eq, Hc).
  assert (parts_of h3 = mkParts (delete id (circuits h)) (extended h) (introByAuth h) (rendByCookie h)
    (ExitStreams.CloseCircuit (exits h) id) (alter set_closed o (heap h))) as F3 by done. clearbody h3.
  rewrite (forgetHS_state _ _ _ _ _ H3), (forgetHS_out _ _ _ _ H3). cbv zeta. change (joinedCirc (set_closed c)) with (joinedCirc c). rewrite Hj.
  set (h5 := set_heap _ (alter _ p _)).
  assert (parts_of h5 = mkParts (delete id (circuits h)) (extended h) (drop_intro c (introByAuth h)) (drop_rend c (rendByCookie h))
    (ExitStreams.CloseCircuit (exits h) id) (<[o := shut c]> (<[p := set_joined d None None]> (heap h)))) as F5.
  { pose proof (forget_keys_parts h3 (set_closed c)) as F4. unfold h5, parts_of in *. injection F3 as Fa Fb Fc Fd Fe Ff.
    rewrite Fa, Fb, Fc, Fd, Fe, Ff in F4. injection F4 as Ga Gb Gc Gd Ge Gf. simpl. rewrite Ga, Gb, Gc, Gd, Ge, Gf. f_equal.
    rewrite (alter_at _ o c (heap h)) by done. rewrite alter_insert_eq, alter_insert_ne by done. by rewrite (alter_at _ p d (heap h)). }
  clearbody h5. unfold parts_of in F5. injection F5 as Fa Fb Fc Fd Fe Ff.
  assert (heap h5 !! p = Some (set_joined d None None)) as H5 by (rewrite Ff, lookup_insert_ne by done; apply lookup_insert_eq).
  rewrite H5. change (CircuitID (set_joined d None None)) with pid.
  assert (circuits h5 !! pid = Some p) as Hp5 by (rewrite Fa; by rewrite lookup_delete_ne).
  destruct (close_lone pid p _ h5 Hp5 H5 eq_refl) as [F O]. unfold parts_of in F. injection F as Ga Gb Gc Gd Ge Gf. rewrite O.
  change (joinedConn (set_closed c)) with (joinedConn c). split.
  - unfold parts_of. simpl. rewrite Ga, Gb, Gc, Gd, Ge, Gf, Fa, Fb, Fc, Fd, Fe, Ff. f_equal.
    + by rewrite delete_delete.
    + apply drop_key_comm.
    + apply drop_key_comm.
    + rewrite (insert_insert_ne _ p o) by done. by rewrite insert_insert_eq.
  - unfold next_destroys. rewrite Gb, Fb. rewrite lookup_delete_ne by done. by rewrite app_assoc.
Qed.

(** ** What the exit side keeps *)

(** What the exit side keeps for circuit [i]. *)
Definition exit_state (m : ExitStreams.ExitStreamManager) (i : Z) :=
  (ExitStreams.circOutWindow m !! i, ExitStreams.circInCount m !! i, ExitStreams.circStreams m !! i, ExitStreams.circCC m !! i,
   ExitStreams.lastFwdDigest m !! i, ExitStreams.circExpectedSendme m !! i, ExitStreams.orWrites m !! i).

Lemma teardown_tables m l :
  let m' := foldl ExitStreams.teardown m l in
  ExitStreams.streams m' = ExitStreams.streams m /\ (forall i, exit_state m' i = exit_state m i) /\
  (forall x, x ∉ l -> ExitStreams.objs m' !! x = ExitStreams.objs m !! x).
Proof.
  revert m. induction l as [|o l IH]; intros m; [done|]. simpl. destruct (IH (ExitStreams.teardown m o)) as (Hs & He & Hx).
  assert (ExitStreams.streams (ExitStreams.teardown m o) = ExitStreams.streams m /\
    (forall i, exit_state (ExitStreams.teardown m o) i = exit_state m i) /\
    (forall x, x <> o -> ExitStreams.objs (ExitStreams.teardown m o) !! x = ExitStreams.objs m !! x)) as (Hs1 & He1 & Hx1).
  { unfold ExitStreams.teardown. destruct (ExitStreams.objs m !! o) as [es|]; [|done]. destruct (ExitStreams.held es); [|done].
    split_and!; [done|done|]. intros x Hx'. simpl. by rewrite lookup_insert_ne. }
  rewrite Hs, Hs1. split_and!; [done|intros i; by rewrite He, He1|]. intros x Hn. apply not_elem_of_cons in Hn as [Hn1 Hn2].
  by rewrite Hx, Hx1.
Qed.

(** Closing a circuit on the exit side. *)
Lemma exit_close m id :
  let m' := ExitStreams.CloseCircuit m id in
  (forall i sid, ExitStreams.streams m' !! (i, sid) = if decide (i = id) then None else ExitStreams.streams m !! (i, sid)) /\
  (forall i, i <> id -> exit_state m' i = exit_state m i) /\
  (forall x, (forall sid, ExitStreams.streams m !! (id, sid) <> Some x) -> ExitStreams.objs m' !! x = ExitStreams.objs m !! x).
Proof.
  unfold ExitStreams.CloseCircuit. set (m1 := ExitStreams.mkManager _ _ _ _ _ _ _ _ _ _ _ _). set (l := (map_to_list _).*2).
  destruct (teardown_tables m1 l) as (Hs & He & Hx). cbv zeta. rewrite Hs. split_and!.
  - intros i sid. simpl. case_decide as Hi.
    + apply map_lookup_filter_None. right. intros x _ Hn. by apply Hn.
    + destruct (ExitStreams.streams m !! (i, sid)) as [x|] eqn:E; [by apply map_lookup_filter_Some|apply map_lookup_filter_None; by left].
  - intros i Hi. rewrite He. unfold exit_state, m1; simpl. by rewrite !lookup_delete_ne.
  - intros x Hn. rewrite Hx; [done|]. unfold l. intros ([[i sid] y] & -> & Hy)%list_elem_of_fmap.
    apply elem_of_map_to_list, map_lookup_filter_Some in Hy as [Hy Hi]. simpl in Hi. subst i. by apply (Hn sid).
Qed.

(** Closing several. *)
Lemma exit_close_all m ids :
  let m' := foldl ExitStreams.CloseCircuit m ids in
  (forall i sid, ExitStreams.streams m' !! (i, sid) = if decide (i ∈ ids) then None else ExitStreams.streams m !! (i, sid)) /\
  (forall i, i ∉ ids -> exit_state m' i = exit_state m i) /\
  (forall x, (forall i sid, i ∈ ids -> ExitStreams.streams m !! (i, sid) <> Some x) -> ExitStreams.objs m' !! x = ExitStreams.objs m !! x).
Proof.
  revert m. induction ids as [|id ids IH]; intros m; [done|]. cbn [foldl].
  destruct (IH (ExitStreams.CloseCircuit m id)) as (Hs & He & Hx). destruct (exit_close m id) as (Hs1 & He1 & Hx1). cbv zeta. split_and!.
  - intros i sid. rewrite Hs, Hs1. destruct (decide (i = id)) as [->|Hne].
    + rewrite (decide_True (P := id ∈ id :: ids)) by (by left). by case_decide.
    + apply decide_ext. rewrite elem_of_cons. tauto.
  - intros i [Hi Hn]%not_elem_of_cons. by rewrite He, He1.
  - intros x Hn. rewrite Hx; [apply Hx1; intros sid; apply Hn; by left|]. intros i sid Hi. rewrite Hs1. case_decide; [done|]. apply Hn. by right.
Qed.

(** The circuits with these ids. *)
Definition circs (h : CircuitHandler) (ids : list Z) : list ServerCircuit :=
  omap (fun i => match (circuits h !! i : option nat) with Some o => heap h !! o | None => None end) ids.

(** C24: Closing a circuit is exact.  In any state with consistent tables (as every
    state a relay reaches has), it takes the circuit and the one joined to it out of
    the tables of circuits and extensions and out of the exit side's tables of
    streams, and no other entry; the other circuits, their exit streams and their
    exit-side counters are left as they were; it writes one DESTROY to the joined
    circuit's connection and one to each next hop; and the tables stay consistent.
    Of the introduction and rendezvous slots it removes exactly those under the
    closed circuits' own keys and cookies, whoever holds them: where another
    circuit has registered the same cookie since, that circuit loses its slot
    (see [stale_cookie_evicts_stranger]). *)
Theorem close_circuit_exact h id :
  consistent (view h) ->
  let r := CloseCircuit sends id h in
  let h' := r.1.1 in
  let gone := match peer h id with Some (p, _) => [id; p] | None => [id] end in
  circuits h' = foldr delete (circuits h) gone /\
  extended h' = foldr delete (extended h) gone /\
  introByAuth h' = foldr drop_intro (introByAuth h) (circs h gone) /\
  rendByCookie h' = foldr drop_rend (rendByCookie h) (circs h gone) /\
  (forall o, (forall i, i ∈ gone -> circuits h !! i <> Some o) -> heap h' !! o = heap h !! o) /\
  ((forall i sid, ExitStreams.streams (exits h') !! (i, sid) =
                  if decide (i ∈ gone) then None else ExitStreams.streams (exits h) !! (i, sid)) /\
   (forall i, i ∉ gone -> exit_state (exits h') i = exit_state (exits h) i) /\
   (forall x, (forall i sid, i ∈ gone -> ExitStreams.streams (exits h) !! (i, sid) <> Some x) ->
              ExitStreams.objs (exits h') !! x = ExitStreams.objs (exits h) !! x)) /\
  consistent (view h') /\
  r.1.2 = match peer h id with
          | Some (p, k) => match k with Some k => sent k (destroy_cell p) | None => [] end ++ next_destroys h p
          | None => []
          end ++ next_destroys h id.
Proof.
  intros Ht r h' gone. pose proof (consistent_close sends id h Ht) as Ht'. fold r in Ht'. fold h' in Ht'.
  pose proof (exit_close_all (exits h) gone) as Hex.
  assert (forall x, parts_of h' = x -> circuits h' = p_circuits x /\ extended h' = p_extended x /\ introByAuth h' = p_intro x /\
    rendByCookie h' = p_rend x /\ exits h' = p_exits x /\ heap h' = p_heap x) as Hf by by intros x <-.
  destruct (circuits h !! id) as [o|] eqn:Ho.
  - destruct (live_circuit _ _ _ Ht Ho) as (x & Hx & Hi). destruct (view_live _ _ _ Hx) as (c & Hc & <- & _). simpl in Hi.
    destruct (joinedCirc c) as [p|] eqn:Hj.
    + destruct (c_join _ Ht _ _ _ Hx Hj) as (y & Hy & _ & Hop). destruct (view_live _ _ _ Hy) as (d & Hd & <- & Hp). simpl in Hp.
      assert (CircuitID d <> id) as Hne by (intros He; rewrite He, Ho in Hp; congruence).
      destruct (close_joined id o c p d h Ho Hc Hj Hd Hp Hop Hne) as [F O]. destruct (Hf _ F) as (F1 & F2 & F3 & F4 & F5 & F6).
      assert (peer h id = Some (CircuitID d, joinedConn c)) as Hpe by (unfold peer; by rewrite Ho, Hc, Hj, Hd).
      unfold gone in *. rewrite Hpe in *. unfold circs. cbn [omap list_omap]. rewrite F1, F2, F3, F4, F5, F6, Ho, Hc, Hp, Hd.
      cbn [p_circuits p_extended p_intro p_rend p_exits p_heap]. split_and!; try done; try apply Hex; [|fold r in O; by rewrite O, <- app_assoc]. intros q Hq.
      pose proof (Hq id ltac:(by left)). pose proof (Hq (CircuitID d) ltac:(right; by left)). by rewrite !lookup_insert_ne by congruence.
    + destruct (close_lone id o c h Ho Hc Hj) as [F O]. destruct (Hf _ F) as (F1 & F2 & F3 & F4 & F5 & F6).
      assert (peer h id = None) as Hpe by (unfold peer; by rewrite Ho, Hc, Hj).
      unfold gone in *. rewrite Hpe in *. unfold circs. cbn [omap list_omap]. rewrite F1, F2, F3, F4, F5, F6, Ho, Hc.
      cbn [p_circuits p_extended p_intro p_rend p_exits p_heap]. split_and!; try done; try apply Hex. intros q Hq. pose proof (Hq id ltac:(by left)). by rewrite lookup_insert_ne by congruence.
  - destruct (close_none id h Ho) as [F O]. destruct (Hf _ F) as (F1 & F2 & F3 & F4 & F5 & F6).
    assert (peer h id = None) as Hpe by (unfold peer; by rewrite Ho).
    unfold gone in *. rewrite Hpe in *. unfold circs. cbn [omap list_omap]. rewrite F1, F2, F3, F4, F5, F6, Ho.
    cbn [p_circuits p_extended p_intro p_rend p_exits p_heap]. split_and!; try done; apply Hex.
Qed.

End Teardown.

(** Two joined circuits, one of them extended. *)
Definition joined_circ (id : Z) (p : nat) (k : Z) : ServerCircuit :=
  ServerCircuit.mkCircuit id [] None false false 0 [] [] [] false false [] [] (Some p) (Some k).

Definition joined_pair : CircuitHandler :=
  mkHandler {[0%nat := joined_circ 3 1 8; 1%nat := joined_circ 5 0 7]} 2 {[3 := 0%nat; 5 := 1%nat]}
    {[5 := mkExtended 5 77 (Extend2.IPv4Addr [10; 0; 0; 1] 443) (Some 9) None (Some 8) 0]} ∅ ∅ (IntroPoint.mkDoS false 0 0) (mkStats 0 0 0 0) ∅
    ExitStreams.NewExitStreamManager false.

Lemma joined_pair_consistent : consistent (view joined_pair).
Proof.
  assert (forall o r, live (view joined_pair) o r ->
    o = 0%nat /\ r = mkRole 3 [] [] (Some 1%nat) (Some 8) \/ o = 1%nat /\ r = mkRole 5 [] [] (Some 0%nat) (Some 7)) as Hl.
  { intros o r [Hr _]. simpl in Hr. rewrite lookup_fmap in Hr. apply fmap_Some in Hr as (c & Hc & ->).
    apply lookup_insert_Some in Hc as [[<- <-]|[_ Hc]]; [by left|]. apply lookup_singleton_Some in Hc as [<- <-]. by right. }
  constructor.
  - intros id o Ho. simpl in Ho. apply lookup_insert_Some in Ho as [[<- <-]|[_ Ho]]; [by eexists|].
    apply lookup_singleton_Some in Ho as [<- <-]. by eexists.
  - intros o Ho. simpl in *. rewrite lookup_fmap. apply fmap_None, lookup_insert_None. split; [apply lookup_singleton_None|]; lia.
  - intros o r p Hr Hp. destruct (Hl o r Hr) as [[-> ->]|[-> ->]]; injection Hp as <-;
      eexists; (split; [split; reflexivity | done]).
  - intros o r Hr. by destruct (Hl o r Hr) as [[-> ->]|[-> ->]].
  - by intros key o Ho.
  - by intros key o Ho.
  - intros id e He. simpl in He. rewrite lookup_fmap in He. apply fmap_Some in He as (x & Hx & ->).
    apply lookup_singleton_Some in Hx as [<- <-]. simpl. split_and!; [by eexists | done | lia | lia].
Qed.

Lemma close_circuit_exact_witness :
  let r := CloseCircuit ExitStreams.sends_all 3 joined_pair in
  circuits r.1.1 = ∅ /\ extended r.1.1 = ∅ /\ r.1.2 = [(8, destroy_cell 5); (9, destroy_cell 77)].
Proof.
  destruct (close_circuit_exact ExitStreams.sends_all joined_pair 3 joined_pair_consistent) as (H1 & H2 & _ & _ & _ & _ & _ & H3).
  split_and!; [by rewrite H1 | by rewrite H2 | rewrite H3; vm_compute; reflexivity].
Defined.

(** ** The RELAY_EARLY budget *)

(** How many RELAY_EARLY cells an extension may still send. *)
Definition credit (e : ExtendedCircuit) : Z := Z.max 0 (8 - RelayEarlyCount e).
Definition credits (m : gmap Z ExtendedCircuit) : Z := map_fold (fun _ e n => credit e + n) 0 m.

Definition cells_with (cmd : Z) (out : output) : Z := len (List.filter (fun kc => Command kc.2 =? cmd) out).

Lemma credits_insert m i e : m !! i = None -> credits (<[i := e]> m) = credit e + credits m.
Proof. intros Hi. unfold credits. rewrite map_fold_insert_L; [done| |done]. intros. lia. Qed.

Lemma credits_nonneg m : 0 <= credits m.
Proof. induction m as [|i e m Hi IH] using map_ind; [done|]. rewrite credits_insert by done. unfold credit. lia. Qed.

Lemma credits_split m i e : m !! i = Some e -> credits m = credit e + credits (delete i m).
Proof. intros Hi. rewrite <- (insert_delete_id m i e Hi) at 1. apply credits_insert, lookup_delete_eq. Qed.

Lemma credits_mono m m' : m ⊆ m' -> credits m <= credits m'.
Proof.
  revert m'. induction m as [|i e m Hi IH] using map_ind; intros m' Hs; [apply credits_nonneg|].
  rewrite credits_insert by done. assert (m' !! i = Some e) as He by (eapply lookup_weaken; [|exact Hs]; apply lookup_insert_eq).
  rewrite (credits_split m' i e He). apply Z.add_le_mono_l, IH. apply map_subseteq_spec. intros j x Hj.
  assert (j <> i) by congruence. rewrite lookup_delete_ne by done. eapply lookup_weaken; [|exact Hs]. by rewrite lookup_insert_ne.
Qed.

Lemma cells_with_app cmd a b : cells_with cmd (a ++ b) = cells_with cmd a + cells_with cmd b.
Proof. unfold cells_with. rewrite List.filter_app. apply len_app. Qed.

Lemma cells_with_nil cmd : cells_with cmd [] = 0.
Proof. done. Qed.

Lemma cells_with_nonneg cmd out : 0 <= cells_with cmd out.
Proof. apply len_nonneg. Qed.

(** Sending RELAY_EARLY is paid for from the extensions' credit, which only an
    extension, hence a CREATE2, can raise. *)
Definition paid {A} (m : M A) : Prop := forall h,
  cells_with Cell.CmdRelayEarly (m h).1.2 + credits (extended (m h).1.1) <= credits (extended h) + 8 * cells_with Cell.CmdCreate2 (m h).1.2.

(** [m] adds no extension and sends no RELAY_EARLY. *)
Definition tame {A} (m : M A) : Prop := forall h,
  extended (m h).1.1 ⊆ extended h /\ cells_with Cell.CmdRelayEarly (m h).1.2 = 0.

Lemma tame_paid {A} (m : M A) : tame m -> paid m.
Proof.
  intros Hm h. destruct (Hm h) as [H1 ->]. pose proof (credits_mono _ _ H1).
  pose proof (cells_with_nonneg Cell.CmdCreate2 (m h).1.2). lia.
Qed.

Lemma paid_bind {A B} (m : M A) (k : A -> M B) : paid m -> (forall a, paid (k a)) -> paid (bind m k).
Proof.
  intros Hm Hk h. rewrite bind_state, bind_out, !cells_with_app. pose proof (Hm h). pose proof (Hk (m h).2 (m h).1.1). lia.
Qed.

Lemma tame_bind {A B} (m : M A) (k : A -> M B) : tame m -> (forall a, tame (k a)) -> tame (bind m k).
Proof.
  intros Hm Hk h. rewrite bind_state, bind_out, cells_with_app. destruct (Hm h) as [H1 H2], (Hk (m h).2 (m h).1.1) as [H3 H4].
  split; [by etransitivity | lia].
Qed.

Lemma tame_ret {A} (a : A) : tame (ret a).
Proof. by intros h. Qed.

Lemma tame_get {A} (f : CircuitHandler -> A) : tame (get f).
Proof. by intros h. Qed.

Lemma tame_modify f : (forall h, extended (f h) = extended h) -> tame (modify f).
Proof. intros Hf h. unfold modify. cbn [fst snd]. by rewrite Hf. Qed.

Lemma tame_unless m k : tame m -> tame k -> tame (unless m k).
Proof. intros Hm Hk. apply tame_bind; [done|]. intros [e|]; [apply tame_ret | done]. Qed.

Lemma paid_unless m k : paid m -> paid k -> paid (unless m k).
Proof. intros Hm Hk. apply paid_bind; [done|]. intros [e|]; [apply tame_paid, tame_ret | done]. Qed.

Section Budget.
Context `{Primitives} `{IntroPoint.IntroCrypto}.
Context (sends : Z -> Cell -> bool) (took : Z -> Cell -> Z).

Definition relay_only (out : output) : Prop := Forall (fun kc => Command kc.2 = Cell.CmdRelay) out.

Lemma relay_only_tame out : relay_only out -> cells_with Cell.CmdRelayEarly out = 0.
Proof. induction 1 as [|[k c] out Hc _ IH]; [done|]. unfold cells_with in *. simpl in *. by rewrite Hc. Qed.

Lemma write_cell_cases k c : (ServerCircuit.write_cell sends k c).1 = [(k, c)] \/ (ServerCircuit.write_cell sends k c).1 = [].
Proof. unfold ServerCircuit.write_cell. destruct (Cell.Encode c []).2; [by right|]. destruct (sends k c); auto. Qed.

Lemma tame_write k c : Command c <> Cell.CmdRelayEarly -> tame (write sends k c).
Proof.
  intros Hc h. unfold write. pose proof (write_cell_cases k c) as Hw. destruct (ServerCircuit.write_cell sends k c) as [out e].
  simpl in *. split; [done|]. destruct Hw as [->| ->]; [|done]. unfold cells_with. simpl. by rewrite (proj2 (Z.eqb_neq _ _)).
Qed.

Lemma tame_destroy k id reason : tame (sendDestroyCell sends k id reason).
Proof.
  intros h. unfold sendDestroyCell, ServerCircuit.sendDestroyCell.
  pose proof (write_cell_cases k (mkCell id Cell.CmdDestroy [reason])) as Hw. destruct (ServerCircuit.write_cell sends k _) as [out e].
  simpl in *. split; [done|]. by destruct Hw as [->| ->].
Qed.

Lemma tame_next ext c : Command c <> Cell.CmdRelayEarly -> tame (sendToNextHop sends ext c).
Proof.
  intros Hc. unfold sendToNextHop. destruct (NextHopOR ext); [by apply tame_write|].
  destruct (NextHopConn ext); [by apply tame_write | apply tame_ret].
Qed.

Lemma tame_destroy_next id : tame (destroy_next_hop sends id).
Proof.
  apply tame_bind; [intros h; unfold take_extended; cbn [fst snd]; split; [apply delete_subseteq | done]|].
  intros [ext|]; [|apply tame_ret]. apply tame_bind; [by apply tame_next|]. intros _. apply tame_ret.
Qed.

Lemma tame_forget close o : (forall id, tame (close id)) -> tame (forgetHS sends close o).
Proof.
  intros Hc. apply tame_bind; [apply tame_get|]. intros [c|]; [|apply tame_ret].
  apply tame_bind; [apply tame_modify; intros h; by case_match|]. intros _.
  apply tame_bind; [apply tame_modify; intros h; by case_match|]. intros _. apply tame_bind; [by apply tame_modify|]. intros _.
  destruct (joinedCirc c) as [p|]; [|apply tame_ret]. apply tame_bind; [by apply tame_modify|]. intros _.
  apply tame_bind; [apply tame_get|]. intros [d|]; [|apply tame_ret]. apply tame_bind; [|intros _; apply Hc].
  destruct (joinedConn c); [|apply tame_ret]. apply tame_bind; [apply tame_destroy|]. intros _. apply tame_ret.
Qed.

Lemma tame_close id : tame (CloseCircuit sends id).
Proof.
  intros h. unfold CloseCircuit. generalize (S (size (circuits h))). intros n. revert h.
  change (tame (close_circuit sends n id)). revert id. induction n as [|n IH]; intros id; [apply tame_ret|]. cbn [close_circuit].
  apply tame_bind; [apply tame_get|]. intros o. apply tame_bind; [by apply tame_modify|]. intros _.
  apply tame_bind; [destruct o; [by apply tame_modify | apply tame_ret]|]. intros _. apply tame_bind; [by apply tame_modify|]. intros _.
  apply tame_bind; [destruct o; [by apply tame_forget | apply tame_ret]|]. intros _. apply tame_destroy_next.
Qed.

Lemma tame_destroy_close k id reason e : tame (destroy_and_close sends k id reason e).
Proof. apply tame_bind; [apply tame_destroy|]. intros _. apply tame_bind; [apply tame_close|]. intros _. apply tame_ret. Qed.

Lemma tame_closeHS o k reason : tame (closeHSCircuit sends o k reason).
Proof.
  apply tame_bind; [apply tame_get|]. intros [c|]; [|apply tame_ret]. apply tame_bind; [apply tame_destroy|]. intros _.
  apply tame_bind; [apply tame_close|]. intros _. apply tame_ret.
Qed.

Lemma tame_reject o k : tame (rejectIfExtended sends o k).
Proof. apply tame_bind; [apply tame_get|]. intros [c|]; [|apply tame_ret]. case_if; [apply tame_closeHS | apply tame_ret]. Qed.

Lemma relay_written k id p : relay_only (ServerCircuit.write_cell sends k (mkCell id Cell.CmdRelay p)).1.
Proof. destruct (write_cell_cases k (mkCell id Cell.CmdRelay p)) as [->| ->]; by repeat constructor. Qed.

Lemma relay_reply c k cc sid cmd data : relay_only (ServerCircuit.originate_reply sends c k cc sid cmd data).1.2.
Proof.
  unfold ServerCircuit.originate_reply. destruct (RelayCell.NewRelayCell _ _ _); [|by constructor].
  destruct (RelayCrypto.originateRelay _ _ _ _ _) as [cc' [enc|]]; [|by constructor].
  pose proof (relay_written k (CircuitID c) enc) as Hw. by destruct (ServerCircuit.write_cell _ _ _).
Qed.

Lemma tame_send o k sid cmd data : tame (sendRelayToClient sends o k sid cmd data).
Proof.
  intros h. unfold sendRelayToClient. destruct (heap h !! o) as [c|]; [|done]. unfold ServerCircuit.sendRelayToClient.
  destruct (ServerCircuit.crypto c) as [cc|]; [|done]. pose proof (relay_reply c k cc sid cmd data) as Hr.
  destruct (ServerCircuit.originate_reply _ _ _ _ _ _ _) as [[c' out] e]. simpl in *. split; [done|]. by apply relay_only_tame.
Qed.

Lemma tame_dos_end o k sid : tame (sendStreamDoSEnd sends o k sid).
Proof.
  intros h. unfold sendStreamDoSEnd. destruct (heap h !! o) as [c|]; [|done]. destruct (ServerCircuit.crypto c) as [cc|]; [|done].
  pose proof (relay_reply c k cc sid RelayCell.RelayEnd [RelayCell.EndReasonMisc]) as Hr.
  destruct (ServerCircuit.originate_reply _ _ _ _ _ _ _) as [[c' out] e]. simpl in *. split; [done|]. by apply relay_only_tame.
Qed.

(** ** Exit streams send RELAY cells only *)

Definition relays (f : world -> world * output * option ExitStreams.error) : Prop := forall w, relay_only (f w).1.2.

Lemma tame_on_exits o f : relays f -> tame (on_exits o f).
Proof.
  intros Hf h. unfold on_exits. destruct (heap h !! o) as [c|]; [|done]. specialize (Hf (exits h, c)).
  destruct (f (exits h, c)) as [[[m c'] out] e]. simpl in *. split; [done|]. by apply relay_only_tame.
Qed.

Lemma relays_send k sid cmd data now : relays (fun w => ExitStreams.sendRelay sends took w k sid cmd data now).
Proof.
  intros [m c]. unfold ExitStreams.sendRelay, ExitStreams.sendRelay_originate. destruct (RelayCell.NewRelayCell _ _ _); [|by constructor].
  destruct (ServerCircuit.crypto c) as [cc|]; [|by constructor].
  destruct (RelayCrypto.originateRelayTag _ _ _ _ _) as [cc' [[enc tag]|]]; [|by constructor]. unfold ExitStreams.sendRelay_write.
  destruct (ExitStreams.orWriteOf _ _) as [m1 ws]. pose proof (relay_written k (CircuitID c) enc) as Hw.
  destruct (ServerCircuit.write_cell _ _ _) as [out [e|]]; done.
Qed.

Ltac relay_step :=
  match goal with
  | |- context [ExitStreams.sendRelay sends took ?w ?k ?sid ?cmd ?data ?now] =>
      let Hr := fresh "Hr" in
      pose proof (relays_send k sid cmd data now w) as Hr; cbn beta in Hr;
      destruct (ExitStreams.sendRelay sends took w k sid cmd data now) as [[[? ?] ?] [?|]]; cbn [fst snd] in *
  end.

Lemma relays_data meanwhile bwOK wrote k sid data now :
  relays (fun w => ExitStreams.HandleData sends took meanwhile bwOK wrote w k sid data now).
Proof.
  intros [m c]. unfold ExitStreams.HandleData, ExitStreams.sendEnd. destruct (ExitStreams.lookup_stream _ _) as [[o es]|]; [|by constructor].
  destruct (_ <=? 0); [apply relays_send|]. destruct bwOK; [|by constructor]. cbn [negb]. destruct wrote; [|apply relays_send]. cbn [negb].
  destruct (ExitStreams.data_delivered _ _ _) as [[m2 d] ss].
  assert (forall w out, relay_only out -> relay_only (if ss : bool then let '(w, out', _) := ExitStreams.sendRelay sends took w k sid RelayCell.RelaySendme [] now in
    (w, out ++ out', @None ExitStreams.error) else (w, out, @None ExitStreams.error)).1.2) as Hs.
  { intros w out Ho. destruct ss; [|done]. relay_step; by apply Forall_app. }
  destruct d as [d|]; [|by apply (Hs (m2, c)); constructor]. destruct (ExitStreams.tag_ok d); [|by apply (Hs (m2, c)); constructor].
  destruct (Sendme.EncodeSendmeV1 d); [|by apply (Hs (m2, c)); constructor]. relay_step; by apply Hs.
Qed.

Lemma relays_begin env policy k sid data now : relays (fun w => ExitStreams.HandleBegin sends took env policy w k sid data now).
Proof.
  intros [m c]. unfold ExitStreams.HandleBegin, ExitStreams.sendEnd. destruct policy as [p|]; [|apply relays_send].
  destruct (ExitStreams.AllowExit p); [|apply relays_send]. cbn [negb].
  destruct (ExitStreams.parseBeginAddr data) as [[[[addr port] flags] present]|]; [|apply relays_send].
  destruct (ExitStreams.isOnionHost addr); [apply relays_send|].
  destruct (ExitStreams.begin_check _ _ _) as [m1 room]. destruct room; [|apply relays_send]. cbn [negb].
  destruct (ExitStreams.acquire _) as [g got]. destruct got; [|apply relays_send]. cbn [negb].
  destruct (ExitStreams.begin_connect _ _ _ _ _ _) as [[c1 payload]|reason]; by relay_step.
Qed.

Lemma relays_begin_dir meanwhile dial k sid now : relays (fun w => ExitStreams.HandleBeginDir sends took meanwhile dial w k sid now).
Proof.
  intros [m c]. unfold ExitStreams.HandleBeginDir, ExitStreams.sendEnd. destruct dial as [d|]; [|apply relays_send].
  destruct (_ <=? _); [apply relays_send|]. destruct (ExitStreams.acquire _) as [g got]. destruct got; [|apply relays_send].
  cbn [negb]. destruct d as [c1|]; [|apply relays_send]. relay_step; [|done]. by destruct (ExitStreams.removeStream _ _ _) as [? [?|]].
Qed.

Lemma relays_resolve p r k sid data now : relays (fun w => Resolve.HandleResolve sends took p r w k sid data now).
Proof. intros w. unfold Resolve.HandleResolve. destruct (sid =? 0); [by constructor | apply relays_send]. Qed.

(** ** Every handler *)

Lemma tame_sendme env id k sid data : tame (handle_sendme sends env id k sid data).
Proof.
  apply tame_bind; [|intros [e|]; [apply tame_destroy_close | apply tame_ret]].
  intros h. by destruct (ExitStreams.HandleSendme _ _ _ _ _ _) as [[b m] e].
Qed.

Lemma tame_create2 env k c la rsa ed : tame (handleCreate2Auth sends env k c la rsa ed).
Proof.
  unfold handleCreate2Auth. destruct (match dos env with Some g => _ | None => _ end); [apply tame_destroy|].
  apply tame_bind; [apply tame_get|]. intros [o|]; [apply tame_destroy|].
  destruct (Extend2.parse_create2 _) as [[htype hs]|]; [|apply tame_destroy]. destruct (negb _); [apply tame_destroy|].
  destruct (handshake env htype hs) as [[[resp km] nonce]|]; [|apply tame_destroy].
  destruct (RelayCrypto.newCircuitCrypto _ km) as [cc|]; [|apply tame_destroy].
  apply tame_bind; [by apply tame_modify|]. intros _. apply tame_bind; [destruct (htype =? 3); [by apply tame_modify | apply tame_ret]|].
  intros _. unfold sendCreated2. destruct (Extend2.created2_payload resp); [by apply tame_write | apply tame_ret].
Qed.

Lemma tame_registerIntro o k auth ext t : tame (registerIntro o k auth ext t).
Proof. intros h. unfold registerIntro. destruct (heap h !! o); [|done]. by repeat case_if. Qed.

Lemma tame_registerRend o k cookie t : tame (registerRend o k cookie t).
Proof. intros h. unfold registerRend. destruct (heap h !! o); [|done]. by repeat case_if. Qed.

Lemma tame_expired l : tame (close_expired sends l).
Proof. induction l as [|s l IH]; [apply tame_ret|]. apply tame_bind; [apply tame_closeHS|]. by intros _. Qed.

Lemma tame_reap t : tame (reapExpiredRend sends t).
Proof.
  apply tame_bind; [apply tame_get|]. intros dead. apply tame_bind; [by apply tame_modify|]. intros _.
  apply tame_bind; [by apply tame_modify|]. intros _. apply tame_expired.
Qed.

Lemma tame_establish_intro env o k payload : tame (handleEstablishIntro sends env o k payload).
Proof.
  apply tame_unless; [apply tame_reject|]. apply tame_bind; [apply tame_get|]. intros [c|]; [|apply tame_ret].
  case_if; [apply tame_closeHS|]. case_if; [apply tame_closeHS|]. destruct (IntroPoint.VerifyEstablishIntroPayload _ _); [apply tame_closeHS|].
  case_if; [apply tame_closeHS|]. apply tame_bind; [apply tame_registerIntro|]. intros [e|]; [apply tame_closeHS|].
  apply tame_bind; [by apply tame_modify|]. intros _. apply tame_send.
Qed.

Lemma tame_introduce1 env o k payload : tame (handleIntroduce1 sends env o k payload).
Proof.
  apply tame_unless; [apply tame_reject|]. destruct (IntroPoint.parseIntroduce1AuthKey payload) as [auth|]; [|apply tame_send].
  apply tame_bind; [apply tame_get|]. intros [s|]; [|apply tame_send]. destruct (IntroPoint.allowIntro2 _ _) as [b allowed].
  apply tame_bind; [by apply tame_modify|]. intros _. case_if; [apply tame_send|].
  apply tame_bind; [apply tame_send|]. intros [e|]; apply tame_send.
Qed.

Lemma tame_establish_rend env o k payload : tame (handleEstablishRendezvous sends env o k payload).
Proof.
  apply tame_unless; [apply tame_reject|]. apply tame_bind; [apply tame_reap|]. intros _. case_if; [apply tame_closeHS|].
  apply tame_bind; [apply tame_registerRend|]. intros [e|]; [apply tame_closeHS|].
  apply tame_bind; [by apply tame_modify|]. intros _. apply tame_send.
Qed.

Lemma tame_restore key s : tame (restoreRend key s).
Proof. apply tame_modify. intros h. by destruct (rendByCookie h !! key). Qed.

Lemma tame_rendezvous1 env o k payload : tame (handleRendezvous1 sends env o k payload).
Proof.
  apply tame_unless; [apply tame_reject|]. apply tame_bind; [apply tame_reap|]. intros _. case_if; [apply tame_closeHS|].
  apply tame_bind; [apply tame_get|]. intros slot. apply tame_bind; [by apply tame_modify|]. intros _.
  apply tame_bind; [apply tame_get|]. intros c. destruct slot as [s|]; [|apply tame_closeHS]. destruct c as [c|]; [|apply tame_closeHS].
  apply tame_bind; [apply tame_get|]. intros r.
  match goal with |- tame (if ?x then _ else _) => destruct x end; [apply tame_closeHS|].
  match goal with |- tame (if ?x then _ else _) => destruct x end.
  { apply tame_bind; [apply tame_restore|]. intros _. apply tame_closeHS. }
  apply tame_bind; [apply tame_send|]. intros [e|].
  { apply tame_bind; [apply tame_restore|]. intros _. apply tame_closeHS. }
  apply tame_bind; [apply tame_bind; [by apply tame_modify|]; intros _; by apply tame_modify|]. intros _.
  apply tame_bind; [by apply tame_modify|]. intros _. apply tame_ret.
Qed.

Lemma tame_extended2 id resp : tame (sendExtended2 sends id resp).
Proof.
  unfold sendExtended2. destruct (Extend2.extended2_data resp) as [data|]; [|apply tame_ret]. apply tame_bind; [apply tame_get|].
  intros [[o c]|]; [|by destruct (RelayCell.Encode _)]. destruct (ServerCircuit.crypto c) as [cc|]; [|by destruct (RelayCell.Encode _)].
  destruct (RelayCrypto.originateRelay _ _ _ cc _) as [cc' [enc|e]]; (apply tame_bind; [by apply tame_modify|]; intros _); [|apply tame_ret].
  apply tame_bind; [apply tame_get|]. intros [k|]; [by apply tame_write | apply tame_ret].
Qed.

(** An extension brings eight credits; its CREATE2 pays for them. *)
Lemma register_credit id next addr k c h :
  credits (extended (registerExtendedCircuit id next addr k c h).1.1) <= credits (extended h) + 8 /\
  (registerExtendedCircuit id next addr k c h).1.2 = [].
Proof.
  unfold registerExtendedCircuit. rewrite bind_state, bind_out. unfold GetCircuit, get. cbn [fst snd app].
  match goal with |- context [match ?x with Some _ => registerExtended _ _ _ _ _ _ | None => _ end] => destruct x end; [|simpl; split; [lia|done]].
  unfold registerExtended. destruct (extended h !! id) eqn:E; [simpl; split; [lia|done]|]. cbn [fst snd]. split; [|done]. simpl.
  rewrite credits_insert by done. unfold credit. simpl. lia.
Qed.

Lemma create2_out k id p h :
  (write sends k (mkCell id Cell.CmdCreate2 p) h).2 = None -> cells_with Cell.CmdCreate2 (write sends k (mkCell id Cell.CmdCreate2 p) h).1.2 = 1.
Proof.
  unfold write, ServerCircuit.write_cell. destruct (Cell.Encode _ []).2; [done|]. by destruct (sends k _).
Qed.

Lemma paid_extend2 env id data k : paid (meanwhile env) -> paid (HandleExtend2 sends env id data k).
Proof.
  intros Hm. unfold HandleExtend2. destruct (Extend2.parse_extend2 data) as [req|]; [|apply tame_paid, tame_ret].
  destruct (connectToNextHop _ _ _) as [nc|]; [|apply tame_paid, tame_ret].
  destruct (Extend2.sendCreate2_payload _ _) as [p|]; [|apply tame_paid, tame_ret].
  intros h. unfold unless. rewrite bind_state, bind_out. set (w := write sends nc _ h).
  destruct (tame_write nc (mkCell (newOutboundCircID env) Cell.CmdCreate2 p) ltac:(done) h) as [_ Hw0]. fold w in Hw0.
  pose proof (pure_write sends nc (mkCell (newOutboundCircID env) Cell.CmdCreate2 p) h) as Hws. fold w in Hws.
  pose proof (create2_out nc (newOutboundCircID env) p h) as Hw1. fold w in Hw1. rewrite Hws.
  pose proof (cells_with_nonneg Cell.CmdCreate2 w.1.2) as Hnn.
  destruct w.2 as [e|]; [simpl; rewrite app_nil_r; lia|]. specialize (Hw1 eq_refl). rewrite !cells_with_app, Hw0, Hw1.
  assert (forall m : M (option error), (forall h, cells_with Cell.CmdRelayEarly (m h).1.2 + credits (extended (m h).1.1) <=
    credits (extended h) + 8 * cells_with Cell.CmdCreate2 (m h).1.2 + 8) ->
    cells_with Cell.CmdRelayEarly ((meanwhile env ;; m) h).1.2 + credits (extended ((meanwhile env ;; m) h).1.1) <=
    credits (extended h) + 8 * (cells_with Cell.CmdCreate2 ((meanwhile env ;; m) h).1.2) + 8) as Hx.
  { intros m Hmm. rewrite bind_state, bind_out, !cells_with_app. pose proof (Hm h). pose proof (Hmm (meanwhile env h).1.1). lia. }
  match goal with |- context [(meanwhile env ;; ?m)] => specialize (Hx m) end.
  match type of Hx with ?P -> _ => assert P as Hp end; [|specialize (Hx Hp); lia]. clear Hx. intros h1.
  assert (forall e : option error, cells_with Cell.CmdRelayEarly (ret e h1).1.2 + credits (extended (ret e h1).1.1) <=
    credits (extended h1) + 8 * cells_with Cell.CmdCreate2 (ret e h1).1.2 + 8) as Hr by (intros e; simpl; rewrite ?cells_with_nil; lia).
  destruct (created2 env) as [p2|]; [|apply Hr]. destruct (Extend2.relay_response p2) as [resp|]; [|apply Hr].
  unfold unless. rewrite bind_state, bind_out. destruct (register_credit id (newOutboundCircID env) (Extend2.r_address req) nc k h1) as [Hc ->].
  set (h2 := (registerExtendedCircuit _ _ _ _ _ h1).1.1) in *. destruct (registerExtendedCircuit _ _ _ _ _ h1).2 as [e|]; [simpl; rewrite ?cells_with_nil; lia|].
  assert (forall m : M (option error), tame m -> cells_with Cell.CmdRelayEarly ([] ++ (m h2).1.2) + credits (extended (m h2).1.1) <=
    credits (extended h1) + 8 * cells_with Cell.CmdCreate2 ([] ++ (m h2).1.2) + 8) as Ht.
  { intros m Hmt. pose proof (tame_paid m Hmt h2). simpl. lia. }
  apply Ht. apply tame_bind; [apply tame_get|]. intros c. apply tame_bind; [destruct c as [[o c]|]; [by apply tame_modify | apply tame_ret]|].
  intros _. apply tame_bind; [by apply tame_modify|]. intros _. apply tame_extended2.
Qed.

Lemma tame_guarded env o k sid m : tame m -> tame (guarded sends env o k sid m).
Proof.
  intros Hm. apply tame_unless.
  - unfold refuseSingleHopIfNeeded. destruct (dos env) as [g|]; [|apply tame_ret]. destruct (RefuseSingleHop g); [|apply tame_ret].
    apply tame_bind; [apply tame_get|]. intros [c|]; [|apply tame_ret]. case_if; [apply tame_ret|]. case_if; [apply tame_ret|].
    apply tame_destroy_close.
  - apply tame_unless; [|done]. unfold applyStreamDoS. destruct (dos env) as [g|]; [|apply tame_ret]. apply tame_bind; [apply tame_get|].
    intros [c|]; [|apply tame_ret]. destruct (AllowBeginOrResolve g); [apply tame_ret| |apply tame_destroy_close].
    apply tame_unless; [apply tame_dos_end | apply tame_ret].
Qed.

Lemma paid_forward id ext cmd payload :
  forall h, extended h !! id = Some ext ->
  let r := forward_to_next sends id ext cmd payload h in
  cells_with Cell.CmdRelayEarly r.1.2 + credits (extended r.1.1) <= credits (extended h) + 8 * cells_with Cell.CmdCreate2 r.1.2.
Proof.
  intros h He. cbv zeta. unfold forward_to_next. destruct (Z.eqb_spec cmd Cell.CmdRelayEarly) as [->|Hc]; [|by apply tame_paid, tame_next].
  destruct (Z.leb_spec 8 (RelayEarlyCount ext)); [by apply tame_paid, tame_next|].
  rewrite bind_state, bind_out. unfold modify. cbn [fst snd app]. rewrite pure_next. set (ext' := set_early ext _).
  assert (cells_with Cell.CmdRelayEarly (sendToNextHop sends ext' (mkCell (NextHopCircuitID ext') Cell.CmdRelayEarly payload)
    (set_extended h (<[id := ext']> (extended h)))).1.2 <= 1) as Hone.
  { assert (forall k h, cells_with Cell.CmdRelayEarly (write sends k (mkCell (NextHopCircuitID ext') Cell.CmdRelayEarly payload) h).1.2 <= 1) as Hw.
    { intros k h'. unfold write. destruct (write_cell_cases k (mkCell (NextHopCircuitID ext') Cell.CmdRelayEarly payload)) as [Hw|Hw];
        destruct (ServerCircuit.write_cell sends k _) as [out e]; simpl in *; rewrite Hw; unfold cells_with; simpl; done. }
    unfold sendToNextHop. destruct (NextHopOR ext'); [apply Hw|]. by destruct (NextHopConn ext'); [apply Hw|]. }
  cbn [extended set_extended]. rewrite <- (insert_delete_eq (extended h)). rewrite credits_insert by apply lookup_delete_eq.
  rewrite (credits_split (extended h) id ext He). pose proof (cells_with_nonneg Cell.CmdCreate2
    (sendToNextHop sends ext' (mkCell (NextHopCircuitID ext') Cell.CmdRelayEarly payload) (set_extended h (<[id := ext']> (extended h)))).1.2).
  assert (credit ext' + 1 = credit ext) by (unfold credit, ext'; simpl; lia). rewrite insert_delete_eq. lia.
Qed.

Section Environment.
Context (env : cell_env) (Hm : paid (meanwhile env)).

Lemma paid_local_command o id k rc : paid (local_command sends took env o id k rc).
Proof using Hm.
  unfold local_command. cbv zeta.
  assert (forall m : M (option error), tame m -> tame (if negb (RelayCell.StreamID rc =? 0) then destroyHSCircuit sends o k else m)) as Hc
    by (intros m Ht; case_if; [apply tame_closeHS | done]).
  destruct (RelayCell.Command rc =? RelayCell.RelayBegin); [apply tame_paid, tame_guarded, tame_on_exits, relays_begin|].
  destruct (RelayCell.Command rc =? RelayCell.RelayBeginDir); [apply tame_paid, tame_guarded, tame_on_exits, relays_begin_dir|].
  destruct (RelayCell.Command rc =? RelayCell.RelayResolve); [apply tame_paid, tame_guarded, tame_on_exits, relays_resolve|].
  destruct (RelayCell.Command rc =? RelayCell.RelayData); [apply tame_paid, tame_on_exits, relays_data|].
  destruct (RelayCell.Command rc =? RelayCell.RelaySendme); [apply tame_paid, tame_sendme|].
  destruct (RelayCell.Command rc =? RelayCell.RelayEnd).
  { apply tame_paid, tame_bind; [by apply tame_modify|]. intros _. apply tame_ret. }
  destruct (RelayCell.Command rc =? RelayCell.RelayExtend2); [by apply paid_extend2|].
  destruct (RelayCell.Command rc =? RelayCell.RelayTruncate).
  { apply tame_paid, tame_bind; [apply tame_destroy_next|]. intros _. apply tame_ret. }
  destruct (RelayCell.Command rc =? RelayCell.RelayEstablishIntro); [apply tame_paid, Hc, tame_establish_intro|].
  destruct (RelayCell.Command rc =? RelayCell.RelayEstablishRendezvous); [apply tame_paid, Hc, tame_establish_rend|].
  destruct (RelayCell.Command rc =? RelayCell.RelayIntroduce1); [apply tame_paid, Hc, tame_introduce1|].
  destruct (RelayCell.Command rc =? RelayCell.RelayRendezvous1); [apply tame_paid, Hc, tame_rendezvous1|].
  apply tame_paid, tame_ret.
Qed.

Lemma paid_local id c k : paid (handleLocalRelayCell sends took env id c k).
Proof using Hm.
  apply paid_bind; [apply tame_paid, tame_get|]. intros [[o c0]|]; [|apply tame_paid, tame_ret].
  destruct (ServerCircuit.crypto c0) as [cc|]; [|apply tame_paid, tame_ret].
  destruct (RelayCrypto.decryptInboundWithAD _ _ _ cc _ _) as [cc' r]. apply paid_bind; [by apply tame_paid, tame_modify|]. intros _.
  destruct r as [[plain digest]|e]; [|destruct e; try apply tame_paid, tame_ret; apply tame_paid, tame_destroy_close].
  apply paid_bind; [by apply tame_paid, tame_modify|]. intros _. destruct (RelayCrypto.decodeRelay cc' plain) as [rc|]; [|apply tame_paid, tame_ret].
  destruct (joinedCirc c0), (joinedConn c0); try apply paid_local_command. apply tame_paid, tame_send.
Qed.

Lemma paid_from_client id ext c k h :
  extended h !! id = Some ext ->
  let r := forwardExtendedFromClient sends env id ext c k h in
  cells_with Cell.CmdRelayEarly r.1.2 + credits (extended r.1.1) <= credits (extended h) + 8 * cells_with Cell.CmdCreate2 r.1.2.
Proof.
  intros He. cbv zeta. unfold forwardExtendedFromClient. rewrite bind_state, bind_out. unfold GetCircuit, get. cbn [fst snd app].
  destruct (circuits h !! id) as [o|]; [|by apply paid_forward]. destruct (heap h !! o) as [c0|]; [|by apply paid_forward].
  destruct (ServerCircuit.crypto c0) as [cc|]; [|by apply paid_forward].
  destruct (RelayCrypto.peelInboundWithAD _ _ _ cc _ _) as [cc' r]. rewrite bind_state, bind_out.
  set (u := update_circ o _ h). assert (u.1.2 = []) as -> by done. set (h1 := u.1.1). assert (extended h1 = extended h) as Heq by done.
  clearbody h1. clear u. cbn [app]. rewrite <- Heq in He |- *.
  assert (forall m : M (option error), tame m -> cells_with Cell.CmdRelayEarly (m h1).1.2 + credits (extended (m h1).1.1) <=
    credits (extended h1) + 8 * cells_with Cell.CmdCreate2 (m h1).1.2) as Ht by (intros m Hmt; by apply tame_paid).
  destruct r as [[[peeled forUs] digest]|e]; [|apply Ht, tame_ret]. destruct forUs; [|by apply paid_forward].
  apply Ht. apply tame_bind; [by apply tame_modify|]. intros _. destruct (RelayCrypto.decodeRelay cc' peeled) as [rc|]; [|apply tame_ret].
  case_if; [apply tame_sendme|]. case_if; [apply tame_bind; [apply tame_destroy_next|]; intros _; apply tame_ret|]. case_if; apply tame_ret.
Qed.

Lemma paid_relay k c : paid (handleRelay sends took env k c).
Proof using Hm.
  apply paid_bind; [apply tame_paid, tame_get|]. intros [_|]; [|apply tame_paid, tame_destroy].
  intros h. unfold ForwardRelayCell. rewrite bind_state, bind_out. unfold get. cbn [fst snd app].
  destruct (extended h !! CircID c) as [ext|] eqn:He; [|apply paid_local]. rewrite bind_state, bind_out. unfold modify. cbn [fst snd app].
  set (ext' := match ClientConn ext with None => _ | Some _ => _ end). set (h1 := set_extended h _).
  pose proof (paid_from_client (CircID c) ext' c k h1 ltac:(simpl; apply lookup_insert_eq)) as Hp. cbv zeta in Hp.
  assert (credits (extended h1) = credits (extended h)) as Hc; [|lia].
  unfold h1. simpl. rewrite <- (insert_delete_eq (extended h)), credits_insert by apply lookup_delete_eq.
  rewrite (credits_split (extended h) _ ext He). f_equal. unfold ext', credit. by destruct (ClientConn ext).
Qed.

Lemma paid_cell k c la rsa ed : paid (handleIncomingCell sends took env k c la rsa ed).
Proof using Hm.
  unfold handleIncomingCell. destruct (_ =? _); [apply tame_paid, tame_create2|]. destruct (_ || _); [apply paid_relay|].
  destruct (_ =? _); [|apply tame_paid, tame_ret]. apply tame_paid, tame_bind; [apply tame_close|]. intros _. apply tame_ret.
Qed.

End Environment.

Lemma tame_to_client ext c : tame (forwardCellToClient sends ext c).
Proof.
  unfold forwardCellToClient. destruct (ClientConn ext) as [k|]; [|apply tame_ret].
  destruct (_ || _) eqn:E; [|apply tame_write; simpl; intros He; rewrite He, orb_true_r in E; done].
  apply tame_bind; [apply tame_get|]. intros [[o c0]|]; [|apply tame_ret]. destruct (ServerCircuit.crypto c0) as [cc|]; [|apply tame_ret].
  destruct (negb _); [apply tame_ret|]. destruct (RelayCrypto.wrapOutbound _ _ cc _ _) as [cc' r].
  apply tame_bind; [by apply tame_modify|]. intros _. destruct r; [by apply tame_write | apply tame_ret].
Qed.

Lemma tame_deliver pick addr c : tame (DeliverFromNextHop sends pick addr c).
Proof.
  apply tame_bind; [apply tame_get|]. intros [[id ext]|]; [|apply tame_ret]. apply tame_bind; [apply tame_to_client|]. intros _.
  destruct (_ =? _); [|apply tame_ret]. apply tame_bind; [|intros _; apply tame_close].
  intros h. unfold modify. cbn [fst snd]. split; [apply delete_subseteq | done].
Qed.

Lemma tame_close_all : tame (CloseAll sends).
Proof.
  apply tame_bind; [by apply tame_modify|]. intros _. apply tame_bind; [|intros _; by apply tame_modify].
  apply tame_bind; [apply tame_get|]. intros l. apply tame_bind; [|intros _ h; unfold modify; cbn [fst snd]; split; [apply map_empty_subseteq | done]].
  induction l as [|ext l IH]; [apply tame_ret|]. apply tame_bind; [by apply tame_next|]. by intros _.
Qed.

Lemma paid_run ops : Forall (fun o => paid (exec sends took o)) ops -> paid (run sends took ops).
Proof. induction 1 as [|o ops Ho _ IH]; [apply tame_paid, tame_ret|]. apply paid_bind; [done|]. by intros _. Qed.

Lemma paid_exec o : paid (exec sends took o).
Proof.
  induction o as [b env k c la rsa ed Hb|pick addr c|id| |p] using cell_op_ind; cbn [exec].
  - apply paid_bind; [|intros _; apply tame_paid, tame_ret]. apply paid_cell. by apply (paid_run b).
  - apply tame_paid, tame_deliver.
  - apply tame_paid, tame_close.
  - apply tame_paid, tame_close_all.
  - by apply tame_paid, tame_modify.
Qed.

(** C23: RELAY_EARLY is what lets a circuit grow, and a relay passes on at most eight
    per extension: whatever cells arrive, from anywhere and in any order, the
    relay never has sent more than eight RELAY_EARLY cells for each CREATE2 it
    has sent. *)
Theorem relay_early_budget ops :
  let out := (run sends took ops NewCircuitHandler).1.2 in
  cells_with Cell.CmdRelayEarly out <= 8 * cells_with Cell.CmdCreate2 out.
Proof.
  cbv zeta. pose proof (paid_run ops) as Hp. specialize (Hp ltac:(apply Forall_forall; intros o _; apply paid_exec) NewCircuitHandler).
  pose proof (credits_nonneg (extended (run sends took ops NewCircuitHandler).1.1)).
  change (credits (extended NewCircuitHandler)) with 0 in Hp. lia.
Qed.

End Budget.

End CircuitTeardown.
