(* ===== verification/Rendezvous.v ===== *)
(** * Rendezvous points (pkg/relay/hsrend.go, pkg/relay/forwarding.go)

    Two circuits joined at a rendezvous point form one channel: what the client of
    either says reaches the client of the other, in order and unchanged, although
    the relay decrypts with one circuit's keys and encrypts with the other's.  The
    clients' ends are the last hops of their circuits (pkg/circuit/onion.go); the
    hops before them are transparent ([RelayCrypto.v]).  Further, runs of the
    handler in which a circuit suffers from what happens to others. *)

From S2P Require Import Prelude Conversion Cell RelayCell CellPayloads CGO Onion RelayCrypto GoStrings Extend2 IntroPoint ServerCircuit ExitStreams CircuitHandler CircuitTables RelayInvariant CircuitTeardown.
Import Cell(Cell, mkCell, CircID, Command, Payload).
Import ServerCircuit(ServerCircuit, Primitives, CircuitID, aesEncrypt, aesDecrypt, sha1, crypto, set_crypto, joinedCirc, joinedConn, output).
Import GoStrings(hex_encode).
Import CircuitHandler CircuitTables RelayInvariant CircuitTeardown.

Module Rendezvous.

(** What the relay needs of AES and SHA-1. *)
Class PrimitivesLaws (P : Primitives) := {
  aesEncrypt_length : forall k b, length k = 16%nat -> length b = 16%nat -> length (aesEncrypt k b) = 16%nat;
  aesDecrypt_length : forall k b, length k = 16%nat -> length b = 16%nat -> length (aesDecrypt k b) = 16%nat;
  aesDecrypt_Encrypt : forall k b, length k = 16%nat -> length b = 16%nat -> aesDecrypt k (aesEncrypt k b) = b;
  aesEncrypt_Decrypt : forall k b, length k = 16%nat -> length b = 16%nat -> aesEncrypt k (aesDecrypt k b) = b;
  sha1_length : forall m, length (sha1 m) = 20%nat;
}.

Abbreviation Hop := (Onion.Hop (G := CGO.CGOPair)).

(** A relay message: command, stream and data. *)
Abbreviation msg := (Z * Z * bytes)%type.

Definition cell_of (m : msg) : RelayCell.RelayCell :=
  let '(cmd, sid, data) := m in RelayCell.mkRelayCell cmd 0 sid [0; 0; 0; 0] (len data) data.

(** The message has a place in a cell of the format. *)
Definition fits (v1 : bool) (m : msg) : Prop :=
  if v1 then RelayCell.v1_wf (cell_of m) else RelayCell.v0_wf (cell_of m).

Global Instance fits_dec v1 m : Decision (fits v1 m).
Proof. unfold fits. destruct v1; apply _. Defined.

Definition plain_of (v1 : bool) (m : msg) : bytes :=
  if v1 then RelayCell.v1_image (cell_of m) else RelayCell.v0_image (cell_of m).

Lemma set_Length_cell_of m : RelayCell.set_Length (cell_of m) (len (RelayCell.Data (cell_of m))) = cell_of m.
Proof. by destruct m as [[cmd sid] data]. Qed.

Lemma fits_small v1 m : fits v1 m -> len m.2 <= RelayCell.maxDataLen.
Proof.
  destruct m as [[cmd sid] data]. destruct v1; [|by intros [_ Hl]]. intros (_ & _ & _ & Hl & _). simpl in *.
  rewrite RelayCell.MaxDataV1_offset in Hl. pose proof (RelayCell.v1_offset_range cmd). change RelayCell.maxDataLen with 498. lia.
Qed.

Lemma decode_plain v1 m : fits v1 m -> RelayCrypto.decode v1 (plain_of v1 m) = Some m.
Proof.
  intros Hf. unfold RelayCrypto.decode, plain_of. destruct v1; [rewrite RelayCell.DecodeV1_image | rewrite RelayCell.Decode_image]; try done;
    rewrite set_Length_cell_of; by destruct m as [[cmd sid] data].
Qed.

Lemma len_plain v1 m : fits v1 m -> len (plain_of v1 m) = 509.
Proof.
  intros Hf. destruct v1; simpl.
  - apply RelayCell.len_v1_image. by destruct Hf as (_ & _ & _ & Hl & _).
  - destruct Hf as [(_ & _ & _ & Hd & _) Hl]. unfold len. by rewrite RelayCell.len_v0_image.
Qed.

Lemma plain_addressable (h : Hop) m : fits (Onion.usesCGO h) m -> RelayCrypto.addressable h (plain_of (Onion.usesCGO h) m) = true.
Proof.
  intros Hf. unfold RelayCrypto.addressable. rewrite (len_plain _ _ Hf). destruct (Onion.usesCGO h); [done|].
  by destruct m as [[cmd sid] data].
Qed.

Lemma bind_get {A B} (f : CircuitHandler -> A) (k : A -> M B) h : bind (get f) k h = k (f h) h.
Proof. unfold bind, get. by destruct (k (f h) h) as [[??]?]. Qed.

Lemma bind_modify {B} f (k : unit -> M B) h : bind (modify f) k h = k tt (f h).
Proof. unfold bind, modify. by destruct (k tt (f h)) as [[??]?]. Qed.

Section Splice.
Context `{PrimitivesLaws} `{IntroPoint.IntroCrypto}.
Context (sends : Z -> Cell -> bool) (took : Z -> Cell -> Z).

Abbreviation encryptOnion := (Onion.encryptOnion sha1 (RelayCrypto.hop_originate aesEncrypt aesDecrypt)
  (RelayCrypto.hop_forward aesEncrypt aesDecrypt) 509).
Abbreviation decryptOnion := (Onion.decryptOnion sha1 (RelayCrypto.hop_backward aesEncrypt aesDecrypt)).

(** ** The two legs *)

(** What the client sends reaches the relay's decoder. *)
Lemma leg_in (hop : Hop) cc m :
  RelayCrypto.matched hop cc -> fits (Onion.usesCGO hop) m ->
  exists hop' cc' cell tag plain rc,
    encryptOnion [hop] RelayCrypto.cgoADRelay 0 (plain_of (Onion.usesCGO hop) m) = ([hop'], Ok (cell, tag)) /\ len cell = 509 /\
    RelayCrypto.decryptInboundWithAD aesEncrypt aesDecrypt sha1 cc cell RelayCrypto.cgoADRelay = (cc', Ok (plain, tag)) /\
    RelayCrypto.decodeRelay cc' plain = Ok rc /\ (RelayCell.Command rc, RelayCell.StreamID rc, RelayCell.Data rc) = m /\
    RelayCrypto.matched hop' cc' /\ Onion.usesCGO hop' = Onion.usesCGO hop.
Proof.
  intros Hm Hf. pose proof (plain_addressable hop m Hf) as Ha.
  destruct (RelayCrypto.originate_claimed aesEncrypt aesDecrypt sha1 aesEncrypt_length aesDecrypt_length aesEncrypt_Decrypt sha1_length
    hop cc RelayCrypto.cgoADRelay _ Hm Ha) as (hop' & cc' & out & tag & Ho & Hp & Hl & Hm').
  pose proof (RelayCrypto.originate_kind aesEncrypt aesDecrypt sha1 hop RelayCrypto.cgoADRelay (plain_of (Onion.usesCGO hop) m)) as Hk.
  rewrite Ho in Hk. cbn [fst] in Hk.
  pose proof (RelayCrypto.decode_image sha1 sha1_length hop cc _ Hm Ha) as Hd. rewrite (decode_plain _ _ Hf) in Hd.
  set (plain := RelayCrypto.image sha1 hop (plain_of (Onion.usesCGO hop) m)) in *.
  assert (RelayCrypto.message (RelayCrypto.decodeRelay cc' plain) = Some m) as Hr.
  { unfold RelayCrypto.decodeRelay. rewrite (RelayCrypto.matched_kind _ _ Hm'), Hk. exact Hd. }
  destruct (RelayCrypto.decodeRelay cc' plain) as [rc|e] eqn:Hrc; [|done]. injection Hr as Hr.
  exists hop', cc', out, tag, plain, rc. split_and!; try done.
  - unfold Onion.encryptOnion. rewrite (proj2 (Z.leb_gt _ _)) by (unfold len; simpl; lia).
    change ((0 <? 0) || false) with false. change ([hop] !! Z.to_nat 0) with (Some hop). cbv beta iota. by rewrite Ho.
  - unfold RelayCrypto.decryptInboundWithAD. rewrite Hl. unfold RelayCrypto.peelInboundWithAD in Hp. rewrite Hl in Hp.
    cbn [negb Z.eqb Pos.eqb] in *. by rewrite Hp.
Qed.

(** What the relay sends reaches the client. *)
Lemma leg_out (hop : Hop) cc m :
  RelayCrypto.matched hop cc -> fits (Onion.usesCGO hop) m ->
  exists hop' cc' cell plain tag,
    RelayCrypto.originateRelay aesEncrypt aesDecrypt sha1 cc (cell_of m) = (cc', Ok cell) /\ len cell = 509 /\
    decryptOnion [hop] RelayCrypto.cgoADRelay cell = ([hop'], Ok (plain, 0, tag, Onion.usesCGO hop)) /\
    RelayCrypto.decode (Onion.usesCGO hop) plain = Some m /\ RelayCrypto.matched hop' cc' /\ Onion.usesCGO hop' = Onion.usesCGO hop.
Proof.
  intros Hm Hf. pose proof (len_plain _ _ Hf) as Hl.
  destruct (RelayCrypto.originate_back aesEncrypt aesDecrypt sha1 aesEncrypt_length aesDecrypt_Encrypt sha1_length
    hop cc _ Hm Hl) as (hop' & cc' & out & tag & Ho & Hlo & Hm' & Hp).
  pose proof (RelayCrypto.decode_image_back sha1 sha1_length hop cc _ Hm Hl) as Hd. rewrite (decode_plain _ _ Hf) in Hd.
  exists hop', cc', out. eexists _, tag. split_and!; [|done|apply Hp|exact Hd|done|].
  2: { pose proof (RelayCrypto.peel_kinds aesEncrypt aesDecrypt sha1 [hop] 0 RelayCrypto.cgoADRelay out) as Hk.
       rewrite Hp in Hk. by injection Hk as Hk. }
  unfold RelayCrypto.originateRelay, RelayCrypto.originateRelayTag. rewrite (RelayCrypto.matched_kind _ _ Hm).
  destruct (Onion.usesCGO hop) eqn:Hu; simpl in Hf, Hl, Ho.
  - destruct Hf as (_ & _ & _ & H1 & H2). rewrite RelayCell.EncodeV1_image by done. by rewrite Ho.
  - destruct Hf as [(_ & _ & _ & Hdg & _) H1]. rewrite RelayCell.Encode_image by done. rewrite Hl. cbn [negb Z.eqb Pos.eqb]. by rewrite Ho.
Qed.

(** ** The joined circuits *)

(** One end: its circuit object and id at the relay, the connection to it, and the
    client's keys. *)
Record party := mkParty { obj : nat; cid : Z; link : Z; hop : Hop }.

Definition set_hop (a : party) (h : Hop) : party := mkParty (obj a) (cid a) (link a) h.

(** The relay's circuit for [a] is joined to that for [b], and [a] holds its keys. *)
Definition side (h : CircuitHandler) (a b : party) : Prop :=
  exists c cc, circuits h !! cid a = Some (obj a) /\ heap h !! obj a = Some c /\ CircuitID c = cid a /\
    extended h !! cid a = None /\ joinedCirc c = Some (obj b) /\ joinedConn c = Some (link b) /\
    crypto c = Some cc /\ RelayCrypto.matched (hop a) cc.

Definition spliced (h : CircuitHandler) (a b : party) : Prop := side h a b /\ side h b a /\ obj a <> obj b.

(** [a]'s client sends a message, the relay handles the cell, and [b]'s client
    reads what arrives. *)
Definition travel (env : cell_env) (h : CircuitHandler) (a b : party) (m : msg) : option (CircuitHandler * party * party * msg) :=
  match encryptOnion [hop a] RelayCrypto.cgoADRelay 0 (plain_of (Onion.usesCGO (hop a)) m) with
  | ([ha], Ok (cell, _)) =>
      match handleIncomingCell sends took env (link a) (mkCell (cid a) Cell.CmdRelay cell) false [] [] h with
      | (h, [(k, c)], None) =>
          if negb ((k =? link b) && (CircID c =? cid b) && (Command c =? Cell.CmdRelay)) then None
          else
            match decryptOnion [hop b] RelayCrypto.cgoADRelay (Payload c) with
            | ([hb], Ok (plain, _, _, v1)) => (fun m => (h, set_hop a ha, set_hop b hb, m)) <$> RelayCrypto.decode v1 plain
            | _ => None
            end
      | _ => None
      end
  | _ => None
  end.

(** What arrives, for messages from either end. *)
Fixpoint talk (h : CircuitHandler) (a b : party) (l : list (cell_env * bool * msg)) : option (list msg) :=
  match l with
  | [] => Some []
  | (env, true, m) :: l =>
      match travel env h a b m with Some (h, a, b, m) => cons m <$> talk h a b l | None => None end
  | (env, false, m) :: l =>
      match travel env h b a m with Some (h, b, a, m) => cons m <$> talk h a b l | None => None end
  end.

Lemma write_ok k id cell :
  len cell = 509 -> (forall c, sends k c = true) ->
  ServerCircuit.write_cell sends k (mkCell id Cell.CmdRelay cell) = ([(k, mkCell id Cell.CmdRelay cell)], None).
Proof.
  intros Hl Hs. unfold ServerCircuit.write_cell. rewrite Hs.
  assert ((Cell.Encode (mkCell id Cell.CmdRelay cell) []).2 = None) as ->; [|done].
  unfold Cell.Encode, Cell.EncodeLink. cbn [Payload Command]. rewrite Hl. cbn. change (Z.of_nat Cell.PayloadLen <? 509) with false. by destruct (509 - length cell)%nat.
Qed.

(** A relay cell on a circuit that ends here. *)
Lemma incoming_local env h o c id k cell :
  circuits h !! id = Some o -> heap h !! o = Some c -> extended h !! id = None ->
  handleIncomingCell sends took env k (mkCell id Cell.CmdRelay cell) false [] [] h =
    handleLocalRelayCell sends took env id (mkCell id Cell.CmdRelay cell) k h.
Proof.
  intros Hi Hc He. unfold handleIncomingCell. cbn [Command]. change (Cell.CmdRelay =? Cell.CmdCreate2) with false.
  change (Cell.CmdRelay =? Cell.CmdRelay) with true. cbn [orb]. unfold handleRelay, GetCircuit. cbn [CircID]. rewrite bind_get, Hi, Hc.
  unfold ForwardRelayCell. by rewrite bind_get, He.
Qed.

Lemma travel_arrives env h a b m :
  spliced h a b -> (forall c, sends (link b) c = true) -> fits (Onion.usesCGO (hop a)) m -> fits (Onion.usesCGO (hop b)) m ->
  exists h' ha hb, travel env h a b m = Some (h', set_hop a ha, set_hop b hb, m) /\ spliced h' (set_hop a ha) (set_hop b hb) /\
    Onion.usesCGO ha = Onion.usesCGO (hop a) /\ Onion.usesCGO hb = Onion.usesCGO (hop b).
Proof.
  intros ((c & cc & Hi & Hc & Hid & He & Hj & Hk & Hcc & Hm) & (d & dd & Hi' & Hd & Hid' & He' & Hj' & Hk' & Hdd & Hm') & Hne) Hs Hf Hf'.
  destruct (leg_in _ _ _ Hm Hf) as (ha & cc' & cell & tag & plain & rc & Hen & Hl & Hin & Hrc & Hmsg & Hma & Hka).
  destruct (leg_out _ _ _ Hm' Hf') as (hb & dd' & out & plain' & tag' & Hou & Hlo & Hde & Hdc & Hmb & Hkb).
  pose proof (fits_small _ _ Hf') as Hsm. destruct m as [[cmd sid] data]. simpl in Hsm. injection Hmsg as <- <- <-.
  set (h1 := set_heap h (alter (fun c => set_crypto c cc') (obj a) (heap h))).
  set (h2 := set_exits h1 (ExitStreams.NoteFwdDigest (exits h1) (cid a) tag) (brokenClock h1)).
  set (h3 := set_heap h2 (<[obj b := set_crypto d dd']> (heap h2))).
  assert (handleIncomingCell sends took env (link a) (mkCell (cid a) Cell.CmdRelay cell) false [] [] h =
    (h3, [(link b, mkCell (cid b) Cell.CmdRelay out)], None)) as Hh.
  { rewrite (incoming_local _ _ _ _ _ _ _ Hi Hc He). unfold handleLocalRelayCell, GetCircuit. rewrite bind_get, Hi, Hc, Hcc.
    cbn [Payload Command]. change (RelayCrypto.cgoAD Cell.CmdRelay) with RelayCrypto.cgoADRelay. rewrite Hin.
    unfold update_circ. rewrite !bind_modify. fold h1 h2. rewrite Hrc, Hj, Hk. unfold sendRelayToClient.
    assert (heap h2 !! obj b = Some d) as -> by (simpl; by rewrite lookup_alter_ne).
    unfold ServerCircuit.sendRelayToClient. rewrite Hdd. unfold ServerCircuit.originate_reply. rewrite RelayCell.NewRelayCell_ok by done.
    change (RelayCell.mkRelayCell _ _ _ _ _ _) with (cell_of (RelayCell.Command rc, RelayCell.StreamID rc, RelayCell.Data rc)).
    rewrite Hou, write_ok, Hid' by done. done. }
  exists h3, ha, hb. split_and!; [|split_and!| done | done].
  - unfold travel. rewrite Hen, Hh. cbn [CircID Command Payload]. rewrite !Z.eqb_refl. cbn [andb negb]. rewrite Hde, Hdc. done.
  - exists (set_crypto c cc'), cc'. split_and!; try done. simpl. rewrite lookup_insert_ne by done. simpl. rewrite lookup_alter_eq, Hc. done.
  - exists (set_crypto d dd'), dd'. split_and!; try done. simpl. by rewrite lookup_insert_eq.
  - done.
Qed.

Lemma talk_delivers h a b l :
  spliced h a b -> (forall c, sends (link a) c = true) -> (forall c, sends (link b) c = true) ->
  Forall (fun em => fits (Onion.usesCGO (hop a)) em.2 /\ fits (Onion.usesCGO (hop b)) em.2) l ->
  talk h a b l = Some (l.*2).
Proof.
  intros Hj Ha Hb Hl. revert h a b Hj Ha Hb Hl.
  induction l as [|[[env way] m] l IH]; intros h a b Hj Ha Hb Hl; [done|]. apply Forall_cons in Hl as [[Hf Hf'] Hl]. simpl in Hf, Hf'.
  destruct way; cbn [talk].
  - destruct (travel_arrives env h a b m Hj Hb Hf Hf') as (h' & ha & hb & -> & Hj' & Hka & Hkb).
    rewrite IH; [done | done | done | done |]. simpl. by rewrite Hka, Hkb.
  - assert (spliced h b a) as Hj2 by (destruct Hj as (? & ? & ?); by split_and!).
    destruct (travel_arrives env h b a m Hj2 Ha Hf' Hf) as (h' & hb & ha & -> & Hj' & Hkb & Hka).
    rewrite IH; [done | | done | done |]; [destruct Hj' as (? & ? & ?); by split_and!|]. simpl. by rewrite Hka, Hkb.
Qed.

(** ** End-to-end cells *)

(** A joined circuit drops a cell whose classic layer at the rendezvous point
    covers [o] with a recognized field that is not zero. *)
Lemma unrecognized_dropped env h a b o :
  spliced h a b -> Onion.usesCGO (hop a) = false -> len o = 509 -> at_ o 1 <> 0 ->
  exists hop' cell,
    Onion.wrap (RelayCrypto.hop_forward aesEncrypt aesDecrypt) [hop a] RelayCrypto.cgoADRelay o = ([hop'], Ok cell) /\
    let r := handleIncomingCell sends took env (link a) (mkCell (cid a) Cell.CmdRelay cell) false [] [] h in
    r.1.2 = [] /\ r.2 = None.
Proof.
  intros ((c & cc & Hi & Hc & Hid & He & Hj & Hk & Hcc & Hm) & _) Hu Hl Ho.
  unfold Onion.usesCGO in Hu. destruct (Onion.CGO (hop a)) eqn:Hg; [done|].
  destruct (RelayCrypto.matched_tor1 _ _ Hm Hg) as (f & bk & fd & bd & Hh & ->). rewrite Hh.
  eexists _, (Onion.XORKeyStream f o).2. split; [reflexivity|].
  rewrite (incoming_local _ _ _ _ _ _ _ Hi Hc He). unfold handleLocalRelayCell, GetCircuit. rewrite bind_get, Hi, Hc, Hcc.
  cbn [Payload Command]. unfold RelayCrypto.decryptInboundWithAD, RelayCrypto.peelInboundLocked.
  rewrite RelayCrypto.len_xor by done. cbn [negb Z.eqb Pos.eqb RelayCrypto.cgo RelayCrypto.fwdCipher].
  rewrite RelayCrypto.XORKeyStream_back, (proj2 (Z.eqb_neq _ _) Ho). cbn [negb orb]. unfold update_circ. rewrite bind_modify.
  cbn [RelayCrypto.usesCGO RelayCrypto.cgo RelayCrypto.with_fwd]. rewrite (proj2 (Z.eqb_neq _ _) Ho). done.
Qed.

(** C22: What a rendezvous point passes between two joined circuits.  Relay messages
    that the two clients address to the rendezvous point itself, as the last hop of
    their circuits (the layers of the hops before it taken off, or put on, along the
    way), and that fit the cell formats of both circuits, arrive at the other client
    unchanged and in order, whatever the order in which the two send, the relay
    re-encrypting from one circuit's keys to the other's, be they classic or CGO;
    provided its writes succeed.  Cells meant for a hop beyond the point are not
    passed on: on a classic circuit, a cell whose first recognized byte under the
    point's layer is not zero is dropped without an error and nothing is written. *)
Theorem rendezvous_is_channel h a b l :
  spliced h a b -> (forall c, sends (link a) c = true) -> (forall c, sends (link b) c = true) ->
  Forall (fun em => fits (Onion.usesCGO (hop a)) em.2 /\ fits (Onion.usesCGO (hop b)) em.2) l ->
  talk h a b l = Some (l.*2) /\
  (forall env o, Onion.usesCGO (hop a) = false -> len o = 509 -> at_ o 1 <> 0 ->
    exists hop' cell,
      Onion.wrap (RelayCrypto.hop_forward aesEncrypt aesDecrypt) [hop a] RelayCrypto.cgoADRelay o = ([hop'], Ok cell) /\
      let r := handleIncomingCell sends took env (link a) (mkCell (cid a) Cell.CmdRelay cell) false [] [] h in
      r.1.2 = [] /\ r.2 = None).
Proof.
  intros Hj Ha Hb Hl. split; [|intros env o; by apply (unrecognized_dropped _ _ _ b)]. by apply talk_delivers.
Qed.

(** After the rendezvous both clients add a hop with keys of their own
    ([AddHSHop]) and address their cells to it: the rendezvous point's layer then
    carries no digest.  A joined circuit drops such cells, it does not pass them
    on; [o] is what the rendezvous point's layer covers, with recognized bytes
    that are not zero. *)
Theorem end_to_end_cells_dropped env h a b o :
  spliced h a b -> Onion.usesCGO (hop a) = false -> len o = 509 -> at_ o 1 <> 0 ->
  exists hop' cell,
    Onion.wrap (RelayCrypto.hop_forward aesEncrypt aesDecrypt) [hop a] RelayCrypto.cgoADRelay o = ([hop'], Ok cell) /\
    let r := handleIncomingCell sends took env (link a) (mkCell (cid a) Cell.CmdRelay cell) false [] [] h in
    r.1.2 = [] /\ r.2 = None.
Proof. apply (unrecognized_dropped env h a b). Qed.

End Splice.

(** ** A rendezvous *)

Definition sample_env : cell_env :=
  mkEnv 0 None (fun _ _ => Some (zeros 64, RelayCrypto.sample_keys 72, zeros 20)) None
    (ExitStreams.mkBeginEnv (fun _ => None) (fun _ _ => Err (ExitStreams.mkNetError false [])) id) None true true true (fun _ => None)
    (fun _ _ => None) 0 None (ret tt).

Definition create2 (id : Z) : Cell := mkCell id Cell.CmdCreate2 ([0; 2; 0; 84] ++ zeros 84).

Definition sample_cookie : bytes := repeat 9 20.

Section Samples.
Local Existing Instances ExitStreams.toy_primitives IntroPoint.sample_crypto.

Definition sample_cell (k : Z) (c : Cell) : M (option error) :=
  handleIncomingCell ExitStreams.sends_all ExitStreams.in_no_time sample_env k c false [] [].

(** Circuits 3, 5 and 9 are created; 3 waits for the cookie, and 5 presents it. *)
Definition sample_rendezvous : M (option error) :=
  sample_cell 7 (create2 3) ;; sample_cell 8 (create2 5) ;; sample_cell 10 (create2 9) ;;
  handleEstablishRendezvous ExitStreams.sends_all sample_env 0 7 sample_cookie ;;
  handleRendezvous1 ExitStreams.sends_all sample_env 1 8 (sample_cookie ++ [1; 2; 3]).

Definition sample_joined : CircuitHandler := (sample_rendezvous NewCircuitHandler).1.1.

(** Closing a joined circuit takes away a stranger's rendezvous: circuit 3 keeps
    its cookie after it was joined, circuit 9 registers the same cookie (which is
    free again), and when 3 goes, the slot of 9 goes with it although 9 is
    untouched and still waits. *)
Theorem stale_cookie_evicts_stranger :
  let h := (handleEstablishRendezvous ExitStreams.sends_all sample_env 2 10 sample_cookie sample_joined).1.1 in
  let h' := (CloseCircuit ExitStreams.sends_all 3 h).1.1 in
  circ <$> rendByCookie h !! hex_encode sample_cookie = Some 2%nat /\
  rendByCookie h' !! hex_encode sample_cookie = None /\
  circuits h' !! 9 = Some 2%nat /\ ServerCircuit.rendCookie <$> heap h' !! 2%nat = Some sample_cookie.
Proof. vm_compute. by split_and!. Qed.

(** Circuit ids are shared by all connections: a second connection cannot open a
    circuit under an id the first uses (it is told DESTROY), and its own DESTROY for
    that id closes the circuit of the first. *)
Theorem foreign_destroy_closes_circuit :
  let h := (sample_cell 7 (create2 3) NewCircuitHandler).1.1 in
  circuits h !! 3 = Some 0%nat /\
  (sample_cell 8 (create2 3) h).1.2 = [(8, mkCell 3 Cell.CmdDestroy [Cell.DestroyReasonProtocol])] /\
  circuits (sample_cell 8 (mkCell 3 Cell.CmdDestroy [0]) h).1.1 !! 3 = None.
Proof. vm_compute. by split_and!. Qed.

(** A classic and a CGO circuit, joined. *)
Definition sample_end (cgo : bool) (id : Z) (p : nat) (k : Z) : option (ServerCircuit * Hop) :=
  let km := RelayCrypto.sample_keys (if cgo then 160 else 72) in
  match RelayCrypto.newCircuitCrypto aesEncrypt km, RelayCrypto.deriveHopFromKeyMaterial aesEncrypt cgo km with
  | Ok cc, Ok hop => Some (ServerCircuit.mkCircuit id km (Some cc) false false 0 [] [] [] false false [] [] (Some p) (Some k), hop)
  | _, _ => None
  end.

Definition sample_splice (c d : ServerCircuit) : CircuitHandler :=
  mkHandler {[0%nat := c; 1%nat := d]} 2 {[3 := 0%nat; 5 := 1%nat]} ∅ ∅ ∅ (IntroPoint.mkDoS false 0 0) (mkStats 0 0 0 0) ∅
    ExitStreams.NewExitStreamManager false.

Lemma toy_laws : PrimitivesLaws ExitStreams.toy_primitives.
Proof.
  constructor; [apply RelayCrypto.toy_length | apply RelayCrypto.toy_length | apply RelayCrypto.toy_inverse |
    apply RelayCrypto.toy_inverse | apply RelayCrypto.sample_H_length].
Qed.

Lemma sample_spliced :
  exists c d ha hb, sample_end false 3 1 8 = Some (c, ha) /\ sample_end true 5 0 7 = Some (d, hb) /\
    Onion.usesCGO ha = false /\ Onion.usesCGO hb = true /\
    spliced (sample_splice c d) (mkParty 0 3 7 ha) (mkParty 1 5 8 hb).
Proof.
  eexists _, _, _, _. split; [reflexivity|]. split; [reflexivity|]. split; [reflexivity|]. split; [reflexivity|]. split_and!; [| |done].
  - eexists _, _. split_and!; try reflexivity.
    apply (RelayCrypto.keys_matched aesEncrypt (RelayCrypto.sample_keys 72)); reflexivity.
  - eexists _, _. split_and!; try reflexivity.
    apply (RelayCrypto.keys_matched aesEncrypt (RelayCrypto.sample_keys 160)); reflexivity.
Qed.

Definition sample_talk : list (cell_env * bool * msg) :=
  [(sample_env, true, (RelayCell.RelayBegin, 4, [1; 2])); (sample_env, false, (RelayCell.RelayData, 4, [3])); (sample_env, true, (RelayCell.RelayDrop, 0, []))].

Lemma rendezvous_is_channel_witness :
  exists h a b, Onion.usesCGO (hop a) = false /\ Onion.usesCGO (hop b) = true /\
    talk ExitStreams.sends_all ExitStreams.in_no_time h a b sample_talk = Some (sample_talk.*2).
Proof.
  destruct sample_spliced as (c & d & ha & hb & _ & _ & Ha & Hb & Hs).
  eexists _, _, _. split; [|split]; [| |refine (proj1 (rendezvous_is_channel (H := toy_laws) _ _ _ _ _ _ Hs _ _ _))]; [exact Ha | exact Hb | done | done |].
  simpl. rewrite Ha, Hb. repeat constructor; by apply (bool_decide_unpack _).
Defined.

Lemma end_to_end_cells_dropped_witness :
  exists h cell, let r := sample_cell 7 (mkCell 3 Cell.CmdRelay cell) h in r.1.2 = [] /\ r.2 = None.
Proof.
  destruct sample_spliced as (c & d & ha & hb & _ & _ & Ha & _ & Hs).
  destruct (end_to_end_cells_dropped ExitStreams.sends_all ExitStreams.in_no_time sample_env _ _ _ (repeat 5 509) Hs
    Ha eq_refl ltac:(discriminate)) as (hop' & cell & _ & Hr).
  eexists _, cell. exact Hr.
Defined.

End Samples.

End Rendezvous.
